(* ===== verification/_CoqProject ===== *)
-Q . S2P
Prelude.v
Ring.v
Mq.v
Timer.v
Handle.v
Des.v
Crypt.v
Md5.v
Sha1.v
SprotoPack.v
Sproto.v
SprotoType.v
SprotoCode.v
SprotoSpec.v
SprotoBuffer.v
SprotoEncode.v
SprotoDecode.v
SprotoCodec.v
SprotoSafe.v
Cstr.v
Node.v
Mailbox.v
Command.v
Skiplist.v
SkiplistOrder.v
SkiplistRepr.v
SkiplistInsert.v
SkiplistDelete.v
SkiplistQuery.v
SkiplistSet.v
Netpack.v
NetpackFilter.v
NetpackServe.v
Seri.v
SeriPack.v
SeriSafe.v
Cluster.v
ClusterServe.v
Locks.v
Databuffer.v
DatabufferStream.v
HashId.v
HashIdPlaces.v
Gate.v
GateServe.v
SocketServer.v
SocketWp.v
SocketSend.v
SocketInv.v
SocketRequest.v
SocketPoll.v
SocketApi.v
SocketSystem.v
Harbor.v
HarborSpec.v
HarborServe.v
HarborSystem.v
HarborDeliver.v
LuaSocket.v
LuaSocketServe.v
LuaSocketArgs.v
Stm.v
StmSafe.v
Multicast.v
Sharedata.v
SharedataHash.v
SharedataConv.v
SharedataRead.v
