(* ===== verification/Prelude.v ===== *)
(** * A verification of the C core of the server

    The repository is a game server on skynet: [src/skynet/skynet-src] (the node: message
    queues, timer, handles, services, sockets), [src/skynet/service-src] (services in C),
    [src/skynet/lualib-src] and [src/lualib-src] (libraries in C for Lua).  This
    development translates that C code into Rocq definitions and proves what it promises.

    ** How the program works

    A node runs services.  A service is a context ([skynet_server.c]) with a handle
    ([skynet_handle.c]), a message queue ([skynet_mq.c]) and a module ([skynet_module.c]).
    Worker threads pop a queue from the global queue, dispatch a few of its messages and push
    it back.  Messages come from other services ([skynet_send]), from the timer
    ([skynet_timer.c]), from sockets ([socket_server.c], the poll thread) and from other
    nodes ([skynet_harbor.c], [service_harbor.c], [lua-cluster.c]).  Data from sockets is
    cut into messages by the gate ([service_gate.c]) or by [lua-netpack.c]; messages between
    services in Lua are written by [lua-seri.c]; those of clients by [sproto.c].

    ** Files

    - [Prelude]: outcomes of C code, words of 8 to 64 bits with their wrap-around, arrays,
      strings, tactics.  [Ring]: the representation of circular arrays.
    - [Mq]: [skynet_mq.c].  [store] maps addresses to queues, [W] adds the global queue.
      The interface [HasStore] gives the other components the operations on any state that
      contains a store.
    - [Timer]: [skynet_timer.c].  [timer] is the struct; [slot] names one of its lists.
    - [Handle]: [skynet_handle.c].  [handle_storage] is the struct; the interface [HasHandles]
      lets the contexts be part of any state.
    - [Node], [Mailbox], [Command], [Cstr]: [skynet_server.c], [skynet_harbor.c],
      [skynet_error.c], [skynet_env.c], [skynet_module.c], [skynet_monitor.c].  [node] is the
      whole state; it implements [HasStore] and [HasHandles].
    - [Locks]: [rwlock.h] and [spinlock.h] as step relations of threads that interleave.
    - [SocketServer], [SocketWp], [SocketSend], [SocketInv], [SocketRequest], [SocketPoll],
      [SocketApi], [SocketSystem]: [socket_server.c].  [IO] is a state monad over
      [socket_server]; the operating system is a script of [answer]s.
    - [Databuffer], [DatabufferStream], [HashId], [HashIdPlaces], [Gate], [GateServe]:
      [databuffer.h], [hashid.h] and [service_gate.c].
    - [Netpack], [NetpackFilter], [NetpackServe]: [lua-netpack.c].
    - [Seri], [SeriPack], [SeriSafe]: [lua-seri.c].
    - [Cluster], [ClusterServe]: [lua-cluster.c].
    - [Harbor], [HarborSpec], [HarborServe], [HarborSystem], [HarborDeliver]:
      [service_harbor.c].  [hub] is the abstract machine that it implements.
    - [LuaSocket], [LuaSocketServe], [LuaSocketArgs]: [lua-socket.c].  [world] holds the nodes
      and the blocks; [store] is the abstract state, a list of blocks for each buffer.
    - [Stm], [StmSafe], [Multicast]: [lua-stm.c] and [lua-multicast.c], objects that services
      on different threads share, as steps of threads that interleave.
    - [Sharedata], [SharedataHash], [SharedataConv], [SharedataRead]: [lua-sharedata.c].  [M]
      is a state monad with errors over the memory; [tree] relates a shared table to the
      table of Lua that it was made from.
    - [Sproto], [SprotoType], [SprotoCode], [SprotoSpec], [SprotoBuffer], [SprotoEncode],
      [SprotoDecode], [SprotoCodec], [SprotoSafe], [SprotoPack]: [sproto.c] and [lsproto.c].
      The callbacks count the slots of the Lua stack that encoding uses.
    - [Des], [Crypt], [Sha1]: [lua-crypt.c] and [lsha1.c].  [Md5] has the digest as RFC 1321
      defines it, to which that of [Crypt] is compared.
    - [Skiplist], [SkiplistOrder], [SkiplistRepr], [SkiplistInsert], [SkiplistDelete],
      [SkiplistQuery], [SkiplistSet]: [lua-zset/skiplist.c] and [lua-skiplist.c].

    A function keeps its name in C; where a C function is split, its loops have names of
    their own ([push_more], [read_loop]).  Structs are records with their fields' names, and
    enums are inductive types.

    ** Conventions

    - A C function returns [outcome]: it returns, an [assert] fails, it raises an error of
      Lua, or it is undefined (a wild pointer, an index out of bounds, a signed overflow).
      Theorems of safety state that the last does not happen.
    - Integers are [Z] with their width written out ([u8], [u16], [u32], [u64], [int_ok]).
      The lengths of Lua strings are not wrapped in [Seri], [Des], [Crypt] and [Sha1], where
      the code keeps them in an [int]: those files are about strings of fewer than 2^31 bytes.
    - Pointers are keys of explicit heaps where aliasing matters (queues, contexts, nodes of
      skip lists, messages of the gate, write buffers of sockets, tables of the Lua
      values), and their contents elsewhere.  An allocation gives a fresh key; memory
      never runs out, as [skynet_malloc] promises.
    - Code outside of the repository's own C is an argument: the answers of the system
      calls, clocks and random numbers, what [dlsym] finds, the callbacks of services,
      conversions between numbers and strings of the Lua library.  Stated hypotheses
      describe them, and witnesses give concrete functions.
    - What a lock protects is one step; [Locks] shows that the locks exclude each other.

    ** Fuel

    Loops that are not structural have fuel, and running out of it gives [Undefined], so that
    a theorem that says that a function returns also says that its loop ends.  Each
    caller passes enough: the length of the buffer that a loop consumes ([Netpack.push_more],
    [Seri.unpack_all], [Crypt.b64_decode_loop], the loops of sproto), the number of elements
    ([Skiplist.walk_fuel], [HashId.lookup_loop], [Databuffer.read_loop],
    [Handle.register_loop], whose table has a free slot), the digits of a number
    ([Cstr.to_digits], [Crypt.pow_mod_loop]).  The poll loop of the socket server takes any
    fuel above [SocketPoll.poll_fuel], which counts the requests and the buffers that are left:
    [SocketSystem.socket_server_safe] shows that no allowed call runs out of it, however
    many answers the system gives.  The nesting of
    tables in [Seri] is bounded by the code itself (32 levels), that of sproto by the code
    when encoding and by the length of the data when decoding; that of [Sharedata.convtable]
    by the calls that Lua nests, and running out of them is its error.

    ** What the theorems show

    - Refinements: message queues are FIFO ([Mq.mq_fifo]), the timing wheel is a timer with
      deadlines ([Timer.timer_refinement]), the registry is a map
      ([Handle.registry_refinement]), the skip list a sorted list
      ([SkiplistSet.skiplist_refinement]), the splitting of packets a function of the
      stream of bytes ([NetpackServe.netpack_refinement]), the gate a table of streams
      ([GateServe.gate_refinement]), the service between nodes a hub
      ([HarborSystem.harbor_refinement]), the buffers of sockets in a script streams
      ([LuaSocketServe.socket_buffer_refinement]), shared tables are the tables they were
      made from ([SharedataRead.sharedata_reads]), and the bytes that sockets are sent are those of the
      messages in order ([SocketSystem.socket_server_streams]).
    - Delivery: [Mailbox.skynet_send_local], [Mailbox.dead_service_replies];
      between nodes [HarborDeliver.harbor_delivery].
    - Round trips: [NetpackServe.netpack_roundtrip], [SeriPack.seri_roundtrip],
      [SprotoCodec.sproto_roundtrip], [ClusterServe.request_roundtrip],
      [ClusterServe.response_roundtrip], [SprotoPack.sproto_pack_roundtrip],
      [Des.des_roundtrip], [LuaSocketArgs.address_port_roundtrip], and those of base64 and hex.
    - Equivalence with the standards: SHA-1 and HMAC, MD5, modular exponentiation.
    - Safety: no assertion of the queues fails in what the node does with them, while a
      queue has fewer than 2^30 messages ([Mq.mq_no_assert]), and none of the socket
      server when its callers keep to its contract ([SocketSystem.socket_server_safe]: a
      message is sent to an open socket, by the call for its protocol; [early_send_fails]
      and [udp_direct_fails] are calls that do not).  What reads data from the network
      stays in its buffer: [ClusterServe.unpack_in_bounds], [SprotoSafe.decode_in_bounds]
      and [SeriSafe.unpack_ends], where the latter two need that no length in the data
      wraps around ([decode_wrap_overreads] is one that does), and harbor packets of a
      header at least ([HarborSystem.harbor_refinement]).  Locks exclude each other,
      shared objects and multicast packages are freed once, after their last use
      ([StmSafe.stm_safe], [Multicast.multicast_delivers]).
    - Ownership: the socket server and the harbor service free each message exactly once
      ([SocketSystem.socket_server_ownership], [HarborSystem.harbor_ownership]); deleting a
      shared table frees all that it has ([SharedataRead.sharedata_freed]).
    - Progress: a queue with messages is never lost ([Mq.mq_scheduling]); a writer that waits
      gets the lock ([Locks.Rw.rwlock_writer_progress]).
    - Each theorem names what it asks of its inputs, and a witness meets it.  Where the code
      does not do what it means to, a theorem or an example states what it does.

    ** Not modelled

    - Threads, signals and configuration ([skynet_start.c], [skynet_main.c],
      [skynet_daemon.c]), log files and statistics of memory: calls of the system.
    - Bindings that only check arguments or pass them on ([lua-skynet.c],
      [skynet_socket.c], the wrappers at the end of [lua-socket.c]) and debugging aids.
    - BSON, the clients of databases and HTTPS ([lua-bson.c], [lua-mongo.c],
      [lua-mysqlaux.c], [lua-https.c]), and the reader of documents that code in Lua
      writes ([lua-datasheet.c]).
    - Third-party code ([skynet/3rd], [lua-cjson]) and the code in Lua. *)
From Stdlib Require Export ZArith Lia.
From stdpp Require Export numbers strings relations prelude gmap list sorting.

#[global] Open Scope Z_scope.
(* [set_solver +H] clears hypotheses that may depend on each other. *)
#[export] Set Warnings "-clear-no-such-hyp".

(** ** Outcomes of C code

    A C function ends in one of four ways: it returns, an [assert] fails, it
    raises a Lua error ([luaL_error], with the message), or it runs into
    behaviour the C standard leaves undefined (a dangling pointer, an index
    out of bounds, an uninitialised read, a signed overflow). *)
Inductive outcome (A : Type) : Type :=
  | Ret (a : A)
  | AssertFail
  | LuaError (msg : string)
  | Undefined.
Arguments Ret {A} a.
Arguments AssertFail {A}.
Arguments LuaError {A} msg.
Arguments Undefined {A}.

#[export] Instance outcome_ret : MRet outcome := fun A a => Ret a.
#[export] Instance outcome_bind : MBind outcome := fun A B f o =>
  match o with
  | Ret a => f a
  | AssertFail => AssertFail
  | LuaError m => LuaError m
  | Undefined => Undefined
  end.

(** [assert(b)] *)
Definition assert_ (b : bool) : outcome unit := if b then Ret tt else AssertFail.

(** Dereference: a missing cell is undefined behaviour. *)
Definition deref {A} (o : option A) : outcome A :=
  match o with Some a => Ret a | None => Undefined end.

(** Result of a signed [int] computation, undefined on overflow. *)
Definition INT_MAX : Z := 2147483647.
Definition INT_MIN : Z := -2147483648.
Definition int_ok (x : Z) : outcome Z :=
  if (INT_MIN <=? x) && (x <=? INT_MAX) then Ret x else Undefined.

Lemma outcome_bind_Ret {A B} (o : outcome A) (f : A -> outcome B) b :
  (o ≫= f) = Ret b <-> exists a, o = Ret a /\ f a = Ret b.
Proof.
  split; [destruct o; cbn; [eauto|done..]|].
  by intros (a & -> & <-).
Qed.

Lemma int_ok_Ret x : INT_MIN <= x <= INT_MAX -> int_ok x = Ret x.
Proof.
  intros [??]. unfold int_ok.
  by rewrite (proj2 (Z.leb_le _ _)), (proj2 (Z.leb_le _ _)).
Qed.

Lemma int_ok_inv x y : int_ok x = Ret y -> y = x /\ INT_MIN <= x <= INT_MAX.
Proof.
  unfold int_ok. destruct (_ <=? _) eqn:E1, (x <=? _) eqn:E2; cbn; try done.
  intros [= <-]. apply Z.leb_le in E1, E2. done.
Qed.

Lemma mapM_Ret {A B} (f : A -> outcome B) l k :
  Forall2 (fun x y => f x = Ret y) l k -> mapM f l = Ret k.
Proof. induction 1 as [|x y l k Hx _ IH]; cbn; [done|]. by rewrite Hx; cbn; rewrite IH. Qed.

Lemma mapM_ext_seqZ {B} (f g : Z -> outcome B) n k :
  (forall i, 0 <= i < n -> f i = g i) -> mapM f (seqZ 0 n) = k ->
  mapM g (seqZ 0 n) = k.
Proof.
  intros Hfg <-. assert (Hin : forall i, i ∈ seqZ 0 n -> f i = g i).
  { intros i ?%elem_of_seqZ. apply Hfg. lia. }
  induction (seqZ 0 n) as [|i l IH]; [done|]. cbn.
  rewrite Hin by set_solver. destruct (g i); cbn; [|done..].
  rewrite IH by set_solver. done.
Qed.

(** Inversion of a returning chain of binds. *)
Ltac inv_ret1 :=
  match goal with
  | H : (_ ≫= _) = Ret _ |- _ =>
      apply outcome_bind_Ret in H; destruct H as (? & ? & H)
  | H : deref _ = Ret _ |- _ =>
      unfold deref in H; destruct (_ : option _) eqn:? in H; [|discriminate H]
  | H : assert_ ?b = Ret _ |- _ =>
      unfold assert_ in H; destruct b eqn:? in H; [|discriminate H]
  | H : int_ok _ = Ret _ |- _ => apply int_ok_inv in H; destruct H as [? H]
  | H : Ret _ = Ret _ |- _ => injection H as H
  | H : AssertFail = Ret _ |- _ => discriminate H
  | H : LuaError _ = Ret _ |- _ => discriminate H
  | H : Undefined = Ret _ |- _ => discriminate H
  end.
Ltac inv_ret := repeat (inv_ret1; simplify_eq/=).

(** Case analysis on the integer tests and decisions of goal and context. *)
Ltac zcase_at b :=
  lazymatch b with
  | context [Z.leb ?x ?y] => destruct (Z.leb_spec x y)
  | context [Z.ltb ?x ?y] => destruct (Z.ltb_spec x y)
  | context [Z.eqb ?x ?y] => destruct (Z.eqb_spec x y)
  end.
Ltac zcase :=
  match goal with
  | |- ?G => zcase_at G
  | |- _ => case_decide
  | H : ?G |- _ => zcase_at G
  end; try lia.
Ltac zcases := repeat zcase.

(** ** Arrays indexed by C integers *)
Section array.
Context {A : Type}.

Definition arr_lookup (l : list A) (i : Z) : option A :=
  if i <? 0 then None else l !! Z.to_nat i.

Definition arr_get (l : list A) (i : Z) : outcome A := deref (arr_lookup l i).

Definition arr_set (l : list A) (i : Z) (x : A) : outcome (list A) :=
  if (i <? 0) || (Z.of_nat (length l) <=? i) then Undefined
  else Ret (<[Z.to_nat i := x]> l).

Lemma arr_lookup_nat (l : list A) (i : nat) :
  arr_lookup l (Z.of_nat i) = l !! i.
Proof.
  unfold arr_lookup. destruct (Z.ltb_spec (Z.of_nat i) 0); [lia|].
  by rewrite Nat2Z.id.
Qed.

Lemma arr_lookup_nonneg (l : list A) i :
  0 <= i -> arr_lookup l i = l !! Z.to_nat i.
Proof. intros. unfold arr_lookup. destruct (Z.ltb_spec i 0); [lia|done]. Qed.

Lemma arr_lookup_lt l i x :
  arr_lookup l i = Some x -> 0 <= i < Z.of_nat (length l).
Proof.
  unfold arr_lookup. destruct (Z.ltb_spec i 0); [done|].
  intros ?%lookup_lt_Some. lia.
Qed.

Lemma arr_lookup_is_Some l i :
  0 <= i < Z.of_nat (length l) -> is_Some (arr_lookup l i).
Proof.
  intros. rewrite arr_lookup_nonneg by lia. apply lookup_lt_is_Some. lia.
Qed.

Lemma arr_set_Ret l i x :
  0 <= i < Z.of_nat (length l) -> arr_set l i x = Ret (<[Z.to_nat i := x]> l).
Proof.
  intros. unfold arr_set.
  destruct (Z.ltb_spec i 0), (Z.leb_spec (Z.of_nat (length l)) i); try lia.
  done.
Qed.

Lemma arr_set_inv l i x l' :
  arr_set l i x = Ret l' ->
  0 <= i < Z.of_nat (length l) /\ l' = <[Z.to_nat i := x]> l.
Proof.
  unfold arr_set.
  destruct (Z.ltb_spec i 0), (Z.leb_spec (Z.of_nat (length l)) i); cbn; try done.
  intros [= <-]. done.
Qed.

Lemma arr_lookup_insert l i j x :
  0 <= i < Z.of_nat (length l) ->
  arr_lookup (<[Z.to_nat i := x]> l) j =
    if decide (i = j) then Some x else arr_lookup l j.
Proof.
  intros Hi. unfold arr_lookup. destruct (Z.ltb_spec j 0).
  - destruct (decide (i = j)); [lia|done].
  - destruct (decide (i = j)) as [->|].
    + apply list_lookup_insert_eq. lia.
    + apply list_lookup_insert_ne. lia.
Qed.
End array.

(** An invariant of a step relation holds in every reachable state. *)
Lemma rtc_invariant {A} (R : relation A) (P : A -> Prop) a b :
  (forall x y, R x y -> P x -> P y) -> P a -> rtc R a b -> P b.
Proof. intros Hstep Ha Hab. induction Hab; eauto. Qed.

(** Index ranges, [for (i=a; i<b; i++)]. *)
Definition zrange (a b : Z) : list Z := seqZ a (b - a).

(** ** Machine words *)
Definition u8 (x : Z) : Z := x mod 2 ^ 8.
Definition u16 (x : Z) : Z := x mod 2 ^ 16.
Definition u32 (x : Z) : Z := x mod 2 ^ 32.
Definition u64 (x : Z) : Z := x mod 2 ^ 64.
(** Two's complement reinterpretation of the low 32 or 64 bits. *)
Definition s32 (x : Z) : Z := (x + 2 ^ 31) mod 2 ^ 32 - 2 ^ 31.
Definition s64 (x : Z) : Z := (x + 2 ^ 63) mod 2 ^ 64 - 2 ^ 63.

Lemma u32_range x : 0 <= u32 x < 2 ^ 32.
Proof. apply Z.mod_pos_bound. lia. Qed.
Lemma u64_small x : 0 <= x < 2 ^ 64 -> u64 x = x.
Proof. apply Z.mod_small. Qed.
Lemma u32_small x : 0 <= x < 2 ^ 32 -> u32 x = x.
Proof. apply Z.mod_small. Qed.
Lemma s32_small v : -2 ^ 31 <= v < 2 ^ 31 -> s32 v = v.
Proof. intros. unfold s32. rewrite Z.mod_small; lia. Qed.
Lemma s32_range v : -2 ^ 31 <= s32 v < 2 ^ 31.
Proof. unfold s32. pose proof (Z.mod_pos_bound (v + 2 ^ 31) (2 ^ 32)). lia. Qed.
Lemma u8_range x : 0 <= u8 x < 256.
Proof. apply Z.mod_pos_bound. lia. Qed.
Lemma u8_small x : 0 <= x < 256 -> u8 x = x.
Proof. apply Z.mod_small. Qed.

(** ** Lists *)
Section filter.
Context {A : Type}.

Lemma filter_ext_in (P Q : A -> Prop) `{!forall x, Decision (P x), !forall x, Decision (Q x)} (l : list A) :
  (forall x, x ∈ l -> P x <-> Q x) -> filter P l = filter Q l.
Proof.
  intros Hl. induction l as [|x l IH]; [done|].
  rewrite !filter_cons, IH by (intros; apply Hl; by right).
  destruct (Hl x) as [??]; [by left|]. repeat case_decide; tauto || done.
Qed.

Lemma filter_all (P : A -> Prop) `{!forall x, Decision (P x)} (l : list A) :
  (forall x, x ∈ l -> P x) -> filter P l = l.
Proof.
  intros Hl. induction l as [|x l IH]; [done|].
  rewrite filter_cons, decide_True, IH; [done|intros; apply Hl; by right|apply Hl; by left].
Qed.
End filter.

(** ** Bit masks and powers of two *)
Lemma land_ones_pow2 n a : 0 <= n -> Z.land a (2 ^ n - 1) = a mod 2 ^ n.
Proof. intros. by rewrite Z.sub_1_r, <- Z.ones_equiv, Z.land_ones. Qed.

Lemma lor_ones_eq n a b :
  0 <= n -> Z.lor a (2 ^ n - 1) = Z.lor b (2 ^ n - 1) <-> a / 2 ^ n = b / 2 ^ n.
Proof.
  intros Hn. rewrite !Z.sub_1_r, <- Z.ones_equiv.
  rewrite <- !Z.shiftr_div_pow2 by done. split; intros H.
  - apply (f_equal (fun x => Z.shiftr x n)) in H.
    rewrite !Z.shiftr_lor in H.
    replace (Z.shiftr (Z.ones n) n) with 0 in H; [by rewrite !Z.lor_0_r in H|].
    rewrite Z.shiftr_div_pow2, Z.ones_equiv, <- Z.sub_1_r by done.
    symmetry. apply Z.div_small. assert (0 < 2 ^ n) by (apply Z.pow_pos_nonneg; lia). lia.
  - apply Z.bits_inj'. intros i Hi. rewrite !Z.lor_spec.
    destruct (Z.ltb_spec i n).
    + by rewrite Z.ones_spec_low, !orb_true_r by lia.
    + f_equal. replace i with (i - n + n) by lia.
      by rewrite <- !Z.shiftr_spec, H by lia.
Qed.

Lemma lor_ones_eqb n a b :
  0 <= n -> (Z.lor a (2 ^ n - 1) =? Z.lor b (2 ^ n - 1)) = (a / 2 ^ n =? b / 2 ^ n).
Proof.
  intros Hn. pose proof (lor_ones_eq n a b Hn).
  destruct (Z.eqb_spec (Z.lor a (2 ^ n - 1)) (Z.lor b (2 ^ n - 1))),
    (Z.eqb_spec (a / 2 ^ n) (b / 2 ^ n)); tauto.
Qed.

Lemma div_coarse a b m k :
  0 <= m <= k -> a / 2 ^ m = b / 2 ^ m -> a / 2 ^ k = b / 2 ^ k.
Proof.
  intros ? H. replace k with (m + (k - m)) by lia. rewrite Z.pow_add_r by lia.
  assert (0 < 2 ^ m /\ 0 < 2 ^ (k - m)) by (split; apply Z.pow_pos_nonneg; lia).
  rewrite <- !Z.div_div by lia. by rewrite H.
Qed.

(** ** Byte strings

    A buffer, or a C string without its terminator, is a list of bytes. *)
Abbreviation bytes := (list Z).

(** [strcmp]: the sign of the lexicographic comparison of unsigned bytes. *)
Fixpoint strcmp (a b : bytes) : Z :=
  match a, b with
  | [], [] => 0
  | [], _ => -1
  | _, [] => 1
  | x :: a, y :: b => if x =? y then strcmp a b else if x <? y then -1 else 1
  end.

Lemma strcmp_refl a : strcmp a a = 0.
Proof. induction a as [|x a IH]; cbn; [done|]. by rewrite Z.eqb_refl. Qed.

Lemma strcmp_eq a b : strcmp a b = 0 <-> a = b.
Proof.
  split; [|intros ->; apply strcmp_refl].
  revert b. induction a as [|x a IH]; intros [|y b]; cbn; try done.
  zcases; try done. intros ?%IH. congruence.
Qed.

Lemma strcmp_swap a b : strcmp b a = - strcmp a b.
Proof. revert b. induction a as [|x a IH]; intros [|y b]; cbn; try done. zcases; auto. Qed.

Lemma strcmp_lt_trans a b c : strcmp a b < 0 -> strcmp b c < 0 -> strcmp a c < 0.
Proof.
  revert b c. induction a as [|x a IH]; intros [|y b] [|z c]; cbn; try lia.
  zcases. eauto.
Qed.

Definition str_lt (a b : bytes) : Prop := strcmp a b < 0.

#[export] Instance str_lt_strict : StrictOrder str_lt.
Proof.
  split; [|intros a b c; apply strcmp_lt_trans].
  intros a. unfold complement, str_lt. rewrite strcmp_refl. lia.
Qed.

(** The bytes of a string literal. *)
Definition str (s : string) : bytes :=
  (fun a => Z.of_nat (Ascii.nat_of_ascii a)) <$> String.list_ascii_of_string s.

(** The C string in a block: the bytes up to the first zero. *)
Fixpoint until_zero (s : bytes) : bytes :=
  match s with [] => [] | c :: s => if c =? 0 then [] else c :: until_zero s end.

Lemma sorted_lookup_lt {A} (R : relation A) (l : list A) (i j : nat) a b :
  StronglySorted R l -> l !! i = Some a -> l !! j = Some b -> (i < j)%nat -> R a b.
Proof.
  intros Hs Ha Hb Hij. rewrite <- (take_drop_middle l j b Hb) in Hs.
  apply (StronglySorted_app_1_elem_of _ _ _ _ _ Hs); [|by left].
  apply list_elem_of_lookup. exists i. by rewrite lookup_take_lt.
Qed.

Lemma elem_of_drop {A} (x : A) (n : nat) (l : list A) :
  x ∈ drop n l <-> exists i, l !! i = Some x /\ (n <= i)%nat.
Proof.
  rewrite list_elem_of_lookup. split.
  - intros [i Hi]. rewrite lookup_drop in Hi. exists (n + i)%nat. split; [done|lia].
  - intros (i & Hi & ?). exists (i - n)%nat. rewrite lookup_drop.
    by replace (n + (i - n))%nat with i by lia.
Qed.

Lemma sorted_filter {A} (R : relation A) (P : A -> Prop) `{!forall x, Decision (P x)} (l : list A) :
  StronglySorted R l -> StronglySorted R (filter P l).
Proof.
  induction 1 as [|x l Hl IH Hx]; [constructor|]. rewrite filter_cons.
  case_decide; [|done]. constructor; [done|]. rewrite Forall_forall in *.
  intros y [_ ?]%list_elem_of_filter. auto.
Qed.

(** [lor] of a low part and a shifted high part is their sum. *)
Lemma lor_shiftl_add n a b :
  0 <= n -> 0 <= a < 2 ^ n -> 0 <= b -> Z.lor a (Z.shiftl b n) = a + b * 2 ^ n.
Proof.
  intros Hn Ha Hb. rewrite <- Z.shiftl_mul_pow2 by done.
  rewrite Z.add_nocarry_lxor, Z.lxor_lor; [done|..];
    apply Z.bits_inj'; intros i Hi; rewrite Z.land_spec, Z.bits_0;
    (destruct (Z.ltb_spec i n) as [Hlt|Hge];
     [rewrite (Z.shiftl_spec_low _ _ _ Hlt); apply andb_false_r|]);
    rewrite <- (Z.mod_small a (2 ^ n)), Z.mod_pow2_bits_high by lia; done.
Qed.

(** ** Words of [n] bits *)

Definition word (n x : Z) : Prop := 0 <= x < 2 ^ n.

Lemma word_land n x : 0 <= n -> word n x <-> Z.land x (Z.ones n) = x.
Proof.
  intros Hn. rewrite Z.land_ones by done. unfold word. split; [apply Z.mod_small|].
  intros <-. apply Z.mod_pos_bound, Z.pow_pos_nonneg; lia.
Qed.

Lemma word_lxor n a b : 0 <= n -> word n a -> word n b -> word n (Z.lxor a b).
Proof.
  intros Hn. rewrite !word_land by done. intros Ha Hb.
  apply Z.bits_inj'. intros i _. rewrite <- Ha, <- Hb at 2.
  rewrite !Z.land_spec, !Z.lxor_spec, !Z.land_spec.
  by destruct (Z.testbit a i), (Z.testbit b i), (Z.testbit _ i).
Qed.

Lemma word_lor n a b : 0 <= n -> word n a -> word n b -> word n (Z.lor a b).
Proof.
  intros Hn. rewrite !word_land by done. intros Ha Hb.
  by rewrite Z.land_lor_distr_l, Ha, Hb.
Qed.

Lemma word_land_r n a b : 0 <= n -> word n b -> word n (Z.land a b).
Proof. intros Hn. rewrite !word_land by done. intros Hb. by rewrite <- Z.land_assoc, Hb. Qed.

Lemma word_land_l n a b : 0 <= n -> word n a -> word n (Z.land a b).
Proof. intros. rewrite Z.land_comm. by apply word_land_r. Qed.

Lemma word_shiftr n x k : 0 <= k -> word n x -> word n (Z.shiftr x k).
Proof.
  intros Hk [??]. rewrite Z.shiftr_div_pow2 by done.
  assert (0 < 2 ^ k) by (apply Z.pow_pos_nonneg; lia).
  split; [by apply Z.div_pos|]. apply Z.le_lt_trans with x; [|done].
  apply Z.div_le_upper_bound; nia.
Qed.

Lemma word_shiftr_sub n x k : 0 <= k <= n -> word n x -> word (n - k) (Z.shiftr x k).
Proof.
  intros Hk [??]. rewrite Z.shiftr_div_pow2 by lia.
  assert (0 < 2 ^ k) by (apply Z.pow_pos_nonneg; lia).
  split; [by apply Z.div_pos|]. apply Z.div_lt_upper_bound; [done|].
  rewrite <- Z.pow_add_r by lia. by replace (k + (n - k)) with n by lia.
Qed.

Lemma word_shiftl n x k : 0 <= k <= n -> word (n - k) x -> word n (Z.shiftl x k).
Proof.
  intros Hk [??]. rewrite Z.shiftl_mul_pow2 by lia.
  assert (0 < 2 ^ k) by (apply Z.pow_pos_nonneg; lia).
  replace n with ((n - k) + k) by lia. unfold word. rewrite Z.pow_add_r by lia. nia.
Qed.

Lemma word_mono n m x : n <= m -> word n x -> word m x.
Proof. intros ? [??]. split; [done|]. eapply Z.lt_le_trans; [done|]. apply Z.pow_le_mono_r; lia. Qed.

Lemma word_testbit n x i : word n x -> n <= i -> Z.testbit x i = false.
Proof.
  intros Hx Hi. destruct (decide (0 <= n)).
  - apply word_land in Hx; [|done]. rewrite <- Hx, Z.land_spec, Z.ones_spec_high by lia.
    apply andb_false_r.
  - destruct Hx. rewrite Z.pow_neg_r in * by lia. lia.
Qed.

Lemma word_ext n x y :
  0 <= n -> word n x -> word n y ->
  (forall i, 0 <= i < n -> Z.testbit x i = Z.testbit y i) -> x = y.
Proof.
  intros Hn Hx Hy Hxy. apply Z.bits_inj'. intros i Hi. destruct (Z.lt_ge_cases i n).
  - by apply Hxy.
  - by rewrite (word_testbit n x), (word_testbit n y).
Qed.

Lemma u32_word x : word 32 (u32 x).
Proof. apply u32_range. Qed.
Lemma u8_word x : word 8 (u8 x).
Proof. apply u8_range. Qed.
Lemma u32_testbit x i : 0 <= i < 32 -> Z.testbit (u32 x) i = Z.testbit x i.
Proof. intros. apply Z.mod_pow2_bits_low. lia. Qed.
Lemma u8_testbit x i : 0 <= i < 8 -> Z.testbit (u8 x) i = Z.testbit x i.
Proof. intros. apply Z.mod_pow2_bits_low. lia. Qed.

(** Range side conditions: by the shape of the word, down to constants and
    hypotheses. *)
Ltac word_tac :=
  repeat match goal with
  | H : ?P |- ?P => exact H
  | |- word _ (Z.lxor _ _) => apply word_lxor; [lia|..]
  | |- word _ (Z.lor _ _) => apply word_lor; [lia|..]
  | |- word 32 (u32 _) => apply u32_word
  | |- word 8 (u8 _) => apply u8_word
  | |- word _ (Z.land _ (Zpos _)) => apply word_land_r; [lia|]
  | |- word _ (Z.land _ _) => first [apply word_land_r; [lia|word_tac; fail] | apply word_land_l; [lia|]]
  | |- word _ (Z.shiftr _ _) => apply word_shiftr; [lia|]
  | |- word _ Z0 => split; [reflexivity|vm_compute; reflexivity]
  | |- word _ (Zpos _) => split; [discriminate|vm_compute; reflexivity]
  end.

Create HintDb word.
#[export] Hint Extern 0 (word _ _) => solve [word_tac] : word.

(** Strings of bytes. *)
Definition is_bytes (l : bytes) : Prop := Forall (word 8) l.

(** ** Four bytes of a 32-bit word *)

Definition word4 (b0 b1 b2 b3 : Z) : Z := b0 + b1 * 2 ^ 8 + b2 * 2 ^ 16 + b3 * 2 ^ 24.

Lemma lor_mul_add n a c : 0 <= n -> word n a -> 0 <= c -> Z.lor a (c * 2 ^ n) = a + c * 2 ^ n.
Proof. intros. rewrite <- Z.shiftl_mul_pow2 by done. rewrite lor_shiftl_add; [|done..]. by rewrite Z.shiftl_mul_pow2. Qed.

Lemma lor_word4 b0 b1 b2 b3 : word 8 b0 -> word 8 b1 -> word 8 b2 -> word 8 b3 ->
  Z.lor (Z.lor (Z.lor b0 (Z.shiftl b1 8)) (Z.shiftl b2 16)) (Z.shiftl b3 24) = word4 b0 b1 b2 b3.
Proof.
  unfold word, word4. intros. rewrite !Z.shiftl_mul_pow2 by lia.
  rewrite (lor_mul_add 8), (lor_mul_add 16), (lor_mul_add 24); unfold word; lia.
Qed.

Lemma word4_word b0 b1 b2 b3 : word 8 b0 -> word 8 b1 -> word 8 b2 -> word 8 b3 ->
  word 32 (word4 b0 b1 b2 b3).
Proof. unfold word, word4. lia. Qed.

Lemma word4_bytes b0 b1 b2 b3 : word 8 b0 -> word 8 b1 -> word 8 b2 -> word 8 b3 ->
  let n := word4 b0 b1 b2 b3 in
  u8 n = b0 /\ u8 (Z.shiftr n 8) = b1 /\ u8 (Z.shiftr n 16) = b2 /\ u8 (Z.shiftr n 24) = b3.
Proof.
  unfold word, word4, u8. intros ????. cbn zeta. rewrite !Z.shiftr_div_pow2 by lia.
  repeat split; symmetry.
  - apply Zmod_unique with (b1 + b2 * 2 ^ 8 + b3 * 2 ^ 16); lia.
  - rewrite <- (Zdiv_unique _ (2 ^ 8) (b1 + b2 * 2 ^ 8 + b3 * 2 ^ 16) b0) by lia.
    apply Zmod_unique with (b2 + b3 * 2 ^ 8); lia.
  - rewrite <- (Zdiv_unique _ (2 ^ 16) (b2 + b3 * 2 ^ 8) (b0 + b1 * 2 ^ 8)) by lia.
    apply Zmod_unique with b3; lia.
  - rewrite <- (Zdiv_unique _ (2 ^ 24) b3 (b0 + b1 * 2 ^ 8 + b2 * 2 ^ 16)) by lia.
    apply Zmod_unique with 0; lia.
Qed.

Lemma word4_u8 n : word 32 n ->
  word4 (u8 n) (u8 (Z.shiftr n 8)) (u8 (Z.shiftr n 16)) (u8 (Z.shiftr n 24)) = n.
Proof.
  unfold word, word4, u8. intros ?. rewrite !Z.shiftr_div_pow2 by lia.
  change (2 ^ 24) with (2 ^ 16 * 2 ^ 8). change (2 ^ 16) with (2 ^ 8 * 2 ^ 8).
  rewrite <- !Z.div_div by lia.
  pose proof (Z.div_mod n (2 ^ 8)). pose proof (Z.div_mod (n / 2 ^ 8) (2 ^ 8)).
  pose proof (Z.div_mod (n / 2 ^ 8 / 2 ^ 8) (2 ^ 8)).
  rewrite (Z.mod_small (n / 2 ^ 8 / 2 ^ 8 / 2 ^ 8)); [lia|].
  Z.to_euclidean_division_equations; lia.
Qed.

(** Range checks of constant tables and strings, by computation. *)
Definition all_words (n : Z) (t : list Z) : bool := forallb (fun x => (0 <=? x) && (x <? 2 ^ n)) t.

Lemma all_words_ok n t : all_words n t = true -> Forall (word n) t.
Proof.
  intros Ht. apply Forall_forall. intros x Hx%list_elem_of_In.
  apply (proj1 (forallb_forall _ _) Ht) in Hx. unfold word. lia.
Qed.

(** [o] ends with a value of [P], an error of Lua or a failed assertion. *)
Definition ends {A} (o : outcome A) (P : A -> Prop) : Prop :=
  match o with Ret a => P a | Undefined => False | _ => True end.

Lemma ends_bind {A B} (o : outcome A) (f : A -> outcome B) P Q :
  ends o P -> (forall a, P a -> ends (f a) Q) -> ends (o ≫= f) Q.
Proof. destruct o; cbn; auto. Qed.

Lemma ends_mono {A} (o : outcome A) (P Q : A -> Prop) : ends o P -> (forall a, P a -> Q a) -> ends o Q.
Proof. destruct o; cbn; auto. Qed.

(** A bind after a return, as a rewrite rule ([cbn] would leave the two sides
    to a conversion that may unfold the rest of the computation). *)
Lemma bind_Ret {A B} (a : A) (f : A -> outcome B) : (Ret a ≫= f) = f a.
Proof. reflexivity. Qed.

Lemma bind_assoc {A B C} (m : outcome A) (f : A -> outcome B) (g : B -> outcome C) :
  ((m ≫= f) ≫= g) = (m ≫= fun a => f a ≫= g).
Proof. by destruct m. Qed.

(** [memcpy(dst + off, src, n)] *)
Definition memcpy (dst : bytes) (off : Z) (src : bytes) (n : Z) : outcome bytes :=
  if (n <? 0) || (off <? 0) || (Z.of_nat (length dst) <? off + n) || (Z.of_nat (length src) <? n) then Undefined
  else Ret (take (Z.to_nat off) dst ++ take (Z.to_nat n) src ++ drop (Z.to_nat (off + n)) dst).

Lemma memcpy_ok dst off src n : 0 <= n -> 0 <= off -> off + n <= Z.of_nat (length dst) -> n <= Z.of_nat (length src) ->
  memcpy dst off src n = Ret (take (Z.to_nat off) dst ++ take (Z.to_nat n) src ++ drop (Z.to_nat (off + n)) dst).
Proof.
  intros. unfold memcpy. rewrite (proj2 (Z.ltb_ge n 0)), (proj2 (Z.ltb_ge off 0)) by lia.
  rewrite (proj2 (Z.ltb_ge _ (off + n))), (proj2 (Z.ltb_ge _ n)) by lia. done.
Qed.
