(* ===== verification/Ring.v ===== *)
(** Ring buffers: the circular arrays of [skynet_mq.c], [lua-netpack.c] and
    [service_harbor.c] share this representation predicate and its lemmas. *)
From S2P Require Import Prelude.

Section ring.
Context {A : Type}.
Implicit Types (buf : list (option A)) (ms : list A).

(** [ring buf cap head ms]: the [cap] slots of [buf] hold [ms], in order,
    from index [head] on, wrapping around at [cap]. Other slots are free. *)
Record ring buf (cap head : Z) ms : Prop := {
  ring_length : Z.of_nat (length buf) = cap;
  ring_head : 0 <= head < cap;
  ring_fits : Z.of_nat (length ms) <= cap;
  ring_slots : forall (i : nat) m, ms !! i = Some m ->
    arr_lookup buf ((head + Z.of_nat i) mod cap) = Some (Some m) }.

Lemma ring_index cap head i :
  0 <= head < cap -> 0 <= i <= cap ->
  (head + i) mod cap = if decide (head + i < cap) then head + i else head + i - cap.
Proof.
  intros. destruct (decide _).
  - apply Z.mod_small. lia.
  - symmetry. apply Zmod_unique with 1; lia.
Qed.

Lemma ring_nil buf cap head :
  Z.of_nat (length buf) = cap -> 0 <= head < cap -> ring buf cap head [].
Proof. intros; split; cbn; [done|done|lia|done]. Qed.

Lemma ring_push buf cap head ms m :
  ring buf cap head ms -> Z.of_nat (length ms) < cap ->
  arr_set buf ((head + Z.of_nat (length ms)) mod cap) (Some m) =
    Ret (<[Z.to_nat ((head + Z.of_nat (length ms)) mod cap) := Some m]> buf) /\
  ring (<[Z.to_nat ((head + Z.of_nat (length ms)) mod cap) := Some m]> buf)
    cap head (ms ++ [m]).
Proof.
  intros [Hl Hh Hf Hs] Hlt.
  pose proof (Z.mod_pos_bound (head + Z.of_nat (length ms)) cap ltac:(lia)).
  split; [apply arr_set_Ret; lia|].
  split; [by rewrite length_insert|done|rewrite length_app; cbn; lia|].
  intros i m' Hi. rewrite arr_lookup_insert by lia.
  destruct (decide (i < length ms)%nat).
  - rewrite lookup_app_l in Hi by lia.
    destruct (decide _) as [He|]; [|by apply Hs].
    exfalso. revert He. rewrite !ring_index by lia.
    repeat destruct (decide _); lia.
  - rewrite lookup_app_r in Hi by lia.
    apply list_lookup_singleton_Some in Hi as [? ->].
    replace i with (length ms) by lia.
    by destruct (decide _).
Qed.

Lemma ring_pop buf cap head m ms :
  ring buf cap head (m :: ms) ->
  arr_lookup buf head = Some (Some m) /\ ring buf cap ((head + 1) mod cap) ms.
Proof.
  intros [Hl Hh Hf Hs]. split.
  - specialize (Hs 0%nat m eq_refl).
    by rewrite Z.add_0_r, Z.mod_small in Hs by lia.
  - split; [done|apply Z.mod_pos_bound; lia|cbn in Hf; lia|].
    intros i m' Hi. specialize (Hs (S i) m' Hi).
    rewrite Zplus_mod_idemp_l. rewrite <- Hs. f_equal; f_equal; lia.
Qed.

(** Copying [n] slots out of the ring in order, as the expansion loops do. *)
Lemma ring_copy buf cap head ms (n : nat) :
  ring buf cap head ms -> (n <= length ms)%nat ->
  mapM (fun i => arr_get buf ((head + i) mod cap)) (seqZ 0 (Z.of_nat n))
    = Ret (Some <$> take n ms).
Proof.
  intros Hr Hn. apply mapM_Ret, Forall2_same_length_lookup.
  rewrite length_fmap, length_take, length_seqZ. split; [lia|].
  intros i j mo Hj Hm.
  apply lookup_seqZ in Hj as [-> Hj].
  rewrite list_lookup_fmap, lookup_take_lt in Hm by lia.
  destruct (ms !! i) as [m|] eqn:Hi; [|done]. injection Hm as <-.
  rewrite Z.add_0_l. unfold arr_get. by rewrite (ring_slots _ _ _ _ Hr i m Hi).
Qed.
End ring.
