(* ===== verification/Mq.v ===== *)
(** Message queues of [skynet-src/skynet_mq.c]: the per-service ring buffer
    and the intrusive global queue of the queues that worker threads should
    serve. *)
From S2P Require Import Prelude Ring.

Abbreviation loc := positive.

(** ** Data *)

Definition DEFAULT_QUEUE_SIZE : Z := 64.
Definition MQ_IN_GLOBAL : Z := 1.
Definition MQ_OVERLOAD : Z := 1024.

(** [struct skynet_message]; [data] is an address, 0 for NULL. *)
Record skynet_message := SkynetMessage {
  msg_source : Z; msg_session : Z; msg_data : Z; msg_sz : Z }.

(** [struct message_queue], without its spinlock: each operation below is the
    body of one critical section. [None] slots are uninitialised memory. *)
Record message_queue := MessageQueue {
  mq_handle : Z; mq_cap : Z; mq_head : Z; mq_tail : Z;
  mq_release : Z; mq_in_global : Z;
  mq_overload : Z; mq_overload_threshold : Z;
  mq_queue : list (option skynet_message);
  mq_next : option loc }.

#[export] Instance skynet_message_eq_dec : EqDecision skynet_message.
Proof. solve_decision. Defined.

Definition with_ring q cap' head' tail' queue' :=
  MessageQueue (mq_handle q) cap' head' tail' (mq_release q) (mq_in_global q)
    (mq_overload q) (mq_overload_threshold q) queue' (mq_next q).
Definition with_in_global q v :=
  MessageQueue (mq_handle q) (mq_cap q) (mq_head q) (mq_tail q) (mq_release q) v
    (mq_overload q) (mq_overload_threshold q) (mq_queue q) (mq_next q).
Definition with_release q v :=
  MessageQueue (mq_handle q) (mq_cap q) (mq_head q) (mq_tail q) v (mq_in_global q)
    (mq_overload q) (mq_overload_threshold q) (mq_queue q) (mq_next q).
Definition with_overload q o t :=
  MessageQueue (mq_handle q) (mq_cap q) (mq_head q) (mq_tail q) (mq_release q) (mq_in_global q)
    o t (mq_queue q) (mq_next q).
Definition with_next q n :=
  MessageQueue (mq_handle q) (mq_cap q) (mq_head q) (mq_tail q) (mq_release q) (mq_in_global q)
    (mq_overload q) (mq_overload_threshold q) (mq_queue q) n.

(** The heap of message queues and [struct global_queue *Q]. *)
Record store := Store {
  mqs : gmap loc message_queue;
  gq_head : option loc;
  gq_tail : option loc }.

Definition set_mq (S : store) (l : loc) (q : message_queue) : store :=
  Store (<[l := q]> (mqs S)) (gq_head S) (gq_tail S).

(** ** The global queue *)

Definition skynet_globalmq_push (S : store) (q : loc) : outcome store :=
  mq ← deref (mqs S !! q);
  _ ← assert_ (bool_decide (mq_next mq = None));
  match gq_tail S with
  | Some t =>
      tq ← deref (mqs S !! t);
      Ret (Store (<[t := with_next tq (Some q)]> (mqs S)) (gq_head S) (Some q))
  | None => Ret (Store (mqs S) (Some q) (Some q))
  end.

Definition skynet_globalmq_pop (S : store) : outcome (option loc * store) :=
  match gq_head S with
  | Some h =>
      mq ← deref (mqs S !! h);
      tail' ← (if decide (mq_next mq = None)
               then _ ← assert_ (bool_decide (gq_tail S = Some h)); Ret None
               else Ret (gq_tail S));
      Ret (Some h, Store (<[h := with_next mq None]> (mqs S)) (mq_next mq) tail')
  | None => Ret (None, S)
  end.

(** [skynet_mq_init]: an empty global queue. *)
Definition skynet_mq_init : store := Store ∅ None None.

(** ** One message queue *)

Definition skynet_mq_create (handle : Z) : message_queue :=
  MessageQueue handle DEFAULT_QUEUE_SIZE 0 0 0 MQ_IN_GLOBAL 0 MQ_OVERLOAD
    (replicate (Z.to_nat DEFAULT_QUEUE_SIZE) None) None.

(** [skynet_mq_create] on the heap; [l] is what [skynet_malloc] returned. *)
Definition mq_alloc (S : store) (l : loc) (handle : Z) : outcome store :=
  match mqs S !! l with
  | Some _ => Undefined
  | None => Ret (set_mq S l (skynet_mq_create handle))
  end.

Definition skynet_mq_handle (q : message_queue) : Z := mq_handle q.

Definition skynet_mq_length (q : message_queue) : Z :=
  if mq_head q <=? mq_tail q then mq_tail q - mq_head q else mq_tail q + mq_cap q - mq_head q.

Definition skynet_mq_overload (q : message_queue) : Z * message_queue :=
  if mq_overload q =? 0 then (0, q)
  else (mq_overload q, with_overload q 0 (mq_overload_threshold q)).

(** [while (length > q->overload_threshold) ...]; [None] when the fuel runs
    out, which [overload_loop_enough] excludes. *)
Fixpoint overload_loop (fuel : nat) (length o t : Z) : outcome (Z * Z) :=
  match fuel with
  | O => Undefined
  | S fuel =>
      if t <? length then
        t' ← int_ok (t * 2);
        overload_loop fuel length length t'
      else Ret (o, t)
  end.

(** Returns [ret], the message written to [*message] when [ret] is 0, and the
    queue. *)
Definition skynet_mq_pop (q : message_queue)
  : outcome (Z * option skynet_message * message_queue) :=
  if mq_head q =? mq_tail q then
    (* reset overload_threshold when queue is empty *)
    let q := with_overload q (mq_overload q) MQ_OVERLOAD in
    Ret (1, None, with_in_global q 0)
  else
    slot ← arr_get (mq_queue q) (mq_head q);
    m ← deref slot;
    let head1 := mq_head q + 1 in
    let head2 := if mq_cap q <=? head1 then 0 else head1 in
    let length := mq_tail q - head2 in
    let length := if length <? 0 then length + mq_cap q else length in
    '(o, t) ← overload_loop 32 length (mq_overload q) (mq_overload_threshold q);
    Ret (0, Some m, with_overload (with_ring q (mq_cap q) head2 (mq_tail q) (mq_queue q)) o t).

Definition expand_queue (q : message_queue) : outcome message_queue :=
  cap' ← int_ok (mq_cap q * 2);
  copied ← mapM (fun i => arr_get (mq_queue q) (Z.rem (mq_head q + i) (mq_cap q)))
                (zrange 0 (mq_cap q));
  let new_queue := copied ++ replicate (Z.to_nat (mq_cap q)) None in
  Ret (with_ring q cap' 0 (mq_cap q) new_queue).

(** [skynet_mq_push] up to the test of [in_global]: the slot is written, the
    tail advances and wraps, and a full ring is expanded. *)
Definition mq_append (q : message_queue) (message : skynet_message)
  : outcome message_queue :=
  queue' ← arr_set (mq_queue q) (mq_tail q) (Some message);
  let tail1 := mq_tail q + 1 in
  let tail2 := if mq_cap q <=? tail1 then 0 else tail1 in
  let q := with_ring q (mq_cap q) (mq_head q) tail2 queue' in
  if mq_head q =? mq_tail q then expand_queue q else Ret q.

Definition skynet_mq_push (S : store) (l : loc) (message : skynet_message)
  : outcome store :=
  q ← deref (mqs S !! l);
  q ← mq_append q message;
  if mq_in_global q =? 0 then
    skynet_globalmq_push (set_mq S l (with_in_global q MQ_IN_GLOBAL)) l
  else Ret (set_mq S l q).

Definition skynet_mq_mark_release (S : store) (l : loc) : outcome store :=
  q ← deref (mqs S !! l);
  _ ← assert_ (mq_release q =? 0);
  let S := set_mq S l (with_release q 1) in
  if mq_in_global q =? MQ_IN_GLOBAL then Ret S else skynet_globalmq_push S l.

(** ** Releasing a queue

    [_drop_queue] hands every message to a callback that may act on the whole
    node, so these two are written over any world that contains the store. *)
Class HasStore (W : Type) := {
  get_store : W -> store;
  set_store : store -> W -> W;
  get_set_store : forall S w, get_store (set_store S w) = S }.

#[export] Instance store_HasStore : HasStore store :=
  {| get_store := id; set_store := fun S _ => S; get_set_store := fun _ _ => eq_refl |}.

Section release.
Context {W : Type} `{HasStore W}.
(** [message_drop], with its [ud] already applied. *)
Variable drop_func : skynet_message -> W -> outcome W.

(** [_release]: the queue's memory is freed. *)
Definition _release (l : loc) (w : W) : outcome W :=
  q ← deref (mqs (get_store w) !! l);
  _ ← assert_ (bool_decide (mq_next q = None));
  let S := get_store w in
  Ret (set_store (Store (delete l (mqs S)) (gq_head S) (gq_tail S)) w).

Fixpoint drop_loop (fuel : nat) (l : loc) (w : W) : outcome W :=
  match fuel with
  | O => Undefined
  | S fuel =>
      q ← deref (mqs (get_store w) !! l);
      '(ret, m, q) ← skynet_mq_pop q;
      let w := set_store (set_mq (get_store w) l q) w in
      match m with
      | Some m => w ← drop_func m w; drop_loop fuel l w
      | None => Ret w
      end
  end.

Definition _drop_queue (fuel : nat) (l : loc) (w : W) : outcome W :=
  w ← drop_loop fuel l w;
  _release l w.

Definition skynet_mq_release (fuel : nat) (l : loc) (w : W) : outcome W :=
  q ← deref (mqs (get_store w) !! l);
  if mq_release q =? 0 then
    S ← skynet_globalmq_push (get_store w) l;
    Ret (set_store S w)
  else _drop_queue fuel l w.
End release.

(** ** One queue refines a list of messages *)

(** [mq_repr q ms]: [q] is a well-formed queue whose pending messages are
    [ms], oldest first. One slot always stays free, so that [head = tail]
    means empty. *)
Record mq_repr (q : message_queue) (ms : list skynet_message) : Prop := {
  repr_ring : ring (mq_queue q) (mq_cap q) (mq_head q) ms;
  repr_free : Z.of_nat (length ms) < mq_cap q;
  repr_tail : mq_tail q = (mq_head q + Z.of_nat (length ms)) mod mq_cap q;
  repr_cap : exists k : nat, mq_cap q = 64 * 2 ^ Z.of_nat k;
  repr_max : mq_cap q <= 2 ^ 30;
  repr_threshold : 1 <= mq_overload_threshold q }.

Definition same_header (q q' : message_queue) : Prop :=
  mq_handle q' = mq_handle q /\ mq_release q' = mq_release q /\
  mq_next q' = mq_next q.

Lemma create_repr h : mq_repr (skynet_mq_create h) [].
Proof.
  split; [by apply ring_nil|done|done|by exists 0%nat|done|done].
Qed.

Lemma tail_index q ms :
  mq_repr q ms ->
  mq_tail q = if decide (mq_head q + Z.of_nat (length ms) < mq_cap q)
              then mq_head q + Z.of_nat (length ms)
              else mq_head q + Z.of_nat (length ms) - mq_cap q.
Proof.
  intros [Hr Hf -> _ _ _]. apply ring_index; [apply (ring_head _ _ _ _ Hr)|lia].
Qed.

Lemma length_repr q ms :
  mq_repr q ms -> skynet_mq_length q = Z.of_nat (length ms).
Proof.
  intros Hq. pose proof (tail_index q ms Hq) as Ht.
  destruct Hq as [Hr Hf _ _ _ _]. pose proof (ring_head _ _ _ _ Hr).
  unfold skynet_mq_length. zcases.
Qed.

Lemma empty_repr q ms :
  mq_repr q ms -> (mq_head q =? mq_tail q) = bool_decide (ms = []).
Proof.
  intros Hq. pose proof (tail_index q ms Hq) as Ht.
  destruct Hq as [Hr Hf _ _ _ _]. pose proof (ring_head _ _ _ _ Hr).
  destruct ms as [|m ms]; cbn [length] in *.
  - apply Z.eqb_eq. zcases.
  - apply Z.eqb_neq. zcases.
Qed.

(** The fuel of 32 is enough: doubling reaches any [int] length first. *)
Lemma overload_loop_enough fuel len o t :
  1 <= t -> len <= 2 ^ 30 -> len <= t * 2 ^ (Z.of_nat fuel - 1) -> (0 < fuel)%nat ->
  exists t', overload_loop fuel len o t = Ret (if t <? len then len else o, t') /\
    t <= t' /\ len <= t'.
Proof.
  revert o t. induction fuel as [|fuel IH]; intros o t Ht Hlen Hfuel Hpos; [lia|].
  cbn [overload_loop]. destruct (Z.ltb_spec t len).
  - rewrite int_ok_Ret by (unfold INT_MIN, INT_MAX; lia). cbn.
    destruct fuel as [|fuel].
    { cbn in Hfuel. lia. }
    destruct (IH len (t * 2)) as (t' & -> & ? & ?); [lia|lia| |lia|].
    + rewrite <- Z.mul_assoc, <- Z.pow_succ_r by lia.
      eapply Z.le_trans; [apply Hfuel|]. apply Z.eq_le_incl. do 2 f_equal. lia.
    + exists t'. split; [by destruct (Z.ltb_spec (t * 2) len)|lia].
  - exists t. split; [done|lia].
Qed.

#[local] Arguments overload_loop : simpl never.

Lemma pop_some q m ms :
  mq_repr q (m :: ms) ->
  exists q', skynet_mq_pop q = Ret (0, Some m, q') /\ mq_repr q' ms /\
    same_header q q' /\ mq_in_global q' = mq_in_global q /\
    mq_cap q' = mq_cap q /\
    mq_overload q' = (if mq_overload_threshold q <? Z.of_nat (length ms)
                      then Z.of_nat (length ms) else mq_overload q).
Proof.
  intros Hq. unfold skynet_mq_pop.
  rewrite (empty_repr _ _ Hq). cbn [bool_decide].
  pose proof (tail_index _ _ Hq) as Ht.
  destruct Hq as [Hr Hf Htail Hcap Hmax Hthr].
  pose proof (ring_head _ _ _ _ Hr) as Hh.
  destruct (ring_pop _ _ _ _ _ Hr) as [Hget Hr'].
  unfold arr_get. rewrite Hget. cbn.
  set (h2 := if mq_cap q <=? mq_head q + 1 then 0 else mq_head q + 1).
  assert (Hh2 : h2 = (mq_head q + 1) mod mq_cap q).
  { rewrite ring_index by lia. unfold h2.
    zcases. }
  set (len := if mq_tail q - h2 <? 0 then _ else _).
  cbn [length] in *.
  assert (Hlen : len = Z.of_nat (length ms)).
  { unfold len, h2. zcases. }
  destruct (overload_loop_enough 32 len (mq_overload q) (mq_overload_threshold q))
    as (t' & -> & ? & ?); [lia|lia| |lia|].
  { change (2 ^ (Z.of_nat 32 - 1)) with (2 * 2 ^ 30). lia. }
  cbn. eexists. split; [done|].
  split; [|by rewrite Hlen].
  split; cbn; [by rewrite Hh2|lia| |done|done|lia].
  rewrite Htail, Hh2, Zplus_mod_idemp_l. f_equal. lia.
Qed.

Lemma pop_none q :
  mq_repr q [] ->
  exists q', skynet_mq_pop q = Ret (1, None, q') /\ mq_repr q' [] /\
    same_header q q' /\ mq_in_global q' = 0 /\ mq_cap q' = mq_cap q /\
    mq_overload_threshold q' = MQ_OVERLOAD /\ mq_overload q' = mq_overload q.
Proof.
  intros Hq. unfold skynet_mq_pop. rewrite (empty_repr _ _ Hq). cbn.
  eexists. split; [done|]. destruct Hq; split; [by split|done].
Qed.

Lemma expand_spec q ms :
  ring (mq_queue q) (mq_cap q) (mq_head q) ms ->
  Z.of_nat (length ms) = mq_cap q -> mq_cap q <= 2 ^ 29 ->
  exists q', expand_queue q = Ret q' /\
    mq_head q' = 0 /\ mq_tail q' = mq_cap q /\ mq_cap q' = mq_cap q * 2 /\
    ring (mq_queue q') (mq_cap q') (mq_head q') ms /\ same_header q q' /\
    mq_in_global q' = mq_in_global q /\ mq_overload q' = mq_overload q /\
    mq_overload_threshold q' = mq_overload_threshold q.
Proof.
  intros Hr Hlen Hmax. pose proof (ring_head _ _ _ _ Hr).
  unfold expand_queue.
  rewrite int_ok_Ret by (unfold INT_MIN, INT_MAX; lia). cbn [mbind outcome_bind].
  replace (mapM _ _) with (Ret (Some <$> ms)).
  2: { symmetry. rewrite <- (firstn_all ms) at 1. unfold zrange.
    rewrite Z.sub_0_r, <- Hlen.
    eapply mapM_ext_seqZ; [|by apply (ring_copy _ _ _ _ (length ms) Hr)].
    intros i Hi. unfold arr_get. do 2 f_equal.
    rewrite Hlen. symmetry. apply Z.rem_mod_nonneg; lia. }
  cbn. eexists. split; [done|]. cbn.
  split_and!; try done.
  split; [| |lia|].
  - rewrite length_app, length_fmap, length_replicate. lia.
  - lia.
  - intros i m Hi. pose proof (lookup_lt_Some _ _ _ Hi).
    rewrite Z.mod_small by lia. rewrite Z.add_0_l, arr_lookup_nat.
    rewrite lookup_app_l by (rewrite length_fmap; lia).
    by rewrite list_lookup_fmap, Hi.
Qed.

Lemma append_spec q ms m :
  mq_repr q ms -> Z.of_nat (length ms) + 1 < 2 ^ 30 ->
  exists q', mq_append q m = Ret q' /\ mq_repr q' (ms ++ [m]) /\
    same_header q q' /\ mq_in_global q' = mq_in_global q /\
    mq_overload q' = mq_overload q /\
    mq_overload_threshold q' = mq_overload_threshold q /\
    (mq_cap q' = mq_cap q \/
     mq_cap q' = mq_cap q * 2 /\ mq_cap q = Z.of_nat (length ms) + 1).
Proof.
  intros Hq Hsize. pose proof (tail_index _ _ Hq) as Ht.
  destruct Hq as [Hr Hf Htail [k Hcap] Hmax Hthr].
  pose proof (ring_head _ _ _ _ Hr) as Hh.
  destruct (ring_push _ _ _ _ m Hr Hf) as [Hset Hr'].
  unfold mq_append. rewrite Htail, Hset. cbn [mbind outcome_bind].
  rewrite <- Htail in *.
  set (t2 := if mq_cap q <=? mq_tail q + 1 then 0 else mq_tail q + 1).
  set (q1 := with_ring q _ _ _ _).
  assert (Ht2 : t2 = (mq_head q + Z.of_nat (length (ms ++ [m]))) mod mq_cap q).
  { rewrite length_app. cbn [length]. rewrite ring_index by lia.
    unfold t2. zcases. }
  assert (Hlen : Z.of_nat (length (ms ++ [m])) = Z.of_nat (length ms) + 1).
  { rewrite length_app. cbn [length]. lia. }
  destruct (Z.eqb_spec (mq_head q1) (mq_tail q1)) as [Heq|Hne]; cbn in *.
  - assert (Hfull : Z.of_nat (length (ms ++ [m])) = mq_cap q).
    { rewrite Hlen in *. unfold t2 in *. zcases. }
    assert (mq_cap q <= 2 ^ 29).
    { destruct (Z.le_gt_cases (mq_cap q) (2 ^ 29)); [done|]. exfalso.
      rewrite Hcap in *. destruct (Z.le_gt_cases (Z.of_nat k) 23).
      - assert (2 ^ Z.of_nat k <= 2 ^ 23) by (apply Z.pow_le_mono_r; lia). lia.
      - assert (2 ^ 24 <= 2 ^ Z.of_nat k) by (apply Z.pow_le_mono_r; lia). lia. }
    destruct (expand_spec q1 (ms ++ [m])) as (q' & -> & H1 & H2 & H3 & H4 & H5 & H6 & H7 & H8);
      [done|done|done|].
    cbn in *. exists q'. split; [done|].
    split; [|by split_and!; [..|right; lia]].
    split; [done|lia| |exists (S k)|lia|lia].
    + rewrite H2, H1, Hfull, H3, Z.add_0_l, Z.mod_small; lia.
    + rewrite H3, Hcap, Nat2Z.inj_succ, Z.pow_succ_r by lia. lia.
  - exists q1. split; [done|]. split; [|by split_and!; cbn; auto].
    split; cbn; [done| |done|by exists k|done|done].
    rewrite Hlen in *. unfold t2 in *. zcases.
Qed.

(** *** Any sequence of pushes and pops *)

Inductive mq_op := OpPush (m : skynet_message) | OpPop.

(** The operations of [skynet_mq.c] one after the other on one queue. *)
Fixpoint mq_run (ops : list mq_op) (q : message_queue)
  : outcome (list (option skynet_message) * message_queue) :=
  match ops with
  | [] => Ret ([], q)
  | OpPush m :: ops => q ← mq_append q m; mq_run ops q
  | OpPop :: ops =>
      '(_, m, q) ← skynet_mq_pop q;
      '(out, q) ← mq_run ops q;
      Ret (m :: out, q)
  end.

(** The abstract first-in first-out list. *)
Fixpoint fifo_run (ops : list mq_op) (ms : list skynet_message)
  : list (option skynet_message) * list skynet_message :=
  match ops with
  | [] => ([], ms)
  | OpPush m :: ops => fifo_run ops (ms ++ [m])
  | OpPop :: ops => let '(out, ms') := fifo_run ops (tail ms) in (head ms :: out, ms')
  end.

Lemma mq_run_fifo ops q ms :
  mq_repr q ms -> Z.of_nat (length ms + length ops) < 2 ^ 30 ->
  exists q', mq_run ops q = Ret ((fifo_run ops ms).1, q') /\
    mq_repr q' (fifo_run ops ms).2.
Proof.
  revert q ms. induction ops as [|[m|] ops IH]; intros q ms Hq Hlen;
    cbn -[Z.pow] in *.
  - by exists q.
  - destruct (append_spec q ms m) as (q1 & -> & Hq1 & _); [done|lia|].
    apply (IH q1); [done|]. rewrite length_app; cbn; lia.
  - destruct ms as [|m ms].
    + destruct (pop_none q Hq) as (q1 & -> & Hq1 & _). cbn [mbind outcome_bind].
      destruct (IH q1 [] Hq1) as (q2 & -> & ?); [cbn in *; lia|].
      exists q2. cbn. by destruct (fifo_run ops []).
    + destruct (pop_some q m ms Hq) as (q1 & -> & Hq1 & _). cbn [mbind outcome_bind].
      destruct (IH q1 ms Hq1) as (q2 & -> & ?); [cbn in *; lia|].
      exists q2. cbn. by destruct (fifo_run ops ms).
Qed.

(** ** The global queue refines a list of queues *)

Record gq_repr (S : store) (l : list loc) : Prop := {
  gq_repr_head : gq_head S = head l;
  gq_repr_tail : gq_tail S = last l;
  gq_repr_nodup : NoDup l;
  gq_repr_next : forall i q, l !! i = Some q ->
    exists mq, mqs S !! q = Some mq /\ mq_next mq = l !! (i + 1)%nat;
  gq_repr_out : forall q mq, mqs S !! q = Some mq -> q ∉ l -> mq_next mq = None }.

(** The queues without their links: what the global queue does not touch. *)
Definition strip (S : store) : gmap loc message_queue :=
  (fun q => with_next q None) <$> mqs S.

Lemma strip_lookup S q :
  strip S !! q = (fun q => with_next q None) <$> mqs S !! q.
Proof. apply lookup_fmap. Qed.

Lemma strip_insert_next S q mq n h t :
  mqs S !! q = Some mq ->
  strip (Store (<[q := with_next mq n]> (mqs S)) h t) = strip S.
Proof.
  intros Hq. unfold strip. cbn. rewrite fmap_insert. apply insert_id.
  by rewrite lookup_fmap, Hq.
Qed.

Lemma gq_push_spec S l q mq :
  gq_repr S l -> mqs S !! q = Some mq -> q ∉ l ->
  exists S', skynet_globalmq_push S q = Ret S' /\ gq_repr S' (l ++ [q]) /\
    strip S' = strip S.
Proof.
  intros [Hh Ht Hnd Hnx Hout] Hq Hnl. unfold skynet_globalmq_push.
  rewrite Hq. cbn. rewrite (Hout q mq Hq Hnl). cbn.
  rewrite Ht. destruct l as [|t l _] using rev_ind.
  - cbn. eexists. split; [done|]. split; [|done].
    split; cbn; [done|done|apply NoDup_singleton| |].
    + intros i x Hx. apply list_lookup_singleton_Some in Hx as [-> <-].
      exists mq. split; [done|]. by rewrite (Hout q mq Hq Hnl).
    + intros x mx Hx _. apply (Hout x mx Hx). set_solver +.
  - rewrite last_snoc.
    destruct (Hnx (length l) t) as (mt & Hmt & Hnt).
    { by rewrite lookup_app_r, Nat.sub_diag. }
    rewrite Hmt. cbn. eexists. split; [done|].
    split; [|by apply strip_insert_next].
    assert (q <> t) by set_solver.
    split; cbn.
    + rewrite Hh. by destruct l.
    + by rewrite last_snoc.
    + apply NoDup_app. split; [done|]. split; [intros ? ? ?%list_elem_of_singleton; set_solver|apply NoDup_singleton].
    + intros i x Hx. destruct (decide (x = t)) as [->|Hxt].
      * rewrite lookup_insert_eq. eexists. split; [done|]. cbn.
        assert (i = length l) as ->.
        { eapply (NoDup_lookup ((l ++ [t]) ++ [q])); [|done|].
          - apply NoDup_app. split; [done|]. split; [intros ? ? ?%list_elem_of_singleton; set_solver|apply NoDup_singleton].
          - rewrite <- app_assoc, lookup_app_r, Nat.sub_diag by lia. done. }
        rewrite lookup_app_r by (rewrite length_app; cbn; lia).
        rewrite length_app. cbn.
        by replace (length l + 1 - (length l + 1))%nat with 0%nat by lia.
      * rewrite lookup_insert_ne by done.
        destruct (decide (i < length (l ++ [t]))%nat).
        -- rewrite lookup_app_l in Hx by done.
           destruct (Hnx i x Hx) as (mx & ? & Hn). exists mx. split; [done|].
           rewrite Hn, (lookup_app_l (l ++ [t])); [done|].
           rewrite length_app in *. cbn in *.
           destruct (decide (i = length l)) as [->|]; [|lia].
           rewrite lookup_app_r, Nat.sub_diag in Hx by lia. cbn in Hx. congruence.
        -- rewrite lookup_app_r in Hx by lia.
           apply list_lookup_singleton_Some in Hx as [Hi <-].
           exists mq. split; [done|]. rewrite (Hout q mq Hq Hnl).
           symmetry. apply lookup_ge_None. rewrite !length_app in *. cbn in *. lia.
    + intros x mx Hx Hxl.
      assert (x <> t) by (intros ->; apply Hxl; set_solver +).
      rewrite lookup_insert_ne in Hx by done. apply (Hout x mx Hx).
      intros Hin. apply Hxl. apply elem_of_app. by left.
Qed.

Lemma gq_pop_some S q l :
  gq_repr S (q :: l) ->
  exists S', skynet_globalmq_pop S = Ret (Some q, S') /\ gq_repr S' l /\
    strip S' = strip S.
Proof.
  intros [Hh Ht Hnd Hnx Hout]. unfold skynet_globalmq_pop. rewrite Hh. cbn.
  destruct (Hnx 0%nat q eq_refl) as (mq & Hmq & Hn). rewrite Hmq. cbn.
  apply NoDup_cons in Hnd as [Hql Hnd].
  assert (exists t', (if decide (mq_next mq = None)
      then _ ← assert_ (bool_decide (gq_tail S = Some q)); Ret None
      else Ret (gq_tail S)) = Ret t' /\ t' = last l) as (t' & -> & Htl).
  { rewrite Hn, Ht. destruct l as [|x l].
    - rewrite decide_True, bool_decide_true by done. by exists None.
    - rewrite decide_False by done. by eexists. }
  cbn. eexists. split; [done|]. split; [|by apply strip_insert_next].
  split; cbn; [by rewrite Hn; destruct l|done|done| |].
  - intros i x Hx. rewrite lookup_insert_ne.
    + destruct (Hnx (Datatypes.S i) x Hx) as (mx & ? & ?). by exists mx.
    + intros ->. apply Hql. by eapply list_elem_of_lookup_2.
  - intros x mx Hx Hxl. destruct (decide (x = q)) as [->|].
    + rewrite lookup_insert_eq in Hx. by injection Hx as <-.
    + rewrite lookup_insert_ne in Hx by done. apply (Hout x mx Hx).
      by apply not_elem_of_cons.
Qed.

Lemma gq_pop_none S :
  gq_repr S [] -> skynet_globalmq_pop S = Ret (None, S).
Proof. intros [Hh _ _ _ _]. unfold skynet_globalmq_pop. by rewrite Hh. Qed.

(** Changing a queue without touching its link. *)
Lemma gq_repr_set S l q mq mq' :
  gq_repr S l -> mqs S !! q = Some mq -> mq_next mq' = mq_next mq ->
  gq_repr (set_mq S q mq') l.
Proof.
  intros [Hh Ht Hnd Hnx Hout] Hq Hn.
  split; cbn; [done|done|done| |].
  - intros i x Hx. destruct (Hnx i x Hx) as (mx & Hmx & Hxn).
    destruct (decide (x = q)) as [->|].
    + rewrite lookup_insert_eq. eexists. split; [done|]. congruence.
    + rewrite lookup_insert_ne by done. by exists mx.
  - intros x mx Hx Hxl. destruct (decide (x = q)) as [->|].
    + rewrite lookup_insert_eq in Hx. injection Hx as <-. rewrite Hn. by apply (Hout q).
    + rewrite lookup_insert_ne in Hx by done. by apply (Hout x).
Qed.

Lemma strip_set S q mq :
  strip (set_mq S q mq) = <[q := with_next mq None]> (strip S).
Proof. unfold strip, set_mq. cbn. by rewrite fmap_insert. Qed.

(** ** The scheduling protocol

    A queue is served by at most one worker at a time. [owned] collects the
    queues some thread holds: just created ones, and those a worker popped
    from the global queue and has not given back. *)
Inductive mq_step : store * gset loc -> store * gset loc -> Prop :=
  (* skynet_context_new *)
  | step_create S o l h S' :
      mq_alloc S l h = Ret S' -> mq_step (S, o) (S', {[l]} ∪ o)
  (* skynet_context_push: the sender holds a reference, so not yet released *)
  | step_send S o l q m S' :
      mqs S !! l = Some q -> mq_release q = 0 ->
      skynet_mq_push S l m = Ret S' -> mq_step (S, o) (S', o)
  (* a worker takes the next queue *)
  | step_take S o l S' :
      skynet_globalmq_pop S = Ret (Some l, S') -> mq_step (S, o) (S', {[l]} ∪ o)
  (* a worker that holds the context pops one message ... *)
  | step_serve S o l q m q' :
      l ∈ o -> mqs S !! l = Some q -> mq_release q = 0 ->
      skynet_mq_pop q = Ret (0, Some m, q') -> mq_step (S, o) (set_mq S l q', o)
  (* ... or finds the queue empty and forgets it *)
  | step_idle S o l q q' :
      l ∈ o -> mqs S !! l = Some q -> mq_release q = 0 ->
      skynet_mq_pop q = Ret (1, None, q') ->
      mq_step (S, o) (set_mq S l q', o ∖ {[l]})
  (* a worker gives the queue back *)
  | step_requeue S o l S' :
      l ∈ o -> skynet_globalmq_push S l = Ret S' -> mq_step (S, o) (S', o ∖ {[l]})
  (* delete_context *)
  | step_mark S o l S' :
      skynet_mq_mark_release S l = Ret S' -> mq_step (S, o) (S', o)
  (* a worker holds a queue whose context is gone *)
  | step_release S o l fuel S' :
      l ∈ o -> skynet_mq_release (W:=store) (fun _ w => Ret w) fuel l S = Ret S' ->
      mq_step (S, o) (S', o ∖ {[l]}).

(** What holds of a queue with pending messages [ms]; [scheduled] says whether
    it is in the global queue or owned. *)
Record queue_ok (mq : message_queue) (scheduled : Prop) (ms : list skynet_message)
  : Prop := {
  ok_repr : mq_repr mq ms;
  ok_in_global : mq_in_global mq = 0 \/ mq_in_global mq = 1;
  ok_release : mq_release mq = 0 \/ mq_release mq = 1;
  ok_scheduled : scheduled <-> mq_in_global mq = 1 \/ mq_release mq = 1;
  ok_pending : ms = [] \/ scheduled }.

Record mq_inv (S : store) (owned : gset loc) (l : list loc) : Prop := {
  inv_gq : gq_repr S l;
  inv_queue : forall q mq, strip S !! q = Some mq ->
    exists ms, queue_ok mq (q ∈ l \/ q ∈ owned) ms;
  inv_disjoint : forall q, q ∈ l -> q ∉ owned;
  inv_owned : forall q, q ∈ owned -> is_Some (mqs S !! q) }.

Lemma repr_with_next q ms n : mq_repr (with_next q n) ms <-> mq_repr q ms.
Proof. split; intros []; split; cbn in *; done. Qed.

Lemma queue_ok_with_next mq n P ms :
  queue_ok (with_next mq n) P ms <-> queue_ok mq P ms.
Proof.
  split; intros [Hr ????]; split; cbn in *; try done.
  - by apply repr_with_next in Hr.
  - by apply repr_with_next.
Qed.

Lemma queue_ok_ext mq (P P' : Prop) ms :
  (P <-> P') -> queue_ok mq P ms -> queue_ok mq P' ms.
Proof. intros HP []. split; [done..|tauto|tauto]. Qed.

Lemma inv_get S o l q mq :
  mq_inv S o l -> mqs S !! q = Some mq ->
  exists ms, queue_ok mq (q ∈ l \/ q ∈ o) ms.
Proof.
  intros Hi Hq. destruct (inv_queue _ _ _ Hi q (with_next mq None)) as [ms Hok].
  - by rewrite strip_lookup, Hq.
  - exists ms. by apply (queue_ok_with_next _ None).
Qed.

Lemma inv_in_store S o l q :
  mq_inv S o l -> q ∈ l -> exists mq, mqs S !! q = Some mq.
Proof.
  intros Hi [i Hl]%list_elem_of_lookup_1.
  destruct (gq_repr_next _ _ (inv_gq _ _ _ Hi) i q Hl) as (mq & ? & _). by exists mq.
Qed.

(** Updating one queue, its link apart, and moving it between the global
    queue and the owned ones. *)
Lemma inv_update S o l S' o' l' q mq' ms' :
  mq_inv S o l -> gq_repr S' l' ->
  strip S' = <[q := with_next mq' None]> (strip S) ->
  (forall x, x <> q -> x ∈ l' <-> x ∈ l) ->
  (forall x, x <> q -> x ∈ o' <-> x ∈ o) ->
  (q ∈ l' -> q ∉ o') ->
  queue_ok mq' (q ∈ l' \/ q ∈ o') ms' ->
  mq_inv S' o' l'.
Proof.
  intros [Hgq Hq Hd Ho] Hgq' Hs Hl' Ho' Hdq Hok.
  assert (Hdom : forall x, is_Some (strip S' !! x) <-> is_Some (mqs S' !! x)).
  { intros x. rewrite strip_lookup, fmap_is_Some. done. }
  split; [done| | |].
  - intros x mx. rewrite Hs. destruct (decide (x = q)) as [->|Hx].
    + rewrite lookup_insert_eq. intros [= <-]. exists ms'.
      by apply queue_ok_with_next.
    + rewrite lookup_insert_ne by done. intros Hmx.
      destruct (Hq x mx Hmx) as [ms Hms]. exists ms.
      eapply queue_ok_ext; [|done]. by rewrite Hl', Ho'.
  - intros x Hx. destruct (decide (x = q)) as [->|Hxq]; [by apply Hdq|].
    rewrite Ho' by done. apply Hd. by apply Hl'.
  - intros x Hx. apply Hdom. rewrite Hs. destruct (decide (x = q)) as [->|Hxq].
    + rewrite lookup_insert_eq. by eexists.
    + rewrite lookup_insert_ne by done. rewrite strip_lookup, fmap_is_Some.
      apply Ho. by apply Ho'.
Qed.

Lemma strip_same S S' q mq :
  mqs S !! q = Some mq -> strip S' = strip S ->
  strip S' = <[q := with_next mq None]> (strip S).
Proof. intros Hq ->. symmetry. apply insert_id. by rewrite strip_lookup, Hq. Qed.

Lemma gq_repr_alloc S l q mq :
  gq_repr S l -> mqs S !! q = None -> mq_next mq = None -> gq_repr (set_mq S q mq) l.
Proof.
  intros [Hh Ht Hnd Hnx Hout] Hq Hn. split; cbn; [done|done|done| |].
  - intros i x Hx. destruct (Hnx i x Hx) as (mx & Hmx & ?). exists mx.
    rewrite lookup_insert_ne by congruence. done.
  - intros x mx Hx Hxl. destruct (decide (x = q)) as [->|].
    + rewrite lookup_insert_eq in Hx. by injection Hx as <-.
    + rewrite lookup_insert_ne in Hx by done. by apply (Hout x).
Qed.

Lemma gq_repr_delete S l q :
  gq_repr S l -> q ∉ l ->
  gq_repr (Store (delete q (mqs S)) (gq_head S) (gq_tail S)) l.
Proof.
  intros [Hh Ht Hnd Hnx Hout] Hql. split; cbn; [done|done|done| |].
  - intros i x Hx. destruct (Hnx i x Hx) as (mx & Hmx & ?). exists mx.
    rewrite lookup_delete_ne; [done|]. intros ->.
    apply Hql. by eapply list_elem_of_lookup_2.
  - intros x mx Hx Hxl. apply lookup_delete_Some in Hx as [_ Hx]. by apply (Hout x).
Qed.

Lemma append_bound q ms m q' :
  mq_repr q ms -> mq_append q m = Ret q' -> Z.of_nat (length ms) + 1 < 2 ^ 30.
Proof.
  intros Hq Happ. pose proof (tail_index _ _ Hq) as Ht.
  destruct Hq as [Hr Hf Htail _ Hmax _]. pose proof (ring_head _ _ _ _ Hr) as Hh.
  destruct (Z.le_gt_cases (2 ^ 30) (Z.of_nat (length ms) + 1)); [|lia]. exfalso.
  unfold mq_append in Happ. inv_ret1. cbn in Happ.
  replace (mq_head q =? _) with true in Happ.
  2: { symmetry. apply Z.eqb_eq. zcases. }
  unfold expand_queue in Happ. cbn -[int_ok mapM] in Happ.
  inv_ret. unfold INT_MAX in *. lia.
Qed.

(** *** Each step preserves the invariant *)

Lemma inv_create S o l x h S' :
  mq_inv S o l -> mq_alloc S x h = Ret S' -> mq_inv S' ({[x]} ∪ o) l.
Proof.
  intros Hi Ha. unfold mq_alloc in Ha. destruct (mqs S !! x) eqn:Hx; [done|].
  injection Ha as <-.
  assert (x ∉ l).
  { intros Hin. destruct (inv_in_store _ _ _ _ Hi Hin) as [??]. congruence. }
  eapply (inv_update S o l _ _ l x (skynet_mq_create h) []); [done| | | | |done|].
  - by apply gq_repr_alloc; [apply Hi| |].
  - apply strip_set.
  - done.
  - set_solver +.
  - split; [apply create_repr|by right|by left| |by left]. cbn. set_solver +.
Qed.

(** Replacing the contents of a queue, and scheduling it if it was not. *)
Lemma inv_set_same S o l x q q' ms' :
  mq_inv S o l -> mqs S !! x = Some q -> mq_next q' = mq_next q ->
  queue_ok q' (x ∈ l \/ x ∈ o) ms' -> mq_inv (set_mq S x q') o l.
Proof.
  intros Hi Hx Hn Hok. eapply inv_update; [done| |apply strip_set|done|done| |done].
  - by eapply gq_repr_set; [apply Hi| |].
  - apply Hi.
Qed.

Lemma inv_set_push S o o' l x q q' ms' S' :
  mq_inv S o l -> mqs S !! x = Some q -> mq_next q' = mq_next q ->
  x ∉ l -> x ∉ o' -> (forall y, y <> x -> y ∈ o' <-> y ∈ o) ->
  queue_ok q' True ms' ->
  skynet_globalmq_push (set_mq S x q') x = Ret S' -> mq_inv S' o' (l ++ [x]).
Proof.
  intros Hi Hx Hn Hxl Hxo Ho Hok Hp.
  destruct (gq_push_spec (set_mq S x q') l x q') as (S1 & Hp' & Hgq & Hs);
    [by eapply gq_repr_set; [apply Hi| |]|cbn; by rewrite lookup_insert_eq|done|].
  rewrite Hp in Hp'. injection Hp' as <-.
  eapply inv_update; [done|done|by rewrite Hs; apply strip_set| |done|done|].
  - intros y Hy. set_solver +Hy.
  - eapply queue_ok_ext; [|done]. set_solver +.
Qed.

Lemma inv_send S o l x q m S' :
  mq_inv S o l -> mqs S !! x = Some q -> mq_release q = 0 ->
  skynet_mq_push S x m = Ret S' -> mq_inv S' o (if mq_in_global q =? 0 then l ++ [x] else l).
Proof.
  intros Hi Hx Hrel Hp. destruct (inv_get _ _ _ _ _ Hi Hx) as [ms [Hrep Hig _ Hsch _]].
  unfold skynet_mq_push in Hp. rewrite Hx in Hp. cbn [deref mbind outcome_bind] in Hp.
  inv_ret1. rename x0 into q1.
  pose proof (append_bound _ _ _ _ Hrep H) as Hb.
  destruct (append_spec _ _ m Hrep Hb) as (q2 & Heq & Hrep2 & (_ & Hr2 & Hn2) & Hig2 & _).
  rewrite H in Heq. injection Heq as <-.
  rewrite <- Hig2. destruct (Z.eqb_spec (mq_in_global q1) 0) as [Hg|Hg].
  - eapply inv_set_push; [done|done| | | | | |done]; [done| | |done|].
    + intros ?. destruct Hsch as [Hs _]. destruct Hs; [by left|lia..].
    + intros ?. destruct Hsch as [Hs _]. destruct Hs; [by right|lia..].
    + split; cbn; [|by right|left; congruence|split; [by left|done]|by right].
      destruct Hrep2; by split.
  - injection Hp as <-. eapply inv_set_same; [done|done|done|].
    split; [done|by rewrite Hig2|left; congruence| |].
    + rewrite Hig2, Hr2. done.
    + right. apply Hsch. left. rewrite Hig2 in Hg. lia.
Qed.

Lemma inv_take S o l x S' :
  mq_inv S o l -> skynet_globalmq_pop S = Ret (Some x, S') ->
  exists l', l = x :: l' /\ mq_inv S' ({[x]} ∪ o) l'.
Proof.
  intros Hi Hp. destruct l as [|q l].
  { rewrite gq_pop_none in Hp by apply Hi. done. }
  destruct (gq_pop_some S q l) as (S1 & Hp' & Hgq & Hs); [apply Hi|].
  rewrite Hp in Hp'. injection Hp' as -> <-. exists l. split; [done|].
  destruct (inv_in_store _ _ _ q Hi) as [mq Hmq]; [by left|].
  destruct (inv_get _ _ _ _ _ Hi Hmq) as [ms Hok].
  pose proof (gq_repr_nodup _ _ (inv_gq _ _ _ Hi)) as [Hql _]%NoDup_cons.
  eapply (inv_update S o _ _ _ l q mq ms); [done|done|by apply strip_same| | |done|].
  - intros y Hy. set_solver +Hy.
  - intros y Hy. set_solver +Hy.
  - eapply queue_ok_ext; [|done]. set_solver +.
Qed.

Lemma inv_serve S o l x q m q' :
  mq_inv S o l -> x ∈ o -> mqs S !! x = Some q -> mq_release q = 0 ->
  skynet_mq_pop q = Ret (0, Some m, q') -> mq_inv (set_mq S x q') o l.
Proof.
  intros Hi Hxo Hx Hrel Hp.
  destruct (inv_get _ _ _ _ _ Hi Hx) as [ms [Hrep Hig Hr01 Hsch _]].
  destruct ms as [|m0 ms].
  { destruct (pop_none q Hrep) as (? & Hp' & _). congruence. }
  destruct (pop_some q m0 ms Hrep) as (q1 & Hp' & Hrep' & (_ & Hr1 & Hn1) & Hig1 & _).
  rewrite Hp in Hp'. injection Hp' as <- <-.
  eapply inv_set_same; [done|done|done|].
  split; [done|by rewrite Hig1|by rewrite Hr1|by rewrite Hig1, Hr1|by right; right].
Qed.

Lemma inv_idle S o l x q q' :
  mq_inv S o l -> x ∈ o -> mqs S !! x = Some q -> mq_release q = 0 ->
  skynet_mq_pop q = Ret (1, None, q') -> mq_inv (set_mq S x q') (o ∖ {[x]}) l.
Proof.
  intros Hi Hxo Hx Hrel Hp.
  destruct (inv_get _ _ _ _ _ Hi Hx) as [ms [Hrep Hig Hr01 Hsch _]].
  destruct ms as [|m0 ms].
  2: { destruct (pop_some q m0 ms Hrep) as (? & Hp' & _). congruence. }
  destruct (pop_none q Hrep) as (q1 & Hp' & Hrep' & (_ & Hr1 & Hn1) & Hig1 & _).
  rewrite Hp in Hp'. injection Hp' as <-.
  assert (x ∉ l) by (intros ?; by eapply inv_disjoint).
  eapply inv_update; [done| |apply strip_set|done| |set_solver +|].
  - by eapply gq_repr_set; [apply Hi| |].
  - intros y Hy. set_solver +Hy.
  - split; [done|by left|left; congruence| |by left].
    rewrite Hig1, Hr1, Hrel. set_solver.
Qed.

Lemma inv_requeue S o l x S' :
  mq_inv S o l -> x ∈ o -> skynet_globalmq_push S x = Ret S' ->
  mq_inv S' (o ∖ {[x]}) (l ++ [x]).
Proof.
  intros Hi Hxo Hp. destruct (inv_owned _ _ _ Hi x Hxo) as [q Hx].
  destruct (inv_get _ _ _ _ _ Hi Hx) as [ms [Hrep Hig Hr01 Hsch Hpend]].
  eapply (inv_set_push S o _ l x q q ms); [done|done|done| | | | |].
  - intros ?. by eapply inv_disjoint.
  - set_solver +.
  - intros y Hy. set_solver +Hy.
  - split; [done|done|done| |by right]. split; [intros _; apply Hsch; by right|done].
  - unfold set_mq. rewrite insert_id by done. by destruct S.
Qed.

Lemma inv_mark S o l x S' :
  mq_inv S o l -> skynet_mq_mark_release S x = Ret S' -> exists l', mq_inv S' o l'.
Proof.
  intros Hi Hm. unfold skynet_mq_mark_release in Hm.
  destruct (mqs S !! x) as [q|] eqn:Hx; cbn in Hm; [|done].
  destruct (inv_get _ _ _ _ _ Hi Hx) as [ms [Hrep Hig Hr01 Hsch Hpend]].
  destruct (Z.eqb_spec (mq_release q) 0) as [Hrel|]; cbn in Hm; [|done].
  assert (mq_repr (with_release q 1) ms) by (destruct Hrep; by split).
  unfold MQ_IN_GLOBAL in Hm. destruct (Z.eqb_spec (mq_in_global q) 1) as [Hg|Hg].
  - exists l. injection Hm as <-. eapply inv_set_same; [done|done|done|].
    split; [done|done|by right| |by right; apply Hsch; left].
    cbn. split; [by right|]. intros _. apply Hsch. by left.
  - exists (l ++ [x]).
    assert (~ (x ∈ l \/ x ∈ o)) by (rewrite Hsch; lia).
    eapply (inv_set_push S o o l x q (with_release q 1) ms); [done|done|done|tauto|tauto|done| |done].
    split; [done|done|by right|cbn; split; [by right|done]|by right].
Qed.

(** Dropping pops everything; the queue keeps its link. *)
Lemma drop_loop_store fuel x S S' q ms :
  mqs S !! x = Some q -> mq_repr q ms ->
  drop_loop (W:=store) (fun _ w => Ret w) fuel x S = Ret S' ->
  exists q', S' = set_mq S x q' /\ mq_next q' = mq_next q.
Proof.
  revert S q ms. induction fuel as [|fuel IH]; intros S q ms Hx Hrep Hd; [done|].
  cbn -[skynet_mq_pop] in Hd. rewrite Hx in Hd. cbn -[skynet_mq_pop] in Hd.
  destruct ms as [|m ms].
  - destruct (pop_none q Hrep) as (q1 & Hp & _ & (_ & _ & Hn) & _).
    rewrite Hp in Hd. cbn in Hd. injection Hd as <-. by exists q1.
  - destruct (pop_some q m ms Hrep) as (q1 & Hp & Hrep1 & (_ & _ & Hn) & _).
    rewrite Hp in Hd. cbn -[drop_loop] in Hd.
    destruct (IH (set_mq S x q1) q1 ms) as (q2 & -> & Hn2); [|done|done|].
    { cbn. by rewrite lookup_insert_eq. }
    exists q2. split; [|congruence]. unfold set_mq. cbn. by rewrite insert_insert_eq.
Qed.

(** Freeing an owned queue. *)
Lemma inv_delete S o l x :
  mq_inv S o l -> x ∈ o ->
  mq_inv (Store (delete x (mqs S)) (gq_head S) (gq_tail S)) (o ∖ {[x]}) l.
Proof.
  intros [Hgq Hq Hd Ho] Hxo. assert (x ∉ l) by (intros ?; by eapply Hd).
  split; [by apply gq_repr_delete| | |].
  - intros y my. unfold strip. cbn. rewrite fmap_delete, lookup_delete_Some.
    intros [Hy Hmy]. destruct (Hq y my Hmy) as [ms' Hok']. exists ms'.
    eapply queue_ok_ext; [|done]. set_solver +Hy.
  - intros y Hy. specialize (Hd y Hy). set_solver +Hd.
  - intros y Hy. cbn. rewrite lookup_delete_ne by set_solver +Hy.
    apply Ho. set_solver +Hy.
Qed.

Lemma inv_release S o l x fuel S' :
  mq_inv S o l -> x ∈ o ->
  skynet_mq_release (W:=store) (fun _ w => Ret w) fuel x S = Ret S' ->
  exists l', mq_inv S' (o ∖ {[x]}) l'.
Proof.
  intros Hi Hxo Hm. unfold skynet_mq_release in Hm. cbn -[_drop_queue] in Hm.
  destruct (inv_owned _ _ _ Hi x Hxo) as [q Hx].
  rewrite Hx in Hm. cbn -[_drop_queue] in Hm.
  destruct (mq_release q =? 0).
  { inv_ret. exists (l ++ [x]). by eapply inv_requeue. }
  destruct (inv_get _ _ _ _ _ Hi Hx) as [ms Hok].
  unfold _drop_queue in Hm. inv_ret1. rename x0 into S1.
  destruct (drop_loop_store _ _ _ _ _ _ Hx (ok_repr _ _ _ Hok) H) as (q1 & -> & Hn).
  assert (x ∉ l) by (intros ?; by eapply inv_disjoint).
  unfold _release in Hm. cbn in Hm. rewrite lookup_insert_eq in Hm. cbn in Hm.
  inv_ret. rewrite delete_insert_eq. exists l. by apply inv_delete.
Qed.

Lemma inv_init : mq_inv skynet_mq_init ∅ [].
Proof.
  split; [split; cbn; try done| | |].
  - by apply NoDup_nil.
  - intros q mq. by rewrite strip_lookup.
  - by intros q ?%elem_of_nil.
  - by intros q ?%elem_of_empty.
Qed.

Lemma inv_step S o l S' o' :
  mq_inv S o l -> mq_step (S, o) (S', o') -> exists l', mq_inv S' o' l'.
Proof.
  intros Hi Hs. inversion Hs; subst.
  - exists l. by eapply inv_create.
  - eexists; by eapply inv_send.
  - edestruct inv_take as (l' & _ & ?); [done..|]. by exists l'.
  - exists l. by eapply inv_serve.
  - exists l. by eapply inv_idle.
  - exists (l ++ [l0]). by eapply inv_requeue.
  - by eapply inv_mark.
  - by eapply inv_release.
Qed.

Lemma inv_reachable S o :
  rtc mq_step (skynet_mq_init, ∅) (S, o) -> exists l, mq_inv S o l.
Proof.
  intros Hr.
  apply (rtc_invariant mq_step (fun c => exists l, mq_inv c.1 c.2 l)) in Hr; [done| |].
  - intros [S1 o1] [S2 o2] Hs [l Hl]. by eapply inv_step.
  - exists []. apply inv_init.
Qed.

Lemma drop_loop_total fuel x S q ms :
  mqs S !! x = Some q -> mq_repr q ms -> (length ms < fuel)%nat ->
  exists S', drop_loop (W:=store) (fun _ w => Ret w) fuel x S = Ret S'.
Proof.
  revert S q ms. induction fuel as [|fuel IH]; intros S q ms Hx Hrep Hf; [lia|].
  cbn -[skynet_mq_pop]. rewrite Hx. cbn -[skynet_mq_pop].
  destruct ms as [|m ms].
  - destruct (pop_none q Hrep) as (q1 & -> & _). cbn. by eexists.
  - destruct (pop_some q m ms Hrep) as (q1 & -> & Hrep1 & _). cbn -[drop_loop].
    apply (IH _ q1 ms); [cbn; by rewrite lookup_insert_eq|done|cbn in Hf; lia].
Qed.

Lemma push_total S o l x q m :
  mq_inv S o l -> mqs S !! x = Some q -> mq_release q = 0 -> mq_cap q < 2 ^ 30 ->
  exists S', skynet_mq_push S x m = Ret S'.
Proof.
  intros Hi Hx Hrel Hcap. destruct (inv_get _ _ _ _ _ Hi Hx) as [ms [Hrep Hig _ Hsch _]].
  pose proof (repr_free _ _ Hrep).
  destruct (append_spec q ms m Hrep) as (q1 & Happ & _ & (_ & Hr1 & Hn1) & Hig1 & _); [lia|].
  unfold skynet_mq_push. rewrite Hx. cbn [deref mbind outcome_bind]. rewrite Happ.
  cbn [mbind outcome_bind]. destruct (Z.eqb_spec (mq_in_global q1) 0); [|by eexists].
  destruct (gq_push_spec (set_mq S x (with_in_global q1 MQ_IN_GLOBAL)) l x
    (with_in_global q1 MQ_IN_GLOBAL)) as (S' & ? & _); [|cbn; by rewrite lookup_insert_eq| |by exists S'].
  - by eapply gq_repr_set; [apply Hi| |].
  - intros ?. destruct Hsch as [Hs _]. destruct Hs; [by left|lia..].
Qed.

Lemma requeue_total S o l x :
  mq_inv S o l -> x ∈ o -> exists S', skynet_globalmq_push S x = Ret S'.
Proof.
  intros Hi Hxo. destruct (inv_owned _ _ _ Hi x Hxo) as [q Hx].
  destruct (gq_push_spec S l x q) as (S' & ? & _); [apply Hi|done| |by exists S'].
  intros ?. by eapply inv_disjoint.
Qed.

Lemma mark_total S o l x q :
  mq_inv S o l -> mqs S !! x = Some q -> mq_release q = 0 ->
  exists S', skynet_mq_mark_release S x = Ret S'.
Proof.
  intros Hi Hx Hrel. destruct (inv_get _ _ _ _ _ Hi Hx) as [ms [_ _ _ Hsch _]].
  unfold skynet_mq_mark_release. rewrite Hx. cbn. rewrite Hrel. cbn.
  unfold MQ_IN_GLOBAL. destruct (Z.eqb_spec (mq_in_global q) 1); [by eexists|].
  destruct (gq_push_spec (set_mq S x (with_release q 1)) l x (with_release q 1))
    as (S' & ? & _); [|cbn; by rewrite lookup_insert_eq| |by exists S'].
  - by eapply gq_repr_set; [apply Hi| |].
  - intros ?. destruct Hsch as [Hs _]. destruct Hs; [by left|lia..].
Qed.

Lemma release_total S o l x :
  mq_inv S o l -> x ∈ o -> exists fuel S',
    skynet_mq_release (W:=store) (fun _ w => Ret w) fuel x S = Ret S'.
Proof.
  intros Hi Hxo. destruct (inv_owned _ _ _ Hi x Hxo) as [q Hx].
  destruct (inv_get _ _ _ _ _ Hi Hx) as [ms Hok].
  exists (Datatypes.S (length ms)). unfold skynet_mq_release. cbn -[_drop_queue]. rewrite Hx.
  cbn -[_drop_queue]. destruct (mq_release q =? 0).
  { destruct (requeue_total _ _ _ _ Hi Hxo) as [S' ->]. by exists S'. }
  unfold _drop_queue.
  destruct (drop_loop_total (Datatypes.S (length ms)) x S q ms) as [S1 HS1]; [done|apply Hok|lia|].
  rewrite HS1.
  destruct (drop_loop_store _ _ _ _ _ _ Hx (ok_repr _ _ _ Hok) HS1) as (q1 & -> & Hn).
  cbn. unfold _release. cbn. rewrite lookup_insert_eq. cbn.
  assert (x ∉ l) by (intros ?; by eapply inv_disjoint).
  rewrite Hn, (gq_repr_out _ _ (inv_gq _ _ _ Hi) x q) by done. cbn. by eexists.
Qed.

(** What a push does, for clients that hold the scheduling invariant: a queue that was idle is
    now the last of the global queue. *)
Lemma mq_push_spec S o l x q ms m :
  mq_inv S o l -> mqs S !! x = Some q -> mq_release q = 0 -> mq_repr q ms ->
  Z.of_nat (length ms) + 1 < 2 ^ 30 ->
  exists S' q', skynet_mq_push S x m = Ret S' /\
    mq_inv S' o (if mq_in_global q =? 0 then l ++ [x] else l) /\
    strip S' = <[x := q']> (strip S) /\ mq_repr q' (ms ++ [m]) /\
    mq_release q' = 0 /\ mq_handle q' = mq_handle q /\
    mq_in_global q' = (if mq_in_global q =? 0 then MQ_IN_GLOBAL else mq_in_global q).
Proof.
  intros Hi Hx Hrel Hrep Hb.
  destruct (append_spec q ms m Hrep Hb) as (q1 & Happ & Hrep1 & (Hh1 & Hr1 & Hn1) & Hig1 & _).
  assert (exists S', skynet_mq_push S x m = Ret S' /\
    strip S' = <[x := with_next (if mq_in_global q1 =? 0 then with_in_global q1 1 else q1) None]> (strip S))
    as (S' & Hp & Hs).
  { unfold skynet_mq_push. rewrite Hx. cbn [deref mbind outcome_bind]. rewrite Happ, bind_Ret.
    destruct (Z.eqb_spec (mq_in_global q1) 0) as [Hg|Hg].
    - destruct (inv_get _ _ _ _ _ Hi Hx) as [ms' [_ _ _ Hsch _]].
      destruct (gq_push_spec (set_mq S x (with_in_global q1 MQ_IN_GLOBAL)) l x
        (with_in_global q1 MQ_IN_GLOBAL)) as (S' & Hp & _ & Hs); [| | |exists S'; split; [done|]].
      + by eapply gq_repr_set; [apply Hi| |].
      + cbn. by rewrite lookup_insert_eq.
      + intros ?. destruct Hsch as [Hsch _]. destruct Hsch; [by left|lia..].
      + by rewrite Hs, strip_set.
    - eexists. split; [done|]. by rewrite strip_set. }
  pose proof (inv_send _ _ _ _ _ _ _ Hi Hx Hrel Hp) as Hi'.
  eexists S', _. split; [done|]. split; [done|]. split; [done|]. rewrite <- Hig1.
  destruct (_ =? 0); cbn; (split; [|split; [congruence|split; [congruence|done]]]); apply repr_with_next; [|done].
  destruct Hrep1; by split.
Qed.

(** ** Main theorems *)

(** C1: a message queue is first in, first out. Any sequence of pushes and
    pops on a freshly created queue, ring wrap-around and expansions included,
    returns what the same sequence on a plain list returns, and leaves the
    queue representing that list. *)
Theorem mq_fifo (h : Z) (ops : list mq_op) :
  Z.of_nat (length ops) < 2 ^ 30 ->
  exists q', mq_run ops (skynet_mq_create h) = Ret ((fifo_run ops []).1, q') /\
    mq_repr q' (fifo_run ops []).2 /\
    skynet_mq_length q' = Z.of_nat (length (fifo_run ops []).2).
Proof.
  intros Hops. destruct (mq_run_fifo ops (skynet_mq_create h) []) as (q' & Hrun & Hq');
    [apply create_repr|done|].
  exists q'. split_and!; [done|done|by apply length_repr].
Qed.

Definition example_msg (i : Z) : skynet_message := SkynetMessage i 0 0 0.
Definition example_ops : list mq_op :=
  (OpPush ∘ example_msg <$> seqZ 0 70) ++ replicate 3 OpPop ++
  (OpPush ∘ example_msg <$> seqZ 70 60) ++ replicate 130 OpPop.

Lemma mq_fifo_witness :
  Z.of_nat (length example_ops) < 2 ^ 30 /\
  (fifo_run example_ops []).1 = (Some ∘ example_msg <$> seqZ 0 130) ++ replicate 3 None /\
  exists q', mq_run example_ops (skynet_mq_create 1) =
    Ret ((Some ∘ example_msg <$> seqZ 0 130) ++ replicate 3 None, q').
Proof.
  split; [vm_compute; reflexivity|]. split; [vm_compute; reflexivity|].
  destruct (mq_fifo 1 example_ops) as (q' & Hrun & _); [vm_compute; reflexivity|].
  exists q'. etransitivity; [exact Hrun|]. vm_compute. reflexivity.
Defined.

(** C22: no queue is scheduled twice and no message is stranded. In every state
    the node can reach, the global queue is a duplicate-free linked list
    disjoint from the queues workers hold; a queue is in one of the two exactly
    when its [in_global] or [release] flag is set; and a queue with pending
    messages is in one of the two. *)
Theorem mq_scheduling (S : store) (o : gset loc) :
  rtc mq_step (skynet_mq_init, ∅) (S, o) ->
  exists l, gq_repr S l /\ NoDup l /\ (forall q, q ∈ l -> q ∉ o) /\
    forall q mq, mqs S !! q = Some mq -> exists ms, mq_repr mq ms /\
      (q ∈ l \/ q ∈ o <-> mq_in_global mq = 1 \/ mq_release mq = 1) /\
      (ms <> [] -> q ∈ l \/ q ∈ o).
Proof.
  intros [l Hi]%inv_reachable. exists l.
  split_and!; [apply Hi|apply (gq_repr_nodup _ _ (inv_gq _ _ _ Hi))|apply Hi|].
  intros q mq Hq. destruct (inv_get _ _ _ _ _ Hi Hq) as [ms [? _ _ ? Hpend]].
  exists ms. split_and!; [done|done|]. intros ?. by destruct Hpend.
Qed.

(** A node with one service that was sent a message after its worker forgot
    the queue: create, idle, send, take. *)
Definition scheduling_example : store :=
  set_mq skynet_mq_init 1%positive (skynet_mq_create 7).

Lemma mq_scheduling_witness :
  rtc mq_step (skynet_mq_init, ∅) (scheduling_example, {[1%positive]} ∪ ∅) /\
  exists l, gq_repr scheduling_example l.
Proof.
  assert (Hr : rtc mq_step (skynet_mq_init, ∅) (scheduling_example, {[1%positive]} ∪ ∅)).
  { eapply rtc_l; [|apply rtc_refl]. by apply (step_create _ _ 1%positive 7). }
  split; [exact Hr|].
  destruct (mq_scheduling scheduling_example ({[1%positive]} ∪ ∅) Hr) as (l & Hl & _).
  exists l. exact Hl.
Defined.

(** C33: the assertions of [skynet_mq.c] never fail. In every reachable state
    each operation the node may perform returns: sending to a queue that is not
    released (below the 2^30 message limit of [int] capacities), taking the next
    queue, giving an owned queue back, marking a queue for release, and
    releasing an owned queue. *)
Theorem mq_no_assert (S : store) (o : gset loc) :
  rtc mq_step (skynet_mq_init, ∅) (S, o) ->
  (forall l q m, mqs S !! l = Some q -> mq_release q = 0 -> mq_cap q < 2 ^ 30 ->
     exists S', skynet_mq_push S l m = Ret S') /\
  (exists r, skynet_globalmq_pop S = Ret r) /\
  (forall l, l ∈ o -> exists S', skynet_globalmq_push S l = Ret S') /\
  (forall l q, mqs S !! l = Some q -> mq_release q = 0 ->
     exists S', skynet_mq_mark_release S l = Ret S') /\
  (forall l, l ∈ o -> exists fuel S',
     skynet_mq_release (W:=store) (fun _ w => Ret w) fuel l S = Ret S').
Proof.
  intros [l Hi]%inv_reachable. split_and!; intros.
  - by eapply push_total.
  - destruct l as [|x l].
    + rewrite gq_pop_none by apply Hi. by eexists.
    + destruct (gq_pop_some S x l) as (S' & -> & _); [apply Hi|by eexists].
  - by eapply requeue_total.
  - by eapply mark_total.
  - by eapply release_total.
Qed.

Lemma mq_no_assert_witness :
  rtc mq_step (skynet_mq_init, ∅) (scheduling_example, {[1%positive]} ∪ ∅) /\
  exists S', skynet_globalmq_push scheduling_example 1%positive = Ret S'.
Proof.
  assert (Hr : rtc mq_step (skynet_mq_init, ∅) (scheduling_example, {[1%positive]} ∪ ∅)).
  { eapply rtc_l; [|apply rtc_refl]. by apply (step_create _ _ 1%positive 7). }
  split; [exact Hr|].
  destruct (mq_no_assert scheduling_example ({[1%positive]} ∪ ∅) Hr) as (_ & _ & H & _).
  apply H. set_solver.
Defined.
