(* ===== verification/Timer.v ===== *)
(** The timing wheel of [skynet-src/skynet_timer.c]: 256 near slots and four
    levels of 64 slots, driven by one tick per centisecond. *)
From S2P Require Import Prelude Mq.

(** ** Data *)

Definition TIME_NEAR_SHIFT : Z := 8.
Definition TIME_NEAR : Z := Z.shiftl 1 TIME_NEAR_SHIFT.
Definition TIME_LEVEL_SHIFT : Z := 6.
Definition TIME_LEVEL : Z := Z.shiftl 1 TIME_LEVEL_SHIFT.
Definition TIME_NEAR_MASK : Z := TIME_NEAR - 1.
Definition TIME_LEVEL_MASK : Z := TIME_LEVEL - 1.

(** [PTYPE_RESPONSE], and [MESSAGE_TYPE_SHIFT] for a 64-bit [size_t]. *)
Definition PTYPE_RESPONSE : Z := 1.
Definition MESSAGE_TYPE_SHIFT : Z := 56.

Record timer_event := TimerEvent { te_handle : Z; te_session : Z }.

(** [struct timer_node] with the event stored behind it. *)
Record timer_node := TimerNode { tn_expire : Z; tn_event : timer_event }.

(** [struct link_list]: the chain from [head.next] to [tail]. *)
Abbreviation link_list := (list timer_node).

Record timer := Timer {
  t_near : list link_list;
  t_t : list (list link_list);
  t_time : Z;
  t_starttime : Z;
  t_current : Z;
  t_current_point : Z }.

Definition with_lists (T : timer) near t : timer :=
  Timer near t (t_time T) (t_starttime T) (t_current T) (t_current_point T).
Definition with_time (T : timer) time : timer :=
  Timer (t_near T) (t_t T) time (t_starttime T) (t_current T) (t_current_point T).
Definition with_clock (T : timer) current current_point : timer :=
  Timer (t_near T) (t_t T) (t_time T) (t_starttime T) current current_point.

(** A slot of the wheel, [&T->near[idx]] or [&T->t[level][idx]]. *)
Inductive slot := Near (idx : Z) | Level (level idx : Z).

#[export] Instance slot_eq_dec : EqDecision slot.
Proof. solve_decision. Defined.

Definition slot_list (T : timer) (s : slot) : link_list :=
  match s with
  | Near idx => default [] (t_near T !! Z.to_nat idx)
  | Level level idx =>
      default [] (t ← t_t T !! Z.to_nat level; t !! Z.to_nat idx)
  end.

(** The indices the code computes are masked, so [alter], which ignores an
    index out of range, is exact: see [place_valid]. *)
Definition slot_alter (f : link_list -> link_list) (T : timer) (s : slot) : timer :=
  match s with
  | Near idx => with_lists T (alter f (Z.to_nat idx) (t_near T)) (t_t T)
  | Level level idx =>
      with_lists T (t_near T) (alter (alter f (Z.to_nat idx)) (Z.to_nat level) (t_t T))
  end.

Definition link_clear (T : timer) (s : slot) : link_list * timer :=
  (slot_list T s, slot_alter (fun _ => []) T s).

Definition link (T : timer) (s : slot) (node : timer_node) : timer :=
  slot_alter (fun list => list ++ [node]) T s.

(** ** Adding and moving nodes *)

(** [for (i=0;i<3;i++) { if (...) break; mask <<= TIME_LEVEL_SHIFT; }] *)
Fixpoint level_loop (n : nat) (i mask time current_time : Z) : Z :=
  match n with
  | O => i
  | S n =>
      if Z.lor time (mask - 1) =? Z.lor current_time (mask - 1) then i
      else level_loop n (i + 1) (u32 (Z.shiftl mask TIME_LEVEL_SHIFT)) time current_time
  end.

Definition place (current_time time : Z) : slot :=
  if Z.lor time TIME_NEAR_MASK =? Z.lor current_time TIME_NEAR_MASK then
    Near (Z.land time TIME_NEAR_MASK)
  else
    let i := level_loop 3 0 (Z.shiftl TIME_NEAR TIME_LEVEL_SHIFT) time current_time in
    Level i (Z.land (Z.shiftr time (TIME_NEAR_SHIFT + i * TIME_LEVEL_SHIFT)) TIME_LEVEL_MASK).

Definition add_node (T : timer) (node : timer_node) : timer :=
  link T (place (t_time T) (tn_expire node)) node.

Definition timer_add (T : timer) (arg : timer_event) (time : Z) : timer :=
  add_node T (TimerNode (u32 (time + t_time T)) arg).

Definition move_list (T : timer) (level idx : Z) : timer :=
  let '(current, T) := link_clear T (Level level idx) in
  foldl add_node T current.

(** [while ((ct & (mask-1))==0) ...]: the level and slot to move, if any.
    Four rounds are enough: a [ct] other than 0 has a non-zero field. *)
Fixpoint shift_loop (n : nat) (i mask ct time : Z) : option (Z * Z) :=
  match n with
  | O => None
  | S n =>
      if Z.land ct (mask - 1) =? 0 then
        let idx := Z.land time TIME_LEVEL_MASK in
        if idx =? 0
        then shift_loop n (i + 1) (Z.shiftl mask TIME_LEVEL_SHIFT) ct
               (Z.shiftr time TIME_LEVEL_SHIFT)
        else Some (i, idx)
      else None
  end.

Definition timer_shift (T : timer) : timer :=
  let ct := u32 (t_time T + 1) in
  let T := with_time T ct in
  if ct =? 0 then move_list T 3 0
  else
    match shift_loop 4 0 TIME_NEAR ct (Z.shiftr ct TIME_NEAR_SHIFT) with
    | Some (i, idx) => move_list T i idx
    | None => T
    end.

(** ** Dispatching *)

Definition event_message (event : timer_event) : skynet_message :=
  SkynetMessage 0 (te_session event) 0 (Z.shiftl PTYPE_RESPONSE MESSAGE_TYPE_SHIFT).

Section dispatch.
Context {W : Type}.
(** [skynet_context_push], its result ignored. *)
Variable context_push : Z -> skynet_message -> W -> outcome W.

Fixpoint dispatch_list (current : link_list) (w : W) : outcome W :=
  match current with
  | [] => Ret w
  | node :: current =>
      w ← context_push (te_handle (tn_event node)) (event_message (tn_event node)) w;
      dispatch_list current w
  end.

(** [while (T->near[idx].head.next) ...] *)
Fixpoint execute_loop (fuel : nat) (idx : Z) (T : timer) (w : W) : outcome (timer * W) :=
  match slot_list T (Near idx), fuel with
  | [], _ => Ret (T, w)
  | _, O => Undefined
  | _, S fuel =>
      let '(current, T) := link_clear T (Near idx) in
      w ← dispatch_list current w;
      execute_loop fuel idx T w
  end.

Definition timer_execute (T : timer) (w : W) : outcome (timer * W) :=
  execute_loop 1 (Z.land (t_time T) TIME_NEAR_MASK) T w.

Definition timer_update (T : timer) (w : W) : outcome (timer * W) :=
  '(T, w) ← timer_execute T w;
  let T := timer_shift T in
  timer_execute T w.

(** [for (i=0;i<diff;i++) timer_update(TI);] *)
Fixpoint update_times (diff : nat) (T : timer) (w : W) : outcome (timer * W) :=
  match diff with
  | O => Ret (T, w)
  | S diff => '(T, w) ← timer_update T w; update_times diff T w
  end.

(** [skynet_error(NULL, "time diff error: ...")] *)
Variable skynet_error : W -> outcome W.

(** [cp] is what [gettime] returned. The loop counter is an [int]: it
    overflows when [diff] exceeds [INT_MAX]. *)
Definition skynet_updatetime (cp : Z) (T : timer) (w : W) : outcome (timer * W) :=
  if cp <? t_current_point T then
    w ← skynet_error w;
    Ret (with_clock T (t_current T) cp, w)
  else if cp =? t_current_point T then Ret (T, w)
  else
    let diff := u32 (cp - t_current_point T) in
    _ ← int_ok diff;
    update_times (Z.to_nat diff) (with_clock T (u64 (t_current T + diff)) cp) w.
End dispatch.

Definition timer_create_timer : timer :=
  Timer (replicate (Z.to_nat TIME_NEAR) [])
        (replicate 4 (replicate (Z.to_nat TIME_LEVEL) [])) 0 0 0 0.

(** [sec], [cs] and [cp] are what [systime] and [gettime] returned. *)
Definition skynet_timer_init (sec cs cp : Z) : timer :=
  let T := timer_create_timer in
  Timer (t_near T) (t_t T) (t_time T) sec cs cp.

Definition skynet_starttime (T : timer) : Z := t_starttime T.
Definition skynet_now (T : timer) : Z := t_current T.

(** ** The slot function in arithmetic form *)

Lemma place_eq ct e :
  place ct e =
    if e / 2 ^ 8 =? ct / 2 ^ 8 then Near (e mod 2 ^ 8)
    else if e / 2 ^ 14 =? ct / 2 ^ 14 then Level 0 (e / 2 ^ 8 mod 64)
    else if e / 2 ^ 20 =? ct / 2 ^ 20 then Level 1 (e / 2 ^ 14 mod 64)
    else if e / 2 ^ 26 =? ct / 2 ^ 26 then Level 2 (e / 2 ^ 20 mod 64)
    else Level 3 (e / 2 ^ 26 mod 64).
Proof.
  unfold place.
  change TIME_NEAR_MASK with (2 ^ 8 - 1). rewrite lor_ones_eqb by lia.
  rewrite land_ones_pow2 by lia.
  destruct (e / 2 ^ 8 =? ct / 2 ^ 8); [done|].
  cbn [level_loop].
  change (Z.shiftl TIME_NEAR TIME_LEVEL_SHIFT) with (2 ^ 14).
  change (u32 (Z.shiftl (2 ^ 14) TIME_LEVEL_SHIFT)) with (2 ^ 20).
  change (u32 (Z.shiftl (2 ^ 20) TIME_LEVEL_SHIFT)) with (2 ^ 26).
  rewrite !lor_ones_eqb by lia.
  change TIME_LEVEL_MASK with (2 ^ 6 - 1).
  change TIME_NEAR_SHIFT with 8. change TIME_LEVEL_SHIFT with 6.
  repeat case_match; rewrite land_ones_pow2, Z.shiftr_div_pow2 by lia; done.
Qed.

Definition moved (ct : Z) : option (Z * Z) :=
  if ct mod 2 ^ 8 =? 0 then
    if ct mod 2 ^ 14 =? 0 then
      if ct mod 2 ^ 20 =? 0 then
        if ct mod 2 ^ 26 =? 0 then Some (3, ct / 2 ^ 26) else Some (2, ct / 2 ^ 20 mod 64)
      else Some (1, ct / 2 ^ 14 mod 64)
    else Some (0, ct / 2 ^ 8 mod 64)
  else None.


Lemma timer_shift_eq T :
  timer_shift T =
    let T' := with_time T (u32 (t_time T + 1)) in
    match moved (u32 (t_time T + 1)) with
    | Some (i, idx) => move_list T' i idx
    | None => T'
    end.
Proof.
  unfold timer_shift, moved. pose proof (u32_range (t_time T + 1)) as Hr.
  set (ct := u32 (t_time T + 1)) in *. clearbody ct. cbn zeta.
  destruct (Z.eqb_spec ct 0) as [->|Hct]; [done|].
  cbn [shift_loop].
  change TIME_NEAR with (2 ^ 8).
  change (Z.shiftl (2 ^ 8) TIME_LEVEL_SHIFT) with (2 ^ 14).
  change (Z.shiftl (2 ^ 14) TIME_LEVEL_SHIFT) with (2 ^ 20).
  change (Z.shiftl (2 ^ 20) TIME_LEVEL_SHIFT) with (2 ^ 26).
  change TIME_LEVEL_MASK with (2 ^ 6 - 1).
  change TIME_LEVEL_SHIFT with 6. change TIME_NEAR_SHIFT with 8.
  rewrite !land_ones_pow2, !Z.shiftr_shiftr, !Z.shiftr_div_pow2 by lia.
  change (8 + 6) with 14; change (14 + 6) with 20; change (20 + 6) with 26.
  change (2 ^ 6) with 64.
  assert (forall m, m = 8 \/ m = 14 \/ m = 20 -> ct mod 2 ^ m = 0 ->
            (ct / 2 ^ m mod 64 =? 0) = (ct mod 2 ^ (m + 6) =? 0)) as Hm.
  { intros m Hm H0. rewrite Z.pow_add_r, Z.rem_mul_r by lia. rewrite H0.
    change (2 ^ 6) with 64.
    destruct Hm as [->|[->| ->]]; zcases. }
  destruct (Z.eqb_spec (ct mod 2 ^ 8) 0); [|done].
  rewrite (Hm 8) by tauto. change (8 + 6) with 14.
  destruct (Z.eqb_spec (ct mod 2 ^ 14) 0); [|done].
  rewrite (Hm 14) by tauto. change (14 + 6) with 20.
  destruct (Z.eqb_spec (ct mod 2 ^ 20) 0); [|done].
  rewrite (Hm 20) by tauto. change (20 + 6) with 26.
  destruct (Z.eqb_spec (ct mod 2 ^ 26) 0); [|done].
  rewrite (Z.mod_small (ct / 2 ^ 26)) by (Z.to_euclidean_division_equations; lia).
  destruct (Z.eqb_spec (ct / 2 ^ 26) 0); [|done].
  exfalso. Z.to_euclidean_division_equations; lia.
Qed.

Definition ahead (ct e : Z) : Prop := 0 < (e - ct) mod 2 ^ 32 < 2 ^ 31.


Lemma tick_div ct e m :
  0 <= ct < 2 ^ 32 - 1 -> 0 <= e < 2 ^ 32 -> ahead ct e ->
  m = 8 \/ m = 14 \/ m = 20 \/ m = 26 ->
  ((ct + 1) mod 2 ^ m <> 0 /\ (ct + 1) / 2 ^ m = ct / 2 ^ m) \/
  ((ct + 1) mod 2 ^ m = 0 /\ (ct + 1) / 2 ^ m = ct / 2 ^ m + 1 /\ e / 2 ^ m <> ct / 2 ^ m).
Proof.
  unfold ahead. intros ??? [->|[->|[->| ->]]]; Z.to_euclidean_division_equations; lia.
Qed.

Lemma place_tick_wrap e :
  0 <= e < 2 ^ 31 ->
  place 0 e = place (2 ^ 32 - 1) e \/ place (2 ^ 32 - 1) e = Level 3 0.
Proof.
  intros He. rewrite !place_eq.
  assert (e / 2 ^ 8 <> (2 ^ 32 - 1) / 2 ^ 8 /\ e / 2 ^ 14 <> (2 ^ 32 - 1) / 2 ^ 14 /\
          e / 2 ^ 20 <> (2 ^ 32 - 1) / 2 ^ 20 /\ e / 2 ^ 26 <> (2 ^ 32 - 1) / 2 ^ 26) as (?&?&?&?)
    by (repeat split; Z.to_euclidean_division_equations; lia).
  pose proof (div_coarse e 0 8 14 ltac:(lia)).
  pose proof (div_coarse e 0 14 20 ltac:(lia)).
  pose proof (div_coarse e 0 20 26 ltac:(lia)).
  destruct (Z.eqb_spec (e / 2 ^ 26) (0 / 2 ^ 26)) as [E|E].
  - right. zcases. by rewrite E.
  - left. zcases; done.
Qed.

Lemma place_tick ct e :
  0 <= ct < 2 ^ 32 -> 0 <= e < 2 ^ 32 -> ahead ct e ->
  place (u32 (ct + 1)) e = place ct e \/
  exists i idx, moved (u32 (ct + 1)) = Some (i, idx) /\ place ct e = Level i idx.
Proof.
  intros Hct He Ha.
  destruct (decide (ct = 2 ^ 32 - 1)) as [->|].
  { change (u32 (2 ^ 32 - 1 + 1)) with 0.
    assert (e < 2 ^ 31) by (unfold ahead in Ha; Z.to_euclidean_division_equations; lia).
    destruct (place_tick_wrap e) as [?|?]; [lia|by left|right]. by exists 3, 0. }
  rewrite u32_small by lia. rewrite !place_eq. unfold moved.
  pose proof (tick_div ct e 8 ltac:(lia) He Ha ltac:(tauto)) as H8.
  pose proof (tick_div ct e 14 ltac:(lia) He Ha ltac:(tauto)) as H14.
  pose proof (tick_div ct e 20 ltac:(lia) He Ha ltac:(tauto)) as H20.
  pose proof (tick_div ct e 26 ltac:(lia) He Ha ltac:(tauto)) as H26.
  pose proof (div_coarse e (ct + 1) 8 14 ltac:(lia)) as C8.
  pose proof (div_coarse e (ct + 1) 14 20 ltac:(lia)) as C14.
  pose proof (div_coarse e (ct + 1) 20 26 ltac:(lia)) as C20.
  pose proof (div_coarse ct (ct + 1) 8 14 ltac:(lia)) as D8.
  pose proof (div_coarse ct (ct + 1) 14 20 ltac:(lia)) as D14.
  pose proof (div_coarse ct (ct + 1) 20 26 ltac:(lia)) as D20.
  assert (e / 2 ^ 26 = e / 2 ^ 26 mod 64) as Hs.
  { symmetry. apply Z.mod_small. clear -He. Z.to_euclidean_division_equations; lia. }
  generalize dependent ((ct + 1) mod 2 ^ 8). generalize dependent ((ct + 1) mod 2 ^ 14).
  generalize dependent ((ct + 1) mod 2 ^ 20). generalize dependent ((ct + 1) mod 2 ^ 26).
  generalize dependent ((ct + 1) / 2 ^ 8). generalize dependent ((ct + 1) / 2 ^ 14).
  generalize dependent ((ct + 1) / 2 ^ 20). generalize dependent ((ct + 1) / 2 ^ 26).
  generalize dependent (ct / 2 ^ 8). generalize dependent (ct / 2 ^ 14).
  generalize dependent (ct / 2 ^ 20). generalize dependent (ct / 2 ^ 26).
  set (e26m := e / 2 ^ 26 mod 64) in *. clearbody e26m.
  set (e26 := e / 2 ^ 26) in *. clearbody e26.
  set (e8 := e / 2 ^ 8) in *. clearbody e8.
  set (e14 := e / 2 ^ 14) in *. clearbody e14.
  set (e20 := e / 2 ^ 20) in *. clearbody e20. 
  set (em8 := e mod 2 ^ 8) in *. clearbody em8. clear He Ha Hct n ct e.
  intros c26 c20 c14 c8 d26 D20 d20 D14 d14 D8 d8 C20 C14 C8 m26 H26 m20 H20 m14 H14 m8 H8.
  destruct H8 as [[? ->]|(->&->&?)], H14 as [[? ->]|(->&->&?)], H20 as [[? ->]|(->&->&?)], H26 as [[? ->]|(->&->&?)]; try lia.
  all: zcases; try first [left; congruence | right; eexists _, _; split; [done|]; repeat f_equal; lia].
Qed.

(** ** Slots *)

Definition slot_ok (s : slot) : Prop :=
  match s with
  | Near idx => 0 <= idx < 256
  | Level level idx => 0 <= level < 4 /\ 0 <= idx < 64
  end.

Definition wheel_shape (T : timer) : Prop :=
  length (t_near T) = 256%nat /\ length (t_t T) = 4%nat /\
  Forall (fun l => length l = 64%nat) (t_t T).

Lemma place_valid ct e : slot_ok (place ct e).
Proof.
  rewrite place_eq.
  pose proof (Z.mod_pos_bound e (2 ^ 8) ltac:(lia)).
  pose proof (fun x => Z.mod_pos_bound x 64 ltac:(lia)) as Hm.
  repeat case_match; cbn -[Z.pow Z.div Z.modulo]; repeat split; try lia; apply Hm.
Qed.

Lemma moved_valid ct i idx :
  0 <= ct < 2 ^ 32 -> moved ct = Some (i, idx) -> slot_ok (Level i idx).
Proof.
  intros Hct. unfold moved.
  pose proof (fun x => Z.mod_pos_bound x 64 ltac:(lia)) as Hm.
  assert (0 <= ct / 2 ^ 26 < 64) by (Z.to_euclidean_division_equations; lia).
  repeat case_match; intros [= <- <-]; cbn -[Z.pow Z.div Z.modulo]; split; try lia; apply Hm.
Qed.

Lemma slot_alter_shape f T s : wheel_shape T -> wheel_shape (slot_alter f T s).
Proof.
  intros (Hn & Ht & Hf). destruct s as [idx|level idx]; split; cbn; [by rewrite length_alter|done..|].
  split; [by rewrite length_alter|].
  apply Forall_alter; [done|]. intros l _ Hl. by rewrite length_alter.
Qed.

Lemma slot_alter_time f T s : t_time (slot_alter f T s) = t_time T.
Proof. by destruct s. Qed.

Lemma slot_list_alter f T s s' :
  wheel_shape T -> slot_ok s -> slot_ok s' ->
  slot_list (slot_alter f T s) s' =
    if decide (s = s') then f (slot_list T s) else slot_list T s'.
Proof.
  intros (Hn & Ht & Hf) Hs Hs'.
  destruct s as [i|l i], s' as [i'|l' i']; cbn in *; try done.
  - case_decide as Hd; simplify_eq.
    + rewrite list_lookup_alter_eq.
      destruct (lookup_lt_is_Some_2 (t_near T) (Z.to_nat i')) as [x ->]; [lia|done].
    + rewrite list_lookup_alter_ne; [done|]. intros ?. apply Hd. f_equal. lia.
  - assert (exists x, t_t T !! Z.to_nat l = Some x /\ length x = 64%nat) as (x & Hx & Hlx).
    { destruct (lookup_lt_is_Some_2 (t_t T) (Z.to_nat l)) as [x Hx]; [lia|].
      exists x. split; [done|]. by eapply Forall_lookup_1 in Hf. }
    destruct (decide (l = l')) as [<-|Hne].
    + rewrite list_lookup_alter_eq, Hx. cbn.
      case_decide as Hd; simplify_eq.
      * rewrite list_lookup_alter_eq.
        destruct (lookup_lt_is_Some_2 x (Z.to_nat i')) as [y ->]; [lia|done].
      * rewrite list_lookup_alter_ne; [done|]. intros ?. apply Hd. f_equal. lia.
    + rewrite decide_False by congruence.
      rewrite list_lookup_alter_ne; [done|]. lia.
Qed.

(** ** What the wheel holds *)

Definition at_ (e : Z) (nodes : list timer_node) : list timer_node :=
  filter (fun n => tn_expire n = e) nodes.

(** [nodes], in the order they were added, are filed by the function [p]
    from expiry to slot; nodes of one expiry keep their order. *)
Record filed (p : Z -> slot) (T : timer) (nodes : list timer_node) : Prop := {
  filed_shape : wheel_shape T;
  filed_slot s n : slot_ok s -> n ∈ slot_list T s -> p (tn_expire n) = s;
  filed_at e : slot_ok (p e) -> at_ e (slot_list T (p e)) = at_ e nodes }.

Lemma elem_of_at e n l : n ∈ at_ e l <-> tn_expire n = e /\ n ∈ l.
Proof. unfold at_. by rewrite list_elem_of_filter. Qed.

Lemma at_app e l k : at_ e (l ++ k) = at_ e l ++ at_ e k.
Proof. apply filter_app. Qed.

Lemma at_nil e l : (forall n, n ∈ l -> tn_expire n <> e) -> at_ e l = [].
Proof.
  intros H. apply elem_of_nil_inv. intros n [??]%elem_of_at. by apply (H n).
Qed.

Lemma at_single e n : at_ e [n] = if decide (tn_expire n = e) then [n] else [].
Proof. done. Qed.

Lemma filed_elem p T nodes s n :
  filed p T nodes -> slot_ok s -> n ∈ slot_list T s -> n ∈ nodes.
Proof.
  intros F Hs Hn. pose proof (filed_slot _ _ _ F _ _ Hs Hn) as Hp.
  assert (n ∈ at_ (tn_expire n) nodes) as []%elem_of_at; [|done].
  rewrite <- (filed_at _ _ _ F) by by rewrite Hp.
  rewrite Hp. by apply elem_of_at.
Qed.

Lemma filed_equiv p T nodes nodes' :
  (forall e, at_ e nodes = at_ e nodes') -> filed p T nodes -> filed p T nodes'.
Proof. intros H [? ? Ha]. split; [done..|]. intros e Hs. by rewrite <- H, Ha. Qed.

Lemma filed_ext p q T nodes :
  (forall n, n ∈ nodes -> p (tn_expire n) = q (tn_expire n)) ->
  filed p T nodes -> filed q T nodes.
Proof.
  intros Hpq F. split.
  - apply F.
  - intros s n Hs Hn. rewrite <- Hpq by by eapply filed_elem.
    by eapply filed_slot.
  - intros e Hq. destruct (at_ e nodes) as [|n k] eqn:E.
    + apply at_nil. intros n Hn He.
      assert (n ∈ at_ e nodes) as Hin by (apply elem_of_at; split; [done|]; by eapply filed_elem).
      rewrite E in Hin. by apply elem_of_nil in Hin.
    + assert (n ∈ at_ e nodes) as [He Hn]%elem_of_at by (rewrite E; by left).
      specialize (Hpq n Hn). rewrite He in Hpq. rewrite <- E, <- Hpq in *.
      by apply F.
Qed.

Lemma filed_time p T ct nodes : filed p T nodes -> filed p (with_time T ct) nodes.
Proof. intros [???]. by split. Qed.

Lemma filed_clock p T a b nodes : filed p T nodes -> filed p (with_clock T a b) nodes.
Proof. intros [???]. by split. Qed.

Lemma filed_link p T nodes n :
  filed p T nodes -> slot_ok (p (tn_expire n)) ->
  filed p (link T (p (tn_expire n)) n) (nodes ++ [n]).
Proof.
  intros F Hs. unfold link. split.
  - apply slot_alter_shape, F.
  - intros s m Hsok. rewrite slot_list_alter by (done || apply F).
    case_decide as Hd; [subst s|by eapply filed_slot].
    intros [Hm| ->%list_elem_of_singleton]%elem_of_app; [|done]. by eapply filed_slot.
  - intros e He. rewrite slot_list_alter, at_app, at_single by (done || apply F).
    case_decide as Hd.
    + rewrite at_app, at_single. f_equal. rewrite Hd. by apply F.
    + rewrite decide_False by congruence. rewrite app_nil_r. by apply F.
Qed.

Lemma filed_add_node T nodes n :
  filed (place (t_time T)) T nodes ->
  filed (place (t_time T)) (add_node T n) (nodes ++ [n]).
Proof. intros F. apply (filed_link (place (t_time T))); [done|apply place_valid]. Qed.

Lemma add_node_time T n : t_time (add_node T n) = t_time T.
Proof. apply slot_alter_time. Qed.

Lemma filed_add_nodes l T nodes :
  filed (place (t_time T)) T nodes ->
  filed (place (t_time T)) (foldl add_node T l) (nodes ++ l) /\
  t_time (foldl add_node T l) = t_time T.
Proof.
  revert T nodes. induction l as [|n l IH]; intros T nodes F; cbn.
  { by rewrite app_nil_r. }
  destruct (IH (add_node T n) (nodes ++ [n])) as [F' Ht].
  { rewrite add_node_time. by apply filed_add_node. }
  rewrite add_node_time in *. by rewrite <- app_assoc in F'.
Qed.

(** Emptying a slot leaves the nodes filed elsewhere. *)
Lemma filed_clear p T nodes s :
  filed p T nodes -> slot_ok s ->
  filed p (slot_alter (fun _ => []) T s) (filter (fun n => p (tn_expire n) <> s) nodes).
Proof.
  intros F Hs. split.
  - apply slot_alter_shape, F.
  - intros s' n Hs'. rewrite slot_list_alter by (done || apply F).
    case_decide; [set_solver|]. by eapply filed_slot.
  - intros e He. rewrite slot_list_alter by (done || apply F).
    unfold at_ at 2. rewrite list_filter_filter.
    case_decide as Hd.
    + subst s. symmetry. apply elem_of_nil_inv. intros n [[??] _]%list_elem_of_filter. congruence.
    + rewrite (filed_at _ _ _ F) by done. apply list_filter_iff. intros n.
      split; [|tauto]. intros <-. split; [done|congruence].
Qed.

Lemma filed_split p T nodes s e :
  filed p T nodes -> slot_ok s -> (forall e, slot_ok (p e)) ->
  at_ e (filter (fun n => p (tn_expire n) <> s) nodes ++ slot_list T s) = at_ e nodes.
Proof.
  intros F Hs Hp. rewrite at_app. destruct (decide (p e = s)) as [He|He].
  - rewrite at_nil; [|intros n [? _]%list_elem_of_filter; congruence].
    cbn. rewrite <- He. by apply F.
  - rewrite (at_nil _ (slot_list T s)), app_nil_r.
    + unfold at_. rewrite list_filter_filter. apply list_filter_iff. intros n.
      split; [tauto|]. intros <-. done.
    + intros n Hn ?%(eq_sym (x:=_)). apply He. subst e. by eapply filed_slot.
Qed.

(** One tick refiles exactly what has to move. *)
Lemma filed_timer_shift T nodes :
  0 <= t_time T < 2 ^ 32 ->
  (forall n, n ∈ nodes -> 0 <= tn_expire n < 2 ^ 32 /\ ahead (t_time T) (tn_expire n)) ->
  filed (place (t_time T)) T nodes ->
  filed (place (u32 (t_time T + 1))) (timer_shift T) nodes /\
  t_time (timer_shift T) = u32 (t_time T + 1).
Proof.
  intros Ht Hn F. rewrite timer_shift_eq. cbn zeta.
  pose proof (fun n Hi => place_tick (t_time T) (tn_expire n) Ht
                (proj1 (Hn n Hi)) (proj2 (Hn n Hi))) as Hp.
  set (ct := u32 (t_time T + 1)) in *.
  destruct (moved ct) as [[i idx]|] eqn:Em.
  - unfold move_list. cbn [link_clear].
    set (s := Level i idx). set (nodes0 := filter (fun n => place (t_time T) (tn_expire n) <> s) nodes).
    assert (slot_ok s) as Hs by (eapply moved_valid; [|done]; apply u32_range).
    assert (filed (place ct) (slot_alter (fun _ => []) (with_time T ct) s) nodes0) as F0.
    { apply (filed_ext (place (t_time T))).
      - intros n [Hne Hin]%list_elem_of_filter.
        destruct (Hp n Hin) as [->|(i' & idx' & ? & ?)]; [done|]. simplify_eq.
      - by apply filed_clear; [apply filed_time|]. }
    set (T0 := slot_alter (fun _ => []) (with_time T ct) s) in *.
    assert (t_time T0 = ct) as Ht0 by apply slot_alter_time.
    destruct (filed_add_nodes (slot_list (with_time T ct) s) T0 nodes0) as [F1 Ht1];
      [by rewrite Ht0|].
    rewrite Ht0 in *. split; [|done].
    eapply filed_equiv; [|exact F1]. intros e.
    apply (filed_split (place (t_time T)) (with_time T ct)); [by apply filed_time|done|apply place_valid].
  - split; [|done]. apply filed_time, (filed_ext (place (t_time T))); [|done].
    intros n Hin. destruct (Hp n Hin) as [->|(? & ? & ? & ?)]; done.
Qed.

Lemma add_nodes_point l T : t_current_point (foldl add_node T l) = t_current_point T.
Proof.
  revert T. induction l as [|n l IH]; intros T; cbn; [done|].
  rewrite IH. unfold add_node, link. by destruct (place _ _).
Qed.

Lemma timer_shift_point T : t_current_point (timer_shift T) = t_current_point T.
Proof.
  rewrite timer_shift_eq. cbn zeta. destruct (moved _) as [[i idx]|]; [|done].
  unfold move_list. cbn [link_clear]. by rewrite add_nodes_point.
Qed.

(** ** Executing the slot of the current time *)

Lemma near_slot ct e :
  0 <= ct -> 0 <= e -> place ct e = Near (ct mod 2 ^ 8) <-> e = ct.
Proof.
  intros ??. rewrite place_eq. split.
  - repeat case_match; intros; simplify_eq.
    pose proof (Z.div_mod e (2 ^ 8)). pose proof (Z.div_mod ct (2 ^ 8)). lia.
  - intros ->. by rewrite Z.eqb_refl.
Qed.

Lemma place_now ct : place ct ct = Near (ct mod 2 ^ 8).
Proof. by rewrite place_eq, Z.eqb_refl. Qed.

Lemma not_ahead ct : ~ ahead ct ct.
Proof. unfold ahead. rewrite Z.sub_diag, Zmod_0_l. lia. Qed.

Section execute.
Context {W : Type}.
Implicit Types (push : Z -> skynet_message -> W -> outcome W).

Lemma timer_execute_filed T nodes :
  0 <= t_time T ->
  (forall n, n ∈ nodes -> 0 <= tn_expire n) ->
  filed (place (t_time T)) T nodes ->
  exists T', t_time T' = t_time T /\ t_current_point T' = t_current_point T /\
    filed (place (t_time T)) T' (filter (fun n => tn_expire n <> t_time T) nodes) /\
    forall push w, timer_execute push T w =
      (w ← dispatch_list push (at_ (t_time T) nodes) w; Ret (T', w)).
Proof.
  intros Ht Hn F. set (ct := t_time T) in *.
  unfold timer_execute. fold ct.
  change TIME_NEAR_MASK with (2 ^ 8 - 1). rewrite land_ones_pow2 by lia.
  set (s := Near (ct mod 2 ^ 8)).
  assert (slot_ok s) as Hs by apply (Z.mod_pos_bound ct (2 ^ 8) ltac:(lia)).
  assert (slot_list T s = at_ ct nodes) as E.
  { rewrite <- (filed_at _ _ _ F) by (rewrite place_now; done). rewrite place_now. fold s.
    symmetry. apply filter_all. intros n Hin.
    apply near_slot; [done|by eapply Hn, filed_elem|]. by eapply filed_slot. }
  exists (match at_ ct nodes with [] => T | _ => slot_alter (fun _ => []) T s end).
  split; [case_match; [done|apply slot_alter_time]|].
  split; [by case_match|]. split.
  - case_match eqn:Ea.
    + eapply filed_equiv; [|exact F]. intros e. unfold at_. rewrite list_filter_filter.
      apply filter_ext_in. intros n Hin. split; [|tauto].
      intros He. split; [done|]. intros Hc.
      assert (n ∈ at_ ct nodes) as Hx by by apply elem_of_at.
      rewrite Ea in Hx. by apply elem_of_nil in Hx.
    + eapply filed_equiv; [|by apply (filed_clear _ _ _ s F)].
      intros e. unfold at_. rewrite !list_filter_filter. apply filter_ext_in.
      intros n Hin. unfold s. rewrite near_slot by auto. tauto.
  - intros push w. cbn [execute_loop]. fold s. rewrite E.
    destruct (at_ ct nodes) as [|n l] eqn:Ea; [done|].
    cbn [link_clear]. fold s. rewrite E.
    destruct (dispatch_list push (n :: l) w); try done. cbn [mbind outcome_bind].
    rewrite slot_list_alter by (done || apply F). by rewrite decide_True.
Qed.

(** One update at time [ct] delivers the nodes expiring at [ct + 1]. *)
Lemma timer_update_filed T nodes :
  0 <= t_time T < 2 ^ 32 ->
  (forall n, n ∈ nodes -> 0 <= tn_expire n < 2 ^ 32 /\ ahead (t_time T) (tn_expire n)) ->
  filed (place (t_time T)) T nodes ->
  let ct := u32 (t_time T + 1) in
  exists T', t_time T' = ct /\ t_current_point T' = t_current_point T /\
    filed (place ct) T' (filter (fun n => tn_expire n <> ct) nodes) /\
    forall push w, timer_update push T w =
      (w ← dispatch_list push (at_ ct nodes) w; Ret (T', w)).
Proof.
  intros Ht Hn F ct.
  destruct (timer_execute_filed T nodes) as (T1 & Ht1 & Hp1 & F1 & E1);
    [lia|by intros n ?%Hn; lia|done|].
  assert (at_ (t_time T) nodes = []) as Ea.
  { apply at_nil. intros n [_ Hah]%Hn He. rewrite He in Hah. by apply not_ahead in Hah. }
  rewrite filter_all in F1
    by (intros n [_ Hah]%Hn He; rewrite He in Hah; by apply not_ahead in Hah).
  rewrite <- Ht1 in Ht, Hn, F1.
  destruct (filed_timer_shift T1 nodes Ht Hn F1) as [F2 Ht2].
  rewrite Ht1 in Ht2, F2. fold ct in F2, Ht2. pose proof (u32_range (t_time T + 1)) as Hct. fold ct in Hct.
  rewrite <- Ht2 in Hct, F2.
  destruct (timer_execute_filed (timer_shift T1) nodes) as (T3 & Ht3 & Hp3 & F3 & E3);
    [lia|by intros n ?%Hn; lia|done|]. rewrite Ht2 in Ht3, F3, E3.
  exists T3. split; [done|]. split; [|split; [done|]].
  - rewrite Hp3, <- Hp1. apply timer_shift_point.
  - intros push w. unfold timer_update. rewrite E1, Ea. cbn [dispatch_list mbind outcome_bind].
    apply E3.
Qed.
End execute.

(** ** The abstract timer

    [now] counts ticks without wrapping; a pending event carries its absolute
    deadline. A tick delivers, in the order they were added, exactly the
    events whose deadline is reached. *)

Record ideal := Ideal {
  i_now : Z;
  i_pending : list (Z * timer_event);
  i_point : Z }.

Definition ideal_init (cp : Z) : ideal := Ideal 0 [] cp.

Definition ideal_add (J : ideal) (event : timer_event) (time : Z) : ideal :=
  Ideal (i_now J) (i_pending J ++ [(i_now J + time, event)]) (i_point J).

Definition due (J : ideal) (now : Z) : list timer_event :=
  (filter (fun p => p.1 = now) (i_pending J)).*2.

Section ideal.
Context {W : Type}.
Variable context_push : Z -> skynet_message -> W -> outcome W.
Variable skynet_error : W -> outcome W.

Fixpoint deliver (events : list timer_event) (w : W) : outcome W :=
  match events with
  | [] => Ret w
  | event :: events =>
      w ← context_push (te_handle event) (event_message event) w;
      deliver events w
  end.

Definition ideal_tick (J : ideal) (w : W) : outcome (ideal * W) :=
  let now := i_now J + 1 in
  w ← deliver (due J now) w;
  Ret (Ideal now (filter (fun p => p.1 <> now) (i_pending J)) (i_point J), w).

Fixpoint ideal_ticks (n : nat) (J : ideal) (w : W) : outcome (ideal * W) :=
  match n with
  | O => Ret (J, w)
  | S n => '(J, w) ← ideal_tick J w; ideal_ticks n J w
  end.

Definition ideal_updatetime (cp : Z) (J : ideal) (w : W) : outcome (ideal * W) :=
  if cp <? i_point J then
    w ← skynet_error w; Ret (Ideal (i_now J) (i_pending J) cp, w)
  else if cp =? i_point J then Ret (J, w)
  else
    _ ← int_ok (u32 (cp - i_point J));
    ideal_ticks (Z.to_nat (u32 (cp - i_point J)))
      (Ideal (i_now J) (i_pending J) cp) w.

(** What the scheduler and the services do with the timer. *)
Inductive timer_action := AddTimer (event : timer_event) (time : Z) | UpdateTime (cp : Z).

Definition timer_action_ok (a : timer_action) : Prop :=
  match a with AddTimer _ time => 0 < time <= INT_MAX | UpdateTime _ => True end.

Fixpoint run_timer (acts : list timer_action) (T : timer) (w : W) : outcome (timer * W) :=
  match acts with
  | [] => Ret (T, w)
  | AddTimer event time :: acts => run_timer acts (timer_add T event time) w
  | UpdateTime cp :: acts =>
      '(T, w) ← skynet_updatetime context_push skynet_error cp T w;
      run_timer acts T w
  end.

Fixpoint run_ideal (acts : list timer_action) (J : ideal) (w : W) : outcome (ideal * W) :=
  match acts with
  | [] => Ret (J, w)
  | AddTimer event time :: acts => run_ideal acts (ideal_add J event time) w
  | UpdateTime cp :: acts => '(J, w) ← ideal_updatetime cp J w; run_ideal acts J w
  end.
End ideal.

(** ** The wheel implements the abstract timer *)

Definition node_of (p : Z * timer_event) : timer_node := TimerNode (u32 p.1) p.2.

Record timer_repr (T : timer) (J : ideal) : Prop := {
  tr_now : 0 <= i_now J;
  tr_time : t_time T = u32 (i_now J);
  tr_point : t_current_point T = i_point J;
  tr_soon d event : (d, event) ∈ i_pending J -> i_now J < d < i_now J + 2 ^ 31;
  tr_filed : filed (place (t_time T)) T (node_of <$> i_pending J) }.

Lemma soon_ahead now d : now < d < now + 2 ^ 31 -> ahead (u32 now) (u32 d).
Proof.
  intros Hd. unfold ahead, u32. rewrite <- Zminus_mod.
  rewrite Z.mod_small; lia.
Qed.

Lemma soon_inj now d d' :
  now < d < now + 2 ^ 31 -> now < d' < now + 2 ^ 31 -> u32 d = u32 d' -> d = d'.
Proof. unfold u32. intros. Z.to_euclidean_division_equations; lia. Qed.

Lemma u32_add_l a b : u32 (u32 a + b) = u32 (a + b).
Proof. unfold u32. apply Zplus_mod_idemp_l. Qed.

Lemma timer_repr_add T J event time :
  timer_repr T J -> 0 < time <= INT_MAX ->
  timer_repr (timer_add T event time) (ideal_add J event time).
Proof.
  intros [Hn Ht Hp Hs F] Htime. unfold timer_add.
  split; cbn [i_now i_pending i_point ideal_add]; rewrite ?add_node_time; try done.
  - unfold add_node, link. by destruct (place _ _).
  - intros d ev [?| [= -> ->]%list_elem_of_singleton]%elem_of_app; [by eapply Hs|].
    unfold INT_MAX in *. lia.
  - rewrite fmap_app. cbn [fmap list_fmap].
    replace (node_of (i_now J + time, event)) with (TimerNode (u32 (time + t_time T)) event).
    + by apply filed_add_node.
    + unfold node_of. cbn. f_equal. rewrite Ht, Z.add_comm. apply u32_add_l.
Qed.

Lemma filter_node_of (P : Z -> Prop) `{!forall x, Decision (P x)} (Q : Z -> Prop)
    `{!forall x, Decision (Q x)} (l : list (Z * timer_event)) :
  (forall p, p ∈ l -> P (u32 p.1) <-> Q p.1) ->
  filter (fun n => P (tn_expire n)) (node_of <$> l) =
  node_of <$> filter (fun p => Q p.1) l.
Proof.
  intros HPQ. induction l as [|p l IH]; [done|]. cbn [fmap list_fmap].
  rewrite !filter_cons, IH by (intros; apply HPQ; by right). cbn [tn_expire node_of].
  destruct (HPQ p) as [??]; [by left|]. repeat case_decide; done || tauto.
Qed.

Section refine.
Context {W : Type}.
Implicit Types (push : Z -> skynet_message -> W -> outcome W).

Lemma dispatch_deliver push l w :
  dispatch_list push (node_of <$> l) w = deliver push l.*2 w.
Proof.
  revert w. induction l as [|p l IH]; intros w; cbn; [done|].
  destruct (push _ _ w); cbn; [apply IH|done..].
Qed.

(** A step of the wheel and a step of the abstract timer produce the same
    outcome and related states. *)
Definition matches (a : outcome (timer * W)) (b : outcome (ideal * W)) : Prop :=
  match a, b with
  | Ret (T, w), Ret (J, w') => w = w' /\ timer_repr T J
  | AssertFail, AssertFail => True
  | LuaError m, LuaError m' => m = m'
  | Undefined, Undefined => True
  | _, _ => False
  end.

Lemma matches_bind a b (f : timer * W -> outcome (timer * W)) (g : ideal * W -> outcome (ideal * W)) :
  matches a b -> (forall T J w, timer_repr T J -> matches (f (T, w)) (g (J, w))) ->
  matches (a ≫= f) (b ≫= g).
Proof.
  intros Hab Hfg. destruct a as [[T w]| | |], b as [[J w']| | |]; cbn in *; try done.
  destruct Hab as [-> ?]. by apply Hfg.
Qed.

Lemma matches_bindW (o : outcome W) (f : W -> outcome (timer * W)) (g : W -> outcome (ideal * W)) :
  (forall w, matches (f w) (g w)) -> matches (o ≫= f) (o ≫= g).
Proof. intros. destruct o; cbn; auto. Qed.

Lemma timer_update_refines push T J w :
  timer_repr T J -> matches (timer_update push T w) (ideal_tick push J w).
Proof.
  intros [Hn Ht Hp Hs F].
  assert (forall p, p ∈ i_pending J -> i_now J < p.1 < i_now J + 2 ^ 31) as Hs'
    by (intros [d ev]; apply Hs).
  destruct (timer_update_filed (W:=W) T (node_of <$> i_pending J)) as (T' & Ht' & Hp' & F' & E).
  { rewrite Ht. apply u32_range. }
  { intros n (p & -> & Hin)%list_elem_of_fmap. cbn. split; [apply u32_range|].
    rewrite Ht. by apply soon_ahead, Hs'. }
  { done. }
  rewrite E. unfold ideal_tick. rewrite Ht, u32_add_l in *.
  assert (forall p, p ∈ i_pending J -> u32 p.1 = u32 (i_now J + 1) <-> p.1 = i_now J + 1) as Hd.
  { intros p Hin. split; [|by intros ->]. apply (soon_inj (i_now J)); [by apply Hs'|lia]. }
  pose proof (filter_node_of (fun e => e = u32 (i_now J + 1)) (fun d => d = i_now J + 1)
    (i_pending J) Hd) as Hin.
  pose proof (filter_node_of (fun e => e <> u32 (i_now J + 1)) (fun d => d <> i_now J + 1)
    (i_pending J) (fun p Hp => not_iff_compat (Hd p Hp))) as Hout.
  unfold at_. rewrite Hin.
  rewrite dispatch_deliver. apply matches_bindW. intros w'. split; [done|].
  rewrite Hout in F'.
  split; cbn; [lia|done|congruence| |by rewrite Ht'].
  intros d ev [Hne Hi]%list_elem_of_filter. cbn in Hne. specialize (Hs _ _ Hi). lia.
Qed.

Lemma update_times_refines push n T J w :
  timer_repr T J -> matches (update_times push n T w) (ideal_ticks push n J w).
Proof.
  revert T J w. induction n as [|n IH]; intros T J w H; cbn; [done|].
  apply matches_bind; [by apply timer_update_refines|]. intros. by apply IH.
Qed.

Lemma timer_repr_clock T J c cp :
  timer_repr T J -> timer_repr (with_clock T c cp) (Ideal (i_now J) (i_pending J) cp).
Proof. intros [????F]. split; cbn; try done. by apply filed_clock. Qed.

Lemma updatetime_refines push err cp T J w :
  timer_repr T J ->
  matches (skynet_updatetime push err cp T w) (ideal_updatetime push err cp J w).
Proof.
  intros H. unfold skynet_updatetime, ideal_updatetime. rewrite (tr_point _ _ H).
  destruct (cp <? i_point J).
  { apply matches_bindW. intros w'. split; [done|]. by apply timer_repr_clock. }
  destruct (cp =? i_point J); [done|]. unfold int_ok. case_match; cbn; [|done].
  by apply update_times_refines, timer_repr_clock.
Qed.

Lemma run_refines push err acts T J w :
  Forall timer_action_ok acts -> timer_repr T J ->
  matches (run_timer push err acts T w) (run_ideal push err acts J w).
Proof.
  intros Hok. revert T J w. induction Hok as [|[ev time|cp] acts Ha _ IH]; intros T J w H; cbn.
  - done.
  - by apply IH, timer_repr_add.
  - apply matches_bind; [by apply updatetime_refines|]. intros. by apply IH.
Qed.
End refine.

Lemma init_shape : wheel_shape timer_create_timer.
Proof. split; [done|]. split; [done|]. by repeat constructor. Qed.

Lemma init_empty s : slot_list timer_create_timer s = [].
Proof.
  destruct s as [i|l i]; cbn -[replicate TIME_NEAR TIME_LEVEL].
  - destruct (_ !! _) eqn:E; [|done]. by apply lookup_replicate_1 in E as [-> _].
  - destruct (replicate 4 _ !! _) eqn:E; [|done]. apply lookup_replicate_1 in E as [-> _].
    cbn -[replicate TIME_LEVEL].
    destruct (_ !! _) eqn:E; [|done]. by apply lookup_replicate_1 in E as [-> _].
Qed.

Lemma init_repr sec cs cp : timer_repr (skynet_timer_init sec cs cp) (ideal_init cp).
Proof.
  split; try done; [set_solver|]. split.
  - apply init_shape.
  - intros s n _. change (slot_list (skynet_timer_init sec cs cp) s) with (slot_list timer_create_timer s).
    rewrite init_empty. set_solver.
  - intros e _. change (slot_list (skynet_timer_init sec cs cp)) with (slot_list timer_create_timer).
    by rewrite init_empty.
Qed.

(** C9. The hierarchical timing wheel implements the abstract timer: from
    [skynet_timer_init], whatever timers are added with a positive delay and
    however the clock advances, it delivers the same messages in the same
    order (each event exactly at its deadline, events of one deadline in the
    order they were added, across wrap-around of the 32-bit tick counter and
    any backward move of the clock), with the same effect on the world. *)
Theorem timer_refinement {W : Type} (push : Z -> skynet_message -> W -> outcome W)
    (err : W -> outcome W) (sec cs cp : Z) (acts : list timer_action) (w : W)
    (Hacts : Forall timer_action_ok acts) :
  matches (run_timer push err acts (skynet_timer_init sec cs cp) w)
          (run_ideal push err acts (ideal_init cp) w).
Proof. by apply run_refines, init_repr. Qed.

Definition log_push (handle : Z) (m : skynet_message) (w : list (Z * Z)) : outcome (list (Z * Z)) :=
  Ret (w ++ [(handle, msg_session m)]).

Definition demo_acts : list timer_action :=
  [ AddTimer (TimerEvent 1 1) 300; AddTimer (TimerEvent 2 2) 3; UpdateTime 10;
    UpdateTime 7; AddTimer (TimerEvent 3 3) 290; UpdateTime 297; UpdateTime 298 ].

Lemma timer_refinement_witness :
  Forall timer_action_ok demo_acts /\
  matches (run_timer log_push Ret demo_acts (skynet_timer_init 0 0 0) [])
          (run_ideal log_push Ret demo_acts (ideal_init 0) []) /\
  snd <$> (match run_ideal log_push Ret demo_acts (ideal_init 0) [] with
           | Ret x => Some x | _ => None end) = Some [(2, 2); (1, 1); (3, 3)].
Proof.
  assert (Forall timer_action_ok demo_acts) as H
    by (repeat constructor; cbn; unfold INT_MAX; lia).
  split; [exact H|]. split; [exact (timer_refinement log_push Ret 0 0 0 demo_acts [] H)|].
  vm_compute. reflexivity.
Defined.
