(* ===== verification/Handle.v ===== *)
(** The handle registry of [skynet-src/skynet_handle.c]: an open hash table
    from handles to contexts, and a sorted array of service names. *)
From S2P Require Import Prelude Mq.

(** ** Data *)

Definition HANDLE_MASK : Z := 0xffffff.
Definition HANDLE_REMOTE_SHIFT : Z := 24.
Definition DEFAULT_SLOT_SIZE : Z := 4.
Definition MAX_SLOT_SIZE : Z := 0x40000000.

Record handle_name := HandleName { hn_name : bytes; hn_handle : Z }.

(** [struct handle_storage]; the unused tail of [name] is uninitialised. *)
Record handle_storage := HandleStorage {
  hs_harbor : Z;
  hs_handle_index : Z;
  hs_slot_size : Z;
  hs_slot : list (option loc);
  hs_name_cap : Z;
  hs_name_count : Z;
  hs_name : list (option handle_name) }.

Definition with_slots s index size slot : handle_storage :=
  HandleStorage (hs_harbor s) index size slot (hs_name_cap s) (hs_name_count s) (hs_name s).
Definition with_names s cap count name : handle_storage :=
  HandleStorage (hs_harbor s) (hs_handle_index s) (hs_slot_size s) (hs_slot s) cap count name.

(** What the registry asks of the contexts it stores, for a world [W] that
    holds both. [skynet_context_handle] reads a field that the registry never
    writes. *)
Class HasHandles (W : Type) := {
  get_handles : W -> handle_storage;
  set_handles : handle_storage -> W -> W;
  skynet_context_handle : loc -> W -> outcome Z;
  skynet_context_grab : loc -> W -> outcome W;
  skynet_context_release : loc -> W -> outcome W;
  get_set_handles : forall s w, get_handles (set_handles s w) = s;
  context_handle_set : forall l s w,
    skynet_context_handle l (set_handles s w) = skynet_context_handle l w;
  context_grab_handles : forall l w w',
    skynet_context_grab l w = Ret w' -> get_handles w' = get_handles w;
  context_grab_handle : forall l w w' l',
    skynet_context_grab l w = Ret w' ->
    skynet_context_handle l' w' = skynet_context_handle l' w }.

(** [s->name[i]]: reading an uninitialised entry is undefined. *)
Definition name_get (s : handle_storage) (i : Z) : outcome handle_name :=
  e ← arr_get (hs_name s) i; deref e.

(** ** Registration *)
Section contexts.
(** [skynet_context_handle] in the current world. *)
Variable context_handle : loc -> outcome Z.

(** [for (i=0;i<s->slot_size;i++)]: [n] rounds are left. *)
Fixpoint register_scan (n : nat) (i : Z) (s : handle_storage) (ctx : loc)
    : outcome (option (Z * handle_storage)) :=
  match n with
  | O => Ret None
  | S n =>
      let handle := Z.land (u32 (i + hs_handle_index s)) HANDLE_MASK in
      let hash := Z.land handle (hs_slot_size s - 1) in
      c ← arr_get (hs_slot s) hash;
      match c with
      | None =>
          slot ← arr_set (hs_slot s) hash (Some ctx);
          Ret (Some (Z.lor handle (hs_harbor s), with_slots s (handle + 1) (hs_slot_size s) slot))
      | Some _ => register_scan n (i + 1) s ctx
      end
  end.

Fixpoint rehash_loop (n : nat) (i : Z) (s : handle_storage) (new_slot : list (option loc))
    : outcome (list (option loc)) :=
  match n with
  | O => Ret new_slot
  | S n =>
      c ← arr_get (hs_slot s) i;
      c ← deref c;
      h ← context_handle c;
      let hash := Z.land h (hs_slot_size s * 2 - 1) in
      old ← arr_get new_slot hash;
      _ ← assert_ (bool_decide (old = None));
      new_slot ← arr_set new_slot hash (Some c);
      rehash_loop n (i + 1) s new_slot
  end.

Definition register_expand (s : handle_storage) : outcome handle_storage :=
  _ ← assert_ (hs_slot_size s * 2 - 1 <=? HANDLE_MASK);
  new_slot ← rehash_loop (Z.to_nat (hs_slot_size s)) 0 s
               (replicate (Z.to_nat (hs_slot_size s * 2)) None);
  Ret (with_slots s (hs_handle_index s) (hs_slot_size s * 2) new_slot).

(** [for (;;)]: one expansion always makes room. *)
Fixpoint register_loop (fuel : nat) (s : handle_storage) (ctx : loc)
    : outcome (Z * handle_storage) :=
  match fuel with
  | O => Undefined
  | S fuel =>
      r ← register_scan (Z.to_nat (hs_slot_size s)) 0 s ctx;
      match r with
      | Some r => Ret r
      | None => s ← register_expand s; register_loop fuel s ctx
      end
  end.

Definition handle_register (s : handle_storage) (ctx : loc) : outcome (Z * handle_storage) :=
  register_loop 2 s ctx.

(** ** Lookup and retirement *)

Definition slot_of (s : handle_storage) (handle : Z) : outcome (option loc) :=
  let hash := Z.land handle (hs_slot_size s - 1) in
  c ← arr_get (hs_slot s) hash;
  match c with
  | Some ctx =>
      h ← context_handle ctx;
      Ret (if h =? handle then Some ctx else None)
  | None => Ret None
  end.

(** The compaction [for (i=0; i<n; ++i) ...] with its [j]. *)
Fixpoint compact_loop (n : nat) (i j : Z) (handle : Z) (s : handle_storage)
    : outcome (Z * handle_storage) :=
  match n with
  | O => Ret (j, s)
  | S n =>
      e ← name_get s i;
      if hn_handle e =? handle then compact_loop n (i + 1) j handle s
      else
        s ← (if i =? j then Ret s
             else name ← arr_set (hs_name s) j (Some e);
                  Ret (with_names s (hs_name_cap s) (hs_name_count s) name));
        compact_loop n (i + 1) (j + 1) handle s
  end.

(** [skynet_handle_retire] between [rwlock_wlock] and [rwlock_wunlock]. *)
Definition handle_retire (s : handle_storage) (handle : Z)
    : outcome (option loc * handle_storage) :=
  ctx ← slot_of s handle;
  match ctx with
  | Some ctx =>
      slot ← arr_set (hs_slot s) (Z.land handle (hs_slot_size s - 1)) None;
      let s := with_slots s (hs_handle_index s) (hs_slot_size s) slot in
      '(j, s) ← compact_loop (Z.to_nat (hs_name_count s)) 0 0 handle s;
      Ret (Some ctx, with_names s (hs_name_cap s) j (hs_name s))
  | None => Ret (None, s)
  end.
End contexts.

(** ** The operations on the world *)
Section operations.
Context {W : Type} `{HasHandles W}.

Definition skynet_handle_register (ctx : loc) (w : W) : outcome (Z * W) :=
  '(handle, s) ← handle_register (fun l => skynet_context_handle l w) (get_handles w) ctx;
  Ret (handle, set_handles s w).

Definition skynet_handle_retire (handle : Z) (w : W) : outcome (Z * W) :=
  '(ctx, s) ← handle_retire (fun l => skynet_context_handle l w) (get_handles w) handle;
  let w := set_handles s w in
  match ctx with
  | Some ctx => w ← skynet_context_release ctx w; Ret (1, w)
  | None => Ret (0, w)
  end.

(** The inner loop of [skynet_handle_retireall]; [slot_size] is read again
    each round. *)
Fixpoint retireall_scan (fuel : nat) (i n : Z) (w : W) : outcome (Z * W) :=
  if hs_slot_size (get_handles w) <=? i then Ret (n, w)
  else
    match fuel with
    | O => Undefined
    | S fuel =>
        c ← arr_get (hs_slot (get_handles w)) i;
        handle ← (match c with Some ctx => skynet_context_handle ctx w | None => Ret 0 end);
        if handle =? 0 then retireall_scan fuel (i + 1) n w
        else
          '(r, w) ← skynet_handle_retire handle w;
          retireall_scan fuel (i + 1) (if r =? 0 then n else n + 1) w
    end.

Fixpoint skynet_handle_retireall (fuel : nat) (w : W) : outcome W :=
  match fuel with
  | O => Undefined
  | S fuel' =>
      '(n, w) ← retireall_scan fuel 0 0 w;
      if n =? 0 then Ret w else skynet_handle_retireall fuel' w
  end.

Definition skynet_handle_grab (handle : Z) (w : W) : outcome (option loc * W) :=
  ctx ← slot_of (fun l => skynet_context_handle l w) (get_handles w) handle;
  match ctx with
  | Some ctx => w ← skynet_context_grab ctx w; Ret (Some ctx, w)
  | None => Ret (None, w)
  end.
End operations.

(** ** Names *)

(** The binary search shared by [skynet_handle_findname] and [_insert_name]:
    the index of [name], or the place to insert it. Each round shrinks
    [end - begin], so [name_count] rounds and one are enough. *)
Fixpoint name_search (fuel : nat) (s : handle_storage) (name : bytes) (begin end_ : Z)
    : outcome (Z + Z) :=
  if begin <=? end_ then
    match fuel with
    | O => Undefined
    | S fuel =>
        let mid := (begin + end_) ÷ 2 in
        n ← name_get s mid;
        let c := strcmp (hn_name n) name in
        if c =? 0 then Ret (inl mid)
        else if c <? 0 then name_search fuel s name (mid + 1) end_
        else name_search fuel s name begin (mid - 1)
    end
  else Ret (inr begin).

Definition skynet_handle_findname (s : handle_storage) (name : bytes) : outcome Z :=
  r ← name_search (Z.to_nat (hs_name_count s)) s name 0 (hs_name_count s - 1);
  match r with
  | inl mid => n ← name_get s mid; Ret (hn_handle n)
  | inr _ => Ret 0
  end.

(** [for (i=a;i<b;i++) n[i+d] = s->name[i];] *)
Fixpoint name_copy (k : nat) (i d : Z) (s : handle_storage) (n : list (option handle_name))
    : outcome (list (option handle_name)) :=
  match k with
  | O => Ret n
  | S k =>
      e ← name_get s i;
      n ← arr_set n (i + d) (Some e);
      name_copy k (i + 1) d s n
  end.

(** [for (i=s->name_count;i>before;i--) s->name[i] = s->name[i-1];] *)
Fixpoint name_shift (k : nat) (i : Z) (s : handle_storage) : outcome handle_storage :=
  match k with
  | O => Ret s
  | S k =>
      e ← name_get s (i - 1);
      name ← arr_set (hs_name s) i (Some e);
      name_shift k (i - 1) (with_names s (hs_name_cap s) (hs_name_count s) name)
  end.

(** The [if] of [_insert_name_before]: a free entry at [before]. *)
Definition name_room (s : handle_storage) (before : Z) : outcome handle_storage :=
  if hs_name_cap s <=? hs_name_count s then
    let cap := hs_name_cap s * 2 in
    _ ← assert_ (cap <=? MAX_SLOT_SIZE);
    n ← name_copy (Z.to_nat before) 0 0 s (replicate (Z.to_nat cap) None);
    n ← name_copy (Z.to_nat (hs_name_count s - before)) before 1 s n;
    Ret (with_names s cap (hs_name_count s) n)
  else name_shift (Z.to_nat (hs_name_count s - before)) (hs_name_count s) s.

Definition _insert_name_before (s : handle_storage) (name : bytes) (handle before : Z)
    : outcome handle_storage :=
  s ← name_room s before;
  n ← arr_set (hs_name s) before (Some (HandleName name handle));
  Ret (with_names s (hs_name_cap s) (hs_name_count s + 1) n).

Definition _insert_name (s : handle_storage) (name : bytes) (handle : Z)
    : outcome (option bytes * handle_storage) :=
  r ← name_search (Z.to_nat (hs_name_count s)) s name 0 (hs_name_count s - 1);
  match r with
  | inl _ => Ret (None, s)
  | inr begin =>
      s ← _insert_name_before s name handle begin;
      Ret (Some name, s)
  end.

Definition skynet_handle_namehandle (s : handle_storage) (handle : Z) (name : bytes)
    : outcome (option bytes * handle_storage) :=
  _insert_name s name handle.

Definition skynet_handle_init (harbor : Z) : handle_storage :=
  HandleStorage (Z.shiftl (Z.land harbor 0xff) HANDLE_REMOTE_SHIFT) 1
    DEFAULT_SLOT_SIZE (replicate (Z.to_nat DEFAULT_SLOT_SIZE) None)
    2 0 (replicate 2 None).

(** ** Names: a sorted array represents a finite map *)

Definition name_lt (a b : handle_name) : Prop := str_lt (hn_name a) (hn_name b).

#[export] Instance name_lt_trans : Transitive name_lt.
Proof. intros a b c. unfold name_lt. apply transitivity. Qed.

(** The array holds the list [l] of entries, sorted by name. *)
Record names_list (s : handle_storage) (l : list handle_name) : Prop := {
  nl_length : Z.of_nat (length (hs_name s)) = hs_name_cap s;
  nl_cap : 0 < hs_name_cap s;
  nl_count : hs_name_count s = Z.of_nat (length l);
  nl_fits : Z.of_nat (length l) <= hs_name_cap s;
  nl_entries i e : l !! i = Some e -> hs_name s !! i = Some (Some e);
  nl_sorted : StronglySorted name_lt l }.

Definition names_map (l : list handle_name) (m : gmap bytes Z) : Prop :=
  forall name handle, m !! name = Some handle <-> HandleName name handle ∈ l.

Lemma name_get_repr s l (i : nat) e :
  names_list s l -> l !! i = Some e -> name_get s (Z.of_nat i) = Ret e.
Proof.
  intros N Hi. unfold name_get, arr_get. rewrite arr_lookup_nat.
  by rewrite (nl_entries _ _ N _ _ Hi).
Qed.

Lemma sorted_lt (l : list handle_name) (i j : nat) a b :
  StronglySorted name_lt l -> l !! i = Some a -> l !! j = Some b -> (i < j)%nat -> name_lt a b.
Proof. intros Hs Ha Hb Hij. by eapply sorted_lookup_lt. Qed.

Lemma name_search_spec fuel s l name begin end_ :
  names_list s l ->
  0 <= begin <= end_ + 1 -> end_ < Z.of_nat (length l) ->
  end_ + 1 - begin <= Z.of_nat fuel ->
  (forall (k : nat) e, l !! k = Some e -> Z.of_nat k < begin -> strcmp (hn_name e) name < 0) ->
  (forall (k : nat) e, l !! k = Some e -> end_ < Z.of_nat k -> 0 < strcmp (hn_name e) name) ->
  (exists (mid : nat) e, name_search fuel s name begin end_ = Ret (inl (Z.of_nat mid)) /\
     l !! mid = Some e /\ hn_name e = name) \/
  (exists b : nat, name_search fuel s name begin end_ = Ret (inr (Z.of_nat b)) /\
     (b <= length l)%nat /\
     (forall (k : nat) e, l !! k = Some e -> (k < b)%nat -> strcmp (hn_name e) name < 0) /\
     (forall (k : nat) e, l !! k = Some e -> (b <= k)%nat -> 0 < strcmp (hn_name e) name)).
Proof.
  intros N. revert begin end_. induction fuel as [|fuel IH]; intros begin end_ Hb He Hf Hlo Hhi; cbn [name_search].
  { destruct (Z.leb_spec begin end_); [lia|]. right. exists (Z.to_nat begin).
    rewrite Z2Nat.id by lia. repeat split; [lia|..]; intros k e Hk ?; [eapply Hlo|eapply Hhi]; eauto; lia. }
  destruct (Z.leb_spec begin end_).
  2: { right. exists (Z.to_nat begin).
    rewrite Z2Nat.id by lia. repeat split; [lia|..]; intros k e Hk ?; [eapply Hlo|eapply Hhi]; eauto; lia. }
  rewrite Z.quot_div_nonneg by lia. cbn zeta.
  set (mid := (begin + end_) / 2).
  assert (begin <= mid <= end_) as Hm by (subst mid; Z.to_euclidean_division_equations; lia).
  clearbody mid.
  destruct (lookup_lt_is_Some_2 l (Z.to_nat mid)) as [e Hmid]; [lia|].
  replace mid with (Z.of_nat (Z.to_nat mid)) by lia.
  rewrite (name_get_repr _ _ _ _ N Hmid). cbn [mbind outcome_bind].
  destruct (Z.eqb_spec (strcmp (hn_name e) name) 0) as [Hc%strcmp_eq|Hc].
  { left. eauto. }
  destruct (Z.ltb_spec (strcmp (hn_name e) name) 0) as [Hlt|Hge].
  - apply IH; try lia; [|done]. intros k e' Hk Hkm.
    destruct (decide (k = Z.to_nat mid)) as [->|]; [by simplify_eq|].
    eapply strcmp_lt_trans; [|exact Hlt].
    apply (sorted_lt l k (Z.to_nat mid)); [apply N|done..|lia].
  - apply IH; try lia; [done|]. intros k e' Hk Hkm.
    destruct (decide (k = Z.to_nat mid)) as [->|]; [simplify_eq; lia|].
    assert (strcmp (hn_name e) (hn_name e') < 0) as Hs.
    { apply (sorted_lt l (Z.to_nat mid) k); [apply N|done..|lia]. }
    assert (strcmp name (hn_name e) < 0) by (rewrite strcmp_swap; lia).
    assert (strcmp name (hn_name e') < 0) by by eapply strcmp_lt_trans.
    rewrite (strcmp_swap name (hn_name e')). lia.
Qed.

(** The search from the full range. *)
Lemma name_search_full s l name :
  names_list s l ->
  let r := name_search (Z.to_nat (hs_name_count s)) s name 0 (hs_name_count s - 1) in
  (exists (mid : nat) e, r = Ret (inl (Z.of_nat mid)) /\ l !! mid = Some e /\ hn_name e = name) \/
  (exists b : nat, r = Ret (inr (Z.of_nat b)) /\ (b <= length l)%nat /\
     (forall (k : nat) e, l !! k = Some e -> (k < b)%nat -> strcmp (hn_name e) name < 0) /\
     (forall (k : nat) e, l !! k = Some e -> (b <= k)%nat -> 0 < strcmp (hn_name e) name)).
Proof.
  intros N r. pose proof (nl_count _ _ N).
  apply name_search_spec; [done|lia..| |];
    intros k e Hk%lookup_lt_Some ?; lia.
Qed.

Lemma findname_spec s l m name :
  names_list s l -> names_map l m ->
  skynet_handle_findname s name = Ret (default 0 (m !! name)).
Proof.
  intros N M. unfold skynet_handle_findname.
  destruct (name_search_full s l name N) as [(mid & e & -> & Hl & <-)|(b & -> & Hb & Hlo & Hhi)];
    cbn [mbind outcome_bind].
  - rewrite (name_get_repr _ _ _ _ N Hl). cbn.
    destruct e as [n h]. cbn. by rewrite (proj2 (M n h) (list_elem_of_lookup_2 _ _ _ Hl)).
  - destruct (m !! name) as [h|] eqn:E; [|done].
    apply M, list_elem_of_lookup in E as [k Hk].
    destruct (decide (k < b)%nat) as [Hlt|Hlt].
    + specialize (Hlo _ _ Hk Hlt). cbn in Hlo. rewrite strcmp_refl in Hlo. lia.
    + specialize (Hhi _ _ Hk ltac:(lia)). cbn in Hhi. rewrite strcmp_refl in Hhi. lia.
Qed.

(** *** Insertion *)

Lemma name_copy_spec s l (k i d : nat) n :
  names_list s l -> (i + k <= length l)%nat -> (i + k + d <= length n)%nat ->
  exists n', name_copy k (Z.of_nat i) (Z.of_nat d) s n = Ret n' /\
    length n' = length n /\
    (forall j e, l !! j = Some e -> (i <= j < i + k)%nat -> n' !! (j + d)%nat = Some (Some e)) /\
    (forall j, (j < i + d \/ i + k + d <= j)%nat -> n' !! j = n !! j).
Proof.
  intros N. revert i n. induction k as [|k IH]; intros i n Hl Hn; cbn [name_copy].
  { exists n. split; [done|]. split; [done|]. split; [intros; lia|done]. }
  destruct (lookup_lt_is_Some_2 l i) as [e He]; [lia|].
  rewrite (name_get_repr _ _ _ _ N He). cbn [mbind outcome_bind].
  rewrite arr_set_Ret by lia. cbn [mbind outcome_bind].
  replace (Z.of_nat i + 1) with (Z.of_nat (S i)) by lia.
  replace (Z.to_nat (Z.of_nat i + Z.of_nat d)) with (i + d)%nat by lia.
  destruct (IH (S i) (<[(i + d)%nat := Some e]> n)) as (n' & -> & Hlen & Hin & Hout);
    [lia|rewrite length_insert; lia|].
  rewrite length_insert in Hlen. exists n'. split; [done|]. split; [done|]. split.
  - intros j e' Hj Hji. destruct (decide (j = i)) as [->|].
    + rewrite Hout by lia. simplify_eq. apply list_lookup_insert_eq. lia.
    + apply Hin; [done|lia].
  - intros j Hj. rewrite Hout by lia. apply list_lookup_insert_ne. lia.
Qed.

Lemma name_shift_spec s l (k i : nat) :
  (k <= i)%nat -> (i < length (hs_name s))%nat ->
  (forall j e, l !! j = Some e -> (j < i)%nat -> hs_name s !! j = Some (Some e)) ->
  (i <= length l)%nat ->
  exists s', name_shift k (Z.of_nat i) s = Ret s' /\
    s' = with_names s (hs_name_cap s) (hs_name_count s) (hs_name s') /\
    length (hs_name s') = length (hs_name s) /\
    (forall j e, l !! j = Some e -> (j < i - k)%nat -> hs_name s' !! j = Some (Some e)) /\
    (forall j e, l !! j = Some e -> (i - k <= j < i)%nat -> hs_name s' !! S j = Some (Some e)) /\
    (forall j, (i < j)%nat -> hs_name s' !! j = hs_name s !! j).
Proof.
  revert i s. induction k as [|k IH]; intros i s Hk Hi Hn Hl; cbn [name_shift].
  { exists s. destruct s; cbn in *. split; [done|]. split; [done|]. split; [done|].
    split; [intros; apply Hn; [done|lia]|]. split; [intros; lia|done]. }
  destruct (lookup_lt_is_Some_2 l (i - 1)) as [e He]; [lia|].
  unfold name_get, arr_get.
  replace (Z.of_nat i - 1) with (Z.of_nat (i - 1)) by lia.
  rewrite arr_lookup_nat, (Hn _ _ He) by lia. cbn [deref mbind outcome_bind].
  rewrite arr_set_Ret by lia. cbn [mbind outcome_bind]. rewrite Nat2Z.id.
  set (s1 := with_names s _ _ _).
  destruct (IH (i - 1)%nat s1) as (s' & -> & E & Hlen & Hlo & Hmid & Hhi).
  - lia.
  - cbn. rewrite length_insert. lia.
  - intros j e' Hj ?. cbn. rewrite list_lookup_insert_ne by lia. apply Hn; [done|lia].
  - lia.
  - exists s'. split; [done|]. split; [rewrite E; by destruct s|].
    split; [rewrite Hlen; cbn; apply length_insert|].
    split; [intros j e' ? ?; apply Hlo; [done|lia]|]. split.
    + intros j e' Hj Hji. destruct (decide (j = i - 1)%nat) as [->|].
      * rewrite Hhi by lia. cbn. replace (S (i - 1)) with i by lia. simplify_eq.
        by rewrite list_lookup_insert_eq by lia.
      * apply Hmid; [done|lia].
    + intros j ?. rewrite Hhi by lia. cbn. by rewrite list_lookup_insert_ne by lia.
Qed.

(** Both ways of making room keep the entries around the free one. *)
Lemma name_room_spec s l (before : nat) :
  names_list s l -> (before <= length l)%nat -> hs_name_count s < 2 ^ 29 ->
  exists s1 : handle_storage, name_room s (Z.of_nat before) = Ret s1 /\
    s1 = with_names s (hs_name_cap s1) (hs_name_count s) (hs_name s1) /\
    Z.of_nat (length (hs_name s1)) = hs_name_cap s1 /\ 0 < hs_name_cap s1 /\
    Z.of_nat (length l) < hs_name_cap s1 /\
    (forall j e, l !! j = Some e -> (j < before)%nat -> hs_name s1 !! j = Some (Some e)) /\
    (forall j e, l !! j = Some e -> (before <= j)%nat -> hs_name s1 !! S j = Some (Some e)).
Proof.
  intros N Hb Hc. pose proof (nl_count _ _ N) as Hcount. pose proof (nl_length _ _ N) as Hlen.
  pose proof (nl_fits _ _ N) as Hfits. pose proof (nl_cap _ _ N) as Hcap.
  unfold name_room. rewrite Nat2Z.id.
  replace (Z.to_nat (hs_name_count s - Z.of_nat before)) with (length l - before)%nat by lia.
  destruct (Z.leb_spec (hs_name_cap s) (hs_name_count s)); cbn zeta.
  - unfold assert_. rewrite (proj2 (Z.leb_le _ _)) by (unfold MAX_SLOT_SIZE; lia).
    cbn [mbind outcome_bind].
    destruct (name_copy_spec s l before 0 0 (replicate (Z.to_nat (hs_name_cap s * 2)) None))
      as (n1 & E1 & L1 & In1 & Out1); [done|lia|rewrite length_replicate; lia|].
    change (Z.of_nat 0) with 0 in E1. rewrite E1. cbn [mbind outcome_bind].
    rewrite length_replicate in L1.
    destruct (name_copy_spec s l (length l - before) before 1 n1)
      as (n2 & E2 & L2 & In2 & Out2); [done|lia|lia|].
    change (Z.of_nat 1) with 1 in E2. rewrite E2. cbn [mbind outcome_bind].
    eexists. split; [done|]. split; [done|]. cbn.
    split; [lia|]. split; [lia|]. split; [lia|]. split; intros j e Hj ?.
    + rewrite Out2 by lia. replace j with (j + 0)%nat by lia. apply In1; [done|lia].
    + pose proof (lookup_lt_Some _ _ _ Hj).
      replace (S j) with (j + 1)%nat by lia. apply In2; [done|lia].
  - rewrite Hcount.
    destruct (name_shift_spec s l (length l - before) (length l))
      as (s1 & -> & E & Hl1 & Hlo & Hhi & _); [lia|lia| |lia|].
    { intros. by apply N. }
    exists s1. rewrite <- Hcount.
    assert (hs_name_cap s1 = hs_name_cap s) as Ec by by rewrite E.
    split; [done|]. split; [by rewrite Ec|]. split; [lia|]. split; [lia|]. split; [lia|].
    split; intros j e Hj ?.
    + apply Hlo; [done|lia].
    + pose proof (lookup_lt_Some _ _ _ Hj). apply Hhi; [done|lia].
Qed.

Lemma insert_room s l (before : nat) name handle :
  names_list s l -> (before <= length l)%nat -> hs_name_count s < 2 ^ 29 ->
  exists s' : handle_storage,
    _insert_name_before s name handle (Z.of_nat before) = Ret s' /\
    s' = with_names s (hs_name_cap s') (hs_name_count s + 1) (hs_name s') /\
    Z.of_nat (length (hs_name s')) = hs_name_cap s' /\ 0 < hs_name_cap s' /\
    Z.of_nat (length l) < hs_name_cap s' /\
    hs_name s' !! before = Some (Some (HandleName name handle)) /\
    (forall j e, l !! j = Some e -> (j < before)%nat -> hs_name s' !! j = Some (Some e)) /\
    (forall j e, l !! j = Some e -> (before <= j)%nat -> hs_name s' !! S j = Some (Some e)).
Proof.
  intros N Hb Hc.
  destruct (name_room_spec s l before N Hb Hc) as (s1 & E & Es & H1 & H2 & H3 & Hlo & Hhi).
  unfold _insert_name_before. rewrite E. cbn [mbind outcome_bind].
  rewrite arr_set_Ret by lia. cbn [mbind outcome_bind]. rewrite Nat2Z.id.
  eexists. split; [done|]. cbn. split; [by rewrite Es|].
  rewrite length_insert. split; [done|]. split; [done|]. split; [done|].
  split; [by apply list_lookup_insert_eq; lia|].
  split; intros j e ? ?; rewrite list_lookup_insert_ne by lia; auto.
Qed.

Lemma insert_spec s l m name handle :
  names_list s l -> names_map l m -> hs_name_count s < 2 ^ 29 ->
  match m !! name with
  | Some _ => skynet_handle_namehandle s handle name = Ret (None, s)
  | None => exists s' l', skynet_handle_namehandle s handle name = Ret (Some name, s') /\
      s' = with_names s (hs_name_cap s') (hs_name_count s') (hs_name s') /\
      names_list s' l' /\ names_map l' (<[name := handle]> m) /\ length l' = S (length l)
  end.
Proof.
  intros N M Hc. unfold skynet_handle_namehandle, _insert_name.
  destruct (name_search_full s l name N) as [(mid & e & -> & Hl & <-)|(b & -> & Hb & Hlo & Hhi)];
    cbn [mbind outcome_bind].
  { destruct e as [n h]. cbn. by rewrite (proj2 (M n h) (list_elem_of_lookup_2 _ _ _ Hl)). }
  assert (forall h, HandleName name h ∉ l) as Hfresh.
  { intros h [k Hk]%list_elem_of_lookup.
    destruct (decide (k < b)%nat) as [Hlt|Hlt].
    - specialize (Hlo _ _ Hk Hlt). cbn in Hlo. rewrite strcmp_refl in Hlo. lia.
    - specialize (Hhi _ _ Hk ltac:(lia)). cbn in Hhi. rewrite strcmp_refl in Hhi. lia. }
  destruct (m !! name) as [h|] eqn:Em; [by apply M, Hfresh in Em|].
  destruct (insert_room s l b name handle N Hb Hc) as (s' & -> & Es & Hlen & Hcap & Hfit & Hmid & H1 & H2).
  cbn [mbind outcome_bind].
  assert (hs_name_count s' = hs_name_count s + 1) as Hn by by rewrite Es.
  exists s', (take b l ++ HandleName name handle :: drop b l).
  split; [done|]. split; [by rewrite Hn|]. split; [split|split].
  - done.
  - done.
  - rewrite Hn, (nl_count _ _ N), length_app. cbn. rewrite length_take, length_drop. lia.
  - rewrite length_app. cbn. rewrite length_take, length_drop. lia.
  - intros i e. rewrite lookup_app_Some, length_take, Nat.min_l by lia.
    intros [[Hi ?]%lookup_take_Some|[Hi He]]; [by apply H1|].
    destruct (i - b)%nat as [|k] eqn:Ek; cbn in He.
    + simplify_eq. by replace i with b by lia.
    + change (drop b l !! k = Some e) in He. rewrite lookup_drop in He. replace i with (S (b + k)) by lia. apply H2; [done|lia].
  - apply StronglySorted_app_2.
    + intros a c [ka [Ha Hka]]%elem_of_take.
      intros [->|[kc [Hkc ?]]%elem_of_drop]%elem_of_cons; [by eapply Hlo|].
      eapply sorted_lookup_lt; [apply N|exact Ha|exact Hkc|lia].
    + pose proof (nl_sorted _ _ N) as Hs. rewrite <- (take_drop b l) in Hs.
      by eapply StronglySorted_app_1_l.
    + constructor.
      * pose proof (nl_sorted _ _ N) as Hs. rewrite <- (take_drop b l) in Hs.
        by eapply StronglySorted_app_1_r.
      * apply Forall_forall. intros c [kc [Hkc ?]]%elem_of_drop.
        unfold name_lt, str_lt. cbn. rewrite strcmp_swap. specialize (Hhi _ _ Hkc ltac:(lia)). lia.
  - intros n h. rewrite elem_of_app, elem_of_cons.
    assert (HandleName n h ∈ l <-> HandleName n h ∈ take b l \/ HandleName n h ∈ drop b l) as Hl
      by by rewrite <- elem_of_app, take_drop.
    rewrite lookup_insert_Some, (M n h), Hl. split.
    + intros [[-> ->]|[? ?]]; tauto.
    + intros [?|[[= -> ->]|?]]; [|by left|].
      * right. split; [|by left]. intros ->. apply (Hfresh h). rewrite Hl. by left.
      * right. split; [|by right]. intros ->. apply (Hfresh h). rewrite Hl. by right.
  - rewrite length_app. cbn. rewrite length_take, length_drop. lia.
Qed.

(** *** Removal *)

Lemma compact_spec s l handle (k i : nat) :
  length l = (i + k)%nat ->
  (length l <= length (hs_name s))%nat ->
  (forall p e, l !! p = Some e -> (i <= p)%nat -> hs_name s !! p = Some (Some e)) ->
  let kept i := filter (fun e => hn_handle e <> handle) (take i l) in
  (forall p e, kept i !! p = Some e -> hs_name s !! p = Some (Some e)) ->
  exists s' : handle_storage,
    compact_loop k (Z.of_nat i) (Z.of_nat (length (kept i))) handle s =
      Ret (Z.of_nat (length (kept (i + k)%nat)), s') /\
    s' = with_names s (hs_name_cap s) (hs_name_count s) (hs_name s') /\
    length (hs_name s') = length (hs_name s) /\
    (forall p e, kept (i + k)%nat !! p = Some e -> hs_name s' !! p = Some (Some e)).
Proof.
  intros Hl Hlen Hhi kept. revert i s Hl Hlen Hhi.
  induction k as [|k IH]; intros i s Hl Hlen Hhi Hlo; cbn [compact_loop].
  { rewrite Nat.add_0_r. exists s. repeat split; try done. by destruct s. }
  destruct (lookup_lt_is_Some_2 l i) as [e He]; [lia|].
  assert (kept (S i) = kept i ++ (if decide (hn_handle e <> handle) then [e] else [])) as Hk.
  { unfold kept. by rewrite (take_S_r _ _ e He), filter_app. }
  unfold name_get, arr_get. rewrite arr_lookup_nat, (Hhi _ _ He) by lia.
  cbn [deref mbind outcome_bind].
  replace (Z.of_nat i + 1) with (Z.of_nat (S i)) by lia.
  replace (i + S k)%nat with (S i + k)%nat by lia.
  destruct (Z.eqb_spec (hn_handle e) handle) as [Heq|Hne].
  { rewrite decide_False, app_nil_r in Hk by tauto. rewrite <- Hk in *.
    apply IH; [lia|done|intros; apply Hhi; [done|lia]|done]. }
  rewrite decide_True in Hk by done.
  assert (length (kept i) <= i)%nat as Hji.
  { unfold kept. rewrite length_filter, length_take. lia. }
  assert (length (kept (S i)) = S (length (kept i))) as Hlk by (rewrite Hk, length_app; cbn; lia).
  destruct (Z.eqb_spec (Z.of_nat i) (Z.of_nat (length (kept i)))) as [Hij|Hij]; cbn [mbind outcome_bind].
  - replace (Z.of_nat (length (kept i)) + 1) with (Z.of_nat (length (kept (S i)))) by lia.
    apply IH; [lia|done|intros; apply Hhi; [done|lia]|].
    intros p e'. rewrite Hk. intros [?|[? Hp]]%lookup_app_Some; [by apply Hlo|].
    apply list_lookup_singleton_Some in Hp as [? ->].
    replace p with i by lia. apply Hhi; [done|lia].
  - rewrite arr_set_Ret by lia. cbn [mbind outcome_bind]. rewrite Nat2Z.id.
    replace (Z.of_nat (length (kept i)) + 1) with (Z.of_nat (length (kept (S i)))) by lia.
    destruct (IH (S i) (with_names s (hs_name_cap s) (hs_name_count s)
      (<[length (kept i) := Some e]> (hs_name s)))) as (s' & E & Es & Hl' & Hn').
    + lia.
    + cbn. by rewrite length_insert.
    + intros p e' Hp ?. cbn. rewrite list_lookup_insert_ne by lia. apply Hhi; [done|lia].
    + intros p e'. rewrite Hk. cbn. intros [Hp|[? Hp]]%lookup_app_Some.
      * pose proof (lookup_lt_Some _ _ _ Hp). rewrite list_lookup_insert_ne by lia. by apply Hlo.
      * apply list_lookup_singleton_Some in Hp as [? ->].
        replace p with (length (kept i)) by lia. apply list_lookup_insert_eq. lia.
    + exists s'. split; [done|]. split; [rewrite Es; done|]. split; [|done].
      rewrite Hl'. cbn. by rewrite length_insert.
Qed.

(** Retirement forgets every name of the handle. *)
Lemma retire_names_spec s l m handle :
  names_list s l -> names_map l m ->
  exists (s' : handle_storage) j,
    compact_loop (Z.to_nat (hs_name_count s)) 0 0 handle s = Ret (j, s') /\
    s' = with_names s (hs_name_cap s) (hs_name_count s) (hs_name s') /\
    names_list (with_names s' (hs_name_cap s') j (hs_name s'))
      (filter (fun e => hn_handle e <> handle) l) /\
    names_map (filter (fun e => hn_handle e <> handle) l) (filter (fun p => p.2 <> handle) m).
Proof.
  intros N M. pose proof (nl_length _ _ N). pose proof (nl_fits _ _ N).
  pose proof (nl_count _ _ N) as Hc.
  destruct (compact_spec s l handle (length l) 0) as (s' & E & Es & Hl & Hn).
  - done.
  - lia.
  - intros. by apply N.
  - intros p e Hp. by rewrite take_0 in Hp.
  - rewrite Nat.add_0_l, firstn_all in *. rewrite Hc, Nat2Z.id. exists s'. eexists. split; [exact E|].
    split; [by rewrite <- Hc|]. assert (hs_name_cap s' = hs_name_cap s) as Ecap by by rewrite Es.
    split; [split; cbn|].
    + lia.
    + rewrite Ecap. apply N.
    + done.
    + pose proof (length_filter (fun e => hn_handle e <> handle) l). lia.
    + exact Hn.
    + apply sorted_filter, N.
    + intros n h. rewrite map_lookup_filter_Some, list_elem_of_filter, (M n h). cbn. tauto.
Qed.

(** ** Slots: the table represents a finite map from handles to contexts *)
Section slots.
Variable ctxh : loc -> outcome Z.

Record slots_map (s : handle_storage) (M : gmap Z loc) : Prop := {
  sm_size : exists k : nat, hs_slot_size s = 2 ^ Z.of_nat k /\ (2 <= k <= 24)%nat;
  sm_length : Z.of_nat (length (hs_slot s)) = hs_slot_size s;
  sm_harbor : exists b, hs_harbor s = Z.shiftl b 24 /\ 0 <= b < 256;
  sm_index : 1 <= hs_handle_index s <= 2 ^ 24;
  sm_live h c : M !! h = Some c ->
    ctxh c = Ret h /\ 0 <= h /\ h / 2 ^ 24 = hs_harbor s / 2 ^ 24 /\
    arr_lookup (hs_slot s) (h mod hs_slot_size s) = Some (Some c);
  sm_slot i c : arr_lookup (hs_slot s) i = Some (Some c) ->
    exists h, M !! h = Some c /\ i = h mod hs_slot_size s }.

Lemma size_pos s M : slots_map s M -> 4 <= hs_slot_size s <= 2 ^ 24.
Proof.
  intros R. destruct (sm_size _ _ R) as (k & -> & Hk). split.
  - change 4 with (2 ^ 2). apply Z.pow_le_mono_r; lia.
  - apply Z.pow_le_mono_r; lia.
Qed.

Lemma land_size s M h : slots_map s M -> Z.land h (hs_slot_size s - 1) = h mod hs_slot_size s.
Proof. intros R. destruct (sm_size _ _ R) as (k & -> & Hk). apply land_ones_pow2. lia. Qed.

Lemma land_size2 s M h :
  slots_map s M -> Z.land h (hs_slot_size s * 2 - 1) = h mod (hs_slot_size s * 2).
Proof.
  intros R. destruct (sm_size _ _ R) as (k & -> & Hk).
  replace (2 ^ Z.of_nat k * 2) with (2 ^ (Z.of_nat k + 1)) by (rewrite Z.pow_add_r; lia).
  apply land_ones_pow2. lia.
Qed.

(** Distinct handles with a common slot do not exist. *)
Lemma slots_inj s M h h' c c' :
  slots_map s M -> M !! h = Some c -> M !! h' = Some c' ->
  h mod hs_slot_size s = h' mod hs_slot_size s -> h = h' /\ c = c'.
Proof.
  intros R H1 H2 Hm. apply (sm_live _ _ R) in H1 as (E1 & _ & _ & S1).
  apply (sm_live _ _ R) in H2 as (E2 & _ & _ & S2).
  rewrite Hm, S2 in S1. simplify_eq. rewrite E1 in E2. by simplify_eq.
Qed.

(** The size of the slot table divides 2 ^ 24. *)
Lemma mod_mod_size s M x : slots_map s M -> (x mod 2 ^ 24) mod hs_slot_size s = x mod hs_slot_size s.
Proof.
  intros R. destruct (sm_size _ _ R) as (k & -> & Hk).
  replace (2 ^ 24) with (2 ^ Z.of_nat k * 2 ^ (24 - Z.of_nat k)) by
    (rewrite <- Z.pow_add_r by lia; f_equal; lia).
  assert (0 < 2 ^ Z.of_nat k /\ 0 < 2 ^ (24 - Z.of_nat k)) by (split; apply Z.pow_pos_nonneg; lia).
  rewrite Z.rem_mul_r by lia. rewrite Z.mul_comm, Z.mod_add by lia. apply Z.mod_mod. lia.
Qed.

(** *** The scan for a free slot *)
Definition scan_hash s i := (i + hs_handle_index s) mod hs_slot_size s.

Lemma register_scan_spec (n : nat) i s M ctx :
  slots_map s M -> 0 <= i -> i + Z.of_nat n <= hs_slot_size s ->
  (register_scan n i s ctx = Ret None /\
   forall j, i <= j < i + Z.of_nat n -> exists c, arr_lookup (hs_slot s) (scan_hash s j) = Some (Some c)) \/
  (exists j, i <= j < i + Z.of_nat n /\
   let handle := (j + hs_handle_index s) mod 2 ^ 24 in
   arr_lookup (hs_slot s) (scan_hash s j) = Some None /\
   register_scan n i s ctx = Ret (Some (Z.lor handle (hs_harbor s),
     with_slots s (handle + 1) (hs_slot_size s) (<[Z.to_nat (scan_hash s j) := Some ctx]> (hs_slot s))))).
Proof.
  intros R. revert i. induction n as [|n IH]; intros i Hi Hn; cbn [register_scan].
  { left. split; [done|]. intros. lia. }
  pose proof (size_pos _ _ R) as Hsz. pose proof (sm_index _ _ R).
  rewrite u32_small by lia. change HANDLE_MASK with (2 ^ 24 - 1).
  rewrite (land_ones_pow2 24) by lia. rewrite (land_size s M) by done.
  rewrite (mod_mod_size s M) by done. fold (scan_hash s i).
  assert (0 <= scan_hash s i < hs_slot_size s) as Hh by (apply Z.mod_pos_bound; lia).
  destruct (arr_lookup_is_Some (hs_slot s) (scan_hash s i)) as [c Hc];
    [rewrite (sm_length _ _ R); done|].
  unfold arr_get. rewrite Hc. cbn [deref mbind outcome_bind].
  destruct c as [c|].
  - destruct (IH (i + 1)) as [[E Hall]|(j & Hj & Hs & E)]; [lia..| |].
    + left. split; [done|]. intros j Hj. destruct (decide (j = i)) as [->|]; [eauto|apply Hall; lia].
    + right. exists j. split; [lia|]. done.
  - right. exists i. split; [lia|]. split; [done|].
    rewrite arr_set_Ret by (rewrite (sm_length _ _ R); done). done.
Qed.

(** A full scan that finds nothing has seen every slot. *)
Lemma register_scan_full s M ctx :
  slots_map s M -> register_scan (Z.to_nat (hs_slot_size s)) 0 s ctx = Ret None ->
  forall i, 0 <= i < hs_slot_size s -> exists c, arr_lookup (hs_slot s) i = Some (Some c).
Proof.
  intros R E i Hi. pose proof (size_pos _ _ R) as Hsz.
  destruct (register_scan_spec (Z.to_nat (hs_slot_size s)) 0 s M ctx) as [[_ Hall]|(j & _ & _ & E')];
    [done|lia|lia| |congruence].
  destruct (Hall ((i - hs_handle_index s) mod hs_slot_size s)) as [c Hc].
  { pose proof (Z.mod_pos_bound (i - hs_handle_index s) (hs_slot_size s)). lia. }
  exists c. rewrite <- Hc. unfold scan_hash. rewrite Zplus_mod_idemp_l.
  f_equal. rewrite Z.sub_add, Z.mod_small; lia.
Qed.

(** A table without a free slot holds as many handles as it has slots. *)
Lemma full_size s M :
  slots_map s M ->
  (forall i, 0 <= i < hs_slot_size s -> exists c, arr_lookup (hs_slot s) i = Some (Some c)) ->
  hs_slot_size s <= Z.of_nat (size M).
Proof.
  intros R Hfull. pose proof (size_pos _ _ R) as Hsz.
  set (f := fun i => match arr_lookup (hs_slot s) i with
                     | Some (Some c) => match ctxh c with Ret h => h | _ => 0 end
                     | _ => 0 end).
  assert (forall i, 0 <= i < hs_slot_size s -> f i ∈ dom M /\ f i mod hs_slot_size s = i) as Hf.
  { intros i Hi. destruct (Hfull i Hi) as [c Hc]. unfold f. rewrite Hc.
    destruct (sm_slot _ _ R _ _ Hc) as (h & Hh & ->).
    rewrite (proj1 (sm_live _ _ R _ _ Hh)). split; [by eapply elem_of_dom_2|done]. }
  set (l := f <$> seqZ 0 (hs_slot_size s)).
  assert (NoDup l) as Hnd.
  { apply NoDup_fmap_2_strong; [|apply NoDup_seqZ].
    intros x y Hx%elem_of_seqZ Hy%elem_of_seqZ Hxy.
    rewrite <- (proj2 (Hf x ltac:(lia))), <- (proj2 (Hf y ltac:(lia))). congruence. }
  assert (size (list_to_set l : gset Z) <= size (dom M))%nat as Hs.
  { apply subseteq_size. intros h Hh%elem_of_list_to_set.
    apply list_elem_of_fmap in Hh as (i & -> & Hi%elem_of_seqZ). apply Hf. lia. }
  rewrite size_list_to_set, size_dom in Hs by done.
  unfold l in Hs. rewrite length_fmap, length_seqZ in Hs. lia.
Qed.

Lemma handle_parts a b : 0 <= a < 2 ^ 24 -> 0 <= b ->
  let h := Z.lor a (Z.shiftl b 24) in
  h = a + b * 2 ^ 24 /\ h / 2 ^ 24 = Z.shiftl b 24 / 2 ^ 24 /\ 0 <= h.
Proof.
  intros Ha Hb h. subst h. rewrite lor_shiftl_add, Z.shiftl_mul_pow2 by lia.
  split; [done|]. split; [|lia]. rewrite Z.div_add, Z.div_mul by lia.
  rewrite Z.div_small; lia.
Qed.

(** Filing a new context in the free slot the scan found. *)
Lemma slots_map_register s M i c0 ctx :
  slots_map s M -> (forall h c, M !! h = Some c -> c <> ctx) ->
  arr_lookup (hs_slot s) (scan_hash s i) = Some None -> c0 = (i + hs_handle_index s) mod 2 ^ 24 ->
  let h := Z.lor c0 (hs_harbor s) in
  M !! h = None /\ 0 <= h /\ h / 2 ^ 24 = hs_harbor s / 2 ^ 24 /\
  (ctxh ctx = Ret h ->
   slots_map (with_slots s (c0 + 1) (hs_slot_size s)
     (<[Z.to_nat (scan_hash s i) := Some ctx]> (hs_slot s))) (<[h := ctx]> M)).
Proof.
  intros R Hne Hfree -> h. pose proof (size_pos _ _ R) as Hsz.
  destruct (sm_harbor _ _ R) as (b & Hb & Hb').
  set (a := (i + hs_handle_index s) mod 2 ^ 24) in *.
  assert (0 <= a < 2 ^ 24) as Ha by (apply Z.mod_pos_bound; lia).
  assert (h = a + b * 2 ^ 24 /\ h / 2 ^ 24 = hs_harbor s / 2 ^ 24 /\ 0 <= h) as (Hh1 & Hh2 & Hh3).
  { unfold h. rewrite Hb. apply handle_parts; lia. }
  assert (h mod hs_slot_size s = scan_hash s i) as Hhash.
  { rewrite <- (mod_mod_size s M) by done. rewrite Hh1, Z.mod_add, (Z.mod_small a) by lia.
    by apply (mod_mod_size s M). }
  assert (M !! h = None) as HM.
  { destruct (M !! h) as [c|] eqn:E; [|done].
    destruct (sm_live _ _ R _ _ E) as (_ & _ & _ & Hs). rewrite Hhash in Hs. congruence. }
  assert (0 <= scan_hash s i < hs_slot_size s) as Hr by (apply Z.mod_pos_bound; lia).
  split; [done|]. split; [done|]. split; [done|]. intros Hctx. split; cbn.
  - apply R.
  - rewrite length_insert. apply R.
  - apply R.
  - lia.
  - intros h' c. rewrite lookup_insert_Some. intros [[<- <-]|[Hne' Hh']].
    + rewrite Hhash, arr_lookup_insert by (rewrite (sm_length _ _ R); done).
      by rewrite decide_True.
    + destruct (sm_live _ _ R _ _ Hh') as (? & ? & ? & Hs). do 3 (split; [done|]).
      rewrite arr_lookup_insert by (rewrite (sm_length _ _ R); done).
      rewrite decide_False; [done|]. intros Heq. rewrite Heq in Hfree. congruence.
  - intros j c. rewrite arr_lookup_insert by (rewrite (sm_length _ _ R); done).
    case_decide as Hj.
    + intros [= <-]. exists h. by rewrite lookup_insert_eq, Hhash.
    + intros Hs. destruct (sm_slot _ _ R _ _ Hs) as (h' & Hh' & ->).
      exists h'. split; [|done]. rewrite lookup_insert_ne; [done|]. intros <-. by rewrite Hhash in Hj.
Qed.

(** *** Doubling the table *)

(** [new] holds the contexts of the first [i] slots. *)
Record rehashed (s : handle_storage) (M : gmap Z loc) (i : Z) (new : list (option loc)) : Prop := {
  rh_length : Z.of_nat (length new) = hs_slot_size s * 2;
  rh_slot j c : arr_lookup new j = Some (Some c) ->
    exists h, M !! h = Some c /\ j = h mod (hs_slot_size s * 2) /\ h mod hs_slot_size s < i;
  rh_live h c : M !! h = Some c -> h mod hs_slot_size s < i ->
    arr_lookup new (h mod (hs_slot_size s * 2)) = Some (Some c) }.

Lemma mod_double x n : 0 < n -> (x mod (n * 2)) mod n = x mod n.
Proof. intros. rewrite Z.rem_mul_r by lia. rewrite Z.mul_comm, Z.mod_add by lia. apply Z.mod_mod. lia. Qed.

Lemma rehash_loop_spec (n : nat) i s M new :
  slots_map s M ->
  (forall i, 0 <= i < hs_slot_size s -> exists c, arr_lookup (hs_slot s) i = Some (Some c)) ->
  0 <= i -> i + Z.of_nat n = hs_slot_size s -> rehashed s M i new ->
  exists new', rehash_loop ctxh n i s new = Ret new' /\ rehashed s M (hs_slot_size s) new'.
Proof.
  intros R Hfull. pose proof (size_pos _ _ R) as Hsz. revert i new.
  induction n as [|n IH]; intros i new Hi Hn Hr; cbn [rehash_loop].
  { exists new. split; [done|]. by replace (hs_slot_size s) with i by lia. }
  destruct (Hfull i) as [c Hc]; [lia|].
  unfold arr_get. rewrite Hc. cbn [deref mbind outcome_bind].
  destruct (sm_slot _ _ R _ _ Hc) as (h & Hh & Hih).
  rewrite (proj1 (sm_live _ _ R _ _ Hh)). cbn [mbind outcome_bind]. cbn zeta.
  rewrite (land_size2 s M) by done. set (hash := h mod (hs_slot_size s * 2)).
  assert (0 <= hash < hs_slot_size s * 2) as Hhash by (apply Z.mod_pos_bound; lia).
  pose proof (rh_length _ _ _ _ Hr) as Hlen.
  destruct (arr_lookup_is_Some new hash) as [old Hold]; [lia|]. rewrite Hold. cbn [deref mbind outcome_bind].
  destruct old as [c'|].
  { destruct (rh_slot _ _ _ _ Hr _ _ Hold) as (h' & Hh' & Heq & Hlt).
    exfalso. rewrite <- (mod_double h'), <- Heq in Hlt by lia. unfold hash in Hlt.
    rewrite mod_double in Hlt by lia. lia. }
  rewrite bool_decide_true by done. cbn [assert_ mbind outcome_bind].
  rewrite arr_set_Ret by lia. cbn [mbind outcome_bind].
  apply IH; [lia|lia|]. split.
  - by rewrite length_insert.
  - intros j c'. rewrite arr_lookup_insert by lia. case_decide as Hj.
    + intros [= <-]. exists h. subst j. repeat split; [done|lia].
    + intros Hs. destruct (rh_slot _ _ _ _ Hr _ _ Hs) as (h' & ? & ? & ?). exists h'. repeat split; [done..|lia].
  - intros h' c' Hh' Hlt. rewrite arr_lookup_insert by lia. case_decide as Hj.
    + destruct (slots_inj _ _ h h' c c' R Hh Hh') as [_ ->]; [|done].
      rewrite <- (mod_double h), <- (mod_double h') by lia. unfold hash in Hj. by rewrite Hj.
    + apply (rh_live _ _ _ _ Hr); [done|].
      destruct (decide (h' mod hs_slot_size s = i)) as [Hi'|]; [|lia].
      exfalso. destruct (slots_inj _ _ h h' c c' R Hh Hh') as [-> _]; [lia|]. by apply Hj.
Qed.

Lemma register_expand_spec s M :
  slots_map s M ->
  (forall i, 0 <= i < hs_slot_size s -> exists c, arr_lookup (hs_slot s) i = Some (Some c)) ->
  hs_slot_size s < 2 ^ 24 ->
  exists s', register_expand ctxh s = Ret s' /\ slots_map s' M /\
    s' = with_slots s (hs_handle_index s) (hs_slot_size s * 2) (hs_slot s') /\
    exists j, 0 <= j < hs_slot_size s' /\ arr_lookup (hs_slot s') j = Some None.
Proof.
  intros R Hfull Hlt. pose proof (size_pos _ _ R) as Hsz.
  destruct (sm_size _ _ R) as (k & Hk & Hk').
  assert (hs_slot_size s * 2 = 2 ^ Z.of_nat (S k)) as Hk2.
  { rewrite Hk, Nat2Z.inj_succ, Z.pow_succ_r by lia. lia. }
  assert (k < 24)%nat.
  { destruct (decide (k < 24)%nat); [done|]. replace k with 24%nat in Hk by lia. lia. }
  unfold register_expand, assert_.
  assert (2 ^ Z.of_nat (S k) <= 2 ^ 24) as Hle by (apply Z.pow_le_mono_r; lia).
  rewrite (proj2 (Z.leb_le _ _)) by (change HANDLE_MASK with (2 ^ 24 - 1); lia).
  cbn [mbind outcome_bind].
  destruct (rehash_loop_spec (Z.to_nat (hs_slot_size s)) 0 s M
    (replicate (Z.to_nat (hs_slot_size s * 2)) None)) as (new & -> & Hr); [done..|lia|lia| |].
  { split.
    - rewrite length_replicate. lia.
    - intros j c Hj. unfold arr_lookup in Hj. case_match; [done|].
      by apply lookup_replicate_1 in Hj as [? _].
    - intros h c _ ?. pose proof (Z.mod_pos_bound h (hs_slot_size s)). lia. }
  cbn [mbind outcome_bind]. eexists. split; [done|]. split; [|split; [done|]].
  - split; cbn.
    + exists (S k). split; [done|lia].
    + apply Hr.
    + apply R.
    + apply R.
    + intros h c Hh. destruct (sm_live _ _ R _ _ Hh) as (? & ? & ? & _).
      do 3 (split; [done|]). apply (rh_live _ _ _ _ Hr); [done|].
      apply Z.mod_pos_bound. lia.
    + intros i c Hi. destruct (rh_slot _ _ _ _ Hr _ _ Hi) as (h & ? & -> & _). by exists h.
  - cbn. destruct (Hfull 0) as [c Hc]; [lia|].
    destruct (sm_slot _ _ R _ _ Hc) as (h & Hh & H0).
    set (a := h mod (hs_slot_size s * 2)).
    assert (0 <= a < hs_slot_size s * 2) as Ha by (apply Z.mod_pos_bound; lia).
    assert (a mod hs_slot_size s = 0) as Ham by (unfold a; rewrite mod_double by lia; done).
    set (j := (a + hs_slot_size s) mod (hs_slot_size s * 2)). exists j.
    assert (0 <= j < hs_slot_size s * 2) as Hj by (apply Z.mod_pos_bound; lia).
    split; [done|]. destruct (arr_lookup_is_Some new j) as [[c'|] E];
      [rewrite (rh_length _ _ _ _ Hr); done| |done].
    exfalso. destruct (rh_slot _ _ _ _ Hr _ _ E) as (h' & Hh' & Hjh & _).
    assert (h' mod hs_slot_size s = 0) as Hm'.
    { rewrite <- (mod_double h'), <- Hjh by lia. unfold j. rewrite mod_double by lia.
      rewrite <- Zplus_mod_idemp_l, Ham, Z.add_0_l. apply Z.mod_same. lia. }
    destruct (slots_inj _ _ h h' c c' R Hh Hh') as [<- _]; [congruence|].
    fold a in Hjh. unfold j in Hjh. revert Hjh.
    destruct (Z.lt_ge_cases (a + hs_slot_size s) (hs_slot_size s * 2)).
    + rewrite Z.mod_small by lia. lia.
    + rewrite (Z.mod_eq _ (hs_slot_size s * 2)) by lia.
      assert ((a + hs_slot_size s) / (hs_slot_size s * 2) = 1) as -> by
        (symmetry; apply Zdiv_unique with (a + hs_slot_size s - hs_slot_size s * 2); lia).
      lia.
Qed.

(** *** The whole registration *)

Lemma register_scan_ok s M ctx :
  slots_map s M -> (exists j, 0 <= j < hs_slot_size s /\ arr_lookup (hs_slot s) j = Some None) ->
  exists j, 0 <= j < hs_slot_size s /\ let handle := (j + hs_handle_index s) mod 2 ^ 24 in
   arr_lookup (hs_slot s) (scan_hash s j) = Some None /\
   register_scan (Z.to_nat (hs_slot_size s)) 0 s ctx = Ret (Some (Z.lor handle (hs_harbor s),
     with_slots s (handle + 1) (hs_slot_size s) (<[Z.to_nat (scan_hash s j) := Some ctx]> (hs_slot s)))).
Proof.
  intros R (j & Hj & Hs). pose proof (size_pos _ _ R) as Hsz.
  destruct (register_scan_spec (Z.to_nat (hs_slot_size s)) 0 s M ctx) as [[E _]|(i & Hi & H1 & H2)];
    [done|lia|lia| |].
  - destruct (register_scan_full s M ctx R E j Hj) as [c Hc]. congruence.
  - exists i. split; [lia|]. done.
Qed.

(** *** Lookup and retirement *)

Lemma slot_of_spec s M handle :
  slots_map s M -> slot_of ctxh s handle = Ret (M !! handle).
Proof.
  intros R. pose proof (size_pos _ _ R) as Hsz.
  unfold slot_of. rewrite (land_size s M) by done. cbn zeta.
  assert (0 <= handle mod hs_slot_size s < hs_slot_size s) as Hr by (apply Z.mod_pos_bound; lia).
  destruct (arr_lookup_is_Some (hs_slot s) (handle mod hs_slot_size s)) as [c Hc];
    [rewrite (sm_length _ _ R); done|].
  unfold arr_get. rewrite Hc. cbn [deref mbind outcome_bind]. destruct c as [c|].
  - destruct (sm_slot _ _ R _ _ Hc) as (h & HM & Heq).
    rewrite (proj1 (sm_live _ _ R _ _ HM)). cbn [mbind outcome_bind]. f_equal.
    destruct (Z.eqb_spec h handle) as [->|Hne]; [done|].
    destruct (M !! handle) as [c'|] eqn:E; [|done].
    by destruct (slots_inj _ _ handle h c' c R E HM Heq) as [-> _].
  - destruct (M !! handle) as [c'|] eqn:E; [|done].
    destruct (sm_live _ _ R _ _ E) as (_ & _ & _ & ?). congruence.
Qed.

Lemma slots_map_names s M cap count name :
  slots_map s M -> slots_map (with_names s cap count name) M.
Proof. intros [? ? ? ? ? ?]. by split. Qed.

Lemma slots_map_retire s M handle ctx :
  slots_map s M -> M !! handle = Some ctx ->
  arr_set (hs_slot s) (Z.land handle (hs_slot_size s - 1)) None =
    Ret (<[Z.to_nat (handle mod hs_slot_size s) := None]> (hs_slot s)) /\
  slots_map (with_slots s (hs_handle_index s) (hs_slot_size s)
    (<[Z.to_nat (handle mod hs_slot_size s) := None]> (hs_slot s))) (delete handle M).
Proof.
  intros R HM. pose proof (size_pos _ _ R) as Hsz. rewrite (land_size s M) by done.
  assert (0 <= handle mod hs_slot_size s < hs_slot_size s) as Hr by (apply Z.mod_pos_bound; lia).
  pose proof (sm_length _ _ R) as Hlen.
  split; [apply arr_set_Ret; lia|]. split; cbn.
  - apply R.
  - by rewrite length_insert.
  - apply R.
  - apply R.
  - intros h c. rewrite lookup_delete_Some. intros [Hne Hh].
    destruct (sm_live _ _ R _ _ Hh) as (? & ? & ? & Hs). do 3 (split; [done|]).
    rewrite arr_lookup_insert by lia. rewrite decide_False; [done|].
    intros Heq. apply Hne. by destruct (slots_inj _ _ handle h ctx c R HM Hh).
  - intros i c. rewrite arr_lookup_insert by lia. case_decide as Hi; [done|].
    intros Hs. destruct (sm_slot _ _ R _ _ Hs) as (h & Hh & ->). exists h.
    split; [|done]. rewrite lookup_delete_ne; [done|]. intros <-. done.
Qed.
End slots.

Lemma slots_map_ext (ctxh ctxh' : loc -> outcome Z) s M :
  (forall h c, M !! h = Some c -> ctxh' c = ctxh c) -> slots_map ctxh s M -> slots_map ctxh' s M.
Proof.
  intros E [? ? ? ? Hl ?]. split; try done. intros h c Hh. rewrite (E _ _ Hh). by apply Hl.
Qed.

(** Registration succeeds, with a fresh handle, while there are fewer than
    2 ^ 24 contexts; the table is right once the handle field is set. *)
Lemma handle_register_ok (ctxh : loc -> outcome Z) s M ctx :
  slots_map ctxh s M -> (forall h c, M !! h = Some c -> c <> ctx) -> Z.of_nat (size M) < 2 ^ 24 ->
  exists h s', handle_register ctxh s ctx = Ret (h, s') /\
    s' = with_slots s (hs_handle_index s') (hs_slot_size s') (hs_slot s') /\
    M !! h = None /\ 0 <= h /\ h / 2 ^ 24 = hs_harbor s / 2 ^ 24 /\
    forall ctxh' : loc -> outcome Z, (forall h c, M !! h = Some c -> ctxh' c = ctxh c) ->
      ctxh' ctx = Ret h -> slots_map ctxh' s' (<[h := ctx]> M).
Proof.
  intros R Hne Hm. pose proof (size_pos _ _ _ R) as Hsz.
  assert (exists s1 : handle_storage, slots_map ctxh s1 M /\
    s1 = with_slots s (hs_handle_index s1) (hs_slot_size s1) (hs_slot s1) /\
    exists i, arr_lookup (hs_slot s1) (scan_hash s1 i) = Some None /\
    let handle := (i + hs_handle_index s1) mod 2 ^ 24 in
    handle_register ctxh s ctx = Ret (Z.lor handle (hs_harbor s1),
     with_slots s1 (handle + 1) (hs_slot_size s1) (<[Z.to_nat (scan_hash s1 i) := Some ctx]> (hs_slot s1))))
    as (s1 & R1 & Es & i & Hs & E).
  { unfold handle_register. cbn [register_loop].
    destruct (register_scan_spec ctxh (Z.to_nat (hs_slot_size s)) 0 s M ctx) as [[E _]|(i & Hi & Hs & E)];
      [done|lia|lia| |]; rewrite E; cbn [mbind outcome_bind].
    - pose proof (register_scan_full ctxh s M ctx R E) as Hfull.
      pose proof (full_size ctxh s M R Hfull).
      destruct (register_expand_spec ctxh s M) as (s1 & -> & R1 & Es1 & Hfree1); [done|done|lia|].
      cbn [mbind outcome_bind register_loop].
      destruct (register_scan_ok ctxh s1 M ctx R1 Hfree1) as (i & Hi & Hs & ->). cbn [mbind outcome_bind].
      exists s1. split; [done|]. split; [by rewrite Es1|]. by exists i.
    - exists s. split; [done|]. split; [by destruct s|]. by exists i. }
  destruct (slots_map_register ctxh s1 M i _ ctx R1 Hne Hs eq_refl) as (H1 & H2 & H3 & _).
  assert (hs_harbor s1 = hs_harbor s) as Hhb by by rewrite Es.
  rewrite Hhb in *. eexists _, _. split; [exact E|]. split; [rewrite Es; by destruct s|].
  do 3 (split; [done|]). intros ctxh' Hext Hc.
  apply (slots_map_ext _ ctxh') in R1; [|done]. rewrite <- Hhb in *.
  by apply (slots_map_register ctxh' s1 M i _ ctx R1 Hne Hs eq_refl).
Qed.

(** ** The registry refines a pair of finite maps *)

Definition fields_handle (fields : gmap loc Z) (ctx : loc) : outcome Z := deref (fields !! ctx).

(** [fields] holds the [handle] field of every context ever registered; [n]
    bounds the size of both maps. *)
Record registry_repr (n : nat) (harbor : Z) (used : gset loc) (st : gmap loc Z * handle_storage)
    (MN : gmap Z loc * gmap bytes Z) : Prop := {
  rr_slots : slots_map (fields_handle st.1) st.2 MN.1;
  rr_names : exists l, names_list st.2 l /\ names_map l MN.2 /\ (length l <= n)%nat;
  rr_used : dom st.1 = used;
  rr_size : (size MN.1 <= n)%nat;
  rr_harbor : hs_harbor st.2 = Z.shiftl harbor 24 }.

Inductive registry_op :=
  | OpRegister (ctx : loc)
  | OpRetire (handle : Z)
  | OpGrab (handle : Z)
  | OpFind (name : bytes)
  | OpName (handle : Z) (name : bytes).

Inductive registry_result :=
  | ResHandle (handle : Z)
  | ResContext (ctx : option loc)
  | ResName (name : option bytes).

(** One operation on the registry and on [ctx->handle], which
    [skynet_context_new] zeroes before it registers the context. *)
Definition registry_exec (op : registry_op) (st : gmap loc Z * handle_storage)
    : outcome (registry_result * (gmap loc Z * handle_storage)) :=
  let '(fields, s) := st in
  match op with
  | OpRegister ctx =>
      let fields := <[ctx := 0]> fields in
      '(h, s) ← handle_register (fields_handle fields) s ctx;
      Ret (ResHandle h, (<[ctx := h]> fields, s))
  | OpRetire handle =>
      '(ctx, s) ← handle_retire (fields_handle fields) s handle;
      Ret (ResContext ctx, (fields, s))
  | OpGrab handle =>
      ctx ← slot_of (fields_handle fields) s handle;
      Ret (ResContext ctx, (fields, s))
  | OpFind name => h ← skynet_handle_findname s name; Ret (ResHandle h, (fields, s))
  | OpName handle name =>
      '(r, s) ← skynet_handle_namehandle s handle name;
      Ret (ResName r, (fields, s))
  end.

Fixpoint registry_run (ops : list registry_op) (st : gmap loc Z * handle_storage)
    : outcome (list registry_result * (gmap loc Z * handle_storage)) :=
  match ops with
  | [] => Ret ([], st)
  | op :: ops =>
      '(r, st) ← registry_exec op st;
      '(rs, st) ← registry_run ops st;
      Ret (r :: rs, st)
  end.

(** What each operation promises about the maps from handles to contexts and
    from names to handles. *)
Inductive registry_step (harbor : Z) : registry_op -> registry_result ->
    gmap Z loc * gmap bytes Z -> gmap Z loc * gmap bytes Z -> Prop :=
  | StepRegister ctx h M N :
      M !! h = None -> 0 <= h -> h / 2 ^ 24 = harbor ->
      registry_step harbor (OpRegister ctx) (ResHandle h) (M, N) (<[h := ctx]> M, N)
  | StepRetire handle ctx M N :
      M !! handle = Some ctx ->
      registry_step harbor (OpRetire handle) (ResContext (Some ctx)) (M, N)
        (delete handle M, filter (fun p => p.2 <> handle) N)
  | StepRetireNone handle M N :
      M !! handle = None ->
      registry_step harbor (OpRetire handle) (ResContext None) (M, N) (M, N)
  | StepGrab handle M N :
      registry_step harbor (OpGrab handle) (ResContext (M !! handle)) (M, N) (M, N)
  | StepFind name M N :
      registry_step harbor (OpFind name) (ResHandle (default 0 (N !! name))) (M, N) (M, N)
  | StepName handle name M N :
      N !! name = None ->
      registry_step harbor (OpName handle name) (ResName (Some name)) (M, N)
        (M, <[name := handle]> N)
  | StepNameTaken handle name h M N :
      N !! name = Some h ->
      registry_step harbor (OpName handle name) (ResName None) (M, N) (M, N).

Inductive registry_steps (harbor : Z) : list registry_op -> list registry_result ->
    gmap Z loc * gmap bytes Z -> gmap Z loc * gmap bytes Z -> Prop :=
  | StepsNil st : registry_steps harbor [] [] st st
  | StepsCons op ops r rs st1 st2 st3 :
      registry_step harbor op r st1 st2 -> registry_steps harbor ops rs st2 st3 ->
      registry_steps harbor (op :: ops) (r :: rs) st1 st3.

(** Contexts are registered once, at fresh locations. *)
Fixpoint registers_fresh (ops : list registry_op) (used : gset loc) : Prop :=
  match ops with
  | [] => True
  | OpRegister ctx :: ops => (ctx ∉ used) /\ registers_fresh ops ({[ctx]} ∪ used)
  | _ :: ops => registers_fresh ops used
  end.

Lemma names_list_slots s l i n t : names_list s l -> names_list (with_slots s i n t) l.
Proof. intros [? ? ? ? ? ?]. by split. Qed.

Lemma live_in_fields fields s M h c :
  slots_map (fields_handle fields) s M -> M !! h = Some c -> fields !! c = Some h.
Proof.
  intros R Hh. destruct (sm_live _ _ _ R _ _ Hh) as [E _]. unfold fields_handle in E.
  destruct (fields !! c); cbn in E; congruence.
Qed.

Lemma fields_insert_other fields ctx x l :
  l <> ctx -> fields_handle (<[ctx := x]> fields) l = fields_handle fields l.
Proof. intros. unfold fields_handle. by rewrite lookup_insert_ne. Qed.

Lemma harbor_shift b : Z.shiftl b 24 / 2 ^ 24 = b.
Proof. by rewrite Z.shiftl_mul_pow2, Z.div_mul. Qed.

Lemma registry_weaken n m harbor used st MN :
  (n <= m)%nat -> registry_repr n harbor used st MN -> registry_repr m harbor used st MN.
Proof.
  intros ? [? (l & ? & ? & ?) ? ? ?]. split; try done; [|lia].
  exists l. split; [done|]. split; [done|lia].
Qed.

Lemma exec_register n harbor used st MN ctx :
  registry_repr n harbor used st MN -> ctx ∉ used -> Z.of_nat n < 2 ^ 24 ->
  exists r st' MN', registry_exec (OpRegister ctx) st = Ret (r, st') /\
    registry_step harbor (OpRegister ctx) r MN MN' /\
    registry_repr (S n) harbor ({[ctx]} ∪ used) st' MN'.
Proof.
  intros [R (l & Hl & Hm & Hn) Hu Hsz Hb] Hctx Hlt. destruct st as [fields s], MN as [M N].
  cbn [fst snd] in *.
  assert (forall h c, M !! h = Some c -> c <> ctx) as Hne.
  { intros h c Hh ->. apply (live_in_fields _ _ _ _ _ R) in Hh. apply Hctx.
    rewrite <- Hu. by eapply elem_of_dom_2. }
  assert (slots_map (fields_handle (<[ctx:=0]> fields)) s M) as R0.
  { eapply slots_map_ext; [|exact R]. intros h c Hh. apply fields_insert_other. by eapply Hne. }
  cbn [registry_exec].
  destruct (handle_register_ok _ s M ctx R0 Hne) as (h & s' & -> & Es & HM & Hh & Hhb & R1); [lia|].
  cbn [mbind outcome_bind].
  rewrite insert_insert_eq. eexists _, _, (<[h := ctx]> M, N). split; [done|]. split.
  { apply StepRegister; [done|done|]. by rewrite Hhb, Hb, harbor_shift. }
  split; cbn.
  - apply R1.
    + intros h' c Hc. rewrite !fields_insert_other by by eapply Hne. done.
    + unfold fields_handle. by rewrite lookup_insert_eq.
  - exists l. split; [rewrite Es; by apply names_list_slots|]. split; [done|lia].
  - rewrite dom_insert_L. congruence.
  - rewrite map_size_insert. destruct (M !! h); cbn; lia.
  - by rewrite Es.
Qed.

Lemma exec_other n harbor used st MN op :
  registry_repr n harbor used st MN -> Z.of_nat n < 2 ^ 24 ->
  (forall ctx, op <> OpRegister ctx) ->
  exists r st' MN', registry_exec op st = Ret (r, st') /\
    registry_step harbor op r MN MN' /\ registry_repr (S n) harbor used st' MN'.
Proof.
  intros RR Hlt Hop. pose proof (registry_weaken n (S n) _ _ _ _ ltac:(lia) RR) as RR'.
  destruct RR as [R (l & Hl & Hm & Hn) Hu Hsz Hb]. destruct st as [fields s], MN as [M N]. cbn [fst snd] in *.
  destruct op as [ctx|handle|handle|name|handle name]; cbn [registry_exec].
  - by destruct (Hop ctx).
  - unfold handle_retire. rewrite (slot_of_spec _ s M) by done. cbn [mbind outcome_bind].
    destruct (M !! handle) as [ctx|] eqn:E; cbn [mbind outcome_bind].
    2: { eexists _, _, _. split; [done|]. split; [by apply StepRetireNone|done]. }
    destruct (slots_map_retire _ s M handle ctx R E) as [-> R1]. cbn [mbind outcome_bind].
    set (s1 := with_slots _ _ _ _) in *.
    destruct (retire_names_spec s1 l N handle) as (s2 & j & E2 & Es2 & Hl2 & Hm2);
      [by apply names_list_slots|done|].
    rewrite E2. cbn [mbind outcome_bind]. eexists _, _, _. split; [done|].
    split; [by apply StepRetire|]. split; cbn.
    + rewrite Es2. by do 2 apply slots_map_names.
    + exists (filter (fun e => hn_handle e <> handle) l). split; [done|]. split; [done|].
      pose proof (length_filter (fun e => hn_handle e <> handle) l). lia.
    + done.
    + rewrite map_size_delete, E. lia.
    + by rewrite Es2.
  - rewrite (slot_of_spec _ s M) by done. cbn [mbind outcome_bind].
    eexists _, _, _. split; [done|]. split; [apply StepGrab|done].
  - rewrite (findname_spec s l N) by done. cbn [mbind outcome_bind].
    eexists _, _, _. split; [done|]. split; [apply StepFind|done].
  - pose proof (insert_spec s l N name handle Hl Hm) as Hi.
    rewrite (nl_count _ _ Hl) in Hi. specialize (Hi ltac:(lia)).
    destruct (N !! name) as [h|] eqn:E.
    + rewrite Hi. cbn [mbind outcome_bind]. eexists _, _, _. split; [done|].
      split; [by eapply StepNameTaken|done].
    + destruct Hi as (s' & l' & -> & Es & Hl' & Hm' & Hlen). cbn [mbind outcome_bind].
      eexists _, _, _. split; [done|]. split; [by apply StepName|]. split; cbn.
      * rewrite Es. by apply slots_map_names.
      * exists l'. split; [done|]. split; [done|lia].
      * done.
      * lia.
      * by rewrite Es.
Qed.

Lemma registry_run_ok n harbor used ops st MN :
  registry_repr n harbor used st MN -> registers_fresh ops used ->
  Z.of_nat (n + length ops) <= 2 ^ 24 ->
  exists rs st' MN', registry_run ops st = Ret (rs, st') /\
    registry_steps harbor ops rs MN MN'.
Proof.
  revert n used st MN. induction ops as [|op ops IH]; intros n used st MN RR Hf Hn; cbn [registry_run].
  { eexists _, _, _. split; [done|constructor]. }
  cbn [length] in Hn.
  assert (exists r st' MN' used', registry_exec op st = Ret (r, st') /\
    registry_step harbor op r MN MN' /\ registry_repr (S n) harbor used' st' MN' /\
    registers_fresh ops used') as (r & st' & MN' & used' & -> & Hs & RR' & Hf').
  { destruct op as [ctx| | | |].
    1: destruct Hf as [Hc Hf];
       destruct (exec_register n harbor used st MN ctx RR Hc) as (r & st' & MN' & ? & ? & ?); [lia|];
       by exists r, st', MN', ({[ctx]} ∪ used).
    all: edestruct (exec_other n harbor used st MN) as (r & st' & MN' & ? & ? & ?);
      [done|lia| |by exists r, st', MN', used]; done. }
  cbn [mbind outcome_bind].
  destruct (IH (S n) used' st' MN' RR' Hf') as (rs & st2 & MN2 & -> & Hss); [lia|].
  cbn [mbind outcome_bind]. eexists _, _, _. split; [done|]. by econstructor.
Qed.

Lemma init_registry harbor :
  registry_repr 0 (Z.land harbor 0xff) ∅ (∅, skynet_handle_init harbor) (∅, ∅).
Proof.
  split; cbn; try done.
  - split; cbn; try done.
    + exists 2%nat. split; [done|lia].
    + exists (Z.land harbor 0xff). split; [done|].
      change 0xff with (2 ^ 8 - 1). rewrite land_ones_pow2 by lia. apply Z.mod_pos_bound. lia.
    + intros i c. unfold arr_lookup. case_match; [done|].
      intros [? _]%(lookup_replicate_1 4 (None : option loc)). done.
  - exists []. split; [split; cbn; try done; constructor|]. split; [|done].
    intros n h. rewrite lookup_empty, elem_of_nil. done.
Qed.

(** C13. The handle registry is a map from handles to contexts together with a
    map from names to handles. From [skynet_handle_init], any sequence of
    operations runs without failing an assertion and without a bad array
    access; a registration returns a handle of this node that no live context
    has, and leaves every other registration alone; grabbing and retiring a
    handle find exactly the context registered under it; a name finds the
    handle it was given, a taken name is refused, and retiring a handle drops
    its names. *)
Theorem registry_refinement (harbor : Z) (ops : list registry_op)
    (Hfresh : registers_fresh ops ∅) (Hlen : Z.of_nat (length ops) <= 2 ^ 24) :
  exists results st MN,
    registry_run ops (∅, skynet_handle_init harbor) = Ret (results, st) /\
    registry_steps (Z.land harbor 0xff) ops results (∅, ∅) MN.
Proof. by apply (registry_run_ok 0 _ ∅); [apply init_registry|..]. Qed.

Definition registry_example : list registry_op :=
  [ OpRegister 1; OpRegister 2; OpRegister 3; OpRegister 4; OpRegister 5;
    OpName 0x1000002 (str "db"); OpName 0x1000003 (str "cache"); OpName 0x1000003 (str "db");
    OpFind (str "cache"); OpGrab 0x1000005; OpRetire 0x1000002; OpFind (str "db");
    OpRegister 6; OpGrab 0x1000002 ]%positive.

Lemma registry_refinement_witness :
  registers_fresh registry_example ∅ /\ Z.of_nat (length registry_example) <= 2 ^ 24 /\
  (exists results st MN,
    registry_run registry_example (∅, skynet_handle_init 1) = Ret (results, st) /\
    registry_steps (Z.land 1 0xff) registry_example results (∅, ∅) MN).
Proof.
  assert (registers_fresh registry_example ∅) as Hf by (cbn; set_solver).
  assert (Z.of_nat (length registry_example) <= 2 ^ 24) as Hl by (vm_compute; discriminate).
  split; [exact Hf|]. split; [exact Hl|].
  exact (registry_refinement 1 registry_example Hf Hl).
Defined.

(** ** Handles wrap around to 0 *)

(** A service is launched and exits. *)
Definition launch_exit (ctx : loc) (s : handle_storage) : outcome (Z * handle_storage) :=
  '(h, s) ← handle_register (fun _ => Ret 0) s ctx;
  '(_, s) ← handle_retire (fun _ => Ret h) s h;
  Ret (h, s).

Fixpoint launch_exits (n : nat) (ctx : loc) (s : handle_storage) : outcome handle_storage :=
  match n with
  | O => Ret s
  | S n => '(_, s) ← launch_exit ctx s; launch_exits n ctx s
  end.

Record idle_registry (s : handle_storage) (index : Z) : Prop := {
  ir_slots : forall ctxh, slots_map ctxh s ∅;
  ir_names : names_list s [];
  ir_index : hs_handle_index s = index }.

Lemma idle_register ctxh s index ctx :
  idle_registry s index ->
  let h := Z.lor (index mod 2 ^ 24) (hs_harbor s) in
  exists s', handle_register ctxh s ctx = Ret (h, s') /\ hs_handle_index s' = index mod 2 ^ 24 + 1 /\
    s' = with_slots s (hs_handle_index s') (hs_slot_size s') (hs_slot s') /\
    slots_map (fun _ => Ret h) s' (<[h := ctx]> ∅).
Proof.
  intros [Hs Hn Hi] h. pose proof (size_pos _ _ _ (Hs ctxh)) as Hsz.
  pose proof (sm_index _ _ _ (Hs ctxh)) as Hidx.
  assert (arr_lookup (hs_slot s) (scan_hash s 0) = Some None) as Hfree.
  { destruct (arr_lookup_is_Some (hs_slot s) (scan_hash s 0)) as [[c|] Hc].
    - rewrite (sm_length _ _ _ (Hs ctxh)). apply Z.mod_pos_bound. lia.
    - by destruct (sm_slot _ _ _ (Hs ctxh) _ _ Hc) as (? & ? & _).
    - done. }
  destruct (slots_map_register (fun _ => Ret h) s ∅ 0 _ ctx (Hs _) ltac:(done) Hfree eq_refl)
    as (_ & _ & _ & R). rewrite Z.add_0_l, Hi in R. fold h in R. specialize (R eq_refl).
  eexists. split; [|split; [|split; [|exact R]]]; [|done|done].
  unfold handle_register. cbn [register_loop].
  destruct (Z.to_nat (hs_slot_size s)) as [|m] eqn:E; [lia|]. cbn [register_scan].
  rewrite u32_small by lia. change HANDLE_MASK with (2 ^ 24 - 1).
  rewrite (land_ones_pow2 24), (land_size ctxh s ∅), (mod_mod_size ctxh s ∅) by (done || lia).
  unfold arr_get, scan_hash in *. rewrite !Z.add_0_l in *. rewrite Hfree.
  cbn [deref mbind outcome_bind]. rewrite arr_set_Ret.
  - cbn [mbind outcome_bind]. by rewrite Hi.
  - rewrite (sm_length _ _ _ (Hs ctxh)). apply Z.mod_pos_bound. lia.
Qed.

Lemma idle_launch_exit s index ctx :
  idle_registry s index ->
  exists s', launch_exit ctx s = Ret (Z.lor (index mod 2 ^ 24) (hs_harbor s), s') /\
    idle_registry s' (index mod 2 ^ 24 + 1) /\ hs_harbor s' = hs_harbor s.
Proof.
  intros Hidle. unfold launch_exit.
  destruct (idle_register (fun _ => Ret 0) s index ctx Hidle) as (s1 & -> & Hi & Es & R1).
  cbn [mbind outcome_bind]. set (h := Z.lor _ _) in *. destruct Hidle as [Hs Hn _].
  unfold handle_retire. rewrite (slot_of_spec _ s1 _ h R1), lookup_insert_eq. cbn [mbind outcome_bind].
  destruct (slots_map_retire _ s1 _ h ctx R1 (lookup_insert_eq _ _ _)) as [-> R2].
  cbn [mbind outcome_bind]. rewrite delete_insert_eq, delete_empty in R2.
  set (s2 := with_slots s1 _ _ _) in *.
  destruct (retire_names_spec s2 [] ∅ h) as (s3 & j & -> & Es3 & Hl3 & _).
  { unfold s2. rewrite Es. by do 2 apply names_list_slots. }
  { intros n x. rewrite lookup_empty, elem_of_nil. done. }
  cbn [mbind outcome_bind]. eexists. split; [done|]. split; [split; cbn|].
  - intros ctxh. eapply slots_map_ext; [|rewrite Es3; do 2 apply slots_map_names; exact R2]. done.
  - done.
  - rewrite Es3. done.
  - cbn. rewrite Es3. cbn. by rewrite Es.
Qed.

Lemma idle_launch_exits n s index ctx :
  idle_registry s index -> 1 <= index -> index + Z.of_nat n <= 2 ^ 24 ->
  exists s', launch_exits n ctx s = Ret s' /\ idle_registry s' (index + Z.of_nat n) /\
    hs_harbor s' = hs_harbor s.
Proof.
  revert s index. induction n as [|n IH]; intros s index Hs Hi Hn; cbn [launch_exits].
  { exists s. by rewrite Z.add_0_r. }
  destruct (idle_launch_exit s index ctx Hs) as (s1 & -> & Hs1 & Hb1). cbn [mbind outcome_bind].
  rewrite Z.mod_small in Hs1 by lia.
  destruct (IH s1 (index + 1) Hs1) as (s' & -> & Hs' & Hb'); [lia..|].
  exists s'. split; [done|]. split; [|congruence].
  by replace (index + Z.of_nat (S n)) with (index + 1 + Z.of_nat n) by lia.
Qed.

(** On node 0, after 2 ^ 24 - 1 services were launched and exited the next
    one is registered under handle 0, the handle [skynet_handle_init] says is
    reserved for the system (and the one [skynet_context_new] uses for "not
    registered yet" and [skynet_send] for "no destination"). *)
Theorem registry_reuses_zero (ctx : loc) :
  exists s s', launch_exits (Z.to_nat (2 ^ 24 - 1)) ctx (skynet_handle_init 0) = Ret s /\
    launch_exit ctx s = Ret (0, s').
Proof.
  assert (idle_registry (skynet_handle_init 0) 1) as H0.
  { split; [|split; cbn; done || constructor|done]. intros ctxh.
    eapply slots_map_ext; [|exact (rr_slots _ _ _ _ _ (init_registry 0))]. done. }
  destruct (idle_launch_exits (Z.to_nat (2 ^ 24 - 1)) _ 1 ctx H0) as (s & E & Hs & Hb); [lia|lia|].
  rewrite Z2Nat.id in Hs by lia.
  destruct (idle_launch_exit s _ ctx Hs) as (s' & E' & _). exists s, s'.
  split; [exact E|]. by rewrite E', Hb.
Qed.
