(* ===== verification/Des.v ===== *)
(** DES as written in [lualib-src/lua-crypt.c]: the key schedule, the block
    cipher, and [ldesencode]/[ldesdecode] with their 0x80 padding. *)
From S2P Require Import Prelude.

(** A [uint32_t] left shift. *)
Definition shl32 (x n : Z) : Z := u32 (Z.shiftl x n).

(** [uint32_t] table lookups; the indices are masked to the table's size. *)
Definition tbl (t : list Z) (i : Z) : Z := nth (Z.to_nat i) t 0.

(** ** Tables *)

Definition SB1 : list Z := [
  0x01010400; 0x00000000; 0x00010000; 0x01010404;
  0x01010004; 0x00010404; 0x00000004; 0x00010000;
  0x00000400; 0x01010400; 0x01010404; 0x00000400;
  0x01000404; 0x01010004; 0x01000000; 0x00000004;
  0x00000404; 0x01000400; 0x01000400; 0x00010400;
  0x00010400; 0x01010000; 0x01010000; 0x01000404;
  0x00010004; 0x01000004; 0x01000004; 0x00010004;
  0x00000000; 0x00000404; 0x00010404; 0x01000000;
  0x00010000; 0x01010404; 0x00000004; 0x01010000;
  0x01010400; 0x01000000; 0x01000000; 0x00000400;
  0x01010004; 0x00010000; 0x00010400; 0x01000004;
  0x00000400; 0x00000004; 0x01000404; 0x00010404;
  0x01010404; 0x00010004; 0x01010000; 0x01000404;
  0x01000004; 0x00000404; 0x00010404; 0x01010400;
  0x00000404; 0x01000400; 0x01000400; 0x00000000;
  0x00010004; 0x00010400; 0x00000000; 0x01010004
].

Definition SB2 : list Z := [
  0x80108020; 0x80008000; 0x00008000; 0x00108020;
  0x00100000; 0x00000020; 0x80100020; 0x80008020;
  0x80000020; 0x80108020; 0x80108000; 0x80000000;
  0x80008000; 0x00100000; 0x00000020; 0x80100020;
  0x00108000; 0x00100020; 0x80008020; 0x00000000;
  0x80000000; 0x00008000; 0x00108020; 0x80100000;
  0x00100020; 0x80000020; 0x00000000; 0x00108000;
  0x00008020; 0x80108000; 0x80100000; 0x00008020;
  0x00000000; 0x00108020; 0x80100020; 0x00100000;
  0x80008020; 0x80100000; 0x80108000; 0x00008000;
  0x80100000; 0x80008000; 0x00000020; 0x80108020;
  0x00108020; 0x00000020; 0x00008000; 0x80000000;
  0x00008020; 0x80108000; 0x00100000; 0x80000020;
  0x00100020; 0x80008020; 0x80000020; 0x00100020;
  0x00108000; 0x00000000; 0x80008000; 0x00008020;
  0x80000000; 0x80100020; 0x80108020; 0x00108000
].

Definition SB3 : list Z := [
  0x00000208; 0x08020200; 0x00000000; 0x08020008;
  0x08000200; 0x00000000; 0x00020208; 0x08000200;
  0x00020008; 0x08000008; 0x08000008; 0x00020000;
  0x08020208; 0x00020008; 0x08020000; 0x00000208;
  0x08000000; 0x00000008; 0x08020200; 0x00000200;
  0x00020200; 0x08020000; 0x08020008; 0x00020208;
  0x08000208; 0x00020200; 0x00020000; 0x08000208;
  0x00000008; 0x08020208; 0x00000200; 0x08000000;
  0x08020200; 0x08000000; 0x00020008; 0x00000208;
  0x00020000; 0x08020200; 0x08000200; 0x00000000;
  0x00000200; 0x00020008; 0x08020208; 0x08000200;
  0x08000008; 0x00000200; 0x00000000; 0x08020008;
  0x08000208; 0x00020000; 0x08000000; 0x08020208;
  0x00000008; 0x00020208; 0x00020200; 0x08000008;
  0x08020000; 0x08000208; 0x00000208; 0x08020000;
  0x00020208; 0x00000008; 0x08020008; 0x00020200
].

Definition SB4 : list Z := [
  0x00802001; 0x00002081; 0x00002081; 0x00000080;
  0x00802080; 0x00800081; 0x00800001; 0x00002001;
  0x00000000; 0x00802000; 0x00802000; 0x00802081;
  0x00000081; 0x00000000; 0x00800080; 0x00800001;
  0x00000001; 0x00002000; 0x00800000; 0x00802001;
  0x00000080; 0x00800000; 0x00002001; 0x00002080;
  0x00800081; 0x00000001; 0x00002080; 0x00800080;
  0x00002000; 0x00802080; 0x00802081; 0x00000081;
  0x00800080; 0x00800001; 0x00802000; 0x00802081;
  0x00000081; 0x00000000; 0x00000000; 0x00802000;
  0x00002080; 0x00800080; 0x00800081; 0x00000001;
  0x00802001; 0x00002081; 0x00002081; 0x00000080;
  0x00802081; 0x00000081; 0x00000001; 0x00002000;
  0x00800001; 0x00002001; 0x00802080; 0x00800081;
  0x00002001; 0x00002080; 0x00800000; 0x00802001;
  0x00000080; 0x00800000; 0x00002000; 0x00802080
].

Definition SB5 : list Z := [
  0x00000100; 0x02080100; 0x02080000; 0x42000100;
  0x00080000; 0x00000100; 0x40000000; 0x02080000;
  0x40080100; 0x00080000; 0x02000100; 0x40080100;
  0x42000100; 0x42080000; 0x00080100; 0x40000000;
  0x02000000; 0x40080000; 0x40080000; 0x00000000;
  0x40000100; 0x42080100; 0x42080100; 0x02000100;
  0x42080000; 0x40000100; 0x00000000; 0x42000000;
  0x02080100; 0x02000000; 0x42000000; 0x00080100;
  0x00080000; 0x42000100; 0x00000100; 0x02000000;
  0x40000000; 0x02080000; 0x42000100; 0x40080100;
  0x02000100; 0x40000000; 0x42080000; 0x02080100;
  0x40080100; 0x00000100; 0x02000000; 0x42080000;
  0x42080100; 0x00080100; 0x42000000; 0x42080100;
  0x02080000; 0x00000000; 0x40080000; 0x42000000;
  0x00080100; 0x02000100; 0x40000100; 0x00080000;
  0x00000000; 0x40080000; 0x02080100; 0x40000100
].

Definition SB6 : list Z := [
  0x20000010; 0x20400000; 0x00004000; 0x20404010;
  0x20400000; 0x00000010; 0x20404010; 0x00400000;
  0x20004000; 0x00404010; 0x00400000; 0x20000010;
  0x00400010; 0x20004000; 0x20000000; 0x00004010;
  0x00000000; 0x00400010; 0x20004010; 0x00004000;
  0x00404000; 0x20004010; 0x00000010; 0x20400010;
  0x20400010; 0x00000000; 0x00404010; 0x20404000;
  0x00004010; 0x00404000; 0x20404000; 0x20000000;
  0x20004000; 0x00000010; 0x20400010; 0x00404000;
  0x20404010; 0x00400000; 0x00004010; 0x20000010;
  0x00400000; 0x20004000; 0x20000000; 0x00004010;
  0x20000010; 0x20404010; 0x00404000; 0x20400000;
  0x00404010; 0x20404000; 0x00000000; 0x20400010;
  0x00000010; 0x00004000; 0x20400000; 0x00404010;
  0x00004000; 0x00400010; 0x20004010; 0x00000000;
  0x20404000; 0x20000000; 0x00400010; 0x20004010
].

Definition SB7 : list Z := [
  0x00200000; 0x04200002; 0x04000802; 0x00000000;
  0x00000800; 0x04000802; 0x00200802; 0x04200800;
  0x04200802; 0x00200000; 0x00000000; 0x04000002;
  0x00000002; 0x04000000; 0x04200002; 0x00000802;
  0x04000800; 0x00200802; 0x00200002; 0x04000800;
  0x04000002; 0x04200000; 0x04200800; 0x00200002;
  0x04200000; 0x00000800; 0x00000802; 0x04200802;
  0x00200800; 0x00000002; 0x04000000; 0x00200800;
  0x04000000; 0x00200800; 0x00200000; 0x04000802;
  0x04000802; 0x04200002; 0x04200002; 0x00000002;
  0x00200002; 0x04000000; 0x04000800; 0x00200000;
  0x04200800; 0x00000802; 0x00200802; 0x04200800;
  0x00000802; 0x04000002; 0x04200802; 0x04200000;
  0x00200800; 0x00000000; 0x00000002; 0x04200802;
  0x00000000; 0x00200802; 0x04200000; 0x00000800;
  0x04000002; 0x04000800; 0x00000800; 0x00200002
].

Definition SB8 : list Z := [
  0x10001040; 0x00001000; 0x00040000; 0x10041040;
  0x10000000; 0x10001040; 0x00000040; 0x10000000;
  0x00040040; 0x10040000; 0x10041040; 0x00041000;
  0x10041000; 0x00041040; 0x00001000; 0x00000040;
  0x10040000; 0x10000040; 0x10001000; 0x00001040;
  0x00041000; 0x00040040; 0x10040040; 0x10041000;
  0x00001040; 0x00000000; 0x00000000; 0x10040040;
  0x10000040; 0x10001000; 0x00041040; 0x00040000;
  0x00041040; 0x00040000; 0x10041000; 0x00001000;
  0x00000040; 0x10040040; 0x00001000; 0x00041040;
  0x10001000; 0x00000040; 0x10000040; 0x10040000;
  0x10040040; 0x10000000; 0x00040000; 0x10001040;
  0x00000000; 0x10041040; 0x00040040; 0x10000040;
  0x10040000; 0x10001000; 0x10001040; 0x00000000;
  0x10041040; 0x00041000; 0x00041000; 0x00001040;
  0x00001040; 0x00040040; 0x10000000; 0x10041000
].

Definition LHs : list Z := [
  0x00000000; 0x00000001; 0x00000100; 0x00000101;
  0x00010000; 0x00010001; 0x00010100; 0x00010101;
  0x01000000; 0x01000001; 0x01000100; 0x01000101;
  0x01010000; 0x01010001; 0x01010100; 0x01010101
].

Definition RHs : list Z := [
  0x00000000; 0x01000000; 0x00010000; 0x01010000;
  0x00000100; 0x01000100; 0x00010100; 0x01010100;
  0x00000001; 0x01000001; 0x00010001; 0x01010001;
  0x00000101; 0x01000101; 0x00010101; 0x01010101
].

(** ** Words and bytes *)

Definition GET_UINT32 (b : bytes) (i : nat) : Z :=
  Z.lor (Z.lor (Z.lor (shl32 (nth i b 0) 24) (shl32 (nth (i + 1) b 0) 16))
    (shl32 (nth (i + 2) b 0) 8)) (nth (i + 3) b 0).

Definition PUT_UINT32 (n : Z) : bytes :=
  [u8 (Z.shiftr n 24); u8 (Z.shiftr n 16); u8 (Z.shiftr n 8); u8 n].

(** ** The permutations *)

(** [T = ((A >> n) ^ B) & m; B ^= T; A ^= (T << n);] *)
Definition swap_bits (n m : Z) (AB : Z * Z) : Z * Z :=
  let '(A, B) := AB in
  let T := Z.land (Z.lxor (Z.shiftr A n) B) m in
  (Z.lxor A (shl32 T n), Z.lxor B T).

Definition rol32 (x n : Z) : Z := Z.land (Z.lor (shl32 x n) (Z.shiftr x (32 - n))) 0xFFFFFFFF.

Definition DES_IP (X Y : Z) : Z * Z :=
  let '(X, Y) := swap_bits 4 0x0F0F0F0F (X, Y) in
  let '(X, Y) := swap_bits 16 0x0000FFFF (X, Y) in
  let '(Y, X) := swap_bits 2 0x33333333 (Y, X) in
  let '(Y, X) := swap_bits 8 0x00FF00FF (Y, X) in
  let Y := rol32 Y 1 in
  let '(X, Y) := swap_bits 0 0xAAAAAAAA (X, Y) in
  let X := rol32 X 1 in
  (X, Y).

Definition DES_FP (X Y : Z) : Z * Z :=
  let X := rol32 X 31 in
  let '(X, Y) := swap_bits 0 0xAAAAAAAA (X, Y) in
  let Y := rol32 Y 31 in
  let '(Y, X) := swap_bits 8 0x00FF00FF (Y, X) in
  let '(Y, X) := swap_bits 2 0x33333333 (Y, X) in
  let '(X, Y) := swap_bits 16 0x0000FFFF (X, Y) in
  let '(X, Y) := swap_bits 4 0x0F0F0F0F (X, Y) in
  (X, Y).

(** ** Rounds *)

(** The two subkeys of a round are read through [SK]; the result is [Y]. *)
Definition DES_ROUND (SK0 SK1 X Y : Z) : Z :=
  let T := Z.lxor SK0 X in
  let Y := Z.lxor Y (Z.lxor (Z.lxor (Z.lxor (tbl SB8 (Z.land T 0x3F))
                                            (tbl SB6 (Z.land (Z.shiftr T 8) 0x3F)))
                                    (tbl SB4 (Z.land (Z.shiftr T 16) 0x3F)))
                            (tbl SB2 (Z.land (Z.shiftr T 24) 0x3F))) in
  let T := Z.lxor SK1 (Z.lor (shl32 X 28) (Z.shiftr X 4)) in
  Z.lxor Y (Z.lxor (Z.lxor (Z.lxor (tbl SB7 (Z.land T 0x3F))
                                   (tbl SB5 (Z.land (Z.shiftr T 8) 0x3F)))
                           (tbl SB3 (Z.land (Z.shiftr T 16) 0x3F)))
                   (tbl SB1 (Z.land (Z.shiftr T 24) 0x3F))).

(** [DES_ROUND( Y, X ); DES_ROUND( X, Y );] once per four subkeys. *)
Fixpoint des_rounds (SK : list Z) (X Y : Z) : Z * Z :=
  match SK with
  | k0 :: k1 :: k2 :: k3 :: SK =>
      let X := DES_ROUND k0 k1 Y X in
      let Y := DES_ROUND k2 k3 X Y in
      des_rounds SK X Y
  | _ => (X, Y)
  end.

Definition des_crypt (SK : list Z) (input : bytes) : bytes :=
  let X := GET_UINT32 input 0 in
  let Y := GET_UINT32 input 4 in
  let '(X, Y) := DES_IP X Y in
  let '(X, Y) := des_rounds SK X Y in
  let '(Y, X) := DES_FP Y X in
  PUT_UINT32 Y ++ PUT_UINT32 X.

(** ** The key schedule *)

Definition rol28 (x n : Z) : Z := Z.land (Z.lor (shl32 x n) (Z.shiftr x (28 - n))) 0x0FFFFFFF.

Definition lor_list (l : list Z) : Z := foldl Z.lor 0 l.

(** [(X << n) & m], and [(X >> n) & m]. *)
Definition lm (X n m : Z) : Z := Z.land (shl32 X n) m.
Definition rm (X n m : Z) : Z := Z.land (Z.shiftr X n) m.

Definition ks_left (X : Z) : Z := lor_list [
  shl32 (tbl LHs (Z.land (Z.shiftr X 0) 0xF)) 3;
  shl32 (tbl LHs (Z.land (Z.shiftr X 8) 0xF)) 2;
  shl32 (tbl LHs (Z.land (Z.shiftr X 16) 0xF)) 1;
  shl32 (tbl LHs (Z.land (Z.shiftr X 24) 0xF)) 0;
  shl32 (tbl LHs (Z.land (Z.shiftr X 5) 0xF)) 7;
  shl32 (tbl LHs (Z.land (Z.shiftr X 13) 0xF)) 6;
  shl32 (tbl LHs (Z.land (Z.shiftr X 21) 0xF)) 5;
  shl32 (tbl LHs (Z.land (Z.shiftr X 29) 0xF)) 4].

Definition ks_right (Y : Z) : Z := lor_list [
  shl32 (tbl RHs (Z.land (Z.shiftr Y 1) 0xF)) 3;
  shl32 (tbl RHs (Z.land (Z.shiftr Y 9) 0xF)) 2;
  shl32 (tbl RHs (Z.land (Z.shiftr Y 17) 0xF)) 1;
  shl32 (tbl RHs (Z.land (Z.shiftr Y 25) 0xF)) 0;
  shl32 (tbl RHs (Z.land (Z.shiftr Y 4) 0xF)) 7;
  shl32 (tbl RHs (Z.land (Z.shiftr Y 12) 0xF)) 6;
  shl32 (tbl RHs (Z.land (Z.shiftr Y 20) 0xF)) 5;
  shl32 (tbl RHs (Z.land (Z.shiftr Y 28) 0xF)) 4].

Definition ks_key0 (X Y : Z) : Z := lor_list [
  lm X 4 0x24000000;
  lm X 28 0x10000000;
  lm X 14 0x08000000;
  lm X 18 0x02080000;
  lm X 6 0x01000000;
  lm X 9 0x00200000;
  rm X 1 0x00100000;
  lm X 10 0x00040000;
  lm X 2 0x00020000;
  rm X 10 0x00010000;
  rm Y 13 0x00002000;
  rm Y 4 0x00001000;
  lm Y 6 0x00000800;
  rm Y 1 0x00000400;
  rm Y 14 0x00000200;
  lm Y 0 0x00000100;
  rm Y 5 0x00000020;
  rm Y 10 0x00000010;
  rm Y 3 0x00000008;
  rm Y 18 0x00000004;
  rm Y 26 0x00000002;
  rm Y 24 0x00000001].

Definition ks_key1 (X Y : Z) : Z := lor_list [
  lm X 15 0x20000000;
  lm X 17 0x10000000;
  lm X 10 0x08000000;
  lm X 22 0x04000000;
  rm X 2 0x02000000;
  lm X 1 0x01000000;
  lm X 16 0x00200000;
  lm X 11 0x00100000;
  lm X 3 0x00080000;
  rm X 6 0x00040000;
  lm X 15 0x00020000;
  rm X 4 0x00010000;
  rm Y 2 0x00002000;
  lm Y 8 0x00001000;
  rm Y 14 0x00000808;
  rm Y 9 0x00000400;
  lm Y 0 0x00000200;
  lm Y 7 0x00000100;
  rm Y 7 0x00000020;
  rm Y 3 0x00000011;
  lm Y 2 0x00000004;
  rm Y 21 0x00000002].

Definition ks_rotation (i : nat) : Z :=
  if (i <? 2)%nat || (i =? 8)%nat || (i =? 15)%nat then 1 else 2.

(** [for( i = 0; i < 16; i++ )], with [n] rounds left. *)
Fixpoint ks_loop (n i : nat) (X Y : Z) : list Z :=
  match n with
  | O => []
  | S n =>
      let X := rol28 X (ks_rotation i) in
      let Y := rol28 Y (ks_rotation i) in
      ks_key0 X Y :: ks_key1 X Y :: ks_loop n (S i) X Y
  end.

Definition des_main_ks (key : bytes) : list Z :=
  let X := GET_UINT32 key 0 in
  let Y := GET_UINT32 key 4 in
  let '(Y, X) := swap_bits 4 0x0F0F0F0F (Y, X) in
  let '(Y, X) := swap_bits 0 0x10101010 (Y, X) in
  let X := Z.land (ks_left X) 0x0FFFFFFF in
  let Y := Z.land (ks_right Y) 0x0FFFFFFF in
  ks_loop 16 0 X Y.

Definition des_key (key : bytes) : outcome (list Z) :=
  if negb (length key =? 8)%nat then LuaError "Invalid key size %d, need 8 bytes"
  else Ret (des_main_ks key).

(** ** Encoding and decoding a string *)

(** [for (i=0;i<(int)textsz-7;i+=8)]: the whole blocks, and the rest. *)
Fixpoint des_blocks (fuel : nat) (SK : list Z) (text : bytes) : bytes * bytes :=
  match fuel with
  | S fuel =>
      if (8 <=? length text)%nat then
        let '(out, rest) := des_blocks fuel SK (drop 8 text) in
        (des_crypt SK (take 8 text) ++ out, rest)
      else ([], text)
  | O => ([], text)
  end.

(** The tail: the remaining bytes, 0x80, zeros. *)
Definition des_tail (rest : bytes) : bytes :=
  (fun j => if (j <? length rest)%nat then nth j rest 0
            else if (j =? length rest)%nat then 0x80 else 0) <$> seq 0 8.

(** The loops count with an [int]: [text] has fewer than 2^31 - 8 bytes in both directions. *)
Definition ldesencode (key text : bytes) : outcome bytes :=
  SK ← des_key key;
  let '(out, rest) := des_blocks (length text) SK text in
  Ret (out ++ des_crypt SK (des_tail rest)).

(** [SK[i] = ESK[30 - i]; SK[i + 1] = ESK[31 - i];] *)
Definition reverse_keys (ESK : list Z) : list Z :=
  (fun i => if Nat.even i then nth (30 - i) ESK 0 else nth (32 - i) ESK 0) <$> seq 0 32.

(** [for (i=textsz-1;i>=textsz-8;i--)]. The comparison is between [size_t]
    values: for an 8-byte text it is always true, and the loop runs off the
    front of the buffer. *)
Fixpoint padding_loop (fuel : nat) (i textsz : Z) (padding : Z) (buffer : bytes) : outcome Z :=
  match fuel with
  | O => Undefined
  | S fuel =>
      if u64 (textsz - 8) <=? u64 i then
        b ← arr_get buffer i;
        if b =? 0 then padding_loop fuel (i - 1) textsz (padding + 1) buffer
        else if b =? 0x80 then Ret padding
        else LuaError "Invalid des crypt text"
      else Ret padding
  end.

(** [text] has fewer than 2^31 bytes here, too: the blocks are counted with an [int]. *)
Definition ldesdecode (key text : bytes) : outcome bytes :=
  ESK ← des_key key;
  let SK := reverse_keys ESK in
  let textsz := Z.of_nat (length text) in
  if negb (Z.land textsz 7 =? 0) || (textsz =? 0) then
    LuaError "Invalid des crypt text length %d"
  else
    let buffer := (des_blocks (length text) SK text).1 in
    padding ← padding_loop 10 (textsz - 1) textsz 1 buffer;
    if 8 <? padding then LuaError "Invalid des crypt text"
    else Ret (take (Z.to_nat (textsz - padding)) buffer).

(** ** The permutations are inverse to each other *)

Definition word2 (XY : Z * Z) : Prop := word 32 XY.1 /\ word 32 XY.2.

Lemma shl32_small x n : 0 <= n <= 32 -> word (32 - n) x -> shl32 x n = Z.shiftl x n.
Proof. intros. apply Z.mod_small, word_shiftl; auto. Qed.

Lemma swap_bits_word n m A B : word2 (A, B) -> word 32 m -> word2 (swap_bits n m (A, B)).
Proof. intros [??] ?. cbn in *. split; cbn; unfold shl32; auto with word. Qed.

(** A masked exchange undoes itself. *)
Lemma swap_bits_involutive n m A B :
  0 <= n <= 32 -> word (32 - n) m -> swap_bits n m (swap_bits n m (A, B)) = (A, B).
Proof.
  intros Hn Hm. cbn. set (T := Z.land (Z.lxor (Z.shiftr A n) B) m).
  assert (word (32 - n) T) as HT by (apply word_land_r; [lia|done]).
  rewrite (shl32_small T) by done.
  assert (Z.land (Z.lxor (Z.shiftr (Z.lxor A (Z.shiftl T n)) n) (Z.lxor B T)) m = T) as ->.
  { rewrite Z.shiftr_lxor, Z.shiftr_shiftl_l, Z.sub_diag by lia. cbn.
    unfold T. f_equal. apply Z.bits_inj'. intros i _. rewrite !Z.lxor_spec.
    by destruct (Z.testbit (Z.shiftr A n) i), (Z.testbit B i), (Z.testbit _ i). }
  rewrite (shl32_small T) by done.
  by rewrite !Z.lxor_assoc, !Z.lxor_nilpotent, !Z.lxor_0_r.
Qed.

Lemma rol32_testbit x n i :
  word 32 x -> 0 <= n <= 32 -> 0 <= i < 32 ->
  Z.testbit (rol32 x n) i = Z.testbit x ((i - n) mod 32).
Proof.
  intros Hx Hn Hi. unfold rol32. change 0xFFFFFFFF with (Z.ones 32).
  rewrite Z.land_spec, Z.ones_spec_low, andb_true_r, Z.lor_spec by lia.
  unfold shl32. rewrite u32_testbit, Z.shiftl_spec, Z.shiftr_spec by lia.
  destruct (Z.lt_ge_cases i n) as [Hlt|Hge].
  - rewrite (Z.testbit_neg_r x (i - n)) by lia.
    assert ((i - n) mod 32 = i + (32 - n)) as ->; [|done].
    symmetry. apply Zmod_unique with (-1); lia.
  - rewrite (word_testbit 32 x (i + (32 - n))) by (done || lia). rewrite orb_false_r.
    rewrite Z.mod_small by lia. done.
Qed.

Lemma rol32_word x n : word 32 (rol32 x n).
Proof. unfold rol32. auto with word. Qed.

Lemma rol32_inverse x n : word 32 x -> 0 <= n <= 32 -> rol32 (rol32 x n) (32 - n) = x.
Proof.
  intros Hx Hn. apply (word_ext 32); [lia|apply rol32_word|done|].
  intros i Hi. rewrite !rol32_testbit by (apply rol32_word || done || lia || (apply Z.mod_pos_bound; lia)).
  f_equal. rewrite Zminus_mod_idemp_l. replace (i - (32 - n) - n) with (i + (-1) * 32) by lia.
  rewrite Z.mod_add by lia. apply Z.mod_small. lia.
Qed.

#[export] Hint Resolve rol32_word : word.

(** The proofs below step through the macros one exchange at a time. *)
Ltac des_step :=
  match goal with
  | |- context [swap_bits ?n ?m (?A, ?B)] =>
      let X := fresh "X" in let Y := fresh "Y" in let E := fresh "E" in
      let W := fresh "W" in
      assert (word2 (swap_bits n m (A, B))) as W
        by (apply swap_bits_word; [split; cbn; auto with word|auto with word]);
      destruct (swap_bits n m (A, B)) as [X Y] eqn:E; destruct W; cbn [fst snd] in *
  end.

Ltac swap_back :=
  match goal with
  | E : swap_bits ?n ?m (?A, ?B) = (?X, ?Y) |- context [swap_bits ?n ?m (?X, ?Y)] =>
      replace (swap_bits n m (X, Y)) with (A, B)
        by (rewrite <- E; symmetry; apply swap_bits_involutive; [lia|split; [discriminate|reflexivity]]);
      clear E
  end.

Lemma DES_FP_IP X Y : word2 (X, Y) ->
  let '(A, B) := DES_IP X Y in word2 (A, B) /\ DES_FP A B = (X, Y).
Proof.
  intros [HX HY]. cbn [fst snd] in *. unfold DES_IP.
  do 5 des_step. split; [split; cbn; auto with word|].
  unfold DES_FP. rewrite (rol32_inverse _ 1) by (done || lia).
  swap_back. rewrite (rol32_inverse _ 1) by (done || lia). by do 4 swap_back.
Qed.

Lemma DES_IP_FP X Y : word2 (X, Y) ->
  let '(A, B) := DES_FP X Y in word2 (A, B) /\ DES_IP A B = (X, Y).
Proof.
  intros [HX HY]. cbn [fst snd] in *. unfold DES_FP.
  do 5 des_step. split; [by split|].
  unfold DES_IP. do 4 swap_back. rewrite (rol32_inverse _ 31) by (done || lia).
  swap_back. by rewrite (rol32_inverse _ 31) by (done || lia).
Qed.

(** ** The rounds *)

Lemma tbl_word t i : Forall (word 32) t -> word 32 (tbl t i).
Proof.
  intros Ht. unfold tbl. destruct (nth_in_or_default (Z.to_nat i) t 0) as [Hin| ->]; [|word_tac].
  rewrite Forall_forall in Ht. apply Ht. by apply list_elem_of_In.
Qed.

Definition des_f (SK0 SK1 X : Z) : Z := DES_ROUND SK0 SK1 X 0.

Lemma DES_ROUND_f SK0 SK1 X Y : DES_ROUND SK0 SK1 X Y = Z.lxor Y (des_f SK0 SK1 X).
Proof. unfold des_f, DES_ROUND. cbn zeta. rewrite Z.lxor_0_l. apply Z.lxor_assoc. Qed.

Lemma des_f_word SK0 SK1 X : word 32 (des_f SK0 SK1 X).
Proof.
  unfold des_f, DES_ROUND. cbn zeta. rewrite Z.lxor_0_l.
  repeat (apply word_lxor; [lia|..]); apply tbl_word, all_words_ok; reflexivity.
Qed.

Lemma DES_ROUND_word SK0 SK1 X Y : word 32 Y -> word 32 (DES_ROUND SK0 SK1 X Y).
Proof. intros. rewrite DES_ROUND_f. apply word_lxor; [lia|done|apply des_f_word]. Qed.

Lemma DES_ROUND_involutive SK0 SK1 X Y :
  DES_ROUND SK0 SK1 X (DES_ROUND SK0 SK1 X Y) = Y.
Proof. rewrite !DES_ROUND_f, Z.lxor_assoc, Z.lxor_nilpotent. apply Z.lxor_0_r. Qed.

(** The subkeys in decryption order. *)
Fixpoint reverse_rounds (SK : list Z) : list Z :=
  match SK with
  | k0 :: k1 :: k2 :: k3 :: SK => reverse_rounds SK ++ [k2; k3; k0; k1]
  | _ => []
  end.

Lemma list_ind4 {A} (P : list A -> Prop) :
  (forall l, (length l < 4)%nat -> P l) ->
  (forall a b c d l, P l -> P (a :: b :: c :: d :: l)) -> forall l, P l.
Proof.
  intros H0 H4. fix IH 1. intros [|a [|b [|c [|d l]]]]; try (apply H0; cbn; lia).
  apply H4, IH.
Qed.

Lemma des_rounds_word SK X Y : word2 (X, Y) -> word2 (des_rounds SK X Y).
Proof.
  revert X Y. induction SK as [l Hl|k0 k1 k2 k3 SK IH] using list_ind4; intros X Y [HX HY].
  - destruct l as [|? [|? [|? [|? ?]]]]; [by split..|cbn in Hl; lia].
  - cbn [des_rounds]. cbn [fst snd] in *. apply IH. split; by apply DES_ROUND_word.
Qed.

Lemma des_rounds_snoc SK k0 k1 k2 k3 X Y :
  des_rounds (reverse_rounds SK ++ [k2; k3; k0; k1]) X Y =
    let '(X, Y) := des_rounds (reverse_rounds SK) X Y in
    let X := DES_ROUND k2 k3 Y X in (X, DES_ROUND k0 k1 X Y).
Proof.
  assert (forall SK X Y, (length SK mod 4 = 0)%nat ->
    des_rounds (SK ++ [k2; k3; k0; k1]) X Y =
    let '(X, Y) := des_rounds SK X Y in
    let X := DES_ROUND k2 k3 Y X in (X, DES_ROUND k0 k1 X Y)) as Happ.
  { clear. intros SK. induction SK as [l Hl|? ? ? ? SK IH] using list_ind4; intros X Y HSK.
    - destruct l; [done|]. rewrite Nat.mod_small in HSK by done. done.
    - cbn [app des_rounds]. apply IH. cbn [length] in HSK.
      replace (S (S (S (S (length SK))))) with (length SK + 1 * 4)%nat in HSK by lia.
      by rewrite Nat.Div0.mod_add in HSK. }
  apply Happ. clear. induction SK as [l Hl|? ? ? ? SK IH] using list_ind4.
  - destruct l as [|? [|? [|? [|? ?]]]]; [done..|cbn in Hl; lia].
  - cbn [reverse_rounds]. rewrite length_app. cbn [length].
    replace 4%nat with (1 * 4)%nat at 1 by lia. by rewrite Nat.Div0.mod_add.
Qed.

(** Running the rounds backwards on the swapped halves. *)
Lemma des_rounds_reverse SK X Y : (length SK mod 4 = 0)%nat ->
  let '(X', Y') := des_rounds SK X Y in des_rounds (reverse_rounds SK) Y' X' = (Y, X).
Proof.
  revert X Y. induction SK as [l Hl|k0 k1 k2 k3 SK IH] using list_ind4; intros X Y HSK.
  - destruct l; [done|]. by rewrite Nat.mod_small in HSK.
  - cbn [length] in HSK.
    replace (S (S (S (S (length SK))))) with (length SK + 1 * 4)%nat in HSK by lia.
    rewrite Nat.Div0.mod_add in HSK.
    cbn [des_rounds reverse_rounds].
    set (X1 := DES_ROUND k0 k1 Y X). set (Y1 := DES_ROUND k2 k3 X1 Y).
    specialize (IH X1 Y1 HSK). destruct (des_rounds SK X1 Y1) as [X' Y'].
    rewrite des_rounds_snoc, IH. cbn zeta. unfold Y1. rewrite DES_ROUND_involutive.
    unfold X1. by rewrite DES_ROUND_involutive.
Qed.

(** ** Blocks *)

Lemma shl32_byte b n : word 8 b -> 0 <= n <= 24 -> shl32 b n = Z.shiftl b n.
Proof. intros. apply shl32_small; [lia|]. eapply word_mono; [|done]. lia. Qed.

Lemma GET_UINT32_word4 b0 b1 b2 b3 pre post (i : nat) :
  word 8 b0 -> word 8 b1 -> word 8 b2 -> word 8 b3 -> length pre = i ->
  GET_UINT32 (pre ++ b0 :: b1 :: b2 :: b3 :: post) i = word4 b3 b2 b1 b0.
Proof.
  intros ? ? ? ? <-. unfold GET_UINT32.
  rewrite !app_nth2_plus, (app_nth2 pre), Nat.sub_diag by lia. cbn [nth].
  rewrite !shl32_byte, <- lor_word4 by (done || lia).
  rewrite (Z.lor_comm (Z.lor (Z.lor (Z.shiftl b0 24) _) _)).
  rewrite (Z.lor_comm (Z.lor (Z.shiftl b0 24) _)), (Z.lor_comm (Z.shiftl b0 24)).
  by rewrite !Z.lor_assoc.
Qed.

Lemma PUT_UINT32_word4 b0 b1 b2 b3 : word 8 b0 -> word 8 b1 -> word 8 b2 -> word 8 b3 ->
  PUT_UINT32 (word4 b3 b2 b1 b0) = [b0; b1; b2; b3].
Proof.
  intros. unfold PUT_UINT32. destruct (word4_bytes b3 b2 b1 b0) as (-> & -> & -> & ->); done.
Qed.

Lemma GET_PUT n pre post (i : nat) : word 32 n -> length pre = i ->
  GET_UINT32 (pre ++ PUT_UINT32 n ++ post) i = n.
Proof.
  intros Hn Hi. unfold PUT_UINT32. cbn [app].
  rewrite GET_UINT32_word4 by (apply u8_word || done). by apply word4_u8.
Qed.

Lemma PUT_UINT32_bytes n : is_bytes (PUT_UINT32 n).
Proof. repeat constructor; apply u8_range. Qed.

Lemma bytes8 b : is_bytes b -> length b = 8%nat ->
  exists b0 b1 b2 b3 b4 b5 b6 b7, b = [b0; b1; b2; b3; b4; b5; b6; b7] /\
    word 8 b0 /\ word 8 b1 /\ word 8 b2 /\ word 8 b3 /\
    word 8 b4 /\ word 8 b5 /\ word 8 b6 /\ word 8 b7.
Proof.
  intros Hb Hl. do 8 (destruct b as [|? b]; [done|]). destruct b; [|done].
  unfold is_bytes in Hb. rewrite !Forall_cons in Hb. eexists _, _, _, _, _, _, _, _. split; [done|]. tauto.
Qed.

Lemma des_crypt_length SK b : length (des_crypt SK b) = 8%nat.
Proof.
  unfold des_crypt. destruct (DES_IP _ _), (des_rounds _ _ _), (DES_FP _ _). done.
Qed.

Lemma des_crypt_bytes SK b : is_bytes (des_crypt SK b).
Proof.
  unfold des_crypt. destruct (DES_IP _ _), (des_rounds _ _ _), (DES_FP _ _).
  apply Forall_app. split; apply PUT_UINT32_bytes.
Qed.

(** A block deciphered with the reversed subkeys is the block. *)
Lemma des_crypt_inverse SK b : (length SK mod 4 = 0)%nat -> is_bytes b -> length b = 8%nat ->
  des_crypt (reverse_rounds SK) (des_crypt SK b) = b.
Proof.
  intros HSK Hb Hl.
  destruct (bytes8 b Hb Hl) as (b0 & b1 & b2 & b3 & b4 & b5 & b6 & b7 & -> & ? & ? & ? & ? & ? & ? & ? & ?).
  unfold des_crypt at 2.
  assert (GET_UINT32 [b0; b1; b2; b3; b4; b5; b6; b7] 0 = word4 b3 b2 b1 b0) as ->
    by by apply (GET_UINT32_word4 b0 b1 b2 b3 []).
  assert (GET_UINT32 [b0; b1; b2; b3; b4; b5; b6; b7] 4 = word4 b7 b6 b5 b4) as ->
    by by apply (GET_UINT32_word4 b4 b5 b6 b7 [b0; b1; b2; b3]).
  set (X := word4 b3 b2 b1 b0). set (Y := word4 b7 b6 b5 b4).
  assert (word2 (X, Y)) as HXY by (split; by apply word4_word).
  pose proof (DES_FP_IP X Y HXY) as Hip. destruct (DES_IP X Y) as [X1 Y1]. destruct Hip as [W1 E1].
  pose proof (des_rounds_word SK X1 Y1 W1) as W2.
  pose proof (des_rounds_reverse SK X1 Y1 HSK) as E2.
  destruct (des_rounds SK X1 Y1) as [X2 Y2].
  assert (word2 (Y2, X2)) as W2' by (destruct W2; by split).
  pose proof (DES_IP_FP Y2 X2 W2') as Hfp. destruct (DES_FP Y2 X2) as [Y3 X3]. destruct Hfp as [W3 E3].
  destruct W3 as [W3 W3']. cbn [fst snd] in *.
  unfold des_crypt.
  assert (GET_UINT32 (PUT_UINT32 Y3 ++ PUT_UINT32 X3) 0 = Y3) as ->
    by by apply (GET_PUT Y3 [] (PUT_UINT32 X3)).
  assert (GET_UINT32 (PUT_UINT32 Y3 ++ PUT_UINT32 X3) 4 = X3) as ->
    by (rewrite <- (app_nil_r (PUT_UINT32 X3)); by apply (GET_PUT X3 (PUT_UINT32 Y3) [])).
  rewrite E3, E2, E1. unfold X, Y. by rewrite !PUT_UINT32_word4.
Qed.

Lemma des_main_ks_length key : length (des_main_ks key) = 32%nat.
Proof.
  unfold des_main_ks. destruct (swap_bits _ _ _) as [Y X]. destruct (swap_bits _ _ _) as [Y' X'].
  done.
Qed.

Lemma reverse_keys_rounds SK : length SK = 32%nat -> reverse_keys SK = reverse_rounds SK.
Proof.
  intros H. do 32 (destruct SK as [|? SK]; [done|]). destruct SK; [|done]. reflexivity.
Qed.

(** ** Whole strings *)

Lemma des_blocks_fuel n m SK text :
  (length text <= n)%nat -> (length text <= m)%nat -> des_blocks n SK text = des_blocks m SK text.
Proof.
  revert m text. induction n as [|n IH]; intros [|m] text Hn Hm; cbn [des_blocks].
  - done.
  - by destruct (Nat.leb_spec 8 (length text)); [lia|].
  - by destruct (Nat.leb_spec 8 (length text)); [lia|].
  - destruct (Nat.leb_spec 8 (length text)); [|done].
    by rewrite (IH m) by (rewrite length_drop; lia).
Qed.

Lemma des_blocks_step n m SK b text : length b = 8%nat ->
  (length (b ++ text) <= n)%nat -> (length text <= m)%nat ->
  des_blocks n SK (b ++ text) =
    let '(out, rest) := des_blocks m SK text in (des_crypt SK b ++ out, rest).
Proof.
  intros Hb Hn Hm. rewrite length_app in Hn. destruct n as [|n]; [lia|]. cbn [des_blocks].
  rewrite length_app. destruct (Nat.leb_spec 8 (length b + length text)); [|lia].
  rewrite take_app_length', drop_app_length' by done. by rewrite (des_blocks_fuel n m) by lia.
Qed.

Lemma des_blocks_spec n SK text : (length SK mod 4 = 0)%nat ->
  is_bytes text -> (length text <= n)%nat ->
  let '(out, rest) := des_blocks n SK text in
  exists whole, text = whole ++ rest /\ (length rest < 8)%nat /\ is_bytes rest /\
    length out = length whole /\ (length whole mod 8 = 0)%nat /\
    forall t, (des_blocks (length (out ++ t)) (reverse_rounds SK) (out ++ t)).1 =
      whole ++ (des_blocks (length t) (reverse_rounds SK) t).1.
Proof.
  intros HSK. revert text. induction n as [|n IH]; intros text Hb Hn; cbn [des_blocks].
  { destruct text; [|cbn in Hn; lia]. exists []. repeat split; cbn; done || lia. }
  destruct (Nat.leb_spec 8 (length text)).
  2: { exists []. repeat split; cbn; done || lia. }
  assert (is_bytes (take 8 text) /\ is_bytes (drop 8 text)) as [Hb1 Hb2]
    by (split; [by apply Forall_take|by apply Forall_drop]).
  assert (length (take 8 text) = 8%nat) as Ht by (rewrite length_take; lia).
  specialize (IH (drop 8 text) Hb2). rewrite length_drop in IH. specialize (IH ltac:(lia)).
  destruct (des_blocks n SK (drop 8 text)) as [out rest].
  destruct IH as (whole & E & Hr & Hrb & Hl & Hmod & Hdec).
  exists (take 8 text ++ whole). repeat split; try done.
  - by rewrite <- app_assoc, <- E, take_drop.
  - rewrite !length_app, des_crypt_length. lia.
  - rewrite length_app, Ht. replace (8 + length whole)%nat with (length whole + 1 * 8)%nat by lia.
    by rewrite Nat.Div0.mod_add.
  - intros t. rewrite <- !app_assoc.
    rewrite (des_blocks_step _ (length (out ++ t)));
      [|apply des_crypt_length|done|done].
    specialize (Hdec t). destruct (des_blocks (length (out ++ t)) _ _) as [o r]. cbn [fst] in Hdec |- *.
    by rewrite des_crypt_inverse, Hdec.
Qed.

Lemma des_tail_eq rest : (length rest < 8)%nat ->
  des_tail rest = rest ++ 0x80 :: replicate (7 - length rest) 0.
Proof.
  intros H. do 8 (destruct rest as [|? rest]; [reflexivity|]). cbn in H. lia.
Qed.

Lemma padding_loop_spec fuel (z : nat) i textsz padding pre post :
  (z < fuel)%nat -> i = Z.of_nat (length pre + z) -> 8 <= textsz < 2 ^ 63 ->
  textsz - 8 <= Z.of_nat (length pre) -> i < textsz ->
  padding_loop fuel i textsz padding (pre ++ 0x80 :: replicate z 0 ++ post) =
    Ret (padding + Z.of_nat z).
Proof.
  revert z i padding post. induction fuel as [|fuel IH]; intros z i padding post Hz Hi Ht Hp Hlt; [lia|].
  cbn [padding_loop]. unfold u64. rewrite !Z.mod_small by lia.
  destruct (Z.leb_spec (textsz - 8) i); [|lia].
  subst i. unfold arr_get. rewrite arr_lookup_nat.
  destruct z as [|z].
  - rewrite Nat.add_0_r, lookup_app_r, Nat.sub_diag by lia. cbn. f_equal. lia.
  - rewrite lookup_app_r by lia. replace (length pre + S z - length pre)%nat with (S z) by lia.
    change ((0x80 :: replicate (S z) 0 ++ post) !! S z) with ((replicate (S z) 0 ++ post) !! z).
    rewrite lookup_app_l by (rewrite length_replicate; lia).
    rewrite lookup_replicate_2 by lia. cbn [deref mbind outcome_bind].
    rewrite Z.eqb_refl.
    replace (replicate (S z) 0 ++ post) with (replicate z 0 ++ 0 :: post)
      by by rewrite replicate_S_end, <- app_assoc.
    rewrite IH by lia. f_equal. lia.
Qed.

(** C32. Decryption inverts encryption: for every 8-byte key and every string
    (of fewer than 2 ^ 62 bytes), [desdecode(key, desencode(key, text))] is
    [text]. *)
Theorem des_roundtrip (key text : bytes) (Hkey : length key = 8%nat)
    (Htext : is_bytes text) (Hlen : Z.of_nat (length text) < 2 ^ 62) :
  exists code, ldesencode key text = Ret code /\ ldesdecode key code = Ret text.
Proof.
  unfold ldesencode, des_key. rewrite Hkey. cbn [Nat.eqb negb mbind outcome_bind].
  set (SK := des_main_ks key).
  assert (length SK = 32%nat) as HSK by apply des_main_ks_length.
  pose proof (des_blocks_spec (length text) SK text ltac:(by rewrite HSK) Htext ltac:(lia)) as Hs.
  destruct (des_blocks (length text) SK text) as [out rest].
  destruct Hs as (whole & Et & Hr & Hrb & Hl & Hmod & Hdec).
  eexists. split; [done|].
  unfold ldesdecode, des_key. rewrite Hkey. cbn [Nat.eqb negb mbind outcome_bind]. fold SK.
  rewrite reverse_keys_rounds by done.
  assert (length (des_tail rest) = 8%nat) as Hlt.
  { rewrite des_tail_eq, length_app by done. cbn [length]. rewrite length_replicate. lia. }
  assert (is_bytes (des_tail rest)) as Htb.
  { rewrite des_tail_eq by done. apply Forall_app. split; [done|]. constructor; [done|].
    by apply Forall_replicate. }
  rewrite Hdec.
  assert (des_blocks 8 (reverse_rounds SK) (des_crypt SK (des_tail rest)) = (des_tail rest, [])) as E8.
  { rewrite <- (app_nil_r (des_crypt SK _)).
    rewrite (des_blocks_step 8 0); [|apply des_crypt_length|rewrite length_app, des_crypt_length; cbn; lia|cbn; lia].
    cbn [des_blocks]. by rewrite app_nil_r, des_crypt_inverse by (done || by rewrite HSK). }
  rewrite (des_blocks_fuel _ 8), E8 by (rewrite des_crypt_length; lia). cbn [fst].
  rewrite length_app, des_crypt_length, Hl.
  set (w := length whole) in *.
  assert (Z.land (Z.of_nat (w + 8)) 7 = 0) as ->.
  { change 7 with (2 ^ 3 - 1). rewrite land_ones_pow2 by lia. change (2 ^ 3) with 8.
    apply Nat.Div0.mod_divides in Hmod as [q Hq]. rewrite Hq.
    replace (Z.of_nat (8 * q + 8)) with (0 + (Z.of_nat q + 1) * 8) by lia. by rewrite Z.mod_add. }
  destruct (Z.eqb_spec (Z.of_nat (w + 8)) 0); [lia|]. cbn [negb orb Z.eqb].
  assert (length text = w + length rest)%nat as Htl by (rewrite Et, length_app; done).
  rewrite des_tail_eq, app_assoc by done.
  replace (replicate (7 - length rest) 0) with (replicate (7 - length rest) 0 ++ []) by by rewrite app_nil_r.
  rewrite (padding_loop_spec 10 (7 - length rest)); [|lia|rewrite length_app; fold w; lia|lia|rewrite length_app; fold w; lia|lia].
  cbn [mbind outcome_bind]. destruct (Z.ltb_spec 8 (1 + Z.of_nat (7 - length rest))); [lia|].
  f_equal. rewrite Et. apply take_app_length'. rewrite length_app. fold w. lia.
Qed.

Definition des_example_key : bytes := [0x13; 0x34; 0x57; 0x79; 0x9B; 0xBC; 0xDF; 0xF1].

Lemma des_roundtrip_witness :
  (length des_example_key = 8%nat /\ is_bytes (str "attack at dawn") /\
   Z.of_nat (length (str "attack at dawn")) < 2 ^ 62) /\
  (exists code, ldesencode des_example_key (str "attack at dawn") = Ret code /\
     ldesdecode des_example_key code = Ret (str "attack at dawn")).
Proof.
  assert (is_bytes (str "attack at dawn")) as Hb
    by (apply all_words_ok; vm_compute; reflexivity).
  split; [split; [reflexivity|]; split; [exact Hb|vm_compute; reflexivity]|].
  apply (des_roundtrip des_example_key (str "attack at dawn")); [reflexivity|exact Hb|vm_compute; reflexivity].
Defined.

(** The block cipher is DES: a published test vector. *)
Example des_test_vector :
  des_crypt (des_main_ks des_example_key) [0x01; 0x23; 0x45; 0x67; 0x89; 0xAB; 0xCD; 0xEF] =
  [0x85; 0xE8; 0x13; 0x54; 0x0F; 0x0A; 0xB4; 0x05].
Proof. vm_compute. reflexivity. Qed.

(** An 8-byte text that deciphers to eight zero bytes is not refused: the
    bound [textsz-8] is unsigned, the padding loop compares [size_t] values,
    and it reads [buffer[-1]]. *)
Theorem des_padding_underrun (key : bytes) (Hkey : length key = 8%nat) :
  ldesdecode key (des_crypt (des_main_ks key) (replicate 8 0)) = Undefined.
Proof.
  unfold ldesdecode, des_key. rewrite Hkey. cbn [Nat.eqb negb mbind outcome_bind].
  set (SK := des_main_ks key).
  assert (length SK = 32%nat) as HSK by apply des_main_ks_length.
  rewrite reverse_keys_rounds by done. rewrite des_crypt_length. cbn [negb orb Z.eqb Z.land].
  assert (des_blocks 8 (reverse_rounds SK) (des_crypt SK (replicate 8 0)) = (replicate 8 0, [])) as ->.
  { rewrite <- (app_nil_r (des_crypt SK _)).
    rewrite (des_blocks_step 8 0); [|apply des_crypt_length|rewrite length_app, des_crypt_length; cbn; lia|cbn; lia].
    cbn [des_blocks]. rewrite app_nil_r, des_crypt_inverse; [done|by rewrite HSK| |done].
    by apply Forall_replicate. }
  reflexivity.
Qed.

Lemma des_padding_underrun_witness :
  length des_example_key = 8%nat /\
  ldesdecode des_example_key (des_crypt (des_main_ks des_example_key) (replicate 8 0)) = Undefined.
Proof. split; [reflexivity|]. exact (des_padding_underrun des_example_key eq_refl). Defined.
