(* ===== verification/Crypt.v ===== *)
(** The rest of [lualib-src/lua-crypt.c]: random keys, string hash, hex, MD5
    based hmac64, Diffie-Hellman over a 64-bit prime, base64 and xor_str.
    Arguments are Lua strings of fewer than 2 ^ 31 bytes, so the [int] loop
    counters do not overflow. *)
From S2P Require Import Prelude Des.

(** ** Keys and the string hash *)

(** [lrandomkey], given the eight values of [random()]. *)
Definition lrandomkey (random : list Z) : bytes :=
  let tmp := (fun r => Z.land r 0xff) <$> random in
  let x := foldl Z.lxor 0 tmp in
  if x =? 0 then match tmp with t :: tmp => Z.lor t 1 :: tmp | [] => [] end else tmp.

Definition hash_step (h : Z * Z) (c : Z) : Z * Z :=
  let '(djb_hash, js_hash) := h in
  (u32 (djb_hash + u32 (shl32 djb_hash 5 + c)),
   Z.lxor js_hash (u32 (shl32 js_hash 5 + c + Z.shiftr js_hash 2))).

(** The four little-endian bytes of a [uint32_t]. *)
Definition le32 (n : Z) : bytes :=
  [Z.land n 0xff; Z.land (Z.shiftr n 8) 0xff; Z.land (Z.shiftr n 16) 0xff; Z.land (Z.shiftr n 24) 0xff].

Definition Hash (str : bytes) : bytes :=
  let '(djb_hash, js_hash) := foldl hash_step (5381, 1315423911) str in
  le32 djb_hash ++ le32 js_hash.

Definition lhashkey (key : bytes) : bytes := Hash key.

(** ** Hexadecimal *)

Definition hex : bytes := str "0123456789abcdef".

Definition ltohex (text : bytes) : bytes :=
  text ≫= fun c => [tbl hex (Z.shiftr c 4); tbl hex (Z.land c 0xf)].

(** [HEX(v,c)] with a [uint8_t] [v]. *)
Definition HEX (c : Z) : Z :=
  if (48 <=? c) && (c <=? 57) then u8 (c - 48) else u8 (c - 97 + 10).

(** [for (i=0;i<sz;i+=2)] over a text of even length. *)
Fixpoint fromhex_loop (text : bytes) : outcome bytes :=
  match text with
  | c0 :: c1 :: text =>
      let hi := HEX c0 in
      let low := HEX c1 in
      if (16 <? hi) || (16 <? low) then LuaError "Invalid hex text"
      else
        rest ← fromhex_loop text;
        Ret (u8 (Z.lor (Z.shiftl hi 4) low) :: rest)
  | _ => Ret []
  end.

Definition lfromhex (text : bytes) : outcome bytes :=
  if negb (Z.land (Z.of_nat (length text)) 1 =? 0) then LuaError "Invalid hex text size %d"
  else fromhex_loop text.

(** ** MD5 and hmac64 *)

Definition k : list Z := [
  0xd76aa478; 0xe8c7b756; 0x242070db; 0xc1bdceee;
  0xf57c0faf; 0x4787c62a; 0xa8304613; 0xfd469501;
  0x698098d8; 0x8b44f7af; 0xffff5bb1; 0x895cd7be;
  0x6b901122; 0xfd987193; 0xa679438e; 0x49b40821;
  0xf61e2562; 0xc040b340; 0x265e5a51; 0xe9b6c7aa;
  0xd62f105d; 0x02441453; 0xd8a1e681; 0xe7d3fbc8;
  0x21e1cde6; 0xc33707d6; 0xf4d50d87; 0x455a14ed;
  0xa9e3e905; 0xfcefa3f8; 0x676f02d9; 0x8d2a4c8a;
  0xfffa3942; 0x8771f681; 0x6d9d6122; 0xfde5380c;
  0xa4beea44; 0x4bdecfa9; 0xf6bb4b60; 0xbebfbc70;
  0x289b7ec6; 0xeaa127fa; 0xd4ef3085; 0x04881d05;
  0xd9d4d039; 0xe6db99e5; 0x1fa27cf8; 0xc4ac5665;
  0xf4292244; 0x432aff97; 0xab9423a7; 0xfc93a039;
  0x655b59c3; 0x8f0ccc92; 0xffeff47d; 0x85845dd1;
  0x6fa87e4f; 0xfe2ce6e0; 0xa3014314; 0x4e0811a1;
  0xf7537e82; 0xbd3af235; 0x2ad7d2bb; 0xeb86d391].

Definition r : list Z := [
  7; 12; 17; 22; 7; 12; 17; 22; 7; 12; 17; 22; 7; 12; 17; 22;
  5; 9; 14; 20; 5; 9; 14; 20; 5; 9; 14; 20; 5; 9; 14; 20;
  4; 11; 16; 23; 4; 11; 16; 23; 4; 11; 16; 23; 4; 11; 16; 23;
  6; 10; 15; 21; 6; 10; 15; 21; 6; 10; 15; 21; 6; 10; 15; 21].

(** [LEFTROTATE(x, c)] *)
Definition LEFTROTATE (x c : Z) : Z := Z.lor (shl32 x c) (Z.shiftr x (32 - c)).

(** [~x] for a [uint32_t]. *)
Definition not32 (x : Z) : Z := 2 ^ 32 - 1 - x.

Record md5_state := MD5State { md_a : Z; md_b : Z; md_c : Z; md_d : Z }.

Definition md5_init : md5_state := MD5State 0x67452301 0xefcdab89 0x98badcfe 0x10325476.

(** One round of the loop of [digest_md5]. *)
Definition md5_round (w : list Z) (st : md5_state) (i : Z) : md5_state :=
  let '(MD5State a b c d) := st in
  let '(f, g) :=
    if i <? 16 then (Z.lor (Z.land b c) (Z.land (not32 b) d), i)
    else if i <? 32 then (Z.lor (Z.land d b) (Z.land (not32 d) c), (5 * i + 1) mod 16)
    else if i <? 48 then (Z.lxor (Z.lxor b c) d, (3 * i + 5) mod 16)
    else (Z.lxor c (Z.lor b (not32 d)), (7 * i) mod 16) in
  MD5State d (u32 (b + LEFTROTATE (u32 (a + f + tbl k i + tbl w g)) (tbl r i))) b c.

Definition digest_md5 (w : list Z) : md5_state := foldl (md5_round w) md5_init (seqZ 0 64).

Definition hmac (x y : Z * Z) : Z * Z :=
  let four := [x.2; x.1; y.2; y.1] in
  let '(MD5State r0 r1 r2 r3) := digest_md5 (four ++ four ++ four ++ four) in
  (Z.lxor r2 r3, Z.lxor r0 r1).

Definition hmac_md5 (x y : Z * Z) : Z * Z :=
  let four := [x.1; x.2; y.1; y.2] in
  let '(MD5State r0 r1 r2 r3) := digest_md5 (four ++ four ++ four ++ [0x80; 0; 384; 0]) in
  (Z.lxor (u32 (r0 + 0x67452301)) (u32 (r2 + 0x98badcfe)),
   Z.lxor (u32 (r1 + 0xefcdab89)) (u32 (r3 + 0x10325476))).

(** [x[i] | x[i+1]<<8 | x[i+2]<<16 | x[i+3]<<24], with the wrap-around of a
    32-bit [int] (the last shift overflows [int] for bytes over 127). *)
Definition get_le32 (x : bytes) (i : nat) : Z :=
  Z.lor (Z.lor (Z.lor (nth i x 0) (shl32 (nth (i + 1) x 0) 8)) (shl32 (nth (i + 2) x 0) 16))
    (shl32 (nth (i + 3) x 0) 24).

Definition read_pair (x : bytes) : Z * Z := (get_le32 x 0, get_le32 x 4).

Definition read64 (x y : bytes) : outcome ((Z * Z) * (Z * Z)) :=
  if negb (length x =? 8)%nat then LuaError "Invalid uint64 x"
  else if negb (length y =? 8)%nat then LuaError "Invalid uint64 y"
  else Ret (read_pair x, read_pair y).

Definition pushqword (result : Z * Z) : bytes := le32 result.1 ++ le32 result.2.

Definition lhmac64 (x y : bytes) : outcome bytes :=
  '(x, y) ← read64 x y; Ret (pushqword (hmac x y)).

Definition lhmac64_md5 (x y : bytes) : outcome bytes :=
  '(x, y) ← read64 x y; Ret (pushqword (hmac_md5 x y)).

Definition lhmac_hash (x text : bytes) : outcome bytes :=
  if negb (length x =? 8)%nat then LuaError "Invalid uint64 key"
  else Ret (pushqword (hmac (read_pair (Hash text)) (read_pair x))).

(** ** Diffie-Hellman *)

Definition P : Z := 0xffffffffffffffc5.

(** [while(b)]: [b] is halved each round, so 64 rounds are enough. *)
Fixpoint mul_mod_loop (fuel : nat) (a b m : Z) : outcome Z :=
  if b =? 0 then Ret m
  else
    match fuel with
    | O => Undefined
    | S fuel =>
        let m :=
          if negb (Z.land b 1 =? 0) then
            let t := u64 (P - a) in
            if t <=? m then u64 (m - t) else u64 (m + a)
          else m in
        let a := if u64 (P - a) <=? a then u64 (u64 (a * 2) - P) else u64 (a * 2) in
        mul_mod_loop fuel a (Z.shiftr b 1) m
    end.

Definition mul_mod_p (a b : Z) : outcome Z := mul_mod_loop 64 a b 0.

(** The recursion stops at 1; from 0 it never does. *)
Fixpoint pow_mod_loop (fuel : nat) (a b : Z) : outcome Z :=
  if b =? 1 then Ret a
  else
    match fuel with
    | O => Undefined
    | S fuel =>
        t ← pow_mod_loop fuel a (Z.shiftr b 1);
        t ← mul_mod_p t t;
        if b mod 2 =? 0 then Ret t else mul_mod_p t a
    end.

Definition pow_mod_p (a b : Z) : outcome Z := pow_mod_loop 64 a b.

Definition powmodp (a b : Z) : outcome Z :=
  let a := if P <? a then a mod P else a in
  pow_mod_p a b.

Definition push64 (r : Z) : bytes :=
  (fun i => Z.land (Z.shiftr r (8 * i)) 0xff) <$> seqZ 0 8.

Definition join64 (x : Z * Z) : Z := Z.lor x.1 (u64 (Z.shiftl x.2 32)).

Definition ldhsecret (x y : bytes) : outcome bytes :=
  '(x, y) ← read64 x y;
  let xx := join64 x in
  let yy := join64 y in
  if (xx =? 0) || (yy =? 0) then LuaError "Can't be 0"
  else r ← powmodp xx yy; Ret (push64 r).

Definition G : Z := 5.

Definition ldhexchange (x : bytes) : outcome bytes :=
  if negb (length x =? 8)%nat then LuaError "Invalid dh uint64 key"
  else
    let x64 := join64 (read_pair x) in
    if x64 =? 0 then LuaError "Can't be 0"
    else r ← powmodp G x64; Ret (push64 r).

(** ** Base64 *)

Definition encoding : bytes := str "ABCDEFGHIJKLMNOPQRSTUVWXYZabcdefghijklmnopqrstuvwxyz0123456789+/".

(** The loop over groups of three bytes and the [switch(padding)]. The size of the result is
    an [int] in the code: [text] has at most 1610612733 bytes, so that it is below 2^31. *)
Fixpoint lb64encode (text : bytes) : bytes :=
  match text with
  | t0 :: t1 :: t2 :: text =>
      let v := Z.lor (Z.lor (Z.shiftl t0 16) (Z.shiftl t1 8)) t2 in
      tbl encoding (Z.shiftr v 18) :: tbl encoding (Z.land (Z.shiftr v 12) 0x3f) ::
      tbl encoding (Z.land (Z.shiftr v 6) 0x3f) :: tbl encoding (Z.land v 0x3f) :: lb64encode text
  | [t0] => [tbl encoding (Z.shiftr t0 2); tbl encoding (Z.shiftl (Z.land t0 3) 4); 61; 61]
  | [t0; t1] =>
      let v := Z.lor (Z.shiftl t0 8) t1 in
      [tbl encoding (Z.shiftr v 10); tbl encoding (Z.land (Z.shiftr v 4) 0x3f);
       tbl encoding (Z.shiftl (Z.land v 0xf) 2); 61]
  | [] => []
  end.

Definition decoding : list Z := [
  62; -1; -1; -1; 63; 52; 53; 54; 55; 56; 57; 58; 59; 60; 61; -1; -1; -1; -2; -1;
  -1; -1; 0; 1; 2; 3; 4; 5; 6; 7; 8; 9; 10; 11; 12; 13; 14; 15; 16; 17;
  18; 19; 20; 21; 22; 23; 24; 25; -1; -1; -1; -1; -1; -1; 26; 27; 28; 29; 30; 31;
  32; 33; 34; 35; 36; 37; 38; 39; 40; 41; 42; 43; 44; 45; 46; 47; 48; 49; 50; 51].

Definition b64index (c : Z) : Z :=
  if c <? 43 then -1
  else if Z.of_nat (length decoding) <=? c - 43 then -1
  else tbl decoding (c - 43).

(** [for (j=0;j<4;)]: [need] more characters; the others are skipped. *)
Fixpoint b64_group (need : nat) (text : bytes) (c : list Z) (padding : Z)
    : outcome (list Z * Z * bytes) :=
  match need with
  | O => Ret (c, padding, text)
  | S need' =>
      match text with
      | [] => LuaError "Invalid base64 text"
      | x :: text =>
          let d := b64index x in
          if d =? -1 then b64_group need text c padding
          else b64_group need' text (c ++ [d]) (if d =? -2 then padding + 1 else padding)
      end
  end.

(** The [switch (padding)]. *)
Definition b64_bytes (c : list Z) (padding : Z) : outcome bytes :=
  match c with
  | [c0; c1; c2; c3] =>
      if padding =? 0 then
        let v := Z.lor (Z.lor (Z.lor (Z.shiftl c0 18) (Z.shiftl c1 12)) (Z.shiftl c2 6)) c3 in
        Ret [u8 (Z.shiftr v 16); Z.land (Z.shiftr v 8) 0xff; Z.land v 0xff]
      else if padding =? 1 then
        if negb (c3 =? -2) || negb (Z.land c2 3 =? 0) then LuaError "Invalid base64 text"
        else
          let v := Z.lor (Z.lor (Z.shiftl c0 10) (Z.shiftl c1 4)) (Z.shiftr c2 2) in
          Ret [u8 (Z.shiftr v 8); Z.land v 0xff]
      else if padding =? 2 then
        if negb (c3 =? -2) || negb (c2 =? -2) || negb (Z.land c1 0xf =? 0) then
          LuaError "Invalid base64 text"
        else Ret [u8 (Z.lor (Z.shiftl c0 2) (Z.shiftr c1 4))]
      else LuaError "Invalid base64 text"
  | _ => Undefined
  end.

(** [for (i=0;i<sz;)]: every group takes at least four characters. *)
Fixpoint b64_decode_loop (fuel : nat) (text : bytes) : outcome bytes :=
  match text, fuel with
  | [], _ => Ret []
  | _, O => Undefined
  | _, S fuel =>
      '(c, padding, text) ← b64_group 4 text [] 0;
      out ← b64_bytes c padding;
      rest ← b64_decode_loop fuel text;
      Ret (out ++ rest)
  end.

Definition lb64decode (text : bytes) : outcome bytes := b64_decode_loop (length text) text.

(** ** xor_str *)

Fixpoint xor_loop (s1 s2 : bytes) (i : nat) : bytes :=
  match s1 with
  | [] => []
  | c :: s1 => Z.lxor c (nth (i mod length s2) s2 0) :: xor_loop s1 s2 (S i)
  end.

Definition lxor_str (s1 s2 : bytes) : outcome bytes :=
  if (length s2 =? 0)%nat then LuaError "Can't xor empty string"
  else Ret (xor_loop s1 s2 0).

(** ** Tables *)

Lemma forall_word8 (f : Z -> bool) : forallb f (seqZ 0 256) = true -> forall c, word 8 c -> f c = true.
Proof.
  intros Hf c Hc. apply (proj1 (forallb_forall _ _) Hf). apply list_elem_of_In, elem_of_seqZ.
  unfold word in Hc. lia.
Qed.

Lemma forall_word6 (f : Z -> bool) : forallb f (seqZ 0 64) = true -> forall c, word 6 c -> f c = true.
Proof.
  intros Hf c Hc. apply (proj1 (forallb_forall _ _) Hf). apply list_elem_of_In, elem_of_seqZ.
  unfold word in Hc. lia.
Qed.

(** ** Hexadecimal *)

Lemma hex_byte c : word 8 c ->
  HEX (tbl hex (Z.shiftr c 4)) = Z.shiftr c 4 /\ HEX (tbl hex (Z.land c 0xf)) = Z.land c 0xf /\
  Z.shiftr c 4 <= 16 /\ Z.land c 0xf <= 16 /\
  u8 (Z.lor (Z.shiftl (Z.shiftr c 4) 4) (Z.land c 0xf)) = c.
Proof.
  intros Hc.
  pose proof (forall_word8 (fun c => (HEX (tbl hex (Z.shiftr c 4)) =? Z.shiftr c 4) &&
    (HEX (tbl hex (Z.land c 0xf)) =? Z.land c 0xf) && (Z.shiftr c 4 <=? 16) && (Z.land c 0xf <=? 16) &&
    (u8 (Z.lor (Z.shiftl (Z.shiftr c 4) 4) (Z.land c 0xf)) =? c)) eq_refl c Hc) as H.
  cbn beta in H. rewrite !andb_true_iff, !Z.eqb_eq, !Z.leb_le in H. tauto.
Qed.

Lemma ltohex_cons c text :
  ltohex (c :: text) = tbl hex (Z.shiftr c 4) :: tbl hex (Z.land c 0xf) :: ltohex text.
Proof. done. Qed.

Lemma ltohex_length text : length (ltohex text) = (2 * length text)%nat.
Proof. induction text as [|c text IH]; [done|]. rewrite ltohex_cons. cbn [length]. lia. Qed.

(** [fromhex(tohex(text))] is [text]. *)
Theorem hex_roundtrip (text : bytes) (Htext : is_bytes text) :
  lfromhex (ltohex text) = Ret text.
Proof.
  unfold lfromhex. rewrite ltohex_length.
  change 1 with (2 ^ 1 - 1). rewrite land_ones_pow2 by lia.
  replace (Z.of_nat (2 * length text) mod 2 ^ 1) with 0.
  2: { rewrite Nat2Z.inj_mul, Z.mul_comm. symmetry. by apply Z.mod_mul. }
  cbn [Z.eqb negb]. induction Htext as [|c text Hc _ IH]; [done|].
  rewrite ltohex_cons. cbn [fromhex_loop].
  destruct (hex_byte c Hc) as (-> & -> & H1 & H2 & E). cbn zeta.
  rewrite (proj2 (Z.ltb_ge _ _) H1), (proj2 (Z.ltb_ge _ _) H2). cbn [orb].
  rewrite IH. cbn. by rewrite E.
Qed.

Lemma hex_roundtrip_witness : is_bytes (str "skynet") /\ lfromhex (ltohex (str "skynet")) = Ret (str "skynet").
Proof.
  assert (is_bytes (str "skynet")) as Hb by (apply all_words_ok; vm_compute; reflexivity).
  split; [exact Hb|]. exact (hex_roundtrip (str "skynet") Hb).
Defined.

(** What [fromhex] takes for a hexadecimal digit: the decimal digits, and
    every character from 'W' to 'g' (so upper-case A to F are refused, while
    'W'..'`' count as 0 to 9 again and 'g' as 16). *)
Theorem fromhex_accepts (c0 c1 : Z) (H0 : word 8 c0) (H1 : word 8 c1) :
  (exists b, lfromhex [c0; c1] = Ret [b]) <->
  (48 <= c0 <= 57 \/ 87 <= c0 <= 103) /\ (48 <= c1 <= 57 \/ 87 <= c1 <= 103).
Proof.
  assert (forall c, word 8 c -> (16 <? HEX c) = negb ((48 <=? c) && (c <=? 57) || (87 <=? c) && (c <=? 103))) as Hh.
  { intros c Hc. apply Bool.eqb_prop.
    by apply (forall_word8 (fun c => Bool.eqb (16 <? HEX c) (negb ((48 <=? c) && (c <=? 57) || (87 <=? c) && (c <=? 103))))). }
  change (lfromhex [c0; c1]) with (fromhex_loop [c0; c1]). cbn [fromhex_loop]. cbn zeta.
  rewrite (Hh c0), (Hh c1) by done. cbn [mbind outcome_bind].
  zcases; cbn -[u8]; split; try (intros [? ?]; discriminate); try lia; intros _; eexists; reflexivity.
Qed.

Lemma fromhex_accepts_witness :
  word 8 103 /\ word 8 103 /\
  ((exists b, lfromhex [103; 103] = Ret [b]) <->
   (48 <= 103 <= 57 \/ 87 <= 103 <= 103) /\ (48 <= 103 <= 57 \/ 87 <= 103 <= 103)).
Proof.
  assert (word 8 103) as Hw by (split; vm_compute; congruence).
  split; [exact Hw|]. split; [exact Hw|]. exact (fromhex_accepts 103 103 Hw Hw).
Defined.

(** ** Base64 *)

Lemma encoding_index v : word 6 v ->
  b64index (tbl encoding v) = v.
Proof.
  intros Hv. apply Z.eqb_eq. by apply (forall_word6 (fun v => b64index (tbl encoding v) =? v)).
Qed.

(** Reading one encoded character. *)
Lemma b64_group_enc need v text c padding : word 6 v ->
  b64_group (S need) (tbl encoding v :: text) c padding = b64_group need text (c ++ [v]) padding.
Proof.
  intros Hv. cbn [b64_group]. rewrite encoding_index by done. unfold word in Hv.
  destruct (Z.eqb_spec v (-1)); [lia|]. destruct (Z.eqb_spec v (-2)); [lia|done].
Qed.

Lemma b64_group_pad need text c padding :
  b64_group (S need) (61 :: text) c padding = b64_group need text (c ++ [-2]) (padding + 1).
Proof. done. Qed.

Lemma b64_group_0 text c padding : b64_group 0 text c padding = Ret (c, padding, text).
Proof. by destruct text. Qed.

Lemma land_pow2 x n m : 0 <= n -> m = 2 ^ n - 1 -> Z.land x m = x mod 2 ^ n.
Proof. intros ? ->. by apply land_ones_pow2. Qed.

(** The three fields are those of their concatenation. *)
Lemma b64_join24 t0 t1 t2 : word 8 t0 -> word 8 t1 -> word 8 t2 ->
  Z.lor (Z.lor (Z.shiftl t0 16) (Z.shiftl t1 8)) t2 = t2 + t1 * 2 ^ 8 + t0 * 2 ^ 16.
Proof.
  unfold word. intros. rewrite Z.lor_comm, (Z.lor_comm (Z.shiftl t0 16)).
  rewrite !Z.shiftl_mul_pow2 by lia.
  replace (Z.lor (t1 * 2 ^ 8) (t0 * 2 ^ 16)) with ((t1 + t0 * 2 ^ 8) * 2 ^ 8)
    by (rewrite (lor_mul_add 16); unfold word; lia).
  rewrite (lor_mul_add 8); unfold word; lia.
Qed.

Lemma b64_split24 v : word 24 v ->
  Z.lor (Z.lor (Z.lor (Z.shiftl (v / 2 ^ 18) 18) (Z.shiftl (v / 2 ^ 12 mod 2 ^ 6) 12))
    (Z.shiftl (v / 2 ^ 6 mod 2 ^ 6) 6)) (v mod 2 ^ 6) = v.
Proof.
  unfold word. intros Hv. rewrite !Z.shiftl_mul_pow2 by lia.
  rewrite Z.lor_comm, (Z.lor_comm (Z.lor _ _)), (Z.lor_comm (_ * 2 ^ 18)).
  rewrite (lor_mul_add 18); unfold word; [|Z.to_euclidean_division_equations; lia..].
  replace (v / 2 ^ 12 mod 2 ^ 6 * 2 ^ 12 + v / 2 ^ 18 * 2 ^ 18) with (v / 2 ^ 12 * 2 ^ 12)
    by (Z.to_euclidean_division_equations; lia).
  rewrite (lor_mul_add 12); unfold word; [|Z.to_euclidean_division_equations; lia..].
  replace (v / 2 ^ 6 mod 2 ^ 6 * 2 ^ 6 + v / 2 ^ 12 * 2 ^ 12) with (v / 2 ^ 6 * 2 ^ 6)
    by (Z.to_euclidean_division_equations; lia).
  rewrite (lor_mul_add 6); unfold word; [|Z.to_euclidean_division_equations; lia..].
  Z.to_euclidean_division_equations; lia.
Qed.

Lemma b64_decode_step fuel text c padding rest : text <> [] ->
  b64_group 4 text [] 0 = Ret (c, padding, rest) ->
  b64_decode_loop (S fuel) text =
    (out ← b64_bytes c padding; tl ← b64_decode_loop fuel rest; Ret (out ++ tl)).
Proof. intros Ht E. destruct text; [done|]. cbn [b64_decode_loop]. by rewrite E. Qed.

Lemma b64_group3 t0 t1 t2 text : word 8 t0 -> word 8 t1 -> word 8 t2 ->
  exists c, b64_group 4 (lb64encode (t0 :: t1 :: t2 :: text)) [] 0 = Ret (c, 0, lb64encode text) /\
    b64_bytes c 0 = Ret [t0; t1; t2].
Proof.
  intros H0 H1 H2. cbn [lb64encode]. rewrite b64_join24 by done.
  set (v := t2 + t1 * 2 ^ 8 + t0 * 2 ^ 16).
  assert (word 24 v) as Hv by (unfold word, v in *; lia).
  rewrite !(land_pow2 _ 6), !Z.shiftr_div_pow2 by (lia || done).
  assert (word 6 (v / 2 ^ 18) /\ word 6 (v / 2 ^ 12 mod 2 ^ 6) /\ word 6 (v / 2 ^ 6 mod 2 ^ 6) /\ word 6 (v mod 2 ^ 6))
    as (? & ? & ? & ?).
  { unfold word in *. repeat split; Z.to_euclidean_division_equations; lia. }
  rewrite !b64_group_enc, b64_group_0 by done. eexists. split; [done|].
  cbn [app b64_bytes Z.eqb]. rewrite b64_split24 by done. cbn zeta. f_equal.
  unfold word, u8 in *. rewrite !(land_pow2 _ 8), !Z.shiftr_div_pow2 by (lia || done).
  f_equal; [|f_equal; [|f_equal]]; unfold v; Z.to_euclidean_division_equations; lia.
Qed.

Lemma b64_group2 t0 t1 : word 8 t0 -> word 8 t1 ->
  exists c, b64_group 4 (lb64encode [t0; t1]) [] 0 = Ret (c, 1, []) /\
    b64_bytes c 1 = Ret [t0; t1].
Proof.
  intros H0 H1. cbn [lb64encode]. rewrite (Z.lor_comm (Z.shiftl t0 8)), lor_shiftl_add by (unfold word in *; lia).
  set (v := t1 + t0 * 2 ^ 8).
  assert (word 16 v) as Hv by (unfold word, v in *; lia).
  rewrite (land_pow2 _ 6), (land_pow2 _ 4), !Z.shiftr_div_pow2, !Z.shiftl_mul_pow2 by (lia || done).
  assert (word 6 (v / 2 ^ 10) /\ word 6 (v / 2 ^ 4 mod 2 ^ 6) /\ word 6 (v mod 2 ^ 4 * 2 ^ 2))
    as (? & ? & ?).
  { unfold word in *. repeat split; Z.to_euclidean_division_equations; lia. }
  rewrite !b64_group_enc by done. eexists. split; [done|].
  cbn [app b64_bytes Z.eqb Pos.eqb negb orb].
  rewrite (land_pow2 _ 2), Z.mod_mul by (lia || done). cbn [Z.eqb negb]. cbn zeta. f_equal.
  rewrite !Z.shiftl_mul_pow2, !Z.shiftr_div_pow2, Z.div_mul by lia.
  rewrite Z.lor_comm, (Z.lor_comm (_ * 2 ^ 10)).
  rewrite (lor_mul_add 10); unfold word; [|unfold word in *; Z.to_euclidean_division_equations; lia..].
  replace (v / 2 ^ 4 mod 2 ^ 6 * 2 ^ 4 + v / 2 ^ 10 * 2 ^ 10) with (v / 2 ^ 4 * 2 ^ 4)
    by (unfold word in *; Z.to_euclidean_division_equations; lia).
  rewrite (lor_mul_add 4); unfold word; [|unfold word in *; Z.to_euclidean_division_equations; lia..].
  replace (v mod 2 ^ 4 + v / 2 ^ 4 * 2 ^ 4) with v by (Z.to_euclidean_division_equations; lia).
  unfold word, u8 in *. rewrite (land_pow2 _ 8) by (lia || done).
  f_equal; [|f_equal]; unfold v; Z.to_euclidean_division_equations; lia.
Qed.

Lemma b64_group1 t0 : word 8 t0 ->
  exists c, b64_group 4 (lb64encode [t0]) [] 0 = Ret (c, 2, []) /\ b64_bytes c 2 = Ret [t0].
Proof.
  intros H0. cbn [lb64encode].
  rewrite (land_pow2 _ 2), !Z.shiftr_div_pow2, !Z.shiftl_mul_pow2 by (lia || done).
  assert (word 6 (t0 / 2 ^ 2) /\ word 6 (t0 mod 2 ^ 2 * 2 ^ 4)) as (? & ?).
  { unfold word in *. repeat split; Z.to_euclidean_division_equations; lia. }
  rewrite !b64_group_enc by done. eexists. split; [done|].
  cbn [app b64_bytes Z.eqb Pos.eqb negb orb].
  rewrite (land_pow2 _ 4), Z.mod_mul by (lia || done). cbn [Z.eqb negb]. do 2 f_equal.
  rewrite Z.shiftl_mul_pow2, Z.shiftr_div_pow2, Z.div_mul, Z.lor_comm by lia.
  rewrite (lor_mul_add 2); unfold word; [|unfold word in *; Z.to_euclidean_division_equations; lia..].
  unfold u8, word in *. Z.to_euclidean_division_equations; lia.
Qed.

(** Induction by groups of three. *)
Lemma list_ind3 {A} (Q : list A -> Prop) :
  Q [] -> (forall a, Q [a]) -> (forall a b, Q [a; b]) ->
  (forall a b c l, Q l -> Q (a :: b :: c :: l)) -> forall l, Q l.
Proof.
  intros H0 H1 H2 H3. fix IH 1. intros [|a [|b [|c l]]]; [done|apply H1|apply H2|apply H3, IH].
Qed.

Lemma b64_roundtrip_loop text fuel : is_bytes text ->
  (length (lb64encode text) <= fuel)%nat -> b64_decode_loop fuel (lb64encode text) = Ret text.
Proof.
  revert fuel. induction text as [|t0|t0 t1|t0 t1 t2 text IH] using list_ind3; intros fuel Hb Hf;
    unfold is_bytes in Hb; rewrite ?Forall_cons in Hb.
  - by destruct fuel.
  - destruct fuel as [|fuel]; [cbn in Hf; lia|].
    destruct (b64_group1 t0) as (c & Ec & Eb); [tauto|].
    rewrite (b64_decode_step fuel _ c 2 []), Eb by done. by destruct fuel.
  - destruct fuel as [|fuel]; [cbn in Hf; lia|].
    destruct (b64_group2 t0 t1) as (c & Ec & Eb); [tauto..|].
    rewrite (b64_decode_step fuel _ c 1 []), Eb by done. by destruct fuel.
  - cbn [lb64encode length] in Hf. destruct fuel as [|fuel]; [lia|].
    destruct (b64_group3 t0 t1 t2 text) as (c & Ec & Eb); [tauto..|].
    rewrite (b64_decode_step fuel _ c 0 (lb64encode text)), Eb by done.
    cbn [mbind outcome_bind]. rewrite IH by (tauto || lia). done.
Qed.

(** C39. [base64decode(base64encode(text))] is [text]. *)
Theorem base64_roundtrip (text : bytes) (Htext : is_bytes text) :
  lb64decode (lb64encode text) = Ret text.
Proof. by apply b64_roundtrip_loop. Qed.

Lemma base64_roundtrip_witness :
  is_bytes (str "any carnal pleas") /\
  lb64decode (lb64encode (str "any carnal pleas")) = Ret (str "any carnal pleas").
Proof.
  assert (is_bytes (str "any carnal pleas")) as Hb by (apply all_words_ok; vm_compute; reflexivity).
  split; [exact Hb|]. exact (base64_roundtrip _ Hb).
Defined.

(** ** xor_str *)

Lemma xor_loop_involutive s1 s2 i : xor_loop (xor_loop s1 s2 i) s2 i = s1.
Proof.
  revert i. induction s1 as [|c s1 IH]; intros i; cbn [xor_loop]; [done|].
  by rewrite IH, Z.lxor_assoc, Z.lxor_nilpotent, Z.lxor_0_r.
Qed.

(** [xor_str] with a non-empty key undoes itself, and an empty key is an
    error. *)
Theorem xor_str_involutive (s1 s2 : bytes) :
  match lxor_str s1 s2 with
  | Ret code => s2 <> [] /\ length code = length s1 /\ lxor_str code s2 = Ret s1
  | r => s2 = [] /\ r = LuaError "Can't xor empty string"
  end.
Proof.
  unfold lxor_str. destruct s2 as [|c s2]; [done|]. cbn [length Nat.eqb].
  split; [done|]. split; [|by rewrite xor_loop_involutive].
  generalize 0%nat. induction s1 as [|x s1 IH]; intros i; cbn [xor_loop length]; [done|]. by rewrite IH.
Qed.

(** ** Little-endian words *)

Lemma get_le32_word4 b0 b1 b2 b3 pre post (i : nat) :
  word 8 b0 -> word 8 b1 -> word 8 b2 -> word 8 b3 -> length pre = i ->
  get_le32 (pre ++ b0 :: b1 :: b2 :: b3 :: post) i = word4 b0 b1 b2 b3.
Proof.
  intros ? ? ? ? <-. unfold get_le32.
  rewrite !app_nth2_plus, (app_nth2 pre), Nat.sub_diag by lia. cbn [nth].
  by rewrite !shl32_byte, lor_word4 by (done || lia).
Qed.

Lemma le32_u8 n : le32 n = [u8 n; u8 (Z.shiftr n 8); u8 (Z.shiftr n 16); u8 (Z.shiftr n 24)].
Proof. unfold le32, u8. by rewrite !(land_pow2 _ 8) by (lia || done). Qed.

Lemma get_le32_le32 n pre post (i : nat) : word 32 n -> length pre = i ->
  get_le32 (pre ++ le32 n ++ post) i = n.
Proof.
  intros Hn Hi. rewrite le32_u8. cbn [app].
  rewrite get_le32_word4 by (apply u8_word || done). by apply word4_u8.
Qed.

(** The 64-bit number of eight little-endian bytes. *)
Definition le64_value (x : bytes) : Z := join64 (read_pair x).

Lemma read_pair_words b : is_bytes b -> length b = 8%nat ->
  word 32 (read_pair b).1 /\ word 32 (read_pair b).2.
Proof.
  intros Hb Hl.
  destruct (bytes8 b Hb Hl) as (b0 & b1 & b2 & b3 & b4 & b5 & b6 & b7 & -> & ? & ? & ? & ? & ? & ? & ? & ?).
  unfold read_pair. cbn [fst snd].
  assert (get_le32 [b0; b1; b2; b3; b4; b5; b6; b7] 0 = word4 b0 b1 b2 b3) as ->
    by by apply (get_le32_word4 b0 b1 b2 b3 []).
  assert (get_le32 [b0; b1; b2; b3; b4; b5; b6; b7] 4 = word4 b4 b5 b6 b7) as ->
    by by apply (get_le32_word4 b4 b5 b6 b7 [b0; b1; b2; b3]).
  split; by apply word4_word.
Qed.

Lemma join64_add lo hi : word 32 lo -> word 32 hi -> join64 (lo, hi) = lo + hi * 2 ^ 32.
Proof.
  intros Hlo Hhi. unfold join64. cbn [fst snd]. unfold u64. rewrite Z.mod_small.
  - rewrite lor_shiftl_add; [done|lia|done|apply Hhi].
  - rewrite Z.shiftl_mul_pow2 by lia. unfold word in *. lia.
Qed.

Lemma le64_value_range b : is_bytes b -> length b = 8%nat -> 0 <= le64_value b < 2 ^ 64.
Proof.
  intros Hb Hl. destruct (read_pair_words b Hb Hl) as [H1 H2].
  unfold le64_value. rewrite (surjective_pairing (read_pair b)), join64_add by done.
  unfold word in *. lia.
Qed.

(** [push64] writes what [read64] reads. *)
Lemma push64_value r : 0 <= r < 2 ^ 64 ->
  length (push64 r) = 8%nat /\ is_bytes (push64 r) /\ le64_value (push64 r) = r.
Proof.
  intros Hr. split; [done|].
  assert (push64 r = le32 (r mod 2 ^ 32) ++ le32 (r / 2 ^ 32)) as ->.
  { assert (push64 r = (fun i => u8 (Z.shiftr r (8 * i))) <$> seqZ 0 8) as ->.
    { unfold push64, u8. apply list_fmap_ext. intros i x _. apply land_pow2; [lia|done]. }
    rewrite !le32_u8. cbn [seqZ fmap list_fmap seq Z.of_nat app].
    change (seqZ 0 8) with [0; 1; 2; 3; 4; 5; 6; 7]. cbn [fmap list_fmap].
    unfold u8. rewrite !Z.shiftr_div_pow2 by lia.
    cbn -[Z.pow Z.div Z.modulo].
    repeat (apply (f_equal2 (@cons Z)); [Z.to_euclidean_division_equations; lia|]). done. }
  assert (word 32 (r mod 2 ^ 32) /\ word 32 (r / 2 ^ 32)) as [Hlo Hhi].
  { unfold word. split; Z.to_euclidean_division_equations; lia. }
  split.
  - rewrite !le32_u8. repeat constructor; apply u8_range.
  - unfold le64_value, read_pair.
    assert (get_le32 (le32 (r mod 2 ^ 32) ++ le32 (r / 2 ^ 32)) 0 = r mod 2 ^ 32) as ->
      by by apply (get_le32_le32 (r mod 2 ^ 32) [] (le32 (r / 2 ^ 32)) 0).
    assert (get_le32 (le32 (r mod 2 ^ 32) ++ le32 (r / 2 ^ 32)) 4 = r / 2 ^ 32) as ->.
    { rewrite <- (app_nil_r (le32 (r / 2 ^ 32))).
      by apply (get_le32_le32 (r / 2 ^ 32) (le32 (r mod 2 ^ 32)) [] 4). }
    rewrite join64_add by done. Z.to_euclidean_division_equations; lia.
Qed.

(** ** Arithmetic modulo the prime *)

Lemma P_range : 2 ^ 63 < P < 2 ^ 64.
Proof. done. Qed.

#[local] Opaque P.

Lemma mul_mod_loop_spec fuel a b m :
  0 <= a < P -> 0 <= m < P -> 0 <= b < 2 ^ Z.of_nat fuel ->
  mul_mod_loop fuel a b m = Ret ((m + a * b) mod P).
Proof.
  revert a b m. induction fuel as [|fuel IH]; intros a b m Ha Hm Hb.
  { replace b with 0 by lia. cbn. rewrite Z.mul_0_r, Z.add_0_r, Z.mod_small; done. }
  cbn [mul_mod_loop]. destruct (Z.eqb_spec b 0) as [->|Hb0].
  { by rewrite Z.mul_0_r, Z.add_0_r, Z.mod_small. }
  rewrite (land_pow2 b 1), Z.shiftr_div_pow2 by (lia || done).
  change (2 ^ 1) with 2. cbn zeta.
  unfold u64. rewrite (Z.mod_small (P - a)) by (pose proof P_range; lia).
  rewrite Nat2Z.inj_succ, Z.pow_succ_r in Hb by lia.
  set (m' := if negb (b mod 2 =? 0) then _ else _).
  set (a' := if _ <=? a then _ else _).
  assert (0 <= m' < P /\ exists q, m' = m + a * (b mod 2) - q * P) as [Hm' [qm Em]].
  { unfold m'. pose proof (Z.mod_pos_bound b 2). destruct (Z.eqb_spec (b mod 2) 0) as [->|]; cbn [negb].
    - split; [done|]. exists 0. lia.
    - replace (b mod 2) with 1 by lia. destruct (Z.leb_spec (P - a) m).
      + rewrite Z.mod_small by (pose proof P_range; lia). split; [lia|]. exists 1. lia.
      + rewrite Z.mod_small by (pose proof P_range; lia). split; [lia|]. exists 0. lia. }
  assert (0 <= a' < P /\ exists q, a' = 2 * a - q * P) as [Ha' [qa Ea]].
  { unfold a'. destruct (Z.leb_spec (P - a) a).
    - rewrite Zminus_mod_idemp_l, Z.mod_small by (pose proof P_range; lia). split; [lia|]. exists 1. lia.
    - rewrite Z.mod_small by (pose proof P_range; lia). split; [lia|]. exists 0. lia. }
  rewrite IH; [|done|done|Z.to_euclidean_division_equations; lia].
  f_equal. rewrite Em, Ea.
  replace (m + a * (b mod 2) - qm * P + (2 * a - qa * P) * (b / 2))
    with (m + a * (2 * (b / 2) + b mod 2) + (- qm - qa * (b / 2)) * P) by ring.
  rewrite <- (Z.div_mod b 2) by lia. apply Z.mod_add. pose proof P_range; lia.
Qed.

Lemma mul_mod_p_spec a b : 0 <= a < P -> 0 <= b < 2 ^ 64 -> mul_mod_p a b = Ret (a * b mod P).
Proof. intros. unfold mul_mod_p. by rewrite mul_mod_loop_spec. Qed.

#[local] Opaque mul_mod_p.
Lemma pow_mod_loop_spec fuel a b :
  0 <= a < P -> 1 <= b < 2 ^ (Z.of_nat fuel + 1) ->
  pow_mod_loop fuel a b = Ret (a ^ b mod P).
Proof.
  intros Ha. revert b. induction fuel as [|fuel IH]; intros b Hb; cbn [pow_mod_loop].
  { change (2 ^ (Z.of_nat 0 + 1)) with 2 in Hb. replace b with 1 by lia.
    rewrite Z.pow_1_r, Z.mod_small by done. done. }
  destruct (Z.eqb_spec b 1) as [->|Hb1].
  { by rewrite Z.pow_1_r, Z.mod_small. }
  rewrite Z.shiftr_div_pow2 by lia. change (2 ^ 1) with 2.
  rewrite Nat2Z.inj_succ, Z.add_succ_l, Z.pow_succ_r in Hb by lia.
  rewrite IH by (Z.to_euclidean_division_equations; lia). rewrite bind_Ret.
  set (t := a ^ (b / 2) mod P).
  assert (0 <= t < P) as Ht by (apply Z.mod_pos_bound; pose proof P_range; lia).
  rewrite mul_mod_p_spec by (pose proof P_range; lia). rewrite bind_Ret.
  assert (t * t mod P = a ^ (2 * (b / 2)) mod P) as ->.
  { unfold t. rewrite <- Zmult_mod, <- Z.pow_add_r by (Z.to_euclidean_division_equations; lia).
    do 2 f_equal. lia. }
  pose proof (Z.div_mod b 2 ltac:(lia)) as Hd. pose proof (Z.mod_pos_bound b 2 ltac:(lia)).
  destruct (Z.eqb_spec (b mod 2) 0) as [E|E].
  - do 3 f_equal. lia.
  - rewrite mul_mod_p_spec.
    + rewrite Zmult_mod_idemp_l. do 2 f_equal. rewrite Hd at 2.
      rewrite Z.pow_add_r by (Z.to_euclidean_division_equations; lia).
      replace (b mod 2) with 1 by lia. by rewrite Z.pow_1_r.
    + apply Z.mod_pos_bound. pose proof P_range; lia.
    + pose proof P_range; lia.
Qed.

(** [powmodp] is modular exponentiation, but for [a = P] (see C14). *)
Lemma powmodp_spec a b : 0 <= a < 2 ^ 64 -> a <> P -> 1 <= b < 2 ^ 64 ->
  powmodp a b = Ret (a ^ b mod P).
Proof.
  intros Ha Hne Hb. unfold powmodp, pow_mod_p. destruct (Z.ltb_spec P a).
  - pose proof P_range. rewrite pow_mod_loop_spec by (apply Z.mod_pos_bound || split; lia).
    by rewrite Z.mod_pow_l.
  - apply pow_mod_loop_spec; lia.
Qed.

#[local] Transparent P.

(** A power of the generator is not 0 modulo [P]. *)
Lemma pow_G_nonzero n : 0 <= n -> G ^ n mod P <> 0.
Proof.
  intros Hn H0.
  assert (Z.gcd (G ^ n) P = 1) as Hrel by (apply Z.coprime_pow_l; [done|reflexivity]).
  apply Z.mod_divide in H0; [|done].
  assert (Z.divide P 1) as Hd by (rewrite <- Hrel; apply Z.gcd_greatest; [done|apply Z.divide_refl]).
  apply Z.divide_1_r in Hd. destruct Hd; discriminate.
Qed.

Lemma ldhexchange_spec x : is_bytes x -> length x = 8%nat -> le64_value x <> 0 ->
  ldhexchange x = Ret (push64 (G ^ le64_value x mod P)).
Proof.
  intros Hb Hl H0. unfold ldhexchange. rewrite Hl. cbn [Nat.eqb negb]. cbn zeta.
  fold (le64_value x). destruct (Z.eqb_spec (le64_value x) 0); [done|].
  pose proof (le64_value_range x Hb Hl).
  rewrite powmodp_spec by (done || lia). done.
Qed.

Lemma ldhsecret_spec x y : is_bytes x -> length x = 8%nat -> is_bytes y -> length y = 8%nat ->
  le64_value x <> 0 -> le64_value y <> 0 -> le64_value x <> P ->
  ldhsecret x y = Ret (push64 (le64_value x ^ le64_value y mod P)).
Proof.
  intros Hx Hlx Hy Hly Hx0 Hy0 HxP. unfold ldhsecret, read64. rewrite Hlx, Hly.
  cbn [Nat.eqb negb mbind outcome_bind]. cbn zeta. fold (le64_value x) (le64_value y).
  destruct (Z.eqb_spec (le64_value x) 0), (Z.eqb_spec (le64_value y) 0); try done. cbn [orb].
  pose proof (le64_value_range x Hx Hlx). pose proof (le64_value_range y Hy Hly).
  rewrite powmodp_spec by (done || lia). done.
Qed.

(** The Diffie-Hellman exchange agrees: from private keys [x] and [y]
    (8 bytes, not zero), each side computes [dhsecret] of the other's public
    [dhexchange] value and its own key, and both get the 8 bytes of
    5^(x*y) mod P. *)
Theorem dh_agreement (x y : bytes)
    (Hx : is_bytes x) (Hlx : length x = 8%nat) (Hx0 : le64_value x <> 0)
    (Hy : is_bytes y) (Hly : length y = 8%nat) (Hy0 : le64_value y <> 0) :
  exists X Y, ldhexchange x = Ret X /\ ldhexchange y = Ret Y /\
    ldhsecret X y = Ret (push64 (G ^ (le64_value x * le64_value y) mod P)) /\
    ldhsecret Y x = Ret (push64 (G ^ (le64_value x * le64_value y) mod P)).
Proof.
  assert (forall x y, is_bytes x -> length x = 8%nat -> is_bytes y -> length y = 8%nat ->
    le64_value y <> 0 -> le64_value x <> 0 ->
    ldhsecret (push64 (G ^ le64_value x mod P)) y =
      Ret (push64 (G ^ (le64_value x * le64_value y) mod P))) as Hs.
  { clear. intros x y Hx Hlx Hy Hly Hy0 Hx0.
    pose proof (le64_value_range x Hx Hlx). pose proof (le64_value_range y Hy Hly).
    pose proof (Z.mod_pos_bound (G ^ le64_value x) P ltac:(done)) as Hr. pose proof P_range.
    destruct (push64_value (G ^ le64_value x mod P)) as (Hl & Hb & Hv); [lia|].
    pose proof (pow_G_nonzero (le64_value x) ltac:(lia)).
    rewrite ldhsecret_spec by (rewrite ?Hv; done || lia). rewrite Hv.
    rewrite Z.mod_pow_l. by rewrite Z.pow_mul_r by lia. }
  exists (push64 (G ^ le64_value x mod P)), (push64 (G ^ le64_value y mod P)).
  rewrite !ldhexchange_spec by done. repeat split; [by apply Hs|].
  rewrite Z.mul_comm. by apply Hs.
Qed.

Definition dh_key_a : bytes := str "8bytes_a".
Definition dh_key_b : bytes := str "8bytes_b".

Lemma dh_agreement_witness :
  (is_bytes dh_key_a /\ length dh_key_a = 8%nat /\ le64_value dh_key_a <> 0 /\
   is_bytes dh_key_b /\ length dh_key_b = 8%nat /\ le64_value dh_key_b <> 0) /\
  (exists X Y, ldhexchange dh_key_a = Ret X /\ ldhexchange dh_key_b = Ret Y /\
    ldhsecret X dh_key_b = Ret (push64 (G ^ (le64_value dh_key_a * le64_value dh_key_b) mod P)) /\
    ldhsecret Y dh_key_a = Ret (push64 (G ^ (le64_value dh_key_a * le64_value dh_key_b) mod P))).
Proof.
  assert (is_bytes dh_key_a) as Ha by (apply all_words_ok; vm_compute; reflexivity).
  assert (is_bytes dh_key_b) as Hb by (apply all_words_ok; vm_compute; reflexivity).
  assert (le64_value dh_key_a <> 0) as Ha0 by (vm_compute; discriminate).
  assert (le64_value dh_key_b <> 0) as Hb0 by (vm_compute; discriminate).
  split; [split; [exact Ha|split; [reflexivity|split; [exact Ha0|split; [exact Hb|split; [reflexivity|exact Hb0]]]]]|].
  exact (dh_agreement dh_key_a dh_key_b Ha eq_refl Ha0 Hb eq_refl Hb0).
Defined.

(** C34. The exception: [powmodp] reduces only [a > P], so the representative
    [P] of 0 raised to 1 is [P], not 0. Any other input is exact. *)
Theorem powmodp_exact (a b : Z) (Ha : 0 <= a < 2 ^ 64) (Hb : 1 <= b < 2 ^ 64) :
  powmodp a b = Ret (if (a =? P) && (b =? 1) then P else a ^ b mod P).
Proof.
  destruct (Z.eqb_spec a P) as [->|]; cbn [andb]; [|by apply powmodp_spec].
  unfold powmodp. rewrite Z.ltb_irrefl. unfold pow_mod_p.
  assert (forall fuel b, 1 <= b < 2 ^ (Z.of_nat fuel + 1) ->
    pow_mod_loop fuel P b = Ret (if b =? 1 then P else 0)) as Hp.
  { clear. induction fuel as [|fuel IH]; intros b Hb; cbn [pow_mod_loop].
    { change (2 ^ (Z.of_nat 0 + 1)) with 2 in Hb. by replace b with 1 by lia. }
    destruct (Z.eqb_spec b 1) as [->|]; [done|].
    rewrite Z.shiftr_div_pow2 by lia. change (2 ^ 1) with 2.
    rewrite Nat2Z.inj_succ, Z.add_succ_l, Z.pow_succ_r in Hb by lia.
    rewrite IH by (Z.to_euclidean_division_equations; lia). rewrite bind_Ret.
    destruct (b / 2 =? 1); [|]; (destruct (b mod 2 =? 0); vm_compute; reflexivity). }
  rewrite Hp by (split; [lia|]; cbn; lia). destruct (Z.eqb_spec b 1); [done|].
  f_equal. by rewrite <- Z.mod_pow_l, Z_mod_same_full, Z.pow_0_l by lia.
Qed.

Lemma powmodp_exact_witness :
  (0 <= P < 2 ^ 64 /\ 1 <= 1 < 2 ^ 64) /\
  powmodp P 1 = Ret (if (P =? P) && (1 =? 1) then P else P ^ 1 mod P).
Proof.
  assert (0 <= P < 2 ^ 64) as Ha by (split; vm_compute; congruence).
  assert (1 <= 1 < 2 ^ 64) as Hb by (split; vm_compute; congruence).
  split; [split; [exact Ha|exact Hb]|]. exact (powmodp_exact P 1 Ha Hb).
Defined.

(** ** Words of pairs *)

Lemma le32_lxor a b : le32 (Z.lxor a b) =
  zip_with Z.lxor (le32 a) (le32 b).
Proof.
  unfold le32. cbn [zip_with]. rewrite !Z.shiftr_lxor.
  repeat (apply (f_equal2 (@cons Z)); [|]); [..|done];
    apply Z.bits_inj'; intros i _; rewrite ?Z.land_spec, ?Z.lxor_spec, ?Z.land_spec;
    by destruct (Z.testbit 255 i); rewrite ?andb_true_r, ?andb_false_r.
Qed.
