(* ===== verification/Md5.v ===== *)
(** MD5 as RFC 1321 defines it, for messages of any length, and the functions of [lua-crypt.c]
    that use it. *)
From S2P Require Import Prelude Des Crypt.

(** ** RFC 1321 *)

(** 3.4: the auxiliary functions, on words of 32 bits. *)
Definition neg (x : Z) : Z := 2 ^ 32 - 1 - x.
Definition F (x y z : Z) : Z := Z.lor (Z.land x y) (Z.land (neg x) z).
Definition G (x y z : Z) : Z := Z.lor (Z.land x z) (Z.land y (neg z)).
Definition H (x y z : Z) : Z := Z.lxor (Z.lxor x y) z.
Definition I (x y z : Z) : Z := Z.lxor y (Z.lor x (neg z)).

(** [x <<< s] *)
Definition rotate (x s : Z) : Z := (x * 2 ^ s) mod 2 ^ 32 + x / 2 ^ (32 - s).

(** The series of the sine, scaled by [2 ^ 160]: the sum of the terms from the [k]th on. *)
Fixpoint sine_terms (n : nat) (k i term : Z) : Z :=
  match n with
  | O => 0
  | S n => term - sine_terms n (k + 1) i (term * (i * i) / ((2 * k + 2) * (2 * k + 3)))
  end.

(** [T[i]] is the integer part of [4294967296 * abs(sin(i))]; 120 terms of the series are enough
    for every [i] up to 64 (the next one is below [2 ^ -90]). *)
Definition T (i : Z) : Z := Z.abs (sine_terms 120 0 i (i * 2 ^ 160)) / 2 ^ 128.

Record registers := Registers { A : Z; B : Z; C : Z; D : Z }.

(** [abcd k s i] is the operation [a = b + ((a + f(b,c,d) + X[k] + T[i]) <<< s)] on the registers
    in the order that is named. *)
Inductive order := ABCD | DABC | CDAB | BCDA.

Definition operate (f : Z -> Z -> Z -> Z) (X : list Z) (R : registers) (o : order) (k : nat) (s i : Z) : registers :=
  let new a b c d := (b + rotate ((a + f b c d + nth k X 0 + T i) mod 2 ^ 32) s) mod 2 ^ 32 in
  match o with
  | ABCD => Registers (new (A R) (B R) (C R) (D R)) (B R) (C R) (D R)
  | DABC => Registers (A R) (B R) (C R) (new (D R) (A R) (B R) (C R))
  | CDAB => Registers (A R) (B R) (new (C R) (D R) (A R) (B R)) (D R)
  | BCDA => Registers (A R) (new (B R) (C R) (D R) (A R)) (C R) (D R)
  end.

(** The tables of the four rounds. *)
Definition operations (f : Z -> Z -> Z -> Z) (ks : list nat) (shifts : list Z) (first : Z) : list ((Z -> Z -> Z -> Z) * order * nat * Z * Z) :=
  zip (zip (zip (zip (replicate 16 f) (mjoin (replicate 4 [ABCD; DABC; CDAB; BCDA]))) ks) (mjoin (replicate 4 shifts))) (seqZ first 16).

Definition table : list ((Z -> Z -> Z -> Z) * order * nat * Z * Z) :=
  operations F [0; 1; 2; 3; 4; 5; 6; 7; 8; 9; 10; 11; 12; 13; 14; 15]%nat [7; 12; 17; 22] 1 ++
  operations G [1; 6; 11; 0; 5; 10; 15; 4; 9; 14; 3; 8; 13; 2; 7; 12]%nat [5; 9; 14; 20] 17 ++
  operations H [5; 8; 11; 14; 1; 4; 7; 10; 13; 0; 3; 6; 9; 12; 15; 2]%nat [4; 11; 16; 23] 33 ++
  operations I [0; 7; 14; 5; 12; 3; 10; 1; 8; 15; 6; 13; 4; 11; 2; 9]%nat [6; 10; 15; 21] 49.

Definition run (X : list Z) (R : registers) (l : list ((Z -> Z -> Z -> Z) * order * nat * Z * Z)) : registers :=
  foldl (fun R '(f, o, k, s, i) => operate f X R o k s i) R l.

(** A block of 16 words. *)
Definition block (R : registers) (X : list Z) : registers :=
  let R' := run X R table in
  Registers ((A R + A R') mod 2 ^ 32) ((B R + B R') mod 2 ^ 32) ((C R + C R') mod 2 ^ 32) ((D R + D R') mod 2 ^ 32).

(** 3.3: the low-order byte of [A] is 01, and so on. *)
Definition initial : registers := Registers 0x67452301 0xefcdab89 0x98badcfe 0x10325476.

(** The low-order byte first. *)
Definition word_bytes (x : Z) : bytes := [x mod 256; x / 2 ^ 8 mod 256; x / 2 ^ 16 mod 256; x / 2 ^ 24 mod 256].
Definition bytes_word (b : bytes) (i : nat) : Z :=
  nth i b 0 + 2 ^ 8 * nth (i + 1) b 0 + 2 ^ 16 * nth (i + 2) b 0 + 2 ^ 24 * nth (i + 3) b 0.

(** 3.1 and 3.2: a bit 1, bits 0 up to 448 modulo 512, and the count of bits in 64 bits. *)
Definition padded (m : bytes) : bytes :=
  let len := Z.of_nat (length m) in
  m ++ [128] ++ replicate (Z.to_nat ((55 - len) mod 64)) 0 ++ word_bytes (8 * len) ++ word_bytes (8 * len / 2 ^ 32).

Definition block_words (b : bytes) (n : nat) : list Z := (fun j => bytes_word b (64 * n + 4 * j)) <$> seq 0 16.

Definition md5 (m : bytes) : bytes :=
  let b := padded m in
  let R := foldl block initial (block_words b <$> seq 0 (length b / 64)) in
  word_bytes (A R) ++ word_bytes (B R) ++ word_bytes (C R) ++ word_bytes (D R).

(** The test suite of the RFC. *)
Example md5_empty : ltohex (md5 []) = str "d41d8cd98f00b204e9800998ecf8427e".
Proof. vm_compute. reflexivity. Qed.
Example md5_abc : ltohex (md5 (str "abc")) = str "900150983cd24fb0d6963f7d28e17f72".
Proof. vm_compute. reflexivity. Qed.
Example md5_two_blocks : ltohex (md5 (str "12345678901234567890123456789012345678901234567890123456789012345678901234567890"))
  = str "57edf4a22be3c955ac49da2e2107b67a".
Proof. vm_compute. reflexivity. Qed.

(** ** [digest_md5] is the compression of a block *)

Definition next (o : order) : order := match o with ABCD => DABC | DABC => CDAB | CDAB => BCDA | BCDA => ABCD end.

(** The variables of [digest_md5] when the next operation has the order [o]: they are shifted
    after every step, where the RFC renames the registers. *)
Definition view (o : order) (R : registers) : md5_state :=
  match o with
  | ABCD => MD5State (A R) (B R) (C R) (D R)
  | DABC => MD5State (D R) (A R) (B R) (C R)
  | CDAB => MD5State (C R) (D R) (A R) (B R)
  | BCDA => MD5State (B R) (C R) (D R) (A R)
  end.

(** The step [i] of the loop does this operation. *)
Definition does (i : Z) (f : Z -> Z -> Z -> Z) (k : nat) (s j : Z) : Prop := forall w a b c d,
  md5_round w (MD5State a b c d) i = MD5State d ((b + rotate ((a + f b c d + nth k w 0 + T j) mod 2 ^ 32) s) mod 2 ^ 32) b c.

Fixpoint agrees (o : order) (js : list Z) (l : list ((Z -> Z -> Z -> Z) * order * nat * Z * Z)) : Prop :=
  match js, l with
  | i :: js, (f, o', k, s, j) :: l => o' = o /\ does i f k s j /\ agrees (next o) js l
  | [], [] => o = ABCD
  | _, _ => False
  end.

(** The bits that [<<] drops are the ones [>>] brings back. *)
Lemma LEFTROTATE_rotate x s : word 32 x -> 0 < s < 32 -> LEFTROTATE x s = rotate x s.
Proof.
  unfold word. intros Hx Hs. unfold LEFTROTATE, rotate, shl32, u32.
  rewrite Z.shiftl_mul_pow2, Z.shiftr_div_pow2 by lia.
  assert ((x * 2 ^ s) mod 2 ^ 32 = (x mod 2 ^ (32 - s)) * 2 ^ s) as ->.
  { rewrite <- Z.mul_mod_distr_r by lia. by rewrite <- Z.pow_add_r, Z.sub_add by lia. }
  assert (0 <= x / 2 ^ (32 - s) < 2 ^ s).
  { split; [apply Z.div_pos; lia|]. apply Z.div_lt_upper_bound; [lia|]. rewrite <- Z.pow_add_r, Z.sub_add by lia. lia. }
  assert (0 <= x mod 2 ^ (32 - s)) by (apply Z.mod_pos_bound; lia).
  rewrite Z.lor_comm, lor_mul_add by (unfold word; lia). apply Z.add_comm.
Qed.

(** The constants [k] of the code are the table of the sine. *)
Lemma T_table : T <$> seqZ 1 64 = Crypt.k.
Proof. vm_compute. reflexivity. Qed.

Lemma T_k i : 0 <= i < 64 -> T (i + 1) = tbl Crypt.k i.
Proof.
  intros Hi. unfold tbl. rewrite <- T_table.
  rewrite <- (Z2Nat.id i) at 1 by lia. set (n := Z.to_nat i). assert (n < 64)%nat by lia. clearbody n.
  rewrite nth_lookup, list_lookup_fmap, lookup_seqZ_lt by lia. cbn. f_equal. lia.
Qed.

(** A step of the code: its function and its tables are those of the RFC. *)
Lemma does_step i f k s : 0 <= i < 64 -> 0 < s < 32 ->
  (forall w a b c d, md5_round w (MD5State a b c d) i =
     MD5State d (u32 (b + LEFTROTATE (u32 (a + f b c d + tbl Crypt.k i + nth k w 0)) s)) b c) ->
  does i f k s (i + 1).
Proof.
  intros Hb Hs Hi w a b c d. rewrite Hi, T_k, LEFTROTATE_rotate by (done || apply u32_word).
  by rewrite <- Z.add_assoc, (Z.add_comm (tbl _ _)), Z.add_assoc.
Qed.

Lemma G_code b c d : G b c d = Z.lor (Z.land d b) (Z.land (not32 d) c).
Proof. unfold G. by rewrite (Z.land_comm b), (Z.land_comm c). Qed.

Ltac does_tac :=
  match goal with |- does ?i _ _ _ _ => apply (does_step i); [done|done|] end;
  intros; rewrite ?G_code; reflexivity.

Lemma agrees_run w l : forall js o R, agrees o js l -> foldl (md5_round w) (view o R) js = view ABCD (run w R l).
Proof.
  induction l as [|[[[[f o'] k] s] j] l IH]; intros [|i js] o R; cbn [agrees]; try done.
  - by intros ->.
  - intros (-> & Hd & Ha). cbn [foldl run]. unfold run in IH. rewrite <- (IH js (next o)) by done. f_equal. destruct o; cbn [view next]; rewrite Hd; reflexivity.
Qed.

Lemma agrees_table : agrees ABCD (seqZ 0 64) table.
Proof.
  cbv -[does F G H I].
  repeat match goal with
  | |- _ /\ _ => split
  | |- does _ _ _ _ _ => does_tac
  | |- _ = _ => reflexivity
  end.
Qed.

(** The code's block is the block of the RFC, from the initial registers; the caller adds them. *)
Lemma digest_md5_block w :
  let '(MD5State a b c d) := digest_md5 w in
  block initial w = Registers (u32 (a + 0x67452301)) (u32 (b + 0xefcdab89)) (u32 (c + 0x98badcfe)) (u32 (d + 0x10325476)).
Proof.
  unfold digest_md5. change md5_init with (view ABCD initial). rewrite (agrees_run w table) by apply agrees_table.
  unfold block. destruct (run w initial table) as [a b c d]. cbn [view A B C D initial]. unfold u32.
  by rewrite (Z.add_comm a), (Z.add_comm b), (Z.add_comm c), (Z.add_comm d).
Qed.

(** ** Words and bytes *)

Lemma le32_word_bytes x : le32 x = word_bytes x.
Proof. rewrite le32_u8. unfold word_bytes, u8. by rewrite !Z.shiftr_div_pow2. Qed.

Lemma get_le32_bytes_word b i : is_bytes b -> get_le32 b i = bytes_word b i.
Proof.
  intros Hb. assert (forall n, word 8 (nth n b 0)) as Hn.
  { intros n. rewrite nth_lookup. destruct (b !! n) as [x|] eqn:Hx; [exact (proj1 (Forall_lookup _ b) Hb n x Hx)|]. unfold word. cbn. lia. }
  unfold get_le32, bytes_word. generalize (Hn i) (Hn (i + 1)%nat) (Hn (i + 2)%nat) (Hn (i + 3)%nat).
  intros. rewrite !shl32_byte, lor_word4 by (done || lia). unfold word4. lia.
Qed.

(** ** hmac64 *)

(** A message of 48 bytes is one block with its padding: its twelve words, then 0x80, no other
    bit, and its 384 bits. *)
Lemma padded_48 (x y : bytes) : is_bytes x -> length x = 8%nat -> is_bytes y -> length y = 8%nat ->
  let four := [(read_pair x).1; (read_pair x).2; (read_pair y).1; (read_pair y).2] in
  length (padded ((x ++ y) ++ (x ++ y) ++ (x ++ y))) = 64%nat /\
  block_words (padded ((x ++ y) ++ (x ++ y) ++ (x ++ y))) 0 = four ++ four ++ four ++ [0x80; 0; 384; 0].
Proof.
  intros Hx Hlx Hy Hly. unfold read_pair. rewrite !get_le32_bytes_word by done.
  destruct (bytes8 x Hx Hlx) as (x0 & x1 & x2 & x3 & x4 & x5 & x6 & x7 & -> & _).
  destruct (bytes8 y Hy Hly) as (y0 & y1 & y2 & y3 & y4 & y5 & y6 & y7 & -> & _). split; reflexivity.
Qed.

(** C35: what the comment above [lhmac64_md5] promises: with [m = md5(x..y..x..y..x..y)], the
    result is [m:sub(1,8)] xor [m:sub(9,16)]. Here [md5] is the MD5 of RFC 1321, written from the
    RFC for messages of any length with its own registers, rounds, padding and sine table, and
    shares nothing with [digest_md5]. *)
Theorem hmac64_md5_is_md5 (x y : bytes) (Hx : is_bytes x) (Hlx : length x = 8%nat)
    (Hy : is_bytes y) (Hly : length y = 8%nat) :
  let m := md5 ((x ++ y) ++ (x ++ y) ++ (x ++ y)) in
  lhmac64_md5 x y = Ret (zip_with Z.lxor (take 8 m) (drop 8 m)).
Proof.
  unfold lhmac64_md5, read64. rewrite Hlx, Hly. cbn [Nat.eqb negb]. rewrite bind_Ret.
  destruct (padded_48 x y Hx Hlx Hy Hly) as [Hl Hw]. unfold md5. rewrite Hl. cbn [Nat.div seq fmap list_fmap foldl Nat.divmod fst].
  rewrite Hw. unfold hmac_md5. set (words := _ ++ _ ++ _).
  generalize (digest_md5_block words). destruct (digest_md5 words) as [a b c d]. intros ->. cbn [A B C D].
  unfold pushqword. cbn [fst snd]. rewrite !le32_lxor, !le32_word_bytes. reflexivity.
Qed.

Lemma hmac64_md5_is_md5_witness :
  (is_bytes dh_key_a /\ length dh_key_a = 8%nat /\ is_bytes dh_key_b /\ length dh_key_b = 8%nat) /\
  let m := md5 ((dh_key_a ++ dh_key_b) ++ (dh_key_a ++ dh_key_b) ++ (dh_key_a ++ dh_key_b)) in
  lhmac64_md5 dh_key_a dh_key_b = Ret (zip_with Z.lxor (take 8 m) (drop 8 m)).
Proof.
  assert (is_bytes dh_key_a) as Ha by (apply all_words_ok; vm_compute; reflexivity).
  assert (is_bytes dh_key_b) as Hb by (apply all_words_ok; vm_compute; reflexivity).
  split; [split; [exact Ha|split; [reflexivity|split; [exact Hb|reflexivity]]]|].
  exact (hmac64_md5_is_md5 dh_key_a dh_key_b Ha eq_refl Hb eq_refl).
Defined.
