(* ===== verification/Sha1.v ===== *)
(** SHA-1 and HMAC-SHA1 of [lualib-src/lsha1.c], for a little-endian machine. *)
From S2P Require Import Prelude Des Crypt.

(** ** Context and block transform *)

Record SHA1_CTX := Sha1Ctx { sha_state : list Z; sha_count : Z * Z; sha_buffer : bytes }.

Definition SHA1_DIGEST_SIZE : Z := 20.

Definition rol (value bits : Z) : Z := Z.lor (shl32 value bits) (Z.shiftr value (32 - bits)).

(** The working variables in the order of the macros' arguments, and the
    union's sixteen words. *)
Record sha_vars := ShaVars { sv : Z; sw : Z; sx : Z; sy : Z; sz_ : Z; block_l : list Z }.

Definition blk0 (l : list Z) (i : nat) : Z * list Z :=
  let x := Z.lor (Z.land (rol (nth i l 0) 24) 0xFF00FF00) (Z.land (rol (nth i l 0) 8) 0x00FF00FF) in
  (x, <[i := x]> l).

Definition blk (l : list Z) (i : nat) : Z * list Z :=
  let at_ j := nth (j mod 16) l 0 in
  let x := rol (Z.lxor (Z.lxor (Z.lxor (at_ (i + 13)%nat) (at_ (i + 8)%nat)) (at_ (i + 2)%nat)) (at_ i)) 1 in
  (x, <[(i mod 16)%nat := x]> l).

(** [R0] .. [R4]: [z += f(w,x,y) + blk(i) + K + rol(v,5); w = rol(w,30);], the
    variables renamed for the next round, whose [v,w,x,y,z] are [z,v,w,x,y]. *)
Definition round_f (i : nat) (w x y : Z) : Z :=
  if (i <? 20)%nat then Z.lxor (Z.land w (Z.lxor x y)) y
  else if (i <? 40)%nat then Z.lxor (Z.lxor w x) y
  else if (i <? 60)%nat then Z.lor (Z.land (Z.lor w x) y) (Z.land w x)
  else Z.lxor (Z.lxor w x) y.

Definition round_k (i : nat) : Z :=
  if (i <? 20)%nat then 0x5A827999
  else if (i <? 40)%nat then 0x6ED9EBA1
  else if (i <? 60)%nat then 0x8F1BBCDC
  else 0xCA62C1D6.

Definition sha_round (s : sha_vars) (i : nat) : sha_vars :=
  let '(ShaVars v w x y z l) := s in
  let '(wi, l) := if (i <? 16)%nat then blk0 l i else blk l i in
  ShaVars (u32 (z + (round_f i w x y + wi + round_k i + rol v 5))) v (rol w 30) x y l.

Definition SHA1_Transform (state : list Z) (buffer : bytes) : list Z :=
  let block := (fun i => get_le32 buffer (4 * i)) <$> seq 0 16 in
  let '(ShaVars a b c d e _) :=
    foldl sha_round
      (ShaVars (nth 0 state 0) (nth 1 state 0) (nth 2 state 0) (nth 3 state 0) (nth 4 state 0) block)
      (seq 0 80) in
  [u32 (nth 0 state 0 + a); u32 (nth 1 state 0 + b); u32 (nth 2 state 0 + c);
   u32 (nth 3 state 0 + d); u32 (nth 4 state 0 + e)].

(** ** Streaming *)

Definition sha1_init_state : list Z :=
  [0x67452301; 0xEFCDAB89; 0x98BADCFE; 0x10325476; 0xC3D2E1F0].

(** The buffer of a context is not initialised. *)
Definition sat_SHA1_Init (context : SHA1_CTX) : SHA1_CTX :=
  Sha1Ctx sha1_init_state (0, 0) (sha_buffer context).

(** [memcpy(&buffer[j], data, n)] *)
Definition memcpy_at (buffer : bytes) (j : nat) (data : bytes) : bytes :=
  take j buffer ++ data ++ drop (j + length data) buffer.

(** [for ( ; i + 63 < len; i += 64)]: the state, and what is left. *)
Fixpoint transform_loop (fuel : nat) (state : list Z) (data : bytes) : list Z * bytes :=
  match fuel with
  | O => (state, data)
  | S fuel =>
      if (64 <=? length data)%nat then
        transform_loop fuel (SHA1_Transform state (take 64 data)) (drop 64 data)
      else (state, data)
  end.

(** The bit counter: [len << 3] is a [size_t], the counters are 32 bits. *)
Definition count_add (count : Z * Z) (len : Z) : Z * Z :=
  let bits := u64 (Z.shiftl len 3) in
  let c0 := u32 (count.1 + bits) in
  let c1 := if c0 <? bits then u32 (count.2 + 1) else count.2 in
  (c0, u32 (c1 + Z.shiftr len 29)).

Definition sat_SHA1_Update (context : SHA1_CTX) (data : bytes) : SHA1_CTX :=
  let len := length data in
  let j := Z.to_nat (Z.land (Z.shiftr (sha_count context).1 3) 63) in
  let count := count_add (sha_count context) (Z.of_nat len) in
  if (63 <? j + len)%nat then
    let i := (64 - j)%nat in
    let buffer := memcpy_at (sha_buffer context) j (take i data) in
    let state := SHA1_Transform (sha_state context) buffer in
    let '(state, rest) := transform_loop len state (drop i data) in
    Sha1Ctx state count (memcpy_at buffer 0 rest)
  else Sha1Ctx (sha_state context) count (memcpy_at (sha_buffer context) j data).

(** [while ((context->count[0] & 504) != 448)]: at most 63 zero bytes. *)
Fixpoint pad_loop (fuel : nat) (context : SHA1_CTX) : SHA1_CTX :=
  match fuel with
  | O => context
  | S fuel =>
      if Z.land (sha_count context).1 504 =? 448 then context
      else pad_loop fuel (sat_SHA1_Update context [0])
  end.

Definition be_byte (x : Z) (i : nat) : Z := Z.land (Z.shiftr x ((3 - Z.of_nat i) * 8)) 255.

Definition finalcount (count : Z * Z) : bytes :=
  (fun i => be_byte (if (4 <=? i)%nat then count.1 else count.2) (i mod 4)) <$> seq 0 8.

Definition sat_SHA1_Final (context : SHA1_CTX) : bytes :=
  let fc := finalcount (sha_count context) in
  let context := sat_SHA1_Update context [0x80] in
  let context := pad_loop 64 context in
  let context := sat_SHA1_Update context fc in
  (fun i => be_byte (nth (i / 4) (sha_state context) 0) (i mod 4)) <$> seq 0 20.

(** [ctx] is the uninitialised context on the stack. *)
Definition lsha1 (ctx : SHA1_CTX) (text : bytes) : bytes :=
  sat_SHA1_Final (sat_SHA1_Update (sat_SHA1_Init ctx) text).

(** ** HMAC *)

Definition BLOCKSIZE : nat := 64.

(** [xor_key] with a word whose four bytes are equal. *)
Definition xor_key (key : bytes) (xor : Z) : bytes := (fun b => Z.lxor b xor) <$> key.

Definition lhmac_sha1 (ctx : SHA1_CTX) (key text : bytes) : bytes :=
  let rkey := replicate BLOCKSIZE 0 in
  let rkey :=
    if (BLOCKSIZE <? length key)%nat then memcpy_at rkey 0 (lsha1 ctx key)
    else memcpy_at rkey 0 key in
  let rkey := xor_key rkey 0x5c in
  let ctx1 := sat_SHA1_Update (sat_SHA1_Init ctx) rkey in
  let rkey := xor_key rkey (Z.lxor 0x5c 0x36) in
  let ctx2 := sat_SHA1_Update (sat_SHA1_Init ctx) rkey in
  let ctx2 := sat_SHA1_Update ctx2 text in
  let digest2 := sat_SHA1_Final ctx2 in
  sat_SHA1_Final (sat_SHA1_Update ctx1 digest2).

(** ** The specification: FIPS 180 *)

Record fips_state := FipsState { fa : Z; fb : Z; fc : Z; fd : Z; fe : Z }.

Definition fips_f (t : nat) (b c d : Z) : Z :=
  if (t <? 20)%nat then Z.lxor (Z.land b c) (Z.land (not32 b) d)
  else if (t <? 40)%nat then Z.lxor (Z.lxor b c) d
  else if (t <? 60)%nat then Z.lxor (Z.lxor (Z.land b c) (Z.land b d)) (Z.land c d)
  else Z.lxor (Z.lxor b c) d.

(** The big-endian word at offset [i]. *)
Definition be_word (b : bytes) (i : nat) : Z :=
  word4 (nth (i + 3) b 0) (nth (i + 2) b 0) (nth (i + 1) b 0) (nth i b 0).

(** The first [n] words of the message schedule. *)
Fixpoint fips_schedule (block : bytes) (n : nat) : list Z :=
  match n with
  | O => []
  | S t =>
      let W := fips_schedule block t in
      W ++ [if (t <? 16)%nat then be_word block (4 * t)
            else rol (Z.lxor (Z.lxor (Z.lxor (nth (t - 3) W 0) (nth (t - 8) W 0))
                                     (nth (t - 14) W 0)) (nth (t - 16) W 0)) 1]
  end.

Definition fips_round (W : list Z) (H : fips_state) (t : nat) : fips_state :=
  let '(FipsState a b c d e) := H in
  FipsState (u32 (rol a 5 + fips_f t b c d + e + nth t W 0 + round_k t)) a (rol b 30) c d.

Definition fips_compress (H : fips_state) (block : bytes) : fips_state :=
  let '(FipsState a b c d e) := foldl (fips_round (fips_schedule block 80)) H (seq 0 80) in
  FipsState (u32 (fa H + a)) (u32 (fb H + b)) (u32 (fc H + c)) (u32 (fd H + d)) (u32 (fe H + e)).

(** Hash the whole blocks of a message; the rest is left. *)
Fixpoint absorb (fuel : nat) (H : fips_state) (m : bytes) : fips_state * bytes :=
  match fuel with
  | O => (H, m)
  | S fuel =>
      if (64 <=? length m)%nat then absorb fuel (fips_compress H (take 64 m)) (drop 64 m)
      else (H, m)
  end.

Definition fips_init : fips_state :=
  FipsState 0x67452301 0xEFCDAB89 0x98BADCFE 0x10325476 0xC3D2E1F0.

(** 1, zeros up to 56 bytes modulo 64, and the length in bits. *)
Definition fips_padding (len : nat) : bytes :=
  let bits := 8 * Z.of_nat len in
  0x80 :: replicate ((55 + 64 - len mod 64) mod 64) 0 ++
  PUT_UINT32 (bits / 2 ^ 32) ++ PUT_UINT32 (bits mod 2 ^ 32).

Definition fips_digest (H : fips_state) : bytes :=
  PUT_UINT32 (fa H) ++ PUT_UINT32 (fb H) ++ PUT_UINT32 (fc H) ++ PUT_UINT32 (fd H) ++ PUT_UINT32 (fe H).

Definition fips_sha1 (m : bytes) : bytes :=
  let p := m ++ fips_padding (length m) in
  fips_digest (absorb (length p) fips_init p).1.

Definition pad_key (key : bytes) : bytes :=
  let key := if (64 <? length key)%nat then fips_sha1 key else key in
  key ++ replicate (64 - length key) 0.

(** HMAC (RFC 2104). *)
Definition hmac_sha1_spec (key text : bytes) : bytes :=
  let opad := (fun b => Z.lxor b 0x5c) <$> pad_key key in
  let ipad := (fun b => Z.lxor b 0x36) <$> pad_key key in
  fips_sha1 (opad ++ fips_sha1 (ipad ++ text)).

(** ** The block transform is the compression function *)

Definition words_ok (H : fips_state) : Prop :=
  word 32 (fa H) /\ word 32 (fb H) /\ word 32 (fc H) /\ word 32 (fd H) /\ word 32 (fe H).

Definition to_list (H : fips_state) : list Z := [fa H; fb H; fc H; fd H; fe H].

Lemma rol_word v n : 0 <= n <= 32 -> word 32 v -> word 32 (rol v n).
Proof. intros. unfold rol, shl32. word_tac. Qed.

Lemma rol_testbit x n i : word 32 x -> 0 <= n <= 32 -> 0 <= i < 32 ->
  Z.testbit (rol x n) i = Z.testbit x ((i - n) mod 32).
Proof.
  intros. rewrite <- rol32_testbit by done. unfold rol32. change 0xFFFFFFFF with (Z.ones 32).
  by rewrite (proj1 (word_land 32 (Z.lor _ _) ltac:(lia)) (rol_word x n ltac:(done) ltac:(done))).
Qed.

Lemma not32_testbit x i : word 32 x -> 0 <= i < 32 -> Z.testbit (not32 x) i = negb (Z.testbit x i).
Proof.
  intros Hx Hi. assert (not32 x = u32 (Z.lnot x)) as ->.
  { unfold not32, u32, Z.lnot, word in *. apply Zmod_unique with (-1); lia. }
  rewrite u32_testbit by done. apply Z.lnot_spec. lia.
Qed.

Lemma not32_word x : word 32 x -> word 32 (not32 x).
Proof. unfold word, not32. lia. Qed.

Lemma round_f_word i w x y : word 32 w -> word 32 x -> word 32 y -> word 32 (round_f i w x y).
Proof.
  intros. unfold round_f. repeat case_match; repeat (apply word_lxor || apply word_lor || apply word_land_l); done || lia.
Qed.

Lemma round_f_fips i w x y : word 32 w -> word 32 x -> word 32 y ->
  round_f i w x y = fips_f i w x y.
Proof.
  intros Hw Hx Hy. unfold round_f, fips_f.
  destruct (i <? 20)%nat; [|destruct (i <? 40)%nat; [done|destruct (i <? 60)%nat; [|done]]].
  - apply (word_ext 32); [lia|..].
    + repeat (apply word_lxor || apply word_land_l); done || lia.
    + repeat (apply word_lxor || apply word_land_l); try done || lia. by apply not32_word.
    + intros j Hj. rewrite !Z.lxor_spec, !Z.land_spec, Z.lxor_spec, not32_testbit by done.
      by destruct (Z.testbit w j), (Z.testbit x j), (Z.testbit y j).
  - apply Z.bits_inj'. intros j _.
    rewrite !Z.lxor_spec, !Z.lor_spec, !Z.land_spec, Z.lor_spec.
    by destruct (Z.testbit w j), (Z.testbit x j), (Z.testbit y j).
Qed.

(** The byte swap of [blk0]. *)
Lemma word4_testbit b0 b1 b2 b3 i : word 8 b0 -> word 8 b1 -> word 8 b2 -> word 8 b3 ->
  0 <= i < 32 ->
  Z.testbit (word4 b0 b1 b2 b3) i =
    Z.testbit (if i <? 8 then b0 else if i <? 16 then b1 else if i <? 24 then b2 else b3) (i mod 8).
Proof.
  intros H0 H1 H2 H3 Hi. rewrite <- lor_word4 by done.
  rewrite !Z.lor_spec, !Z.shiftl_spec by lia.
  destruct (Z.ltb_spec i 8); [|destruct (Z.ltb_spec i 16); [|destruct (Z.ltb_spec i 24)]].
  - rewrite (Z.testbit_neg_r _ (i - 8)), (Z.testbit_neg_r _ (i - 16)), (Z.testbit_neg_r _ (i - 24)), !orb_false_r, Z.mod_small by lia. done.
  - rewrite (word_testbit 8 b0), (Z.testbit_neg_r _ (i - 16)), (Z.testbit_neg_r _ (i - 24)), !orb_false_r by (done || lia).
    cbn [orb]. f_equal. apply Zmod_unique with 1; lia.
  - rewrite (word_testbit 8 b0), (word_testbit 8 b1), (Z.testbit_neg_r _ (i - 24)), !orb_false_r by (done || lia).
    cbn [orb]. f_equal. apply Zmod_unique with 2; lia.
  - rewrite (word_testbit 8 b0), (word_testbit 8 b1), (word_testbit 8 b2) by (done || lia).
    cbn [orb]. f_equal. apply Zmod_unique with 3; lia.
Qed.

Lemma bswap_word4 b0 b1 b2 b3 : word 8 b0 -> word 8 b1 -> word 8 b2 -> word 8 b3 ->
  let x := word4 b0 b1 b2 b3 in
  Z.lor (Z.land (rol x 24) 0xFF00FF00) (Z.land (rol x 8) 0x00FF00FF) = word4 b3 b2 b1 b0.
Proof.
  intros H0 H1 H2 H3 x. assert (word 32 x) as Hx by by apply word4_word.
  apply (word_ext 32); [lia|word_tac|by apply word4_word|].
  intros i Hi. rewrite Z.lor_spec, !Z.land_spec, !rol_testbit, word4_testbit by (done || lia).
  unfold x. rewrite !word4_testbit by (done || (apply Z.mod_pos_bound; lia)).
  assert (i ∈ seqZ 0 32) as Hin by (apply elem_of_seqZ; lia).
  apply list_elem_of_In in Hin.
  change (seqZ 0 32) with [0;1;2;3;4;5;6;7;8;9;10;11;12;13;14;15;16;17;18;19;20;21;22;23;24;25;26;27;28;29;30;31] in Hin.
  cbn [In] in Hin. destruct_or! Hin; subst i; try done;
    cbn -[Z.testbit]; rewrite ?andb_true_r, ?andb_false_r, ?orb_false_r, ?orb_false_l;
    vm_compute (Z.testbit (Zpos _) _); rewrite ?andb_true_r, ?andb_false_r, ?orb_false_r; reflexivity.
Qed.

Lemma schedule_length block n : length (fips_schedule block n) = n.
Proof. induction n as [|n IH]; [done|]. cbn [fips_schedule]. rewrite length_app, IH. cbn. lia. Qed.

Lemma schedule_prefix block n m t : (t < n)%nat -> (n <= m)%nat ->
  nth t (fips_schedule block m) 0 = nth t (fips_schedule block n) 0.
Proof.
  intros Ht. induction 1 as [|m Hm IH]; [done|]. cbn [fips_schedule].
  rewrite app_nth1 by (rewrite schedule_length; lia). done.
Qed.

(** The recurrence of the message schedule. *)
Lemma schedule_nth block n t : (t < n)%nat ->
  let W := fips_schedule block n in
  nth t W 0 =
    if (t <? 16)%nat then be_word block (4 * t)
    else rol (Z.lxor (Z.lxor (Z.lxor (nth (t - 3) W 0) (nth (t - 8) W 0))
                             (nth (t - 14) W 0)) (nth (t - 16) W 0)) 1.
Proof.
  intros Ht W. unfold W. rewrite (schedule_prefix block (S t) n) by lia.
  cbn [fips_schedule]. rewrite app_nth2 by (rewrite schedule_length; lia).
  rewrite schedule_length, Nat.sub_diag. cbn [nth].
  destruct (Nat.ltb_spec t 16); [done|].
  by rewrite !(schedule_prefix block t n) by lia.
Qed.

Lemma nth_word8 b i : is_bytes b -> word 8 (nth i b 0).
Proof.
  intros Hb. destruct (nth_in_or_default i b 0) as [Hin| ->]; [|word_tac].
  unfold is_bytes in Hb. rewrite Forall_forall in Hb. apply Hb. by apply list_elem_of_In.
Qed.

Lemma be_word_word b i : is_bytes b -> word 32 (be_word b i).
Proof. intros. apply word4_word; by apply nth_word8. Qed.

Lemma schedule_word block n t : is_bytes block -> (t < n)%nat -> word 32 (nth t (fips_schedule block n) 0).
Proof.
  intros Hb. revert t. induction (lt_wf n) as [n _ _]. intros t.
  induction (lt_wf t) as [t _ IH]. intros Ht. rewrite schedule_nth by done.
  destruct (Nat.ltb_spec t 16); [by apply be_word_word|].
  apply rol_word; [lia|]. repeat (apply word_lxor; [lia|..]); apply IH; lia.
Qed.

Lemma blk0_swap b i : is_bytes b ->
  Z.lor (Z.land (rol (get_le32 b i) 24) 0xFF00FF00) (Z.land (rol (get_le32 b i) 8) 0x00FF00FF) = be_word b i.
Proof.
  intros Hb. unfold get_le32. rewrite !shl32_byte, lor_word4 by (by apply nth_word8 || lia).
  apply bswap_word4; by apply nth_word8.
Qed.

Record sha_sim (buffer : bytes) (n : nat) (s : sha_vars) (H : fips_state) : Prop := {
  sim_vars : H = FipsState (sv s) (sw s) (sx s) (sy s) (sz_ s);
  sim_words : words_ok H;
  sim_length : length (block_l s) = 16%nat;
  sim_new t : (t < n)%nat -> (n <= t + 16)%nat ->
    nth (t mod 16) (block_l s) 0 = nth t (fips_schedule buffer 80) 0;
  sim_old t : (n <= t < 16)%nat -> nth t (block_l s) 0 = get_le32 buffer (4 * t) }.

Lemma nth_insert_eq (l : list Z) i x : (i < length l)%nat -> nth i (<[i := x]> l) 0 = x.
Proof. intros. apply nth_lookup_Some. by apply list_lookup_insert_eq. Qed.

Lemma nth_insert_ne (l : list Z) i j x : i <> j -> nth j (<[i := x]> l) 0 = nth j l 0.
Proof. intros. by rewrite !nth_lookup, list_lookup_insert_ne. Qed.

(** Both ways of expanding the block compute the schedule in place. *)
Lemma sim_blk buffer n s H : is_bytes buffer -> sha_sim buffer n s H -> (n < 80)%nat ->
  (if (n <? 16)%nat then blk0 (block_l s) n else blk (block_l s) n) =
  (nth n (fips_schedule buffer 80) 0,
   <[(n mod 16)%nat := nth n (fips_schedule buffer 80) 0]> (block_l s)).
Proof.
  intros Hb S Hn. rewrite (schedule_nth buffer 80 n) by done.
  destruct (Nat.ltb_spec n 16).
  - unfold blk0. rewrite (sim_old _ _ _ _ S n), blk0_swap, Nat.mod_small by (done || lia). done.
  - unfold blk.
    assert (forall k, (1 <= k <= 16)%nat -> nth ((n + (16 - k)) mod 16) (block_l s) 0 =
      nth (n - k) (fips_schedule buffer 80) 0) as Hk.
    { intros k Hk. rewrite <- (sim_new _ _ _ _ S (n - k)) by lia. f_equal.
      replace (n + (16 - k))%nat with ((n - k) + 1 * 16)%nat by lia. apply Nat.Div0.mod_add. }
    pose proof (Hk 3%nat ltac:(lia)) as H3. pose proof (Hk 8%nat ltac:(lia)) as H8.
    pose proof (Hk 14%nat ltac:(lia)) as H14. pose proof (Hk 16%nat ltac:(lia)) as H16.
    change (16 - 3)%nat with 13%nat in H3. change (16 - 8)%nat with 8%nat in H8.
    change (16 - 14)%nat with 2%nat in H14. rewrite Nat.sub_diag, Nat.add_0_r in H16.
    by rewrite H3, H8, H14, H16.
Qed.

Lemma sim_round buffer n s H : is_bytes buffer -> sha_sim buffer n s H -> (n < 80)%nat ->
  sha_sim buffer (S n) (sha_round s n) (fips_round (fips_schedule buffer 80) H n).
Proof.
  intros Hb S Hn. pose proof (sim_blk _ _ _ _ Hb S Hn) as Hblk.
  pose proof (sim_vars _ _ _ _ S) as HH. pose proof (sim_words _ _ _ _ S) as HW.
  destruct s as [v w x y z l]. cbn [block_l sv sw sx sy sz_] in *. subst H. destruct HW as (?&?&?&?&?).
  cbn [fa fb fc fd fe] in *.
  unfold sha_round, fips_round. rewrite Hblk.
  set (W := nth n (fips_schedule buffer 80) 0) in *.
  split; cbn [sv sw sx sy sz_ block_l].
  - f_equal. rewrite round_f_fips by done. f_equal. lia.
  - split; cbn [fa fb fc fd fe]; [apply u32_word|]. split; [done|].
    split; [apply rol_word; [lia|done]|done].
  - rewrite length_insert. apply (sim_length _ _ _ _ S).
  - intros t Ht Ht'. destruct (decide (t = n)) as [->|Hne].
    + apply nth_insert_eq. pose proof (sim_length _ _ _ _ S) as Hl. cbn [block_l] in Hl.
      rewrite Hl. by apply Nat.mod_upper_bound.
    + rewrite nth_insert_ne; [apply (sim_new _ _ _ _ S); lia|].
      intros Hm. pose proof (Nat.div_mod_eq n 16). pose proof (Nat.div_mod_eq t 16). lia.
  - intros t Ht. rewrite nth_insert_ne; [apply (sim_old _ _ _ _ S); lia|].
    rewrite Nat.mod_small by lia. lia.
Qed.

Lemma sim_rounds buffer n s H : is_bytes buffer -> sha_sim buffer 0 s H -> (n <= 80)%nat ->
  sha_sim buffer n (foldl sha_round s (seq 0 n)) (foldl (fips_round (fips_schedule buffer 80)) H (seq 0 n)).
Proof.
  intros Hb S. induction n as [|n IH]; intros Hn; [done|].
  rewrite seq_S, !foldl_app. cbn [foldl Nat.add]. apply sim_round; [done|apply IH; lia|lia].
Qed.

Lemma transform_compress H buffer : words_ok H -> is_bytes buffer ->
  SHA1_Transform (to_list H) buffer = to_list (fips_compress H buffer) /\
  words_ok (fips_compress H buffer).
Proof.
  intros HW Hb. unfold SHA1_Transform, fips_compress, to_list. cbn [nth].
  set (s0 := ShaVars _ _ _ _ _ _).
  assert (sha_sim buffer 0 s0 H) as S0.
  { split; cbn [sv sw sx sy sz_ block_l]; try done; [by destruct H|intros; lia|].
    intros t Ht. do 16 (destruct t as [|t]; [reflexivity|]). lia. }
  pose proof (sim_vars _ _ _ _ (sim_rounds buffer 80 s0 H Hb S0 ltac:(lia))) as E.
  destruct (foldl sha_round s0 (seq 0 80)) as [a b c d e l]. cbn [sv sw sx sy sz_] in E. rewrite E.
  split; [done|]. repeat split; apply u32_range.
Qed.

(** ** Streaming *)

Lemma absorb_fuel n m H t : (length t <= n)%nat -> (length t <= m)%nat -> absorb n H t = absorb m H t.
Proof.
  revert m H t. induction n as [|n IH]; intros [|m] H t Hn Hm; cbn [absorb]; try done.
  - by destruct (Nat.leb_spec 64 (length t)); [lia|].
  - by destruct (Nat.leb_spec 64 (length t)); [lia|].
  - destruct (Nat.leb_spec 64 (length t)); [|done]. apply IH; rewrite length_drop; lia.
Qed.

Lemma absorb_step n m H b t : length b = 64%nat -> (length (b ++ t) <= n)%nat -> (length t <= m)%nat ->
  absorb n H (b ++ t) = absorb m (fips_compress H b) t.
Proof.
  intros Hb Hn Hm. rewrite length_app in Hn. destruct n as [|n]; [lia|]. cbn [absorb].
  rewrite length_app. destruct (Nat.leb_spec 64 (length b + length t)); [|lia].
  rewrite take_app_length', drop_app_length' by done. apply absorb_fuel; lia.
Qed.

Lemma absorb_spec n H m : (length m <= n)%nat -> is_bytes m -> words_ok H ->
  let '(H', r) := absorb n H m in
  words_ok H' /\ is_bytes r /\ (length r < 64)%nat /\ length r = (length m mod 64)%nat /\
  (forall d k j, (length (m ++ d) <= k)%nat -> (length (r ++ d) <= j)%nat ->
    absorb k H (m ++ d) = absorb j H' (r ++ d)).
Proof.
  revert H m. induction n as [|n IH]; intros H m Hn Hm HW; cbn [absorb].
  { destruct m; [|cbn in Hn; lia]. repeat split; try done || apply HW; [cbn; lia|].
    intros. by apply absorb_fuel. }
  destruct (Nat.leb_spec 64 (length m)) as [Hl|Hl].
  2: { repeat split; try done || apply HW; [by rewrite Nat.mod_small|]. intros. by apply absorb_fuel. }
  assert (is_bytes (take 64 m) /\ is_bytes (drop 64 m)) as [Hb1 Hb2]
    by (split; [by apply Forall_take|by apply Forall_drop]).
  destruct (transform_compress H (take 64 m) HW Hb1) as [_ HW1].
  specialize (IH (fips_compress H (take 64 m)) (drop 64 m)). rewrite length_drop in IH.
  specialize (IH ltac:(lia) Hb2 HW1).
  destruct (absorb n _ _) as [H' r]. destruct IH as (? & ? & ? & Hr & Happ).
  split; [done|]. split; [done|]. split; [done|]. split.
  { rewrite Hr. replace (length m) with ((length m - 64) + 1 * 64)%nat at 2 by lia.
    by rewrite Nat.Div0.mod_add. }
  intros d k j Hk Hj.
  assert (m ++ d = take 64 m ++ (drop 64 m ++ d)) as Em by by rewrite app_assoc, take_drop.
  rewrite Em in *.
  assert (length (take 64 m) = 64%nat) as H64 by (rewrite length_take; lia).
  rewrite (absorb_step k (length (drop 64 m ++ d))) by (done || lia).
  apply Happ; [done|done].
Qed.

Lemma transform_loop_absorb n H data : words_ok H -> is_bytes data ->
  transform_loop n (to_list H) data = (to_list (absorb n H data).1, (absorb n H data).2).
Proof.
  revert H data. induction n as [|n IH]; intros H data HW Hb; cbn [transform_loop absorb]; [done|].
  destruct (64 <=? length data)%nat; [|done].
  destruct (transform_compress H (take 64 data) HW) as [E HW']; [by apply Forall_take|].
  rewrite E. apply IH; [done|by apply Forall_drop].
Qed.

(** The 64-bit counter of [8 * len] bits. *)
Definition bit_count (len : Z) : Z * Z := ((8 * len) mod 2 ^ 32, (8 * len / 2 ^ 32) mod 2 ^ 32).

Lemma count_add_exact l len : 0 <= l -> 0 <= len < 2 ^ 29 ->
  count_add (bit_count l) len = bit_count (l + len).
Proof.
  intros Hl Hlen. unfold count_add, bit_count, u64, u32. cbn [fst snd].
  rewrite Z.shiftl_mul_pow2, Z.shiftr_div_pow2 by lia.
  rewrite (Z.mod_small (len * 2 ^ 3)) by lia. rewrite (Z.div_small len) by lia. rewrite Z.add_0_r.
  replace (8 * (l + len)) with (8 * l + len * 2 ^ 3) by lia.
  assert (0 <= 8 * l) as Hx by lia. assert (0 <= len * 2 ^ 3 < 2 ^ 32) as Hbits by lia.
  generalize dependent (8 * l). generalize dependent (len * 2 ^ 3). clear. intros b Hbits x Hx.
  rewrite Zplus_mod_idemp_l. f_equal.
  destruct (Z.ltb_spec ((x + b) mod 2 ^ 32) b).
  - rewrite Zplus_mod_idemp_l, Z.mod_mod by lia. f_equal. Z.to_euclidean_division_equations; lia.
  - rewrite !Z.mod_mod by lia. f_equal. Z.to_euclidean_division_equations; lia.
Qed.

Lemma bit_count_index l : 0 <= l -> Z.land (Z.shiftr (bit_count l).1 3) 63 = l mod 64.
Proof.
  intros Hl. unfold bit_count. cbn [fst].
  rewrite (land_pow2 _ 6), Z.shiftr_div_pow2 by (lia || done).
  Z.to_euclidean_division_equations; lia.
Qed.

Record sha_repr (ctx : SHA1_CTX) (m : bytes) : Prop := {
  shr_bytes : is_bytes m;
  shr_state : sha_state ctx = to_list (absorb (length m) fips_init m).1;
  shr_length : length (sha_buffer ctx) = 64%nat;
  shr_buffer : let r := (absorb (length m) fips_init m).2 in take (length r) (sha_buffer ctx) = r;
  shr_count : sha_count ctx = bit_count (Z.of_nat (length m)) }.

Lemma init_words : words_ok fips_init.
Proof. repeat split; vm_compute; congruence. Qed.

Lemma sha_init_repr ctx : length (sha_buffer ctx) = 64%nat -> sha_repr (sat_SHA1_Init ctx) [].
Proof. intros. split; cbn; done || constructor. Qed.

Lemma memcpy_length buffer j data : (j + length data <= length buffer)%nat ->
  length (memcpy_at buffer j data) = length buffer.
Proof. intros. unfold memcpy_at. rewrite !length_app, length_take, length_drop. lia. Qed.

Lemma memcpy_take buffer j data : (j + length data <= length buffer)%nat ->
  take (j + length data) (memcpy_at buffer j data) = take j buffer ++ data.
Proof.
  intros. unfold memcpy_at. rewrite app_assoc. apply take_app_length'.
  rewrite length_app, length_take. lia.
Qed.

Lemma update_repr ctx m data : sha_repr ctx m -> is_bytes data -> Z.of_nat (length data) < 2 ^ 29 ->
  sha_repr (sat_SHA1_Update ctx data) (m ++ data).
Proof.
  intros [Hb Hst Hlen Hbuf Hcnt] Hd Hsz.
  pose proof (absorb_spec (length m) fips_init m ltac:(lia) Hb init_words) as Habs.
  destruct (absorb (length m) fips_init m) as [H r]. destruct Habs as (HW & Hrb & Hr64 & Hr & Happ).
  cbn [fst snd] in *. specialize (Happ data (length (m ++ data)) (length (r ++ data)) ltac:(lia) ltac:(lia)).
  assert (is_bytes (m ++ data)) as Hmd by by apply Forall_app.
  assert (is_bytes (r ++ data)) as Hrd by by apply Forall_app.
  unfold sat_SHA1_Update. rewrite Hcnt, bit_count_index, count_add_exact by lia.
  rewrite Hst. cbn zeta.
  replace (Z.to_nat (Z.of_nat (length m) mod 64)) with (length r)
    by (rewrite Hr; change 64 with (Z.of_nat 64); rewrite <- Nat2Z.inj_mod, Nat2Z.id; done).
  replace (Z.of_nat (length m) + Z.of_nat (length data)) with (Z.of_nat (length (m ++ data)))
    by (rewrite length_app; lia).
  destruct (Nat.ltb_spec 63 (length r + length data)) as [Hfull|Hfull].
  - set (i := (64 - length r)%nat).
    assert (memcpy_at (sha_buffer ctx) (length r) (take i data) = r ++ take i data) as Ebuf.
    { unfold memcpy_at. rewrite Hbuf, length_take, Nat.min_l by lia.
      rewrite drop_ge by lia. by rewrite app_nil_r. }
    rewrite Ebuf.
    assert (length (r ++ take i data) = 64%nat) as H64 by (rewrite length_app, length_take; lia).
    assert (is_bytes (r ++ take i data)) as Hblk by (apply Forall_app; split; [done|by apply Forall_take]).
    destruct (transform_compress H (r ++ take i data) HW Hblk) as [-> HW1].
    assert (is_bytes (drop i data)) as Hrest by by apply Forall_drop.
    assert (length (drop i data) <= length data)%nat as Hdl by (rewrite length_drop; lia).
    rewrite transform_loop_absorb by done.
    assert (r ++ data = (r ++ take i data) ++ drop i data) as Esplit by by rewrite <- app_assoc, take_drop.
    rewrite Esplit, (absorb_step _ (length data) H) in Happ
      by (done || lia).
    pose proof (absorb_spec (length data) _ (drop i data) Hdl Hrest HW1) as Habs.
    destruct (absorb (length data) _ (drop i data)) as [H' r']. destruct Habs as (_ & _ & Hr' & _).
    split; cbn [sha_state sha_count sha_buffer fst snd]; rewrite ?Happ; try done.
    + rewrite memcpy_length by lia. done.
    + cbn [snd]. pose proof (memcpy_take (r ++ take i data) 0 r' ltac:(lia)) as E. by rewrite take_0 in E.
  - assert (absorb (length (r ++ data)) H (r ++ data) = (H, r ++ data)) as E.
    { destruct (length (r ++ data)) eqn:El; [done|]. cbn [absorb].
      rewrite length_app in El. rewrite length_app.
      destruct (Nat.leb_spec 64 (length r + length data)); [lia|done]. }
    rewrite E in Happ. split; cbn [sha_state sha_count sha_buffer]; rewrite ?Happ; try done.
    + rewrite memcpy_length by lia. done.
    + cbn [snd]. rewrite length_app, memcpy_take by lia. by rewrite Hbuf.
Qed.

(** ** Padding *)

Lemma pad_loop_repr fuel ctx m (z : nat) : sha_repr ctx m -> (z < fuel)%nat ->
  (forall i : nat, (i < z)%nat -> ((length m + i) mod 64 <> 56)%nat) -> ((length m + z) mod 64 = 56)%nat ->
  sha_repr (pad_loop fuel ctx) (m ++ replicate z 0).
Proof.
  revert ctx m z. induction fuel as [|fuel IH]; intros ctx m z R Hz Hne Heq; [lia|]. cbn [pad_loop].
  assert ((Z.land (sha_count ctx).1 504 =? 448) = (length m mod 64 =? 56)%nat) as ->.
  { rewrite (shr_count _ _ R). unfold bit_count. cbn [fst].
    change 504 with (Z.shiftl (2 ^ 6 - 1) 3).
    assert (forall x, Z.land (8 * x) (Z.shiftl (2 ^ 6 - 1) 3) = 8 * (x mod 64)) as Hl.
    { intros x. replace (8 * x) with (Z.shiftl x 3) by (rewrite Z.shiftl_mul_pow2 by lia; lia).
      rewrite <- Z.shiftl_land, land_ones_pow2, Z.shiftl_mul_pow2 by lia.
      change (2 ^ 6) with 64. change (2 ^ 3) with 8. lia. }
    replace ((8 * Z.of_nat (length m)) mod 2 ^ 32) with (8 * (Z.of_nat (length m) mod 2 ^ 29))
      by (Z.to_euclidean_division_equations; lia).
    rewrite Hl.
    assert ((Z.of_nat (length m) mod 2 ^ 29) mod 64 = Z.of_nat (length m mod 64)) as ->.
    { rewrite Nat2Z.inj_mod. change (Z.of_nat 64) with 64. Z.to_euclidean_division_equations; lia. }
    destruct (Nat.eqb_spec (length m mod 64) 56); zcases. }
  destruct z as [|z].
  - rewrite Nat.add_0_r in Heq. rewrite Heq. cbn. by rewrite app_nil_r.
  - specialize (Hne 0%nat ltac:(lia)) as Hn0. rewrite Nat.add_0_r in Hn0.
    destruct (Nat.eqb_spec (length m mod 64) 56); [done|].
    replace (m ++ replicate (S z) 0) with ((m ++ [0]) ++ replicate z 0) by by rewrite <- app_assoc.
    apply IH.
    + apply update_repr; [done|constructor; [word_tac|constructor]|done].
    + lia.
    + intros i Hi. rewrite length_app. cbn [length]. replace (length m + 1 + i)%nat with (length m + S i)%nat by lia.
      apply Hne. lia.
    + rewrite length_app. cbn [length]. by replace (length m + 1 + z)%nat with (length m + S z)%nat by lia.
Qed.

Lemma be_byte_u8 x (i : nat) : be_byte x i = u8 (Z.shiftr x ((3 - Z.of_nat i) * 8)).
Proof. unfold be_byte, u8. apply land_pow2; [lia|done]. Qed.

Lemma be_bytes_PUT x : (fun i => be_byte x i) <$> [0; 1; 2; 3]%nat = PUT_UINT32 x.
Proof. cbn [fmap list_fmap]. by rewrite !be_byte_u8. Qed.

Lemma finalcount_eq len : 0 <= len < 2 ^ 61 ->
  finalcount (bit_count len) = PUT_UINT32 (8 * len / 2 ^ 32) ++ PUT_UINT32 (8 * len mod 2 ^ 32).
Proof.
  intros Hl. rewrite <- !be_bytes_PUT. unfold bit_count.
  rewrite (Z.mod_small (8 * len / 2 ^ 32)) by (Z.to_euclidean_division_equations; lia). reflexivity.
Qed.

Lemma digest_eq ctx H : sha_state ctx = to_list H ->
  (fun i => be_byte (nth (i / 4) (sha_state ctx) 0) (i mod 4)) <$> seq 0 20 = fips_digest H.
Proof. intros ->. unfold fips_digest. rewrite <- !be_bytes_PUT. reflexivity. Qed.

Lemma final_spec ctx m : sha_repr ctx m -> Z.of_nat (length m) < 2 ^ 61 ->
  sat_SHA1_Final ctx = fips_sha1 m.
Proof.
  intros R Hm. unfold sat_SHA1_Final. rewrite (shr_count _ _ R), finalcount_eq by lia.
  assert (sha_repr (sat_SHA1_Update ctx [0x80]) (m ++ [0x80])) as R1
    by (apply update_repr; [done|constructor; [word_tac|constructor]|done]).
  set (z := ((55 + 64 - length m mod 64) mod 64)%nat).
  pose proof (Nat.div_mod_eq (length m) 64) as Hdm.
  pose proof (Nat.mod_upper_bound (length m) 64 ltac:(lia)) as Hub.
  pose proof (Nat.mod_upper_bound (55 + 64 - length m mod 64) 64 ltac:(lia)) as Hz.
  assert (((length m mod 64) + 1 + z) mod 64 = 56)%nat as Hz56.
  { unfold z. pose proof (Nat.div_mod_eq (55 + 64 - length m mod 64) 64) as Hd2.
    set (r := (length m mod 64)%nat) in *. clearbody r.
    destruct (decide (r <= 55)%nat).
    - assert (((55 + 64 - r) mod 64 = 55 - r)%nat) as ->.
      { replace (55 + 64 - r)%nat with (55 - r + 1 * 64)%nat by lia.
        rewrite Nat.Div0.mod_add. apply Nat.mod_small. lia. }
      by replace (r + 1 + (55 - r))%nat with 56%nat by lia.
    - rewrite (Nat.mod_small (55 + 64 - r)) by lia. symmetry. apply (Nat.mod_unique _ 64 1); lia. }
  assert (forall i : nat, ((length (m ++ [0x80%Z]) + i) mod 64 = (length m mod 64 + 1 + i) mod 64)%nat) as Hmod.
  { intros i. rewrite length_app. cbn [length]. rewrite Hdm at 1.
    replace (64 * (length m / 64) + length m mod 64 + 1 + i)%nat
      with (length m mod 64 + 1 + i + (length m / 64) * 64)%nat by lia.
    apply Nat.Div0.mod_add. }
  assert (sha_repr (pad_loop 64 (sat_SHA1_Update ctx [0x80])) ((m ++ [0x80]) ++ replicate z 0)) as R2.
  { apply pad_loop_repr; [done|lia| |by rewrite Hmod].
    intros i Hi. rewrite Hmod. intros Hc.
    pose proof (Nat.div_mod_eq (length m mod 64 + 1 + i) 64).
    pose proof (Nat.div_mod_eq (length m mod 64 + 1 + z) 64). lia. }
  apply (update_repr _ _ (PUT_UINT32 (8 * Z.of_nat (length m) / 2 ^ 32) ++
    PUT_UINT32 (8 * Z.of_nat (length m) mod 2 ^ 32))) in R2;
    [|apply Forall_app; split; apply PUT_UINT32_bytes|done].
  erewrite digest_eq by apply R2. unfold fips_sha1, fips_padding. fold z. cbn zeta.
  assert (((m ++ [0x80]) ++ replicate z 0) ++ PUT_UINT32 (8 * Z.of_nat (length m) / 2 ^ 32) ++
    PUT_UINT32 (8 * Z.of_nat (length m) mod 2 ^ 32) =
    m ++ 0x80 :: replicate z 0 ++ PUT_UINT32 (8 * Z.of_nat (length m) / 2 ^ 32) ++
    PUT_UINT32 (8 * Z.of_nat (length m) mod 2 ^ 32)) as -> by by rewrite <- !app_assoc.
  done.
Qed.

Lemma fips_sha1_length m : length (fips_sha1 m) = 20%nat.
Proof. done. Qed.

Lemma fips_sha1_bytes m : is_bytes (fips_sha1 m).
Proof. unfold fips_sha1, fips_digest. repeat (apply Forall_app; split); apply PUT_UINT32_bytes. Qed.

(** A message fed in pieces. *)
Lemma updates_repr ctx m chunks : sha_repr ctx m ->
  Forall (fun c => is_bytes c /\ Z.of_nat (length c) < 2 ^ 29) chunks ->
  sha_repr (foldl sat_SHA1_Update ctx chunks) (m ++ concat chunks).
Proof.
  intros R Hc. revert ctx m R. induction Hc as [|c chunks [Hc Hl] _ IH]; intros ctx m R; cbn [foldl concat].
  - by rewrite app_nil_r.
  - rewrite app_assoc. apply IH. by apply update_repr.
Qed.

(** C19. SHA-1 is computed in one pass over any split of the message: feeding
    the pieces (each shorter than 2 ^ 29 bytes) to [sat_SHA1_Update] and calling
    [sat_SHA1_Final] gives the FIPS 180 digest of their concatenation, whatever
    the uninitialised context held. *)
Theorem sha1_correct (ctx : SHA1_CTX) (chunks : list bytes)
    (Hctx : length (sha_buffer ctx) = 64%nat)
    (Hchunks : Forall (fun c => is_bytes c /\ Z.of_nat (length c) < 2 ^ 29) chunks)
    (Htotal : Z.of_nat (length (concat chunks)) < 2 ^ 61) :
  sat_SHA1_Final (foldl sat_SHA1_Update (sat_SHA1_Init ctx) chunks) = fips_sha1 (concat chunks).
Proof. apply final_spec; [|done]. by apply (updates_repr _ []), Hchunks; apply sha_init_repr. Qed.

Definition stack_garbage : SHA1_CTX := Sha1Ctx [] (7, 7) (replicate 64 9).

Lemma sha1_correct_witness :
  (length (sha_buffer stack_garbage) = 64%nat /\
   Forall (fun c => is_bytes c /\ Z.of_nat (length c) < 2 ^ 29) [str "ab"; str "c"] /\
   Z.of_nat (length (concat [str "ab"; str "c"])) < 2 ^ 61) /\
  sat_SHA1_Final (foldl sat_SHA1_Update (sat_SHA1_Init stack_garbage) [str "ab"; str "c"]) =
    fips_sha1 (concat [str "ab"; str "c"]) /\
  ltohex (fips_sha1 (str "abc")) = str "a9993e364706816aba3e25717850c26c9cd0d89d" /\
  ltohex (fips_sha1 (str "abcdbcdecdefdefgefghfghighijhijkijkljklmklmnlmnomnopnopq")) =
    str "84983e441c3bd26ebaae4aa1f95129e5e54670f1".
Proof.
  assert (Forall (fun c => is_bytes c /\ Z.of_nat (length c) < 2 ^ 29) [str "ab"; str "c"]) as Hc.
  { constructor; [|constructor; [|constructor]]; (split; [apply all_words_ok|]; vm_compute; reflexivity). }
  split; [split; [reflexivity|split; [exact Hc|vm_compute; reflexivity]]|].
  split; [apply (sha1_correct stack_garbage [str "ab"; str "c"] eq_refl Hc); vm_compute; reflexivity|].
  split; vm_compute; reflexivity.
Defined.

(** ** HMAC *)

Lemma lsha1_correct ctx m : length (sha_buffer ctx) = 64%nat -> is_bytes m ->
  Z.of_nat (length m) < 2 ^ 29 -> lsha1 ctx m = fips_sha1 m.
Proof.
  intros Hc Hm Hl. unfold lsha1. apply final_spec; [|lia].
  apply (update_repr _ [] m); [by apply sha_init_repr|done|done].
Qed.

Lemma xor_key_bytes key x : is_bytes key -> word 8 x -> is_bytes (xor_key key x).
Proof.
  intros Hk Hx. apply Forall_fmap. eapply Forall_impl; [exact Hk|].
  intros b Hb. apply word_lxor; done || lia.
Qed.

Lemma xor_key_twice key x y : xor_key (xor_key key x) (Z.lxor x y) = (fun b => Z.lxor b y) <$> key.
Proof.
  unfold xor_key. rewrite <- list_fmap_compose. apply list_fmap_ext. intros i b _. cbn.
  by rewrite Z.lxor_assoc, <- (Z.lxor_assoc x x y), Z.lxor_nilpotent, Z.lxor_0_l.
Qed.

(** C36. [lhmac_sha1] is HMAC-SHA1 of RFC 2104, for keys of any length. *)
Theorem hmac_sha1_correct (ctx : SHA1_CTX) (key text : bytes)
    (Hctx : length (sha_buffer ctx) = 64%nat)
    (Hkey : is_bytes key) (Hkl : Z.of_nat (length key) < 2 ^ 29)
    (Htext : is_bytes text) (Htl : Z.of_nat (length text) < 2 ^ 29) :
  lhmac_sha1 ctx key text = hmac_sha1_spec key text.
Proof.
  unfold lhmac_sha1, hmac_sha1_spec. cbn zeta.
  set (rkey := if (BLOCKSIZE <? length key)%nat then _ else _).
  assert (rkey = pad_key key /\ is_bytes rkey /\ length rkey = 64%nat) as (Er & Hrb & Hrl).
  { unfold rkey, pad_key, BLOCKSIZE.
    assert (forall k, is_bytes k -> (length k <= 64)%nat ->
      memcpy_at (replicate 64 0) 0 k = k ++ replicate (64 - length k) 0 /\
      is_bytes (k ++ replicate (64 - length k) 0) /\ length (k ++ replicate (64 - length k) 0) = 64%nat) as Hk.
    { intros k Hb Hl. split; [unfold memcpy_at; rewrite take_0, drop_replicate; reflexivity|].
      split; [apply Forall_app; split; [done|apply Forall_replicate; word_tac]|].
      rewrite length_app, length_replicate. lia. }
    destruct (Nat.ltb_spec 64 (length key)).
    - rewrite lsha1_correct by done.
      destruct (Hk (fips_sha1 key)) as (-> & ? & ?); [apply fips_sha1_bytes|rewrite fips_sha1_length; lia|done].
    - destruct (Hk key) as (-> & ? & ?); [done|lia|done]. }
  clearbody rkey. subst rkey. set (k := pad_key key) in *.
  rewrite xor_key_twice.
  assert (is_bytes (xor_key k 0x5c)) as H5 by (apply xor_key_bytes; [done|word_tac]).
  assert (is_bytes ((fun b => Z.lxor b 0x36) <$> k)) as H3 by (apply (xor_key_bytes k 0x36); [done|word_tac]).
  assert (forall f : Z -> Z, length (f <$> k) = 64%nat) as Hl by (intros f; by rewrite length_fmap).
  assert (sha_repr (sat_SHA1_Update (sat_SHA1_Init ctx) (xor_key k 0x5c)) (xor_key k 0x5c)) as R1
    by (apply (update_repr _ []); [by apply sha_init_repr|done|unfold xor_key; by rewrite Hl]).
  assert (sha_repr (sat_SHA1_Update (sat_SHA1_Init ctx) ((fun b => Z.lxor b 0x36) <$> k)) ((fun b => Z.lxor b 0x36) <$> k)) as R2
    by (apply (update_repr _ []); [by apply sha_init_repr|done|by rewrite Hl]).
  apply (update_repr _ _ text) in R2; [|done|done].
  rewrite (final_spec _ _ R2) by (rewrite length_app, Hl; lia).
  apply (update_repr _ _ (fips_sha1 (((fun b => Z.lxor b 0x36) <$> k) ++ text))) in R1;
    [|apply fips_sha1_bytes|by rewrite fips_sha1_length].
  apply final_spec; [exact R1|]. unfold xor_key. by rewrite length_app, Hl, fips_sha1_length.
Qed.

Lemma hmac_sha1_correct_witness :
  (length (sha_buffer stack_garbage) = 64%nat /\
   is_bytes (str "Jefe") /\ Z.of_nat (length (str "Jefe")) < 2 ^ 29 /\
   is_bytes (str "what do ya want for nothing?") /\
   Z.of_nat (length (str "what do ya want for nothing?")) < 2 ^ 29) /\
  lhmac_sha1 stack_garbage (str "Jefe") (str "what do ya want for nothing?") =
    hmac_sha1_spec (str "Jefe") (str "what do ya want for nothing?").
Proof.
  assert (is_bytes (str "Jefe")) as Hk by (apply all_words_ok; vm_compute; reflexivity).
  assert (is_bytes (str "what do ya want for nothing?")) as Ht by (apply all_words_ok; vm_compute; reflexivity).
  assert (Z.of_nat (length (str "Jefe")) < 2 ^ 29) as Hkl by (vm_compute; reflexivity).
  assert (Z.of_nat (length (str "what do ya want for nothing?")) < 2 ^ 29) as Htl by (vm_compute; reflexivity).
  split; [split; [reflexivity|split; [exact Hk|split; [exact Hkl|split; [exact Ht|exact Htl]]]]|].
  exact (hmac_sha1_correct stack_garbage _ _ eq_refl Hk Hkl Ht Htl).
Defined.

(** The bit counter is exact for pieces shorter than 2 ^ 29 bytes; a
    longer first piece (from 512 MiB on) counts 2 ^ 32 bits too many, because
    the carry test compares the 32-bit sum with the 64-bit [len << 3]. *)
Theorem count_add_spec (len : Z) (Hlen : 0 <= len < 2 ^ 61) :
  count_add (0, 0) len =
    if len <? 2 ^ 29 then bit_count len
    else ((8 * len) mod 2 ^ 32, ((8 * len + 2 ^ 32) / 2 ^ 32) mod 2 ^ 32).
Proof.
  destruct (Z.ltb_spec len (2 ^ 29)).
  - apply (count_add_exact 0 len); lia.
  - unfold count_add, u64, u32. cbn [fst snd]. rewrite Z.shiftl_mul_pow2, Z.shiftr_div_pow2 by lia.
    rewrite (Z.mod_small (len * 2 ^ 3)), !Z.add_0_l by lia.
    replace (len * 2 ^ 3) with (8 * len) by lia. f_equal.
    pose proof (Z.mod_pos_bound (8 * len) (2 ^ 32) ltac:(lia)).
    destruct (Z.ltb_spec ((8 * len) mod 2 ^ 32) (8 * len)); [|lia].
    rewrite (Z.mod_small 1) by lia. f_equal. Z.to_euclidean_division_equations; lia.
Qed.

Lemma count_add_spec_witness :
  0 <= 2 ^ 29 < 2 ^ 61 /\ count_add (0, 0) (2 ^ 29) =
    if 2 ^ 29 <? 2 ^ 29 then bit_count (2 ^ 29)
    else ((8 * 2 ^ 29) mod 2 ^ 32, ((8 * 2 ^ 29 + 2 ^ 32) / 2 ^ 32) mod 2 ^ 32).
Proof.
  assert (0 <= 2 ^ 29 < 2 ^ 61) as Hl by (split; vm_compute; congruence).
  split; [exact Hl|]. exact (count_add_spec (2 ^ 29) Hl).
Defined.
