(* ===== verification/SprotoPack.v ===== *)
(** The 0-packing of [lualib-src/sproto/sproto.c]: [sproto_pack] and
    [sproto_unpack] on explicit buffers. The sizes are values of type [int]: the arrays have
    fewer than 2^31 bytes, and what is added to a size or taken from it must stay in range. *)
From S2P Require Import Prelude.

(** ** Packing *)

(** [for (i=0;i<8;i++)] of [pack_seg]: the header, the count of non-zero
    bytes, and the buffer with its write position and free space. *)
Fixpoint pack_seg_loop (src : bytes) (i header notzero : Z) (buffer : bytes) (pos sz : Z)
    : outcome (Z * Z * bytes) :=
  match src with
  | [] => Ret (header, notzero, buffer)
  | c :: src =>
      if c =? 0 then pack_seg_loop src (i + 1) header notzero buffer pos sz
      else
        let notzero := notzero + 1 in
        let header := Z.lor header (Z.shiftl 1 i) in
        if 0 <? sz then
          buffer ← arr_set buffer pos c;
          pack_seg_loop src (i + 1) header notzero buffer (pos + 1) (sz - 1)
        else pack_seg_loop src (i + 1) header notzero buffer pos sz
  end.

Definition pack_seg (src : bytes) (buffer : bytes) (pos sz n : Z) : outcome (Z * bytes) :=
  let obuffer := if sz - 1 <? 0 then None else Some pos in
  '(header, notzero, buffer) ← pack_seg_loop src 0 0 0 buffer (pos + 1) (sz - 1);
  let notzero := if ((notzero =? 7) || (notzero =? 6)) && (0 <? n) then 8 else notzero in
  if notzero =? 8 then Ret (if 0 <? n then 8 else 10, buffer)
  else
    buffer ← (match obuffer with Some p => arr_set buffer p header | None => Ret buffer end);
    Ret (notzero + 1, buffer).

(** [memcpy] between arrays: both ranges must exist. *)
Definition mem_read (src : bytes) (pos n : Z) : outcome bytes :=
  if (pos <? 0) || (n <? 0) || (Z.of_nat (length src) <? pos + n) then Undefined
  else Ret (take (Z.to_nat n) (drop (Z.to_nat pos) src)).

Definition mem_write (des : bytes) (pos : Z) (data : bytes) : outcome bytes :=
  if (pos <? 0) || (Z.of_nat (length des) <? pos + Z.of_nat (length data)) then Undefined
  else Ret (take (Z.to_nat pos) des ++ data ++ drop (Z.to_nat pos + length data) des).

(** [src] is an array and a position in it. *)
Definition write_ff (src : bytes * Z) (buffer : bytes) (des n : Z) : outcome bytes :=
  let align8_n := Z.land (n + 7) (-8) in
  buffer ← arr_set buffer des 0xff;
  buffer ← arr_set buffer (des + 1) (u8 (align8_n / 8 - 1));
  data ← mem_read src.1 src.2 n;
  buffer ← mem_write buffer (des + 2) data;
  mem_write buffer (des + n + 2) (replicate (Z.to_nat (align8_n - n)) 0).

Record pack_state := PackState {
  pk_buffer : bytes; pk_pos : Z; pk_bufsz : Z;
  pk_ff_src : bytes * Z; pk_ff_des : Z; pk_ff_n : Z; pk_size : Z }.

(** The body of the loop for the segment at [i]; [tmp] holds a padded tail. *)
Definition pack_step (srcv : bytes) (i : Z) (st : pack_state) : outcome pack_state :=
  let srcsz := Z.of_nat (length srcv) in
  next ← int_ok (i + 8);
  let padding := next - srcsz in
  '(seg, src) ←
    (if 0 <? padding then
       part ← mem_read srcv i (8 - padding);
       let tmp := part ++ replicate (Z.to_nat padding) 0 in
       Ret (tmp, (tmp, 0))
     else seg ← mem_read srcv i 8; Ret (seg, (srcv, i)));
  '(n, buffer) ← pack_seg seg (pk_buffer st) (pk_pos st) (pk_bufsz st) (pk_ff_n st);
  bufsz ← int_ok (pk_bufsz st - n);
  '(buffer, ff_src, ff_des, ff_n) ←
    (if n =? 10 then Ret (buffer, src, pk_pos st, 1)
     else if (n =? 8) && (0 <? pk_ff_n st) then
       let ff_n := pk_ff_n st + 1 in
       if ff_n =? 256 then
         buffer ← (if 0 <=? bufsz then write_ff (pk_ff_src st) buffer (pk_ff_des st) (256 * 8)
                   else Ret buffer);
         Ret (buffer, pk_ff_src st, pk_ff_des st, 0)
       else Ret (buffer, pk_ff_src st, pk_ff_des st, ff_n)
     else if 0 <? pk_ff_n st then
       buffer ← (if 0 <=? bufsz then write_ff (pk_ff_src st) buffer (pk_ff_des st) (pk_ff_n st * 8)
                 else Ret buffer);
       Ret (buffer, pk_ff_src st, pk_ff_des st, 0)
     else Ret (buffer, pk_ff_src st, pk_ff_des st, pk_ff_n st));
  size ← int_ok (pk_size st + n);
  Ret (PackState buffer (pk_pos st + n) bufsz ff_src ff_des ff_n size).

(** [for (i=0;i<srcsz;i+=8)], with [k] segments left. *)
Fixpoint pack_loop (k : nat) (srcv : bytes) (i : Z) (st : pack_state) : outcome pack_state :=
  match k with
  | O => Ret st
  | S k => st ← pack_step srcv i st; pack_loop k srcv (i + 8) st
  end.

(** The number of bytes needed, and the buffer (of [bufsz] bytes). The last
    [write_ff] subtracts pointers: [ff_srcstart] is then in [srcv]. *)
Definition sproto_pack (srcv bufferv : bytes) : outcome (Z * bytes) :=
  let srcsz := Z.of_nat (length srcv) in
  let bufsz := Z.of_nat (length bufferv) in
  st ← pack_loop (Z.to_nat ((srcsz + 7) / 8)) srcv 0 (PackState bufferv 0 bufsz ([], 0) 0 0 0);
  buffer ←
    (if 0 <=? pk_bufsz st then
       if pk_ff_n st =? 1 then write_ff (pk_ff_src st) (pk_buffer st) (pk_ff_des st) 8
       else if 1 <? pk_ff_n st then
         write_ff (pk_ff_src st) (pk_buffer st) (pk_ff_des st) (srcsz - (pk_ff_src st).2)
       else Ret (pk_buffer st)
     else Ret (pk_buffer st));
  Ret (pk_size st, buffer).

(** ** Unpacking *)

(** [for (i=0;i<8;i++)]: [k] rounds left; the source position and what is
    left of it, the buffer, its position and what is left of it. [None] is
    [return -1]. *)
Fixpoint unpack_bits (k : nat) (header : Z) (src : bytes) (spos srcsz : Z)
    (buffer : bytes) (pos bufsz : Z) : outcome (option (Z * Z * bytes * Z * Z)) :=
  match k with
  | O => Ret (Some (spos, srcsz, buffer, pos, bufsz))
  | S k' =>
      let nz := Z.land (Z.shiftr header (8 - Z.of_nat k)) 1 in
      if negb (nz =? 0) then
        if srcsz <? 0 then Ret None
        else
          if 0 <? bufsz then
            c ← arr_get src spos;
            buffer ← arr_set buffer pos c;
            unpack_bits k' header src (spos + 1) (srcsz - 1) buffer (pos + 1) (bufsz - 1)
          else unpack_bits k' header src (spos + 1) (srcsz - 1) buffer pos bufsz
      else
        if 0 <? bufsz then
          buffer ← arr_set buffer pos 0;
          unpack_bits k' header src spos srcsz buffer (pos + 1) (bufsz - 1)
        else unpack_bits k' header src spos srcsz buffer pos bufsz
  end.

(** [while (srcsz > 0)]: every round consumes a byte. *)
Fixpoint unpack_loop (fuel : nat) (src : bytes) (spos srcsz : Z) (buffer : bytes) (pos bufsz size : Z)
    : outcome (Z * bytes) :=
  if srcsz <=? 0 then Ret (size, buffer)
  else
    match fuel with
    | O => Undefined
    | S fuel =>
        header ← arr_get src spos;
        let srcsz := srcsz - 1 in
        let spos := spos + 1 in
        if header =? 0xff then
          if srcsz <? 0 then Ret (-1, buffer)
          else
            c ← arr_get src spos;
            let n := (c + 1) * 8 in
            if srcsz <? n + 1 then Ret (-1, buffer)
            else
              let srcsz := srcsz - (n + 1) in
              let spos := spos + 1 in
              buffer ← (if n <=? bufsz then data ← mem_read src spos n; mem_write buffer pos data
                        else Ret buffer);
              bufsz ← int_ok (bufsz - n);
              size ← int_ok (size + n);
              unpack_loop fuel src (spos + n) srcsz buffer (pos + n) bufsz size
        else
          r ← unpack_bits 8 header src spos srcsz buffer pos bufsz;
          match r with
          | None => Ret (-1, buffer)
          | Some (spos, srcsz, buffer, pos, bufsz) =>
              size ← int_ok (size + 8);
              unpack_loop fuel src spos srcsz buffer pos bufsz size
          end
    end.

Definition sproto_unpack (srcv bufferv : bytes) : outcome (Z * bytes) :=
  unpack_loop (length srcv) srcv 0 (Z.of_nat (length srcv)) bufferv 0 (Z.of_nat (length bufferv)) 0.

(** ** Reference packer *)

(** Bit [i] of the header: byte [i] is not zero. *)
Fixpoint seg_header (seg : bytes) : Z :=
  match seg with [] => 0 | c :: seg => (if c =? 0 then 0 else 1) + 2 * seg_header seg end.

Definition nonzeros (seg : bytes) : bytes := filter (fun c => c <> 0) seg.

Definition ff_block (run : bytes) : bytes :=
  match run with
  | [] => []
  | _ => 0xff :: (Z.of_nat (length run) / 8 - 1) :: run
  end.

(** One segment: the output so far and the pending run of full segments. *)
Definition ref_step (st : bytes * bytes) (seg : bytes) : bytes * bytes :=
  let '(done_, run) := st in
  let nz := length (nonzeros seg) in
  if (nz =? 8)%nat || ((6 <=? nz)%nat && (0 <? length run)%nat) then
    let run := run ++ seg in
    if (length run =? 2048)%nat then (done_ ++ ff_block run, []) else (done_, run)
  else (done_ ++ ff_block run ++ seg_header seg :: nonzeros seg, []).

Fixpoint segments (k : nat) (p : bytes) : list bytes :=
  match k with O => [] | S k => take 8 p :: segments k (drop 8 p) end.

(** The source, padded with zeros to a multiple of eight bytes. *)
Definition padded (src : bytes) : bytes :=
  src ++ replicate (Z.to_nat (- Z.of_nat (length src) mod 8)) 0.

Definition nsegs (src : bytes) : nat := Z.to_nat ((Z.of_nat (length src) + 7) / 8).

Definition ref_pack (src : bytes) : bytes :=
  let '(done_, run) := foldl ref_step ([], []) (segments (nsegs src) (padded src)) in
  done_ ++ ff_block run.

(** [unpacks a x]: the packed form [a] stands for [x]. *)
Inductive unpacks : bytes -> bytes -> Prop :=
  | up_nil : unpacks [] []
  | up_ff n data a x :
      0 <= n < 256 -> Z.of_nat (length data) = 8 * (n + 1) -> unpacks a x ->
      unpacks (0xff :: n :: data ++ a) (data ++ x)
  | up_seg seg a x :
      length seg = 8%nat -> seg_header seg <> 0xff -> unpacks a x ->
      unpacks (seg_header seg :: nonzeros seg ++ a) (seg ++ x).

Lemma padded_length src : length (padded src) = (8 * nsegs src)%nat.
Proof.
  unfold padded, nsegs. rewrite length_app, length_replicate.
  Z.to_euclidean_division_equations; lia.
Qed.

Lemma unpacks_app a b x y : unpacks a x -> unpacks b y -> unpacks (a ++ b) (x ++ y).
Proof.
  intros Ha Hb. induction Ha as [|n data a x ? ? _ IH|seg a x ? ? _ IH]; [done|..]; cbn.
  - rewrite <- !(assoc_L (++)). by constructor.
  - rewrite <- !(assoc_L (++)). by constructor.
Qed.

Lemma seg_header_range seg : 0 <= seg_header seg < 2 ^ Z.of_nat (length seg).
Proof.
  induction seg as [|c seg IH]; cbn [seg_header length]; [done|].
  rewrite Nat2Z.inj_succ, Z.pow_succ_r by lia. destruct (c =? 0); lia.
Qed.

Lemma nonzeros_length seg : (length (nonzeros seg) <= length seg)%nat.
Proof. apply length_filter. Qed.

(** The header is [0xff] only when no byte is zero. *)
Lemma seg_header_full seg :
  seg_header seg = 2 ^ Z.of_nat (length seg) - 1 -> length (nonzeros seg) = length seg.
Proof.
  unfold nonzeros. induction seg as [|c seg IH]; cbn [seg_header length]; [done|].
  rewrite Nat2Z.inj_succ, Z.pow_succ_r, filter_cons by lia.
  pose proof (seg_header_range seg). destruct (Z.eqb_spec c 0).
  - intros. lia.
  - intros. rewrite decide_True by done. cbn. rewrite IH; lia.
Qed.

Lemma unpacks_ff run :
  (length run mod 8 = 0)%nat -> (length run <= 2048)%nat -> unpacks (ff_block run) run.
Proof.
  intros Hm Hl. destruct run as [|c run]; [constructor|]. unfold ff_block.
  apply Nat.Div0.mod_divides in Hm as [k Hk].
  rewrite <- (app_nil_r (c :: run)) at 2 3. constructor; [..|constructor].
  - assert (1 <= length (c :: run))%nat by (cbn; lia).
    rewrite Hk in *. Z.to_euclidean_division_equations; lia.
  - Z.to_euclidean_division_equations; lia.
Qed.

Lemma ref_step_unpacks done_ run x segs :
  Forall (fun seg => length seg = 8%nat) segs ->
  unpacks done_ x -> (length run mod 8 = 0)%nat -> (length run < 2048)%nat ->
  let '(d, r) := foldl ref_step (done_, run) segs in
  exists y, unpacks d y /\ (length r mod 8 = 0)%nat /\ (length r < 2048)%nat /\
    y ++ r = x ++ run ++ concat segs.
Proof.
  intros Hs. revert done_ run x.
  induction Hs as [|seg segs Hseg _ IH]; intros done_ run x Hd Hm Hl.
  { cbn. exists x. by rewrite app_nil_r. }
  cbn [foldl concat]. set (st := ref_step _ _). assert (Hst : exists y, unpacks st.1 y /\
    (length st.2 mod 8 = 0)%nat /\ (length st.2 < 2048)%nat /\ y ++ st.2 = x ++ run ++ seg).
  { subst st. unfold ref_step.
    assert (Hm' : (length (run ++ seg) mod 8 = 0)%nat).
    { rewrite length_app, Hseg. rewrite <- Nat.Div0.add_mod_idemp_l, Hm. done. }
    assert (Hl' : (length (run ++ seg) <= 2048)%nat).
    { rewrite length_app, Hseg. apply Nat.Div0.mod_divides in Hm as [k ?]. lia. }
    destruct (_ || _) eqn:E.
    - destruct (Nat.eqb_spec (length (run ++ seg)) 2048) as [H8|]; cbn [fst snd].
      + exists (x ++ run ++ seg). split; [|rewrite app_nil_r; cbn; eauto with lia].
        apply unpacks_app; [done|]. by apply unpacks_ff.
      + exists x. repeat split; [done..|]. lia.
    - cbn [fst snd]. exists (x ++ run ++ seg). split; [|rewrite app_nil_r; cbn; eauto with lia].
      apply unpacks_app; [done|]. apply unpacks_app; [apply unpacks_ff; [done|lia]|].
      pose proof (up_seg seg [] [] Hseg) as Hup. rewrite !app_nil_r in Hup.
      apply Hup; [|constructor].
      intros Hff. apply orb_false_iff in E as [E _]. apply Nat.eqb_neq in E.
      rewrite seg_header_full in E; rewrite ?Hseg; done. }
  destruct st as [d r], Hst as (y & Hy1 & Hy2 & Hy3 & Hy4). cbn [fst snd] in *.
  specialize (IH d r y Hy1 Hy2 Hy3). destruct (foldl _ _ _) as [d' r'].
  destruct IH as (z & ? & ? & ? & Hz). exists z. repeat split; [done..|].
  rewrite Hz, (assoc_L (++)), Hy4, <- !(assoc_L (++)). done.
Qed.

Lemma segments_spec k p : length p = (8 * k)%nat ->
  concat (segments k p) = p /\ Forall (fun seg => length seg = 8%nat) (segments k p).
Proof.
  revert p. induction k as [|k IH]; intros p Hp; cbn.
  - destruct p; [|done]. by repeat constructor.
  - destruct (IH (drop 8 p)) as [-> ?]; [rewrite length_drop; lia|].
    rewrite take_drop. split; [done|]. constructor; [|done]. rewrite length_take. lia.
Qed.

(** The reference output stands for the padded source. *)
Lemma ref_pack_unpacks src : unpacks (ref_pack src) (padded src).
Proof.
  unfold ref_pack. destruct (segments_spec (nsegs src) (padded src)) as [Hc Hf]; [apply padded_length|].
  pose proof (ref_step_unpacks [] [] [] _ Hf) as H.
  destruct (foldl _ _ _) as [d r]. destruct H as (y & ? & ? & ? & Hy); [constructor|done|cbn; lia|].
  cbn in Hy. rewrite Hc in Hy. rewrite <- Hy. apply unpacks_app; [done|]. apply unpacks_ff; [done|lia].
Qed.

(** ** The code against the reference *)

Lemma prefix_set d (buffer : bytes) pos x :
  d `prefix_of` buffer -> (length d <= pos)%nat -> d `prefix_of` <[pos := x]> buffer.
Proof.
  intros [k ->] Hd. exists (<[(pos - length d)%nat := x]> k). by rewrite insert_app_r_alt.
Qed.

Lemma prefix_set_snoc d (buffer : bytes) x :
  d `prefix_of` buffer -> (length d < length buffer)%nat ->
  d ++ [x] `prefix_of` <[length d := x]> buffer.
Proof.
  intros [k ->] Hd. rewrite length_app in Hd. destruct k as [|y k]; [cbn in Hd; lia|].
  exists k. rewrite insert_app_r_alt, Nat.sub_diag by lia. cbn. by rewrite <- (assoc_L (++)).
Qed.

Lemma pack_seg_loop_spec src i header notzero buffer pos sz :
  0 <= i -> 0 <= header < 2 ^ i -> 0 <= pos -> (sz <= 0 \/ pos + sz = Z.of_nat (length buffer)) ->
  exists buffer',
    pack_seg_loop src i header notzero buffer pos sz =
      Ret (header + seg_header src * 2 ^ i, notzero + Z.of_nat (length (nonzeros src)), buffer') /\
    length buffer' = length buffer /\
    (forall d, d `prefix_of` buffer -> Z.of_nat (length d) <= pos -> d `prefix_of` buffer') /\
    (forall d, d `prefix_of` buffer -> Z.of_nat (length d) = pos ->
      Z.of_nat (length (nonzeros src)) <= sz -> d ++ nonzeros src `prefix_of` buffer').
Proof.
  revert i header notzero buffer pos sz.
  induction src as [|c src IH]; intros i header notzero buffer pos sz Hi Hh Hpos Hsz.
  { exists buffer. cbn. rewrite !Z.add_0_r. repeat split; [done..|].
    intros. by rewrite app_nil_r. }
  assert (Hpow : 2 ^ (i + 1) = 2 * 2 ^ i) by (rewrite Z.pow_add_r by lia; lia).
  cbn [pack_seg_loop seg_header]. unfold nonzeros in *. rewrite filter_cons.
  destruct (Z.eqb_spec c 0).
  - rewrite decide_False by auto. rewrite Z.add_0_l.
    destruct (IH (i + 1) header notzero buffer pos sz) as (b & -> & ?); [lia..|].
    exists b. split; [|done]. do 3 f_equal. rewrite Hpow. lia.
  - rewrite decide_True by auto. cbn [length].
    assert (Hlor : Z.lor header (Z.shiftl 1 i) = header + 2 ^ i).
    { rewrite lor_shiftl_add; lia. }
    rewrite Hlor. destruct (Z.ltb_spec 0 sz).
    + rewrite arr_set_Ret by lia. rewrite bind_Ret.
      destruct (IH (i + 1) (header + 2 ^ i) (notzero + 1) (<[Z.to_nat pos:=c]> buffer) (pos + 1) (sz - 1))
        as (b & -> & Hlen & Hpre & Hfit); [lia..|rewrite length_insert; lia|].
      exists b. rewrite length_insert in Hlen. split; [do 3 f_equal; lia|].
      split; [done|]. split.
      * intros d Hd ?. apply Hpre; [|lia]. apply prefix_set; [done|lia].
      * intros d Hd Hl ?. specialize (Hfit (d ++ [c])). rewrite <- (assoc_L (++)) in Hfit.
        apply Hfit; [|rewrite length_app; cbn; lia|lia].
        replace (Z.to_nat pos) with (length d) by lia. apply prefix_set_snoc; [done|lia].
    + destruct (IH (i + 1) (header + 2 ^ i) (notzero + 1) buffer pos sz)
        as (b & -> & Hlen & Hpre & Hfit); [lia..|].
      exists b. split; [do 3 f_equal; lia|]. split; [done|]. split; [done|].
      intros. lia.
Qed.

(** What [pack_seg] returns, and what it leaves in the buffer. *)
Definition seg_full (seg : bytes) (n : Z) : bool :=
  let nz := length (nonzeros seg) in
  (nz =? 8)%nat || ((6 <=? nz)%nat && (0 <? n)).

Lemma pack_seg_spec seg buffer pos sz n :
  length seg = 8%nat -> 0 <= pos -> (sz <= 0 \/ pos + sz = Z.of_nat (length buffer)) ->
  exists buffer',
    pack_seg seg buffer pos sz n =
      Ret (if seg_full seg n then if 0 <? n then 8 else 10
           else Z.of_nat (length (nonzeros seg)) + 1, buffer') /\
    length buffer' = length buffer /\
    (forall d, d `prefix_of` buffer -> Z.of_nat (length d) <= pos -> d `prefix_of` buffer') /\
    (seg_full seg n = false ->
     forall d, d `prefix_of` buffer -> Z.of_nat (length d) = pos ->
       Z.of_nat (length (nonzeros seg)) + 1 <= sz ->
       d ++ seg_header seg :: nonzeros seg `prefix_of` buffer').
Proof.
  intros Hseg Hpos Hsz. unfold pack_seg.
  destruct (pack_seg_loop_spec seg 0 0 0 buffer (pos + 1) (sz - 1))
    as (b & -> & Hlen & Hpre & Hfit); [lia..|].
  rewrite bind_Ret. cbn zeta. rewrite Z.mul_1_r, !Z.add_0_l.
  pose proof (nonzeros_length seg) as Hnz. rewrite Hseg in Hnz.
  set (nz := length (nonzeros seg)) in *.
  assert (Hfull : ((if ((Z.of_nat nz =? 7) || (Z.of_nat nz =? 6)) && (0 <? n)
      then 8 else Z.of_nat nz) =? 8) = seg_full seg n).
  { unfold seg_full. fold nz. destruct (0 <? n).
    - rewrite !andb_true_r. destruct (Nat.eqb_spec nz 8), (Nat.leb_spec 6 nz),
        (Z.eqb_spec (Z.of_nat nz) 7), (Z.eqb_spec (Z.of_nat nz) 6); cbn; try lia;
        destruct (Z.eqb_spec (Z.of_nat nz) 8); lia.
    - rewrite !andb_false_r, orb_false_r.
      destruct (Nat.eqb_spec nz 8), (Z.eqb_spec (Z.of_nat nz) 8); lia. }
  assert (Hnz' : seg_full seg n = false ->
    (if ((Z.of_nat nz =? 7) || (Z.of_nat nz =? 6)) && (0 <? n) then 8 else Z.of_nat nz) = Z.of_nat nz).
  { rewrite <- Hfull. destruct (_ && _); [done|]. done. }
  rewrite Hfull. destruct (seg_full seg n).
  { exists b. split; [done|]. split; [done|]. split; [|done]. intros. apply Hpre; [done|lia]. }
  rewrite Hnz' by done. destruct (Z.ltb_spec (sz - 1) 0).
  { exists b. rewrite bind_Ret. split; [done|]. split; [done|]. split; [|lia].
    intros. apply Hpre; [done|lia]. }
  rewrite arr_set_Ret by lia. rewrite bind_Ret. eexists. split; [reflexivity|].
  rewrite length_insert. split; [done|]. split.
  { intros. apply prefix_set; [|lia]. apply Hpre; [done|lia]. }
  intros _ d [k ->] Hd Hn. rewrite length_app in *. destruct k as [|y k]; [cbn in *; lia|].
  destruct (Hfit (d ++ [y])) as [k' Hk'];
    [exists k; by rewrite <- (assoc_L (++))|rewrite length_app; cbn; lia|lia|].
  subst b. exists k'. rewrite <- !(assoc_L (++)). rewrite insert_app_r_alt by lia.
  replace (Z.to_nat pos - length d)%nat with 0%nat by lia. cbn. done.
Qed.

Lemma mem_read_Ret src pos n :
  0 <= pos -> 0 <= n -> pos + n <= Z.of_nat (length src) ->
  mem_read src pos n = Ret (take (Z.to_nat n) (drop (Z.to_nat pos) src)).
Proof.
  intros. unfold mem_read. destruct (Z.ltb_spec pos 0), (Z.ltb_spec n 0),
    (Z.ltb_spec (Z.of_nat (length src)) (pos + n)); try lia. done.
Qed.

Lemma mem_write_mid d m k data :
  length m = length data ->
  mem_write (d ++ m ++ k) (Z.of_nat (length d)) data = Ret (d ++ data ++ k).
Proof.
  intros Hm. unfold mem_write. rewrite !length_app.
  destruct (Z.ltb_spec (Z.of_nat (length d)) 0),
    (Z.ltb_spec (Z.of_nat (length d + (length m + length k))) (Z.of_nat (length d) + Z.of_nat (length data)));
    try lia. cbn [orb]. rewrite Nat2Z.id, take_app_length, <- drop_drop, drop_app_length.
  by rewrite <- Hm, drop_app_length.
Qed.

Lemma arr_set_mid (d k : bytes) x c :
  arr_set (d ++ x :: k) (Z.of_nat (length d)) c = Ret (d ++ c :: k).
Proof.
  rewrite arr_set_Ret by (rewrite length_app; cbn; lia).
  by rewrite Nat2Z.id, insert_app_r_alt, Nat.sub_diag by lia.
Qed.

Lemma align8 n : Z.land (n + 7) (-8) = 8 * ((n + 7) / 8).
Proof.
  change (-8) with (Z.lnot (Z.ones 3)). rewrite <- Z.ldiff_land, Z.ldiff_ones_r by lia.
  rewrite Z.shiftl_mul_pow2, Z.shiftr_div_pow2 by lia. apply Z.mul_comm.
Qed.

Lemma write_ff_spec src o n d m k :
  let al := 8 * ((n + 7) / 8) in
  let run := take (Z.to_nat n) (drop (Z.to_nat o) src) ++ replicate (Z.to_nat (al - n)) 0 in
  0 <= o -> 0 < n <= 2048 -> o + n <= Z.of_nat (length src) -> Z.of_nat (length m) = al + 2 ->
  write_ff (src, o) (d ++ m ++ k) (Z.of_nat (length d)) n = Ret (d ++ ff_block run ++ k).
Proof.
  intros al run Ho Hn Hon Hm. unfold write_ff. rewrite align8. cbn [fst snd]. fold al.
  assert (Hal : n <= al < n + 8) by (subst al; Z.to_euclidean_division_equations; lia).
  assert (Hrun : Z.of_nat (length run) = al).
  { subst run. rewrite length_app, length_replicate, length_take, length_drop. lia. }
  assert (Hff : ff_block run = 0xff :: u8 (al / 8 - 1) :: run).
  { unfold ff_block. destruct run as [|c r] eqn:E; [cbn in Hrun; lia|].
    rewrite Hrun, u8_small; [done|]. Z.to_euclidean_division_equations; lia. }
  rewrite Hff. subst run. clearbody al.
  destruct m as [|x [|y m]]; cbn [length] in Hm; [lia..|].
  cbn [app]. rewrite arr_set_mid, bind_Ret.
  replace (d ++ 0xff :: y :: m ++ k) with ((d ++ [0xff]) ++ y :: m ++ k) by (by rewrite <- (assoc_L (++))).
  replace (Z.of_nat (length d) + 1) with (Z.of_nat (length (d ++ [0xff]))) by (rewrite length_app; cbn; lia).
  rewrite arr_set_mid, bind_Ret, mem_read_Ret, bind_Ret by lia.
  set (c := u8 _). set (data := take _ _). assert (Hdata : Z.of_nat (length data) = n).
  { subst data. rewrite length_take, length_drop. lia. }
  rewrite <- (take_drop (length data) m). clearbody data c.
  replace ((d ++ [0xff]) ++ c :: (take (length data) m ++ drop (length data) m) ++ k)
    with ((d ++ [0xff; c]) ++ take (length data) m ++ drop (length data) m ++ k)
    by (by rewrite <- !(assoc_L (++))).
  replace (Z.of_nat (length d) + 2) with (Z.of_nat (length (d ++ [0xff; c]))) by (rewrite length_app; cbn; lia).
  rewrite mem_write_mid, bind_Ret by (rewrite length_take; lia).
  rewrite (assoc_L (++) _ data).
  replace (Z.of_nat (length d) + n + 2) with (Z.of_nat (length ((d ++ [0xff; c]) ++ data)))
    by (rewrite !length_app; cbn; lia).
  rewrite mem_write_mid by (rewrite length_drop, length_replicate; lia).
  f_equal. by rewrite <- !(assoc_L (++)).
Qed.

Lemma padded_take src o n :
  (o + n <= length src)%nat -> take n (drop o (padded src)) = take n (drop o src).
Proof.
  intros. unfold padded. rewrite drop_app_le, take_app_le; [done|rewrite length_drop; lia|lia].
Qed.

Lemma padded_tail src o n :
  (o <= length src)%nat -> (o + n = length (padded src))%nat ->
  take n (drop o (padded src)) = drop o src ++ replicate (length (padded src) - length src) 0.
Proof.
  intros Ho Hn. rewrite take_ge by (rewrite length_drop; lia).
  assert (Hp : (length (padded src) - length src)%nat = Z.to_nat (- Z.of_nat (length src) mod 8)).
  { unfold padded. rewrite length_app, length_replicate. lia. }
  rewrite Hp. unfold padded. by rewrite drop_app_le.
Qed.

(** The segment at [i], and where [src] points for it. *)
Lemma seg_at src i :
  0 <= i < Z.of_nat (length src) -> i mod 8 = 0 ->
  let seg := take 8 (drop (Z.to_nat i) (padded src)) in
  let padding := i + 8 - Z.of_nat (length src) in
  (if 0 <? padding then
     part ← mem_read src i (8 - padding);
     let tmp := part ++ replicate (Z.to_nat padding) 0 in
     Ret (tmp, (tmp, 0))
   else seg ← mem_read src i 8; Ret (seg, (src, i))) =
  Ret (seg, if 0 <? padding then (seg, 0) else (src, i)).
Proof.
  intros Hi Hm seg padding. pose proof (padded_length src) as Hp. unfold nsegs in Hp.
  destruct (Z.ltb_spec 0 padding).
  - rewrite mem_read_Ret, bind_Ret by lia. cbn zeta.
    enough (take (Z.to_nat (8 - padding)) (drop (Z.to_nat i) src) ++ replicate (Z.to_nat padding) 0 = seg)
      as -> by done.
    subst seg. assert (length (padded src) = (Z.to_nat i + 8)%nat)
      by (Z.to_euclidean_division_equations; lia).
    rewrite padded_tail by lia. rewrite take_ge by (rewrite length_drop; lia).
    do 2 f_equal. lia.
  - rewrite mem_read_Ret, bind_Ret by lia. subst seg. by rewrite padded_take by lia.
Qed.

Lemma length_ff_block r : length (ff_block r) = match r with [] => 0%nat | _ => (length r + 2)%nat end.
Proof. destruct r; cbn; lia. Qed.

(** The state of the loop before the segment at [i]: [d] is the output
    without the pending run [r]. *)
Record pack_inv (src : bytes) (B i : Z) (d r : bytes) (st : pack_state) : Prop := {
  pi_i : 0 <= i /\ i mod 8 = 0;
  pi_max : 4 * pk_size st <= 5 * i;
  pi_n : Z.of_nat (length r) = 8 * pk_ff_n st;
  pi_n_lt : pk_ff_n st < 256;
  pi_run : (length r <= Z.to_nat i)%nat;
  pi_src : r <> [] ->
    r = take (length r) (drop (Z.to_nat i - length r) (padded src)) /\
    pk_ff_des st = Z.of_nat (length d) /\
    pk_ff_src st = if (Z.of_nat (length src) <? i) && (length r =? 8)%nat then (r, 0)
                   else (src, i - Z.of_nat (length r));
  pi_size : pk_size st = Z.of_nat (length (d ++ ff_block r));
  pi_pos : pk_pos st = pk_size st;
  pi_bufsz : pk_bufsz st = B - pk_size st;
  pi_buffer : Z.of_nat (length (pk_buffer st)) = B;
  pi_done : 0 <= pk_bufsz st -> d `prefix_of` pk_buffer st }.

(** Writing a run that lies in the source. *)
Lemma write_run src i r d m k n :
  r = take (length r) (drop (i - length r) (padded src)) ->
  (length r <= i <= length src)%nat -> Z.of_nat (length r) = 8 * n -> 0 < n <= 256 ->
  Z.of_nat (length m) = 8 * n + 2 ->
  write_ff (src, Z.of_nat i - Z.of_nat (length r)) (d ++ m ++ k) (Z.of_nat (length d)) (8 * n) =
    Ret (d ++ ff_block r ++ k).
Proof.
  intros Hr Hi Hn Hn' Hm.
  assert (H8 : 8 * ((8 * n + 7) / 8) = 8 * n) by (Z.to_euclidean_division_equations; lia).
  rewrite write_ff_spec by lia. rewrite H8, Z.sub_diag. cbn [Z.to_nat replicate].
  rewrite app_nil_r. replace (Z.to_nat (8 * n)) with (length r) by lia.
  rewrite padded_take in Hr by lia.
  replace (Z.to_nat (Z.of_nat i - Z.of_nat (length r))) with (i - length r)%nat by lia.
  by rewrite <- Hr.
Qed.

Lemma prefix_split d (b : bytes) n :
  d `prefix_of` b -> (length d + n <= length b)%nat ->
  exists m k, b = d ++ m ++ k /\ length m = n.
Proof.
  intros [k ->] Hl. rewrite length_app in Hl. exists (take n k), (drop n k).
  rewrite take_drop. split; [done|]. rewrite length_take. lia.
Qed.

Lemma run_extend src i r :
  (length r <= i)%nat -> (i + 8 <= length (padded src))%nat ->
  r = take (length r) (drop (i - length r) (padded src)) ->
  let r' := r ++ take 8 (drop i (padded src)) in
  length r' = (length r + 8)%nat /\
  r' = take (length r') (drop (i + 8 - length r') (padded src)).
Proof.
  intros Hi Hp Hr r'. assert (Hl : length r' = (length r + 8)%nat).
  { subst r'. rewrite length_app, length_take, length_drop. lia. }
  split; [done|]. rewrite Hl. replace (i + 8 - (length r + 8))%nat with (i - length r)%nat by lia.
  rewrite <- take_take_drop, <- Hr, drop_drop. subst r'. do 3 f_equal. lia.
Qed.

Section step.
Context (src : bytes) (B i : Z) (d r : bytes) (st : pack_state).
Hypothesis Hinv : pack_inv src B i d r st.
Hypothesis Hi : i < Z.of_nat (length src).
Hypothesis Hint : Z.of_nat (length src) <= 2 ^ 30.
Hypothesis HB : B <= INT_MAX.
Hypothesis Hsafe : Z.of_nat (length src) mod 8 = 0 \/ Z.of_nat (length src) <= 2040.

Let seg := take 8 (drop (Z.to_nat i) (padded src)).

Lemma seg_fits : (Z.to_nat i + 8 <= length (padded src))%nat.
Proof.
  pose proof (padded_length src) as Hp. unfold nsegs in Hp. destruct (pi_i _ _ _ _ _ _ Hinv).
  Z.to_euclidean_division_equations; lia.
Qed.

Lemma seg_length : length seg = 8%nat.
Proof. subst seg. pose proof seg_fits. rewrite length_take, length_drop. lia. Qed.

Lemma pack_step_unfold :
  exists b, length b = length (pk_buffer st) /\
    (forall d', d' `prefix_of` pk_buffer st -> Z.of_nat (length d') <= pk_pos st -> d' `prefix_of` b) /\
    (seg_full seg (pk_ff_n st) = false ->
     forall d', d' `prefix_of` pk_buffer st -> Z.of_nat (length d') = pk_pos st ->
       Z.of_nat (length (nonzeros seg)) + 1 <= pk_bufsz st ->
       d' ++ seg_header seg :: nonzeros seg `prefix_of` b) /\
    pack_step src i st =
      (let n := if seg_full seg (pk_ff_n st) then if 0 <? pk_ff_n st then 8 else 10
                else Z.of_nat (length (nonzeros seg)) + 1 in
       let bufsz := pk_bufsz st - n in
       '(buffer, ff_src, ff_des, ff_n) ←
         (if n =? 10 then
            Ret (b, if 0 <? i + 8 - Z.of_nat (length src) then (seg, 0) else (src, i), pk_pos st, 1)
          else if (n =? 8) && (0 <? pk_ff_n st) then
            let ff_n := pk_ff_n st + 1 in
            if ff_n =? 256 then
              buffer ← (if 0 <=? bufsz then write_ff (pk_ff_src st) b (pk_ff_des st) (256 * 8)
                        else Ret b);
              Ret (buffer, pk_ff_src st, pk_ff_des st, 0)
            else Ret (b, pk_ff_src st, pk_ff_des st, ff_n)
          else if 0 <? pk_ff_n st then
            buffer ← (if 0 <=? bufsz then write_ff (pk_ff_src st) b (pk_ff_des st) (pk_ff_n st * 8)
                      else Ret b);
            Ret (buffer, pk_ff_src st, pk_ff_des st, 0)
          else Ret (b, pk_ff_src st, pk_ff_des st, pk_ff_n st));
       Ret (PackState buffer (pk_pos st + n) bufsz ff_src ff_des ff_n (pk_size st + n))).
Proof.
  destruct Hinv as [[??] ????? Hsz Hpos Hbuf Hlen Hdone].
  pose proof (nonzeros_length seg) as Hnz. rewrite seg_length in Hnz.
  destruct (pack_seg_spec seg (pk_buffer st) (pk_pos st) (pk_bufsz st) (pk_ff_n st))
    as (b & Heq & Hb); [apply seg_length|lia..|].
  exists b. destruct Hb as (? & ? & ?). split; [done|]. split; [done|]. split; [done|].
  unfold pack_step. cbn zeta. pose proof (seg_at src i) as Hseg. cbn zeta in Hseg.
  rewrite (int_ok_Ret (i + 8)), bind_Ret, Hseg, bind_Ret by (unfold INT_MIN, INT_MAX; lia). fold seg. rewrite Heq, bind_Ret.
  set (n := if seg_full seg (pk_ff_n st) then _ else _). assert (Hn : 1 <= n <= 10).
  { subst n. destruct (seg_full _ _); [destruct (0 <? _); lia|lia]. }
  rewrite !int_ok_Ret, bind_Ret by (unfold INT_MIN, INT_MAX in *; lia). reflexivity.
Qed.

Lemma pending_buffer b : length b = length (pk_buffer st) ->
  (forall d', d' `prefix_of` pk_buffer st -> Z.of_nat (length d') <= pk_pos st -> d' `prefix_of` b) ->
  0 <= pk_bufsz st -> d `prefix_of` b.
Proof.
  intros Hb Hpre H0. destruct Hinv as [? ? ? ? ? ? Hsz Hpos Hbuf Hlen Hdone].
  apply Hpre; [auto|]. rewrite length_app in Hsz. lia.
Qed.

Lemma full_cond :
  seg_full seg (pk_ff_n st) =
    (length (nonzeros seg) =? 8)%nat || ((6 <=? length (nonzeros seg))%nat && (0 <? length r)%nat).
Proof.
  unfold seg_full. do 2 f_equal. pose proof (pi_n _ _ _ _ _ _ Hinv).
  destruct (Z.ltb_spec 0 (pk_ff_n st)), (Nat.ltb_spec 0 (length r)); lia.
Qed.

(** The segment is written out after the pending run. *)
Lemma pack_step_seg :
  seg_full seg (pk_ff_n st) = false ->
  exists st', pack_step src i st = Ret st' /\
    pack_inv src B (i + 8) (d ++ ff_block r ++ seg_header seg :: nonzeros seg) [] st'.
Proof.
  intros Hfull. destruct pack_step_unfold as (b & Hb & Hpre & Hseg & Heq).
  pose proof seg_length as Hs8. pose proof (nonzeros_length seg) as Hnz.
  assert (Hnz8 : length (nonzeros seg) <> 8%nat).
  { intros H8. unfold seg_full in Hfull. rewrite H8 in Hfull. done. }
  assert (Hn7 : 0 < pk_ff_n st -> (length (nonzeros seg) < 6)%nat).
  { intros Hn. unfold seg_full in Hfull. apply orb_false_iff in Hfull as [_ Hfull].
    rewrite (proj2 (Z.ltb_lt 0 _)), andb_true_r in Hfull by done. by apply Nat.leb_gt in Hfull. }
  pose proof Hinv as [[Hi0 Him] Hmax Hrn Hn256 Hri Hsrc Hsz Hpos Hbuf Hlen Hdone].
  rewrite Heq, Hfull. clear Heq. cbn zeta. set (n := Z.of_nat (length (nonzeros seg)) + 1).
  set (d' := d ++ ff_block r ++ _).
  assert (Hd' : Z.of_nat (length d') = pk_size st + n).
  { subst d' n. rewrite Hsz, !length_app. cbn [length]. lia. }
  (* what the buffer holds, when it is big enough *)
  assert (Hfit : 0 <= pk_bufsz st - n -> exists m k,
    b = d ++ m ++ (seg_header seg :: nonzeros seg) ++ k /\ length m = length (ff_block r)).
  { intros H0. destruct (prefix_split d (pk_buffer st) (length (ff_block r))) as (m & k & Hm & Hlm).
    { apply Hdone. lia. }
    { rewrite length_app in Hsz. lia. }
    destruct (Hseg Hfull (d ++ m)) as [k' Hk'].
    { exists k. by rewrite Hm, <- (assoc_L (++)). }
    { rewrite !length_app in *. lia. }
    { lia. }
    exists m, k'. by rewrite Hk', <- !(assoc_L (++)). }
  rewrite (proj2 (Z.eqb_neq n 10)) by lia.
  assert (H8 : (n =? 8) && (0 <? pk_ff_n st) = false).
  { destruct (Z.ltb_spec 0 (pk_ff_n st)); [|apply andb_false_r].
    rewrite (proj2 (Z.eqb_neq n 8)); [done|lia]. }
  rewrite H8.
  assert (Hgo : exists b' : bytes, (if 0 <? pk_ff_n st then
      buffer ← (if 0 <=? pk_bufsz st - n then write_ff (pk_ff_src st) b (pk_ff_des st) (pk_ff_n st * 8)
                else Ret b);
      Ret (buffer, pk_ff_src st, pk_ff_des st, 0)
    else Ret (b, pk_ff_src st, pk_ff_des st, pk_ff_n st)) =
      Ret (b', pk_ff_src st, pk_ff_des st, 0) /\ length b' = length b /\
    (0 <= pk_bufsz st - n -> d' `prefix_of` b')).
  { destruct (Z.ltb_spec 0 (pk_ff_n st)).
    - destruct (Z.leb_spec 0 (pk_bufsz st - n)) as [H0|].
      + assert (Hr : r <> []) by (intros ->; cbn in Hrn; lia).
        destruct (Hsrc Hr) as (Hr1 & -> & ->). destruct (Hfit H0) as (m & k & -> & Hm).
        rewrite (proj2 (Z.ltb_ge _ _)) by lia. cbn [andb].
        rewrite length_ff_block in Hm.
        pose proof (write_run src (Z.to_nat i) r d m ((seg_header seg :: nonzeros seg) ++ k) (pk_ff_n st)) as Hw.
        rewrite Z2Nat.id in Hw by lia.
        rewrite (Z.mul_comm (pk_ff_n st)), Hw; [|done|lia|lia|lia|destruct r; [done|lia]].
        rewrite bind_Ret. eexists. split; [reflexivity|]. split.
        * rewrite !length_app, length_ff_block. lia.
        * intros _. exists k. subst d'. by rewrite <- !(assoc_L (++)).
      + rewrite bind_Ret. eexists. split; [reflexivity|]. split; [done|]. lia.
    - assert (Hn0 : pk_ff_n st = 0) by lia. rewrite Hn0. eexists. split; [reflexivity|].
      split; [done|]. intros H0. destruct (Hfit H0) as (m & k & -> & Hm).
      destruct r; [|cbn in Hrn; lia]. destruct m; [|done]. exists k. subst d'. cbn.
      by rewrite <- !(assoc_L (++)). }
  destruct Hgo as (b' & -> & Hlb' & Hpre'). rewrite bind_Ret. eexists. split; [reflexivity|].
  assert (n <= 8) by lia. clearbody d' n. split; cbn [pk_buffer pk_pos pk_bufsz pk_ff_src pk_ff_des pk_ff_n pk_size]; try done; try lia.
  - split; [lia|]. rewrite <- Z.add_mod_idemp_l, Him; done.
  - cbn. lia.
  - cbn [ff_block]. rewrite app_nil_r. lia.
Qed.

(** The segment joins the run. *)
Lemma pack_step_run :
  seg_full seg (pk_ff_n st) = true -> length (r ++ seg) <> 2048%nat ->
  exists st', pack_step src i st = Ret st' /\ pack_inv src B (i + 8) d (r ++ seg) st'.
Proof.
  intros Hfull H2048. destruct pack_step_unfold as (b & Hb & Hpre & _ & Heq).
  pose proof seg_length as Hs8. pose proof (pending_buffer b Hb Hpre) as Hd. pose proof seg_fits as Hfits.
  pose proof Hinv as [[Hi0 Him] Hmax Hrn Hn256 Hri Hsrc Hsz Hpos Hbuf Hlen Hdone].
  rewrite Heq, Hfull. clear Heq. cbn zeta. rewrite length_app, Hs8 in H2048.
  assert (Hff : forall n st', n = (if 0 <? pk_ff_n st then 8 else 10) ->
    pk_pos st' = pk_pos st + n -> pk_size st' = pk_size st + n -> pk_bufsz st' = pk_bufsz st - n ->
    pk_ff_n st' = pk_ff_n st + 1 -> pk_buffer st' = b -> pk_ff_des st' = Z.of_nat (length d) ->
    pk_ff_src st' = (if (Z.of_nat (length src) <? i + 8) && (length (r ++ seg) =? 8)%nat
       then (r ++ seg, 0) else (src, i + 8 - Z.of_nat (length (r ++ seg)))) ->
    pack_inv src B (i + 8) d (r ++ seg) st').
  { intros n st' -> Hp' Hs' Hb' Hn' Hbuf' Hdes' Hsrc'. split.
    - split; [lia|]. rewrite <- Z.add_mod_idemp_l, Him; done.
    - rewrite Hs'. destruct (0 <? pk_ff_n st); lia.
    - rewrite length_app. lia.
    - lia.
    - rewrite length_app. lia.
    - intros _. split; [|done]. destruct (run_extend src (Z.to_nat i) r) as [Hl He]; [done..| |].
      + destruct (decide (r = [])) as [->|Hr]; [done|]. by destruct (Hsrc Hr).
      + fold seg in Hl, He. replace (Z.to_nat (i + 8)) with (Z.to_nat i + 8)%nat by lia. exact He.
    - rewrite Hs', Hsz, !length_app, !length_ff_block, length_app, Hs8.
      destruct r as [|c r'] eqn:Er; cbn [app].
      + destruct seg; [done|]. cbn in Hrn. rewrite (proj2 (Z.ltb_ge _ _)) by lia. cbn [length]. lia.
      + cbn [length] in Hrn |- *. rewrite (proj2 (Z.ltb_lt _ _)) by lia. lia.
    - lia.
    - lia.
    - by rewrite Hbuf', Hb.
    - intros H0. rewrite Hbuf'. apply Hd. rewrite Hb' in H0. destruct (0 <? _); lia. }
  destruct (Z.ltb_spec 0 (pk_ff_n st)) as [Hn|Hn]; cbn [andb Z.eqb Pos.eqb].
  - rewrite (proj2 (Z.eqb_neq _ 256)) by lia. rewrite bind_Ret. eexists. split; [reflexivity|].
    assert (Hr : r <> []) by (intros ->; cbn in Hrn; lia). destruct (Hsrc Hr) as (_ & Hdes & Hs).
    eapply Hff; try reflexivity; [done|]. cbn [pk_ff_src]. rewrite Hs, length_app, Hs8.
    rewrite (proj2 (Z.ltb_ge _ i)) by lia. cbn [andb].
    assert ((length r + 8 =? 8)%nat = false) as -> by (apply Nat.eqb_neq; destruct r; [done|cbn; lia]).
    rewrite andb_false_r. f_equal. lia.
  - assert (r = []) as -> by (destruct r; [done|cbn in Hrn; lia]).
    rewrite bind_Ret. eexists. split; [reflexivity|].
    eapply Hff; try reflexivity; cbn [pk_ff_n pk_ff_des pk_ff_src app].
    + cbn in Hrn. lia.
    + rewrite Hpos, Hsz, length_app. cbn. lia.
    + rewrite Hs8. cbn [Nat.eqb]. rewrite andb_true_r.
      destruct (Z.ltb_spec 0 (i + 8 - Z.of_nat (length src))),
        (Z.ltb_spec (Z.of_nat (length src)) (i + 8)); try lia; [done|]. f_equal. lia.
Qed.

(** The segment completes a run of 256 segments, which is written out. *)
Lemma pack_step_flush :
  seg_full seg (pk_ff_n st) = true -> length (r ++ seg) = 2048%nat ->
  exists st', pack_step src i st = Ret st' /\ pack_inv src B (i + 8) (d ++ ff_block (r ++ seg)) [] st'.
Proof.
  intros Hfull H2048. destruct pack_step_unfold as (b & Hb & Hpre & _ & Heq).
  pose proof seg_length as Hs8. pose proof (pending_buffer b Hb Hpre) as Hd. pose proof seg_fits as Hfits.
  pose proof Hinv as [[Hi0 Him] Hmax Hrn Hn256 Hri Hsrc Hsz Hpos Hbuf Hlen Hdone].
  rewrite Heq, Hfull. clear Heq. cbn zeta. pose proof H2048 as Hl. rewrite length_app, Hs8 in Hl.
  assert (Hr : r <> []) by (intros ->; done). destruct (Hsrc Hr) as (Hr1 & Hdes & Hs).
  rewrite (proj2 (Z.ltb_lt 0 _)) by lia. cbn [andb Z.eqb Pos.eqb].
  rewrite (proj2 (Z.eqb_eq _ 256)) by lia.
  assert (Hi8 : i + 8 <= Z.of_nat (length src)).
  { Z.to_euclidean_division_equations; lia. }
  set (d' := d ++ ff_block (r ++ seg)).
  assert (Hd' : Z.of_nat (length d') = pk_size st + 8).
  { subst d'. rewrite Hsz, !length_app, !length_ff_block, length_app.
    destruct r; [done|]. cbn [app length] in *. lia. }
  assert (Hgo : exists b', (if 0 <=? pk_bufsz st - 8 then write_ff (pk_ff_src st) b (pk_ff_des st) (256 * 8)
      else Ret b) = Ret b' /\ length b' = length b /\ (0 <= pk_bufsz st - 8 -> d' `prefix_of` b')).
  { destruct (Z.leb_spec 0 (pk_bufsz st - 8)) as [H0|]; [|exists b; split; [done|split; [done|lia]]].
    destruct (prefix_split d b 2050) as (m & k & -> & Hm).
    { apply Hd. lia. }
    { rewrite Hb. rewrite length_app, length_ff_block in Hsz. destruct r; [done|]. cbn [length] in *. lia. }
    pose proof (write_run src (Z.to_nat i + 8) (r ++ seg) d m k 256) as Hw.
    rewrite H2048 in Hw. rewrite Hs, Hdes, (proj2 (Z.ltb_ge _ i)) by lia. cbn [andb].
    replace (i - Z.of_nat (length r)) with (Z.of_nat (Z.to_nat i + 8) - Z.of_nat 2048) by lia.
    change (256 * 8) with (8 * 256). rewrite Hw; [..|lia|lia|lia|lia].
    - eexists. split; [reflexivity|]. split; [rewrite !length_app, length_ff_block, H2048|].
      + destruct (r ++ seg); [done|]. lia.
      + intros _. exists k. subst d'. by rewrite <- !(assoc_L (++)).
    - destruct (run_extend src (Z.to_nat i) r) as [_ He]; [done..|]. fold seg in He.
      by rewrite H2048 in He. }
  destruct Hgo as (b' & -> & Hlb' & Hpre'). rewrite bind_Ret. cbn beta iota. rewrite bind_Ret.
  eexists. split; [reflexivity|].
  clearbody d'. split; cbn [pk_buffer pk_pos pk_bufsz pk_ff_src pk_ff_des pk_ff_n pk_size]; try done; try lia.
  - split; [lia|]. rewrite <- Z.add_mod_idemp_l, Him; done.
  - cbn. lia.
  - cbn [ff_block]. rewrite app_nil_r. lia.
Qed.

Lemma pack_step_ok :
  exists st', pack_step src i st = Ret st' /\
    let '(d', r') := ref_step (d, r) seg in pack_inv src B (i + 8) d' r' st'.
Proof.
  unfold ref_step. rewrite <- full_cond. destruct (seg_full _ _) eqn:E.
  - destruct (Nat.eqb_spec (length (r ++ seg)) 2048); [by apply pack_step_flush|by apply pack_step_run].
  - by apply pack_step_seg.
Qed.
End step.

Lemma pack_loop_ok src B k i d r st :
  pack_inv src B i d r st -> i + 8 * Z.of_nat k = 8 * Z.of_nat (nsegs src) ->
  Z.of_nat (length src) mod 8 = 0 \/ Z.of_nat (length src) <= 2040 ->
  Z.of_nat (length src) <= 2 ^ 30 -> B <= INT_MAX ->
  exists st', pack_loop k src i st = Ret st' /\
    let '(d', r') := foldl ref_step (d, r) (segments k (drop (Z.to_nat i) (padded src))) in
    pack_inv src B (8 * Z.of_nat (nsegs src)) d' r' st'.
Proof.
  revert i d r st. induction k as [|k IH]; intros i d r st Hinv Hk Hsafe Hint HB.
  { exists st. split; [done|]. cbn. by replace (8 * Z.of_nat (nsegs src)) with i by lia. }
  cbn [pack_loop segments foldl].
  assert (Hi : i < Z.of_nat (length src)).
  { unfold nsegs in Hk. destruct (pi_i _ _ _ _ _ _ Hinv). Z.to_euclidean_division_equations; lia. }
  destruct (pack_step_ok src B i d r st Hinv Hi Hint HB Hsafe) as (st1 & -> & Hst1). rewrite bind_Ret.
  destruct (ref_step (d, r) _) as [d1 r1]. rewrite drop_drop.
  replace (Z.to_nat i + 8)%nat with (Z.to_nat (i + 8)) by (destruct (pi_i _ _ _ _ _ _ Hinv); lia).
  apply IH; [done|lia|done..].
Qed.

(** The code computes the reference form: the size whatever the buffer, the
    bytes when the buffer is large enough. *)
Lemma sproto_pack_ref src buffer :
  Z.of_nat (length src) mod 8 = 0 \/ Z.of_nat (length src) <= 2040 ->
  Z.of_nat (length src) <= 2 ^ 30 -> Z.of_nat (length buffer) <= INT_MAX ->
  exists buffer', sproto_pack src buffer = Ret (Z.of_nat (length (ref_pack src)), buffer') /\
    length buffer' = length buffer /\
    ((length (ref_pack src) <= length buffer)%nat -> ref_pack src `prefix_of` buffer').
Proof.
  intros Hsafe Hint HB. unfold sproto_pack, ref_pack. cbn zeta. fold (nsegs src).
  destruct (pack_loop_ok src (Z.of_nat (length buffer)) (nsegs src) 0 [] []
    (PackState buffer 0 (Z.of_nat (length buffer)) ([], 0) 0 0 0)) as (st & -> & Hst); [|lia|done..|].
  { split; cbn; try lia; try done. intros _. apply prefix_nil. }
  rewrite bind_Ret. cbn [drop] in Hst. change (Z.to_nat 0) with 0%nat in Hst. rewrite drop_0 in Hst.
  destruct (foldl ref_step _ _) as [d r].
  pose proof Hst as [[Hi0 Him] Hmax Hrn Hn256 Hri Hsrc Hsz Hpos Hbuf Hlen Hdone].
  pose proof (padded_length src) as Hp.
  assert (Hn : 8 * Z.of_nat (nsegs src) - 8 < Z.of_nat (length src) <= 8 * Z.of_nat (nsegs src) \/
    nsegs src = 0%nat /\ length src = 0%nat).
  { unfold nsegs. Z.to_euclidean_division_equations; lia. }
  rewrite Hsz in *. rewrite length_app, length_ff_block in Hsz |- *.
  assert (Hcases : r = [] \/ 0 <= pk_bufsz st /\ r <> [] /\ length (pk_buffer st) = length buffer \/
    r <> [] /\ pk_bufsz st < 0) by (destruct r; [by left|right; destruct (Z.lt_ge_cases (pk_bufsz st) 0); [right|left]; repeat split; (done || lia)]).
  destruct Hcases as [->|[(H0 & Hr & Hlb)|[Hr H0]]].
  - cbn [length] in Hrn. assert (pk_ff_n st = 0) as -> by lia. cbn [Z.eqb Z.ltb Z.compare].
    exists (pk_buffer st). split; [by destruct (0 <=? _)|]. split; [lia|].
    cbn [ff_block]. rewrite app_nil_r. intros. apply Hdone. rewrite length_app in Hbuf. cbn in *. lia.
  - rewrite (proj2 (Z.leb_le _ _)) by done. destruct (Hsrc Hr) as (Hr1 & -> & Hs).
    assert (Hlr : (length (ff_block r) = length r + 2)%nat) by (rewrite length_ff_block; by destruct r).
    rewrite length_app, Hlr in Hbuf.
    destruct (prefix_split d (pk_buffer st) (length r + 2)) as (m & k & Hm & Hlm); [by apply Hdone|lia|].
    assert (Hgo : exists b, (if pk_ff_n st =? 1 then write_ff (pk_ff_src st) (pk_buffer st) (Z.of_nat (length d)) 8
      else if 1 <? pk_ff_n st then write_ff (pk_ff_src st) (pk_buffer st) (Z.of_nat (length d))
        (Z.of_nat (length src) - (pk_ff_src st).2) else Ret (pk_buffer st)) = Ret (d ++ ff_block r ++ b) /\
        length b = length k).
    { exists k. split; [|done]. rewrite Hs, Hm. assert (Hr8 : (8 <= length r)%nat) by (destruct r; [done|cbn [length] in *; lia]).
      destruct (Z.eqb_spec (pk_ff_n st) 1) as [H1|H1].
      - rewrite H1 in Hrn. destruct (Z.ltb_spec (Z.of_nat (length src)) (8 * Z.of_nat (nsegs src))).
        + rewrite (proj2 (Nat.eqb_eq _ 8)) by lia. cbn [andb].
          rewrite write_ff_spec; [|lia..|change (8 * ((8 + 7) / 8)) with 8; lia].
          change (Z.to_nat (8 * ((8 + 7) / 8) - 8)) with 0%nat.
          change (Z.to_nat 8) with 8%nat. change (Z.to_nat 0) with 0%nat.
          rewrite drop_0, take_ge by lia. cbn [replicate]. by rewrite app_nil_r.
        + cbn [andb]. pose proof (write_run src (Z.to_nat (8 * Z.of_nat (nsegs src))) r d m k 1) as Hw.
          rewrite Z2Nat.id in Hw by lia. apply Hw; [done|lia..].
      - rewrite (proj2 (Z.ltb_lt 1 _)) by lia. rewrite (proj2 (Nat.eqb_neq _ 8)) by lia.
        rewrite andb_false_r. cbn [snd]. set (n := Z.of_nat (length src) - _).
        assert (Hal : 8 * ((n + 7) / 8) = Z.of_nat (length r)).
        { subst n. clear - Hn Hrn Him H1. Z.to_euclidean_division_equations; lia. }
        rewrite write_ff_spec; rewrite ?Hal; [|lia..].
        do 2 f_equal. f_equal. f_equal. symmetry. rewrite Hr1 at 1. rewrite padded_tail by lia. f_equal.
        { rewrite take_ge; [f_equal; lia|]. rewrite length_drop. lia. }
        f_equal. lia. }
    destruct Hgo as (b & -> & Hb). exists (d ++ ff_block r ++ b). rewrite bind_Ret.
    split; [do 2 f_equal; rewrite length_app, Hlr; by destruct r|]. split.
    + rewrite <- Hlb, Hm, !length_app, Hlr. lia.
    + intros _. exists b. by rewrite <- (assoc_L (++)).
  - rewrite (proj2 (Z.leb_gt _ _)) by done. exists (pk_buffer st). rewrite bind_Ret.
    split; [do 2 f_equal; by rewrite length_app, length_ff_block|]. split; [lia|].
    rewrite length_app, length_ff_block in Hbuf. lia.
Qed.

(** ** Unpacking *)

(** [d] is what has been unpacked; the buffer holds it if it fits. *)
Definition unpack_inv (d buffer : bytes) (pos bufsz B : Z) : Prop :=
  0 <= pos /\ (bufsz <= 0 \/ pos + bufsz = Z.of_nat (length buffer)) /\
  Z.of_nat (length buffer) = B /\ B - Z.of_nat (length d) <= bufsz /\
  (Z.of_nat (length d) <= B ->
   pos = Z.of_nat (length d) /\ bufsz = B - Z.of_nat (length d) /\ d `prefix_of` buffer).

(** One byte goes out. *)
Lemma unpack_put d buffer pos bufsz B c :
  unpack_inv d buffer pos bufsz B -> 0 < bufsz ->
  exists buffer', arr_set buffer pos c = Ret buffer' /\
    unpack_inv (d ++ [c]) buffer' (pos + 1) (bufsz - 1) B.
Proof.
  intros (Hp & Hb & HB & Hlo & Hd) H0. rewrite arr_set_Ret by lia. eexists. split; [done|].
  unfold unpack_inv. rewrite length_insert, length_app. cbn [length].
  split; [lia|]. split; [lia|]. split; [done|]. split; [lia|]. intros Hl. destruct Hd as (Hpos & ? & Hpre); [lia|].
  split; [lia|]. split; [lia|]. replace (Z.to_nat pos) with (length d) by lia.
  apply prefix_set_snoc; [done|lia].
Qed.

Lemma unpack_skip d buffer pos bufsz B c :
  unpack_inv d buffer pos bufsz B -> bufsz <= 0 -> unpack_inv (d ++ [c]) buffer pos bufsz B.
Proof.
  intros (Hp & Hb & HB & Hlo & Hd) H0. unfold unpack_inv. rewrite length_app. cbn [length].
  split; [done|]. split; [done|]. split; [done|]. split; [lia|]. lia.
Qed.

Lemma unpack_bits_ok seg : forall k header pre rest d buffer pos bufsz B srcsz,
  length seg = k -> (k <= 8)%nat -> Z.shiftr header (8 - Z.of_nat k) = seg_header seg ->
  Z.of_nat (length (nonzeros seg ++ rest)) = srcsz ->
  unpack_inv d buffer pos bufsz B ->
  exists buffer' pos' bufsz',
    unpack_bits k header (pre ++ nonzeros seg ++ rest) (Z.of_nat (length pre)) srcsz buffer pos bufsz =
      Ret (Some (Z.of_nat (length (pre ++ nonzeros seg)), Z.of_nat (length rest), buffer', pos', bufsz')) /\
    unpack_inv (d ++ seg) buffer' pos' bufsz' B.
Proof.
  induction seg as [|c seg IH]; intros k header pre rest d buffer pos bufsz B srcsz <- Hk Hh <- Hinv.
  { cbn. exists buffer, pos, bufsz. by rewrite !app_nil_r. }
  cbn [length unpack_bits] in Hh |- *. rewrite Hh. cbn [seg_header].
  assert (Hh' : Z.shiftr header (8 - Z.of_nat (length seg)) = seg_header seg).
  { cbn [length] in Hk. replace (8 - Z.of_nat (length seg)) with (8 - Z.of_nat (Datatypes.S (length seg)) + 1) by lia.
    rewrite <- Z.shiftr_shiftr, Hh by lia. cbn [seg_header]. rewrite Z.shiftr_div_pow2 by lia.
    change (2 ^ 1) with 2. destruct (c =? 0); Z.to_euclidean_division_equations; lia. }
  assert (Hbit : Z.land ((if c =? 0 then 0 else 1) + 2 * seg_header seg) 1 = if c =? 0 then 0 else 1).
  { change 1 with (Z.ones 1) at 2. rewrite Z.land_ones, (Z.mul_comm 2), Z.mod_add by lia.
    by destruct (c =? 0). }
  rewrite Hbit. unfold nonzeros in *. rewrite filter_cons.
  destruct (Z.eqb_spec c 0) as [->|Hc]; cbn [negb Z.eqb].
  - rewrite decide_False by auto. destruct (Z.ltb_spec 0 bufsz).
    + destruct (unpack_put d buffer pos bufsz B 0 Hinv) as (b & -> & Hinv'); [done|]. rewrite bind_Ret.
      destruct (IH (length seg) header pre rest _ b _ _ B _ eq_refl ltac:(cbn [length] in Hk; lia) Hh' eq_refl Hinv')
        as (b' & p' & s' & -> & Hfin). exists b', p', s'. split; [done|]. by rewrite <- (assoc_L (++)) in Hfin.
    + apply unpack_skip with (c := 0) in Hinv; [|done].
      destruct (IH (length seg) header pre rest _ buffer _ _ B _ eq_refl ltac:(cbn [length] in Hk; lia) Hh' eq_refl Hinv)
        as (b' & p' & s' & -> & Hfin). exists b', p', s'. split; [done|]. by rewrite <- (assoc_L (++)) in Hfin.
  - rewrite decide_True by auto. cbn [app length]. rewrite (proj2 (Z.ltb_ge _ 0)) by lia.
    set (nz := filter _ seg) in *.
    assert (Hsrc : pre ++ c :: nz ++ rest = (pre ++ [c]) ++ nz ++ rest) by (by rewrite <- (assoc_L (++))).
    assert (Hget : arr_get (pre ++ c :: nz ++ rest) (Z.of_nat (length pre)) = Ret c).
    { unfold arr_get. rewrite arr_lookup_nat, list_lookup_middle; done. }
    assert (Hpos : Z.of_nat (length pre) + 1 = Z.of_nat (length (pre ++ [c]))) by (rewrite length_app; cbn; lia).
    assert (Hsz : Z.of_nat (Datatypes.S (length (nz ++ rest))) - 1 = Z.of_nat (length (nz ++ rest))) by lia.
    assert (Hout : pre ++ c :: nz = (pre ++ [c]) ++ nz) by (by rewrite <- (assoc_L (++))).
    rewrite Hget, Hout, Hsrc, Hpos, Hsz. destruct (Z.ltb_spec 0 bufsz).
    + rewrite bind_Ret.
      destruct (unpack_put d buffer pos bufsz B c Hinv) as (b & -> & Hinv'); [done|]. rewrite bind_Ret.
      destruct (IH (length seg) header (pre ++ [c]) rest _ b _ _ B _ eq_refl ltac:(cbn [length] in Hk; lia) Hh' eq_refl Hinv')
        as (b' & p' & s' & -> & Hfin). exists b', p', s'. split; [done|]. by rewrite <- (assoc_L (++)) in Hfin.
    + apply unpack_skip with (c := c) in Hinv; [|done].
      destruct (IH (length seg) header (pre ++ [c]) rest _ buffer _ _ B _ eq_refl ltac:(cbn [length] in Hk; lia) Hh' eq_refl Hinv)
        as (b' & p' & s' & -> & Hfin). exists b', p', s'. split; [done|]. by rewrite <- (assoc_L (++)) in Hfin.
Qed.

Lemma mem_write_any des pos data :
  0 <= pos -> pos + Z.of_nat (length data) <= Z.of_nat (length des) ->
  exists des', mem_write des pos data = Ret des' /\ length des' = length des /\
    forall d, d `prefix_of` des -> Z.of_nat (length d) = pos -> d ++ data `prefix_of` des'.
Proof.
  intros Hp Hl. unfold mem_write.
  destruct (Z.ltb_spec pos 0), (Z.ltb_spec (Z.of_nat (length des)) (pos + Z.of_nat (length data))); try lia.
  cbn [orb]. eexists. split; [reflexivity|]. split.
  { rewrite !length_app, length_take, length_drop. lia. }
  intros d [k ->] <-. rewrite Nat2Z.id, take_app_length, (assoc_L (++)). by apply prefix_app_r.
Qed.

Lemma unpack_loop_ok a x : unpacks a x ->
  forall fuel pre d buffer pos bufsz B size,
  (length a <= fuel)%nat -> unpack_inv d buffer pos bufsz B -> size = Z.of_nat (length d) ->
  Z.of_nat (length (d ++ x)) <= INT_MAX -> B <= INT_MAX ->
  exists buffer' pos' bufsz',
    unpack_loop fuel (pre ++ a) (Z.of_nat (length pre)) (Z.of_nat (length a)) buffer pos bufsz size =
      Ret (size + Z.of_nat (length x), buffer') /\
    unpack_inv (d ++ x) buffer' pos' bufsz' B.
Proof.
  induction 1 as [|n data a x Hn Hdata _ IH|seg a x Hseg Hff _ IH];
    intros fuel pre d buffer pos bufsz B size Hfuel Hinv Hsize Hmax HBmax.
  - exists buffer, pos, bufsz. rewrite !app_nil_r. split; [|done].
    destruct fuel; cbn; by rewrite Z.add_0_r.
  - destruct fuel as [|fuel]; [cbn in Hfuel; lia|]. cbn [unpack_loop length] in Hfuel |- *.
    rewrite (proj2 (Z.leb_gt _ 0)) by lia.
    assert (Hget : arr_get (pre ++ 0xff :: n :: data ++ a) (Z.of_nat (length pre)) = Ret 0xff).
    { unfold arr_get. rewrite arr_lookup_nat, list_lookup_middle; done. }
    rewrite Hget, bind_Ret. cbn zeta. cbn [Z.eqb Pos.eqb]. rewrite (proj2 (Z.ltb_ge _ 0)) by lia.
    assert (Hget' : arr_get (pre ++ 0xff :: n :: data ++ a) (Z.of_nat (length pre) + 1) = Ret n).
    { replace (pre ++ 0xff :: n :: data ++ a) with ((pre ++ [0xff]) ++ n :: data ++ a) by (by rewrite <- (assoc_L (++))).
      replace (Z.of_nat (length pre) + 1) with (Z.of_nat (length (pre ++ [0xff]))) by (rewrite length_app; cbn; lia).
      unfold arr_get. rewrite arr_lookup_nat, list_lookup_middle; done. }
    rewrite Hget', bind_Ret. rewrite (proj2 (Z.ltb_ge _ _)) by (rewrite length_app; lia).
    replace ((n + 1) * 8) with (Z.of_nat (length data)) by lia.
    assert (Hgo : exists b, (if Z.of_nat (length data) <=? bufsz then
        dat ← mem_read (pre ++ 0xff :: n :: data ++ a) (Z.of_nat (length pre) + 1 + 1) (Z.of_nat (length data));
        mem_write buffer pos dat else Ret buffer) = Ret b /\
      unpack_inv (d ++ data) b (pos + Z.of_nat (length data)) (bufsz - Z.of_nat (length data)) B).
    { destruct Hinv as (Hp & Hb & HB & Hlo & Hd). unfold unpack_inv. rewrite length_app.
      destruct (Z.leb_spec (Z.of_nat (length data)) bufsz).
      - rewrite mem_read_Ret by (rewrite ?length_app; cbn [length]; rewrite ?length_app; lia). rewrite bind_Ret.
        replace (Z.to_nat (Z.of_nat (length pre) + 1 + 1)) with (length (pre ++ [0xff; n])) by (rewrite length_app; cbn; lia).
        replace (pre ++ 0xff :: n :: data ++ a) with ((pre ++ [0xff; n]) ++ data ++ a) by (by rewrite <- (assoc_L (++))).
        rewrite drop_app_length, Nat2Z.id, take_app_length.
        destruct (mem_write_any buffer pos data) as (b & -> & Hlb & Hpre); [done|lia|].
        exists b. split; [done|]. split; [lia|]. split; [lia|]. split; [lia|]. split; [lia|]. intros.
        destruct Hd as (? & ? & ?); [lia|]. split; [lia|]. split; [lia|]. apply Hpre; [done|lia].
      - exists buffer. split; [done|]. split; [lia|]. split; [lia|]. split; [lia|]. split; [lia|]. intros. lia. }
    destruct Hgo as (b & -> & Hinv'). rewrite !length_app in Hmax. rewrite bind_Ret, (int_ok_Ret (bufsz - _)), bind_Ret, int_ok_Ret, bind_Ret by
      (destruct Hinv as (? & ? & ? & ? & ?); unfold INT_MIN, INT_MAX in *; lia).
    destruct (IH fuel (pre ++ 0xff :: n :: data) _ b _ _ B (size + Z.of_nat (length data)) ltac:(rewrite length_app in Hfuel; lia) Hinv'
        ltac:(rewrite length_app; lia) ltac:(rewrite !length_app; lia) HBmax)
      as (b' & p' & s' & Heq & Hfin). exists b', p', s'. rewrite <- !(assoc_L (++)) in *. split; [|done].
    cbn [app] in Heq. rewrite length_app in Heq |- *. cbn [length] in Heq.
    replace (Z.of_nat (length pre) + 1 + 1 + Z.of_nat (length data))
      with (Z.of_nat (length pre + Datatypes.S (Datatypes.S (length data)))) by lia.
    replace (Z.of_nat (Datatypes.S (Datatypes.S (length data + length a))) - 1 - (Z.of_nat (length data) + 1))
      with (Z.of_nat (length a)) by lia.
    rewrite Heq, length_app. do 2 f_equal. lia.
  - destruct fuel as [|fuel]; [cbn in Hfuel; lia|]. cbn [unpack_loop length] in Hfuel |- *.
    rewrite (proj2 (Z.leb_gt _ 0)) by lia.
    assert (Hget : arr_get (pre ++ seg_header seg :: nonzeros seg ++ a) (Z.of_nat (length pre)) = Ret (seg_header seg)).
    { unfold arr_get. rewrite arr_lookup_nat, list_lookup_middle; done. }
    rewrite Hget, bind_Ret. cbn zeta. rewrite (proj2 (Z.eqb_neq _ _) Hff).
    destruct (unpack_bits_ok seg 8 (seg_header seg) (pre ++ [seg_header seg]) a d buffer pos bufsz B
      (Z.of_nat (length (nonzeros seg ++ a)))) as (b & p & s & Heq & Hinv'); [done|done|done|done|done|].
    rewrite <- (assoc_L (++)) in Heq. cbn [app] in Heq.
    replace (Z.of_nat (length pre) + 1) with (Z.of_nat (length (pre ++ [seg_header seg]))) by (rewrite length_app; cbn; lia).
    replace (Z.of_nat (Datatypes.S (length (nonzeros seg ++ a))) - 1) with (Z.of_nat (length (nonzeros seg ++ a))) by lia.
    rewrite !length_app in Hmax. rewrite Heq, bind_Ret. cbn iota. rewrite int_ok_Ret, bind_Ret by (unfold INT_MIN, INT_MAX in *; lia).
    destruct (IH fuel ((pre ++ [seg_header seg]) ++ nonzeros seg) _ b p s B (size + 8) ltac:(rewrite length_app in Hfuel; lia) Hinv'
        ltac:(rewrite length_app; lia) ltac:(rewrite !length_app; lia) HBmax)
      as (b' & p' & s' & Heq' & Hfin). exists b', p', s'. rewrite <- !(assoc_L (++)) in *. split; [|done].
    cbn [app] in Heq'. cbn [app]. rewrite Heq'. do 2 f_equal. rewrite length_app, Hseg. lia.
Qed.

Lemma sproto_unpack_ok a x buffer : unpacks a x -> Z.of_nat (length x) <= INT_MAX -> Z.of_nat (length buffer) <= INT_MAX ->
  exists buffer', sproto_unpack a buffer = Ret (Z.of_nat (length x), buffer') /\
    length buffer' = length buffer /\ ((length x <= length buffer)%nat -> x `prefix_of` buffer').
Proof.
  intros Hu Hx HBmax. unfold sproto_unpack.
  destruct (unpack_loop_ok a x Hu (length a) [] [] buffer 0 (Z.of_nat (length buffer))
    (Z.of_nat (length buffer)) 0) as (b & p & s & Heq & Hp & Hb & HB & Hlo & Hd); [done| |done..|].
  { unfold unpack_inv. cbn. split; [lia|]. split; [lia|]. split; [done|]. split; [lia|]. intros.
    split; [done|]. split; [lia|]. apply prefix_nil. }
  exists b. cbn [app length] in Heq. change (Z.of_nat 0) with 0 in Heq. rewrite Heq. split; [done|]. split; [lia|]. intros. apply Hd. cbn [app]. lia.
Qed.

(** ** Claims *)

(** C20. [sproto_pack] followed by [sproto_unpack] gives the source back,
    padded with zeros to a multiple of eight bytes: for a source whose length is a
    multiple of 8 or at most 2040 bytes (of other sources [sproto_pack] may read past
    the end, [sproto_pack_overreads]) and not above 2^30, packing into any buffer returns a
    size that does not depend on the buffer, a buffer of that size receives
    the packed bytes, and unpacking them into a large enough buffer returns
    the padded length and restores the source. The sizes of the buffers are values of
    type [int], and no computation with a size overflows. *)
Theorem sproto_pack_roundtrip src buf1 buf2
    (Hsafe : Z.of_nat (length src) mod 8 = 0 \/ Z.of_nat (length src) <= 2040)
    (Hsrc : Z.of_nat (length src) <= 2 ^ 30)
    (Hbufs : Z.of_nat (length buf1) <= INT_MAX /\ Z.of_nat (length buf2) <= INT_MAX)
    (Hbuf2 : Z.of_nat (length src) + (- Z.of_nat (length src) mod 8) <= Z.of_nat (length buf2)) :
  exists size buf1',
    sproto_pack src [] = Ret (size, []) /\
    sproto_pack src buf1 = Ret (size, buf1') /\ length buf1' = length buf1 /\
    (size <= Z.of_nat (length buf1) ->
     exists buf2',
       sproto_unpack (take (Z.to_nat size) buf1') buf2 =
         Ret (Z.of_nat (length src) + (- Z.of_nat (length src) mod 8), buf2') /\
       src ++ replicate (Z.to_nat (- Z.of_nat (length src) mod 8)) 0 `prefix_of` buf2').
Proof.
  destruct (sproto_pack_ref src [] Hsafe Hsrc ltac:(done)) as (b0 & H0 & Hb0 & _).
  destruct (sproto_pack_ref src buf1 Hsafe Hsrc (proj1 Hbufs)) as (b1 & H1 & Hb1 & Hpre).
  exists (Z.of_nat (length (ref_pack src))), b1. split; [destruct b0; done|].
  split; [done|]. split; [done|]. intros Hl. destruct Hpre as [k ->]; [lia|].
  rewrite Nat2Z.id, take_app_length. fold (padded src).
  assert (Hlen : Z.of_nat (length (padded src)) = Z.of_nat (length src) + (- Z.of_nat (length src) mod 8)).
  { unfold padded. rewrite length_app, length_replicate.
    pose proof (Z.mod_pos_bound (- Z.of_nat (length src)) 8). lia. }
  destruct (sproto_unpack_ok _ _ buf2 (ref_pack_unpacks src)) as (b2 & H2 & _ & Hp2); [rewrite Hlen; lia|lia|].
  exists b2. split; [by rewrite H2, Hlen|]. apply Hp2. lia.
Qed.

Lemma sproto_pack_roundtrip_witness :
  exists size buf1',
    sproto_pack [1;0;0;0;2;3] [] = Ret (size, []) /\
    sproto_pack [1;0;0;0;2;3] (replicate 9 7) = Ret (size, buf1') /\ length buf1' = length (replicate 9 7) /\
    (size <= Z.of_nat (length (replicate 9 7)) ->
     exists buf2',
       sproto_unpack (take (Z.to_nat size) buf1') (replicate 8 5) = Ret (8, buf2') /\
       [1;0;0;0;2;3] ++ [0;0] `prefix_of` buf2').
Proof.
  apply (sproto_pack_roundtrip [1;0;0;0;2;3] (replicate 9 7) (replicate 8 5)); [by right|done|done|done].
Defined.

(** The two places where the packing code leaves its arrays: packing a
    source whose 256th consecutive full segment is a padded tail reads past
    the end of the source, whatever it holds there, and unpacking an input
    cut one byte short of the end of a segment reads past the end of the
    input instead of returning -1. *)
Theorem sproto_pack_overreads :
  sproto_pack (replicate 2047 1) (replicate 2050 0) = Undefined /\
  sproto_unpack [1] (replicate 8 0) = Undefined /\
  sproto_unpack [3] (replicate 8 0) = Undefined.
Proof. vm_compute. done. Qed.
