(* ===== verification/Sproto.v ===== *)
(** Sproto schemas, [lualib-src/sproto/sproto.c]: the memory pool, the loading of
    a bundle of types and protocols, and the queries. *)
From S2P Require Import Prelude.

(** ** Constants and data *)

Definition SPROTO_TARRAY : Z := 0x80.
Definition CHUNK_SIZE : Z := 1000.
Definition SIZEOF_LENGTH : Z := 4.
Definition SIZEOF_HEADER : Z := 2.
Definition SIZEOF_FIELD : Z := 2.
Definition SIZEOF_INT64 : Z := 8.
Definition SIZEOF_INT32 : Z := 4.
Definition SPROTO_REQUEST : Z := 0.
Definition SPROTO_RESPONSE : Z := 1.
Definition SPROTO_TINTEGER : Z := 0.
Definition SPROTO_TBOOLEAN : Z := 1.
Definition SPROTO_TSTRING : Z := 2.
Definition SPROTO_TSTRUCT : Z := 3.

(** An address in the pool: the number of a chunk, in the order of allocation,
    and an offset behind its header. *)
Definition ptr : Type := nat * Z.

(** The sizes of the chunks, newest last, and the chunk that is being filled. *)
Record pool := Pool { p_chunks : list Z; p_current : option nat; p_current_used : Z }.

(** A string of the pool: where it is, and the string there. *)
Record cstr := CStr { cs_at : ptr; cs_str : bytes }.

(** A pointer to a type is its index in the array of types. *)
Record field := Field { f_tag : Z; f_type : Z; f_name : option cstr; f_st : option Z; f_key : Z; f_extra : Z }.
Record sproto_type := SType { st_name : option cstr; st_n : Z; st_base : Z; st_maxn : Z; st_f : list field }.
Record protocol := Protocol { pr_name : option cstr; pr_tag : Z; pr_confirm : Z; pr_request : option Z; pr_response : option Z }.
Record sproto := Sproto { s_memory : pool; s_type_n : Z; s_protocol_n : Z; s_type : list sproto_type; s_proto : list protocol }.

(** ** The memory pool; [malloc] succeeds *)

Definition pool_init : pool := Pool [] None 0.

(** The chunks are freed. *)
Definition pool_release (p : pool) : pool := Pool [] (p_current p) (p_current_used p).

Definition pool_newchunk (p : pool) (sz : Z) : ptr * pool :=
  ((length (p_chunks p), 0), Pool (p_chunks p ++ [sz]) (p_current p) (p_current_used p)).

Definition pool_alloc (p : pool) (sz : Z) : ptr * pool :=
  let sz := Z.land (u64 (sz + 7)) (u64 (Z.lnot 7)) in
  if CHUNK_SIZE <=? sz then pool_newchunk p sz
  else
    let '(cur, p) := match p_current p with
                     | Some c => (c, p)
                     | None => let '(_, p) := pool_newchunk p CHUNK_SIZE in
                               let c := pred (length (p_chunks p)) in (c, Pool (p_chunks p) (Some c) (p_current_used p))
                     end in
    if sz + p_current_used p <=? CHUNK_SIZE then
      ((cur, p_current_used p), Pool (p_chunks p) (p_current p) (p_current_used p + sz))
    else if p_current_used p <=? sz then pool_newchunk p sz
    else
      let '(ret, p) := pool_newchunk p CHUNK_SIZE in
      (ret, Pool (p_chunks p) (Some (pred (length (p_chunks p)))) sz).

(** ** Streams

    A pointer into the bundle is what follows it. *)

Definition toword (p : bytes) : outcome Z :=
  p0 ← arr_get p 0; p1 ← arr_get p 1; Ret (Z.lor p0 (Z.shiftl p1 8)).

Definition todword (p : bytes) : outcome Z :=
  p0 ← arr_get p 0; p1 ← arr_get p 1; p2 ← arr_get p 2; p3 ← arr_get p 3;
  Ret (u32 (Z.lor (Z.lor (Z.lor p0 (Z.shiftl p1 8)) (Z.shiftl p2 16)) (Z.shiftl p3 24))).

(** [p + n] *)
Definition skip (n : Z) (p : bytes) : bytes := drop (Z.to_nat n) p.

(** [while (length > 0)]; a round whose [nsz] wraps to zero comes back until the
    counter overflows. *)
Fixpoint count_loop (fuel : nat) (n length : Z) (stream : bytes) : outcome Z :=
  match fuel with
  | O => Undefined
  | S fuel =>
      if 0 <? length then
        if length <? SIZEOF_LENGTH then Ret (-1)
        else
          nsz ← todword stream;
          let nsz := u32 (nsz + SIZEOF_LENGTH) in
          if length <? nsz then Ret (-1)
          else count_loop fuel (n + 1) (length - nsz) (skip nsz stream)
      else Ret n
  end.

Definition count_array (stream : bytes) : outcome Z :=
  len ← todword stream;
  count_loop (S (length stream)) 0 len (skip SIZEOF_LENGTH stream).

(** [for (i=0;i<fn;i++)]: [field] is at the word of the round. *)
Fixpoint struct_loop (n : nat) (field stream : bytes) (sz : Z) : outcome bool :=
  match n with
  | O => Ret true
  | S n =>
      value ← toword field;
      if negb (value =? 0) then struct_loop n (skip SIZEOF_FIELD field) stream sz
      else if sz <? SIZEOF_LENGTH then Ret false
      else
        dsz ← todword stream;
        let dsz := u32 (SIZEOF_LENGTH + dsz) in
        if sz <? dsz then Ret false
        else struct_loop n (skip SIZEOF_FIELD field) (skip dsz stream) (sz - dsz)
  end.

Definition struct_field (stream : bytes) (sz : Z) : outcome Z :=
  if sz <? SIZEOF_LENGTH then Ret (-1)
  else
    fn ← toword stream;
    let header := SIZEOF_HEADER + SIZEOF_FIELD * fn in
    if sz <? header then Ret (-1)
    else
      ok ← struct_loop (Z.to_nat fn) (skip SIZEOF_HEADER stream) (skip header stream) (sz - header);
      Ret (if ok : bool then fn else -1).

(** ** Loading

    [None] stands for NULL: the caller gives up and the pool is released. *)

Definition import_string (p : pool) (stream : bytes) : outcome (cstr * pool) :=
  sz ← todword stream;
  let '(buffer, p) := pool_alloc p (u32 (sz + 1)) in
  let src := skip SIZEOF_LENGTH stream in
  if (Z.of_nat (length src) <? sz) || negb (u32 (sz + 1) =? sz + 1) then Undefined
  else Ret (CStr buffer (until_zero (take (Z.to_nat sz) src)), p).

(** An overflowing product wraps around. *)
Fixpoint calc_pow_loop (fuel : nat) (base n : Z) : Z :=
  match fuel with
  | O => 1
  | S fuel =>
      if n =? 0 then 1
      else
        let r := calc_pow_loop fuel (s32 (base * base)) (n / 2) in
        if Z.odd n then s32 (r * base) else r
  end.

(** [n] is below [2 ^ 16]. *)
Definition calc_pow (base n : Z) : Z := calc_pow_loop 17 base n.

Definition with_tag (f : field) (x : Z) : field := Field x (f_type f) (f_name f) (f_st f) (f_key f) (f_extra f).
Definition with_type (f : field) (x : Z) : field := Field (f_tag f) x (f_name f) (f_st f) (f_key f) (f_extra f).
Definition with_name (f : field) (x : cstr) : field := Field (f_tag f) (f_type f) (Some x) (f_st f) (f_key f) (f_extra f).
Definition with_st (f : field) (x : Z) : field := Field (f_tag f) (f_type f) (f_name f) (Some x) (f_key f) (f_extra f).
Definition with_key (f : field) (x : Z) : field := Field (f_tag f) (f_type f) (f_name f) (f_st f) x (f_extra f).
Definition with_extra (f : field) (x : Z) : field := Field (f_tag f) (f_type f) (f_name f) (f_st f) (f_key f) x.

Definition field_init : field := Field (-1) (-1) None None (-1) 0.

(** One word of a field, [switch(tag)]; [array] is carried along. *)
Definition import_word (type_n tag value : Z) (f : field) (array : Z) : option (field * Z) :=
  if tag =? 1 then if SPROTO_TSTRUCT <=? value then None else Some (with_type f value, array)
  else if tag =? 2 then
    if f_type f =? SPROTO_TINTEGER then Some (with_extra f (calc_pow 10 value), array)
    else if f_type f =? SPROTO_TSTRING then Some (with_extra f value, array)
    else if type_n <=? value then None
    else if 0 <=? f_type f then None
    else Some (with_st (with_type f SPROTO_TSTRUCT) value, array)
  else if tag =? 3 then Some (with_tag f value, array)
  else if tag =? 4 then Some (f, if value =? 0 then array else SPROTO_TARRAY)
  else if tag =? 5 then Some (with_key f value, array)
  else None.

(** [for (i=0;i<fn;i++)]: [word] is at the word of the round, [data] behind the
    words. *)
Fixpoint field_loop (n : nat) (type_n : Z) (word data : bytes) (tag : Z) (f : field) (array : Z) (p : pool)
    : outcome (option (field * Z * pool)) :=
  match n with
  | O => Ret (Some (f, array, p))
  | S n =>
      let next := field_loop n type_n (skip SIZEOF_FIELD word) data in
      let tag := tag + 1 in
      value ← toword word;
      if Z.odd value then next (tag + value / 2) f array p
      else if tag =? 0 then
        if negb (value =? 0) then Ret None
        else
          '(name, p) ← import_string p data;
          next tag (with_name f name) array p
      else if value =? 0 then Ret None
      else
        match import_word type_n tag (value / 2 - 1) f array with
        | None => Ret None
        | Some (f, array) => next tag f array p
        end
  end.

Definition import_field (type_n : Z) (p : pool) (stream : bytes) : outcome (option (field * bytes * pool)) :=
  sz ← todword stream;
  let stream := skip SIZEOF_LENGTH stream in
  let result := skip sz stream in
  fn ← struct_field stream sz;
  if fn <? 0 then Ret None
  else
    let stream := skip SIZEOF_HEADER stream in
    r ← field_loop (Z.to_nat fn) type_n stream (skip (fn * SIZEOF_FIELD) stream) (-1) field_init 0 p;
    match r with
    | None => Ret None
    | Some (f, array, p) =>
        if (f_tag f <? 0) || (f_type f <? 0) || bool_decide (f_name f = None) then Ret None
        else Ret (Some (with_type f (Z.lor (f_type f) array), result, p))
    end.

(** name and fields must encode to 0 *)
Fixpoint zero_words (n : nat) (word : bytes) : outcome bool :=
  match n with
  | O => Ret true
  | S n => v ← toword word; if negb (v =? 0) then Ret false else zero_words n (skip SIZEOF_FIELD word)
  end.

(** [for (i=0;i<n;i++)]: the fields and the number of header words. *)
Fixpoint fields_loop (n : nat) (type_n : Z) (stream : bytes) (maxn last : Z) (p : pool) : outcome (option (list field * Z * pool)) :=
  match n with
  | O => Ret (Some ([], maxn, p))
  | S n =>
      r ← import_field type_n p stream;
      match r with
      | None => Ret None
      | Some (f, stream, p) =>
          let tag := f_tag f in
          if tag <=? last then Ret None
          else
            r ← fields_loop n type_n stream (if last + 1 <? tag then maxn + 1 else maxn) tag p;
            Ret (match r with None => None | Some (fs, maxn, p) => Some (f :: fs, maxn, p) end)
      end
  end.

Definition SIZEOF_STRUCT_FIELD : Z := 32.
Definition SIZEOF_STRUCT_TYPE : Z := 32.
Definition SIZEOF_STRUCT_PROTOCOL : Z := 32.
Definition SIZEOF_STRUCT_SPROTO : Z := 48.

Definition import_type (type_n : Z) (p : pool) (stream : bytes) : outcome (option (sproto_type * bytes * pool)) :=
  sz ← todword stream;
  let stream := skip SIZEOF_LENGTH stream in
  let result := skip sz stream in
  fn ← struct_field stream sz;
  if (fn <=? 0) || (2 <? fn) then Ret None
  else
    zero ← zero_words (Z.to_nat fn) (skip SIZEOF_HEADER stream);
    if negb zero then Ret None
    else
      let stream := skip (SIZEOF_HEADER + fn * SIZEOF_FIELD) stream in
      '(name, p) ← import_string p stream;
      if fn =? 1 then Ret (Some (SType (Some name) 0 0 0 [], result, p))
      else
        d ← todword stream;
        let stream := skip (u32 (d + SIZEOF_LENGTH)) stream in
        n ← count_array stream;
        if n <? 0 then Ret None
        else
          let stream := skip SIZEOF_LENGTH stream in
          let '(_, p) := pool_alloc p (SIZEOF_STRUCT_FIELD * n) in
          r ← fields_loop (Z.to_nat n) type_n stream n (-1) p;
          match r with
          | None => Ret None
          | Some (f, maxn, p) =>
              f0 ← arr_get f 0;
              f1 ← arr_get f (n - 1);
              let base := f_tag f0 in
              let base := if negb (f_tag f1 - base + 1 =? n) then -1 else base in
              Ret (Some (SType (Some name) n base maxn f, result, p))
          end.

Definition protocol_init : protocol := Protocol None (-1) 0 None None.

(** One word of a protocol, [switch (i)] but for the name. *)
Definition protocol_word (type_n i value : Z) (p : protocol) : option protocol :=
  if i =? 1 then if value <? 0 then None else Some (Protocol (pr_name p) value (pr_confirm p) (pr_request p) (pr_response p))
  else if i =? 2 then
    if (value <? 0) || (type_n <=? value) then None
    else Some (Protocol (pr_name p) (pr_tag p) (pr_confirm p) (Some value) (pr_response p))
  else if i =? 3 then
    if (value <? 0) || (type_n <=? value) then None
    else Some (Protocol (pr_name p) (pr_tag p) (pr_confirm p) (pr_request p) (Some value))
  else if i =? 4 then Some (Protocol (pr_name p) (pr_tag p) value (pr_request p) (pr_response p))
  else None.

(** The variable [tag] of the code is only counted. *)
Fixpoint protocol_loop (n : nat) (type_n i : Z) (word data : bytes) (pr : protocol) (p : pool) : outcome (option (protocol * pool)) :=
  match n with
  | O => Ret (Some (pr, p))
  | S n =>
      let next := protocol_loop n type_n (i + 1) (skip SIZEOF_FIELD word) data in
      value ← toword word;
      if Z.odd value then next pr p
      else
        let value := value / 2 - 1 in
        if i =? 0 then
          if negb (value =? -1) then Ret None
          else
            '(name, p) ← import_string p data;
            next (Protocol (Some name) (pr_tag pr) (pr_confirm pr) (pr_request pr) (pr_response pr)) p
        else match protocol_word type_n i value pr with None => Ret None | Some pr => next pr p end
  end.

(** A negative [fn] makes no round. *)
Definition import_protocol (type_n : Z) (p : pool) (stream : bytes) : outcome (option (protocol * bytes * pool)) :=
  sz ← todword stream;
  let stream := skip SIZEOF_LENGTH stream in
  let result := skip sz stream in
  fn ← struct_field stream sz;
  let stream := skip SIZEOF_HEADER stream in
  r ← protocol_loop (Z.to_nat fn) type_n 0 stream (skip (SIZEOF_FIELD * fn) stream) protocol_init p;
  match r with
  | None => Ret None
  | Some (pr, p) => if bool_decide (pr_name pr = None) || (pr_tag pr <? 0) then Ret None else Ret (Some (pr, result, p))
  end.

(** [for (i=0;i<s->type_n;i++)] *)
Fixpoint import_types (n : nat) (type_n : Z) (p : pool) (stream : bytes) : outcome (option (list sproto_type * pool)) :=
  match n with
  | O => Ret (Some ([], p))
  | S n =>
      r ← import_type type_n p stream;
      match r with
      | None => Ret None
      | Some (t, stream, p) =>
          r ← import_types n type_n p stream;
          Ret (match r with None => None | Some (ts, p) => Some (t :: ts, p) end)
      end
  end.

Fixpoint import_protocols (n : nat) (type_n : Z) (p : pool) (stream : bytes) : outcome (option (list protocol * pool)) :=
  match n with
  | O => Ret (Some ([], p))
  | S n =>
      r ← import_protocol type_n p stream;
      match r with
      | None => Ret None
      | Some (t, stream, p) =>
          r ← import_protocols n type_n p stream;
          Ret (match r with None => None | Some (ts, p) => Some (t :: ts, p) end)
      end
  end.

(** What the first loop finds of an array: its size and its data. *)
Definition bundle_array (word content : bytes) : outcome (option (Z * bytes * bytes)) :=
  value ← toword word;
  if negb (value =? 0) then Ret None
  else
    n ← count_array content;
    if n <? 0 then Ret None
    else
      d ← todword content;
      Ret (Some (n, skip SIZEOF_LENGTH content, skip (u32 (d + SIZEOF_LENGTH)) content)).

Definition create_from_bundle (p : pool) (stream : bytes) (sz : Z) : outcome (option sproto) :=
  fn ← struct_field stream sz;
  if (fn <? 0) || (2 <? fn) then Ret None
  else
    let stream := skip SIZEOF_HEADER stream in
    let content := skip (fn * SIZEOF_FIELD) stream in
    a ← (if 1 <=? fn then bundle_array stream content else Ret (Some (0, [], content)));
    match a with
    | None => Ret None
    | Some (type_n, typedata, content) =>
        let p := if 1 <=? fn then snd (pool_alloc p (u64 (type_n * SIZEOF_STRUCT_TYPE))) else p in
        a ← (if 2 <=? fn then bundle_array (skip SIZEOF_FIELD stream) content else Ret (Some (0, [], content)));
        match a with
        | None => Ret None
        | Some (protocol_n, protocoldata, _) =>
            let p := if 2 <=? fn then snd (pool_alloc p (u64 (protocol_n * SIZEOF_STRUCT_PROTOCOL))) else p in
            ts ← import_types (Z.to_nat type_n) type_n p typedata;
            match ts with
            | None => Ret None
            | Some (ts, p) =>
                ps ← import_protocols (Z.to_nat protocol_n) type_n p protocoldata;
                Ret (match ps with None => None | Some (ps, p) => Some (Sproto p type_n protocol_n ts ps) end)
            end
        end
    end.

(** When the bundle is refused the pool is released. *)
Definition sproto_create (proto : bytes) : outcome (option sproto) :=
  let '(_, mem) := pool_alloc pool_init SIZEOF_STRUCT_SPROTO in
  create_from_bundle mem proto (Z.of_nat (length proto)).

Definition sproto_release (s : option sproto) : option pool := s ← s; Some (pool_release (s_memory s)).

(** ** Queries *)

(** The string at a pointer that must not be NULL. *)
Definition name_of (name : option cstr) : outcome bytes := c ← deref name; Ret (cs_str c).

(** [for (i=0;i<sp->protocol_n;i++)] *)
Fixpoint prototag_loop (name : bytes) (l : list protocol) : outcome Z :=
  match l with
  | [] => Ret (-1)
  | p :: l => s ← name_of (pr_name p); if strcmp name s =? 0 then Ret (pr_tag p) else prototag_loop name l
  end.

Definition sproto_prototag (sp : sproto) (name : bytes) : outcome Z := prototag_loop name (s_proto sp).

(** The binary search of query_proto and findtag. *)
Fixpoint search_loop {A} (tag_of : A -> Z) (fuel : nat) (l : list A) (tag begin end_ : Z) : outcome (option A) :=
  match fuel with
  | O => Undefined
  | S fuel =>
      if begin <? end_ then
        let mid := (begin + end_) / 2 in
        x ← arr_get l mid;
        let t := tag_of x in
        if t =? tag then Ret (Some x)
        else if t <? tag then search_loop tag_of fuel l tag (mid + 1) end_
        else search_loop tag_of fuel l tag begin mid
      else Ret None
  end.

Definition query_proto (sp : sproto) (tag : Z) : outcome (option protocol) :=
  search_loop pr_tag (S (Z.to_nat (s_protocol_n sp))) (s_proto sp) tag 0 (s_protocol_n sp).

Definition sproto_protoquery (sp : sproto) (proto what : Z) : outcome (option Z) :=
  if (what <? 0) || (1 <? what) then Ret None
  else
    p ← query_proto sp proto;
    Ret (p ← p; if what =? SPROTO_REQUEST then pr_request p else pr_response p).

Definition sproto_protoresponse (sp : sproto) (proto : Z) : outcome bool :=
  p ← query_proto sp proto;
  Ret (match p with None => false | Some p => bool_decide (pr_response p <> None) || negb (pr_confirm p =? 0) end).

Definition sproto_protoname (sp : sproto) (proto : Z) : outcome (option cstr) :=
  p ← query_proto sp proto;
  Ret (p ← p; pr_name p).

(** [for (i=0;i<sp->type_n;i++)]: the index of the type. *)
Fixpoint type_loop (type_name : bytes) (i : Z) (l : list sproto_type) : outcome (option Z) :=
  match l with
  | [] => Ret None
  | t :: l => s ← name_of (st_name t); if strcmp type_name s =? 0 then Ret (Some i) else type_loop type_name (i + 1) l
  end.

Definition sproto_type_query (sp : sproto) (type_name : bytes) : outcome (option Z) := type_loop type_name 0 (s_type sp).

Definition sproto_name (st : sproto_type) : option cstr := st_name st.

Definition findtag (st : sproto_type) (tag : Z) : outcome (option field) :=
  if 0 <=? st_base st then
    let tag := tag - st_base st in
    if (tag <? 0) || (st_n st <=? tag) then Ret None
    else f ← arr_get (st_f st) tag; Ret (Some f)
  else search_loop f_tag (S (Z.to_nat (st_n st))) (st_f st) tag 0 (st_n st).
