(* ===== verification/SprotoType.v ===== *)
(** The schemas that [sproto_create] accepts are well formed, and [findtag] finds
    the fields of their types. *)
From S2P Require Import Prelude Sproto.

#[local] Arguments Z.mul : simpl never.
#[local] Arguments Z.div : simpl never.
#[local] Opaque calc_pow.

(** ** The pool never gives the same address twice *)

Definition pool_ok (p : pool) : Prop :=
  0 <= p_current_used p /\
  match p_current p with Some c => (c < length (p_chunks p))%nat | None => p_current_used p = 0 end.

(** An address that has been given out. *)
Definition given (p : pool) (a : ptr) : Prop :=
  (fst a < length (p_chunks p))%nat /\ (p_current p = Some (fst a) -> snd a < p_current_used p).

Lemma aligned_pos sz : 0 < sz < 2 ^ 62 -> 0 < Z.land (u64 (sz + 7)) (u64 (Z.lnot 7)).
Proof.
  intros Hsz. rewrite u64_small by lia. replace (u64 (Z.lnot 7)) with (Z.shiftl (Z.ones 61) 3) by reflexivity.
  assert (E : Z.land (sz + 7) (Z.shiftl (Z.ones 61) 3) = Z.shiftl (Z.shiftr (sz + 7) 3) 3).
  { apply Z.bits_inj'. intros i Hi. rewrite Z.land_spec. destruct (Z.ltb_spec i 3).
    - rewrite !Z.shiftl_spec_low by lia. apply andb_false_r.
    - rewrite !Z.shiftl_spec, Z.shiftr_spec by lia. replace (i - 3 + 3) with i by lia. destruct (Z.ltb_spec (i - 3) 61).
      + rewrite Z.ones_spec_low by lia. apply andb_true_r.
      + rewrite Z.ones_spec_high, andb_false_r by lia. symmetry. apply (word_testbit 64); [unfold word; lia|lia]. }
  rewrite E, Z.shiftl_mul_pow2, Z.shiftr_div_pow2 by lia. change (2 ^ 3) with 8.
  assert (1 <= (sz + 7) / 8) by (apply Z.div_le_lower_bound; lia). lia.
Qed.

Lemma pool_alloc_given p sz a p' : pool_ok p -> pool_alloc p sz = (a, p') -> 0 < sz < 2 ^ 62 ->
  pool_ok p' /\ ~ given p a /\ given p' a /\ (forall b, given p b -> given p' b).
Proof.
  intros [Hu Hc] E Hsz. pose proof (aligned_pos sz Hsz) as Ha. revert E. unfold pool_alloc. cbv zeta.
  set (n := Z.land _ _) in *. clearbody n. clear Hsz sz. unfold pool_newchunk, given, pool_ok.
  destruct p as [chunks cur used]. cbn [p_chunks p_current p_current_used fst snd] in *.
  destruct (Z.leb_spec CHUNK_SIZE n) as [H1|H1].
  { intros [= <- <-]. cbn. rewrite length_app. cbn. destruct cur; naive_solver lia. }
  destruct cur as [c|]; cbn [p_chunks p_current p_current_used].
  - destruct (Z.leb_spec (n + used) CHUNK_SIZE) as [H2|H2]; [|destruct (Z.leb_spec used n) as [H3|H3]];
      intros [= <- <-]; cbn; rewrite ?length_app; cbn; rewrite ?Nat.add_1_r; cbn; naive_solver lia.
  - rewrite length_app. cbn [length]. rewrite Nat.add_1_r. cbn [pred]. subst used.
    rewrite (proj2 (Z.leb_le _ _)) by lia. intros [= <- <-]. cbn. rewrite length_app. cbn. naive_solver lia.
Qed.

(** [p'] comes after [p], and [a] was given out between them. *)
Definition extends (p p' : pool) : Prop := pool_ok p' /\ forall b, given p b -> given p' b.
Definition fresh_in (p p' : pool) (a : ptr) : Prop := ~ given p a /\ given p' a.

Lemma extends_refl p : pool_ok p -> extends p p.
Proof. done. Qed.
Lemma extends_trans p q r : extends p q -> extends q r -> extends p r.
Proof. unfold extends. naive_solver. Qed.
Lemma fresh_later p q r a : fresh_in p q a -> extends q r -> fresh_in p r a.
Proof. unfold extends, fresh_in. naive_solver. Qed.
Lemma fresh_earlier p q r a : extends p q -> fresh_in q r a -> fresh_in p r a.
Proof. unfold extends, fresh_in. naive_solver. Qed.

Lemma todword_range s v : todword s = Ret v -> 0 <= v < 2 ^ 32.
Proof. unfold todword. intros H. inv_ret. apply u32_range. Qed.

Lemma is_bytes_skip n s : is_bytes s -> is_bytes (skip n s).
Proof. intros. by apply Forall_drop. Qed.

Lemma arr_get_byte s i b : is_bytes s -> arr_get s i = Ret b -> word 8 b.
Proof.
  unfold arr_get, arr_lookup. intros Hs H. destruct (i <? 0); [done|]. unfold deref in H.
  destruct (s !! Z.to_nat i) eqn:E; [|done]. injection H as <-. by eapply Forall_lookup_1.
Qed.

Lemma toword_range s v : is_bytes s -> toword s = Ret v -> 0 <= v < 2 ^ 16.
Proof.
  unfold toword. intros Hs H. apply outcome_bind_Ret in H as (p0 & H0 & H). apply outcome_bind_Ret in H as (p1 & H1 & H).
  injection H as <-. apply arr_get_byte in H0, H1; [|done..]. unfold word in *. rewrite lor_shiftl_add by lia. lia.
Qed.

Lemma import_string_fresh p s c p' : pool_ok p -> import_string p s = Ret (c, p') -> extends p p' /\ fresh_in p p' (cs_at c).
Proof.
  unfold import_string. intros Hp H. apply outcome_bind_Ret in H as (sz & Hsz & H). apply todword_range in Hsz.
  destruct (pool_alloc p (u32 (sz + 1))) as [a q] eqn:E. revert H. destruct (_ <? sz); cbn [orb]; [done|].
  destruct (Z.eqb_spec (u32 (sz + 1)) (sz + 1)) as [Eq|]; cbn [negb]; [|done]. rewrite Eq in E. intros [= <- <-].
  destruct (pool_alloc_given _ _ _ _ Hp E) as (? & ? & ? & ?); [lia|]. done.
Qed.

(** ** Fields *)

Definition kind_ok (type_n : Z) (f : field) : Prop :=
  (-1 <= f_type f < 3 /\ f_st f = None) \/ (f_type f = 3 /\ exists i, f_st f = Some i /\ 0 <= i < type_n).

Definition small (x : Z) : Prop := -1 <= x <= 32766.

(** A field in the making, with the last tag that has been read. *)
Definition partial_ok (type_n tag : Z) (f : field) : Prop :=
  kind_ok type_n f /\ (tag < 1 -> f_type f = -1) /\ small (f_tag f) /\ small (f_key f).

Lemma import_word_ok type_n tag value f array f' array' : 1 <= tag -> 0 <= value <= 32766 -> partial_ok type_n (tag - 1) f ->
  import_word type_n tag value f array = Some (f', array') ->
  partial_ok type_n tag f' /\ f_name f' = f_name f /\ (array' = array \/ array' = SPROTO_TARRAY).
Proof.
  unfold import_word, partial_ok, small, SPROTO_TSTRUCT, SPROTO_TINTEGER, SPROTO_TSTRING.
  intros Htag Hv (Hk & Ht & Hg & Hy) H. destruct f as [t ty nm st k x]. cbn [f_tag f_type f_name f_st f_key f_extra] in *.
  assert (Hlt : forall P : Prop, (tag < 1 -> P)) by lia.
  destruct (Z.eqb_spec tag 1) as [H1|H1].
  { destruct (Z.leb_spec 3 value); [done|]. injection H as <- <-. split_and!; cbn; auto; try lia.
    assert (ty = -1) by (apply Ht; lia). left. destruct Hk as [[_ Hst]|[E _]]; cbn in *; [split; [lia|done]|lia]. }
  destruct (Z.eqb_spec tag 2) as [H2|H2].
  { destruct (Z.eqb_spec ty 0); [injection H as <- <-; split_and!; cbn; auto; lia|].
    destruct (Z.eqb_spec ty 2); [injection H as <- <-; split_and!; cbn; auto; lia|].
    destruct (Z.leb_spec type_n value); [done|]. destruct (Z.leb_spec 0 ty); [done|]. injection H as <- <-.
    split_and!; cbn; auto; try lia. right. cbn. split; [done|]. exists value. split; [done|lia]. }
  destruct (Z.eqb_spec tag 3); [injection H as <- <-; split_and!; cbn; auto; lia|].
  destruct (Z.eqb_spec tag 4); [injection H as <- <-; split_and!; cbn; auto; try lia; destruct (value =? 0); auto|].
  destruct (Z.eqb_spec tag 5); [injection H as <- <-; split_and!; cbn; auto; lia|done].
Qed.

Lemma field_loop_ok type_n data n word tag f array p f' array' p' :
  is_bytes word -> pool_ok p -> -1 <= tag -> partial_ok type_n tag f -> (array = 0 \/ array = SPROTO_TARRAY) ->
  field_loop n type_n word data tag f array p = Ret (Some (f', array', p')) ->
  (exists t, partial_ok type_n t f') /\ (array' = 0 \/ array' = SPROTO_TARRAY) /\ extends p p' /\
  (f_name f' = f_name f \/ exists c, f_name f' = Some c /\ fresh_in p p' (cs_at c)).
Proof.
  revert word tag f array p. induction n as [|n IH]; intros word tag f array p Hw Hp Htag Hf Ha H; cbn [field_loop] in H.
  { injection H as <- <- <-. split; [eauto|]. split; [done|]. split; [done|]. by left. }
  apply outcome_bind_Ret in H as (value & Hv & H). apply toword_range in Hv; [|done].
  assert (Hf' : forall t, tag <= t -> f_type f = -1 \/ 1 <= tag -> partial_ok type_n t f).
  { intros t Ht Hor. destruct Hf as (? & ? & ?). split; [done|]. split; [|done]. intros. destruct Hor; [done|lia]. }
  assert (Hor : f_type f = -1 \/ 1 <= tag) by (destruct Hf as (_ & Hf & _); destruct (Z.lt_ge_cases tag 1); auto).
  pose proof (is_bytes_skip SIZEOF_FIELD word Hw) as Hw'.
  destruct (Z.odd value) eqn:Eodd.
  { assert (0 <= value / 2) by (apply Z.div_pos; lia). apply IH in H; [done|done|done|lia| |done]. apply Hf'; [lia|done]. }
  destruct (Z.eqb_spec (tag + 1) 0) as [Hz|Hz].
  - destruct (negb (value =? 0)); [done|]. apply outcome_bind_Ret in H as ([c q] & Hc & H).
    destruct (import_string_fresh _ _ _ _ Hp Hc) as [Hq Hfr].
    apply IH in H as (Ht & Ha' & Hq' & Hn); [|done|apply Hq|lia| |done].
    + split; [done|]. split; [done|]. split; [by eapply extends_trans|]. right. cbn [with_name f_name] in Hn.
      destruct Hn as [-> |(c' & -> & Hc')]; [exists c|exists c']; (split; [done|]); [by eapply fresh_later|by eapply fresh_earlier].
    + apply (Hf' (tag + 1)); [lia|done].
  - destruct (Z.eqb_spec value 0) as [|Hv0]; [done|].
    assert (0 <= value / 2 - 1 <= 32766) by (pose proof (Zmod_odd value) as Hm; rewrite Eodd in Hm; Z.to_euclidean_division_equations; lia).
    destruct (import_word _ _ _ _ _) as [[g ar]|] eqn:Eg; [|done].
    apply import_word_ok in Eg as (Hg & Hn & Har); [|lia|lia|].
    + apply IH in H as (Ht & Ha' & Hq' & Hn'); [|done|done|lia|done|by destruct Har as [-> | ->]; auto].
      split; [done|]. split; [done|]. split; [done|]. by rewrite <- Hn.
    + apply Hf'; [lia|done].
Qed.

Definition wf_field (type_n : Z) (f : field) : Prop :=
  0 <= f_tag f <= 32766 /\ small (f_key f) /\ is_Some (f_name f) /\
  exists t array, f_type f = Z.lor t array /\ (array = 0 \/ array = SPROTO_TARRAY) /\
    (0 <= t < SPROTO_TSTRUCT /\ f_st f = None \/ t = SPROTO_TSTRUCT /\ exists i, f_st f = Some i /\ 0 <= i < type_n).

(** The address of a field's name. *)
Definition name_at (f : field) : option ptr := cs_at <$> f_name f.

Lemma import_field_ok type_n p s f rest p' : is_bytes s -> pool_ok p -> import_field type_n p s = Ret (Some (f, rest, p')) ->
  wf_field type_n f /\ is_bytes rest /\ extends p p' /\ exists a, name_at f = Some a /\ fresh_in p p' a.
Proof.
  unfold import_field. intros Hs Hp H. apply outcome_bind_Ret in H as (sz & _ & H). apply outcome_bind_Ret in H as (fn & _ & H).
  destruct (fn <? 0); [done|]. apply outcome_bind_Ret in H as ([[[g array] q]|] & Hl & H); [|done].
  apply field_loop_ok in Hl as ((t & Hk & _ & Ht & Hy) & Ha & Hq & Hn); [|by apply is_bytes_skip, is_bytes_skip|done|lia| |by left].
  2:{ unfold partial_ok, kind_ok, small, field_init. cbn. split_and!; try lia. left. split; [lia|done]. }
  destruct (Z.ltb_spec (f_tag g) 0); [done|]. destruct (Z.ltb_spec (f_type g) 0); [done|].
  destruct (bool_decide_reflect (f_name g = None)) as [|Hname]; [done|]. injection H as <- <- <-.
  destruct Hn as [Hn|(c & Hn & Hc)]; [done|]. unfold small in *. split; [|split; [by apply is_bytes_skip, is_bytes_skip|]].
  - unfold wf_field, small. cbn. split_and!; [lia|lia|lia|lia|rewrite Hn; eauto|]. exists (f_type g), array. split; [done|]. split; [done|].
    unfold SPROTO_TSTRUCT. destruct Hk as [[? ?]|[? ?]]; [left; split; [lia|done]|by right].
  - split; [done|]. exists (cs_at c). unfold name_at. cbn. by rewrite Hn.
Qed.

(** The words that a header may need beyond one for each field. *)
Fixpoint gaps (last : Z) (fs : list field) : Z :=
  match fs with [] => 0 | f :: fs => (if last + 1 <? f_tag f then 1 else 0) + gaps (f_tag f) fs end.

Definition tag_lt (f g : field) : Prop := f_tag f < f_tag g.

Lemma import_fields_ok type_n n s maxn last p fs maxn' p' : is_bytes s -> pool_ok p ->
  fields_loop n type_n s maxn last p = Ret (Some (fs, maxn', p')) ->
  length fs = n /\ Forall (wf_field type_n) fs /\ StronglySorted tag_lt fs /\ Forall (fun f => last < f_tag f) fs /\
  maxn' = maxn + gaps last fs /\ extends p p' /\
  NoDup (map name_at fs) /\ Forall (fun f => exists a, name_at f = Some a /\ fresh_in p p' a) fs.
Proof.
  revert s maxn last p fs maxn' p'. induction n as [|n IH]; intros s maxn last p fs maxn' p' Hs Hp H; cbn [fields_loop] in H.
  { injection H as <- <- <-. split_and!; try constructor; [by cbn; lia|done|done]. }
  apply outcome_bind_Ret in H as ([[[f rest] q]|] & Hf & H); [|done].
  apply import_field_ok in Hf as (Hwf & Hrest & Hq & a & Ha & Hfr); [|done|done].
  destruct (Z.leb_spec (f_tag f) last) as [|Hlast]; [done|].
  apply outcome_bind_Ret in H as ([[[fs' m] r]|] & Hl & H); [|done]. injection H as <- <- <-.
  apply IH in Hl as (Hlen & Hall & Hsort & Hgt & Hm & Hr & Hnd & Hfresh); [|done|apply Hq].
  split_and!.
  - cbn. lia.
  - by constructor.
  - by constructor.
  - constructor; [done|]. eapply Forall_impl; [apply Hgt|]. cbn. lia.
  - cbn [gaps]. rewrite Hm. destruct (Z.ltb_spec (last + 1) (f_tag f)); lia.
  - by eapply extends_trans.
  - cbn [map]. constructor; [|done]. intros (g & Hg & Hin)%list_elem_of_fmap. rewrite Forall_forall in Hfresh.
    destruct (Hfresh g Hin) as (b & Hb & Hnot & _). rewrite Ha, Hb in Hg. injection Hg as ->. destruct Hfr. tauto.
  - constructor; [exists a; split; [done|by eapply fresh_later]|]. eapply Forall_impl; [apply Hfresh|].
    intros g (b & ? & ?). exists b. split; [done|]. by eapply fresh_earlier.
Qed.

(** ** Types and protocols *)

Definition wf_type (type_n : Z) (t : sproto_type) : Prop :=
  is_Some (st_name t) /\ st_n t = Z.of_nat (length (st_f t)) /\ Forall (wf_field type_n) (st_f t) /\
  StronglySorted tag_lt (st_f t) /\ NoDup (map name_at (st_f t)) /\
  st_maxn t = st_n t + gaps (-1) (st_f t) /\
  (0 <= st_base t -> forall i f, st_f t !! i = Some f -> f_tag f = st_base t + Z.of_nat i).

Definition wf_protocol (type_n : Z) (p : protocol) : Prop :=
  is_Some (pr_name p) /\ 0 <= pr_tag p /\
  (forall i, pr_request p = Some i -> 0 <= i < type_n) /\ (forall i, pr_response p = Some i -> 0 <= i < type_n).

Definition wf_sproto (s : sproto) : Prop :=
  s_type_n s = Z.of_nat (length (s_type s)) /\ s_protocol_n s = Z.of_nat (length (s_proto s)) /\
  Forall (wf_type (s_type_n s)) (s_type s) /\ Forall (wf_protocol (s_type_n s)) (s_proto s).

(** Ascending tags that end as far from the first as there are fields. *)
Lemma contiguous fs f0 fl : StronglySorted tag_lt fs -> fs !! 0%nat = Some f0 -> last fs = Some fl ->
  Z.of_nat (length fs) - 1 <= f_tag fl - f_tag f0 /\
  (f_tag fl - f_tag f0 + 1 = Z.of_nat (length fs) -> forall i f, fs !! i = Some f -> f_tag f = f_tag f0 + Z.of_nat i).
Proof.
  intros Hs. revert f0. induction Hs as [|f fs Hs IH Hf]; [done|]. intros f0 [= <-] Hl.
  destruct fs as [|g fs]; cbn in *.
  { injection Hl as <-. split; [lia|]. intros _ [|i] h Hi; [injection Hi as <-; lia|done]. }
  destruct (IH g eq_refl Hl) as [Hle Hc]. apply Forall_cons in Hf as [Hfg _]. unfold tag_lt in Hfg.
  split; [lia|]. intros E [|i] h Hi; cbn in *; [injection Hi as <-; lia|]. rewrite (Hc ltac:(lia) i h Hi). lia.
Qed.

Lemma count_array_nonneg s n : count_array s = Ret n -> n = -1 \/ 0 <= n.
Proof.
  unfold count_array. intros H. apply outcome_bind_Ret in H as (len & _ & H). revert H. generalize (S (length s)).
  intros fuel. assert (H0 : 0 <= 0) by lia. revert H0. generalize 0 at 2 3. generalize (skip SIZEOF_LENGTH s).
  revert len. induction fuel as [|fuel IH]; intros len st c Hc H; cbn [count_loop] in H; [done|].
  destruct (0 <? len); [|injection H as <-; by right]. destruct (len <? SIZEOF_LENGTH); [injection H as <-; by left|].
  apply outcome_bind_Ret in H as (nsz & _ & H). cbv zeta in H. destruct (_ <? _); [injection H as <-; by left|].
  apply IH in H; [done|lia].
Qed.

Lemma pool_alloc_extends p sz : pool_ok p -> extends p (snd (pool_alloc p sz)).
Proof.
  intros [Hu Hc]. unfold pool_alloc. cbv zeta. set (n := Z.land _ _). assert (0 <= n).
  { unfold n. apply Z.land_nonneg. left. apply Z.mod_pos_bound. lia. }
  clearbody n. unfold pool_newchunk, extends, given, pool_ok. destruct p as [chunks cur used].
  cbn [p_chunks p_current p_current_used fst snd] in *.
  destruct (Z.leb_spec CHUNK_SIZE n) as [H1|H1].
  { cbn. rewrite length_app. cbn. destruct cur; naive_solver lia. }
  destruct cur as [c|]; cbn [p_chunks p_current p_current_used].
  - destruct (Z.leb_spec (n + used) CHUNK_SIZE) as [H2|H2]; [|destruct (Z.leb_spec used n) as [H3|H3]];
      cbn; rewrite ?length_app; cbn; rewrite ?Nat.add_1_r; cbn; naive_solver lia.
  - rewrite length_app. cbn [length]. rewrite Nat.add_1_r. cbn [pred]. subst used.
    rewrite (proj2 (Z.leb_le _ _)) by lia. cbn. rewrite length_app. cbn. naive_solver lia.
Qed.

Lemma import_type_ok type_n p s t rest p' : is_bytes s -> pool_ok p -> import_type type_n p s = Ret (Some (t, rest, p')) ->
  wf_type type_n t /\ is_bytes rest /\ extends p p'.
Proof.
  unfold import_type. intros Hs Hp H. apply outcome_bind_Ret in H as (sz & _ & H). apply outcome_bind_Ret in H as (fn & _ & H).
  destruct (_ || _); [done|]. apply outcome_bind_Ret in H as (zero & _ & H). destruct (negb zero); [done|].
  apply outcome_bind_Ret in H as ([name q] & Hn & H). apply import_string_fresh in Hn as [Hq _]; [|done].
  destruct (fn =? 1).
  { injection H as <- <- <-. split; [|split; [by apply is_bytes_skip, is_bytes_skip|done]].
    split; [eauto|]. split; [done|]. split; [by apply Forall_nil_2|]. split; [apply SSorted_nil|]. split; [apply NoDup_nil_2|]. done. }
  apply outcome_bind_Ret in H as (d & _ & H). apply outcome_bind_Ret in H as (n & Hcount & H). apply count_array_nonneg in Hcount.
  destruct (Z.ltb_spec n 0) as [|Hpos]; [done|]. destruct (pool_alloc q _) as [a q'] eqn:Ea.
  pose proof (pool_alloc_extends q (SIZEOF_STRUCT_FIELD * n) (proj1 Hq)) as Hq'. rewrite Ea in Hq'. cbn [snd] in Hq'.
  apply outcome_bind_Ret in H as ([[[fs m] r]|] & Hf & H); [|done].
  apply import_fields_ok in Hf as (Hlen & Hwf & Hsort & Hgt & -> & Hr & Hnd & _); [|repeat apply is_bytes_skip; done|apply Hq'].
  apply outcome_bind_Ret in H as (f0 & Hf0 & H). apply outcome_bind_Ret in H as (fl & Hfl & H). injection H as <- <- <-.
  split; [|split; [by repeat apply is_bytes_skip|by eapply extends_trans; [eapply extends_trans|]]].
  unfold wf_type. cbn [st_name st_n st_base st_maxn st_f]. split_and!; [eauto|lia|done|done|done|lia|].
  unfold arr_get in *. destruct (arr_lookup fs 0) as [g0|] eqn:E0; [|done]. injection Hf0 as ->.
  destruct (arr_lookup fs (n - 1)) as [gl|] eqn:El; [|done]. injection Hfl as ->.
  pose proof (arr_lookup_lt _ _ _ El). rewrite arr_lookup_nonneg in E0, El by lia. change (Z.to_nat 0) with 0%nat in E0.
  destruct (contiguous fs f0 fl Hsort E0) as [_ Hc].
  { rewrite last_lookup, <- El. f_equal. lia. }
  destruct (Z.eqb_spec (f_tag fl - f_tag f0 + 1) n) as [E|]; cbn [negb]; [|lia]. intros _. apply Hc. lia.
Qed.

Definition refs_ok (type_n : Z) (p : protocol) : Prop :=
  (forall i, pr_request p = Some i -> 0 <= i < type_n) /\ (forall i, pr_response p = Some i -> 0 <= i < type_n).

Lemma protocol_loop_ok type_n data n i word pr p pr' p' : pool_ok p -> refs_ok type_n pr ->
  protocol_loop n type_n i word data pr p = Ret (Some (pr', p')) -> refs_ok type_n pr' /\ extends p p'.
Proof.
  revert i word pr p. induction n as [|n IH]; intros i word pr p Hp Hr H; cbn [protocol_loop] in H; [by injection H as <- <-|].
  apply outcome_bind_Ret in H as (v & _ & H). destruct (Z.odd v); [by eapply IH|]. destruct (i =? 0).
  - destruct (negb _); [done|]. apply outcome_bind_Ret in H as ([c q] & Hc & H). apply import_string_fresh in Hc as [Hq _]; [|done].
    apply IH in H as [? ?]; [|apply Hq|done]. split; [done|by eapply extends_trans].
  - destruct (protocol_word _ _ _ _) as [r|] eqn:E; [|done]. eapply IH; [done| |apply H]. revert E. clear H.
    unfold protocol_word. destruct (i =? 1); [destruct (_ <? 0); [done|]; by intros [= <-]|].
    destruct (i =? 2); [|destruct (i =? 3)].
    1,2: destruct (Z.ltb_spec (v / 2 - 1) 0); [done|]; destruct (Z.leb_spec type_n (v / 2 - 1)); [done|]; cbn [orb]; intros [= <-];
      destruct Hr; split; cbn; naive_solver.
    destruct (i =? 4); [|done]. by intros [= <-].
Qed.

Lemma import_protocol_ok type_n p s t rest p' : is_bytes s -> pool_ok p -> import_protocol type_n p s = Ret (Some (t, rest, p')) ->
  wf_protocol type_n t /\ is_bytes rest /\ extends p p'.
Proof.
  unfold import_protocol. intros Hs Hp H. apply outcome_bind_Ret in H as (sz & _ & H). apply outcome_bind_Ret in H as (fn & _ & H).
  apply outcome_bind_Ret in H as ([[pr q]|] & Hl & H); [|done]. apply protocol_loop_ok in Hl as [Hr Hq]; [|done|done].
  destruct (bool_decide_reflect (pr_name pr = None)) as [|Hname]; [done|]. destruct (Z.ltb_spec (pr_tag pr) 0); [done|].
  injection H as <- <- <-. split; [|split; [by apply is_bytes_skip, is_bytes_skip|done]].
  split; [by destruct (pr_name pr); eauto|]. by split.
Qed.

Lemma import_types_ok type_n n p s ts p' : is_bytes s -> pool_ok p -> import_types n type_n p s = Ret (Some (ts, p')) ->
  length ts = n /\ Forall (wf_type type_n) ts /\ extends p p'.
Proof.
  revert p s ts. induction n as [|n IH]; intros p s ts Hs Hp H; cbn [import_types] in H; [by injection H as <- <-|].
  apply outcome_bind_Ret in H as ([[[t rest] q]|] & Ht & H); [|done]. apply import_type_ok in Ht as (Ht & Hrest & Hq); [|done|done].
  apply outcome_bind_Ret in H as ([[ts' q']|] & Hl & H); [|done]. injection H as <- <-. apply IH in Hl as (<- & Hts & Hq'); [|done|apply Hq].
  split; [done|]. split; [by constructor|by eapply extends_trans].
Qed.

Lemma import_protocols_ok type_n n p s ts p' : is_bytes s -> pool_ok p -> import_protocols n type_n p s = Ret (Some (ts, p')) ->
  length ts = n /\ Forall (wf_protocol type_n) ts.
Proof.
  revert p s ts. induction n as [|n IH]; intros p s ts Hs Hp H; cbn [import_protocols] in H; [by injection H as <- <-|].
  apply outcome_bind_Ret in H as ([[[t rest] q]|] & Ht & H); [|done]. apply import_protocol_ok in Ht as (Ht & Hrest & Hq); [|done|done].
  apply outcome_bind_Ret in H as ([[ts' q']|] & Hl & H); [|done]. injection H as <- <-. apply IH in Hl as (<- & Hts); [|done|apply Hq].
  split; [done|by constructor].
Qed.

Lemma bundle_array_ok w c n d rest : is_bytes c -> bundle_array w c = Ret (Some (n, d, rest)) -> 0 <= n /\ is_bytes d /\ is_bytes rest.
Proof.
  unfold bundle_array. intros Hc H. apply outcome_bind_Ret in H as (v & _ & H). destruct (negb _); [done|].
  apply outcome_bind_Ret in H as (k & _ & H). destruct (Z.ltb_spec k 0); [done|]. apply outcome_bind_Ret in H as (e & _ & H).
  injection H as <- <- <-. split; [done|]. split; by apply is_bytes_skip.
Qed.

(** What the loader accepts is a well-formed schema. *)
Lemma create_wf proto s : is_bytes proto -> sproto_create proto = Ret (Some s) -> wf_sproto s.
Proof.
  unfold sproto_create, create_from_bundle. intros Hb H.
  pose proof (pool_alloc_extends pool_init SIZEOF_STRUCT_SPROTO ltac:(done)) as Hm.
  destruct (pool_alloc pool_init _) as [a mem]. cbn [snd] in Hm. clear a.
  apply outcome_bind_Ret in H as (fn & _ & H). destruct (_ || _); [done|]. cbv zeta in H.
  assert (Hnil : is_bytes []) by constructor. set (content := skip (fn * SIZEOF_FIELD) (skip SIZEOF_HEADER proto)) in *.
  assert (Hcontent : is_bytes content) by (by apply is_bytes_skip, is_bytes_skip). clearbody content.
  set (w := skip SIZEOF_HEADER proto) in *. clearbody w.
  apply outcome_bind_Ret in H as ([[[tn td] c]|] & Ha & H); [|done].
  assert (0 <= tn /\ is_bytes td /\ is_bytes c) as (Htn & Htd & Hc) by (destruct (1 <=? fn); [by eapply bundle_array_ok|by injection Ha as <- <- <-]).
  set (p1 := if 1 <=? fn then _ else mem) in H. assert (Hp1 : extends mem p1) by (unfold p1; destruct (1 <=? fn); [apply pool_alloc_extends, Hm|apply extends_refl, Hm]).
  apply outcome_bind_Ret in H as ([[[pn pd] c']|] & Ha' & H); [|done].
  assert (0 <= pn /\ is_bytes pd /\ is_bytes c') as (Hpn & Hpd & _) by (destruct (2 <=? fn); [by eapply bundle_array_ok|by injection Ha' as <- <- <-]).
  set (p2 := if 2 <=? fn then _ else p1) in H. assert (Hp2 : extends p1 p2) by (unfold p2; destruct (2 <=? fn); [apply pool_alloc_extends, Hp1|apply extends_refl, Hp1]).
  clearbody p1 p2. apply outcome_bind_Ret in H as ([[ts q]|] & Hts & H); [|done]. apply import_types_ok in Hts as (Hlt & Hts & Hq); [|done|apply Hp2].
  apply outcome_bind_Ret in H as ([[ps q']|] & Hps & H); [|done]. injection H as <-. apply import_protocols_ok in Hps as [Hlp Hps]; [|done|apply Hq].
  split; cbn; [lia|]. split; [lia|]. done.
Qed.

(** ** Searching *)

Definition ascending {A} (tag_of : A -> Z) (l : list A) : Prop := StronglySorted (fun a b => tag_of a < tag_of b) l.

Lemma search_loop_spec {A} (tag_of : A -> Z) l tag fuel b e : ascending tag_of l ->
  0 <= b <= e -> e <= Z.of_nat (length l) -> (Z.to_nat (e - b) < fuel)%nat ->
  (forall i x, l !! i = Some x -> tag_of x = tag -> b <= Z.of_nat i < e) ->
  exists r, search_loop tag_of fuel l tag b e = Ret r /\
    match r with Some x => x ∈ l /\ tag_of x = tag | None => forall x, x ∈ l -> tag_of x <> tag end.
Proof.
  intros Hs. revert b e. induction fuel as [|fuel IH]; intros b e Hb He Hf Hin; [lia|]. cbn [search_loop].
  destruct (Z.ltb_spec b e) as [Hlt|Hge].
  - assert (Hm : b <= (b + e) / 2 < e) by (split; [apply Z.div_le_lower_bound; lia|apply Z.div_lt_upper_bound; lia]).
    set (mid := (b + e) / 2) in *. clearbody mid. destruct (arr_lookup_is_Some l mid ltac:(lia)) as [x Hx].
    unfold arr_get. rewrite Hx. cbn [deref]. rewrite bind_Ret. rewrite arr_lookup_nonneg in Hx by lia. cbv zeta.
    destruct (Z.eqb_spec (tag_of x) tag) as [E|Hne].
    { exists (Some x). split; [done|]. split; [by eapply list_elem_of_lookup_2|done]. }
    destruct (Z.ltb_spec (tag_of x) tag) as [Hx'|Hx']; apply IH; try lia; intros i y Hy Ey; specialize (Hin i y Hy Ey).
    + destruct (decide (Z.to_nat mid < i)%nat); [lia|]. destruct (decide (i = Z.to_nat mid)) as [->|]; [congruence|].
      pose proof (sorted_lookup_lt _ l i _ y x Hs Hy Hx ltac:(lia)) as Hlt'. cbn in Hlt'. lia.
    + destruct (decide (i < Z.to_nat mid)%nat); [lia|]. destruct (decide (i = Z.to_nat mid)) as [->|]; [congruence|].
      pose proof (sorted_lookup_lt _ l _ i x y Hs Hx Hy ltac:(lia)) as Hlt'. cbn in Hlt'. lia.
  - exists None. split; [done|]. intros x [i Hi]%list_elem_of_lookup E. specialize (Hin i x Hi E). lia.
Qed.

(** [findtag] never fails on a well-formed type, and finds the field if there is one. *)
Lemma findtag_spec type_n t tag : wf_type type_n t ->
  exists r, findtag t tag = Ret r /\
    match r with Some f => f ∈ st_f t /\ f_tag f = tag | None => forall f, f ∈ st_f t -> f_tag f <> tag end.
Proof.
  intros (_ & Hn & _ & Hs & _ & _ & Hb). unfold findtag. destruct (Z.leb_spec 0 (st_base t)) as [H0|H0].
  - specialize (Hb H0). destruct (Z.ltb_spec (tag - st_base t) 0); cbn [orb]; [|destruct (Z.leb_spec (st_n t) (tag - st_base t))].
    1,2: exists None; (split; [done|]); intros f [i Hi]%list_elem_of_lookup E; pose proof (Hb i f Hi); apply lookup_lt_Some in Hi; lia.
    destruct (arr_lookup_is_Some (st_f t) (tag - st_base t) ltac:(lia)) as [f Hf]. unfold arr_get. rewrite Hf. cbn [deref]. rewrite bind_Ret.
    exists (Some f). split; [done|]. rewrite arr_lookup_nonneg in Hf by lia. split; [by eapply list_elem_of_lookup_2|].
    rewrite (Hb _ _ Hf). lia.
  - apply search_loop_spec; [done|lia|lia|lia|]. intros i x Hi _. apply lookup_lt_Some in Hi. lia.
Qed.

(** The field with a tag, by a search from the front. *)
Definition field_with (t : sproto_type) (tag : Z) : option field := snd <$> list_find (fun f => f_tag f = tag) (st_f t).

Lemma tag_inj t type_n f g : wf_type type_n t -> f ∈ st_f t -> g ∈ st_f t -> f_tag f = f_tag g -> f = g.
Proof.
  intros (_ & _ & _ & Hs & _) [i Hi]%list_elem_of_lookup [j Hj]%list_elem_of_lookup E.
  destruct (Nat.lt_trichotomy i j) as [Hlt|[->|Hlt]]; [|congruence|].
  - pose proof (sorted_lookup_lt _ _ i j f g Hs Hi Hj Hlt) as H. unfold tag_lt in H. lia.
  - pose proof (sorted_lookup_lt _ _ j i g f Hs Hj Hi Hlt) as H. unfold tag_lt in H. lia.
Qed.

Lemma findtag_field_with type_n t tag : wf_type type_n t -> findtag t tag = Ret (field_with t tag).
Proof.
  intros Hw. destruct (findtag_spec type_n t tag Hw) as (r & -> & Hr). f_equal. unfold field_with.
  destruct (list_find _ (st_f t)) as [[i f]|] eqn:E; cbn.
  - apply list_find_Some in E as (Hi & Ht & _). apply list_elem_of_lookup_2 in Hi. destruct r as [g|].
    + destruct Hr as [Hg Hgt]. f_equal. eapply tag_inj; [done..|congruence].
    + by destruct (Hr f Hi).
  - destruct r as [g|]; [|done]. destruct Hr as [Hg Ht]. apply list_find_None in E. rewrite Forall_forall in E.
    by destruct (E g Hg).
Qed.

(** C26: a bundle that [sproto_create] accepts gives a well-formed schema: the fields of
    a type have ascending tags, names of their own, types of the language and references
    to types that exist, and [sproto_encode]'s header has room for them; [findtag], by
    index or by bisection, then never fails and finds what a search from the front finds. *)
Theorem create_well_typed proto s : is_bytes proto -> sproto_create proto = Ret (Some s) ->
  wf_sproto s /\ forall i t tag, s_type s !! i = Some t -> findtag t tag = Ret (field_with t tag).
Proof.
  intros Hb Hs. pose proof (create_wf proto s Hb Hs) as Hw. split; [done|]. intros i t tag Hi.
  destruct Hw as (_ & _ & Ht & _). eapply findtag_field_with. by eapply Forall_lookup_1.
Qed.

(** ** A concrete schema, written as [lualib/sprotoparser.lua] does *)

Definition pack_word (n : Z) : bytes := [u8 n; u8 (Z.shiftr n 8)].
Definition packbytes (s : bytes) : bytes :=
  let n := Z.of_nat (length s) in [u8 n; u8 (Z.shiftr n 8); u8 (Z.shiftr n 16); u8 (Z.shiftr n 24)] ++ s.
Definition packvalue (v : Z) : bytes := pack_word ((v + 1) * 2).

(** Builtin type and extra, or the index of a type; whether it is an array; its key. *)
Record field_source := FieldSource { fs_name : string; fs_tag : Z; fs_type : Z * option Z + Z; fs_array : bool; fs_key : option Z }.

Definition packfield (f : field_source) : bytes :=
  packbytes
    (pack_word (match fs_array f, fs_key f with true, Some _ => 6 | true, None => 5 | _, _ => 4 end) ++ [0; 0] ++
     match fs_type f with
     | inl (b, Some e) => packvalue b ++ packvalue e ++ packvalue (fs_tag f)
     | inl (b, None) => packvalue b ++ [1; 0] ++ packvalue (fs_tag f)
     | inr t => [1; 0] ++ packvalue t ++ packvalue (fs_tag f)
     end ++
     (if fs_array f then packvalue 1 else []) ++ match fs_key f with Some k => packvalue k | None => [] end ++
     packbytes (str (fs_name f))).

Definition packtype (t : string * list field_source) : bytes :=
  packbytes (match t.2 with
             | [] => [1; 0; 0; 0] ++ packbytes (str t.1)
             | fs => [2; 0; 0; 0; 0; 0] ++ packbytes (str t.1) ++ packbytes (concat (map packfield fs))
             end).

(** Name, tag, request and response. *)
Definition packproto (p : string * Z * option Z * option Z) : bytes :=
  let '(name, tag, request, response) := p in
  let opt o := match o with Some i => packvalue i | None => [1; 0] end in
  packbytes (pack_word (match request, response with None, None => 2 | _, None => 3 | _, _ => 4 end) ++ [0; 0] ++ packvalue tag ++
             match request, response with None, None => [] | _, None => opt request | _, _ => opt request ++ opt response end ++
             packbytes (str name)).

Definition packgroup (ts : list (string * list field_source)) (ps : list (string * Z * option Z * option Z)) : bytes :=
  match ps with
  | [] => [1; 0; 0; 0] ++ packbytes (concat (map packtype ts))
  | _ => [2; 0; 0; 0; 0; 0] ++ packbytes (concat (map packtype ts)) ++ packbytes (concat (map packproto ps))
  end.

Definition int_ : Z * option Z + Z := inl (0, None).
Definition bool_ : Z * option Z + Z := inl (1, None).
Definition string_ : Z * option Z + Z := inl (2, None).

Definition demo_bundle : bytes :=
  packgroup
    [("person"%string, [FieldSource "name" 0 string_ false None; FieldSource "age" 1 int_ false None; FieldSource "married" 3 bool_ false None;
                        FieldSource "friends" 4 (inr 0) true None; FieldSource "phones" 7 (inr 1) true (Some 0); FieldSource "marks" 8 int_ true None;
                        FieldSource "flags" 9 bool_ true None; FieldSource "tags" 10 string_ true None; FieldSource "phone" 20 (inr 1) false None]);
     ("phone"%string, [FieldSource "number" 0 string_ false None; FieldSource "kind" 1 int_ false None])]
    [("login"%string, 1, Some 0, Some 1); ("ping"%string, 2, None, None)].

Definition demo_schema : sproto :=
  match sproto_create demo_bundle with Ret (Some s) => s | _ => Sproto pool_init 0 0 [] [] end.

Lemma create_well_typed_witness :
  sproto_create demo_bundle = Ret (Some demo_schema) /\ wf_sproto demo_schema /\
  option_map st_base (s_type demo_schema !! 0%nat) = Some (-1) /\ option_map st_maxn (s_type demo_schema !! 0%nat) = Some 12.
Proof.
  assert (E : sproto_create demo_bundle = Ret (Some demo_schema)) by (vm_compute; reflexivity).
  split; [exact E|]. split; [|split; vm_compute; reflexivity].
  apply (create_well_typed demo_bundle demo_schema); [|exact E]. apply all_words_ok. vm_compute. reflexivity.
Defined.

(** An array of fields of size zero is not refused: the tag of its first field is read. *)
Lemma no_fields_undefined : sproto_create (packgroup [("t"%string, [])] []) <> Undefined /\
  sproto_create ([1; 0; 0; 0] ++ packbytes (packbytes ([2; 0; 0; 0; 0; 0] ++ packbytes (str "t") ++ packbytes []))) = Undefined.
Proof. split; vm_compute; [discriminate|reflexivity]. Qed.

(** The sum of a length and 4 wraps around: the check of [struct_field] passes and the
    name is copied from behind the bundle; [count_array] does not advance. *)
Lemma length_wraps : sproto_create ([1; 0; 0; 0] ++ packbytes (packbytes ([1; 0; 0; 0] ++ [255; 255; 255; 255]))) = Undefined /\
  count_array (packbytes [252; 255; 255; 255]) = Undefined.
Proof. split; vm_compute; reflexivity. Qed.

(** [query_proto] bisects the protocols, whose order is not checked. *)
Lemma unsorted_protocols : match sproto_create (packgroup [("t"%string, [])] [("b"%string, 2, Some 0, None); ("a"%string, 1, Some 0, None)]) with
  | Ret (Some s) => query_proto s 2 = Ret None /\ sproto_prototag s (str "b") = Ret 2
  | _ => False
  end.
Proof. vm_compute. done. Qed.
