(* ===== verification/SprotoCode.v ===== *)
(** Sproto encoding and decoding: [sproto_encode] and [sproto_decode] of
    [lualib-src/sproto/sproto.c] with the callbacks of [lsproto.c] that read and
    build Lua tables. *)
From Stdlib Require Import Floats.SpecFloat.
From S2P Require Import Prelude Sproto.

#[local] Set Warnings "-register-all".

(** ** Lua values

    A table is the list of its entries in the order of [lua_next]; no table has a
    metatable. *)
Inductive lval :=
  | LNil | LBool (b : bool) | LInt (n : Z) | LNum (x : spec_float) | LStr (s : bytes)
  | LTab (t : list (lval * lval)) | LOther (type_name : bytes).
Abbreviation ltable := (list (lval * lval)).

(** [lua_getfield] *)
Fixpoint getfield (t : ltable) (name : bytes) : lval :=
  match t with
  | [] => LNil
  | (k, v) :: t => match k with LStr s => if bool_decide (s = name) then v else getfield t name | _ => getfield t name end
  end.

(** [lua_geti] *)
Fixpoint geti (t : ltable) (i : Z) : lval :=
  match t with
  | [] => LNil
  | (k, v) :: t => match k with LInt n => if n =? i then v else geti t i | _ => geti t i end
  end.

(** Doubles. *)
Definition sf_of_int (n : Z) : spec_float := binary_normalize 53 1024 n 0 false.
Definition sf_mul : spec_float -> spec_float -> spec_float := SFmul 53 1024.
Definition sf_div : spec_float -> spec_float -> spec_float := SFdiv 53 1024.

(** [(int64_t)round(x)]: halves away from zero; undefined out of range. *)
Definition round_int64 (x : spec_float) : outcome Z :=
  match x with
  | S754_zero _ => Ret 0
  | S754_finite s m e =>
      let n := if 0 <=? e then Zpos m * 2 ^ e else (Zpos m + 2 ^ (- e - 1)) / 2 ^ (- e) in
      let n := if s : bool then - n else n in
      if (- 2 ^ 63 <=? n) && (n <? 2 ^ 63) then Ret n else Undefined
  | _ => Undefined
  end.

(** The integer that a double is, if it is one of 64 bits. *)
Definition float_to_integer (x : spec_float) : option Z :=
  match x with
  | S754_zero _ => Some 0
  | S754_finite s m e =>
      let exact := (0 <=? e) || (Zpos m mod 2 ^ (- e) =? 0) in
      let n := if 0 <=? e then Zpos m * 2 ^ e else Zpos m / 2 ^ (- e) in
      let n := if s : bool then - n else n in
      if exact && (- 2 ^ 63 <=? n) && (n <? 2 ^ 63) then Some n else None
  | _ => None
  end.

(** ** Arguments of the callbacks *)

Definition SPROTO_CB_ERROR : Z := -1.
Definition SPROTO_CB_NIL : Z := -2.
Definition SPROTO_CB_NOARRAY : Z := -3.

(** What [value] points to: a local union, or a place in a buffer, which is what
    follows it. *)
Inductive value_ptr := VNull | VLocal (w : Z) | VAt (p : bytes).

Record sproto_arg := Arg {
  a_tagname : option cstr; a_tagid : Z; a_type : Z; a_subtype : option Z; a_value : value_ptr;
  a_length : Z; a_index : Z; a_mainindex : Z; a_extra : Z }.

(** The arguments that a field sets. *)
Definition field_arg (f : field) (type : Z) : sproto_arg :=
  Arg (f_name f) (f_tag f) type (f_st f) VNull 0 0 (f_key f) (f_extra f).

(** [args->value = v; args->length = len; args->index = i] *)
Definition set_value (a : sproto_arg) (v : value_ptr) (len i : Z) : sproto_arg :=
  Arg (a_tagname a) (a_tagid a) (a_type a) (a_subtype a) v len i (a_mainindex a) (a_extra a).

Definition at_buffer (v : value_ptr) : outcome bytes := match v with VAt p => Ret p | _ => Undefined end.
Definition at_local (v : value_ptr) : outcome Z := match v with VLocal w => Ret w | _ => Undefined end.

(** Little-endian bytes. *)
Definition le2 (v : Z) : bytes := [Z.land v 0xff; Z.land (Z.shiftr v 8) 0xff].
Definition le4 (v : Z) : bytes := [Z.land v 0xff; Z.land (Z.shiftr v 8) 0xff; Z.land (Z.shiftr v 16) 0xff; Z.land (Z.shiftr v 24) 0xff].
Definition le8 (v : Z) : bytes := le4 v ++ le4 (Z.shiftr v 32).

(** [memcpy] of a whole list. *)
Definition put (m : bytes) (off : Z) (s : bytes) : outcome bytes := memcpy m off s (Z.of_nat (length s)).

(** ** sproto_encode

    A buffer is what follows the pointer to it; a function that writes returns it. *)
Section encode.
Context {U : Type} (cb : sproto_arg -> U -> outcome (Z * value_ptr * U)).

Definition fill_size (data : bytes) (sz : Z) : outcome (Z * bytes) :=
  data ← put data 0 (le4 sz); Ret (sz + SIZEOF_LENGTH, data).

(** [sizeof] is unsigned: a negative size is not less than it. *)
Definition encode_integer (v : Z) (data : bytes) (size : Z) : outcome (Z * bytes) :=
  if (0 <=? size) && (size <? SIZEOF_LENGTH + 4) then Ret (-1, data)
  else data ← put data 4 (le4 v); fill_size data 4.

Definition encode_uint64 (v : Z) (data : bytes) (size : Z) : outcome (Z * bytes) :=
  if (0 <=? size) && (size <? SIZEOF_LENGTH + 8) then Ret (-1, data)
  else data ← put data 4 (le8 v); fill_size data 8.

Definition encode_object (args : sproto_arg) (data : bytes) (size : Z) (u : U) : outcome (Z * bytes * U) :=
  if size <? SIZEOF_LENGTH then Ret (-1, data, u)
  else
    '(sz, v, u) ← cb (set_value args (VAt (skip SIZEOF_LENGTH data)) (size - SIZEOF_LENGTH) (a_index args)) u;
    p ← at_buffer v;
    let data := take (Z.to_nat SIZEOF_LENGTH) data ++ p in
    if sz <? 0 then Ret (if sz =? SPROTO_CB_NIL then 0 else -1, data, u)
    else
      _ ← assert_ (sz <=? size - SIZEOF_LENGTH);
      '(r, data) ← fill_size data sz;
      Ret (r, data, u).

(** [buffer] is [m + off]. *)
Definition uint32_to_uint64 (negative : bool) (m : bytes) (off : Z) : outcome bytes :=
  put m (off + 4) (if negative then [0xff; 0xff; 0xff; 0xff] else [0; 0; 0; 0]).

(** [for (i=index-2;i>=0;i--)]: [n] is [i + 1]. *)
Fixpoint rearrange (n : nat) (header : bytes) : outcome bytes :=
  match n with
  | O => Ret header
  | S n =>
      let i := Z.of_nat n in
      header ← memcpy header (1 + i * SIZEOF_INT64) (skip (1 + i * SIZEOF_INT32) header) SIZEOF_INT32;
      b ← arr_get header (1 + i * SIZEOF_INT64 + 3);
      header ← uint32_to_uint64 (negb (Z.land b 0x80 =? 0)) header (1 + i * SIZEOF_INT64);
      rearrange n header
  end.

(** [for (;;)]; [buffer] is [header + off]. The end of the data, with the width of
    the integers and whether there is no array; or NULL. *)
Fixpoint integer_loop (fuel : nat) (args : sproto_arg) (header : bytes) (off size intlen index : Z) (u : U)
    : outcome (option (Z * Z * bool) * bytes * U) :=
  match fuel with
  | O => Undefined
  | S fuel =>
      '(sz, v, u) ← cb (set_value args (VLocal 0) 8 index) u;
      if sz <=? 0 then
        if sz =? SPROTO_CB_NIL then Ret (Some (off, intlen, false), header, u)
        else if sz =? SPROTO_CB_NOARRAY then Ret (Some (off, intlen, true), header, u)
        else Ret (None, header, u)
      else if size <? SIZEOF_INT64 then Ret (None, header, u)
      else
        w ← at_local v;
        if sz =? SIZEOF_INT32 then
          header ← put header off (le4 w);
          header ← (if intlen =? SIZEOF_INT64 then uint32_to_uint64 (negb (Z.land w 0x80000000 =? 0)) header off else Ret header);
          integer_loop fuel args header (off + intlen) (size - intlen) intlen (index + 1) u
        else if negb (sz =? SIZEOF_INT64) then Ret (None, header, u)
        else if intlen =? SIZEOF_INT32 then
          let size := size - (index - 1) * SIZEOF_INT32 in
          if size <? SIZEOF_INT64 then Ret (None, header, u)
          else
            let off := off + (index - 1) * SIZEOF_INT32 in
            header ← rearrange (Z.to_nat (index - 1)) header;
            header ← put header off (le8 w);
            integer_loop fuel args header (off + SIZEOF_INT64) (size - SIZEOF_INT64) SIZEOF_INT64 (index + 1) u
        else
          header ← put header off (le8 w);
          integer_loop fuel args header (off + intlen) (size - intlen) intlen (index + 1) u
  end.

(** Every round but the last one takes four bytes or more of [size]. *)
Definition encode_integer_array (args : sproto_arg) (buffer : bytes) (size : Z) (u : U)
    : outcome (option (Z * bool) * bytes * U) :=
  if size <? 1 then Ret (None, buffer, u)
  else
    '(r, header, u) ← integer_loop (S (Z.to_nat size)) args buffer 1 (size - 1) SIZEOF_INT32 1 u;
    match r with
    | None => Ret (None, header, u)
    | Some (off, intlen, noarray) =>
        if off =? 1 then Ret (Some (0, noarray), header, u)
        else header ← put header 0 [u8 intlen]; Ret (Some (off, noarray), header, u)
    end.

(** [case SPROTO_TBOOLEAN]; [buffer] is [data + off]. *)
Fixpoint boolean_loop (fuel : nat) (args : sproto_arg) (data : bytes) (off size index : Z) (u : U)
    : outcome ((Z + Z) * bytes * U) :=
  match fuel with
  | O => Undefined
  | S fuel =>
      '(sz, v, u) ← cb (set_value args (VLocal 0) 4 index) u;
      if sz <? 0 then
        Ret (if sz =? SPROTO_CB_NIL then inr off else if sz =? SPROTO_CB_NOARRAY then inl 0 else inl (-1), data, u)
      else if size <? 1 then Ret (inl (-1), data, u)
      else
        w ← at_local v;
        data ← put data off [if s32 w =? 0 then 0 else 1];
        boolean_loop fuel args data (off + 1) (size - 1) (index + 1) u
  end.

(** [default]: strings and structures. *)
Fixpoint object_loop (fuel : nat) (args : sproto_arg) (data : bytes) (off size index : Z) (u : U)
    : outcome ((Z + Z) * bytes * U) :=
  match fuel with
  | O => Undefined
  | S fuel =>
      if size <? SIZEOF_LENGTH then Ret (inl (-1), data, u)
      else
        let size := size - SIZEOF_LENGTH in
        '(sz, v, u) ← cb (set_value args (VAt (skip (off + SIZEOF_LENGTH) data)) size index) u;
        p ← at_buffer v;
        let data := take (Z.to_nat (off + SIZEOF_LENGTH)) data ++ p in
        if sz <? 0 then
          Ret (if sz =? SPROTO_CB_NIL then inr off else if sz =? SPROTO_CB_NOARRAY then inl 0 else inl (-1), data, u)
        else
          data ← put data off (le4 sz);
          object_loop fuel args data (off + SIZEOF_LENGTH + sz) (size - sz) (index + 1) u
  end.

Definition encode_array (args : sproto_arg) (data : bytes) (size : Z) (u : U) : outcome (Z * bytes * U) :=
  if size <? SIZEOF_LENGTH then Ret (-1, data, u)
  else
    let size := size - SIZEOF_LENGTH in
    '(r, data, u) ←
      (if a_type args =? SPROTO_TINTEGER then
         '(r, buffer, u) ← encode_integer_array args (skip SIZEOF_LENGTH data) size u;
         let data := take (Z.to_nat SIZEOF_LENGTH) data ++ buffer in
         Ret (match r with None => inl (-1) | Some (_, true) => inl 0 | Some (off, false) => inr (SIZEOF_LENGTH + off) end, data, u)
       else if a_type args =? SPROTO_TBOOLEAN then boolean_loop (S (Z.to_nat size)) args data SIZEOF_LENGTH size 1 u
       else object_loop (S (Z.to_nat size)) args data SIZEOF_LENGTH size 1 u);
    match r with
    | inl r => Ret (r, data, u)
    | inr off => '(r, data) ← fill_size data (off - SIZEOF_LENGTH); Ret (r, data, u)
    end.

(** What becomes of a field: [continue], [return r], or the size of its data (or any
    positive number with a value for the header word) and that value. *)
Inductive field_result := FSkip | FReturn (r : Z) | FPut (sz value : Z).

(** [switch(type)] of a field that is no array. *)
Definition encode_single (args : sproto_arg) (data : bytes) (size : Z) (u : U) : outcome (field_result * bytes * U) :=
  let type := a_type args in
  if (type =? SPROTO_TINTEGER) || (type =? SPROTO_TBOOLEAN) then
    '(sz, v, u) ← cb (set_value args (VLocal 0) 8 0) u;
    if sz <? 0 then
      Ret (if sz =? SPROTO_CB_NIL then FSkip else if sz =? SPROTO_CB_NOARRAY then FReturn 0 else FReturn (-1), data, u)
    else if sz =? SIZEOF_INT32 then
      w ← at_local v;
      if u32 w <? 0x7fff then Ret (FPut 2 ((u32 w + 1) * 2), data, u)
      else '(sz, data) ← encode_integer (u32 w) data size; Ret (FPut sz 0, data, u)
    else if sz =? SIZEOF_INT64 then
      w ← at_local v;
      '(sz, data) ← encode_uint64 w data size; Ret (FPut sz 0, data, u)
    else Ret (FReturn (-1), data, u)
  else if (type =? SPROTO_TSTRUCT) || (type =? SPROTO_TSTRING) then
    '(sz, data, u) ← encode_object (set_value args VNull 0 0) data size u;
    Ret (FPut sz 0, data, u)
  else Ret (FPut (-1) 0, data, u).

Definition encode_field (f : field) (data : bytes) (size : Z) (u : U) : outcome (field_result * bytes * U) :=
  if negb (Z.land (f_type f) SPROTO_TARRAY =? 0) then
    '(sz, data, u) ← encode_array (field_arg f (Z.land (f_type f) (Z.lnot SPROTO_TARRAY))) data size u;
    Ret (FPut sz 0, data, u)
  else encode_single (field_arg f (f_type f)) data size u.

(** The words of a field in the header, at [2 + 2 * index]: a word for the tags that
    are left out, and [value]. The new index, or -1. *)
Definition put_record (header : bytes) (index tag value : Z) : outcome (Z * bytes) :=
  let record := SIZEOF_HEADER + SIZEOF_FIELD * index in
  if 0 <? tag then
    let tag := (tag - 1) * 2 + 1 in
    if 0xffff <? tag then Ret (-1, header)
    else
      header ← put header record (le2 tag);
      header ← put header (record + SIZEOF_FIELD) (le2 value);
      Ret (index + 2, header)
  else
    header ← put header record (le2 value);
    Ret (index + 1, header).

(** [for (i=0;i<st->n;i++)]; [data] is [header + off]. What sproto_encode returns at
    once, or the end of the data and of the words. *)
Fixpoint encode_fields (fs : list field) (header : bytes) (off size index lasttag : Z) (u : U)
    : outcome ((Z + Z * Z) * bytes * U) :=
  match fs with
  | [] => Ret (inr (off, index), header, u)
  | f :: fs =>
      '(r, data, u) ← encode_field f (skip off header) size u;
      let header := take (Z.to_nat off) header ++ data in
      match r with
      | FSkip => encode_fields fs header off size index lasttag u
      | FReturn r => Ret (inl r, header, u)
      | FPut sz value =>
          if sz <? 0 then Ret (inl (-1), header, u)
          else if 0 <? sz then
            let '(off, size) := if value =? 0 then (off + sz, size - sz) else (off, size) in
            '(index, header) ← put_record header index (f_tag f - lasttag - 1) value;
            if index <? 0 then Ret (inl (-1), header, u)
            else encode_fields fs header off size index (f_tag f) u
          else encode_fields fs header off size index lasttag u
      end
  end.

Definition sproto_encode (st : sproto_type) (buffer : bytes) (size : Z) (u : U) : outcome (Z * bytes * U) :=
  let header_sz := SIZEOF_HEADER + st_maxn st * SIZEOF_FIELD in
  if size <? header_sz then Ret (-1, buffer, u)
  else
    '(r, header, u) ← encode_fields (st_f st) buffer header_sz (size - header_sz) 0 (-1) u;
    match r with
    | inl r => Ret (r, header, u)
    | inr (off, index) =>
        header ← put header 0 (le2 index);
        let datasz := off - header_sz in
        let words := SIZEOF_HEADER + index * SIZEOF_FIELD in
        header ← (if negb (index =? st_maxn st) then memcpy header words (skip header_sz header) datasz else Ret header);
        Ret (words + datasz, header, u)
    end.
End encode.

(** ** sproto_decode

    A pointer into the data is what follows it. *)
Section decode.
Context {U : Type} (cb : sproto_arg -> U -> outcome (Z * U)).

Definition expand64 (v : Z) : Z := if negb (Z.land v 0x80000000 =? 0) then Z.lor v 0xffffffff00000000 else v.

(** [while (sz > 0)] of decode_array_object; [sz] is an [int], compared as unsigned. *)
Fixpoint array_object_loop (fuel : nat) (args : sproto_arg) (stream : bytes) (sz index : Z) (u : U) : outcome (Z * U) :=
  match fuel with
  | O => Undefined
  | S fuel =>
      if 0 <? sz then
        if sz <? SIZEOF_LENGTH then Ret (-1, u)
        else
          hsz ← todword stream;
          let stream := skip SIZEOF_LENGTH stream in
          let sz := sz - SIZEOF_LENGTH in
          if sz <? hsz then Ret (-1, u)
          else
            '(r, u) ← cb (set_value args (VAt stream) hsz index) u;
            if negb (r =? 0) then Ret (-1, u)
            else array_object_loop fuel args (skip hsz stream) (sz - hsz) (index + 1) u
      else Ret (0, u)
  end.

Definition decode_array_object (args : sproto_arg) (stream : bytes) (sz : Z) (u : U) : outcome (Z * U) :=
  array_object_loop (S (length stream)) args stream sz 1 u.

(** The loops over [sz] bytes of integers of [width] bytes or of booleans; the value
    is read by [get]. *)
Fixpoint scalar_loop (fuel : nat) (get : bytes -> outcome Z) (width : Z) (args : sproto_arg) (stream : bytes) (sz index : Z) (u : U)
    : outcome (Z * U) :=
  match fuel with
  | O => Undefined
  | S fuel =>
      if sz <=? 0 then Ret (0, u)
      else
        value ← get stream;
        '(_, u) ← cb (set_value args (VLocal value) 8 index) u;
        scalar_loop fuel get width args (skip width stream) (sz - width) (index + 1) u
  end.

Definition get_int32 (p : bytes) : outcome Z := v ← todword p; Ret (expand64 v).
Definition get_int64 (p : bytes) : outcome Z :=
  low ← todword p; hi ← todword (skip SIZEOF_INT32 p); Ret (Z.lor low (Z.shiftl hi 32)).

Definition decode_array (args : sproto_arg) (stream : bytes) (u : U) : outcome (Z * U) :=
  sz ← todword stream;
  if sz =? 0 then '(_, u) ← cb (set_value args VNull 0 (-1)) u; Ret (0, u)
  else
    let stream := skip SIZEOF_LENGTH stream in
    let type := a_type args in
    if type =? SPROTO_TINTEGER then
      len ← arr_get stream 0;
      let stream := skip 1 stream in
      let sz := sz - 1 in
      if len =? SIZEOF_INT32 then
        if negb (sz mod SIZEOF_INT32 =? 0) then Ret (-1, u)
        else scalar_loop (S (length stream)) get_int32 SIZEOF_INT32 args stream sz 1 u
      else if len =? SIZEOF_INT64 then
        if negb (sz mod SIZEOF_INT64 =? 0) then Ret (-1, u)
        else scalar_loop (S (length stream)) get_int64 SIZEOF_INT64 args stream sz 1 u
      else Ret (-1, u)
    else if type =? SPROTO_TBOOLEAN then scalar_loop (S (length stream)) (fun p => arr_get p 0) 1 args stream sz 1 u
    else if (type =? SPROTO_TSTRING) || (type =? SPROTO_TSTRUCT) then decode_array_object args stream (s32 sz) u
    else Ret (-1, u).

(** The value of field [f] behind [currentdata], or in the header word: [value]. *)
Definition decode_value (f : field) (value : Z) (currentdata : bytes) (u : U) : outcome (Z * U) :=
  let args := field_arg f (Z.land (f_type f) (Z.lnot SPROTO_TARRAY)) in
  let call v len := cb (set_value args v len 0) u in
  if value <? 0 then
    if negb (Z.land (f_type f) SPROTO_TARRAY =? 0) then
      '(r, u) ← decode_array args currentdata u; Ret (if r =? 0 then 0 else -1, u)
    else if f_type f =? SPROTO_TINTEGER then
      sz ← todword currentdata;
      if sz =? SIZEOF_INT32 then v ← get_int32 (skip SIZEOF_LENGTH currentdata); '(_, u) ← call (VLocal v) 8; Ret (0, u)
      else if negb (sz =? SIZEOF_INT64) then Ret (-1, u)
      else v ← get_int64 (skip SIZEOF_LENGTH currentdata); '(_, u) ← call (VLocal v) 8; Ret (0, u)
    else if (f_type f =? SPROTO_TSTRING) || (f_type f =? SPROTO_TSTRUCT) then
      sz ← todword currentdata;
      '(r, u) ← call (VAt (skip SIZEOF_LENGTH currentdata)) (s32 sz);
      Ret (if r =? 0 then 0 else -1, u)
    else Ret (-1, u)
  else if negb (f_type f =? SPROTO_TINTEGER) && negb (f_type f =? SPROTO_TBOOLEAN) then Ret (-1, u)
  else '(_, u) ← call (VLocal value) 8; Ret (0, u).

(** [for (i=0;i<fn;i++)]: [word] is [stream + i * SIZEOF_FIELD]. The rest of the data
    and of [size], or -1. *)
Fixpoint decode_loop (n : nat) (st : sproto_type) (word datastream : bytes) (size tag : Z) (u : U) : outcome (option Z * U) :=
  match n with
  | O => Ret (Some size, u)
  | S n =>
      value ← toword word;
      let word := skip SIZEOF_FIELD word in
      let tag := tag + 1 in
      if negb (Z.land value 1 =? 0) then decode_loop n st word datastream size (tag + value / 2) u
      else
        let value := value / 2 - 1 in
        let currentdata := datastream in
        let go datastream size :=
          f ← findtag st tag;
          match f with
          | None => decode_loop n st word datastream size tag u
          | Some f =>
              '(r, u) ← decode_value f value currentdata u;
              if r =? 0 then decode_loop n st word datastream size tag u else Ret (None, u)
          end in
        if value <? 0 then
          if size <? SIZEOF_LENGTH then Ret (None, u)
          else
            sz ← todword datastream;
            let sz := u32 (sz + SIZEOF_LENGTH) in
            if u32 size <? sz then Ret (None, u)
            else go (skip sz datastream) (size - sz)
        else go datastream size
  end.

Definition sproto_decode (st : sproto_type) (data : bytes) (size : Z) (u : U) : outcome (Z * U) :=
  if size <? SIZEOF_HEADER then Ret (-1, u)
  else
    fn ← toword data;
    let stream := skip SIZEOF_HEADER data in
    let rest := size - SIZEOF_HEADER in
    if rest <? fn * SIZEOF_FIELD then Ret (-1, u)
    else
      '(r, u) ← decode_loop (Z.to_nat fn) st stream (skip (fn * SIZEOF_FIELD) stream) (rest - fn * SIZEOF_FIELD) (-1) u;
      Ret (match r with None => -1 | Some unread => size - unread end, u).
End decode.

(** ** The callbacks of lsproto.c *)

Definition ENCODE_BUFFERSIZE : Z := 2050.
Definition ENCODE_MAXSIZE : Z := 0x1000000.
Definition ENCODE_DEEPLEVEL : nat := 64.

(** The table that is read, the name and the contents of the last array (none when
    [array_index] is 0), the iterator: how many entries of that array [lua_next] has passed,
    none when the slot is nil; and [lua_gettop], the top of the Lua stack between the calls
    of the callback. *)
Record encode_ud := EncodeUd { e_tbl : ltable; e_array_tag : option ptr; e_array : option ltable; e_iter : nat; e_top : Z }.

(** The last slot of the stack that [lencode] may use: its two arguments, and what
    [luaL_checkstack(L, ENCODE_DEEPLEVEL*2 + 8, NULL)] grants. Lua does not check it: a push
    beyond it is undefined. *)
Definition ENCODE_STACK : Z := 2 + Z.of_nat ENCODE_DEEPLEVEL * 2 + 8.
Definition stack_slot (top : Z) : outcome unit := if ENCODE_STACK <? top then Undefined else Ret tt.

(** The table that is built, the array that is filled last (by the field of the table
    that holds it), and the main index of a map's entry with the value found for it. *)
Record decode_ud := DecodeUd {
  d_result : ltable; d_array_tag : option ptr; d_array : option bytes; d_mainindex_tag : Z; d_key : lval }.

Section lua.
(** The conversions of the Lua library between strings and numbers, the contents of
    new userdata, and the schema. *)
Context (tonumber : bytes -> option lval) (tostring : lval -> bytes) (junk : nat -> Z) (sp : sproto).

Definition type_at (st : option Z) : outcome sproto_type := deref (st ≫= arr_lookup (s_type sp)).

(** [lua_tointegerx]: none if the value is not an integer. *)
Definition tointegerx (v : lval) : option Z :=
  match v with
  | LInt n => Some n
  | LNum x => float_to_integer x
  | LStr s => match tonumber s with Some (LInt n) => Some n | Some (LNum x) => float_to_integer x | _ => None end
  | _ => None
  end.

(** [lua_tonumber]: zero if the value is not a number. *)
Definition tonumberx (v : lval) : spec_float :=
  let of_number v := match v with LInt n => sf_of_int n | LNum x => x | _ => S754_zero false end in
  match v with LStr s => match tonumber s with Some v => of_number v | None => S754_zero false end | _ => of_number v end.

(** [lua_isstring] and [lua_tolstring]. *)
Definition tolstring (v : lval) : option bytes :=
  match v with LStr s => Some s | LInt _ | LNum _ => Some (tostring v) | _ => None end.

(** The value of a field or of an element of its array, with the code to return
    instead when there is none. The value is the slot behind the top. The slot of an array
    stays on the stack; an array that is absent leaves a nil there, unless it takes the slot
    of the array before it. *)
Definition fetch (args : sproto_arg) (self : encode_ud) : outcome ((Z + lval) * encode_ud) :=
  name ← deref (a_tagname args);
  if 0 <? a_index args then
    r ← (if bool_decide (e_array_tag self = Some (cs_at name)) then Ret (inr self)
         else
           _ ← stack_slot (e_top self + 1);
           let top := match e_array self with Some _ => e_top self | None => e_top self + 1 end in
           match getfield (e_tbl self) (cs_str name) with
           | LNil => Ret (inl (EncodeUd (e_tbl self) (Some (cs_at name)) None (e_iter self) top))
           | LTab t => Ret (inr (EncodeUd (e_tbl self) (Some (cs_at name)) (Some t) (e_iter self) top))
           | _ => LuaError "should be a table"
           end);
    match r with
    | inl self => Ret (inl SPROTO_CB_NOARRAY, self)
    | inr self =>
        array ← deref (e_array self);
        if 0 <=? a_mainindex args then
          _ ← stack_slot (e_top self + 1);
          match array !! e_iter self with
          | None => Ret (inl SPROTO_CB_NIL, EncodeUd (e_tbl self) (e_array_tag self) (e_array self) 0 (e_top self))
          | Some (_, v) =>
              _ ← stack_slot (e_top self + 2);
              Ret (inr v, EncodeUd (e_tbl self) (e_array_tag self) (e_array self) (S (e_iter self)) (e_top self))
          end
        else _ ← stack_slot (e_top self + 1); Ret (inr (geti array (a_index args)), self)
    end
  else _ ← stack_slot (e_top self + 1); Ret (inr (getfield (e_tbl self) (cs_str name)), self).

(** [switch (args->type)] on a value that is not nil. [encode_struct] writes a table
    as a structure to a place with a size. *)
Definition put_value (encode_struct : option Z -> ltable -> bytes -> Z -> outcome (Z * bytes)) (args : sproto_arg) (v : lval)
    : outcome (Z * value_ptr) :=
  if a_type args =? SPROTO_TINTEGER then
    i ← (if negb (a_extra args =? 0) then round_int64 (sf_mul (tonumberx v) (sf_of_int (a_extra args)))
         else match tointegerx v with Some i => Ret i | None => LuaError "is not an integer" end);
    let vh := Z.shiftr i 31 in
    if (vh =? 0) || (vh =? -1) then Ret (4, VLocal (u32 i)) else Ret (8, VLocal (u64 i))
  else if a_type args =? SPROTO_TBOOLEAN then
    match v with
    | LBool b => Ret (4, VLocal (if b then 1 else 0))
    | _ => LuaError "is not a boolean"
    end
  else if a_type args =? SPROTO_TSTRING then
    match tolstring v with
    | None => LuaError "is not a string"
    | Some s =>
        let sz := Z.of_nat (length s) in
        if a_length args <? sz then Ret (SPROTO_CB_ERROR, a_value args)
        else p ← at_buffer (a_value args); p ← put p 0 s; Ret (sz, VAt p)
    end
  else if a_type args =? SPROTO_TSTRUCT then
    match v with
    | LTab t =>
        p ← at_buffer (a_value args);
        '(r, p) ← encode_struct (a_subtype args) t p (a_length args);
        Ret (if r <? 0 then SPROTO_CB_ERROR else r, VAt p)
    | _ => LuaError "is not a table"
    end
  else LuaError "Invalid field type".

(** [n] is what is left of the depth, [ENCODE_DEEPLEVEL - self->deep]. The table of a structure
    is on the top of the stack, and a nil for the iterator is pushed behind it. *)
Fixpoint encode (n : nat) (args : sproto_arg) (self : encode_ud) : outcome (Z * value_ptr * encode_ud) :=
  match n with
  | O => LuaError "The table is too deep"
  | S n =>
      '(v, self) ← fetch args self;
      match v with
      | inl code => Ret (code, a_value args, self)
      | inr LNil => Ret (SPROTO_CB_NIL, a_value args, self)
      | inr v =>
          '(r, p) ← put_value (fun st t p len =>
                      _ ← stack_slot (e_top self + 2);
                      st ← type_at st;
                      '(r, p, _) ← sproto_encode (encode n) st p len (EncodeUd t None None 0 (e_top self + 2));
                      Ret (r, p)) args v;
          Ret (r, p, self)
      end
  end.

Definition newuserdata (sz : Z) : bytes := map junk (seq 0 (Z.to_nat sz)).

(** [do osz *= 2; while (osz < nsz)] *)
Fixpoint expand_loop (fuel : nat) (osz nsz : Z) : Z :=
  let osz := osz * 2 in
  match fuel with O => osz | S fuel => if osz <? nsz then expand_loop fuel osz nsz else osz end.

(** The new buffer and its size; 64 doublings are more than an [int] has. *)
Definition expand_buffer (osz nsz : Z) : outcome (bytes * Z) :=
  let osz := expand_loop 64 osz nsz in
  if ENCODE_MAXSIZE <? osz then LuaError "object is too large" else Ret (newuserdata osz, osz).

(** [for (;;)] of lencode: a string, and the buffer that is kept. The slot 3 is the iterator;
    a string that did not fit is left on the stack, behind it is the new buffer. *)
Fixpoint lencode_loop (fuel : nat) (st : sproto_type) (tbl : ltable) (buffer : bytes) (sz : Z) : outcome (bytes * (bytes * Z)) :=
  match fuel with
  | O => Undefined
  | S fuel =>
      '(r, buffer, self) ← sproto_encode (encode ENCODE_DEEPLEVEL) st buffer sz (EncodeUd tbl None None 0 3);
      if r <? 0 then
        _ ← stack_slot (e_top self + 2);
        '(buffer, _) ← expand_buffer sz (sz * 2);
        lencode_loop fuel st tbl buffer (sz * 2)
      else Ret (take (Z.to_nat r) buffer, (buffer, sz))
  end.

(** The size doubles at every round, from 1 or more. *)
Definition lencode (st : option Z) (tbl : lval) (buffer : bytes * Z) : outcome (bytes * (bytes * Z)) :=
  match st with
  | None => match tbl with LNil => Ret ([], buffer) | _ => LuaError "nil expected" end
  | Some _ =>
      match tbl with
      | LTab t => st ← type_at st; lencode_loop 26 st t (fst buffer) (snd buffer)
      | _ => LuaError "table expected"
      end
  end.

(** *** Decoding *)

(** Whether [k] is the key [k']; a table as a key is a new one. *)
Definition key_eqb (k k' : lval) : bool :=
  match k, k' with
  | LBool a, LBool b => Bool.eqb a b
  | LInt a, LInt b => a =? b
  | LNum a, LNum b => SFeqb a b
  | LStr a, LStr b => bool_decide (a = b)
  | _, _ => false
  end.

(** [t[k] = v] for a value that is not nil. *)
Fixpoint rawset (t : ltable) (k v : lval) : ltable :=
  match t with
  | [] => [(k, v)]
  | (k', v') :: t => if key_eqb k' k then (k', v) :: t else (k', v') :: rawset t k v
  end.

(** [lua_settable]: keys that are doubles with an integer value are that integer. *)
Definition settable (t : ltable) (k v : lval) : outcome ltable :=
  match k with
  | LNil => LuaError "index is nil"
  | LNum S754_nan => LuaError "index is NaN"
  | LNum x => Ret (rawset t (match float_to_integer x with Some n => LInt n | None => k end) v)
  | _ => Ret (rawset t k v)
  end.

(** The table that [array_index] is the slot of is the value of a field of the result. *)
Definition in_array (self : decode_ud) (f : ltable -> outcome ltable) : outcome decode_ud :=
  name ← deref (d_array self);
  match getfield (d_result self) name with
  | LTab t =>
      t ← f t;
      Ret (DecodeUd (rawset (d_result self) (LStr name) (LTab t)) (d_array_tag self) (d_array self) (d_mainindex_tag self) (d_key self))
  | _ => Undefined
  end.

(** [lua_pushlstring]: a negative length is a huge [size_t]. *)
Definition pushlstring (p : bytes) (len : Z) : outcome lval :=
  if len <? 0 then LuaError "memory allocation error: block too big"
  else if Z.of_nat (length p) <? len then Undefined
  else Ret (LStr (take (Z.to_nat len) p)).

(** What the end of decode does with the value. *)
Definition store_value (args : sproto_arg) (name : bytes) (v : lval) (self : decode_ud) : outcome decode_ud :=
  if 0 <? a_index args then in_array self (fun t => Ret (rawset t (LInt (a_index args)) v))
  else
    let key := if d_mainindex_tag self =? a_tagid args then v else d_key self in
    Ret (DecodeUd (rawset (d_result self) (LStr name) v) (d_array_tag self) (d_array self) (d_mainindex_tag self) key).

(** [n] is what is left of the depth. *)
Fixpoint decode (n : nat) (args : sproto_arg) (self : decode_ud) : outcome (Z * decode_ud) :=
  match n with
  | O => LuaError "The table is too deep"
  | S n =>
      name ← deref (a_tagname args);
      let new := negb (a_index args =? 0) && negb (bool_decide (d_array_tag self = Some (cs_at name))) in
      let self := if new then DecodeUd (rawset (d_result self) (LStr (cs_str name)) (LTab [])) (Some (cs_at name)) (Some (cs_str name))
                                (d_mainindex_tag self) (d_key self)
                  else self in
      if new && (a_index args <? 0) then Ret (0, self)
      else
        let store v := self ← store_value args (cs_str name) v self; Ret (0, self) in
        if a_type args =? SPROTO_TINTEGER then
          w ← at_local (a_value args);
          store (if negb (a_extra args =? 0) then LNum (sf_div (sf_of_int (s64 w)) (sf_of_int (a_extra args))) else LInt (s64 w))
        else if a_type args =? SPROTO_TBOOLEAN then
          w ← at_local (a_value args);
          store (LBool (negb (s32 w =? 0)))
        else if a_type args =? SPROTO_TSTRING then
          p ← at_buffer (a_value args);
          v ← pushlstring p (a_length args);
          store v
        else if a_type args =? SPROTO_TSTRUCT then
          st ← type_at (a_subtype args);
          p ← at_buffer (a_value args);
          let map := 0 <=? a_mainindex args in
          '(r, sub) ← sproto_decode (decode n) st p (a_length args)
                        (DecodeUd [] None None (if map then a_mainindex args else -1) LNil);
          if r <? 0 then Ret (SPROTO_CB_ERROR, self)
          else if negb (r =? a_length args) then Ret (r, self)
          else if map then
            match d_key sub with
            | LNil => LuaError "Can't find main index"
            | key => self ← in_array self (fun t => settable t key (LTab (d_result sub))); Ret (0, self)
            end
          else store (LTab (d_result sub))
        else LuaError "Invalid type"
  end.

(** [buffer] and its size; the table to fill, if one is given. *)
Definition ldecode (st : option Z) (buffer : bytes) (sz : Z) (result : option ltable) : outcome (option (ltable * Z)) :=
  match st with
  | None => Ret None
  | Some _ =>
      st ← type_at st;
      '(r, self) ← sproto_decode (decode ENCODE_DEEPLEVEL) st buffer (s32 sz) (DecodeUd (default [] result) None None (-1) LNil);
      if r <? 0 then LuaError "decode error" else Ret (Some (d_result self, r))
  end.
End lua.

(** ** The other functions of lsproto.c *)

Section api.
Context (sp : sproto).

(** The default value of a field: [encode_default] fills a table with them. *)
Definition push_default (args : sproto_arg) (array : bool) : outcome lval :=
  let type_name := st ← type_at sp (a_subtype args); name_of (st_name st) in
  if a_type args =? SPROTO_TINTEGER then Ret (if negb (a_extra args =? 0) then LNum (S754_zero false) else LInt 0)
  else if a_type args =? SPROTO_TBOOLEAN then Ret (LBool false)
  else if a_type args =? SPROTO_TSTRING then Ret (LStr [])
  else if a_type args =? SPROTO_TSTRUCT then
    name ← type_name;
    Ret (if array then LStr name else LTab [(LStr (str "__type"), LStr name)])
  else LuaError "Invalid type".

Definition encode_default (args : sproto_arg) (t : ltable) : outcome (Z * value_ptr * ltable) :=
  name ← deref (a_tagname args);
  if 0 <? a_index args then
    v ← push_default args true;
    Ret (SPROTO_CB_NOARRAY, a_value args, rawset t (LStr (cs_str name)) (LTab [(LStr (str "__array"), v)]))
  else
    v ← push_default args false;
    Ret (SPROTO_CB_NIL, a_value args, rawset t (LStr (cs_str name)) v).

(** [for (;;)] of ldefault: the size doubles until the header fits. *)
Fixpoint default_loop (fuel : nat) (junk : nat -> Z) (st : sproto_type) (sz : Z) (t : ltable) : outcome ltable :=
  match fuel with
  | O => Undefined
  | S fuel =>
      '(ret, _, t) ← sproto_encode encode_default st (newuserdata junk sz) sz t;
      if 0 <=? ret then Ret t else default_loop fuel junk st (sz * 2) t
  end.

(** Headers of less than 2 ^ 31 bytes. *)
Definition ldefault (junk : nat -> Z) (st : option Z) : outcome ltable :=
  match st with
  | None => LuaError "Need a sproto_type object"
  | Some _ =>
      st ← type_at sp st;
      '(ret, _, t) ← sproto_encode encode_default st (newuserdata junk 64) 64 [];
      if ret <? 0 then default_loop 32 junk st (64 * 2) t else Ret t
  end.

(** The name or the tag of a protocol with its types; the type of the response is a
    null pointer when a response without data is expected. *)
Definition lprotocol (key : lval) : outcome (option (lval * option Z * option (option Z))) :=
  let types tag :=
    request ← sproto_protoquery sp tag SPROTO_REQUEST;
    response ← sproto_protoquery sp tag SPROTO_RESPONSE;
    match response with
    | Some _ => Ret (request, Some response)
    | None => b ← sproto_protoresponse sp tag; Ret (request, if b : bool then Some None else None)
    end in
  let by_tag tag :=
    name ← sproto_protoname sp (s32 tag);
    match name with
    | None => Ret None
    | Some name => '(request, response) ← types (s32 tag); Ret (Some (LStr (cs_str name), request, response))
    end in
  match key with
  | LInt tag => by_tag tag
  | LNum x => by_tag (default 0 (float_to_integer x))
  | LStr name =>
      tag ← sproto_prototag sp (until_zero name);
      if tag <? 0 then Ret None
      else '(request, response) ← types tag; Ret (Some (LInt tag, request, response))
  | _ => LuaError "Should be number or string"
  end.

Definition lquerytype (type_name : bytes) : outcome (option Z) := sproto_type_query sp (until_zero type_name).
End api.

(** *** The slots that states share *)

Definition MAX_GLOBALSPROTO : Z := 16.

Definition lsaveproto (G_sproto : list (option sproto)) (sp : option sproto) (index : Z) : outcome (list (option sproto)) :=
  let index := s32 index in
  if (index <? 0) || (MAX_GLOBALSPROTO <=? index) then LuaError "Invalid global slot index"
  else arr_set G_sproto index sp.

Definition lloadproto (G_sproto : list (option sproto)) (index : Z) : outcome sproto :=
  let index := s32 index in
  if (index <? 0) || (MAX_GLOBALSPROTO <=? index) then LuaError "Invalid global slot index"
  else
    sp ← arr_get G_sproto index;
    match sp with None => LuaError "nil sproto at index" | Some sp => Ret sp end.
