(* ===== verification/SprotoSpec.v ===== *)
(** The wire format of sproto: what a table is encoded to, which tables can be
    encoded, and what comes back. *)
From S2P Require Import Prelude Sproto SprotoType SprotoCode.

(** ** Fields of a schema *)

Definition is_array (f : field) : bool := negb (Z.land (f_type f) SPROTO_TARRAY =? 0).
Definition kind (f : field) : Z := Z.land (f_type f) (Z.lnot SPROTO_TARRAY).
Definition fname (f : field) : bytes := match f_name f with Some c => cs_str c | None => [] end.

Lemma kind_range f type_n : wf_field type_n f -> kind f = 0 \/ kind f = 1 \/ kind f = 2 \/ kind f = 3.
Proof.
  intros (_ & _ & _ & t & a & E & Ha & Ht). unfold kind. rewrite E. unfold SPROTO_TARRAY, SPROTO_TSTRUCT in *.
  assert (t = 0 \/ t = 1 \/ t = 2 \/ t = 3) as Hc by lia. destruct Ha as [-> | ->], Hc as [-> |[-> |[-> | ->]]]; cbn; auto.
Qed.

Lemma type_single f type_n : wf_field type_n f -> is_array f = false -> f_type f = kind f.
Proof.
  intros (_ & _ & _ & t & a & E & Ha & Ht). unfold kind, is_array. rewrite E. unfold SPROTO_TARRAY, SPROTO_TSTRUCT in *.
  assert (t = 0 \/ t = 1 \/ t = 2 \/ t = 3) as Hc by lia. destruct Ha as [-> | ->], Hc as [-> |[-> |[-> | ->]]]; done.
Qed.

(** Integers are not decimals, only arrays of structures have a main index, and the names
    of the fields of a type differ. *)
Definition plain_field (f : field) : Prop :=
  (kind f = SPROTO_TINTEGER -> f_extra f = 0) /\
  (0 <= f_key f -> is_array f = true /\ kind f = SPROTO_TSTRUCT).

Definition plain (sp : sproto) : Prop :=
  wf_sproto sp /\ Forall (fun t => NoDup (map fname (st_f t)) /\ Forall plain_field (st_f t)) (s_type sp).

(** ** Elements of arrays *)

(** The values at 1, 2, ... up to the first nil. *)
Fixpoint sequence (fuel : nat) (i : Z) (t : ltable) : list lval :=
  match fuel with
  | O => []
  | S fuel => match geti t i with LNil => [] | v => v :: sequence fuel (i + 1) t end
  end.

Definition items (f : field) (t : ltable) : list lval :=
  if 0 <=? f_key f then map snd t else sequence (length t) 1 t.

Lemma geti_in t i : geti t i <> LNil -> LInt i ∈ map fst t.
Proof.
  induction t as [|[k v] t IH]; cbn; [done|]. destruct k; try (right; by apply IH).
  destruct (Z.eqb_spec n i) as [->|]; [by left|right; by apply IH].
Qed.

Lemma sequence_length fuel i t : (length (sequence fuel i t) <= fuel)%nat.
Proof. revert i. induction fuel as [|fuel IH]; intros i; cbn; [done|]. destruct (geti t i); cbn; try lia; specialize (IH (i + 1)); lia. Qed.

Lemma sequence_lookup fuel i t (k : nat) v : sequence fuel i t !! k = Some v -> geti t (i + Z.of_nat k) = v /\ v <> LNil.
Proof.
  revert i k. induction fuel as [|fuel IH]; intros i k; cbn; [done|].
  destruct (geti t i) eqn:E; [done|..]; destruct k as [|k]; cbn;
    (intros [= <-]; rewrite Z.add_0_r, E; done) || (intros H; apply IH in H; by replace (i + Z.of_nat (S k)) with (i + 1 + Z.of_nat k) by lia).
Qed.

Lemma sequence_full fuel i t : (length (sequence fuel i t) < fuel)%nat -> geti t (i + Z.of_nat (length (sequence fuel i t))) = LNil.
Proof.
  revert i. induction fuel as [|fuel IH]; intros i; cbn; [lia|]. destruct (geti t i) eqn:E; cbn; [by rewrite Z.add_0_r, E|..];
    intros H; replace (i + Z.of_nat (S (length (sequence fuel (i + 1) t)))) with (i + 1 + Z.of_nat (length (sequence fuel (i + 1) t))) by lia;
    apply IH; lia.
Qed.

(** The table has no room for more elements than it has entries. *)
Lemma sequence_end t : geti t (1 + Z.of_nat (length (sequence (length t) 1 t))) = LNil.
Proof.
  set (l := sequence (length t) 1 t). assert (geti t (1 + Z.of_nat (length l)) = LNil \/ geti t (1 + Z.of_nat (length l)) <> LNil) as [|Hne]
    by (destruct (geti t _); auto); [done|]. exfalso.
  destruct (decide (length l < length t)%nat) as [Hlt|Hge]; [by apply Hne, sequence_full|].
  set (ks := map (fun k => LInt (1 + Z.of_nat k)) (seq 0 (S (length l)))).
  assert (Hsub : ks ⊆ map fst t).
  { intros x (k & -> & Hk)%list_elem_of_fmap. apply geti_in. apply elem_of_seq in Hk.
    destruct (decide (k < length l)%nat) as [Hk'|]; [|by replace k with (length l) by lia].
    destruct (lookup_lt_is_Some_2 l k Hk') as [v Hv]. destruct (sequence_lookup _ _ _ _ _ Hv) as [-> ?]. done. }
  assert (Hnd : NoDup ks) by (apply NoDup_fmap_2; [intros a b [= ?]; lia|apply NoDup_seq]).
  pose proof (submseteq_length _ _ (NoDup_submseteq _ _ Hnd Hsub)) as Hlen. unfold ks in Hlen.
  rewrite !length_map, length_seq in Hlen. lia.
Qed.

(** ** The encoding *)

(** The integers that take 4 bytes. *)
Definition narrow (i : Z) : bool := (Z.shiftr i 31 =? 0) || (Z.shiftr i 31 =? -1).

(** A length and the data. *)
Definition framed (d : bytes) : bytes := le4 (Z.of_nat (length d)) ++ d.

Definition int_of (v : lval) : Z := match v with LInt i => i | _ => 0 end.
Definition bool_of (v : lval) : bool := match v with LBool b => b | _ => false end.

Definition int_bytes (i : Z) : bytes := if narrow i then le4 (u32 i) else le8 (u64 i).

(** All integers of an array have the same width. *)
Definition int_array (ns : list Z) : bytes :=
  match ns with
  | [] => []
  | _ => if forallb narrow ns then 4 :: concat (map (fun i => le4 (u32 i)) ns) else 8 :: concat (map (fun i => le8 (u64 i)) ns)
  end.

Definition zsum : list Z -> Z := foldr Z.add 0.

(** The words of the header for the fields that are present, each with the words for
    the tags that are left out before it. *)
Fixpoint words (last : Z) (l : list (Z * Z)) : list Z :=
  match l with
  | [] => []
  | (tag, value) :: l => (if 0 <? tag - last - 1 then [(tag - last - 1 - 1) * 2 + 1] else []) ++ value :: words tag l
  end.

Section table.
Context (sp : sproto).

(** The encoding of structures of a smaller depth, which tables they are for, how much
    room it needs, how many slots of the Lua stack, and the table that is decoded. *)
Context (enc : sproto_type -> ltable -> bytes) (typed : sproto_type -> ltable -> Prop)
  (need slots : sproto_type -> ltable -> Z) (norm : sproto_type -> ltable -> ltable).

Definition subtype (f : field) : sproto_type :=
  match type_at sp (f_st f) with Ret st => st | _ => SType None 0 0 0 [] end.

(** *** Values: elements of arrays, and fields that are no arrays *)

Definition typed_value (f : field) (v : lval) : Prop :=
  match v with
  | LInt i => kind f = SPROTO_TINTEGER /\ - 2 ^ 63 <= i < 2 ^ 63
  | LBool _ => kind f = SPROTO_TBOOLEAN
  | LStr _ => kind f = SPROTO_TSTRING
  | LTab t => kind f = SPROTO_TSTRUCT /\ typed (subtype f) t
  | _ => False
  end.

Definition enc_object (f : field) (v : lval) : bytes :=
  match v with LStr s => s | LTab t => enc (subtype f) t | _ => [] end.

Definition need_object (f : field) (v : lval) : Z :=
  match v with LStr s => Z.of_nat (length s) | LTab t => need (subtype f) t | _ => 0 end.

Definition norm_value (f : field) (v : lval) : lval := match v with LTab t => LTab (norm (subtype f) t) | _ => v end.

(** *** Fields *)

(** The entries of a map are its structures under their main index. *)
Definition typed_entry (f : field) (e : lval * lval) : Prop :=
  exists t g, e.2 = LTab t /\ field_with (subtype f) (f_key f) = Some g /\ is_array g = false /\ kind g <> SPROTO_TSTRUCT /\
    getfield t (fname g) = e.1 /\ e.1 <> LNil.

Definition typed_field (f : field) (t : ltable) : Prop :=
  match getfield t (fname f) with
  | LNil => True
  | v =>
      if is_array f then
        exists a, v = LTab a /\ Forall (typed_value f) (items f a) /\
          (0 <= f_key f -> Forall (typed_entry f) a /\ NoDup (map fst a))
      else typed_value f v
  end.

Definition enc_array (f : field) (vs : list lval) : bytes :=
  if kind f =? SPROTO_TINTEGER then int_array (map int_of vs)
  else if kind f =? SPROTO_TBOOLEAN then map (fun v => Z.b2z (bool_of v)) vs
  else concat (map (fun v => framed (enc_object f v)) vs).

(** The header word and the data of a field that is present. *)
Definition enc_field (f : field) (t : ltable) : option (Z * bytes) :=
  match getfield t (fname f) with
  | LNil => None
  | v =>
      if is_array f then Some (0, framed (enc_array f (items f (match v with LTab a => a | _ => [] end))))
      else
        match v with
        | LInt i => Some (if (0 <=? i) && (i <? 0x7fff) then ((i + 1) * 2, []) else (0, framed (int_bytes i)))
        | LBool b => Some ((Z.b2z b + 1) * 2, [])
        | _ => Some (0, framed (enc_object f v))
        end
  end.

Definition enc_fields (fs : list field) (t : ltable) : list (Z * (Z * bytes)) := omap (fun f => (fun e => (f_tag f, e)) <$> enc_field f t) fs.

Definition header_words (fs : list (Z * (Z * bytes))) : list Z := words (-1) (map (fun e => (e.1, e.2.1)) fs).

Definition enc_struct (st : sproto_type) (t : ltable) : bytes :=
  let fs := enc_fields (st_f st) t in
  le2 (Z.of_nat (length (header_words fs))) ++ concat (map le2 (header_words fs)) ++ concat (map (fun e => e.2.2) fs).

(** Room that is enough, with the bytes that are written and given up again. *)
Definition need_field (f : field) (t : ltable) : Z :=
  match getfield t (fname f) with
  | LNil => 8
  | v =>
      if is_array f then
        let vs := items f (match v with LTab a => a | _ => [] end) in
        8 + (if kind f =? SPROTO_TINTEGER then 1 + 8 * Z.of_nat (length vs)
             else if kind f =? SPROTO_TBOOLEAN then Z.of_nat (length vs)
             else 4 + zsum (map (fun v => 4 + need_object f v) vs))
      else
        match v with
        | LInt _ => 12
        | LBool _ => 0
        | _ => 4 + need_object f v
        end
  end.

Definition need_struct (st : sproto_type) (t : ltable) : Z :=
  SIZEOF_HEADER + st_maxn st * SIZEOF_FIELD + zsum (map (fun f => need_field f t) (st_f st)).

(** Slots of the Lua stack above the one for the iterator: one for each array field of the type,
    present or not, two for a value and the iterator of the structure that it is, and those of
    that structure. *)
Definition zmax : list Z -> Z := foldr Z.max 0.

Definition slots_value (f : field) (v : lval) : Z := match v with LTab t => slots (subtype f) t | _ => 0 end.

Definition slots_field (f : field) (t : ltable) : Z :=
  if is_array f then match getfield t (fname f) with LTab a => zmax (map (slots_value f) (items f a)) | _ => 0 end
  else slots_value f (getfield t (fname f)).

Definition arrays (fs : list field) : Z := Z.of_nat (length (List.filter is_array fs)).

Definition slots_struct (st : sproto_type) (t : ltable) : Z :=
  arrays (st_f st) + 2 + zmax (map (fun f => slots_field f t) (st_f st)).

(** *** What comes back: the fields that are present in the order of the schema *)

Definition numbered (vs : list lval) : ltable := imap (fun i v => (LInt (1 + Z.of_nat i), v)) vs.

Definition norm_array (f : field) (a : ltable) : ltable :=
  if 0 <=? f_key f then map (fun e => (e.1, norm_value f e.2)) a else numbered (map (norm_value f) (items f a)).

Definition norm_field (f : field) (t : ltable) : option lval :=
  match getfield t (fname f) with
  | LNil => None
  | v => Some (if is_array f then LTab (norm_array f (match v with LTab a => a | _ => [] end)) else norm_value f v)
  end.

Definition norm_struct (st : sproto_type) (t : ltable) : ltable :=
  omap (fun f => (fun v => (LStr (fname f), v)) <$> norm_field f t) (st_f st).
End table.

(** Structures of a depth below [n]. *)
Fixpoint enc_table (sp : sproto) (n : nat) (st : sproto_type) (t : ltable) : bytes :=
  match n with O => [] | S n => enc_struct sp (enc_table sp n) st t end.

Fixpoint typed_table (sp : sproto) (n : nat) (st : sproto_type) (t : ltable) : Prop :=
  match n with O => False | S n => Forall (fun f => typed_field sp (typed_table sp n) f t) (st_f st) end.

Fixpoint need_table (sp : sproto) (n : nat) (st : sproto_type) (t : ltable) : Z :=
  match n with O => 0 | S n => need_struct sp (need_table sp n) st t end.

Fixpoint slots_table (sp : sproto) (n : nat) (st : sproto_type) (t : ltable) : Z :=
  match n with O => 0 | S n => slots_struct sp (slots_table sp n) st t end.

Fixpoint norm_table (sp : sproto) (n : nat) (st : sproto_type) (t : ltable) : ltable :=
  match n with O => [] | S n => norm_struct sp (norm_table sp n) st t end.
