(* ===== verification/SprotoBuffer.v ===== *)
(** Buffers, the bytes of integers, and the room that the encoding of a table needs. *)
From S2P Require Import Prelude Sproto SprotoType SprotoCode SprotoSpec.

#[local] Arguments Z.mul : simpl never.
#[local] Arguments Z.add : simpl never.
#[local] Opaque Z.to_nat.

Abbreviation len l := (Z.of_nat (length l)).

(** ** Memory *)

Lemma memcpy_mid (pre mid post src : bytes) n off : off = len pre -> n = len mid -> n <= len src ->
  memcpy (pre ++ mid ++ post) off src n = Ret (pre ++ take (Z.to_nat n) src ++ post).
Proof.
  intros -> -> Hn. rewrite memcpy_ok by (rewrite ?length_app; lia). f_equal. rewrite Nat2Z.id, take_app_length. do 2 f_equal.
  rewrite app_assoc, drop_app_length'; [done|]. rewrite length_app. lia.
Qed.

Lemma put_mid pre mid post s off : off = len pre -> length mid = length s -> put (pre ++ mid ++ post) off s = Ret (pre ++ s ++ post).
Proof. intros Ho Hl. unfold put. rewrite (memcpy_mid pre mid post) by lia. rewrite Nat2Z.id. by rewrite take_ge. Qed.

(** Writing at the front of what is left. *)
Lemma put_at pre rest s off : off = len pre -> (length s <= length rest)%nat -> put (pre ++ rest) off s = Ret (pre ++ s ++ drop (length s) rest).
Proof.
  intros Ho Hl. rewrite <- (take_drop (length s) rest) at 1. apply put_mid; [done|]. rewrite length_take. lia.
Qed.

Lemma put_front p s : (length s <= length p)%nat -> put p 0 s = Ret (s ++ drop (length s) p).
Proof. intros. by apply (put_at [] p s 0). Qed.

(** Writing somewhere inside. *)
Lemma put_over m off s : 0 <= off -> off + len s <= len m ->
  put m off s = Ret (take (Z.to_nat off) m ++ s ++ drop (Z.to_nat (off + len s)) m).
Proof. intros. unfold put. rewrite memcpy_ok by lia. by rewrite (take_ge s) by lia. Qed.

Lemma put_one pre x rest w off : off = len pre -> put (pre ++ x :: rest) off [w] = Ret ((pre ++ [w]) ++ rest).
Proof. intros Ho. rewrite <- app_assoc. exact (put_mid pre [x] rest [w] off Ho eq_refl). Qed.

Lemma length_le4 n : length (le4 n) = 4%nat.
Proof. done. Qed.
Lemma length_le8 n : length (le8 n) = 8%nat.
Proof. done. Qed.
Lemma length_framed d : len (framed d) = len d + 4.
Proof. unfold framed. rewrite length_app, length_le4. lia. Qed.

(** [p] of [size] bytes has become [p'] with [bs] in front and [r] its length, or [size] was
    less than [need]. *)
Definition fills (need : Z) (bs : bytes) (r : Z) (p p' : bytes) : Prop :=
  length p' = length p /\ (r = -1 /\ len p < need \/ r = len bs /\ exists rest, p' = bs ++ rest).

Lemma fill_size_ok data d rest : length data = 4%nat -> fill_size (data ++ d ++ rest) (len d) = Ret (len (framed d), framed d ++ rest).
Proof.
  intros Hd. unfold fill_size. change (data ++ d ++ rest) with ([] ++ data ++ (d ++ rest)).
  rewrite (put_mid [] data) by (done || by rewrite Hd). rewrite bind_Ret, length_framed. unfold framed, SIZEOF_LENGTH. cbn [app]. by rewrite <- app_assoc.
Qed.

(** ** Integers *)

Lemma narrow_range i : narrow i = true <-> - 2 ^ 31 <= i < 2 ^ 31.
Proof.
  unfold narrow. rewrite Z.shiftr_div_pow2 by lia. rewrite orb_true_iff, !Z.eqb_eq. change (2 ^ 31) with 2147483648.
  split; intros H; Z.to_euclidean_division_equations; lia.
Qed.

(** A byte inside a word does not see the bits above the word. *)
Lemma byte_mod n v k : 0 <= k -> k + 8 <= n -> Z.land (Z.shiftr (v mod 2 ^ n) k) 0xff = Z.land (Z.shiftr v k) 0xff.
Proof.
  intros Hk Hn. change 0xff with (Z.ones 8). apply Z.bits_inj'. intros i Hi. rewrite !Z.land_spec, !Z.shiftr_spec by done.
  destruct (Z.ltb_spec i 8); [|by rewrite Z.ones_spec_high, !andb_false_r by lia]. by rewrite Z.mod_pow2_bits_low by lia.
Qed.

Lemma le4_u32 v : le4 (u32 v) = le4 v.
Proof.
  unfold le4. rewrite <- (Z.shiftr_0_r (u32 v)) at 1. rewrite <- (Z.shiftr_0_r v) at 4. unfold u32. by rewrite !byte_mod by lia.
Qed.

Lemma le8_u64 v : le8 (u64 v) = le4 (u32 v) ++ le4 (Z.shiftr v 32).
Proof.
  unfold le8. rewrite le4_u32. unfold le4. rewrite !Z.shiftr_shiftr by lia. rewrite <- (Z.shiftr_0_r (u64 v)) at 1. rewrite <- (Z.shiftr_0_r v) at 8.
  unfold u64. rewrite !byte_mod by lia. by rewrite Z.shiftr_0_r.
Qed.

Lemma land_pow2_bit x n : 0 <= n -> Z.land x (2 ^ n) = if Z.testbit x n then 2 ^ n else 0.
Proof.
  intros Hn. apply Z.bits_inj'. intros i Hi. rewrite Z.land_spec, Z.pow2_bits_eqb by done.
  destruct (Z.eqb_spec n i) as [->|]; [|rewrite andb_false_r]; destruct (Z.testbit x _) eqn:E; rewrite ?Z.pow2_bits_eqb, ?Z.bits_0, ?E, ?Z.eqb_refl by done; try done.
  symmetry. by apply Z.eqb_neq.
Qed.

(** A narrow integer with its sign extended. *)
Lemma le8_narrow i : narrow i = true ->
  le8 (u64 i) = le4 (u32 i) ++ (if negb (Z.land (u32 i) 0x80000000 =? 0) then [0xff; 0xff; 0xff; 0xff] else [0; 0; 0; 0]).
Proof.
  intros Hn%narrow_range. rewrite le8_u64. f_equal. change 0x80000000 with (2 ^ 31). rewrite land_pow2_bit by lia. rewrite u32_testbit by lia.
  destruct (Z.ltb_spec i 0).
  - assert (E : Z.shiftr i 32 = -1) by (rewrite Z.shiftr_div_pow2 by lia; symmetry; apply Zdiv_unique with (i + 2 ^ 32); lia).
    rewrite E. replace (Z.testbit i 31) with true; [done|]. symmetry. apply Z.testbit_true; [lia|].
    replace (i / 2 ^ 31) with (-1); [done|]. apply Zdiv_unique with (i + 2 ^ 31); lia.
  - rewrite Z.shiftr_div_pow2, Z.div_small by lia. rewrite (word_testbit 31) by (unfold word; lia). done.
Qed.

(** ** The room that is needed is not negative *)

Lemma gaps_nonneg last fs : 0 <= gaps last fs.
Proof. revert last. induction fs as [|f fs IH]; intros last; cbn; [lia|]. specialize (IH (f_tag f)). destruct (_ <? _); lia. Qed.

Lemma maxn_nonneg sp st : plain sp -> st ∈ s_type sp -> 0 <= st_maxn st.
Proof.
  intros [(_ & _ & Ht & _) _] Hst. rewrite Forall_forall in Ht. destruct (Ht st Hst) as (_ & Hn & _ & _ & _ & -> & _).
  pose proof (gaps_nonneg (-1) (st_f st)). lia.
Qed.

Lemma subtype_maxn sp f : plain sp -> 0 <= st_maxn (subtype sp f).
Proof.
  intros Hp. unfold subtype, type_at, arr_lookup. destruct (f_st f) as [i|]; cbn; [|lia]. destruct (i <? 0); cbn; [lia|].
  destruct (s_type sp !! _) as [st|] eqn:E; cbn; [|lia]. eapply maxn_nonneg; [done|]. by eapply list_elem_of_lookup_2.
Qed.

Lemma zsum_nonneg {A} (g : A -> Z) l : (forall x, 0 <= g x) -> 0 <= zsum (map g l).
Proof. intros Hg. unfold zsum. induction l as [|x l IH]; cbn [map foldr]; [lia|]. specialize (Hg x). lia. Qed.

(** ** The encoding is not longer than the room that is needed *)

Lemma length_le2s ws : length (concat (map le2 ws)) = (2 * length ws)%nat.
Proof. induction ws as [|w ws IH]; [done|]. cbn [map concat]. rewrite length_app, IH. change (length (le2 w)) with 2%nat. cbn [length]. lia. Qed.

(** The words of a header are not more than one for each field and each gap. *)
Lemma words_bound last prev fs (g : field -> option (Z * bytes)) : last <= prev -> StronglySorted tag_lt fs -> Forall (fun f => prev < f_tag f) fs ->
  len (words last (omap (fun f => (fun e => (f_tag f, e.1)) <$> g f) fs)) <= len fs + gaps prev fs + (if last <? prev then 1 else 0).
Proof.
  intros Hlast Hs. revert last prev Hlast. induction Hs as [|f fs Hs IH Hf]; intros last prev Hlast Hp; [cbn; destruct (_ <? _); lia|].
  apply Forall_cons in Hp as [Hp _]. cbn [omap list_omap gaps length]. destruct (g f) as [e|]; cbn [fmap option_fmap option_map].
  - cbn [words]. rewrite length_app. cbn [length]. specialize (IH (f_tag f) (f_tag f) ltac:(lia) Hf). rewrite Z.ltb_irrefl in IH.
    destruct (Z.ltb_spec 0 (f_tag f - last - 1)), (Z.ltb_spec (prev + 1) (f_tag f)), (Z.ltb_spec last prev); cbn [length]; lia.
  - specialize (IH last (f_tag f) ltac:(lia) Hf). rewrite (proj2 (Z.ltb_lt last (f_tag f))) in IH by lia.
    destruct (prev + 1 <? f_tag f), (last <? prev); lia.
Qed.

Section le_need.
Context (sp : sproto) (enc : sproto_type -> ltable -> bytes) (need : sproto_type -> ltable -> Z).

Lemma map_enc_fields fs t : map (fun e : Z * (Z * bytes) => (e.1, e.2.1)) (enc_fields sp enc fs t) =
  omap (fun f => (fun e => (f_tag f, e.1)) <$> enc_field sp enc f t) fs.
Proof. unfold enc_fields. induction fs as [|f fs IH]; [done|]. cbn [omap list_omap]. destruct (enc_field sp enc f t); cbn; [by f_equal|done]. Qed.

Lemma header_words_bound type_n st t : wf_type type_n st -> len (header_words (enc_fields sp enc (st_f st) t)) <= st_maxn st.
Proof.
  intros (_ & -> & Hw & Hs & _ & -> & _). unfold header_words. rewrite map_enc_fields.
  pose proof (words_bound (-1) (-1) (st_f st) (fun f => enc_field sp enc f t) ltac:(lia) Hs) as H. rewrite Z.ltb_irrefl in H.
  apply Z.le_trans with (1 := H ltac:(eapply Forall_impl; [done|]; intros f (? & _); lia)). lia.
Qed.

Hypothesis Hsub : forall f t, len (enc (subtype sp f) t) <= need (subtype sp f) t.

Lemma enc_object_le f v : len (enc_object sp enc f v) <= need_object sp need f v.
Proof. destruct v; cbn; try lia. apply Hsub. Qed.

Lemma length_objects f vs : len (concat (map (fun v => framed (enc_object sp enc f v)) vs)) <= zsum (map (fun v => 4 + need_object sp need f v) vs).
Proof.
  unfold zsum. induction vs as [|v vs IH]; [done|]. cbn [map concat foldr]. rewrite length_app, Nat2Z.inj_add, length_framed.
  pose proof (enc_object_le f v). lia.
Qed.

Lemma length_int_array ns : len (int_array ns) <= 1 + 8 * len ns.
Proof.
  destruct ns as [|x ns]; [cbn; lia|]. unfold int_array. set (l := x :: ns). destruct (forallb narrow l); cbn [length];
    assert (forall k (g : Z -> bytes), (forall i, length (g i) = k) -> length (concat (map g l)) = (k * length l)%nat) as Hg
      by (intros k g Hgk; clear -Hgk; induction l; cbn; rewrite ?length_app, ?Hgk; lia).
  - rewrite (Hg 4%nat) by done. lia.
  - rewrite (Hg 8%nat) by done. lia.
Qed.

Lemma enc_field_le f t e : enc_field sp enc f t = Some e -> len e.2 <= need_field sp need f t.
Proof.
  unfold enc_field, need_field. assert (Ha : forall vs, len (framed (enc_array sp enc f vs)) <=
    8 + (if kind f =? SPROTO_TINTEGER then 1 + 8 * len vs else if kind f =? SPROTO_TBOOLEAN then len vs
         else 4 + zsum (map (fun v => 4 + need_object sp need f v) vs))).
  { intros vs. rewrite length_framed. unfold enc_array. destruct (kind f =? SPROTO_TINTEGER).
    { pose proof (length_int_array (map int_of vs)) as H. rewrite length_map in H. lia. }
    destruct (kind f =? SPROTO_TBOOLEAN); [rewrite length_map; lia|]. pose proof (length_objects f vs). lia. }
  assert (Ho : forall v, len (framed (enc_object sp enc f v)) <= 4 + need_object sp need f v) by (intros v; rewrite length_framed; pose proof (enc_object_le f v); lia).
  destruct (is_array f).
  { destruct (getfield t (fname f)) as [|b|i|x|s|a|x]; [done|..]; intros [= <-]; cbn [snd]; apply Ha. }
  destruct (getfield t (fname f)) as [|b|i|x|s|a|x]; [done|..]; intros [= <-]; cbn [snd]; [cbn; lia| |apply (Ho (LNum x))|apply (Ho (LStr s))|apply (Ho (LTab a))|apply (Ho (LOther x))].
  destruct (_ && _); cbn [snd]; [cbn; lia|]. rewrite length_framed. unfold int_bytes. destruct (narrow i); rewrite ?length_le4, ?length_le8; lia.
Qed.

Lemma enc_struct_le type_n st t : wf_type type_n st -> (forall f, 0 <= need_field sp need f t) -> len (enc_struct sp enc st t) <= need_struct sp need st t.
Proof.
  intros Hw Hn. unfold enc_struct, need_struct, SIZEOF_HEADER, SIZEOF_FIELD. pose proof (header_words_bound type_n st t Hw) as Hb.
  set (ws := header_words _) in *. rewrite !length_app.
  pose proof (length_le2s ws).
  assert (len (concat (map (fun e => e.2.2) (enc_fields sp enc (st_f st) t))) <= zsum (map (fun f => need_field sp need f t) (st_f st))).
  { unfold enc_fields, zsum. clear -Hsub Hn. induction (st_f st) as [|f fs IH]; [done|]. cbn [omap list_omap map foldr].
    destruct (enc_field sp enc f t) as [e|] eqn:E; cbn [fmap option_fmap option_map map concat snd].
    - rewrite length_app. apply enc_field_le in E. lia.
    - specialize (Hn f). lia. }
  cbn [le2 length]. lia.
Qed.
End le_need.

Lemma need_field_nonneg sp need f t : (forall f v, 0 <= need_object sp need f v) -> 0 <= need_field sp need f t.
Proof.
  intros Ho. unfold need_field. destruct (getfield t (fname f)) as [| | | | |a|]; destruct (is_array f); try lia;
    try (match goal with |- context [need_object sp _ f ?v] => specialize (Ho f v); lia end).
  all: destruct (kind f =? SPROTO_TINTEGER), (kind f =? SPROTO_TBOOLEAN); try lia.
  all: match goal with |- context [zsum (map ?g ?l)] => assert (0 <= zsum (map g l)) by (apply zsum_nonneg; intros w; specialize (Ho f w); lia) end; lia.
Qed.

Lemma need_nonneg sp n st t : plain sp -> 0 <= st_maxn st -> 0 <= need_table sp n st t.
Proof.
  intros Hp. revert st t. induction n as [|n IH]; intros st t Hm; cbn [need_table]; [lia|]. unfold need_struct, SIZEOF_HEADER, SIZEOF_FIELD.
  assert (0 <= zsum (map (fun f => need_field sp (need_table sp n) f t) (st_f st))); [|lia].
  apply zsum_nonneg. intros f. apply need_field_nonneg. intros g [| | | | |t'|]; cbn; try lia. apply IH, subtype_maxn, Hp.
Qed.

Lemma need_object_nonneg sp n f v : plain sp -> 0 <= need_object sp (need_table sp n) f v.
Proof. intros. destruct v; cbn; try lia. by apply need_nonneg, subtype_maxn. Qed.

Lemma subtype_cases sp f : subtype sp f ∈ s_type sp \/ subtype sp f = SType None 0 0 0 [].
Proof.
  unfold subtype, type_at, arr_lookup. destruct (f_st f) as [i|]; cbn; [|auto]. destruct (i <? 0); cbn; [auto|].
  destruct (s_type sp !! _) as [st|] eqn:E; cbn; [|auto]. left. by eapply list_elem_of_lookup_2.
Qed.

Lemma enc_le_need sp n st t : plain sp -> st ∈ s_type sp \/ st = SType None 0 0 0 [] -> len (enc_table sp n st t) <= need_table sp n st t.
Proof.
  intros Hp. revert st t. induction n as [|n IH]; intros st t Hst; cbn [enc_table need_table]; [done|]. destruct Hst as [Hst| ->].
  - destruct Hp as [(Hn & Hpn & Ht & Hpr) Hp2]. assert (Hp : plain sp) by (split; [by repeat split|done]). rewrite Forall_forall in Ht.
    eapply enc_struct_le; [|by apply Ht|].
    + intros f t'. apply IH. apply subtype_cases.
    + intros f. apply need_field_nonneg. intros g v. by apply need_object_nonneg.
  - vm_compute. discriminate.
Qed.
