(* ===== verification/SprotoEncode.v ===== *)
(** [sproto_encode] with the callback of lsproto.c writes the encoding of a table. *)
From S2P Require Import Prelude Sproto SprotoType SprotoCode SprotoSpec SprotoBuffer.

#[local] Arguments Z.mul : simpl never.
#[local] Arguments Z.add : simpl never.
#[local] Opaque Z.to_nat.

(** ** Values *)

Section step.
Context (tonumber : bytes -> option lval) (tostring : lval -> bytes) (sp : sproto) (n : nat).
Hypothesis Hplain : plain sp.

Abbreviation cb := (encode tonumber tostring sp (S n)).
Abbreviation typed := (typed_table sp n).
Abbreviation enc := (enc_table sp n).
Abbreviation need := (need_table sp n).
Abbreviation typed_v := (typed_value sp typed).
Abbreviation enc_o := (enc_object sp enc).
Abbreviation need_o := (need_object sp need).
Abbreviation slots_v := (slots_value sp (slots_table sp n)).
Abbreviation slots_f := (slots_field sp (slots_table sp n)).

(** [encode_struct] of [put_value], as the callback of depth [S n] passes it. *)
Definition encode_struct (top : Z) (st : option Z) (t : ltable) (p : bytes) (size : Z) : outcome (Z * bytes) :=
  _ ← stack_slot (top + 2);
  st ← type_at sp st;
  '(r, p, _) ← sproto_encode (encode tonumber tostring sp n) st p size (EncodeUd t None None 0 (top + 2));
  Ret (r, p).

(** Structures of a smaller depth are written as they should be. *)
Hypothesis Hsub : forall st t p top, st ∈ s_type sp -> typed st t -> top + slots_table sp n st t <= ENCODE_STACK ->
  exists r p' u, sproto_encode (encode tonumber tostring sp n) st p (len p) (EncodeUd t None None 0 top) = Ret (r, p', u) /\
    fills (need st t) (enc st t) r p p'.

Lemma slot_ok top : top <= ENCODE_STACK -> stack_slot top = Ret tt.
Proof. intros H. unfold stack_slot. by rewrite (proj2 (Z.ltb_ge _ _)). Qed.

(** A field of a type of the schema. *)
Definition of_schema (f : field) : Prop := exists st, st ∈ s_type sp /\ f ∈ st_f st.

Lemma schema_field f : of_schema f -> wf_field (s_type_n sp) f /\ plain_field f.
Proof.
  intros (st & Hst & Hf). destruct Hplain as [(_ & _ & Ht & _) Hp]. rewrite Forall_forall in Ht, Hp.
  destruct (Ht st Hst) as (_ & _ & Hw & _). destruct (Hp st Hst) as [_ Hpf]. rewrite Forall_forall in Hw, Hpf. auto.
Qed.

Lemma subtype_ok f : of_schema f -> kind f = SPROTO_TSTRUCT -> type_at sp (f_st f) = Ret (subtype sp f) /\ subtype sp f ∈ s_type sp.
Proof.
  intros Hf Hk. destruct (schema_field f Hf) as [(_ & _ & _ & t & a & E & Ha & Ht) _].
  assert (Ht' : t = SPROTO_TSTRUCT).
  { revert Hk. unfold kind. rewrite E. unfold SPROTO_TARRAY, SPROTO_TSTRUCT in *.
    destruct Ht as [[Ht _]|[Ht _]]; [|done]. assert (t = 0 \/ t = 1 \/ t = 2) as Hc by lia.
    destruct Ha as [-> | ->], Hc as [-> |[-> | ->]]; done. }
  destruct Ht as [[? _]|[_ (i & Hi & Hr)]]; [unfold SPROTO_TSTRUCT in *; lia|]. unfold subtype, type_at. rewrite Hi. cbn [mbind option_bind].
  destruct Hplain as [(Hn & _) _]. destruct (arr_lookup_is_Some (s_type sp) i ltac:(lia)) as [st Hst]. rewrite Hst. cbn. split; [done|].
  rewrite arr_lookup_nonneg in Hst by lia. by eapply list_elem_of_lookup_2.
Qed.

(** The callback on the value of a field, or on an element of its array. *)
Abbreviation put_v top := (put_value tonumber tostring (encode_struct top)).

Lemma put_int top f v size index i w : a_type (set_value (field_arg f (kind f)) v size index) = kind f -> plain_field f -> kind f = SPROTO_TINTEGER ->
  put_v top (set_value (field_arg f (kind f)) v size index) (LInt i) = w ->
  w = if narrow i then Ret (4, VLocal (u32 i)) else Ret (8, VLocal (u64 i)).
Proof.
  intros _ [Hx _] Hk <-. unfold put_value. cbn [a_type set_value field_arg a_extra]. rewrite Hk, (Hx Hk). cbn. done.
Qed.

Lemma put_object top f p index v : of_schema f -> typed_v f v -> kind f = SPROTO_TSTRING \/ kind f = SPROTO_TSTRUCT ->
  top + 2 <= ENCODE_STACK -> top + 2 + slots_v f v <= ENCODE_STACK ->
  exists r p', put_v top (set_value (field_arg f (kind f)) (VAt p) (len p) index) v = Ret (r, VAt p') /\ fills (need_o f v) (enc_o f v) r p p'.
Proof.
  intros Hf Hv Hk Htop Hslots. unfold put_value. cbn [a_type set_value field_arg a_length a_value a_subtype].
  destruct v as [|b|i| |s|t|]; cbn in Hv; try done.
  - exfalso. unfold SPROTO_TBOOLEAN, SPROTO_TSTRING, SPROTO_TSTRUCT in *. lia.
  - exfalso. unfold SPROTO_TINTEGER, SPROTO_TSTRING, SPROTO_TSTRUCT in *. lia.
  - rewrite Hv. cbn [Z.eqb SPROTO_TSTRING SPROTO_TINTEGER SPROTO_TBOOLEAN Pos.eqb tolstring]. unfold fills. cbn [need_object enc_object].
    destruct (Z.ltb_spec (len p) (len s)) as [Hlt|Hge].
    { exists SPROTO_CB_ERROR, p. split; [done|]. split; [done|]. by left. }
    cbn [at_buffer]. rewrite bind_Ret. rewrite put_front by lia. rewrite bind_Ret.
    eexists _, _. split; [reflexivity|]. rewrite length_app, length_drop. split; [lia|]. right. split; [done|]. by eexists.
  - destruct Hv as [Hv Ht]. rewrite Hv. cbn [Z.eqb SPROTO_TSTRING SPROTO_TSTRUCT SPROTO_TINTEGER SPROTO_TBOOLEAN Pos.eqb at_buffer].
    rewrite bind_Ret. unfold encode_struct at 1. rewrite slot_ok, bind_Ret by done. destruct (subtype_ok f Hf Hv) as [-> Hin]. rewrite bind_Ret.
    destruct (Hsub (subtype sp f) t p (top + 2) Hin) as (r & p' & u & -> & Hfill); [done|done|]. rewrite !bind_Ret.
    exists (if r <? 0 then SPROTO_CB_ERROR else r), p'. split; [done|]. destruct Hfill as [Hl Hr]. split; [done|].
    cbn [need_object enc_object]. destruct Hr as [[-> ?]|[-> ?]]; [left; done|right]. by rewrite (proj2 (Z.ltb_ge _ _)) by lia.
Qed.

(** *** Fetching *)

Lemma cb_single f v size self : of_schema f -> e_top self + 1 <= ENCODE_STACK ->
  cb (set_value (field_arg f (kind f)) v size 0) self =
    match getfield (e_tbl self) (fname f) with
    | LNil => Ret (SPROTO_CB_NIL, v, self)
    | x => '(r, p) ← put_v (e_top self) (set_value (field_arg f (kind f)) v size 0) x; Ret (r, p, self)
    end.
Proof.
  intros Hf Htop. destruct (schema_field f Hf) as [(_ & _ & [c Hc] & _) _]. cbn [encode]. unfold fetch. cbn [a_tagname set_value field_arg a_index].
  unfold fname. rewrite Hc. cbn [deref]. rewrite bind_Ret. cbn [Z.ltb Z.compare]. rewrite slot_ok, !bind_Ret by done. by destruct (getfield _ _).
Qed.

(** The elements of an array; [M] is how far the top of the stack gets to. *)
Section array.
Context (M : Z) (HM : M + 2 <= ENCODE_STACK).

(** Before element [k] of the array [a] of field [f]. *)
Definition at_item (f : field) (t a : ltable) (k : nat) (self : encode_ud) : Prop :=
  e_tbl self = t /\ e_iter self = (if 0 <=? f_key f then k else 0%nat) /\
  (k = 0%nat /\ e_array_tag self <> name_at f /\ e_top self + 1 <= M \/ e_array_tag self = name_at f /\ e_array self = Some a /\ e_top self <= M).

Definition after_array (f : field) (t : ltable) (self : encode_ud) : Prop :=
  e_tbl self = t /\ e_iter self = 0%nat /\ e_array_tag self = name_at f /\ e_top self <= M.

Lemma at_item_top f t a k self : at_item f t a k self -> e_top self <= M.
Proof. intros (_ & _ & [(_ & _ & ?)|(_ & _ & ?)]); lia. Qed.
Lemma after_array_top f t self : after_array f t self -> e_top self <= M.
Proof. by intros (_ & _ & _ & ?). Qed.

Lemma cb_item f t a k v size self : of_schema f -> getfield t (fname f) = LTab a -> at_item f t a k self -> (k <= length (items f a))%nat ->
  match items f a !! k with
  | Some x => x <> LNil -> exists self', at_item f t a (S k) self' /\
      cb (set_value (field_arg f (kind f)) v size (1 + Z.of_nat k)) self =
        ('(r, p) ← put_v (e_top self') (set_value (field_arg f (kind f)) v size (1 + Z.of_nat k)) x; Ret (r, p, self'))
  | None => exists self', after_array f t self' /\
      cb (set_value (field_arg f (kind f)) v size (1 + Z.of_nat k)) self = Ret (SPROTO_CB_NIL, v, self')
  end.
Proof.
  intros Hf Ha (Ht & Hi & Htag) Hk. destruct (schema_field f Hf) as [(_ & _ & [c Hc] & _) _].
  assert (Hcb : forall x self', fetch (set_value (field_arg f (kind f)) v size (1 + Z.of_nat k)) self = Ret (x, self') ->
    cb (set_value (field_arg f (kind f)) v size (1 + Z.of_nat k)) self =
      match x with
      | inl code => Ret (code, v, self')
      | inr LNil => Ret (SPROTO_CB_NIL, v, self')
      | inr x => '(r, p) ← put_v (e_top self') (set_value (field_arg f (kind f)) v size (1 + Z.of_nat k)) x; Ret (r, p, self')
      end) by (intros x self' E; cbn [encode]; rewrite E, bind_Ret; done).
  assert (exists top, top <= M /\ fetch (set_value (field_arg f (kind f)) v size (1 + Z.of_nat k)) self =
    if 0 <=? f_key f then
      match a !! k with
      | None => Ret (inl SPROTO_CB_NIL, EncodeUd t (name_at f) (Some a) 0 top)
      | Some (_, x) => Ret (inr x, EncodeUd t (name_at f) (Some a) (S k) top)
      end
    else Ret (inr (geti a (1 + Z.of_nat k)), EncodeUd t (name_at f) (Some a) 0 top)) as (top & Htop & Hfetch).
  { unfold fetch. cbn [a_tagname set_value field_arg a_index a_mainindex]. rewrite Hc. cbn [deref]. rewrite bind_Ret.
    rewrite (proj2 (Z.ltb_lt 0 (1 + _))) by lia. unfold name_at in *. rewrite Hc in Htag |- *. cbn [fmap option_fmap option_map] in Htag |- *.
    destruct self as [tbl tag arr it top]. cbn [e_tbl e_array_tag e_array e_iter e_top] in *. subst tbl it. unfold fname in Ha. rewrite Hc in Ha.
    destruct Htag as [(-> & Hne & Htop)|(-> & -> & Htop)].
    - rewrite bool_decide_eq_false_2 by done. rewrite Ha, slot_ok, !bind_Ret by lia. cbn [deref e_array e_iter e_tbl e_array_tag e_top]. rewrite bind_Ret.
      exists (match arr with Some _ => top | None => top + 1 end). assert (match arr with Some _ => top | None => top + 1 end <= M) by (destruct arr; lia).
      split; [done|]. rewrite !(slot_ok (_ + 1)), !(slot_ok (_ + 2)), !bind_Ret by lia. destruct (0 <=? f_key f); [|done]. by destruct (a !! 0%nat) as [[??]|].
    - rewrite bool_decide_eq_true_2 by done. rewrite bind_Ret. cbn [deref e_array e_iter e_tbl e_array_tag e_top]. rewrite bind_Ret.
      exists top. split; [done|]. rewrite !(slot_ok (_ + 1)), !(slot_ok (_ + 2)), !bind_Ret by lia. destruct (0 <=? f_key f); [|done]. by destruct (a !! k) as [[??]|]. }
  unfold items, at_item, after_array in *. destruct (0 <=? f_key f).
  - rewrite list_lookup_fmap. destruct (a !! k) as [[k' x]|]; cbn [fmap option_fmap option_map snd].
    + intros Hx. eexists. split; [|rewrite (Hcb _ _ Hfetch); by destruct x]. split; [done|]. split; [done|by right].
    + eexists. split; [|by rewrite (Hcb _ _ Hfetch)]. done.
  - destruct (sequence (length a) 1 a !! k) as [x|] eqn:E.
    + apply sequence_lookup in E as [<- _]. intros Hx. eexists. split; [|rewrite (Hcb _ _ Hfetch); by destruct (geti a _)]. split; [done|]. split; [done|by right].
    + apply lookup_ge_None in E. replace (1 + Z.of_nat k) with (1 + len (sequence (length a) 1 a)) in * by lia.
      eexists. split; [|rewrite (Hcb _ _ Hfetch), sequence_end; reflexivity]. done.
Qed.

(** *** Strings and structures *)

Lemma fills_split m p' : m = len p' -> forall need bs r p, fills need bs r p p' -> r <> -1 -> exists rest, p' = bs ++ rest /\ r = len bs.
Proof. intros _ need0 bs r p [_ [[? _]|[-> [rest ->]]]] Hr; [done|by exists rest]. Qed.

Lemma take_length_app (a b : bytes) k : (k <= length a)%nat -> length (take k a ++ b) = (k + length b)%nat.
Proof. intros. rewrite length_app, length_take. lia. Qed.

Lemma encode_object_spec f t data self v : of_schema f -> e_tbl self = t -> getfield t (fname f) = v ->
  v = LNil \/ (typed_v f v /\ (kind f = SPROTO_TSTRING \/ kind f = SPROTO_TSTRUCT)) ->
  e_top self + 2 <= ENCODE_STACK -> e_top self + 2 + slots_v f v <= ENCODE_STACK ->
  exists r data', encode_object cb (set_value (field_arg f (kind f)) VNull 0 0) data (len data) self = Ret (r, data', self) /\
    if decide (r = 0) then v = LNil /\ data' = data
    else fills (4 + need_o f v) (framed (enc_o f v)) r data data' /\ (v = LNil -> r = -1).
Proof.
  intros Hf Ht Hv Hty Htop Hslots. unfold encode_object, SIZEOF_LENGTH. destruct (Z.ltb_spec (len data) 4) as [Hlt|Hge].
  { exists (-1), data. split; [done|]. cbn. split; [|done]. split; [done|]. left. split; [done|].
    pose proof (need_object_nonneg sp n f v Hplain). lia. }
  change (a_index _) with 0.
  change (set_value (set_value ?a VNull 0 0) ?w ?s 0) with (set_value a w s 0).
  rewrite cb_single by (done || lia). rewrite Ht, Hv. destruct Hty as [->|[Hty Hk]].
  - rewrite bind_Ret. cbn [at_buffer]. rewrite bind_Ret. exists 0, data. split; [|done]. unfold skip. cbn. by rewrite take_drop.
  - set (p := skip 4 data). assert (Hp : len p = len data - 4) by (unfold p, skip; rewrite length_drop; lia). rewrite <- Hp.
    destruct (put_object (e_top self) f p 0 v Hf Hty Hk Htop Hslots) as (r & p' & E & Hfill).
    replace (match v with LNil => _ | _ => _ end) with (Ret (r, VAt p', self) : outcome (Z * value_ptr * encode_ud)).
    2:{ destruct v; try done; rewrite E, bind_Ret; done. }
    rewrite bind_Ret. cbn [at_buffer]. rewrite bind_Ret. destruct Hfill as [Hl Hr].
    destruct Hr as [[-> Hneed]|[-> [rest ->]]].
    + exists (-1), (take (Z.to_nat 4) data ++ p'). split; [done|]. cbn. split; [|done]. split; [rewrite take_length_app; lia|]. left. split; [done|lia].
    + rewrite (proj2 (Z.ltb_ge (len _) 0)) by lia. rewrite length_app in Hl. rewrite (proj2 (Z.leb_le _ _)) by lia. cbn [assert_]. rewrite bind_Ret.
      rewrite fill_size_ok by (rewrite length_take; lia). rewrite bind_Ret. eexists _, _. split; [reflexivity|].
      rewrite decide_False by (rewrite length_framed; lia). split; [|by intros ->].
      split; [rewrite length_app; pose proof (length_framed (enc_o f v)); lia|]. right. split; [done|by eexists].
Qed.

(** *** Arrays of integers *)

Definition body4 (xs : list Z) : bytes := concat (map (fun i => le4 (u32 i)) xs).
Definition body8 (xs : list Z) : bytes := concat (map (fun i => le8 (u64 i)) xs).
Definition body (xs : list Z) : bytes := if forallb narrow xs then body4 xs else body8 xs.
Definition width (xs : list Z) : Z := if forallb narrow xs then 4 else 8.

Lemma length_body4 xs : length (body4 xs) = (4 * length xs)%nat.
Proof. induction xs as [|x xs IH]; [done|]. unfold body4 in *. cbn [map concat]. rewrite length_app, IH, length_le4. cbn [length]. lia. Qed.
Lemma length_body8 xs : length (body8 xs) = (8 * length xs)%nat.
Proof. induction xs as [|x xs IH]; [done|]. unfold body8 in *. cbn [map concat]. rewrite length_app, IH, length_le8. cbn [length]. lia. Qed.
Lemma length_body xs : len (body xs) = width xs * len xs.
Proof. unfold body, width. destruct (forallb narrow xs); rewrite ?length_body4, ?length_body8; lia. Qed.
Lemma body4_snoc xs x : body4 (xs ++ [x]) = body4 xs ++ le4 (u32 x).
Proof. unfold body4. rewrite map_app, concat_app. cbn [map concat]. by rewrite app_nil_r. Qed.
Lemma body8_snoc xs x : body8 (xs ++ [x]) = body8 xs ++ le8 (u64 x).
Proof. unfold body8. rewrite map_app, concat_app. cbn [map concat]. by rewrite app_nil_r. Qed.

Lemma sign_byte x : negb (Z.land (Z.land (Z.shiftr x 24) 0xff) 0x80 =? 0) = negb (Z.land x 0x80000000 =? 0).
Proof.
  change 0x80000000 with (2 ^ 31). change 0x80 with (2 ^ 7). rewrite !land_pow2_bit by lia. rewrite Z.land_spec, Z.shiftr_spec by lia.
  change (Z.testbit 255 7) with true. rewrite andb_true_r. change (7 + 24) with 31. by destruct (Z.testbit x 31).
Qed.

Lemma rearrange_spec h0 xs junk tail : length h0 = 1%nat -> length junk = (4 * length xs)%nat -> Forall (fun x => narrow x = true) xs ->
  rearrange (length xs) (h0 ++ body4 xs ++ junk ++ tail) = Ret (h0 ++ body8 xs ++ tail).
Proof.
  intros Hh. revert junk tail. induction xs as [|x xs IH] using rev_ind; intros junk tail Hj Hx.
  { destruct junk; [|cbn in Hj; lia]. done. }
  apply Forall_app in Hx as [Hx Hx1]. apply Forall_cons in Hx1 as [Hx1 _]. rewrite length_app in *. cbn [length] in *. rewrite Nat.add_1_r in *.
  cbn [rearrange]. rewrite body4_snoc, body8_snoc. set (i := length xs) in *. set (y := le4 (u32 x) ++ junk).
  assert (Hy : length y = (4 * i + 8)%nat) by (unfold y; rewrite length_app, length_le4; lia).
  set (j := take (4 * i) y). set (m4 := take 4 (drop (4 * i) y)). set (l4 := drop (4 * i + 4) y).
  assert (Hsplit : y = j ++ m4 ++ l4).
  { unfold j, m4, l4. rewrite <- (take_drop (4 * i) y) at 1. f_equal. rewrite <- (take_drop 4 (drop (4 * i) y)) at 1. by rewrite drop_drop. }
  assert (Hlj : length j = (4 * i)%nat) by (unfold j; rewrite length_take; lia).
  assert (Hlm : length m4 = 4%nat) by (unfold m4; rewrite length_take, length_drop; lia).
  assert (Hll : length l4 = 4%nat) by (unfold l4; rewrite length_drop; lia).
  assert (E0 : h0 ++ (body4 xs ++ le4 (u32 x)) ++ junk ++ tail = h0 ++ body4 xs ++ y ++ tail) by (unfold y; by rewrite <- !app_assoc).
  assert (Hpre : len (h0 ++ body4 xs ++ j) = 1 + Z.of_nat i * SIZEOF_INT64).
  { rewrite !length_app, length_body4, Hlj, Hh. unfold SIZEOF_INT64. fold i. lia. }
  assert (Hskip : skip (1 + Z.of_nat i * SIZEOF_INT32) (h0 ++ body4 xs ++ y ++ tail) = y ++ tail).
  { unfold skip, SIZEOF_INT32. rewrite app_assoc, drop_app_length'; [done|]. rewrite length_app, length_body4, Hh. fold i. lia. }
  rewrite E0, Hskip. rewrite Hsplit at 1.
  replace (h0 ++ body4 xs ++ (j ++ m4 ++ l4) ++ tail) with ((h0 ++ body4 xs ++ j) ++ m4 ++ (l4 ++ tail)) by (by rewrite <- !app_assoc).
  rewrite memcpy_mid; [|lia|unfold SIZEOF_INT32; lia|unfold SIZEOF_INT32, y; rewrite !length_app, length_le4; lia].
  rewrite bind_Ret. replace (take (Z.to_nat SIZEOF_INT32) (y ++ tail)) with (le4 (u32 x)).
  2:{ unfold y. rewrite <- app_assoc, take_app_length'; [done|]. by rewrite length_le4. }
  assert (Hget : arr_get ((h0 ++ body4 xs ++ j) ++ le4 (u32 x) ++ l4 ++ tail) (1 + Z.of_nat i * SIZEOF_INT64 + 3) = Ret (Z.land (Z.shiftr (u32 x) 24) 0xff)).
  { unfold arr_get. rewrite arr_lookup_nonneg by (unfold SIZEOF_INT64; lia). rewrite lookup_app_r by lia.
    replace (Z.to_nat (1 + Z.of_nat i * SIZEOF_INT64 + 3) - length (h0 ++ body4 xs ++ j))%nat with 3%nat by lia. done. }
  rewrite Hget, bind_Ret, sign_byte. unfold uint32_to_uint64.
  replace ((h0 ++ body4 xs ++ j) ++ le4 (u32 x) ++ l4 ++ tail) with (((h0 ++ body4 xs ++ j) ++ le4 (u32 x)) ++ l4 ++ tail) by (by rewrite <- !app_assoc).
  rewrite put_mid; [|rewrite length_app, length_le4; lia|rewrite Hll; by destruct (negb _)]. rewrite bind_Ret.
  replace (((h0 ++ body4 xs ++ j) ++ le4 (u32 x)) ++ (if negb _ then _ else _) ++ tail) with (h0 ++ body4 xs ++ j ++ (le8 (u64 x) ++ tail)).
  2:{ rewrite (le8_narrow x Hx1). by rewrite <- !app_assoc. }
  rewrite IH by done. by rewrite <- !app_assoc.
Qed.

Lemma cb_int f t a k i self : of_schema f -> kind f = SPROTO_TINTEGER -> getfield t (fname f) = LTab a -> at_item f t a k self ->
  items f a !! k = Some (LInt i) -> exists self', at_item f t a (S k) self' /\
    cb (set_value (field_arg f (kind f)) (VLocal 0) 8 (1 + Z.of_nat k)) self =
      Ret (if narrow i then 4 else 8, VLocal (if narrow i then u32 i else u64 i), self').
Proof.
  intros Hf Hk Ha Hs Hi. pose proof (lookup_lt_Some _ _ _ Hi). pose proof (cb_item f t a k (VLocal 0) 8 self Hf Ha Hs ltac:(lia)) as H0.
  rewrite Hi in H0. destruct (H0 ltac:(done)) as (self' & Hs' & ->). exists self'. split; [done|].
  rewrite (put_int _ f (VLocal 0) 8 _ i _ eq_refl (proj2 (schema_field f Hf)) Hk eq_refl). by destruct (narrow i).
Qed.

Lemma forallb_narrow xs : forallb narrow xs = true -> Forall (fun x => narrow x = true) xs.
Proof. intros H. apply Forall_forall. intros x Hx%list_elem_of_In. by eapply forallb_forall in H. Qed.

Lemma body_snoc xs x : body (xs ++ [x]) =
  if forallb narrow xs then (if narrow x then body xs ++ le4 (u32 x) else body8 xs ++ le8 (u64 x)) else body xs ++ le8 (u64 x).
Proof.
  unfold body. rewrite forallb_app. cbn [forallb]. rewrite andb_true_r. destruct (forallb narrow xs); cbn [andb]; [|by rewrite body8_snoc].
  destruct (narrow x); [by rewrite body4_snoc|by rewrite body8_snoc].
Qed.

Lemma width_snoc xs x : width (xs ++ [x]) = if narrow x then width xs else 8.
Proof. unfold width. rewrite forallb_app. cbn [forallb]. by destruct (forallb narrow xs), (narrow x). Qed.

(** The integers of the array, and its first [k] elements written. *)
Definition ints (f : field) (a : ltable) : list Z := map int_of (items f a).

Lemma take_ints f a k i : items f a !! k = Some (LInt i) -> take (S k) (ints f a) = take k (ints f a) ++ [i].
Proof. intros H. apply take_S_r. unfold ints. by rewrite list_lookup_fmap, H. Qed.

Lemma integer_loop_spec f t a h0 : of_schema f -> kind f = SPROTO_TINTEGER -> getfield t (fname f) = LTab a -> length h0 = 1%nat ->
  Forall (typed_v f) (items f a) ->
  forall fuel k rest self, (k <= length (items f a))%nat -> at_item f t a k self -> (length rest < fuel)%nat ->
  let xs := take k (ints f a) in
  exists r h self', integer_loop cb fuel (field_arg f (kind f)) (h0 ++ body xs ++ rest) (1 + len (body xs)) (len rest) (width xs) (1 + Z.of_nat k) self = Ret (r, h, self') /\
    length h = length (h0 ++ body xs ++ rest) /\
    (r = None /\ len h < 1 + 8 * len (items f a) \/
     after_array f t self' /\ r = Some (1 + len (body (ints f a)), width (ints f a), false) /\ exists rest', h = h0 ++ body (ints f a) ++ rest') /\
    e_top self' <= M.
Proof.
  intros Hf Hk Ha Hh Hty. induction fuel as [|fuel IH]; intros k rest self Hkl Hs Hfuel; [lia|]. cbv zeta. cbn [integer_loop].
  destruct (items f a !! k) as [v|] eqn:Ev.
  2:{ pose proof (cb_item f t a k (VLocal 0) 8 self Hf Ha Hs Hkl) as H0. rewrite Ev in H0. destruct H0 as (self' & Hs' & ->). rewrite bind_Ret.
      change (SPROTO_CB_NIL <=? 0) with true. change (SPROTO_CB_NIL =? SPROTO_CB_NIL) with true. cbv iota. apply lookup_ge_None in Ev.
      rewrite take_ge by (unfold ints; rewrite length_map; lia). eexists _, _, _. split; [reflexivity|]. split; [done|]. split; [|by eapply after_array_top]. right. split; [done|]. split; [done|by eexists]. }
  assert (exists i, v = LInt i) as [i ->].
  { assert (Hv : typed_v f v) by (eapply Forall_lookup_1; done). destruct v; cbn in Hv; try done; rewrite Hk in Hv; try done; eauto. by destruct Hv. }
  destruct (cb_int f t a k i self Hf Hk Ha Hs Ev) as (self' & Hs' & ->). rewrite bind_Ret.
  pose proof (lookup_lt_Some _ _ _ Ev) as Hlt. pose proof (take_ints f a k i Ev) as Etake.
  set (xs := take k (ints f a)) in *. assert (Hxs : length xs = k) by (unfold xs, ints; rewrite length_take, length_map; lia).
  specialize (IH (S k)). cbv zeta in IH. rewrite Etake, body_snoc, width_snoc in IH.
  replace (1 + Z.of_nat (S k)) with (1 + Z.of_nat k + 1) in IH by lia. pose proof (length_body xs) as Hb.
  replace ((if narrow i then 4 else 8) <=? 0) with false by (by destruct (narrow i)). cbv iota. unfold SIZEOF_INT64, SIZEOF_INT32.
  destruct (Z.ltb_spec (len rest) 8) as [Hrest|Hrest].
  { eexists _, _, _. split; [reflexivity|]. split; [done|]. split; [|by eapply at_item_top]. left. split; [done|]. rewrite !length_app, Hh.
    assert (width xs <= 8) by (unfold width; destruct (forallb narrow xs); lia). nia. }
  cbn [at_local]. rewrite bind_Ret. destruct (narrow i) eqn:En.
  - rewrite Z.eqb_refl. destruct (forallb narrow xs) eqn:Ex; unfold width in *; rewrite Ex in *.
    + rewrite (app_assoc h0), put_at by (rewrite ?length_app, ?length_le4; lia). rewrite bind_Ret. change (4 =? 8) with false. cbv iota. rewrite bind_Ret.
      destruct (IH (drop 4 rest) self') as (r & h & self'' & E & Hl & Hr); [lia|done|rewrite length_drop; lia|].
      exists r, h, self''. rewrite length_le4. replace (1 + len (body xs) + 4) with (1 + len (body xs ++ le4 (u32 i))) by (rewrite length_app, length_le4; lia).
      replace (len rest - 4) with (len (drop 4 rest)) by (rewrite length_drop; lia). rewrite <- !app_assoc in E |- *. split; [exact E|]. split; [|done].
      rewrite Hl, !length_app, length_le4, length_drop. lia.
    + rewrite (app_assoc h0), put_at by (rewrite ?length_app, ?length_le4; lia). rewrite bind_Ret. change (8 =? 8) with true. cbv iota. unfold uint32_to_uint64.
      rewrite length_le4. rewrite <- (take_drop 4 (drop 4 rest)). rewrite (app_assoc (h0 ++ body xs)).
      rewrite (put_mid ((h0 ++ body xs) ++ le4 (u32 i))).
      2:{ rewrite !length_app, length_le4. lia. }
      2:{ rewrite length_take, length_drop. destruct (negb _); cbn [length]; lia. }
      rewrite bind_Ret. destruct (IH (drop 8 rest) self') as (r & h & self'' & E & Hl & Hr); [lia|done|rewrite length_drop; lia|].
      exists r, h, self''. rewrite (le8_narrow i En) in E, Hl. rewrite drop_drop.
      replace (1 + len (body xs) + 8) with (1 + len (body xs ++ le8 (u64 i))) by (rewrite length_app, length_le8; lia). rewrite (le8_narrow i En).
      replace (len rest - 8) with (len (drop 8 rest)) by (rewrite length_drop; lia). rewrite <- !app_assoc in E |- *. split; [exact E|]. split; [|done].
      rewrite Hl, !length_app, length_le4, length_drop. destruct (negb _); cbn [length]; lia.
  - change (8 =? 4) with false. change (8 =? 8) with true. cbn [negb]. cbv iota. destruct (forallb narrow xs) eqn:Ex; unfold width in *; rewrite Ex in *.
    + change (4 =? 4) with true. cbv iota. replace ((1 + Z.of_nat k - 1) * 4) with (4 * Z.of_nat k) by lia.
      destruct (Z.ltb_spec (len rest - 4 * Z.of_nat k) 8) as [Hrest'|Hrest'].
      { eexists _, _, _. split; [reflexivity|]. split; [done|]. split; [|by eapply at_item_top]. left. split; [done|]. rewrite !length_app, Hh. lia. }
      replace (Z.to_nat (1 + Z.of_nat k - 1)) with (length xs) by lia. assert (Eb : body xs = body4 xs) by (unfold body; by rewrite Ex). rewrite Eb in *.
      pose proof (rearrange_spec h0 xs (take (4 * length xs) rest) (drop (4 * length xs) rest) Hh) as Er.
      rewrite take_drop in Er. rewrite Er; [|rewrite length_take; lia|by apply forallb_narrow]. clear Er.
      rewrite bind_Ret. rewrite (app_assoc h0), put_at; [|rewrite length_app, length_body8, Hh; lia|rewrite length_drop, length_le8; lia].
      rewrite bind_Ret, length_le8, drop_drop.
      destruct (IH (drop (4 * length xs + 8) rest) self') as (r & h & self'' & E & Hl & Hr); [lia|done|rewrite length_drop; lia|].
      exists r, h, self''. replace (1 + len (body4 xs) + 4 * Z.of_nat k + 8) with (1 + len (body8 xs ++ le8 (u64 i))) by (rewrite length_app, length_le8, length_body8; lia).
      replace (len rest - 4 * Z.of_nat k - 8) with (len (drop (4 * length xs + 8) rest)) by (rewrite length_drop; lia). rewrite <- !app_assoc in E |- *. split; [exact E|].
      split; [|done]. rewrite Hl, !length_app, length_le8, length_body8, length_drop. lia.
    + change (8 =? 4) with false. cbv iota. rewrite (app_assoc h0), put_at by (rewrite ?length_app, ?length_le8; lia). rewrite bind_Ret, length_le8.
      destruct (IH (drop 8 rest) self') as (r & h & self'' & E & Hl & Hr); [lia|done|rewrite length_drop; lia|].
      exists r, h, self''. replace (1 + len (body xs) + 8) with (1 + len (body xs ++ le8 (u64 i))) by (rewrite length_app, length_le8; lia).
      replace (len rest - 8) with (len (drop 8 rest)) by (rewrite length_drop; lia). rewrite <- !app_assoc in E |- *. split; [exact E|]. split; [|done].
      rewrite Hl, !length_app, length_le8, length_drop. lia.
Qed.

Lemma int_array_body ns : int_array ns = match ns with [] => [] | _ => u8 (width ns) :: body ns end.
Proof. destruct ns as [|x ns]; [done|]. unfold int_array, body, width. by destruct (forallb narrow (x :: ns)). Qed.

Lemma integer_array_spec f t a buffer self : of_schema f -> kind f = SPROTO_TINTEGER -> getfield t (fname f) = LTab a ->
  Forall (typed_v f) (items f a) -> at_item f t a 0 self ->
  exists r h self', encode_integer_array cb (field_arg f (kind f)) buffer (len buffer) self = Ret (r, h, self') /\ length h = length buffer /\
    (r = None /\ len buffer < 1 + 8 * len (items f a) \/
     after_array f t self' /\ r = Some (len (int_array (ints f a)), false) /\ exists rest, h = int_array (ints f a) ++ rest) /\
    e_top self' <= M.
Proof.
  intros Hf Hk Ha Hty Hs. unfold encode_integer_array. destruct buffer as [|b rest].
  { eexists _, _, _. split; [reflexivity|]. split; [done|]. split; [|by eapply at_item_top]. left. split; [done|]. cbn. lia. }
  rewrite (proj2 (Z.ltb_ge (len (b :: rest)) 1)) by (cbn [length]; lia).
  destruct (integer_loop_spec f t a [b] Hf Hk Ha eq_refl Hty (S (Z.to_nat (len (b :: rest)))) 0 rest self) as (r & h & self' & E & Hl & Hr); [lia|done|cbn [length]; lia|].
  cbv zeta in E, Hl. rewrite take_0 in E, Hl. change (body []) with (@nil Z) in E, Hl. cbn [app] in E, Hl. change (width []) with SIZEOF_INT32 in E.
  change (1 + Z.of_nat 0) with 1 in E. change (1 + len (@nil Z)) with 1 in E. replace (len (b :: rest) - 1) with (len rest) by (cbn [length]; lia). rewrite E, bind_Ret.
  destruct Hr as [Hr Htop]. destruct Hr as [[-> Hneed]|(Hafter & -> & rest' & ->)].
  - eexists _, _, _. split; [reflexivity|]. split; [done|]. split; [|done]. left. split; [done|]. rewrite Hl in Hneed. cbn [length] in *. lia.
  - pose proof (length_body (ints f a)) as Hb. rewrite int_array_body. destruct (ints f a) as [|x xs] eqn:Ei.
    + change (body []) with (@nil Z) in *. cbn [length] in *. rewrite (proj2 (Z.eqb_eq _ _)) by lia. eexists _, _, _. split; [reflexivity|].
      split; [done|]. split; [|done]. right. split; [done|]. split; [done|by eexists].
    + assert (1 <= len (body (x :: xs))). { rewrite Hb. unfold width. destruct (forallb narrow (x :: xs)); cbn [length]; lia. }
      rewrite (proj2 (Z.eqb_neq _ _)) by lia. rewrite put_front by (cbn; lia). rewrite bind_Ret. eexists _, _, _. split; [reflexivity|].
      cbn [length app drop] in *. rewrite drop_0. split; [lia|]. split; [|done]. right. split; [done|]. split; [do 2 f_equal; lia|]. by exists rest'.
Qed.

(** *** Arrays of booleans *)

Definition bits (vs : list lval) : bytes := map (fun v => Z.b2z (bool_of v)) vs.

Lemma bits_snoc vs v : bits (vs ++ [v]) = bits vs ++ [Z.b2z (bool_of v)].
Proof. unfold bits. by rewrite map_app. Qed.

Lemma boolean_loop_spec f t a h0 : of_schema f -> kind f = SPROTO_TBOOLEAN -> getfield t (fname f) = LTab a -> Forall (typed_v f) (items f a) ->
  forall fuel k rest self, (k <= length (items f a))%nat -> at_item f t a k self -> (length rest < fuel)%nat -> length h0 = 4%nat ->
  exists r h self', boolean_loop cb fuel (field_arg f (kind f)) (h0 ++ bits (take k (items f a)) ++ rest) (4 + Z.of_nat k) (len rest) (1 + Z.of_nat k) self = Ret (r, h, self') /\
    length h = length (h0 ++ bits (take k (items f a)) ++ rest) /\
    (r = inl (-1) /\ len h < 4 + len (items f a) \/
     after_array f t self' /\ r = inr (4 + len (items f a)) /\ exists rest', h = h0 ++ bits (items f a) ++ rest') /\
    e_top self' <= M.
Proof.
  intros Hf Hk Ha Hty. induction fuel as [|fuel IH]; intros k rest self Hkl Hs Hfuel Hh; [lia|]. cbn [boolean_loop].
  pose proof (cb_item f t a k (VLocal 0) 4 self Hf Ha Hs Hkl) as H0. destruct (items f a !! k) as [v|] eqn:Ev.
  2:{ destruct H0 as (self' & Hs' & ->). rewrite bind_Ret. change (SPROTO_CB_NIL <? 0) with true. change (SPROTO_CB_NIL =? SPROTO_CB_NIL) with true. cbv iota.
      apply lookup_ge_None in Ev. rewrite take_ge by lia. eexists _, _, _. split; [reflexivity|]. split; [done|]. split; [|by eapply after_array_top]. right. split; [done|].
      split; [do 2 f_equal; lia|by eexists]. }
  assert (Hv : typed_v f v) by (eapply Forall_lookup_1; done).
  destruct v as [|b|i| |s|tt|]; cbn in Hv; try done; rewrite Hk in Hv; try done; try (by destruct Hv).
  destruct (H0 ltac:(done)) as (self' & Hs' & ->). pose proof (lookup_lt_Some _ _ _ Ev) as Hlt.
  unfold put_value. cbn [a_type set_value field_arg]. rewrite Hk. change (SPROTO_TBOOLEAN =? SPROTO_TINTEGER) with false. change (SPROTO_TBOOLEAN =? SPROTO_TBOOLEAN) with true.
  cbv iota. rewrite !bind_Ret. change (4 <? 0) with false. cbv iota.
  assert (Hbits : len (bits (take k (items f a))) = Z.of_nat k) by (unfold bits; rewrite length_map, length_take; lia).
  destruct rest as [|x rest].
  { eexists _, _, _. split; [reflexivity|]. split; [done|]. split; [|by eapply at_item_top]. left. split; [done|]. rewrite app_nil_r, length_app, Hh. lia. }
  rewrite (proj2 (Z.ltb_ge (len (x :: rest)) 1)) by (cbn [length]; lia). cbn [at_local]. rewrite bind_Ret.
  rewrite app_assoc, put_one by (rewrite length_app; lia). rewrite bind_Ret.
  destruct (IH (S k) rest self') as (r & h & self'' & E & Hl & Hr); [lia|done|cbn [length] in Hfuel; lia|done|].
  exists r, h, self''. rewrite (take_S_r _ _ _ Ev), bits_snoc in E, Hl. rewrite Hk in E. cbn [bool_of] in E, Hl.
  replace (4 + Z.of_nat k + 1) with (4 + Z.of_nat (S k)) by lia. replace (1 + Z.of_nat k + 1) with (1 + Z.of_nat (S k)) by lia.
  replace (len (x :: rest) - 1) with (len rest) by (cbn [length]; lia).
  replace (if s32 (if b then 1 else 0) =? 0 then 0 else 1) with (Z.b2z b) by (by destruct b).
  rewrite <- !app_assoc in *. split; [exact E|]. split; [|done]. rewrite Hl, !length_app. cbn [length]. lia.
Qed.

(** *** Arrays of strings and structures *)

Definition objects (f : field) (vs : list lval) : bytes := concat (map (fun v => framed (enc_o f v)) vs).
Definition need_objects (f : field) (vs : list lval) : Z := 4 + zsum (map (fun v => 4 + need_o f v) vs).

Lemma objects_snoc f vs v : objects f (vs ++ [v]) = objects f vs ++ framed (enc_o f v).
Proof. unfold objects. rewrite map_app, concat_app. cbn [map concat]. by rewrite app_nil_r. Qed.

Lemma zsum_app l l' : zsum (l ++ l') = zsum l + zsum l'.
Proof. induction l as [|x l IH]; cbn [app zsum foldr]; [unfold zsum; cbn; lia|]. unfold zsum in *. cbn [foldr]. lia. Qed.

Lemma zsum_take (vs : list lval) (g : lval -> Z) k : (forall v, 0 <= g v) -> zsum (map g (take k vs)) <= zsum (map g vs).
Proof.
  intros Hg. pose proof (zsum_nonneg g (drop k vs) Hg) as H. pose proof (zsum_app (map g (take k vs)) (map g (drop k vs))) as E.
  rewrite <- map_app, take_drop in E. lia.
Qed.

Lemma zsum_lookup (vs : list lval) (g : lval -> Z) k v : vs !! k = Some v -> (forall v, 0 <= g v) ->
  zsum (map g (take k vs)) + g v <= zsum (map g vs).
Proof.
  intros Hv Hg. pose proof (zsum_take vs g (S k) Hg) as H. rewrite (take_S_r _ _ _ Hv), map_app, zsum_app in H.
  unfold zsum at 2 in H. cbn [map foldr] in H. lia.
Qed.

Lemma object_loop_spec f t a h0 : of_schema f -> kind f = SPROTO_TSTRING \/ kind f = SPROTO_TSTRUCT -> getfield t (fname f) = LTab a ->
  Forall (typed_v f) (items f a) -> Forall (fun v => M + 2 + slots_v f v <= ENCODE_STACK) (items f a) -> length h0 = 4%nat ->
  forall fuel k rest self, (k <= length (items f a))%nat -> at_item f t a k self -> (length rest < fuel)%nat ->
  let xs := take k (items f a) in
  exists r h self', object_loop cb fuel (field_arg f (kind f)) (h0 ++ objects f xs ++ rest) (4 + len (objects f xs)) (len rest) (1 + Z.of_nat k) self = Ret (r, h, self') /\
    length h = length (h0 ++ objects f xs ++ rest) /\
    (r = inl (-1) /\ len h < 4 + need_objects f (items f a) \/
     after_array f t self' /\ r = inr (4 + len (objects f (items f a))) /\ exists rest', h = h0 ++ objects f (items f a) ++ rest') /\
    e_top self' <= M.
Proof.
  intros Hf Hk Ha Hty Hslots Hh. induction fuel as [|fuel IH]; intros k rest self Hkl Hs Hfuel; [lia|]. cbv zeta. cbn [object_loop]. unfold SIZEOF_LENGTH.
  set (xs := take k (items f a)).
  assert (Hxs : len (objects f xs) <= zsum (map (fun v => 4 + need_o f v) xs)) by (apply length_objects; intros g t'; apply enc_le_need, subtype_cases; done).
  assert (Hpos : forall v, 0 <= 4 + need_o f v) by (intros v; pose proof (need_object_nonneg sp n f v Hplain); lia).
  assert (Hle : zsum (map (fun v => 4 + need_o f v) xs) <= zsum (map (fun v => 4 + need_o f v) (items f a))).
  { by apply zsum_take. }
  destruct (Z.ltb_spec (len rest) 4) as [Hrest|Hrest].
  { eexists _, _, _. split; [reflexivity|]. split; [done|]. split; [|by eapply at_item_top]. left. split; [done|]. rewrite !length_app, Hh. unfold need_objects. lia. }
  replace (skip (4 + len (objects f xs) + 4) (h0 ++ objects f xs ++ rest)) with (drop 4 rest).
  2:{ unfold skip. rewrite app_assoc, drop_app_ge by (rewrite length_app; lia). rewrite length_app. f_equal. lia. }
  assert (Htake : take (Z.to_nat (4 + len (objects f xs) + 4)) (h0 ++ objects f xs ++ rest) = h0 ++ objects f xs ++ take 4 rest).
  { rewrite app_assoc, take_app_ge by (rewrite length_app; lia). rewrite <- app_assoc. do 3 f_equal. rewrite length_app. lia. }
  rewrite Htake. set (p := drop 4 rest). assert (Hp : len p = len rest - 4) by (unfold p; rewrite length_drop; lia). rewrite <- Hp.
  pose proof (cb_item f t a k (VAt p) (len p) self Hf Ha Hs Hkl) as H0. destruct (items f a !! k) as [v|] eqn:Ev.
  2:{ destruct H0 as (self' & Hs' & ->). rewrite bind_Ret. cbn [at_buffer]. rewrite bind_Ret.
      change (SPROTO_CB_NIL <? 0) with true. change (SPROTO_CB_NIL =? SPROTO_CB_NIL) with true. cbv iota. apply lookup_ge_None in Ev.
      assert (Exs : xs = items f a) by (unfold xs; apply take_ge; lia). rewrite Exs in *. clearbody xs. eexists _, _, _. split; [reflexivity|].
      unfold p. rewrite <- app_assoc, <- (app_assoc (objects _ _)), take_drop. split; [done|]. split; [|by eapply after_array_top]. right. split; [done|]. split; [done|by eexists]. }
  assert (Hv : typed_v f v) by (eapply Forall_lookup_1; done). pose proof (lookup_lt_Some _ _ _ Ev) as Hlt.
  destruct H0 as (self' & Hs' & ->); [by intros ->|]. pose proof (at_item_top _ _ _ _ _ Hs') as Htop.
  assert (Hsv : M + 2 + slots_v f v <= ENCODE_STACK) by (exact (Forall_lookup_1 _ _ _ _ Hslots Ev)).
  destruct (put_object (e_top self') f p (1 + Z.of_nat k) v Hf Hv Hk) as (r & p' & -> & Hl' & Hr); [lia|lia|]. rewrite !bind_Ret.
  cbn [at_buffer]. rewrite bind_Ret. pose proof (zsum_lookup _ (fun v => 4 + need_o f v) k v Ev Hpos) as Hsum. fold xs in Hsum. cbv beta in Hsum.
  destruct Hr as [[-> Hneed]|[-> [rest' ->]]].
  { eexists _, _, _. split; [reflexivity|]. rewrite !length_app, length_take, Hl'. unfold p. rewrite length_drop. split; [lia|]. split; [|done]. left. split; [done|].
    unfold need_objects. unfold p in Hneed. rewrite length_drop in Hneed. lia. }
  rewrite (proj2 (Z.ltb_ge (len (enc_o f v)) 0)) by lia. rewrite length_app in Hl'.
  replace ((h0 ++ objects f xs ++ take 4 rest) ++ enc_o f v ++ rest') with ((h0 ++ objects f xs) ++ take 4 rest ++ (enc_o f v ++ rest')) by (by rewrite <- !app_assoc).
  rewrite put_mid; [|rewrite length_app; lia|rewrite length_take, length_le4; lia]. rewrite bind_Ret.
  destruct (IH (S k) rest' self') as (r & h & self'' & E & Hl & Hr); [lia|done|lia|]. cbv zeta in E, Hl. rewrite (take_S_r _ _ _ Ev), objects_snoc in E, Hl. fold xs in E, Hl.
  exists r, h, self''. replace (4 + len (objects f xs) + 4 + len (enc_o f v)) with (4 + len (objects f xs ++ framed (enc_o f v)))
    by (rewrite length_app; pose proof (length_framed (enc_o f v)); lia).
  replace (1 + Z.of_nat k + 1) with (1 + Z.of_nat (S k)) by lia. replace (len p - len (enc_o f v)) with (len rest') by lia.
  unfold framed in *. rewrite <- !app_assoc in *. split; [exact E|]. split; [|done]. rewrite Hl, !length_app, length_le4. lia.
Qed.

(** *** Fields *)

Definition array_need (f : field) (vs : list lval) : Z :=
  8 + (if kind f =? SPROTO_TINTEGER then 1 + 8 * len vs else if kind f =? SPROTO_TBOOLEAN then len vs else need_objects f vs).

Lemma encode_array_spec f t a data self : of_schema f -> getfield t (fname f) = LTab a -> Forall (typed_v f) (items f a) ->
  Forall (fun v => M + 2 + slots_v f v <= ENCODE_STACK) (items f a) -> at_item f t a 0 self ->
  exists r data' self', encode_array cb (field_arg f (kind f)) data (len data) self = Ret (r, data', self') /\
    fills (array_need f (items f a)) (framed (enc_array sp enc f (items f a))) r data data' /\ (r <> -1 -> after_array f t self') /\ e_top self' <= M.
Proof.
  intros Hf Ha Hty Hslots Hs. unfold encode_array, SIZEOF_LENGTH. destruct (schema_field f Hf) as [Hw _].
  assert (Hzs : 0 <= need_objects f (items f a)).
  { unfold need_objects. assert (0 <= zsum (map (fun v => 4 + need_o f v) (items f a))); [|lia]. apply zsum_nonneg. intros v.
    pose proof (need_object_nonneg sp n f v Hplain). lia. }
  assert (Han : 8 <= array_need f (items f a)) by (unfold array_need; destruct (kind f =? SPROTO_TINTEGER), (kind f =? SPROTO_TBOOLEAN); lia).
  destruct (Z.ltb_spec (len data) 4) as [Hlt|Hge].
  { exists (-1), data, self. split; [done|]. split; [|split; [done|by eapply at_item_top]]. split; [done|]. left. split; [done|lia]. }
  set (h0 := take 4 data). set (buf := drop 4 data). assert (Hh : length h0 = 4%nat) by (unfold h0; rewrite length_take; lia).
  assert (Hb : len buf = len data - 4) by (unfold buf; rewrite length_drop; lia). assert (Ed : data = h0 ++ buf) by (unfold h0, buf; by rewrite take_drop).
  change (skip 4 data) with buf. change (take (Z.to_nat 4) data) with h0. rewrite <- Hb. cbn [a_type field_arg].
  assert (Hfin : forall rest self', after_array f t self' -> length (enc_array sp enc f (items f a) ++ rest) = length buf -> exists r data' self'',
    ('(r, data) ← fill_size (h0 ++ enc_array sp enc f (items f a) ++ rest) (4 + len (enc_array sp enc f (items f a)) - 4); Ret (r, data, self')) = Ret (r, data', self'') /\
    fills (array_need f (items f a)) (framed (enc_array sp enc f (items f a))) r data data' /\ (r <> -1 -> after_array f t self'') /\ e_top self'' <= M).
  { intros rest self' Hs' Hlen. set (d := enc_array sp enc f (items f a)) in *. replace (4 + len d - 4) with (len d) by lia.
    rewrite (fill_size_ok h0 d rest Hh), bind_Ret. eexists _, _, _. split; [reflexivity|]. split; [|split; [done|by eapply after_array_top]].
    split; [rewrite Ed; unfold framed in *; rewrite !length_app in *; rewrite length_le4; lia|]. right. split; [done|by eexists]. }
  assert (Hfail : forall h self' need, e_top self' <= M -> length h = length data -> len h < need -> need <= array_need f (items f a) -> exists r data' self'',
    (Ret (-1, h, self') : outcome (Z * bytes * encode_ud)) = Ret (r, data', self'') /\
    fills (array_need f (items f a)) (framed (enc_array sp enc f (items f a))) r data data' /\ (r <> -1 -> after_array f t self'') /\ e_top self'' <= M).
  { intros h self' m Htop Hl Hm Hle. eexists _, _, _. split; [reflexivity|]. split; [|done]. split; [done|]. left. split; [done|lia]. }
  unfold enc_array, array_need in *. destruct (kind_range f _ Hw) as [Hk|[Hk|Hk]].
  - rewrite Hk in *. change (0 =? SPROTO_TINTEGER) with true in *. cbv iota in *.
    destruct (integer_array_spec f t a buf self Hf Hk Ha Hty Hs) as (r & h & self' & E & Hl & Hr). rewrite Hk in E. rewrite E, !bind_Ret.
    destruct Hr as [Hr Htop]. destruct Hr as [[-> Hneed]|(Hs' & -> & rest & ->)]; cbv iota.
    + eapply Hfail with (need := 4 + (1 + 8 * len (items f a))); [done|rewrite length_app; lia|rewrite length_app; lia|lia].
    + by apply Hfin.
  - rewrite Hk in *. change (1 =? SPROTO_TINTEGER) with false in *. change (1 =? SPROTO_TBOOLEAN) with true in *. cbv iota in *.
    destruct (boolean_loop_spec f t a h0 Hf Hk Ha Hty (S (Z.to_nat (len buf))) 0 buf self) as (r & h & self' & E & Hl & Hr); [lia|done|lia|done|].
    rewrite take_0 in E, Hl. cbn [bits map app] in E, Hl. rewrite Hk in E. change (4 + Z.of_nat 0) with 4 in E. change (1 + Z.of_nat 0) with 1 in E.
    rewrite <- Ed in E. rewrite E, bind_Ret. destruct Hr as [Hr Htop]. destruct Hr as [[-> Hneed]|(Hs' & -> & rest & ->)]; cbv iota.
    + eapply Hfail; [done|by rewrite Hl, <- Ed|apply Hneed|lia].
    + unfold bits in Hfin |- *. specialize (Hfin rest self' Hs'). rewrite length_map in Hfin. apply Hfin. rewrite !length_app in Hl. rewrite length_app. unfold bits in Hl. lia.
  - assert (Hk' : kind f = SPROTO_TSTRING \/ kind f = SPROTO_TSTRUCT) by (unfold SPROTO_TSTRING, SPROTO_TSTRUCT; lia).
    replace (kind f =? SPROTO_TINTEGER) with false in * by (symmetry; apply Z.eqb_neq; unfold SPROTO_TINTEGER; lia).
    replace (kind f =? SPROTO_TBOOLEAN) with false in * by (symmetry; apply Z.eqb_neq; unfold SPROTO_TBOOLEAN; lia).
    destruct (object_loop_spec f t a h0 Hf Hk' Ha Hty Hslots Hh (S (Z.to_nat (len buf))) 0 buf self) as (r & h & self' & E & Hl & Hr); [lia|done|lia|].
    cbv zeta in E, Hl. rewrite take_0 in E, Hl. change (objects f []) with (@nil Z) in E, Hl. cbn [app] in E, Hl. change (4 + len (@nil Z)) with 4 in E. change (1 + Z.of_nat 0) with 1 in E.
    rewrite <- Ed in E. rewrite E, bind_Ret. destruct Hr as [Hr Htop]. destruct Hr as [[-> Hneed]|(Hs' & -> & rest & ->)]; cbv iota.
    + eapply Hfail; [done|by rewrite Hl, <- Ed|apply Hneed|lia].
    + apply (Hfin rest self' Hs'). rewrite !length_app in Hl. rewrite length_app. unfold objects in Hl. lia.
Qed.

End array.

(** What encode_field does for a field. *)
Definition field_ok (f : field) (t : ltable) (data : bytes) (r : field_result) (data' : bytes) : Prop :=
  match enc_field sp enc f t with
  | None => (r = FSkip \/ r = FPut 0 0) /\ data' = data
  | Some (v, d) => if v =? 0 then r = FPut (len d) 0 /\ 0 < len d /\ exists rest, data' = d ++ rest
                   else r = FPut 2 v /\ d = [] /\ data' = data
  end.

Definition same_ud (f : field) (t : ltable) (self self' : encode_ud) : Prop :=
  e_tbl self' = t /\ e_iter self' = 0%nat /\ (e_array_tag self' = e_array_tag self \/ e_array_tag self' = name_at f).

(** How much a field raises the top of the stack. *)
Definition raise (f : field) : Z := if is_array f then 1 else 0.

Abbreviation need_f := (need_field sp need).

(** Four bytes for the length, and the data behind them. *)
Lemma put_framed d data need : len d + 4 <= len data -> exists r data',
  (data ← put data 4 d; fill_size data (len d)) = Ret (r, data') /\ fills need (framed d) r data data'.
Proof.
  intros Hl. rewrite put_over by lia. rewrite bind_Ret, (fill_size_ok (take (Z.to_nat 4) data)) by (rewrite length_take; lia).
  eexists _, _. split; [reflexivity|]. pose proof (length_framed d).
  split; [rewrite length_app, length_drop; lia|]. right. split; [done|by eexists].
Qed.

Lemma encode_integer_spec v data : exists r data', encode_integer v data (len data) = Ret (r, data') /\ fills 12 (framed (le4 v)) r data data'.
Proof.
  unfold encode_integer, SIZEOF_LENGTH. rewrite (proj2 (Z.leb_le 0 (len data))) by lia. cbn [andb]. destruct (Z.ltb_spec (len data) (4 + 4)) as [Hlt|Hge].
  { eexists _, _. split; [done|]. split; [done|]. left. split; [done|lia]. }
  apply (put_framed (le4 v)). rewrite length_le4. lia.
Qed.

Lemma encode_uint64_spec v data : exists r data', encode_uint64 v data (len data) = Ret (r, data') /\ fills 12 (framed (le8 v)) r data data'.
Proof.
  unfold encode_uint64, SIZEOF_LENGTH. rewrite (proj2 (Z.leb_le 0 (len data))) by lia. cbn [andb]. destruct (Z.ltb_spec (len data) (4 + 8)) as [Hlt|Hge].
  { eexists _, _. split; [done|]. split; [done|]. left. split; [done|lia]. }
  apply (put_framed (le8 v)). rewrite length_le8. lia.
Qed.

(** The absence of an array. *)
Lemma encode_noarray f t data self : of_schema f -> e_tbl self = t -> e_iter self = 0%nat -> e_array_tag self <> name_at f -> getfield t (fname f) = LNil -> e_top self + 1 <= ENCODE_STACK ->
  exists r self', encode_array cb (field_arg f (kind f)) data (len data) self = Ret (r, data, self') /\ same_ud f t self self' /\
    (r = 0 \/ r = -1 /\ len data < 8) /\ e_top self' <= e_top self + 1.
Proof.
  intros Hf Ht Hi Hne Hv Htop. destruct (schema_field f Hf) as [Hw _]. pose proof Hw as (_ & _ & [c Hc] & _).
  set (self' := EncodeUd t (name_at f) None 0 (match e_array self with Some _ => e_top self | None => e_top self + 1 end)).
  assert (Htop' : e_top self' <= e_top self + 1) by (cbn; destruct (e_array self); lia).
  assert (Hcb : forall v size, cb (set_value (field_arg f (kind f)) v size 1) self = Ret (SPROTO_CB_NOARRAY, v, self')).
  { intros v size. cbn [encode]. unfold fetch. cbn [a_tagname set_value field_arg a_index a_mainindex]. unfold self', name_at, fname in *. rewrite Hc in *. cbn [deref fmap option_fmap option_map] in *.
    rewrite bind_Ret. change (0 <? 1) with true. cbv iota. rewrite bool_decide_eq_false_2, slot_ok by done. rewrite Ht, Hv, Hi. by rewrite !bind_Ret. }
  assert (Hud : same_ud f t self self') by (split; [done|split; [done|by right]]).
  unfold encode_array, SIZEOF_LENGTH. destruct (Z.ltb_spec (len data) 4) as [|Hge].
  { exists (-1), self. split; [done|]. split; [|split; [right; split; [done|lia]|lia]]. split; [done|]. split; [done|by left]. }
  assert (Etd : take (Z.to_nat 4) data ++ skip 4 data = data) by apply take_drop.
  cbn [a_type field_arg]. destruct (kind f =? SPROTO_TINTEGER); [|destruct (kind f =? SPROTO_TBOOLEAN)].
  - unfold encode_integer_array. destruct (Z.ltb_spec (len data - 4) 1).
    { rewrite !bind_Ret. rewrite Etd. exists (-1), self. split; [done|]. split; [|split; [right; split; [done|lia]|lia]]. split; [done|]. split; [done|by left]. }
    cbn [integer_loop]. rewrite Hcb, !bind_Ret. change (SPROTO_CB_NOARRAY <=? 0) with true. change (SPROTO_CB_NOARRAY =? SPROTO_CB_NIL) with false.
    change (SPROTO_CB_NOARRAY =? SPROTO_CB_NOARRAY) with true. cbv iota. rewrite !bind_Ret, Z.eqb_refl, bind_Ret. rewrite Etd. exists 0, self'. split; [done|]. split; [done|split; [by left|done]].
  - cbn [boolean_loop]. rewrite Hcb, !bind_Ret. exists 0, self'. split; [done|]. split; [done|split; [by left|done]].
  - cbn [object_loop]. unfold SIZEOF_LENGTH. destruct (Z.ltb_spec (len data - 4) 4).
    { rewrite !bind_Ret. exists (-1), self. split; [done|]. split; [|split; [right; split; [done|lia]|lia]]. split; [done|]. split; [done|by left]. }
    rewrite Hcb, !bind_Ret. cbn [at_buffer]. rewrite bind_Ret. exists 0, self'. split; [|split; [done|split; [by left|done]]].
    change (take (Z.to_nat (4 + 4)) data ++ skip (4 + 4) data) with (take (Z.to_nat 8) data ++ drop (Z.to_nat 8) data). by rewrite take_drop.
Qed.

Lemma at_item_0 f t a self : e_tbl self = t -> e_iter self = 0%nat -> e_array_tag self <> name_at f -> at_item (e_top self + 1) f t a 0 self.
Proof. intros Ht Hi Hn. split; [done|]. split; [by destruct (0 <=? f_key f)|]. by left. Qed.

Lemma u32_small_int i : narrow i = true -> (u32 i <? 0x7fff) = ((0 <=? i) && (i <? 0x7fff)).
Proof.
  intros Hn%narrow_range. destruct (Z.leb_spec 0 i); cbn [andb]; [by rewrite u32_small by lia|].
  apply Z.ltb_ge. replace i with (i + 2 ^ 32 + (-1) * 2 ^ 32) by lia. unfold u32. rewrite Z.mod_add, Z.mod_small by lia. lia.
Qed.

(** A field that is no array and no object. *)
Lemma encode_scalar_spec f t data self : of_schema f -> is_array f = false -> kind f = SPROTO_TINTEGER \/ kind f = SPROTO_TBOOLEAN ->
  e_tbl self = t -> e_top self + 1 <= ENCODE_STACK -> typed_field sp typed f t ->
  exists r data', encode_single cb (field_arg f (kind f)) data (len data) self = Ret (r, data', self) /\ length data' = length data /\
    (field_ok f t data r data' \/ r = FPut (-1) 0 /\ len data < need_f f t).
Proof.
  intros Hf Hna Hk Ht Htop Hty. unfold encode_single. cbn [a_type field_arg].
  replace ((kind f =? SPROTO_TINTEGER) || (kind f =? SPROTO_TBOOLEAN)) with true by (symmetry; destruct Hk as [-> | ->]; done).
  rewrite (cb_single f (VLocal 0) 8 self Hf Htop), Ht. unfold typed_field in Hty. rewrite Hna in Hty. unfold field_ok, enc_field, need_field. rewrite Hna.
  destruct (getfield t (fname f)) as [|b|i| |s|a|] eqn:Ev; try (exfalso; cbn in Hty; unfold SPROTO_TINTEGER, SPROTO_TBOOLEAN, SPROTO_TSTRING, SPROTO_TSTRUCT in *; lia || done).
  - rewrite bind_Ret. change (SPROTO_CB_NIL <? 0) with true. change (SPROTO_CB_NIL =? SPROTO_CB_NIL) with true. cbv iota.
    eexists _, _. split; [done|]. split; [done|]. left. split; [by left|done].
  - cbn in Hty. unfold put_value. cbn [a_type set_value field_arg]. rewrite Hty. change (SPROTO_TBOOLEAN =? SPROTO_TINTEGER) with false.
    change (SPROTO_TBOOLEAN =? SPROTO_TBOOLEAN) with true. cbv iota. rewrite !bind_Ret. change (4 <? 0) with false. change (4 =? SIZEOF_INT32) with true. cbv iota.
    cbn [at_local]. rewrite bind_Ret. destruct b; eexists _, _; (split; [reflexivity|]); (split; [done|]); by left.
  - cbn in Hty. destruct Hty as [Hki _].
    rewrite (put_int _ f (VLocal 0) 8 0 i _ eq_refl (proj2 (schema_field f Hf)) Hki eq_refl).
    destruct (narrow i) eqn:En; rewrite !bind_Ret; cbn [at_local].
    + change (4 <? 0) with false. change (4 =? SIZEOF_INT32) with true. cbv iota. rewrite bind_Ret. replace (u32 (u32 i)) with (u32 i) by (unfold u32; by rewrite Z.mod_mod by lia).
      rewrite (u32_small_int i En). destruct (Z.leb_spec 0 i), (Z.ltb_spec i 0x7fff); cbn [andb].
      1:{ rewrite u32_small by lia. eexists _, _. split; [reflexivity|]. split; [done|]. left. by rewrite (proj2 (Z.eqb_neq _ _)) by lia. }
      all: destruct (encode_integer_spec (u32 i) data) as (r & data' & -> & Hl & Hr); rewrite bind_Ret; eexists _, _; (split; [reflexivity|]); (split; [done|]);
        unfold int_bytes; rewrite En; destruct Hr as [[-> Hn]|[-> Hr]]; [by right|left]; cbn [Z.eqb]; (split; [done|]); (split; [rewrite length_framed; lia|done]).
    + change (8 <? 0) with false. change (8 =? SIZEOF_INT32) with false. change (8 =? SIZEOF_INT64) with true. cbv iota. rewrite bind_Ret.
      replace ((0 <=? i) && (i <? 0x7fff)) with false.
      2:{ symmetry. apply andb_false_iff. destruct (Z.leb_spec 0 i); [right|by left]. apply Z.ltb_ge. destruct (Z.le_gt_cases 0x7fff i); [done|].
          assert (narrow i = true); [apply narrow_range; lia|congruence]. }
      destruct (encode_uint64_spec (u64 i) data) as (r & data' & -> & Hl & Hr). rewrite bind_Ret. eexists _, _. split; [reflexivity|]. split; [done|].
      unfold int_bytes. rewrite En. destruct Hr as [[-> Hn]|[-> Hr]]; [by right|left]. cbn [Z.eqb]. split; [done|]. split; [rewrite length_framed; lia|done].
Qed.

Lemma zmax_le {A} (g : A -> Z) l x : x ∈ l -> g x <= zmax (map g l).
Proof. induction 1 as [l|x y l _ IH]; cbn [map zmax foldr]; unfold zmax in *; lia. Qed.

Lemma encode_field_spec f t data self : of_schema f -> e_tbl self = t -> e_iter self = 0%nat -> e_array_tag self <> name_at f -> typed_field sp typed f t ->
  e_top self + raise f + 2 <= ENCODE_STACK -> e_top self + raise f + 2 + slots_f f t <= ENCODE_STACK ->
  exists r data' self', encode_field cb f data (len data) self = Ret (r, data', self') /\ length data' = length data /\
    (field_ok f t data r data' /\ same_ud f t self self' \/ r = FPut (-1) 0 /\ len data < need_f f t) /\ e_top self' <= e_top self + raise f.
Proof.
  intros Hf Ht Hi Hne Hty Htop Hslots. destruct (schema_field f Hf) as [Hw _]. assert (Hself : same_ud f t self self) by (split; [done|split; [done|by left]]).
  unfold encode_field, raise, slots_field in *. fold (is_array f). fold (kind f). destruct (is_array f) eqn:Harr.
  - pose proof Hty as Hty'. unfold typed_field in Hty'. rewrite Harr in Hty'. destruct (getfield t (fname f)) as [| | | | |a|] eqn:Ev; try (by destruct Hty' as (? & ? & ?)).
    + destruct (encode_noarray f t data self Hf Ht Hi Hne Ev ltac:(lia)) as (r & self' & -> & Hud & Hr & Htop'). rewrite bind_Ret. eexists _, _, _. split; [reflexivity|]. split; [done|]. split; [|done].
      unfold field_ok, enc_field, need_field. rewrite Ev. destruct Hr as [-> |[-> ?]]; [left; split; [split; [by right|done]|done]|by right].
    + destruct Hty' as (a' & [= <-] & Hitems & _). destruct (encode_array_spec (e_top self + 1) ltac:(lia) f t a data self Hf Ev Hitems) as (r & data' & self' & -> & [Hl Hr] & Hs' & Htop'); [|by apply at_item_0|].
      { apply Forall_forall. intros v Hv. pose proof (zmax_le (slots_v f) _ v Hv). lia. }
      rewrite bind_Ret. eexists _, _, _. split; [reflexivity|]. split; [done|]. split; [|done]. unfold field_ok, enc_field, need_field. rewrite Ev, Harr.
      destruct Hr as [[-> Hn]|[-> Hr]]; [right; split; [done|]; exact Hn|left]. change (0 =? 0) with true. cbv iota.
      split; [split; [done|]; split; [rewrite length_framed; lia|done]|]. destruct Hs' as (? & ? & ? & _); [lia|]. split; [done|]. split; [done|by right].
  - rewrite (type_single f _ Hw Harr). destruct (decide (kind f = SPROTO_TINTEGER \/ kind f = SPROTO_TBOOLEAN)) as [Hk|Hk].
    { destruct (encode_scalar_spec f t data self Hf Harr Hk Ht ltac:(lia) Hty) as (r & data' & -> & Hl & Hr). exists r, data', self. split; [done|]. split; [done|]. split; [|lia].
      destruct Hr; [by left|by right]. }
    assert (Hk' : kind f = SPROTO_TSTRING \/ kind f = SPROTO_TSTRUCT).
    { destruct (kind_range f _ Hw) as [Hk'|[Hk'|Hk']]; unfold SPROTO_TINTEGER, SPROTO_TBOOLEAN, SPROTO_TSTRING, SPROTO_TSTRUCT in *; lia. }
    unfold encode_single. cbn [a_type field_arg]. replace ((kind f =? SPROTO_TINTEGER) || (kind f =? SPROTO_TBOOLEAN)) with false by (symmetry; destruct Hk' as [-> | ->]; done).
    replace ((kind f =? SPROTO_TSTRUCT) || (kind f =? SPROTO_TSTRING)) with true by (symmetry; destruct Hk' as [-> | ->]; done).
    unfold typed_field in Hty. rewrite Harr in Hty. set (v := getfield t (fname f)) in *.
    destruct (encode_object_spec f t data self v Hf Ht eq_refl) as (r & data' & -> & Hr).
    { clearbody v. destruct v; auto; right; split; auto. }
    { lia. }
    { lia. }
    rewrite bind_Ret. eexists _, _, _. split; [reflexivity|]. unfold field_ok, enc_field, need_field. fold v. rewrite Harr. destruct (decide (r = 0)) as [->|Hr0].
    + destruct Hr as [-> ->]. split; [done|]. split; [|lia]. left. split; [|done]. split; [by right|done].
    + destruct Hr as [[Hl Hr] Hnil]. split; [done|]. split; [|lia]. clearbody v.
      destruct v as [|b|i|x|s|a|x]; try (exfalso; cbn in Hty; unfold SPROTO_TINTEGER, SPROTO_TBOOLEAN, SPROTO_TSTRING, SPROTO_TSTRUCT in *; lia || done).
      * right. rewrite (Hnil eq_refl). split; [done|]. destruct Hr as [[_ Hr]|[-> _]]; [cbn in Hr; lia|]. specialize (Hnil eq_refl). rewrite length_framed in Hnil. lia.
      * destruct Hr as [[-> Hn]|[-> Hr]]; [right; split; [done|exact Hn]|left]. change (0 =? 0) with true. cbv iota. split; [|done]. split; [done|]. split; [rewrite length_framed; lia|exact Hr].
      * destruct Hr as [[-> Hn]|[-> Hr]]; [right; split; [done|exact Hn]|left]. change (0 =? 0) with true. cbv iota. split; [|done]. split; [done|]. split; [rewrite length_framed; lia|exact Hr].
Qed.

(** *** The header *)

Definition record_words (gap value : Z) : list Z := (if 0 <? gap then [(gap - 1) * 2 + 1] else []) ++ [value].
Definition le2s (ws : list Z) : bytes := concat (map le2 ws).

Lemma le2s_app ws ws' : le2s (ws ++ ws') = le2s ws ++ le2s ws'.
Proof. unfold le2s. by rewrite map_app, concat_app. Qed.

Lemma put_word A room tail w off : off = len A -> (2 <= length room)%nat -> put (A ++ room ++ tail) off (le2 w) = Ret ((A ++ le2 w) ++ drop 2 room ++ tail).
Proof.
  intros Ho Hr. rewrite put_at by (rewrite ?length_app; cbn [le2 length]; lia). change (length (le2 w)) with 2%nat.
  rewrite drop_app_le by lia. by rewrite <- app_assoc.
Qed.

Lemma put_record_spec A room tail index gap value : len A = 2 + 2 * index -> gap <= 32767 -> (2 * length (record_words gap value) <= length room)%nat ->
  put_record (A ++ room ++ tail) index gap value =
    Ret (index + len (record_words gap value), (A ++ le2s (record_words gap value)) ++ drop (2 * length (record_words gap value)) room ++ tail).
Proof.
  intros HA Hg Hr. unfold put_record, record_words, SIZEOF_HEADER, SIZEOF_FIELD in *. destruct (Z.ltb_spec 0 gap) as [H0|H0]; cbn [app length] in *.
  - rewrite (proj2 (Z.ltb_ge 0xffff _)) by lia. rewrite put_word by lia. rewrite bind_Ret.
    rewrite put_word by (rewrite ?length_app, ?length_drop; cbn [le2 length]; lia). rewrite bind_Ret, drop_drop.
    unfold le2s. cbn [map concat]. rewrite app_nil_r, <- !app_assoc. f_equal.
  - rewrite put_word by lia. rewrite bind_Ret. unfold le2s. cbn [map concat]. by rewrite app_nil_r.
Qed.

Definition field_words (last : Z) (fs : list (Z * (Z * bytes))) : list Z := words last (map (fun e => (e.1, e.2.1)) fs).
Definition field_data (fs : list (Z * (Z * bytes))) : bytes := concat (map (fun e => e.2.2) fs).
Abbreviation enc_fs fs t := (enc_fields sp enc fs t).
Definition need_fs (fs : list field) (t : ltable) : Z := zsum (map (fun f => need_f f t) fs).

Lemma field_words_cons last f fs t v d : enc_field sp enc f t = Some (v, d) ->
  field_words last (enc_fs (f :: fs) t) = record_words (f_tag f - last - 1) v ++ field_words (f_tag f) (enc_fs fs t) /\
  field_data (enc_fs (f :: fs) t) = d ++ field_data (enc_fs fs t).
Proof.
  intros E. unfold field_words, field_data, enc_fields, record_words. cbn [omap list_omap]. rewrite E. cbn [fmap option_fmap option_map map words concat].
  split; [by rewrite <- app_assoc|done].
Qed.

Lemma field_words_none last f fs t : enc_field sp enc f t = None ->
  field_words last (enc_fs (f :: fs) t) = field_words last (enc_fs fs t) /\ field_data (enc_fs (f :: fs) t) = field_data (enc_fs fs t).
Proof. intros E. unfold field_words, field_data, enc_fields. cbn [omap list_omap]. by rewrite E. Qed.

Lemma need_f_le f t v d : enc_field sp enc f t = Some (v, d) -> len d <= need_f f t.
Proof. intros E. apply (enc_field_le sp enc need) in E; [done|]. intros g t'. apply enc_le_need, subtype_cases. done. Qed.

Lemma need_f_nonneg f t : 0 <= need_f f t.
Proof. apply need_field_nonneg. intros g v. by apply need_object_nonneg. Qed.

Lemma encode_fields_spec t fs : Forall of_schema fs -> Forall (fun f => typed_field sp typed f t) fs -> NoDup (map name_at fs) ->
  forall A room D rest index last self M, -1 <= last -> e_top self + arrays fs <= M -> M + 2 <= ENCODE_STACK -> Forall (fun f => M + 2 + slots_f f t <= ENCODE_STACK) fs -> e_tbl self = t -> e_iter self = 0%nat -> Forall (fun g => e_array_tag self <> name_at g) fs ->
  len A = 2 + 2 * index -> 0 <= index -> (2 * length (field_words last (enc_fs fs t)) <= length room)%nat ->
  exists r h self', encode_fields cb fs (A ++ room ++ D ++ rest) (len (A ++ room ++ D)) (len rest) index last self = Ret (r, h, self') /\
    length h = length (A ++ room ++ D ++ rest) /\
    (r = inl (-1) /\ len rest < need_fs fs t \/
     r = inr (len (A ++ room ++ D) + len (field_data (enc_fs fs t)), index + len (field_words last (enc_fs fs t))) /\
     exists rest', h = (A ++ le2s (field_words last (enc_fs fs t))) ++ drop (2 * length (field_words last (enc_fs fs t))) room ++ (D ++ field_data (enc_fs fs t)) ++ rest') /\
    e_top self' <= M.
Proof.
  intros Hof. induction Hof as [|f fs Hf Hof IH]; intros Hty Hnd A room D rest index last self M Hlast Htop HM Hslots Ht Hi Htag HA Hidx Hroom.
  { exists (inr (len (A ++ room ++ D), index)), (A ++ room ++ D ++ rest), self. cbn [encode_fields]. split; [done|]. split; [done|]. cbn in Htop. split; [|unfold arrays in Htop; cbn in Htop; lia]. right. cbn.
    rewrite !Z.add_0_r, !app_nil_r. split; [done|]. by exists rest. }
  apply Forall_cons in Hty as [Htyf Hty]. apply Forall_cons in Htag as [Htagf Htag]. cbn [map] in Hnd. apply NoDup_cons in Hnd as [Hnf Hnd].
  apply Forall_cons in Hslots as [Hslotf Hslots]. assert (Harr : arrays (f :: fs) = raise f + arrays fs) by (unfold arrays, raise; cbn [List.filter]; destruct (is_array f); cbn [length]; lia).
  assert (Harr0 : 0 <= arrays fs) by (unfold arrays; lia).
  cbn [encode_fields]. set (pre := A ++ room ++ D).
  assert (Hpre : A ++ room ++ D ++ rest = pre ++ rest) by (unfold pre; by rewrite <- !app_assoc).
  replace (skip (len pre) (A ++ room ++ D ++ rest)) with rest by (rewrite Hpre; unfold skip; rewrite Nat2Z.id; by rewrite drop_app_length).
  destruct (encode_field_spec f t rest self Hf Ht Hi Htagf Htyf) as (r & data' & self' & -> & Hl & Hr & Htop'); [lia|lia|]. rewrite bind_Ret.
  replace (take (Z.to_nat (len pre)) (A ++ room ++ D ++ rest)) with pre by (rewrite Hpre, Nat2Z.id; by rewrite take_app_length).
  pose proof (need_f_nonneg f t) as Hnf0. assert (Hneed : need_fs (f :: fs) t = need_f f t + need_fs fs t) by done.
  assert (Hfs0 : 0 <= need_fs fs t) by (unfold need_fs; apply zsum_nonneg; intros g; apply need_f_nonneg).
  destruct Hr as [[Hr Hud]|[-> Hfail]].
  2:{ exists (inl (-1)), (pre ++ data'), self'. split; [done|]. split; [rewrite Hpre, !length_app; lia|]. split; [|lia]. left. split; [done|lia]. }
  destruct Hud as (Ht' & Hi' & Htag'). assert (Htag2 : Forall (fun g => e_array_tag self' <> name_at g) fs).
  { apply Forall_forall. intros g Hg. rewrite Forall_forall in Htag. destruct Htag' as [-> | ->]; [by apply Htag|]. intros E. apply Hnf. rewrite E. by apply list_elem_of_fmap_2. }
  assert (Hftag : 0 <= f_tag f <= 32766) by (by destruct (schema_field f Hf) as [(? & _) _]).
  unfold field_ok in Hr. destruct (enc_field sp enc f t) as [[v d]|] eqn:Ef.
  - destruct (field_words_cons last f fs t v d Ef) as [Ew Ed]. rewrite Ew in Hroom. rewrite length_app in Hroom. rewrite Ew, Ed.
    pose proof (need_f_le f t v d Ef) as Hdle. set (w := record_words (f_tag f - last - 1) v) in *.
    assert (Hstep : forall D2 rest2, len D2 + len rest2 = len D + len rest -> D2 = D ++ d ->
      exists r h self'', ('(index0, header) ← put_record (A ++ room ++ D2 ++ rest2) index (f_tag f - last - 1) v;
          if index0 <? 0 then Ret (inl (-1), header, self') else encode_fields cb fs header (len (A ++ room ++ D2)) (len rest2) index0 (f_tag f) self') = Ret (r, h, self'') /\
        length h = length (A ++ room ++ D ++ rest) /\
        (r = inl (-1) /\ len rest < need_fs (f :: fs) t \/
         r = inr (len pre + len (d ++ field_data (enc_fs fs t)), index + len (w ++ field_words (f_tag f) (enc_fs fs t))) /\
         exists rest', h = (A ++ le2s (w ++ field_words (f_tag f) (enc_fs fs t))) ++ drop (2 * length (w ++ field_words (f_tag f) (enc_fs fs t))) room ++ (D ++ d ++ field_data (enc_fs fs t)) ++ rest') /\
        e_top self'' <= M).
    { intros D2 rest2 Hlen ->. rewrite put_record_spec by (fold w; lia). fold w. rewrite bind_Ret. rewrite (proj2 (Z.ltb_ge (index + _) 0)) by lia.
      assert (Hl2 : length (le2s w) = (2 * length w)%nat) by apply length_le2s.
      replace (len (A ++ room ++ D ++ d)) with (len ((A ++ le2s w) ++ drop (2 * length w) room ++ D ++ d)) by (rewrite !length_app, length_drop; lia).
      destruct (IH Hty Hnd (A ++ le2s w) (drop (2 * length w) room) (D ++ d) rest2 (index + len w) (f_tag f) self' M) as (rr & hh & self'' & E & Hlh & Hr' & Htop2);
        [lia|lia|done|done|done|done|done|rewrite length_app; lia|lia|rewrite length_drop; lia|].
      exists rr, hh, self''. split; [exact E|]. split; [rewrite Hlh, !length_app, length_drop; rewrite !length_app in Hlen; lia|]. split; [|done].
      destruct Hr' as [[-> Hfail]|[-> [rest' ->]]]; [left; split; [done|]; rewrite length_app in Hlen; lia|right].
      split.
      + do 2 f_equal; [|rewrite length_app; lia]. unfold pre. rewrite !length_app, length_drop. lia.
      + exists rest'. rewrite le2s_app, length_app, drop_drop, Nat.mul_add_distr_l, <- !app_assoc. done. }
    destruct (Z.eqb_spec v 0) as [->|Hv].
    + destruct Hr as (-> & Hpos & rest2 & ->). rewrite (proj2 (Z.ltb_ge (len d) 0)), (proj2 (Z.ltb_lt 0 (len d))) by lia. change (0 =? 0) with true. cbv iota.
      rewrite length_app in Hl. destruct (Hstep (D ++ d) rest2) as (rr & hh & self'' & E & Hrest); [rewrite length_app; lia|done|]. exists rr, hh, self''.
      replace (pre ++ d ++ rest2) with (A ++ room ++ (D ++ d) ++ rest2) by (unfold pre; by rewrite <- !app_assoc).
      replace (len pre + len d) with (len (A ++ room ++ D ++ d)) by (unfold pre; rewrite !length_app; lia). replace (len rest - len d) with (len rest2) by lia. done.
    + destruct Hr as (-> & -> & ->). change (2 <? 0) with false. change (0 <? 2) with true. cbv iota. rewrite (proj2 (Z.eqb_neq v 0)) by done.
      destruct (Hstep (D ++ []) rest) as (rr & hh & self'' & E & Hrest); [rewrite app_nil_r; lia|done|]. exists rr, hh, self''.
      rewrite app_nil_r in E. unfold pre. rewrite <- !app_assoc. done.
  - destruct (field_words_none last f fs t Ef) as [Ew Ed]. rewrite Ew in Hroom. rewrite Ew, Ed. destruct Hr as [Hr ->].
    destruct (IH Hty Hnd A room D rest index last self' M) as (r' & h & self'' & E & Hlh & Hr' & Htop2); [done|lia|done|done|done|done|done|done|done|done|].
    exists r', h, self''. split; [destruct Hr as [-> | ->]; cbn; rewrite <- Hpre; exact E|]. split; [done|]. split; [|done]. destruct Hr' as [[-> ?]|?]; [left; split; [done|lia]|by right].
Qed.

Lemma sproto_encode_spec st t p top : st ∈ s_type sp -> Forall (fun f => typed_field sp typed f t) (st_f st) ->
  top + slots_struct sp (slots_table sp n) st t <= ENCODE_STACK ->
  exists r p' u, sproto_encode cb st p (len p) (EncodeUd t None None 0 top) = Ret (r, p', u) /\ fills (need_struct sp need st t) (enc_struct sp enc st t) r p p' /\
    e_top u + 2 <= ENCODE_STACK.
Proof.
  intros Hst Hty Htop. unfold slots_struct in Htop. assert (Hz : 0 <= zmax (map (fun f => slots_f f t) (st_f st))) by (unfold zmax; generalize (map (fun f => slots_f f t) (st_f st)); intros l; induction l; cbn; lia).
  assert (Harr0 : 0 <= arrays (st_f st)) by (unfold arrays; lia). destruct Hplain as [(_ & _ & Htypes & _) _]. pose proof (proj1 (Forall_forall _ _) Htypes st Hst) as Hw.
  pose proof (maxn_nonneg sp st Hplain Hst) as Hmax. pose proof (header_words_bound sp enc (s_type_n sp) st t Hw) as Hwords.
  assert (Hfs : 0 <= need_fs (st_f st) t) by (unfold need_fs; apply zsum_nonneg; intros g; apply need_f_nonneg).
  assert (En : need_struct sp need st t = 2 + st_maxn st * 2 + need_fs (st_f st) t) by done.
  unfold sproto_encode, SIZEOF_HEADER, SIZEOF_FIELD. destruct (Z.ltb_spec (len p) (2 + st_maxn st * 2)) as [Hlt|Hge].
  { eexists _, _, _. split; [done|]. split; [|cbn; lia]. split; [done|]. left. split; [done|lia]. }
  set (k := Z.to_nat (st_maxn st * 2)). set (A := take 2 p). set (room := take k (drop 2 p)). set (rest := drop (2 + k) p).
  assert (Ep : p = A ++ room ++ rest) by (unfold A, room, rest; rewrite <- drop_drop, take_drop, take_drop; done).
  assert (HA : length A = 2%nat) by (unfold A; rewrite length_take; lia). assert (Hroom : length room = k) by (unfold room; rewrite length_take, length_drop; lia).
  assert (Hrest : len rest = len p - (2 + st_maxn st * 2)) by (unfold rest; rewrite length_drop; lia).
  change (header_words (enc_fs (st_f st) t)) with (field_words (-1) (enc_fs (st_f st) t)) in Hwords.
  destruct Hw as (_ & _ & Hwf & _ & Hnd & _).
  destruct (encode_fields_spec t (st_f st)) with (A := A) (room := room) (D := @nil Z) (rest := rest) (index := 0) (last := -1) (self := EncodeUd t None None 0 top) (M := top + arrays (st_f st))
    as (r & h & u & E & Hl & Hr & Htopu); try done; try lia.
  { apply Forall_forall. intros f Hf. by exists st. }
  { apply Forall_forall. intros f Hf. pose proof (zmax_le (fun f => slots_f f t) _ f Hf). cbv beta in *. lia. }
  { eapply Forall_impl; [exact Hwf|]. intros f (_ & _ & [c Hc] & _). unfold name_at. by rewrite Hc. }
  cbn [app] in E, Hl. rewrite app_nil_r in E. rewrite <- Ep in E, Hl. replace (len (A ++ room)) with (2 + st_maxn st * 2) in E by (rewrite length_app; lia).
  rewrite <- Hrest, E, bind_Ret. destruct Hr as [[-> Hfail]|[-> [rest' ->]]].
  { eexists _, _, _. split; [done|]. split; [|lia]. split; [done|]. left. split; [done|lia]. }
  cbn [app]. rewrite app_nil_r. replace (len (A ++ room)) with (2 + st_maxn st * 2) by (rewrite length_app; lia). rewrite Z.add_0_l.
  set (ws := field_words (-1) (enc_fs (st_f st) t)) in *. set (ds := field_data (enc_fs (st_f st) t)) in *. set (room' := drop (2 * length ws) room) in *.
  cbn [app] in Hl. rewrite !length_app in Hl.
  assert (Hroom' : len room' = st_maxn st * 2 - 2 * len ws) by (unfold room'; rewrite length_drop; lia).
  rewrite <- !app_assoc. rewrite put_front by (rewrite !length_app, HA; cbn [le2 length]; lia). rewrite bind_Ret, drop_app_length' by (by rewrite HA).
  assert (Hl2 : len (le2s ws) = 2 * len ws) by (unfold le2s; rewrite length_le2s; lia).
  replace (2 + st_maxn st * 2 + len ds - (2 + st_maxn st * 2)) with (len ds) by lia.
  assert (Hfinal : exists rest2, (if negb (len ws =? st_maxn st)
    then memcpy (le2 (len ws) ++ le2s ws ++ room' ++ ds ++ rest') (2 + len ws * 2) (skip (2 + st_maxn st * 2) (le2 (len ws) ++ le2s ws ++ room' ++ ds ++ rest')) (len ds)
    else Ret (le2 (len ws) ++ le2s ws ++ room' ++ ds ++ rest')) = Ret (enc_struct sp enc st t ++ rest2) /\ length (enc_struct sp enc st t ++ rest2) = length p).
  { unfold enc_struct. change (header_words (enc_fields sp enc (st_f st) t)) with ws. change (concat (map le2 ws)) with (le2s ws).
    change (concat (map _ (enc_fields sp enc (st_f st) t))) with ds. set (hw := le2 (len ws)) in *. assert (Hhw : length hw = 2%nat) by done.
    destruct (Z.eqb_spec (len ws) (st_maxn st)) as [Heq|Hne]; cbn [negb].
    - assert (room' = []) as -> by (apply length_zero_iff_nil; lia). exists rest'. cbn [app length] in *. rewrite <- !app_assoc. split; [done|]. rewrite !length_app. lia.
    - assert (Hskip : skip (2 + st_maxn st * 2) (hw ++ le2s ws ++ room' ++ ds ++ rest') = ds ++ rest').
      { unfold skip. rewrite app_assoc, (app_assoc _ room'). apply drop_app_length'. rewrite !length_app. lia. }
      rewrite Hskip, (app_assoc hw). set (mem := room' ++ ds ++ rest'). exists (drop (length ds) mem). rewrite <- (take_drop (length ds) mem) at 1.
      rewrite memcpy_mid; [|rewrite length_app; lia|unfold mem; rewrite length_take, !length_app; lia|rewrite length_app; lia].
      rewrite Nat2Z.id, take_app_length. rewrite <- !app_assoc. split; [done|]. unfold mem. rewrite !length_app, length_drop, !length_app. lia. }
  destruct Hfinal as (rest2 & -> & Hlen). rewrite bind_Ret. eexists _, _, _. split; [done|]. split; [|lia]. split; [done|]. right. split; [|by eexists].
  unfold enc_struct. change (header_words (enc_fields sp enc (st_f st) t)) with ws. change (concat (map le2 ws)) with (le2s ws).
  change (concat (map _ (enc_fields sp enc (st_f st) t))) with ds. rewrite !length_app. change (length (le2 _)) with 2%nat. lia.
Qed.
End step.

(** ** Tables *)

Lemma encode_table tonumber tostring sp n st t p top : plain sp -> st ∈ s_type sp -> typed_table sp n st t -> top + slots_table sp n st t <= ENCODE_STACK ->
  exists r p' u, sproto_encode (encode tonumber tostring sp n) st p (len p) (EncodeUd t None None 0 top) = Ret (r, p', u) /\
    fills (need_table sp n st t) (enc_table sp n st t) r p p' /\ e_top u + 2 <= ENCODE_STACK.
Proof.
  intros Hp. revert st t p top. induction n as [|n IH]; intros st t p top Hst Hty Htop; [done|]. cbn [typed_table need_table enc_table slots_table] in *.
  apply sproto_encode_spec; [done| |done|done|done]. intros st' t' p' top' Hst' Hty' Htop'.
  destruct (IH st' t' p' top' Hst' Hty' Htop') as (r & q & u & ? & ? & _). by exists r, q, u.
Qed.

(** The buffer is doubled until the table fits, or is too large. *)
Lemma lencode_loop_spec tonumber tostring junk sp st t : plain sp -> st ∈ s_type sp -> typed_table sp ENCODE_DEEPLEVEL st t ->
  3 + slots_table sp ENCODE_DEEPLEVEL st t <= ENCODE_STACK ->
  forall fuel buffer sz, len buffer = sz -> 1 <= sz -> ENCODE_MAXSIZE < sz * 2 ^ (Z.of_nat fuel - 1) \/ (ENCODE_MAXSIZE < sz /\ (0 < fuel)%nat) ->
  (exists buffer', lencode_loop tonumber tostring junk sp fuel st t buffer sz = Ret (enc_table sp ENCODE_DEEPLEVEL st t, buffer') /\
     len (fst buffer') = snd buffer' /\ len (enc_table sp ENCODE_DEEPLEVEL st t) <= snd buffer' <= Z.max sz ENCODE_MAXSIZE) \/
  lencode_loop tonumber tostring junk sp fuel st t buffer sz = LuaError "object is too large" /\ ENCODE_MAXSIZE < 2 * need_table sp ENCODE_DEEPLEVEL st t.
Proof.
  intros Hp Hst Hty Hslots. induction fuel as [|fuel IH]; intros buffer sz Hl Hsz Hf.
  { exfalso. destruct Hf as [Hf|[_ Hf]]; [|lia]. change (Z.of_nat 0 - 1) with (-1) in Hf. cbn in Hf. unfold ENCODE_MAXSIZE in Hf. lia. }
  cbn [lencode_loop]. destruct (encode_table tonumber tostring sp ENCODE_DEEPLEVEL st t buffer 3 Hp Hst Hty Hslots) as (r & p & u & E & [Hlp Hr] & Htop).
  rewrite Hl in E. rewrite E, bind_Ret. destruct Hr as [[-> Hneed]|[-> [rest ->]]].
  - change (-1 <? 0) with true. cbv iota. rewrite slot_ok, bind_Ret by done. unfold expand_buffer.
    assert (Ee : expand_loop 64 sz (sz * 2) = sz * 2) by (cbn [expand_loop]; by rewrite (proj2 (Z.ltb_ge (sz * 2) (sz * 2))) by lia). rewrite Ee.
    destruct (Z.ltb_spec ENCODE_MAXSIZE (sz * 2)) as [Hbig|Hok]; [right; split; [done|lia]|]. rewrite bind_Ret.
    destruct (IH (newuserdata junk (sz * 2)) (sz * 2)) as [(b & Eb & Hb)|Hf']; [unfold newuserdata; rewrite length_map, length_seq; lia|lia| |left; exists b; split; [exact Eb|split; [apply Hb|lia]]|by right].
    destruct Hf as [Hf|[Hf _]]; [|lia]. left. destruct fuel as [|fuel]; [cbn in Hf; lia|].
    replace (Z.of_nat (S (S fuel)) - 1) with (1 + (Z.of_nat (S fuel) - 1)) in Hf by lia. rewrite Z.pow_add_r in Hf by lia. lia.
  - rewrite (proj2 (Z.ltb_ge _ 0)) by lia. left. rewrite Nat2Z.id, take_app_length. eexists. split; [done|]. cbn [fst snd]. rewrite length_app in Hlp |- *. lia.
Qed.
