(* ===== verification/SprotoDecode.v ===== *)
(** [sproto_decode] with the callback of lsproto.c reads the encoding of a table back. *)
From S2P Require Import Prelude Sproto SprotoType SprotoCode SprotoSpec SprotoBuffer SprotoEncode.

#[local] Arguments Z.mul : simpl never.
#[local] Arguments Z.add : simpl never.
#[local] Opaque Z.to_nat.

(** ** Reading *)

Lemma le4_word4 v : le4 v = [u8 (u32 v); u8 (Z.shiftr (u32 v) 8); u8 (Z.shiftr (u32 v) 16); u8 (Z.shiftr (u32 v) 24)].
Proof. rewrite <- le4_u32. unfold le4. change 0xff with (Z.ones 8). by rewrite !Z.land_ones by lia. Qed.

Lemma todword_le4 v tail : todword (le4 v ++ tail) = Ret (u32 v).
Proof.
  rewrite le4_word4. unfold todword. cbn [app]. change (arr_get (?a :: ?b :: ?c :: ?d :: tail) 0) with (Ret a).
  change (arr_get (?a :: ?b :: ?c :: ?d :: tail) 1) with (Ret b). change (arr_get (?a :: ?b :: ?c :: ?d :: tail) 2) with (Ret c).
  change (arr_get (?a :: ?b :: ?c :: ?d :: tail) 3) with (Ret d). rewrite !bind_Ret. rewrite lor_word4 by (apply u8_word).
  rewrite word4_u8 by apply u32_word. f_equal. unfold u32. by rewrite Z.mod_mod by lia.
Qed.

Lemma toword_le2 w tail : 0 <= w < 65536 -> toword (le2 w ++ tail) = Ret w.
Proof.
  intros Hw. unfold toword, le2. cbn [app]. change (arr_get (?a :: ?b :: tail) 0) with (Ret a). change (arr_get (?a :: ?b :: tail) 1) with (Ret b).
  rewrite !bind_Ret. change 0xff with (Z.ones 8). rewrite !Z.land_ones by lia. rewrite lor_shiftl_add; [|lia|apply Z.mod_pos_bound; lia|apply Z.mod_pos_bound; lia].
  rewrite Z.shiftr_div_pow2 by lia. f_equal. rewrite (Z.mod_small (w / 2 ^ 8)) by (change (2 ^ 8) with 256; split; [apply Z.div_pos; lia|apply Z.div_lt_upper_bound; lia]).
  pose proof (Z.div_mod w (2 ^ 8) ltac:(lia)). lia.
Qed.

Lemma skip_app a b k : k = len a -> skip k (a ++ b) = b.
Proof. intros ->. unfold skip. rewrite Nat2Z.id. apply drop_app_length. Qed.

Lemma get_int32_narrow i tail : narrow i = true -> get_int32 (le4 (u32 i) ++ tail) = Ret (u64 i).
Proof.
  intros Hn%narrow_range. unfold get_int32. rewrite todword_le4, bind_Ret. f_equal. unfold expand64. replace (u32 (u32 i)) with (u32 i) by (unfold u32; by rewrite Z.mod_mod by lia).
  change 0x80000000 with (2 ^ 31). rewrite land_pow2_bit, u32_testbit by lia. destruct (Z.ltb_spec i 0).
  - replace (Z.testbit i 31) with true.
    2:{ symmetry. apply Z.testbit_true; [lia|]. replace (i / 2 ^ 31) with (-1); [done|]. apply Zdiv_unique with (i + 2 ^ 31); lia. }
    change (negb (2 ^ 31 =? 0)) with true. cbv iota. change 0xffffffff00000000 with (Z.shiftl (2 ^ 32 - 1) 32). rewrite lor_shiftl_add; [|lia|apply u32_range|lia].
    replace (u32 i) with (i + 2 ^ 32) by (unfold u32; apply Zmod_unique with (-1); lia). unfold u64. apply Zmod_unique with (-1); lia.
  - rewrite (word_testbit 31) by (unfold word; lia). change (negb (0 =? 0)) with false. cbv iota. rewrite u32_small, u64_small by lia. done.
Qed.

Lemma get_int64_ok i tail : get_int64 (le8 (u64 i) ++ tail) = Ret (u64 i).
Proof.
  unfold get_int64, le8. rewrite <- app_assoc, todword_le4, bind_Ret. rewrite skip_app by done. rewrite todword_le4, bind_Ret. f_equal.
  assert (Hr : 0 <= u64 i < 2 ^ 64) by (apply Z.mod_pos_bound; lia). set (v := u64 i) in *. clearbody v. rewrite Z.shiftr_div_pow2 by lia.
  rewrite (u32_small (v / 2 ^ 32)) by (split; [apply Z.div_pos; lia|apply Z.div_lt_upper_bound; lia]).
  rewrite lor_shiftl_add; [|lia|apply u32_range|apply Z.div_pos; lia]. unfold u32. pose proof (Z.div_mod v (2 ^ 32) ltac:(lia)). lia.
Qed.

Lemma s64_u64 i : - 2 ^ 63 <= i < 2 ^ 63 -> s64 (u64 i) = i.
Proof.
  intros Hi. unfold s64, u64. rewrite Zplus_mod_idemp_l. rewrite Z.mod_small by lia. lia.
Qed.

(** ** Tables that are built *)

Definition fresh_key (t : ltable) (k : lval) : Prop := Forall (fun e => key_eqb e.1 k = false) t.

Lemma rawset_fresh t k v : fresh_key t k -> rawset t k v = t ++ [(k, v)].
Proof. induction 1 as [|[k' v'] t Hk Ht IH]; [done|]. cbn in *. by rewrite Hk, IH. Qed.

Lemma rawset_last t k v v' : fresh_key t k -> key_eqb k k = true -> rawset (t ++ [(k, v)]) k v' = t ++ [(k, v')].
Proof. intros Ht Hk. induction Ht as [|[k' w] t Hk' Ht IH]; cbn in *; [by rewrite Hk|]. by rewrite Hk', IH. Qed.

Lemma getfield_last t name v : fresh_key t (LStr name) -> getfield (t ++ [(LStr name, v)]) name = v.
Proof.
  induction 1 as [|[k' w] t Hk' Ht IH]; cbn in *; [by rewrite bool_decide_eq_true_2|]. destruct k'; try done. apply bool_decide_eq_false in Hk'. by rewrite bool_decide_eq_false_2.
Qed.

Lemma key_eqb_str s : key_eqb (LStr s) (LStr s) = true.
Proof. cbn. by apply bool_decide_eq_true_2. Qed.

Lemma fresh_key_app t k' v k : fresh_key t k -> key_eqb k' k = false -> fresh_key (t ++ [(k', v)]) k.
Proof. intros Ht Hk. apply Forall_app. split; [done|]. by constructor. Qed.

(** ** Values *)

Section step.
Context (sp : sproto) (n : nat).
Hypothesis Hplain : plain sp.

Abbreviation cb := (decode sp (S n)).
Abbreviation typed := (typed_table sp n).
Abbreviation enc := (enc_table sp n).
Abbreviation norm := (norm_table sp n).
Abbreviation typed_v := (typed_value sp typed).
Abbreviation enc_o := (enc_object sp enc).
Abbreviation norm_v := (norm_value sp norm).
Abbreviation norm_a := (norm_array sp norm).

(** The value that is kept for the main index: that of the field with this tag. *)
Definition key_step (main : Z) (t : ltable) (key : lval) (f : field) : lval :=
  if negb (is_array f) && (main =? f_tag f) then default key (norm_field sp norm f t) else key.

(** Structures of a smaller depth are read back. *)
Context (sub_key : sproto_type -> ltable -> Z -> lval).
Hypothesis Hsub : forall st t main tail, st ∈ s_type sp -> typed st t -> len (enc st t) < 2 ^ 31 ->
  exists tag array, sproto_decode (decode sp n) st (enc st t ++ tail) (len (enc st t)) (DecodeUd [] None None main LNil) =
    Ret (len (enc st t), DecodeUd (norm st t) tag array main (sub_key st t main)).
Hypothesis Hkey : forall st t main g, st ∈ s_type sp -> field_with st main = Some g -> is_array g = false -> kind g <> SPROTO_TSTRUCT ->
  typed st t -> sub_key st t main = getfield t (fname g).

(** A pointer and a length that stand for a value. *)
Definition holds (f : field) (v : lval) (p : value_ptr) (size : Z) : Prop :=
  match v with
  | LInt i => p = VLocal (u64 i)
  | LBool b => p = VLocal (Z.b2z b)
  | _ => exists tail, p = VAt (enc_o f v ++ tail) /\ size = len (enc_o f v) /\ size < 2 ^ 31
  end.

(** The state in which the table of array [f] holds [l]. *)
Definition opened (f : field) (self : decode_ud) (l : ltable) : decode_ud :=
  DecodeUd (d_result self ++ [(LStr (fname f), LTab l)]) (name_at f) (Some (fname f)) (d_mainindex_tag self) (d_key self).

Definition filled (f : field) (self : decode_ud) (l : ltable) : decode_ud := match l with [] => self | _ => opened f self l end.

(** Nothing has been stored under the name of the field. *)
Definition untouched (f : field) (self : decode_ud) : Prop :=
  fresh_key (d_result self) (LStr (fname f)) /\ d_array_tag self <> name_at f.

Lemma in_array_opened f self l g l' : untouched f self -> g l = Ret l' -> in_array (opened f self l) g = Ret (opened f self l').
Proof.
  intros [Hf _] Hg. unfold in_array, opened. cbn [d_array deref d_result d_array_tag d_mainindex_tag d_key]. rewrite bind_Ret, getfield_last by done.
  rewrite Hg, bind_Ret. by rewrite rawset_last by (done || apply key_eqb_str).
Qed.

(** The callback opens the array that it is not in. *)
Lemma cb_enter f self l type p size index : is_Some (f_name f) -> untouched f self -> index <> 0 -> 0 <= index \/ l <> [] ->
  cb (set_value (field_arg f type) p size index) (filled f self l) = cb (set_value (field_arg f type) p size index) (opened f self l).
Proof.
  intros [c Hc] [Hf Ht] Hi Hl. destruct l as [|e l]; [|done]. destruct Hl as [Hl|]; [|done]. cbn [filled decode]. cbn [a_tagname set_value field_arg a_index].
  unfold opened, fname, name_at in *. rewrite Hc in Hf, Ht |- *. cbn [deref fmap option_fmap option_map d_array_tag] in *. rewrite !bind_Ret.
  rewrite (bool_decide_eq_false_2 (d_array_tag self = _)) by done. rewrite (bool_decide_eq_true_2 (Some _ = _)) by done.
  rewrite (proj2 (Z.eqb_neq index 0)) by done. cbn [negb andb]. rewrite (proj2 (Z.ltb_ge index 0)) by done.
  by rewrite rawset_fresh.
Qed.

Lemma cb_empty f self type : is_Some (f_name f) -> untouched f self -> cb (set_value (field_arg f type) VNull 0 (-1)) self = Ret (0, opened f self []).
Proof.
  intros [c Hc] [Hf Ht]. cbn [decode]. cbn [a_tagname set_value field_arg a_index]. unfold opened, fname, name_at in *. rewrite Hc in Hf, Ht |- *.
  cbn [deref fmap option_fmap option_map] in *. rewrite !bind_Ret. rewrite (bool_decide_eq_false_2 (d_array_tag self = _)) by done. cbn. by rewrite rawset_fresh.
Qed.

(** The callback on a value: it is stored, in a map under its main index. *)
Lemma cb_store f v p size index self : of_schema sp f -> typed_v f v -> holds f v p size -> index = 0 \/ d_array_tag self = name_at f -> f_key f < 0 ->
  cb (set_value (field_arg f (kind f)) p size index) self =
    (self ← store_value (set_value (field_arg f (kind f)) p size index) (fname f) (norm_v f v) self; Ret (0, self)).
Proof.
  intros Hf Hv Hp Hi Hk. destruct (schema_field sp Hplain f Hf) as [(_ & _ & [c Hc] & _) [Hx _]]. cbn [decode].
  cbn [a_tagname set_value field_arg a_index a_type a_value a_extra a_length a_subtype a_mainindex]. rewrite Hc. cbn [deref]. rewrite bind_Ret.
  assert (Hnew : negb (index =? 0) && negb (bool_decide (d_array_tag self = Some (cs_at c))) = false).
  { destruct Hi as [-> | ->]; [done|]. unfold name_at. rewrite Hc. cbn. by rewrite bool_decide_eq_true_2, andb_false_r by done. }
  rewrite Hnew. cbn [andb]. replace (fname f) with (cs_str c) by (unfold fname; by rewrite Hc).
  destruct v as [|b|i| |s|t|]; cbn [typed_value holds norm_value] in *; try done.
  - rewrite Hv, Hp. destruct b; done.
  - destruct Hv as [Hv Hr]. rewrite Hv, Hp, (Hx Hv). cbn [Z.eqb SPROTO_TINTEGER Pos.eqb at_local negb]. rewrite bind_Ret. by rewrite s64_u64.
  - rewrite Hv. destruct Hp as (tail & -> & -> & Hs). cbn [enc_object] in *. cbn [Z.eqb SPROTO_TSTRING SPROTO_TINTEGER SPROTO_TBOOLEAN Pos.eqb at_buffer]. rewrite bind_Ret.
    unfold pushlstring. rewrite (proj2 (Z.ltb_ge _ 0)), (proj2 (Z.ltb_ge _ (len s))) by (rewrite ?length_app; lia).
    rewrite bind_Ret, Nat2Z.id, take_app_length. done.
  - destruct Hv as [Hv Ht]. rewrite Hv. destruct Hp as (tail & -> & -> & Hs). cbn [enc_object] in *.
    cbn [Z.eqb SPROTO_TSTRING SPROTO_TSTRUCT SPROTO_TINTEGER SPROTO_TBOOLEAN Pos.eqb at_buffer].
    destruct (subtype_ok sp Hplain f Hf Hv) as [-> Hin]. rewrite !bind_Ret. rewrite (proj2 (Z.leb_gt 0 (f_key f))) by done.
    destruct (Hsub (subtype sp f) t (-1) tail Hin Ht Hs) as (tg & ar & ->). rewrite bind_Ret. rewrite (proj2 (Z.ltb_ge _ 0)) by lia. by rewrite Z.eqb_refl.
Qed.

Lemma cb_store_map f t p size index self : of_schema sp f -> typed_v f (LTab t) -> holds f (LTab t) p size -> d_array_tag self = name_at f -> 0 <= f_key f ->
  sub_key (subtype sp f) t (f_key f) <> LNil ->
  cb (set_value (field_arg f (kind f)) p size index) self =
    (self ← in_array self (fun l => settable l (sub_key (subtype sp f) t (f_key f)) (norm_v f (LTab t))); Ret (0, self)).
Proof.
  intros Hf [Hv Ht] (tail & -> & -> & Hs) Hi Hk Hne. destruct (schema_field sp Hplain f Hf) as [(_ & _ & [c Hc] & _) _]. cbn [decode].
  cbn [a_tagname set_value field_arg a_index a_type a_value a_extra a_length a_subtype a_mainindex]. rewrite Hc. cbn [deref]. rewrite bind_Ret.
  assert (Hnew : negb (index =? 0) && negb (bool_decide (d_array_tag self = Some (cs_at c))) = false).
  { rewrite Hi. unfold name_at. rewrite Hc. cbn. by rewrite bool_decide_eq_true_2, andb_false_r by done. }
  rewrite Hnew. cbn [andb enc_object norm_value] in *. rewrite Hv. cbn [Z.eqb SPROTO_TSTRING SPROTO_TSTRUCT SPROTO_TINTEGER SPROTO_TBOOLEAN Pos.eqb at_buffer].
  destruct (subtype_ok sp Hplain f Hf Hv) as [-> Hin]. rewrite !bind_Ret. rewrite (proj2 (Z.leb_le 0 (f_key f))) by done.
  destruct (Hsub (subtype sp f) t (f_key f) tail Hin Ht Hs) as (tg & ar & ->). rewrite bind_Ret. rewrite (proj2 (Z.ltb_ge _ 0)) by lia.
  rewrite Z.eqb_refl. cbn [negb d_key d_result]. by destruct (sub_key _ _ _).
Qed.

(** ** Elements *)

Lemma key_eqb_eq k k' : key_eqb k k' = true -> (forall x, k <> LNum x) -> k = k'.
Proof.
  destruct k, k'; cbn; try done; intros H Hn.
  - by apply Bool.eqb_prop in H as ->.
  - by apply Z.eqb_eq in H as ->.
  - by destruct (Hn x).
  - by apply bool_decide_eq_true in H as ->.
Qed.

(** The keys of maps. *)
Definition scalar (k : lval) : Prop := match k with LBool _ | LInt _ | LStr _ => True | _ => False end.

Lemma fresh_before (t : ltable) k key v : t !! k = Some (key, v) -> NoDup (map fst t) -> Forall (fun e => scalar e.1) t -> fresh_key (take k t) key.
Proof.
  intros Hk Hnd Hs. apply Forall_lookup_2. intros i e Hi. apply lookup_take_Some in Hi as [Hi Hlt]. apply not_true_iff_false. intros Heq.
  apply key_eqb_eq in Heq; [|intros x E; rewrite Forall_lookup in Hs; specialize (Hs i e Hi); by rewrite E in Hs].
  assert (i = k); [|lia]. eapply (NoDup_lookup (map fst t)); [done|by rewrite list_lookup_fmap, Hi|rewrite list_lookup_fmap, Hk; cbn; by f_equal].
Qed.

Lemma numbered_lookup vs k v : vs !! k = Some v -> numbered vs !! k = Some (LInt (1 + Z.of_nat k), v) /\ fresh_key (take k (numbered vs)) (LInt (1 + Z.of_nat k)).
Proof.
  intros Hk. unfold numbered. rewrite list_lookup_imap, Hk. split; [done|]. apply Forall_lookup_2. intros i e Hi.
  apply lookup_take_Some in Hi as [Hi Hlt]. rewrite list_lookup_imap in Hi. destruct (vs !! i); [|done]. injection Hi as <-. cbn. apply Z.eqb_neq. lia.
Qed.

Lemma length_numbered vs : length (numbered vs) = length vs.
Proof. unfold numbered. apply length_imap. Qed.

Lemma length_norm_array f a : length (norm_a f a) = length (items f a).
Proof. unfold norm_array, items. destruct (0 <=? f_key f); [by rewrite !length_map|]. by rewrite length_numbered, length_map. Qed.

(** What the entries of a table that is a map are. *)
Definition map_ok (f : field) (a : ltable) : Prop := 0 <= f_key f -> Forall (typed_entry sp f) a /\ NoDup (map fst a).

Lemma typed_entry_key f t e : of_schema sp f -> kind f = SPROTO_TSTRUCT -> typed_entry sp f e -> e.2 = LTab t -> typed (subtype sp f) t ->
  sub_key (subtype sp f) t (f_key f) = e.1 /\ scalar e.1.
Proof.
  intros Hf Hk (t' & g & E & Hg & Ha & Hkg & Hget & Hne) E' Ht. rewrite E in E'. injection E' as ->.
  destruct (subtype_ok sp Hplain f Hf Hk) as [_ Hin]. rewrite (Hkey (subtype sp f) t (f_key f) g) by done. split; [done|].
  destruct Hplain as [(_ & _ & Hw & _) _]. rewrite Forall_forall in Hw. specialize (Hw _ Hin). pose proof (findtag_field_with _ _ (f_key f) Hw) as Hfw.
  destruct (findtag_spec _ _ (f_key f) Hw) as (r & Er & Hr). rewrite Hfw, Hg in Er. injection Er as <-. destruct Hr as [Hgin _].
  clear Hsub Hkey sub_key. destruct n as [|m]; [done|]. cbn [typed_table] in Ht. rewrite Forall_forall in Ht. specialize (Ht g Hgin). unfold typed_field in Ht.
  rewrite <- Hget in Hne |- *. rewrite Ha in Ht. destruct (getfield t (fname g)); cbn in Ht |- *; try done. by destruct Ht.
Qed.

Lemma map_keys f a : of_schema sp f -> kind f = SPROTO_TSTRUCT -> Forall (typed_entry sp f) a -> Forall (typed_v f) (map snd a) -> Forall (fun e => scalar e.1) a.
Proof.
  intros Hf Hk He Hv. apply Forall_map in Hv. induction He as [|e a He _ IH]; [constructor|]. apply Forall_cons in Hv as [Hv Hv']. constructor; [|by apply IH].
  destruct He as (t & g & E & He). cbn in Hv. rewrite E in Hv. destruct Hv as [_ Ht].
  apply (typed_entry_key f t e); try done. by exists t, g.
Qed.

(** An element is appended to the array. *)
Lemma cb_append f a k v p size self : of_schema sp f -> untouched f self -> map_ok f a -> Forall (typed_v f) (items f a) -> items f a !! k = Some v -> holds f v p size ->
  cb (set_value (field_arg f (kind f)) p size (1 + Z.of_nat k)) (filled f self (take k (norm_a f a))) =
    Ret (0, opened f self (take (S k) (norm_a f a))).
Proof.
  intros Hf Hu Hm Hvs Hk Hp. destruct (schema_field sp Hplain f Hf) as [(_ & _ & Hname & _) [_ Hpl]]. rewrite cb_enter by (done || lia).
  pose proof (proj1 (Forall_lookup _ _) Hvs k v Hk) as Hv. unfold norm_array in *. unfold items in *. destruct (Z.leb_spec 0 (f_key f)) as [Hmap|Hno].
  - rewrite list_lookup_fmap in Hk. destruct (a !! k) as [[key v']|] eqn:Ek; [|done]. cbn in Hk. injection Hk as ->.
    destruct (Hm Hmap) as [Hte Hnd]. destruct (Hpl Hmap) as [_ Hstruct]. pose proof (map_keys f a Hf Hstruct Hte Hvs) as Hs.
    pose proof (proj1 (Forall_lookup _ _) Hte k _ Ek) as He. destruct He as (t & g & Et & He). cbn [snd] in Et. subst v.
    destruct (typed_entry_key f t (key, LTab t) Hf Hstruct) as [Ekey Hsc]; [by exists t, g|done|apply Hv|]. cbn [fst] in *.
    rewrite (cb_store_map f t); [|done..|by rewrite Ekey; destruct key]. rewrite Ekey. set (l := map (fun e => (e.1, norm_v f e.2)) a).
    assert (Hl : l !! k = Some (key, norm_v f (LTab t))) by (unfold l; by rewrite list_lookup_fmap, Ek).
    assert (Hfr : fresh_key (take k l) key).
    { apply (fresh_before l k key (norm_v f (LTab t)) Hl); unfold l; [by rewrite map_map|]. by apply Forall_map. }
    erewrite in_array_opened; [by rewrite bind_Ret|done|]. transitivity (Ret (rawset (take k l) key (norm_v f (LTab t)))); [by destruct key|].
    rewrite rawset_fresh by done. f_equal. by rewrite (take_S_r _ _ _ Hl).
  - rewrite (cb_store f v) by (done || by right). unfold store_value. cbn [a_index set_value field_arg]. rewrite (proj2 (Z.ltb_lt 0 (1 + _))) by lia.
    set (vs := sequence (length a) 1 a) in *. destruct (numbered_lookup (map (norm_v f) vs) k (norm_v f v)) as [Hl Hfr]; [by rewrite list_lookup_fmap, Hk|].
    erewrite in_array_opened; [by rewrite bind_Ret|done|]. rewrite rawset_fresh by done. f_equal. by rewrite (take_S_r _ _ _ Hl).
Qed.

(** ** Arrays *)

Lemma filled_step f self l : (0 < length l)%nat -> opened f self l = filled f self l.
Proof. destruct l; [cbn; lia|done]. Qed.

Lemma take_norm f a k : (k < length (items f a))%nat -> (0 < length (take (S k) (norm_a f a)))%nat.
Proof. intros Hk. rewrite length_take, length_norm_array. lia. Qed.

(** The loop over the elements of one width. *)
Lemma scalar_loop_spec f a self (get : bytes -> outcome Z) width (enc1 : lval -> bytes) tail :
  of_schema sp f -> untouched f self -> map_ok f a -> Forall (typed_v f) (items f a) -> 0 < width ->
  Forall (fun v => len (enc1 v) = width /\ forall tail, exists w, get (enc1 v ++ tail) = Ret w /\ holds f v (VLocal w) 8) (items f a) ->
  forall m k fuel, (m + k = length (items f a))%nat -> (m < fuel)%nat ->
  scalar_loop cb fuel get width (field_arg f (kind f)) (concat (map enc1 (drop k (items f a))) ++ tail) (width * Z.of_nat m) (1 + Z.of_nat k)
    (filled f self (take k (norm_a f a))) = Ret (0, filled f self (norm_a f a)).
Proof.
  intros Hf Hu Hm Hv Hw Hget. induction m as [|m IH]; intros k fuel Hmk Hfuel; (destruct fuel as [|fuel]; [lia|]); cbn [scalar_loop].
  { rewrite (proj2 (Z.leb_le _ 0)) by lia. by rewrite take_ge by (rewrite length_norm_array; lia). }
  rewrite (proj2 (Z.leb_gt _ 0)) by lia. destruct (lookup_lt_is_Some_2 (items f a) k ltac:(lia)) as [v Hk]. rewrite (drop_S _ _ _ Hk). cbn [map concat].
  destruct (proj1 (Forall_lookup _ _) Hget k v Hk) as [Hlen Hg]. rewrite <- app_assoc. destruct (Hg (concat (map enc1 (drop (S k) (items f a))) ++ tail)) as (w & -> & Hh).
  rewrite bind_Ret, (cb_append f a k v) by done. rewrite bind_Ret, skip_app by done. rewrite filled_step by (apply take_norm; lia).
  replace (width * Z.of_nat (S m) - width) with (width * Z.of_nat m) by lia. replace (1 + Z.of_nat k + 1) with (1 + Z.of_nat (S k)) by lia. apply IH; lia.
Qed.

Lemma length_elements (enc1 : lval -> bytes) width vs : Forall (fun v => len (enc1 v) = width) vs -> len (concat (map enc1 vs)) = width * len vs.
Proof. induction 1 as [|v vs Hv _ IH]; cbn [map concat length]; [lia|]. rewrite length_app. lia. Qed.

(** From the first element, with the fuel of the code. *)
Lemma scalar_array f a self get width (enc1 : lval -> bytes) tail :
  of_schema sp f -> untouched f self -> map_ok f a -> Forall (typed_v f) (items f a) -> 0 < width ->
  Forall (fun v => len (enc1 v) = width /\ forall tail, exists w, get (enc1 v ++ tail) = Ret w /\ holds f v (VLocal w) 8) (items f a) ->
  forall stream, stream = concat (map enc1 (items f a)) ++ tail ->
  scalar_loop cb (S (length stream)) get width (field_arg f (kind f)) stream (len (concat (map enc1 (items f a)))) 1 self = Ret (0, filled f self (norm_a f a)).
Proof.
  intros Hf Hu Hm Hv Hw Hget stream ->. assert (Hl : len (concat (map enc1 (items f a))) = width * len (items f a)).
  { apply length_elements. eapply Forall_impl; [exact Hget|]. by intros v [? _]. }
  rewrite Hl. pose proof (scalar_loop_spec f a self get width enc1 tail Hf Hu Hm Hv Hw Hget (length (items f a)) 0) as H. cbn [take filled] in H. rewrite drop_0 in H.
  change (1 + Z.of_nat 0) with 1 in H. apply H; [lia|]. rewrite length_app. nia.
Qed.

(** The loop over strings or structures. *)
Lemma framed_app d tail : framed d ++ tail = le4 (len d) ++ d ++ tail.
Proof. unfold framed. by rewrite <- app_assoc. Qed.

Abbreviation objs := (fun f vs => concat (map (fun v => framed (enc_o f v)) vs)).

Lemma objects_loop_spec f a self tail : of_schema sp f -> untouched f self -> map_ok f a -> Forall (typed_v f) (items f a) ->
  kind f = SPROTO_TSTRING \/ kind f = SPROTO_TSTRUCT ->
  forall m k fuel, (m + k = length (items f a))%nat -> (m < fuel)%nat -> len (objs f (drop k (items f a))) < 2 ^ 31 ->
  array_object_loop cb fuel (field_arg f (kind f)) (objs f (drop k (items f a)) ++ tail) (len (objs f (drop k (items f a)))) (1 + Z.of_nat k)
    (filled f self (take k (norm_a f a))) = Ret (0, filled f self (norm_a f a)).
Proof.
  intros Hf Hu Hm Hv Hkind. induction m as [|m IH]; intros k fuel Hmk Hfuel Hlen; (destruct fuel as [|fuel]; [lia|]); cbn [array_object_loop].
  { rewrite drop_ge by lia. by rewrite take_ge by (rewrite length_norm_array; lia). }
  destruct (lookup_lt_is_Some_2 (items f a) k ltac:(lia)) as [v Hk]. rewrite (drop_S _ _ _ Hk) in Hlen |- *. cbn [map concat] in Hlen |- *.
  rewrite length_app, Nat2Z.inj_add, length_framed in Hlen |- *. rewrite (proj2 (Z.ltb_lt 0 _)), (proj2 (Z.ltb_ge _ SIZEOF_LENGTH)) by (unfold SIZEOF_LENGTH; lia).
  rewrite <- app_assoc, framed_app, todword_le4, bind_Ret. rewrite u32_small by lia. rewrite skip_app by done.
  rewrite (proj2 (Z.ltb_ge _ (len (enc_o f v)))) by (unfold SIZEOF_LENGTH; lia). pose proof (proj1 (Forall_lookup _ _) Hv k v Hk) as Hvk.
  rewrite (cb_append f a k v) by (done || (destruct v; cbn in Hvk |- *; try done; try (eexists; split_and!; [reflexivity|reflexivity|cbn in *; lia]);
    unfold SPROTO_TINTEGER, SPROTO_TBOOLEAN, SPROTO_TSTRING, SPROTO_TSTRUCT in *; exfalso; lia)).
  rewrite bind_Ret. change (negb (0 =? 0)) with false. cbv iota. rewrite skip_app by done. rewrite filled_step by (apply take_norm; lia).
  match goal with |- array_object_loop _ _ _ _ ?x ?i _ = _ => replace x with (len (objs f (drop (S k) (items f a)))) by (unfold SIZEOF_LENGTH; cbv beta; lia);
    replace i with (1 + Z.of_nat (S k)) by lia end. apply IH; [lia|lia|cbv beta; lia].
Qed.

Lemma arr_get_head {A} (x : A) l : arr_get (x :: l) 0 = Ret x.
Proof. done. Qed.

Lemma int_array_cases vs : vs <> [] -> exists (four : bool) (enc1 : lval -> bytes),
  int_array (map int_of vs) = (if four then 4 else 8) :: concat (map enc1 vs) /\
  (forall v, enc1 v = if four then le4 (u32 (int_of v)) else le8 (u64 (int_of v))) /\
  (four = true -> Forall (fun v => narrow (int_of v) = true) vs).
Proof.
  intros Hne. destruct vs as [|v vs]; [done|]. set (l := v :: vs). change (int_array (map int_of l)) with
    (if forallb narrow (map int_of l) then 4 :: concat (map (fun i => le4 (u32 i)) (map int_of l)) else 8 :: concat (map (fun i => le8 (u64 i)) (map int_of l))).
  destruct (forallb narrow (map int_of l)) eqn:E.
  - exists true, (fun v => le4 (u32 (int_of v))). rewrite map_map. split; [done|]. split; [done|]. intros _. apply forallb_narrow, Forall_map in E. done.
  - exists false, (fun v => le8 (u64 (int_of v))). rewrite map_map. done.
Qed.

Lemma typed_int f v : kind f = SPROTO_TINTEGER -> typed_v f v -> v = LInt (int_of v) /\ - 2 ^ 63 <= int_of v < 2 ^ 63.
Proof.
  intros Hk. destruct v; cbn; try done; rewrite Hk; unfold SPROTO_TINTEGER, SPROTO_TBOOLEAN, SPROTO_TSTRING, SPROTO_TSTRUCT; intros H; try done; destruct H; done || lia.
Qed.

Lemma typed_bool f v : kind f = SPROTO_TBOOLEAN -> typed_v f v -> v = LBool (bool_of v).
Proof.
  intros Hk. destruct v; cbn; try done; rewrite Hk; unfold SPROTO_TINTEGER, SPROTO_TBOOLEAN, SPROTO_TSTRING, SPROTO_TSTRUCT; intros H; try done; destruct H; done || lia.
Qed.

(** The two widths of integers are read back. *)
Lemma holds_int f v i : kind f = SPROTO_TINTEGER -> typed_v f v -> i = u64 (int_of v) -> holds f v (VLocal i) 8.
Proof. intros Hk Hv ->. destruct (typed_int f v Hk Hv) as [E _]. by rewrite E. Qed.

Lemma nil_empty_array f a : items f a = [] -> norm_a f a = [].
Proof. intros E. apply length_zero_iff_nil. by rewrite length_norm_array, E. Qed.

Lemma opened_filled f a self : items f a <> [] -> filled f self (norm_a f a) = opened f self (norm_a f a).
Proof. intros Hne. rewrite filled_step; [done|]. rewrite length_norm_array. destruct (items f a); [done|cbn; lia]. Qed.

Lemma decode_int_array f a self tail : of_schema sp f -> untouched f self -> map_ok f a -> Forall (typed_v f) (items f a) -> kind f = SPROTO_TINTEGER ->
  items f a <> [] -> len (int_array (map int_of (items f a))) < 2 ^ 31 ->
  decode_array cb (field_arg f (kind f)) (framed (int_array (map int_of (items f a))) ++ tail) self = Ret (0, opened f self (norm_a f a)).
Proof.
  intros Hf Hu Hm Hv Hk Hne Hlen. unfold decode_array. rewrite framed_app, todword_le4, bind_Ret, skip_app by done. rewrite u32_small by lia.
  destruct (int_array_cases (items f a) Hne) as (four & enc1 & E & He & Hn). rewrite E in Hlen |- *. cbn [length] in Hlen |- *.
  rewrite (proj2 (Z.eqb_neq _ 0)) by lia. cbn [a_type field_arg]. rewrite Hk at 1. change (SPROTO_TINTEGER =? SPROTO_TINTEGER) with true. cbv iota.
  cbn [app]. rewrite arr_get_head, bind_Ret. change (skip 1 (?x :: ?l)) with l. replace (Z.of_nat (S (length _)) - 1) with (len (concat (map enc1 (items f a)))) by lia.
  assert (Hel : forall v, len (enc1 v) = if four then 4 else 8) by (intros v; rewrite He; by destruct four).
  assert (Hmod : len (concat (map enc1 (items f a))) mod (if four then 4 else 8) = 0).
  { rewrite (length_elements enc1 (if four then 4 else 8)) by (by apply Forall_forall). rewrite Z.mul_comm. apply Z.mod_mul. by destruct four. }
  rewrite <- opened_filled by done. change SIZEOF_INT32 with 4. change SIZEOF_INT64 with 8. destruct four; cbn [Z.eqb Pos.eqb]; rewrite Hmod; cbn [Z.eqb negb].
  - apply (scalar_array f a self get_int32 4 enc1 tail); try done. specialize (Hn eq_refl). rewrite Forall_forall in Hn, Hv |- *. intros v Hin.
    split; [apply Hel|]. intros tl. rewrite He. eexists. split; [by apply get_int32_narrow, Hn|]. apply holds_int; auto.
  - apply (scalar_array f a self get_int64 8 enc1 tail); try done. rewrite Forall_forall in Hv |- *. intros v Hin.
    split; [apply Hel|]. intros tl. rewrite He. eexists. split; [apply get_int64_ok|]. apply holds_int; auto.
Qed.

Lemma decode_array_spec f a self tail : of_schema sp f -> untouched f self -> map_ok f a -> Forall (typed_v f) (items f a) ->
  len (enc_array sp enc f (items f a)) < 2 ^ 31 ->
  decode_array cb (field_arg f (kind f)) (framed (enc_array sp enc f (items f a)) ++ tail) self = Ret (0, opened f self (norm_a f a)).
Proof.
  intros Hf Hu Hm Hv Hlen. destruct (schema_field sp Hplain f Hf) as [Hwf _]. pose proof (kind_range _ _ Hwf) as Hkind. destruct (decide (items f a = [])) as [Hnil|Hne].
  { assert (Ee : enc_array sp enc f (items f a) = []) by (unfold enc_array; rewrite Hnil; by repeat case_match). rewrite Ee. unfold decode_array.
    rewrite framed_app, todword_le4, bind_Ret. cbn [length]. change (u32 (Z.of_nat 0) =? 0) with true. cbv iota. rewrite cb_empty by (done || apply Hwf).
    by rewrite (nil_empty_array f a Hnil). }
  destruct (Z.eqb_spec (kind f) SPROTO_TINTEGER) as [Hi|Hi].
  { unfold enc_array in *. rewrite Hi in *. change (SPROTO_TINTEGER =? SPROTO_TINTEGER) with true in *. cbv iota in *. rewrite <- Hi. by apply decode_int_array. }
  unfold decode_array. rewrite framed_app, todword_le4, bind_Ret, skip_app by done. rewrite u32_small by lia. unfold enc_array in *. rewrite (proj2 (Z.eqb_neq _ _) Hi) in *.
  cbn [a_type field_arg]. rewrite (proj2 (Z.eqb_neq _ _) Hi). destruct (Z.eqb_spec (kind f) SPROTO_TBOOLEAN) as [Hb|Hb].
  - set (vs := items f a) in *. assert (Eb : map (fun v => Z.b2z (bool_of v)) vs = concat (map (fun v => [Z.b2z (bool_of v)]) vs)).
    { clear. induction vs as [|v vs IH]; [done|]. cbn. by rewrite IH. }
    rewrite Eb in *. destruct (Z.eqb_spec (len (concat (map (fun v => [Z.b2z (bool_of v)]) vs))) 0) as [H0|_].
    { rewrite <- Eb, length_map in H0. destruct vs; cbn in H0; [done|lia]. }
    rewrite <- opened_filled by done. apply (scalar_array f a self (fun p => arr_get p 0) 1 (fun v => [Z.b2z (bool_of v)]) tail); try done.
    apply Forall_forall. intros v Hin. split; [done|]. intros tl. eexists. split; [apply arr_get_head|]. rewrite Forall_forall in Hv.
    by rewrite (typed_bool f v Hb (Hv v Hin)).
  - assert (Hso : kind f = SPROTO_TSTRING \/ kind f = SPROTO_TSTRUCT) by (unfold SPROTO_TINTEGER, SPROTO_TBOOLEAN, SPROTO_TSTRING, SPROTO_TSTRUCT in *; lia).
    assert (Hpos : (length (items f a) <= length (objs f (items f a)))%nat).
    { clear. induction (items f a) as [|v vs IH]; [done|]. cbn [map concat length]. rewrite length_app. pose proof (length_framed (enc_o f v)). lia. }
    destruct (Z.eqb_spec (len (objs f (items f a))) 0) as [H0|_]; [destruct (items f a); [done|cbn [length] in Hpos; cbv beta in *; lia]|].
    replace ((kind f =? SPROTO_TSTRING) || (kind f =? SPROTO_TSTRUCT)) with true by (destruct Hso as [-> | ->]; done).
    unfold decode_array_object. rewrite s32_small by (cbv beta in *; lia). rewrite <- opened_filled by done.
    pose proof (objects_loop_spec f a self tail Hf Hu Hm Hv Hso (length (items f a)) 0) as H. cbn [take filled] in H. rewrite drop_0 in H.
    change (1 + Z.of_nat 0) with 1 in H. apply H; [lia|rewrite length_app; cbv beta in *; lia|done].
Qed.

(** ** Fields *)

(** The field [f] with value [w] has been stored. *)
Definition stored (f : field) (w : lval) (self self' : decode_ud) : Prop :=
  d_result self' = d_result self ++ [(LStr (fname f), w)] /\ (d_array_tag self' = d_array_tag self \/ d_array_tag self' = name_at f) /\
  d_mainindex_tag self' = d_mainindex_tag self /\
  d_key self' = (if negb (is_array f) && (d_mainindex_tag self =? f_tag f) then w else d_key self).

Lemma cb_single_value f v p size self : of_schema sp f -> is_array f = false -> untouched f self -> typed_v f v -> holds f v p size ->
  exists self', cb (set_value (field_arg f (kind f)) p size 0) self = Ret (0, self') /\ stored f (norm_v f v) self self'.
Proof.
  intros Hf Ha [Hfr Ht] Hv Hp. destruct (schema_field sp Hplain f Hf) as [_ [_ Hpl]].
  assert (Hk : f_key f < 0) by (destruct (Z.ltb_spec (f_key f) 0) as [|H]; [done|]; apply Hpl in H as [H _]; congruence).
  rewrite (cb_store f v) by (done || by left). unfold store_value. cbn [a_index set_value field_arg a_tagid]. change (0 <? 0) with false. cbv iota. rewrite bind_Ret.
  eexists. split; [done|]. unfold stored. cbn [d_result d_array_tag d_mainindex_tag d_key]. rewrite rawset_fresh by done. rewrite Ha. auto.
Qed.

Lemma stored_opened f a self : is_array f = true -> stored f (LTab (norm_a f a)) self (opened f self (norm_a f a)).
Proof. intros Ha. unfold stored, opened. cbn. rewrite Ha. auto. Qed.

Lemma decode_object f v self tail : of_schema sp f -> is_array f = false -> untouched f self -> typed_v f v -> kind f = SPROTO_TSTRING \/ kind f = SPROTO_TSTRUCT ->
  len (enc_o f v) < 2 ^ 31 ->
  exists self', decode_value cb f (-1) (framed (enc_o f v) ++ tail) self = Ret (0, self') /\ stored f (norm_v f v) self self'.
Proof.
  intros Hf Ha Hu Hv Hk Hl. unfold decode_value. fold (kind f). unfold is_array in Ha. rewrite Ha. change (-1 <? 0) with true. cbv iota.
  destruct (schema_field sp Hplain f Hf) as [Hwf _]. rewrite (type_single f _ Hwf Ha).
  replace (kind f =? SPROTO_TINTEGER) with false by (destruct Hk as [-> | ->]; done).
  replace ((kind f =? SPROTO_TSTRING) || (kind f =? SPROTO_TSTRUCT)) with true by (destruct Hk as [-> | ->]; done).
  rewrite framed_app, todword_le4, bind_Ret, skip_app by done. rewrite u32_small, s32_small by lia.
  destruct (cb_single_value f v (VAt (enc_o f v ++ tail)) (len (enc_o f v)) self Hf Ha Hu Hv) as (self' & -> & Hst).
  { destruct v; cbn in Hv |- *; try done; try (by exists tail); unfold SPROTO_TINTEGER, SPROTO_TBOOLEAN, SPROTO_TSTRING, SPROTO_TSTRUCT in *; exfalso; lia. }
  exists self'. by rewrite bind_Ret.
Qed.

(** A value in the header word. *)
Lemma decode_word f v i self data : of_schema sp f -> is_array f = false -> untouched f self -> typed_v f v -> kind f = SPROTO_TINTEGER \/ kind f = SPROTO_TBOOLEAN ->
  0 <= i < 2 ^ 31 -> v = LInt i \/ (exists b, v = LBool b /\ i = Z.b2z b) ->
  exists self', decode_value cb f i data self = Ret (0, self') /\ stored f (norm_v f v) self self'.
Proof.
  intros Hf Ha Hu Hv Hk Hi Hvi. unfold decode_value. fold (kind f). rewrite (proj2 (Z.ltb_ge i 0)) by lia.
  destruct (schema_field sp Hplain f Hf) as [Hwf _]. rewrite (type_single f _ Hwf Ha).
  replace (negb (kind f =? SPROTO_TINTEGER) && negb (kind f =? SPROTO_TBOOLEAN)) with false by (destruct Hk as [-> | ->]; done).
  destruct (cb_single_value f v (VLocal i) 8 self Hf Ha Hu Hv) as (self' & -> & Hst); [|exists self'; by rewrite bind_Ret].
  destruct Hvi as [-> |(b & -> & ->)]; [|done]. cbn. rewrite u64_small by lia. done.
Qed.

Lemma decode_integer f i self tail : of_schema sp f -> is_array f = false -> untouched f self -> typed_v f (LInt i) ->
  exists self', decode_value cb f (-1) (framed (int_bytes i) ++ tail) self = Ret (0, self') /\ stored f (LInt i) self self'.
Proof.
  intros Hf Ha Hu Hv. unfold decode_value. fold (kind f). destruct (schema_field sp Hplain f Hf) as [Hwf _]. pose proof Ha as Ha'. unfold is_array in Ha'. rewrite Ha'.
  rewrite (type_single f _ Hwf Ha). change (-1 <? 0) with true. cbv iota. pose proof Hv as Hv'. destruct Hv' as [Hk Hr].
  destruct (cb_single_value f (LInt i) (VLocal (u64 i)) 8 self Hf Ha Hu Hv eq_refl) as (self' & Hcb & Hst). rewrite Hk in Hcb. rewrite Hk.
  change (SPROTO_TINTEGER =? SPROTO_TINTEGER) with true. cbv iota.
  rewrite framed_app, todword_le4, bind_Ret, !skip_app by done. unfold int_bytes. destruct (narrow i) eqn:En; rewrite ?length_le4, ?length_le8.
  - change (u32 (Z.of_nat 4) =? SIZEOF_INT32) with true. cbv iota. rewrite get_int32_narrow by done. rewrite bind_Ret, Hcb, bind_Ret. by exists self'.
  - change (u32 (Z.of_nat 8) =? SIZEOF_INT32) with false. change (u32 (Z.of_nat 8) =? SIZEOF_INT64) with true. cbn [negb]. rewrite get_int64_ok, bind_Ret, Hcb, bind_Ret.
    by exists self'.
Qed.

Lemma decode_value_spec f t v d w self tail : of_schema sp f -> typed_field sp typed f t -> untouched f self ->
  enc_field sp enc f t = Some (v, d) -> norm_field sp norm f t = Some w -> len d < 2 ^ 31 ->
  exists self', decode_value cb f (v / 2 - 1) (d ++ tail) self = Ret (0, self') /\ stored f w self self'.
Proof.
  intros Hf Hty Hu. revert Hty. unfold typed_field, enc_field, norm_field. destruct (is_array f) eqn:Ha.
  { intros Hty Henc Hnorm Hl. assert (exists a, getfield t (fname f) = LTab a /\ Forall (typed_v f) (items f a) /\ map_ok f a) as (a & Ea & Hv & Hm).
    { revert Hty Henc. destruct (getfield t (fname f)); [done|..]; intros (a & E & ?) _; by exists a. }
    rewrite Ea in Henc, Hnorm. injection Henc as <- <-. injection Hnorm as <-. rewrite length_framed in Hl.
    unfold decode_value. fold (kind f). pose proof Ha as Ha'. unfold is_array in Ha'. rewrite Ha'.
    change (0 / 2 - 1 <? 0) with true. cbv iota. rewrite decode_array_spec by (done || lia). rewrite bind_Ret. eexists. split; [done|]. by apply stored_opened. }
  destruct (getfield t (fname f)) as [|b|i| |s|a|]; try done; cbn [typed_value]; intros Hty.
  - intros [= <- <-] [= <-] Hl. replace ((Z.b2z b + 1) * 2 / 2 - 1) with (Z.b2z b) by (by destruct b).
    apply (decode_word f (LBool b)); try done; [by right|by destruct b|]. right. by exists b.
  - destruct (Z.leb_spec 0 i), (Z.ltb_spec i 0x7fff); cbn [andb]; intros [= <- <-] [= <-] Hl.
    1: { rewrite Z.div_mul by done. replace (i + 1 - 1) with i by lia. apply (decode_word f (LInt i)); try done; [left; apply Hty|lia|by left]. }
    all: by apply (decode_integer f i).
  - intros [= <- <-] [= <-] Hl. rewrite length_framed in Hl. apply (decode_object f (LStr s)); try done; [by left|cbn in *; lia].
  - intros [= <- <-] [= <-] Hl. rewrite length_framed in Hl. apply (decode_object f (LTab a)); try done; [right; apply Hty|cbn in *; lia].
Qed.

(** ** The words of the header *)

Abbreviation enc_fs := (enc_fields sp enc).

Definition norm_fs (fs : list field) (t : ltable) : ltable := omap (fun f => (fun v => (LStr (fname f), v)) <$> norm_field sp norm f t) fs.

Lemma norm_enc f t : is_Some (norm_field sp norm f t) <-> is_Some (enc_field sp enc f t).
Proof.
  unfold norm_field, enc_field. destruct (getfield t (fname f)); destruct (is_array f); split; intros [? Hx]; try done; by eauto.
Qed.

(** What a header word is. *)
Lemma enc_word f t v d : enc_field sp enc f t = Some (v, d) -> 0 <= v < 65536 /\ Z.land v 1 = 0 /\ (v / 2 - 1 < 0 -> v = 0) /\ (v = 0 -> exists b, d = framed b) /\ (v <> 0 -> d = []).
Proof.
  unfold enc_field. destruct (getfield t (fname f)) as [|b|i| |s|a|]; [done|..]; destruct (is_array f);
    try (intros [= <- <-]; split_and!; try done; try lia; intros _; by eexists).
  - intros [= <- <-]. destruct b; cbn; split_and!; done.
  - destruct (Z.leb_spec 0 i), (Z.ltb_spec i 0x7fff); cbn [andb]; intros [= <- <-]; try (split_and!; try done; try lia; intros _; by eexists).
    rewrite Z.div_mul by done. split; [lia|]. split; [|split; [lia|split; [intros; exfalso; lia|done]]].
    change 1 with (Z.ones 1) at 2. rewrite Z.land_ones by lia. by apply Z.mod_mul.
Qed.

Lemma toword_next w ws tail : 0 <= w < 65536 -> toword (le2s (w :: ws) ++ tail) = Ret w /\ skip SIZEOF_FIELD (le2s (w :: ws) ++ tail) = le2s ws ++ tail.
Proof. intros Hw. unfold le2s. cbn [map concat]. rewrite <- !app_assoc. split; [by apply toword_le2|by apply skip_app]. Qed.

Lemma gap_word tag gap : 0 < gap <= 32767 -> 0 <= (gap - 1) * 2 + 1 < 65536 /\ Z.land ((gap - 1) * 2 + 1) 1 <> 0 /\ tag + ((gap - 1) * 2 + 1) / 2 = tag + gap - 1.
Proof.
  intros Hg. split; [lia|]. change (Z.land ((gap - 1) * 2 + 1) 1) with (Z.land ((gap - 1) * 2 + 1) (Z.ones 1)). rewrite Z.land_ones by lia.
  split; Z.to_euclidean_division_equations; lia.
Qed.

(** One field: its words, its data, and the state behind it. *)
Lemma decode_loop_field st f t v d w m ws data tail last self : st ∈ s_type sp -> f ∈ st_f st -> typed_field sp typed f t -> untouched f self ->
  enc_field sp enc f t = Some (v, d) -> norm_field sp norm f t = Some w -> len d + len data < 2 ^ 31 -> -1 <= last < f_tag f ->
  exists self', stored f w self self' /\ forall X,
    decode_loop cb (length (record_words (f_tag f - last - 1) v) + m) st (le2s (record_words (f_tag f - last - 1) v ++ ws) ++ X)
      ((d ++ data) ++ tail) (len (d ++ data)) last self =
    decode_loop cb m st (le2s ws ++ X) (data ++ tail) (len data) (f_tag f) self'.
Proof.
  intros Hst Hin Hty Hu He Hn Hl Hlast. assert (Hf : of_schema sp f) by (by exists st).
  destruct (decode_value_spec f t v d w self (data ++ tail) Hf Hty Hu He Hn) as (self' & Hdec & Hstored); [lia|]. exists self'. split; [done|]. intros X.
  destruct (enc_word f t v d He) as (Hv & Heven & Hneg & Hz & Hnz). destruct (schema_field sp Hplain f Hf) as [Hwf _]. destruct Hwf as (Htag & _).
  destruct Hplain as [(_ & _ & Hw & _) _]. rewrite Forall_forall in Hw. specialize (Hw st Hst).
  assert (Hfind : findtag st (f_tag f) = Ret (Some f)).
  { destruct (findtag_spec _ _ (f_tag f) Hw) as ([g|] & -> & Hg); [|by destruct (Hg f Hin)]. destruct Hg as [Hg Et]. by rewrite (tag_inj st _ f g Hw). }
  assert (Hword : forall tag, tag + 1 = f_tag f -> decode_loop cb (S m) st (le2s (v :: ws) ++ X) ((d ++ data) ++ tail) (len (d ++ data)) tag self =
    decode_loop cb m st (le2s ws ++ X) (data ++ tail) (len data) (f_tag f) self').
  { intros tag Ht. cbn [decode_loop]. destruct (toword_next v ws X Hv) as [-> ->]. rewrite bind_Ret, Heven, Ht. change (negb (0 =? 0)) with false. cbv iota.
    rewrite <- app_assoc. destruct (Z.ltb_spec (v / 2 - 1) 0) as [Hlt|Hge].
    - destruct (Hz (Hneg Hlt)) as [b ->]. rewrite length_app, Nat2Z.inj_add, length_framed in *. rewrite (proj2 (Z.ltb_ge _ SIZEOF_LENGTH)) by (unfold SIZEOF_LENGTH; lia).
      rewrite framed_app at 1. rewrite todword_le4, bind_Ret. unfold SIZEOF_LENGTH. rewrite (u32_small (len b)), (u32_small (len b + 4)), (u32_small (_ + _ + _)) by lia.
      rewrite (proj2 (Z.ltb_ge _ (len b + 4))) by lia. rewrite Hfind, bind_Ret, Hdec, bind_Ret. cbn [Z.eqb]. rewrite skip_app by (rewrite length_framed; lia). f_equal; lia.
    - assert (d = []) as -> by (apply Hnz; intros ->; change (0 / 2 - 1) with (-1) in Hge; lia). cbn [app] in *. rewrite Hfind, bind_Ret, Hdec, bind_Ret. done. }
  unfold record_words. destruct (Z.ltb_spec 0 (f_tag f - last - 1)) as [Hgap|Hno]; cbn [app length Nat.add]; [|apply Hword; lia].
  destruct (gap_word (last + 1) (f_tag f - last - 1)) as (Hr & Hodd & Hskip); [lia|]. cbn [decode_loop]. destruct (toword_next _ (v :: ws) X Hr) as [-> ->].
  rewrite bind_Ret. rewrite (proj2 (Z.eqb_neq _ 0) Hodd). cbn [negb]. rewrite Hskip. apply Hword. lia.
Qed.

Lemma key_step_none main t key f : norm_field sp norm f t = None -> key_step main t key f = key.
Proof. intros E. unfold key_step. rewrite E. by destruct (_ && _). Qed.

(** All fields. *)
Lemma decode_loop_spec st t X tail fs : st ∈ s_type sp -> Forall (fun f => f ∈ st_f st /\ typed_field sp typed f t) fs -> StronglySorted tag_lt fs ->
  NoDup (map fname fs) -> NoDup (map name_at fs) ->
  forall last self, -1 <= last -> Forall (fun f => last < f_tag f) fs -> Forall (fun f => untouched f self) fs -> len (field_data (enc_fs fs t)) < 2 ^ 31 ->
  exists self', decode_loop cb (length (field_words last (enc_fs fs t))) st (le2s (field_words last (enc_fs fs t)) ++ X) (field_data (enc_fs fs t) ++ tail)
      (len (field_data (enc_fs fs t))) last self = Ret (Some 0, self') /\
    d_result self' = d_result self ++ norm_fs fs t /\ d_mainindex_tag self' = d_mainindex_tag self /\
    d_key self' = foldl (key_step (d_mainindex_tag self) t) (d_key self) fs.
Proof.
  intros Hst Hall Hs Hnd Hat. induction Hs as [|f fs Hs IH Htl]; intros last self Hlast Hgt Hu Hl.
  { exists self. cbn. by rewrite app_nil_r. }
  apply Forall_cons in Hall as [[Hin Hty] Hall]. apply NoDup_cons in Hnd as [Hnf Hnd]. apply NoDup_cons in Hat as [Haf Hat]. apply Forall_cons in Hu as [Hu Hus].
  apply Forall_cons in Hgt as [Hgt Hgts]. destruct (enc_field sp enc f t) as [[v d]|] eqn:He.
  - destruct (proj2 (norm_enc f t)) as [w Hn]; [by rewrite He|]. destruct (field_words_cons sp n last f fs t v d He) as [Ew Ed]. rewrite Ew, Ed in *.
    rewrite length_app in Hl. destruct (decode_loop_field st f t v d w (length (field_words (f_tag f) (enc_fs fs t))) (field_words (f_tag f) (enc_fs fs t))
      (field_data (enc_fs fs t)) tail last self) as (self1 & (Hr & Hta & Hm & Hk) & Hstep); try done; [lia|].
    rewrite length_app, Hstep. destruct (IH Hall Hnd Hat (f_tag f) self1) as (self' & -> & Hr' & Hm' & Hk'); [destruct (schema_field sp Hplain f ltac:(by exists st)) as [(? & _) _]; lia|done| |lia|].
    { clear -Hus Hnf Haf Hr Hta. induction Hus as [|g fs [Hg1 Hg2] _ IH]; [constructor|]. cbn [map] in *. apply not_elem_of_cons in Hnf as [? ?], Haf as [? ?]. constructor; [|by apply IH].
      split; [rewrite Hr; apply fresh_key_app; [done|]; cbn; by apply bool_decide_eq_false_2|]. by destruct Hta as [-> | ->]. }
    exists self'. split; [done|]. split; [|split; [by rewrite Hm'|]].
    + rewrite Hr', Hr, <- app_assoc. unfold norm_fs. cbn [omap list_omap]. by rewrite Hn.
    + rewrite Hk', Hm, Hk. cbn [foldl]. f_equal. unfold key_step. rewrite Hn. done.
  - destruct (field_words_none sp n last f fs t He) as [Ew Ed]. rewrite Ew, Ed in *. destruct (IH Hall Hnd Hat last self) as (self' & -> & Hr' & Hm' & Hk'); try done.
    assert (Hn : norm_field sp norm f t = None) by (apply eq_None_not_Some; rewrite norm_enc, He; apply is_Some_None).
    exists self'. split; [done|]. split; [|split; [done|]].
    + rewrite Hr'. unfold norm_fs. cbn [omap list_omap]. by rewrite Hn.
    + rewrite Hk'. cbn [foldl]. by rewrite key_step_none.
Qed.

Lemma tags_bound fs : StronglySorted tag_lt fs -> Forall (fun f => f_tag f <= 32766) fs -> forall last, last <= 32766 -> Forall (fun f => last < f_tag f) fs ->
  len fs + gaps last fs <= 32766 - last.
Proof.
  induction 1 as [|f fs Hs IH Hf]; intros Hb last Hl Hgt; cbn [length gaps]; [cbn; lia|]. apply Forall_cons in Hb as [Hb Hbs]. apply Forall_cons in Hgt as [Hgt _].
  specialize (IH Hbs (f_tag f) Hb Hf). destruct (Z.ltb_spec (last + 1) (f_tag f)); lia.
Qed.

Lemma sproto_decode_spec st t main tail : st ∈ s_type sp -> Forall (fun f => typed_field sp typed f t) (st_f st) -> len (enc_struct sp enc st t) < 2 ^ 31 ->
  exists tag array, sproto_decode cb st (enc_struct sp enc st t ++ tail) (len (enc_struct sp enc st t)) (DecodeUd [] None None main LNil) =
    Ret (len (enc_struct sp enc st t), DecodeUd (norm_struct sp norm st t) tag array main (foldl (key_step main t) LNil (st_f st))).
Proof.
  intros Hst Hty Hl. destruct Hplain as [(_ & _ & Hw & _) Hpl]. rewrite Forall_forall in Hw, Hpl. specialize (Hw st Hst). destruct (Hpl st Hst) as [Hnames _].
  pose proof (header_words_bound sp enc _ st t Hw) as Hwords. destruct Hw as (_ & Hn & Hwf & Hs & Hat & Hmax & _).
  assert (Hpos : Forall (fun f => -1 < f_tag f) (st_f st)) by (eapply Forall_impl; [exact Hwf|]; intros f (? & _); lia).
  pose proof (tags_bound (st_f st) Hs ltac:(eapply Forall_impl; [exact Hwf|]; intros f (? & _); lia) (-1) ltac:(lia) Hpos) as Hb.
  unfold enc_struct in *. set (fs := enc_fields sp enc (st_f st) t) in *. change (concat (map (fun e => e.2.2) fs)) with (field_data fs) in *.
  change (header_words fs) with (field_words (-1) fs) in *. change (concat (map le2 (field_words (-1) fs))) with (le2s (field_words (-1) fs)) in *.
  set (ws := field_words (-1) fs) in *. rewrite !length_app in Hl |- *. change (length (le2 (len ws))) with 2%nat in *. unfold le2s in Hl |- *. rewrite length_le2s in Hl |- *.
  unfold sproto_decode, SIZEOF_HEADER, SIZEOF_FIELD. rewrite (proj2 (Z.ltb_ge _ 2)) by lia. rewrite <- !app_assoc, toword_le2, bind_Ret by lia. rewrite skip_app by done.
  rewrite (proj2 (Z.ltb_ge _ (len ws * 2))) by lia. rewrite Nat2Z.id.
  rewrite (skip_app (concat (map le2 ws))) by (rewrite length_le2s; lia).
  destruct (decode_loop_spec st t (field_data fs ++ tail) tail (st_f st)) with (last := -1) (self := DecodeUd [] None None main LNil) as (self' & E & Hr & Hm & Hk); try done.
  { apply Forall_forall. intros f Hin. split; [done|]. by rewrite Forall_forall in Hty; apply Hty. }
  { apply Forall_forall. intros f Hin. split; [by constructor|]. cbn. rewrite Forall_forall in Hwf. destruct (Hwf f Hin) as (_ & _ & [c Hc] & _). unfold name_at. by rewrite Hc. }
  { fold fs. lia. }
  fold fs ws in E. unfold le2s in E. replace (Z.of_nat (2 + (2 * length ws + length (field_data fs))) - 2 - len ws * 2) with (len (field_data fs)) by lia.
  rewrite E, bind_Ret. exists (d_array_tag self'), (d_array self'). rewrite Z.sub_0_r. do 2 f_equal. destruct self'; cbn in *. by subst.
Qed.
End step.

(** ** Tables *)

Definition key_table (sp : sproto) (n : nat) (st : sproto_type) (t : ltable) (main : Z) : lval :=
  match n with O => LNil | S n => foldl (key_step sp n main t) LNil (st_f st) end.

Lemma key_fold sp n main t g fs key : StronglySorted tag_lt fs -> g ∈ fs -> f_tag g = main -> is_array g = false ->
  foldl (key_step sp n main t) key fs = default key (norm_field sp (norm_table sp n) g t).
Proof.
  intros Hs Hg Ht Ha. assert (Hskip : forall fs key, Forall (fun f => f_tag f <> main) fs -> foldl (key_step sp n main t) key fs = key).
  { clear. intros fs. induction fs as [|f fs IH]; intros key Hf; [done|]. apply Forall_cons in Hf as [Hf Hfs]. cbn [foldl]. rewrite IH by done.
    unfold key_step. by rewrite (proj2 (Z.eqb_neq main (f_tag f))), andb_false_r by done. }
  revert key. induction Hs as [|f fs Hs IH Hf]; intros key; [by apply not_elem_of_nil in Hg|]. cbn [foldl]. apply elem_of_cons in Hg as [<-|Hg].
  - rewrite Hskip by (eapply Forall_impl; [exact Hf|]; unfold tag_lt; intros; lia). unfold key_step. by rewrite Ha, Ht, Z.eqb_refl.
  - rewrite IH by done. rewrite Forall_forall in Hf. specialize (Hf g Hg). unfold tag_lt in Hf. unfold key_step.
    by rewrite (proj2 (Z.eqb_neq main (f_tag f))), andb_false_r by lia.
Qed.

Lemma key_table_field sp n st t main g : plain sp -> st ∈ s_type sp -> field_with st main = Some g -> is_array g = false -> kind g <> SPROTO_TSTRUCT ->
  typed_table sp n st t -> key_table sp n st t main = getfield t (fname g).
Proof.
  intros [(_ & _ & Hw & _) _] Hst Hg Ha Hk Hty. rewrite Forall_forall in Hw. specialize (Hw st Hst). destruct n as [|n]; [done|]. cbn [typed_table key_table] in *.
  pose proof (findtag_field_with _ _ main Hw) as Hfw. destruct (findtag_spec _ _ main Hw) as (r & Er & Hr). rewrite Hfw, Hg in Er. injection Er as <-. destruct Hr as [Hin Ht].
  rewrite (key_fold sp n main t g) by (done || apply Hw). rewrite Forall_forall in Hty. specialize (Hty g Hin). unfold typed_field, norm_field in *. rewrite Ha in *.
  destruct (getfield t (fname g)); cbn in *; try done. by destruct Hty.
Qed.

Lemma decode_table sp n st t main tail : plain sp -> st ∈ s_type sp -> typed_table sp n st t -> len (enc_table sp n st t) < 2 ^ 31 ->
  exists tag array, sproto_decode (decode sp n) st (enc_table sp n st t ++ tail) (len (enc_table sp n st t)) (DecodeUd [] None None main LNil) =
    Ret (len (enc_table sp n st t), DecodeUd (norm_table sp n st t) tag array main (key_table sp n st t main)).
Proof.
  intros Hp. revert st t main tail. induction n as [|n IH]; intros st t main tail Hst Hty Hl; [done|]. cbn [typed_table enc_table norm_table key_table] in *.
  assert (Hkey : forall st' t' main' g, st' ∈ s_type sp -> field_with st' main' = Some g -> is_array g = false -> kind g <> SPROTO_TSTRUCT ->
    typed_table sp n st' t' -> key_table sp n st' t' main' = getfield t' (fname g)) by (intros; by apply key_table_field).
  apply (sproto_decode_spec sp n Hp (key_table sp n)); done.
Qed.
