(* ===== verification/SprotoCodec.v ===== *)
(** The codec of sproto as Lua uses it: what is encoded is decoded. *)
From S2P Require Import Prelude Sproto SprotoType SprotoCode SprotoSpec SprotoBuffer SprotoEncode SprotoDecode.

(** *** Slots of the Lua stack

    Tables of [n] levels in a schema whose types have at most [w] array fields need
    [n * (w + 2)] slots. The 135 that [lencode] has above its iterator are enough for the 64
    levels of a table without arrays, and for 45 levels with one array each. *)

Lemma zmax_bound {A} (g : A -> Z) l m : 0 <= m -> (forall x, x ∈ l -> g x <= m) -> zmax (map g l) <= m.
Proof.
  intros Hm Hg. induction l as [|x l IH]; [done|]. cbn [map zmax foldr]. fold (zmax (map g l)).
  apply Z.max_lub; [apply Hg; by left|]. apply IH. intros y Hy. apply Hg. by right.
Qed.

Lemma subtype_arrays sp w f : 0 <= w -> Forall (fun st => arrays (st_f st) <= w) (s_type sp) -> arrays (st_f (subtype sp f)) <= w.
Proof.
  intros Hw Ha. unfold subtype, type_at. destruct (f_st f) as [i|]; [|done]. cbn [mbind option_bind].
  destruct (arr_lookup (s_type sp) i) as [st|] eqn:E; [|done]. cbn [deref]. pose proof (arr_lookup_lt _ _ _ E). rewrite arr_lookup_nonneg in E by lia.
  exact (Forall_lookup_1 _ _ _ _ Ha E).
Qed.

Lemma slots_levels sp w n : 0 <= w -> Forall (fun st => arrays (st_f st) <= w) (s_type sp) ->
  forall m st t, (n <= m)%nat -> arrays (st_f st) <= w -> typed_table sp n st t -> slots_table sp m st t <= Z.of_nat n * (w + 2).
Proof.
  intros Hw Ha. induction n as [|n IH]; intros m st t Hm Hst Hty; [done|]. destruct m as [|m]; [lia|]. cbn [slots_table typed_table] in *.
  assert (Hv : forall f v, typed_value sp (typed_table sp n) f v -> slots_value sp (slots_table sp m) f v <= Z.of_nat n * (w + 2)).
  { intros f [] Hv; cbn in *; try lia. apply IH; [lia|by apply subtype_arrays|apply Hv]. }
  unfold slots_struct. assert (zmax (map (fun f => slots_field sp (slots_table sp m) f t) (st_f st)) <= Z.of_nat n * (w + 2)); [|lia].
  apply zmax_bound; [lia|]. intros f Hf. rewrite Forall_forall in Hty. specialize (Hty f Hf). unfold typed_field, slots_field in *.
  destruct (is_array f).
  - destruct (getfield t (fname f)) as [| | | | |a|]; try lia. destruct Hty as (a' & [= <-] & Hit & _). apply zmax_bound; [lia|].
    intros v Hin. apply Hv. by rewrite Forall_forall in Hit; apply Hit.
  - destruct (getfield t (fname f)); cbn [slots_value] in *; try lia. exact (Hv f (LTab t0) Hty).
Qed.

(** C12: a table whose fields have the types of the schema is encoded to its wire form,
    after the buffer has been doubled as often as it takes, unless the room that its
    encoding needs is more than half of [ENCODE_MAXSIZE]; and decoding the wire form
    gives the table back, with the fields in the order of the schema, arrays from 1 to
    the first nil, and maps under the main index of their entries. The schema is [plain]: no
    decimals, a main index only for arrays of structures, distinct names of the fields of a
    type. The table has at most 64 levels, and no more slots of the Lua stack are needed
    than [lencode] has reserved; it does not check this itself ([stack_overrun]). *)
Theorem sproto_roundtrip tonumber tostring junk sp i st t buffer sz :
  plain sp -> type_at sp (Some i) = Ret st -> typed_table sp ENCODE_DEEPLEVEL st t ->
  3 + slots_table sp ENCODE_DEEPLEVEL st t <= ENCODE_STACK -> len buffer = sz -> 1 <= sz <= ENCODE_MAXSIZE ->
  let s := enc_table sp ENCODE_DEEPLEVEL st t in
  (exists buffer' sz', lencode tonumber tostring junk sp (Some i) (LTab t) (buffer, sz) = Ret (s, (buffer', sz')) /\
     len buffer' = sz' /\ 1 <= sz' <= ENCODE_MAXSIZE /\
     ldecode sp (Some i) s (len s) None = Ret (Some (norm_table sp ENCODE_DEEPLEVEL st t, len s))) \/
  lencode tonumber tostring junk sp (Some i) (LTab t) (buffer, sz) = LuaError "object is too large" /\
    ENCODE_MAXSIZE < 2 * need_table sp ENCODE_DEEPLEVEL st t.
Proof.
  intros Hp Hst Hty Hslots Hl Hsz s. assert (Hin : st ∈ s_type sp).
  { unfold type_at in Hst. cbn [mbind option_bind] in Hst. destruct (arr_lookup (s_type sp) i) as [x|] eqn:E; [|done]. injection Hst as ->.
    pose proof (arr_lookup_lt _ _ _ E). rewrite arr_lookup_nonneg in E by lia. by eapply list_elem_of_lookup_2. }
  unfold lencode. rewrite Hst, bind_Ret. cbn [fst snd].
  destruct (lencode_loop_spec tonumber tostring junk sp st t Hp Hin Hty Hslots 26 buffer sz) as [([b z] & E & Hb & Hs)|[E Hn]]; [done|lia|left; unfold ENCODE_MAXSIZE in *; lia| |].
  - left. exists b, z. cbn [fst snd] in *. assert (Hmax : z <= ENCODE_MAXSIZE) by lia. unfold ENCODE_MAXSIZE in Hmax. split; [exact E|]. split; [done|].
    fold s in Hs. assert (0 < len s).
    { unfold s, ENCODE_DEEPLEVEL. change (enc_table sp 64 st t) with (enc_struct sp (enc_table sp 63) st t). unfold enc_struct. rewrite length_app. cbn [le2 length]. lia. }
    split; [unfold ENCODE_MAXSIZE in *; lia|].
    unfold ldecode. rewrite Hst, bind_Ret. rewrite s32_small by lia. cbn [default].
    destruct (decode_table sp ENCODE_DEEPLEVEL st t (-1) [] Hp Hin Hty) as (tg & ar & E'); [fold s; lia|]. rewrite app_nil_r in E'. fold s in E'.
    rewrite E', bind_Ret. rewrite (proj2 (Z.ltb_ge _ 0)) by lia. done.
  - right. done.
Qed.

(** *** A table with every kind of field *)

Definition lstr (s : string) : lval := LStr (str s).
Definition demo_phone (number : string) (k : Z) : lval := LTab [(lstr "number", lstr number); (lstr "kind", LInt k)].
Definition demo_friend : ltable := [(lstr "name", lstr "al"); (lstr "age", LInt 70000)].

Definition demo_table : ltable :=
  [(lstr "age", LInt (-3)); (lstr "name", lstr "bob"); (lstr "married", LBool true);
   (lstr "friends", LTab [(LInt 1, LTab demo_friend); (LInt 2, LTab [])]);
   (lstr "phones", LTab [(lstr "12", demo_phone "12" 1); (lstr "34", demo_phone "34" 5000000000)]);
   (lstr "marks", LTab [(LInt 1, LInt 5); (LInt 2, LInt (-1)); (LInt 3, LInt (2 ^ 40)); (LInt 4, LInt 7)]);
   (lstr "flags", LTab [(LInt 1, LBool true); (LInt 2, LBool false)]); (lstr "tags", LTab []); (lstr "phone", demo_phone "x" 7)].

Definition plain_ok (sp : sproto) : bool := forallb (fun t => bool_decide (NoDup (map fname (st_f t))) &&
  forallb (fun f => (negb (kind f =? SPROTO_TINTEGER) || (f_extra f =? 0)) && ((f_key f <? 0) || is_array f && (kind f =? SPROTO_TSTRUCT))) (st_f t)) (s_type sp).

Lemma plain_ok_plain sp : wf_sproto sp -> plain_ok sp = true -> plain sp.
Proof.
  intros Hw Hc. split; [done|]. apply Forall_forall. intros t Ht. unfold plain_ok in Hc. rewrite forallb_forall in Hc. apply list_elem_of_In in Ht. specialize (Hc t Ht).
  apply andb_true_iff in Hc as [Hn Hf]. split; [by apply bool_decide_eq_true in Hn|]. apply Forall_forall. intros f Hin. rewrite forallb_forall in Hf.
  apply list_elem_of_In in Hin. specialize (Hf f Hin). apply andb_true_iff in Hf as [H1 H2]. split; intros Hk.
  - apply orb_true_iff in H1 as [H1|H1]; [|by apply Z.eqb_eq]. apply negb_true_iff, Z.eqb_neq in H1. by destruct H1.
  - apply orb_true_iff in H2 as [H2|H2]; [apply Z.ltb_lt in H2; lia|]. apply andb_true_iff in H2 as [? H2]. split; [done|]. by apply Z.eqb_eq.
Qed.

Lemma demo_plain : plain demo_schema.
Proof.
  apply plain_ok_plain; [|vm_compute; reflexivity]. apply (create_wf demo_bundle); [apply all_words_ok|]; vm_compute; reflexivity.
Qed.

(** *** Deciding whether a table has the types of the schema *)

Section decide.
Context (sp : sproto) (rec : sproto_type -> ltable -> bool).

Definition value_ok (f : field) (v : lval) : bool :=
  match v with
  | LInt i => (kind f =? SPROTO_TINTEGER) && (- 2 ^ 63 <=? i) && (i <? 2 ^ 63)
  | LBool _ => kind f =? SPROTO_TBOOLEAN
  | LStr _ => kind f =? SPROTO_TSTRING
  | LTab t => (kind f =? SPROTO_TSTRUCT) && rec (subtype sp f) t
  | _ => false
  end.

Definition entry_ok (f : field) (e : lval * lval) : bool :=
  match e.2, field_with (subtype sp f) (f_key f) with
  | LTab t, Some g => negb (is_array g) && negb (kind g =? SPROTO_TSTRUCT) && key_eqb e.1 (getfield t (fname g)) && match e.1 with LNum _ => false | _ => true end
  | _, _ => false
  end.

(** The keys of a table differ. *)
Fixpoint keys_differ (t : ltable) : bool :=
  match t with [] => true | (k, _) :: t => forallb (fun e => match k, e.1 with
    | LInt a, LInt b => negb (a =? b) | LBool a, LBool b => negb (Bool.eqb a b) | LStr a, LStr b => negb (bool_decide (a = b)) | _, _ => false end) t && keys_differ t end.

Definition field_ok (f : field) (t : ltable) : bool :=
  match getfield t (fname f) with
  | LNil => true
  | v =>
      if is_array f then
        match v with LTab a => forallb (value_ok f) (items f a) && ((f_key f <? 0) || forallb (entry_ok f) a && keys_differ a) | _ => false end
      else value_ok f v
  end.
End decide.

Fixpoint table_ok (sp : sproto) (n : nat) (st : sproto_type) (t : ltable) : bool :=
  match n with O => false | S n => forallb (fun f => field_ok sp (table_ok sp n) f t) (st_f st) end.

Lemma keys_differ_NoDup t : keys_differ t = true -> NoDup (map fst t).
Proof.
  induction t as [|[k v] t IH]; [constructor|]. cbn. intros [Hk Ht]%andb_true_iff. constructor; [|by apply IH].
  intros Hin. apply list_elem_of_fmap in Hin as (e & -> & He). rewrite forallb_forall in Hk. apply list_elem_of_In in He. specialize (Hk e He).
  destruct e.1; try done; apply negb_true_iff in Hk; [by rewrite Bool.eqb_reflx in Hk|by rewrite Z.eqb_refl in Hk|by rewrite bool_decide_eq_true_2 in Hk].
Qed.

Lemma table_ok_typed sp n st t : table_ok sp n st t = true -> typed_table sp n st t.
Proof.
  revert st t. induction n as [|n IH]; intros st t; [done|]. cbn [table_ok typed_table]. rewrite forallb_forall. intros H. apply Forall_forall. intros f Hf.
  apply list_elem_of_In in Hf. specialize (H f Hf). clear Hf.
  assert (Hv : forall v, value_ok sp (table_ok sp n) f v = true -> typed_value sp (typed_table sp n) f v).
  { intros []; cbn; try done; rewrite ?andb_true_iff, ?Z.eqb_eq, ?Z.leb_le, ?Z.ltb_lt; try tauto. intros [? ?]. auto. }
  unfold field_ok, typed_field in *. destruct (getfield t (fname f)) as [| | | | |a|]; [done|..]; (destruct (is_array f); [try done|by apply Hv]).
  apply andb_true_iff in H as [Ha Hm]. exists a. split; [done|]. rewrite forallb_forall in Ha. split.
  { apply Forall_forall. intros v Hin. apply Hv, Ha. by apply list_elem_of_In. }
  intros Hk. rewrite (proj2 (Z.ltb_ge _ _) Hk) in Hm. cbn in Hm. apply andb_true_iff in Hm as [He Hd]. split; [|by apply keys_differ_NoDup].
  apply Forall_forall. intros e Hin. rewrite forallb_forall in He. apply list_elem_of_In in Hin. specialize (He e Hin). unfold entry_ok in He.
  destruct (e.2) as [| | | | |t'|] eqn:E2; try done. destruct (field_with _ _) as [g|] eqn:Eg; [|done]. exists t', g. rewrite !andb_true_iff, !negb_true_iff, Z.eqb_neq in He.
  destruct He as [[[Hg1 Hg2] Hg3] Hg4]. assert (e.1 = getfield t' (fname g)) as <- by (apply key_eqb_eq; [done|]; intros x E; by rewrite E in Hg4).
  split_and!; try done. intros E. by rewrite E in Hg3.
Qed.

Definition demo_person : sproto_type := Eval vm_compute in match s_type demo_schema !! 0%nat with Some st => st | None => SType None 0 0 0 [] end.

Definition demo_wire : bytes := Eval vm_compute in enc_table demo_schema ENCODE_DEEPLEVEL demo_person demo_table.

Definition no_numbers (b : bytes) : option lval := None.
Definition no_strings (v : lval) : bytes := [].

Lemma sproto_roundtrip_witness :
  (exists buffer' sz', lencode no_numbers no_strings (fun _ => 170) demo_schema (Some 0) (LTab demo_table) (replicate 64 170, 64) = Ret (demo_wire, (buffer', sz')) /\
     len buffer' = sz' /\ 1 <= sz' <= ENCODE_MAXSIZE /\
     ldecode demo_schema (Some 0) demo_wire (len demo_wire) None = Ret (Some (norm_table demo_schema ENCODE_DEEPLEVEL demo_person demo_table, len demo_wire))) \/
  lencode no_numbers no_strings (fun _ => 170) demo_schema (Some 0) (LTab demo_table) (replicate 64 170, 64) = LuaError "object is too large" /\
    ENCODE_MAXSIZE < 2 * need_table demo_schema ENCODE_DEEPLEVEL demo_person demo_table.
Proof.
  apply (sproto_roundtrip no_numbers no_strings (fun _ => 170) demo_schema 0 demo_person demo_table (replicate 64 170) 64).
  - exact demo_plain.
  - vm_compute. reflexivity.
  - apply table_ok_typed. vm_compute. reflexivity.
  - vm_compute. discriminate.
  - vm_compute. reflexivity.
  - split; vm_compute; discriminate.
Defined.

(** The table is small enough, and comes back with its fields in the order of the schema. *)
Lemma demo_roundtrip : need_table demo_schema ENCODE_DEEPLEVEL demo_person demo_table = 421 /\
  map fst (norm_table demo_schema ENCODE_DEEPLEVEL demo_person demo_table) =
    map lstr ["name"; "age"; "married"; "friends"; "phones"; "marks"; "flags"; "tags"; "phone"]%string /\
  getfield (norm_table demo_schema ENCODE_DEEPLEVEL demo_person demo_table) (str "friends") =
    LTab [(LInt 1, LTab demo_friend); (LInt 2, LTab [])].
Proof. split_and!; vm_compute; reflexivity. Qed.

(** A person with one friend, who has one friend, and so on. *)
Fixpoint nested (n : nat) : ltable :=
  match n with O => demo_friend | S n => [(lstr "name", lstr "x"); (lstr "friends", LTab [(LInt 1, LTab (nested n))])] end.

(** Encoding 46 levels, of the 64 that are allowed, uses slots of the Lua stack that [lencode]
    has not reserved: every level keeps three of them, its table, its iterator and its array. *)
Lemma stack_overrun :
  lencode no_numbers no_strings (fun _ => 170) demo_schema (Some 0) (LTab (nested 45)) (replicate 4096 170, 4096) = Undefined.
Proof. vm_compute. reflexivity. Qed.

(** The sum of the length of a field and 4 wraps around: the check of [sproto_decode]
    passes, and what follows the data is read. *)
Lemma decode_wrap_overreads :
  ldecode demo_schema (Some 0) ([2; 0; 17; 0; 0; 0] ++ [255; 255; 255; 255] ++ [1; 2; 3]) 13 None = Undefined.
Proof. vm_compute. reflexivity. Qed.
