(* ===== verification/SprotoSafe.v ===== *)
(** Decoding what comes from the network: [sproto_decode] reads nothing but the data,
    provided that no length in it wraps around. *)
From S2P Require Import Prelude Sproto SprotoType SprotoCode SprotoSpec SprotoBuffer SprotoDecode SprotoCodec.

#[local] Arguments Z.mul : simpl never.
#[local] Arguments Z.add : simpl never.
#[local] Opaque Z.to_nat.

(** ** Outcomes that are no undefined behaviour *)

Definition safe {A} (P : A -> Prop) (o : outcome A) : Prop := match o with Ret a => P a | LuaError _ => True | _ => False end.

Lemma safe_bind {A B} (P : A -> Prop) (Q : B -> Prop) (o : outcome A) (f : A -> outcome B) : safe P o -> (forall a, P a -> safe Q (f a)) -> safe Q (o ≫= f).
Proof. destruct o; cbn; auto. Qed.

Lemma safe_weaken {A} (P Q : A -> Prop) (o : outcome A) : safe P o -> (forall a, P a -> Q a) -> safe Q o.
Proof. destruct o; cbn; auto. Qed.

(** ** Data *)

(** No four bytes are a length to which 4 cannot be added. *)
Definition no_wrap (data : bytes) : Prop := forall i v, 0 <= i -> todword (skip i data) = Ret v -> v + SIZEOF_LENGTH < 2 ^ 32.

Definition clean (data : bytes) : Prop := is_bytes data /\ no_wrap data.

Lemma skip_skip a b (s : bytes) : 0 <= a -> 0 <= b -> skip a (skip b s) = skip (a + b) s.
Proof. intros. unfold skip. rewrite drop_drop. f_equal. lia. Qed.

Lemma clean_skip n s : 0 <= n -> clean s -> clean (skip n s).
Proof.
  intros Hn [Hb Hw]. split; [by apply is_bytes_skip|]. intros i v Hi. rewrite skip_skip by lia. apply Hw. lia.
Qed.

Lemma length_skip n (s : bytes) : 0 <= n <= len s -> len (skip n s) = len s - n.
Proof. intros. unfold skip. rewrite length_drop. lia. Qed.

Lemma todword_in s : clean s -> 4 <= len s -> exists v, todword s = Ret v /\ 0 <= v /\ v + 4 < 2 ^ 32.
Proof.
  intros [Hb Hw] Hl. assert (exists v, todword s = Ret v) as [v E].
  { destruct s as [|a [|b [|c [|d s]]]]; cbn [length] in Hl; try lia. by eexists. }
  exists v. split; [done|]. pose proof (todword_range s v E). specialize (Hw 0 v ltac:(lia) E). unfold SIZEOF_LENGTH in *. lia.
Qed.

Lemma toword_in s : is_bytes s -> 2 <= len s -> exists v, toword s = Ret v /\ 0 <= v < 2 ^ 16.
Proof.
  intros Hb Hl. assert (exists v, toword s = Ret v) as [v E] by (destruct s as [|a [|b s]]; cbn [length] in Hl; try lia; by eexists).
  exists v. split; [done|]. by eapply toword_range.
Qed.

(** ** Tables *)

Lemma getfield_rawset t name v : getfield (rawset t (LStr name) v) name = v.
Proof.
  induction t as [|[k w] t IH]; cbn; [by rewrite bool_decide_eq_true_2|]. destruct k; cbn; try done.
  case_bool_decide; cbn; [by rewrite bool_decide_eq_true_2|]. by rewrite bool_decide_eq_false_2.
Qed.

(** The slot of the array that is filled holds a table. *)
Definition settled (f : field) (self : decode_ud) : Prop :=
  d_array_tag self = name_at f -> d_array self = Some (fname f) /\ exists t, getfield (d_result self) (fname f) = LTab t.

Definition moved (f : field) (self self' : decode_ud) : Prop := d_array_tag self' = d_array_tag self \/ d_array_tag self' = name_at f.

Lemma in_array_safe f self g : d_array_tag self = name_at f -> settled f self -> (forall t, safe (fun _ => True) (g t)) ->
  safe (fun self' => d_array_tag self' = name_at f /\ settled f self') (in_array self g).
Proof.
  intros Ht Hs Hg. destruct (Hs Ht) as [Ha [t Et]]. unfold in_array. rewrite Ha. cbn [deref]. rewrite bind_Ret, Et.
  specialize (Hg t). destruct (g t) as [t'| | |]; [|done..]. rewrite bind_Ret. cbn. split; [done|]. intros _. split; [done|]. exists t'. apply getfield_rawset.
Qed.

Lemma settable_safe t k v : safe (fun _ => True) (settable t k v).
Proof. destruct k as [| | |[| | |]| | |]; done. Qed.

(** The decoder fails, or has read no more than there is. *)
Definition in_bounds (size : Z) (r : Z * decode_ud) : Prop := r.1 = -1 \/ SIZEOF_HEADER <= r.1 <= size.


(** ** Fields of a schema *)

Section schema.
Context (sp : sproto).
Hypothesis Hwf : wf_sproto sp.
Hypothesis Hkeys : Forall (fun t => Forall (fun f => 0 <= f_key f -> is_array f = true) (st_f t)) (s_type sp).

Definition of_types (f : field) : Prop := exists st, st ∈ s_type sp /\ f ∈ st_f st.

Lemma types_field f : of_types f -> wf_field (s_type_n sp) f /\ (0 <= f_key f -> is_array f = true).
Proof.
  intros (st & Hst & Hf). destruct Hwf as (_ & _ & Ht & _). rewrite Forall_forall in Ht, Hkeys. destruct (Ht st Hst) as (_ & _ & Hw & _).
  specialize (Hkeys st Hst). rewrite Forall_forall in Hw, Hkeys. auto.
Qed.

Lemma struct_type f : of_types f -> kind f = SPROTO_TSTRUCT -> exists st, type_at sp (f_st f) = Ret st /\ st ∈ s_type sp.
Proof.
  intros Hf Hk. destruct (types_field f Hf) as [(_ & _ & _ & t & a & E & Ha & Ht) _].
  destruct Ht as [[Ht _]|[_ (i & Hi & Hr)]].
  { exfalso. revert Hk. unfold kind. rewrite E. unfold SPROTO_TARRAY, SPROTO_TSTRUCT in *. assert (t = 0 \/ t = 1 \/ t = 2) as Hc by lia.
    destruct Ha as [-> | ->], Hc as [-> |[-> | ->]]; done. }
  unfold type_at. rewrite Hi. cbn [mbind option_bind]. destruct Hwf as (Hn & _). destruct (arr_lookup_is_Some (s_type sp) i ltac:(lia)) as [st Hst].
  rewrite Hst. exists st. split; [done|]. rewrite arr_lookup_nonneg in Hst by lia. by eapply list_elem_of_lookup_2.
Qed.

(** What the pointer and the length must be. *)
Definition ptr_ok (f : field) (p : value_ptr) (size : Z) : Prop :=
  if (kind f =? SPROTO_TINTEGER) || (kind f =? SPROTO_TBOOLEAN) then exists w, p = VLocal w
  else exists b, p = VAt b /\ clean b /\ size <= len b /\ size < 2 ^ 31.

(** Behind the callback for the element [index] of an array, or for a field. *)
Definition after (f : field) (index : Z) (self : decode_ud) (r : Z * decode_ud) : Prop :=
  moved f self r.2 /\ (index <> 0 -> d_array_tag r.2 = name_at f /\ settled f r.2).

(** Behind an array. *)
Definition after_array (f : field) (self : decode_ud) (r : Z * decode_ud) : Prop := moved f self r.2 /\ settled f r.2.

(** What a callback must do. *)
Definition callback_ok (cb : sproto_arg -> decode_ud -> outcome (Z * decode_ud)) : Prop :=
  (forall f p size index self, of_types f -> 0 <= index -> (index = 0 -> is_array f = false) -> settled f self \/ index = 0 -> ptr_ok f p size ->
     safe (after f index self) (cb (set_value (field_arg f (kind f)) p size index) self)) /\
  (forall f self, of_types f -> d_array_tag self <> name_at f -> safe (after_array f self) (cb (set_value (field_arg f (kind f)) VNull 0 (-1)) self)).

(** ** The callback of lsproto.c *)

Section step.
Context (n : nat).
Abbreviation cb := (decode sp (S n)).

Hypothesis Hsub : forall st data size self, st ∈ s_type sp -> clean data -> size <= len data -> size < 2 ^ 31 -> d_array_tag self = None ->
  safe (in_bounds size) (sproto_decode (decode sp n) st data size self).

Lemma store_safe f ty p size index self self0 v : moved f self0 self -> (index <> 0 -> d_array_tag self = name_at f /\ settled f self) -> 0 <= index ->
  safe (after f index self0) (self ← store_value (set_value (field_arg f ty) p size index) (fname f) v self; Ret (0, self)).
Proof.
  intros Hm Hi H0. unfold store_value. cbn [a_index set_value field_arg a_tagid]. destruct (Z.ltb_spec 0 index).
  - destruct Hi as [Ht Hs]; [lia|]. eapply safe_bind; [by apply (in_array_safe f)|]. intros self' [Ht' Hs']. cbn. split; [by right|]. done.
  - rewrite bind_Ret. cbn. split; [done|]. cbn. lia.
Qed.

Lemma cb_safe f p size index self : of_types f -> 0 <= index -> (index = 0 -> is_array f = false) -> settled f self \/ index = 0 -> ptr_ok f p size ->
  safe (after f index self) (cb (set_value (field_arg f (kind f)) p size index) self).
Proof.
  intros Hf Hi Harr Hs Hp. destruct (types_field f Hf) as [Hw Hkey]. pose proof (kind_range f _ Hw) as Hk. destruct Hw as (_ & _ & [c Hc] & _). cbn [decode].
  cbn [a_tagname set_value field_arg a_index a_type a_value a_extra a_length a_subtype a_mainindex]. rewrite Hc. cbn [deref]. rewrite bind_Ret.
  assert (Hname : fname f = cs_str c /\ name_at f = Some (cs_at c)) by (unfold fname, name_at; rewrite Hc; done). destruct Hname as [Hn Hat]. rewrite <- Hn, <- Hat.
  set (new := negb (index =? 0) && negb (bool_decide (d_array_tag self = name_at f))).
  set (self1 := if new then _ else self). replace (new && (index <? 0)) with false by (rewrite (proj2 (Z.ltb_ge index 0)), andb_false_r by done; done).
  assert (Hm : moved f self self1) by (unfold self1, moved; destruct new; auto).
  assert (H1 : index <> 0 -> d_array_tag self1 = name_at f /\ settled f self1).
  { intros Hne. unfold self1, new. rewrite (proj2 (Z.eqb_neq index 0) Hne). cbn [negb andb]. case_bool_decide as Ht; cbn [negb].
    - destruct Hs as [Hs|]; done.
    - split; [done|]. intros _. split; [done|]. exists []. apply getfield_rawset. }
  clearbody self1 new. unfold ptr_ok in Hp. change SPROTO_TINTEGER with 0 in *. change SPROTO_TBOOLEAN with 1 in *. change SPROTO_TSTRING with 2. change SPROTO_TSTRUCT with 3.
  destruct Hk as [Hk|[Hk|[Hk|Hk]]]; rewrite Hk in Hp |- *; cbn [Z.eqb orb Pos.eqb] in Hp |- *.
  1,2: destruct Hp as [w ->]; cbn [at_local]; rewrite bind_Ret; by apply store_safe.
  - destruct Hp as (b & -> & Hb & Hl & _). cbn [at_buffer]. rewrite bind_Ret. unfold pushlstring. destruct (size <? 0); [done|].
    rewrite (proj2 (Z.ltb_ge _ _) Hl), bind_Ret. by apply store_safe.
  - destruct Hp as (b & -> & Hb & Hl & Hsz). destruct (struct_type f Hf Hk) as (st & -> & Hst). cbn [at_buffer]. rewrite !bind_Ret.
    assert (Ha : safe (after f index self) (Ret (SPROTO_CB_ERROR, self1))) by done.
    eapply safe_bind; [by apply Hsub|]. intros [r sub] _. destruct (r <? 0); [done|]. destruct (negb (r =? size)); [done|]. destruct (Z.leb_spec 0 (f_key f)) as [Hmap|].
    + assert (Hne : index <> 0) by (intros E; specialize (Hkey Hmap); specialize (Harr E); congruence). destruct (H1 Hne) as [Ht1 Hs1].
      assert (Hset : forall key, safe (after f index self) (self ← in_array self1 (fun t => settable t key (LTab (d_result sub))); Ret (0, self))).
      { intros key. eapply safe_bind; [apply (in_array_safe f); [done..|intros; apply settable_safe]|]. intros self' [Ht' Hs']. split; [by right|done]. }
      by destruct (d_key sub).
    + by apply store_safe.
Qed.

Lemma cb_empty_safe f self : of_types f -> d_array_tag self <> name_at f -> safe (after_array f self) (cb (set_value (field_arg f (kind f)) VNull 0 (-1)) self).
Proof.
  intros Hf Ht. destruct (types_field f Hf) as [(_ & _ & [c Hn] & _) _]. cbn [decode]. cbn [a_tagname set_value field_arg a_index]. rewrite Hn. cbn [deref]. rewrite bind_Ret.
  assert (Hat : name_at f = Some (cs_at c)) by (unfold name_at; by rewrite Hn). rewrite <- Hat. rewrite bool_decide_eq_false_2 by done. cbn.
  split; [by right|]. intros _. cbn. unfold fname. rewrite Hn. split; [done|]. exists []. apply getfield_rawset.
Qed.

Lemma decode_callback : callback_ok cb.
Proof. split; [intros; by apply cb_safe|intros; by apply cb_empty_safe]. Qed.
End step.

(** ** The decoder with any such callback *)

Section loops.
Context (cb : sproto_arg -> decode_ud -> outcome (Z * decode_ud)).
Hypothesis Hcb : callback_ok cb.

(** ** Arrays *)

Lemma after_item f index self self' r : 0 < index -> moved f self self' -> after f index self' r -> after_array f self r.
Proof. intros Hi Hm [Hm' Hs]. destruct Hs as [Ht Hs]; [lia|]. split; [by right|done]. Qed.

Lemma moved_trans f a b c : moved f a b -> moved f b c -> moved f a c.
Proof. unfold moved. intros [E|E] [E'|E']; rewrite ?E', ?E; auto. Qed.

Lemma cb_item_safe f p size index self self0 : of_types f -> 0 < index -> moved f self0 self -> settled f self -> ptr_ok f p size ->
  safe (after_array f self0) (cb (set_value (field_arg f (kind f)) p size index) self).
Proof.
  intros Hf Hi Hm Hs Hp. eapply safe_weaken; [apply (proj1 Hcb); [done|lia|lia|by left|done]|]. intros r. by apply after_item.
Qed.

Lemma scalar_loop_safe f get width self0 : of_types f -> kind f = SPROTO_TINTEGER \/ kind f = SPROTO_TBOOLEAN -> 0 < width ->
  (forall s, clean s -> width <= len s -> exists w, get s = Ret w) ->
  forall fuel stream sz index self, (Z.of_nat fuel > sz) -> 0 <= sz -> sz mod width = 0 -> clean stream -> sz <= len stream -> 0 < index -> moved f self0 self -> settled f self ->
  safe (after_array f self0) (scalar_loop cb fuel get width (field_arg f (kind f)) stream sz index self).
Proof.
  intros Hf Hk Hw Hget. induction fuel as [|fuel IH]; intros stream sz index self Hfuel Hsz Hmod Hc Hl Hi Hm Hs; [lia|]. cbn [scalar_loop].
  destruct (Z.leb_spec sz 0); [done|]. assert (width <= sz).
  { destruct (Z.lt_ge_cases sz width) as [Hlt|]; [|done]. rewrite Z.mod_small in Hmod by lia. lia. }
  destruct (Hget stream) as [w ->]; [done|lia|]. rewrite bind_Ret. eapply safe_bind.
  { apply (cb_item_safe f _ _ _ self self0); try done. unfold ptr_ok. replace (_ || _) with true by (destruct Hk as [-> | ->]; done). by eexists. }
  intros [r self'] [Hm' Hs']. apply IH; [lia|lia| |apply clean_skip; [lia|done]|rewrite length_skip; lia|lia|done|done].
  replace (sz - width) with (sz + (-1) * width) by lia. by rewrite Z.mod_add by lia.
Qed.

Lemma object_loop_safe f self0 : of_types f -> kind f = SPROTO_TSTRING \/ kind f = SPROTO_TSTRUCT ->
  forall fuel stream sz index self, (Z.of_nat fuel > sz) -> 0 <= sz < 2 ^ 31 -> clean stream -> sz <= len stream -> 0 < index -> moved f self0 self -> settled f self ->
  safe (after_array f self0) (array_object_loop cb fuel (field_arg f (kind f)) stream sz index self).
Proof.
  intros Hf Hk. induction fuel as [|fuel IH]; intros stream sz index self Hfuel Hsz Hc Hl Hi Hm Hs; cbn [array_object_loop]; [lia|].
  destruct (Z.ltb_spec 0 sz); [|done]. destruct (Z.ltb_spec sz SIZEOF_LENGTH); [done|]. unfold SIZEOF_LENGTH in *.
  destruct (todword_in stream Hc) as (hsz & -> & Hh & _); [lia|]. rewrite bind_Ret. assert (Hc4 : clean (skip 4 stream)) by (apply clean_skip; [lia|done]).
  destruct (Z.ltb_spec (sz - 4) hsz); [done|]. eapply safe_bind.
  { apply (cb_item_safe f _ _ _ self self0); try done. unfold ptr_ok. replace (_ || _) with false by (destruct Hk as [-> | ->]; done).
    eexists. split; [done|]. split; [done|]. rewrite length_skip by lia. lia. }
  intros [r self'] [Hm' Hs']. destruct (negb (r =? 0)); [done|]. apply IH; [lia|lia|apply clean_skip; [lia|done]| |lia|done|done].
  rewrite !length_skip by (rewrite ?length_skip; lia). lia.
Qed.

(** A pointer to the length of a field, which is inside the data. *)
Definition framed_in (data : bytes) : Prop := clean data /\ exists sz, todword data = Ret sz /\ 0 <= sz /\ sz + 4 <= len data /\ sz < 2 ^ 31.

Lemma decode_array_safe f data self : of_types f -> framed_in data -> d_array_tag self <> name_at f ->
  safe (after_array f self) (decode_array cb (field_arg f (kind f)) data self).
Proof.
  intros Hf (Hc & sz & E & H0 & Hsz & Hlen) Ht. assert (Hs : settled f self) by (intros E'; congruence). assert (Hm : moved f self self) by (by left).
  unfold decode_array. rewrite E, bind_Ret. destruct (types_field f Hf) as [Hw _]. pose proof (kind_range f _ Hw) as Hk. destruct (Z.eqb_spec sz 0) as [->|Hne].
  { eapply safe_bind; [by apply (proj2 Hcb)|]. by intros [r self']. }
  set (stream := skip SIZEOF_LENGTH data). assert (Hcs : clean stream) by (by apply clean_skip).
  assert (Hls : len stream = len data - 4) by (unfold stream, SIZEOF_LENGTH; rewrite length_skip; lia). clearbody stream.
  cbn [a_type field_arg]. destruct (Z.eqb_spec (kind f) SPROTO_TINTEGER) as [Hi|Hi].
  { destruct stream as [|b stream]; [cbn in Hls; lia|]. rewrite arr_get_head, bind_Ret. cbn [length] in Hls.
    assert (Hcs' : clean stream) by (by apply (clean_skip 1 (b :: stream))). change (skip 1 (b :: stream)) with stream.
    assert (Hlen32 : forall s, clean s -> 4 <= len s -> exists w, get_int32 s = Ret w).
    { intros s Hcl Hle. unfold get_int32. destruct (todword_in s Hcl Hle) as (v & -> & _). by eexists. }
    assert (Hlen64 : forall s, clean s -> 8 <= len s -> exists w, get_int64 s = Ret w).
    { intros s Hcl Hle. unfold get_int64. destruct (todword_in s Hcl ltac:(lia)) as (v & -> & _). rewrite bind_Ret.
      destruct (todword_in (skip SIZEOF_INT32 s)) as (v' & -> & _); [by apply clean_skip|unfold SIZEOF_INT32; rewrite length_skip; lia|]. by eexists. }
    destruct (b =? SIZEOF_INT32).
    { destruct (Z.eqb_spec ((sz - 1) mod SIZEOF_INT32) 0); cbn [negb]; [|done]. apply scalar_loop_safe; try done; try (by left); lia. }
    destruct (b =? SIZEOF_INT64); [|done]. destruct (Z.eqb_spec ((sz - 1) mod SIZEOF_INT64) 0); cbn [negb]; [|done].
    apply scalar_loop_safe; try done; try (by left); lia. }
  destruct (Z.eqb_spec (kind f) SPROTO_TBOOLEAN).
  { apply scalar_loop_safe; try done; try (by right); try apply Z.mod_1_r; try lia. intros s _ Hle. destruct s as [|x s]; [cbn in Hle; lia|]. by eexists. }
  assert (Hso : kind f = SPROTO_TSTRING \/ kind f = SPROTO_TSTRUCT) by (unfold SPROTO_TINTEGER, SPROTO_TBOOLEAN, SPROTO_TSTRING, SPROTO_TSTRUCT in *; lia).
  replace (_ || _) with true by (destruct Hso as [-> | ->]; done). unfold decode_array_object. rewrite s32_small by lia.
  apply object_loop_safe; try done; lia.
Qed.

(** ** Fields *)

Lemma decode_value_safe f value data self : of_types f -> (value < 0 -> framed_in data) -> d_array_tag self <> name_at f ->
  safe (fun r => moved f self r.2) (decode_value cb f value data self).
Proof.
  intros Hf Hd Ht. unfold decode_value. destruct (types_field f Hf) as [Hw _]. fold (kind f). fold (is_array f).
  assert (Hone : forall p size, is_array f = false -> ptr_ok f p size -> safe (after f 0 self) (cb (set_value (field_arg f (kind f)) p size 0) self)).
  { intros p size Ha Hp. apply (proj1 Hcb); try done. by right. }
  destruct (Z.ltb_spec value 0) as [Hlt|Hge].
  - destruct (Hd Hlt) as (Hc & sz & E & H0 & Hsz & Hlen). assert (Hc4 : clean (skip SIZEOF_LENGTH data)) by (by apply clean_skip). destruct (is_array f) eqn:Ha.
    { eapply safe_bind; [apply decode_array_safe; [done|by apply Hd|done]|]. by intros [r self'] [Hm _]. }
    rewrite (type_single f _ Hw Ha). destruct (Z.eqb_spec (kind f) SPROTO_TINTEGER) as [Hi|Hi].
    { assert (Hv : forall w, safe (fun r => moved f self r.2) ('(_, u) ← cb (set_value (field_arg f (kind f)) (VLocal w) 8 0) self; Ret (0, u))).
      { intros w. eapply safe_bind; [apply Hone; [done|]|by intros [r self'] [Hm _]]. unfold ptr_ok. rewrite Hi. by exists w. }
      assert (Hl4 : len (skip SIZEOF_LENGTH data) = len data - 4) by (unfold SIZEOF_LENGTH; rewrite length_skip; lia).
      rewrite E, bind_Ret. destruct (Z.eqb_spec sz SIZEOF_INT32) as [->|]; unfold SIZEOF_INT32, SIZEOF_INT64 in *.
      - unfold get_int32. destruct (todword_in _ Hc4) as (v & -> & _); [lia|]. rewrite !bind_Ret. apply Hv.
      - destruct (Z.eqb_spec sz 8) as [->|]; cbn [negb]; [|by left]. unfold get_int64. destruct (todword_in _ Hc4) as (v & -> & _); [lia|]. rewrite !bind_Ret.
        destruct (todword_in (skip SIZEOF_INT32 (skip SIZEOF_LENGTH data))) as (v' & -> & _); [by apply clean_skip|unfold SIZEOF_INT32; rewrite length_skip; lia|].
        rewrite !bind_Ret. apply Hv. }
    destruct ((kind f =? SPROTO_TSTRING) || (kind f =? SPROTO_TSTRUCT)) eqn:Hso; [|by left].
    rewrite E, bind_Ret. rewrite s32_small by lia. eapply safe_bind; [apply Hone; [done|]|by intros [r self'] [Hm _]].
    unfold ptr_ok. replace (_ || _) with false by (apply orb_true_iff in Hso as [Hso|Hso]; apply Z.eqb_eq in Hso; by rewrite Hso).
    eexists. split; [done|]. split; [done|]. unfold SIZEOF_LENGTH. rewrite length_skip by lia. lia.
  - destruct (negb (f_type f =? SPROTO_TINTEGER) && negb (f_type f =? SPROTO_TBOOLEAN)) eqn:Ht'; [by left|].
    assert (Hk : (f_type f = SPROTO_TINTEGER \/ f_type f = SPROTO_TBOOLEAN)).
    { apply andb_false_iff in Ht' as [Ht'|Ht']; apply negb_false_iff, Z.eqb_eq in Ht'; auto. }
    assert (Ha : is_array f = false) by (unfold is_array; by destruct Hk as [-> | ->]). rewrite (type_single f _ Hw Ha) in Hk.
    eapply safe_bind; [apply Hone; [done|]|by intros [r self'] [Hm _]]. unfold ptr_ok. replace (_ || _) with true by (destruct Hk as [-> | ->]; done). by eexists.
Qed.

(** The array that is filled belongs to a field with a tag that has been passed. *)
Definition passed (st : sproto_type) (tag : Z) (self : decode_ud) : Prop :=
  d_array_tag self = None \/ exists g, g ∈ st_f st /\ d_array_tag self = name_at g /\ f_tag g <= tag.

Lemma passed_next st tag tag' self : tag <= tag' -> passed st tag self -> passed st tag' self.
Proof. intros Ht [?|(g & ? & ? & ?)]; [by left|]. right. exists g. split_and!; [done|done|lia]. Qed.

Lemma passed_untouched st tag self f : wf_type (s_type_n sp) st -> f ∈ st_f st -> tag < f_tag f -> passed st tag self -> d_array_tag self <> name_at f.
Proof.
  intros (_ & _ & Hwfs & _ & Hnd & _) Hf Ht Hp E. assert (Hsome : name_at f <> None).
  { rewrite Forall_forall in Hwfs. destruct (Hwfs f Hf) as (_ & _ & [c Hc] & _). unfold name_at. by rewrite Hc. }
  destruct Hp as [Hp|(g & Hg & Eg & Hle)]; [congruence|]. apply list_elem_of_lookup in Hf as [i Hi], Hg as [j Hj].
  assert (i = j) as -> by (eapply (NoDup_lookup (map name_at (st_f st))); [done|by rewrite list_lookup_fmap, Hi|rewrite list_lookup_fmap, Hj; cbn; congruence]).
  rewrite Hi in Hj. injection Hj as ->. lia.
Qed.

Lemma decode_loop_safe st n' : st ∈ s_type sp -> forall word data size tag self,
  is_bytes word -> 2 * Z.of_nat n' <= len word -> clean data -> 0 <= size <= len data -> size < 2 ^ 31 -> passed st tag self ->
  safe (fun r => match r.1 with Some unread => 0 <= unread <= size | None => True end) (decode_loop cb n' st word data size tag self).
Proof.
  intros Hst. induction n' as [|n' IH]; intros word data size tag self Hw Hn Hc Hsz Hlt Hp; cbn [decode_loop]; [cbn; lia|].
  destruct (toword_in word Hw ltac:(lia)) as (value & -> & Hv). rewrite bind_Ret. assert (Hw' : is_bytes (skip SIZEOF_FIELD word)) by (by apply is_bytes_skip).
  assert (Hn' : 2 * Z.of_nat n' <= len (skip SIZEOF_FIELD word)) by (unfold SIZEOF_FIELD; rewrite length_skip; lia).
  set (word' := skip SIZEOF_FIELD word) in *. clearbody word'. pose proof (Z.div_pos value 2 ltac:(lia) ltac:(lia)) as Hdiv.
  destruct (negb (Z.land value 1 =? 0)); [apply IH; try done; eapply passed_next; [|done]; lia|].
  destruct Hwf as (_ & _ & Hts & _). rewrite Forall_forall in Hts. pose proof (Hts st Hst) as Hwt.
  destruct (findtag_spec _ _ (tag + 1) Hwt) as (found & Ef & Hfound). cbv zeta. rewrite Ef.
  (* what is left behind the field *)
  assert (Hgo : forall data' size', clean data' -> 0 <= size' <= len data' -> size' <= size -> (value / 2 - 1 < 0 -> framed_in data) ->
    safe (fun r => match r.1 with Some unread => 0 <= unread <= size | None => True end)
      (f ← Ret found; match f with
         | None => decode_loop cb n' st word' data' size' (tag + 1) self
         | Some f => '(r, u) ← decode_value cb f (value / 2 - 1) data self; if r =? 0 then decode_loop cb n' st word' data' size' (tag + 1) u else Ret (None, u)
         end)).
  { intros data' size' Hc' Hs' Hle Hfr. rewrite bind_Ret. destruct found as [f|].
    - destruct Hfound as [Hin Htag]. eapply safe_bind.
      { apply decode_value_safe; [by exists st|done|]. eapply (passed_untouched st tag); try done. lia. }
      intros [r self'] Hm. cbn [snd] in Hm. destruct (r =? 0); [|done]. eapply safe_weaken; [apply IH; try done; [lia|]|].
      + destruct Hm as [E|E]; [|right; exists f; rewrite E; split_and!; [done|done|lia]]. destruct Hp as [Hp|(g & Hg & Eg & Hgt)]; [left; congruence|].
        right. exists g. split_and!; [done|congruence|lia].
      + intros [[unread|] u]; cbn; [lia|done].
    - eapply safe_weaken; [apply IH; try done; [lia|eapply passed_next; [|done]; lia]|]. intros [[unread|] u]; cbn; [lia|done]. }
  destruct (Z.ltb_spec (value / 2 - 1) 0) as [Hneg|Hnneg].
  - destruct (Z.ltb_spec size SIZEOF_LENGTH) as [|Hge]; [done|]. unfold SIZEOF_LENGTH in *. destruct (todword_in data Hc) as (sz & E & H0 & Hwrap); [lia|].
    rewrite E, bind_Ret. rewrite (u32_small (sz + 4)), (u32_small size) by lia. destruct (Z.ltb_spec size (sz + 4)) as [|Hfit]; [done|].
    apply Hgo; [apply clean_skip; [lia|done]|rewrite length_skip; lia|lia|]. intros _. split; [done|]. exists sz. split_and!; [done|lia..].
  - apply Hgo; [done|lia|lia|lia].
Qed.

Lemma sproto_decode_safe st data size self : st ∈ s_type sp -> clean data -> size <= len data -> size < 2 ^ 31 -> d_array_tag self = None ->
  safe (in_bounds size) (sproto_decode cb st data size self).
Proof.
  intros Hst Hc Hsz Hlt Ht. unfold sproto_decode, SIZEOF_HEADER, SIZEOF_FIELD. destruct (Z.ltb_spec size 2); [by left|].
  destruct (toword_in data (proj1 Hc)) as (fn & -> & Hfn); [lia|]. rewrite bind_Ret. destruct (Z.ltb_spec (size - 2) (fn * 2)); [by left|].
  eapply safe_bind.
  { apply decode_loop_safe; [done|by apply is_bytes_skip, Hc|rewrite length_skip; lia|apply clean_skip; [lia|by apply clean_skip]| |lia|by left].
    rewrite !length_skip by (rewrite ?length_skip; lia). lia. }
  intros [[unread|] self'] Hr; [|by left]. right. cbn in *. unfold SIZEOF_HEADER. lia.
Qed.
End loops.

Lemma decode_safe n : callback_ok (decode sp n).
Proof.
  induction n as [|n IH]; [done|]. apply decode_callback. intros. by apply sproto_decode_safe.
Qed.
End schema.

(** C38: whatever comes from the network, truncated, with lengths that do not fit or of
    the wrong types, [ldecode] reads nothing outside of it: it raises an error, or
    returns how much it has read, if no four bytes of the data are a length to which
    [sproto_decode]'s 4 cannot be added, and only arrays of the schema have a main index. *)
Theorem decode_in_bounds sp i st data result :
  wf_sproto sp -> Forall (fun t => Forall (fun f => 0 <= f_key f -> is_array f = true) (st_f t)) (s_type sp) ->
  type_at sp (Some i) = Ret st -> clean data -> len data < 2 ^ 31 ->
  match ldecode sp (Some i) data (len data) result with
  | Ret (Some (_, r)) => SIZEOF_HEADER <= r <= len data
  | LuaError _ => True
  | _ => False
  end.
Proof.
  intros Hw Hk Hst Hc Hl. assert (Hin : st ∈ s_type sp).
  { unfold type_at in Hst. cbn [mbind option_bind] in Hst. destruct (arr_lookup (s_type sp) i) as [x|] eqn:E; [|done]. injection Hst as ->.
    pose proof (arr_lookup_lt _ _ _ E). rewrite arr_lookup_nonneg in E by lia. by eapply list_elem_of_lookup_2. }
  unfold ldecode. rewrite Hst, bind_Ret. rewrite s32_small by lia. set (self := DecodeUd _ _ _ _ _).
  pose proof (sproto_decode_safe sp Hw Hk (decode sp ENCODE_DEEPLEVEL) (decode_safe sp Hw Hk ENCODE_DEEPLEVEL) st data (len data) self Hin Hc ltac:(lia) Hl eq_refl) as H.
  destruct (sproto_decode _ st data (len data) self) as [[r self']| | |]; [|done..]. rewrite bind_Ret. destruct (Z.ltb_spec r 0); [done|].
  destruct H as [H|H]; cbn in H; [lia|done].
Qed.

Definition clean_ok (data : bytes) : bool := forallb (fun b => (0 <=? b) && (b <? 256)) data &&
  forallb (fun i => match todword (drop i data) with Ret v => v + 4 <? 2 ^ 32 | _ => true end) (seq 0 (length data)).

Lemma clean_ok_clean data : clean_ok data = true -> clean data.
Proof.
  unfold clean_ok. intros [Hb Hw]%andb_true_iff. split.
  { apply Forall_forall. intros b Hin. rewrite forallb_forall in Hb. apply list_elem_of_In in Hin. specialize (Hb b Hin). unfold word. lia. }
  intros i v Hi E. rewrite forallb_forall in Hw. unfold skip in E. destruct (decide (Z.to_nat i < length data)%nat) as [Hlt|].
  - specialize (Hw (Z.to_nat i)). rewrite E in Hw. unfold SIZEOF_LENGTH. apply Z.ltb_lt, Hw, in_seq. lia.
  - rewrite drop_ge in E by lia. done.
Qed.

(** A message that is cut off, and one whose array of structures has a wrong length. *)
Definition cut_off : bytes := [2; 0; 0; 0; 0; 0; 3; 0; 0; 0; 98; 111; 98; 4; 0].
Definition bad_length : bytes := [3; 0; 7; 0; 0; 0; 8; 0; 9; 0; 0; 0; 255; 255; 0; 0; 2; 0; 0; 0; 0].

Lemma decode_in_bounds_witness :
  ldecode demo_schema (Some 0) cut_off (len cut_off) None = LuaError "decode error" /\
  ldecode demo_schema (Some 0) bad_length (len bad_length) None = LuaError "decode error" /\
  match ldecode demo_schema (Some 0) bad_length (len bad_length) None with
  | Ret (Some (_, r)) => SIZEOF_HEADER <= r <= len bad_length
  | LuaError _ => True
  | _ => False
  end.
Proof.
  split; [vm_compute; reflexivity|]. split; [vm_compute; reflexivity|].
  apply (decode_in_bounds demo_schema 0 demo_person bad_length None).
  - apply demo_plain.
  - eapply Forall_impl; [apply demo_plain|]. intros t [_ Ht]. eapply Forall_impl; [exact Ht|]. intros f [_ Hf] Hk. by apply Hf.
  - vm_compute. reflexivity.
  - apply clean_ok_clean. vm_compute. reflexivity.
  - vm_compute. reflexivity.
Defined.
