(* ===== verification/Cstr.v ===== *)
(** The C library's string and number conversions that the node's commands
    use: [sprintf]'s [%d], [%u] and [%x], [strtol], [strtoul], [strsep],
    [strchr] and [sscanf("%s %s")], on strings without their terminator. *)
From S2P Require Import Prelude.

(** [s[i]]; a string ends with a zero byte. *)
Definition char_at (s : bytes) (i : nat) : Z := default 0 (s !! i).

Definition isspace (c : Z) : bool := (c =? 32) || ((9 <=? c) && (c <=? 13)).

Fixpoint skip_space (s : bytes) : bytes :=
  match s with c :: s' => if isspace c then skip_space s' else s | [] => [] end.

(** ** Printing *)

Definition hex_digit (d : Z) : Z := if d <? 10 then 48 + d else 87 + d.

(** The digits of [n], most significant first; [fuel] bounds their number. *)
Fixpoint to_digits (fuel : nat) (base n : Z) : bytes :=
  match fuel with
  | O => []
  | S fuel => if n <? base then [n] else to_digits fuel base (n / base) ++ [n mod base]
  end.

(** [%x] and [%u] of a value below [2 ^ 64]. *)
Definition fmt_x (n : Z) : bytes := hex_digit <$> to_digits 64 16 n.
Definition fmt_u (n : Z) : bytes := hex_digit <$> to_digits 64 10 n.
Definition fmt_d (n : Z) : bytes := if n <? 0 then 45 :: fmt_u (- n) else fmt_u n.

(** [%0nx]. *)
Definition fmt_0x (width : nat) (n : Z) : bytes :=
  let d := fmt_x n in replicate (width - length d) 48 ++ d.

(** ** Parsing *)

Definition digit_value (c : Z) : option Z :=
  if (48 <=? c) && (c <=? 57) then Some (c - 48)
  else if (97 <=? c) && (c <=? 122) then Some (c - 87)
  else if (65 <=? c) && (c <=? 90) then Some (c - 55)
  else None.

Definition digit_in (base c : Z) : option Z :=
  d ← digit_value c; if d <? base then Some d else None.

(** The longest run of digits: its value, whether there is one, and the rest. *)
Fixpoint parse_digits (base : Z) (s : bytes) (acc : Z) (any : bool) : Z * bool * bytes :=
  match s with
  | c :: s' =>
      match digit_in base c with
      | Some d => parse_digits base s' (acc * base + d) true
      | None => (acc, any, s)
      end
  | [] => (acc, any, [])
  end.

(** The optional [0x] of bases 16 and 0; base 0 chooses 8, 10 or 16. *)
Definition parse_prefix (base : Z) (s : bytes) : Z * bytes :=
  match s with
  | z :: s' =>
      if z =? 48 then
        match s' with
        | x :: c :: s'' =>
            if ((x =? 120) || (x =? 88)) && ((base =? 16) || (base =? 0)) &&
               bool_decide (is_Some (digit_in 16 c))
            then (16, c :: s'')
            else (if base =? 0 then 8 else base, s)
        | _ => (if base =? 0 then 8 else base, s)
        end
      else (if base =? 0 then 10 else base, s)
  | [] => (if base =? 0 then 10 else base, s)
  end.

(** Sign, magnitude, and the rest: the whole string when there is no number. *)
Definition parse_number (base : Z) (s : bytes) : bool * Z * bytes :=
  let s1 := skip_space s in
  let '(neg, s2) := match s1 with
    | c :: s' => if c =? 45 then (true, s') else if c =? 43 then (false, s') else (false, s1)
    | [] => (false, s1) end in
  let '(base, s3) := parse_prefix base s2 in
  let '(v, any, rest) := parse_digits base s3 0 false in
  if any then (neg, v, rest) else (false, 0, s).

(** [long] and [unsigned long] are 64 bits wide. *)
Definition strtol (s : bytes) (base : Z) : Z * bytes :=
  let '(neg, v, rest) := parse_number base s in
  let v := if neg : bool then - v else v in
  (Z.max (- 2 ^ 63) (Z.min v (2 ^ 63 - 1)), rest).

Definition strtoul (s : bytes) (base : Z) : Z * bytes :=
  let '(neg, v, rest) := parse_number base s in
  (if 2 ^ 64 - 1 <? v then 2 ^ 64 - 1 else if neg : bool then u64 (- v) else v, rest).

(** ** Cutting *)

(** The prefix before the first character in [delim], and what follows it. *)
Fixpoint strsep (delim s : bytes) : bytes * option bytes :=
  match s with
  | [] => ([], None)
  | c :: s' =>
      if bool_decide (c ∈ delim) then ([], Some s')
      else let '(tok, rest) := strsep delim s' in (c :: tok, rest)
  end.

(** [strchr(s, c)] for [c <> 0]: the suffix that starts with [c]. *)
Fixpoint strchr (s : bytes) (c : Z) : option bytes :=
  match s with
  | [] => None
  | x :: s' => if x =? c then Some s else strchr s' c
  end.

(** One [%s]: [None] when the input ends first. *)
Fixpoint word_of (s : bytes) : bytes * bytes :=
  match s with
  | c :: s' => if isspace c then ([], s) else let '(w, rest) := word_of s' in (c :: w, rest)
  | [] => ([], [])
  end.
Definition scan_s (s : bytes) : option (bytes * bytes) :=
  match skip_space s with [] => None | s => Some (word_of s) end.

(** [sscanf(s, "%s %s", a, b)]: the buffers not assigned stay uninitialised. *)
Definition sscanf_ss (s : bytes) : option bytes * option bytes :=
  match scan_s s with
  | None => (None, None)
  | Some (a, rest) => (Some a, fst <$> scan_s rest)
  end.

(** ** Reading back what was printed *)

(** A way to write hexadecimal digits. *)
Definition writes_hex (f : Z -> Z) : Prop := forall d, 0 <= d < 16 -> digit_in 16 (f d) = Some d.

Lemma digit_in_hex : writes_hex hex_digit.
Proof.
  intros d Hd. assert (d ∈ seqZ 0 16) as H by (apply elem_of_seqZ; lia). revert d H Hd.
  apply (Forall_forall (fun d => 0 <= d < 16 -> digit_in 16 (hex_digit d) = Some d)).
  repeat constructor.
Qed.

Lemma digit_in_plain c d : digit_in 16 c = Some d ->
  isspace c = false /\ c <> 45 /\ c <> 43 /\ c <> 120 /\ c <> 88.
Proof.
  unfold digit_in, digit_value, isspace. intros H.
  destruct (Z.eqb_spec c 32) as [->|]; [done|]. cbn [orb].
  destruct ((9 <=? c) && (c <=? 13)) eqn:E.
  { exfalso. apply andb_true_iff in E as [?%Z.leb_le ?%Z.leb_le].
    rewrite (proj2 (Z.leb_gt 48 c)), (proj2 (Z.leb_gt 97 c)), (proj2 (Z.leb_gt 65 c)) in H by lia. done. }
  repeat split; intros ->; done.
Qed.

Lemma to_digits_spec fuel base n :
  2 <= base -> 0 <= n < base ^ Z.of_nat fuel -> (0 < fuel)%nat ->
  Forall (fun c => 0 <= c < base) (to_digits fuel base n) /\
  to_digits fuel base n <> [] /\
  foldl (fun a d => a * base + d) 0 (to_digits fuel base n) = n.
Proof.
  intros Hb. revert n. induction fuel as [|fuel IH]; intros n Hn Hf; [lia|]. cbn [to_digits].
  destruct (Z.ltb_spec n base).
  - split; [by repeat constructor; lia|]. split; [done|]. cbn. lia.
  - rewrite Nat2Z.inj_succ, Z.pow_succ_r in Hn by lia.
    pose proof (Z.div_mod n base) as Hdm. pose proof (Z.mod_pos_bound n base).
    assert (Hpos : (0 < fuel)%nat) by (destruct fuel; [cbn in Hn; lia|lia]).
    destruct (IH (n / base)) as (Ha & Hne & He); [split; [apply Z.div_pos; lia|apply Z.div_lt_upper_bound; lia]|done|].
    split; [apply Forall_app; split; [done|]; repeat constructor; lia|].
    split; [by destruct (to_digits _ _ _)|]. rewrite foldl_app, He. cbn. lia.
Qed.

Section hex.
Context (f : Z -> Z) (Hf : writes_hex f).

Lemma parse_digits_app s t acc any :
  Forall (fun c => 0 <= c < 16) s ->
  parse_digits 16 ((f <$> s) ++ t) acc any =
    parse_digits 16 t (foldl (fun a d => a * 16 + d) acc s) (any || negb (bool_decide (s = []))).
Proof.
  intros Hs. revert acc any. induction Hs as [|d s Hd _ IH]; intros acc any; cbn.
  - by rewrite orb_false_r.
  - rewrite Hf by done. rewrite IH, orb_true_r. by destruct s.
Qed.

(** Any string of hexadecimal digits is read as its value. *)
Lemma strtoul_digits s :
  Forall (fun c => 0 <= c < 16) s -> s <> [] ->
  foldl (fun a d => a * 16 + d) 0 s < 2 ^ 64 ->
  strtoul (f <$> s) 16 = (foldl (fun a d => a * 16 + d) 0 s, []).
Proof.
  intros Hs Hne Hlt. unfold strtoul, parse_number.
  destruct s as [|d s]; [done|]. pose proof Hs as Hs'. apply Forall_cons in Hs as [Hd Hs].
  destruct (digit_in_plain (f d) d (Hf d Hd)) as (H1 & H2 & H3 & _).
  cbn [fmap list_fmap skip_space]. rewrite H1, (proj2 (Z.eqb_neq _ _) H2), (proj2 (Z.eqb_neq _ _) H3).
  assert (Hp : parse_prefix 16 (f d :: (f <$> s)) = (16, f d :: (f <$> s))).
  { unfold parse_prefix. destruct (f d =? 48); [|done].
    destruct s as [|x s]; [done|]. cbn [fmap list_fmap]. apply Forall_cons in Hs as [Hx _].
    destruct (digit_in_plain (f x) x (Hf x Hx)) as (_ & _ & _ & ? & ?).
    rewrite (proj2 (Z.eqb_neq _ 120)), (proj2 (Z.eqb_neq _ 88)) by done. by destruct s. }
  fold (f <$> s). rewrite Hp.
  pose proof (parse_digits_app (d :: s) [] 0 false Hs') as Hpd. rewrite app_nil_r in Hpd.
  cbn [fmap list_fmap] in Hpd. fold (f <$> s) in Hpd. rewrite Hpd.
  change (false || negb (bool_decide (d :: s = []))) with true. cbn [parse_digits]. cbv beta iota.
  by rewrite (proj2 (Z.ltb_ge _ _)) by lia.
Qed.
End hex.

Lemma strtoul_fmt_x n : 0 <= n < 2 ^ 64 -> strtoul (fmt_x n) 16 = (n, []).
Proof.
  intros Hn. unfold fmt_x.
  destruct (to_digits_spec 64 16 n) as (Ha & Hne & He); [lia| |lia|].
  { split; [lia|]. eapply Z.lt_le_trans; [apply Hn|]. vm_compute. discriminate. }
  rewrite strtoul_digits; rewrite ?He; [done|apply digit_in_hex|done|done|lia].
Qed.
