(* ===== verification/Node.v ===== *)
(** The service contexts of [skynet-src/skynet_server.c] and what surrounds
    them: reference counts, sessions, message delivery, [skynet_error.c],
    [skynet_harbor.c], [skynet_env.c] and the loaded modules of
    [skynet_module.c]. Every function runs on one explicit node state. *)
From S2P Require Import Prelude Mq Handle Timer Cstr.

(** ** Data *)

Definition PTYPE_TEXT : Z := 0.
Definition PTYPE_CLIENT : Z := 3.
Definition PTYPE_SYSTEM : Z := 4.
Definition PTYPE_HARBOR : Z := 5.
Definition PTYPE_ERROR : Z := 7.
Definition PTYPE_TAG_DONTCOPY : Z := 0x10000.
Definition PTYPE_TAG_ALLOCSESSION : Z := 0x20000.
(** [SIZE_MAX >> 8]. *)
Definition MESSAGE_TYPE_MASK : Z := 2 ^ 56 - 1.
Definition GLOBALNAME_LENGTH : Z := 16.
Definition LOG_MESSAGE_SIZE : Z := 256.
Definition MAX_MODULE_TYPE : Z := 32.
(** [sizeof(struct remote_message)]. *)
Definition SIZEOF_REMOTE_MESSAGE : Z := 48.

(** [struct skynet_module]: [module] is the [dlopen] handle, the others are
    addresses of code, absent when [dlsym] found none. *)
Record skynet_module := SkynetModule {
  md_name : bytes; md_module : Z;
  md_create : option Z; md_init : option Z; md_release : option Z; md_signal : option Z }.

Record modules := Modules { mods_count : Z; mods_path : bytes; mods_m : list skynet_module }.

(** [struct skynet_context]; [ctx_mod] is the index of the module. Pointers to
    data owned by services are addresses, 0 for NULL. *)
Record skynet_context := SkynetContext {
  ctx_instance : Z; ctx_mod : Z; ctx_cb_ud : Z; ctx_cb : option Z;
  ctx_queue : loc; ctx_logfile : Z; ctx_cpu_cost : Z; ctx_cpu_start : Z;
  ctx_result : bytes; ctx_handle : Z; ctx_session_id : Z; ctx_ref : Z;
  ctx_message_count : Z; ctx_init : bool; ctx_endless : bool; ctx_profile : bool }.

(** [struct remote_message]; [rmt_data] is its [message]. *)
Record remote_message := RemoteMessage {
  rmt_name : bytes; rmt_handle : Z; rmt_data : Z; rmt_sz : Z; rmt_type : Z }.

(** What an allocated block of message memory holds. *)
Inductive block := Bytes (b : bytes) | Remote (r : remote_message).

(** The node: the heap of contexts, queues and message data, and the static
    variables [G_NODE], [H], [TI], [Q], [E], [M], [REMOTE], [HARBOR] and
    [logger]. [n_brk] is the next unused address; [n_current] is the thread's
    value for [handle_key]. *)
Record node := Node {
  n_store : store; n_handles : handle_storage; n_ctxs : gmap loc skynet_context;
  n_heap : gmap Z block; n_brk : loc;
  n_timer : timer; n_env : gmap bytes bytes; n_modules : modules;
  n_total : Z; n_init : bool; n_monitor_exit : Z; n_profile : bool; n_current : Z;
  n_REMOTE : option loc; n_HARBOR : Z; n_logger : Z }.

Definition with_store w S := Node S (n_handles w) (n_ctxs w) (n_heap w) (n_brk w) (n_timer w)
  (n_env w) (n_modules w) (n_total w) (n_init w) (n_monitor_exit w) (n_profile w) (n_current w)
  (n_REMOTE w) (n_HARBOR w) (n_logger w).
Definition with_handles w s := Node (n_store w) s (n_ctxs w) (n_heap w) (n_brk w) (n_timer w)
  (n_env w) (n_modules w) (n_total w) (n_init w) (n_monitor_exit w) (n_profile w) (n_current w)
  (n_REMOTE w) (n_HARBOR w) (n_logger w).
Definition with_ctxs w c := Node (n_store w) (n_handles w) c (n_heap w) (n_brk w) (n_timer w)
  (n_env w) (n_modules w) (n_total w) (n_init w) (n_monitor_exit w) (n_profile w) (n_current w)
  (n_REMOTE w) (n_HARBOR w) (n_logger w).
Definition with_heap w h brk := Node (n_store w) (n_handles w) (n_ctxs w) h brk (n_timer w)
  (n_env w) (n_modules w) (n_total w) (n_init w) (n_monitor_exit w) (n_profile w) (n_current w)
  (n_REMOTE w) (n_HARBOR w) (n_logger w).
Definition with_timer w T := Node (n_store w) (n_handles w) (n_ctxs w) (n_heap w) (n_brk w) T
  (n_env w) (n_modules w) (n_total w) (n_init w) (n_monitor_exit w) (n_profile w) (n_current w)
  (n_REMOTE w) (n_HARBOR w) (n_logger w).
Definition with_env w e := Node (n_store w) (n_handles w) (n_ctxs w) (n_heap w) (n_brk w) (n_timer w)
  e (n_modules w) (n_total w) (n_init w) (n_monitor_exit w) (n_profile w) (n_current w)
  (n_REMOTE w) (n_HARBOR w) (n_logger w).
Definition with_modules w m := Node (n_store w) (n_handles w) (n_ctxs w) (n_heap w) (n_brk w) (n_timer w)
  (n_env w) m (n_total w) (n_init w) (n_monitor_exit w) (n_profile w) (n_current w)
  (n_REMOTE w) (n_HARBOR w) (n_logger w).
Definition with_total w t := Node (n_store w) (n_handles w) (n_ctxs w) (n_heap w) (n_brk w) (n_timer w)
  (n_env w) (n_modules w) t (n_init w) (n_monitor_exit w) (n_profile w) (n_current w)
  (n_REMOTE w) (n_HARBOR w) (n_logger w).
Definition with_monitor_exit w h := Node (n_store w) (n_handles w) (n_ctxs w) (n_heap w) (n_brk w) (n_timer w)
  (n_env w) (n_modules w) (n_total w) (n_init w) h (n_profile w) (n_current w)
  (n_REMOTE w) (n_HARBOR w) (n_logger w).
Definition with_profile w p := Node (n_store w) (n_handles w) (n_ctxs w) (n_heap w) (n_brk w) (n_timer w)
  (n_env w) (n_modules w) (n_total w) (n_init w) (n_monitor_exit w) p (n_current w)
  (n_REMOTE w) (n_HARBOR w) (n_logger w).
Definition with_current w h := Node (n_store w) (n_handles w) (n_ctxs w) (n_heap w) (n_brk w) (n_timer w)
  (n_env w) (n_modules w) (n_total w) (n_init w) (n_monitor_exit w) (n_profile w) h
  (n_REMOTE w) (n_HARBOR w) (n_logger w).
Definition with_REMOTE w r := Node (n_store w) (n_handles w) (n_ctxs w) (n_heap w) (n_brk w) (n_timer w)
  (n_env w) (n_modules w) (n_total w) (n_init w) (n_monitor_exit w) (n_profile w) (n_current w)
  r (n_HARBOR w) (n_logger w).
Definition with_HARBOR w h := Node (n_store w) (n_handles w) (n_ctxs w) (n_heap w) (n_brk w) (n_timer w)
  (n_env w) (n_modules w) (n_total w) (n_init w) (n_monitor_exit w) (n_profile w) (n_current w)
  (n_REMOTE w) h (n_logger w).
Definition with_logger w l := Node (n_store w) (n_handles w) (n_ctxs w) (n_heap w) (n_brk w) (n_timer w)
  (n_env w) (n_modules w) (n_total w) (n_init w) (n_monitor_exit w) (n_profile w) (n_current w)
  (n_REMOTE w) (n_HARBOR w) l.

Definition set_ctx (l : loc) (c : skynet_context) (w : node) : node :=
  with_ctxs w (<[l := c]> (n_ctxs w)).
Definition get_ctx (l : loc) (w : node) : outcome skynet_context := deref (n_ctxs w !! l).

Definition ctx_with_ref c r := SkynetContext (ctx_instance c) (ctx_mod c) (ctx_cb_ud c) (ctx_cb c)
  (ctx_queue c) (ctx_logfile c) (ctx_cpu_cost c) (ctx_cpu_start c) (ctx_result c) (ctx_handle c)
  (ctx_session_id c) r (ctx_message_count c) (ctx_init c) (ctx_endless c) (ctx_profile c).
Definition ctx_with_session c s := SkynetContext (ctx_instance c) (ctx_mod c) (ctx_cb_ud c) (ctx_cb c)
  (ctx_queue c) (ctx_logfile c) (ctx_cpu_cost c) (ctx_cpu_start c) (ctx_result c) (ctx_handle c)
  s (ctx_ref c) (ctx_message_count c) (ctx_init c) (ctx_endless c) (ctx_profile c).
Definition ctx_with_endless c e := SkynetContext (ctx_instance c) (ctx_mod c) (ctx_cb_ud c) (ctx_cb c)
  (ctx_queue c) (ctx_logfile c) (ctx_cpu_cost c) (ctx_cpu_start c) (ctx_result c) (ctx_handle c)
  (ctx_session_id c) (ctx_ref c) (ctx_message_count c) (ctx_init c) e (ctx_profile c).
Definition ctx_with_init c b := SkynetContext (ctx_instance c) (ctx_mod c) (ctx_cb_ud c) (ctx_cb c)
  (ctx_queue c) (ctx_logfile c) (ctx_cpu_cost c) (ctx_cpu_start c) (ctx_result c) (ctx_handle c)
  (ctx_session_id c) (ctx_ref c) (ctx_message_count c) b (ctx_endless c) (ctx_profile c).
Definition ctx_with_result c r := SkynetContext (ctx_instance c) (ctx_mod c) (ctx_cb_ud c) (ctx_cb c)
  (ctx_queue c) (ctx_logfile c) (ctx_cpu_cost c) (ctx_cpu_start c) r (ctx_handle c)
  (ctx_session_id c) (ctx_ref c) (ctx_message_count c) (ctx_init c) (ctx_endless c) (ctx_profile c).
Definition ctx_with_logfile c f := SkynetContext (ctx_instance c) (ctx_mod c) (ctx_cb_ud c) (ctx_cb c)
  (ctx_queue c) f (ctx_cpu_cost c) (ctx_cpu_start c) (ctx_result c) (ctx_handle c)
  (ctx_session_id c) (ctx_ref c) (ctx_message_count c) (ctx_init c) (ctx_endless c) (ctx_profile c).
Definition ctx_with_cb c ud cb := SkynetContext (ctx_instance c) (ctx_mod c) ud cb
  (ctx_queue c) (ctx_logfile c) (ctx_cpu_cost c) (ctx_cpu_start c) (ctx_result c) (ctx_handle c)
  (ctx_session_id c) (ctx_ref c) (ctx_message_count c) (ctx_init c) (ctx_endless c) (ctx_profile c).
Definition ctx_with_cpu c cost start count := SkynetContext (ctx_instance c) (ctx_mod c) (ctx_cb_ud c) (ctx_cb c)
  (ctx_queue c) (ctx_logfile c) cost start (ctx_result c) (ctx_handle c)
  (ctx_session_id c) (ctx_ref c) count (ctx_init c) (ctx_endless c) (ctx_profile c).
Definition ctx_with_handle c h q := SkynetContext (ctx_instance c) (ctx_mod c) (ctx_cb_ud c) (ctx_cb c)
  q (ctx_logfile c) (ctx_cpu_cost c) (ctx_cpu_start c) (ctx_result c) h
  (ctx_session_id c) (ctx_ref c) (ctx_message_count c) (ctx_init c) (ctx_endless c) (ctx_profile c).

(** What the node calls outside these files: the dynamic loader, the code of
    the loaded services (called by address), a clock, and log files. *)
Record externals := Externals {
  x_dlopen : bytes -> node -> outcome (Z * node);
  x_dlsym : Z -> bytes -> option Z;
  x_create : Z -> node -> outcome (Z * node);
  x_init : Z -> Z -> loc -> option bytes -> node -> outcome (Z * node);
  x_release : Z -> Z -> node -> outcome node;
  x_signal : Z -> Z -> Z -> node -> outcome node;
  x_cb : Z -> loc -> Z -> Z -> Z -> Z -> Z -> Z -> node -> outcome (Z * node);
  x_thread_time : node -> outcome (Z * node);
  x_log_open : loc -> Z -> node -> outcome (Z * node);
  x_log_output : Z -> Z -> Z -> Z -> Z -> Z -> node -> outcome node;
  x_log_close : loc -> Z -> Z -> node -> outcome node;
  x_fclose : Z -> node -> outcome node }.

(** [skynet_malloc] (which aborts rather than fail) and [skynet_free]. *)
Definition skynet_malloc (b : block) (w : node) : Z * node :=
  (Z.pos (n_brk w), with_heap w (<[Z.pos (n_brk w) := b]> (n_heap w)) (Pos.succ (n_brk w))).

Definition skynet_free (p : Z) (w : node) : outcome node :=
  if p =? 0 then Ret w
  else
    _ ← deref (n_heap w !! p);
    Ret (with_heap w (delete p (n_heap w)) (n_brk w)).

#[export] Instance node_HasStore : HasStore node.
Proof.
  refine {| get_store := n_store; set_store := fun S w => with_store w S |}. reflexivity.
Defined.

(** ** [G_NODE] *)

Definition skynet_context_total (w : node) : Z := n_total w.
Definition context_inc (w : node) : outcome node := t ← int_ok (n_total w + 1); Ret (with_total w t).
Definition context_dec (w : node) : outcome node := t ← int_ok (n_total w - 1); Ret (with_total w t).

Definition THREAD_WORKER : Z := 0.
Definition THREAD_MAIN : Z := 1.

Definition skynet_current_handle (w : node) : Z :=
  if n_init w then u32 (n_current w) else u32 (- THREAD_MAIN).

Definition skynet_initthread (m : Z) (w : node) : node := with_current w (u32 (- m)).

(** [pthread_key_create] succeeds. *)
Definition skynet_globalinit (w : node) : node :=
  skynet_initthread THREAD_MAIN
    (Node (n_store w) (n_handles w) (n_ctxs w) (n_heap w) (n_brk w) (n_timer w) (n_env w) (n_modules w)
      0 true 0 (n_profile w) (n_current w) (n_REMOTE w) (n_HARBOR w) (n_logger w)).

Definition skynet_profile_enable (enable : Z) (w : node) : node := with_profile w (negb (enable =? 0)).

(** ** [skynet_env.c]: a Lua state used as a map of globals *)

Definition skynet_getenv (key : bytes) (w : node) : option bytes := n_env w !! key.

Definition skynet_setenv (key value : bytes) (w : node) : outcome node :=
  _ ← assert_ (bool_decide (n_env w !! key = None));
  Ret (with_env w (<[key := value]> (n_env w))).

(** ** [skynet_module.c] *)
Section externals.
Context (X : externals).

(** The [do ... while (dl == NULL)] of [_try_open]: [k] bounds the entries
    left. [exit(1)] on a path without [?] ends the process like a failed
    assertion. *)
Fixpoint try_open_loop (k : nat) (path name : bytes) (w : node) : outcome (Z * node) :=
  match k with
  | O => Undefined
  | S k =>
      let path := (fix skip p := match p with c :: p' => if c =? 59 then skip p' else p | [] => [] end) path in
      match path with
      | [] => Ret (0, w)
      | _ =>
          let '(entry, _) := strsep [59] path in
          let rest := drop (length entry) path in
          match strchr entry 63 with
          | None => AssertFail
          | Some after =>
              let before := take (length entry - length after) entry in
              let tmp := before ++ name ++ drop 1 after in
              '(dl, w) ← x_dlopen X tmp w;
              if dl =? 0 then try_open_loop k rest name w else Ret (dl, w)
          end
      end
  end.

Definition _try_open (name : bytes) (w : node) : outcome (Z * node) :=
  let path := mods_path (n_modules w) in
  try_open_loop (S (length path)) path name w.

(** The index of the module, if loaded. *)
Fixpoint query_loop (m : list skynet_module) (i : Z) (name : bytes) : option Z :=
  match m with
  | [] => None
  | md :: m => if strcmp (md_name md) name =? 0 then Some i else query_loop m (i + 1) name
  end.
Definition _query (m : modules) (name : bytes) : option Z :=
  query_loop (take (Z.to_nat (mods_count m)) (mods_m m)) 0 name.

(** The part of [s] after its last [.]. *)
Fixpoint after_dot (s : bytes) : option bytes :=
  match s with
  | [] => None
  | c :: s' => match after_dot s' with
               | Some r => Some r
               | None => if c =? 46 then Some s' else None
               end
  end.

Definition get_api (name : bytes) (module : Z) (api_name : bytes) : option Z :=
  let tmp := name ++ api_name in
  x_dlsym X module (default tmp (after_dot tmp)).

Definition open_sym (name : bytes) (module : Z) : bool * skynet_module :=
  let md := SkynetModule name module (get_api name module (str "_create"))
    (get_api name module (str "_init")) (get_api name module (str "_release"))
    (get_api name module (str "_signal")) in
  (bool_decide (md_init md = None), md).

Definition skynet_module_query (name : bytes) (w : node) : outcome (option Z * node) :=
  match _query (n_modules w) name with
  | Some i => Ret (Some i, w)
  | None =>
      let M := n_modules w in
      if mods_count M <? MAX_MODULE_TYPE then
        '(dl, w) ← _try_open name w;
        if dl =? 0 then Ret (None, w)
        else
          let '(bad, md) := open_sym name dl in
          if bad : bool then Ret (None, w)
          else
            let M := n_modules w in
            Ret (Some (mods_count M),
                 with_modules w (Modules (mods_count M + 1) (mods_path M)
                   (take (Z.to_nat (mods_count M)) (mods_m M) ++ [md])))
      else Ret (None, w)
  end.

Definition skynet_module_insert (md : skynet_module) (w : node) : outcome node :=
  let M := n_modules w in
  _ ← assert_ (bool_decide (_query M (md_name md) = None) && (mods_count M <? MAX_MODULE_TYPE));
  Ret (with_modules w (Modules (mods_count M + 1) (mods_path M)
         (take (Z.to_nat (mods_count M)) (mods_m M) ++ [md]))).

Definition get_module (i : Z) (w : node) : outcome skynet_module := arr_get (mods_m (n_modules w)) i.

(** A module without a create function has the instance [~0]. *)
Definition skynet_module_instance_create (m : Z) (w : node) : outcome (Z * node) :=
  md ← get_module m w;
  match md_create md with
  | Some f => x_create X f w
  | None => Ret (2 ^ 64 - 1, w)
  end.

Definition skynet_module_instance_init (m inst : Z) (ctx : loc) (parm : option bytes) (w : node)
    : outcome (Z * node) :=
  md ← get_module m w;
  f ← deref (md_init md);
  x_init X f inst ctx parm w.

Definition skynet_module_instance_release (m inst : Z) (w : node) : outcome node :=
  md ← get_module m w;
  match md_release md with Some f => x_release X f inst w | None => Ret w end.

Definition skynet_module_instance_signal (m inst signal : Z) (w : node) : outcome node :=
  md ← get_module m w;
  match md_signal md with Some f => x_signal X f inst signal w | None => Ret w end.

Definition skynet_module_init (path : bytes) (w : node) : node := with_modules w (Modules 0 path []).

(** ** Reference counts *)

Definition context_grab (l : loc) (w : node) : outcome node :=
  c ← get_ctx l w;
  r ← int_ok (ctx_ref c + 1);
  Ret (set_ctx l (ctx_with_ref c r) w).

Definition skynet_context_reserve (l : loc) (w : node) : outcome node :=
  w ← context_grab l w;
  context_dec w.

Definition delete_context (l : loc) (w : node) : outcome node :=
  c ← get_ctx l w;
  w ← (if ctx_logfile c =? 0 then Ret w else x_fclose X (ctx_logfile c) w);
  w ← skynet_module_instance_release (ctx_mod c) (ctx_instance c) w;
  S ← skynet_mq_mark_release (n_store w) (ctx_queue c);
  let w := with_store w S in
  context_dec (with_ctxs w (delete l (n_ctxs w))).

(** Returns the context, or NULL when this was the last reference. *)
Definition context_release (l : loc) (w : node) : outcome (option loc * node) :=
  c ← get_ctx l w;
  r ← int_ok (ctx_ref c - 1);
  let w := set_ctx l (ctx_with_ref c r) w in
  if r =? 0 then w ← delete_context l w; Ret (None, w) else Ret (Some l, w).

#[local] Instance node_HasHandles : HasHandles node.
Proof.
  refine {| get_handles := n_handles; set_handles := fun s w => with_handles w s;
            skynet_context_handle := fun l w => c ← get_ctx l w; Ret (ctx_handle c);
            skynet_context_grab := context_grab;
            skynet_context_release := fun l w => '(_, w) ← context_release l w; Ret w |}.
  - reflexivity.
  - reflexivity.
  - unfold context_grab, get_ctx. intros. inv_ret. done.
  - unfold context_grab, get_ctx. intros. inv_ret. cbn. unfold set_ctx. cbn.
    destruct (decide (l = l')) as [->|].
    + rewrite lookup_insert_eq. by match goal with H : n_ctxs _ !! _ = _ |- _ => rewrite H end.
    + by rewrite lookup_insert_ne.
Defined.

Definition skynet_context_newsession (l : loc) (w : node) : outcome (Z * node) :=
  c ← get_ctx l w;
  session ← int_ok (ctx_session_id c + 1);
  if session <=? 0 then Ret (1, set_ctx l (ctx_with_session c 1) w)
  else Ret (session, set_ctx l (ctx_with_session c session) w).

(** ** Delivery *)

Definition skynet_context_push (handle : Z) (message : skynet_message) (w : node) : outcome (Z * node) :=
  '(ctx, w) ← skynet_handle_grab handle w;
  match ctx with
  | None => Ret (-1, w)
  | Some l =>
      c ← get_ctx l w;
      S ← skynet_mq_push (n_store w) (ctx_queue c) message;
      '(_, w) ← context_release l (with_store w S);
      Ret (0, w)
  end.

Definition skynet_context_endless (handle : Z) (w : node) : outcome node :=
  '(ctx, w) ← skynet_handle_grab handle w;
  match ctx with
  | None => Ret w
  | Some l =>
      c ← get_ctx l w;
      '(_, w) ← context_release l (set_ctx l (ctx_with_endless c true) w);
      Ret w
  end.

Definition skynet_context_send (l : loc) (msg sz source type session : Z) (w : node) : outcome node :=
  c ← get_ctx l w;
  S ← skynet_mq_push (n_store w) (ctx_queue c)
        (SkynetMessage source session msg (Z.lor sz (u64 (Z.shiftl type MESSAGE_TYPE_SHIFT))));
  Ret (with_store w S).

(** [skynet_timeout] of [skynet_timer.c]. *)
Definition skynet_timeout (handle time session : Z) (w : node) : outcome (Z * node) :=
  if time <=? 0 then
    '(r, w) ← skynet_context_push handle
                (SkynetMessage 0 session 0 (Z.shiftl PTYPE_RESPONSE MESSAGE_TYPE_SHIFT)) w;
    Ret (if r =? 0 then session else -1, w)
  else Ret (session, with_timer w (timer_add (n_timer w) (TimerEvent handle session) time)).

(** *** [skynet_error]: [msg] is the formatted text; only the initialised part
    of the buffers is kept. *)
Fixpoint error_buffer (fuel : nat) (msg : bytes) (max_size : Z) (w : node) : outcome (Z * node) :=
  match fuel with
  | O => Undefined
  | S fuel =>
      max_size ← int_ok (max_size * 2);
      let '(data, w) := skynet_malloc (Bytes (take (Z.to_nat (max_size - 1)) msg ++ [0])) w in
      if Z.of_nat (length msg) <? max_size then Ret (data, w)
      else w ← skynet_free data w; error_buffer fuel msg max_size w
  end.

Definition skynet_error (context : option loc) (msg : bytes) (w : node) : outcome node :=
  logger ← (if n_logger w =? 0 then skynet_handle_findname (n_handles w) (str "logger")
            else Ret (n_logger w));
  let w := with_logger w logger in
  if logger =? 0 then Ret w
  else
    let len := Z.of_nat (length msg) in
    '(data, w) ← (if len <? LOG_MESSAGE_SIZE then Ret (skynet_malloc (Bytes (msg ++ [0])) w)
                  else error_buffer 31 msg LOG_MESSAGE_SIZE w);
    source ← (match context with
              | None => Ret 0
              | Some l => c ← get_ctx l w; Ret (ctx_handle c)
              end);
    '(_, w) ← skynet_context_push logger
                (SkynetMessage source 0 data (Z.lor len (Z.shiftl PTYPE_TEXT MESSAGE_TYPE_SHIFT))) w;
    Ret w.

(** ** [skynet_harbor.c] *)

Definition invalid_type (type : Z) : bool := negb (type =? PTYPE_SYSTEM) && negb (type =? PTYPE_HARBOR).

Definition skynet_harbor_send (rmsg source session : Z) (w : node) : outcome node :=
  b ← deref (n_heap w !! rmsg);
  match b with
  | Remote r =>
      _ ← assert_ (invalid_type (rmt_type r) && bool_decide (n_REMOTE w <> None));
      remote ← deref (n_REMOTE w);
      skynet_context_send remote rmsg SIZEOF_REMOTE_MESSAGE source PTYPE_SYSTEM session w
  | Bytes _ => Undefined
  end.

Definition skynet_harbor_message_isremote (handle : Z) (w : node) : outcome bool :=
  _ ← assert_ (negb (n_HARBOR w =? 2 ^ 32 - 1));
  let h := Z.land handle (Z.lnot HANDLE_MASK) in
  Ret (negb (h =? n_HARBOR w) && negb (h =? 0)).

Definition skynet_harbor_init (harbor : Z) (w : node) : node :=
  with_HARBOR w (u32 (Z.shiftl harbor HANDLE_REMOTE_SHIFT)).

Definition skynet_harbor_start (ctx : loc) (w : node) : outcome node :=
  w ← skynet_context_reserve ctx w;
  Ret (with_REMOTE w (Some ctx)).

Definition skynet_harbor_exit (w : node) : outcome node :=
  let ctx := n_REMOTE w in
  let w := with_REMOTE w None in
  match ctx with
  | Some l => '(_, w) ← context_release l w; Ret w
  | None => Ret w
  end.

Definition skynet_isremote (handle : Z) (w : node) : outcome (bool * Z) :=
  ret ← skynet_harbor_message_isremote handle w;
  Ret (ret, Z.shiftr handle HANDLE_REMOTE_SHIFT).

(** ** Sending *)

(** A NULL [context] is dereferenced only to allocate a session. *)
Definition _filter_args (context : option loc) (type session data sz : Z) (w : node)
    : outcome (Z * Z * Z * node) :=
  let needcopy := Z.land type PTYPE_TAG_DONTCOPY =? 0 in
  let allocsession := negb (Z.land type PTYPE_TAG_ALLOCSESSION =? 0) in
  let type := Z.land type 0xff in
  '(session, w) ←
    (if allocsession then
       _ ← assert_ (session =? 0);
       l ← deref context;
       skynet_context_newsession l w
     else Ret (session, w));
  '(data, w) ←
    (if needcopy && negb (data =? 0) then
       b ← deref (n_heap w !! data);
       match b with
       | Bytes b =>
           if Z.of_nat (length b) <? sz then Undefined
           else Ret (skynet_malloc (Bytes (take (Z.to_nat sz) b ++ [0])) w)
       | Remote _ => Undefined
       end
     else Ret (data, w));
  Ret (session, data, Z.lor sz (u64 (Z.shiftl type MESSAGE_TYPE_SHIFT)), w).

Definition context_source (context : option loc) (source : Z) (w : node) : outcome Z :=
  if source =? 0 then l ← deref context; c ← get_ctx l w; Ret (ctx_handle c) else Ret source.

Definition skynet_send (context : option loc) (source destination type session data sz : Z) (w : node)
    : outcome (Z * node) :=
  if negb (Z.land sz MESSAGE_TYPE_MASK =? sz) then
    w ← skynet_error context (str "The message to " ++ fmt_x destination ++ str " is too large") w;
    w ← (if Z.land type PTYPE_TAG_DONTCOPY =? 0 then Ret w else skynet_free data w);
    Ret (-1, w)
  else
    '(session, data, sz, w) ← _filter_args context type session data sz w;
    source ← context_source context source w;
    if destination =? 0 then Ret (session, w)
    else
      remote ← skynet_harbor_message_isremote destination w;
      if remote : bool then
        let '(rmsg, w) := skynet_malloc (Remote (RemoteMessage [] destination data
              (Z.land sz MESSAGE_TYPE_MASK) (Z.shiftr sz MESSAGE_TYPE_SHIFT))) w in
        w ← skynet_harbor_send rmsg source session w;
        Ret (session, w)
      else
        '(r, w) ← skynet_context_push destination (SkynetMessage source session data sz) w;
        if r =? 0 then Ret (session, w)
        else w ← skynet_free data w; Ret (-1, w).

(** Copies at most [GLOBALNAME_LENGTH] characters and pads with zeros. *)
Definition copy_name (addr : bytes) : bytes :=
  let n := take (Z.to_nat GLOBALNAME_LENGTH) addr in
  n ++ replicate (Z.to_nat GLOBALNAME_LENGTH - length n) 0.

Definition skynet_sendname (context : option loc) (source : Z) (addr : bytes) (type session data sz : Z)
    (w : node) : outcome (Z * node) :=
  source ← context_source context source w;
  if char_at addr 0 =? 58 then
    skynet_send context source (u32 (strtoul (drop 1 addr) 16).1) type session data sz w
  else if char_at addr 0 =? 46 then
    des ← skynet_handle_findname (n_handles w) (drop 1 addr);
    if des =? 0 then
      w ← (if Z.land type PTYPE_TAG_DONTCOPY =? 0 then Ret w else skynet_free data w);
      Ret (-1, w)
    else skynet_send context source des type session data sz w
  else
    '(session, data, sz, w) ← _filter_args context type session data sz w;
    let '(rmsg, w) := skynet_malloc (Remote (RemoteMessage (copy_name addr) 0 data
          (Z.land sz MESSAGE_TYPE_MASK) (Z.shiftr sz MESSAGE_TYPE_SHIFT))) w in
    w ← skynet_harbor_send rmsg source session w;
    Ret (session, w).

(** ** Creating and serving contexts *)

Definition drop_message (handle : Z) (msg : skynet_message) (w : node) : outcome node :=
  w ← skynet_free (msg_data msg) w;
  _ ← assert_ (negb (handle =? 0));
  '(_, w) ← skynet_send None handle (msg_source msg) PTYPE_ERROR 0 0 0 w;
  Ret w.

(** [skynet_mq_release(queue, drop_message, &d)]; a queue drops as many
    messages as it holds. *)
Definition release_queue (queue : loc) (handle : Z) (w : node) : outcome node :=
  q ← deref (mqs (n_store w) !! queue);
  skynet_mq_release (drop_message handle) (S (Z.to_nat (skynet_mq_length q))) queue w.

Definition skynet_context_new (name : bytes) (param : option bytes) (w : node)
    : outcome (option loc * node) :=
  '(md, w) ← skynet_module_query name w;
  match md with
  | None => Ret (None, w)
  | Some md =>
      '(inst, w) ← skynet_module_instance_create md w;
      if inst =? 0 then Ret (None, w)
      else
        let l := n_brk w in
        let w := with_heap w (n_heap w) (Pos.succ l) in
        let w := set_ctx l (SkynetContext inst md 0 None 1%positive 0 0 0 [] 0 0 2 0 false false (n_profile w)) w in
        '(handle, w) ← skynet_handle_register l w;
        let queue := n_brk w in
        let w := with_heap w (n_heap w) (Pos.succ queue) in
        S ← mq_alloc (n_store w) queue handle;
        let w := with_store w S in
        c ← get_ctx l w;
        let w := set_ctx l (ctx_with_handle c handle queue) w in
        w ← context_inc w;
        '(r, w) ← skynet_module_instance_init md inst l param w;
        if r =? 0 then
          '(ret, w) ← context_release l w;
          w ← (match ret with
               | Some l => c ← get_ctx l w; Ret (set_ctx l (ctx_with_init c true) w)
               | None => Ret w
               end);
          S ← skynet_globalmq_push (n_store w) queue;
          let w := with_store w S in
          w ← (match ret with
               | Some l => skynet_error (Some l) (str "LAUNCH " ++ name ++ str " " ++ default [] param) w
               | None => Ret w
               end);
          Ret (ret, w)
        else
          w ← skynet_error (Some l) (str "FAILED launch " ++ name) w;
          c ← get_ctx l w;
          let handle := ctx_handle c in
          '(_, w) ← context_release l w;
          '(_, w) ← skynet_handle_retire handle w;
          w ← release_queue queue handle w;
          Ret (None, w)
  end.

Definition skynet_callback (l : loc) (ud : Z) (cb : option Z) (w : node) : outcome node :=
  c ← get_ctx l w;
  Ret (set_ctx l (ctx_with_cb c ud cb) w).

Definition dispatch_message (l : loc) (msg : skynet_message) (w : node) : outcome node :=
  c ← get_ctx l w;
  _ ← assert_ (ctx_init c);
  let w := with_current w (ctx_handle c) in
  let type := Z.shiftr (msg_sz msg) MESSAGE_TYPE_SHIFT in
  let sz := Z.land (msg_sz msg) MESSAGE_TYPE_MASK in
  w ← (if ctx_logfile c =? 0 then Ret w
       else x_log_output X (ctx_logfile c) (msg_source msg) type (msg_session msg) (msg_data msg) sz w);
  c ← get_ctx l w;
  count ← int_ok (ctx_message_count c + 1);
  let w := set_ctx l (ctx_with_cpu c (ctx_cpu_cost c) (ctx_cpu_start c) count) w in
  cb ← deref (ctx_cb c);
  '(reserve_msg, w) ←
    (if ctx_profile c then
       '(t0, w) ← x_thread_time X w;
       c ← get_ctx l w;
       let w := set_ctx l (ctx_with_cpu c (ctx_cpu_cost c) t0 (ctx_message_count c)) w in
       '(r, w) ← x_cb X cb l (ctx_cb_ud c) type (msg_session msg) (msg_source msg) (msg_data msg) sz w;
       '(t1, w) ← x_thread_time X w;
       c ← get_ctx l w;
       let cost_time := u64 (t1 - ctx_cpu_start c) in
       Ret (r, set_ctx l (ctx_with_cpu c (u64 (ctx_cpu_cost c + cost_time)) (ctx_cpu_start c)
                            (ctx_message_count c)) w)
     else x_cb X cb l (ctx_cb_ud c) type (msg_session msg) (msg_source msg) (msg_data msg) sz w);
  if reserve_msg =? 0 then skynet_free (msg_data msg) w else Ret w.

(** [skynet_mq_pop] on the queue at [q]. *)
Definition queue_pop (q : loc) (w : node) : outcome (option skynet_message * node) :=
  mq ← deref (mqs (n_store w) !! q);
  '(_, m, mq) ← skynet_mq_pop mq;
  Ret (m, with_store w (set_mq (n_store w) q mq)).

(** [while (!skynet_mq_pop(q,&msg))]; [None] when the fuel runs out. *)
Fixpoint skynet_context_dispatchall (fuel : nat) (l : loc) (w : node) : outcome node :=
  match fuel with
  | O => Undefined
  | S fuel =>
      c ← get_ctx l w;
      '(m, w) ← queue_pop (ctx_queue c) w;
      match m with
      | None => Ret w
      | Some m => w ← dispatch_message l m w; skynet_context_dispatchall fuel l w
      end
  end.

Definition globalmq_pop (w : node) : outcome (option loc * node) :=
  '(q, S') ← skynet_globalmq_pop (n_store w);
  Ret (q, with_store w S').

(** *** Monitors of [skynet_monitor.c], one per worker *)
Record skynet_monitor := SkynetMonitor {
  sm_version : Z; sm_check_version : Z; sm_source : Z; sm_destination : Z }.

Definition skynet_monitor_new : skynet_monitor := SkynetMonitor 0 0 0 0.

(** [ATOM_INC] wraps around. *)
Definition skynet_monitor_trigger (sm : skynet_monitor) (source destination : Z) : skynet_monitor :=
  SkynetMonitor (s32 (sm_version sm + 1)) (sm_check_version sm) source destination.

Definition skynet_monitor_check (sm : skynet_monitor) (w : node) : outcome (skynet_monitor * node) :=
  if sm_version sm =? sm_check_version sm then
    if sm_destination sm =? 0 then Ret (sm, w)
    else
      w ← skynet_context_endless (sm_destination sm) w;
      w ← skynet_error None (str "A message from [ :" ++ fmt_0x 8 (sm_source sm) ++ str " ] to [ :" ++
            fmt_0x 8 (sm_destination sm) ++ str " ] maybe in an endless loop (version = " ++
            fmt_d (sm_version sm) ++ str ")") w;
      Ret (sm, w)
  else Ret (SkynetMonitor (sm_version sm) (sm_version sm) (sm_source sm) (sm_destination sm), w).

(** The [for (i=0;i<n;i++)] of [skynet_context_message_dispatch], [k] rounds
    from [i]; [n] is set in the first one. The result says whether the queue
    ran empty. *)
Fixpoint dispatch_rounds (k : nat) (i n weight : Z) (l q : loc) (handle : Z) (sm : skynet_monitor) (w : node)
    : outcome (bool * skynet_monitor * node) :=
  if n <=? i then Ret (false, sm, w)
  else
    match k with
    | O => Undefined
    | S k =>
        '(m, w) ← queue_pop q w;
        match m with
        | None => Ret (true, sm, w)
        | Some msg =>
            mq ← deref (mqs (n_store w) !! q);
            let n := if (i =? 0) && (0 <=? weight) then Z.shiftr (skynet_mq_length mq) weight else n in
            let '(overload, mq) := skynet_mq_overload mq in
            let w := with_store w (set_mq (n_store w) q mq) in
            w ← (if overload =? 0 then Ret w
                 else skynet_error (Some l) (str "May overload, message queue length = " ++ fmt_d overload) w);
            let sm := skynet_monitor_trigger sm (msg_source msg) handle in
            c ← get_ctx l w;
            w ← (match ctx_cb c with
                 | None => skynet_free (msg_data msg) w
                 | Some _ => dispatch_message l msg w
                 end);
            dispatch_rounds k (i + 1) n weight l q handle (skynet_monitor_trigger sm 0 0) w
        end
    end.

Definition skynet_context_message_dispatch (sm : skynet_monitor) (q : option loc) (weight : Z) (w : node)
    : outcome (option loc * skynet_monitor * node) :=
  '(q, w) ← (match q with Some q => Ret (Some q, w) | None => globalmq_pop w end);
  match q with
  | None => Ret (None, sm, w)
  | Some q =>
      mq ← deref (mqs (n_store w) !! q);
      let handle := skynet_mq_handle mq in
      '(ctx, w) ← skynet_handle_grab handle w;
      match ctx with
      | None =>
          w ← release_queue q handle w;
          '(q, w) ← globalmq_pop w;
          Ret (q, sm, w)
      | Some l =>
          '(empty, sm, w) ← dispatch_rounds (S (Z.to_nat (skynet_mq_length mq))) 0 1 weight l q handle sm w;
          if empty : bool then
            '(_, w) ← context_release l w;
            '(q, w) ← globalmq_pop w;
            Ret (q, sm, w)
          else
            c ← get_ctx l w;
            _ ← assert_ (bool_decide (q = ctx_queue c));
            '(nq, w) ← globalmq_pop w;
            '(q, w) ← (match nq with
                       | Some nq => S ← skynet_globalmq_push (n_store w) q; Ret (nq, with_store w S)
                       | None => Ret (q, w)
                       end);
            '(_, w) ← context_release l w;
            Ret (Some q, sm, w)
      end
  end.
End externals.
