(* ===== verification/Mailbox.v ===== *)
(** Message delivery refines mailboxes: the registry, the contexts' reference
    counts and the message queues of [Node] against a map from handles to
    lists of pending messages. *)
From S2P Require Import Prelude Ring Mq Handle Timer Cstr Node.

(** [skynet_context_handle] in the node [w]. *)
Definition ctxh (w : node) (l : loc) : outcome Z := c ← get_ctx l w; Ret (ctx_handle c).

(** A context [c] registered as [h] whose queue, not marked for release,
    holds [ms]. *)
Record ctx_live (w : node) (h : Z) (c : skynet_context) (q : message_queue)
    (ms : list skynet_message) : Prop := {
  cl_handle : ctx_handle c = h;
  cl_ref : 1 <= ctx_ref c < INT_MAX;
  cl_q : strip (n_store w) !! ctx_queue c = Some q;
  cl_release : mq_release q = 0;
  cl_repr : mq_repr q ms }.

(** The node's live contexts are those of [M], with mailboxes [boxes]. *)
Record node_inv (w : node) (M : gmap Z loc) (boxes : gmap Z (list skynet_message)) : Prop := {
  ni_slots : slots_map (ctxh w) (n_handles w) M;
  ni_sched : exists owned queued, mq_inv (n_store w) owned queued;
  ni_live h l : M !! h = Some l -> exists c q ms,
    n_ctxs w !! l = Some c /\ boxes !! h = Some ms /\ ctx_live w h c q ms;
  ni_dead h : M !! h = None -> boxes !! h = None;
  ni_distinct h h' l l' c c' :
    M !! h = Some l -> M !! h' = Some l' -> n_ctxs w !! l = Some c -> n_ctxs w !! l' = Some c' ->
    ctx_queue c = ctx_queue c' -> h = h';
  ni_heap p : is_Some (n_heap w !! p) -> 0 < p < Z.pos (n_brk w) }.

(** The invariant reads the registry, the store, three fields of each context
    and the extent of the heap. *)
Definition same_core (w w' : node) : Prop :=
  n_handles w' = n_handles w /\ n_store w' = n_store w /\
  forall l c, n_ctxs w !! l = Some c -> exists c', n_ctxs w' !! l = Some c' /\
    ctx_handle c' = ctx_handle c /\ ctx_queue c' = ctx_queue c /\ ctx_ref c' = ctx_ref c.

Lemma node_inv_ext w w' M boxes :
  node_inv w M boxes -> same_core w w' ->
  (forall p, is_Some (n_heap w' !! p) -> 0 < p < Z.pos (n_brk w')) -> node_inv w' M boxes.
Proof.
  intros [Hs Hm Hl Hd Hx Hh] (Eh & Es & Ec) Hh'.
  split; [|by rewrite Es| |done| |done].
  - rewrite Eh. eapply slots_map_ext; [|done]. intros h l HM. unfold ctxh, get_ctx.
    destruct (Hl h l HM) as (c & _ & _ & Hc & _). destruct (Ec l c Hc) as (c' & -> & E & _).
    rewrite Hc. cbn. by rewrite E.
  - intros h l HM. destruct (Hl h l HM) as (c & q & ms & H1 & H2 & [H3 H4 H5 H6 H7]).
    destruct (Ec l c H1) as (c' & Hc' & E1 & E2 & E3).
    exists c', q, ms. split; [done|]. split; [done|]. by split; rewrite ?E1, ?E2, ?E3, ?Es.
  - intros h h' l l' c c' H1 H2 H3 H4 Heq.
    destruct (Hl h l H1) as (c1 & _ & _ & H5 & _), (Hl h' l' H2) as (c2 & _ & _ & H6 & _).
    apply (Hx h h' l l' c1 c2); [done..|].
    destruct (Ec l c1 H5) as (? & ? & _ & E1 & _), (Ec l' c2 H6) as (? & ? & _ & E2 & _). congruence.
Qed.

Lemma same_core_refl w : same_core w w.
Proof. split; [done|]. split; [done|]. eauto. Qed.

Lemma get_set_ctx l c w : get_ctx l (set_ctx l c w) = Ret c.
Proof. unfold get_ctx. cbn. by rewrite lookup_insert_eq. Qed.

Section delivery.
Context (X : externals).
#[local] Hint Extern 0 (HasHandles node) => exact (node_HasHandles X) : typeclass_instances.

Lemma grab_dead w M boxes h :
  node_inv w M boxes -> M !! h = None -> skynet_handle_grab h w = Ret (None, w).
Proof.
  intros N HM. unfold skynet_handle_grab. pose proof (slot_of_spec _ _ _ h (ni_slots _ _ _ N)) as Hs.
  unfold ctxh in Hs. cbn. by rewrite Hs, HM.
Qed.

Lemma grab_live w M boxes h l c :
  node_inv w M boxes -> M !! h = Some l -> n_ctxs w !! l = Some c ->
  skynet_handle_grab h w = Ret (Some l, set_ctx l (ctx_with_ref c (ctx_ref c + 1)) w).
Proof.
  intros N HM Hc. destruct (ni_live _ _ _ N h l HM) as (c' & q & ms & Hc' & _ & [_ Href _ _ _]).
  simplify_eq. unfold skynet_handle_grab. pose proof (slot_of_spec _ _ _ h (ni_slots _ _ _ N)) as Hs.
  unfold ctxh in Hs. cbn. rewrite Hs, HM. cbn. unfold context_grab, get_ctx. rewrite Hc. cbn.
  rewrite int_ok_Ret; [done|]. unfold INT_MAX, INT_MIN in *. lia.
Qed.

(** Dropping a reference that was taken on a live context. *)
Lemma release_grabbed w l c :
  1 <= ctx_ref c < INT_MAX -> n_ctxs w !! l = Some (ctx_with_ref c (ctx_ref c + 1)) ->
  context_release X l w = Ret (Some l, set_ctx l c w).
Proof.
  intros Href Hc. unfold context_release, get_ctx. rewrite Hc. cbn -[delete_context Z.eqb].
  replace (ctx_ref c + 1 - 1) with (ctx_ref c) by lia.
  rewrite int_ok_Ret by (unfold INT_MAX, INT_MIN in *; lia). rewrite bind_Ret.
  rewrite (proj2 (Z.eqb_neq _ 0)) by lia. by destruct c.
Qed.

Lemma push_dead w M boxes h m :
  node_inv w M boxes -> boxes !! h = None -> skynet_context_push X h m w = Ret (-1, w).
Proof.
  intros N Hb. unfold skynet_context_push. rewrite (grab_dead w M boxes); [done|done|].
  destruct (M !! h) as [l|] eqn:E; [|done]. destruct (ni_live _ _ _ N h l E) as (? & ? & ? & _ & ? & _).
  congruence.
Qed.

(** Queues that are not marked for release are the only ones a client reads;
    the scheduling invariant may change with them. *)
Lemma node_inv_store w S' M boxes :
  node_inv w M boxes -> (exists o lq, mq_inv S' o lq) ->
  (forall x q, strip (n_store w) !! x = Some q -> mq_release q = 0 -> strip S' !! x = Some q) ->
  node_inv (with_store w S') M boxes.
Proof.
  intros [N1 N2 N3 N4 N5 N6] Hmq Hs. split; cbn; [done|done| |done|done|done].
  intros h l HM. destruct (N3 h l HM) as (c & q & ms & Hc & Hb & [H1 H2 H3 H4 H5]).
  exists c, q, ms. split; [done|]. split; [done|]. split; cbn; auto.
Qed.

(** The queue of a context in [S'] after a push to it in [S]: it has one message more, and when it
    was idle it is now the last of the global queue; no other queue has changed. *)
Definition pushed (S S' : store) (o : gset loc) (lq : list loc) (x : loc) (ms : list skynet_message) (m : skynet_message) : Prop :=
  exists q q', strip S !! x = Some q /\ mq_repr q ms /\ mq_release q = 0 /\
    strip S' = <[x := q']> (strip S) /\ mq_repr q' (ms ++ [m]) /\ mq_release q' = 0 /\ mq_handle q' = mq_handle q /\
    mq_in_global q' = (if mq_in_global q =? 0 then MQ_IN_GLOBAL else mq_in_global q) /\
    mq_inv S' o (if mq_in_global q =? 0 then lq ++ [x] else lq).

(** A message pushed to a live handle joins its mailbox; only the store
    changes, and in it only a queue that is in use. *)
Lemma push_live w M boxes h ms m o lq :
  node_inv w M boxes -> boxes !! h = Some ms -> Z.of_nat (length ms) + 1 < 2 ^ 30 ->
  mq_inv (n_store w) o lq ->
  exists S', skynet_context_push X h m w = Ret (0, with_store w S') /\
    node_inv (with_store w S') M (<[h := ms ++ [m]]> boxes) /\ (exists lq', mq_inv S' o lq') /\
    (forall x q, strip (n_store w) !! x = Some q -> mq_release q = 1 -> strip S' !! x = Some q) /\
    exists l c, M !! h = Some l /\ n_ctxs w !! l = Some c /\ pushed (n_store w) S' o lq (ctx_queue c) ms m.
Proof.
  intros N Hb Hlen Hmq. destruct (M !! h) as [l|] eqn:HM; [|by rewrite (ni_dead _ _ _ N h HM) in Hb].
  destruct (ni_live _ _ _ N h l HM) as (c & q & ms' & Hc & Hb' & [Hh Href Hq Hrel Hrep]).
  rewrite Hb in Hb'. injection Hb' as <-.
  pose proof Hq as Hq'. rewrite strip_lookup in Hq'.
  destruct (mqs (n_store w) !! ctx_queue c) as [q0|] eqn:Hq0; [|done]. cbn in Hq'. injection Hq' as Hq'.
  destruct (mq_push_spec _ _ _ _ q0 ms m Hmq Hq0) as (S' & q1 & Hp & Hmq' & Hs & Hrep1 & Hrel1 & Hh1 & Hg1);
    [by subst q|by subst q; apply repr_with_next in Hrep|done|].
  exists S'. split; [|split; [|split; [by eauto|split]]].
  - unfold skynet_context_push. rewrite (grab_live w M boxes h l c) by done. rewrite bind_Ret.
    rewrite get_set_ctx, bind_Ret. cbn [ctx_with_ref ctx_queue set_ctx with_ctxs n_store].
    rewrite Hp, bind_Ret.
    rewrite (release_grabbed _ l c); [|done|cbn; by rewrite lookup_insert_eq]. rewrite bind_Ret.
    unfold set_ctx, with_store, with_ctxs. cbn. rewrite insert_insert_eq, insert_id by done.
    by destruct w.
  - destruct N as [N1 N2 N3 N4 N5 N6]. split; cbn; [done|by eauto| | |done|done].
    + intros h' l' HM'. destruct (N3 h' l' HM') as (c' & q' & ms'' & Hc' & Hb' & [H1 H2 H3 H4 H5]).
      destruct (decide (h' = h)) as [->|Hne].
      * assert (l' = l) as -> by congruence. assert (c' = c) as -> by congruence.
        exists c, q1, (ms ++ [m]). rewrite lookup_insert_eq. split; [done|]. split; [done|].
        split; cbn; [done|done|by rewrite Hs, lookup_insert_eq|done|done].
      * exists c', q', ms''. rewrite lookup_insert_ne by done. split; [done|]. split; [done|].
        split; cbn; [done|done| |done|done]. rewrite Hs, lookup_insert_ne; [done|].
        intros Heq. apply Hne. by eapply N5.
    + intros h' HM'. rewrite lookup_insert_ne by congruence. auto.
  - intros x qx Hx Hr. rewrite Hs, lookup_insert_ne; [done|]. intros <-. simplify_eq. congruence.
  - exists l, c. split; [done|]. split; [done|]. exists q, q1. subst q. by split_and!.
Qed.

(** ** Harbor ids *)

(** The node's harbor id is [hb]. *)
Definition harbor_is (w : node) (hb : Z) : Prop := 0 <= hb < 256 /\ n_HARBOR w = Z.shiftl hb 24.

(** Handles of this node, and those with no harbor id, are local. *)
Definition local_handle (hb h : Z) : bool := (h / 2 ^ 24 =? hb) || (h / 2 ^ 24 =? 0).

Lemma land_lnot_mask h : Z.land h (Z.lnot HANDLE_MASK) = h / 2 ^ 24 * 2 ^ 24.
Proof.
  change HANDLE_MASK with (Z.ones 24). rewrite <- Z.ldiff_land, Z.ldiff_ones_r by lia.
  by rewrite Z.shiftl_mul_pow2, Z.shiftr_div_pow2 by lia.
Qed.

Lemma isremote_spec w hb h :
  harbor_is w hb -> skynet_harbor_message_isremote h w = Ret (negb (local_handle hb h)).
Proof.
  intros [Hhb Hw]. unfold skynet_harbor_message_isremote, local_handle.
  rewrite Hw, land_lnot_mask, Z.shiftl_mul_pow2 by lia.
  rewrite (proj2 (Z.eqb_neq (hb * 2 ^ 24) (2 ^ 32 - 1))) by lia. cbn [negb assert_]. rewrite bind_Ret.
  set (k := h / 2 ^ 24). f_equal.
  destruct (Z.eqb_spec k hb), (Z.eqb_spec k 0), (Z.eqb_spec (k * 2 ^ 24) (hb * 2 ^ 24)),
    (Z.eqb_spec (k * 2 ^ 24) 0); lia || done.
Qed.

(** ** Message memory *)

Lemma malloc_inv w M boxes b : node_inv w M boxes -> node_inv (skynet_malloc b w).2 M boxes.
Proof.
  intros N. eapply node_inv_ext; [done|split; [done|split; [done|]]; eauto|].
  cbn. intros p. rewrite lookup_insert_is_Some. intros [<-|[_ H]]; [lia|].
  pose proof (ni_heap _ _ _ N p H). lia.
Qed.

Lemma malloc_fresh w M boxes : node_inv w M boxes -> n_heap w !! Z.pos (n_brk w) = None.
Proof.
  intros N. destruct (_ !! _) eqn:E; [|done]. pose proof (ni_heap _ _ _ N (Z.pos (n_brk w))) as H.
  rewrite E in H. specialize (H ltac:(by eexists)). lia.
Qed.

Lemma free_ok w M boxes p :
  node_inv w M boxes -> p = 0 \/ is_Some (n_heap w !! p) ->
  exists w', skynet_free p w = Ret w' /\ node_inv w' M boxes /\ w' = with_heap w (delete p (n_heap w)) (n_brk w).
Proof.
  intros N Hp. unfold skynet_free. destruct (Z.eqb_spec p 0) as [->|].
  - exists w. split; [done|]. split; [done|]. rewrite delete_id; [by destruct w|].
    destruct (n_heap w !! 0) eqn:E; [|done]. pose proof (ni_heap _ _ _ N 0) as H.
    rewrite E in H. specialize (H ltac:(by eexists)). lia.
  - destruct Hp as [|[b Hb]]; [done|]. rewrite Hb. cbn. eexists. split; [done|]. split; [|done].
    eapply node_inv_ext; [done|split; [done|split; [done|]]; eauto|]. cbn. intros q.
    rewrite lookup_delete_is_Some. intros [_ H]. by apply (ni_heap _ _ _ N).
Qed.

(** ** Sending *)

Definition tagged (copy : bool) (t : Z) : Z := if copy then t else Z.lor t PTYPE_TAG_DONTCOPY.

Lemma tagged_spec copy t : 0 <= t < 256 ->
  (Z.land (tagged copy t) PTYPE_TAG_DONTCOPY =? 0) = copy /\
  Z.land (tagged copy t) PTYPE_TAG_ALLOCSESSION = 0 /\ Z.land (tagged copy t) 0xff = t.
Proof.
  intros Ht.
  assert (Hall : forallb (fun t => Bool.eqb (Z.land (tagged copy t) PTYPE_TAG_DONTCOPY =? 0) copy &&
    (Z.land (tagged copy t) PTYPE_TAG_ALLOCSESSION =? 0) && (Z.land (tagged copy t) 0xff =? t))
    (seqZ 0 256) = true) by (destruct copy; vm_compute; reflexivity).
  rewrite forallb_forall in Hall. specialize (Hall t). rewrite <- list_elem_of_In, elem_of_seqZ in Hall.
  specialize (Hall ltac:(lia)). apply andb_true_iff in Hall as [[H1%eqb_prop H2%Z.eqb_eq]%andb_true_iff H3%Z.eqb_eq].
  done.
Qed.

(** The size word of a message: the type in the top byte. *)
Lemma size_word sz t : 0 <= sz < 2 ^ 56 -> 0 <= t < 256 ->
  Z.lor sz (u64 (Z.shiftl t MESSAGE_TYPE_SHIFT)) = sz + t * 2 ^ 56.
Proof.
  intros Hsz Ht. unfold u64, MESSAGE_TYPE_SHIFT.
  rewrite Z.mod_small by (rewrite Z.shiftl_mul_pow2; lia). apply lor_shiftl_add; lia.
Qed.

Lemma size_fits sz : 0 <= sz < 2 ^ 56 -> Z.land sz MESSAGE_TYPE_MASK = sz.
Proof. intros. unfold MESSAGE_TYPE_MASK. rewrite land_ones_pow2 by lia. by apply Z.mod_small. Qed.

(** The data that goes out: a fresh copy, or the caller's block. *)
Definition sent_data (w : node) (copy : bool) (data : Z) : Z :=
  if copy && negb (data =? 0) then Z.pos (n_brk w) else data.
Definition sent_heap (w : node) (copy : bool) (data : Z) (b : bytes) (sz : Z) : gmap Z block :=
  if copy && negb (data =? 0) then <[Z.pos (n_brk w) := Bytes (take (Z.to_nat sz) b ++ [0])]> (n_heap w)
  else n_heap w.

(** [data] is NULL or a block of at least [sz] bytes that starts with [b]. *)
Definition data_ok (w : node) (data : Z) (b : bytes) (sz : Z) : Prop :=
  data = 0 \/ n_heap w !! data = Some (Bytes b) /\ sz <= Z.of_nat (length b).

Lemma filter_args_ok w M boxes context copy t session data b sz :
  node_inv w M boxes -> 0 <= t < 256 -> 0 <= sz < 2 ^ 56 -> data_ok w data b sz ->
  exists w', _filter_args context (tagged copy t) session data sz w =
      Ret (session, sent_data w copy data, sz + t * 2 ^ 56, w') /\
    node_inv w' M boxes /\ w' = with_heap w (sent_heap w copy data b sz) (n_brk w').
Proof.
  intros N Ht Hsz Hd. destruct (tagged_spec copy t Ht) as (T1 & T2 & T3).
  unfold _filter_args, sent_data, sent_heap. rewrite T1, T2, T3. cbn [negb Z.eqb].
  rewrite bind_Ret, size_word by done. destruct (copy && negb (data =? 0)) eqn:E.
  - destruct Hd as [->|[Hb Hl]]; [by rewrite andb_false_r in E|]. rewrite Hb. cbn [deref].
    rewrite bind_Ret. rewrite (proj2 (Z.ltb_ge _ _)) by done. rewrite bind_Ret.
    eexists. split; [reflexivity|]. split; [|done]. by apply (malloc_inv w).
  - rewrite bind_Ret. eexists. split; [done|]. split; [done|]. by destruct w.
Qed.

Lemma send_unfold w M boxes hb context source destination copy t session data b sz :
  node_inv w M boxes -> harbor_is w hb -> source <> 0 -> 0 <= t < 256 -> 0 <= sz < 2 ^ 56 ->
  data_ok w data b sz ->
  exists w1, node_inv w1 M boxes /\ w1 = with_heap w (sent_heap w copy data b sz) (n_brk w1) /\
    skynet_send X context source destination (tagged copy t) session data sz w =
      if destination =? 0 then Ret (session, w1)
      else if local_handle hb destination then
        '(r, w2) ← skynet_context_push X destination
            (SkynetMessage source session (sent_data w copy data) (sz + t * 2 ^ 56)) w1;
        if r =? 0 then Ret (session, w2) else w2 ← skynet_free (sent_data w copy data) w2; Ret (-1, w2)
      else
        let '(rmsg, w2) := skynet_malloc (Remote (RemoteMessage [] destination (sent_data w copy data)
              (Z.land (sz + t * 2 ^ 56) MESSAGE_TYPE_MASK) (Z.shiftr (sz + t * 2 ^ 56) MESSAGE_TYPE_SHIFT))) w1 in
        w2 ← skynet_harbor_send rmsg source session w2;
        Ret (session, w2).
Proof.
  intros N Hh Hs Ht Hsz Hd.
  destruct (filter_args_ok w M boxes context copy t session data b sz) as (w1 & Heq & N1 & Hw1); [done..|].
  exists w1. split; [done|]. split; [done|]. unfold skynet_send.
  rewrite size_fits, Z.eqb_refl by done. cbn [negb]. rewrite Heq, bind_Ret.
  unfold context_source. rewrite (proj2 (Z.eqb_neq source 0)) by done. rewrite bind_Ret.
  destruct (destination =? 0); [done|].
  rewrite (isremote_spec w1 hb) by (destruct Hh; split; [done|rewrite Hw1; done]). rewrite bind_Ret.
  by destruct (local_handle hb destination).
Qed.

(** ** Releasing the queue of a dead service *)

(** What a sender gets back for a message that was never served. *)
Definition error_reply (handle : Z) : skynet_message := SkynetMessage handle 0 0 (PTYPE_ERROR * 2 ^ 56).

(** Every message with a source is answered, in order; a source that is gone
    gets nothing. *)
Definition bounce (handle : Z) (ms : list skynet_message) (boxes : gmap Z (list skynet_message))
    : gmap Z (list skynet_message) :=
  foldl (fun b m => if msg_source m =? 0 then b
                    else alter (fun l => l ++ [error_reply handle]) (msg_source m) b) boxes ms.

(** The queue owns its messages' data: each is NULL or a block of its own. *)
Fixpoint data_owned (ms : list skynet_message) (heap : gmap Z block) : Prop :=
  match ms with
  | [] => True
  | m :: ms => (msg_data m = 0 \/ is_Some (heap !! msg_data m)) /\ data_owned ms (delete (msg_data m) heap)
  end.
Definition frees (ms : list skynet_message) (heap : gmap Z block) : gmap Z block :=
  foldl (fun h m => delete (msg_data m) h) heap ms.

(** [n] more messages fit in every mailbox. *)
Definition room (boxes : gmap Z (list skynet_message)) (n : nat) : Prop :=
  forall h l, boxes !! h = Some l -> Z.of_nat (length l) + Z.of_nat n < 2 ^ 30.

Lemma drop_message_ok w M boxes hb o lq handle m :
  node_inv w M boxes -> harbor_is w hb -> handle <> 0 -> room boxes 1 -> mq_inv (n_store w) o lq ->
  local_handle hb (msg_source m) = true -> msg_data m = 0 \/ is_Some (n_heap w !! msg_data m) ->
  exists w', drop_message X handle m w = Ret w' /\ node_inv w' M (bounce handle [m] boxes) /\
    n_heap w' = delete (msg_data m) (n_heap w) /\ harbor_is w' hb /\
    (exists lq', mq_inv (n_store w') o lq') /\
    (forall x q, strip (n_store w) !! x = Some q -> mq_release q = 1 -> strip (n_store w') !! x = Some q).
Proof.
  intros N Hh Hhandle Hroom Hmq Hlocal Hdata. unfold drop_message.
  destruct (free_ok w M boxes (msg_data m)) as (w1 & -> & N1 & Hw1); [done..|].
  assert (Hheap : n_heap w1 = delete (msg_data m) (n_heap w)) by by rewrite Hw1.
  assert (HH : n_HARBOR w1 = n_HARBOR w) by by rewrite Hw1.
  assert (HS : n_store w1 = n_store w) by by rewrite Hw1. clear Hw1.
  rewrite bind_Ret. rewrite (proj2 (Z.eqb_neq handle 0)) by done. cbn [negb assert_]. rewrite bind_Ret.
  assert (Hh1 : harbor_is w1 hb) by (destruct Hh; split; congruence).
  destruct (send_unfold w1 M boxes hb None handle (msg_source m) true 7 0 0 [] 0)
    as (w2 & N2 & Hw2 & Heq); [done|done|done|lia|lia|by left|].
  assert (Hheap2 : n_heap w2 = sent_heap w1 true 0 [] 0) by by rewrite Hw2.
  assert (HH2 : n_HARBOR w2 = n_HARBOR w1) by by rewrite Hw2.
  assert (HS2 : n_store w2 = n_store w1) by by rewrite Hw2. clear Hw2.
  change (tagged true 7) with PTYPE_ERROR in Heq. change (sent_data w1 true 0) with 0 in Heq.
  change (n_heap w2 = n_heap w1) in Hheap2. rewrite Heq, Hlocal. cbn [bounce foldl].
  assert (Hh2 : harbor_is w2 hb) by (destruct Hh; split; congruence).
  destruct (msg_source m =? 0).
  { rewrite bind_Ret. exists w2. split; [done|]. split; [done|]. split; [congruence|]. split; [done|].
    rewrite HS2, HS. split; [by eauto|done]. }
  destruct (boxes !! msg_source m) as [l|] eqn:Hb.
  - pose proof (Hroom _ _ Hb). rewrite <- HS, <- HS2 in Hmq.
    destruct (push_live w2 M boxes (msg_source m) l (error_reply handle) o lq)
      as (S' & Hp & N3 & Hmq3 & Hs3 & _); [done|done|lia|done|].
    change (SkynetMessage handle 0 0 (0 + 7 * 2 ^ 56)) with (error_reply handle). rewrite Hp, bind_Ret.
    change (0 =? 0) with true. cbv iota. rewrite bind_Ret.
    eexists. split; [reflexivity|]. split.
    { replace (alter _ _ _) with (<[msg_source m := l ++ [error_reply handle]]> boxes); [done|].
      apply map_eq. intros j. destruct (decide (j = msg_source m)) as [->|].
      - by rewrite lookup_insert_eq, lookup_alter_eq, Hb.
      - by rewrite lookup_insert_ne, lookup_alter_ne. }
    cbn. split; [congruence|]. split; [done|]. split; [done|]. by rewrite <- HS, <- HS2.
  - rewrite (push_dead w2 M boxes), bind_Ret by done. change (-1 =? 0) with false. cbv iota.
    change (skynet_free 0 w2) with (Ret w2). rewrite !bind_Ret. exists w2. split; [done|]. split.
    { replace (alter _ _ _) with boxes; [done|]. symmetry. apply map_eq. intros j.
      destruct (decide (j = msg_source m)) as [->|]; [by rewrite lookup_alter_eq, Hb|by rewrite lookup_alter_ne]. }
    split; [congruence|]. split; [done|]. rewrite HS2, HS. split; [by eauto|done].
Qed.

Lemma bounce_room boxes handle m n :
  room boxes (Datatypes.S n) -> room (bounce handle [m] boxes) n.
Proof.
  intros Hr h l. cbn. destruct (msg_source m =? 0).
  - intros Hl. specialize (Hr h l Hl). lia.
  - destruct (decide (h = msg_source m)) as [->|].
    + rewrite lookup_alter_eq. intros (l' & Hl & ->)%fmap_Some. specialize (Hr _ _ Hl).
      rewrite length_app. cbn [length]. lia.
    + rewrite lookup_alter_ne by done. intros Hl. specialize (Hr h l Hl). lia.
Qed.

(** Dropping [ms], pending in the marked queue at [x]. *)
Lemma drop_loop_errors ms : forall fuel w M boxes hb o lq handle x q,
  node_inv w M boxes -> harbor_is w hb -> handle <> 0 -> room boxes (length ms) ->
  mq_inv (n_store w) o lq -> x ∈ o -> strip (n_store w) !! x = Some q -> mq_release q = 1 ->
  mq_repr q ms -> Forall (fun m => local_handle hb (msg_source m) = true) ms ->
  data_owned ms (n_heap w) -> (length ms < fuel)%nat ->
  exists w', drop_loop (drop_message X handle) fuel x w = Ret w' /\
    node_inv w' M (bounce handle ms boxes) /\ n_heap w' = frees ms (n_heap w) /\
    (exists lq', mq_inv (n_store w') o lq') /\
    exists q', mqs (n_store w') !! x = Some q' /\ mq_release q' = 1.
Proof.
  induction ms as [|m ms IH]; intros fuel w M boxes hb o lq handle x q N Hh Hhandle Hroom Hmq Hx Hq Hrel
    Hrep Hlocal Hdata Hfuel; (destruct fuel as [|fuel]; [cbn in Hfuel; lia|]);
    cbn [drop_loop get_store set_store node_HasStore];
    (destruct (mqs (n_store w) !! x) as [q0|] eqn:Hq0; [|by rewrite strip_lookup, Hq0 in Hq]);
    rewrite strip_lookup, Hq0 in Hq; injection Hq as <-; apply repr_with_next in Hrep; cbn in Hrel;
    cbn [deref]; rewrite bind_Ret;
    destruct (inv_get _ _ _ _ _ Hmq Hq0) as [ms0 [_ Hig _ Hsch _]].
  - destruct (pop_none q0 Hrep) as (q1 & -> & Hrep1 & (Hh1 & Hr1 & Hn1) & Hig1 & _). rewrite bind_Ret.
    cbn iota. eexists. split; [reflexivity|].
    assert (Hmq' : mq_inv (set_mq (n_store w) x q1) o lq).
    { eapply inv_set_same; [done|done|done|]. split; [done|by left|right; congruence| |by left].
      split; [intros _; right; congruence|intros _; by right]. }
    split; [|split; [done|split; [by eauto|]]].
    + apply node_inv_store; [done|by eauto|]. intros y qy Hy Hry. rewrite strip_set.
      rewrite lookup_insert_ne; [done|]. intros <-. rewrite strip_lookup, Hq0 in Hy. injection Hy as <-.
      cbn in Hry. lia.
    + cbn. rewrite lookup_insert_eq. eexists. split; [reflexivity|congruence].
  - destruct (pop_some q0 m ms Hrep) as (q1 & -> & Hrep1 & (Hh1 & Hr1 & Hn1) & Hig1 & _).
    rewrite bind_Ret. cbn iota. apply Forall_cons in Hlocal as [Hm Hlocal]. destruct Hdata as [Hd Hdata].
    set (w1 := with_store w (set_mq (n_store w) x q1)).
    assert (Hmq' : mq_inv (set_mq (n_store w) x q1) o lq).
    { eapply inv_set_same; [done|done|done|]. split; [done|by rewrite Hig1|right; congruence| |by right; right].
      split; [intros _; right; congruence|intros _; by right]. }
    assert (N1 : node_inv w1 M boxes).
    { apply node_inv_store; [done|by eauto|]. intros y qy Hy Hry. rewrite strip_set.
      rewrite lookup_insert_ne; [done|]. intros <-. rewrite strip_lookup, Hq0 in Hy. injection Hy as <-.
      cbn in Hry. lia. }
    destruct (drop_message_ok w1 M boxes hb o lq handle m) as (w2 & -> & N2 & Hheap & Hh2 & [lq2 Hmq2] & Hs2);
      [done|done|done| |done|done|done|].
    { intros h l Hl. specialize (Hroom h l Hl). cbn [length] in Hroom. lia. }
    rewrite bind_Ret.
    destruct (IH fuel w2 M (bounce handle [m] boxes) hb o lq2 handle x (with_next q1 None))
      as (w3 & -> & N3 & Hheap3 & Hmq3 & Hx3); [done|done|done|by apply bounce_room|done|done| |cbn; congruence| |done| |cbn in Hfuel; lia|].
    + apply Hs2; [|cbn; congruence]. replace (n_store w1) with (set_mq (n_store w) x q1) by done.
      by rewrite strip_set, lookup_insert_eq.
    + by apply repr_with_next.
    + by rewrite Hheap.
    + exists w3. split; [done|]. split; [done|]. split; [|done]. rewrite Hheap3, Hheap. done.
Qed.

Lemma release_queue_errors w M boxes hb o lq handle x q ms :
  node_inv w M boxes -> harbor_is w hb -> handle <> 0 -> room boxes (length ms) ->
  mq_inv (n_store w) o lq -> x ∈ o -> strip (n_store w) !! x = Some q -> mq_release q = 1 ->
  mq_repr q ms -> Forall (fun m => local_handle hb (msg_source m) = true) ms ->
  data_owned ms (n_heap w) ->
  exists w', release_queue X x handle w = Ret w' /\
    node_inv w' M (bounce handle ms boxes) /\ n_heap w' = frees ms (n_heap w) /\
    mqs (n_store w') !! x = None.
Proof.
  intros N Hh Hhandle Hroom Hmq Hx Hq Hrel Hrep Hlocal Hdata. unfold release_queue.
  destruct (mqs (n_store w) !! x) as [q0|] eqn:Hq0; [|by rewrite strip_lookup, Hq0 in Hq].
  pose proof Hq as Hq'. rewrite strip_lookup, Hq0 in Hq'. injection Hq' as <-.
  cbn [deref]. rewrite bind_Ret.
  unfold skynet_mq_release. cbn [get_store node_HasStore]. rewrite Hq0. cbn [deref]. rewrite bind_Ret.
  cbn in Hrel. rewrite Hrel. change (1 =? 0) with false. cbv iota. unfold _drop_queue.
  pose proof (proj1 (repr_with_next _ _ _) Hrep) as Hrep0.
  destruct (drop_loop_errors ms (Datatypes.S (Z.to_nat (skynet_mq_length q0))) w M boxes hb o lq handle x
    (with_next q0 None)) as (w1 & -> & N1 & Hheap & [lq' Hmq'] & q1 & Hq1 & Hr1); [done..|by rewrite (length_repr _ _ Hrep0); lia|].
  rewrite bind_Ret. unfold _release. cbn [get_store set_store node_HasStore]. rewrite Hq1. cbn [deref].
  rewrite bind_Ret.
  assert (Hxl : x ∉ lq') by (intros ?; by eapply inv_disjoint).
  rewrite (gq_repr_out _ _ (inv_gq _ _ _ Hmq') x q1 Hq1 Hxl).
  rewrite bool_decide_true by done. cbn [assert_]. rewrite bind_Ret.
  eexists. split; [reflexivity|]. split; [|split; [done|cbn; apply lookup_delete_eq]].
  apply node_inv_store; [done|eexists _, _; by apply inv_delete|].
  intros y qy Hy Hry. unfold strip in *. cbn. rewrite fmap_delete, lookup_delete_ne; [done|].
  intros <-. rewrite lookup_fmap, Hq1 in Hy. injection Hy as <-.
  cbn in Hry. lia.
Qed.

Lemma globalmq_pop_ok w M boxes :
  node_inv w M boxes ->
  exists q w', globalmq_pop w = Ret (q, w') /\ node_inv w' M boxes /\ n_heap w' = n_heap w /\
    strip (n_store w') = strip (n_store w).
Proof.
  intros N. destruct (ni_sched _ _ _ N) as (o & lq & Hmq). unfold globalmq_pop.
  destruct lq as [|q lq].
  - rewrite (gq_pop_none _ (inv_gq _ _ _ Hmq)), bind_Ret. eexists _, _. split; [reflexivity|].
    split; [|done]. by apply node_inv_store; [|by eauto|].
  - destruct (gq_pop_some _ _ _ (inv_gq _ _ _ Hmq)) as (S' & Hp & Hgq & Hs). rewrite Hp, bind_Ret.
    eexists _, _. split; [reflexivity|]. split; [|done].
    apply node_inv_store; [done| |by rewrite Hs].
    destruct (inv_take _ _ _ _ _ Hmq Hp) as (l' & _ & ?). by eauto.
Qed.

End delivery.

(** ** Claims *)

(** C16. [skynet_send] delivers: on a consistent node, a message for a live local handle, in whose
    queue fewer than 2^30 messages wait, joins the end of exactly that queue (as a copy, or as
    the caller's block under DONTCOPY) with its source, its session, and its type in the top
    byte of the size; a queue that was idle becomes the last of the global queue; the session
    is returned, and nothing else of the node has changed but the memory that the copy takes.
    For a handle without a live context the result is -1, what was to be sent is freed (the
    copy, or the caller's block), and nothing else has changed. *)
Theorem skynet_send_local X w M boxes hb context source destination copy t session data b sz owned queued
    (Hinv : node_inv w M boxes) (Hsched : mq_inv (n_store w) owned queued) (Hharbor : harbor_is w hb)
    (Hlocal : local_handle hb destination = true) (Hdest : destination <> 0)
    (Hsource : source <> 0) (Ht : 0 <= t < 256) (Hsz : 0 <= sz < 2 ^ 56) (Hdata : data_ok w data b sz)
    (Hroom : forall ms, boxes !! destination = Some ms -> Z.of_nat (length ms) + 1 < 2 ^ 30) :
  let send := skynet_send X context source destination (tagged copy t) session data sz w in
  let m := SkynetMessage source session (sent_data w copy data) (sz + t * 2 ^ 56) in
  match boxes !! destination with
  | Some ms =>
      exists w' l c S', send = Ret (session, w') /\
        node_inv w' M (<[destination := ms ++ [m]]> boxes) /\
        M !! destination = Some l /\ n_ctxs w !! l = Some c /\ pushed (n_store w) S' owned queued (ctx_queue c) ms m /\
        w' = with_store (with_heap w (sent_heap w copy data b sz) (n_brk w')) S'
  | None =>
      exists w', send = Ret (-1, w') /\ node_inv w' M boxes /\
        w' = with_heap w (if copy then n_heap w else delete data (n_heap w)) (n_brk w')
  end.
Proof.
  intros send m. destruct (send_unfold X w M boxes hb context source destination copy t session data b sz)
    as (w1 & N1 & Hw1 & Heq); [done..|].
  unfold send. rewrite Heq, (proj2 (Z.eqb_neq destination 0)), Hlocal by done. fold m.
  assert (Hst : n_store w1 = n_store w) by by rewrite Hw1. assert (Hctx : n_ctxs w1 = n_ctxs w) by by rewrite Hw1.
  assert (Hheap : n_heap w1 = sent_heap w copy data b sz) by by rewrite Hw1.
  destruct (boxes !! destination) as [ms|] eqn:Hb.
  - rewrite <- Hst in Hsched. destruct (push_live X w1 M boxes destination ms m owned queued)
      as (S' & -> & N' & _ & _ & l & c & HM & Hc & Hp); [done|done|by auto|done|].
    rewrite bind_Ret. cbn [Z.eqb]. rewrite Hctx in Hc. rewrite Hst in Hp. exists (with_store w1 S'), l, c, S'. split; [done|].
    split; [done|]. split; [done|]. split; [done|]. split; [done|]. by rewrite Hw1.
  - rewrite (push_dead X w1 M boxes) by done. rewrite bind_Ret. cbn [Z.eqb].
    destruct (free_ok w1 M boxes (sent_data w copy data)) as (w2 & -> & N2 & Hw2); [done| |].
    { rewrite Hheap. unfold sent_data, sent_heap. destruct (copy && negb (data =? 0)).
      - right. rewrite lookup_insert_eq. by eexists.
      - destruct Hdata as [|[-> _]]; [by left|right; by eexists]. }
    rewrite bind_Ret. eexists. split; [reflexivity|]. split; [done|]. rewrite Hw2, Hheap, Hw1. cbn [n_brk with_heap].
    assert (Hfreed : delete (sent_data w copy data) (sent_heap w copy data b sz) = if copy then n_heap w else delete data (n_heap w)); [|by rewrite Hfreed].
    unfold sent_data, sent_heap. destruct copy; cbn [andb]; [|done].
    destruct (Z.eqb_spec data 0) as [->|]; cbn [negb].
    + apply delete_id. destruct (n_heap w !! 0) eqn:E; [|done]. pose proof (ni_heap _ _ _ Hinv 0) as H0.
      rewrite E in H0. specialize (H0 ltac:(by eexists)). lia.
    + apply delete_insert_id. by apply (malloc_fresh w M boxes).
Qed.

(** A message sent to handle 0 is lost and its memory leaks: the call
    returns the session as if it had been sent, no mailbox changes, and the
    copy it made (or the caller's block, under DONTCOPY) stays allocated with
    no owner. *)
Theorem skynet_send_zero_leaks X w M boxes hb context source copy t session data b sz
    (Hinv : node_inv w M boxes) (Hharbor : harbor_is w hb)
    (Hsource : source <> 0) (Ht : 0 <= t < 256) (Hsz : 0 <= sz < 2 ^ 56) (Hdata : data_ok w data b sz) :
  exists w', skynet_send X context source 0 (tagged copy t) session data sz w = Ret (session, w') /\
    node_inv w' M boxes /\ n_heap w' = sent_heap w copy data b sz.
Proof.
  destruct (send_unfold X w M boxes hb context source 0 copy t session data b sz)
    as (w1 & N1 & Hw1 & Heq); [done..|].
  exists w1. rewrite Heq. split; [done|]. split; [done|]. by rewrite Hw1.
Qed.

(** *** A concrete node: one live context, 0x5000001, with an empty mailbox *)
Definition no_externals : externals :=
  Externals (fun _ w => Ret (0, w)) (fun _ _ => None) (fun _ w => Ret (0, w))
    (fun _ _ _ _ w => Ret (0, w)) (fun _ _ w => Ret w) (fun _ _ _ w => Ret w)
    (fun _ _ _ _ _ _ _ _ w => Ret (0, w)) (fun w => Ret (0, w)) (fun _ _ w => Ret (0, w))
    (fun _ _ _ _ _ _ w => Ret w) (fun _ _ _ w => Ret w) (fun _ w => Ret w).

Definition demo_ctx : skynet_context :=
  SkynetContext 0 0 0 None 2%positive 0 0 0 [] 0x5000001 0 1 0 true false false.

Definition demo_store : store :=
  Store {[2%positive := with_in_global (skynet_mq_create 0x5000001) 0]} None None.

Definition demo_node : node :=
  Node demo_store (with_slots (skynet_handle_init 5) 2 4 [None; Some 1%positive; None; None])
    {[1%positive := demo_ctx]} {[3 := Bytes [104; 105]]} 4%positive
    timer_create_timer ∅ (Modules 0 [] []) 1 true 0 false 0 None (Z.shiftl 5 24) 0.

Definition demo_live : gmap Z loc := {[0x5000001 := 1%positive]}.
Definition demo_boxes : gmap Z (list skynet_message) := {[0x5000001 := []]}.

Lemma demo_repr : mq_repr (with_in_global (skynet_mq_create 0x5000001) 0) [].
Proof. destruct (create_repr 0x5000001). by split. Qed.

Lemma demo_sched : mq_inv demo_store ∅ [].
Proof.
  split.
  - split; [done|done|constructor|done|]. intros q mq Hq _. cbn in Hq.
    apply lookup_singleton_Some in Hq as [_ <-]. done.
  - intros q mq Hq. rewrite strip_lookup in Hq. cbn -[skynet_mq_create] in Hq.
    destruct (decide (q = 2%positive)) as [->|];
      [rewrite lookup_singleton_eq in Hq|by rewrite lookup_singleton_ne in Hq].
    injection Hq as <-. exists []. apply queue_ok_with_next.
    split; [apply demo_repr|by left|by left| |by left]. split; [set_solver|intros [?|?]; done].
  - set_solver.
  - set_solver.
Qed.

Lemma demo_slots : slots_map (ctxh demo_node) (n_handles demo_node) demo_live.
Proof.
  unfold demo_live. split.
  - exists 2%nat. split; [done|lia].
  - done.
  - exists 5. done.
  - done.
  - intros h c [<- <-]%lookup_singleton_Some. done.
  - intros j c Hc. exists 0x5000001. unfold arr_lookup in Hc. destruct (Z.ltb_spec j 0); [done|].
    remember (Z.to_nat j) as k eqn:Hk. cbn in Hc.
    destruct k as [|[|[|[|k]]]]; cbn in Hc; try done. injection Hc as <-.
    split; [by rewrite lookup_singleton_eq|]. change (0x5000001 mod hs_slot_size (n_handles demo_node)) with 1. lia.
Qed.

Lemma demo_inv : node_inv demo_node demo_live demo_boxes.
Proof.
  pose proof demo_slots as Hs. unfold demo_live, demo_boxes in *. split.
  - done.
  - exists ∅, []. apply demo_sched.
  - intros h l [<- <-]%lookup_singleton_Some.
    exists demo_ctx, (with_in_global (skynet_mq_create 0x5000001) 0), []. split; [done|]. split; [done|].
    split; [done|done|done|done|apply demo_repr].
  - intros h Hh. destruct (decide (h = 0x5000001)) as [->|];
      [done|by rewrite lookup_singleton_ne].
  - intros h h' l l' c c' [<- <-]%lookup_singleton_Some [<- <-]%lookup_singleton_Some. done.
  - intros p [b Hb]. cbn in Hb. apply lookup_singleton_Some in Hb as [<- _]. done.
Qed.

Lemma skynet_send_local_witness :
  exists w' l c S', skynet_send no_externals None 7 0x5000001 (tagged true 10) 9 3 2 demo_node = Ret (9, w') /\
    node_inv w' demo_live (<[0x5000001 := [] ++ [SkynetMessage 7 9 4 (2 + 10 * 2 ^ 56)]]> demo_boxes) /\
    demo_live !! 0x5000001 = Some l /\ n_ctxs demo_node !! l = Some c /\
    pushed demo_store S' ∅ [] (ctx_queue c) [] (SkynetMessage 7 9 4 (2 + 10 * 2 ^ 56)) /\
    w' = with_store (with_heap demo_node (<[4 := Bytes [104; 105; 0]]> (n_heap demo_node)) (n_brk w')) S'.
Proof.
  exact (skynet_send_local no_externals demo_node demo_live demo_boxes 5 None 7 0x5000001 true 10 9 3 [104; 105] 2 ∅ []
    demo_inv demo_sched ltac:(done) ltac:(done) ltac:(done) ltac:(done) ltac:(lia) ltac:(lia)
    ltac:(right; done) ltac:(intros ? [= <-]; done)).
Defined.

Lemma skynet_send_zero_leaks_witness :
  exists w', skynet_send no_externals None 7 0 (tagged true 10) 9 3 2 demo_node = Ret (9, w') /\
    node_inv w' demo_live demo_boxes /\ n_heap w' = <[4 := Bytes [104; 105; 0]]> (n_heap demo_node).
Proof.
  exact (skynet_send_zero_leaks no_externals demo_node demo_live demo_boxes 5 None 7 true 10 9 3 [104; 105] 2
    demo_inv ltac:(done) ltac:(done) ltac:(lia) ltac:(lia) ltac:(right; done)).
Defined.

(** *** Sessions *)

(** [n] calls of [skynet_context_newsession]. *)
Fixpoint sessions (n : nat) (l : loc) (w : node) : outcome (list Z * node) :=
  match n with
  | O => Ret ([], w)
  | S n =>
      '(s, w) ← skynet_context_newsession l w;
      '(ss, w) ← sessions n l w;
      Ret (s :: ss, w)
  end.

Lemma newsession_next l w c :
  n_ctxs w !! l = Some c -> 0 <= ctx_session_id c < INT_MAX ->
  skynet_context_newsession l w =
    Ret (ctx_session_id c + 1, set_ctx l (ctx_with_session c (ctx_session_id c + 1)) w).
Proof.
  intros Hc Hs. unfold skynet_context_newsession, get_ctx. rewrite Hc. cbn [deref].
  rewrite bind_Ret, int_ok_Ret by (unfold INT_MAX, INT_MIN in *; lia). rewrite bind_Ret.
  by rewrite (proj2 (Z.leb_gt _ _)) by lia.
Qed.

Lemma sessions_run n l w c :
  n_ctxs w !! l = Some c -> 0 <= ctx_session_id c -> ctx_session_id c + Z.of_nat n <= INT_MAX ->
  exists w', sessions n l w = Ret (seqZ (ctx_session_id c + 1) (Z.of_nat n), w') /\
    exists c', n_ctxs w' !! l = Some c' /\ ctx_session_id c' = ctx_session_id c + Z.of_nat n.
Proof.
  revert w c. induction n as [|n IH]; intros w c Hc H0 Hn; cbn [sessions].
  - exists w. split; [done|]. exists c. split; [done|lia].
  - rewrite (newsession_next l w c) by (done || lia). rewrite bind_Ret.
    destruct (IH (set_ctx l (ctx_with_session c (ctx_session_id c + 1)) w)
      (ctx_with_session c (ctx_session_id c + 1))) as (w' & -> & c' & Hc' & Hs');
      [cbn; by rewrite lookup_insert_eq|cbn; lia|cbn; lia|].
    rewrite bind_Ret. exists w'. cbn [ctx_session_id ctx_with_session] in *. split.
    + rewrite (seqZ_cons _ (Z.of_nat (Datatypes.S n))) by lia.
      by replace (Z.pred (Z.of_nat (Datatypes.S n))) with (Z.of_nat n) by lia.
    + exists c'. split; [done|lia].
Qed.

(** Sessions are positive and distinct up to the last [int]: from a
    session counter [s >= 0], [n] calls return [s+1, ..., s+n] as long as these
    are representable; the call after [INT_MAX] overflows a signed integer,
    before the test that is meant to wrap the counter to 1. *)
Theorem newsession_sequence n l w c
    (Hc : n_ctxs w !! l = Some c) (H0 : 0 <= ctx_session_id c)
    (Hn : ctx_session_id c + Z.of_nat n <= INT_MAX) :
  exists w', sessions n l w = Ret (seqZ (ctx_session_id c + 1) (Z.of_nat n), w') /\
    (ctx_session_id c + Z.of_nat n = INT_MAX -> skynet_context_newsession l w' = Undefined).
Proof.
  destruct (sessions_run n l w c) as (w' & -> & c' & Hc' & Hs'); [done..|].
  exists w'. split; [done|]. intros Hmax. unfold skynet_context_newsession, get_ctx.
  rewrite Hc'. cbn [deref]. rewrite bind_Ret, Hs', Hmax. reflexivity.
Qed.

Lemma newsession_sequence_witness :
  exists w', sessions 3 1%positive demo_node = Ret ([1; 2; 3], w') /\
    (0 + Z.of_nat 3 = INT_MAX -> skynet_context_newsession 1%positive w' = Undefined).
Proof.
  exact (newsession_sequence 3 1%positive demo_node demo_ctx ltac:(done) ltac:(done) ltac:(done)).
Defined.

(** C30. A service that dies answers for its backlog: when a worker takes a
    queue whose context is gone (marked for release, no context registered under
    its handle), every message still in it with a source gets an error reply
    in the mailbox of its sender, in the order of the messages; senders that
    are gone too get nothing. The data of all these messages is freed, and so
    is the queue. *)
Theorem dead_service_replies X sm w M boxes hb o lq x q ms weight
    (Hinv : node_inv w M boxes) (Hharbor : harbor_is w hb)
    (Hsched : mq_inv (n_store w) o lq) (Hown : x ∈ o)
    (Hq : mqs (n_store w) !! x = Some q) (Hrel : mq_release q = 1) (Hrepr : mq_repr q ms)
    (Hdead : M !! mq_handle q = None) (Hhandle : mq_handle q <> 0)
    (Hlocal : Forall (fun m => local_handle hb (msg_source m) = true) ms)
    (Hdata : data_owned ms (n_heap w)) (Hroom : room boxes (length ms)) :
  exists next w', skynet_context_message_dispatch X sm (Some x) weight w = Ret (next, sm, w') /\
    node_inv w' M (bounce (mq_handle q) ms boxes) /\
    n_heap w' = frees ms (n_heap w) /\ mqs (n_store w') !! x = None.
Proof.
  unfold skynet_context_message_dispatch. rewrite bind_Ret. cbn iota. rewrite Hq. cbn [deref].
  rewrite bind_Ret. cbn zeta. unfold skynet_mq_handle at 1.
  rewrite (grab_dead X w M boxes) by done. rewrite bind_Ret. cbn iota.
  destruct (release_queue_errors X w M boxes hb o lq (mq_handle q) x (with_next q None) ms)
    as (w1 & Heq & N1 & Hheap & Hx); [done..| |done|by apply repr_with_next|done|done|].
  { by rewrite strip_lookup, Hq. }
  unfold skynet_mq_handle. rewrite Heq, bind_Ret.
  destruct (globalmq_pop_ok w1 M (bounce (mq_handle q) ms boxes) N1) as (next & w2 & -> & N2 & Hheap2 & Hs2).
  rewrite bind_Ret. exists next, w2. split; [done|]. split; [done|]. split; [congruence|].
  apply (f_equal (fun m => m !! x)) in Hs2. rewrite !strip_lookup, Hx in Hs2. by destruct (mqs (n_store w2) !! x).
Qed.

(** Two messages for a dead service: from the live service and from nobody. *)
Definition dead_queue : message_queue :=
  match (q ← mq_append (skynet_mq_create 0x5000002) (SkynetMessage 0x5000001 8 3 2);
         mq_append q (SkynetMessage 0 9 0 0)) with
  | Ret q => with_release q 1
  | _ => skynet_mq_create 0
  end.
Definition dead_msgs : list skynet_message := [SkynetMessage 0x5000001 8 3 2; SkynetMessage 0 9 0 0].
Definition dead_node : node := with_store demo_node (set_mq demo_store 5%positive dead_queue).

Lemma dead_repr : mq_repr dead_queue dead_msgs.
Proof.
  destruct (append_spec _ _ (SkynetMessage 0x5000001 8 3 2) (create_repr 0x5000002)) as (q1 & H1 & R1 & _); [done|].
  destruct (append_spec _ _ (SkynetMessage 0 9 0 0) R1) as (q2 & H2 & R2 & _); [done|].
  vm_compute in H1. injection H1 as <-. vm_compute in H2. injection H2 as <-.
  destruct R2. split; done.
Qed.

Lemma dead_sched : mq_inv (n_store dead_node) {[5%positive]} [].
Proof.
  destruct (mq_alloc demo_store 5%positive 0x5000002) as [S'| | |] eqn:E; try done.
  pose proof (inv_create _ _ _ _ _ _ demo_sched E) as Hi. vm_compute in E. injection E as <-.
  rewrite (right_id_L ∅ (∪)) in Hi.
  pose proof (inv_set_same _ _ _ 5%positive _ dead_queue dead_msgs Hi eq_refl eq_refl) as H.
  apply H. split; [apply dead_repr|by right|by right| |right; set_solver]. split; [by right|set_solver].
Qed.

Lemma dead_node_inv : node_inv dead_node demo_live demo_boxes.
Proof.
  apply node_inv_store; [apply demo_inv|eexists _, _; apply dead_sched|].
  intros x q Hx Hr. rewrite strip_set. rewrite lookup_insert_ne; [done|]. intros <-.
  vm_compute in Hx. done.
Qed.

Lemma dead_service_replies_witness :
  exists next w', skynet_context_message_dispatch no_externals skynet_monitor_new (Some 5%positive) 0 dead_node =
      Ret (next, skynet_monitor_new, w') /\
    node_inv w' demo_live {[0x5000001 := [error_reply 0x5000002]]} /\
    n_heap w' = ∅ /\ mqs (n_store w') !! 5%positive = None.
Proof.
  exact (dead_service_replies no_externals skynet_monitor_new dead_node demo_live demo_boxes 5 {[5%positive]} []
    5%positive dead_queue dead_msgs 0 dead_node_inv ltac:(done) dead_sched ltac:(set_solver) ltac:(done)
    ltac:(done) dead_repr ltac:(done) ltac:(done) ltac:(repeat constructor)
    ltac:(split; [right; by eexists|split; [by left|done]])
    ltac:(intros h l Hl; unfold demo_boxes in Hl; apply lookup_singleton_Some in Hl as [<- <-]; done)).
Defined.
