(* ===== verification/Command.v ===== *)
(** The text commands of [skynet-src/skynet_server.c]: name lookup, the
    [cmd_*] functions and [skynet_command]. *)
From S2P Require Import Prelude Mq Handle Timer Cstr Node Mailbox.

(** [id_to_hex]: a colon and eight upper-case digits. *)
Definition hex_upper (d : Z) : Z := if d <? 10 then 48 + d else 55 + d.
Definition id_to_hex (id : Z) : bytes :=
  58 :: ((fun i => hex_upper (Z.land (Z.shiftr id ((7 - i) * 4)) 0xf)) <$> seqZ 0 8).

(** [sprintf("%lf")] of a count of microseconds divided by [1000000.0]. *)
Definition fmt_lf (us : Z) : bytes :=
  let d := fmt_u (us mod 1000000) in
  fmt_u (us / 1000000) ++ [46] ++ replicate (6 - length d) 48 ++ d.

Section commands.
Context (X : externals).
#[local] Hint Extern 0 (HasHandles node) => exact (node_HasHandles X) : typeclass_instances.

Definition skynet_queryname (context : loc) (name : bytes) (w : node) : outcome (Z * node) :=
  if char_at name 0 =? 58 then Ret (u32 (strtoul (drop 1 name) 16).1, w)
  else if char_at name 0 =? 46 then
    h ← skynet_handle_findname (n_handles w) (drop 1 name); Ret (h, w)
  else
    w ← skynet_error X (Some context) (str "Don't support query global name " ++ name) w;
    Ret (0, w).

Definition handle_exit (context : loc) (handle : Z) (w : node) : outcome node :=
  '(handle, w) ←
    (if handle =? 0 then
       c ← get_ctx context w;
       w ← skynet_error X (Some context) (str "KILL self") w;
       Ret (ctx_handle c, w)
     else
       w ← skynet_error X (Some context) (str "KILL :" ++ fmt_x handle) w;
       Ret (handle, w));
  w ← (if n_monitor_exit w =? 0 then Ret w
       else '(_, w) ← skynet_send X (Some context) handle (n_monitor_exit w) PTYPE_CLIENT 0 0 0 w; Ret w);
  '(_, w) ← skynet_handle_retire handle w;
  Ret w.

(** [context->result], and its return. *)
Definition put_result (context : loc) (r : bytes) (w : node) : outcome (option bytes * node) :=
  c ← get_ctx context w;
  Ret (Some r, set_ctx context (ctx_with_result c r) w).

Definition cmd_timeout (context : loc) (param : option bytes) (w : node) : outcome (option bytes * node) :=
  param ← deref param;
  let ti := s32 (strtol param 10).1 in
  '(session, w) ← skynet_context_newsession context w;
  c ← get_ctx context w;
  '(_, w) ← skynet_timeout X (ctx_handle c) ti session w;
  put_result context (fmt_d session) w.

Definition name_handle (handle : Z) (name : bytes) (w : node) : outcome (option bytes * node) :=
  '(r, s) ← skynet_handle_namehandle (n_handles w) handle name;
  Ret (r, with_handles w s).

Definition cmd_reg (context : loc) (param : option bytes) (w : node) : outcome (option bytes * node) :=
  c ← get_ctx context w;
  let p := default [] param in
  if char_at p 0 =? 0 then put_result context (58 :: fmt_x (ctx_handle c)) w
  else if char_at p 0 =? 46 then name_handle (ctx_handle c) (drop 1 p) w
  else
    w ← skynet_error X (Some context) (str "Can't register global name " ++ p ++ str " in C") w;
    Ret (None, w).

Definition cmd_query (context : loc) (param : option bytes) (w : node) : outcome (option bytes * node) :=
  p ← deref param;
  if char_at p 0 =? 46 then
    h ← skynet_handle_findname (n_handles w) (drop 1 p);
    if h =? 0 then Ret (None, w) else put_result context (58 :: fmt_x h) w
  else Ret (None, w).

Definition cmd_name (context : loc) (param : option bytes) (w : node) : outcome (option bytes * node) :=
  p ← deref param;
  let '(name, handle) := sscanf_ss p in
  handle ← deref handle;
  if negb (char_at handle 0 =? 58) then Ret (None, w)
  else
    let handle_id := u32 (strtoul (drop 1 handle) 16).1 in
    if handle_id =? 0 then Ret (None, w)
    else
      name ← deref name;
      if char_at name 0 =? 46 then name_handle handle_id (drop 1 name) w
      else
        w ← skynet_error X (Some context) (str "Can't set global name " ++ name ++ str " in C") w;
        Ret (None, w).

Definition cmd_exit (context : loc) (param : option bytes) (w : node) : outcome (option bytes * node) :=
  w ← handle_exit context 0 w;
  Ret (None, w).

Definition tohandle (context : loc) (param : bytes) (w : node) : outcome (Z * node) :=
  if char_at param 0 =? 58 then Ret (u32 (strtoul (drop 1 param) 16).1, w)
  else if char_at param 0 =? 46 then
    h ← skynet_handle_findname (n_handles w) (drop 1 param); Ret (h, w)
  else
    w ← skynet_error X (Some context) (str "Can't convert " ++ param ++ str " to handle") w;
    Ret (0, w).

Definition cmd_kill (context : loc) (param : option bytes) (w : node) : outcome (option bytes * node) :=
  p ← deref param;
  '(handle, w) ← tohandle context p w;
  w ← (if handle =? 0 then Ret w else handle_exit context handle w);
  Ret (None, w).

Definition cmd_launch (context : loc) (param : option bytes) (w : node) : outcome (option bytes * node) :=
  p ← deref param;
  let '(md, args) := strsep (str " " ++ [9; 13; 10]) p in
  let args := (fun a => (strsep [13; 10] a).1) <$> args in
  '(inst, w) ← skynet_context_new X md args w;
  match inst with
  | None => Ret (None, w)
  | Some l => c ← get_ctx l w; put_result context (id_to_hex (ctx_handle c)) w
  end.

Definition cmd_getenv (context : loc) (param : option bytes) (w : node) : outcome (option bytes * node) :=
  p ← deref param;
  Ret (skynet_getenv p w, w).

Definition cmd_setenv (context : loc) (param : option bytes) (w : node) : outcome (option bytes * node) :=
  p ← deref param;
  match strsep [32] p with
  | (_, None) => Ret (None, w)
  | (key, Some value) => w ← skynet_setenv key value w; Ret (None, w)
  end.

Definition cmd_starttime (context : loc) (param : option bytes) (w : node) : outcome (option bytes * node) :=
  put_result context (fmt_u (skynet_starttime (n_timer w))) w.

(** A round retires a context or ends the loop, so the table's size bounds
    the rounds. *)
Definition cmd_abort (context : loc) (param : option bytes) (w : node) : outcome (option bytes * node) :=
  w ← skynet_handle_retireall (2 + Z.to_nat (hs_slot_size (n_handles w))) w;
  Ret (None, w).

Definition cmd_monitor (context : loc) (param : option bytes) (w : node) : outcome (option bytes * node) :=
  let p := default [] param in
  if char_at p 0 =? 0 then
    if n_monitor_exit w =? 0 then Ret (None, w)
    else put_result context (58 :: fmt_x (n_monitor_exit w)) w
  else
    '(handle, w) ← tohandle context p w;
    Ret (None, with_monitor_exit w handle).

Definition cmd_stat (context : loc) (param : option bytes) (w : node) : outcome (option bytes * node) :=
  p ← deref param;
  c ← get_ctx context w;
  if strcmp p (str "mqlen") =? 0 then
    q ← deref (mqs (n_store w) !! ctx_queue c);
    put_result context (fmt_d (skynet_mq_length q)) w
  else if strcmp p (str "endless") =? 0 then
    if ctx_endless c then
      put_result context (str "1") (set_ctx context (ctx_with_endless c false) w)
    else put_result context (str "0") w
  else if strcmp p (str "cpu") =? 0 then put_result context (fmt_lf (ctx_cpu_cost c)) w
  else if strcmp p (str "time") =? 0 then
    if ctx_profile c then
      '(t, w) ← x_thread_time X w;
      put_result context (fmt_lf (u64 (t - ctx_cpu_start c))) w
    else put_result context (str "0") w
  else if strcmp p (str "message") =? 0 then put_result context (fmt_d (ctx_message_count c)) w
  else put_result context [] w.

(** The context that [LOGON], [LOGOFF] and [SIGNAL] name, grabbed. *)
Definition grab_param (context : loc) (param : bytes) (w : node) : outcome (Z * option loc * node) :=
  '(handle, w) ← tohandle context param w;
  if handle =? 0 then Ret (handle, None, w)
  else '(ctx, w) ← skynet_handle_grab handle w; Ret (handle, ctx, w).

Definition cmd_logon (context : loc) (param : option bytes) (w : node) : outcome (option bytes * node) :=
  p ← deref param;
  '(handle, ctx, w) ← grab_param context p w;
  match ctx with
  | None => Ret (None, w)
  | Some l =>
      c ← get_ctx l w;
      w ← (if ctx_logfile c =? 0 then
             '(f, w) ← x_log_open X context handle w;
             if f =? 0 then Ret w
             else
               c ← get_ctx l w;
               if ctx_logfile c =? 0 then Ret (set_ctx l (ctx_with_logfile c f) w)
               else x_fclose X f w
           else Ret w);
      '(_, w) ← context_release X l w;
      Ret (None, w)
  end.

Definition cmd_logoff (context : loc) (param : option bytes) (w : node) : outcome (option bytes * node) :=
  p ← deref param;
  '(handle, ctx, w) ← grab_param context p w;
  match ctx with
  | None => Ret (None, w)
  | Some l =>
      c ← get_ctx l w;
      let f := ctx_logfile c in
      w ← (if f =? 0 then Ret w
           else x_log_close X context f handle (set_ctx l (ctx_with_logfile c 0) w));
      '(_, w) ← context_release X l w;
      Ret (None, w)
  end.

Definition cmd_signal (context : loc) (param : option bytes) (w : node) : outcome (option bytes * node) :=
  p ← deref param;
  '(_, ctx, w) ← grab_param context p w;
  match ctx with
  | None => Ret (None, w)
  | Some l =>
      let sig := match strchr p 32 with Some a => s32 (strtol a 0).1 | None => 0 end in
      c ← get_ctx l w;
      w ← skynet_module_instance_signal X (ctx_mod c) (ctx_instance c) sig w;
      '(_, w) ← context_release X l w;
      Ret (None, w)
  end.

Definition cmd_funcs : list (bytes * (loc -> option bytes -> node -> outcome (option bytes * node))) :=
  [ (str "TIMEOUT", cmd_timeout); (str "REG", cmd_reg); (str "QUERY", cmd_query);
    (str "NAME", cmd_name); (str "EXIT", cmd_exit); (str "KILL", cmd_kill);
    (str "LAUNCH", cmd_launch); (str "GETENV", cmd_getenv); (str "SETENV", cmd_setenv);
    (str "STARTTIME", cmd_starttime); (str "ABORT", cmd_abort); (str "MONITOR", cmd_monitor);
    (str "STAT", cmd_stat); (str "LOGON", cmd_logon); (str "LOGOFF", cmd_logoff);
    (str "SIGNAL", cmd_signal) ].

Fixpoint find_command (t : list (bytes * (loc -> option bytes -> node -> outcome (option bytes * node))))
    (cmd : bytes) : option (loc -> option bytes -> node -> outcome (option bytes * node)) :=
  match t with
  | [] => None
  | (name, f) :: t => if strcmp cmd name =? 0 then Some f else find_command t cmd
  end.

Definition skynet_command (context : loc) (cmd : bytes) (param : option bytes) (w : node)
    : outcome (option bytes * node) :=
  match find_command cmd_funcs cmd with
  | Some f => f context param w
  | None => Ret (None, w)
  end.
End commands.

(** ** Addresses in text *)

Lemma hex_upper_digit : writes_hex hex_upper.
Proof.
  intros d Hd. assert (d ∈ seqZ 0 16) as H by (apply elem_of_seqZ; lia). revert d H Hd.
  apply (Forall_forall (fun d => 0 <= d < 16 -> digit_in 16 (hex_upper d) = Some d)).
  repeat constructor.
Qed.

Lemma nibble h k : 0 <= k -> Z.land (Z.shiftr h k) 0xf = h / 2 ^ k mod 16.
Proof.
  intros. change 0xf with (Z.ones 4). by rewrite Z.land_ones, Z.shiftr_div_pow2 by lia.
Qed.

Lemma strtoul_id_to_hex h : 0 <= h < 2 ^ 32 -> strtoul (drop 1 (id_to_hex h)) 16 = (h, []).
Proof.
  intros Hh. unfold id_to_hex. cbn [drop].
  set (ds := (fun i => Z.land (Z.shiftr h ((7 - i) * 4)) 0xf) <$> seqZ 0 8).
  assert (E : (fun i => hex_upper (Z.land (Z.shiftr h ((7 - i) * 4)) 0xf)) <$> seqZ 0 8 = hex_upper <$> ds)
    by (subst ds; by rewrite <- list_fmap_compose).
  rewrite drop_0, E. clear E.
  assert (Hds : ds = [h / 2 ^ 28 mod 16; h / 2 ^ 24 mod 16; h / 2 ^ 20 mod 16; h / 2 ^ 16 mod 16;
    h / 2 ^ 12 mod 16; h / 2 ^ 8 mod 16; h / 2 ^ 4 mod 16; h / 2 ^ 0 mod 16]).
  { subst ds. rewrite <- !nibble by lia. reflexivity. }
  assert (Hr : Forall (fun d => 0 <= d < 16) ds).
  { rewrite Hds. repeat constructor; apply Z.mod_pos_bound; lia. }
  assert (Hv : foldl (fun a d => a * 16 + d) 0 ds = h).
  { rewrite Hds. clear - Hh. cbn [foldl]. Z.to_euclidean_division_equations. lia. }
  rewrite (strtoul_digits hex_upper hex_upper_digit); rewrite ?Hv; [done|done|by rewrite Hds|lia].
Qed.

(** The textual address of a service names it: for every 32-bit handle,
    looking up the form that LAUNCH returns (a colon and eight digits) or the
    form that REG and QUERY return (a colon and the digits without leading
    zeros) gives the handle back, with the node unchanged, both for
    [skynet_queryname] and for the commands' [tohandle]. *)
Theorem address_roundtrip X context h w (Hh : 0 <= h < 2 ^ 32) :
  skynet_queryname X context (id_to_hex h) w = Ret (h, w) /\
  skynet_queryname X context (58 :: fmt_x h) w = Ret (h, w) /\
  tohandle X context (id_to_hex h) w = Ret (h, w) /\
  tohandle X context (58 :: fmt_x h) w = Ret (h, w).
Proof.
  assert (H1 : u32 (strtoul (drop 1 (id_to_hex h)) 16).1 = h).
  { rewrite strtoul_id_to_hex by done. by apply u32_small. }
  assert (H2 : u32 (strtoul (drop 1 (58 :: fmt_x h)) 16).1 = h).
  { cbn [drop]. rewrite drop_0, strtoul_fmt_x by lia. by apply u32_small. }
  unfold skynet_queryname, tohandle. rewrite H1, H2. done.
Qed.

Lemma address_roundtrip_witness :
  skynet_queryname no_externals 1%positive (str ":0500000A") demo_node = Ret (0x500000a, demo_node) /\
  skynet_queryname no_externals 1%positive (str ":500000a") demo_node = Ret (0x500000a, demo_node) /\
  tohandle no_externals 1%positive (str ":0500000A") demo_node = Ret (0x500000a, demo_node) /\
  tohandle no_externals 1%positive (str ":500000a") demo_node = Ret (0x500000a, demo_node).
Proof. exact (address_roundtrip no_externals 1%positive 0x500000a demo_node ltac:(lia)). Defined.
