(* ===== verification/Skiplist.v ===== *)
(** The ranked set of [lualib-src/lua-zset]: the skip list of [skiplist.c] and
    its Lua operations in [lua-skiplist.c]. *)
From Stdlib Require Import SpecFloat.
From S2P Require Import Prelude.

Abbreviation loc := positive.

(** ** Data *)

Definition SKIPLIST_MAXLEVEL : Z := 32.

(** Scores are IEEE doubles. *)
Abbreviation double := spec_float.

Record skiplistLevel := SkiplistLevel { lv_forward : option loc; lv_span : Z }.

(** [sn_obj] is the string of [obj], [None] for a NULL pointer. *)
Record skiplistNode := SkiplistNode {
  sn_obj : option bytes; sn_score : double; sn_backward : option loc;
  sn_level : list skiplistLevel }.

Record skiplist := Skiplist {
  sl_header : loc; sl_tail : option loc; sl_length : Z; sl_level : Z }.

Abbreviation heap := (gmap loc skiplistNode).

Definition with_backward n b := SkiplistNode (sn_obj n) (sn_score n) b (sn_level n).
Definition with_levels n l := SkiplistNode (sn_obj n) (sn_score n) (sn_backward n) l.

(** What [malloc] leaves in the fields that [slCreateNode] does not write. *)
Record junk := Junk { junk_level : skiplistLevel; junk_backward : option loc }.

Definition slCreateNode (j : junk) (level : Z) (score : double) (obj : option bytes) : skiplistNode :=
  SkiplistNode obj score (junk_backward j) (replicate (Z.to_nat level) (junk_level j)).

(** [malloc] at the free address [l]. *)
Definition alloc (h : heap) (l : loc) (n : skiplistNode) : outcome heap :=
  match h !! l with Some _ => Undefined | None => Ret (<[l := n]> h) end.

(** [x->level[i].field = v]. *)
Definition get_level (h : heap) (x : loc) (i : Z) : outcome skiplistLevel :=
  n ← deref (h !! x); arr_get (sn_level n) i.
Definition set_level (h : heap) (x : loc) (i : Z) (lv : skiplistLevel) : outcome heap :=
  n ← deref (h !! x);
  l ← arr_set (sn_level n) i lv;
  Ret (<[x := with_levels n l]> h).
Definition set_forward (h : heap) (x : loc) (i : Z) (f : option loc) : outcome heap :=
  lv ← get_level h x i; set_level h x i (SkiplistLevel f (lv_span lv)).
Definition set_span (h : heap) (x : loc) (i : Z) (s : Z) : outcome heap :=
  lv ← get_level h x i; set_level h x i (SkiplistLevel (lv_forward lv) (u32 s)).
Definition set_backward (h : heap) (x : loc) (b : option loc) : outcome heap :=
  n ← deref (h !! x); Ret (<[x := with_backward n b]> h).

(** [for (j=0; j < SKIPLIST_MAXLEVEL; j++)] of [slCreate] writes the whole
    array of levels. *)
Definition slCreate (h : heap) (l : loc) : outcome (heap * skiplist) :=
  let header := SkiplistNode None (S754_zero false) None
    (replicate (Z.to_nat SKIPLIST_MAXLEVEL) (SkiplistLevel None 0)) in
  h ← alloc h l header;
  Ret (h, Skiplist l None 0 1).

Definition slFreeNode (h : heap) (x : loc) : outcome heap :=
  n ← deref (h !! x);
  _ ← deref (sn_obj n);
  Ret (delete x h).

(** [while(node)] of [slFree]. *)
Fixpoint free_loop (fuel : nat) (h : heap) (node : option loc) : outcome heap :=
  match node with
  | None => Ret h
  | Some x =>
      match fuel with
      | O => Undefined
      | S fuel =>
          lv ← get_level h x 0;
          h ← slFreeNode h x;
          free_loop fuel h (lv_forward lv)
      end
  end.

Definition slFree (fuel : nat) (h : heap) (sl : skiplist) : outcome heap :=
  lv ← get_level h (sl_header sl) 0;
  free_loop fuel (delete (sl_header sl) h) (lv_forward lv).

(** [slRandomLevel] on the values [random()] returns: [SKIPLIST_P * 0xffff] is
    16383.75. The level and the values not used. *)
Fixpoint random_level (rs : list Z) (level : Z) : outcome (Z * list Z) :=
  match rs with
  | [] => Undefined
  | r :: rs => if Z.land r 0xffff <=? 16383 then random_level rs (level + 1) else Ret (level, rs)
  end.
Definition slRandomLevel (rs : list Z) : outcome (Z * list Z) :=
  '(level, rs) ← random_level rs 1;
  Ret (if level <? SKIPLIST_MAXLEVEL then level else SKIPLIST_MAXLEVEL, rs).

(** [memcmp]: the sign of the comparison of the first [n] bytes. *)
Definition memcmp (a b : bytes) (n : nat) : Z := strcmp (take n a) (take n b).

(** The difference of two [size_t] is converted to [int]. *)
Definition compareslObj (a b : bytes) : Z :=
  let cmp := memcmp a b (if (length a <=? length b)%nat then length a else length b) in
  if cmp =? 0 then s32 (Z.of_nat (length a) - Z.of_nat (length b)) else cmp.

Definition equalslObj (a b : bytes) : bool := compareslObj a b =? 0.

(** ** The walk along a level *)

(** [while (x->level[i].forward && cond(x->level[i].forward, acc + span))],
    adding up the spans that are crossed; [wrap] is the width of the counter. *)
Section walk.
Variable cond : skiplistNode -> Z -> outcome bool.
Variable wrap : Z -> Z.

Fixpoint walk (fuel : nat) (h : heap) (i : Z) (x : loc) (acc : Z) : outcome (loc * Z) :=
  match fuel with
  | O => Undefined
  | S fuel =>
      lv ← get_level h x i;
      match lv_forward lv with
      | None => Ret (x, acc)
      | Some y =>
          n ← deref (h !! y);
          let acc' := wrap (acc + lv_span lv) in
          b ← cond n acc';
          if b : bool then walk fuel h i y acc' else Ret (x, acc)
      end
  end.

(** [for (i = level-1; i >= 0; i--)]: the node and the counter where each
    level ends, lowest level first. *)
Fixpoint descend (fuel : nat) (h : heap) (k : nat) (x : loc) (acc : Z) : outcome (list (loc * Z)) :=
  match k with
  | O => Ret []
  | S k =>
      '(x, acc) ← walk fuel h (Z.of_nat k) x acc;
      rest ← descend fuel h k x acc;
      Ret (rest ++ [(x, acc)])
  end.
End walk.

(** The node comes before [(score, obj)]. *)
Definition before (score : double) (obj : bytes) (n : skiplistNode) : outcome bool :=
  if SFltb (sn_score n) score then Ret true
  else if SFeqb (sn_score n) score then
    o ← deref (sn_obj n); Ret (compareslObj o obj <? 0)
  else Ret false.

(** The list is walked at most to its end. *)
Definition walk_fuel (sl : skiplist) : nat := S (Z.to_nat (sl_length sl)).

(** [update] and [rank]. *)
Definition search (h : heap) (sl : skiplist) (score : double) (obj : bytes) : outcome (list (loc * Z)) :=
  descend (fun n _ => before score obj n) u32 (walk_fuel sl) h (Z.to_nat (sl_level sl)) (sl_header sl) 0.

(** ** Insertion *)

(** [for (i = sl->level; i < level; i++)]: [n] levels to go. *)
Fixpoint raise_levels (n : nat) (h : heap) (header : loc) (i length : Z) : outcome heap :=
  match n with
  | O => Ret h
  | S n => h ← set_span h header i length; raise_levels n h header (i + 1) length
  end.

(** [for (i = 0; i < level; i++)], [k] levels to go: link [x] in. *)
Fixpoint link_levels (k : nat) (i : Z) (h : heap) (x : loc) (update : list (loc * Z)) (rank0 : Z)
    : outcome heap :=
  match k with
  | O => Ret h
  | S k =>
      '(u, r) ← arr_get update i;
      lu ← get_level h u i;
      h ← set_forward h x i (lv_forward lu);
      h ← set_forward h u i (Some x);
      h ← set_span h x i (lv_span lu - (rank0 - r));
      h ← set_span h u i (rank0 - r + 1);
      link_levels k (i + 1) h x update rank0
  end.

(** [for (i = level; i < sl->level; i++)]. *)
Fixpoint bump_levels (k : nat) (i : Z) (h : heap) (update : list (loc * Z)) : outcome heap :=
  match k with
  | O => Ret h
  | S k =>
      '(u, _) ← arr_get update i;
      lu ← get_level h u i;
      h ← set_span h u i (lv_span lu + 1);
      bump_levels k (i + 1) h update
  end.

(** [level] is what [slRandomLevel] returned and [x] what [malloc] did. *)
Definition slInsert (j : junk) (level : Z) (x : loc) (h : heap) (sl : skiplist) (score : double) (obj : bytes)
    : outcome (heap * skiplist) :=
  update ← search h sl score obj;
  '(h, update, sl) ←
    (if sl_level sl <? level then
       let n := Z.to_nat (level - sl_level sl) in
       h ← raise_levels n h (sl_header sl) (sl_level sl) (sl_length sl);
       Ret (h, update ++ replicate n (sl_header sl, 0),
            Skiplist (sl_header sl) (sl_tail sl) (sl_length sl) level)
     else Ret (h, update, sl));
  h ← alloc h x (slCreateNode j level score (Some obj));
  '(u0, rank0) ← arr_get update 0;
  h ← link_levels (Z.to_nat level) 0 h x update rank0;
  h ← bump_levels (Z.to_nat (sl_level sl - level)) level h update;
  h ← set_backward h x (if decide (u0 = sl_header sl) then None else Some u0);
  lv ← get_level h x 0;
  match lv_forward lv with
  | Some f =>
      h ← set_backward h f (Some x);
      Ret (h, Skiplist (sl_header sl) (sl_tail sl) (sl_length sl + 1) (sl_level sl))
  | None => Ret (h, Skiplist (sl_header sl) (Some x) (sl_length sl + 1) (sl_level sl))
  end.

(** ** Deletion *)

(** [for (i = 0; i < sl->level; i++)] of [slDeleteNode]. *)
Fixpoint unlink_levels (k : nat) (i : Z) (h : heap) (x : loc) (update : list (loc * Z)) : outcome heap :=
  match k with
  | O => Ret h
  | S k =>
      '(u, _) ← arr_get update i;
      lu ← get_level h u i;
      h ← (if decide (lv_forward lu = Some x) then
             lx ← get_level h x i;
             h ← set_span h u i (lv_span lu + (lv_span lx - 1));
             set_forward h u i (lv_forward lx)
           else set_span h u i (lv_span lu - 1));
      unlink_levels k (i + 1) h x update
  end.

(** [while(sl->level > 1 && ...) sl->level--]. *)
Fixpoint lower_level (fuel : nat) (h : heap) (header : loc) (level : Z) : outcome Z :=
  if 1 <? level then
    match fuel with
    | O => Undefined
    | S fuel =>
        lv ← get_level h header (level - 1);
        if decide (lv_forward lv = None) then lower_level fuel h header (level - 1) else Ret level
    end
  else Ret level.

Definition slDeleteNode (h : heap) (sl : skiplist) (x : loc) (update : list (loc * Z))
    : outcome (heap * skiplist) :=
  h ← unlink_levels (Z.to_nat (sl_level sl)) 0 h x update;
  n ← deref (h !! x);
  lx ← get_level h x 0;
  '(h, tail) ← (match lv_forward lx with
                | Some f => h ← set_backward h f (sn_backward n); Ret (h, sl_tail sl)
                | None => Ret (h, sn_backward n)
                end);
  level ← lower_level (Z.to_nat (sl_level sl)) h (sl_header sl) (sl_level sl);
  Ret (h, Skiplist (sl_header sl) tail (sl_length sl - 1) level).

(** [update[0]->level[0].forward]. *)
Definition after_update (h : heap) (update : list (loc * Z)) : outcome (option loc) :=
  '(u0, _) ← arr_get update 0;
  lv ← get_level h u0 0;
  Ret (lv_forward lv).

Definition slDelete (h : heap) (sl : skiplist) (score : double) (obj : bytes)
    : outcome (bool * heap * skiplist) :=
  update ← search h sl score obj;
  x ← after_update h update;
  match x with
  | None => Ret (false, h, sl)
  | Some x =>
      n ← deref (h !! x);
      same ← (if SFeqb score (sn_score n) then o ← deref (sn_obj n); Ret (equalslObj o obj) else Ret false);
      if same : bool then
        '(h, sl) ← slDeleteNode h sl x update;
        h ← slFreeNode h x;
        Ret (true, h, sl)
      else Ret (false, h, sl)
  end.

(** [while (x && traversed <= end)]; [cb] is called with each object removed,
    which are collected in order. *)
Fixpoint delete_rank_loop (fuel : nat) (h : heap) (sl : skiplist) (x : option loc) (traversed end_ : Z)
    (update : list (loc * Z)) : outcome (list bytes * heap * skiplist) :=
  match x with
  | None => Ret ([], h, sl)
  | Some x =>
      if end_ <? traversed then Ret ([], h, sl)
      else
        match fuel with
        | O => Undefined
        | S fuel =>
            lv ← get_level h x 0;
            '(h, sl) ← slDeleteNode h sl x update;
            n ← deref (h !! x);
            o ← deref (sn_obj n);
            h ← slFreeNode h x;
            '(os, h, sl) ← delete_rank_loop fuel h sl (lv_forward lv) (u64 (traversed + 1)) end_ update;
            Ret (o :: os, h, sl)
        end
  end.

Definition slDeleteByRank (h : heap) (sl : skiplist) (start end_ : Z) : outcome (list bytes * heap * skiplist) :=
  update ← descend (fun _ acc => Ret (acc <? start)) u64 (walk_fuel sl) h (Z.to_nat (sl_level sl)) (sl_header sl) 0;
  x ← after_update h update;
  '(_, traversed) ← arr_get update 0;
  delete_rank_loop (Z.to_nat (sl_length sl)) h sl x (u64 (traversed + 1)) end_ update.

(** ** Queries *)

(** The node comes before [(score, obj)] or is it. *)
Definition upto (score : double) (obj : bytes) (n : skiplistNode) : outcome bool :=
  if SFltb (sn_score n) score then Ret true
  else if SFeqb (sn_score n) score then
    o ← deref (sn_obj n); Ret (compareslObj o obj <=? 0)
  else Ret false.

(** The levels of [slGetRank], from [k - 1] down. *)
Fixpoint rank_loop (fuel : nat) (h : heap) (k : nat) (x : loc) (rank : Z) (score : double) (obj : bytes)
    : outcome Z :=
  match k with
  | O => Ret 0
  | S k =>
      '(x, rank) ← walk (fun n _ => upto score obj n) u64 fuel h (Z.of_nat k) x rank;
      n ← deref (h !! x);
      match sn_obj n with
      | Some o => if equalslObj o obj then Ret rank else rank_loop fuel h k x rank score obj
      | None => rank_loop fuel h k x rank score obj
      end
  end.

Definition slGetRank (h : heap) (sl : skiplist) (score : double) (obj : bytes) : outcome Z :=
  rank_loop (walk_fuel sl) h (Z.to_nat (sl_level sl)) (sl_header sl) 0 score obj.

Fixpoint node_by_rank_loop (fuel : nat) (h : heap) (k : nat) (x : loc) (traversed rank : Z)
    : outcome (option loc) :=
  match k with
  | O => Ret None
  | S k =>
      '(x, traversed) ← walk (fun _ acc => Ret (acc <=? rank)) u64 fuel h (Z.of_nat k) x traversed;
      if traversed =? rank then Ret (Some x) else node_by_rank_loop fuel h k x traversed rank
  end.

Definition slGetNodeByRank (h : heap) (sl : skiplist) (rank : Z) : outcome (option loc) :=
  if (rank =? 0) || (sl_length sl <? rank) then Ret None
  else node_by_rank_loop (walk_fuel sl) h (Z.to_nat (sl_level sl)) (sl_header sl) 0 rank.

Definition node_score (h : heap) (x : loc) : outcome double := n ← deref (h !! x); Ret (sn_score n).

(** [min > max] is [max < min]. *)
Definition slIsInRange (h : heap) (sl : skiplist) (min max : double) : outcome bool :=
  if SFltb max min then Ret false
  else
    match sl_tail sl with
    | None => Ret false
    | Some x =>
        s ← node_score h x;
        if SFltb s min then Ret false
        else
          lv ← get_level h (sl_header sl) 0;
          match lv_forward lv with
          | None => Ret false
          | Some x => s ← node_score h x; Ret (negb (SFltb max s))
          end
    end.

Definition slFirstInRange (h : heap) (sl : skiplist) (min max : double) : outcome (option loc) :=
  b ← slIsInRange h sl min max;
  if b : bool then
    update ← descend (fun n _ => Ret (SFltb (sn_score n) min)) id (walk_fuel sl) h
               (Z.to_nat (sl_level sl)) (sl_header sl) 0;
    after_update h update
  else Ret None.

Definition slLastInRange (h : heap) (sl : skiplist) (min max : double) : outcome (option loc) :=
  b ← slIsInRange h sl min max;
  if b : bool then
    update ← descend (fun n _ => Ret (SFleb (sn_score n) max)) id (walk_fuel sl) h
               (Z.to_nat (sl_level sl)) (sl_header sl) 0;
    '(u0, _) ← arr_get update 0;
    Ret (Some u0)
  else Ret None.

(** ** The Lua operations of [lua-skiplist.c] *)

(** [while(node && n < rangelen)] of [_get_rank_range]. *)
Fixpoint rank_range_loop (fuel : nat) (h : heap) (node : option loc) (reverse : bool) : outcome (list bytes) :=
  match fuel, node with
  | S fuel, Some x =>
      n ← deref (h !! x);
      o ← deref (sn_obj n);
      lv ← get_level h x 0;
      os ← rank_range_loop fuel h (if reverse then sn_backward n else lv_forward lv) reverse;
      Ret (o :: os)
  | _, _ => Ret []
  end.

(** The ranks are converted to [unsigned long] and the length to [int]. *)
Definition _get_rank_range (h : heap) (sl : skiplist) (r1 r2 : Z) : outcome (list bytes) :=
  let r1 := u64 r1 in
  let r2 := u64 r2 in
  let reverse := negb (r1 <=? r2) in
  let rangelen := s32 (if reverse then r1 - r2 + 1 else r2 - r1 + 1) in
  node ← slGetNodeByRank h sl r1;
  rank_range_loop (Z.to_nat rangelen) h node reverse.

(** [while(node)] of [_get_score_range]. *)
Fixpoint score_range_loop (fuel : nat) (h : heap) (node : option loc) (reverse : bool) (s2 : double)
    : outcome (list bytes) :=
  match node with
  | None => Ret []
  | Some x =>
      match fuel with
      | O => Undefined
      | S fuel =>
          n ← deref (h !! x);
          if (if reverse then SFltb (sn_score n) s2 else SFltb s2 (sn_score n)) then Ret []
          else
            o ← deref (sn_obj n);
            lv ← get_level h x 0;
            os ← score_range_loop fuel h (if reverse then sn_backward n else lv_forward lv) reverse s2;
            Ret (o :: os)
      end
  end.

Definition _get_score_range (h : heap) (sl : skiplist) (s1 s2 : double) : outcome (list bytes) :=
  let reverse := negb (SFleb s1 s2) in
  node ← (if reverse then slLastInRange h sl s2 s1 else slFirstInRange h sl s1 s2);
  score_range_loop (walk_fuel sl) h node reverse s2.

(** [start] and [end] are converted to [unsigned int] and swapped if needed. *)
Definition _delete_by_rank (h : heap) (sl : skiplist) (start end_ : Z) : outcome (list bytes * heap * skiplist) :=
  let start := u32 start in
  let end_ := u32 end_ in
  if end_ <? start then slDeleteByRank h sl end_ start else slDeleteByRank h sl start end_.
