(* ===== verification/SkiplistOrder.v ===== *)
(** The order of the skip list's elements: IEEE doubles without NaN compare
    like keys in lexicographic order, objects like strings, and elements by
    score and then object. *)
From Stdlib Require Import SpecFloat.
From S2P Require Import Prelude Skiplist.

(** ** Scores *)

(** Sign class, exponent and mantissa, signed so that they order the values. *)
Definition double_key (f : double) : Z * Z * Z :=
  match f with
  | S754_zero _ => (0, 0, 0)
  | S754_infinity s => (if s then -2 else 2, 0, 0)
  | S754_nan => (0, 0, 0)
  | S754_finite s m e => if s then (-1, - e, - Z.pos m) else (1, e, Z.pos m)
  end.

Definition lex3 (a b : Z * Z * Z) : comparison :=
  match a.1.1 ?= b.1.1 with
  | Eq => match a.1.2 ?= b.1.2 with Eq => a.2 ?= b.2 | c => c end
  | c => c
  end.

Definition ordered (f : double) : Prop := f <> S754_nan.

Lemma SFcompare_key a b :
  ordered a -> ordered b -> SFcompare a b = Some (lex3 (double_key a) (double_key b)).
Proof.
  unfold ordered, lex3.
  destruct a as [sa|sa| |sa ma ea], b as [sb|sb| |sb mb eb]; intros Ha Hb; try done;
    try destruct sa; try destruct sb; try done; cbn -[Z.compare]; cbn [Z.compare].
  rewrite Z.compare_opp, (Z.compare_antisym ea eb). by destruct (ea ?= eb).
Qed.

(** Equality of keys is an equivalence, and the order respects it. *)
Lemma lex3_antisym a b : lex3 b a = CompOpp (lex3 a b).
Proof.
  unfold lex3. rewrite (Z.compare_antisym a.1.1), (Z.compare_antisym a.1.2), (Z.compare_antisym a.2).
  by destruct (a.1.1 ?= b.1.1), (a.1.2 ?= b.1.2), (a.2 ?= b.2).
Qed.

Lemma lex3_eq a b : lex3 a b = Eq <-> a = b.
Proof.
  destruct a as [[a1 a2] a3], b as [[b1 b2] b3]. unfold lex3. cbn.
  split; [|intros [= -> -> ->]; by rewrite !Z.compare_refl].
  destruct (Z.compare_spec a1 b1), (Z.compare_spec a2 b2), (Z.compare_spec a3 b3); naive_solver.
Qed.

Lemma lex3_lt a b : lex3 a b = Lt <->
  a.1.1 < b.1.1 \/ a.1.1 = b.1.1 /\ (a.1.2 < b.1.2 \/ a.1.2 = b.1.2 /\ a.2 < b.2).
Proof.
  unfold lex3. destruct (Z.compare_spec a.1.1 b.1.1), (Z.compare_spec a.1.2 b.1.2), (Z.compare_spec a.2 b.2);
    split; intros; try done; try lia.
Qed.

(** ** Objects *)

Lemma strcmp_range a b : -1 <= strcmp a b <= 1.
Proof. revert b. induction a as [|x a IH]; intros [|y b]; cbn; try lia. zcases. apply IH. Qed.

(** Comparing the common length first, and then the lengths, is [strcmp]. *)
Lemma strcmp_take a b :
  strcmp a b = let n := (if (length a <=? length b)%nat then length a else length b) in
    if strcmp (take n a) (take n b) =? 0 then Z.sgn (Z.of_nat (length a) - Z.of_nat (length b))
    else strcmp (take n a) (take n b).
Proof.
  cbv zeta. revert b. induction a as [|x a IH]; intros [|y b].
  - done.
  - cbn. f_equal.
  - cbn. f_equal.
  - cbn [length strcmp]. change (Datatypes.S (length a) <=? Datatypes.S (length b))%nat
      with (length a <=? length b)%nat.
    destruct (length a <=? length b)%nat eqn:E; specialize (IH b); rewrite E in IH;
      cbn [take strcmp]; destruct (x =? y); try (destruct (x <? y); done); rewrite IH;
      by replace (Z.of_nat (Datatypes.S (length a)) - Z.of_nat (Datatypes.S (length b)))
        with (Z.of_nat (length a) - Z.of_nat (length b)) by lia.
Qed.

Definition short (o : bytes) : Prop := Z.of_nat (length o) < 2 ^ 31.

Lemma compareslObj_sign a b : short a -> short b -> Z.sgn (compareslObj a b) = strcmp a b.
Proof.
  unfold short. intros Ha Hb. rewrite (strcmp_take a b). unfold compareslObj, memcmp. cbv zeta.
  set (c := strcmp _ _). pose proof (strcmp_range (take (if (length a <=? length b)%nat then length a else length b) a)
    (take (if (length a <=? length b)%nat then length a else length b) b)) as Hc. fold c in Hc.
  destruct (Z.eqb_spec c 0).
  - f_equal. unfold s32. rewrite Z.mod_small; lia.
  - lia.
Qed.

(** ** Elements *)

Abbreviation elt := (double * bytes)%type.
Definition elt_ok (e : elt) : Prop := ordered e.1 /\ short e.2.

Definition elt_cmp (a b : elt) : comparison :=
  match lex3 (double_key a.1) (double_key b.1) with
  | Eq => strcmp a.2 b.2 ?= 0
  | c => c
  end.

Lemma elt_cmp_antisym a b : elt_cmp b a = CompOpp (elt_cmp a b).
Proof.
  unfold elt_cmp. rewrite (lex3_antisym (double_key a.1)).
  destruct (lex3 (double_key a.1) (double_key b.1)); cbn; [|done..].
  rewrite (strcmp_swap a.2 b.2). by rewrite <- Z.compare_antisym, <- Z.compare_opp, Z.opp_0, Z.opp_involutive.
Qed.

(** [a <= b < c -> a < c] and [a < b <= c -> a < c]. *)
Lemma elt_le_lt_trans a b c : elt_cmp b a <> Lt -> elt_cmp b c = Lt -> elt_cmp a c = Lt.
Proof.
  rewrite (elt_cmp_antisym a b). unfold elt_cmp.
  destruct (lex3 (double_key a.1) (double_key b.1)) eqn:E1; intros H1; cbn in H1; try done.
  - apply lex3_eq in E1. rewrite E1. destruct (lex3 _ _); try done.
    intros H2. change (str_lt b.2 c.2) in H2. change (str_lt a.2 c.2).
    destruct (Z.compare_spec (strcmp a.2 b.2) 0) as [H3|H3|H3]; cbn in H1; try done.
    + apply strcmp_eq in H3. by rewrite H3.
    + change (str_lt a.2 b.2) in H3. by transitivity b.2.
  - destruct (lex3 (double_key b.1) (double_key c.1)) eqn:E2; intros H2; try done.
    + apply lex3_eq in E2. rewrite <- E2. by rewrite E1.
    + assert (lex3 (double_key a.1) (double_key c.1) = Lt) as ->; [|done].
      apply lex3_lt in E1, E2. apply lex3_lt. lia.
Qed.

Lemma elt_lt_le_trans a b c : elt_cmp a b = Lt -> elt_cmp c b <> Lt -> elt_cmp a c = Lt.
Proof.
  intros H1 H2. destruct (elt_cmp a c) eqn:E; [|done|]; exfalso; apply H2;
    apply (elt_le_lt_trans c a b); try done; rewrite E; done.
Qed.
