(* ===== verification/SkiplistRepr.v ===== *)
(** The shape of a skip list: the chain of its nodes, their heights, and the
    links and spans every level must hold; the walk along a level and the
    local changes of the links. *)
From Stdlib Require Import SpecFloat.
From S2P Require Import Prelude Skiplist SkiplistOrder.

#[local] Arguments Nat.ltb : simpl never.

(** ** Links as a function of the heights *)

(** The offset of the first height above [k]. *)
Fixpoint first_above (k : nat) (hs : list nat) : option nat :=
  match hs with
  | [] => None
  | ht :: hs => if (k <? ht)%nat then Some O else S <$> first_above k hs
  end.

Lemma first_above_app k a b :
  first_above k (a ++ b) =
    match first_above k a with Some d => Some d | None => (Nat.add (length a)) <$> first_above k b end.
Proof.
  induction a as [|x a IH]; cbn; [by destruct (first_above k b)|].
  destruct (k <? x)%nat; [done|]. rewrite IH. destruct (first_above k a); [done|].
  by destruct (first_above k b).
Qed.

Lemma first_above_Some k hs d :
  first_above k hs = Some d ->
  exists ht, hs !! d = Some ht /\ (k < ht)%nat /\ forall i x, (i < d)%nat -> hs !! i = Some x -> (x <= k)%nat.
Proof.
  revert d. induction hs as [|x hs IH]; intros d; cbn; [done|].
  destruct (Nat.ltb_spec k x).
  - intros [= <-]. exists x. split; [done|]. split; [done|]. lia.
  - intros (d' & Hd & ->)%fmap_Some. destruct (IH d' Hd) as (ht & H1 & H2 & H3).
    exists ht. split; [done|]. split; [done|]. intros [|i] y Hi; cbn; [intros [= <-]; lia|].
    apply H3. lia.
Qed.

Lemma first_above_None k hs : first_above k hs = None <-> Forall (fun x => (x <= k)%nat) hs.
Proof.
  induction hs as [|x hs IH]; cbn; [by split; [constructor|]|]. rewrite Forall_cons, <- IH.
  destruct (Nat.ltb_spec k x); [split; [done|lia]|].
  destruct (first_above k hs); cbn; split; try done; try tauto. by intros [_ ?].
Qed.

(** [C] is the chain of the nodes, the header first; [hs] their heights. *)
Definition link (C : list loc) (hs : list nat) (i k : nat) : skiplistLevel :=
  match first_above k (drop (S i) hs) with
  | Some d => SkiplistLevel (C !! (S i + d)%nat) (Z.of_nat d + 1)
  | None => SkiplistLevel None (Z.of_nat (length hs) - 1 - Z.of_nat i)
  end.

(** [q] is the last node at an index up to [t] that level [k] passes through. *)
Definition is_last (hs : list nat) (t k q : nat) : Prop :=
  (q <= t)%nat /\ (exists ht, hs !! q = Some ht /\ (k < ht)%nat) /\
  forall i ht, (q < i <= t)%nat -> hs !! i = Some ht -> (ht <= k)%nat.

Lemma is_last_unique hs t k q q' : is_last hs t k q -> is_last hs t k q' -> q = q'.
Proof.
  intros (H1 & (h1 & H2 & H3) & H4) (H5 & (h2 & H6 & H7) & H8).
  destruct (Nat.lt_trichotomy q q') as [Hl|[?|Hl]]; [|done|]; exfalso.
  - pose proof (H4 q' h2 ltac:(lia) H6). lia.
  - pose proof (H8 q h1 ltac:(lia) H2). lia.
Qed.

(** ** The heap *)

(** Level [k] of the node at [c]. *)
Definition glv (h : heap) (c : loc) (k : nat) : option skiplistLevel :=
  h !! c ≫= fun n => sn_level n !! k.

(** The fields of the nodes other than the contents of their levels. *)
Definition shape (n : skiplistNode) : option bytes * double * option loc * nat :=
  (sn_obj n, sn_score n, sn_backward n, length (sn_level n)).
Definition same_shape (h h' : heap) : Prop := forall c, shape <$> h' !! c = shape <$> h !! c.

Lemma same_shape_refl h : same_shape h h.
Proof. done. Qed.
Lemma same_shape_trans h1 h2 h3 : same_shape h1 h2 -> same_shape h2 h3 -> same_shape h1 h3.
Proof. intros H1 H2 c. by rewrite H2, H1. Qed.

Lemma get_level_glv h c k lv : glv h c k = Some lv -> get_level h c (Z.of_nat k) = Ret lv.
Proof.
  unfold glv, get_level. destruct (h !! c) as [n|]; [|done]. cbn. intros Hk.
  unfold arr_get. by rewrite arr_lookup_nat, Hk.
Qed.

Lemma set_level_spec h c k lv lv0 :
  glv h c k = Some lv0 ->
  exists h', set_level h c (Z.of_nat k) lv = Ret h' /\ same_shape h h' /\
    forall c' k', glv h' c' k' = if decide (c' = c /\ k' = k) then Some lv else glv h c' k'.
Proof.
  unfold glv at 1, set_level. destruct (h !! c) as [n|] eqn:Hn; [|done]. cbn. intros Hk.
  pose proof (lookup_lt_Some _ _ _ Hk). rewrite arr_set_Ret by lia. cbn.
  eexists. split; [reflexivity|]. rewrite Nat2Z.id. split.
  - intros c'. destruct (decide (c' = c)) as [->|].
    + rewrite lookup_insert_eq, Hn. cbn. unfold shape. cbn. by rewrite length_insert.
    + by rewrite lookup_insert_ne.
  - intros c' k'. unfold glv. destruct (decide (c' = c)) as [->|].
    + rewrite lookup_insert_eq, Hn. cbn. destruct (decide (k' = k)) as [->|].
      * rewrite decide_True by done. by apply list_lookup_insert_eq.
      * rewrite decide_False by tauto. by apply list_lookup_insert_ne.
    + rewrite lookup_insert_ne, decide_False; [done|tauto|done].
Qed.

Lemma set_forward_spec h c k f lv0 :
  glv h c k = Some lv0 ->
  exists h', set_forward h c (Z.of_nat k) f = Ret h' /\ same_shape h h' /\
    forall c' k', glv h' c' k' =
      if decide (c' = c /\ k' = k) then Some (SkiplistLevel f (lv_span lv0)) else glv h c' k'.
Proof.
  intros H. unfold set_forward. rewrite (get_level_glv _ _ _ _ H), bind_Ret. by eapply set_level_spec.
Qed.

Lemma set_span_spec h c k s lv0 :
  glv h c k = Some lv0 -> 0 <= s < 2 ^ 32 ->
  exists h', set_span h c (Z.of_nat k) s = Ret h' /\ same_shape h h' /\
    forall c' k', glv h' c' k' =
      if decide (c' = c /\ k' = k) then Some (SkiplistLevel (lv_forward lv0) s) else glv h c' k'.
Proof.
  intros H Hs. unfold set_span. rewrite (get_level_glv _ _ _ _ H), bind_Ret, u32_small by done.
  by eapply set_level_spec.
Qed.

(** [h] holds the chain [C] with heights [hs] and elements [l]; levels from
    [lvl] on are unused. *)
Record chain (h : heap) (lvl : nat) (C : list loc) (hs : list nat) (l : list elt) : Prop := {
  ch_nodup : NoDup C;
  ch_length : length hs = length C;
  ch_elts : length C = S (length l);
  ch_small : Z.of_nat (length C) < 2 ^ 31;
  ch_lvl : (1 <= lvl <= 32)%nat;
  ch_header : hs !! O = Some 32%nat;
  ch_heights i ht : (1 <= i)%nat -> hs !! i = Some ht -> (1 <= ht <= lvl)%nat;
  ch_links i c ht k : C !! i = Some c -> hs !! i = Some ht -> (k < ht)%nat ->
    exists lv, glv h c k = Some lv /\ lv_forward lv = lv_forward (link C hs i k) /\
      ((k < lvl)%nat -> lv = link C hs i k);
  ch_shape i c ht : C !! i = Some c -> hs !! i = Some ht ->
    exists n, h !! c = Some n /\ length (sn_level n) = ht /\
      match i with
      | O => sn_obj n = None
      | S i' => exists s o, l !! i' = Some (s, o) /\ sn_score n = s /\ sn_obj n = Some o /\
          sn_backward n = match i' with O => None | _ => C !! i' end
      end }.

Section chain.
Context (h : heap) (lvl : nat) (C : list loc) (hs : list nat) (l : list elt).
Hypothesis Hch : chain h lvl C hs l.

Lemma chain_height i c : C !! i = Some c -> exists ht, hs !! i = Some ht.
Proof.
  intros Hc. destruct (lookup_lt_is_Some_2 hs i) as [ht ?]; [|by exists ht].
  rewrite (ch_length _ _ _ _ _ Hch). by eapply lookup_lt_Some.
Qed.

Lemma chain_index i ht : hs !! i = Some ht -> exists c, C !! i = Some c.
Proof.
  intros Hi. destruct (lookup_lt_is_Some_2 C i) as [c ?]; [|by exists c].
  rewrite <- (ch_length _ _ _ _ _ Hch). by eapply lookup_lt_Some.
Qed.

Lemma chain_link i c ht k :
  C !! i = Some c -> hs !! i = Some ht -> (k < ht)%nat -> (k < lvl)%nat ->
  glv h c k = Some (link C hs i k).
Proof.
  intros Hc Hht Hk Hl. destruct (ch_links _ _ _ _ _ Hch i c ht k) as (lv & -> & _ & Hlv); [done..|].
  by rewrite Hlv.
Qed.

(** *** The walk along a level stops at the last node before [t]. *)
Section walk.
Context (cond : skiplistNode -> Z -> outcome bool) (wrap : Z -> Z) (t : nat).
Hypothesis Hcond : forall i c n, (1 <= i)%nat -> C !! i = Some c -> h !! c = Some n ->
  cond n (Z.of_nat i) = Ret (i <=? t)%nat.
Hypothesis Hwrap : forall i, 0 <= i < 2 ^ 31 -> wrap i = i.

Lemma walk_spec fuel k p c ht :
  C !! p = Some c -> hs !! p = Some ht -> (k < ht)%nat -> (k < lvl)%nat -> (p <= t)%nat ->
  (length C <= p + fuel)%nat ->
  exists q c', walk cond wrap fuel h (Z.of_nat k) c (Z.of_nat p) = Ret (c', Z.of_nat q) /\
    C !! q = Some c' /\ is_last hs t k q.
Proof.
  revert p c ht. induction fuel as [|fuel IH]; intros p c ht Hc Hht Hk Hl Hpt Hfuel.
  { apply lookup_lt_Some in Hc. lia. }
  cbn [walk]. rewrite (get_level_glv _ _ _ _ (chain_link p c ht k Hc Hht Hk Hl)), bind_Ret.
  unfold link. destruct (first_above k (drop (S p) hs)) as [d|] eqn:Hd; cbn [lv_forward lv_span].
  - pose proof Hd as Hd'. apply first_above_Some in Hd' as (ht' & Hht' & Hkt & Hnone).
    rewrite lookup_drop in Hht'. destruct (chain_index _ _ Hht') as [y Hy]. rewrite Hy.
    destruct (chain_height _ _ Hy) as [ht2 Hht2].
    destruct (ch_shape _ _ _ _ _ Hch _ _ _ Hy Hht2) as (n & Hn & _). rewrite Hn. cbn [deref]. rewrite bind_Ret.
    pose proof (lookup_lt_Some _ _ _ Hy). pose proof (ch_small _ _ _ _ _ Hch).
    assert (Hw : wrap (Z.of_nat p + (Z.of_nat d + 1)) = Z.of_nat (S p + d)).
    { rewrite Hwrap; lia. }
    rewrite Hw. cbv zeta. rewrite (Hcond (S p + d) y n) by (done || lia). rewrite bind_Ret.
    destruct (Nat.leb_spec (S p + d) t).
    + apply (IH (S p + d)%nat y ht2); [done|done| |done|done|lia].
      rewrite Hht2 in Hht'. injection Hht' as ->. done.
    + exists p, c. split; [done|]. split; [done|]. split; [done|]. split; [by eauto|].
      intros i x Hi Hx. apply (Hnone (i - S p)%nat x); [lia|]. rewrite lookup_drop.
      by replace (S p + (i - S p))%nat with i by lia.
  - exists p, c. split; [done|]. split; [done|]. split; [done|]. split; [by eauto|].
    apply first_above_None in Hd. rewrite Forall_forall in Hd. intros i x Hi Hx.
    apply Hd. apply elem_of_drop. exists i. split; [done|lia].
Qed.

Lemma descend_spec fuel m p c ht :
  C !! p = Some c -> hs !! p = Some ht -> (m <= ht)%nat -> (m <= lvl)%nat -> (p <= t)%nat ->
  (length C <= fuel)%nat ->
  exists update, descend cond wrap fuel h m c (Z.of_nat p) = Ret update /\ length update = m /\
    forall k, (k < m)%nat -> exists q c', update !! k = Some (c', Z.of_nat q) /\
      C !! q = Some c' /\ is_last hs t k q.
Proof.
  intros Hc Hht Hm Hl Hp Hf. revert p c ht Hc Hht Hm Hp.
  induction m as [|m IH]; intros p c ht Hc Hht Hm Hp; cbn [descend].
  { exists []. split; [done|]. split; [done|]. lia. }
  destruct (walk_spec fuel m p c ht) as (q & c' & -> & Hc' & Hq); [done..|lia|lia|done|lia|].
  rewrite bind_Ret. destruct Hq as (Hqt & (htq & Hhtq & Hmq) & Hnone).
  destruct (IH ltac:(lia) q c' htq) as (rest & -> & Hlen & Hrest); [done|done|lia|done|].
  rewrite bind_Ret. exists (rest ++ [(c', Z.of_nat q)]). split; [done|].
  split; [rewrite length_app; cbn; lia|]. intros k Hk. destruct (decide (k = m)) as [->|].
  - exists q, c'. split; [|split; [done|by split; eauto]].
    by rewrite lookup_app_r, Hlen, Nat.sub_diag by lia.
  - destruct (Hrest k ltac:(lia)) as (q2 & c2 & H1 & H2 & H3). exists q2, c2.
    by rewrite lookup_app_l by lia.
Qed.
End walk.
End chain.

(** ** Links after an insertion *)

Definition insert_at {A} (t : nat) (x : A) (l : list A) : list A := take t l ++ x :: drop t l.

Lemma lookup_insert_at {A} t (x : A) l i :
  (t <= length l)%nat ->
  insert_at t x l !! i = if (i <? t)%nat then l !! i else if (i =? t)%nat then Some x else l !! (i - 1)%nat.
Proof.
  intros Ht. unfold insert_at. destruct (Nat.ltb_spec i t).
  - rewrite lookup_app_l by (rewrite length_take; lia). by rewrite lookup_take_lt.
  - rewrite lookup_app_r by (rewrite length_take; lia). rewrite length_take, Nat.min_l by lia.
    destruct (Nat.eqb_spec i t) as [->|]; [by rewrite Nat.sub_diag|].
    destruct (i - t)%nat as [|j] eqn:E; [lia|].
    change ((x :: drop t l) !! S j) with (drop t l !! j). rewrite lookup_drop. f_equal. lia.
Qed.

Lemma length_insert_at {A} t (x : A) l : length (insert_at t x l) = S (length l).
Proof. unfold insert_at. rewrite length_app. cbn. rewrite <- (take_drop t l) at 3. rewrite length_app. lia. Qed.

Lemma drop_insert_at_le {A} t (x : A) l i :
  (i <= t <= length l)%nat -> drop i (insert_at t x l) = take (t - i) (drop i l) ++ x :: drop t l.
Proof.
  intros Hi. unfold insert_at. rewrite drop_app_le by (rewrite length_take; lia).
  by rewrite skipn_firstn_comm.
Qed.

Lemma drop_insert_at_gt {A} t (x : A) l i :
  (t <= i)%nat -> (t <= length l)%nat -> drop (S i) (insert_at t x l) = drop i l.
Proof.
  intros Hi Ht. unfold insert_at. rewrite drop_app_ge by (rewrite length_take; lia).
  rewrite length_take, Nat.min_l by lia. replace (S i - t)%nat with (S (i - t)) by lia. cbn.
  rewrite drop_drop. f_equal. lia.
Qed.

Section insert_links.
Context (C : list loc) (hs : list nat) (t : nat) (x : loc) (g : nat).
Hypothesis Hlen : length hs = length C.
Hypothesis Ht : (S t <= length C)%nat.
Let C' := insert_at (S t) x C.
Let hs' := insert_at (S t) g hs.

Lemma drop_split i : (i <= t)%nat -> drop (S i) hs = take (t - i) (drop (S i) hs) ++ drop (S t) hs.
Proof.
  intros. rewrite <- (take_drop (t - i) (drop (S i) hs)) at 1. rewrite drop_drop. do 2 f_equal. lia.
Qed.

Lemma seg_above_None i k :
  (i <= t)%nat -> first_above k (take (t - i) (drop (S i) hs)) = None <->
  forall j ht, (i < j <= t)%nat -> hs !! j = Some ht -> (ht <= k)%nat.
Proof.
  intros Hi. rewrite first_above_None, Forall_lookup. split.
  - intros H j ht Hj Hl. apply (H (j - S i)%nat). rewrite lookup_take_lt by lia.
    rewrite lookup_drop. by replace (S i + (j - S i))%nat with j by lia.
  - intros H j ht Hj. apply lookup_take_Some in Hj as [Hj ?]. rewrite lookup_drop in Hj.
    apply (H (S i + j)%nat ht); [lia|done].
Qed.

(** A level that passes over [(q, t]]. *)
Lemma link_skip k q : is_last hs t k q ->
  link C hs q k = match first_above k (drop (S t) hs) with
                  | Some d => SkiplistLevel (C !! (S t + d)%nat) (Z.of_nat d + 1 + (Z.of_nat t - Z.of_nat q))
                  | None => SkiplistLevel None (Z.of_nat (length hs) - 1 - Z.of_nat q)
                  end.
Proof.
  intros (Hq & _ & Hnone). unfold link. rewrite (drop_split q) by done. rewrite first_above_app.
  rewrite (proj2 (seg_above_None q k Hq) Hnone). rewrite length_take, length_drop.
  destruct (first_above k (drop (S t) hs)) as [d|]; cbn; [|done]. f_equal; [f_equal; lia|lia].
Qed.

Lemma link_insert_last k q : is_last hs t k q ->
  link C' hs' q k =
    if (k <? g)%nat then SkiplistLevel (Some x) (Z.of_nat t - Z.of_nat q + 1)
    else SkiplistLevel (lv_forward (link C hs q k)) (lv_span (link C hs q k) + 1).
Proof.
  intros Hl. rewrite (link_skip k q Hl). destruct Hl as (Hq & _ & Hnone). unfold link, C', hs'.
  rewrite drop_insert_at_le by lia. replace (S t - S q)%nat with (t - q)%nat by lia.
  rewrite first_above_app, (proj2 (seg_above_None q k Hq) Hnone). cbn [first_above].
  rewrite length_take, length_drop. destruct (k <? g)%nat; cbn [fmap option_fmap option_map].
  - f_equal; [|lia]. rewrite lookup_insert_at by lia.
    destruct (Nat.ltb_spec (S q + (Nat.min (t - q) (length hs - S q) + 0)) (S t)); [lia|].
    destruct (Nat.eqb_spec (S q + (Nat.min (t - q) (length hs - S q) + 0)) (S t)); [done|lia].
  - destruct (first_above k (drop (S t) hs)) as [d|]; cbn [fmap option_fmap option_map lv_forward lv_span].
    + f_equal; [|lia]. rewrite lookup_insert_at by lia.
      destruct (Nat.ltb_spec (S q + (Nat.min (t - q) (length hs - S q) + S d)) (S t)); [lia|].
      destruct (Nat.eqb_spec (S q + (Nat.min (t - q) (length hs - S q) + S d)) (S t)); [lia|].
      f_equal. lia.
    + f_equal. rewrite length_insert_at. lia.
Qed.

(** A node before the last one of its level keeps its link. *)
Lemma link_insert_other i ht k :
  (i <= t)%nat -> hs !! i = Some ht -> (k < ht)%nat -> ~ is_last hs t k i ->
  link C' hs' i k = link C hs i k.
Proof.
  intros Hi Hht Hk Hl. unfold link, C', hs'. rewrite drop_insert_at_le by lia.
  replace (S t - S i)%nat with (t - i)%nat by lia.
  rewrite (drop_split i) at 2 by done. rewrite !first_above_app.
  destruct (first_above k (take (t - i) (drop (S i) hs))) as [d|] eqn:Hd.
  - apply first_above_Some in Hd as (ht' & Hd & _). apply lookup_take_Some in Hd as [_ Hd].
    rewrite lookup_insert_at by lia. by rewrite (proj2 (Nat.ltb_lt _ _)) by lia.
  - exfalso. apply Hl. split; [done|]. split; [by eauto|]. by apply seg_above_None.
Qed.

Lemma link_insert_new k q : is_last hs t k q ->
  link C' hs' (S t) k =
    SkiplistLevel (lv_forward (link C hs q k)) (lv_span (link C hs q k) - (Z.of_nat t - Z.of_nat q)).
Proof.
  intros Hl. rewrite (link_skip k q Hl). destruct Hl as (Hq & _). unfold link, C', hs'.
  rewrite drop_insert_at_gt by lia.
  destruct (first_above k (drop (S t) hs)) as [d|]; cbn [lv_forward lv_span].
  - f_equal; [|lia]. rewrite lookup_insert_at by lia. rewrite (proj2 (Nat.ltb_ge _ _)) by lia.
    rewrite (proj2 (Nat.eqb_neq _ _)) by lia. f_equal; lia.
  - f_equal. rewrite length_insert_at. lia.
Qed.

Lemma link_insert_after i k : (t < i)%nat -> link C' hs' (S i) k = link C hs i k.
Proof.
  intros Hi. unfold link, C', hs'. rewrite drop_insert_at_gt by lia.
  destruct (first_above k (drop (S i) hs)) as [d|].
  - f_equal. rewrite lookup_insert_at by lia. rewrite (proj2 (Nat.ltb_ge _ _)) by lia.
    rewrite (proj2 (Nat.eqb_neq _ _)) by lia. f_equal; lia.
  - f_equal. rewrite length_insert_at. lia.
Qed.

(** The last nodes before the insertion stay the last. *)
Lemma is_last_insert k q : is_last hs' t k q <-> is_last hs t k q.
Proof.
  assert (E : forall i, (i <= t)%nat -> hs' !! i = hs !! i).
  { intros i Hi. unfold hs'. rewrite lookup_insert_at by lia. by rewrite (proj2 (Nat.ltb_lt _ _)) by lia. }
  unfold is_last. split; intros (Hq & Hx & Hn).
  - rewrite E in Hx by done. split; [done|]. split; [done|]. intros i ht Hi H. apply (Hn i ht Hi). by rewrite E by lia.
  - rewrite E by done. split; [done|]. split; [done|]. intros i ht Hi H. apply (Hn i ht Hi). by rewrite <- E by lia.
Qed.
End insert_links.

(** ** What the loops write *)

(** A loop that rewrites level [k] of some nodes, for every [k] in a range:
    [f h c k] is the new level, computed from level [k] of [h]. *)
Definition range_update (f : heap -> loc -> nat -> option skiplistLevel) (i n : nat) (h h' : heap) : Prop :=
  same_shape h h' /\
  forall c k, glv h' c k = if decide (i <= k < i + n)%nat then f h c k else glv h c k.

Lemma range_update_nil f i h : range_update f i 0 h h.
Proof. split; [done|]. intros c k. by rewrite decide_False by lia. Qed.

Lemma range_update_step (f : heap -> loc -> nat -> option skiplistLevel) i n h h1 h2 :
  (forall h h' c k, (forall c, glv h' c k = glv h c k) -> f h' c k = f h c k) ->
  range_update f i 1 h h1 -> range_update f (S i) n h1 h2 -> range_update f i (S n) h h2.
Proof.
  intros Hf [S1 H1] [S2 H2]. split; [by eapply same_shape_trans|]. intros c k. rewrite H2.
  destruct (decide (S i <= k < S i + n)%nat).
  - rewrite decide_True by lia. apply Hf. intros c'. rewrite H1. by rewrite decide_False by lia.
  - rewrite H1. destruct (decide (k = i)) as [->|].
    + by rewrite !decide_True by lia.
    + by rewrite !decide_False by lia.
Qed.

(** [link_levels]: level [k] of the new node and of [update[k]]. *)
Definition linked (x : loc) (update : list (loc * Z)) (rank0 : Z) (h : heap) (c : loc) (k : nat)
    : option skiplistLevel :=
  match update !! k with
  | Some (u, r) =>
      match glv h u k with
      | Some lu =>
          if decide (c = x) then Some (SkiplistLevel (lv_forward lu) (lv_span lu - (rank0 - r)))
          else if decide (c = u) then Some (SkiplistLevel (Some x) (rank0 - r + 1))
          else glv h c k
      | None => glv h c k
      end
  | None => glv h c k
  end.

Lemma linked_ext x update rank0 h h' c k :
  (forall c, glv h' c k = glv h c k) -> linked x update rank0 h' c k = linked x update rank0 h c k.
Proof. intros E. unfold linked. destruct (update !! k) as [[u r]|]; rewrite !E; done. Qed.

Lemma link_levels_spec n : forall i h x update rank0,
  (forall k, (i <= k < i + n)%nat -> exists u r lu lx, update !! k = Some (u, r) /\ u <> x /\
    glv h u k = Some lu /\ glv h x k = Some lx /\
    0 <= rank0 - r + 1 < 2 ^ 32 /\ 0 <= lv_span lu - (rank0 - r) < 2 ^ 32) ->
  exists h', link_levels n (Z.of_nat i) h x update rank0 = Ret h' /\
    range_update (linked x update rank0) i n h h'.
Proof.
  induction n as [|n IH]; intros i h x update rank0 Hk; cbn [link_levels].
  { exists h. split; [done|apply range_update_nil]. }
  destruct (Hk i ltac:(lia)) as (u & r & lu & lx & Hu & Hux & Hlu & Hlx & Hr1 & Hr2).
  assert (Hget : arr_get update (Z.of_nat i) = Ret (u, r)) by (unfold arr_get; by rewrite arr_lookup_nat, Hu).
  rewrite Hget, bind_Ret, (get_level_glv _ _ _ _ Hlu), bind_Ret.
  destruct (set_forward_spec h x i (lv_forward lu) lx Hlx) as (h1 & -> & S1 & G1). rewrite bind_Ret.
  assert (Hlu1 : glv h1 u i = Some lu) by (rewrite G1, decide_False; [done|intros [? _]; done]).
  destruct (set_forward_spec h1 u i (Some x) lu Hlu1) as (h2 & -> & S2 & G2). rewrite bind_Ret.
  assert (Hlx2 : glv h2 x i = Some (SkiplistLevel (lv_forward lu) (lv_span lx))).
  { rewrite G2, decide_False by (intros [? _]; congruence). by rewrite G1, decide_True. }
  destruct (set_span_spec h2 x i (lv_span lu - (rank0 - r)) _ Hlx2 Hr2) as (h3 & -> & S3 & G3). rewrite bind_Ret.
  assert (Hlu3 : glv h3 u i = Some (SkiplistLevel (Some x) (lv_span lu))).
  { rewrite G3, decide_False by (intros [? _]; done). by rewrite G2, decide_True. }
  destruct (set_span_spec h3 u i (rank0 - r + 1) _ Hlu3 Hr1) as (h4 & -> & S4 & G4). rewrite bind_Ret.
  assert (R1 : range_update (linked x update rank0) i 1 h h4).
  { split; [by apply (same_shape_trans _ h1); [|apply (same_shape_trans _ h2); [|apply (same_shape_trans _ h3)]]|].
    intros c k. rewrite G4, G3, G2, G1. destruct (decide (i <= k < i + 1)%nat).
    - assert (k = i) as -> by lia. unfold linked. rewrite Hu, Hlu. cbn [lv_forward lv_span].
      destruct (decide (c = x)) as [->|].
      + rewrite decide_False by (intros [? _]; done). by rewrite decide_True.
      + destruct (decide (c = u)) as [->|]; [by rewrite decide_True|].
        by rewrite !decide_False by tauto.
    - by rewrite !decide_False by lia. }
  destruct (IH (S i) h4 x update rank0) as (h5 & Heq & R2).
  { intros k Hki. destruct (Hk k ltac:(lia)) as (u' & r' & lu' & lx' & ? & ? & ? & ? & ? & ?).
    exists u', r', lu', lx'. destruct R1 as [_ R1]. rewrite !R1, !decide_False by lia. done. }
  exists h5. rewrite <- Heq. split; [do 2 f_equal; lia|].
  eapply range_update_step; [intros; by apply linked_ext|done|done].
Qed.

(** [bump_levels] and [raise_levels] change spans only. *)
Definition bumped (update : list (loc * Z)) (h : heap) (c : loc) (k : nat) : option skiplistLevel :=
  match update !! k with
  | Some (u, _) => if decide (c = u) then (fun lv => SkiplistLevel (lv_forward lv) (lv_span lv + 1)) <$> glv h c k
                   else glv h c k
  | None => glv h c k
  end.

Lemma bump_levels_spec n : forall i h update,
  (forall k, (i <= k < i + n)%nat -> exists u r lu, update !! k = Some (u, r) /\
    glv h u k = Some lu /\ 0 <= lv_span lu + 1 < 2 ^ 32) ->
  exists h', bump_levels n (Z.of_nat i) h update = Ret h' /\ range_update (bumped update) i n h h'.
Proof.
  induction n as [|n IH]; intros i h update Hk; cbn [bump_levels].
  { exists h. split; [done|apply range_update_nil]. }
  destruct (Hk i ltac:(lia)) as (u & r & lu & Hu & Hlu & Hr).
  assert (Hget : arr_get update (Z.of_nat i) = Ret (u, r)) by (unfold arr_get; by rewrite arr_lookup_nat, Hu).
  rewrite Hget, bind_Ret, (get_level_glv _ _ _ _ Hlu), bind_Ret.
  destruct (set_span_spec h u i (lv_span lu + 1) _ Hlu Hr) as (h1 & -> & S1 & G1). rewrite bind_Ret.
  assert (R1 : range_update (bumped update) i 1 h h1).
  { split; [done|]. intros c k. rewrite G1. destruct (decide (i <= k < i + 1)%nat).
    - assert (k = i) as -> by lia. unfold bumped. rewrite Hu. destruct (decide (c = u)) as [->|].
      + by rewrite decide_True, Hlu.
      + by rewrite decide_False by tauto.
    - by rewrite decide_False by lia. }
  destruct (IH (S i) h1 update) as (h2 & Heq & R2).
  { intros k Hki. destruct (Hk k ltac:(lia)) as (u' & r' & lu' & ? & ? & ?).
    exists u', r', lu'. destruct R1 as [_ R1]. rewrite !R1, !decide_False by lia. done. }
  exists h2. rewrite <- Heq. split; [do 2 f_equal; lia|].
  eapply range_update_step; [|done|done].
  intros. unfold bumped. destruct (update !! k) as [[??]|]; by rewrite H.
Qed.

Definition raised (header : loc) (length : Z) (h : heap) (c : loc) (k : nat) : option skiplistLevel :=
  if decide (c = header) then (fun lv => SkiplistLevel (lv_forward lv) length) <$> glv h c k else glv h c k.

Lemma raise_levels_spec n : forall i h header length,
  0 <= length < 2 ^ 32 -> (forall k, (i <= k < i + n)%nat -> is_Some (glv h header k)) ->
  exists h', raise_levels n h header (Z.of_nat i) length = Ret h' /\
    range_update (raised header length) i n h h'.
Proof.
  induction n as [|n IH]; intros i h header length Hl Hk; cbn [raise_levels].
  { exists h. split; [done|apply range_update_nil]. }
  destruct (Hk i ltac:(lia)) as [lv Hlv].
  destruct (set_span_spec h header i length _ Hlv Hl) as (h1 & -> & S1 & G1). rewrite bind_Ret.
  assert (R1 : range_update (raised header length) i 1 h h1).
  { split; [done|]. intros c k. rewrite G1. unfold raised. destruct (decide (i <= k < i + 1)%nat).
    - assert (k = i) as -> by lia. destruct (decide (c = header)) as [->|].
      + by rewrite decide_True, Hlv.
      + by rewrite decide_False by tauto.
    - by rewrite decide_False by lia. }
  destruct (IH (S i) h1 header length Hl) as (h2 & Heq & R2).
  { intros k Hki. destruct R1 as [_ R1]. rewrite R1, decide_False by lia. apply Hk. lia. }
  exists h2. rewrite <- Heq. split; [do 2 f_equal; lia|].
  eapply range_update_step; [|done|done]. intros. unfold raised. by rewrite H.
Qed.

(** [unlink_levels]: the inverse of linking, and one less for the levels that
    pass over [x]. *)
Definition unlinked (x : loc) (update : list (loc * Z)) (h : heap) (c : loc) (k : nat) : option skiplistLevel :=
  match update !! k with
  | Some (u, _) =>
      if decide (c = u) then
        lu ← glv h u k;
        if decide (lv_forward lu = Some x) then
          lx ← glv h x k; Some (SkiplistLevel (lv_forward lx) (lv_span lu + (lv_span lx - 1)))
        else Some (SkiplistLevel (lv_forward lu) (lv_span lu - 1))
      else glv h c k
  | None => glv h c k
  end.

Lemma unlink_levels_spec n : forall i h x update,
  (forall k, (i <= k < i + n)%nat -> exists u r lu, update !! k = Some (u, r) /\ u <> x /\
    glv h u k = Some lu /\
    (if decide (lv_forward lu = Some x) then exists lx, glv h x k = Some lx /\
       0 <= lv_span lu + (lv_span lx - 1) < 2 ^ 32
     else 0 <= lv_span lu - 1 < 2 ^ 32)) ->
  exists h', unlink_levels n (Z.of_nat i) h x update = Ret h' /\ range_update (unlinked x update) i n h h'.
Proof.
  induction n as [|n IH]; intros i h x update Hk; cbn [unlink_levels].
  { exists h. split; [done|apply range_update_nil]. }
  destruct (Hk i ltac:(lia)) as (u & r & lu & Hu & Hux & Hlu & Hr).
  assert (Hget : arr_get update (Z.of_nat i) = Ret (u, r)) by (unfold arr_get; by rewrite arr_lookup_nat, Hu).
  rewrite Hget, bind_Ret, (get_level_glv _ _ _ _ Hlu), bind_Ret.
  assert (Hstep : exists h1, (if decide (lv_forward lu = Some x) then
      lx ← get_level h x (Z.of_nat i);
      h ← set_span h u (Z.of_nat i) (lv_span lu + (lv_span lx - 1));
      set_forward h u (Z.of_nat i) (lv_forward lx)
    else set_span h u (Z.of_nat i) (lv_span lu - 1)) = Ret h1 /\ range_update (unlinked x update) i 1 h h1).
  { destruct (decide (lv_forward lu = Some x)) as [Hf|Hf].
    - destruct Hr as (lx & Hlx & Hr). rewrite (get_level_glv _ _ _ _ Hlx), bind_Ret.
      destruct (set_span_spec h u i _ _ Hlu Hr) as (h1 & -> & S1 & G1). rewrite bind_Ret.
      assert (Hlu1 : glv h1 u i = Some (SkiplistLevel (lv_forward lu) (lv_span lu + (lv_span lx - 1))))
        by (by rewrite G1, decide_True).
      destruct (set_forward_spec h1 u i (lv_forward lx) _ Hlu1) as (h2 & -> & S2 & G2).
      exists h2. split; [done|]. split; [by eapply same_shape_trans|]. intros c k. rewrite G2, G1.
      destruct (decide (i <= k < i + 1)%nat).
      + assert (k = i) as -> by lia. unfold unlinked. rewrite Hu. destruct (decide (c = u)) as [->|].
        * rewrite !decide_True by done. rewrite Hlu. cbn. rewrite decide_True by done. by rewrite Hlx.
        * by rewrite !decide_False by tauto.
      + by rewrite !decide_False by lia.
    - destruct (set_span_spec h u i _ _ Hlu Hr) as (h1 & -> & S1 & G1).
      exists h1. split; [done|]. split; [done|]. intros c k. rewrite G1.
      destruct (decide (i <= k < i + 1)%nat).
      + assert (k = i) as -> by lia. unfold unlinked. rewrite Hu. destruct (decide (c = u)) as [->|].
        * rewrite !decide_True by done. rewrite Hlu. cbn. by rewrite decide_False.
        * by rewrite decide_False by tauto.
      + by rewrite decide_False by lia. }
  destruct Hstep as (h1 & -> & R1). rewrite bind_Ret.
  destruct (IH (S i) h1 x update) as (h2 & Heq & R2).
  { intros k Hki. destruct (Hk k ltac:(lia)) as (u' & r' & lu' & ? & ? & ? & Hr').
    exists u', r', lu'. destruct R1 as [_ R1].
    assert (E : forall c, glv h1 c k = glv h c k) by (intros; rewrite R1; apply decide_False; lia).
    by rewrite !E. }
  exists h2. rewrite <- Heq. split; [do 2 f_equal; lia|].
  eapply range_update_step; [|done|done].
  intros h0 h0' c k E. unfold unlinked. destruct (update !! k) as [[u' ?]|]; by rewrite !E.
Qed.

(** ** Insertion in the chain *)

(** Where every level below [m] ends before index [t]. *)
Definition update_ok (C : list loc) (hs : list nat) (t m : nat) (update : list (loc * Z)) : Prop :=
  length update = m /\
  forall k, (k < m)%nat -> exists q c, update !! k = Some (c, Z.of_nat q) /\ C !! q = Some c /\ is_last hs t k q.

Lemma update_get C hs t m update k u r :
  NoDup C -> update_ok C hs t m update -> update !! k = Some (u, r) ->
  exists q, C !! q = Some u /\ r = Z.of_nat q /\ is_last hs t k q.
Proof.
  intros Hnd [Hl Hu] Hk. destruct (Hu k) as (q & c & H & ? & ?).
  { apply lookup_lt_Some in Hk. lia. }
  rewrite Hk in H. injection H as -> ->. eauto.
Qed.

Section facts.
Context (h : heap) (lvl : nat) (C : list loc) (hs : list nat) (l : list elt).
Hypothesis Hch : chain h lvl C hs l.

Lemma chain_inj i j c : C !! i = Some c -> C !! j = Some c -> i = j.
Proof. apply NoDup_lookup, (ch_nodup _ _ _ _ _ Hch). Qed.

Lemma chain_height_pos i ht : hs !! i = Some ht -> (1 <= ht <= 32)%nat.
Proof.
  destruct i as [|i]; [rewrite (ch_header _ _ _ _ _ Hch); intros [= <-]; lia|].
  intros Hi. pose proof (ch_heights _ _ _ _ _ Hch (S i) ht ltac:(lia) Hi). pose proof (ch_lvl _ _ _ _ _ Hch). lia.
Qed.

(** Level 0 passes through every node. *)
Lemma is_last_zero t q : (t < length C)%nat -> is_last hs t 0 q -> q = t.
Proof.
  intros Ht (Hq & _ & Hn). destruct (decide (q = t)); [done|]. exfalso.
  destruct (lookup_lt_is_Some_2 hs t) as [ht Hht]; [by rewrite (ch_length _ _ _ _ _ Hch)|].
  pose proof (Hn t ht ltac:(lia) Hht). pose proof (chain_height_pos _ _ Hht). lia.
Qed.

Lemma link_zero i : (i < length C)%nat ->
  link C hs i 0 = SkiplistLevel (C !! S i) (if decide (S i < length C)%nat then 1 else 0).
Proof.
  intros Hi. unfold link. destruct (decide (S i < length C)%nat) as [Hd|Hd].
  - rewrite <- (ch_length _ _ _ _ _ Hch) in Hd. destruct (lookup_lt_is_Some_2 hs (S i) Hd) as [ht Hht].
    rewrite (drop_S _ _ _ Hht). cbn [first_above].
    rewrite (proj2 (Nat.ltb_lt _ _)) by (pose proof (chain_height_pos _ _ Hht); lia). f_equal; [f_equal; lia].
  - rewrite drop_ge by (rewrite (ch_length _ _ _ _ _ Hch); lia). cbn. rewrite lookup_ge_None_2 by lia.
    f_equal. rewrite (ch_length _ _ _ _ _ Hch). lia.
Qed.

(** A level that no node reaches. *)
Lemma link_high i k : (lvl <= k)%nat ->
  link C hs i k = SkiplistLevel None (Z.of_nat (length hs) - 1 - Z.of_nat i).
Proof.
  intros Hk. unfold link. rewrite (proj2 (first_above_None _ _)); [done|].
  rewrite Forall_forall. intros ht (j & Hj & ?)%elem_of_drop.
  pose proof (ch_heights _ _ _ _ _ Hch j ht ltac:(lia) Hj). lia.
Qed.

(** The span of a link stays within the list. *)
Lemma link_span i k : (i < length C)%nat -> 0 <= lv_span (link C hs i k) < Z.of_nat (length C).
Proof.
  intros Hi. unfold link. destruct (first_above k (drop (S i) hs)) as [d|] eqn:Hd; cbn.
  - apply first_above_Some in Hd as (ht & Hd & _). rewrite lookup_drop in Hd.
    apply lookup_lt_Some in Hd. rewrite (ch_length _ _ _ _ _ Hch) in Hd. lia.
  - rewrite (ch_length _ _ _ _ _ Hch). lia.
Qed.

Lemma span_covers t k q : (t < length C)%nat -> is_last hs t k q ->
  Z.of_nat t - Z.of_nat q <= lv_span (link C hs q k).
Proof.
  intros Ht Hl. rewrite (link_skip C hs t (ch_length _ _ _ _ _ Hch) Ht k q Hl).
  destruct (first_above k _); cbn; [lia|]. rewrite (ch_length _ _ _ _ _ Hch). lia.
Qed.

(** More levels: they hold the header only. *)
Lemma chain_raise h' lvl' header :
  C !! O = Some header -> (lvl <= lvl' <= 32)%nat ->
  range_update (raised header (Z.of_nat (length l))) lvl (lvl' - lvl) h h' -> chain h' lvl' C hs l.
Proof.
  intros Hhd Hl [Hsh Hlv]. pose proof Hch as [H1 H2 H3 H4 H5 H6 H7 H8 H9].
  split; [done|done|done|done|lia|done| | |].
  - intros i ht Hi Hht. specialize (H7 i ht Hi Hht). lia.
  - intros i c ht k Hc Hht Hk. destruct (H8 i c ht k Hc Hht Hk) as (lv & Hg & Hf & Hlk).
    rewrite Hlv. destruct (decide (lvl <= k < lvl + (lvl' - lvl))%nat).
    + assert (i = O) as ->.
      { destruct i; [done|]. specialize (H7 (S i) ht ltac:(lia) Hht). lia. }
      assert (c = header) as -> by congruence. unfold raised. rewrite decide_True, Hg by done. cbn.
      eexists. split; [reflexivity|]. cbn. split; [done|]. intros _. rewrite (link_high 0 k) in * by lia.
      cbn in Hf. rewrite Hf. f_equal. rewrite H2, H3. lia.
    + exists lv. split; [done|]. split; [done|]. intros. apply Hlk. lia.
  - intros i c ht Hc Hht. destruct (H9 i c ht Hc Hht) as (n & Hn & Hln & Hi).
    specialize (Hsh c). rewrite Hn in Hsh. destruct (h' !! c) as [n'|]; [|done]. cbn in Hsh.
    injection Hsh as E1 E2 E3 E4. exists n'. split; [done|]. split; [congruence|].
    destruct i; [congruence|]. rewrite E1, E2, E3. done.
Qed.
End facts.
