(* ===== verification/SkiplistInsert.v ===== *)
(** Insertion in the skip list: the chain with the new node, and [slInsert]
    against insertion in a sorted list. *)
From Stdlib Require Import SpecFloat.
From S2P Require Import Prelude Skiplist SkiplistOrder SkiplistRepr.



(** The node [x] of height [g] enters the chain after index [t]. *)
Section insert.
Context (h h1 h' : heap) (lvl g t : nat) (C : list loc) (hs : list nat) (l : list elt)
  (x : loc) (update : list (loc * Z)) (score : double) (obj : bytes).
Hypothesis Hch : chain h lvl C hs l.
Hypothesis Hup : update_ok C hs t lvl update.
Hypothesis Ht : (t < length C)%nat.
Hypothesis Hg : (1 <= g <= lvl)%nat.
Hypothesis Hx : x ∉ C.
Hypothesis Hsmall : Z.of_nat (length C) + 1 < 2 ^ 31.
(** [h1] is [h] with the new node. *)
Hypothesis Hh1 : forall c k, c <> x -> glv h1 c k = glv h c k.
Hypothesis Hglv : forall c k, glv h' c k =
  if decide (k < g)%nat then linked x update (Z.of_nat t) h1 c k
  else if decide (k < lvl)%nat then bumped update h1 c k else glv h1 c k.
Hypothesis Hshape : forall i c, C !! i = Some c -> i <> S t -> shape <$> h' !! c = shape <$> h !! c.
Hypothesis Hnext : forall c n, C !! S t = Some c -> h !! c = Some n ->
  shape <$> h' !! c = Some (shape (with_backward n (Some x))).
Hypothesis Hnew : shape <$> h' !! x =
  Some (Some obj, score, match t with O => None | _ => C !! t end, g).

Let C' := insert_at (S t) x C.
Let hs' := insert_at (S t) g hs.
Let Hlen := ch_length _ _ _ _ _ Hch.

Lemma in_chain_ne i c : C !! i = Some c -> c <> x.
Proof. intros Hc ->. apply Hx. by apply list_elem_of_lookup_2 with i. Qed.

Lemma insert_old_links i c ht k :
  C !! i = Some c -> hs !! i = Some ht -> (k < ht)%nat ->
  let i' := if (i <=? t)%nat then i else S i in
  exists lv, glv h' c k = Some lv /\ lv_forward lv = lv_forward (link C' hs' i' k) /\
    ((k < lvl)%nat -> lv = link C' hs' i' k).
Proof.
  intros Hc Hht Hk i'. pose proof (in_chain_ne i c Hc) as Hcx.
  destruct (ch_links _ _ _ _ _ Hch i c ht k Hc Hht Hk) as (lv & Hlv & Hf & Heq).
  rewrite Hglv. destruct (decide (k < lvl)%nat) as [Hkl|Hkl].
  - specialize (Heq Hkl). subst lv. destruct Hup as [Hul Hus].
    destruct (Hus k Hkl) as (q & u & Huk & Hu & Hq). unfold linked, bumped. rewrite Huk.
    pose proof Hq as (Hqt & (htq & Hhtq & Hkq) & _). pose proof (in_chain_ne q u Hu) as Hux.
    rewrite (Hh1 u k), (Hh1 c k) by done. rewrite (chain_link _ _ _ _ _ Hch q u htq k) by done.
    destruct (decide (c = u)) as [->|Hcu].
    + assert (i = q) as -> by (by eapply chain_inj). subst i'. rewrite (proj2 (Nat.leb_le _ _)) by done.
      unfold C', hs'. rewrite (link_insert_last C hs t x g Hlen Ht k q Hq).
      rewrite (decide_False (P := u = x)) by done. rewrite Hlv. cbn [fmap option_fmap option_map].
      destruct (decide (k < g)%nat), (Nat.ltb_spec k g); try lia; (eexists; split; [reflexivity|done]).
    + assert (Hsame : link C' hs' i' k = link C hs i k).
      { subst i'. destruct (Nat.leb_spec i t).
        - apply link_insert_other with ht; [done|done|done|done|done|]. intros Hi. apply Hcu.
          rewrite (is_last_unique _ _ _ _ _ Hi Hq) in Hc. congruence.
        - by apply link_insert_after. }
      rewrite Hsame, (decide_False (P := c = x)) by done. rewrite Hlv.
      destruct (decide (k < g)%nat); (eexists; split; [reflexivity|done]).
  - rewrite decide_False by lia. rewrite Hh1, Hlv by done. exists lv. split; [done|]. split; [|lia].
    rewrite Hf. assert (i = O) as ->.
    { destruct i; [done|]. pose proof (ch_heights _ _ _ _ _ Hch (S i) ht ltac:(lia) Hht). lia. }
    subst i'. cbn. rewrite (link_high _ _ _ _ _ Hch 0 k) by lia. unfold link.
    rewrite (proj2 (first_above_None _ _)); [done|]. rewrite Forall_forall.
    intros y (j & Hj & Hj1)%elem_of_drop. unfold hs' in Hj. rewrite lookup_insert_at in Hj by lia.
    destruct (Nat.ltb_spec j (S t)); [pose proof (ch_heights _ _ _ _ _ Hch j y ltac:(lia) Hj); lia|].
    destruct (Nat.eqb_spec j (S t)); [injection Hj as <-; lia|].
    destruct (decide (j - 1 = 0)%nat); [lia|].
    pose proof (ch_heights _ _ _ _ _ Hch (j - 1) y ltac:(lia) Hj). lia.
Qed.

Lemma insert_new_links k : (k < g)%nat -> glv h' x k = Some (link C' hs' (S t) k).
Proof.
  intros Hk. rewrite Hglv, decide_True by done. destruct Hup as [Hul Hus].
  destruct (Hus k ltac:(lia)) as (q & u & Huk & Hu & Hq). unfold linked. rewrite Huk.
  pose proof Hq as (Hqt & (htq & Hhtq & Hkq) & _).
  rewrite (Hh1 u k), (chain_link _ _ _ _ _ Hch q u htq k) by (done || lia || by eapply in_chain_ne).
  rewrite decide_True by done. unfold C', hs'. by rewrite (link_insert_new C hs t x g Hlen Ht k q Hq).
Qed.

Lemma insert_shape i c ht : C' !! i = Some c -> hs' !! i = Some ht ->
  exists n, h' !! c = Some n /\ length (sn_level n) = ht /\
    match i with
    | O => sn_obj n = None
    | S i' => exists s o, insert_at t (score, obj) l !! i' = Some (s, o) /\ sn_score n = s /\ sn_obj n = Some o /\
        sn_backward n = match i' with O => None | _ => C' !! i' end
    end.
Proof.
  unfold C', hs'. pose proof (ch_elts _ _ _ _ _ Hch) as He.
  rewrite !lookup_insert_at by lia. intros Hc Hht.
  destruct (Nat.ltb_spec i (S t)) as [Hi|Hi].
  - destruct (ch_shape _ _ _ _ _ Hch i c ht Hc Hht) as (n & Hn & Hln & Hrest).
    pose proof (Hshape i c Hc ltac:(lia)) as Hs. rewrite Hn in Hs.
    destruct (h' !! c) as [n'|]; [|done]. cbn in Hs. injection Hs as E1 E2 E3 E4.
    exists n'. split; [done|]. split; [congruence|]. destruct i as [|i]; [congruence|].
    destruct Hrest as (s & o & Hl & H1 & H2 & H3). exists s, o.
    rewrite lookup_insert_at by lia. rewrite (proj2 (Nat.ltb_lt i t)) by lia.
    split; [done|]. split; [congruence|]. split; [congruence|]. rewrite E3, H3. destruct i; [done|].
    rewrite lookup_insert_at by lia. by rewrite (proj2 (Nat.ltb_lt _ _)) by lia.
  - destruct (Nat.eqb_spec i (S t)) as [->|Hne].
    + injection Hc as <-. injection Hht as <-. destruct (h' !! x) as [n|]; [|done]. cbn in Hnew.
      injection Hnew as E1 E2 E3 E4. exists n. split; [done|]. split; [done|]. exists score, obj.
      rewrite !lookup_insert_at by lia. rewrite (proj2 (Nat.ltb_ge t t)), Nat.eqb_refl by lia.
      split; [done|]. split; [done|]. split; [done|]. rewrite E3. destruct t; [done|].
      by rewrite (proj2 (Nat.ltb_lt _ _)) by lia.
    + destruct i as [|[|i]]; [lia|lia|]. cbn [Nat.sub] in Hc, Hht.
      destruct (ch_shape _ _ _ _ _ Hch (S i) c ht Hc Hht) as (n & Hn & Hln & Hrest).
      destruct Hrest as (s & o & Hl & H1 & H2 & H3).
      assert (Hs : shape <$> h' !! c = Some (shape (with_backward n (match i with
          | O => Some x | _ => if decide (S i = S t) then Some x else C !! i end)))).
      { destruct (decide (S i = S t)) as [Heq|Hne2].
        - rewrite Heq in Hc. rewrite (Hnext c n Hc Hn). by destruct i.
        - rewrite (Hshape (S i) c Hc Hne2), Hn. cbn. destruct i; [lia|]. destruct n; cbn in *. by rewrite H3. }
      destruct (h' !! c) as [n'|]; [|done]. cbn in Hs. injection Hs as E1 E2 E3 E4.
      exists n'. split; [done|]. split; [congruence|]. exists s, o.
      rewrite lookup_insert_at by lia. rewrite (proj2 (Nat.ltb_ge _ _)), (proj2 (Nat.eqb_neq _ _)) by lia.
      cbn [Nat.sub]. rewrite Nat.sub_0_r. split; [done|]. split; [congruence|]. split; [congruence|].
      rewrite E3, lookup_insert_at by lia.
      destruct (decide (S i = S t)) as [Heq|Hne2].
      * rewrite (proj2 (Nat.ltb_ge _ _)) by lia. rewrite Heq, Nat.eqb_refl. by destruct i.
      * rewrite (proj2 (Nat.ltb_ge _ _)), (proj2 (Nat.eqb_neq _ _)) by lia. destruct i; [lia|].
        cbn [Nat.sub]. done.
Qed.

Lemma chain_insert : chain h' lvl C' hs' (insert_at t (score, obj) l).
Proof.
  pose proof (ch_elts _ _ _ _ _ Hch) as He. split.
  - unfold C', insert_at. apply NoDup_Permutation_proper with (x :: C).
    { rewrite <- (take_drop (S t) C) at 3. by rewrite Permutation_middle. }
    constructor; [done|apply (ch_nodup _ _ _ _ _ Hch)].
  - unfold C', hs'. rewrite !length_insert_at. congruence.
  - unfold C'. rewrite !length_insert_at. congruence.
  - unfold C'. rewrite length_insert_at. lia.
  - apply (ch_lvl _ _ _ _ _ Hch).
  - unfold hs'. rewrite lookup_insert_at by lia. cbn. apply (ch_header _ _ _ _ _ Hch).
  - intros i ht Hi. unfold hs'. rewrite lookup_insert_at by lia.
    destruct (Nat.ltb_spec i (S t)); [by apply (ch_heights _ _ _ _ _ Hch)|].
    destruct (Nat.eqb_spec i (S t)); [intros [= <-]; lia|]. apply (ch_heights _ _ _ _ _ Hch). lia.
  - intros i c ht k. unfold C' at 1, hs' at 1. rewrite !lookup_insert_at by lia.
    destruct (Nat.ltb_spec i (S t)).
    + intros Hc Hht Hk. pose proof (insert_old_links i c ht k Hc Hht Hk) as H0.
      cbv zeta in H0. by rewrite (proj2 (Nat.leb_le _ _)) in H0 by lia.
    + destruct (Nat.eqb_spec i (S t)) as [->|Hne].
      * intros [= <-] [= <-] Hk. rewrite (insert_new_links k Hk). eauto.
      * intros Hc Hht Hk. pose proof (insert_old_links (i - 1) c ht k Hc Hht Hk) as H0.
        cbv zeta in H0. rewrite (proj2 (Nat.leb_gt _ _)) in H0 by lia.
        by replace (S (i - 1)) with i in H0 by lia.
  - apply insert_shape.
Qed.
End insert.

(** ** The skip list and its list of elements *)

(** The node before index [t + 1], NULL for the first. *)
Definition back (C : list loc) (t : nat) : option loc := match t with O => None | _ => C !! t end.

(** The heap holds the skip list [sl] of the elements [l] and nothing else. *)
Record represents (h : heap) (sl : skiplist) (C : list loc) (hs : list nat) (l : list elt) : Prop := {
  rp_chain : chain h (Z.to_nat (sl_level sl)) C hs l;
  rp_header : C !! O = Some (sl_header sl);
  rp_tail : sl_tail sl = back C (length l);
  rp_length : sl_length sl = Z.of_nat (length l);
  rp_dom c : is_Some (h !! c) <-> c ∈ C }.

Lemma set_backward_spec h c n b : h !! c = Some n ->
  exists h', set_backward h c b = Ret h' /\ (forall c' k, glv h' c' k = glv h c' k) /\
    (forall c', shape <$> h' !! c' = if decide (c' = c) then Some (shape (with_backward n b)) else shape <$> h !! c').
Proof.
  intros Hn. unfold set_backward. rewrite Hn. cbn [deref]. rewrite bind_Ret. eexists. split; [reflexivity|].
  split; intros c'; [intros k; unfold glv|]; destruct (decide (c' = c)) as [->|].
  - rewrite lookup_insert_eq, Hn. done.
  - by rewrite lookup_insert_ne.
  - by rewrite lookup_insert_eq.
  - by rewrite lookup_insert_ne.
Qed.

Lemma same_shape_Some h h' c : same_shape h h' -> is_Some (h' !! c) <-> is_Some (h !! c).
Proof.
  intros H. specialize (H c). destruct (h !! c), (h' !! c); try done; split; intros [? ?]; done.
Qed.

Lemma shape_glv h c n k : h !! c = Some n -> (k < length (sn_level n))%nat -> is_Some (glv h c k).
Proof. intros Hn Hk. unfold glv. rewrite Hn. cbn. by apply lookup_lt_is_Some_2. Qed.

(** ** Searching *)

(** The number of elements before the first one without [P]. *)
Fixpoint lead (P : elt -> bool) (l : list elt) : nat :=
  match l with e :: l => if P e then S (lead P l) else O | [] => O end.

Lemma lead_le P l : (lead P l <= length l)%nat.
Proof. induction l as [|e l IH]; cbn; [lia|]. destruct (P e); cbn; lia. Qed.

(** [P] holds of an initial part of the list only. *)
Definition initial (P : elt -> bool) (l : list elt) : Prop :=
  forall i j a b, (i < j)%nat -> l !! i = Some a -> l !! j = Some b -> P b = true -> P a = true.

Lemma lead_spec P l i e : initial P l -> l !! i = Some e -> P e = (i <? lead P l)%nat.
Proof.
  revert i. induction l as [|x l IH]; intros i HP Hi; [done|].
  assert (HP' : initial P l) by (intros i' j' a b Hij; apply (HP (S i') (S j')); lia).
  cbn [lead]. destruct i as [|i].
  - cbn in Hi. injection Hi as ->. destruct (P e) eqn:E; [by rewrite (proj2 (Nat.ltb_lt 0 _)) by lia|].
    by rewrite (proj2 (Nat.ltb_ge 0 _)) by lia.
  - cbn in Hi. destruct (P x) eqn:E.
    + rewrite (IH i) by done. by destruct (Nat.ltb_spec i (lead P l)), (Nat.ltb_spec (S i) (S (lead P l))); try lia.
    + rewrite (proj2 (Nat.ltb_ge _ _)) by lia. destruct (P e) eqn:E2; [|done].
      rewrite (HP O (S i) x e) in E; [done|lia|done|done|done].
Qed.

(** Elements in order, with proper scores and objects. *)
Record sorted (l : list elt) : Prop := {
  so_order i j a b : (i < j)%nat -> l !! i = Some a -> l !! j = Some b -> elt_cmp b a <> Lt;
  so_ok i e : l !! i = Some e -> elt_ok e }.

Definition elt_ltb (a b : elt) : bool := match elt_cmp a b with Lt => true | _ => false end.
Definition elt_leb (a b : elt) : bool := match elt_cmp a b with Gt => false | _ => true end.

Lemma elt_ltb_Lt a b : elt_ltb a b = true <-> elt_cmp a b = Lt.
Proof. unfold elt_ltb. by destruct (elt_cmp a b). Qed.
Lemma elt_leb_le a b : elt_leb a b = true <-> elt_cmp b a <> Lt.
Proof. unfold elt_leb. rewrite (elt_cmp_antisym a b). by destruct (elt_cmp a b). Qed.

Lemma initial_ltb l e : sorted l -> initial (fun x => elt_ltb x e) l.
Proof.
  intros Hs i j a b Hij Ha Hb. rewrite !elt_ltb_Lt. apply elt_le_lt_trans.
  by apply (so_order _ Hs i j).
Qed.

Lemma initial_leb l e : sorted l -> initial (fun x => elt_leb x e) l.
Proof.
  intros Hs i j a b Hij Ha Hb. rewrite !elt_leb_le. intros H1 H2. apply H1.
  apply (elt_lt_le_trans _ a); [done|]. by apply (so_order _ Hs i j).
Qed.

(** The comparisons of the code. *)
Lemma before_spec n s o score obj :
  sn_score n = s -> sn_obj n = Some o -> elt_ok (s, o) -> elt_ok (score, obj) ->
  before score obj n = Ret (elt_ltb (s, o) (score, obj)).
Proof.
  intros Hs Ho [O1 S1] [O2 S2]. unfold before, elt_ltb, elt_cmp, SFltb, SFeqb. cbn in *.
  rewrite Hs, Ho, SFcompare_key by done. destruct (lex3 _ _); [|done..]. cbn. f_equal.
  rewrite <- (compareslObj_sign o obj) by done. by destruct (compareslObj o obj).
Qed.

Lemma upto_spec n s o score obj :
  sn_score n = s -> sn_obj n = Some o -> elt_ok (s, o) -> elt_ok (score, obj) ->
  upto score obj n = Ret (elt_leb (s, o) (score, obj)).
Proof.
  intros Hs Ho [O1 S1] [O2 S2]. unfold upto, elt_leb, elt_cmp, SFltb, SFeqb. cbn in *.
  rewrite Hs, Ho, SFcompare_key by done. destruct (lex3 _ _); [|done..]. cbn. f_equal.
  rewrite <- (compareslObj_sign o obj) by done. by destruct (compareslObj o obj).
Qed.

Lemma equalslObj_spec a b : short a -> short b -> equalslObj a b = bool_decide (a = b).
Proof.
  intros Ha Hb. unfold equalslObj. pose proof (compareslObj_sign a b Ha Hb) as H.
  pose proof (strcmp_eq a b) as He. destruct (bool_decide_reflect (a = b)) as [->|Hne].
  - rewrite (proj2 He eq_refl) in H. apply Z.eqb_eq. lia.
  - apply Z.eqb_neq. intros E. apply Hne, He. rewrite <- H, E. done.
Qed.

(** A condition on the elements stops the walks after their leading run. *)
Section search.
Context (h : heap) (sl : skiplist) (C : list loc) (hs : list nat) (l : list elt).
Hypothesis Hr : represents h sl C hs l.
Let Hch := rp_chain _ _ _ _ _ Hr.

Lemma cond_elt (cond : skiplistNode -> outcome bool) (P : elt -> bool) :
  initial P l -> (forall i n s o, l !! i = Some (s, o) -> sn_score n = s -> sn_obj n = Some o -> cond n = Ret (P (s, o))) ->
  forall i c n, (1 <= i)%nat -> C !! i = Some c -> h !! c = Some n -> cond n = Ret (i <=? lead P l)%nat.
Proof.
  intros HP Hcond i c n Hi Hc Hn. destruct (chain_height _ _ _ _ _ Hch i c Hc) as [ht Hht].
  destruct (ch_shape _ _ _ _ _ Hch i c ht Hc Hht) as (n' & Hn' & _ & Hsh). rewrite Hn in Hn'. injection Hn' as <-.
  destruct i as [|i]; [lia|]. destruct Hsh as (s & o & Hl & H1 & H2 & _).
  by rewrite (Hcond i n s o Hl H1 H2), (lead_spec P l i (s, o) HP Hl).
Qed.

Lemma search_update (cond : skiplistNode -> Z -> outcome bool) (wrap : Z -> Z) (t : nat) :
  (forall i, 0 <= i < 2 ^ 31 -> wrap i = i) ->
  (forall i c n, (1 <= i)%nat -> C !! i = Some c -> h !! c = Some n -> cond n (Z.of_nat i) = Ret (i <=? t)%nat) ->
  exists update, descend cond wrap (walk_fuel sl) h (Z.to_nat (sl_level sl)) (sl_header sl) 0 = Ret update /\
    update_ok C hs t (Z.to_nat (sl_level sl)) update.
Proof.
  intros Hw Hc. pose proof (ch_lvl _ _ _ _ _ Hch). pose proof (ch_elts _ _ _ _ _ Hch) as He.
  destruct (descend_spec _ _ _ _ _ Hch cond wrap t Hc Hw (walk_fuel sl) (Z.to_nat (sl_level sl)) 0
    (sl_header sl) 32) as (update & H1 & H2 & H3).
  - apply (rp_header _ _ _ _ _ Hr).
  - apply (ch_header _ _ _ _ _ Hch).
  - lia.
  - lia.
  - lia.
  - unfold walk_fuel. rewrite (rp_length _ _ _ _ _ Hr). lia.
  - exists update. split; [done|]. by split.
Qed.
End search.

(** ** [slInsert] *)

Section insertion.
Context (h : heap) (sl : skiplist) (C : list loc) (hs : list nat) (l : list elt) (t : nat).
Hypothesis Hr : represents h sl C hs l.
Hypothesis Ht : (t <= length l)%nat.
Let Hch := rp_chain _ _ _ _ _ Hr.
Let lvl := Z.to_nat (sl_level sl).

Lemma header_glv k : (k < 32)%nat -> is_Some (glv h (sl_header sl) k).
Proof.
  intros Hk. destruct (ch_links _ _ _ _ _ Hch 0 (sl_header sl) 32 k) as (lv & -> & _); [|..|done|by eexists].
  - apply (rp_header _ _ _ _ _ Hr).
  - apply (ch_header _ _ _ _ _ Hch).
Qed.

(** The levels the new node adds. *)
Lemma insert_raise level update :
  1 <= level <= 32 -> update_ok C hs t lvl update ->
  exists h1 update1 sl1,
    (if sl_level sl <? level then
       h ← raise_levels (Z.to_nat (level - sl_level sl)) h (sl_header sl) (sl_level sl) (sl_length sl);
       Ret (h, update ++ replicate (Z.to_nat (level - sl_level sl)) (sl_header sl, 0),
            Skiplist (sl_header sl) (sl_tail sl) (sl_length sl) level)
     else Ret (h, update, sl)) = Ret (h1, update1, sl1) /\
    represents h1 sl1 C hs l /\ same_shape h h1 /\
    update_ok C hs t (Z.to_nat (sl_level sl1)) update1 /\ level <= sl_level sl1 /\ sl_header sl1 = sl_header sl.
Proof.
  intros Hl Hu. pose proof (ch_lvl _ _ _ _ _ Hch) as Hlvl. pose proof (ch_elts _ _ _ _ _ Hch) as He.
  pose proof (ch_small _ _ _ _ _ Hch) as Hsm.
  destruct (Z.ltb_spec (sl_level sl) level) as [Hlt|].
  2: { exists h, update, sl. split; [done|]. split; [done|]. split; [done|]. split; [done|]. lia. }
  destruct (raise_levels_spec (Z.to_nat (level - sl_level sl)) lvl h (sl_header sl) (sl_length sl))
    as (h1 & Heq & Hup).
  { rewrite (rp_length _ _ _ _ _ Hr). lia. }
  { intros k Hk. apply header_glv. lia. }
  replace (Z.of_nat lvl) with (sl_level sl) in Heq by lia. rewrite Heq, bind_Ret.
  do 3 eexists. split; [reflexivity|]. cbn [sl_level sl_header].
  rewrite (rp_length _ _ _ _ _ Hr) in Hup. pose proof Hup as [Hs _].
  split; [|split; [done|split; [|split; [lia|done]]]].
  - split; cbn; [|apply (rp_header _ _ _ _ _ Hr)|apply (rp_tail _ _ _ _ _ Hr)|apply (rp_length _ _ _ _ _ Hr)|].
    + apply (chain_raise h lvl C hs l Hch h1 (Z.to_nat level) (sl_header sl)); [apply (rp_header _ _ _ _ _ Hr)|lia|].
      by replace (Z.to_nat level - lvl)%nat with (Z.to_nat (level - sl_level sl)) by lia.
    + intros c. rewrite <- (rp_dom _ _ _ _ _ Hr c). by apply same_shape_Some.
  - destruct Hu as [Hul Hus]. split; [rewrite length_app, length_replicate; lia|].
    intros k Hk. destruct (decide (k < lvl)%nat) as [Hkl|Hkl].
    + destruct (Hus k Hkl) as (q & c & H1 & H2 & H3). exists q, c. by rewrite lookup_app_l by lia.
    + exists O, (sl_header sl). rewrite lookup_app_r by lia. rewrite lookup_replicate_2 by lia.
      split; [done|]. split; [apply (rp_header _ _ _ _ _ Hr)|]. split; [lia|].
      split; [exists 32%nat; split; [apply (ch_header _ _ _ _ _ Hch)|lia]|].
      intros i ht Hi Hht. pose proof (ch_heights _ _ _ _ _ Hch i ht ltac:(lia) Hht). lia.
Qed.

(** The links of the new node and of the nodes before it. *)
Lemma insert_levels (h1 : heap) (g : nat) x update :
  (1 <= g <= lvl)%nat -> update_ok C hs t lvl update -> x ∉ C ->
  (forall c k, c <> x -> glv h1 c k = glv h c k) -> (forall k, (k < g)%nat -> is_Some (glv h1 x k)) ->
  exists h2, (h ← link_levels g 0 h1 x update (Z.of_nat t); bump_levels (lvl - g) (Z.of_nat g) h update) = Ret h2 /\
    same_shape h1 h2 /\
    forall c k, glv h2 c k = if decide (k < g)%nat then linked x update (Z.of_nat t) h1 c k
      else if decide (k < lvl)%nat then bumped update h1 c k else glv h1 c k.
Proof.
  intros Hg Hu HxC Hh1 Hh1x. pose proof (ch_elts _ _ _ _ _ Hch) as He. pose proof (ch_small _ _ _ _ _ Hch) as Hsm.
  assert (Hk : forall k, (k < lvl)%nat -> exists u q lu, update !! k = Some (u, Z.of_nat q) /\ u <> x /\
    glv h1 u k = Some lu /\ (q <= t)%nat /\ Z.of_nat t - Z.of_nat q <= lv_span lu < 2 ^ 31).
  { intros k Hk. destruct (proj2 Hu k Hk) as (q & u & H1 & H2 & H3).
    assert (u <> x). { intros ->. apply HxC. by apply list_elem_of_lookup_2 with q. }
    exists u, q, (link C hs q k). split; [done|]. split; [done|].
    pose proof H3 as (Hqt & (ht & Hht & Hkh) & _).
    rewrite Hh1, (chain_link _ _ _ _ _ Hch q u ht k) by done. split; [done|]. split; [done|].
    pose proof (span_covers _ _ _ _ _ Hch t k q ltac:(lia) H3).
    pose proof (link_span _ _ _ _ _ Hch q k ltac:(lia)). lia. }
  change (link_levels g 0) with (link_levels g (Z.of_nat 0)).
  destruct (link_levels_spec g 0 h1 x update (Z.of_nat t)) as (h2 & -> & S2 & G2).
  { intros k Hkg. destruct (Hk k ltac:(lia)) as (u & q & lu & ? & ? & ? & ? & ?).
    destruct (Hh1x k ltac:(lia)) as [lx ?]. exists u, (Z.of_nat q), lu, lx. repeat split; try done; lia. }
  rewrite bind_Ret. destruct (bump_levels_spec (lvl - g) g h2 update) as (h3 & -> & S3 & G3).
  { intros k Hkg. destruct (Hk k ltac:(lia)) as (u & q & lu & ? & ? & ? & ? & ?).
    exists u, (Z.of_nat q), lu. rewrite G2, decide_False by lia. repeat split; try done; lia. }
  exists h3. split; [done|]. split; [by eapply same_shape_trans|]. intros c k. rewrite G3.
  destruct (decide (k < g)%nat).
  - rewrite decide_False by lia. rewrite G2. by rewrite decide_True by lia.
  - destruct (decide (k < lvl)%nat).
    + rewrite decide_True by lia. assert (E : forall c, glv h2 c k = glv h1 c k) by (intros; rewrite G2; apply decide_False; lia).
      unfold bumped. destruct (update !! k) as [[u r]|]; by rewrite !E.
    + rewrite decide_False by lia. rewrite G2. by rewrite decide_False by lia.
Qed.

(** The backward pointers. *)
Lemma insert_backward (h1 h2 : heap) (g : nat) x u0 n1 :
  (1 <= g)%nat -> x ∉ C -> h1 = <[x := n1]> h -> same_shape h1 h2 -> C !! t = Some u0 ->
  glv h2 x 0 = Some (link C hs t 0) ->
  exists h' tail,
    (h ← set_backward h2 x (if decide (u0 = sl_header sl) then None else Some u0);
     lv ← get_level h x 0;
     match lv_forward lv with
     | Some f =>
         h ← set_backward h f (Some x);
         Ret (h, Skiplist (sl_header sl) (sl_tail sl) (sl_length sl + 1) (sl_level sl))
     | None => Ret (h, Skiplist (sl_header sl) (Some x) (sl_length sl + 1) (sl_level sl))
     end) = Ret (h', Skiplist (sl_header sl) tail (sl_length sl + 1) (sl_level sl)) /\
    tail = (if decide (S t < length C)%nat then sl_tail sl else Some x) /\
    (forall c k, glv h' c k = glv h2 c k) /\
    shape <$> h' !! x = Some (shape (with_backward n1 (back C t))) /\
    (forall c n, c <> x -> h !! c = Some n ->
       shape <$> h' !! c = Some (shape (if decide (C !! S t = Some c) then with_backward n (Some x) else n))) /\
    (forall c, is_Some (h' !! c) <-> c = x \/ is_Some (h !! c)).
Proof.
  intros Hg HxC -> S2 Hu0 Hx0. pose proof (ch_elts _ _ _ _ _ Hch) as He.
  assert (Hb : (if decide (u0 = sl_header sl) then None else Some u0) = back C t).
  { destruct (decide (u0 = sl_header sl)) as [->|Hne].
    - by rewrite (chain_inj _ _ _ _ _ Hch t 0 _ Hu0 (rp_header _ _ _ _ _ Hr)).
    - destruct t; [|done]. pose proof (rp_header _ _ _ _ _ Hr). congruence. }
  rewrite Hb. pose proof (S2 x) as Sx. rewrite lookup_insert_eq in Sx.
  destruct (h2 !! x) as [n2|] eqn:Hn2; [|done]. cbn in Sx. injection Sx as E1 E2 E3 E4.
  destruct (set_backward_spec h2 x n2 (back C t) Hn2) as (h3 & -> & G3 & S3). rewrite bind_Ret.
  change (get_level h3 x 0) with (get_level h3 x (Z.of_nat 0)). rewrite <- (G3 x 0%nat) in Hx0.
  rewrite (get_level_glv h3 x 0 _ Hx0), bind_Ret, (link_zero _ _ _ _ _ Hch t) by lia. cbn [lv_forward].
  assert (Hold : forall c n, c <> x -> h !! c = Some n -> shape <$> h3 !! c = Some (shape n)).
  { intros c n Hcx Hn. rewrite S3, decide_False by done. rewrite (S2 c), lookup_insert_ne by done. by rewrite Hn. }
  assert (Hxn : shape <$> h3 !! x = Some (shape (with_backward n1 (back C t)))).
  { rewrite S3, decide_True by done. unfold shape, with_backward. cbn. congruence. }
  assert (Hdom : forall c, is_Some (h3 !! c) <-> c = x \/ is_Some (h !! c)).
  { intros c. rewrite <- (fmap_is_Some shape), S3. destruct (decide (c = x)); [naive_solver|].
    rewrite (S2 c), lookup_insert_ne, fmap_is_Some by done. naive_solver. }
  destruct (C !! S t) as [f|] eqn:Hf.
  - pose proof (lookup_lt_Some _ _ _ Hf) as Hlt.
    assert (Hfx : f <> x). { intros ->. apply HxC. by apply list_elem_of_lookup_2 with (S t). }
    destruct (chain_height _ _ _ _ _ Hch _ _ Hf) as [ht Hht].
    destruct (ch_shape _ _ _ _ _ Hch _ _ _ Hf Hht) as (nf & Hnf & _).
    pose proof (Hold f nf Hfx Hnf) as Hf3. destruct (h3 !! f) as [n3|] eqn:Hn3; [|done].
    cbn in Hf3. injection Hf3 as F1 F2 F3 F4.
    destruct (set_backward_spec h3 f n3 (Some x) Hn3) as (h4 & -> & G4 & S4). rewrite bind_Ret.
    do 2 eexists. split; [reflexivity|]. rewrite decide_True by done. split; [done|].
    split; [intros; by rewrite G4, G3|]. split; [by rewrite S4, decide_False by done|].
    split.
    + intros c n Hcx Hn. rewrite S4. destruct (decide (c = f)) as [->|Hcf].
      * rewrite decide_True by done. unfold shape, with_backward. cbn. congruence.
      * rewrite decide_False by congruence. by apply Hold.
    + intros c. rewrite <- Hdom, <- (fmap_is_Some shape), S4. destruct (decide (c = f)) as [->|]; [|by rewrite fmap_is_Some].
      rewrite Hn3. naive_solver.
  - do 2 eexists. split; [reflexivity|]. apply lookup_ge_None_1 in Hf. rewrite decide_False by lia. split; [done|].
    split; [intros; by rewrite G3|]. split; [done|]. split; [|done].
    intros c n Hcx Hn. rewrite decide_False by done. by apply Hold.
Qed.

Lemma insert_link j (g : nat) x update score obj :
  (1 <= g <= lvl)%nat -> update_ok C hs t lvl update -> h !! x = None ->
  Z.of_nat (length l) + 2 < 2 ^ 31 ->
  exists h' sl' C' hs',
    (h ← alloc h x (slCreateNode j (Z.of_nat g) score (Some obj));
     '(u0, rank0) ← arr_get update 0;
     h ← link_levels (Z.to_nat (Z.of_nat g)) 0 h x update rank0;
     h ← bump_levels (Z.to_nat (sl_level sl - Z.of_nat g)) (Z.of_nat g) h update;
     h ← set_backward h x (if decide (u0 = sl_header sl) then None else Some u0);
     lv ← get_level h x 0;
     match lv_forward lv with
     | Some f =>
         h ← set_backward h f (Some x);
         Ret (h, Skiplist (sl_header sl) (sl_tail sl) (sl_length sl + 1) (sl_level sl))
     | None => Ret (h, Skiplist (sl_header sl) (Some x) (sl_length sl + 1) (sl_level sl))
     end) = Ret (h', sl') /\
    represents h' sl' C' hs' (insert_at t (score, obj) l).
Proof.
  intros Hg Hu Hx Hsmall. pose proof (ch_elts _ _ _ _ _ Hch) as He.
  assert (HxC : x ∉ C). { intros Hin%(rp_dom _ _ _ _ _ Hr). rewrite Hx in Hin. by destruct Hin. }
  unfold alloc. rewrite Hx, bind_Ret. set (n1 := slCreateNode _ _ _ _).
  destruct (proj2 Hu 0%nat ltac:(lia)) as (q0 & u0 & Hu0 & Hc0 & Hq0).
  assert (q0 = t) as -> by (eapply is_last_zero; [exact Hch|lia|done]).
  assert (Hget : arr_get update 0 = Ret (u0, Z.of_nat t)).
  { change 0 with (Z.of_nat 0) at 1. unfold arr_get. by rewrite arr_lookup_nat, Hu0. }
  rewrite Hget, bind_Ret, Nat2Z.id.
  assert (Hh1 : forall c k, c <> x -> glv (<[x:=n1]> h) c k = glv h c k).
  { intros c k Hc. unfold glv. by rewrite lookup_insert_ne. }
  destruct (insert_levels (<[x:=n1]> h) g x update Hg Hu HxC Hh1) as (h2 & Heq & S2 & G2).
  { intros k Hk. unfold glv. rewrite lookup_insert_eq. cbn. rewrite lookup_replicate_2 by lia. by eexists. }
  replace (Z.to_nat (sl_level sl - Z.of_nat g)) with (lvl - g)%nat by lia.
  rewrite <- bind_assoc, Heq, bind_Ret.
  assert (Hx0 : glv h2 x 0 = Some (link C hs t 0)).
  { rewrite G2, decide_True by lia. unfold linked. rewrite Hu0.
    destruct (chain_height _ _ _ _ _ Hch _ _ Hc0) as [ht Hht].
    rewrite Hh1 by (intros ->; apply HxC; by apply list_elem_of_lookup_2 with t).
    rewrite (chain_link _ _ _ _ _ Hch t u0 ht 0) by (done || lia || (pose proof (chain_height_pos _ _ _ _ _ Hch _ _ Hht); lia)).
    rewrite decide_True by done. rewrite Z.sub_diag, Z.sub_0_r. by destruct (link C hs t 0). }
  destruct (insert_backward _ h2 g x u0 n1 ltac:(lia) HxC eq_refl S2 Hc0 Hx0)
    as (h' & tail & -> & -> & G & Sx & Sc & Hdom).
  exists h'. do 3 eexists. split; [reflexivity|]. split; cbn [sl_level sl_header sl_tail sl_length].
  - apply (chain_insert h (<[x:=n1]> h) h' lvl g t C hs l x update score obj); try done; try lia.
    + intros c k. rewrite G. apply G2.
    + intros i c Hc Hi. assert (Hcx : c <> x) by (intros ->; apply HxC; by apply list_elem_of_lookup_2 with i).
      destruct (chain_height _ _ _ _ _ Hch _ _ Hc) as [ht Hht].
      destruct (ch_shape _ _ _ _ _ Hch _ _ _ Hc Hht) as (n & Hn & _). rewrite (Sc c n Hcx Hn), Hn.
      rewrite decide_False; [done|]. intros Hc'. apply Hi. by eapply chain_inj.
    + intros c n Hc Hn. assert (Hcx : c <> x) by (intros ->; apply HxC; by apply list_elem_of_lookup_2 with (S t)).
      by rewrite (Sc c n Hcx Hn), decide_True.
    + rewrite Sx. unfold shape, n1. cbn. by rewrite length_replicate, Nat2Z.id.
  - rewrite lookup_insert_at by lia. apply (rp_header _ _ _ _ _ Hr).
  - rewrite length_insert_at, (rp_tail _ _ _ _ _ Hr). cbn [back].
    rewrite lookup_insert_at by lia. destruct (decide (S t < length C)%nat).
    + rewrite (proj2 (Nat.ltb_ge _ _)), (proj2 (Nat.eqb_neq _ _)) by lia. unfold back.
      destruct (length l) as [|m] eqn:El; [lia|]. cbn. done.
    + replace (S (length l)) with (S t) by lia. by rewrite (proj2 (Nat.ltb_ge _ _)), Nat.eqb_refl by lia.
  - rewrite (rp_length _ _ _ _ _ Hr), length_insert_at. lia.
  - intros c. rewrite Hdom, (rp_dom _ _ _ _ _ Hr). unfold insert_at.
    rewrite elem_of_app, elem_of_cons. rewrite <- (take_drop (S t) C) at 1. rewrite elem_of_app. tauto.
Qed.
End insertion.

(** Insertion keeps the order. *)
Lemma sorted_insert l e :
  sorted l -> elt_ok e -> sorted (insert_at (lead (fun x => elt_ltb x e) l) e l).
Proof.
  intros Hs He. set (t := lead _ l). pose proof (lead_le (fun x => elt_ltb x e) l) as Ht. fold t in Ht.
  assert (Hlead : forall i a, l !! i = Some a -> elt_cmp a e = Lt <-> (i < t)%nat).
  { intros i a Ha. rewrite <- elt_ltb_Lt, (lead_spec _ l i a (initial_ltb l e Hs) Ha). apply Nat.ltb_lt. }
  split.
  - intros i j a b Hij. rewrite !lookup_insert_at by done.
    destruct (Nat.ltb_spec i t), (Nat.eqb_spec i t), (Nat.ltb_spec j t), (Nat.eqb_spec j t); try lia; intros Ha Hb.
    + by apply (so_order _ Hs i j).
    + injection Hb as <-. rewrite (elt_cmp_antisym a), (proj2 (Hlead i a Ha)) by done. done.
    + apply (so_order _ Hs i (j - 1)%nat); [lia|done|done].
    + injection Ha as <-. rewrite (Hlead (j - 1)%nat b Hb). lia.
    + apply (so_order _ Hs (i - 1)%nat (j - 1)%nat); [lia|done|done].
  - intros i a. rewrite lookup_insert_at by done.
    destruct (i <? t)%nat; [apply (so_ok _ Hs)|]. destruct (i =? t)%nat; [by intros [= <-]|]. apply (so_ok _ Hs).
Qed.

(** The empty list. *)
Lemma slCreate_spec h x : h = ∅ ->
  exists sl h', slCreate h x = Ret (h', sl) /\ represents h' sl [x] [32%nat] [].
Proof.
  intros ->. unfold slCreate, alloc. rewrite lookup_empty, bind_Ret. do 2 eexists. split; [reflexivity|]. split; cbn; try done.
  - split; cbn; try done.
    + apply NoDup_singleton.
    + lia.
    + intros [|i] ht Hi; [lia|done].
    + intros [|i] c ht k; [|done]. cbn. intros [= <-] [= <-] Hk. exists (SkiplistLevel None 0).
      unfold glv. rewrite lookup_insert_eq. cbn. split; [by apply lookup_replicate_2|done].
    + intros [|i] c ht; [|done]. cbn. intros [= <-] [= <-]. eexists. by rewrite lookup_insert_eq.
  - intros c. rewrite list_elem_of_singleton. destruct (decide (c = x)) as [->|].
    + rewrite lookup_insert_eq. naive_solver.
    + rewrite lookup_insert_ne, lookup_empty by done. split; [by intros [? ?]|done].
Qed.

(** [slInsert] is insertion before the first element that is not smaller. *)
Lemma slInsert_spec j level x h sl C hs l score obj :
  represents h sl C hs l -> sorted l -> elt_ok (score, obj) ->
  1 <= level <= 32 -> h !! x = None -> Z.of_nat (length l) + 2 < 2 ^ 31 ->
  exists h' sl' C' hs', slInsert j level x h sl score obj = Ret (h', sl') /\
    represents h' sl' C' hs' (insert_at (lead (fun e => elt_ltb e (score, obj)) l) (score, obj) l).
Proof.
  intros Hr Hs Hok Hl Hx Hsm. set (t := lead _ l). pose proof (lead_le (fun e => elt_ltb e (score, obj)) l) as Ht.
  fold t in Ht. unfold slInsert, search.
  destruct (search_update h sl C hs l Hr (fun n _ => before score obj n) u32 t) as (update & -> & Hu).
  { intros i Hi. apply u32_small. lia. }
  { apply (cond_elt h sl C hs l Hr (before score obj) (fun e => elt_ltb e (score, obj)) (initial_ltb _ _ Hs)).
    intros i n s o Hi Hn Ho. apply before_spec; try done. by apply (so_ok _ Hs i). }
  rewrite bind_Ret.
  destruct (insert_raise h sl C hs l t Hr Ht level update Hl Hu)
    as (h1 & update1 & sl1 & -> & Hr1 & Hsh & Hu1 & Hlev & Hhd).
  rewrite bind_Ret. rewrite <- (Z2Nat.id level) by lia.
  apply (insert_link h1 sl1 C hs l t Hr1 Ht j (Z.to_nat level) x update1 score obj); [lia|done| |done].
  specialize (Hsh x). rewrite Hx in Hsh. by destruct (h1 !! x).
Qed.
