(* ===== verification/SkiplistDelete.v ===== *)
(** Deletion from the skip list: the chain without a node, [slDelete],
    [slDeleteByRank] and [slFree] against a list of elements. *)
From Stdlib Require Import SpecFloat.
From S2P Require Import Prelude Skiplist SkiplistOrder SkiplistRepr SkiplistInsert.

#[local] Arguments Nat.ltb : simpl never.

(** ** The chain without its node at index [t + 1] *)

Definition update_at (C : list loc) (hs : list nat) (t m : nat) (update : list (loc * Z)) : Prop :=
  forall k, (k < m)%nat -> exists q c, update !! k = Some (c, Z.of_nat q) /\ C !! q = Some c /\ is_last hs t k q.

(** The index before the removal. *)
Definition shifted (t i : nat) : nat := if (i <=? t)%nat then i else S i.

Lemma shifted_lookup {A} t (y : A) (L : list A) i : (S t <= length L)%nat -> insert_at (S t) y L !! shifted t i = L !! i.
Proof.
  intros HL. unfold shifted. rewrite lookup_insert_at by done. destruct (Nat.leb_spec i t).
  - by rewrite (proj2 (Nat.ltb_lt _ _)) by lia.
  - rewrite (proj2 (Nat.ltb_ge _ _)), (proj2 (Nat.eqb_neq _ _)) by lia. by rewrite Nat.sub_succ, Nat.sub_0_r.
Qed.

Section delete.
Context (h h' : heap) (lvl g t : nat) (C : list loc) (hs : list nat) (l : list elt) (x : loc) (e : elt)
  (update : list (loc * Z)).
Let C' := insert_at (S t) x C.
Let hs' := insert_at (S t) g hs.
Hypothesis Hch : chain h lvl C' hs' (insert_at t e l).
Hypothesis Hlen : length hs = length C.
Hypothesis Hlenl : length C = S (length l).
Hypothesis Ht : (t < length C)%nat.
Hypothesis Hup : update_at C hs t lvl update.

Lemma delete_fresh : x ∉ C.
Proof.
  pose proof (ch_nodup _ _ _ _ _ Hch) as Hnd. unfold C', insert_at in Hnd.
  assert (NoDup (x :: C)) as Hnd2.
  { eapply NoDup_Permutation_proper; [|exact Hnd]. rewrite <- (take_drop (S t) C) at 1. by rewrite Permutation_middle. }
  by apply NoDup_cons in Hnd2 as [? _].
Qed.

Lemma delete_nodup : NoDup C.
Proof.
  pose proof (ch_nodup _ _ _ _ _ Hch) as Hnd. unfold C', insert_at in Hnd.
  assert (NoDup (x :: C)) as Hnd2.
  { eapply NoDup_Permutation_proper; [|exact Hnd]. rewrite <- (take_drop (S t) C) at 1. by rewrite Permutation_middle. }
  by apply NoDup_cons in Hnd2 as [_ ?].
Qed.

Lemma removed_node : C' !! S t = Some x /\ hs' !! S t = Some g.
Proof.
  unfold C', hs'. rewrite !lookup_insert_at by lia. by rewrite (proj2 (Nat.ltb_ge _ _)), Nat.eqb_refl by lia.
Qed.

Lemma removed_height : (1 <= g <= lvl)%nat.
Proof. apply (ch_heights _ _ _ _ _ Hch (S t)); [lia|apply removed_node]. Qed.

(** Level [k] of the node at index [i] of the shorter chain. *)
Lemma kept_level i c ht k : C !! i = Some c -> hs !! i = Some ht -> (k < ht)%nat -> (k < lvl)%nat ->
  glv h c k = Some (link C' hs' (shifted t i) k).
Proof.
  intros Hc Hht Hk Hl. apply (chain_link _ _ _ _ _ Hch (shifted t i) c ht); [| |done|done].
  - by unfold C'; rewrite shifted_lookup by lia.
  - by unfold hs'; rewrite shifted_lookup by lia.
Qed.

(** What the node at [update[k]] holds before. *)
Lemma update_level k q u : (k < lvl)%nat -> C !! q = Some u -> is_last hs t k q ->
  glv h u k = Some (if (k <? g)%nat then SkiplistLevel (Some x) (Z.of_nat t - Z.of_nat q + 1)
    else SkiplistLevel (lv_forward (link C hs q k)) (lv_span (link C hs q k) + 1)).
Proof.
  intros Hk Hu Hq. pose proof Hq as (Hqt & (ht & Hht & Hkh) & _). rewrite (kept_level q u ht k) by done.
  unfold shifted. rewrite (proj2 (Nat.leb_le _ _)) by done. f_equal.
  by apply (link_insert_last C hs t x g Hlen Ht).
Qed.

Lemma removed_level k q : (k < g)%nat -> is_last hs t k q ->
  glv h x k = Some (SkiplistLevel (lv_forward (link C hs q k)) (lv_span (link C hs q k) - (Z.of_nat t - Z.of_nat q))).
Proof.
  intros Hk Hq. pose proof removed_height. destruct removed_node as [H1 H2].
  rewrite (chain_link _ _ _ _ _ Hch (S t) x g k) by (done || lia). f_equal.
  by apply (link_insert_new C hs t x g Hlen Ht).
Qed.

Lemma forward_kept q k : lv_forward (link C hs q k) <> Some x.
Proof.
  unfold link. destruct (first_above k (drop (S q) hs)); cbn; [|done]. intros Hx. apply delete_fresh.
  by apply list_elem_of_lookup_2 in Hx.
Qed.

Lemma span_kept k q : (k < lvl)%nat -> is_last hs t k q -> 0 <= lv_span (link C hs q k) < 2 ^ 31.
Proof.
  intros Hk (Hqt & _). pose proof (ch_small _ _ _ _ _ Hch) as Hs. unfold C' in Hs. rewrite length_insert_at in Hs.
  unfold link. destruct (first_above k (drop (S q) hs)) as [d|] eqn:Hd; cbn [lv_span]; [|lia].
  apply first_above_Some in Hd as (ht & Hd & _). rewrite lookup_drop in Hd. apply lookup_lt_Some in Hd. lia.
Qed.

Lemma delete_unlink :
  exists h1, unlink_levels lvl 0 h x update = Ret h1 /\ range_update (unlinked x update) 0 lvl h h1.
Proof.
  change 0 with (Z.of_nat 0). apply unlink_levels_spec. intros k Hk. destruct (Hup k ltac:(lia)) as (q & u & Hu & Hc & Hq).
  pose proof (span_kept k q ltac:(lia) Hq) as Hs. pose proof Hq as (Hqt & _).
  assert (u <> x). { intros ->. apply delete_fresh. by apply list_elem_of_lookup_2 with q. }
  do 3 eexists. split; [done|]. split; [done|]. split; [exact (update_level k q u ltac:(lia) Hc Hq)|].
  destruct (Nat.ltb_spec k g) as [Hkg|Hkg]; cbn [lv_forward lv_span].
  - rewrite decide_True by done. eexists. split; [exact (removed_level k q Hkg Hq)|]. cbn. lia.
  - rewrite decide_False by apply forward_kept. lia.
Qed.

(** What it holds after. *)
Hypothesis Hglv : forall c k, c ∈ C -> glv h' c k = if decide (k < lvl)%nat then unlinked x update h c k else glv h c k.
Hypothesis Hshape : forall c n, c ∈ C -> h !! c = Some n ->
  shape <$> h' !! c = Some (shape (if decide (C !! S t = Some c) then with_backward n (back C t) else n)).

Lemma delete_links i c ht k : C !! i = Some c -> hs !! i = Some ht -> (k < ht)%nat ->
  exists lv, glv h' c k = Some lv /\ lv_forward lv = lv_forward (link C hs i k) /\
    ((k < lvl)%nat -> lv = link C hs i k).
Proof.
  intros Hc Hht Hk. rewrite Hglv by (by apply list_elem_of_lookup_2 with i).
  destruct (decide (k < lvl)%nat) as [Hkl|Hkl].
  - exists (link C hs i k). split; [|done]. destruct (Hup k Hkl) as (q & u & Hu & Hcu & Hq).
    unfold unlinked. rewrite Hu. destruct (decide (c = u)) as [->|Hcu2].
    + assert (i = q) as -> by (eapply NoDup_lookup; [apply delete_nodup|done|done]).
      rewrite (update_level k q u) by done. cbn [mbind option_bind].
      destruct (Nat.ltb_spec k g) as [Hkg|Hkg]; cbn [lv_forward lv_span].
      * rewrite decide_True by done. rewrite (removed_level k q Hkg Hq). cbn. f_equal.
        destruct (link C hs q k); cbn. f_equal. lia.
      * rewrite decide_False by apply forward_kept. f_equal. destruct (link C hs q k); cbn. f_equal. lia.
    + rewrite (kept_level i c ht k) by done. f_equal. unfold shifted. destruct (Nat.leb_spec i t).
      * apply (link_insert_other C hs t x g Hlen Ht i ht); [done|done|done|]. intros Hi. apply Hcu2.
        rewrite (is_last_unique _ _ _ _ _ Hi Hq) in Hc. congruence.
      * by apply (link_insert_after C hs t x g Hlen Ht).
  - destruct (ch_links _ _ _ _ _ Hch (shifted t i) c ht k) as (lv & Hlv & Hf & _); [..|done|].
    + by unfold C'; rewrite shifted_lookup by lia.
    + by unfold hs'; rewrite shifted_lookup by lia.
    + exists lv. split; [done|]. split; [|lia]. rewrite Hf, (link_high _ _ _ _ _ Hch) by lia.
      unfold link. rewrite (proj2 (first_above_None _ _)); [done|]. rewrite Forall_forall.
      intros y (j & Hj & Hj1)%elem_of_drop.
      assert (y <= lvl)%nat; [|lia]. apply (ch_heights _ _ _ _ _ Hch (shifted t j)).
      * unfold shifted. destruct (j <=? t)%nat; lia.
      * by unfold hs'; rewrite shifted_lookup by lia.
Qed.

Lemma delete_shape i c ht : C !! i = Some c -> hs !! i = Some ht ->
  exists n, h' !! c = Some n /\ length (sn_level n) = ht /\
    match i with
    | O => sn_obj n = None
    | S i' => exists s o, l !! i' = Some (s, o) /\ sn_score n = s /\ sn_obj n = Some o /\
        sn_backward n = match i' with O => None | _ => C !! i' end
    end.
Proof.
  intros Hc Hht. destruct (ch_shape _ _ _ _ _ Hch (shifted t i) c ht) as (n & Hn & Hln & Hi).
  { by unfold C'; rewrite shifted_lookup by lia. }
  { by unfold hs'; rewrite shifted_lookup by lia. }
  pose proof (Hshape c n ltac:(by apply list_elem_of_lookup_2 with i) Hn) as Hs.
  destruct (h' !! c) as [n'|]; [|done]. exists n'. split; [done|].
  assert (E : shape n' = shape (if decide (i = S t) then with_backward n (back C t) else n)).
  { change (Some (shape n') = Some (shape (if decide (C !! S t = Some c) then with_backward n (back C t) else n))) in Hs.
    apply (inj Some) in Hs. rewrite Hs. destruct (decide (i = S t)) as [->|Hne].
    - by rewrite decide_True.
    - rewrite decide_False; [done|]. intros Hc2. apply Hne.
      eapply NoDup_lookup; [apply delete_nodup|done|done]. }
  destruct i as [|i].
  { rewrite decide_False in E by lia. injection E as E1 E2 E3 E4. unfold shifted in Hi. cbn in Hi.
    split; [congruence|congruence]. }
  unfold shifted in Hi. destruct (Nat.leb_spec (S i) t) as [Hit|Hit].
  - destruct Hi as (s & o & Hl & H1 & H2 & H3). rewrite decide_False in E by lia. injection E as E1 E2 E3 E4.
    split; [congruence|]. exists s, o. rewrite lookup_insert_at, (proj2 (Nat.ltb_lt _ _)) in Hl by lia.
    split; [done|]. split; [congruence|]. split; [congruence|]. rewrite E3, H3. destruct i; [done|].
    unfold C'. rewrite lookup_insert_at by lia. by rewrite (proj2 (Nat.ltb_lt _ _)) by lia.
  - destruct Hi as (s & o & Hl & H1 & H2 & H3).
    rewrite lookup_insert_at, (proj2 (Nat.ltb_ge _ _)), (proj2 (Nat.eqb_neq _ _)) in Hl by lia.
    cbn [Nat.sub] in Hl. rewrite Nat.sub_0_r in Hl.
    destruct (decide (S i = S t)) as [Hi|Hi]; injection E as E1 E2 E3 E4; (split; [congruence|]; exists s, o;
      split; [done|]; split; [congruence|]; split; [congruence|]).
    + rewrite E3. unfold back. by injection Hi as ->.
    + rewrite E3, H3. destruct i; [lia|]. unfold C'. rewrite lookup_insert_at by lia.
      rewrite (proj2 (Nat.ltb_ge _ _)), (proj2 (Nat.eqb_neq _ _)) by lia. cbn [Nat.sub]. done.
Qed.

Lemma chain_delete : chain h' lvl C hs l.
Proof.
  pose proof (ch_small _ _ _ _ _ Hch) as Hs. unfold C' in Hs. rewrite length_insert_at in Hs. split.
  - apply delete_nodup.
  - done.
  - done.
  - lia.
  - apply (ch_lvl _ _ _ _ _ Hch).
  - rewrite <- (ch_header _ _ _ _ _ Hch). unfold hs'. rewrite lookup_insert_at by lia. done.
  - intros i ht Hi Hht. apply (ch_heights _ _ _ _ _ Hch (shifted t i)).
    + unfold shifted. destruct (i <=? t)%nat; lia.
    + by unfold hs'; rewrite shifted_lookup by lia.
  - apply delete_links.
  - apply delete_shape.
Qed.
End delete.

(** ** Lowering the number of levels *)

Lemma lower_level_spec fuel : forall (h h0 : heap) lvl C hs l header,
  chain h lvl C hs l -> C !! O = Some header -> (forall k, glv h0 header k = glv h header k) -> (lvl <= S fuel)%nat ->
  exists lvl', lower_level fuel h0 header (Z.of_nat lvl) = Ret (Z.of_nat lvl') /\ (1 <= lvl' <= lvl)%nat /\
    chain h lvl' C hs l.
Proof.
  induction fuel as [|fuel IH]; intros h h0 lvl C hs l header Hch Hhd Hg Hf;
    pose proof (ch_lvl _ _ _ _ _ Hch); cbn [lower_level].
  { rewrite (proj2 (Z.ltb_ge 1 _)) by lia. exists lvl. split; [done|]. split; [lia|done]. }
  destruct (Z.ltb_spec 1 (Z.of_nat lvl)); [|exists lvl; split; [done|]; split; [lia|done]].
  replace (Z.of_nat lvl - 1) with (Z.of_nat (lvl - 1)) by lia.
  pose proof (chain_link _ _ _ _ _ Hch 0 header 32 (lvl - 1) Hhd (ch_header _ _ _ _ _ Hch) ltac:(lia) ltac:(lia)) as Hlv.
  rewrite <- Hg in Hlv. rewrite (get_level_glv _ _ _ _ Hlv), bind_Ret.
  destruct (decide (lv_forward (link C hs 0 (lvl - 1)) = None)) as [Hn|]; [|exists lvl; split; [done|]; split; [lia|done]].
  destruct (IH h h0 (lvl - 1)%nat C hs l header) as (lvl' & ? & ? & ?); [|done|done|lia|exists lvl'; split; [done|]; split; [lia|done]].
  assert (Hall : forall i ht, (1 <= i)%nat -> hs !! i = Some ht -> (ht <= lvl - 1)%nat).
  { unfold link in Hn. destruct (first_above (lvl - 1) (drop 1 hs)) as [d|] eqn:Hd; cbn [lv_forward] in Hn.
    - apply first_above_Some in Hd as (ht & Hd & _). rewrite lookup_drop in Hd.
      destruct (chain_index _ _ _ _ _ Hch _ _ Hd) as [c Hc]. congruence.
    - apply first_above_None in Hd. rewrite Forall_forall in Hd. intros i ht Hi Hht.
      apply Hd, elem_of_drop. exists i. split; [done|lia]. }
  destruct Hch as [H1 H2 H3 H4 H5 H6 H7 H8 H9]. split; try done; [lia| |].
  - intros i ht Hi Hht. specialize (H7 i ht Hi Hht). specialize (Hall i ht Hi Hht). lia.
  - intros i c ht k Hc Hht Hk. destruct (H8 i c ht k Hc Hht Hk) as (lv & ? & ? & Hlk).
    exists lv. split; [done|]. split; [done|]. intros. apply Hlk. lia.
Qed.

(** ** [slDeleteNode] *)

Section delete_node.
Context (h : heap) (sl : skiplist) (g t : nat) (C : list loc) (hs : list nat) (l : list elt) (x : loc) (e : elt)
  (update : list (loc * Z)).
Let C' := insert_at (S t) x C.
Let hs' := insert_at (S t) g hs.
Let lvl := Z.to_nat (sl_level sl).
Hypothesis Hr : represents h sl C' hs' (insert_at t e l).
Hypothesis Hlen : length hs = length C.
Hypothesis Hlenl : length C = S (length l).
Hypothesis Ht : (t <= length l)%nat.
Hypothesis Hup : update_at C hs t lvl update.
Let Hch := rp_chain _ _ _ _ _ Hr.

Lemma removed_content : exists n, h !! x = Some n /\ sn_obj n = Some e.2 /\ sn_score n = e.1 /\ sn_backward n = back C t.
Proof.
  destruct (removed_node g t C hs l x Hlen Hlenl ltac:(lia)) as [H1 H2].
  destruct (ch_shape _ _ _ _ _ Hch (S t) x g H1 H2) as (n & Hn & _ & s & o & Hl & E1 & E2 & E3).
  rewrite lookup_insert_at, (proj2 (Nat.ltb_ge _ _)), Nat.eqb_refl in Hl by lia. injection Hl as ->.
  exists n. split; [done|]. split; [done|]. split; [done|]. rewrite E3. unfold back. destruct t; [done|].
  unfold C'. rewrite lookup_insert_at by lia. by rewrite (proj2 (Nat.ltb_lt _ _)) by lia.
Qed.

Lemma removed_next : glv h x 0 = Some (SkiplistLevel (C !! S t) (if decide (S t < length C)%nat then 1 else 0)).
Proof.
  destruct (removed_node g t C hs l x Hlen Hlenl ltac:(lia)) as [H1 H2].
  pose proof (chain_height_pos _ _ _ _ _ Hch _ _ H2). pose proof (ch_lvl _ _ _ _ _ Hch).
  rewrite (chain_link _ _ _ _ _ Hch (S t) x g 0) by (done || lia). f_equal.
  rewrite (link_zero _ _ _ _ _ Hch) by (unfold C'; rewrite length_insert_at; lia). f_equal.
  - unfold C'. rewrite lookup_insert_at by lia. by rewrite (proj2 (Nat.ltb_ge _ _)), (proj2 (Nat.eqb_neq _ _)) by lia.
  - unfold C'. rewrite length_insert_at. by destruct (decide (S t < length C)%nat), (decide (S (S t) < S (length C))%nat); try lia.
Qed.

(** The backward pointer of the next node, or the tail. *)
Lemma delete_backward (h1 : heap) : same_shape h h1 ->
  exists h2, (match C !! S t with
      | Some f => h ← set_backward h1 f (back C t); Ret (h, sl_tail sl)
      | None => Ret (h1, back C t) end) = Ret (h2, back C (length l)) /\
    (forall c k, glv h2 c k = glv h1 c k) /\ h2 !! x = h1 !! x /\
    (forall c n, c ∈ C -> h !! c = Some n ->
       shape <$> h2 !! c = Some (shape (if decide (C !! S t = Some c) then with_backward n (back C t) else n))) /\
    (forall c, is_Some (h2 !! c) <-> is_Some (h !! c)).
Proof.
  intros S1. destruct (C !! S t) as [f|] eqn:Hf.
  - pose proof (lookup_lt_Some _ _ _ Hf) as Hlt.
    pose proof (shifted_lookup t x C (S t) ltac:(lia)) as Hf'. unfold shifted in Hf'.
    rewrite (proj2 (Nat.leb_gt _ _)), Hf in Hf' by lia.
    assert (Hfn : is_Some (h1 !! f)).
    { apply (same_shape_Some h h1 f S1). apply (rp_dom _ _ _ _ _ Hr). by apply list_elem_of_lookup_2 with (S (S t)). }
    destruct Hfn as [nf Hnf]. destruct (set_backward_spec h1 f nf (back C t) Hnf) as (h2 & Hset & G2 & S2).
    exists h2. rewrite Hset, bind_Ret. split; [|split; [done|split; [|split]]].
    + rewrite (rp_tail _ _ _ _ _ Hr), length_insert_at. unfold back, C'. rewrite lookup_insert_at by lia.
      rewrite (proj2 (Nat.ltb_ge _ _)), (proj2 (Nat.eqb_neq _ _)) by lia. destruct (length l) eqn:El; [lia|done].
    + unfold set_backward in Hset. rewrite Hnf in Hset. cbn in Hset. injection Hset as <-.
      apply lookup_insert_ne. intros ->. apply (delete_fresh _ _ _ _ _ _ _ _ _ Hch).
      by apply list_elem_of_lookup_2 with (S t).
    + intros c nc Hc Hnc. rewrite S2. pose proof (S1 c) as Sc. rewrite Hnc in Sc.
      destruct (decide (c = f)) as [->|]; [|by rewrite decide_False by congruence].
      rewrite decide_True by done. rewrite Hnf in Sc. cbn in Sc. injection Sc as F1 F2 F3 F4.
      unfold shape, with_backward. cbn. congruence.
    + intros c. rewrite <- (same_shape_Some h h1 c S1), <- (fmap_is_Some shape), S2.
      destruct (decide (c = f)) as [->|]; [|by rewrite fmap_is_Some]. rewrite Hnf. naive_solver.
  - apply lookup_ge_None_1 in Hf. exists h1. split; [by replace t with (length l) by lia|].
    split; [done|]. split; [done|]. split; [|intros c; by apply same_shape_Some].
    intros c nc Hc Hnc. rewrite decide_False by done. by rewrite (S1 c), Hnc.
Qed.

Lemma slDeleteNode_spec :
  exists h' sl' n, slDeleteNode h sl x update = Ret (h', sl') /\ h' !! x = Some n /\ sn_obj n = Some e.2 /\
    represents (delete x h') sl' C hs l /\ sl_header sl' = sl_header sl /\ (Z.to_nat (sl_level sl') <= lvl)%nat.
Proof.
  pose proof (delete_fresh h lvl g t C hs l x e Hch) as Hx. pose proof (ch_lvl _ _ _ _ _ Hch) as Hlvl.
  destruct removed_content as (n & Hn & Ho & _ & Hb).
  destruct (delete_unlink h lvl g t C hs l x e update Hch Hlen Hlenl ltac:(lia) Hup) as (h1 & Heq & S1 & G1).
  unfold slDeleteNode. fold lvl. rewrite Heq, bind_Ret.
  pose proof (S1 x) as Sx. rewrite Hn in Sx. destruct (h1 !! x) as [n1|] eqn:Hn1; [|done].
  cbn in Sx. injection Sx as E1 E2 E3 E4. cbn [deref]. rewrite bind_Ret.
  change (get_level h1 x 0) with (get_level h1 x (Z.of_nat 0)).
  assert (Hx1 : glv h1 x 0 = glv h x 0).
  { rewrite G1, decide_True by lia. unfold unlinked. destruct (Hup 0%nat ltac:(lia)) as (q & u & -> & Hu & _).
    rewrite decide_False; [done|]. intros ->. apply Hx. by apply list_elem_of_lookup_2 with q. }
  rewrite removed_next in Hx1. rewrite (get_level_glv _ _ _ _ Hx1), bind_Ret. cbn [lv_forward].
  assert (Hhd : C !! O = Some (sl_header sl)).
  { rewrite <- (rp_header _ _ _ _ _ Hr). unfold C'. by rewrite lookup_insert_at by lia. }
  rewrite E3, Hb. destruct (delete_backward h1 S1) as (h2 & -> & G2 & Hx2 & Sc & Hdom). rewrite bind_Ret.
  assert (Hne : forall c, c ∈ C -> c <> x) by (intros c Hc ->; done).
  assert (Hd : chain (delete x h2) lvl C hs l).
  { apply (chain_delete h _ lvl g t C hs l x e update); try done; try lia.
    - intros c k Hc. unfold glv at 1. rewrite lookup_delete_ne by (intros ->; done). fold (glv h2 c k).
      rewrite G2, G1. by destruct (decide (k < lvl)%nat), (decide (0 <= k < 0 + lvl)%nat); try lia.
    - intros c nc Hc Hnc. rewrite lookup_delete_ne by (intros ->; done). by apply Sc. }
  destruct (lower_level_spec lvl (delete x h2) h2 lvl C hs l (sl_header sl) Hd Hhd)
    as (lvl' & Hlow & Hl' & Hd'); [|lia|].
  { intros k. unfold glv. rewrite lookup_delete_ne; [done|].
    apply not_eq_sym, Hne. by apply list_elem_of_lookup_2 with O. }
  replace (Z.of_nat lvl) with (sl_level sl) in Hlow by lia. rewrite Hlow, bind_Ret.
  exists h2. do 2 eexists. split; [reflexivity|]. cbn [sl_level sl_header].
  split; [by rewrite Hx2|]. split; [congruence|]. split; [|split; [done|lia]].
  split; cbn [sl_level sl_header sl_tail sl_length]; [by rewrite Nat2Z.id|done|done| |].
  - rewrite (rp_length _ _ _ _ _ Hr), length_insert_at. lia.
  - intros c. rewrite lookup_delete_is_Some, Hdom, (rp_dom _ _ _ _ _ Hr). unfold C', insert_at.
    rewrite elem_of_app, elem_of_cons. rewrite <- (take_drop (S t) C) at 3. rewrite elem_of_app.
    rewrite <- (take_drop (S t) C), elem_of_app in Hx. naive_solver.
Qed.
End delete_node.

(** ** Removing from the list of elements *)

Definition remove_at {A} (t : nat) (l : list A) : list A := take t l ++ drop (S t) l.

Lemma insert_remove {A} t (e : A) l : l !! t = Some e -> insert_at t e (remove_at t l) = l.
Proof.
  intros Hl. pose proof (lookup_lt_Some _ _ _ Hl). unfold insert_at, remove_at.
  rewrite take_app_le, drop_app_ge by (rewrite length_take; lia). rewrite length_take, Nat.min_l by lia.
  rewrite take_take, Nat.min_id, Nat.sub_diag, drop_0. by apply take_drop_middle.
Qed.

Lemma length_remove {A} t (l : list A) : (t < length l)%nat -> length (remove_at t l) = pred (length l).
Proof. intros. unfold remove_at. rewrite length_app, length_take, length_drop. lia. Qed.

Lemma lookup_cut {A} a b (l : list A) i x : (a <= b)%nat -> (take a l ++ drop b l) !! i = Some x ->
  l !! (if (i <? a)%nat then i else i + (b - a))%nat = Some x.
Proof.
  intros Hab. destruct (decide (i < length (take a l))%nat) as [Hi|Hi].
  - rewrite lookup_app_l by done. rewrite length_take in Hi. rewrite lookup_take_lt by lia.
    by rewrite (proj2 (Nat.ltb_lt _ _)) by lia.
  - rewrite lookup_app_r by lia. rewrite length_take in *. rewrite lookup_drop. intros Hx.
    pose proof (lookup_lt_Some _ _ _ Hx). rewrite Nat.min_l in Hx by lia.
    rewrite (proj2 (Nat.ltb_ge _ _)) by lia. rewrite <- Hx. f_equal. lia.
Qed.

Lemma sorted_cut a b l : (a <= b)%nat -> sorted l -> sorted (take a l ++ drop b l).
Proof.
  intros Hab Hs. split.
  - intros i j x y Hij Hx%lookup_cut Hy%lookup_cut; [|done..].
    eapply (so_order _ Hs _ _ x y); [|exact Hx|exact Hy].
    destruct (Nat.ltb_spec i a), (Nat.ltb_spec j a); lia.
  - intros i x Hx%lookup_cut; [|done]. by apply (so_ok _ Hs) in Hx.
Qed.

(** ** Removing the node after the walk *)

Lemma arr_get_0 {A} (a : list A) x : a !! O = Some x -> arr_get a 0 = Ret x.
Proof. by destruct a; [|intros [= ->]]. Qed.

Section remove.
Context (h : heap) (sl : skiplist) (t : nat) (C : list loc) (hs : list nat) (l : list elt)
  (update : list (loc * Z)).
Hypothesis Hr : represents h sl C hs l.
Let lvl := Z.to_nat (sl_level sl).
Hypothesis Hup : update_at C hs t lvl update.
Hypothesis Ht : (t <= length l)%nat.
Let Hch := rp_chain _ _ _ _ _ Hr.

Lemma after_update_spec : after_update h update = Ret (C !! S t) /\
  exists u, update !! O = Some (u, Z.of_nat t).
Proof.
  pose proof (ch_lvl _ _ _ _ _ Hch). pose proof (ch_elts _ _ _ _ _ Hch) as He.
  destruct (Hup O ltac:(lia)) as (q & u & Hu & Hc & Hq).
  assert (q = t) as -> by (eapply is_last_zero; [exact Hch|lia|done]).
  split; [|eauto]. unfold after_update. rewrite (arr_get_0 _ _ Hu), bind_Ret.
  destruct Hq as (_ & (ht & Hht & _) & _). pose proof (chain_height_pos _ _ _ _ _ Hch _ _ Hht).
  pose proof (chain_link _ _ _ _ _ Hch t u ht 0 Hc Hht ltac:(lia) ltac:(lia)) as Hlk.
  change (get_level h u 0) with (get_level h u (Z.of_nat 0)).
  rewrite (get_level_glv _ _ _ _ Hlk), bind_Ret, (link_zero _ _ _ _ _ Hch) by lia. done.
Qed.

Lemma update_at_removed x g : C !! S t = Some x -> hs !! S t = Some g ->
  update_at (remove_at (S t) C) (remove_at (S t) hs) t lvl update.
Proof.
  intros Hx Hg k Hk. destruct (Hup k Hk) as (q & u & Hu & Hc & Hq). exists q, u. split; [done|].
  pose proof Hq as (Hqt & _). pose proof (lookup_lt_Some _ _ _ Hx). pose proof (lookup_lt_Some _ _ _ Hg).
  split; [unfold remove_at; rewrite lookup_app_l by (rewrite length_take; lia); by rewrite lookup_take_lt by lia|].
  rewrite <- (insert_remove (S t) g hs Hg) in Hq.
  eapply (is_last_insert (remove_at (S t) C) (remove_at (S t) hs) t g) in Hq; [done|..];
    rewrite !length_remove by lia; [|lia]. by rewrite (ch_length _ _ _ _ _ Hch).
Qed.

Lemma remove_node x s o : C !! S t = Some x -> l !! t = Some (s, o) ->
  exists h' sl' n C' hs', slDeleteNode h sl x update = Ret (h', sl') /\ h' !! x = Some n /\ sn_obj n = Some o /\
    represents (delete x h') sl' C' hs' (remove_at t l) /\ update_at C' hs' t (Z.to_nat (sl_level sl')) update /\
    C' !! S t = C !! S (S t).
Proof.
  intros Hx Hl. destruct (chain_height _ _ _ _ _ Hch _ _ Hx) as [g Hg].
  pose proof (update_at_removed x g Hx Hg) as Hu'.
  pose proof (ch_length _ _ _ _ _ Hch) as Hlen. pose proof (ch_elts _ _ _ _ _ Hch) as He.
  pose proof (lookup_lt_Some _ _ _ Hx) as Hxl. pose proof (lookup_lt_Some _ _ _ Hl) as Hll.
  pose proof Hr as Hr0. rewrite <- (insert_remove (S t) x C Hx), <- (insert_remove (S t) g hs Hg), <- (insert_remove t (s, o) l Hl) in Hr0.
  destruct (slDeleteNode_spec h sl g t (remove_at (S t) C) (remove_at (S t) hs) (remove_at t l) x (s, o) update Hr0)
    as (h' & sl' & n & H1 & H2 & H3 & H4 & H5 & H6).
  - rewrite !length_remove by lia. lia.
  - rewrite !length_remove by lia. lia.
  - rewrite length_remove by lia. lia.
  - done.
  - exists h', sl', n. do 2 eexists. split; [done|]. split; [done|]. split; [done|]. split; [done|].
    split; [intros k Hk; apply Hu'; unfold lvl; lia|].
    unfold remove_at. rewrite lookup_app_r by (rewrite length_take; lia). rewrite length_take, Nat.min_l by lia.
    rewrite Nat.sub_diag, lookup_drop. f_equal. lia.
Qed.
End remove.

(** ** [slDelete] *)

Definition elt_eqb (a b : elt) : bool := match elt_cmp a b with Eq => true | _ => false end.

Lemma match_spec n s o score obj :
  sn_score n = s -> sn_obj n = Some o -> elt_ok (s, o) -> elt_ok (score, obj) ->
  (if SFeqb score (sn_score n) then o ← deref (sn_obj n); Ret (equalslObj o obj) else Ret false)
  = Ret (elt_eqb (s, o) (score, obj)).
Proof.
  intros Hs Ho [O1 S1] [O2 S2]. unfold elt_eqb, elt_cmp, SFeqb. cbn in *.
  rewrite Hs, Ho, SFcompare_key, (lex3_antisym (double_key s)) by done.
  destruct (lex3 _ _); [|done..]. cbn. f_equal. rewrite equalslObj_spec by done.
  pose proof (strcmp_eq o obj) as He. destruct (bool_decide_reflect (o = obj)) as [->|Hne].
  - by rewrite (proj2 He eq_refl).
  - destruct (Z.compare_spec (strcmp o obj) 0); tauto.
Qed.

(** The first element that is not smaller is removed if it is equal. *)
Lemma slDelete_spec h sl C hs l score obj :
  represents h sl C hs l -> sorted l -> elt_ok (score, obj) ->
  let t := lead (fun e => elt_ltb e (score, obj)) l in
  let found := match l !! t with Some e => elt_eqb e (score, obj) | None => false end in
  exists h' sl' C' hs', slDelete h sl score obj = Ret (found, h', sl') /\
    represents h' sl' C' hs' (if found then remove_at t l else l).
Proof.
  intros Hr Hs Hok t found. pose proof (lead_le (fun e => elt_ltb e (score, obj)) l) as Ht. fold t in Ht.
  pose proof (rp_chain _ _ _ _ _ Hr) as Hch. pose proof (ch_elts _ _ _ _ _ Hch) as He.
  unfold slDelete, search.
  destruct (search_update h sl C hs l Hr (fun n _ => before score obj n) u32 t) as (update & -> & _ & Hu).
  { intros i Hi. apply u32_small. lia. }
  { apply (cond_elt h sl C hs l Hr (before score obj) (fun e => elt_ltb e (score, obj)) (initial_ltb _ _ Hs)).
    intros i n s o Hi Hn Ho. apply before_spec; try done. by apply (so_ok _ Hs i). }
  rewrite bind_Ret. destruct (after_update_spec h sl t C hs l update Hr Hu Ht) as [-> _]. rewrite bind_Ret.
  destruct (C !! S t) as [x|] eqn:Hx.
  2: { apply lookup_ge_None_1 in Hx. subst found. rewrite lookup_ge_None_2 by lia. by exists h, sl, C, hs. }
  destruct (chain_height _ _ _ _ _ Hch _ _ Hx) as [g Hg].
  destruct (ch_shape _ _ _ _ _ Hch (S t) x g Hx Hg) as (n & Hn & _ & s & o & Hl & E1 & E2 & _).
  rewrite Hn. cbn [deref]. rewrite bind_Ret, (match_spec n s o) by (done || by apply (so_ok _ Hs t)).
  rewrite bind_Ret. subst found. rewrite Hl. destruct (elt_eqb (s, o) (score, obj)); [|by exists h, sl, C, hs].
  destruct (remove_node h sl t C hs l update Hr Hu Ht x s o Hx Hl) as (h' & sl' & n' & C' & hs' & -> & Hn' & Ho & Hr' & _).
  rewrite bind_Ret. unfold slFreeNode. rewrite Hn'. cbn [deref]. rewrite bind_Ret, Ho. cbn [deref].
  rewrite !bind_Ret. by exists (delete x h'), sl', C', hs'.
Qed.

(** ** [slDeleteByRank] *)

Lemma delete_rank_spec fuel : forall h sl t C hs l update traversed end_,
  represents h sl C hs l -> update_at C hs t (Z.to_nat (sl_level sl)) update -> (t <= length l <= t + fuel)%nat ->
  0 <= traversed -> traversed + Z.of_nat (length l) < 2 ^ 63 ->
  let m := Nat.min (Z.to_nat (end_ + 1 - traversed)) (length l - t) in
  exists h' sl' C' hs', delete_rank_loop fuel h sl (C !! S t) traversed end_ update
    = Ret ((take m (drop t l)).*2, h', sl') /\ represents h' sl' C' hs' (take t l ++ drop (t + m) l).
Proof.
  induction fuel as [|fuel IH]; intros h sl t C hs l update traversed end_ Hr Hu Ht Htr Hbig m;
    pose proof (rp_chain _ _ _ _ _ Hr) as Hch; pose proof (ch_elts _ _ _ _ _ Hch) as He.
  - assert (Hnone : C !! S t = None) by (apply lookup_ge_None_2; lia). rewrite Hnone. cbn [delete_rank_loop].
    replace m with O by lia. rewrite Nat.add_0_r, take_drop. by exists h, sl, C, hs.
  - destruct (C !! S t) as [x|] eqn:Hx; cbn [delete_rank_loop].
    2: { apply lookup_ge_None_1 in Hx. replace m with O by lia. rewrite Nat.add_0_r, take_drop. by exists h, sl, C, hs. }
    pose proof (lookup_lt_Some _ _ _ Hx).
    destruct (Z.ltb_spec end_ traversed).
    { replace m with O by lia. rewrite Nat.add_0_r, take_drop. by exists h, sl, C, hs. }
    destruct (lookup_lt_is_Some_2 l t ltac:(lia)) as [[s o] Hl].
    destruct (chain_height _ _ _ _ _ Hch _ _ Hx) as [g Hg]. pose proof (chain_height_pos _ _ _ _ _ Hch _ _ Hg).
    pose proof (ch_lvl _ _ _ _ _ Hch) as Hlv.
    pose proof (chain_link _ _ _ _ _ Hch (S t) x g 0 Hx Hg ltac:(lia) ltac:(lia)) as Hlk.
    change (get_level h x 0) with (get_level h x (Z.of_nat 0)). rewrite (get_level_glv _ _ _ _ Hlk), bind_Ret.
    destruct (remove_node h sl t C hs l update Hr Hu ltac:(lia) x s o Hx Hl)
      as (h' & sl' & n' & C' & hs' & -> & Hn' & Ho & Hr' & Hu' & Hnext).
    rewrite bind_Ret, Hn'. cbn [deref]. rewrite bind_Ret, Ho. cbn [deref]. rewrite bind_Ret.
    unfold slFreeNode. rewrite Hn'. cbn [deref]. rewrite bind_Ret, Ho. cbn [deref]. rewrite !bind_Ret.
    rewrite (link_zero _ _ _ _ _ Hch) by lia. cbn [lv_forward]. rewrite <- Hnext, u64_small by lia.
    destruct (IH (delete x h') sl' t C' hs' (remove_at t l) update (traversed + 1) end_ Hr' Hu')
      as (h2 & sl2 & C2 & hs2 & -> & Hr2); [rewrite length_remove by lia; lia|lia|rewrite length_remove by lia; lia|].
    rewrite bind_Ret. exists h2, sl2, C2, hs2. rewrite length_remove in * by lia.
    set (m' := Nat.min (Z.to_nat (end_ + 1 - (traversed + 1))) (pred (length l) - t)) in *.
    assert (m = S m') as -> by lia.
    assert (Hd : drop t (remove_at t l) = drop (S t) l).
    { unfold remove_at. rewrite drop_app_ge by (rewrite length_take; lia). rewrite length_take, Nat.min_l by lia.
      by rewrite Nat.sub_diag, drop_0. }
    split.
    + rewrite Hd, (drop_S l _ _ Hl). done.
    + assert (E : take t (remove_at t l) ++ drop (t + m') (remove_at t l) = take t l ++ drop (t + S m') l); [|by rewrite <- E].
      f_equal.
      * unfold remove_at. rewrite take_app_le by (rewrite length_take; lia). rewrite take_take. f_equal. lia.
      * rewrite <- drop_drop, Hd, drop_drop. f_equal. lia.
Qed.

(** The elements of ranks [start] to [end], both included and from 1. *)
Lemma slDeleteByRank_spec h sl C hs l start end_ :
  represents h sl C hs l -> 0 <= start < 2 ^ 32 -> 0 <= end_ < 2 ^ 32 ->
  let a := Z.to_nat (start - 1) in let b := Nat.max a (Z.to_nat end_) in
  exists h' sl' C' hs', slDeleteByRank h sl start end_ = Ret ((take (b - a) (drop a l)).*2, h', sl') /\
    represents h' sl' C' hs' (take a l ++ drop b l).
Proof.
  intros Hr Hst Hen a b. pose proof (rp_chain _ _ _ _ _ Hr) as Hch. pose proof (ch_elts _ _ _ _ _ Hch) as He.
  pose proof (ch_small _ _ _ _ _ Hch) as Hsm. set (t := Nat.min a (length l)). unfold slDeleteByRank.
  destruct (search_update h sl C hs l Hr (fun _ acc => Ret (acc <? start)) u64 t) as (update & -> & _ & Hu).
  { intros i Hi. apply u64_small. lia. }
  { intros i c n Hi Hc _. apply lookup_lt_Some in Hc. f_equal.
    destruct (Z.ltb_spec (Z.of_nat i) start), (Nat.leb_spec i t); lia. }
  rewrite bind_Ret. destruct (after_update_spec h sl t C hs l update Hr Hu ltac:(lia)) as [-> [u Hu0]].
  rewrite bind_Ret, (arr_get_0 _ _ Hu0), bind_Ret, u64_small by lia. rewrite (rp_length _ _ _ _ _ Hr), Nat2Z.id.
  destruct (delete_rank_spec (length l) h sl t C hs l update (Z.of_nat t + 1) end_ Hr Hu)
    as (h' & sl' & C' & hs' & -> & Hr'); [lia..|].
  exists h', sl', C', hs'. set (m := Nat.min (Z.to_nat (end_ + 1 - (Z.of_nat t + 1))) (length l - t)) in *. split.
  - do 4 f_equal. destruct (decide (a <= length l)%nat).
    + replace t with a by lia. destruct (decide (b - a <= length l - a)%nat); [f_equal; lia|].
      rewrite !take_ge by (rewrite length_drop; lia). done.
    + rewrite !drop_ge by lia. by rewrite !take_nil.
  - assert (E : take t l ++ drop (t + m) l = take a l ++ drop b l); [|by rewrite <- E].
    destruct (decide (a <= length l)%nat).
    + replace t with a by lia. f_equal. destruct (decide (b <= length l)%nat); [f_equal; lia|].
      rewrite !drop_ge by lia. done.
    + rewrite !take_ge, !drop_ge by lia. done.
Qed.

(** ** [slFree] *)

Lemma free_spec fuel : forall h0 h sl C hs l i,
  represents h0 sl C hs l -> (forall c, c ∈ drop i C -> h !! c = h0 !! c) ->
  (forall c, is_Some (h !! c) -> c ∈ drop i C) -> (1 <= i)%nat -> (length C <= i + fuel)%nat ->
  free_loop fuel h (C !! i) = Ret ∅.
Proof.
  induction fuel as [|fuel IH]; intros h0 h sl C hs l i Hr Heq Hdom Hi Hf;
    pose proof (rp_chain _ _ _ _ _ Hr) as Hch; (destruct (C !! i) as [x|] eqn:Hx; cbn [free_loop]).
  1: apply lookup_lt_Some in Hx; lia.
  1, 3: f_equal; apply map_eq; intros c; rewrite lookup_empty; destruct (h !! c) eqn:Hc; [|done];
    specialize (Hdom c ltac:(by eexists)); apply lookup_ge_None_1 in Hx; rewrite drop_ge in Hdom by done;
    by apply elem_of_nil in Hdom.
  pose proof (drop_S _ _ _ Hx) as Hd. assert (Hxd : x ∈ drop i C) by (rewrite Hd; by left).
  destruct (chain_height _ _ _ _ _ Hch _ _ Hx) as [g Hg]. pose proof (chain_height_pos _ _ _ _ _ Hch _ _ Hg).
  pose proof (ch_lvl _ _ _ _ _ Hch) as Hlv. pose proof (lookup_lt_Some _ _ _ Hx).
  pose proof (chain_link _ _ _ _ _ Hch i x g 0 Hx Hg ltac:(lia) ltac:(lia)) as Hlk.
  rewrite (link_zero _ _ _ _ _ Hch) in Hlk by lia.
  assert (Hlk' : glv h x 0 = glv h0 x 0) by (unfold glv; by rewrite Heq). rewrite Hlk in Hlk'.
  change (get_level h x 0) with (get_level h x (Z.of_nat 0)). rewrite (get_level_glv _ _ _ _ Hlk'), bind_Ret.
  destruct (ch_shape _ _ _ _ _ Hch i x g Hx Hg) as (n & Hn & _ & Hi'). destruct i as [|i]; [lia|].
  destruct Hi' as (s & o & _ & _ & Ho & _).
  unfold slFreeNode. rewrite (Heq x Hxd), Hn. cbn [deref]. rewrite bind_Ret, Ho. cbn [deref]. rewrite !bind_Ret.
  cbn [lv_forward]. apply (IH h0 _ sl C hs l (S (S i)) Hr); [| |lia|lia].
  - intros c Hc. rewrite lookup_delete_ne; [apply Heq; rewrite Hd; by right|]. intros ->.
    apply list_elem_of_lookup in Hc as [j Hj]. rewrite lookup_drop in Hj.
    assert (S (S i) + j = S i)%nat; [|lia]. eapply NoDup_lookup; [apply (ch_nodup _ _ _ _ _ Hch)|done|done].
  - intros c [Hcx Hc]%lookup_delete_is_Some. specialize (Hdom c Hc). rewrite Hd in Hdom.
    apply elem_of_cons in Hdom as [->|?]; done.
Qed.

(** Nothing of the list stays allocated. *)
Lemma slFree_spec h sl C hs l : represents h sl C hs l -> slFree (length l) h sl = Ret ∅.
Proof.
  intros Hr. pose proof (rp_chain _ _ _ _ _ Hr) as Hch. pose proof (ch_elts _ _ _ _ _ Hch) as He.
  pose proof (rp_header _ _ _ _ _ Hr) as Hhd. pose proof (ch_lvl _ _ _ _ _ Hch).
  pose proof (chain_link _ _ _ _ _ Hch 0 _ 32 0 Hhd (ch_header _ _ _ _ _ Hch) ltac:(lia) ltac:(lia)) as Hlk.
  unfold slFree. change (get_level h (sl_header sl) 0) with (get_level h (sl_header sl) (Z.of_nat 0)).
  rewrite (get_level_glv _ _ _ _ Hlk), bind_Ret, (link_zero _ _ _ _ _ Hch) by lia. cbn [lv_forward].
  pose proof (drop_S _ _ _ Hhd) as Hd. rewrite drop_0 in Hd.
  apply (free_spec _ h _ sl C hs l 1 Hr); [| |lia|lia].
  - intros c Hc. rewrite lookup_delete_ne; [done|]. intros <-. pose proof (ch_nodup _ _ _ _ _ Hch) as Hnd.
    rewrite Hd in Hnd. by apply NoDup_cons in Hnd as [? _].
  - intros c [Hne Hc]%lookup_delete_is_Some. apply (rp_dom _ _ _ _ _ Hr) in Hc. rewrite Hd in Hc.
    apply elem_of_cons in Hc as [->|?]; done.
Qed.
