(* ===== verification/SkiplistQuery.v ===== *)
(** Queries of the skip list: ranks, nodes by rank, ranges of ranks and of
    scores, against the list of elements. *)
From Stdlib Require Import SpecFloat.
From S2P Require Import Prelude Skiplist SkiplistOrder SkiplistRepr SkiplistInsert SkiplistDelete.

Lemma elt_cmp_key s s' e o : double_key s = double_key s' -> elt_cmp e (s, o) = elt_cmp e (s', o).
Proof. intros Hk. unfold elt_cmp. cbn. by rewrite Hk. Qed.

Lemma elt_cmp_Eq a b : elt_cmp a b = Eq -> a.2 = b.2.
Proof.
  unfold elt_cmp. destruct (lex3 _ _); [|done..]. destruct (Z.compare_spec (strcmp a.2 b.2) 0); [|done..].
  intros _. by apply strcmp_eq.
Qed.

Section query.
Context (h : heap) (sl : skiplist) (C : list loc) (hs : list nat) (l : list elt).
Hypothesis Hr : represents h sl C hs l.
Let Hch := rp_chain _ _ _ _ _ Hr.

Lemma query_bounds : length C = S (length l) /\ (1 <= Z.to_nat (sl_level sl) <= 32)%nat /\
  Z.of_nat (length l) < 2 ^ 31 /\ (length C <= walk_fuel sl)%nat.
Proof.
  pose proof (ch_lvl _ _ _ _ _ Hch). pose proof (ch_elts _ _ _ _ _ Hch). pose proof (ch_small _ _ _ _ _ Hch).
  unfold walk_fuel. rewrite (rp_length _ _ _ _ _ Hr). lia.
Qed.

(** The element of a node. *)
Lemma node_elt i c : C !! S i = Some c -> exists n s o, h !! c = Some n /\ l !! i = Some (s, o) /\
  sn_score n = s /\ sn_obj n = Some o /\ sn_backward n = back C i /\
  get_level h c 0 = Ret (SkiplistLevel (C !! S (S i)) (if decide (S (S i) < length C)%nat then 1 else 0)).
Proof.
  intros Hc. destruct (chain_height _ _ _ _ _ Hch _ _ Hc) as [ht Hht].
  destruct (ch_shape _ _ _ _ _ Hch _ _ _ Hc Hht) as (n & Hn & _ & s & o & ? & ? & ? & ?).
  exists n, s, o. do 5 (split; [done|]). pose proof (chain_height_pos _ _ _ _ _ Hch _ _ Hht).
  pose proof (ch_lvl _ _ _ _ _ Hch) as Hlv. pose proof (lookup_lt_Some _ _ _ Hc).
  pose proof (chain_link _ _ _ _ _ Hch (S i) c ht 0 Hc Hht ltac:(lia) ltac:(lia)) as Hlk.
  rewrite (link_zero _ _ _ _ _ Hch) in Hlk by lia.
  by apply (get_level_glv _ _ 0).
Qed.

Lemma elt_node i e : l !! i = Some e -> exists c, C !! S i = Some c.
Proof.
  intros Hl. apply lookup_lt_Some in Hl. destruct (lookup_lt_is_Some_2 C (S i)); [|eauto].
  destruct query_bounds. lia.
Qed.

(** ** [slGetNodeByRank] *)

Lemma node_by_rank_spec k : forall p c ht t,
  C !! p = Some c -> hs !! p = Some ht -> (k <= ht)%nat -> (k <= Z.to_nat (sl_level sl))%nat -> (p <= t < length C)%nat ->
  (1 <= k)%nat ->
  node_by_rank_loop (walk_fuel sl) h k c (Z.of_nat p) (Z.of_nat t) = Ret (C !! t).
Proof.
  induction k as [|k IH]; intros p c ht t Hc Hht Hk Hl Hpt Hk1; [lia|]. cbn [node_by_rank_loop].
  destruct query_bounds as (He & Hlv & Hsm & Hfu).
  destruct (walk_spec _ _ _ _ _ Hch (fun _ acc => Ret (acc <=? Z.of_nat t)) u64 t) with (fuel := walk_fuel sl) (k := k)
    (p := p) (c := c) (ht := ht) as (q & c' & -> & Hc' & Hq); try done; try lia.
  - intros i c0 n Hi _ _. f_equal. destruct (Z.leb_spec (Z.of_nat i) (Z.of_nat t)), (Nat.leb_spec i t); lia.
  - intros i Hi. apply u64_small. lia.
  - rewrite bind_Ret. destruct (Z.eqb_spec (Z.of_nat q) (Z.of_nat t)) as [Heq|Hne].
    { replace t with q by lia. by rewrite Hc'. }
    destruct k as [|k].
    { exfalso. apply Hne. f_equal. eapply is_last_zero; [exact Hch|lia|done]. }
    pose proof Hq as (Hqt & (htq & Hhtq & Hkq) & _). apply (IH q c' htq); (done || lia).
Qed.

(** The node of a rank counted from 1. *)
Lemma slGetNodeByRank_spec rank : 0 <= rank ->
  slGetNodeByRank h sl rank = Ret (if rank =? 0 then None else C !! Z.to_nat rank).
Proof.
  intros H0. destruct query_bounds as (He & Hlv & Hsm & Hfu). unfold slGetNodeByRank. rewrite (rp_length _ _ _ _ _ Hr).
  destruct (Z.eqb_spec rank 0); [done|]. cbn [orb]. destruct (Z.ltb_spec (Z.of_nat (length l)) rank).
  { by rewrite lookup_ge_None_2 by lia. }
  rewrite <- (Z2Nat.id rank) at 1 by lia.
  apply (node_by_rank_spec (Z.to_nat (sl_level sl)) 0 (sl_header sl) 32); try lia.
  - apply (rp_header _ _ _ _ _ Hr).
  - apply (ch_header _ _ _ _ _ Hch).
Qed.

(** ** [slGetRank] *)

Section rank.
Context (score : double) (obj : bytes).
Hypothesis Hs : sorted l.
Hypothesis Hok : elt_ok (score, obj).
Let t := lead (fun e => elt_leb e (score, obj)) l.

(** The rank of the last element that is not greater, if it carries the object. *)
Definition rank_of : Z :=
  match t with O => 0 | S i => if decide (l.*2 !! i = Some obj) then Z.of_nat t else 0 end.

(** The walks may end at a node that carries the object before the last one. *)
Lemma rank_loop_spec k : forall p c ht,
  C !! p = Some c -> hs !! p = Some ht -> (k <= ht)%nat -> (k <= Z.to_nat (sl_level sl))%nat -> (p <= t)%nat ->
  (1 <= k)%nat -> (forall i, (i < t)%nat -> l.*2 !! i = Some obj -> S i = t) ->
  rank_loop (walk_fuel sl) h k c (Z.of_nat p) score obj = Ret rank_of.
Proof.
  induction k as [|k IH]; intros p c ht Hc Hht Hk Hl Hpt Hk1 Hu; [lia|]. cbn [rank_loop].
  destruct query_bounds as (He & Hlv & Hsm & Hfu).
  pose proof (lead_le (fun e => elt_leb e (score, obj)) l) as Ht. fold t in Ht.
  destruct (walk_spec _ _ _ _ _ Hch (fun n _ => upto score obj n) u64 t) with (fuel := walk_fuel sl) (k := k)
    (p := p) (c := c) (ht := ht) as (q & c' & -> & Hc' & Hq); try done; try lia.
  - apply (cond_elt h sl C hs l Hr (upto score obj) (fun e => elt_leb e (score, obj)) (initial_leb _ _ Hs)).
    intros i n s o Hi Hn Ho. apply upto_spec; try done. by apply (so_ok _ Hs i).
  - intros i Hi. apply u64_small. lia.
  - rewrite bind_Ret. pose proof Hq as (Hqt & (htq & Hhtq & Hkq) & _).
    assert (Hnext : match k with O => q = t | S _ => rank_loop (walk_fuel sl) h k c' (Z.of_nat q) score obj = Ret rank_of end).
    { destruct k as [|k]; [by eapply is_last_zero; [exact Hch|lia|]|]. apply (IH q c' htq); (done || lia). }
    destruct q as [|q].
    + destruct (ch_shape _ _ _ _ _ Hch 0 c' htq Hc' Hhtq) as (n & Hn & _ & Ho). rewrite Hn. cbn [deref].
      rewrite bind_Ret, Ho. destruct k as [|k]; [|exact Hnext]. cbn [rank_loop]. unfold rank_of. by rewrite <- Hnext.
    + destruct (node_elt q c' Hc') as (n & s & o & Hn & Hlq & _ & Ho & _). rewrite Hn. cbn [deref].
      rewrite bind_Ret, Ho. destruct (so_ok _ Hs _ _ Hlq) as [_ Hso]. destruct Hok as [_ Hso2].
      rewrite equalslObj_spec by done. assert (Hlq2 : l.*2 !! q = Some o) by (by rewrite list_lookup_fmap, Hlq).
      destruct (bool_decide_reflect (o = obj)) as [->|Hne].
      * pose proof (Hu q ltac:(lia) Hlq2) as Hqt2. unfold rank_of. rewrite <- Hqt2. by rewrite decide_True.
      * destruct k as [|k]; [|exact Hnext]. cbn [rank_loop]. unfold rank_of. rewrite <- Hnext, decide_False; [done|congruence].
Qed.

(** Asked with the score the object has, the rank counts from 1; it is 0 for an
    object that is not in the list. *)
Lemma slGetRank_spec :
  NoDup l.*2 -> (forall i s, l !! i = Some (s, obj) -> double_key s = double_key score) ->
  slGetRank h sl score obj = Ret (match list_find (eq obj) l.*2 with Some (i, _) => Z.of_nat i + 1 | None => 0 end).
Proof.
  intros Hnd Hsc. destruct query_bounds as (He & Hlv & Hsm & Hfu).
  assert (Hle : forall i s, l !! i = Some (s, obj) -> (i < t)%nat).
  { intros i s Hi. apply Nat.ltb_lt. unfold t. rewrite <- (lead_spec _ l i (s, obj) (initial_leb _ _ Hs) Hi).
    unfold elt_leb, elt_cmp. cbn. rewrite (Hsc i s Hi), (proj2 (lex3_eq _ _) eq_refl).
    by rewrite (proj2 (strcmp_eq obj obj) eq_refl). }
  assert (Hlast : forall i, (i < t)%nat -> l.*2 !! i = Some obj -> S i = t).
  { intros i Hi Ho. rewrite list_lookup_fmap in Ho. destruct (l !! i) as [[s o]|] eqn:Hl; [|done].
    cbn in Ho. injection Ho as ->. destruct (decide (S i = t)) as [|Hne]; [done|]. exfalso.
    pose proof (lead_le (fun e => elt_leb e (score, obj)) l) as Ht. fold t in Ht.
    destruct (lookup_lt_is_Some_2 l (S i) ltac:(lia)) as [[s' o'] Hl'].
    pose proof (so_order _ Hs i (S i) _ _ ltac:(lia) Hl Hl') as Ho.
    pose proof (lead_spec _ l (S i) _ (initial_leb _ (score, obj) Hs) Hl') as Hle'. fold t in Hle'.
    rewrite (proj2 (Nat.ltb_lt _ _)) in Hle' by lia. apply elt_leb_le in Hle'.
    rewrite (elt_cmp_key s score) in Ho by (by eapply Hsc). rewrite (elt_cmp_antisym (s', o')) in Hle'.
    assert (E : elt_cmp (s', o') (score, obj) = Eq) by (by destruct (elt_cmp (s', o') (score, obj))).
    apply elt_cmp_Eq in E. cbn in E. subst o'. assert (i = S i); [|lia].
    eapply NoDup_lookup; [exact Hnd|rewrite list_lookup_fmap, Hl; done|rewrite list_lookup_fmap, Hl'; done]. }
  unfold slGetRank. change 0 with (Z.of_nat 0) at 1. rewrite (rank_loop_spec (Z.to_nat (sl_level sl)) 0 (sl_header sl) 32);
    [|apply (rp_header _ _ _ _ _ Hr)|apply (ch_header _ _ _ _ _ Hch)|lia..|done].
  f_equal. destruct (list_find (eq obj) l.*2) as [[i o]|] eqn:Hf.
  - apply list_find_Some in Hf as (Hi & <- & _). pose proof Hi as Hi'. rewrite list_lookup_fmap in Hi'.
    destruct (l !! i) as [[s o]|] eqn:Hl; [|done]. cbn in Hi'. injection Hi' as ->.
    pose proof (Hlast i (Hle i s Hl) Hi) as Hti. unfold rank_of. rewrite <- Hti, decide_True by done. lia.
  - apply list_find_None in Hf. unfold rank_of. destruct t as [|i]; [done|].
    rewrite decide_False; [done|]. intros Hi. rewrite Forall_forall in Hf.
    by apply (Hf obj); [by apply list_elem_of_lookup_2 with i|].
Qed.
End rank.
End query.

(** ** Ranges of ranks *)

Lemma back_node C i : back C (S i) = C !! S i.
Proof. done. Qed.

Section ranges.
Context (h : heap) (sl : skiplist) (C : list loc) (hs : list nat) (l : list elt).
Hypothesis Hr : represents h sl C hs l.
Let Hch := rp_chain _ _ _ _ _ Hr.

Lemma rank_forward n : forall i, rank_range_loop n h (C !! S i) false = Ret (take n (drop i l.*2)).
Proof.
  induction n as [|n IH]; intros i; [by destruct (C !! S i)|]. destruct (C !! S i) as [c|] eqn:Hc; cbn [rank_range_loop].
  - destruct (node_elt _ _ _ _ _ Hr i c Hc) as (nd & s & o & Hn & Hl & _ & Ho & _ & Hg).
    rewrite Hn. cbn [deref]. rewrite bind_Ret, Ho. cbn [deref]. rewrite bind_Ret, Hg, bind_Ret. cbn [lv_forward].
    rewrite IH, bind_Ret. assert (Hl2 : l.*2 !! i = Some o) by (by rewrite list_lookup_fmap, Hl).
    by rewrite (drop_S _ _ _ Hl2).
  - apply lookup_ge_None_1 in Hc. rewrite drop_ge; [by rewrite take_nil|]. rewrite length_fmap.
    pose proof (ch_elts _ _ _ _ _ Hch). lia.
Qed.

Lemma rank_backward n : forall j, (j <= length l)%nat ->
  rank_range_loop n h (back C j) true = Ret (take n (reverse (take j l.*2))).
Proof.
  induction n as [|n IH]; intros j Hj; [by destruct (back C j)|]. destruct j as [|j]; [done|].
  rewrite back_node. destruct (lookup_lt_is_Some_2 l j ltac:(lia)) as [e He].
  destruct (elt_node _ _ _ _ _ Hr j e He) as [c Hc]. rewrite Hc. cbn [rank_range_loop].
  destruct (node_elt _ _ _ _ _ Hr j c Hc) as (nd & s & o & Hn & Hl & _ & Ho & Hb & Hg).
  rewrite Hn. cbn [deref]. rewrite bind_Ret, Ho. cbn [deref]. rewrite bind_Ret, Hg, bind_Ret, Hb.
  rewrite IH, bind_Ret by lia. assert (Hl2 : l.*2 !! j = Some o) by (by rewrite list_lookup_fmap, Hl).
  by rewrite (take_S_r _ _ _ Hl2), reverse_snoc.
Qed.

(** The objects of the ranks from [r1] to [r2], in that order. *)
Lemma rank_range_spec r1 r2 : 1 <= r1 < 2 ^ 31 -> 1 <= r2 < 2 ^ 31 ->
  _get_rank_range h sl r1 r2 = Ret (
    if r1 <=? r2 then take (Z.to_nat (r2 - r1 + 1)) (drop (Z.to_nat (r1 - 1)) l.*2)
    else if Z.of_nat (length l) <? r1 then []
    else take (Z.to_nat (r1 - r2 + 1)) (reverse (take (Z.to_nat r1) l.*2))).
Proof.
  intros H1 H2. unfold _get_rank_range. rewrite !u64_small by lia.
  rewrite (slGetNodeByRank_spec _ _ _ _ _ Hr) by lia. rewrite bind_Ret. rewrite (proj2 (Z.eqb_neq r1 0)) by lia.
  pose proof (ch_elts _ _ _ _ _ Hch).
  destruct (Z.leb_spec r1 r2); cbn [negb].
  - unfold s32. rewrite Z.mod_small by lia. replace (Z.to_nat r1) with (S (Z.to_nat (r1 - 1))) by lia.
    rewrite rank_forward. do 2 f_equal. lia.
  - unfold s32. rewrite Z.mod_small by lia. destruct (Z.ltb_spec (Z.of_nat (length l)) r1).
    + rewrite lookup_ge_None_2 by lia. by destruct (Z.to_nat (r1 - r2 + 1 + 2 ^ 31 - 2 ^ 31)).
    + replace (C !! Z.to_nat r1) with (back C (Z.to_nat r1)); [rewrite rank_backward by lia; do 2 f_equal; lia|].
      unfold back. destruct (Z.to_nat r1) eqn:E; [lia|done].
Qed.
End ranges.

(** ** Ranges of scores *)

Definition dlt (a b : double) : bool := match lex3 (double_key a) (double_key b) with Lt => true | _ => false end.

Lemma SFltb_dlt a b : ordered a -> ordered b -> SFltb a b = dlt a b.
Proof. intros Ha Hb. unfold SFltb, dlt. rewrite SFcompare_key by done. by destruct (lex3 _ _). Qed.

Lemma SFleb_dlt a b : ordered a -> ordered b -> SFleb a b = negb (dlt b a).
Proof.
  intros Ha Hb. unfold SFleb, dlt. rewrite SFcompare_key, (lex3_antisym (double_key a)) by done.
  by destruct (lex3 (double_key a) (double_key b)).
Qed.

Lemma dlt_lt a b : dlt a b = true <-> lex3 (double_key a) (double_key b) = Lt.
Proof. unfold dlt. by destruct (lex3 _ _). Qed.

Lemma dlt_trans a b c : dlt b a = false -> dlt b c = true -> dlt a c = true.
Proof.
  rewrite <- not_true_iff_false, !dlt_lt, !lex3_lt. intros. lia.
Qed.

Lemma sorted_dlt l i j a b : sorted l -> (i < j)%nat -> l !! i = Some a -> l !! j = Some b -> dlt b.1 a.1 = false.
Proof.
  intros Hs Hij Ha Hb. pose proof (so_order _ Hs i j a b Hij Ha Hb) as H. unfold elt_cmp, dlt in *.
  by destruct (lex3 (double_key b.1) (double_key a.1)).
Qed.

Lemma initial_lt l m : sorted l -> initial (fun e => dlt e.1 m) l.
Proof. intros Hs i j a b Hij Ha Hb. apply dlt_trans. by eapply sorted_dlt. Qed.

Lemma initial_le l m : sorted l -> initial (fun e => negb (dlt m e.1)) l.
Proof.
  intros Hs i j a b Hij Ha Hb. rewrite !negb_true_iff. intros H. apply not_true_is_false. intros Hm.
  rewrite <- not_true_iff_false in H. apply H. pose proof (sorted_dlt l i j a b Hs Hij Ha Hb) as Hab.
  rewrite <- not_true_iff_false in Hab. rewrite dlt_lt, lex3_lt in *. lia.
Qed.

(** The leading run of an initial condition is all that satisfies it. *)
Lemma initial_cons P x l : initial P (x :: l) -> initial P l.
Proof. intros HP i j a b Hij. apply (HP (S i) (S j)); lia. Qed.

Lemma lead_filter P l : initial P l ->
  List.filter P l = take (lead P l) l /\ List.filter (fun x => negb (P x)) l = drop (lead P l) l.
Proof.
  induction l as [|x l IH]; intros HP; [done|]. cbn. destruct (IH (initial_cons _ _ _ HP)) as [I1 I2].
  destruct (P x) eqn:E; cbn; [by rewrite I1, I2|].
  assert (lead P l = O) as E0.
  { destruct l as [|y l]; [done|]. cbn. destruct (P y) eqn:Ey; [|done].
    rewrite (HP 0%nat 1%nat x y) in E; [done|lia|done|done|done]. }
  rewrite I1, I2, E0. by rewrite drop_0.
Qed.

Lemma initial_drop P l n : initial P l -> initial P (drop n l).
Proof. intros HP i j a b Hij. rewrite !lookup_drop. apply HP. lia. Qed.

Lemma initial_reverse P l : initial P l -> initial (fun x => negb (P x)) (reverse l).
Proof.
  intros HP i j a b Hij Ha Hb. pose proof (lookup_lt_Some _ _ _ Ha) as La. pose proof (lookup_lt_Some _ _ _ Hb) as Lb.
  rewrite length_reverse in *. rewrite reverse_lookup in Ha, Hb by done.
  rewrite !negb_true_iff. intros E. apply not_true_is_false. intros E2.
  rewrite (HP (length l - S j)%nat (length l - S i)%nat b a) in E; [done|lia|done|done|done].
Qed.

Section scores.
Context (h : heap) (sl : skiplist) (C : list loc) (hs : list nat) (l : list elt).
Hypothesis Hr : represents h sl C hs l.
Hypothesis Hs : sorted l.
Let Hch := rp_chain _ _ _ _ _ Hr.

Definition below (m : double) (e : elt) : bool := dlt e.1 m.
Definition within (m : double) (e : elt) : bool := negb (dlt m e.1).

Lemma score_ordered i s o : l !! i = Some (s, o) -> ordered s.
Proof. intros Hl. by destruct (so_ok _ Hs _ _ Hl). Qed.

Lemma node_score_spec i c s o : C !! S i = Some c -> l !! i = Some (s, o) -> node_score h c = Ret s.
Proof.
  intros Hc Hl. destruct (node_elt _ _ _ _ _ Hr _ c Hc) as (n & s' & o' & Hn & Hl' & Hsc & _).
  rewrite Hl in Hl'. injection Hl' as <- <-. unfold node_score. rewrite Hn. cbn. by rewrite Hsc.
Qed.

(** [while (node)] stops at the first score past [s2]. *)
Lemma score_forward s2 fuel : ordered s2 -> forall i, (length l < i + fuel)%nat ->
  score_range_loop fuel h (C !! S i) false s2 = Ret (take (lead (within s2) (drop i l)) (drop i l)).*2.
Proof.
  intros Ho2. pose proof (ch_elts _ _ _ _ _ Hch) as He. induction fuel as [|fuel IH]; intros i Hf.
  { rewrite lookup_ge_None_2, drop_ge by lia. done. }
  destruct (C !! S i) as [c|] eqn:Hc; cbn [score_range_loop].
  - destruct (node_elt _ _ _ _ _ Hr i c Hc) as (nd & s & o & Hn & Hl & Hsc & Ho & _ & Hg).
    rewrite Hn. cbn [deref]. rewrite bind_Ret, Hsc, Ho, SFltb_dlt by (done || by eapply score_ordered).
    rewrite (drop_S _ _ _ Hl). cbn [lead]. unfold within at 1. cbn [fst]. destruct (dlt s2 s); cbn [negb]; [done|].
    cbn [deref]. rewrite bind_Ret, Hg, bind_Ret. cbn [lv_forward]. rewrite IH, bind_Ret by lia. done.
  - apply lookup_ge_None_1 in Hc. rewrite drop_ge by lia. done.
Qed.

Lemma score_backward s2 fuel : ordered s2 -> forall j, (j <= length l)%nat -> (j < fuel)%nat ->
  score_range_loop fuel h (back C j) true s2 =
    Ret (take (lead (fun e => negb (below s2 e)) (reverse (take j l))) (reverse (take j l))).*2.
Proof.
  intros Ho2. pose proof (ch_elts _ _ _ _ _ Hch) as He. induction fuel as [|fuel IH]; intros j Hj Hf; [lia|].
  destruct j as [|j]; [done|]. rewrite back_node. destruct (lookup_lt_is_Some_2 l j ltac:(lia)) as [e Hl0].
  destruct (elt_node _ _ _ _ _ Hr j e Hl0) as [c Hc]. rewrite Hc. cbn [score_range_loop].
  destruct (node_elt _ _ _ _ _ Hr j c Hc) as (nd & s & o & Hn & Hl & Hsc & Ho & Hb & Hg).
  rewrite Hn. cbn [deref]. rewrite bind_Ret, Hsc, Ho, SFltb_dlt by (done || by eapply score_ordered).
  rewrite (take_S_r _ _ _ Hl), reverse_snoc. cbn [lead]. unfold below at 1. cbn [fst]. destruct (dlt s s2); cbn [negb]; [done|].
  cbn [deref]. rewrite bind_Ret, Hg, bind_Ret, Hb. rewrite IH, bind_Ret by lia. done.
Qed.

(** Some element may be in the range. *)
Lemma in_range_spec min max : ordered min -> ordered max -> dlt max min = false ->
  slIsInRange h sl min max = Ret (match l !! O with None => false | Some e =>
    (lead (below min) l <? length l)%nat && within max e end).
Proof.
  intros Omin Omax Hmm. pose proof (ch_elts _ _ _ _ _ Hch) as He. pose proof (ch_lvl _ _ _ _ _ Hch).
  unfold slIsInRange. rewrite SFltb_dlt, Hmm, (rp_tail _ _ _ _ _ Hr) by done.
  destruct (l !! O) as [e|] eqn:Hl0.
  2: { apply lookup_ge_None_1 in Hl0. by replace (length l) with O by lia. }
  pose proof (lookup_lt_Some _ _ _ Hl0) as Hpos. destruct (length l) as [|m] eqn:Hn; [lia|]. rewrite back_node.
  destruct (lookup_lt_is_Some_2 l m ltac:(lia)) as [[s o] Hl].
  destruct (elt_node _ _ _ _ _ Hr _ _ Hl) as [c Hc]. rewrite Hc.
  rewrite (node_score_spec _ _ _ _ Hc Hl), bind_Ret, SFltb_dlt by (done || by eapply score_ordered).
  pose proof (lead_spec _ l _ _ (initial_lt l min Hs) Hl) as Hlead. cbn [fst] in Hlead. fold (below min) in Hlead.
  change (fun e0 : elt => dlt e0.1 min) with (below min) in Hlead. rewrite Hlead.
  pose proof (lead_le (below min) l). 
  destruct (Nat.ltb_spec m (lead (below min) l)), (Nat.ltb_spec (lead (below min) l) (S m)); try lia; [done|].
  pose proof (chain_link _ _ _ _ _ Hch 0 _ 32 0 (rp_header _ _ _ _ _ Hr) (ch_header _ _ _ _ _ Hch) ltac:(lia) ltac:(lia)) as Hlk.
  change (get_level h (sl_header sl) 0) with (get_level h (sl_header sl) (Z.of_nat 0)).
  rewrite (get_level_glv _ _ _ _ Hlk), bind_Ret, (link_zero _ _ _ _ _ Hch) by lia. cbn [lv_forward].
  destruct (elt_node _ _ _ _ _ Hr _ _ Hl0) as [c0 Hc0]. rewrite Hc0.
  destruct e as [s0 o0]. rewrite (node_score_spec _ _ _ _ Hc0 Hl0), bind_Ret, SFltb_dlt by (done || by eapply score_ordered).
  done.
Qed.

Lemma walk_lt min : ordered min -> exists update,
  descend (fun n _ => Ret (SFltb (sn_score n) min)) id (walk_fuel sl) h (Z.to_nat (sl_level sl)) (sl_header sl) 0 = Ret update /\
  update_at C hs (lead (below min) l) (Z.to_nat (sl_level sl)) update.
Proof.
  intros Om. destruct (search_update h sl C hs l Hr (fun n _ => Ret (SFltb (sn_score n) min)) id (lead (below min) l))
    as (update & ? & _ & ?); [done| |by exists update].
  apply (cond_elt h sl C hs l Hr (fun n => Ret (SFltb (sn_score n) min)) (below min) (initial_lt _ _ Hs)).
  intros i n s o Hi Hn Ho. rewrite Hn, SFltb_dlt by (done || by eapply score_ordered). done.
Qed.

Lemma walk_le max : ordered max -> exists update,
  descend (fun n _ => Ret (SFleb (sn_score n) max)) id (walk_fuel sl) h (Z.to_nat (sl_level sl)) (sl_header sl) 0 = Ret update /\
  update_at C hs (lead (within max) l) (Z.to_nat (sl_level sl)) update.
Proof.
  intros Om. destruct (search_update h sl C hs l Hr (fun n _ => Ret (SFleb (sn_score n) max)) id (lead (within max) l))
    as (update & ? & _ & ?); [done| |by exists update].
  apply (cond_elt h sl C hs l Hr (fun n => Ret (SFleb (sn_score n) max)) (within max) (initial_le _ _ Hs)).
  intros i n s o Hi Hn Ho. rewrite Hn, SFleb_dlt by (done || by eapply score_ordered). done.
Qed.

(** The elements with scores from [min] to [max], both included. *)
Definition in_scores (min max : double) : list elt :=
  List.filter (fun e => negb (below min e) && within max e) l.

Lemma filter_andb {A} (P Q : A -> bool) m : List.filter P (List.filter Q m) = List.filter (fun x => Q x && P x) m.
Proof. induction m as [|x m IH]; [done|]. cbn. destruct (Q x); cbn; [destruct (P x)|]; by rewrite IH. Qed.

Lemma in_scores_up min max : in_scores min max = List.filter (within max) (drop (lead (below min) l) l).
Proof.
  rewrite <- (proj2 (lead_filter (below min) l (initial_lt l min Hs))). by rewrite filter_andb.
Qed.

Lemma in_scores_down min max :
  in_scores min max = List.filter (fun e => negb (below min e)) (take (lead (within max) l) l).
Proof.
  rewrite <- (proj1 (lead_filter (within max) l (initial_le l max Hs))), filter_andb.
  apply List.filter_ext. intros e. apply andb_comm.
Qed.

Lemma lead_head P e : l !! O = Some e -> lead P l <> O <-> P e = true.
Proof. destruct l as [|x l']; [done|]. intros [= ->]. cbn. by destruct (P e). Qed.

(** The test for a range that misses the list. *)
Lemma not_in_range min max :
  (match l !! O with None => false | Some e => (lead (below min) l <? length l)%nat && within max e end) = false ->
  in_scores min max = [].
Proof.
  destruct (l !! O) as [e|] eqn:He.
  - intros [Hl%Nat.ltb_ge|Hw]%andb_false_iff.
    + by rewrite in_scores_up, drop_ge.
    + rewrite in_scores_down. destruct (decide (lead (within max) l = O)) as [->|Hn]; [done|].
      apply (lead_head _ _ He) in Hn. congruence.
  - apply lookup_ge_None_1 in He. intros _. unfold in_scores. by destruct l; [|cbn in He; lia].
Qed.

Lemma score_up min max : ordered min -> ordered max -> dlt max min = false ->
  _get_score_range h sl min max = Ret (in_scores min max).*2.
Proof.
  intros Omin Omax Hmm. pose proof (ch_elts _ _ _ _ _ Hch) as He.
  unfold _get_score_range, slFirstInRange. rewrite SFleb_dlt, Hmm, in_range_spec by done. cbn [negb]. rewrite bind_Ret.
  match goal with |- context [if ?b then _ else _] => destruct b eqn:Hin end.
  2: { rewrite (not_in_range _ _ Hin). by destruct (walk_fuel sl). }
  destruct (walk_lt min Omin) as (update & -> & Hu). rewrite bind_Ret.
  destruct (after_update_spec h sl _ C hs l update Hr Hu (lead_le _ _)) as [-> _]. rewrite bind_Ret.
  unfold walk_fuel. rewrite (rp_length _ _ _ _ _ Hr), Nat2Z.id, score_forward by (done || lia).
  rewrite in_scores_up. by rewrite (proj1 (lead_filter _ _ (initial_drop _ _ _ (initial_le l max Hs)))).
Qed.

Lemma score_down max min : ordered min -> ordered max -> dlt min max = true ->
  _get_score_range h sl max min = Ret (reverse (in_scores min max)).*2.
Proof.
  intros Omin Omax Hmm. pose proof (ch_elts _ _ _ _ _ Hch) as He. pose proof (ch_lvl _ _ _ _ _ Hch).
  assert (Hmm2 : dlt max min = false).
  { apply not_true_is_false. rewrite dlt_lt. apply dlt_lt in Hmm. rewrite lex3_lt in *. lia. }
  unfold _get_score_range, slLastInRange. rewrite SFleb_dlt, Hmm, in_range_spec by done. cbn [negb]. rewrite bind_Ret.
  match goal with |- context [if ?b then _ else _] => destruct b eqn:Hin end.
  2: { rewrite (not_in_range _ _ Hin). by destruct (walk_fuel sl). }
  destruct (walk_le max Omax) as (update & -> & Hu). rewrite bind_Ret.
  destruct (Hu O ltac:(lia)) as (q & u & Hu0 & Hcq & Hq). pose proof (lead_le (within max) l).
  assert (q = lead (within max) l) as -> by (eapply is_last_zero; [exact Hch|lia|done]).
  rewrite (arr_get_0 _ _ Hu0), !bind_Ret.
  assert (Some u = back C (lead (within max) l)) as ->.
  { rewrite <- Hcq. unfold back. destruct (lead (within max) l) eqn:E; [|done]. exfalso.
    destruct (l !! O) as [e|] eqn:He0; [|done]. apply andb_true_iff in Hin as [_ Hin].
    by apply (lead_head _ _ He0) in Hin. }
  unfold walk_fuel. rewrite (rp_length _ _ _ _ _ Hr), Nat2Z.id, score_backward by (done || lia).
  rewrite in_scores_down. set (m := take _ l).
  assert (Hi : initial (below min) m).
  { intros i j a b Hij (Ha & _)%lookup_take_Some (Hb & _)%lookup_take_Some. by apply (initial_lt l min Hs i j). }
  rewrite <- (proj1 (lead_filter _ _ (initial_reverse _ _ Hi))). do 2 f_equal.
  induction m as [|x m IH] using rev_ind; [done|]. rewrite reverse_snoc, List.filter_app. cbn.
  assert (Hi2 : initial (below min) m).
  { intros i j a b Hij Ha Hb. apply (Hi i j); [lia|by apply lookup_app_l_Some..]. }
  destruct (below min x); cbn; [by rewrite app_nil_r, IH|by rewrite reverse_snoc, IH].
Qed.
End scores.
