(* ===== verification/SkiplistSet.v ===== *)
(** The ranked set as a sorted list: every sequence of operations on the skip
    list, from its creation to its release, against operations on the list of
    its elements. *)
From Stdlib Require Import SpecFloat.
From S2P Require Import Prelude Skiplist SkiplistOrder SkiplistRepr SkiplistInsert SkiplistDelete SkiplistQuery.

(** ** The specification *)

(** The operations of [luaopen_skiplist_c]; [rs] are the values of [random()]. *)
Inductive set_op :=
  | OpInsert (rs : list Z) (score : double) (obj : bytes)
  | OpDelete (score : double) (obj : bytes)
  | OpDeleteByRank (start end_ : Z)
  | OpCount
  | OpRank (score : double) (obj : bytes)
  | OpRankRange (r1 r2 : Z)
  | OpScoreRange (s1 s2 : double).

Inductive set_res := RNone | RFound (b : bool) | RNumber (n : Z) | RObjects (os : list bytes).

(** Elements in ascending order of score, then object. *)
Definition spec_op (o : set_op) (l : list elt) : set_res * list elt :=
  match o with
  | OpInsert _ s o => (RNone, insert_at (lead (fun e => elt_ltb e (s, o)) l) (s, o) l)
  | OpDelete s o =>
      (RFound (existsb (fun e => elt_eqb e (s, o)) l), List.filter (fun e => negb (elt_eqb e (s, o))) l)
  | OpDeleteByRank r1 r2 =>
      let a := Z.to_nat (Z.min r1 r2 - 1) in let b := Z.to_nat (Z.max r1 r2) in
      (RObjects (take (b - a) (drop a l)).*2, take a l ++ drop b l)
  | OpCount => (RNumber (Z.of_nat (length l)), l)
  | OpRank s o => (RNumber (match list_find (eq o) l.*2 with Some (i, _) => Z.of_nat i + 1 | None => 0 end), l)
  | OpRankRange r1 r2 =>
      (RObjects (if r1 <=? r2 then take (Z.to_nat (r2 - r1 + 1)) (drop (Z.to_nat (r1 - 1)) l.*2)
                 else if Z.of_nat (length l) <? r1 then []
                 else take (Z.to_nat (r1 - r2 + 1)) (reverse (take (Z.to_nat r1) l.*2))), l)
  | OpScoreRange s1 s2 =>
      (RObjects (if dlt s2 s1 then (reverse (in_scores l s2 s1)).*2 else (in_scores l s1 s2).*2), l)
  end.

Fixpoint spec_ops (os : list set_op) (l : list elt) : list set_res * list elt :=
  match os with
  | [] => ([], l)
  | o :: os => let '(r, l) := spec_op o l in let '(rs, l) := spec_ops os l in (r :: rs, l)
  end.

(** What the callers keep to: an object is inserted once and asked for with its
    score, scores are numbers, ranks are positive ints. *)
Definition rank_arg (r : Z) : Prop := 1 <= r < 2 ^ 31.
Definition op_ok (o : set_op) (l : list elt) : Prop :=
  match o with
  | OpInsert rs s o => elt_ok (s, o) /\ (o ∉ l.*2) /\ Z.of_nat (length l) + 2 < 2 ^ 31 /\
      Exists (fun r => 16383 < Z.land r 0xffff) rs
  | OpDelete s o => elt_ok (s, o)
  | OpDeleteByRank r1 r2 | OpRankRange r1 r2 => rank_arg r1 /\ rank_arg r2
  | OpCount => True
  | OpRank s o => elt_ok (s, o) /\ forall i s', l !! i = Some (s', o) -> double_key s' = double_key s
  | OpScoreRange s1 s2 => ordered s1 /\ ordered s2
  end.

Fixpoint ops_ok (os : list set_op) (l : list elt) : Prop :=
  match os with [] => True | o :: os => op_ok o l /\ ops_ok os (spec_op o l).2 end.

(** ** The program *)

Section program.
Context (malloc : heap -> loc) (j : junk).

Definition run_op (o : set_op) (h : heap) (sl : skiplist) : outcome (set_res * heap * skiplist) :=
  match o with
  | OpInsert rs s o =>
      '(level, _) ← slRandomLevel rs;
      '(h, sl) ← slInsert j level (malloc h) h sl s o;
      Ret (RNone, h, sl)
  | OpDelete s o => '(b, h, sl) ← slDelete h sl s o; Ret (RFound b, h, sl)
  | OpDeleteByRank r1 r2 => '(os, h, sl) ← _delete_by_rank h sl r1 r2; Ret (RObjects os, h, sl)
  | OpCount => Ret (RNumber (sl_length sl), h, sl)
  | OpRank s o => r ← slGetRank h sl s o; Ret (RNumber r, h, sl)
  | OpRankRange r1 r2 => os ← _get_rank_range h sl r1 r2; Ret (RObjects os, h, sl)
  | OpScoreRange s1 s2 => os ← _get_score_range h sl s1 s2; Ret (RObjects os, h, sl)
  end.

Fixpoint run_ops (os : list set_op) (h : heap) (sl : skiplist) : outcome (list set_res * heap * skiplist) :=
  match os with
  | [] => Ret ([], h, sl)
  | o :: os =>
      '(r, h, sl) ← run_op o h sl;
      '(rs, h, sl) ← run_ops os h sl;
      Ret (r :: rs, h, sl)
  end.

(** The results of [os] on a new set, and what stays allocated after its release. *)
Definition set_session (os : list set_op) : outcome (list set_res * heap) :=
  '(h, sl) ← slCreate ∅ (malloc ∅);
  '(rs, h, sl) ← run_ops os h sl;
  h ← slFree (Z.to_nat (sl_length sl)) h sl;
  Ret (rs, h).

Hypothesis Hmalloc : forall h, h !! malloc h = None.

Lemma random_level_range rs : forall level, 1 <= level -> Exists (fun r => 16383 < Z.land r 0xffff) rs ->
  exists level' rs', random_level rs level = Ret (level', rs') /\ 1 <= level'.
Proof.
  induction rs as [|r rs IH]; intros level Hl He; [by inversion He|]. cbn [random_level].
  destruct (Z.leb_spec (Z.land r 65535) 16383); [|by exists level, rs].
  apply IH; [lia|]. inversion He; subst; [lia|done].
Qed.

Lemma slRandomLevel_range rs : Exists (fun r => 16383 < Z.land r 0xffff) rs ->
  exists level rs', slRandomLevel rs = Ret (level, rs') /\ 1 <= level <= 32.
Proof.
  intros He. unfold slRandomLevel. destruct (random_level_range rs 1 ltac:(lia) He) as (level & rs' & -> & Hl).
  rewrite bind_Ret. do 2 eexists. split; [reflexivity|]. unfold SKIPLIST_MAXLEVEL. zcases; lia.
Qed.

Lemma elt_eqb_le a b : elt_eqb a b = true -> elt_cmp b a <> Lt.
Proof. unfold elt_eqb. rewrite (elt_cmp_antisym a b). by destruct (elt_cmp a b). Qed.

(** With distinct objects, at most the first element that is not smaller is equal. *)
Lemma delete_filter l e : sorted l -> NoDup l.*2 ->
  let t := lead (fun a => elt_ltb a e) l in
  let found := match l !! t with Some a => elt_eqb a e | None => false end in
  existsb (fun a => elt_eqb a e) l = found /\
  List.filter (fun a => negb (elt_eqb a e)) l = if found then remove_at t l else l.
Proof.
  intros Hs Hnd t found. set (f := fun a => negb (elt_eqb a e)).
  assert (Heq : forall i a, l !! i = Some a -> elt_eqb a e = true -> i = t).
  { intros i a Hi Ha. pose proof (lead_spec _ l i a (initial_ltb l e Hs) Hi) as Hlead. fold t in Hlead.
    assert (Hti : (t <= i)%nat).
    { unfold elt_ltb, elt_eqb in *. destruct (elt_cmp a e); try done. by apply Nat.ltb_ge. }
    destruct (decide (i = t)) as [|Hne]; [done|]. exfalso.
    destruct (lookup_lt_is_Some_2 l t) as [b Hb]; [apply lookup_lt_Some in Hi; lia|].
    pose proof (so_order _ Hs t i b a ltac:(lia) Hb Hi) as Hab.
    pose proof (lead_spec _ l t b (initial_ltb l e Hs) Hb) as Hlb. fold t in Hlb. rewrite Nat.ltb_irrefl in Hlb.
    assert (E : elt_cmp b e = Eq).
    { unfold elt_ltb, elt_eqb in *. destruct (elt_cmp b e) eqn:E; [done|done|]. exfalso.
      assert (elt_cmp e b = Lt) as Hlt by (by rewrite (elt_cmp_antisym b e), E).
      pose proof (elt_lt_le_trans e b a Hlt Hab) as H. rewrite (elt_cmp_antisym a e) in H. by destruct (elt_cmp a e). }
    apply elt_cmp_Eq in E. unfold elt_eqb in Ha. destruct (elt_cmp a e) eqn:E2; try done. apply elt_cmp_Eq in E2.
    apply Hne. eapply NoDup_lookup; [exact Hnd|rewrite list_lookup_fmap, Hi; done|].
    rewrite list_lookup_fmap, Hb. cbn. congruence. }
  assert (Hall : forall m, (forall a, In a m -> elt_eqb a e = false) -> List.filter f m = m).
  { intros m Hm. induction m as [|x m IH]; [done|]. cbn. unfold f at 1. rewrite (Hm x) by (by left). cbn. f_equal.
    apply IH. intros a Ha. apply Hm. by right. }
  assert (Hother : forall i a, l !! i = Some a -> i <> t -> elt_eqb a e = false).
  { intros i a Hi Hit. apply not_true_is_false. intros Ha. by apply Hit, (Heq i a). }
  assert (Hnone : (forall b, l !! t = Some b -> elt_eqb b e = false) ->
    existsb (fun a => elt_eqb a e) l = false /\ List.filter f l = l).
  { intros Hb. assert (Hno : forall a, In a l -> elt_eqb a e = false).
    { intros a Ha%list_elem_of_In. apply list_elem_of_lookup in Ha as [i Hi].
      destruct (decide (i = t)) as [->|]; [by apply Hb|by apply (Hother _ _ Hi)]. }
    split; [|by apply Hall]. apply not_true_is_false. intros (a & Ha & Hae)%existsb_exists. by rewrite Hno in Hae. }
  subst found. destruct (l !! t) as [b|] eqn:Hb; [destruct (elt_eqb b e) eqn:Eb|].
  - split.
    + apply existsb_exists. exists b. split; [|done]. apply list_elem_of_In. by apply list_elem_of_lookup_2 with t.
    + rewrite <- (take_drop_middle l t b Hb) at 1. rewrite List.filter_app. cbn. unfold f at 2. rewrite Eb. cbn.
      rewrite !Hall; [done|..]; intros a Ha%list_elem_of_In; apply list_elem_of_lookup in Ha as [i Hi].
      * rewrite lookup_drop in Hi. apply (Hother _ _ Hi). lia.
      * apply lookup_take_Some in Hi as [Hi ?]. apply (Hother _ _ Hi). lia.
  - apply Hnone. intros b' [= <-]. done.
  - apply Hnone. done.
Qed.

(** ** Refinement *)

Definition good (l : list elt) : Prop := sorted l /\ NoDup l.*2.

Lemma insert_at_perm {A} t (x : A) l : insert_at t x l ≡ₚ x :: l.
Proof. unfold insert_at. rewrite <- Permutation_middle. by rewrite take_drop. Qed.

Lemma good_insert l s o : good l -> elt_ok (s, o) -> (o ∉ l.*2) ->
  good (insert_at (lead (fun e => elt_ltb e (s, o)) l) (s, o) l).
Proof.
  intros [Hs Hnd] Hok Ho. split; [by apply sorted_insert|]. rewrite insert_at_perm. cbn. by apply NoDup_cons.
Qed.

Lemma good_cut l a b : good l -> (a <= b)%nat -> good (take a l ++ drop b l).
Proof.
  intros [Hs Hnd] Hab. split; [by apply sorted_cut|]. eapply sublist_NoDup; [exact Hnd|].
  apply fmap_sublist. rewrite <- (take_drop a l) at 3. apply sublist_app; [done|].
  replace b with (a + (b - a))%nat by lia. rewrite <- drop_drop. apply sublist_drop.
Qed.

(** One operation: the program's step is the specification's. *)
Lemma run_op_spec o h sl C hs l : represents h sl C hs l -> good l -> op_ok o l ->
  exists h' sl' C' hs', run_op o h sl = Ret ((spec_op o l).1, h', sl') /\
    represents h' sl' C' hs' (spec_op o l).2 /\ good (spec_op o l).2.
Proof.
  intros Hr [Hs Hnd] Hop. pose proof (rp_chain _ _ _ _ _ Hr) as Hch. destruct o; cbn [run_op spec_op fst snd op_ok] in *.
  - destruct Hop as (Hok & Hno & Hsm & Hrs). destruct (slRandomLevel_range rs Hrs) as (level & rs' & -> & Hl).
    rewrite bind_Ret. destruct (slInsert_spec j level (malloc h) h sl C hs l score obj) as (h' & sl' & C' & hs' & -> & Hr');
      try done. rewrite bind_Ret. exists h', sl', C', hs'. split; [done|]. split; [done|]. by apply good_insert.
  - destruct (slDelete_spec h sl C hs l score obj Hr Hs Hop) as (h' & sl' & C' & hs' & -> & Hr').
    destruct (delete_filter l (score, obj) Hs Hnd) as [-> ->]. rewrite bind_Ret. exists h', sl', C', hs'.
    split; [done|]. split; [done|]. destruct (match l !! _ with Some _ => _ | None => _ end); [|done].
    by apply good_cut; [|lia].
  - destruct Hop as [H1 H2]. unfold rank_arg in *. unfold _delete_by_rank. rewrite !u32_small by lia.
    assert (E : (if end_ <? start then slDeleteByRank h sl end_ start else slDeleteByRank h sl start end_)
      = slDeleteByRank h sl (Z.min start end_) (Z.max start end_)).
    { destruct (Z.ltb_spec end_ start); [rewrite Z.min_r, Z.max_l by lia|rewrite Z.min_l, Z.max_r by lia]; done. }
    rewrite E. destruct (slDeleteByRank_spec h sl C hs l (Z.min start end_) (Z.max start end_) Hr)
      as (h' & sl' & C' & hs' & -> & Hr'); [lia..|].
    rewrite Nat.max_r in * by lia. rewrite bind_Ret. exists h', sl', C', hs'. split; [done|]. split; [done|].
    apply good_cut; [done|lia].
  - rewrite (rp_length _ _ _ _ _ Hr). by exists h, sl, C, hs.
  - destruct Hop as [Hok Hsc]. rewrite (slGetRank_spec h sl C hs l Hr score obj Hs Hok Hnd Hsc), bind_Ret.
    by exists h, sl, C, hs.
  - destruct Hop as [H1 H2]. rewrite (rank_range_spec h sl C hs l Hr r1 r2 H1 H2), bind_Ret. by exists h, sl, C, hs.
  - destruct Hop as [H1 H2]. destruct (dlt s2 s1) eqn:E.
    + rewrite (score_down h sl C hs l Hr Hs s1 s2 H2 H1 E), bind_Ret. by exists h, sl, C, hs.
    + rewrite (score_up h sl C hs l Hr Hs s1 s2 H1 H2 E), bind_Ret. by exists h, sl, C, hs.
Qed.

Lemma run_ops_spec os : forall h sl C hs l, represents h sl C hs l -> good l -> ops_ok os l ->
  exists h' sl' C' hs', run_ops os h sl = Ret ((spec_ops os l).1, h', sl') /\
    represents h' sl' C' hs' (spec_ops os l).2.
Proof.
  induction os as [|o os IH]; intros h sl C hs l Hr Hg Hok; cbn [run_ops spec_ops].
  { by exists h, sl, C, hs. }
  destruct Hok as [Ho Hos]. destruct (run_op_spec o h sl C hs l Hr Hg Ho) as (h1 & sl1 & C1 & hs1 & -> & Hr1 & Hg1).
  rewrite bind_Ret. destruct (spec_op o l) as [r l1]. cbn [fst snd] in *.
  destruct (IH h1 sl1 C1 hs1 l1 Hr1 Hg1 Hos) as (h2 & sl2 & C2 & hs2 & -> & Hr2). rewrite bind_Ret.
  destruct (spec_ops os l1) as [rs l2]. by exists h2, sl2, C2, hs2.
Qed.

(** C3: from its creation, the skip list answers every sequence of insertions, deletions, rank
    queries, rank ranges and score ranges (ascending and descending) that keeps to [ops_ok] as a
    list sorted by score and object does, whatever levels [random()] gives the nodes and whatever
    addresses [malloc] returns; no step fails or runs out of fuel, and after the release nothing
    stays allocated. [ops_ok] is how [zset.lua] calls it: an object is inserted when it is not in
    the set, and its rank is asked for with the score it has there (with another score the answer
    depends on the levels, [rank_ignores_score]); scores are not NaN, objects are shorter than
    [2 ^ 31] bytes, ranks are positive ints, the set has fewer than [2 ^ 31 - 2] elements, and one
    of the values of [random()] ends the choice of a level. *)
Theorem skiplist_refinement os :
  ops_ok os [] -> set_session os = Ret ((spec_ops os []).1, ∅).
Proof.
  intros Hok. unfold set_session. destruct (slCreate_spec ∅ (malloc ∅) eq_refl) as (sl & h & -> & Hr). rewrite bind_Ret.
  destruct (run_ops_spec os h sl _ _ [] Hr) as (h' & sl' & C' & hs' & -> & Hr'); [|done|].
  - split; [|constructor]. split; [by intros [|i] [|j'] a b|by intros [|i] e].
  - rewrite bind_Ret, (rp_length _ _ _ _ _ Hr'), Nat2Z.id. by rewrite (slFree_spec _ _ _ _ _ Hr').
Qed.
End program.

(** ** Concrete sets *)

(** A [malloc] that returns an address out of use. *)
Definition demo_malloc (h : heap) : loc := fresh (dom h : gset loc).

Lemma demo_malloc_fresh h : h !! demo_malloc h = None.
Proof. apply (not_elem_of_dom (D:=gset loc)). unfold demo_malloc. apply (is_fresh (dom h : gset loc)). Qed.

Definition demo_junk : junk := Junk (SkiplistLevel (Some 77%positive) 99) (Some 78%positive).
Definition one : double := S754_finite false 4503599627370496 (-52).
Definition two : double := S754_finite false 4503599627370496 (-51).
Definition three : double := S754_finite false 6755399441055744 (-51).

Definition demo_ops : list set_op :=
  [ OpInsert [16384] two (str "bob"); OpInsert [5; 16384] one (str "alice"); OpInsert [16384] two (str "al");
    OpRank two (str "bob"); OpScoreRange two one; OpDelete one (str "alice"); OpRankRange 2 1; OpCount ].

(** [op_ok] as a test. *)
Definition elt_okb (e : elt) : bool :=
  match e.1 with S754_nan => false | _ => true end && (Z.of_nat (length e.2) <? 2 ^ 31).
Definition rank_argb (r : Z) : bool := (1 <=? r) && (r <? 2 ^ 31).
Definition op_okb (o : set_op) (l : list elt) : bool :=
  match o with
  | OpInsert rs s o => elt_okb (s, o) && negb (existsb (fun e => bool_decide (e.2 = o)) l) &&
      (Z.of_nat (length l) + 2 <? 2 ^ 31) && existsb (fun r => 16383 <? Z.land r 0xffff) rs
  | OpDelete s o => elt_okb (s, o)
  | OpDeleteByRank r1 r2 | OpRankRange r1 r2 => rank_argb r1 && rank_argb r2
  | OpCount => true
  | OpRank s o => elt_okb (s, o) &&
      forallb (fun e => implb (bool_decide (e.2 = o)) (bool_decide (double_key e.1 = double_key s))) l
  | OpScoreRange s1 s2 => elt_okb (s1, []) && elt_okb (s2, [])
  end.
Fixpoint ops_okb (os : list set_op) (l : list elt) : bool :=
  match os with [] => true | o :: os => op_okb o l && ops_okb os (spec_op o l).2 end.

Lemma elt_okb_ok e : elt_okb e = true -> elt_ok e.
Proof.
  unfold elt_okb, elt_ok, ordered, short. destruct e as [s o]; cbn [fst snd].
  intros [Hs Ho]%andb_true_iff. split; [by intros ->|lia].
Qed.

Lemma op_okb_ok o l : op_okb o l = true -> op_ok o l.
Proof.
  destruct o; cbn; unfold rank_arg, rank_argb; rewrite ?andb_true_iff; intros; destruct_and?; try done; try lia.
  - split; [by apply elt_okb_ok|]. split; [|split; [lia|]].
    + intros (e & -> & He)%list_elem_of_fmap. rewrite negb_true_iff in *.
      assert (existsb (fun e0 => bool_decide (e0.2 = e.2)) l = true); [|congruence].
      apply existsb_exists. exists e. split; [by apply list_elem_of_In|]. by apply bool_decide_eq_true.
    + apply Exists_exists. match goal with H : existsb _ _ = true |- _ => apply existsb_exists in H as (r & Hr & ?) end.
      exists r. split; [by apply list_elem_of_In|lia].
  - by apply elt_okb_ok.
  - split; [by apply elt_okb_ok|]. intros i s' Hi. rewrite forallb_forall in *.
    match goal with H : forall x, In x l -> _ |- _ => specialize (H (s', obj)) end.
    cbn in *. rewrite !bool_decide_eq_true_2 in * by done. 
    match goal with H : In _ l -> _ |- _ => rewrite implb_true_l, bool_decide_eq_true in H; apply H end.
    apply list_elem_of_In. by apply list_elem_of_lookup_2 with i.
  - split; [by apply (elt_okb_ok (s1, []))|by apply (elt_okb_ok (s2, []))].
Qed.

Lemma ops_okb_ok os : forall l, ops_okb os l = true -> ops_ok os l.
Proof.
  induction os as [|o os IH]; intros l; cbn; [done|]. intros [Ho Hos]%andb_true_iff.
  split; [by apply op_okb_ok|by apply IH].
Qed.

Lemma demo_ops_ok : ops_ok demo_ops [].
Proof. apply ops_okb_ok. vm_compute. reflexivity. Qed.

Lemma skiplist_refinement_witness :
  ops_ok demo_ops [] /\
  set_session demo_malloc demo_junk demo_ops = Ret (
    [RNone; RNone; RNone; RNumber 3; RObjects [str "bob"; str "al"; str "alice"]; RFound true;
     RObjects [str "bob"; str "al"]; RNumber 2], ∅).
Proof.
  split; [exact demo_ops_ok|].
  rewrite (skiplist_refinement demo_malloc demo_junk demo_malloc_fresh demo_ops demo_ops_ok).
  vm_compute. reflexivity.
Defined.

(** SlGetRank compares only objects where it stops, so with a score that is
    not the object's the answer depends on the random heights of the nodes: the
    same set gives rank 1 or 0. *)
Theorem rank_ignores_score :
  let session r := set_session (fun h => Pos.of_succ_nat (size h)) demo_junk
    [OpInsert [r; 16384] one (str "alice"); OpInsert [16384] two (str "bob"); OpRank three (str "alice")] in
  session 5 = Ret ([RNone; RNone; RNumber 1], ∅) /\ session 16384 = Ret ([RNone; RNone; RNumber 0], ∅).
Proof. split; vm_compute; reflexivity. Qed.
