(* ===== verification/Netpack.v ===== *)
(** Packet framing on sockets, [lualib-src/lua-netpack.c]: the queue of
    complete packets, the table of incomplete ones, and the splitting of the
    data of a socket into packets. *)
From S2P Require Import Prelude Ring.

#[local] Arguments Nat.ltb : simpl never.

(** ** Data *)

Definition QUEUESIZE : Z := 1024.
Definition HASHSIZE : Z := 4096.

(** [buffer] is the contents of the block, [None] for a NULL pointer. *)
Record netpack := Netpack { np_id : Z; np_size : Z; np_buffer : option bytes }.

(** The [next] links are the list that holds the record. *)
Record uncomplete := Uncomplete { uc_pack : netpack; uc_read : Z; uc_header : Z }.

Record queue := Queue {
  q_cap : Z; q_head : Z; q_tail : Z;
  q_hash : list (list uncomplete);
  q_queue : list (option netpack) }.

Definition with_hash (q : queue) hash := Queue (q_cap q) (q_head q) (q_tail q) hash (q_queue q).

(** [message] of [skynet_socket.h]. *)
Definition SKYNET_SOCKET_TYPE_DATA : Z := 1.
Definition SKYNET_SOCKET_TYPE_CONNECT : Z := 2.
Definition SKYNET_SOCKET_TYPE_CLOSE : Z := 3.
Definition SKYNET_SOCKET_TYPE_ACCEPT : Z := 4.
Definition SKYNET_SOCKET_TYPE_ERROR : Z := 5.
Definition SKYNET_SOCKET_TYPE_WARNING : Z := 7.

(** A NULL [buffer] means that the text follows the structure. *)
Record skynet_socket_message := SocketMessage {
  sm_type : Z; sm_id : Z; sm_ud : Z; sm_buffer : option bytes; sm_padding : bytes }.

(** What [filter] returns to Lua after the queue. *)
Inductive filtered :=
  | FNothing
  | FData (fd : Z) (buffer : bytes) (size : Z)
  | FMore
  | FError (fd : Z) (msg : bytes)
  | FOpen (fd : Z) (msg : bytes)
  | FClose (fd : Z)
  | FWarning (fd size : Z).

(** [buffer + n] *)
Definition advance (buffer : bytes) (n : Z) : bytes := drop (Z.to_nat n) buffer.

(** ** The table of incomplete packets *)

(** The sums are of [int]s. *)
Definition hash_fd (fd : Z) : outcome Z :=
  let a := Z.shiftr fd 24 in
  let b := Z.shiftr fd 12 in
  s ← int_ok (a + b);
  s ← int_ok (s + fd);
  Ret (u32 s mod HASHSIZE).

(** The first record of [fd] is taken out of the list. *)
Fixpoint take_out (fd : Z) (l : list uncomplete) : option uncomplete * list uncomplete :=
  match l with
  | [] => (None, [])
  | uc :: l =>
      if np_id (uc_pack uc) =? fd then (Some uc, l)
      else let '(r, l') := take_out fd l in (r, uc :: l')
  end.

Definition find_uncomplete (q : option queue) (fd : Z) : outcome (option uncomplete * option queue) :=
  match q with
  | None => Ret (None, None)
  | Some q =>
      h ← hash_fd fd;
      l ← arr_get (q_hash q) h;
      let '(r, l) := take_out fd l in
      hash ← arr_set (q_hash q) h l;
      Ret (r, Some (with_hash q hash))
  end.

Definition get_queue (q : option queue) : queue :=
  match q with
  | Some q => q
  | None => Queue QUEUESIZE 0 0 (replicate (Z.to_nat HASHSIZE) []) (replicate (Z.to_nat QUEUESIZE) None)
  end.

(** Put [uc] at the front of the list of its socket. *)
Definition link_uncomplete (q : queue) (fd : Z) (uc : uncomplete) : outcome queue :=
  h ← hash_fd fd;
  l ← arr_get (q_hash q) h;
  hash ← arr_set (q_hash q) h (uc :: l);
  Ret (with_hash q hash).

(** [save_uncomplete], with the fields that its caller sets. *)
Definition save_uncomplete (q : option queue) (fd read header size : Z) (buffer : option bytes) : outcome queue :=
  link_uncomplete (get_queue q) fd (Uncomplete (Netpack fd size buffer) read header).

Definition close_uncomplete (q : option queue) (fd : Z) : outcome (option queue) :=
  '(_, q) ← find_uncomplete q fd;
  Ret q.

(** ** The queue of packets *)

(** The larger queue takes the table; the cells past [cap] are uninitialised. *)
Definition expand_queue (q : queue) : outcome queue :=
  ms ← mapM (fun i => arr_get (q_queue q) ((q_head q + i) mod q_cap q)) (zrange 0 (q_cap q));
  Ret (Queue (q_cap q + QUEUESIZE) 0 (q_cap q) (q_hash q) (ms ++ replicate (Z.to_nat QUEUESIZE) None)).

(** The copy that [clone] asks for has the same contents. *)
Definition push_data (q : option queue) (fd : Z) (buffer : bytes) (size : Z) : outcome queue :=
  let q := get_queue q in
  cells ← arr_set (q_queue q) (q_tail q) (Some (Netpack fd size (Some buffer)));
  let tail := q_tail q + 1 in
  let tail := if q_cap q <=? tail then tail - q_cap q else tail in
  let q := Queue (q_cap q) (q_head q) tail (q_hash q) cells in
  if q_head q =? q_tail q then expand_queue q else Ret q.

(** The copy made for [clone]: the first [size] bytes. *)
Definition clone_data (buffer : bytes) (size : Z) : outcome bytes :=
  if Z.of_nat (length buffer) <? size then Undefined else Ret (take (Z.to_nat size) buffer).

Definition lpop (q : option queue) : outcome (option netpack * option queue) :=
  match q with
  | None => Ret (None, None)
  | Some q =>
      if q_head q =? q_tail q then Ret (None, Some q)
      else
        np ← arr_get (q_queue q) (q_head q);
        np ← deref np;
        let head := q_head q + 1 in
        let head := if q_cap q <=? head then 0 else head in
        Ret (Some np, Some (Queue (q_cap q) head (q_tail q) (q_hash q) (q_queue q)))
  end.

(** Every packet of the queue is read to be freed. *)
Definition lclear (q : option queue) : outcome (option queue) :=
  match q with
  | None => Ret None
  | Some q =>
      let tail := if q_tail q <? q_head q then q_tail q + q_cap q else q_tail q in
      _ ← mapM (fun i => np ← arr_get (q_queue q) (i mod q_cap q); deref np) (zrange (q_head q) tail);
      Ret (Some (Queue (q_cap q) 0 0 (replicate (Z.to_nat HASHSIZE) []) (q_queue q)))
  end.

(** ** Splitting *)

Definition read_size (buffer : bytes) : outcome Z :=
  b0 ← arr_get buffer 0;
  b1 ← arr_get buffer 1;
  Ret (Z.lor (Z.shiftl b0 8) b1).

Section split.
(** What [skynet_malloc(n)] leaves in the new block. *)
Context (malloc : Z -> bytes).

(** Save the beginning of a packet of [pack_size] bytes. *)
Definition save_part (q : option queue) (fd : Z) (buffer : bytes) (size pack_size : Z) : outcome queue :=
  part ← memcpy (malloc pack_size) 0 buffer size;
  save_uncomplete q fd size 0 pack_size (Some part).

Fixpoint push_more (fuel : nat) (q : option queue) (fd : Z) (buffer : bytes) (size : Z) : outcome queue :=
  match fuel with
  | O => Undefined
  | S fuel =>
      if size =? 1 then
        b ← arr_get buffer 0;
        save_uncomplete q fd (-1) b 0 None
      else
        pack_size ← read_size buffer;
        let buffer := advance buffer 2 in
        let size := size - 2 in
        if size <? pack_size then save_part q fd buffer size pack_size
        else
          data ← clone_data buffer pack_size;
          q ← push_data q fd data pack_size;
          let buffer := advance buffer pack_size in
          let size := size - pack_size in
          if 0 <? size then push_more fuel (Some q) fd buffer size else Ret q
  end.

(** The size of the packet is completed by its second byte. *)
Definition fill_header (uc : uncomplete) (buffer : bytes) (size : Z) : outcome (uncomplete * bytes * Z) :=
  if uc_read uc <? 0 then
    _ ← assert_ (uc_read uc =? -1);
    b ← arr_get buffer 0;
    let pack_size := Z.lor b (Z.shiftl (uc_header uc) 8) in
    Ret (Uncomplete (Netpack (np_id (uc_pack uc)) pack_size (Some (malloc pack_size))) 0 (uc_header uc),
         advance buffer 1, size - 1)
  else Ret (uc, buffer, size).

Definition filter_data_ (q : option queue) (fd : Z) (buffer : bytes) (size : Z)
    : outcome (filtered * option queue) :=
  '(uc, q) ← find_uncomplete q fd;
  match uc with
  | Some uc =>
      '(uc, buffer, size) ← fill_header uc buffer size;
      block ← deref (np_buffer (uc_pack uc));
      let need := np_size (uc_pack uc) - uc_read uc in
      if size <? need then
        block ← memcpy block (uc_read uc) buffer size;
        let uc := Uncomplete (Netpack (np_id (uc_pack uc)) (np_size (uc_pack uc)) (Some block))
                    (uc_read uc + size) (uc_header uc) in
        q ← deref q;
        q ← link_uncomplete q fd uc;
        Ret (FNothing, Some q)
      else
        block ← memcpy block (uc_read uc) buffer need;
        let buffer := advance buffer need in
        let size := size - need in
        if size =? 0 then Ret (FData fd block (np_size (uc_pack uc)), q)
        else
          q ← push_data q fd block (np_size (uc_pack uc));
          q ← push_more (Z.to_nat size) (Some q) fd buffer size;
          Ret (FMore, Some q)
  | None =>
      if size =? 1 then
        b ← arr_get buffer 0;
        q ← save_uncomplete q fd (-1) b 0 None;
        Ret (FNothing, Some q)
      else
        pack_size ← read_size buffer;
        let buffer := advance buffer 2 in
        let size := size - 2 in
        if size <? pack_size then
          q ← save_part q fd buffer size pack_size;
          Ret (FNothing, Some q)
        else if size =? pack_size then
          data ← memcpy (malloc pack_size) 0 buffer size;
          Ret (FData fd data size, q)
        else
          data ← clone_data buffer pack_size;
          q ← push_data q fd data pack_size;
          let buffer := advance buffer pack_size in
          let size := size - pack_size in
          q ← push_more (Z.to_nat size) (Some q) fd buffer size;
          Ret (FMore, Some q)
  end.

(** [size] bytes of the text; a negative [size] is a huge [size_t]. *)
Definition pushstring (msg : option bytes) (size : Z) : outcome bytes :=
  match msg with
  | None => Ret []
  | Some m => if (size <? 0) || (Z.of_nat (length m) <? size) then Undefined else Ret (take (Z.to_nat size) m)
  end.

(** [size] is the third argument from Lua and [header] the size of the
    structure. *)
Definition lfilter (q : option queue) (message : skynet_socket_message) (size header : Z)
    : outcome (filtered * option queue) :=
  let '(buffer, size) :=
    match sm_buffer message with
    | None => (Some (sm_padding message), size - header)
    | Some b => (Some b, -1)
    end in
  let t := sm_type message in
  if t =? SKYNET_SOCKET_TYPE_DATA then
    _ ← assert_ (size =? -1);
    b ← deref buffer;
    filter_data_ q (sm_id message) b (sm_ud message)
  else if t =? SKYNET_SOCKET_TYPE_CONNECT then Ret (FNothing, q)
  else if t =? SKYNET_SOCKET_TYPE_CLOSE then
    q ← close_uncomplete q (sm_id message);
    Ret (FClose (sm_id message), q)
  else if t =? SKYNET_SOCKET_TYPE_ACCEPT then
    s ← pushstring buffer size;
    Ret (FOpen (sm_ud message) s, q)
  else if t =? SKYNET_SOCKET_TYPE_ERROR then
    q ← close_uncomplete q (sm_id message);
    s ← pushstring buffer size;
    Ret (FError (sm_id message) s, q)
  else if t =? SKYNET_SOCKET_TYPE_WARNING then Ret (FWarning (sm_id message) (sm_ud message), q)
  else Ret (FNothing, q).
End split.

(** ** Packing *)

Definition write_size (len : Z) : bytes := [Z.land (Z.shiftr len 8) 0xff; Z.land len 0xff].

Definition lpack (ptr : bytes) : outcome (bytes * Z) :=
  let len := Z.of_nat (length ptr) in
  if 0x10000 <=? len then LuaError "Invalid size (too long) of data"
  else Ret (write_size len ++ ptr, len + 2).

Definition ltostring (ptr : option bytes) (size : Z) : outcome bytes := pushstring ptr size.
