(* ===== verification/NetpackFilter.v ===== *)
(** Packet framing against streams of bytes: whatever pieces the data of the
    sockets arrives in, [filter] and [pop] deliver the packets of each stream,
    in order. *)
From S2P Require Import Prelude Ring Netpack.

#[local] Arguments Nat.ltb : simpl never.

(** ** Streams of packets *)

(** The packets at the beginning of a stream, and the incomplete rest. *)
Fixpoint split_fuel (fuel : nat) (s : bytes) : list bytes * bytes :=
  match fuel, s with
  | S fuel, b0 :: b1 :: s' =>
      let n := Z.to_nat (b0 * 256 + b1) in
      if (length s' <? n)%nat then ([], s)
      else let '(ps, r) := split_fuel fuel (drop n s') in (take n s' :: ps, r)
  | _, _ => ([], s)
  end.
Definition split (s : bytes) : list bytes * bytes := split_fuel (length s) s.

Lemma split_fuel_irrel f : forall g s, (length s <= f)%nat -> (length s <= g)%nat -> split_fuel f s = split_fuel g s.
Proof.
  induction f as [|f IH]; intros g s Hf Hg; destruct g as [|g], s as [|b0 [|b1 s]]; try done; cbn in *; try lia.
  destruct (_ <? _)%nat; [done|]. rewrite (IH g); [done|rewrite length_drop; lia..].
Qed.

Lemma split_fuel_S f b0 b1 s : split_fuel (S f) (b0 :: b1 :: s) =
  let n := Z.to_nat (b0 * 256 + b1) in
  if (length s <? n)%nat then ([], b0 :: b1 :: s)
  else let '(ps, r) := split_fuel f (drop n s) in (take n s :: ps, r).
Proof. done. Qed.

Lemma split_cons b0 b1 s : split (b0 :: b1 :: s) =
  let n := Z.to_nat (b0 * 256 + b1) in
  if (length s <? n)%nat then ([], b0 :: b1 :: s)
  else let '(ps, r) := split (drop n s) in (take n s :: ps, r).
Proof.
  unfold split. change (length (b0 :: b1 :: s)) with (S (S (length s))). rewrite split_fuel_S. cbv zeta.
  destruct (_ <? _)%nat; [done|].
  rewrite (split_fuel_irrel (S (length s)) (length (drop (Z.to_nat (b0 * 256 + b1)) s)) (drop _ s)); [done|rewrite length_drop; lia|lia].
Qed.

Lemma split_ind (P : bytes -> Prop) :
  P [] -> (forall b, P [b]) ->
  (forall b0 b1 s, (length s < Z.to_nat (b0 * 256 + b1))%nat -> P (b0 :: b1 :: s)) ->
  (forall b0 b1 s, (Z.to_nat (b0 * 256 + b1) <= length s)%nat -> P (drop (Z.to_nat (b0 * 256 + b1)) s) -> P (b0 :: b1 :: s)) ->
  forall s, P s.
Proof.
  intros H0 H1 Hpart Hfull s. remember (length s) as n eqn:Hn. revert s Hn.
  induction n as [n IH] using lt_wf_ind. intros [|b0 [|b1 s]] Hn; [done|done|].
  destruct (decide (length s < Z.to_nat (b0 * 256 + b1))%nat); [by apply Hpart|].
  apply Hfull; [lia|]. apply (IH (length (drop (Z.to_nat (b0 * 256 + b1)) s))); [|done].
  rewrite length_drop. cbn in Hn. lia.
Qed.

(** Splitting piece by piece. *)
Lemma split_app s : forall t, split (s ++ t) =
  let '(ps, r) := split s in let '(qs, r') := split (r ++ t) in (ps ++ qs, r').
Proof.
  induction s as [|b|b0 b1 s Hs|b0 b1 s Hs IH] using split_ind; intros t.
  - change (split []) with ([] : list bytes, [] : bytes). cbn [app]. by destruct (split t).
  - cbn [app]. change (split [b]) with ([] : list bytes, [b]). cbn [app]. by destruct (split (b :: t)).
  - rewrite (split_cons b0 b1 s). cbv zeta. rewrite (proj2 (Nat.ltb_lt _ _)) by done. cbn [app].
    by destruct (split (b0 :: b1 :: s ++ t)).
  - cbn [app]. rewrite !split_cons. cbv zeta. rewrite !(proj2 (Nat.ltb_ge _ _)) by (rewrite ?length_app; lia).
    rewrite drop_app_le, take_app_le, IH by lia. destruct (split (drop _ s)) as [ps r].
    by destruct (split (r ++ t)) as [qs r'].
Qed.

(** What is left has no complete packet. *)
Lemma split_rest s ps r : split s = (ps, r) -> split r = ([], r).
Proof.
  revert ps r. induction s as [|b|b0 b1 s Hs|b0 b1 s Hs IH] using split_ind; intros ps r.
  - by intros [= <- <-].
  - by intros [= <- <-].
  - rewrite split_cons. cbv zeta. rewrite (proj2 (Nat.ltb_lt _ _)) by done. intros [= <- <-].
    rewrite split_cons. cbv zeta. by rewrite (proj2 (Nat.ltb_lt _ _)).
  - rewrite split_cons. cbv zeta. rewrite (proj2 (Nat.ltb_ge _ _)) by lia.
    destruct (split (drop _ s)) as [ps' r'] eqn:E. intros [= <- <-]. by eapply IH.
Qed.

(** A packet as [pack] writes it. *)
Lemma split_pack p s : Z.of_nat (length p) < 65536 ->
  split (write_size (Z.of_nat (length p)) ++ p ++ s) = let '(ps, r) := split s in (p :: ps, r).
Proof.
  intros Hp. unfold write_size. cbn [app]. rewrite split_cons. cbv zeta.
  assert (E : Z.to_nat (Z.land (Z.shiftr (Z.of_nat (length p)) 8) 255 * 256 + Z.land (Z.of_nat (length p)) 255) = length p).
  { change 255 with (2 ^ 8 - 1). rewrite !land_ones_pow2, Z.shiftr_div_pow2 by lia. change (2 ^ 8) with 256.
    rewrite (Z.mod_small (Z.of_nat (length p) / 256)) by (split; [apply Z.div_pos; lia|apply Z.div_lt_upper_bound; lia]).
    pose proof (Z.div_mod (Z.of_nat (length p)) 256). lia. }
  rewrite E, (proj2 (Nat.ltb_ge _ _)) by (rewrite length_app; lia). by rewrite drop_app_length, take_app_length.
Qed.

(** ** Sockets *)

(** The socket numbers whose hash does not overflow an [int]. *)
Definition fd_ok (fd : Z) : Prop := 0 <= fd < 2 ^ 31 - 2 ^ 20.

Lemma hash_fd_ok fd : fd_ok fd -> exists h : nat, hash_fd fd = Ret (Z.of_nat h) /\ (h < 4096)%nat.
Proof.
  unfold fd_ok. intros Hfd. unfold hash_fd. rewrite !Z.shiftr_div_pow2 by lia.
  pose proof (Z.div_lt_upper_bound fd (2 ^ 24) 128 ltac:(lia) ltac:(lia)).
  pose proof (Z.div_lt_upper_bound fd (2 ^ 12) 524288 ltac:(lia) ltac:(lia)).
  pose proof (Z.div_pos fd (2 ^ 24) ltac:(lia) ltac:(lia)). pose proof (Z.div_pos fd (2 ^ 12) ltac:(lia) ltac:(lia)).
  unfold INT_MIN, INT_MAX in *.
  rewrite (int_ok_Ret (fd / 2 ^ 24 + fd / 2 ^ 12)), bind_Ret by (unfold INT_MIN, INT_MAX; lia).
  rewrite int_ok_Ret, bind_Ret by (unfold INT_MIN, INT_MAX; lia).
  pose proof (Z.mod_pos_bound (u32 (fd / 2 ^ 24 + fd / 2 ^ 12 + fd)) HASHSIZE ltac:(done)) as Hm.
  exists (Z.to_nat (u32 (fd / 2 ^ 24 + fd / 2 ^ 12 + fd) mod HASHSIZE)). unfold HASHSIZE in *.
  rewrite Z2Nat.id by lia. split; [done|lia].
Qed.

Lemma size_lor b0 b1 : word 8 b0 -> word 8 b1 -> Z.lor (Z.shiftl b0 8) b1 = b0 * 256 + b1.
Proof.
  unfold word. intros. rewrite Z.lor_comm, lor_shiftl_add by lia. change (2 ^ 8) with 256. lia.
Qed.

(** [uc] holds the bytes [r] of the socket [fd]. *)
Definition holds (fd : Z) (uc : uncomplete) (r : bytes) : Prop :=
  np_id (uc_pack uc) = fd /\ is_bytes (take 2 r) /\
  ((uc_read uc = -1 /\ r = [uc_header uc]) \/
   (exists b0 b1 block, r = b0 :: b1 :: take (Z.to_nat (uc_read uc)) block /\
      np_size (uc_pack uc) = b0 * 256 + b1 /\ np_buffer (uc_pack uc) = Some block /\
      Z.of_nat (length block) = np_size (uc_pack uc) /\ 0 <= uc_read uc < np_size (uc_pack uc))).

Record table (hash : list (list uncomplete)) (rests : gmap Z bytes) : Prop := {
  tb_length : length hash = 4096%nat;
  tb_holds h l uc : hash !! h = Some l -> uc ∈ l ->
    let fd := np_id (uc_pack uc) in
    fd_ok fd /\ hash_fd fd = Ret (Z.of_nat h) /\ exists r, rests !! fd = Some r /\ holds fd uc r;
  tb_found fd r : rests !! fd = Some r -> exists (h : nat) l uc,
    hash_fd fd = Ret (Z.of_nat h) /\ hash !! h = Some l /\ uc ∈ l /\ np_id (uc_pack uc) = fd;
  tb_nodup h l : hash !! h = Some l -> NoDup ((fun uc => np_id (uc_pack uc)) <$> l) }.

Lemma take_out_spec fd l : NoDup ((fun uc => np_id (uc_pack uc)) <$> l) ->
  match take_out fd l with
  | (None, l') => l' = l /\ forall uc, uc ∈ l -> np_id (uc_pack uc) <> fd
  | (Some uc, l') => uc ∈ l /\ np_id (uc_pack uc) = fd /\
      NoDup ((fun uc => np_id (uc_pack uc)) <$> l') /\ forall uc', uc' ∈ l' <-> uc' ∈ l /\ np_id (uc_pack uc') <> fd
  end.
Proof.
  induction l as [|uc l IH]; cbn; [by split; [|intros ? ?%elem_of_nil]|].
  intros [Hn Hnd]%NoDup_cons. rewrite list_elem_of_fmap in Hn. destruct (Z.eqb_spec (np_id (uc_pack uc)) fd) as [<-|Hne].
  - split; [by left|]. split; [done|]. split; [done|]. intros uc'. rewrite elem_of_cons. split.
    + intros Hin. split; [by right|]. intros E. apply Hn. by exists uc'.
    + intros [[->|?] ?]; done.
  - specialize (IH Hnd). destruct (take_out fd l) as [[uc'|] l'].
    + destruct IH as (Hin & Hid & Hnd' & Hiff). split; [by right|]. split; [done|]. split.
      * cbn. apply NoDup_cons. split; [|done]. rewrite list_elem_of_fmap. intros (uc2 & E & [? _]%Hiff).
        apply Hn. by exists uc2.
      * intros uc2. rewrite !elem_of_cons, Hiff. split; [intros [->|[? ?]]; tauto|intros [[->|?] ?]; tauto].
    + destruct IH as [-> Hno]. split; [done|]. intros uc2 [->|?]%elem_of_cons; auto.
Qed.

(** ** The table *)

Section table.
Context (hash : list (list uncomplete)) (rests : gmap Z bytes) (fd : Z) (h : nat).
Hypothesis Htab : table hash rests.
Hypothesis Hfd : fd_ok fd.
Hypothesis Hh : hash_fd fd = Ret (Z.of_nat h).

Lemma table_bucket : exists l, hash !! h = Some l.
Proof.
  destruct (hash_fd_ok fd Hfd) as (h' & Hh' & Hlt). rewrite Hh in Hh'. injection Hh' as Heq.
  apply lookup_lt_is_Some_2. rewrite (tb_length _ _ Htab). lia.
Qed.

Lemma take_out_bucket l : hash !! h = Some l ->
  match rests !! fd with
  | None => take_out fd l = (None, l)
  | Some r => exists uc l', take_out fd l = (Some uc, l') /\ holds fd uc r /\ table (<[h := l']> hash) (delete fd rests)
  end.
Proof.
  intros Hl. pose proof (take_out_spec fd l (tb_nodup _ _ Htab h l Hl)) as Ht.
  destruct (rests !! fd) as [r|] eqn:Hr; destruct (take_out fd l) as [[uc|] l'] eqn:E.
  - destruct Ht as (Hin & Hid & Hnd & Hiff). destruct (tb_holds _ _ Htab h l uc Hl Hin) as (_ & _ & r' & Hr' & Hholds).
    rewrite Hid in *. rewrite Hr in Hr'. injection Hr' as <-. exists uc, l'. split; [done|]. split; [done|].
    pose proof (lookup_lt_Some _ _ _ Hl). split.
    + rewrite length_insert. apply (tb_length _ _ Htab).
    + intros h2 l2 uc2 Hl2 Hin2. assert (Hold : exists l0, hash !! h2 = Some l0 /\ uc2 ∈ l0 /\ np_id (uc_pack uc2) <> fd).
      { destruct (decide (h2 = h)) as [->|Hne].
        - rewrite list_lookup_insert_eq in Hl2 by lia. injection Hl2 as <-. apply Hiff in Hin2 as [? ?]. by exists l.
        - rewrite list_lookup_insert_ne in Hl2 by done. exists l2. split; [done|]. split; [done|]. intros E2.
          destruct (tb_holds _ _ Htab h2 l2 uc2 Hl2 Hin2) as (_ & Hh2 & _). rewrite E2, Hh in Hh2. injection Hh2. lia. }
      destruct Hold as (l0 & Hl0 & Hin0 & Hne). destruct (tb_holds _ _ Htab h2 l0 uc2 Hl0 Hin0) as (? & ? & r2 & Hr2 & ?).
      split; [done|]. split; [done|]. exists r2. by rewrite lookup_delete_ne by done.
    + intros fd2 r2 [Hne Hr2]%lookup_delete_Some. destruct (tb_found _ _ Htab fd2 r2 Hr2) as (h2 & l2 & uc2 & Hh2 & Hl2 & Hin2 & Hid2).
      destruct (decide (h2 = h)) as [->|].
      * exists h, l', uc2. split; [done|]. rewrite list_lookup_insert_eq by lia. split; [done|]. split; [|done].
        apply Hiff. rewrite Hl in Hl2. injection Hl2 as <-. split; [done|congruence].
      * exists h2, l2, uc2. by rewrite list_lookup_insert_ne.
    + intros h2 l2. destruct (decide (h2 = h)) as [->|].
      * rewrite list_lookup_insert_eq by lia. by intros [= <-].
      * rewrite list_lookup_insert_ne by done. apply (tb_nodup _ _ Htab).
  - exfalso. destruct Ht as [-> Hno]. destruct (tb_found _ _ Htab fd r Hr) as (h2 & l2 & uc & Hh2 & Hl2 & Hin & Hid).
    rewrite Hh in Hh2. injection Hh2 as E2. assert (h2 = h) as -> by lia. rewrite Hl in Hl2. injection Hl2 as <-. by apply (Hno uc).
  - exfalso. destruct Ht as (Hin & Hid & _). destruct (tb_holds _ _ Htab h l uc Hl Hin) as (_ & _ & r & Hr' & _). congruence.
  - by destruct Ht as [-> _].
Qed.

Lemma link_bucket l uc r : hash !! h = Some l -> rests !! fd = None -> holds fd uc r ->
  table (<[h := uc :: l]> hash) (<[fd := r]> rests).
Proof.
  intros Hl Hr Hu. pose proof (lookup_lt_Some _ _ _ Hl). pose proof Hu as [Hid _]. split.
  - rewrite length_insert. apply (tb_length _ _ Htab).
  - intros h2 l2 uc2 Hl2 Hin2. assert (Hc : (h2 = h /\ uc2 = uc) \/ exists l0, hash !! h2 = Some l0 /\ uc2 ∈ l0).
    { destruct (decide (h2 = h)) as [->|].
      - rewrite list_lookup_insert_eq in Hl2 by lia. injection Hl2 as <-. apply elem_of_cons in Hin2 as [->|?]; eauto.
      - rewrite list_lookup_insert_ne in Hl2 by done. eauto. }
    destruct Hc as [[-> ->]|(l0 & Hl0 & Hin0)].
    + cbv zeta. rewrite Hid. split; [done|]. split; [done|]. exists r. by rewrite lookup_insert_eq.
    + destruct (tb_holds _ _ Htab h2 l0 uc2 Hl0 Hin0) as (? & ? & r2 & Hr2 & ?).
      split; [done|]. split; [done|]. exists r2. rewrite lookup_insert_ne; [done|congruence].
  - intros fd2 r2 [[<- <-]|[Hne Hr2]]%lookup_insert_Some.
    + exists h, (uc :: l), uc. rewrite list_lookup_insert_eq by lia. split; [done|]. split; [done|]. split; [by left|done].
    + destruct (tb_found _ _ Htab fd2 r2 Hr2) as (h2 & l2 & uc2 & ? & Hl2 & ? & ?).
      destruct (decide (h2 = h)) as [->|]; [|by exists h2, l2, uc2; rewrite list_lookup_insert_ne].
      exists h, (uc :: l), uc2. rewrite list_lookup_insert_eq by lia. split; [done|]. split; [done|].
      rewrite Hl in Hl2. injection Hl2 as <-. split; [by right|done].
  - intros h2 l2. destruct (decide (h2 = h)) as [->|].
    + rewrite list_lookup_insert_eq by lia. intros [= <-]. cbn. apply NoDup_cons. split; [|apply (tb_nodup _ _ Htab h l Hl)].
      rewrite list_elem_of_fmap. intros (uc2 & E & Hin2).
      destruct (tb_holds _ _ Htab h l uc2 Hl Hin2) as (_ & _ & r2 & Hr2 & _). congruence.
    + rewrite list_lookup_insert_ne by done. apply (tb_nodup _ _ Htab).
Qed.
End table.

(** ** The queue *)

Definition to_pack (p : Z * bytes) : netpack := Netpack p.1 (Z.of_nat (length p.2)) (Some p.2).

(** The queue holds the packets [ms] and the incomplete bytes [rests]. *)
Record queue_repr (q : queue) (rests : gmap Z bytes) (ms : list (Z * bytes)) : Prop := {
  qr_ring : ring (q_queue q) (q_cap q) (q_head q) (to_pack <$> ms);
  qr_free : Z.of_nat (length ms) < q_cap q;
  qr_tail : q_tail q = (q_head q + Z.of_nat (length ms)) mod q_cap q;
  qr_table : table (q_hash q) rests }.

Definition opt_repr (q : option queue) (rests : gmap Z bytes) (ms : list (Z * bytes)) : Prop :=
  match q with Some q => queue_repr q rests ms | None => rests = ∅ /\ ms = [] end.

Lemma empty_table : table (replicate (Z.to_nat HASHSIZE) []) ∅.
Proof.
  split.
  - done.
  - intros h l uc [-> _]%lookup_replicate Hin. by apply elem_of_nil in Hin.
  - intros fd r. by rewrite lookup_empty.
  - intros h l [-> _]%lookup_replicate. constructor.
Qed.

Lemma get_queue_repr q rests ms : opt_repr q rests ms -> queue_repr (get_queue q) rests ms.
Proof.
  destruct q as [q|]; [done|]. intros [-> ->]. cbn. split; cbn -[replicate]; [by apply ring_nil|done|done|apply empty_table].
Qed.

Lemma find_spec q rests ms fd : opt_repr q rests ms -> fd_ok fd ->
  match rests !! fd with
  | None => exists q', find_uncomplete q fd = Ret (None, q') /\ opt_repr q' rests ms
  | Some r => exists q' uc, find_uncomplete q fd = Ret (Some uc, Some q') /\ holds fd uc r /\
      queue_repr q' (delete fd rests) ms
  end.
Proof.
  intros Hq Hfd. destruct q as [q|]; [|destruct Hq as [-> ->]; rewrite lookup_empty; by exists None].
  destruct Hq as [Hring Hfree Htail Htab]. destruct (hash_fd_ok fd Hfd) as (h & Hh & _).
  destruct (table_bucket _ _ _ _ Htab Hfd Hh) as [l Hl]. pose proof (lookup_lt_Some _ _ _ Hl).
  pose proof (take_out_bucket _ _ _ _ Htab Hh l Hl) as Ht. unfold find_uncomplete.
  assert (Hget : arr_get (q_hash q) (Z.of_nat h) = Ret l) by (unfold arr_get; by rewrite arr_lookup_nat, Hl).
  rewrite Hh, bind_Ret, Hget, bind_Ret.
  destruct (rests !! fd) as [r|].
  - destruct Ht as (uc & l' & -> & Hu & Ht). rewrite arr_set_Ret, bind_Ret, Nat2Z.id by lia.
    eexists _, uc. split; [reflexivity|]. split; [done|]. by split.
  - rewrite Ht, arr_set_Ret, bind_Ret, Nat2Z.id by lia. eexists. split; [reflexivity|].
    split; [done|done|done|]. by rewrite list_insert_id.
Qed.

Lemma link_spec q rests ms fd uc r : queue_repr q rests ms -> fd_ok fd -> rests !! fd = None -> holds fd uc r ->
  exists q', link_uncomplete q fd uc = Ret q' /\ queue_repr q' (<[fd := r]> rests) ms.
Proof.
  intros [Hring Hfree Htail Htab] Hfd Hr Hu. destruct (hash_fd_ok fd Hfd) as (h & Hh & _).
  destruct (table_bucket _ _ _ _ Htab Hfd Hh) as [l Hl]. pose proof (lookup_lt_Some _ _ _ Hl).
  unfold link_uncomplete. rewrite Hh, bind_Ret. unfold arr_get. rewrite arr_lookup_nat, Hl. cbn [deref].
  rewrite bind_Ret, arr_set_Ret, bind_Ret, Nat2Z.id by lia. eexists. split; [reflexivity|].
  split; [done|done|done|]. by apply link_bucket.
Qed.

(** A full queue is expanded at once. *)
Lemma push_data_spec q rests ms fd data : opt_repr q rests ms ->
  exists q', push_data q fd data (Z.of_nat (length data)) = Ret q' /\ queue_repr q' rests (ms ++ [(fd, data)]).
Proof.
  intros Hq%get_queue_repr. unfold push_data. set (q0 := get_queue q) in *. destruct Hq as [Hring Hfree Htail Htab].
  pose proof (ring_head _ _ _ _ Hring) as Hhead. pose proof (ring_length _ _ _ _ Hring) as Hlen.
  assert (Hf : Z.of_nat (length (to_pack <$> ms)) < q_cap q0) by (by rewrite length_fmap).
  destruct (ring_push _ _ _ _ (to_pack (fd, data)) Hring Hf) as [Hset Hring']. rewrite length_fmap, <- Htail in Hset, Hring'.
  change (Netpack fd (Z.of_nat (length data)) (Some data)) with (to_pack (fd, data)). rewrite Hset, bind_Ret.
  pose proof (Z.mod_pos_bound (q_head q0 + Z.of_nat (length ms)) (q_cap q0) ltac:(lia)) as Hb. rewrite <- Htail in Hb.
  set (tail := if q_cap q0 <=? q_tail q0 + 1 then _ else _). set (cells := <[_ := _]> _) in *.
  change [to_pack (fd, data)] with (to_pack <$> [(fd, data)]) in Hring'. rewrite <- fmap_app in Hring'.
  assert (Htail' : tail = (q_head q0 + Z.of_nat (length (ms ++ [(fd, data)]))) mod q_cap q0).
  { unfold tail. rewrite length_app. cbn [length]. rewrite Nat2Z.inj_add, Z.add_assoc, <- Zplus_mod_idemp_l, <- Htail.
    change (Z.of_nat 1) with 1. destruct (Z.leb_spec (q_cap q0) (q_tail q0 + 1)).
    - replace (q_tail q0 + 1) with (q_cap q0) by lia. by rewrite Z.sub_diag, Z.mod_same by lia.
    - by rewrite Z.mod_small by lia. }
  cbv zeta. cbn [q_head q_tail]. destruct (Z.eqb_spec (q_head q0) tail) as [Hfull|Hroom].
  - assert (Hn : Z.of_nat (length (ms ++ [(fd, data)])) = q_cap q0).
    { rewrite length_app in *. cbn [length] in *. rewrite Htail', ring_index in Hfull by lia. destruct (decide _); lia. }
    unfold expand_queue. cbn [q_cap q_queue q_hash q_head].
    set (L := to_pack <$> (ms ++ [(fd, data)])) in *.
    assert (HL : length L = length (ms ++ [(fd, data)])) by apply length_fmap.
    pose proof (ring_copy _ _ _ _ (length L) Hring' ltac:(lia)) as Hc. rewrite firstn_all, HL, Hn in Hc.
    unfold zrange. rewrite Z.sub_0_r, Hc, bind_Ret. eexists. split; [reflexivity|].
    split; cbn [q_cap q_queue q_hash q_head q_tail]; [|unfold QUEUESIZE; lia|rewrite Z.add_0_l, Z.mod_small; unfold QUEUESIZE; lia|done].
    fold L. split.
    + rewrite length_app, length_fmap, length_replicate, HL. unfold QUEUESIZE. lia.
    + unfold QUEUESIZE. lia.
    + unfold QUEUESIZE. lia.
    + intros i m Hi. pose proof (lookup_lt_Some _ _ _ Hi) as Hlt.
      rewrite Z.add_0_l, Z.mod_small by (unfold QUEUESIZE; lia). rewrite arr_lookup_nat.
      rewrite lookup_app_l by (by rewrite length_fmap). by rewrite list_lookup_fmap, Hi.
  - eexists. split; [reflexivity|]. split; cbn [q_cap q_queue q_hash q_head q_tail]; [done| |done|done].
    rewrite length_app in *. cbn [length] in *. rewrite Htail', ring_index in Hroom by lia.
    destruct (decide _); lia.
Qed.

(** ** Splitting the data of a socket *)

Definition upd (rests : gmap Z bytes) (fd : Z) (r : bytes) : gmap Z bytes :=
  match r with [] => delete fd rests | _ => <[fd := r]> rests end.

Definition from (fd : Z) (ps : list bytes) : list (Z * bytes) := (fun p => (fd, p)) <$> ps.

Section split.
Context (malloc : Z -> bytes).
Hypothesis Hmalloc : forall n, 0 <= n -> Z.of_nat (length (malloc n)) = n.

Lemma is_bytes_cons b l : is_bytes (b :: l) <-> word 8 b /\ is_bytes l.
Proof. apply Forall_cons. Qed.

Lemma word8 b : word 8 b -> 0 <= b < 256.
Proof. done. Qed.

Lemma clone_ok buffer n : n <= Z.of_nat (length buffer) -> clone_data buffer n = Ret (take (Z.to_nat n) buffer).
Proof. intros. unfold clone_data. by rewrite (proj2 (Z.ltb_ge _ _)). Qed.

Lemma save_part_spec q rests ms fd b0 b1 s : opt_repr q rests ms -> fd_ok fd -> rests !! fd = None ->
  word 8 b0 -> word 8 b1 -> Z.of_nat (length s) < b0 * 256 + b1 ->
  exists q', save_part malloc q fd s (Z.of_nat (length s)) (b0 * 256 + b1) = Ret q' /\
    queue_repr q' (<[fd := b0 :: b1 :: s]> rests) ms.
Proof.
  intros Hq%get_queue_repr Hfd Hr Hb0 Hb1 Hs. pose proof (word8 _ Hb0). pose proof (word8 _ Hb1).
  pose proof (Hmalloc (b0 * 256 + b1) ltac:(lia)). unfold save_part. rewrite memcpy_ok, bind_Ret by lia.
  cbn [Z.to_nat take app]. rewrite Nat2Z.id, firstn_all, Z.add_0_l, Nat2Z.id.
  apply (link_spec _ rests ms); [done|done|done|]. split; [done|]. split; [by constructor; [|constructor; [|constructor]]|]. right.
  exists b0, b1, (s ++ drop (length s) (malloc (b0 * 256 + b1))). cbn [uc_read uc_pack np_size np_buffer].
  rewrite Nat2Z.id, take_app_length. split; [done|]. split; [done|]. split; [done|].
  rewrite length_app, length_drop. lia.
Qed.

Lemma save_header_spec q rests ms fd b : opt_repr q rests ms -> fd_ok fd -> rests !! fd = None -> word 8 b ->
  exists q', save_uncomplete q fd (-1) b 0 None = Ret q' /\ queue_repr q' (<[fd := [b]]> rests) ms.
Proof.
  intros Hq%get_queue_repr Hfd Hr Hb. apply (link_spec _ rests ms); [done|done|done|].
  split; [done|]. split; [by constructor; [|constructor]|]. by left.
Qed.

Lemma upd_nil rests fd : rests !! fd = None -> upd rests fd [] = rests.
Proof. apply delete_id. Qed.

Lemma read_size_cons b0 b1 s : word 8 b0 -> word 8 b1 -> read_size (b0 :: b1 :: s) = Ret (b0 * 256 + b1).
Proof.
  intros. unfold read_size. change (arr_get (b0 :: b1 :: s) 0) with (Ret b0). change (arr_get (b0 :: b1 :: s) 1) with (Ret b1).
  by rewrite !bind_Ret, size_lor.
Qed.

Lemma advance_2 b0 b1 s : advance (b0 :: b1 :: s) 2 = s.
Proof. done. Qed.

(** The length of a stream past its header. *)
Lemma length_2 (b0 b1 : Z) (s : bytes) : Z.of_nat (length (b0 :: b1 :: s)) = Z.of_nat (length s) + 2.
Proof. cbn [length]. lia. Qed.

Lemma push_more_spec fuel : forall q rests ms fd s, opt_repr q rests ms -> fd_ok fd -> rests !! fd = None ->
  is_bytes s -> s <> [] -> (length s <= fuel)%nat ->
  exists q', push_more malloc fuel q fd s (Z.of_nat (length s)) = Ret q' /\
    queue_repr q' (upd rests fd (split s).2) (ms ++ from fd (split s).1).
Proof.
  induction fuel as [|fuel IH]; intros q rests ms fd s Hq Hfd Hr Hs Hne Hf; [by destruct s; cbn in Hf; [|lia]|].
  cbn [push_more]. destruct s as [|b0 [|b1 s]]; [done| |].
  - apply is_bytes_cons in Hs as [Hb _]. change (Z.of_nat (length [b0]) =? 1) with true. cbv iota.
    change (arr_get [b0] 0) with (Ret b0). rewrite bind_Ret.
    destruct (save_header_spec q rests ms fd b0 Hq Hfd Hr Hb) as (q' & -> & Hq'). exists q'. split; [done|].
    change (split [b0]) with ([] : list bytes, [b0]). cbn [from fst snd upd fmap list_fmap]. by rewrite app_nil_r.
  - apply is_bytes_cons in Hs as [Hb0 [Hb1 Hs]%is_bytes_cons]. pose proof (word8 _ Hb0). pose proof (word8 _ Hb1).
    rewrite length_2, (proj2 (Z.eqb_neq (Z.of_nat (length s) + 2) 1)) by lia.
    rewrite read_size_cons, bind_Ret, advance_2 by done. cbv zeta. rewrite Z.add_simpl_r, split_cons. cbv zeta.
    destruct (Z.ltb_spec (Z.of_nat (length s)) (b0 * 256 + b1)) as [Hlt|Hge].
    + rewrite (proj2 (Nat.ltb_lt _ _)) by lia.
      destruct (save_part_spec q rests ms fd b0 b1 s Hq Hfd Hr Hb0 Hb1 Hlt) as (q' & -> & Hq'). exists q'.
      split; [done|]. cbn [from fst snd upd fmap list_fmap]. by rewrite app_nil_r.
    + rewrite (proj2 (Nat.ltb_ge _ _)) by lia. rewrite clone_ok, bind_Ret by lia. unfold advance.
      set (n := Z.to_nat (b0 * 256 + b1)).
      destruct (push_data_spec q rests ms fd (take n s) Hq) as (q1 & Hp & Hq1).
      replace (Z.of_nat (length (take n s))) with (b0 * 256 + b1) in Hp by (rewrite length_take; lia). rewrite Hp, bind_Ret.
      replace (Z.of_nat (length s) - (b0 * 256 + b1)) with (Z.of_nat (length (drop n s))) by (rewrite length_drop; lia).
      destruct (split (drop n s)) as [ps r] eqn:E. cbn [fst snd].
      destruct (Z.ltb_spec 0 (Z.of_nat (length (drop n s)))) as [Hpos|Hz].
      * destruct (IH (Some q1) rests (ms ++ [(fd, take n s)]) fd (drop n s) Hq1 Hfd Hr) as (q' & -> & Hq').
        { by apply Forall_drop. }
        { intros E2. rewrite E2 in Hpos. cbn in Hpos. lia. }
        { rewrite length_drop. cbn in Hf. lia. }
        exists q'. split; [done|]. rewrite E in Hq'. cbn [fst snd] in Hq'. by rewrite <- app_assoc in Hq'.
      * assert (drop n s = []) as Hnil by (apply nil_length_inv; lia). rewrite Hnil in E. injection E as <- <-.
        exists q1. split; [done|]. by rewrite upd_nil.
Qed.

(** The two bytes of the size are known. *)
Lemma fill_header_spec fd uc r0 chunk : holds fd uc r0 -> is_bytes chunk -> chunk <> [] ->
  exists uc' b0 b1 block chunk', fill_header malloc uc chunk (Z.of_nat (length chunk)) = Ret (uc', chunk', Z.of_nat (length chunk')) /\
    r0 ++ chunk = b0 :: b1 :: take (Z.to_nat (uc_read uc')) block ++ chunk' /\ word 8 b0 /\ word 8 b1 /\ is_bytes chunk' /\
    np_id (uc_pack uc') = fd /\ np_size (uc_pack uc') = b0 * 256 + b1 /\ np_buffer (uc_pack uc') = Some block /\
    Z.of_nat (length block) = b0 * 256 + b1 /\ 0 <= uc_read uc' <= b0 * 256 + b1.
Proof.
  intros (Hid & Hw & Hc) Hb Hne. unfold fill_header. destruct Hc as [[Hm ->]|(b0 & b1 & block & -> & Hsz & Hbuf & Hlen & Hrd)].
  - rewrite Hm. destruct chunk as [|b1 c]; [done|]. apply is_bytes_cons in Hb as [Hb1 Hc]. apply is_bytes_cons in Hw as [Hb0 _].
    pose proof (word8 _ Hb0). pose proof (word8 _ Hb1).
    change (arr_get (b1 :: c) 0) with (Ret b1). cbn [Z.ltb Z.compare Z.eqb assert_]. rewrite Pos.eqb_refl.
    cbn [assert_]. rewrite !bind_Ret, Z.lor_comm, size_lor by done.
    eexists _, (uc_header uc), b1, (malloc (uc_header uc * 256 + b1)), c. split.
    { do 2 f_equal. cbn [length]. lia. }
    cbn [uc_pack np_id np_size np_buffer uc_read]. split; [done|]. do 5 (split; [done|]).
    split; [done|]. split; [apply Hmalloc; lia|lia].
  - rewrite (proj2 (Z.ltb_ge _ _)) by lia. apply is_bytes_cons in Hw as [Hb0 [Hb1 _]%is_bytes_cons].
    exists uc, b0, b1, block, chunk. do 7 (split; [done|]). split; [done|]. lia.
Qed.

(** What a call gives Lua and leaves in the queue. *)
Definition delivered (fd : Z) (s : bytes) (ms : list (Z * bytes)) : filtered * list (Z * bytes) :=
  match split s with
  | ([], _) => (FNothing, ms)
  | ([p], []) => (FData fd p (Z.of_nat (length p)), ms)
  | (ps, _) => (FMore, ms ++ from fd ps)
  end.

Lemma delivered_more fd s ms p ps r : split s = (p :: ps, r) -> (ps <> [] \/ r <> []) ->
  delivered fd s ms = (FMore, ms ++ from fd (p :: ps)).
Proof. intros E H. unfold delivered. rewrite E. destruct ps, r; try done. by destruct H. Qed.

(** A non-empty stream has a packet or a rest. *)
Lemma split_nonempty s : s <> [] -> (split s).1 <> [] \/ (split s).2 <> [].
Proof.
  destruct s as [|b0 [|b1 s]]; [done|by right|]. intros _. rewrite split_cons. cbv zeta.
  destruct (_ <? _)%nat; [by right|]. destruct (split (drop _ s)). by left.
Qed.

Definition rest_of (rests : gmap Z bytes) (fd : Z) : bytes := default [] (rests !! fd).

(** A stream whose first packet is partly in a block. *)
Lemma split_block b0 b1 block (rd : nat) c : Z.of_nat (length block) = b0 * 256 + b1 -> (rd <= length block)%nat ->
  split (b0 :: b1 :: take rd block ++ c) =
    if (length c <? length block - rd)%nat then ([], b0 :: b1 :: take rd block ++ c)
    else let '(ps, r) := split (drop (length block - rd) c) in ((take rd block ++ take (length block - rd) c) :: ps, r).
Proof.
  intros Hlen Hrd. rewrite split_cons. cbv zeta. rewrite <- Hlen, Nat2Z.id, length_app, length_take, Nat.min_l by lia.
  destruct (Nat.ltb_spec (rd + length c) (length block)), (Nat.ltb_spec (length c) (length block - rd)); try lia; [done|].
  rewrite drop_app_ge, take_app_ge by (rewrite length_take; lia). by rewrite length_take, Nat.min_l by lia.
Qed.

Lemma fill_spec q rests ms fd uc b0 b1 block chunk :
  queue_repr q rests ms -> fd_ok fd -> rests !! fd = None -> word 8 b0 -> word 8 b1 -> is_bytes chunk ->
  np_id (uc_pack uc) = fd -> np_size (uc_pack uc) = b0 * 256 + b1 -> np_buffer (uc_pack uc) = Some block ->
  Z.of_nat (length block) = b0 * 256 + b1 -> 0 <= uc_read uc <= b0 * 256 + b1 ->
  let s := b0 :: b1 :: take (Z.to_nat (uc_read uc)) block ++ chunk in
  exists q',
    (let need := np_size (uc_pack uc) - uc_read uc in
     let size := Z.of_nat (length chunk) in
      if size <? need then
        block ← memcpy block (uc_read uc) chunk size;
        let uc := Uncomplete (Netpack (np_id (uc_pack uc)) (np_size (uc_pack uc)) (Some block))
                    (uc_read uc + size) (uc_header uc) in
        q ← deref (Some q);
        q ← link_uncomplete q fd uc;
        Ret (FNothing, Some q)
      else
        block ← memcpy block (uc_read uc) chunk need;
        let buffer := advance chunk need in
        let size := size - need in
        if size =? 0 then Ret (FData fd block (np_size (uc_pack uc)), Some q)
        else
          q ← push_data (Some q) fd block (np_size (uc_pack uc));
          q ← push_more malloc (Z.to_nat size) (Some q) fd buffer size;
          Ret (FMore, Some q)) = Ret ((delivered fd s ms).1, Some q') /\
    queue_repr q' (upd rests fd (split s).2) (delivered fd s ms).2.
Proof.
  intros Hq Hfd Hr Hb0 Hb1 Hc Hid Hsz Hbuf Hlen Hrd s. rewrite Hsz. cbv zeta. set (n := b0 * 256 + b1) in *.
  set (rd := Z.to_nat (uc_read uc)) in *. assert (Hrdz : uc_read uc = Z.of_nat rd) by lia. rewrite Hrdz in *.
  assert (Hsp := split_block b0 b1 block rd chunk Hlen ltac:(lia)). fold s in Hsp.
  destruct (Z.ltb_spec (Z.of_nat (length chunk)) (n - Z.of_nat rd)) as [Hlt|Hge].
  - rewrite (proj2 (Nat.ltb_lt _ _)) in Hsp by lia. rewrite memcpy_ok, bind_Ret by lia. cbn [deref]. rewrite bind_Ret.
    rewrite !Nat2Z.id, firstn_all, Hid. unfold delivered. rewrite Hsp. cbn [fst snd]. 
    destruct (link_spec q rests ms fd (Uncomplete (Netpack fd n (Some (take rd block ++ chunk ++ drop (Z.to_nat (Z.of_nat rd + Z.of_nat (length chunk))) block)))
      (Z.of_nat rd + Z.of_nat (length chunk)) (uc_header uc)) s Hq Hfd Hr) as (q' & -> & Hq'); [|by exists q'].
    split; [done|]. split; [by constructor; [|constructor; [|constructor]]|]. right.
    exists b0, b1, (take rd block ++ chunk ++ drop (Z.to_nat (Z.of_nat rd + Z.of_nat (length chunk))) block).
    cbn [uc_read uc_pack np_size np_buffer]. split.
    + unfold s. do 2 f_equal. symmetry. rewrite app_assoc. apply take_app_length'. rewrite length_app, length_take. lia.
    + split; [done|]. split; [done|]. rewrite !length_app, length_take, length_drop. lia.
  - rewrite (proj2 (Nat.ltb_ge _ _)) in Hsp by lia. rewrite memcpy_ok, bind_Ret by lia.
    rewrite Nat2Z.id, (drop_ge block), app_nil_r by lia. unfold advance.
    replace (length block - rd)%nat with (Z.to_nat (n - Z.of_nat rd)) in Hsp by lia. set (need := Z.to_nat (n - Z.of_nat rd)) in *.
    set (p := take rd block ++ take need chunk) in *.
    assert (Hp : Z.of_nat (length p) = n) by (unfold p; rewrite length_app, !length_take; lia).
    destruct (split (drop need chunk)) as [ps r] eqn:E.
    replace (Z.of_nat (length chunk) - (n - Z.of_nat rd)) with (Z.of_nat (length (drop need chunk))) by (rewrite length_drop; lia).
    destruct (Z.eqb_spec (Z.of_nat (length (drop need chunk))) 0) as [Hz|Hnz].
    + assert (drop need chunk = []) as Hnil by (apply nil_length_inv; lia). rewrite Hnil in E. injection E as <- <-.
      exists q. unfold delivered. rewrite Hsp, Hp. split; [done|]. cbn [fst snd]. by rewrite upd_nil.
    + assert (Hdn : drop need chunk <> []) by (intros E2; rewrite E2 in Hnz; done).
      pose proof (split_nonempty _ Hdn) as Hpr. rewrite E in Hpr. cbn [fst snd] in Hpr.
      rewrite (delivered_more fd s ms p ps r Hsp Hpr), Hsp. cbn [fst snd].
      destruct (push_data_spec (Some q) rests ms fd p Hq) as (q1 & Hpush & Hq1). rewrite Hp in Hpush. rewrite Hpush, bind_Ret, Nat2Z.id.
      destruct (push_more_spec (length (drop need chunk)) (Some q1) rests (ms ++ [(fd, p)]) fd (drop need chunk) Hq1 Hfd Hr)
        as (q' & -> & Hq'); [by apply Forall_drop|done|done|].
      exists q'. split; [done|]. rewrite E in Hq'. cbn [fst snd] in Hq'. by rewrite <- app_assoc in Hq'.
Qed.

Lemma upd_delete rests fd r : upd (delete fd rests) fd r = upd rests fd r.
Proof. destruct r; cbn; [by rewrite delete_delete_eq|by rewrite insert_delete_eq]. Qed.

Lemma fresh_spec q rests ms fd chunk : opt_repr q rests ms -> fd_ok fd -> rests !! fd = None -> is_bytes chunk -> chunk <> [] ->
  exists q',
    (let size := Z.of_nat (length chunk) in
      if size =? 1 then
        b ← arr_get chunk 0;
        q ← save_uncomplete q fd (-1) b 0 None;
        Ret (FNothing, Some q)
      else
        pack_size ← read_size chunk;
        let buffer := advance chunk 2 in
        let size := size - 2 in
        if size <? pack_size then
          q ← save_part malloc q fd buffer size pack_size;
          Ret (FNothing, Some q)
        else if size =? pack_size then
          data ← memcpy (malloc pack_size) 0 buffer size;
          Ret (FData fd data size, q)
        else
          data ← clone_data buffer pack_size;
          q ← push_data q fd data pack_size;
          let buffer := advance buffer pack_size in
          let size := size - pack_size in
          q ← push_more malloc (Z.to_nat size) (Some q) fd buffer size;
          Ret (FMore, Some q)) = Ret ((delivered fd chunk ms).1, q') /\
    opt_repr q' (upd rests fd (split chunk).2) (delivered fd chunk ms).2.
Proof.
  intros Hq Hfd Hr Hc Hne. cbv zeta. destruct chunk as [|b0 [|b1 s]]; [done| |].
  - change (Z.of_nat (length [b0]) =? 1) with true. cbv iota. change (arr_get [b0] 0) with (Ret b0). rewrite bind_Ret.
    apply is_bytes_cons in Hc as [Hb _]. destruct (save_header_spec q rests ms fd b0 Hq Hfd Hr Hb) as (q' & -> & Hq').
    by exists (Some q').
  - apply is_bytes_cons in Hc as [Hb0 [Hb1 Hs]%is_bytes_cons]. pose proof (word8 _ Hb0). pose proof (word8 _ Hb1).
    rewrite length_2, (proj2 (Z.eqb_neq (Z.of_nat (length s) + 2) 1)) by lia.
    rewrite read_size_cons, bind_Ret, advance_2, Z.add_simpl_r by done.
    pose proof (split_cons b0 b1 s) as Hsp. cbv zeta in Hsp. set (n := b0 * 256 + b1) in *.
    destruct (Z.ltb_spec (Z.of_nat (length s)) n) as [Hlt|Hge].
    + rewrite (proj2 (Nat.ltb_lt _ _)) in Hsp by lia. unfold delivered. rewrite Hsp.
      destruct (save_part_spec q rests ms fd b0 b1 s Hq Hfd Hr Hb0 Hb1 Hlt) as (q' & Heq & Hq'). fold n in Heq.
      rewrite Heq. by exists (Some q').
    + rewrite (proj2 (Nat.ltb_ge _ _)) in Hsp by lia. destruct (Z.eqb_spec (Z.of_nat (length s)) n) as [Heq|Hneq].
      * replace (Z.to_nat n) with (length s) in Hsp by lia. rewrite drop_all, firstn_all in Hsp.
        change (split []) with ([] : list bytes, [] : bytes) in Hsp. cbv iota beta in Hsp.
        pose proof (Hmalloc n ltac:(lia)). rewrite memcpy_ok, bind_Ret by lia.
        rewrite Nat2Z.id, firstn_all, (drop_ge (malloc n)), app_nil_r by lia. cbn [Z.to_nat take app].
        exists q. unfold delivered. rewrite Hsp. split; [done|]. cbn [fst snd]. by rewrite upd_nil.
      * rewrite clone_ok, bind_Ret by lia. unfold advance.
        destruct (split (drop (Z.to_nat n) s)) as [ps r] eqn:E.
        assert (Hdn : drop (Z.to_nat n) s <> []).
        { intros E2. apply (f_equal length) in E2. rewrite length_drop in E2. cbn in E2. lia. }
        pose proof (split_nonempty _ Hdn) as Hpr. rewrite E in Hpr. cbn [fst snd] in Hpr.
        rewrite (delivered_more fd _ ms _ ps r Hsp Hpr), Hsp. cbn [fst snd].
        destruct (push_data_spec q rests ms fd (take (Z.to_nat n) s) Hq) as (q1 & Hp & Hq1).
        replace (Z.of_nat (length (take (Z.to_nat n) s))) with n in Hp by (rewrite length_take; lia). rewrite Hp, bind_Ret.
        replace (Z.of_nat (length s) - n) with (Z.of_nat (length (drop (Z.to_nat n) s))) by (rewrite length_drop; lia).
        rewrite Nat2Z.id.
        destruct (push_more_spec (length (drop (Z.to_nat n) s)) (Some q1) rests (ms ++ [(fd, take (Z.to_nat n) s)]) fd
          (drop (Z.to_nat n) s) Hq1 Hfd Hr) as (q' & -> & Hq'); [by apply Forall_drop|done|done|].
        exists (Some q'). split; [done|]. rewrite E in Hq'. cbn [fst snd] in Hq'. by rewrite <- app_assoc in Hq'.
Qed.

Lemma filter_data_spec q rests ms fd chunk : opt_repr q rests ms -> fd_ok fd -> is_bytes chunk -> chunk <> [] ->
  let s := rest_of rests fd ++ chunk in
  exists q', filter_data_ malloc q fd chunk (Z.of_nat (length chunk)) = Ret ((delivered fd s ms).1, q') /\
    opt_repr q' (upd rests fd (split s).2) (delivered fd s ms).2.
Proof.
  intros Hq Hfd Hb Hne s. unfold filter_data_. pose proof (find_spec q rests ms fd Hq Hfd) as Hf.
  unfold rest_of in s. destruct (rests !! fd) as [r0|] eqn:Hr0; cbn [default] in s.
  - destruct Hf as (q1 & uc & -> & Hu & Hq1). rewrite bind_Ret.
    destruct (fill_header_spec fd uc r0 chunk Hu Hb Hne)
      as (uc' & b0 & b1 & block & c & -> & Hs & Hb0 & Hb1 & Hc & Hid & Hsz & Hbuf & Hlen & Hrd).
    rewrite bind_Ret, Hbuf. cbn [deref]. rewrite bind_Ret.
    destruct (fill_spec q1 (delete fd rests) ms fd uc' b0 b1 block c Hq1 Hfd (lookup_delete_eq _ _) Hb0 Hb1 Hc Hid Hsz Hbuf Hlen Hrd)
      as (q' & Heq & Hq').
    exists (Some q'). change s with (r0 ++ chunk). rewrite Hs. split; [exact Heq|]. by rewrite <- upd_delete.
  - destruct Hf as (q1 & -> & Hq1). rewrite bind_Ret. change s with chunk.
    exact (fresh_spec q1 rests ms fd chunk Hq1 Hfd Hr0 Hb Hne).
Qed.
End split.
