(* ===== verification/NetpackServe.v ===== *)
(** Sockets served with [filter] and [pop]: any sequence of arrivals, closings
    and pops against streams of bytes and a list of packets, and the delivery of
    what [pack] sends. *)
From S2P Require Import Prelude Ring Netpack NetpackFilter.

(** ** The specification *)

Inductive net_op :=
  | OpArrive (fd : Z) (chunk : bytes)
  | OpPop
  | OpClose (fd : Z)
  | OpError (fd : Z)
  | OpClear.

Inductive net_res := RFilter (r : filtered) | RPop (p : option (Z * bytes)) | RCleared.

(** The incomplete bytes of every socket and the packets not yet popped. *)
Definition net_state : Type := gmap Z bytes * list (Z * bytes).

Definition net_step (o : net_op) (st : net_state) : net_res * net_state :=
  let '(rests, ms) := st in
  match o with
  | OpArrive fd chunk =>
      let s := rest_of rests fd ++ chunk in
      let '(r, ms) := delivered fd s ms in
      (RFilter r, (upd rests fd (split s).2, ms))
  | OpPop => match ms with [] => (RPop None, st) | p :: ms => (RPop (Some p), (rests, ms)) end
  | OpClose fd => (RFilter (FClose fd), (delete fd rests, ms))
  | OpError fd => (RFilter (FError fd []), (delete fd rests, ms))
  | OpClear => (RCleared, (∅, []))
  end.

Fixpoint net_steps (os : list net_op) (st : net_state) : list net_res * net_state :=
  match os with
  | [] => ([], st)
  | o :: os => let '(r, st) := net_step o st in let '(rs, st) := net_steps os st in (r :: rs, st)
  end.

Definition net_ok (o : net_op) : Prop :=
  match o with
  | OpArrive fd chunk => fd_ok fd /\ is_bytes chunk /\ chunk <> []
  | OpClose fd | OpError fd => fd_ok fd
  | OpPop | OpClear => True
  end.

(** ** The program *)

Section program.
Context (malloc : Z -> bytes) (header : Z).

Definition data_message (fd : Z) (chunk : bytes) : skynet_socket_message :=
  SocketMessage SKYNET_SOCKET_TYPE_DATA fd (Z.of_nat (length chunk)) (Some chunk) [].

Definition run_net (o : net_op) (q : option queue) : outcome (net_res * option queue) :=
  match o with
  | OpArrive fd chunk => '(r, q) ← lfilter malloc q (data_message fd chunk) header header; Ret (RFilter r, q)
  | OpPop => '(p, q) ← lpop q; Ret (RPop ((fun p => (np_id p, default [] (np_buffer p))) <$> p), q)
  | OpClose fd =>
      '(r, q) ← lfilter malloc q (SocketMessage SKYNET_SOCKET_TYPE_CLOSE fd 0 None []) header header; Ret (RFilter r, q)
  | OpError fd =>
      '(r, q) ← lfilter malloc q (SocketMessage SKYNET_SOCKET_TYPE_ERROR fd 0 None []) header header; Ret (RFilter r, q)
  | OpClear => q ← lclear q; Ret (RCleared, q)
  end.

Fixpoint run_nets (os : list net_op) (q : option queue) : outcome (list net_res * option queue) :=
  match os with
  | [] => Ret ([], q)
  | o :: os =>
      '(r, q) ← run_net o q;
      '(rs, q) ← run_nets os q;
      Ret (r :: rs, q)
  end.

Hypothesis Hmalloc : forall n, 0 <= n -> Z.of_nat (length (malloc n)) = n.

Lemma lpop_spec q rests ms : opt_repr q rests ms ->
  exists q', lpop q = Ret (match ms with [] => None | p :: _ => Some (to_pack p) end, q') /\ opt_repr q' rests (tail ms).
Proof.
  intros Hq. destruct q as [q|]; [|destruct Hq as [-> ->]; by exists None]. pose proof Hq as [Hring Hfree Htail Htab].
  pose proof (ring_head _ _ _ _ Hring). unfold lpop. destruct ms as [|p ms].
  - cbn [length] in Htail. rewrite Z.add_0_r, Z.mod_small in Htail by lia. rewrite Htail, Z.eqb_refl. by exists (Some q).
  - assert (q_head q <> q_tail q) as Hne.
    { rewrite Htail. cbn [length] in *. rewrite ring_index by lia. destruct (decide _); lia. }
    rewrite (proj2 (Z.eqb_neq _ _) Hne). destruct (ring_pop _ _ _ _ _ Hring) as [Hget Hring'].
    unfold arr_get. rewrite Hget. cbn [deref]. rewrite !bind_Ret. eexists. split; [reflexivity|].
    assert (Hh : (if q_cap q <=? q_head q + 1 then 0 else q_head q + 1) = (q_head q + 1) mod q_cap q).
    { destruct (Z.leb_spec (q_cap q) (q_head q + 1)).
      - replace (q_head q + 1) with (q_cap q) by lia. by rewrite Z.mod_same by lia.
      - by rewrite Z.mod_small by lia. }
    cbn [tail]. split; cbn [q_queue q_cap q_head q_tail q_hash]; [by rewrite Hh|cbn [length] in Hfree; lia| |done].
    rewrite Hh, Zplus_mod_idemp_l, Htail. f_equal. cbn [length]. lia.
Qed.

Lemma lclear_spec q rests ms : opt_repr q rests ms -> exists q', lclear q = Ret q' /\ opt_repr q' ∅ [].
Proof.
  intros Hq. destruct q as [q|]; [|by exists None]. destruct Hq as [Hring Hfree Htail Htab].
  pose proof (ring_head _ _ _ _ Hring) as Hh. pose proof (ring_length _ _ _ _ Hring) as Hlen. unfold lclear.
  assert (Ht : (if q_tail q <? q_head q then q_tail q + q_cap q else q_tail q) = q_head q + Z.of_nat (length ms)).
  { rewrite Htail, ring_index by lia. destruct (decide _); zcases. }
  rewrite Ht. assert (Hm : mapM (fun i => np ← arr_get (q_queue q) (i mod q_cap q); deref np)
      (zrange (q_head q) (q_head q + Z.of_nat (length ms))) = Ret (to_pack <$> ms)).
  { apply mapM_Ret, Forall2_same_length_lookup. unfold zrange. rewrite length_seqZ, length_fmap. split; [lia|].
    intros i x p [-> Hx]%lookup_seqZ Hp. unfold arr_get. rewrite (ring_slots _ _ _ _ Hring i p Hp). done. }
  rewrite Hm, bind_Ret. eexists. split; [reflexivity|].
  split; cbn [q_queue q_cap q_head q_tail q_hash]; [apply ring_nil; [done|lia]|cbn; lia|change (0 + Z.of_nat (length [])) with 0; rewrite Z.mod_0_l; lia|apply empty_table].
Qed.

Lemma close_spec q rests ms fd : opt_repr q rests ms -> fd_ok fd ->
  exists q', close_uncomplete q fd = Ret q' /\ opt_repr q' (delete fd rests) ms.
Proof.
  intros Hq Hfd. unfold close_uncomplete. pose proof (find_spec q rests ms fd Hq Hfd) as Hf.
  destruct (rests !! fd) eqn:Hr.
  - destruct Hf as (q' & uc & -> & _ & Hq'). rewrite bind_Ret. by exists (Some q').
  - destruct Hf as (q' & -> & Hq'). rewrite bind_Ret. exists q'. by rewrite delete_id.
Qed.

Lemma run_net_spec o q st : opt_repr q st.1 st.2 -> net_ok o ->
  exists q', run_net o q = Ret ((net_step o st).1, q') /\ opt_repr q' (net_step o st).2.1 (net_step o st).2.2.
Proof.
  destruct st as [rests ms]. cbn [fst snd]. intros Hq Ho. destruct o; cbn [run_net net_step net_ok] in *.
  - destruct Ho as (Hfd & Hb & Hne). destruct (filter_data_spec malloc Hmalloc q rests ms fd chunk Hq Hfd Hb Hne) as (q' & Heq & Hq').
    unfold lfilter, data_message. cbn [sm_buffer sm_type sm_id sm_ud]. change (SKYNET_SOCKET_TYPE_DATA =? SKYNET_SOCKET_TYPE_DATA) with true.
    change (-1 =? -1) with true. cbn [assert_ deref]. rewrite !bind_Ret, Heq, bind_Ret. exists q'.
    destruct (delivered fd (rest_of rests fd ++ chunk) ms). by split.
  - destruct (lpop_spec q rests ms Hq) as (q' & -> & Hq'). rewrite bind_Ret. exists q'. by destruct ms as [|[fd p] ms].
  - unfold lfilter. cbn -[close_uncomplete]. destruct (close_spec q rests ms fd Hq Ho) as (q' & -> & Hq'). by exists q'.
  - unfold lfilter. cbn -[close_uncomplete Z.sub]. destruct (close_spec q rests ms fd Hq Ho) as (q' & -> & Hq').
    rewrite bind_Ret, Z.sub_diag. by exists q'.
  - destruct (lclear_spec q rests ms Hq) as (q' & -> & Hq'). rewrite bind_Ret. by exists q'.
Qed.

(** C21: from no queue at all, any sequence of arrivals on any sockets, pops,
    closings, errors and clearings gives the results of the specification: the
    bytes of a socket are cut into packets as if they had come in one piece. *)
Theorem netpack_refinement os :
  Forall net_ok os -> exists q, run_nets os None = Ret ((net_steps os (∅, [])).1, q).
Proof.
  intros Hos. assert (Hgen : forall q st, opt_repr q st.1 st.2 -> exists q', run_nets os q = Ret ((net_steps os st).1, q')).
  { induction Hos as [|o os Ho Hos IH]; intros q st Hq; cbn [run_nets net_steps]; [by exists q|].
    destruct (run_net_spec o q st Hq Ho) as (q1 & -> & Hq1). rewrite bind_Ret. destruct (net_step o st) as [r st1].
    cbn [fst snd] in *. destruct (IH q1 st1 Hq1) as (q2 & ->). rewrite bind_Ret. destruct (net_steps os st1) as [rs st2]. by exists q2. }
  by apply Hgen.
Qed.

(** ** Serving the sockets *)

(** [for fd, msg, sz in netpack.pop, queue] *)
Fixpoint drain (fuel : nat) (q : option queue) : outcome (list (Z * bytes) * option queue) :=
  match fuel with
  | O => Undefined
  | S fuel =>
      '(p, q) ← lpop q;
      match p with
      | None => Ret ([], q)
      | Some p => '(ps, q) ← drain fuel q; Ret ((np_id p, default [] (np_buffer p)) :: ps, q)
      end
  end.

(** A server that takes every packet at once, with [filter] and [pop]. *)
Fixpoint serve (pieces : list (Z * bytes)) (q : option queue) : outcome (list (Z * bytes)) :=
  match pieces with
  | [] => Ret []
  | (fd, chunk) :: pieces =>
      '(r, q) ← lfilter malloc q (data_message fd chunk) header header;
      '(ps, q) ← (match r with
                  | FData fd b _ => Ret ([(fd, b)], q)
                  | FMore => drain (match q with Some q => S (Z.to_nat (q_cap q)) | None => 1%nat end) q
                  | _ => Ret ([], q)
                  end);
      rest ← serve pieces q;
      Ret (ps ++ rest)
  end.

(** What belongs to one socket. *)
Definition of_fd (fd : Z) (l : list (Z * bytes)) : list bytes := (filter (fun p => p.1 = fd) l).*2.

Lemma drain_spec fuel : forall q rests ms, opt_repr q rests ms -> (length ms < fuel)%nat ->
  exists q', drain fuel q = Ret (ms, q') /\ opt_repr q' rests [].
Proof.
  induction fuel as [|fuel IH]; intros q rests ms Hq Hf; [lia|]. cbn [drain].
  destruct (lpop_spec q rests ms Hq) as (q1 & -> & Hq1). rewrite bind_Ret. destruct ms as [|[fd p] ms]; [by exists q1|].
  cbn [tail length] in *. destruct (IH q1 rests ms Hq1 ltac:(lia)) as (q2 & -> & Hq2). rewrite bind_Ret. by exists q2.
Qed.

Lemma of_fd_app fd a b : of_fd fd (a ++ b) = of_fd fd a ++ of_fd fd b.
Proof. unfold of_fd. by rewrite filter_app, fmap_app. Qed.

Lemma of_fd_cons fd fd' c l : of_fd fd ((fd', c) :: l) = if decide (fd' = fd) then c :: of_fd fd l else of_fd fd l.
Proof. unfold of_fd. rewrite filter_cons. cbn [fst]. by case_decide. Qed.

Lemma of_fd_from fd fd' ps : of_fd fd (from fd' ps) = if decide (fd' = fd) then ps else [].
Proof.
  unfold of_fd, from. induction ps as [|p ps IH]; cbn [fmap list_fmap]; [by case_decide|].
  rewrite filter_cons. cbn [fst]. case_decide; cbn; by rewrite IH.
Qed.

Lemma rest_upd rests fd r fd' : rest_of (upd rests fd r) fd' = if decide (fd = fd') then r else rest_of rests fd'.
Proof.
  unfold rest_of, upd. destruct r as [|b r]; case_decide as Hd; subst.
  - by rewrite lookup_delete_eq.
  - by rewrite lookup_delete_ne.
  - by rewrite lookup_insert_eq.
  - by rewrite lookup_insert_ne.
Qed.

(** Every piece is split behind the rest of its socket. *)
Lemma serve_step q rests fd chunk : opt_repr q rests [] -> fd_ok fd -> is_bytes chunk -> chunk <> [] ->
  exists q', (forall pieces, serve ((fd, chunk) :: pieces) q =
      rest ← serve pieces q'; Ret (from fd (split (rest_of rests fd ++ chunk)).1 ++ rest)) /\
    opt_repr q' (upd rests fd (split (rest_of rests fd ++ chunk)).2) [].
Proof.
  intros Hq Hfd Hb Hne. destruct (filter_data_spec malloc Hmalloc q rests [] fd chunk Hq Hfd Hb Hne) as (q1 & Heq & Hq1).
  cbv zeta in *. set (s := rest_of rests fd ++ chunk) in *.
  assert (Hl : lfilter malloc q (data_message fd chunk) header header = Ret ((delivered fd s []).1, q1)).
  { unfold lfilter, data_message. cbn [sm_buffer sm_type sm_id sm_ud]. change (SKYNET_SOCKET_TYPE_DATA =? SKYNET_SOCKET_TYPE_DATA) with true.
    change (-1 =? -1) with true. cbn [assert_ deref]. by rewrite !bind_Ret, Heq. }
  clear Heq. assert (Hc : (exists r, split s = ([], r) /\ delivered fd s [] = (FNothing, [])) \/
    (exists p, split s = ([p], []) /\ delivered fd s [] = (FData fd p (Z.of_nat (length p)), [])) \/
    delivered fd s [] = (FMore, from fd (split s).1)).
  { unfold delivered. destruct (split s) as [[|p [|p2 ps]] [|b r]]; cbn; eauto 6. }
  destruct Hc as [(r & E & Hd)|[(p & E & Hd)|Hd]].
  - exists q1. rewrite Hd in *. rewrite E in *. cbn [fst snd] in *. split; [|done]. intros pieces. cbn [serve].
    rewrite Hl, bind_Ret. cbn [from fmap list_fmap app]. done.
  - exists q1. rewrite Hd in *. rewrite E in *. cbn [fst snd] in *. split; [|done]. intros pieces. cbn [serve].
    rewrite Hl, bind_Ret. done.
  - rewrite Hd in *. cbn [fst snd] in *. set (fuel := match q1 with Some q => S (Z.to_nat (q_cap q)) | None => 1%nat end).
    destruct (drain_spec fuel q1 _ _ Hq1) as (q2 & Hdr & Hq2).
    { unfold fuel. destruct q1 as [q1|]; [pose proof (qr_free _ _ _ Hq1); lia|]. destruct Hq1 as [_ ->]. cbn. lia. }
    exists q2. split; [|done]. intros pieces. cbn [serve]. rewrite Hl, bind_Ret. fold fuel. by rewrite Hdr, bind_Ret.
Qed.

Lemma serve_spec pieces : forall q rests, opt_repr q rests [] ->
  Forall (fun p => fd_ok p.1 /\ is_bytes p.2 /\ p.2 <> []) pieces ->
  (forall fd, (split (rest_of rests fd)) = ([], rest_of rests fd)) ->
  exists log, serve pieces q = Ret log /\
    forall fd, of_fd fd log = (split (rest_of rests fd ++ concat (of_fd fd pieces))).1.
Proof.
  induction pieces as [|[fd chunk] pieces IH]; intros q rests Hq Hp Hr.
  - exists []. split; [done|]. intros fd. change (concat (of_fd fd [])) with ([] : bytes). by rewrite app_nil_r, Hr.
  - apply Forall_cons in Hp as [(Hfd & Hb & Hne) Hp]. cbn [fst snd] in *.
    destruct (serve_step q rests fd chunk Hq Hfd Hb Hne) as (q1 & Hs & Hq1). rewrite Hs.
    destruct (split (rest_of rests fd ++ chunk)) as [ps r] eqn:E. cbn [fst snd] in *.
    destruct (IH q1 (upd rests fd r) Hq1 Hp) as (log & -> & Hlog).
    { intros fd'. rewrite rest_upd. case_decide; [|done]. by eapply split_rest. }
    rewrite bind_Ret. eexists. split; [reflexivity|]. intros fd'. rewrite of_fd_app, of_fd_from, Hlog, rest_upd.
    rewrite of_fd_cons. case_decide as Hd; [subst fd'|done]. cbn [concat]. rewrite app_assoc, (split_app (rest_of rests fd ++ chunk)), E.
    by destruct (split (r ++ _)).
Qed.

(** The stream that [pack] makes of packets. *)
Definition packed (p : bytes) : bytes := match lpack p with Ret (d, _) => d | _ => [] end.

Lemma split_packed ps : Forall (fun p => Z.of_nat (length p) < 65536) ps -> split (concat (packed <$> ps)) = (ps, []).
Proof.
  induction 1 as [|p ps Hp Hps IH]; [done|]. change (concat (packed <$> p :: ps)) with (packed p ++ concat (packed <$> ps)).
  unfold packed at 1, lpack. rewrite (proj2 (Z.leb_gt _ _)) by lia. by rewrite <- app_assoc, split_pack, IH by done.
Qed.

(** C5: packets sent with [pack] on any number of sockets, their bytes
    arriving in pieces of any sizes, interleaved in any order, are delivered on
    every socket exactly as they were sent, in order. *)
Theorem netpack_roundtrip (sent : Z -> list bytes) (pieces : list (Z * bytes)) :
  Forall (fun p => fd_ok p.1 /\ is_bytes p.2 /\ p.2 <> []) pieces ->
  (forall fd, Forall (fun p => Z.of_nat (length p) < 65536) (sent fd)) ->
  (forall fd, concat (of_fd fd pieces) = concat (packed <$> sent fd)) ->
  exists log, serve pieces None = Ret log /\ forall fd, of_fd fd log = sent fd.
Proof.
  intros Hp Hlen Hs. destruct (serve_spec pieces None ∅) as (log & Heq & Hlog); [done|done|by intros fd; unfold rest_of; rewrite lookup_empty|].
  exists log. split; [done|]. intros fd. rewrite Hlog. unfold rest_of. rewrite lookup_empty. cbn [default from_option app].
  by rewrite Hs, split_packed.
Qed.
End program.

(** ** A server with two sockets *)

Definition demo_pieces : list (Z * bytes) :=
  [(7, [0]); (9, [0; 1; 42; 0]); (7, [3; 1; 2]); (9, [0]); (7, [3; 0; 1; 5; 0; 0])].
Definition demo_sent (fd : Z) : list bytes :=
  if fd =? 7 then [[1; 2; 3]; [5]; []] else if fd =? 9 then [[42]; []] else [].
Definition blank (n : Z) : bytes := replicate (Z.to_nat n) 170.

Lemma blank_length n : 0 <= n -> Z.of_nat (length (blank n)) = n.
Proof. intros. unfold blank. rewrite length_replicate. lia. Qed.

Lemma netpack_roundtrip_witness :
  exists log, serve blank 24 demo_pieces None = Ret log /\ forall fd, of_fd fd log = demo_sent fd.
Proof.
  apply (netpack_roundtrip blank 24 blank_length demo_sent demo_pieces).
  - unfold demo_pieces, fd_ok. repeat (apply Forall_cons; split; [split; [cbn; lia|split; [|done]]|]); [..|apply Forall_nil; done];
      apply all_words_ok; vm_compute; reflexivity.
  - intros fd. unfold demo_sent. repeat case_match; repeat (apply Forall_cons; split; [done|]); by apply Forall_nil.
  - intros fd. unfold demo_sent, of_fd, demo_pieces. rewrite !filter_cons. cbn [fst].
    destruct (Z.eqb_spec fd 7) as [->|H7]; [vm_compute; reflexivity|].
    destruct (Z.eqb_spec fd 9) as [->|H9]; [vm_compute; reflexivity|].
    by rewrite !decide_False by congruence.
Defined.

Definition demo_net : list net_op :=
  [ OpArrive 7 [0]; OpArrive 7 [2; 1]; OpArrive 8 [0; 9; 1]; OpClose 7; OpArrive 7 [0; 1; 5; 0; 1; 6]; OpPop; OpPop; OpPop;
    OpClear; OpArrive 8 [0; 0] ].

Lemma netpack_refinement_witness :
  exists q, run_nets blank 24 demo_net None = Ret (
    [ RFilter FNothing; RFilter FNothing; RFilter FNothing; RFilter (FClose 7); RFilter FMore; RPop (Some (7, [5]));
      RPop (Some (7, [6])); RPop None; RCleared; RFilter (FData 8 [] 0) ], q).
Proof.
  destruct (netpack_refinement blank 24 blank_length demo_net) as [q Hq]; [|exists q; rewrite Hq; vm_compute; reflexivity].
  unfold demo_net. repeat (apply Forall_cons; split); try apply Forall_nil; try done; cbn; unfold fd_ok; try lia;
    (split; [lia|split; [|done]]); apply all_words_ok; vm_compute; reflexivity.
Defined.

(** The hash of a socket number stays inside the table, except for the
    last half million numbers, where the sum overflows an [int]. *)
Theorem hash_fd_bounds fd : 0 <= fd < 2 ^ 31 ->
  if fd / 2 ^ 24 + fd / 2 ^ 12 + fd <=? INT_MAX then exists h, hash_fd fd = Ret h /\ 0 <= h < HASHSIZE
  else hash_fd fd = Undefined.
Proof.
  intros Hfd. unfold hash_fd. rewrite !Z.shiftr_div_pow2 by lia.
  pose proof (Z.div_lt_upper_bound fd (2 ^ 24) 128 ltac:(lia) ltac:(lia)).
  pose proof (Z.div_lt_upper_bound fd (2 ^ 12) 524288 ltac:(lia) ltac:(lia)).
  pose proof (Z.div_pos fd (2 ^ 24) ltac:(lia) ltac:(lia)). pose proof (Z.div_pos fd (2 ^ 12) ltac:(lia) ltac:(lia)).
  rewrite (int_ok_Ret (fd / 2 ^ 24 + fd / 2 ^ 12)), bind_Ret by (unfold INT_MIN, INT_MAX; lia).
  destruct (Z.leb_spec (fd / 2 ^ 24 + fd / 2 ^ 12 + fd) INT_MAX) as [Hle|Hgt].
  - rewrite int_ok_Ret, bind_Ret by (unfold INT_MIN; lia). eexists. split; [reflexivity|]. by apply Z.mod_pos_bound.
  - unfold int_ok. rewrite (proj2 (Z.leb_gt _ INT_MAX)) by done. by rewrite andb_false_r.
Qed.

Lemma hash_fd_bounds_witness : (exists h, hash_fd 1000 = Ret h /\ 0 <= h < HASHSIZE) /\ hash_fd 2147483647 = Undefined.
Proof. split; [apply (hash_fd_bounds 1000)|apply (hash_fd_bounds 2147483647)]; lia. Defined.
