(* ===== verification/Seri.v ===== *)
(** Serialisation of Lua values, [lualib-src/lua-seri.c]: the chain of blocks,
    packing and unpacking. The lengths are of type [int] in the code; they are not wrapped here,
    so the model is that of the code for values that pack to fewer than 2^31 bytes. *)
From S2P Require Import Prelude.

#[local] Set Warnings "-register-all".

(** ** Data *)

Definition TYPE_NIL : Z := 0.
Definition TYPE_BOOLEAN : Z := 1.
Definition TYPE_NUMBER : Z := 2.
Definition TYPE_NUMBER_ZERO : Z := 0.
Definition TYPE_NUMBER_BYTE : Z := 1.
Definition TYPE_NUMBER_WORD : Z := 2.
Definition TYPE_NUMBER_DWORD : Z := 4.
Definition TYPE_NUMBER_QWORD : Z := 6.
Definition TYPE_NUMBER_REAL : Z := 8.
Definition TYPE_USERDATA : Z := 3.
Definition TYPE_SHORT_STRING : Z := 4.
Definition TYPE_LONG_STRING : Z := 5.
Definition TYPE_TABLE : Z := 6.
Definition MAX_COOKIE : Z := 32.
Definition COMBINE_TYPE (t v : Z) : Z := Z.lor t (Z.shiftl v 3).
Definition BLOCK_SIZE : Z := 128.
Definition MAX_DEPTH : nat := 32.

(** Lua values that are packed; tables live in a store. [LReal] holds the 64
    bits of the number, [LOther] the name of a type that cannot be packed. *)
Inductive lua_value :=
  | LNil | LBoolean (b : bool) | LInteger (n : Z) | LReal (bits : Z) | LString (s : bytes)
  | LPointer (p : Z) | LTable (l : positive) | LOther (name : bytes).

(** What [lua_rawlen] answers, the entries in the order of [lua_next], and what
    the [__pairs] metamethod yields if there is one. *)
Record lua_table := LuaTable {
  lt_rawlen : Z; lt_entries : list (lua_value * lua_value); lt_pairs : option (list (lua_value * lua_value)) }.
Abbreviation store := (gmap positive lua_table).

#[export] Instance lua_value_eq_dec : EqDecision lua_value.
Proof. solve_decision. Defined.

Fixpoint assoc (es : list (lua_value * lua_value)) (k : lua_value) : option lua_value :=
  match es with [] => None | (k', v) :: es => if decide (k' = k) then Some v else assoc es k end.

(** [lua_rawgeti]: nil if there is no entry. *)
Definition rawgeti (t : lua_table) (i : Z) : lua_value := default LNil (assoc (lt_entries t) (LInteger i)).

(** ** The chain of blocks *)

(** The blocks from [head] to [current]. *)
Record write_block := WriteBlock { wb_blocks : list bytes; wb_len : Z; wb_ptr : Z }.

Section pack.
(** The contents of a new block. *)
Context (junk : bytes).

Definition wb_init : write_block := WriteBlock [junk] 0 0.

Definition wb_current (b : write_block) : outcome bytes := deref (last (wb_blocks b)).

(** [memcpy(b->current->buffer + b->ptr, buffer, sz)], with [b->ptr] and [b->len] below 2^31. *)
Definition wb_copy (b : write_block) (buffer : bytes) (sz : Z) : outcome write_block :=
  cur ← wb_current b;
  cur ← memcpy cur (wb_ptr b) buffer sz;
  Ret (WriteBlock (removelast (wb_blocks b) ++ [cur]) (wb_len b + sz) (wb_ptr b + sz)).

Definition wb_next (b : write_block) : write_block := WriteBlock (wb_blocks b ++ [junk]) (wb_len b) 0.

(** From the label [_again] on; [buffer] has fewer than 2^31 bytes, [sz] being an [int]. *)
Fixpoint wb_fill (fuel : nat) (b : write_block) (buffer : bytes) : outcome write_block :=
  match fuel with
  | O => Undefined
  | S fuel =>
      let sz := Z.of_nat (length buffer) in
      if wb_ptr b <=? BLOCK_SIZE - sz then wb_copy b buffer sz
      else
        let copy := BLOCK_SIZE - wb_ptr b in
        b ← wb_copy b buffer copy;
        wb_fill fuel (wb_next b) (drop (Z.to_nat copy) buffer)
  end.

Definition wb_push (b : write_block) (buffer : bytes) : outcome write_block :=
  let b := if wb_ptr b =? BLOCK_SIZE then wb_next b else b in
  wb_fill (S (length buffer)) b buffer.

(** The bytes of an integer of [n] bytes in memory (little endian). *)
Fixpoint le_bytes (n : nat) (v : Z) : bytes :=
  match n with O => [] | S n => u8 v :: le_bytes n (Z.shiftr v 8) end.

Definition type_byte (t v : Z) : bytes := [u8 (COMBINE_TYPE t v)].

Definition wb_nil (wb : write_block) : outcome write_block := wb_push wb [TYPE_NIL].

Definition wb_boolean (wb : write_block) (boolean : bool) : outcome write_block :=
  wb_push wb (type_byte TYPE_BOOLEAN (if boolean then 1 else 0)).

Definition wb_integer (wb : write_block) (v : Z) : outcome write_block :=
  let type := TYPE_NUMBER in
  if v =? 0 then wb_push wb (type_byte type TYPE_NUMBER_ZERO)
  else if negb (v =? s32 v) then
    wb ← wb_push wb (type_byte type TYPE_NUMBER_QWORD);
    wb_push wb (le_bytes 8 v)
  else if v <? 0 then
    wb ← wb_push wb (type_byte type TYPE_NUMBER_DWORD);
    wb_push wb (le_bytes 4 (s32 v))
  else if v <? 0x100 then
    wb ← wb_push wb (type_byte type TYPE_NUMBER_BYTE);
    wb_push wb (le_bytes 1 (u8 v))
  else if v <? 0x10000 then
    wb ← wb_push wb (type_byte type TYPE_NUMBER_WORD);
    wb_push wb (le_bytes 2 (u16 v))
  else
    wb ← wb_push wb (type_byte type TYPE_NUMBER_DWORD);
    wb_push wb (le_bytes 4 (u32 v)).

Definition wb_real (wb : write_block) (v : Z) : outcome write_block :=
  wb ← wb_push wb (type_byte TYPE_NUMBER TYPE_NUMBER_REAL);
  wb_push wb (le_bytes 8 v).

Definition wb_pointer (wb : write_block) (v : Z) : outcome write_block :=
  wb ← wb_push wb [TYPE_USERDATA];
  wb_push wb (le_bytes 8 v).

(** The first [len] bytes of the string; a negative [len] is a huge size. *)
Definition str_bytes (str : bytes) (len : Z) : outcome bytes :=
  if (len <? 0) || (Z.of_nat (length str) <? len) then Undefined else Ret (take (Z.to_nat len) str).

Definition wb_string (wb : write_block) (str : bytes) (len : Z) : outcome write_block :=
  if len <? MAX_COOKIE then
    wb ← wb_push wb (type_byte TYPE_SHORT_STRING len);
    if 0 <? len then s ← str_bytes str len; wb_push wb s else Ret wb
  else
    wb ← (if len <? 0x10000 then
            wb ← wb_push wb (type_byte TYPE_LONG_STRING 2);
            wb_push wb (le_bytes 2 (u16 len))
          else
            wb ← wb_push wb (type_byte TYPE_LONG_STRING 4);
            wb_push wb (le_bytes 4 (u32 len)));
    s ← str_bytes str len;
    wb_push wb s.

(** ** Packing *)

Section table.
(** [pack_one] for the contents of a table. *)
Context (pack : write_block -> lua_value -> outcome write_block).

(** [for (i=1;i<=array_size;i++)], [n] to go. *)
Fixpoint array_loop (n : nat) (i : Z) (t : lua_table) (wb : write_block) : outcome write_block :=
  match n with
  | O => Ret wb
  | S n => wb ← pack wb (rawgeti t i); array_loop n (i + 1) t wb
  end.

Definition wb_table_array (wb : write_block) (t : lua_table) : outcome (Z * write_block) :=
  let array_size := s32 (lt_rawlen t) in
  wb ← (if MAX_COOKIE - 1 <=? array_size then
          wb ← wb_push wb (type_byte TYPE_TABLE (MAX_COOKIE - 1));
          wb_integer wb array_size
        else wb_push wb (type_byte TYPE_TABLE array_size));
  wb ← array_loop (Z.to_nat array_size) 1 t wb;
  Ret (array_size, wb).

(** A key that the array part holds. *)
Definition in_array (k : lua_value) (array_size : Z) : bool :=
  match k with LInteger x => (0 <? x) && (x <=? array_size) | _ => false end.

Fixpoint hash_loop (es : list (lua_value * lua_value)) (array_size : Z) (wb : write_block) : outcome write_block :=
  match es with
  | [] => Ret wb
  | (k, v) :: es =>
      if in_array k array_size then hash_loop es array_size wb
      else
        wb ← pack wb k;
        wb ← pack wb v;
        hash_loop es array_size wb
  end.

Definition wb_table_hash (wb : write_block) (t : lua_table) (array_size : Z) : outcome write_block :=
  wb ← hash_loop (lt_entries t) array_size wb;
  wb_nil wb.

(** [for(;;)]: the iteration ends at a nil key. *)
Fixpoint pairs_loop (es : list (lua_value * lua_value)) (wb : write_block) : outcome write_block :=
  match es with
  | [] => Ret wb
  | (k, v) :: es =>
      if decide (k = LNil) then Ret wb
      else
        wb ← pack wb k;
        wb ← pack wb v;
        pairs_loop es wb
  end.

Definition wb_table_metapairs (wb : write_block) (es : list (lua_value * lua_value)) : outcome write_block :=
  wb ← wb_push wb (type_byte TYPE_TABLE 0);
  wb ← pairs_loop es wb;
  wb_nil wb.

Definition wb_table (wb : write_block) (t : lua_table) : outcome write_block :=
  match lt_pairs t with
  | Some es => wb_table_metapairs wb es
  | None =>
      '(array_size, wb) ← wb_table_array wb t;
      wb_table_hash wb t array_size
  end.
End table.

(** [room] is [MAX_DEPTH + 1 - depth]. *)
Fixpoint pack_one (h : store) (room : nat) (b : write_block) (v : lua_value) : outcome write_block :=
  match room with
  | O => LuaError "serialize can't pack too depth table"
  | S room =>
      match v with
      | LNil => wb_nil b
      | LInteger x => wb_integer b x
      | LReal n => wb_real b n
      | LBoolean x => wb_boolean b x
      | LString str => wb_string b str (s32 (Z.of_nat (length str)))
      | LPointer p => wb_pointer b p
      | LTable l => t ← deref (h !! l); wb_table (pack_one h room) b t
      | LOther _ => LuaError "Unsupport type %s to serialize"
      end
  end.

Fixpoint pack_from (h : store) (b : write_block) (vs : list lua_value) : outcome write_block :=
  match vs with
  | [] => Ret b
  | v :: vs => b ← pack_one h (S MAX_DEPTH) b v; pack_from h b vs
  end.

(** [while(len>0)] of [seri]. *)
Fixpoint seri_loop (blocks : list bytes) (len : Z) : outcome bytes :=
  if len <=? 0 then Ret []
  else
    match blocks with
    | [] => Undefined
    | b :: blocks =>
        if BLOCK_SIZE <=? len then
          s ← str_bytes b BLOCK_SIZE; rest ← seri_loop blocks (len - BLOCK_SIZE); Ret (s ++ rest)
        else str_bytes b len
    end.

Definition seri (b : write_block) : outcome (bytes * Z) :=
  s ← seri_loop (wb_blocks b) (wb_len b);
  Ret (s, wb_len b).

Definition luaseri_pack (h : store) (vs : list lua_value) : outcome (bytes * Z) :=
  b ← pack_from h wb_init vs;
  seri b.
End pack.

(** ** Unpacking *)

(** Unpacked values: every table is new, and is its entries. *)
Inductive value :=
  | VNil | VBoolean (b : bool) | VInteger (n : Z) | VReal (bits : Z) | VString (s : bytes)
  | VPointer (p : Z) | VTable (es : list (value * value)).

Record read_block := ReadBlock { rb_buffer : bytes; rb_len : Z; rb_ptr : Z }.

(** The offset of the data, [None] for NULL. *)
Definition rb_read (rb : read_block) (sz : Z) : option Z * read_block :=
  if rb_len rb <? sz then (None, rb)
  else (Some (rb_ptr rb), ReadBlock (rb_buffer rb) (rb_len rb - sz) (rb_ptr rb + sz)).

Definition invalid_stream {A} : outcome A := LuaError "Invalid serialize stream".

(** The [n] bytes at offset [p]. *)
Definition peek (rb : read_block) (p n : Z) : outcome bytes :=
  if (p <? 0) || (n <? 0) || (Z.of_nat (length (rb_buffer rb)) <? p + n) then Undefined
  else Ret (take (Z.to_nat n) (drop (Z.to_nat p) (rb_buffer rb))).

(** Read [sz] bytes or raise an error. *)
Definition rb_get (rb : read_block) (sz : Z) : outcome (bytes * read_block) :=
  let '(p, rb) := rb_read rb sz in
  match p with
  | None => invalid_stream
  | Some p => s ← peek rb p sz; Ret (s, rb)
  end.

Fixpoint le_value (s : bytes) : Z := match s with [] => 0 | b :: s => b + 256 * le_value s end.

Definition get_integer (rb : read_block) (cookie : Z) : outcome (Z * read_block) :=
  if cookie =? TYPE_NUMBER_ZERO then Ret (0, rb)
  else if cookie =? TYPE_NUMBER_BYTE then '(s, rb) ← rb_get rb 1; Ret (le_value s, rb)
  else if cookie =? TYPE_NUMBER_WORD then '(s, rb) ← rb_get rb 2; Ret (le_value s, rb)
  else if cookie =? TYPE_NUMBER_DWORD then '(s, rb) ← rb_get rb 4; Ret (s32 (le_value s), rb)
  else if cookie =? TYPE_NUMBER_QWORD then '(s, rb) ← rb_get rb 8; Ret (s64 (le_value s), rb)
  else invalid_stream.

Definition get_real (rb : read_block) : outcome (Z * read_block) := '(s, rb) ← rb_get rb 8; Ret (le_value s, rb).
Definition get_pointer (rb : read_block) : outcome (Z * read_block) := '(s, rb) ← rb_get rb 8; Ret (le_value s, rb).

(** A negative [len] passes the check of [rb_read], whose subtraction may
    overflow; [lua_pushlstring] takes it as a huge [size_t] and refuses it. *)
Definition get_buffer (rb : read_block) (len : Z) : outcome (bytes * read_block) :=
  if len <? 0 then _ ← int_ok (rb_len rb - len); LuaError "memory allocation error: block too big"
  else rb_get rb len.

Section unpack.
(** What the Lua library does with a number as a key: the integer it is equal
    to, if any, and whether it is no number. *)
Context (real_integer : Z -> option Z) (real_nan : Z -> bool).

(** The key as it is stored; a table as a key is new, different from all others. *)
Definition as_key (k : value) : value :=
  match k with VReal r => match real_integer r with Some n => VInteger n | None => k end | _ => k end.

Definition same_key (a b : value) : bool :=
  match a, b with
  | VBoolean x, VBoolean y => Bool.eqb x y
  | VInteger x, VInteger y | VReal x, VReal y | VPointer x, VPointer y => x =? y
  | VString x, VString y => bool_decide (x = y)
  | _, _ => false
  end.

Fixpoint entry_set (es : list (value * value)) (k v : value) : list (value * value) :=
  match es with
  | [] => match v with VNil => [] | _ => [(k, v)] end
  | (k', v') :: es =>
      if same_key k' k then match v with VNil => es | _ => (k', v) :: es end
      else (k', v') :: entry_set es k v
  end.

Fixpoint entry_get (es : list (value * value)) (k : value) : option value :=
  match es with [] => None | (k', v) :: es => if same_key k' k then Some v else entry_get es k end.

(** [lua_rawset], with its errors. *)
Definition rawset (es : list (value * value)) (k v : value) : outcome (list (value * value)) :=
  match k with
  | VNil => LuaError "table index is nil"
  | VReal r => if real_nan r then LuaError "table index is NaN" else Ret (entry_set es (as_key k) v)
  | _ => Ret (entry_set es k v)
  end.

Section table.
(** [unpack_one] for the contents of a table. *)
Context (unpack : read_block -> outcome (value * read_block)).

(** [for (i=1;i<=array_size;i++)] *)
Fixpoint unpack_array (n : nat) (i : Z) (es : list (value * value)) (rb : read_block)
    : outcome (list (value * value) * read_block) :=
  match n with
  | O => Ret (es, rb)
  | S n => '(v, rb) ← unpack rb; unpack_array n (i + 1) (entry_set es (VInteger i) v) rb
  end.

(** [for (;;)]: at most one round for every byte room. *)
Fixpoint unpack_hash (fuel : nat) (es : list (value * value)) (rb : read_block)
    : outcome (list (value * value) * read_block) :=
  match fuel with
  | O => Undefined
  | S fuel =>
      '(k, rb) ← unpack rb;
      match k with
      | VNil => Ret (es, rb)
      | _ =>
          '(v, rb) ← unpack rb;
          es ← rawset es k v;
          unpack_hash fuel es rb
      end
  end.

Definition table_size (rb : read_block) (array_size : Z) : outcome (Z * read_block) :=
  if array_size =? MAX_COOKIE - 1 then
    '(s, rb) ← rb_get rb 1;
    let type := le_value s in
    let cookie := Z.shiftr type 3 in
    if negb (Z.land type 7 =? TYPE_NUMBER) || (cookie =? TYPE_NUMBER_REAL) then invalid_stream
    else '(n, rb) ← get_integer rb cookie; Ret (s32 n, rb)
  else Ret (array_size, rb).

(** More elements than bytes are an error before the last one. *)
Definition unpack_table (rb : read_block) (array_size : Z) : outcome (value * read_block) :=
  '(array_size, rb) ← table_size rb array_size;
  '(es, rb) ← unpack_array (Z.to_nat array_size) 1 [] rb;
  '(es, rb) ← unpack_hash (S (Z.to_nat (rb_len rb))) es rb;
  Ret (VTable es, rb).

Definition push_value (rb : read_block) (type cookie : Z) : outcome (value * read_block) :=
  if type =? TYPE_NIL then Ret (VNil, rb)
  else if type =? TYPE_BOOLEAN then Ret (VBoolean (negb (cookie =? 0)), rb)
  else if type =? TYPE_NUMBER then
    if cookie =? TYPE_NUMBER_REAL then '(r, rb) ← get_real rb; Ret (VReal r, rb)
    else '(n, rb) ← get_integer rb cookie; Ret (VInteger n, rb)
  else if type =? TYPE_USERDATA then '(p, rb) ← get_pointer rb; Ret (VPointer p, rb)
  else if type =? TYPE_SHORT_STRING then '(s, rb) ← get_buffer rb cookie; Ret (VString s, rb)
  else if type =? TYPE_LONG_STRING then
    if cookie =? 2 then
      '(n, rb) ← rb_get rb 2;
      '(s, rb) ← get_buffer rb (le_value n);
      Ret (VString s, rb)
    else if negb (cookie =? 4) then invalid_stream
    else
      '(n, rb) ← rb_get rb 4;
      '(s, rb) ← get_buffer rb (s32 (le_value n));
      Ret (VString s, rb)
  else if type =? TYPE_TABLE then unpack_table rb cookie
  else invalid_stream.
End table.

(** Every call reads a byte: [fuel] bytes are room at most. *)
Fixpoint unpack_one (fuel : nat) (rb : read_block) : outcome (value * read_block) :=
  match fuel with
  | O => Undefined
  | S fuel =>
      '(s, rb) ← rb_get rb 1;
      let type := le_value s in
      push_value (unpack_one fuel) rb (Z.land type 7) (Z.shiftr type 3)
  end.

(** [for (i=0;;i++)] of [luaseri_unpack]. *)
Fixpoint unpack_all (fuel : nat) (rb : read_block) : outcome (list value) :=
  match fuel with
  | O => Undefined
  | S fuel =>
      let '(p, rb') := rb_read rb 1 in
      match p with
      | None => Ret []
      | Some p =>
          s ← peek rb' p 1;
          let type := le_value s in
          '(v, rb) ← push_value (unpack_one (S (Z.to_nat (rb_len rb')))) rb' (Z.land type 7) (Z.shiftr type 3);
          vs ← unpack_all fuel rb;
          Ret (v :: vs)
      end
  end.

(** The buffer is NULL or its contents. *)
Definition luaseri_unpack (buffer : option bytes) (len : Z) : outcome (list value) :=
  if len =? 0 then Ret []
  else
    match buffer with
    | None => LuaError "deserialize null pointer"
    | Some b => unpack_all (S (Z.to_nat len)) (ReadBlock b len 0)
    end.
End unpack.
