(* ===== verification/SeriPack.v ===== *)
(** Packing and unpacking of Lua values: what packing writes, what unpacking
    reads from it, and the round trip. *)
From S2P Require Import Prelude Seri.

#[local] Arguments Z.mul : simpl never.

(** ** Bytes of integers *)

Lemma length_le_bytes n v : length (le_bytes n v) = n.
Proof. revert v. induction n as [|n IH]; intros v; cbn; [done|]. by rewrite IH. Qed.

Lemma le_value_bytes n v : le_value (le_bytes n v) = v mod 2 ^ (8 * Z.of_nat n).
Proof.
  revert v. induction n as [|n IH]; intros v; cbn [le_bytes le_value]; [by rewrite Z.mod_1_r|].
  rewrite IH, Z.shiftr_div_pow2 by lia. unfold u8.
  replace (8 * Z.of_nat (S n)) with (8 + 8 * Z.of_nat n) by lia. rewrite Z.pow_add_r by lia.
  rewrite (Z.mul_comm 256). change 256 with (2 ^ 8). rewrite Z.rem_mul_r by (try lia; apply Z.pow_pos_nonneg; lia). lia.
Qed.

Lemma type_byte_eq t c : 0 <= t < 8 -> 0 <= c < 32 -> type_byte t c = [t + 8 * c].
Proof.
  intros. unfold type_byte, COMBINE_TYPE. rewrite lor_shiftl_add by lia. change (2 ^ 3) with 8. rewrite u8_small by lia. do 2 f_equal. lia.
Qed.

Lemma type_of_byte t c : 0 <= t < 8 -> Z.land (t + 8 * c) 7 = t.
Proof. intros. change 7 with (2 ^ 3 - 1). rewrite land_ones_pow2 by lia. change (2 ^ 3) with 8. Z.div_mod_to_equations; lia. Qed.

Lemma cookie_of_byte t c : 0 <= t < 8 -> Z.shiftr (t + 8 * c) 3 = c.
Proof. intros. rewrite Z.shiftr_div_pow2 by lia. change (2 ^ 3) with 8. Z.div_mod_to_equations; lia. Qed.

Lemma s32_mod v : -2 ^ 31 <= v < 2 ^ 31 -> s32 (v mod 2 ^ 32) = v.
Proof. intros. unfold s32. rewrite Zplus_mod_idemp_l, Z.mod_small; lia. Qed.
Lemma s64_mod v : -2 ^ 63 <= v < 2 ^ 63 -> s64 (v mod 2 ^ 64) = v.
Proof. intros. unfold s64. rewrite Zplus_mod_idemp_l, Z.mod_small; lia. Qed.
(** ** What packing writes *)

Section pack.
Context (junk : bytes).
Hypothesis Hjunk : Z.of_nat (length junk) = BLOCK_SIZE.

Record blocks_ok (b : write_block) : Prop := {
  bo_full bs : In bs (wb_blocks b) -> Z.of_nat (length bs) = BLOCK_SIZE;
  bo_some : wb_blocks b <> [];
  bo_ptr : 0 <= wb_ptr b <= BLOCK_SIZE;
  bo_len : wb_len b = BLOCK_SIZE * (Z.of_nat (length (wb_blocks b)) - 1) + wb_ptr b }.

Definition content (b : write_block) : bytes := take (Z.to_nat (wb_len b)) (concat (wb_blocks b)).

Lemma length_blocks (bs : list bytes) : (forall x, In x bs -> Z.of_nat (length x) = BLOCK_SIZE) ->
  Z.of_nat (length (concat bs)) = BLOCK_SIZE * Z.of_nat (length bs).
Proof.
  induction bs as [|x bs IH]; intros Hb; [done|]. cbn [concat length]. rewrite length_app, Nat2Z.inj_add, (Hb x) by (by left).
  rewrite IH by (intros y Hy; apply Hb; by right). lia.
Qed.

Lemma split_last (b : write_block) : wb_blocks b <> [] -> exists bs cur, wb_blocks b = bs ++ [cur].
Proof. intros H. destruct (exists_last H) as (bs & cur & ->). by exists bs, cur. Qed.

Lemma blocks_content b bs cur : blocks_ok b -> wb_blocks b = bs ++ [cur] ->
  content b = concat bs ++ take (Z.to_nat (wb_ptr b)) cur /\ Z.of_nat (length (concat bs)) = BLOCK_SIZE * Z.of_nat (length bs) /\
  Z.of_nat (length cur) = BLOCK_SIZE.
Proof.
  intros [Hf Hs Hp Hl] E. rewrite E in *.
  assert (Hbs : Z.of_nat (length (concat bs)) = BLOCK_SIZE * Z.of_nat (length bs)).
  { apply length_blocks. intros x Hx. apply Hf, in_or_app. by left. }
  split; [|split; [done|apply Hf, in_or_app; right; by left]].
  unfold content. rewrite E, concat_app. cbn [concat]. rewrite app_nil_r. rewrite length_app in Hl. cbn [length] in Hl.
  unfold BLOCK_SIZE in *. rewrite take_app_ge by lia. do 2 f_equal. lia.
Qed.

Lemma wb_copy_spec b s : blocks_ok b -> wb_ptr b + Z.of_nat (length s) <= BLOCK_SIZE -> forall rest,
  exists b', wb_copy b (s ++ rest) (Z.of_nat (length s)) = Ret b' /\ blocks_ok b' /\ content b' = content b ++ s /\
    wb_ptr b' = wb_ptr b + Z.of_nat (length s).
Proof.
  intros Hb Hfit rest. destruct (split_last b (bo_some _ Hb)) as (bs & cur & E).
  destruct (blocks_content b bs cur Hb E) as (Hc & Hbs & Hcur). pose proof (bo_ptr _ Hb) as Hp. pose proof (bo_len _ Hb) as Hl.
  unfold wb_copy, wb_current. rewrite E, last_snoc. cbn [deref]. rewrite bind_Ret, memcpy_ok, bind_Ret by (rewrite ?length_app; lia).
  rewrite Nat2Z.id, take_app_length, removelast_last. set (cur' := take _ cur ++ s ++ _).
  assert (Hcur' : Z.of_nat (length cur') = BLOCK_SIZE).
  { unfold cur'. rewrite !length_app, length_take, length_drop. lia. }
  eexists. split; [reflexivity|].
  assert (Hok : blocks_ok (WriteBlock (bs ++ [cur']) (wb_len b + Z.of_nat (length s)) (wb_ptr b + Z.of_nat (length s)))).
  { split; cbn [wb_blocks wb_len wb_ptr]; [|by destruct bs|lia|].
    - intros x [Hx|[<-|[]]]%in_app_or; [|done]. apply (bo_full _ Hb). rewrite E. apply in_or_app. by left.
    - rewrite Hl, E, !length_app. cbn [length]. lia. }
  split; [done|]. split; [|done].
  destruct (blocks_content _ bs cur' Hok eq_refl) as (-> & _ & _). rewrite Hc, <- app_assoc. f_equal. cbn [wb_ptr].
  unfold cur'. rewrite app_assoc. apply take_app_length'. rewrite length_app, length_take. lia.
Qed.

Lemma wb_next_spec b : blocks_ok b -> wb_ptr b = BLOCK_SIZE -> blocks_ok (wb_next junk b) /\ content (wb_next junk b) = content b.
Proof.
  intros Hb Hp. pose proof (bo_len _ Hb) as Hl. pose proof (length_blocks _ (bo_full _ Hb)) as Hc. split.
  - split; cbn [wb_next wb_blocks wb_len wb_ptr].
    + intros x [Hx|[<-|[]]]%in_app_or; [by apply (bo_full _ Hb)|done].
    + by destruct (wb_blocks b).
    + unfold BLOCK_SIZE. lia.
    + rewrite Hl, length_app, Hp. cbn [length]. lia.
  - unfold content. cbn [wb_next wb_blocks wb_len]. rewrite concat_app. cbn [concat].
    rewrite take_app_le; [done|]. rewrite Hl, Hp in *. lia.
Qed.

Lemma wb_fill_spec fuel : forall b s, blocks_ok b -> wb_ptr b < BLOCK_SIZE -> (length s < fuel)%nat ->
  exists b', wb_fill junk fuel b s = Ret b' /\ blocks_ok b' /\ content b' = content b ++ s.
Proof.
  induction fuel as [|fuel IH]; intros b s Hb Hp Hf; [lia|]. cbn [wb_fill]. pose proof (bo_ptr _ Hb).
  destruct (Z.leb_spec (wb_ptr b) (BLOCK_SIZE - Z.of_nat (length s))).
  - destruct (wb_copy_spec b s Hb ltac:(lia) []) as (b' & Heq & Hb' & Hc & _). rewrite app_nil_r in Heq. by exists b'.
  - set (n := Z.to_nat (BLOCK_SIZE - wb_ptr b)).
    destruct (wb_copy_spec b (take n s) Hb) with (rest := drop n s) as (b1 & Heq & Hb1 & Hc1 & Hp1).
    { rewrite length_take. lia. }
    rewrite take_drop, length_take in *. replace (BLOCK_SIZE - wb_ptr b) with (Z.of_nat (Nat.min n (length s))) by lia.
    rewrite Heq, bind_Ret. replace (Z.to_nat (Z.of_nat (Nat.min n (length s)))) with n by lia.
    destruct (wb_next_spec b1 Hb1 ltac:(lia)) as [Hb2 Hc2].
    destruct (IH (wb_next junk b1) (drop n s) Hb2) as (b' & -> & Hb' & Hc'); [cbn; done|rewrite length_drop; lia|].
    exists b'. split; [done|]. split; [done|]. by rewrite Hc', Hc2, Hc1, <- app_assoc, take_drop.
Qed.

(** [f] appends [s]. *)
Definition emits (f : write_block -> outcome write_block) (s : bytes) : Prop :=
  forall b, blocks_ok b -> exists b', f b = Ret b' /\ blocks_ok b' /\ content b' = content b ++ s.

Lemma emits_push s : emits (fun b => wb_push junk b s) s.
Proof.
  intros b Hb. unfold wb_push. pose proof (bo_ptr _ Hb). destruct (Z.eqb_spec (wb_ptr b) BLOCK_SIZE) as [Hp|Hp].
  - destruct (wb_next_spec b Hb Hp) as [Hb' Hc]. rewrite <- Hc. apply wb_fill_spec; [done|cbn; done|lia].
  - apply wb_fill_spec; [done|lia|lia].
Qed.

Lemma emits_bind f g s t : emits f s -> emits g t -> emits (fun b => b ← f b; g b) (s ++ t).
Proof.
  intros Hf Hg b Hb. destruct (Hf b Hb) as (b1 & -> & Hb1 & Hc1). rewrite bind_Ret.
  destruct (Hg b1 Hb1) as (b2 & -> & Hb2 & Hc2). exists b2. split; [done|]. split; [done|]. by rewrite Hc2, Hc1, app_assoc.
Qed.

Lemma emits_ret : emits Ret [].
Proof. intros b Hb. exists b. by rewrite app_nil_r. Qed.

(** [seri] copies the contents out. *)
Lemma seri_loop_spec (bs : list bytes) : forall len, 0 <= len <= BLOCK_SIZE * Z.of_nat (length bs) ->
  (forall x, In x bs -> Z.of_nat (length x) = BLOCK_SIZE) -> seri_loop bs len = Ret (take (Z.to_nat len) (concat bs)).
Proof.
  assert (Hstr : forall s n, 0 <= n <= Z.of_nat (length s) -> str_bytes s n = Ret (take (Z.to_nat n) s)).
  { intros s n Hn. unfold str_bytes. by rewrite (proj2 (Z.ltb_ge n 0)), (proj2 (Z.ltb_ge _ n)) by lia. }
  induction bs as [|x bs IH]; intros len Hlen Hb.
  - cbn [length] in Hlen. replace len with 0 by lia. done.
  - cbn [seri_loop length] in *. destruct (Z.leb_spec len 0); [by replace len with 0 by lia|].
    pose proof (Hb x ltac:(by left)) as Hx. cbn [concat]. unfold BLOCK_SIZE in *. destruct (Z.leb_spec 128 len).
    + rewrite Hstr, bind_Ret by lia. rewrite (IH (len - 128)) by (try lia; intros; apply Hb; by right).
      rewrite bind_Ret, take_app_ge by lia. rewrite firstn_all2 by lia. do 3 f_equal. lia.
    + rewrite Hstr by lia. by rewrite take_app_le by lia.
Qed.

Lemma seri_spec b : blocks_ok b -> seri b = Ret (content b, Z.of_nat (length (content b))).
Proof.
  intros Hb. pose proof (bo_len _ Hb) as Hl. pose proof (bo_ptr _ Hb) as Hp. pose proof (length_blocks _ (bo_full _ Hb)) as Hc.
  assert (1 <= Z.of_nat (length (wb_blocks b))) by (pose proof (bo_some _ Hb); destruct (wb_blocks b); [done|cbn [length]; lia]).
  unfold BLOCK_SIZE in *. unfold seri. rewrite seri_loop_spec, bind_Ret; [|unfold BLOCK_SIZE; lia|apply (bo_full _ Hb)].
  unfold content. rewrite length_take. do 2 f_equal. lia.
Qed.

Lemma wb_init_ok : blocks_ok (wb_init junk) /\ content (wb_init junk) = [].
Proof.
  split; [|done]. split; cbn [wb_init wb_blocks wb_len wb_ptr]; [intros x [<-|[]]; done|done|unfold BLOCK_SIZE; lia|cbn [length]; lia].
Qed.
End pack.

(** ** What unpacking reads *)

Record rb_ok (rb : read_block) : Prop := {
  ro_ptr : 0 <= rb_ptr rb; ro_len : 0 <= rb_len rb;
  ro_size : rb_ptr rb + rb_len rb <= Z.of_nat (length (rb_buffer rb)) }.

(** The bytes left. *)
Definition view (rb : read_block) : bytes := take (Z.to_nat (rb_len rb)) (drop (Z.to_nat (rb_ptr rb)) (rb_buffer rb)).

Lemma length_view rb : rb_ok rb -> Z.of_nat (length (view rb)) = rb_len rb.
Proof. intros [H1 H2 H3]. unfold view. rewrite length_take, length_drop. lia. Qed.

(** [f] reads the bytes [s] as [a]. *)
Definition decodes {A} (f : read_block -> outcome (A * read_block)) (s : bytes) (a : A) : Prop :=
  forall rb rest, rb_ok rb -> view rb = s ++ rest ->
    exists rb', f rb = Ret (a, rb') /\ rb_ok rb' /\ view rb' = rest.

Lemma decodes_get s : decodes (fun rb => rb_get rb (Z.of_nat (length s))) s s.
Proof.
  intros rb rest Hrb Hv. pose proof (length_view rb Hrb) as Hl. rewrite Hv, length_app in Hl. destruct Hrb as [H1 H2 H3].
  unfold rb_get, rb_read. rewrite (proj2 (Z.ltb_ge _ _)) by lia. unfold peek. cbn [rb_buffer].
  rewrite (proj2 (Z.ltb_ge (rb_ptr rb) 0)), (proj2 (Z.ltb_ge (Z.of_nat (length s)) 0)) by lia.
  rewrite (proj2 (Z.ltb_ge _ (_ + _))) by lia. cbn [orb]. rewrite bind_Ret, Nat2Z.id.
  assert (Hs : take (length s) (drop (Z.to_nat (rb_ptr rb)) (rb_buffer rb)) = s).
  { rewrite <- (Nat.min_l (length s) (Z.to_nat (rb_len rb))) by lia. rewrite <- take_take. fold (view rb).
    by rewrite Hv, take_app_length. }
  rewrite Hs. eexists. split; [reflexivity|]. split; [split; cbn; lia|].
  unfold view in *. cbn [rb_len rb_ptr rb_buffer]. rewrite <- (drop_app_length s rest), <- Hv, skipn_firstn_comm, drop_drop.
  f_equal; [lia|]. f_equal. lia.
Qed.

Lemma decodes_bind {A B} (f : read_block -> outcome (A * read_block)) (g : A -> read_block -> outcome (B * read_block)) s t a b :
  decodes f s a -> decodes (g a) t b -> decodes (fun rb => '(a, rb) ← f rb; g a rb) (s ++ t) b.
Proof.
  intros Hf Hg rb rest Hrb Hv. rewrite <- app_assoc in Hv. destruct (Hf rb (t ++ rest) Hrb Hv) as (rb1 & -> & Hrb1 & Hv1).
  rewrite bind_Ret. apply (Hg rb1 rest Hrb1 Hv1).
Qed.

Lemma decodes_ret {A} (a : A) : decodes (fun rb => Ret (a, rb)) [] a.
Proof. intros rb rest Hrb Hv. by exists rb. Qed.

(** Reading, then a computation. *)
Lemma decodes_map {A B} (f : read_block -> outcome (A * read_block)) (g : A -> B) s a :
  decodes f s a -> decodes (fun rb => '(a, rb) ← f rb; Ret (g a, rb)) s (g a).
Proof.
  intros Hf. rewrite <- (app_nil_r s). apply (decodes_bind f (fun a rb => Ret (g a, rb)) s [] a); [done|apply decodes_ret].
Qed.

Lemma decodes_ext {A} (f g : read_block -> outcome (A * read_block)) s a :
  (forall rb, f rb = g rb) -> decodes f s a -> decodes g s a.
Proof. intros E Hf rb rest Hrb Hv. rewrite <- E. by apply Hf. Qed.

Lemma decodes_bytes (n : nat) v : decodes (fun rb => '(s, rb) ← rb_get rb (Z.of_nat n); Ret (le_value s, rb)) (le_bytes n v)
  (v mod 2 ^ (8 * Z.of_nat n)).
Proof.
  rewrite <- le_value_bytes. pose proof (decodes_get (le_bytes n v)) as Hd. rewrite length_le_bytes in Hd.
  by apply (decodes_map _ le_value).
Qed.

Lemma decodes_buffer s : decodes (fun rb => get_buffer rb (Z.of_nat (length s))) s s.
Proof. unfold get_buffer. rewrite (proj2 (Z.ltb_ge _ 0)) by lia. apply decodes_get. Qed.

Section values.
Context (junk : bytes) (Hjunk : Z.of_nat (length junk) = BLOCK_SIZE).
(** *** Integers *)

Lemma integer_spec v : -2 ^ 63 <= v < 2 ^ 63 -> exists (c : Z) (s : bytes),
  emits (fun b => wb_integer junk b v) (type_byte TYPE_NUMBER c ++ s) /\ (c = 0 \/ c = 1 \/ c = 2 \/ c = 4 \/ c = 6) /\
  decodes (fun rb => get_integer rb c) s v.
Proof.
  intros Hv. unfold wb_integer.
  assert (Hem : forall c s, emits (fun b => wb ← wb_push junk b (type_byte TYPE_NUMBER c); wb_push junk wb s) (type_byte TYPE_NUMBER c ++ s)).
  { intros c s. apply emits_bind; by apply emits_push. }
  destruct (Z.eqb_spec v 0) as [->|H0].
  { exists 0, []. split; [apply emits_push, Hjunk|]. split; [tauto|apply decodes_ret]. }
  destruct (Z.eqb_spec v (s32 v)) as [H32|H32]; cbn [negb].
  2: { exists 6, (le_bytes 8 v). split; [apply Hem|]. split; [tauto|].
    pose proof (decodes_map _ s64 _ _ (decodes_bytes 8 v)) as Hd. change (8 * Z.of_nat 8) with 64 in Hd. rewrite s64_mod in Hd by done.
    revert Hd. apply decodes_ext. intros rb.
    change (get_integer rb 6) with ('(s, rb) ← rb_get rb 8; Ret (s64 (le_value s), rb)). change (Z.of_nat 8) with 8.
    by destruct (rb_get rb 8) as [[]| | |]. }
  pose proof (s32_range v) as Hr. rewrite <- H32 in Hr.
  destruct (Z.ltb_spec v 0); [|destruct (Z.ltb_spec v 256); [|destruct (Z.ltb_spec v 65536)]].
  - exists 4, (le_bytes 4 (s32 v)). split; [apply Hem|]. split; [tauto|]. rewrite <- H32.
    pose proof (decodes_map _ s32 _ _ (decodes_bytes 4 v)) as Hd. change (8 * Z.of_nat 4) with 32 in Hd. rewrite s32_mod in Hd by done.
    revert Hd. apply decodes_ext. intros rb.
    change (get_integer rb 4) with ('(s, rb) ← rb_get rb 4; Ret (s32 (le_value s), rb)). change (Z.of_nat 4) with 4.
    by destruct (rb_get rb 4) as [[]| | |].
  - exists 1, (le_bytes 1 (u8 v)). split; [apply Hem|]. split; [tauto|]. rewrite u8_small by lia.
    pose proof (decodes_bytes 1 v) as Hd. change (8 * Z.of_nat 1) with 8 in Hd. rewrite Z.mod_small in Hd by lia. exact Hd.
  - exists 2, (le_bytes 2 (u16 v)). split; [apply Hem|]. split; [tauto|]. unfold u16. rewrite Z.mod_small by lia.
    pose proof (decodes_bytes 2 v) as Hd. change (8 * Z.of_nat 2) with 16 in Hd. rewrite Z.mod_small in Hd by lia. exact Hd.
  - exists 4, (le_bytes 4 (u32 v)). split; [apply Hem|]. split; [tauto|]. rewrite u32_small by lia.
    pose proof (decodes_map _ s32 _ _ (decodes_bytes 4 v)) as Hd. change (8 * Z.of_nat 4) with 32 in Hd. rewrite s32_mod in Hd by done.
    revert Hd. apply decodes_ext. intros rb.
    change (get_integer rb 4) with ('(s, rb) ← rb_get rb 4; Ret (s32 (le_value s), rb)). change (Z.of_nat 4) with 4.
    by destruct (rb_get rb 4) as [[]| | |].
Qed.

(** *** One value *)

Context (real_integer : Z -> option Z) (real_nan : Z -> bool).

(** After the byte of the type. *)
Lemma decodes_one fuel t c s v : 0 <= t < 8 -> 0 <= c < 32 ->
  decodes (fun rb => push_value real_integer real_nan (unpack_one real_integer real_nan fuel) rb t c) s v ->
  decodes (unpack_one real_integer real_nan (S fuel)) (type_byte t c ++ s) v.
Proof.
  intros Ht Hc Hd. rewrite type_byte_eq by done. cbn [unpack_one].
  apply (decodes_bind (fun rb => rb_get rb 1) (fun b rb => push_value real_integer real_nan (unpack_one real_integer real_nan fuel) rb
    (Z.land (le_value b) 7) (Z.shiftr (le_value b) 3)) [t + 8 * c] s [t + 8 * c]).
  - apply (decodes_get [t + 8 * c]).
  - cbn [le_value]. rewrite Z.mul_0_r, Z.add_0_r, type_of_byte, cookie_of_byte by done. exact Hd.
Qed.

(** Strings. *)
Lemma str_bytes_all s : str_bytes s (Z.of_nat (length s)) = Ret s.
Proof.
  unfold str_bytes. rewrite (proj2 (Z.ltb_ge _ 0)), (proj2 (Z.ltb_ge _ (Z.of_nat (length s)))) by lia.
  cbn [orb]. by rewrite Nat2Z.id, firstn_all.
Qed.

Lemma emits_string str : Z.of_nat (length str) < 2 ^ 31 ->
  exists s, emits (fun b => wb_string junk b str (s32 (Z.of_nat (length str)))) s /\ s <> [] /\
    forall fuel, (1 <= fuel)%nat -> decodes (unpack_one real_integer real_nan fuel) s (VString str).
Proof.
  intros Hl. rewrite s32_small by lia. unfold wb_string. set (len := Z.of_nat (length str)) in *.
  assert (Hone : forall fuel, (1 <= fuel)%nat -> exists f, fuel = S f) by (intros [|f]; [lia|eauto]).
  assert (Hbuf : decodes (fun rb => '(s, rb) ← get_buffer rb len; Ret (VString s, rb)) str (VString str)).
  { apply (decodes_map (fun rb => get_buffer rb len) VString). apply decodes_buffer. }
  assert (Hlen : forall (n : nat) (g : Z -> Z), g (len mod 2 ^ (8 * Z.of_nat n)) = len ->
    decodes (fun rb => '(b, rb) ← rb_get rb (Z.of_nat n); '(s, rb) ← get_buffer rb (g (le_value b)); Ret (VString s, rb))
      (le_bytes n len ++ str) (VString str)).
  { intros n g Hg. pose proof (decodes_get (le_bytes n len)) as Hd. rewrite length_le_bytes in Hd.
    apply (decodes_bind _ (fun b rb => '(s, rb) ← get_buffer rb (g (le_value b)); Ret (VString s, rb)) _ _ _ _ Hd).
    rewrite le_value_bytes, Hg. exact Hbuf. }
  destruct (Z.ltb_spec len MAX_COOKIE) as [Hs|Hs].
  - exists (type_byte TYPE_SHORT_STRING len ++ str). unfold MAX_COOKIE in Hs. split; [|split; [done|]].
    + apply emits_bind; [by apply emits_push|]. destruct (Z.ltb_spec 0 len).
      * rewrite str_bytes_all. by apply emits_push.
      * destruct str; [apply emits_ret|cbn [length] in len; lia].
    + intros fuel (f & ->)%Hone. by apply decodes_one; [unfold TYPE_SHORT_STRING; lia|lia|].
  - destruct (Z.ltb_spec len 65536) as [Hm|Hm].
    + exists ((type_byte TYPE_LONG_STRING 2 ++ le_bytes 2 len) ++ str). split; [|split; [done|]].
      * unfold u16. rewrite Z.mod_small by lia. apply emits_bind; [apply emits_bind; by apply emits_push|].
        rewrite str_bytes_all. by apply emits_push.
      * intros fuel (f & ->)%Hone. rewrite <- app_assoc. apply decodes_one; [unfold TYPE_LONG_STRING; lia|lia|].
        apply (Hlen 2%nat (fun z => z)). rewrite Z.mod_small by lia. done.
    + exists ((type_byte TYPE_LONG_STRING 4 ++ le_bytes 4 len) ++ str). split; [|split; [done|]].
      * rewrite u32_small by lia. apply emits_bind; [apply emits_bind; by apply emits_push|].
        rewrite str_bytes_all. by apply emits_push.
      * intros fuel (f & ->)%Hone. rewrite <- app_assoc. apply decodes_one; [unfold TYPE_LONG_STRING; lia|lia|].
        apply (Hlen 4%nat s32). change (8 * Z.of_nat 4) with 32. apply s32_mod. lia.
Qed.

(** A word of eight bytes behind its type. *)
Lemma emits_word t c (n : Z) v : 0 <= t < 8 -> 0 <= c < 32 -> word 64 n ->
  (forall fuel, decodes (fun rb => push_value real_integer real_nan (unpack_one real_integer real_nan fuel) rb t c) (le_bytes 8 n) v) ->
  exists s, emits (fun b => wb ← wb_push junk b (type_byte t c); wb_push junk wb (le_bytes 8 n)) s /\ s <> [] /\
    forall fuel, (1 <= fuel)%nat -> decodes (unpack_one real_integer real_nan fuel) s v.
Proof.
  intros Ht Hc Hn Hd. exists (type_byte t c ++ le_bytes 8 n). split; [apply emits_bind; by apply emits_push|]. split; [done|].
  intros [|f] Hf; [lia|]. by apply decodes_one.
Qed.
End values.

(** ** Tables *)

Section tables.
Context (real_integer : Z -> option Z) (real_nan : Z -> bool) (h : store).

(** A key that is not a table, as Lua stores it. *)
Definition key_ok (k : lua_value) : Prop :=
  match k with
  | LBoolean _ | LInteger _ | LString _ | LPointer _ => True
  | LReal r => real_integer r = None /\ real_nan r = false
  | _ => False
  end.

Definition scalar (v : lua_value) : value :=
  match v with
  | LBoolean b => VBoolean b | LInteger n => VInteger n | LReal r => VReal r
  | LString s => VString s | LPointer p => VPointer p | _ => VNil
  end.

(** [t] is a copy of [v], with tables up to depth [d]: the same entries. *)
Fixpoint copy (d : nat) (v : lua_value) (t : value) : Prop :=
  match v, t with
  | LNil, VNil => True
  | LBoolean a, VBoolean b => a = b
  | LInteger a, VInteger b | LReal a, VReal b | LPointer a, VPointer b => a = b
  | LString a, VString b => a = b
  | LTable l, VTable es =>
      match d with
      | O => False
      | S d => exists tb, h !! l = Some tb /\ forall k, key_ok k ->
          match assoc (lt_entries tb) k, entry_get es (scalar k) with
          | None, None => True
          | Some v, Some t => copy d v t
          | _, _ => False
          end
      end
  | _, _ => False
  end.

(** Values that can be packed: numbers and strings of their sizes, tables in at
    most [d] levels whose keys are distinct scalars; the length of a table is a
    border. *)
Fixpoint packable (d : nat) (v : lua_value) : Prop :=
  match d with
  | O => False
  | S d =>
      match v with
      | LNil | LBoolean _ => True
      | LInteger n => -2 ^ 63 <= n < 2 ^ 63
      | LReal r => word 64 r
      | LString s => Z.of_nat (length s) < 2 ^ 31
      | LPointer p => word 64 p
      | LTable l => exists tb, h !! l = Some tb /\ lt_pairs tb = None /\ 0 <= lt_rawlen tb < 2 ^ 31 /\
          (lt_rawlen tb = 0 \/ is_Some (assoc (lt_entries tb) (LInteger (lt_rawlen tb)))) /\
          NoDup (lt_entries tb).*1 /\
          forall k v, (k, v) ∈ lt_entries tb -> key_ok k /\ packable d k /\ v <> LNil /\ packable d v
      | LOther _ => False
      end
  end.

(** *** Entries *)

Lemma same_key_eq a b c : same_key a b = true -> same_key a c = same_key b c /\ same_key c a = same_key c b.
Proof.
  destruct a, b; cbn; try done.
  - intros ->%eqb_prop. done.
  - intros ->%Z.eqb_eq. done.
  - intros ->%Z.eqb_eq. done.
  - intros ->%bool_decide_eq_true. done.
  - intros ->%Z.eqb_eq. done.
Qed.

Lemma same_key_refl k : key_ok k -> same_key (scalar k) (scalar k) = true.
Proof. destruct k; cbn; intros; try done; [apply eqb_reflx|apply Z.eqb_refl..|by apply bool_decide_eq_true|apply Z.eqb_refl]. Qed.

Lemma same_key_scalar a b : key_ok a -> key_ok b -> same_key (scalar a) (scalar b) = bool_decide (a = b).
Proof.
  intros Ha Hb. destruct (bool_decide_reflect (a = b)) as [->|Hne]; [by apply same_key_refl|].
  destruct a, b; cbn in *; try done; apply not_true_iff_false; intros E; apply Hne; f_equal.
  - by apply eqb_prop.
  - by apply Z.eqb_eq.
  - by apply Z.eqb_eq.
  - by apply bool_decide_eq_true in E.
  - by apply Z.eqb_eq.
Qed.

Lemma entry_get_set es k v k2 : same_key k k = true -> v <> VNil ->
  entry_get (entry_set es k v) k2 = if same_key k k2 then Some v else entry_get es k2.
Proof.
  intros Hk Hv. induction es as [|[k' v'] es IH]; cbn [entry_set].
  - by destruct v.
  - destruct (same_key k' k) eqn:E.
    + destruct (same_key_eq _ _ k2 E) as [E2 _]. destruct v; try done; cbn [entry_get]; rewrite E2; by destruct (same_key k k2).
    + cbn [entry_get]. rewrite IH. destruct (same_key k' k2) eqn:E2; [|done]. destruct (same_key k k2) eqn:E3; [|done].
      exfalso. destruct (same_key_eq _ _ k' E3) as [_ E4]. congruence.
Qed.

Lemma entry_set_nil es k : entry_get es k = None -> entry_set es k VNil = es.
Proof.
  induction es as [|[k' v'] es IH]; cbn; [done|]. destruct (same_key k' k); [done|]. intros H. by rewrite IH.
Qed.

(** The table holds copies of what [m] gives. *)
Definition holds_all (d : nat) (m : lua_value -> option lua_value) (es : list (value * value)) : Prop :=
  forall k, key_ok k -> match m k, entry_get es (scalar k) with
                        | None, None => True | Some v, Some t => copy d v t | _, _ => False end.

Lemma holds_set d m m' es k v t : holds_all d m es -> key_ok k -> t <> VNil -> copy d v t ->
  (forall k', key_ok k' -> m' k' = if decide (k = k') then Some v else m k') ->
  holds_all d m' (entry_set es (scalar k) t).
Proof.
  intros Hm Hk Ht Hc Hm' k' Hk'. rewrite Hm' by done. rewrite entry_get_set by (by apply same_key_refl || done).
  rewrite same_key_scalar by done. destruct (decide (k = k')) as [->|Hne].
  - by rewrite bool_decide_eq_true_2.
  - rewrite bool_decide_eq_false_2 by done. by apply Hm.
Qed.

Abbreviation one f := (unpack_one real_integer real_nan f).

(** A value, what packing writes for it and what unpacking makes of that. *)
Record piece (pack : write_block -> lua_value -> outcome write_block) (d : nat) (v : lua_value) (s : bytes) (t : value) : Prop := {
  pc_emits : emits (fun b => pack b v) s;
  pc_some : s <> [];
  pc_copy : copy d v t;
  pc_nil : t = VNil <-> v = LNil;
  pc_key : key_ok v -> t = scalar v;
  pc_decodes f : (length s <= f)%nat -> decodes (one f) s t }.

Section one_table.
Context (pack : write_block -> lua_value -> outcome write_block) (d : nat) (tb : lua_table).

(** Keys [LInteger x] with [0 < x < i]. *)
Definition below (i : Z) (k : lua_value) : option lua_value :=
  if in_array k (i - 1) then assoc (lt_entries tb) k else None.

Lemma in_array_int x n : in_array (LInteger x) n = bool_decide (0 < x <= n).
Proof.
  cbn. destruct (Z.ltb_spec 0 x), (Z.leb_spec x n); cbn; symmetry; (apply bool_decide_eq_true_2 || apply bool_decide_eq_false_2); lia.
Qed.

Lemma array_spec n : forall i es, 1 <= i ->
  (forall j, i <= j < i + Z.of_nat n -> exists s t, piece pack d (rawgeti tb j) s t) ->
  (forall k v, assoc (lt_entries tb) k = Some v -> v <> LNil) ->
  holds_all d (below i) es ->
  exists s es', emits (fun b => array_loop pack n i tb b) s /\
    (forall f, (length s <= f)%nat -> decodes (unpack_array (one f) n i es) s es') /\
    holds_all d (below (i + Z.of_nat n)) es'.
Proof.
  induction n as [|n IH]; intros i es Hi Hp Hnn Hh.
  - exists [], es. split; [apply emits_ret|]. split; [intros; apply decodes_ret|]. by rewrite Z.add_0_r.
  - destruct (Hp i ltac:(lia)) as (s1 & t1 & Hpc). pose proof (Hh (LInteger i) I) as Hi0.
    assert (Hbi : below i (LInteger i) = None).
    { unfold below. rewrite in_array_int, bool_decide_eq_false_2 by lia. done. }
    rewrite Hbi in Hi0. destruct (entry_get es (scalar (LInteger i))) eqn:Hg; [done|].
    assert (Hh1 : holds_all d (below (i + 1)) (entry_set es (VInteger i) t1)).
    { assert (Hother : forall k, k <> LInteger i -> below (i + 1) k = below i k).
      { intros k Hk. unfold below. destruct k as [| |x| | | | |]; try done. rewrite !in_array_int.
        assert (x <> i) by congruence. rewrite (bool_decide_ext (0 < x <= i + 1 - 1) (0 < x <= i - 1)) by lia. done. }
      assert (Hat : below (i + 1) (LInteger i) = assoc (lt_entries tb) (LInteger i)).
      { unfold below. rewrite in_array_int, bool_decide_eq_true_2 by lia. done. }
      destruct (assoc (lt_entries tb) (LInteger i)) as [v|] eqn:Ha.
      - assert (Hv : rawgeti tb i = v) by (unfold rawgeti; by rewrite Ha). rewrite Hv in Hpc.
        apply (holds_set d (below i) _ _ (LInteger i) v); [done|done| |apply (pc_copy _ _ _ _ _ Hpc)|].
        + intros E. apply (pc_nil _ _ _ _ _ Hpc) in E. by apply (Hnn _ _ Ha).
        + intros k' _. destruct (decide (LInteger i = k')) as [<-|]; [done|by apply Hother].
      - assert (Hv : rawgeti tb i = LNil) by (unfold rawgeti; by rewrite Ha). rewrite Hv in Hpc.
        rewrite (proj2 (pc_nil _ _ _ _ _ Hpc) eq_refl), entry_set_nil by done.
        intros k Hk. destruct (decide (k = LInteger i)) as [->|Hne]; [rewrite Hat, Hg; done|]. rewrite Hother by done. by apply Hh. }
    destruct (IH (i + 1) (entry_set es (VInteger i) t1)) as (s2 & es2 & He & Hd & Hh2); [lia|intros; apply Hp; lia|done|done|].
    exists (s1 ++ s2), es2. split; [|split].
    + cbn [array_loop]. apply emits_bind; [apply (pc_emits _ _ _ _ _ Hpc)|done].
    + intros f Hf. rewrite length_app in Hf. cbn [unpack_array].
      apply (decodes_bind (one f) (fun v rb => unpack_array (one f) n (i + 1) (entry_set es (VInteger i) v) rb) s1 s2 t1).
      * apply (pc_decodes _ _ _ _ _ Hpc). lia.
      * apply Hd. lia.
    + by replace (i + Z.of_nat (S n)) with (i + 1 + Z.of_nat n) by lia.
Qed.

(** The array part and the entries of [done]. *)
Definition joined (n : Z) (done : list (lua_value * lua_value)) (k : lua_value) : option lua_value :=
  if in_array k n then assoc (lt_entries tb) k else assoc done k.

Lemma assoc_app a b k : assoc (a ++ b) k = match assoc a k with Some v => Some v | None => assoc b k end.
Proof. induction a as [|[k' v] a IH]; cbn; [done|]. by destruct (decide _). Qed.

Lemma assoc_None a k : assoc a k = None <-> k ∉ a.*1.
Proof.
  induction a as [|[k' v] a IH]; cbn; [by split; [intros _ ?%elem_of_nil|]|]. rewrite not_elem_of_cons, <- IH.
  destruct (decide (k' = k)); [split; [done|naive_solver]|naive_solver].
Qed.

Lemma hash_spec n rest : forall done es, lt_entries tb = done ++ rest -> NoDup (lt_entries tb).*1 ->
  (forall k v, (k, v) ∈ rest -> key_ok k /\ v <> LNil /\ (exists s t, piece pack d k s t) /\ (exists s t, piece pack d v s t)) ->
  holds_all d (joined n done) es ->
  exists s es', emits (fun b => hash_loop pack rest n b) s /\
    (forall f fuel, (length s + 1 <= f)%nat -> (length s < fuel)%nat ->
      decodes (unpack_hash real_integer real_nan (one f) fuel es) (s ++ [TYPE_NIL]) es') /\
    holds_all d (joined n (lt_entries tb)) es'.
Proof.
  induction rest as [|[k v] rest IH]; intros done es He Hnd Hp Hh.
  - exists [], es. split; [apply emits_ret|]. split.
    + intros [|f] [|fuel] Hf Hfu; [cbn in *; lia..|]. cbn [unpack_hash].
      apply (decodes_bind (one (S f)) (fun k rb => match k with VNil => Ret (es, rb) | _ =>
          '(v, rb) ← one (S f) rb; es ← rawset real_integer real_nan es k v; unpack_hash real_integer real_nan (one (S f)) fuel es rb end)
        [TYPE_NIL] [] VNil); [|apply decodes_ret].
      apply (decodes_one real_integer real_nan f 0 0 [] VNil); [lia|lia|apply decodes_ret].
    + by rewrite He, app_nil_r.
  - destruct (Hp k v ltac:(by left)) as (Hk & Hv & (sk & tk & Pk) & (sv & tv & Pv)).
    assert (Hfresh : assoc done k = None).
    { apply assoc_None. rewrite He, fmap_app in Hnd. apply NoDup_app in Hnd as (_ & Hd & _). intros Hin.
      apply (Hd k Hin). by left. }
    assert (Hnext : forall k', joined n (done ++ [(k, v)]) k' = if in_array k n then joined n done k' else
      if decide (k = k') then Some v else joined n done k').
    { intros k'. unfold joined. rewrite assoc_app. cbn [assoc].
      destruct (in_array k n) eqn:E, (in_array k' n) eqn:E'; try done.
      - destruct (assoc done k'); [done|]. by destruct (decide (k = k')) as [->|]; [congruence|].
      - by destruct (decide (k = k')) as [->|]; [congruence|].
      - destruct (decide (k = k')) as [<-|]; [by rewrite Hfresh|]. by destruct (assoc done k'). }
    destruct (in_array k n) eqn:Harr.
    + destruct (IH (done ++ [(k, v)]) es) as (s & es' & Hs & Hd & Hh'); [by rewrite <- app_assoc|done|intros; apply Hp; by right| |].
      { intros k' Hk'. rewrite Hnext. by apply Hh. }
      exists s, es'. split; [|done]. cbn [hash_loop]. by rewrite Harr.
    + destruct (IH (done ++ [(k, v)]) (entry_set es (scalar k) tv)) as (s & es' & Hs & Hd & Hh');
        [by rewrite <- app_assoc|done|intros; apply Hp; by right| |].
      { apply (holds_set d (joined n done) _ _ k v); [done|done| |apply (pc_copy _ _ _ _ _ Pv)|by intros; apply Hnext].
        intros E. by apply Hv, (pc_nil _ _ _ _ _ Pv). }
      exists (sk ++ sv ++ s), es'. split; [|split; [|done]].
      * cbn [hash_loop]. rewrite Harr. apply emits_bind; [apply (pc_emits _ _ _ _ _ Pk)|].
        apply emits_bind; [apply (pc_emits _ _ _ _ _ Pv)|done].
      * intros f fuel Hf Hfu. rewrite !length_app in *. destruct fuel as [|fuel]; [lia|]. cbn [unpack_hash].
        pose proof (pc_some _ _ _ _ _ Pk). assert (1 <= length sk)%nat by (destruct sk; [done|cbn; lia]).
        rewrite <- !app_assoc.
        apply (decodes_bind (one f) (fun k rb => match k with VNil => Ret (es, rb) | _ =>
          '(v, rb) ← one f rb; es ← rawset real_integer real_nan es k v; unpack_hash real_integer real_nan (one f) fuel es rb end)
          sk (sv ++ s ++ [TYPE_NIL]) (scalar k)).
        { rewrite <- (pc_key _ _ _ _ _ Pk Hk). apply (pc_decodes _ _ _ _ _ Pk). lia. }
        assert (Hrs : rawset real_integer real_nan es (scalar k) tv = Ret (entry_set es (scalar k) tv)).
        { destruct k; cbn in Hk |- *; try done. destruct Hk as [Hi Hn]. rewrite Hn. unfold as_key. by rewrite Hi. }
        assert (Hgo : decodes (fun rb => '(v, rb) ← one f rb; es ← rawset real_integer real_nan es (scalar k) v;
            unpack_hash real_integer real_nan (one f) fuel es rb) (sv ++ s ++ [TYPE_NIL]) es').
        { apply (decodes_bind (one f) (fun v rb => es ← rawset real_integer real_nan es (scalar k) v;
            unpack_hash real_integer real_nan (one f) fuel es rb) sv (s ++ [TYPE_NIL]) tv).
          - apply (pc_decodes _ _ _ _ _ Pv). lia.
          - rewrite Hrs. apply Hd; lia. }
        destruct k; try done; exact Hgo.
Qed.

End one_table.
End tables.

(** A round of the loop of luaseri_unpack is [unpack_one]. *)
Lemma unpack_all_S real_integer real_nan fuel rb : 1 <= rb_len rb ->
  unpack_all real_integer real_nan (S fuel) rb =
    '(v, rb) ← unpack_one real_integer real_nan (S (Z.to_nat (rb_len rb))) rb; vs ← unpack_all real_integer real_nan fuel rb; Ret (v :: vs).
Proof.
  intros Hl. assert (Hr : (rb_len rb <? 1) = false) by lia. cbn [unpack_all]. unfold rb_read. rewrite Hr. cbn [rb_len].
  replace (S (Z.to_nat (rb_len rb - 1))) with (Z.to_nat (rb_len rb)) by lia. cbn [unpack_one].
  generalize (unpack_one real_integer real_nan (Z.to_nat (rb_len rb))). intros u. unfold rb_get, rb_read. rewrite Hr, !bind_assoc.
  by destruct (peek _ _ _).
Qed.

Section roundtrip.
Context (junk : bytes) (Hjunk : Z.of_nat (length junk) = BLOCK_SIZE).
Context (real_integer : Z -> option Z) (real_nan : Z -> bool) (h : store).

Abbreviation one f := (unpack_one real_integer real_nan f).
Abbreviation piece := (piece real_integer real_nan h).
Abbreviation packable := (packable real_integer real_nan h).
Abbreviation key_ok := (key_ok real_integer real_nan).
Abbreviation copy := (copy real_integer real_nan h).

(** The size of the array part. *)
Lemma size_spec n : 0 <= n < 2 ^ 31 -> exists (c : Z) (s : bytes),
  emits (fun wb => if MAX_COOKIE - 1 <=? n then
          wb ← wb_push junk wb (type_byte TYPE_TABLE (MAX_COOKIE - 1));
          wb_integer junk wb n
        else wb_push junk wb (type_byte TYPE_TABLE n)) (type_byte TYPE_TABLE c ++ s) /\
  0 <= c < 32 /\ decodes (fun rb => table_size rb c) s n.
Proof.
  intros Hn. unfold MAX_COOKIE. change (32 - 1) with 31. destruct (Z.leb_spec 31 n) as [Hle|Hlt].
  - destruct (integer_spec junk Hjunk n ltac:(lia)) as (ci & s & He & Hci & Hd). exists 31, (type_byte TYPE_NUMBER ci ++ s).
    split; [apply emits_bind; [by apply emits_push|done]|]. split; [lia|].
    rewrite type_byte_eq by (unfold TYPE_NUMBER; lia).
    apply (decodes_bind (fun rb => rb_get rb 1) (fun b rb =>
      let cookie := Z.shiftr (le_value b) 3 in
      if negb (Z.land (le_value b) 7 =? TYPE_NUMBER) || (cookie =? TYPE_NUMBER_REAL) then invalid_stream
      else '(n, rb) ← get_integer rb cookie; Ret (s32 n, rb)) [TYPE_NUMBER + 8 * ci] s [TYPE_NUMBER + 8 * ci]).
    + apply (decodes_get [TYPE_NUMBER + 8 * ci]).
    + cbv zeta. cbn [le_value]. rewrite Z.mul_0_r, Z.add_0_r, type_of_byte, cookie_of_byte by (unfold TYPE_NUMBER; lia).
      rewrite Z.eqb_refl, (proj2 (Z.eqb_neq ci TYPE_NUMBER_REAL)) by (unfold TYPE_NUMBER_REAL; lia). cbn [negb orb].
      rewrite <- (s32_small n) at 1 by lia. by apply (decodes_map (fun rb => get_integer rb ci) s32).
  - exists n, []. rewrite app_nil_r. split; [by apply emits_push|]. split; [lia|]. unfold table_size, MAX_COOKIE.
    rewrite (proj2 (Z.eqb_neq n (32 - 1))) by lia. apply decodes_ret.
Qed.

(** A loop with enough fuel for the bytes it reads. *)
Lemma decodes_fuel {A} (f : nat -> read_block -> outcome (A * read_block)) s a :
  (forall fuel, (length s < fuel)%nat -> decodes (f fuel) s a) ->
  decodes (fun rb => f (S (Z.to_nat (rb_len rb))) rb) s a.
Proof.
  intros Hd rb rest Hrb Hv. apply (Hd (S (Z.to_nat (rb_len rb)))); [|done|done].
  pose proof (length_view rb Hrb) as Hl. rewrite Hv, length_app in Hl. lia.
Qed.

Lemma table_piece pack d l tb :
  h !! l = Some tb -> lt_pairs tb = None -> 0 <= lt_rawlen tb < 2 ^ 31 ->
  (lt_rawlen tb = 0 \/ is_Some (assoc (lt_entries tb) (LInteger (lt_rawlen tb)))) -> NoDup (lt_entries tb).*1 ->
  (forall k v, (k, v) ∈ lt_entries tb -> key_ok k /\ v <> LNil /\ (exists s t, piece pack d k s t) /\ (exists s t, piece pack d v s t)) ->
  (exists s t, piece pack d LNil s t) \/ lt_entries tb = [] ->
  exists s t, emits (fun b => wb_table junk pack b tb) s /\ s <> [] /\ copy (S d) (LTable l) t /\ t <> VNil /\
    (forall f, (length s <= f)%nat -> decodes (one f) s t).
Proof.
  intros Hl Hp Hlen Hborder Hnd Hall Hnil. set (n := lt_rawlen tb) in *.
  destruct (size_spec n Hlen) as (c & s0 & He0 & Hc & Hd0).
  assert (Hin : forall k v, assoc (lt_entries tb) k = Some v -> (k, v) ∈ lt_entries tb).
  { clear. induction (lt_entries tb) as [|[k' v'] es IH]; intros k v; cbn; [done|].
    destruct (decide (k' = k)) as [->|]; [intros [= ->]; by left|]. intros H. right. by apply IH. }
  destruct (array_spec real_integer real_nan h pack d tb (Z.to_nat n) 1 []) as (s1 & es1 & He1 & Hd1 & Hh1); [lia| | | |].
  { intros j Hj. unfold rawgeti. destruct (assoc (lt_entries tb) (LInteger j)) as [v|] eqn:E; cbn [default from_option].
    - apply Hin in E. by destruct (Hall _ _ E) as (_ & _ & _ & ?).
    - destruct Hnil as [?|Hnil]; [done|]. destruct Hborder as [?|[v Hv]]; [lia|]. by rewrite Hnil in Hv. }
  { intros k v Hv. apply Hin in Hv. by destruct (Hall _ _ Hv) as (_ & ? & _). }
  { intros k Hk. unfold below. destruct (in_array k (1 - 1)) eqn:E; [|done].
    destruct k; try done. rewrite in_array_int in E. apply bool_decide_eq_true in E. lia. }
  destruct (hash_spec real_integer real_nan h pack d tb n (lt_entries tb) [] es1) as (s2 & es2 & He2 & Hd2 & Hh2); [done|done|done| |].
  { intros k Hk. specialize (Hh1 k Hk). unfold below, joined in *. replace (1 + Z.of_nat (Z.to_nat n) - 1) with n in Hh1 by lia.
    exact Hh1. }
  exists (((type_byte TYPE_TABLE c ++ s0) ++ s1) ++ s2 ++ [TYPE_NIL]), (VTable es2). split; [|split; [|split; [|split; [done|]]]].
  - unfold wb_table. rewrite Hp. unfold wb_table_array, wb_table_hash. fold n. rewrite s32_small by lia.
    assert (Hem : emits (fun b => wb ← (wb ← (if MAX_COOKIE - 1 <=? n then
            wb ← wb_push junk b (type_byte TYPE_TABLE (MAX_COOKIE - 1)); wb_integer junk wb n
          else wb_push junk b (type_byte TYPE_TABLE n)); array_loop pack (Z.to_nat n) 1 tb wb);
        wb ← hash_loop pack (lt_entries tb) n wb; wb_nil junk wb) (((type_byte TYPE_TABLE c ++ s0) ++ s1) ++ s2 ++ [TYPE_NIL])).
    { apply emits_bind; [apply emits_bind; [exact He0|exact He1]|]. apply emits_bind; [exact He2|by apply emits_push]. }
    intros b Hb. destruct (Hem b Hb) as (b' & Heq & Hb'). exists b'. split; [|done]. rewrite <- Heq.
    rewrite !bind_assoc. destruct (if _ <=? n then _ else _); try done. cbn [mbind outcome_bind]. rewrite !bind_assoc.
    by destruct (array_loop _ _ _ _ _).
  - unfold type_byte. cbn [app]. done.
  - cbn [copy]. exists tb. split; [done|]. intros k Hk. specialize (Hh2 k Hk). unfold joined in Hh2.
    by destruct (in_array k n).
  - intros f Hf. rewrite <- !app_assoc in *. rewrite !length_app in Hf. rewrite type_byte_eq in * by (unfold TYPE_TABLE; lia).
    cbn [length] in Hf. destruct f as [|f]; [lia|]. rewrite <- type_byte_eq by (unfold TYPE_TABLE; lia).
    apply decodes_one; [unfold TYPE_TABLE; lia|lia|].
    apply (decodes_bind (fun rb => table_size rb c) (fun n rb =>
      '(es, rb) ← unpack_array (one f) (Z.to_nat n) 1 [] rb;
      '(es, rb) ← unpack_hash real_integer real_nan (one f) (S (Z.to_nat (rb_len rb))) es rb; Ret (VTable es, rb))
      s0 (s1 ++ s2 ++ [TYPE_NIL]) n (VTable es2) Hd0).
    apply (decodes_bind (unpack_array (one f) (Z.to_nat n) 1 []) (fun es rb =>
      '(es, rb) ← unpack_hash real_integer real_nan (one f) (S (Z.to_nat (rb_len rb))) es rb; Ret (VTable es, rb))
      s1 (s2 ++ [TYPE_NIL]) es1); [apply Hd1; lia|].
    apply (decodes_map _ VTable). apply (decodes_fuel (fun fuel => unpack_hash real_integer real_nan (one f) fuel es1)).
    intros fuel Hfu. rewrite length_app in Hfu. cbn [length] in Hfu. apply Hd2; lia.
Qed.

(** Every value that can be packed is written so that unpacking copies it. *)
Lemma pack_spec d : forall v, packable d v -> exists s t, piece (pack_one junk h d) d v s t.
Proof.
  induction d as [|d IH]; intros v Hv; [done|].
  assert (Hword : forall t c (n : Z) v', 0 <= t < 8 -> 0 <= c < 32 -> word 64 n ->
    (forall fuel, decodes (fun rb => push_value real_integer real_nan (one fuel) rb t c) (le_bytes 8 n) v') ->
    exists s, emits (fun b => wb ← wb_push junk b (type_byte t c); wb_push junk wb (le_bytes 8 n)) s /\ s <> [] /\
    forall fuel, (1 <= fuel)%nat -> decodes (one fuel) s v') by (by apply emits_word).
  assert (Hone : forall s : bytes, s <> [] -> forall f, (length s <= f)%nat -> (1 <= f)%nat) by (intros [|? ?] ? f; cbn; [done|lia]).
  assert (Hmod : forall n, word 64 n -> n mod 2 ^ (8 * Z.of_nat 8) = n) by (intros; apply Z.mod_small; done).
  assert (Hsimple : forall s t, emits (fun b => pack_one junk h (S d) b v) s -> s <> [] ->
    (forall f, (1 <= f)%nat -> decodes (one f) s t) -> t = scalar v -> (v = LNil \/ key_ok v \/ exists r, v = LReal r) ->
    exists s t, piece (pack_one junk h (S d)) (S d) v s t).
  { intros s t He Hs Hd -> Hk. exists s, (scalar v). split; [done|done| | |done|by intros f Hf; apply Hd, (Hone s)].
    - destruct v; cbn in *; try done; by destruct Hk as [?|[?|[? ?]]].
    - by destruct v; cbn in *; try done; destruct Hk as [?|[?|[? ?]]]. }
  destruct v as [|b|n|r|str|p|l|]; cbn [packable] in Hv; try done.
  - apply (Hsimple [TYPE_NIL] VNil); [by apply emits_push|done| |done|by left].
    intros [|f] Hf; [lia|]. apply (decodes_one real_integer real_nan f 0 0 [] VNil); [lia|lia|apply decodes_ret].
  - apply (Hsimple (type_byte TYPE_BOOLEAN (if b then 1 else 0)) (VBoolean b)); [by apply emits_push|done| |done|by right; left].
    intros [|f] Hf; [lia|]. rewrite <- (app_nil_r (type_byte _ _)).
    apply decodes_one; [unfold TYPE_BOOLEAN; lia|by destruct b|]. destruct b; apply decodes_ret.
  - destruct (integer_spec junk Hjunk n Hv) as (c & s & He & Hc & Hd).
    apply (Hsimple (type_byte TYPE_NUMBER c ++ s) (VInteger n)); [exact He|done| |done|by right; left].
    intros [|f] Hf; [lia|]. apply decodes_one; [unfold TYPE_NUMBER; lia|lia|].
    apply (decodes_ext (fun rb => '(n, rb) ← get_integer rb c; Ret (VInteger n, rb))).
    { intros rb. unfold push_value. change (TYPE_NUMBER =? TYPE_NIL) with false. change (TYPE_NUMBER =? TYPE_BOOLEAN) with false.
      rewrite Z.eqb_refl, (proj2 (Z.eqb_neq c TYPE_NUMBER_REAL)) by (unfold TYPE_NUMBER_REAL; lia). done. }
    by apply (decodes_map (fun rb => get_integer rb c) VInteger).
  - destruct (Hword TYPE_NUMBER TYPE_NUMBER_REAL r (VReal r)) as (s & He & Hs & Hd); [done|done|done| |].
    { intros fuel. apply (decodes_map get_real VReal). rewrite <- (Hmod r Hv) at 2. apply (decodes_bytes 8). }
    apply (Hsimple s (VReal r)); [done|done|done|done|right; right; by exists r].
  - destruct (emits_string junk Hjunk real_integer real_nan str Hv) as (s & He & Hs & Hd).
    apply (Hsimple s (VString str)); [done|done|done|done|by right; left].
  - destruct (Hword TYPE_USERDATA 0 p (VPointer p)) as (s & He & Hs & Hd); [done|done|done| |].
    { intros fuel. apply (decodes_map get_pointer VPointer). rewrite <- (Hmod p Hv) at 2. apply (decodes_bytes 8). }
    apply (Hsimple s (VPointer p)); [exact He|done|done|done|by right; left].
  - destruct Hv as (tb & Hl & Hp & Hlen & Hborder & Hnd & Hall).
    destruct (table_piece (pack_one junk h d) d l tb Hl Hp Hlen Hborder Hnd) as (s & t & He & Hs & Hcp & Ht & Hd).
    { intros k v Hkv. destruct (Hall k v Hkv) as (Hk & Hpk & Hv & Hpv). split; [done|]. split; [done|]. split; by apply IH. }
    { destruct d as [|d]; [right|left; by apply IH]. destruct (lt_entries tb) as [|[k v] es]; [done|].
      by destruct (Hall k v ltac:(by left)) as (_ & [] & _). }
    exists s, t. split; [|done|done|by split|done|done].
    intros b Hb. destruct (He b Hb) as (b' & Heq & Hb'). exists b'. split; [|done]. cbn [pack_one]. rewrite Hl. exact Heq.
Qed.

Lemma pack_all_spec vs : Forall (packable (S MAX_DEPTH)) vs ->
  exists s ts, emits (fun b => pack_from junk h b vs) s /\ Forall2 (copy (S MAX_DEPTH)) vs ts /\
    forall fuel rb, (length s < fuel)%nat -> rb_ok rb -> view rb = s -> unpack_all real_integer real_nan fuel rb = Ret ts.
Proof.
  induction 1 as [|v vs Hv Hvs IH].
  - exists [], []. split; [apply emits_ret|]. split; [constructor|]. intros [|fuel] rb Hf Hrb Hv; [cbn in Hf; lia|].
    pose proof (length_view rb Hrb) as Hl. rewrite Hv in Hl. cbn [unpack_all]. unfold rb_read.
    by rewrite (proj2 (Z.ltb_lt _ _)) by (cbn in Hl; lia).
  - destruct (pack_spec (S MAX_DEPTH) v Hv) as (s1 & t1 & P). destruct IH as (s2 & ts & He & Hc & Hd).
    pose proof (pc_some _ _ _ _ _ _ _ _ P) as Hne. assert (1 <= length s1)%nat by (destruct s1; [done|cbn; lia]).
    exists (s1 ++ s2), (t1 :: ts). split; [|split].
    + cbn [pack_from]. apply emits_bind; [apply (pc_emits _ _ _ _ _ _ _ _ P)|done].
    + constructor; [apply (pc_copy _ _ _ _ _ _ _ _ P)|done].
    + intros fuel rb Hf Hrb Hvw. rewrite length_app in Hf. destruct fuel as [|fuel]; [lia|].
      pose proof (length_view rb Hrb) as Hl. rewrite Hvw, length_app in Hl. rewrite unpack_all_S by lia.
      destruct (pc_decodes _ _ _ _ _ _ _ _ P (S (Z.to_nat (rb_len rb))) ltac:(lia) rb s2 Hrb Hvw) as (rb' & -> & Hrb' & Hv').
      rewrite bind_Ret, (Hd fuel rb'), bind_Ret by (done || lia). done.
Qed.

(** C6: what luaseri_pack writes, luaseri_unpack reads back: scalars are equal
    and tables are copied with all their entries, whatever their length, the
    order of their keys, and the way the bytes fall into blocks. *)
Theorem seri_roundtrip vs : Forall (packable (S MAX_DEPTH)) vs ->
  exists s ts, luaseri_pack junk h vs = Ret (s, Z.of_nat (length s)) /\
    luaseri_unpack real_integer real_nan (Some s) (Z.of_nat (length s)) = Ret ts /\
    Forall2 (copy (S MAX_DEPTH)) vs ts.
Proof.
  intros Hvs. destruct (pack_all_spec vs Hvs) as (s & ts & He & Hc & Hd). exists s, ts.
  destruct (wb_init_ok junk Hjunk) as [Hi Hi0]. destruct (He _ Hi) as (b & Heq & Hb & Hcon). rewrite Hi0 in Hcon. cbn [app] in Hcon.
  split; [unfold luaseri_pack; by rewrite Heq, bind_Ret, seri_spec, Hcon|]. split; [|done].
  assert (Hrb : rb_ok (ReadBlock s (Z.of_nat (length s)) 0)) by (split; cbn; lia).
  assert (Hv : view (ReadBlock s (Z.of_nat (length s)) 0) = s).
  { unfold view. cbn [rb_len rb_ptr rb_buffer]. change (Z.to_nat 0) with O. by rewrite drop_0, Nat2Z.id, firstn_all. }
  specialize (Hd (S (Z.to_nat (Z.of_nat (length s)))) _ ltac:(lia) Hrb Hv).
  unfold luaseri_unpack. destruct (Z.eqb_spec (Z.of_nat (length s)) 0) as [Hz|]; [|done]. rewrite <- Hd.
  cbn [unpack_all]. unfold rb_read. cbn [rb_len]. by rewrite Hz.
Qed.

(** A table that contains itself is refused, after at most 33 levels. *)
Theorem pack_cycle l key : h !! l = Some (LuaTable 0 [(LString key, LTable l)] None) -> Z.of_nat (length key) < 2 ^ 31 ->
  luaseri_pack junk h [LTable l] = LuaError "serialize can't pack too depth table".
Proof.
  intros Hl Hk. assert (Hone : forall room b, blocks_ok b -> pack_one junk h room b (LTable l) = LuaError "serialize can't pack too depth table").
  { induction room as [|room IH]; intros b Hb; [done|]. cbn [pack_one]. rewrite Hl. cbn [deref]. rewrite bind_Ret.
    unfold wb_table, wb_table_array. cbn [lt_pairs lt_rawlen]. change (s32 0) with 0. change (MAX_COOKIE - 1 <=? 0) with false. cbv iota.
    destruct (emits_push junk Hjunk (type_byte TYPE_TABLE 0) b Hb) as (b1 & -> & Hb1 & _). rewrite bind_Ret.
    change (Z.to_nat 0) with O. cbn [array_loop]. rewrite !bind_Ret. unfold wb_table_hash. cbn [lt_entries hash_loop in_array].
    destruct room as [|room]; [done|]. change (pack_one junk h (S room) b1 (LString key)) with (wb_string junk b1 key (s32 (Z.of_nat (length key)))).
    destruct (emits_string junk Hjunk real_integer real_nan key Hk) as (s & He & _). destruct (He b1 Hb1) as (b2 & He1 & Hb2 & _).
    cbv beta in He1. rewrite He1, bind_Ret, (IH b2 Hb2). done. }
  unfold luaseri_pack. cbn [pack_from]. by rewrite (Hone _ _ (proj1 (wb_init_ok junk Hjunk))).
Qed.
End roundtrip.

(** ** Concrete inputs *)

(** A table with an array part, a name and a table, which holds a long string. *)
Definition demo_store : store :=
  <[1%positive := LuaTable 2 [(LInteger 1, LBoolean true); (LInteger 2, LInteger (-5)); (LString [65], LTable 2)] None]>
  {[2%positive := LuaTable 0 [(LInteger 70000, LString (replicate 200 66))] None]}.

Abbreviation demo_ok d v := (packable (fun _ => None) (fun _ => false) demo_store d v).

Lemma demo_inner d : demo_ok (S (S d)) (LTable 2).
Proof.
  eexists. split; [reflexivity|]. cbn [lt_pairs lt_rawlen lt_entries]. split; [done|]. split; [lia|]. split; [by left|].
  split; [apply NoDup_singleton|]. intros k v [= -> ->]%list_elem_of_singleton. cbn [key_ok packable].
  split; [done|]. split; [lia|]. split; [done|]. by vm_compute.
Qed.

Lemma demo_outer d : demo_ok (S (S (S d))) (LTable 1).
Proof.
  eexists. split; [reflexivity|]. cbn [lt_pairs lt_rawlen lt_entries]. split; [done|]. split; [lia|]. split; [right; by eexists|].
  split; [apply (bool_decide_unpack _); by vm_compute|]. intros k v Hin. rewrite !elem_of_cons, elem_of_nil in Hin.
  destruct Hin as [[= -> ->]|[[= -> ->]|[[= -> ->]|[]]]]; (split; [done|]); (split; [cbn [packable]; lia || done|]); (split; [done|]);
    [done|cbn [packable]; lia|apply demo_inner].
Qed.

Lemma demo_packable : Forall (fun v => demo_ok (S MAX_DEPTH) v) [LTable 1; LInteger (2 ^ 40); LNil].
Proof. repeat apply Forall_cons_2; [apply (demo_outer 30)|cbn [packable]; lia|done|constructor]. Qed.

Lemma seri_roundtrip_witness : exists s ts,
  luaseri_pack (replicate 128 7) demo_store [LTable 1; LInteger (2 ^ 40); LNil] = Ret (s, Z.of_nat (length s)) /\
  luaseri_unpack (fun _ => None) (fun _ => false) (Some s) (Z.of_nat (length s)) = Ret ts /\
  Forall2 (copy (fun _ => None) (fun _ => false) demo_store (S MAX_DEPTH)) [LTable 1; LInteger (2 ^ 40); LNil] ts.
Proof. apply (seri_roundtrip (replicate 128 7) eq_refl (fun _ => None) (fun _ => false) demo_store _ demo_packable). Defined.

Lemma pack_cycle_witness :
  luaseri_pack (replicate 128 7) {[1%positive := LuaTable 0 [(LString [97], LTable 1)] None]} [LTable 1] =
    LuaError "serialize can't pack too depth table".
Proof.
  apply (pack_cycle (replicate 128 7) eq_refl (fun _ => None) (fun _ => false) _ 1 [97]); [reflexivity|cbn; lia].
Defined.
