(* ===== verification/SeriSafe.v ===== *)
(** Unpacking of arbitrary bytes ends and stays inside the buffer, unless a long string has a
    length that is negative as an [int] and so near to [- 2 ^ 31] that the subtraction from the
    bytes left overflows; what a negative length does. *)
From S2P Require Import Prelude Seri SeriPack.

#[local] Arguments Z.mul : simpl never.

Lemma le_value_range s : is_bytes s -> 0 <= le_value s < 2 ^ (8 * Z.of_nat (length s)).
Proof.
  induction 1 as [|x s [Hx0 Hx1] Hs IH]; cbn [le_value length]; [done|].
  replace (8 * Z.of_nat (S (length s))) with (8 + 8 * Z.of_nat (length s)) by lia. rewrite Z.pow_add_r by lia. lia.
Qed.

Lemma s32_cases n : 0 <= n < 2 ^ 32 -> s32 n = if n <? 2 ^ 31 then n else n - 2 ^ 32.
Proof.
  intros Hn. destruct (Z.ltb_spec n (2 ^ 31)); [apply s32_small; lia|]. unfold s32.
  replace (n + 2 ^ 31) with (n - 2 ^ 31 + 1 * 2 ^ 32) by lia. rewrite Z.mod_add, Z.mod_small; lia.
Qed.

(** The bytes that a type byte packs. *)
Lemma type_byte_37 x : 0 <= x -> Z.land x 7 = 5 -> Z.shiftr x 3 = 4 -> x = 37.
Proof.
  change 7 with (2 ^ 3 - 1). rewrite land_ones_pow2, Z.shiftr_div_pow2 by lia. change (2 ^ 3) with 8.
  Z.div_mod_to_equations; lia.
Qed.

(** ** The tokens of a stream *)

(** The bytes of a number after its type byte. *)
Definition number_size (cookie : Z) : Z :=
  if cookie =? TYPE_NUMBER_BYTE then 1
  else if cookie =? TYPE_NUMBER_WORD then 2
  else if cookie =? TYPE_NUMBER_DWORD then 4
  else if (cookie =? TYPE_NUMBER_QWORD) || (cookie =? TYPE_NUMBER_REAL) then 8
  else 0.

(** The bytes of what [s] begins with: a scalar with its type byte, or the type byte of a table,
    whose size, elements and keys are tokens of their own. *)
Definition token_size (s : bytes) : Z :=
  match s with
  | [] => 0
  | t :: s =>
      let type := Z.land t 7 in
      let cookie := Z.shiftr t 3 in
      1 + (if type =? TYPE_NUMBER then number_size cookie
           else if type =? TYPE_USERDATA then 8
           else if type =? TYPE_SHORT_STRING then cookie
           else if type =? TYPE_LONG_STRING then
             if cookie =? 2 then 2 + le_value (take 2 s) else 4 + le_value (take 4 s)
           else 0)
  end.

(** The offsets in [b] where a token begins. *)
Inductive token (b : bytes) : Z -> Prop :=
  | token_first : token b 0
  | token_next p : token b p -> token b (p + token_size (drop (Z.to_nat p) b)).

Lemma token_in b (l : list Z) : 0 ∈ l ->
  Forall (fun p => p + token_size (drop (Z.to_nat p) b) ∈ l) l -> forall p, token b p -> p ∈ l.
Proof. intros H0 Hl p. induction 1 as [|p _ IH]; [done|]. exact (proj1 (Forall_forall _ _) Hl p IH). Qed.

(** No long string has a 4-byte length of [2 ^ 31] or more that is negative as an [int] and whose
    subtraction from the bytes left overflows: a length that is more than the bytes left above
    [2 ^ 31] is harmless, and so is any byte inside a string or a number. *)
Definition lengths_ok (b : bytes) : Prop := forall p s, token b p -> drop (Z.to_nat p) b = 37 :: s ->
  le_value (take 4 s) < 2 ^ 31 \/ 2 ^ 31 + (Z.of_nat (length s) - 4) < le_value (take 4 s).

Section safe.
Context (real_integer : Z -> option Z) (real_nan : Z -> bool) (b : bytes).

Context (Hbytes : is_bytes b) (Hlen : lengths_ok b).

(** A block that reads [b], with at most [n] bytes left. *)
Definition left_in (n : Z) (rb : read_block) : Prop := rb_buffer rb = b /\ rb_ok rb /\ rb_len rb <= n.

(** Ends at the offset [q], or where a token begins. *)
Abbreviation reads_to o n q := (ends o (fun r => left_in n (snd r) /\ rb_ptr (snd r) = q)).
Abbreviation reads o n := (ends o (fun r => left_in n (snd r) /\ token b (rb_ptr (snd r)))).

Lemma left_in_le m n rb : m <= n -> left_in m rb -> left_in n rb.
Proof. unfold left_in. intros ? (? & ? & ?). split; [done|]. split; [done|lia]. Qed.

Lemma rb_get_ends n sz rb : 0 <= sz -> left_in n rb ->
  ends (rb_get rb sz) (fun r => fst r = take (Z.to_nat sz) (drop (Z.to_nat (rb_ptr rb)) b) /\
    Z.of_nat (length (fst r)) = sz /\ rb_ptr (snd r) = rb_ptr rb + sz /\ left_in (n - sz) (snd r)).
Proof.
  intros Hsz (Hb & [H1 H2 H3] & Hn). unfold rb_get, rb_read. destruct (Z.ltb_spec (rb_len rb) sz); [done|].
  unfold peek. cbn [rb_buffer]. rewrite (proj2 (Z.ltb_ge (rb_ptr rb) 0)), (proj2 (Z.ltb_ge sz 0)), (proj2 (Z.ltb_ge _ (_ + _))) by lia.
  cbn [orb ends mbind outcome_bind fst snd rb_ptr]. rewrite <- Hb, length_take, length_drop. split; [done|]. split; [lia|]. split; [done|].
  split; [done|]. split; [split; cbn; lia|cbn; lia].
Qed.

(** A read whose bytes are used at once. *)
Lemma rb_get_reads {A} n m q sz rb (f : bytes -> read_block -> outcome (A * read_block)) :
  0 <= sz -> left_in n rb ->
  (forall s rb', s = take (Z.to_nat sz) (drop (Z.to_nat (rb_ptr rb)) b) -> is_bytes s -> Z.of_nat (length s) = sz ->
     rb_ptr rb' = rb_ptr rb + sz -> left_in (n - sz) rb' -> reads_to (f s rb') m q) ->
  reads_to ('(s, rb) ← rb_get rb sz; f s rb) m q.
Proof.
  intros Hsz Hrb Hf. eapply ends_bind; [by apply (rb_get_ends n)|]. intros [s rb'] (Hs & Hl & Hp & Hrb').
  apply Hf; [done| |done..]. cbn in Hs. subst s. apply Forall_take, Forall_drop, Hbytes.
Qed.

(** The last read of a scalar. *)
Lemma rb_get_last {A} n m q sz rb (f : bytes -> A) : 0 <= sz -> left_in n rb -> n - sz <= m -> q = rb_ptr rb + sz ->
  reads_to ('(s, rb) ← rb_get rb sz; Ret (f s, rb)) m q.
Proof.
  intros Hsz Hrb Hm ->. apply (rb_get_reads n); [done|done|]. intros s rb' _ _ _ Hp Hrb'. cbn. split; [|done].
  by eapply left_in_le.
Qed.

Lemma get_integer_reads n rb cookie : left_in n rb -> cookie <> TYPE_NUMBER_REAL ->
  reads_to (get_integer rb cookie) n (rb_ptr rb + number_size cookie).
Proof.
  intros Hrb Hreal. unfold get_integer, number_size. rewrite (proj2 (Z.eqb_neq cookie TYPE_NUMBER_REAL)), orb_false_r by done.
  destruct (Z.eqb_spec cookie TYPE_NUMBER_ZERO) as [->|]; [cbn; split; [done|lia]|].
  do 4 (destruct (_ =? _); [apply (rb_get_last n); [done|done|lia|done]|]). done.
Qed.

Lemma rawset_ends es k v : ends (rawset real_integer real_nan es k v) (fun _ => True).
Proof. destruct k; try done. cbn. by destruct (real_nan bits). Qed.

(** The first byte of a token. *)
Lemma token_byte p t s : 0 <= p -> drop (Z.to_nat p) b = t :: s ->
  drop (Z.to_nat (p + 1)) b = s /\ 0 <= t < 256 /\ is_bytes s.
Proof.
  intros Hp Hd. rewrite Z2Nat.inj_add, <- drop_drop, Hd by lia. split; [done|].
  assert (is_bytes (t :: s)) as Hts by (rewrite <- Hd; apply Forall_drop, Hbytes).
  unfold is_bytes in Hts. rewrite Forall_cons in Hts. destruct Hts as [Ht Hts]. split; [exact Ht|done].
Qed.

Section table.
Context (unpack : read_block -> outcome (value * read_block)) (N : Z).
Hypothesis Hunpack : forall n rb, n <= N -> left_in n rb -> token b (rb_ptr rb) -> reads (unpack rb) (n - 1).

Lemma unpack_array_reads k : forall i es n rb, n <= N -> left_in n rb -> token b (rb_ptr rb) ->
  reads (unpack_array unpack k i es rb) n.
Proof.
  induction k as [|k IH]; intros i es n rb Hn Hrb Ht; [by split|]. cbn [unpack_array].
  eapply ends_bind; [by apply (Hunpack n)|]. intros [v rb'] [Hrb' Ht']. apply IH; [done| |done].
  eapply left_in_le; [|exact Hrb']. lia.
Qed.

Lemma unpack_hash_reads fuel : forall es n rb, n <= N -> n < Z.of_nat fuel -> left_in n rb -> token b (rb_ptr rb) ->
  reads (unpack_hash real_integer real_nan unpack fuel es rb) n.
Proof.
  induction fuel as [|fuel IH]; intros es n rb Hn Hf Hrb Ht.
  { destruct Hrb as (_ & [_ ? _] & ?). lia. }
  cbn [unpack_hash]. eapply ends_bind; [by apply (Hunpack n)|]. intros [k rb1] [Hrb1 Ht1]. cbn [snd] in Hrb1, Ht1.
  assert (Hnext : reads ('(v, rb) ← unpack rb1; es ← rawset real_integer real_nan es k v;
      unpack_hash real_integer real_nan unpack fuel es rb) n).
  { eapply ends_bind; [apply (Hunpack (n - 1)); [lia|done|done]|]. intros [v rb2] [Hrb2 Ht2]. cbn [snd] in Hrb2, Ht2.
    eapply ends_bind; [apply rawset_ends|]. intros es' _. eapply ends_mono; [apply (IH es' (n - 1 - 1)); [lia|lia|done|done]|].
    intros r [Hr Htr]. split; [|done]. eapply left_in_le; [|exact Hr]. lia. }
  destruct k; try exact Hnext. cbn. split; [|done]. eapply left_in_le; [|exact Hrb1]. lia.
Qed.

(** After the type byte of a table: the size, if it is not in the type byte, is a number. *)
Lemma table_size_reads n rb c : left_in n rb -> token b (rb_ptr rb) -> reads (table_size rb c) n.
Proof.
  intros Hrb Ht. unfold table_size. destruct (_ =? _); [|done].
  assert (0 <= rb_ptr rb) as Hp by (by destruct Hrb as (_ & [? _ _] & _)).
  eapply ends_bind; [by apply (rb_get_ends n 1)|]. intros [s rb'] (Hs & Hl & Hp' & Hrb'). cbn [fst snd] in *. cbv zeta.
  destruct (negb _ || _) eqn:Hc; [done|]. apply orb_false_elim in Hc as [Ht' Hc].
  apply negb_false_iff in Ht'. apply Z.eqb_neq in Hc.
  eapply ends_bind; [by apply (get_integer_reads (n - 1))|]. intros [x rb2] [Hrb2 Hp2]. cbn in *.
  split; [eapply left_in_le; [|exact Hrb2]; lia|]. rewrite Hp2, Hp'.
  apply token_next in Ht. destruct s as [|t [|]]; try (cbn in Hl; lia). cbn [le_value] in *. rewrite Z.mul_0_r, Z.add_0_r in *.
  destruct (drop (Z.to_nat (rb_ptr rb)) b) as [|t' s]; [done|]. injection Hs as <-.
  cbn [token_size] in Ht. rewrite Ht' in Ht. by rewrite <- Z.add_assoc.
Qed.

Lemma unpack_table_reads n rb c : n <= N -> left_in n rb -> token b (rb_ptr rb) ->
  reads (unpack_table real_integer real_nan unpack rb c) n.
Proof.
  intros Hn Hrb Ht. unfold unpack_table. eapply ends_bind; [by apply (table_size_reads n)|]. intros [k rb1] [Hrb1 Ht1].
  eapply ends_bind; [by apply (unpack_array_reads _ _ _ n)|]. intros [es rb2] [(Hb & Hok & Hl) Ht2]. cbn [snd] in *.
  eapply ends_bind; [apply (unpack_hash_reads _ _ (rb_len rb2))|].
  - lia.
  - destruct Hok. lia.
  - done.
  - done.
  - intros [es' rb3] [Hrb3 Ht3]. cbn in *. split; [|done]. by eapply left_in_le.
Qed.

(** The length of a long string was read; a negative one is an error of Lua. *)
Lemma get_buffer_reads n q rb len : left_in n rb ->
  (len < 0 -> rb_len rb - len <= INT_MAX) -> (0 <= len -> q = rb_ptr rb + len) ->
  reads_to ('(s, rb) ← get_buffer rb len; Ret (VString s, rb)) n q.
Proof.
  intros Hrb Hneg Hq. unfold get_buffer. destruct (Z.ltb_spec len 0) as [Hl|Hl].
  - unfold int_ok. destruct Hrb as (_ & [_ ? _] & _). rewrite (proj2 (Z.leb_le INT_MIN _)), (proj2 (Z.leb_le _ INT_MAX)); [done|by auto|].
    unfold INT_MIN. lia.
  - apply (rb_get_last n); [done|done|lia|by apply Hq].
Qed.

(** After the type byte of a token. *)
Lemma push_value_reads n rb p t s : n <= N -> left_in n rb -> 0 <= p -> token b p -> drop (Z.to_nat p) b = t :: s ->
  rb_ptr rb = p + 1 -> reads (push_value real_integer real_nan unpack rb (Z.land t 7) (Z.shiftr t 3)) n.
Proof.
  intros Hn Hrb Hp Htok Hd Hptr. destruct (token_byte p t s Hp Hd) as (Hd1 & Ht & Hs).
  pose proof (token_next _ _ Htok) as Hnext. rewrite Hd in Hnext.
  assert (Hto : forall (o : outcome (value * read_block)) m, m <= n -> reads_to o m (p + token_size (t :: s)) -> reads o n).
  { intros o m Hm Ho. eapply ends_mono; [exact Ho|]. intros r [Hr ->]. split; [by eapply left_in_le|done]. }
  assert (Hc : 0 <= Z.shiftr t 3) by (apply Z.shiftr_nonneg; lia).
  pose proof (Hlen p s Htok) as Hl. pose proof (type_byte_37 t (proj1 Ht)) as H37.
  unfold push_value. cbn [token_size] in Hto, Hnext. revert Hto Hnext H37 Hc.
  generalize (Z.land t 7) (Z.shiftr t 3). intros type cookie Hto Hnext H37 Hc.
  destruct (Z.eqb_spec type TYPE_NIL) as [->|]; [apply (Hto _ n); [done|cbn; split; [done|lia]]|].
  destruct (Z.eqb_spec type TYPE_BOOLEAN) as [->|]; [apply (Hto _ n); [done|cbn; split; [done|lia]]|].
  destruct (type =? TYPE_NUMBER).
  { apply (Hto _ n); [done|]. destruct (Z.eqb_spec cookie TYPE_NUMBER_REAL) as [->|Hr].
    - eapply ends_bind; [apply (rb_get_last n n (rb_ptr rb + 8) 8 rb le_value); [done|done|lia|done]|]. intros [x rb'] [Hrb' Hp']. cbn in *. split; [done|lia].
    - eapply ends_bind; [by apply (get_integer_reads n)|]. intros [x rb'] [Hrb' Hp']. cbn in *. split; [done|lia]. }
  destruct (type =? TYPE_USERDATA).
  { apply (Hto _ n); [done|]. eapply ends_bind; [apply (rb_get_last n n (rb_ptr rb + 8) 8 rb le_value); [done|done|lia|done]|]. intros [x rb'] [Hrb' Hp']. cbn in *. split; [done|lia]. }
  destruct (type =? TYPE_SHORT_STRING); [apply (Hto _ n); [done|]; apply get_buffer_reads; [done|lia|lia]|].
  destruct (Z.eqb_spec type TYPE_LONG_STRING) as [->|_]; [|destruct (_ =? TYPE_TABLE) eqn:E; [|done]].
  - destruct (cookie =? 2).
    + apply (Hto _ (n - 2)); [lia|]. apply (rb_get_reads n); [done|done|]. intros x rb' Hx Hxb _ Hp' Hrb'.
      rewrite Hptr, Hd1 in Hx. subst x. change (Z.to_nat 2) with 2%nat in *. apply get_buffer_reads; [done| |lia].
      pose proof (le_value_range _ Hxb). lia.
    + destruct (Z.eqb_spec cookie 4) as [->|]; cbn [negb]; [|done].
      apply (Hto _ (n - 4)); [lia|]. apply (rb_get_reads n); [done|done|]. intros x rb' Hx Hxb Hxl Hp' Hrb'.
      rewrite Hptr, Hd1 in Hx. change (Z.to_nat 4) with 4%nat in *. rewrite <- Hx in *.
      assert (Hr : 0 <= le_value x < 2 ^ 32).
      { pose proof (le_value_range x Hxb) as Hr. by replace (8 * Z.of_nat (length x)) with 32 in Hr by lia. }
      specialize (Hl ltac:(rewrite Hd, H37 by done; done)).
      assert (Hs32 : s32 (le_value x) = if le_value x <? 2 ^ 31 then le_value x else le_value x - 2 ^ 32) by by apply s32_cases.
      assert (rb_len rb' <= Z.of_nat (length s) - 4).
      { destruct Hrb' as (Hb & [_ _ Ho] & _). rewrite Hb in Ho. apply (f_equal length) in Hd1. rewrite length_drop in Hd1. lia. }
      rewrite Hs32. apply get_buffer_reads; [done|unfold INT_MAX; destruct (Z.ltb_spec (le_value x) (2 ^ 31)); lia..].
  - apply Z.eqb_eq in E as ->. apply unpack_table_reads; [done|done|]. by rewrite Hptr.
Qed.
End table.

(** A value reads a byte at least: as much fuel as bytes left is enough. *)
Lemma unpack_one_reads fuel : forall n rb, n < Z.of_nat fuel -> left_in n rb -> token b (rb_ptr rb) ->
  reads (unpack_one real_integer real_nan fuel rb) (n - 1).
Proof.
  induction fuel as [|fuel IH]; intros n rb Hf Hrb Htok.
  { destruct Hrb as (_ & [_ ? _] & ?). lia. }
  cbn [unpack_one]. eapply ends_bind; [apply (rb_get_ends n 1 rb); [lia|done]|].
  intros [x rb'] (Hs & Hl & Hp & Hrb'). cbn [fst snd] in *.
  assert (0 <= rb_ptr rb) by (by destruct Hrb as (_ & [? _ _] & _)).
  destruct (drop (Z.to_nat (rb_ptr rb)) b) as [|t s] eqn:Hd; [by subst x|]. change (take (Z.to_nat 1) (t :: s)) with [t] in Hs. subst x.
  cbn [le_value]. rewrite Z.mul_0_r, Z.add_0_r.
  apply (push_value_reads _ (Z.of_nat fuel - 1)) with (rb_ptr rb) s; [|lia|done..].
  intros m rb2 Hm Hrb2 Ht2. apply IH; [lia|done|done].
Qed.

Lemma unpack_all_ends fuel : forall n rb, n < Z.of_nat fuel -> left_in n rb -> token b (rb_ptr rb) ->
  ends (unpack_all real_integer real_nan fuel rb) (fun _ => True).
Proof.
  induction fuel as [|fuel IH]; intros n rb Hf Hrb Htok.
  { destruct Hrb as (_ & [_ ? _] & ?). lia. }
  destruct (Z.leb_spec 1 (rb_len rb)) as [Hl|Hl].
  - rewrite unpack_all_S by done.
    eapply ends_bind; [apply (unpack_one_reads _ (rb_len rb)); [lia|by destruct Hrb as (? & ? & ?)|done]|].
    intros [v rb'] [Hrb' Ht']. eapply ends_bind; [apply (IH (rb_len rb - 1)); [|done|done]|done].
    destruct Hrb as (_ & _ & ?). lia.
  - cbn [unpack_all]. unfold rb_read. by rewrite (proj2 (Z.ltb_lt _ _)) by lia.
Qed.
End safe.

(** C28: on any bytes whatever, packed or not, luaseri_unpack ends, with values or with an error
    of Lua, and reads nothing outside of the buffer. What it needs is [lengths_ok]: at none of
    the offsets where a token of the stream begins is there a long string with a 4-byte length
    between [2 ^ 31] and [2 ^ 31] plus the count of the bytes behind it. Such a length overflows
    an [int] ([unpack_negative_length]); all others, negative ones included, are covered. *)
Theorem unpack_ends real_integer real_nan b : is_bytes b -> lengths_ok b ->
  luaseri_unpack real_integer real_nan (Some b) (Z.of_nat (length b)) <> Undefined.
Proof.
  intros Hb Hl. unfold luaseri_unpack. destruct (_ =? 0); [done|].
  pose proof (unpack_all_ends real_integer real_nan b Hb Hl (S (Z.to_nat (Z.of_nat (length b)))) (Z.of_nat (length b))
    (ReadBlock b (Z.of_nat (length b)) 0)) as He.
  destruct (unpack_all _ _ _ _); [done..|]. exfalso. apply He; [lia| |apply token_first]. split; [done|]. split; [|done]. split; cbn; lia.
Qed.

(** A short string whose bytes look like a long string of negative length, and a long string. *)
Definition two_strings : bytes := [44; 37; 0; 0; 0; 128; 37; 2; 0; 0; 0; 120].

Lemma two_strings_ok : lengths_ok two_strings.
Proof.
  intros p s Hp. apply (token_in two_strings [0; 6; 13]) in Hp.
  - rewrite !elem_of_cons in Hp. destruct Hp as [->|[->|[->|Hp]]].
    + intros [= ].
    + intros [= <-]. left. by vm_compute.
    + intros [= ].
    + by apply elem_of_nil in Hp.
  - by apply list_elem_of_here.
  - repeat (constructor; [vm_compute; set_solver|]). constructor.
Qed.

Lemma unpack_ends_witness :
  (is_bytes two_strings /\ lengths_ok two_strings) /\
  luaseri_unpack (fun _ => None) (fun _ => false) (Some two_strings) 12 <> Undefined.
Proof.
  assert (is_bytes two_strings) as Hb by (repeat (constructor; [split; lia|]); constructor).
  split; [split; [exact Hb|exact two_strings_ok]|].
  exact (unpack_ends (fun _ => None) (fun _ => false) two_strings Hb two_strings_ok).
Defined.

Lemma rb_get_Ret b len p sz : 0 <= p -> 0 <= sz <= len -> p + len <= Z.of_nat (length b) ->
  rb_get (ReadBlock b len p) sz = Ret (take (Z.to_nat sz) (drop (Z.to_nat p) b), ReadBlock b (len - sz) (p + sz)).
Proof.
  intros. unfold rb_get, rb_read. cbn [rb_len rb_ptr rb_buffer]. rewrite (proj2 (Z.ltb_ge len sz)) by lia.
  unfold peek. cbn [rb_buffer]. rewrite (proj2 (Z.ltb_ge p 0)), (proj2 (Z.ltb_ge sz 0)), (proj2 (Z.ltb_ge _ (_ + _))) by lia. done.
Qed.

(** A long string of 4 length bytes whose length is [2 ^ 31] or more passes
    the check of rb_read, being negative as an int: the Lua library refuses the
    length as too big, unless the subtraction from the bytes left overflows. *)
Theorem unpack_negative_length real_integer real_nan n rest : 2 ^ 31 <= n < 2 ^ 32 ->
  luaseri_unpack real_integer real_nan (Some (37 :: le_bytes 4 n ++ rest)) (Z.of_nat (5 + length rest)) =
    if Z.of_nat (length rest) + 2 ^ 32 - n <=? INT_MAX then LuaError "memory allocation error: block too big"
    else Undefined.
Proof.
  intros Hn. unfold luaseri_unpack. rewrite (proj2 (Z.eqb_neq (Z.of_nat (5 + length rest)) 0)) by lia.
  rewrite unpack_all_S by (cbn [rb_len]; lia).
  set (b := 37 :: le_bytes 4 n ++ rest).
  assert (Hl : length b = (5 + length rest)%nat) by (unfold b; cbn [length]; rewrite length_app, length_le_bytes; done).
  cbn [unpack_one rb_len]. rewrite rb_get_Ret, bind_Ret by lia. change (take (Z.to_nat 1) (drop (Z.to_nat 0) b)) with [37].
  cbn [le_value]. change (37 + 256 * 0) with 37. unfold push_value. change (Z.land 37 7) with TYPE_LONG_STRING.
  change (Z.shiftr 37 3) with 4. cbn [Z.eqb negb TYPE_LONG_STRING TYPE_NIL TYPE_BOOLEAN TYPE_NUMBER TYPE_USERDATA TYPE_SHORT_STRING Pos.eqb].
  rewrite rb_get_Ret, bind_Ret by lia. change (drop (Z.to_nat (0 + 1)) b) with (le_bytes 4 n ++ rest).
  rewrite take_app_length' by (by rewrite length_le_bytes). rewrite le_value_bytes, Z.mod_small by (cbn; lia).
  assert (Hs : s32 n = n - 2 ^ 32).
  { unfold s32. replace (n + 2 ^ 31) with (n - 2 ^ 31 + 1 * 2 ^ 32) by lia. rewrite Z.mod_add, Z.mod_small; lia. }
  unfold get_buffer. rewrite Hs, (proj2 (Z.ltb_lt _ 0)) by lia. cbn [rb_len]. unfold int_ok, INT_MIN.
  replace (Z.of_nat (5 + length rest) - 1 - 4 - (n - 2 ^ 32)) with (Z.of_nat (length rest) + 2 ^ 32 - n) by lia.
  rewrite (proj2 (Z.leb_le (-2147483648) _)) by lia. by destruct (_ <=? INT_MAX).
Qed.

Lemma unpack_negative_length_witness :
  luaseri_unpack (fun _ => None) (fun _ => false) (Some (37 :: le_bytes 4 (2 ^ 31) ++ [])) 5 = Undefined.
Proof. apply (unpack_negative_length (fun _ => None) (fun _ => false) (2 ^ 31) []). lia. Defined.
