(* ===== verification/Cluster.v ===== *)
(** Messages between nodes, [lualib-src/lua-cluster.c]: requests, responses and
    their parts. *)
From S2P Require Import Prelude.

Definition TEMP_LENGTH : Z := 0x8200.
Definition MULTI_PART : Z := 0x8000.
Definition INT32_MAX : Z := 2147483647.

(** Values of Lua that the functions take from or leave on its stack. *)
Inductive lua_arg := Nil | Bool (b : bool) | Int (n : Z) | Str (s : bytes).

(** ** Buffers *)

Definition fill_uint32 (buf : bytes) (off : Z) (n : Z) : outcome bytes :=
  memcpy buf off [Z.land n 0xff; Z.land (Z.shiftr n 8) 0xff; Z.land (Z.shiftr n 16) 0xff; Z.land (Z.shiftr n 24) 0xff] 4.

Definition fill_header (buf : bytes) (sz : Z) : outcome bytes :=
  _ ← assert_ (sz <? 0x10000);
  memcpy buf 0 [Z.land (Z.shiftr sz 8) 0xff; Z.land sz 0xff] 2.

(** [buf[i] = v] *)
Definition set_byte (buf : bytes) (i v : Z) : outcome bytes := memcpy buf i [u8 v] 1.

(** [buf[i]] *)
Definition get_byte (buf : bytes) (i : Z) : outcome Z := if i <? 0 then Undefined else deref (buf !! Z.to_nat i).

(** [lua_pushlstring(L, buf + off, sz)] *)
Definition pushlstring (buf : bytes) (off sz : Z) : outcome bytes :=
  if (off <? 0) || (sz <? 0) || (Z.of_nat (length buf) <? off + sz) then Undefined
  else Ret (take (Z.to_nat sz) (drop (Z.to_nat off) buf)).

(** The shift of the last byte may reach the sign bit of an [int]: it wraps. *)
Definition unpack_uint32 (buf : bytes) (off : Z) : outcome Z :=
  b0 ← get_byte buf off;
  b1 ← get_byte buf (off + 1);
  b2 ← get_byte buf (off + 2);
  b3 ← get_byte buf (off + 3);
  Ret (u32 (Z.lor (Z.lor (Z.lor b0 (Z.shiftl b1 8)) (Z.shiftl b2 16)) (Z.shiftl b3 24))).

(** ** Requests *)

Section pack.
(** The contents of [uint8_t buf[TEMP_LENGTH]] at the start of a function. *)
Context (temp : bytes).

(** [addr] is what [lua_tointeger] gives. *)
Definition packreq_number (addr session : Z) (msg : bytes) (sz : Z) (is_push : bool) : outcome (bytes * Z) :=
  let addr := u32 addr in
  let buf := temp in
  if sz <? MULTI_PART then
    buf ← fill_header buf (sz + 9);
    buf ← set_byte buf 2 0;
    buf ← fill_uint32 buf 3 addr;
    buf ← fill_uint32 buf 7 (if is_push then 0 else u32 session);
    buf ← memcpy buf 11 msg sz;
    s ← pushlstring buf 0 (sz + 11);
    Ret (s, 0)
  else
    let part := (sz - 1) / MULTI_PART + 1 in
    buf ← fill_header buf 13;
    buf ← set_byte buf 2 (if is_push then 0x41 else 1);
    buf ← fill_uint32 buf 3 addr;
    buf ← fill_uint32 buf 7 (u32 session);
    buf ← fill_uint32 buf 11 sz;
    s ← pushlstring buf 0 15;
    Ret (s, part).

(** [name] is what [lua_tolstring] gives. *)
Definition packreq_string (name : option bytes) (session : Z) (msg : bytes) (sz : Z) (is_push : bool) : outcome (bytes * Z) :=
  match name with
  | None => LuaError "name is too long %s"
  | Some name =>
      let namelen := Z.of_nat (length name) in
      if (namelen <? 1) || (255 <? namelen) then LuaError "name is too long %s"
      else
        let buf := temp in
        if sz <? MULTI_PART then
          buf ← fill_header buf (sz + 6 + namelen);
          buf ← set_byte buf 2 0x80;
          buf ← set_byte buf 3 namelen;
          buf ← memcpy buf 4 name namelen;
          buf ← fill_uint32 buf (4 + namelen) (if is_push then 0 else u32 session);
          buf ← memcpy buf (8 + namelen) msg sz;
          s ← pushlstring buf 0 (sz + 8 + namelen);
          Ret (s, 0)
        else
          let part := (sz - 1) / MULTI_PART + 1 in
          buf ← fill_header buf (10 + namelen);
          buf ← set_byte buf 2 (if is_push then 0xc1 else 0x81);
          buf ← set_byte buf 3 namelen;
          buf ← memcpy buf 4 name namelen;
          buf ← fill_uint32 buf (4 + namelen) (u32 session);
          buf ← fill_uint32 buf (8 + namelen) sz;
          s ← pushlstring buf 0 (12 + namelen);
          Ret (s, part)
  end.

(** [for (i=0;i<part;i++)], [part] to go. *)
Fixpoint multi_loop (part : nat) (buf : bytes) (session : Z) (ptr : bytes) (sz : Z) : outcome (list bytes) :=
  match part with
  | O => Ret []
  | S part =>
      '(s, buf) ← (if MULTI_PART <? sz then buf ← set_byte buf 2 2; Ret (MULTI_PART, buf)
                   else buf ← set_byte buf 2 3; Ret (sz, buf));
      buf ← fill_header buf (s + 5);
      buf ← fill_uint32 buf 3 (u32 session);
      buf ← memcpy buf 7 ptr s;
      str ← pushlstring buf 0 (s + 7);
      strs ← multi_loop part buf session (drop (Z.to_nat s) ptr) (sz - s);
      Ret (str :: strs)
  end.

Definition packreq_multi (session : Z) (msg : bytes) (sz : Z) : outcome (list bytes) :=
  let part := (sz - 1) / MULTI_PART + 1 in
  multi_loop (Z.to_nat part) temp session msg sz.

(** The first argument: a number, or what [lua_tolstring] gives of it. *)
Inductive lua_addr := AddrNumber (n : Z) | AddrOther (name : option bytes).

(** Left on the stack: the packet, the next session, and a table of parts. *)
Definition packrequest (addr : lua_addr) (session : Z) (msg : option bytes) (sz : Z) (is_push : bool)
    : outcome (bytes * Z * option (list bytes)) :=
  match msg with
  | None => LuaError "Invalid request message"
  | Some msg =>
      let sz := u32 sz in
      let session := s32 session in
      if session <=? 0 then LuaError "Invalid request session %d"
      else
        '(s, multipak) ← match addr with
                         | AddrNumber n => packreq_number n session msg sz is_push
                         | AddrOther name => packreq_string name session msg sz is_push
                         end;
        let new_session := u32 (u32 session + 1) in
        let new_session := if INT32_MAX <? new_session then 1 else new_session in
        if negb (multipak =? 0) then parts ← packreq_multi session msg sz; Ret (s, new_session, Some parts)
        else Ret (s, new_session, None)
  end.

Definition lpackrequest addr session msg sz := packrequest addr session msg sz false.
Definition lpackpush addr session msg sz := packrequest addr session msg sz true.

(** ** Unpacking requests *)

Definition unpackreq_number (buf : bytes) (sz : Z) : outcome (list lua_arg) :=
  if sz <? 9 then LuaError "Invalid cluster message (size=%d)"
  else
    address ← unpack_uint32 buf 1;
    session ← unpack_uint32 buf 5;
    msg ← pushlstring buf 9 (sz - 9);
    if session =? 0 then Ret [Int address; Int session; Str msg; Nil; Bool true]
    else Ret [Int address; Int session; Str msg].

Definition unpackmreq_number (buf : bytes) (sz : Z) (is_push : bool) : outcome (list lua_arg) :=
  if negb (sz =? 13) then LuaError "Invalid cluster message size %d (multi req must be 13)"
  else
    address ← unpack_uint32 buf 1;
    session ← unpack_uint32 buf 5;
    size ← unpack_uint32 buf 9;
    Ret [Int address; Int session; Int size; Bool true; Bool is_push].

Definition unpackmreq_part (buf : bytes) (sz : Z) : outcome (list lua_arg) :=
  if sz <? 5 then LuaError "Invalid cluster multi part message"
  else
    type ← get_byte buf 0;
    let padding := type =? 2 in
    session ← unpack_uint32 buf 1;
    msg ← pushlstring buf 5 (sz - 5);
    Ret [Bool false; Int session; Str msg; Bool padding].

Definition unpackreq_string (buf : bytes) (sz : Z) : outcome (list lua_arg) :=
  if sz <? 2 then LuaError "Invalid cluster message (size=%d)"
  else
    namesz ← get_byte buf 1;
    if sz <? namesz + 6 then LuaError "Invalid cluster message (size=%d)"
    else
      name ← pushlstring buf 2 namesz;
      session ← unpack_uint32 buf (namesz + 2);
      msg ← pushlstring buf (2 + namesz + 4) (sz - namesz - 6);
      if session =? 0 then Ret [Str name; Int session; Str msg; Nil; Bool true]
      else Ret [Str name; Int session; Str msg].

Definition unpackmreq_string (buf : bytes) (sz : Z) (is_push : bool) : outcome (list lua_arg) :=
  if sz <? 2 then LuaError "Invalid cluster message (size=%d)"
  else
    namesz ← get_byte buf 1;
    if sz <? namesz + 10 then LuaError "Invalid cluster message (size=%d)"
    else
      name ← pushlstring buf 2 namesz;
      session ← unpack_uint32 buf (namesz + 2);
      size ← unpack_uint32 buf (namesz + 6);
      Ret [Str name; Int session; Int size; Bool true; Bool is_push].

(** [buf] is the string with the zero byte that ends it. *)
Definition lunpackrequest (str : bytes) : outcome (list lua_arg) :=
  let buf := str ++ [0] in
  let sz := s32 (Z.of_nat (length str)) in
  type ← get_byte buf 0;
  if type =? 0 then unpackreq_number buf sz
  else if type =? 1 then unpackmreq_number buf sz false
  else if type =? 0x41 then unpackmreq_number buf sz true
  else if (type =? 2) || (type =? 3) then unpackmreq_part buf sz
  else if type =? 0x80 then unpackreq_string buf sz
  else if type =? 0x81 then unpackmreq_string buf sz false
  else if type =? 0xc1 then unpackmreq_string buf sz true
  else LuaError "Invalid req package type %d".

(** ** Responses *)

(** The message: a string, or a pointer and a size. *)
Inductive lua_msg := MsgString (s : bytes) | MsgPointer (p : bytes) (sz : Z).

(** [for (i=0;i<part;i++)] of [lpackresponse], [part] to go. *)
Fixpoint response_loop (part : nat) (buf : bytes) (session : Z) (ptr : bytes) (sz : Z) : outcome (list bytes) :=
  match part with
  | O => Ret []
  | S part =>
      '(s, buf) ← (if MULTI_PART <? sz then buf ← set_byte buf 6 3; Ret (MULTI_PART, buf)
                   else buf ← set_byte buf 6 4; Ret (sz, buf));
      buf ← fill_header buf (s + 5);
      buf ← fill_uint32 buf 2 session;
      buf ← memcpy buf 7 ptr s;
      str ← pushlstring buf 0 (s + 7);
      strs ← response_loop part buf session (drop (Z.to_nat s) ptr) (sz - s);
      Ret (str :: strs)
  end.

(** A string, or a table of strings. *)
Definition lpackresponse (session : Z) (ok : bool) (msg : lua_msg) : outcome (bytes + list bytes) :=
  let session := u32 session in
  let '(msg, sz) := match msg with
                    | MsgString s => (s, Z.of_nat (length s))
                    | MsgPointer p sz => (p, u64 sz)
                    end in
  if ok && (MULTI_PART <? sz) then
    let part := s32 ((sz - 1) / MULTI_PART + 1) in
    buf ← fill_header temp 9;
    buf ← fill_uint32 buf 2 session;
    buf ← set_byte buf 6 2;
    buf ← fill_uint32 buf 7 (u32 sz);
    first ← pushlstring buf 0 11;
    rest ← response_loop (Z.to_nat part) buf session msg sz;
    Ret (inr (first :: rest))
  else
    let sz := if negb ok && (MULTI_PART <? sz) then MULTI_PART else sz in
    buf ← fill_header temp (sz + 5);
    buf ← fill_uint32 buf 2 session;
    buf ← set_byte buf 6 (if ok then 1 else 0);
    buf ← memcpy buf 7 msg sz;
    s ← pushlstring buf 0 (sz + 7);
    Ret (inl s).

(** No values for what is no response. *)
Definition lunpackresponse (str : bytes) : outcome (list lua_arg) :=
  let buf := str ++ [0] in
  let sz := Z.of_nat (length str) in
  if sz <? 5 then Ret []
  else
    session ← unpack_uint32 buf 0;
    type ← get_byte buf 4;
    if type =? 0 then msg ← pushlstring buf 5 (sz - 5); Ret [Int session; Bool false; Str msg]
    else if (type =? 1) || (type =? 4) then msg ← pushlstring buf 5 (sz - 5); Ret [Int session; Bool true; Str msg]
    else if type =? 2 then
      if negb (sz =? 9) then Ret []
      else sz ← unpack_uint32 buf 5; Ret [Int session; Bool true; Int sz; Bool true]
    else if type =? 3 then msg ← pushlstring buf 5 (sz - 5); Ret [Int session; Bool true; Str msg; Bool true]
    else Ret [].
End pack.

(** ** Joining parts *)

(** The size of the record that [skynet_malloc] keeps with a block. *)
Definition PREFIX_SIZE : Z := 4.

(** A block for [size_t] [size], by its contents (here 0): [malloc_oom] aborts when
    the allocator refuses a size that no block can have. *)
Definition skynet_malloc (size : Z) : outcome bytes :=
  let total := u64 (u64 size + PREFIX_SIZE) in
  if 2 ^ 63 <=? total then AssertFail else Ret (replicate (Z.to_nat (total - PREFIX_SIZE)) 0).

(** [while(lua_geti(L,1,idx) == LUA_TSTRING)]: [None] where it returns no values. *)
Fixpoint concat_loop (t : list lua_arg) (buff : bytes) (offset sz : Z) : outcome (option (bytes * Z)) :=
  match t with
  | Str str :: t =>
      let s := Z.of_nat (length str) in
      if u64 sz <? u64 (s + u64 offset) then Ret None
      else
        buff ← memcpy buff offset str s;
        concat_loop t buff (s32 (offset + s)) sz
  | _ => Ret (Some (buff, offset))
  end.

(** The table is the list of its values from 1 to the first nil. *)
Definition lconcat (t : list lua_arg) : outcome (option (bytes * Z)) :=
  match t with
  | Int n :: t =>
      let sz := s32 n in
      buff ← skynet_malloc sz;
      r ← concat_loop t buff 0 sz;
      Ret (match r with
           | Some (buff, offset) => if negb (offset =? sz) then None else Some (buff, sz)
           | None => None
           end)
  | _ => Ret None
  end.
