(* ===== verification/ClusterServe.v ===== *)
(** What the functions of [lualib-src/lua-cluster.c] write and read back:
    requests and responses, whole or in parts. *)
From S2P Require Import Prelude Netpack Cluster.

#[local] Arguments Z.mul : simpl never.
#[local] Opaque Z.to_nat.

(** ** Buffers *)

(** [buf] holds [s] from [off] on. *)
Definition region (buf : bytes) (off : Z) (s : bytes) : Prop := take (length s) (drop (Z.to_nat off) buf) = s.

Lemma region_app buf off s t : 0 <= off -> region buf off s -> region buf (off + Z.of_nat (length s)) t -> region buf off (s ++ t).
Proof.
  unfold region. intros Ho Hs Ht. rewrite length_app, <- take_take_drop, Hs, drop_drop. f_equal. rewrite <- Ht at 2.
  do 2 f_equal. lia.
Qed.

Lemma region_lookup buf off s i : 0 <= off -> region buf off s -> (i < length s)%nat -> buf !! (Z.to_nat off + i)%nat = s !! i.
Proof. unfold region. intros Ho Hs Hi. rewrite <- lookup_drop. transitivity (take (length s) (drop (Z.to_nat off) buf) !! i); [by rewrite lookup_take_lt|by rewrite Hs]. Qed.

(** [o] is [buf] with [s] written at [off]. *)
Definition writes (o : outcome bytes) (buf : bytes) (off : Z) (s : bytes) : Prop :=
  exists buf', o = Ret buf' /\ length buf' = length buf /\ region buf' off s /\
    forall off' s', region buf off' s' -> 0 <= off' ->
      off' + Z.of_nat (length s') <= off \/ off + Z.of_nat (length s) <= off' -> region buf' off' s'.

Lemma memcpy_writes buf off src n : 0 <= off -> off + n <= Z.of_nat (length buf) -> 0 <= n <= Z.of_nat (length src) ->
  writes (memcpy buf off src n) buf off (take (Z.to_nat n) src).
Proof.
  intros Ho Hb Hn. rewrite memcpy_ok by lia.
  set (a := take (Z.to_nat off) buf). set (t := take (Z.to_nat n) src).
  assert (Ha : length a = Z.to_nat off) by (unfold a; rewrite length_take; lia).
  assert (Ht : length t = Z.to_nat n) by (unfold t; rewrite length_take; lia).
  eexists. split; [reflexivity|]. split; [|split].
  - rewrite !length_app, length_drop. lia.
  - unfold region. rewrite drop_app_length' by done. by rewrite take_app_length.
  - intros off' s' Hs' Ho' Hd. unfold region in *. rewrite <- Hs' at 2. destruct Hd as [Hd|Hd].
    + unfold a. rewrite drop_app_le by (rewrite length_take; lia). rewrite take_app_le by (rewrite length_drop, length_take; lia).
      rewrite skipn_firstn_comm, take_take. f_equal. lia.
    + rewrite app_assoc, drop_app_ge by (rewrite length_app; lia). rewrite length_app, drop_drop. do 2 f_equal. lia.
Qed.

(** The four bytes of a number. *)
Definition le32 (n : Z) : bytes :=
  [Z.land n 0xff; Z.land (Z.shiftr n 8) 0xff; Z.land (Z.shiftr n 16) 0xff; Z.land (Z.shiftr n 24) 0xff].

Lemma fill_uint32_writes buf off n : 0 <= off -> off + 4 <= Z.of_nat (length buf) -> writes (fill_uint32 buf off n) buf off (le32 n).
Proof. intros. by apply (memcpy_writes buf off (le32 n) 4). Qed.

Lemma set_byte_writes buf i v : 0 <= i < Z.of_nat (length buf) -> 0 <= v < 256 -> writes (set_byte buf i v) buf i [v].
Proof. intros. unfold set_byte. rewrite u8_small by done. apply (memcpy_writes buf i [v] 1); cbn; lia. Qed.

Lemma fill_header_writes buf sz : 2 <= Z.of_nat (length buf) -> sz < 0x10000 -> writes (fill_header buf sz) buf 0 (write_size sz).
Proof. intros. unfold fill_header. rewrite (proj2 (Z.ltb_lt _ _)) by done. by apply (memcpy_writes buf 0 (write_size sz) 2). Qed.

Lemma memcpy_all_writes buf off s : 0 <= off -> off + Z.of_nat (length s) <= Z.of_nat (length buf) ->
  writes (memcpy buf off s (Z.of_nat (length s))) buf off s.
Proof.
  intros. pose proof (memcpy_writes buf off s (Z.of_nat (length s))) as Hw. rewrite Nat2Z.id, firstn_all in Hw. apply Hw; lia.
Qed.

Lemma pushlstring_region buf off s n : n = Z.of_nat (length s) -> 0 <= off -> off + n <= Z.of_nat (length buf) ->
  region buf off s -> pushlstring buf off n = Ret s.
Proof.
  intros -> Ho Hl Hr. unfold pushlstring. rewrite (proj2 (Z.ltb_ge off 0)), (proj2 (Z.ltb_ge (Z.of_nat _) 0)), (proj2 (Z.ltb_ge _ (_ + _))) by lia.
  cbn [orb]. by rewrite Nat2Z.id, Hr.
Qed.

(** A write behind what is there, and the rest of a function. *)
Lemma bind_write {A} (k : bytes -> outcome A) o buf s t off r :
  writes o buf off t -> off = Z.of_nat (length s) -> region buf 0 s ->
  (forall buf', length buf' = length buf -> region buf' 0 (s ++ t) -> k buf' = r) -> (o ≫= k) = r.
Proof.
  intros (buf' & -> & Hl & Ht & Hf) -> Hs Hk. rewrite bind_Ret. apply Hk; [done|].
  apply region_app; [done| |done]. apply Hf; [done|done|lia].
Qed.

Lemma region_nil buf : region buf 0 [].
Proof. done. Qed.

Lemma length_le32 n : length (le32 n) = 4%nat.
Proof. done. Qed.
Lemma length_write_size n : length (write_size n) = 2%nat.
Proof. done. Qed.

(** The next write of a function that fills a buffer from its start. *)
Ltac append L :=
  eapply bind_write; [apply L| |eassumption|];
  [(rewrite ?length_app, ?length_le32, ?length_write_size; cbn [length]; lia || (case_match; lia))..|];
  let b := fresh "buf" in let Hl := fresh "Hl" in let H := fresh "Hr" in
  intros b Hl H; repeat match goal with H' : region ?b' _ _, Hl' : length ?b'' = length ?b' |- _ => lazymatch b'' with b => clear H' end end.

(** ** Packets *)

(** A packet: its size in two bytes, and its body. *)
Definition frame (body : bytes) : bytes := write_size (Z.of_nat (length body)) ++ body.

Lemma push_frame {A} buf s n body (k : bytes -> outcome A) r : region buf 0 s -> s = frame body ->
  n = Z.of_nat (length body) + 2 -> n <= Z.of_nat (length buf) -> k (frame body) = r -> (pushlstring buf 0 n ≫= k) = r.
Proof.
  intros Hr -> -> Hl <-. rewrite (pushlstring_region buf 0 (frame body)); [done| |lia|lia|done].
  unfold frame. rewrite length_app, length_write_size. lia.
Qed.

(** The string of what was written, up to the order of concatenation. *)
Ltac packet_eq :=
  unfold frame; rewrite ?app_nil_l, <- ?app_assoc; match goal with |- @eq (list _) _ _ => do 2 f_equal | _ => idtac end; rewrite ?length_app, ?length_le32; cbn [length]; lia.
Ltac push_packet := eapply push_frame; [eassumption| | | |reflexivity]; [packet_eq..].
Ltac push_packet_as B := eapply (push_frame _ _ _ B); [eassumption|packet_eq|packet_eq|packet_eq|].

Section requests.
Context (temp : bytes).
Hypothesis Htemp : Z.of_nat (length temp) = TEMP_LENGTH.

Lemma packreq_number_spec addr session m push :
  packreq_number temp addr session m (Z.of_nat (length m)) push =
    if Z.of_nat (length m) <? MULTI_PART then
      Ret (frame ([0] ++ le32 (u32 addr) ++ le32 (if push then 0 else u32 session) ++ m), 0)
    else
      Ret (frame ([if push then 0x41 else 1] ++ le32 (u32 addr) ++ le32 (u32 session) ++ le32 (Z.of_nat (length m))),
           (Z.of_nat (length m) - 1) / MULTI_PART + 1).
Proof.
  unfold packreq_number. unfold TEMP_LENGTH, MULTI_PART in *. pose proof (region_nil temp).
  destruct (Z.ltb_spec (Z.of_nat (length m)) 0x8000).
  - append fill_header_writes. append set_byte_writes. append fill_uint32_writes. append fill_uint32_writes.
    append memcpy_all_writes. push_packet.
  - append fill_header_writes. append set_byte_writes. append fill_uint32_writes. append fill_uint32_writes.
    append fill_uint32_writes. push_packet.
Qed.

Lemma packreq_string_spec name session m push : 1 <= Z.of_nat (length name) <= 255 ->
  packreq_string temp (Some name) session m (Z.of_nat (length m)) push =
    if Z.of_nat (length m) <? MULTI_PART then
      Ret (frame ([0x80; Z.of_nat (length name)] ++ name ++ le32 (if push then 0 else u32 session) ++ m), 0)
    else
      Ret (frame ([if push then 0xc1 else 0x81; Z.of_nat (length name)] ++ name ++ le32 (u32 session) ++ le32 (Z.of_nat (length m))),
           (Z.of_nat (length m) - 1) / MULTI_PART + 1).
Proof.
  intros Hn. unfold packreq_string. unfold TEMP_LENGTH, MULTI_PART in *. pose proof (region_nil temp).
  rewrite (proj2 (Z.ltb_ge _ 1)), (proj2 (Z.ltb_ge 255 _)) by lia. cbn [orb].
  destruct (Z.ltb_spec (Z.of_nat (length m)) 0x8000).
  - append fill_header_writes. append set_byte_writes. append set_byte_writes. append memcpy_all_writes.
    append fill_uint32_writes. append memcpy_all_writes. push_packet.
  - append fill_header_writes. append set_byte_writes. append set_byte_writes. append memcpy_all_writes.
    append fill_uint32_writes. append fill_uint32_writes. push_packet.
Qed.

End requests.
(** *** Parts *)

(** The parts of a message, and whether a part is the last one. *)
Fixpoint parts (part : nat) (m : bytes) : list (bytes * bool) :=
  match part with
  | O => []
  | S part => (take (Z.to_nat MULTI_PART) m, Z.of_nat (length m) <=? MULTI_PART) :: parts part (drop (Z.to_nat MULTI_PART) m)
  end.

(** As many as packing makes. *)
Definition all_parts (m : bytes) : list (bytes * bool) := parts (Z.to_nat ((Z.of_nat (length m) - 1) / MULTI_PART + 1)) m.

Lemma parts_left (m : bytes) : MULTI_PART < Z.of_nat (length m) ->
  Z.of_nat (length (drop (Z.to_nat MULTI_PART) m)) = Z.of_nat (length m) - MULTI_PART /\
  (Z.of_nat (length m) - 1) / MULTI_PART + 1 = (Z.of_nat (length (drop (Z.to_nat MULTI_PART) m)) - 1) / MULTI_PART + 1 + 1.
Proof.
  intros Hm. rewrite length_drop. unfold MULTI_PART in *. split; [lia|].
  replace (Z.of_nat (length m - Z.to_nat 0x8000) - 1) with (Z.of_nat (length m) - 1 + (-1) * 0x8000) by lia.
  rewrite Z.div_add by lia. lia.
Qed.

Lemma parts_last n : 1 <= n <= MULTI_PART -> (n - 1) / MULTI_PART + 1 = 1.
Proof. intros. unfold MULTI_PART in *. rewrite Z.div_small; lia. Qed.

(** A loop over the parts of a message. *)
Lemma parts_ind (P : bytes -> list (bytes * bool) -> Prop) :
  (forall m, 1 <= Z.of_nat (length m) <= MULTI_PART -> P m [(m, true)]) ->
  (forall m c m' ps, Z.of_nat (length c) = MULTI_PART -> m = c ++ m' -> 1 <= Z.of_nat (length m') -> P m' ps -> P m ((c, false) :: ps)) ->
  forall m, 1 <= Z.of_nat (length m) -> P m (all_parts m).
Proof.
  intros H1 H2 m. remember (length m) as n eqn:Hn. revert m Hn. induction (lt_wf n) as [n _ IH]. intros m Hn Hm. unfold all_parts.
  destruct (Z.leb_spec (Z.of_nat n) MULTI_PART) as [Hle|Hgt].
  - rewrite parts_last by lia. change (Z.to_nat 1) with 1%nat. cbn [parts]. rewrite (proj2 (Z.leb_le _ _)) by lia.
    rewrite take_ge by (unfold MULTI_PART in *; lia). apply H1. lia.
  - subst n. destruct (parts_left m Hgt) as [Hl Hp]. rewrite Hp. set (m' := drop (Z.to_nat MULTI_PART) m) in *.
    assert (0 <= (Z.of_nat (length m') - 1) / MULTI_PART) by (apply Z.div_pos; unfold MULTI_PART in *; lia).
    rewrite Z2Nat.inj_add, Nat.add_1_r by lia. cbn [parts]. fold m'. rewrite (proj2 (Z.leb_gt _ _)) by done.
    apply (H2 m _ m'); [rewrite length_take; unfold MULTI_PART in *; lia|unfold m'; by rewrite take_drop|lia|].
    apply (IH (length m')); [unfold MULTI_PART in *; lia|done|lia].
Qed.

Lemma all_parts_1 (m : bytes) : 1 <= Z.of_nat (length m) <= MULTI_PART -> Z.to_nat ((Z.of_nat (length m) - 1) / MULTI_PART + 1) = 1%nat.
Proof. intros. by rewrite parts_last. Qed.

Lemma all_parts_S (c m' : bytes) : Z.of_nat (length c) = MULTI_PART -> 1 <= Z.of_nat (length m') ->
  Z.to_nat ((Z.of_nat (length (c ++ m')) - 1) / MULTI_PART + 1) = S (Z.to_nat ((Z.of_nat (length m') - 1) / MULTI_PART + 1)).
Proof.
  intros Hc Hm. destruct (parts_left (c ++ m')) as [_ ->]; [rewrite length_app; lia|]. rewrite drop_app_length' by lia.
  assert (0 <= (Z.of_nat (length m') - 1) / MULTI_PART) by (apply Z.div_pos; unfold MULTI_PART; lia). lia.
Qed.

Definition part_body (session : Z) (p : bytes * bool) : bytes := [if snd p then 3 else 2] ++ le32 (u32 session) ++ fst p.

(** The byte of the type is written before the size in front of it. *)
Lemma bind_mark {A} (k : bytes -> outcome A) buf v sz r : 3 <= Z.of_nat (length buf) -> 0 <= v < 256 -> sz < 0x10000 ->
  (forall buf', length buf' = length buf -> region buf' 0 (write_size sz ++ [v]) -> k buf' = r) ->
  (buf ← set_byte buf 2 v; buf ← fill_header buf sz; k buf) = r.
Proof.
  intros Hl Hv Hsz Hk. destruct (set_byte_writes buf 2 v ltac:(lia) Hv) as (b1 & -> & Hl1 & Hr1 & _). rewrite bind_Ret.
  destruct (fill_header_writes b1 sz ltac:(lia) Hsz) as (b2 & -> & Hl2 & Hr2 & Hf). rewrite bind_Ret.
  apply Hk; [lia|]. apply region_app; [done|done|]. apply Hf; [done|done|right; cbn; lia].
Qed.

(** One round of the loop of packreq_multi. *)
Lemma multi_round n buf session c last ptr : Z.of_nat (length buf) = TEMP_LENGTH -> Z.of_nat (length c) <= MULTI_PART ->
  (exists m', ptr = c ++ m') ->
  forall r, (forall buf', Z.of_nat (length buf') = TEMP_LENGTH ->
    (strs ← multi_loop n buf' session (drop (length c) ptr) (Z.of_nat (length ptr) - Z.of_nat (length c));
     Ret (frame (part_body session (c, last)) :: strs)) = r) ->
  (buf ← set_byte buf 2 (if last then 3 else 2);
   buf ← fill_header buf (Z.of_nat (length c) + 5);
   buf ← fill_uint32 buf 3 (u32 session);
   buf ← memcpy buf 7 ptr (Z.of_nat (length c));
   str ← pushlstring buf 0 (Z.of_nat (length c) + 7);
   strs ← multi_loop n buf session (drop (Z.to_nat (Z.of_nat (length c))) ptr) (Z.of_nat (length ptr) - Z.of_nat (length c));
   Ret (str :: strs)) = r.
Proof.
  intros Hbuf Hc [m' ->] r Hr. unfold TEMP_LENGTH, MULTI_PART in *. apply bind_mark; [lia|destruct last; lia|lia|]. intros b Hl Hb.
  append fill_uint32_writes.
  assert (Hw : writes (memcpy buf0 7 (c ++ m') (Z.of_nat (length c))) buf0 7 c).
  { pose proof (memcpy_writes buf0 7 (c ++ m') (Z.of_nat (length c))) as Hw. rewrite Nat2Z.id, take_app_length in Hw.
    apply Hw; rewrite ?length_app; lia. }
  append Hw. push_packet_as ([if last then 3 else 2] ++ le32 (u32 session) ++ c). rewrite Nat2Z.id. apply Hr. lia.
Qed.

Lemma multi_loop_spec session m : 1 <= Z.of_nat (length m) -> forall buf, Z.of_nat (length buf) = TEMP_LENGTH ->
  multi_loop (Z.to_nat ((Z.of_nat (length m) - 1) / MULTI_PART + 1)) buf session m (Z.of_nat (length m)) =
    Ret (map (fun p => frame (part_body session p)) (all_parts m)).
Proof.
  intros Hm. pattern m, (all_parts m). revert m Hm. apply parts_ind.
  - intros m Hm buf Hbuf. rewrite all_parts_1 by done. cbn [multi_loop]. rewrite (proj2 (Z.ltb_ge _ _)), bind_assoc by lia.
    apply (multi_round 0 buf session m true m); [done|lia|by exists []; rewrite app_nil_r|]. intros b Hb. by cbn [multi_loop].
  - intros m c m' ps Hc -> Hm' IH buf Hbuf. rewrite all_parts_S by done. cbn [multi_loop].
    rewrite (proj2 (Z.ltb_lt _ _)), bind_assoc by (rewrite length_app; lia). rewrite <- Hc.
    apply (multi_round _ buf session c false (c ++ m')); [done|lia|by exists m'|]. intros b Hb.
    rewrite drop_app_length, length_app, Nat2Z.inj_add, Z.add_simpl_l, Hc. by rewrite (IH b Hb), bind_Ret.
Qed.

(** *** Responses in parts *)

Definition response_body (session : Z) (p : bytes * bool) : bytes := le32 session ++ [if snd p then 4 else 3] ++ fst p.

Lemma bind_mark_response {A} (k : bytes -> outcome A) buf v sz session r : 7 <= Z.of_nat (length buf) -> 0 <= v < 256 -> sz < 0x10000 ->
  (forall buf', length buf' = length buf -> region buf' 0 ((write_size sz ++ le32 session) ++ [v]) -> k buf' = r) ->
  (buf ← set_byte buf 6 v; buf ← fill_header buf sz; buf ← fill_uint32 buf 2 session; k buf) = r.
Proof.
  intros Hl Hv Hsz Hk. destruct (set_byte_writes buf 6 v ltac:(lia) Hv) as (b1 & -> & Hl1 & Hr1 & _). rewrite bind_Ret.
  destruct (fill_header_writes b1 sz ltac:(lia) Hsz) as (b2 & -> & Hl2 & Hr2 & Hf2). rewrite bind_Ret.
  destruct (fill_uint32_writes b2 2 session ltac:(lia) ltac:(lia)) as (b3 & -> & Hl3 & Hr3 & Hf3). rewrite bind_Ret.
  apply Hk; [lia|]. apply region_app; [done| |].
  - apply region_app; [done| |done]. apply Hf3; [done|done|left; cbn; lia].
  - apply Hf3; [apply Hf2; [done|lia|right; cbn; lia]|done|right; cbn; lia].
Qed.

(** One round of the loop of lpackresponse. *)
Lemma response_round n buf session c last ptr : Z.of_nat (length buf) = TEMP_LENGTH -> Z.of_nat (length c) <= MULTI_PART ->
  (exists m', ptr = c ++ m') ->
  forall r, (forall buf', Z.of_nat (length buf') = TEMP_LENGTH ->
    (strs ← response_loop n buf' session (drop (length c) ptr) (Z.of_nat (length ptr) - Z.of_nat (length c));
     Ret (frame (response_body session (c, last)) :: strs)) = r) ->
  (buf ← set_byte buf 6 (if last then 4 else 3);
   buf ← fill_header buf (Z.of_nat (length c) + 5);
   buf ← fill_uint32 buf 2 session;
   buf ← memcpy buf 7 ptr (Z.of_nat (length c));
   str ← pushlstring buf 0 (Z.of_nat (length c) + 7);
   strs ← response_loop n buf session (drop (Z.to_nat (Z.of_nat (length c))) ptr) (Z.of_nat (length ptr) - Z.of_nat (length c));
   Ret (str :: strs)) = r.
Proof.
  intros Hbuf Hc [m' ->] r Hr. unfold TEMP_LENGTH, MULTI_PART in *. apply bind_mark_response; [lia|destruct last; lia|lia|]. intros b Hl Hb.
  assert (Hw : writes (memcpy b 7 (c ++ m') (Z.of_nat (length c))) b 7 c).
  { pose proof (memcpy_writes b 7 (c ++ m') (Z.of_nat (length c))) as Hw. rewrite Nat2Z.id, take_app_length in Hw.
    apply Hw; rewrite ?length_app; lia. }
  append Hw. push_packet_as (le32 session ++ [if last then 4 else 3] ++ c). rewrite Nat2Z.id. apply Hr. lia.
Qed.

Lemma response_loop_spec session m : 1 <= Z.of_nat (length m) -> forall buf, Z.of_nat (length buf) = TEMP_LENGTH ->
  response_loop (Z.to_nat ((Z.of_nat (length m) - 1) / MULTI_PART + 1)) buf session m (Z.of_nat (length m)) =
    Ret (map (fun p => frame (response_body session p)) (all_parts m)).
Proof.
  intros Hm. pattern m, (all_parts m). revert m Hm. apply parts_ind.
  - intros m Hm buf Hbuf. rewrite all_parts_1 by done. cbn [response_loop]. rewrite (proj2 (Z.ltb_ge _ _)), bind_assoc by lia.
    apply (response_round 0 buf session m true m); [done|lia|by exists []; rewrite app_nil_r|]. intros b Hb. by cbn [response_loop].
  - intros m c m' ps Hc -> Hm' IH buf Hbuf. rewrite all_parts_S by done. cbn [response_loop].
    rewrite (proj2 (Z.ltb_lt _ _)), bind_assoc by (rewrite length_app; lia). rewrite <- Hc.
    apply (response_round _ buf session c false (c ++ m')); [done|lia|by exists m'|]. intros b Hb.
    rewrite drop_app_length, length_app, Nat2Z.inj_add, Z.add_simpl_l, Hc. by rewrite (IH b Hb), bind_Ret.
Qed.

(** ** Reading back *)

Lemma le32_words n : is_bytes (le32 n).
Proof. repeat (apply Forall_cons; split; [apply word_land_r; [lia|split; [done|vm_compute; reflexivity]]|]); constructor. Qed.

Lemma land_ff x : Z.land x 0xff = u8 x.
Proof. change 0xff with (2 ^ 8 - 1). by rewrite land_ones_pow2. Qed.

Lemma get_byte_at (a : bytes) (x : Z) (b : bytes) off : off = Z.of_nat (length a) -> get_byte (a ++ x :: b) off = Ret x.
Proof.
  intros ->. unfold get_byte. rewrite (proj2 (Z.ltb_ge _ 0)), Nat2Z.id by lia. by rewrite list_lookup_middle.
Qed.

Lemma get_byte_app (a b : bytes) i : 0 <= i -> get_byte (a ++ b) (Z.of_nat (length a) + i) = get_byte b i.
Proof.
  intros. unfold get_byte. rewrite (proj2 (Z.ltb_ge _ 0)), (proj2 (Z.ltb_ge i 0)) by lia. f_equal.
  rewrite lookup_app_r by lia. f_equal. lia.
Qed.

Lemma unpack_uint32_at (a : bytes) n b off : word 32 n -> off = Z.of_nat (length a) -> unpack_uint32 (a ++ le32 n ++ b) off = Ret n.
Proof.
  intros Hn ->. unfold unpack_uint32, le32. rewrite !land_ff. cbn [app].
  set (b0 := u8 n). set (b1 := u8 (Z.shiftr n 8)). set (b2 := u8 (Z.shiftr n 16)). set (b3 := u8 (Z.shiftr n 24)).
  assert (H0 : get_byte (a ++ b0 :: b1 :: b2 :: b3 :: b) (Z.of_nat (length a)) = Ret b0) by (by apply get_byte_at).
  assert (H1 : get_byte (a ++ b0 :: b1 :: b2 :: b3 :: b) (Z.of_nat (length a) + 1) = Ret b1) by (by rewrite get_byte_app).
  assert (H2 : get_byte (a ++ b0 :: b1 :: b2 :: b3 :: b) (Z.of_nat (length a) + 2) = Ret b2) by (by rewrite get_byte_app).
  assert (H3 : get_byte (a ++ b0 :: b1 :: b2 :: b3 :: b) (Z.of_nat (length a) + 3) = Ret b3) by (by rewrite get_byte_app).
  rewrite H0, H1, H2, H3, !bind_Ret, lor_word4 by (apply u8_word). unfold b0, b1, b2, b3.
  rewrite word4_u8 by done. f_equal. by apply u32_small.
Qed.

Lemma region_inv buf off s t : 0 <= off -> region buf off (s ++ t) -> region buf off s /\ region buf (off + Z.of_nat (length s)) t.
Proof.
  unfold region. intros Ho Hr. rewrite length_app, <- take_take_drop, drop_drop in Hr.
  assert (Hl : length (take (length s) (drop (Z.to_nat off) buf)) = length s).
  { apply (f_equal length) in Hr. rewrite !length_app, !length_take, !length_drop in *. lia. }
  apply app_inj_1 in Hr as [H1 H2]; [|done]. split; [done|]. rewrite <- H2 at 2. do 2 f_equal. lia.
Qed.

Lemma region_view buf off s : 0 <= off -> region buf off s -> exists a b, buf = a ++ s ++ b /\ (s <> [] -> Z.of_nat (length a) = off).
Proof.
  intros Ho Hr. exists (take (Z.to_nat off) buf), (drop (Z.to_nat off + length s) buf). unfold region in Hr. rewrite <- drop_drop, <- Hr at 1.
  rewrite take_drop, take_drop. split; [done|]. intros Hs. rewrite length_take.
  assert (length (take (length s) (drop (Z.to_nat off) buf)) <> 0)%nat by (rewrite Hr; by destruct s).
  rewrite length_take, length_drop in *. lia.
Qed.

Lemma get_byte_region buf off x : 0 <= off -> region buf off [x] -> get_byte buf off = Ret x.
Proof. intros Ho Hr. destruct (region_view buf off [x] Ho Hr) as (a & b & -> & Hl). rewrite <- Hl by done. by apply get_byte_at. Qed.

Lemma unpack_uint32_region buf off n : 0 <= off -> word 32 n -> region buf off (le32 n) -> unpack_uint32 buf off = Ret n.
Proof. intros Ho Hn Hr. destruct (region_view buf off _ Ho Hr) as (a & b & -> & Hl). rewrite <- Hl by done. by apply unpack_uint32_at. Qed.

(** The pieces of a string that is read. *)
Ltac split_region :=
  repeat match goal with H : region _ _ (_ ++ _) |- _ => apply region_inv in H as [? H]; [|lia] end;
  rewrite ?length_app, ?length_le32 in *; cbn [length] in *.

(** The next read: of a number, a byte or a string that is a piece. *)
Ltac read_next :=
  lazymatch goal with
  | |- mbind _ (unpack_uint32 ?b ?o) = _ => match goal with H : region b ?o' (le32 ?n) |- _ =>
      rewrite (unpack_uint32_region b o n); [|lia|done|by replace o with o' by lia] end
  | |- mbind _ (get_byte ?b ?o) = _ => match goal with H : region b ?o' [?x] |- _ =>
      rewrite (get_byte_region b o x); [|lia|by replace o with o' by lia] end
  | |- mbind _ (pushlstring ?b ?o ?n) = _ => match goal with H : region b ?o' ?s |- _ =>
      rewrite (pushlstring_region b o s n); [|rewrite ?length_le32; cbn [length]; lia|lia|lia|by replace o with o' by lia] end
  end; rewrite bind_Ret.

Lemma read_start (str : bytes) : exists buf, str ++ [0] = buf /\ length buf = S (length str) /\ region buf 0 str.
Proof. exists (str ++ [0]). split; [done|]. rewrite length_app, Nat.add_1_r. split; [done|]. unfold region. by rewrite drop_0, take_app_length. Qed.

Ltac start_read :=
  let b := fresh "buf" in let Hb := fresh "Hb" in let Hl := fresh "Hl" in let Hr := fresh "Hr" in
  match goal with |- context [?s ++ [0]] => destruct (read_start s) as (b & Hb & Hl & Hr); rewrite Hb; clear Hb end;
  rewrite ?length_app, ?length_le32 in *; cbn [length] in *; split_region.

Section unpack.
Context (session : Z) (m : bytes).
Hypothesis Hs : word 32 session.
Hypothesis Hm : Z.of_nat (length m) < 2 ^ 31.

(** What follows the session of a request. *)
Definition push_results : list lua_arg := if session =? 0 then [Nil; Bool true] else [].

Lemma unpackreq_number_spec addr : word 32 addr -> Z.of_nat (length m) < MULTI_PART ->
  lunpackrequest ([0] ++ le32 addr ++ le32 session ++ m) = Ret ([Int addr; Int session; Str m] ++ push_results).
Proof.
  intros Ha Hl. unfold MULTI_PART in *. unfold lunpackrequest. cbv zeta. start_read. rewrite s32_small by lia. read_next.
  change (0 =? 0) with true. cbv iota. unfold unpackreq_number. rewrite (proj2 (Z.ltb_ge _ 9)) by lia.
  do 3 read_next. unfold push_results. by destruct (session =? 0).
Qed.

Lemma unpackmreq_number_spec addr (push : bool) size : word 32 addr -> word 32 size ->
  lunpackrequest ([if push then 0x41 else 1] ++ le32 addr ++ le32 session ++ le32 size) =
    Ret [Int addr; Int session; Int size; Bool true; Bool push].
Proof.
  intros Ha Hz. unfold lunpackrequest. cbv zeta. start_read. rewrite s32_small by lia. read_next.
  assert (E : unpackmreq_number buf (Z.of_nat 13) push = Ret [Int addr; Int session; Int size; Bool true; Bool push]).
  { unfold unpackmreq_number. change (negb (Z.of_nat 13 =? 13)) with false. cbv iota. by do 3 read_next. }
  destruct push; exact E.
Qed.

Lemma unpackreq_string_spec name : 1 <= Z.of_nat (length name) <= 255 -> Z.of_nat (length m) < MULTI_PART ->
  lunpackrequest ([0x80; Z.of_nat (length name)] ++ name ++ le32 session ++ m) = Ret ([Str name; Int session; Str m] ++ push_results).
Proof.
  intros Ha Hl. change [128; ?x] with ([128] ++ [x]). unfold MULTI_PART in *. unfold lunpackrequest. cbv zeta. start_read.
  rewrite s32_small by lia. read_next. change (unpackreq_string ?b ?n) with (unpackreq_string b n). cbn [Z.eqb Pos.eqb orb].
  unfold unpackreq_string. rewrite (proj2 (Z.ltb_ge _ 2)) by lia. read_next. rewrite (proj2 (Z.ltb_ge _ _)) by lia.
  do 3 read_next. unfold push_results. by destruct (session =? 0).
Qed.

Lemma unpackmreq_string_spec name (push : bool) size : 1 <= Z.of_nat (length name) <= 255 -> word 32 size ->
  lunpackrequest ([if push then 0xc1 else 0x81; Z.of_nat (length name)] ++ name ++ le32 session ++ le32 size) =
    Ret [Str name; Int session; Int size; Bool true; Bool push].
Proof.
  intros Ha Hz. set (t := if push then 0xc1 else 0x81). change [t; ?x] with ([t] ++ [x]). unfold lunpackrequest. cbv zeta. start_read.
  rewrite s32_small by lia. read_next.
  assert (E : forall n, n = Z.of_nat (S (S (length name + 8))) -> unpackmreq_string buf n push = Ret [Str name; Int session; Int size; Bool true; Bool push]).
  { intros n ->. unfold unpackmreq_string. rewrite (proj2 (Z.ltb_ge _ 2)) by lia. read_next. rewrite (proj2 (Z.ltb_ge _ _)) by lia.
    by do 3 read_next. }
  subst t. destruct push; apply E; lia.
Qed.

Lemma unpackmreq_part_spec (last : bool) : Z.of_nat (length m) <= MULTI_PART ->
  lunpackrequest ([if last then 3 else 2] ++ le32 session ++ m) = Ret [Bool false; Int session; Str m; Bool (negb last)].
Proof.
  intros Hl. unfold MULTI_PART in *. unfold lunpackrequest. cbv zeta. start_read. rewrite s32_small by lia. read_next.
  assert (E : forall n, n = Z.of_nat (S (4 + length m)) -> unpackmreq_part buf n = Ret [Bool false; Int session; Str m; Bool (negb last)]).
  { intros n ->. unfold unpackmreq_part. rewrite (proj2 (Z.ltb_ge _ 5)) by lia. do 3 read_next. by destruct last. }
  destruct last; apply E; lia.
Qed.

(** Responses: an error, the whole message or a part. *)
Lemma unpackresponse_spec type : type = 0 \/ type = 1 \/ type = 3 \/ type = 4 ->
  lunpackresponse (le32 session ++ [type] ++ m) =
    Ret ([Int session; Bool (negb (type =? 0)); Str m] ++ if type =? 3 then [Bool true] else []).
Proof.
  intros Ht. unfold lunpackresponse. cbv zeta. start_read. rewrite (proj2 (Z.ltb_ge _ 5)) by lia. do 2 read_next.
  assert (E : forall n, n = Z.of_nat (4 + S (length m)) -> pushlstring buf 5 (n - 5) = Ret m).
  { intros n ->. apply pushlstring_region; [lia..|done]. }
  destruct Ht as [->|[->|[->| ->]]]; cbn [Z.eqb Pos.eqb orb negb]; (rewrite E, bind_Ret by lia); done.
Qed.

Lemma unpackresponse_begin size : word 32 size ->
  lunpackresponse (le32 session ++ [2] ++ le32 size) = Ret [Int session; Bool true; Int size; Bool true].
Proof.
  intros Hz. unfold lunpackresponse. cbv zeta. start_read. rewrite (proj2 (Z.ltb_ge _ 5)) by lia. do 2 read_next.
  cbn [Z.eqb Pos.eqb orb negb]. change (negb (Z.of_nat (4 + (1 + 4)) =? 9)) with false. cbv iota. by read_next.
Qed.
End unpack.

(** ** Joining *)

Lemma skynet_malloc_ok n : 0 <= n < 2 ^ 31 -> skynet_malloc n = Ret (replicate (Z.to_nat n) 0).
Proof.
  intros Hn. unfold skynet_malloc, PREFIX_SIZE. cbv zeta. rewrite (u64_small n), (u64_small (n + 4)) by lia.
  rewrite (proj2 (Z.leb_gt _ _)) by lia. do 2 f_equal. lia.
Qed.

Lemma concat_loop_spec sz cs : forall buff s, Z.of_nat (length buff) = sz -> sz < 2 ^ 31 ->
  Z.of_nat (length s) + Z.of_nat (length (concat cs)) <= sz -> region buff 0 s ->
  exists buff', concat_loop (map Str cs) buff (Z.of_nat (length s)) sz =
      Ret (Some (buff', Z.of_nat (length (s ++ concat cs)))) /\ length buff' = length buff /\ region buff' 0 (s ++ concat cs).
Proof.
  induction cs as [|c cs IH]; intros buff s Hb Hsz Hle Hr.
  - exists buff. by rewrite app_nil_r.
  - cbn [concat] in Hle. rewrite length_app in Hle. cbn [map concat_loop]. rewrite (u64_small (Z.of_nat (length s))), !u64_small by lia.
    rewrite (proj2 (Z.ltb_ge _ _)) by lia.
    destruct (memcpy_all_writes buff (Z.of_nat (length s)) c) as (b1 & -> & Hl1 & Hc & Hf); [lia..|]. rewrite bind_Ret.
    rewrite s32_small by lia. replace (Z.of_nat (length s) + Z.of_nat (length c)) with (Z.of_nat (length (s ++ c))) by (rewrite length_app; lia).
    destruct (IH b1 (s ++ c)) as (b2 & -> & Hl2 & Hr2); [lia|done|rewrite length_app; lia| |].
    { apply region_app; [done| |done]. apply Hf; [done|done|lia]. }
    exists b2. cbn [concat]. rewrite <- app_assoc in *. split; [done|]. split; [lia|done].
Qed.

Lemma lconcat_spec cs : Z.of_nat (length (concat cs)) < 2 ^ 31 ->
  lconcat (Int (Z.of_nat (length (concat cs))) :: map Str cs) = Ret (Some (concat cs, Z.of_nat (length (concat cs)))).
Proof.
  intros Hl. unfold lconcat. cbv zeta. rewrite s32_small by lia. set (n := Z.of_nat (length (concat cs))) in *.
  rewrite skynet_malloc_ok, bind_Ret by lia.
  destruct (concat_loop_spec n cs (replicate (Z.to_nat n) 0) []) as (b & E & Hlb & Hr); [rewrite length_replicate; lia|lia|cbn; lia|done|].
  change (Z.of_nat (length [])) with 0 in E. rewrite E, bind_Ret. cbn [app] in *. fold n. rewrite Z.eqb_refl. cbn [negb].
  rewrite length_replicate in Hlb. unfold region in Hr. rewrite drop_0, take_ge in Hr by lia. by rewrite Hr.
Qed.

Lemma all_parts_concat m : 1 <= Z.of_nat (length m) -> concat (map fst (all_parts m)) = m.
Proof.
  revert m. apply (parts_ind (fun m ps => concat (map fst ps) = m)).
  - intros m _. apply app_nil_r.
  - intros m c m' ps _ -> _ IH. cbn. by rewrite IH.
Qed.

(** The last part alone says that it is the last. *)
Lemma all_parts_last m : 1 <= Z.of_nat (length m) -> exists n, map snd (all_parts m) = replicate n false ++ [true].
Proof.
  revert m. apply (parts_ind (fun _ ps => exists n, map snd ps = replicate n false ++ [true])).
  - by exists O.
  - intros _ c m' ps _ _ _ [n IH]. exists (S n). cbn. by rewrite IH.
Qed.

Lemma all_parts_small m : 1 <= Z.of_nat (length m) -> Forall (fun p => Z.of_nat (length (fst p)) <= MULTI_PART) (all_parts m).
Proof.
  revert m. apply (parts_ind (fun _ ps => Forall (fun p => Z.of_nat (length (fst p)) <= MULTI_PART) ps)).
  - intros m Hm. apply Forall_singleton. cbn. lia.
  - intros _ c m' ps Hc _ _ IH. apply Forall_cons. cbn. split; [lia|done].
Qed.

(** A size of [2 ^ 32 - 1], as a peer can announce it, makes an empty block: what is
    joined is written behind it. *)
Lemma lconcat_overflow s t : s <> [] -> Z.of_nat (length s) < 2 ^ 31 -> lconcat (Int (2 ^ 32 - 1) :: Str s :: t) = Undefined.
Proof.
  intros Hs Hl. unfold lconcat. cbv zeta. change (s32 (2 ^ 32 - 1)) with (-1). change (skynet_malloc (-1)) with (Ret ([] : bytes)).
  rewrite bind_Ret. cbn [concat_loop]. change (u64 0) with 0. change (u64 (-1)) with (2 ^ 64 - 1). rewrite u64_small, (proj2 (Z.ltb_ge _ _)) by lia.
  unfold memcpy. rewrite (proj2 (Z.ltb_ge _ 0)) by lia. cbn [orb]. change (0 <? 0) with false. cbn [orb].
  rewrite (proj2 (Z.ltb_lt (Z.of_nat (length []) ) _)); [done|]. destruct s; [done|cbn; lia].
Qed.

(** ** Requests and responses *)

(** The service that a request is for. *)
Definition addr_value (a : lua_addr) : option lua_arg :=
  match a with
  | AddrNumber n => if bool_decide (word 32 n) then Some (Int n) else None
  | AddrOther (Some name) => if bool_decide (1 <= Z.of_nat (length name) <= 255) then Some (Str name) else None
  | AddrOther None => None
  end.

(** Parts that unpack to [cs], each with what says whether more follow, and that
    join to [m]. *)
Definition parts_of (unpack : bytes -> outcome (list lua_arg)) (results : bytes -> bool -> list lua_arg)
    (packets : list bytes) (m : bytes) : Prop :=
  exists bodies cs n, packets = map frame bodies /\ Forall (fun b => Z.of_nat (length b) < 2 ^ 16) bodies /\
    map snd cs = replicate n false ++ [true] /\
    Forall2 (fun b p => unpack b = Ret (results (fst p) (negb (snd p)))) bodies cs /\
    lconcat (Int (Z.of_nat (length m)) :: map Str (map fst cs)) = Ret (Some (m, Z.of_nat (length m))).

Lemma all_parts_of unpack results (body : bytes * bool -> bytes) m : 1 <= Z.of_nat (length m) < 2 ^ 31 ->
  (forall c last, Z.of_nat (length c) <= MULTI_PART ->
    Z.of_nat (length (body (c, last))) < 2 ^ 16 /\ unpack (body (c, last)) = Ret (results c (negb last))) ->
  parts_of unpack results (map (fun p => frame (body p)) (all_parts m)) m.
Proof.
  intros Hm Hb. destruct (all_parts_last m) as [n Hn]; [lia|]. pose proof (all_parts_small m ltac:(lia)) as Hs.
  exists (map body (all_parts m)), (all_parts m), n. split; [by rewrite map_map|]. split; [|split; [done|split]].
  - apply Forall_map. eapply Forall_impl; [exact Hs|]. intros [c l] Hc. by apply Hb.
  - clear Hn. induction Hs as [|[c l] ps Hc Hs IH]; cbn [map]; [constructor|]. constructor; [by apply Hb|done].
  - pose proof (lconcat_spec (map fst (all_parts m))) as Hc. rewrite all_parts_concat in Hc by lia. apply Hc. lia.
Qed.

(** The first packet, and the number of parts that follow. *)
Lemma packreq_first temp addr v session m push :
  Z.of_nat (length temp) = TEMP_LENGTH -> addr_value addr = Some v -> 1 <= session < 2 ^ 31 -> Z.of_nat (length m) < 2 ^ 31 ->
  exists body, match addr with
      | AddrNumber n => packreq_number temp n session m (Z.of_nat (length m)) push
      | AddrOther name => packreq_string temp name session m (Z.of_nat (length m)) push
      end = Ret (frame body, if Z.of_nat (length m) <? MULTI_PART then 0 else (Z.of_nat (length m) - 1) / MULTI_PART + 1) /\
    Z.of_nat (length body) < 2 ^ 16 /\
    if Z.of_nat (length m) <? MULTI_PART then
      lunpackrequest body = Ret ([v; Int (if push then 0 else session); Str m] ++ if push then [Nil; Bool true] else [])
    else lunpackrequest body = Ret [v; Int session; Int (Z.of_nat (length m)); Bool true; Bool push].
Proof.
  intros Ht Hv Hs Hm. assert (Hw : word 32 session) by (split; lia).
  assert (Hr : push_results (if push then 0 else session) = if push then [Nil; Bool true] else []).
  { unfold push_results. destruct push; [done|]. by rewrite (proj2 (Z.eqb_neq session 0)) by lia. }
  assert (Hw' : word 32 (if push then 0 else session)) by (destruct push; [split; lia|done]).
  assert (Hz : word 32 (Z.of_nat (length m))) by (split; lia).
  destruct addr as [n|[name|]]; cbn [addr_value] in Hv; [| |done].
  - destruct (bool_decide_reflect (word 32 n)) as [Hn|]; [injection Hv as <-|done]. rewrite packreq_number_spec by done.
    rewrite !(u32_small n), (u32_small session) by (apply Hn || apply Hw).
    destruct (Z.ltb_spec (Z.of_nat (length m)) MULTI_PART) as [Hlt|Hge]; (eexists; split; [reflexivity|]);
      rewrite !length_app, !length_le32; unfold MULTI_PART in *; cbn [length]; (split; [lia|]).
    + rewrite unpackreq_number_spec, Hr by done. done.
    + by apply unpackmreq_number_spec.
  - destruct (bool_decide_reflect (1 <= Z.of_nat (length name) <= 255)) as [Hn|]; [injection Hv as <-|done].
    rewrite packreq_string_spec by done. rewrite (u32_small session) by apply Hw.
    destruct (Z.ltb_spec (Z.of_nat (length m)) MULTI_PART) as [Hlt|Hge]; (eexists; split; [reflexivity|]);
      rewrite !length_app, !length_le32; unfold MULTI_PART in *; cbn [length]; (split; [lia|]).
    + rewrite unpackreq_string_spec, Hr by done. done.
    + by apply unpackmreq_string_spec.
Qed.

(** C18: a request or a push, with the number or the name of a service, arrives as
    it was sent: a short message in one packet; a message of 32K or more as its
    size, in a first packet, and parts that join to it. Every packet is what
    netpack cuts out of a stream. *)
Theorem request_roundtrip temp addr v session m push :
  Z.of_nat (length temp) = TEMP_LENGTH -> addr_value addr = Some v -> 1 <= session < 2 ^ 31 -> Z.of_nat (length m) < 2 ^ 31 ->
  exists body packets,
    packrequest temp addr session (Some m) (Z.of_nat (length m)) push =
      Ret (frame body, if session =? INT32_MAX then 1 else session + 1, packets) /\
    Z.of_nat (length body) < 2 ^ 16 /\
    match packets with
    | None => Z.of_nat (length m) < MULTI_PART /\
        lunpackrequest body = Ret ([v; Int (if push then 0 else session); Str m] ++ if push then [Nil; Bool true] else [])
    | Some packets => MULTI_PART <= Z.of_nat (length m) /\
        lunpackrequest body = Ret [v; Int session; Int (Z.of_nat (length m)); Bool true; Bool push] /\
        parts_of lunpackrequest (fun c padding => [Bool false; Int session; Str c; Bool padding]) packets m
    end.
Proof.
  intros Ht Hv Hs Hm. unfold packrequest. cbv zeta. rewrite (u32_small (Z.of_nat _)), s32_small, (u32_small session) by lia.
  rewrite (proj2 (Z.leb_gt session 0)) by lia.
  assert (Hnew : (if INT32_MAX <? u32 (session + 1) then 1 else u32 (session + 1)) = if session =? INT32_MAX then 1 else session + 1).
  { rewrite u32_small by lia. unfold INT32_MAX. destruct (Z.ltb_spec 2147483647 (session + 1)), (Z.eqb_spec session 2147483647); lia. }
  rewrite Hnew. clear Hnew. set (next := if session =? INT32_MAX then 1 else session + 1).
  assert (Hw : word 32 session) by (split; lia).
  destruct (packreq_first temp addr v session m push Ht Hv Hs Hm) as (body & -> & Hl & Hb). rewrite bind_Ret. exists body.
  destruct (Z.ltb_spec (Z.of_nat (length m)) MULTI_PART) as [Hlt|Hge].
  - exists None. done.
  - assert (0 <= (Z.of_nat (length m) - 1) / MULTI_PART) by (apply Z.div_pos; unfold MULTI_PART in *; lia).
    rewrite (proj2 (Z.eqb_neq _ 0)) by lia. cbn [negb]. unfold packreq_multi. cbv zeta.
    rewrite multi_loop_spec, bind_Ret by (done || unfold MULTI_PART in *; lia). eexists (Some _). split; [reflexivity|].
    split; [done|]. split; [done|]. split; [done|]. apply all_parts_of; [unfold MULTI_PART in *; lia|].
    intros c l Hc. unfold part_body. cbn [fst snd]. rewrite u32_small by lia. split; [rewrite !length_app, length_le32; unfold MULTI_PART in *; cbn; lia|].
    by apply unpackmreq_part_spec.
Qed.

Lemma request_roundtrip_witness : exists body packets,
  packrequest (replicate (Z.to_nat TEMP_LENGTH) 7) (AddrOther (Some [100; 98])) (2 ^ 31 - 1) (Some (replicate (Z.to_nat 100000) 9)) 100000 true =
    Ret (frame body, 1, packets) /\ Z.of_nat (length body) < 2 ^ 16.
Proof.
  destruct (request_roundtrip (replicate (Z.to_nat TEMP_LENGTH) 7) (AddrOther (Some [100; 98])) (Str [100; 98]) (2 ^ 31 - 1)
    (replicate (Z.to_nat 100000) 9) true) as (body & packets & E & Hl & _).
  - rewrite length_replicate. unfold TEMP_LENGTH. lia.
  - reflexivity.
  - lia.
  - rewrite length_replicate. lia.
  - exists body, packets. rewrite length_replicate, Z2Nat.id in E by lia. change (2 ^ 31 - 1 =? INT32_MAX) with true in E. split; [exact E|exact Hl].
Defined.

(** C29: a response arrives as it was sent: an error, cut to 32K, or a message in
    one packet, and a message of more than 32K as its size and parts that join to
    it. *)
Theorem response_roundtrip temp session ok msg m : Z.of_nat (length temp) = TEMP_LENGTH -> word 32 session ->
  Z.of_nat (length m) < 2 ^ 31 -> msg = MsgString m \/ msg = MsgPointer m (Z.of_nat (length m)) ->
  if ok && (MULTI_PART <? Z.of_nat (length m)) then
    exists body packets, lpackresponse temp session ok msg = Ret (inr (frame body :: packets)) /\ Z.of_nat (length body) < 2 ^ 16 /\
      lunpackresponse body = Ret [Int session; Bool true; Int (Z.of_nat (length m)); Bool true] /\
      parts_of lunpackresponse (fun c padding => [Int session; Bool true; Str c] ++ if padding then [Bool true] else []) packets m
  else
    exists body, lpackresponse temp session ok msg = Ret (inl (frame body)) /\ Z.of_nat (length body) < 2 ^ 16 /\
      lunpackresponse body = Ret [Int session; Bool ok; Str (if ok then m else take (Z.to_nat MULTI_PART) m)].
Proof.
  intros Ht Hw Hm Hmsg. assert (Hpair : (match msg with MsgString s => (s, Z.of_nat (length s)) | MsgPointer p sz => (p, u64 sz) end)
    = (m, Z.of_nat (length m))) by (destruct Hmsg as [->| ->]; [done|by rewrite u64_small by lia]).
  assert (Hz : word 32 (Z.of_nat (length m))) by (split; lia).
  unfold lpackresponse. rewrite Hpair. cbv beta iota zeta. rewrite (u32_small session) by apply Hw. clear Hpair Hmsg.
  pose proof (region_nil temp). unfold TEMP_LENGTH in Ht.
  destruct (ok && (MULTI_PART <? Z.of_nat (length m))) eqn:E.
  - apply andb_prop in E as [-> E%Z.ltb_lt]. rewrite (u32_small (Z.of_nat _)) by lia.
    assert (0 <= (Z.of_nat (length m) - 1) / MULTI_PART < 2 ^ 30).
    { unfold MULTI_PART in *. split; [apply Z.div_pos; lia|apply Z.div_lt_upper_bound; lia]. }
    exists (le32 session ++ [2] ++ le32 (Z.of_nat (length m))), (map (fun p => frame (response_body session p)) (all_parts m)).
    split; [|split; [done|split; [by apply unpackresponse_begin|]]].
    + append fill_header_writes. append fill_uint32_writes. append set_byte_writes. append fill_uint32_writes.
      push_packet_as (le32 session ++ [2] ++ le32 (Z.of_nat (length m))). rewrite s32_small by lia.
      rewrite response_loop_spec, bind_Ret by (unfold MULTI_PART, TEMP_LENGTH in *; lia). done.
    + apply all_parts_of; [unfold MULTI_PART in *; lia|]. intros c l Hc. unfold response_body. cbn [fst snd].
      split; [rewrite !length_app, length_le32; unfold MULTI_PART in *; cbn; lia|].
      rewrite unpackresponse_spec by (done || (destruct l; tauto)). by destruct l.
  - set (m' := if ok then m else take (Z.to_nat MULTI_PART) m).
    assert (Hsz : (if negb ok && (MULTI_PART <? Z.of_nat (length m)) then MULTI_PART else Z.of_nat (length m)) = Z.of_nat (length m') /\
      Z.of_nat (length m') <= MULTI_PART /\ exists r, m = m' ++ r).
    { unfold m'. destruct ok; cbn [andb negb] in *.
      - apply Z.ltb_ge in E. split; [done|]. split; [done|]. exists []. by rewrite app_nil_r.
      - rewrite length_take. split; [destruct (Z.ltb_spec MULTI_PART (Z.of_nat (length m))); unfold MULTI_PART in *; lia|].
        split; [unfold MULTI_PART; lia|]. exists (drop (Z.to_nat MULTI_PART) m). by rewrite take_drop. }
    destruct Hsz as (-> & Hle & r & Hmr). exists (le32 session ++ [if ok then 1 else 0] ++ m').
    unfold MULTI_PART in *. split; [|split].
    + append fill_header_writes. append fill_uint32_writes. append set_byte_writes.
      assert (Hwr : writes (memcpy buf1 7 m (Z.of_nat (length m'))) buf1 7 m').
      { pose proof (memcpy_writes buf1 7 m (Z.of_nat (length m'))) as Hwr. rewrite Hmr, Nat2Z.id, take_app_length in Hwr. rewrite Hmr.
        apply Hwr; rewrite ?length_app; lia. }
      append Hwr. push_packet_as (le32 session ++ [if ok then 1 else 0] ++ m'). done.
    + rewrite !length_app, length_le32. cbn. lia.
    + rewrite unpackresponse_spec by (done || (destruct ok; tauto)). by destruct ok.
Qed.

Lemma response_roundtrip_witness : exists body packets,
  lpackresponse (replicate (Z.to_nat TEMP_LENGTH) 7) 77 true (MsgString (replicate (Z.to_nat 100000) 9)) = Ret (inr (frame body :: packets)) /\
  lunpackresponse body = Ret [Int 77; Bool true; Int 100000; Bool true].
Proof.
  pose proof (response_roundtrip (replicate (Z.to_nat TEMP_LENGTH) 7) 77 true (MsgString (replicate (Z.to_nat 100000) 9)) (replicate (Z.to_nat 100000) 9)) as H.
  rewrite !length_replicate, !Z2Nat.id in H by (unfold TEMP_LENGTH; lia). change (true && (MULTI_PART <? 100000)) with true in H. cbv iota in H.
  destruct H as (body & packets & E & _ & Hu & _); [done|split; lia|lia|by left|]. exists body, packets. split; [exact E|exact Hu].
Defined.

(** ** Any string *)

Section any.
Context (str : bytes).
Hypothesis Hstr : is_bytes str.
Hypothesis Hlen : Z.of_nat (length str) < 2 ^ 31.

(** The string with the zero byte behind it. *)
Let buf := str ++ [0].

Lemma get_byte_ends i : 0 <= i <= Z.of_nat (length str) -> ends (get_byte buf i) (word 8).
Proof.
  intros Hi. unfold get_byte. rewrite (proj2 (Z.ltb_ge _ 0)) by lia.
  destruct (lookup_lt_is_Some_2 buf (Z.to_nat i)) as [x Hx]; [unfold buf; rewrite length_app; cbn; lia|]. rewrite Hx. cbn.
  assert (Hb : is_bytes buf) by (apply Forall_app; split; [done|by repeat constructor]).
  exact (proj1 (Forall_lookup _ _) Hb _ _ Hx).
Qed.

Lemma unpack_uint32_ends i : 0 <= i -> i + 3 <= Z.of_nat (length str) -> ends (unpack_uint32 buf i) (fun _ => True).
Proof.
  intros Hi Hl. unfold unpack_uint32. repeat (eapply ends_bind; [apply get_byte_ends; lia|intros ? _]). done.
Qed.

Lemma pushlstring_ends i n : 0 <= i -> 0 <= n -> i + n <= Z.of_nat (length str) -> ends (pushlstring buf i n) (fun _ => True).
Proof.
  intros Hi Hn Hl. unfold pushlstring. rewrite (proj2 (Z.ltb_ge i 0)), (proj2 (Z.ltb_ge n 0)), (proj2 (Z.ltb_ge _ (i + n))); [done|..|done|done].
  unfold buf. rewrite length_app. cbn. lia.
Qed.

Ltac any_reads :=
  repeat match goal with
  | |- ends (mbind _ (unpack_uint32 _ _)) _ => eapply ends_bind; [apply unpack_uint32_ends; lia|intros ? _]
  | |- ends (mbind _ (pushlstring _ _ _)) _ => eapply ends_bind; [apply pushlstring_ends; lia|intros ? _]
  | |- ends (mbind _ (get_byte _ _)) _ => eapply ends_bind; [apply get_byte_ends; lia|let H := fresh "Hb" in intros ? H; unfold word in H]
  | |- ends (if ?a <? ?b then _ else _) _ => destruct (Z.ltb_spec a b); [exact I|]
  | |- ends (if negb (?a =? ?b) then _ else _) _ => destruct (Z.eqb_spec a b); cbn [negb]; [|exact I]
  | |- ends (if ?b then _ else _) _ => destruct b
  | |- ends _ _ => exact I
  end.

Lemma lunpackrequest_ends : ends (lunpackrequest str) (fun _ => True).
Proof.
  unfold lunpackrequest. fold buf. cbv zeta. rewrite s32_small by lia.
  unfold unpackreq_number, unpackmreq_number, unpackmreq_part, unpackreq_string, unpackmreq_string. any_reads.
Qed.

Lemma lunpackresponse_ends : ends (lunpackresponse str) (fun _ => True).
Proof. unfold lunpackresponse. fold buf. cbv zeta. any_reads. Qed.
End any.

(** C37: whatever string a peer sends, unpacking it as a request or as a response
    reads nothing outside of the string: it gives values or an error of Lua. *)
Theorem unpack_in_bounds str : is_bytes str -> Z.of_nat (length str) < 2 ^ 31 ->
  lunpackrequest str <> Undefined /\ lunpackresponse str <> Undefined.
Proof.
  intros Hb Hl. pose proof (lunpackrequest_ends str Hb Hl) as H1. pose proof (lunpackresponse_ends str Hb) as H2.
  split; intros E; [by rewrite E in H1|by rewrite E in H2].
Qed.

Lemma unpack_in_bounds_witness : lunpackrequest [0x81; 200; 1; 2] <> Undefined /\ lunpackresponse [0x81; 200; 1; 2] <> Undefined.
Proof. apply unpack_in_bounds; [by apply (all_words_ok 8)|cbn; lia]. Defined.
