(* ===== verification/Locks.v ===== *)
(** The locks of [skynet-src/rwlock.h] and [skynet-src/spinlock.h] under every
    interleaving of their atomic operations: who can hold them together, and that
    a writer who waits gets the lock. *)
From S2P Require Import Prelude.

(** ** Sums over threads *)

Fixpoint total {A} (f : A -> Z) (l : list A) : Z := match l with [] => 0 | x :: l => f x + total f l end.

Lemma total_insert {A} (f : A -> Z) l i x y : l !! i = Some x -> total f (<[i := y]> l) = total f l - f x + f y.
Proof.
  revert i. induction l as [|z l IH]; intros [|i] Hi; try done.
  - injection Hi as ->. change (<[0%nat := y]> (x :: l)) with (y :: l). cbn [total]. lia.
  - change (<[S i := y]> (z :: l)) with (z :: <[i := y]> l). cbn [total]. rewrite (IH i Hi). lia.
Qed.

Lemma total_nonneg {A} (f : A -> Z) l : (forall x, 0 <= f x) -> 0 <= total f l.
Proof. intros Hf. induction l as [|x l IH]; cbn; [done|]. specialize (Hf x). lia. Qed.

Lemma total_le {A} (f g : A -> Z) l : (forall x, f x <= g x) -> total f l <= total g l.
Proof. intros Hf. induction l as [|x l IH]; cbn; [done|]. specialize (Hf x). lia. Qed.

Lemma total_bound {A} (f : A -> Z) l c : (forall x, f x <= c) -> total f l <= c * Z.of_nat (length l).
Proof. intros Hf. induction l as [|x l IH]; cbn [total length]; [lia|]. specialize (Hf x). lia. Qed.

Lemma total_lookup {A} (f : A -> Z) l i x : (forall x, 0 <= f x) -> l !! i = Some x -> f x <= total f l.
Proof.
  intros Hf. revert i. induction l as [|z l IH]; intros [|i] Hi; cbn in *; try done.
  - injection Hi as ->. pose proof (total_nonneg f l Hf). lia.
  - specialize (IH i Hi). specialize (Hf z). lia.
Qed.

Lemma total_pair {A} (f : A -> Z) l i j x y : (forall x, 0 <= f x) -> i <> j -> l !! i = Some x -> l !! j = Some y ->
  f x + f y <= total f l.
Proof.
  intros Hf. revert i j. induction l as [|z l IH]; intros [|i] [|j] Hij Hi Hj; cbn in *; try done.
  - injection Hi as ->. pose proof (total_lookup f l j y Hf Hj). lia.
  - injection Hj as ->. pose proof (total_lookup f l i x Hf Hi). lia.
  - specialize (IH i j ltac:(congruence) Hi Hj). specialize (Hf z). lia.
Qed.

Lemma total_zero {A} (f : A -> Z) l : (forall x, 0 <= f x) -> total f l <> 0 -> exists i x, l !! i = Some x /\ 0 < f x.
Proof.
  intros Hf. induction l as [|x l IH]; cbn; [done|]. intros Hne. destruct (Z.eq_dec (f x) 0) as [E|].
  - destruct IH as (i & y & Hy); [lia|]. by exists (S i), y.
  - exists O, x. split; [done|]. specialize (Hf x). lia.
Qed.

(** ** The readers-writer lock *)

Module Rw.
Record rwlock := Rwlock { write : Z; read : Z }.

Definition rwlock_init : rwlock := Rwlock 0 0.

(** Where a thread is: outside, in the loops of [rwlock_rlock] and
    [rwlock_wlock], or between lock and unlock. *)
Inductive pc :=
  | Idle
  | RWait        (* while(lock->write) *)
  | RAdd         (* __sync_add_and_fetch(&lock->read,1) *)
  | RCheck       (* if (lock->write) *)
  | RBack        (* __sync_sub_and_fetch(&lock->read,1) *)
  | Reading
  | WSet         (* while (__sync_lock_test_and_set(&lock->write,1)) *)
  | WWait        (* while(lock->read) *)
  | Writing.

Inductive call := CallRead | CallWrite.

(** The steps of rwlock_rlock. *)
Definition rlock_step (p : pc) (l : rwlock) : pc * rwlock :=
  match p with
  | RWait => (if negb (write l =? 0) then RWait else RAdd, l)
  | RAdd => (RCheck, Rwlock (write l) (read l + 1))
  | RCheck => (if negb (write l =? 0) then RBack else Reading, l)
  | RBack => (RWait, Rwlock (write l) (read l - 1))
  | _ => (p, l)
  end.

Definition wlock_step (p : pc) (l : rwlock) : pc * rwlock :=
  match p with
  | WSet => (if negb (write l =? 0) then WSet else WWait, Rwlock 1 (read l))
  | WWait => (if negb (read l =? 0) then WWait else Writing, l)
  | _ => (p, l)
  end.

Definition rwlock_runlock (l : rwlock) : rwlock := Rwlock (write l) (read l - 1).
Definition rwlock_wunlock (l : rwlock) : rwlock := Rwlock 0 (read l).

(** The next operation of a thread; [c] is what it calls if it is idle. *)
Definition next (c : call) (p : pc) (l : rwlock) : pc * rwlock :=
  match p with
  | Idle => (match c with CallRead => RWait | CallWrite => WSet end, l)
  | Reading => (Idle, rwlock_runlock l)
  | Writing => (Idle, rwlock_wunlock l)
  | RWait | RAdd | RCheck | RBack => rlock_step p l
  | WSet | WWait => wlock_step p l
  end.

(** The lock and its threads. *)
Record state := State { lock : rwlock; threads : list pc }.

Definition init (n : nat) : state := State rwlock_init (replicate n Idle).

(** Thread [i] makes a step. *)
Inductive step : state -> nat -> state -> Prop :=
  | Step l ts i c p : ts !! i = Some p ->
      step (State l ts) i (State (next c p l).2 (<[i := (next c p l).1]> ts)).

Inductive reachable (n : nat) : state -> Prop :=
  | Reach_init : reachable n (init n)
  | Reach_step s i s' : reachable n s -> step s i s' -> reachable n s'.

(** *** The invariant *)

Definition counted (p : pc) : Z := match p with RCheck | RBack | Reading => 1 | _ => 0 end.
Definition claims (p : pc) : Z := match p with WWait | Writing => 1 | _ => 0 end.
Definition reading (p : pc) : Z := match p with Reading => 1 | _ => 0 end.
Definition writing (p : pc) : Z := match p with Writing => 1 | _ => 0 end.

Lemma counts_nonneg p : 0 <= counted p /\ 0 <= claims p /\ 0 <= reading p /\ 0 <= writing p.
Proof. destruct p; cbn; lia. Qed.

Record inv (s : state) : Prop := {
  inv_read : read (lock s) = total counted (threads s);
  inv_write : write (lock s) = total claims (threads s);
  inv_one : total claims (threads s) <= 1;
  inv_excl : total writing (threads s) = 0 \/ total reading (threads s) = 0 }.

Lemma rw_inv_init n : inv (init n).
Proof.
  assert (H : forall f : pc -> Z, f Idle = 0 -> total f (replicate n Idle) = 0).
  { intros f Hf. induction n as [|n IH]; cbn; [done|]. rewrite Hf, IH. done. }
  split; cbn; rewrite ?H by done; lia.
Qed.

Lemma rw_inv_step s i s' : inv s -> step s i s' -> inv s'.
Proof.
  intros [Hr Hw H1 He] Hs. destruct Hs as [l ts i c p Hi]. cbn [lock threads] in *.
  assert (Hle : total reading ts <= total counted ts) by (apply total_le; intros []; cbn; lia).
  assert (Hwc : total writing ts <= total claims ts) by (apply total_le; intros []; cbn; lia).
  assert (H0 : forall f, f = counted \/ f = claims \/ f = reading \/ f = writing -> 0 <= total f ts /\ f p <= total f ts).
  { intros f Hf. assert (forall x, 0 <= f x) by (intros x; pose proof (counts_nonneg x); naive_solver).
    split; [by apply total_nonneg|by apply (total_lookup f ts i)]. }
  pose proof (H0 counted ltac:(auto)). pose proof (H0 claims ltac:(auto)). pose proof (H0 reading ltac:(auto)). pose proof (H0 writing ltac:(auto)).
  clear H0. destruct l as [w r]. cbn [write read] in *.
  split; cbn [lock threads]; rewrite ?(total_insert _ _ _ _ _ Hi);
    destruct p; cbn -[Z.sub Z.add total] in *; try (destruct c); try (destruct (Z.eqb_spec w 0)); try (destruct (Z.eqb_spec r 0)); cbn -[Z.sub Z.add total] in *; lia.
Qed.

Lemma reachable_inv n s : reachable n s -> inv s.
Proof. induction 1; [apply rw_inv_init|by eapply rw_inv_step]. Qed.

Lemma reachable_threads n s : reachable n s -> length (threads s) = n.
Proof. induction 1 as [|s i s' _ IH Hs]; [apply length_replicate|]. destruct Hs. cbn in *. by rewrite length_insert. Qed.


(** C31: however the steps of any number of threads interleave, a writer that holds
    the lock holds it alone: no other thread reads or writes; and the counter of
    readers stays between 0 and the number of threads. *)
Theorem rwlock_exclusion n s : reachable n s ->
  (forall i j p, threads s !! i = Some Writing -> threads s !! j = Some p -> p = Reading \/ p = Writing -> i = j) /\
  0 <= read (lock s) <= Z.of_nat n.
Proof.
  intros Hs. pose proof (reachable_inv n s Hs) as [Hr Hw H1 He]. pose proof (reachable_threads n s Hs) as Hn. split.
  - intros i j p Hi Hj Hp. destruct (decide (i = j)) as [|Hij]; [done|exfalso].
    assert (H0 : 1 <= total writing (threads s)).
    { apply (total_lookup writing _ i Writing); [apply counts_nonneg|done]. }
    destruct Hp as [->| ->].
    + assert (1 <= total reading (threads s)) by (apply (total_lookup reading _ j Reading); [apply counts_nonneg|done]). lia.
    + assert (claims Writing + claims Writing <= total claims (threads s)) by (apply (total_pair claims _ i j); [apply counts_nonneg|done..]).
      cbn in *. lia.
  - rewrite Hr, <- Hn. split; [apply total_nonneg; intros p; apply counts_nonneg|].
    rewrite <- (Z.mul_1_l (Z.of_nat _)). apply total_bound. intros []; cbn; lia.
Qed.

(** *** A writer that waits *)

(** The steps that a thread can make before it spins, while a writer waits. *)
Definition rank (p : pc) : Z :=
  match p with Reading => 5 | Idle => 4 | RAdd => 3 | RCheck => 2 | RBack => 1 | _ => 0 end.

(** [k] steps that change the state, thread [t] waiting to write all the time. *)
Inductive waits (t : nat) : state -> nat -> state -> Prop :=
  | Waits_O s : threads s !! t = Some WWait -> waits t s 0 s
  | Waits_S s i s1 k s2 : threads s !! t = Some WWait -> step s i s1 -> s1 <> s -> waits t s1 k s2 -> waits t s (S k) s2.

Lemma wait_step n s i s' t : reachable n s -> threads s !! t = Some WWait -> step s i s' -> s' <> s -> threads s' !! t = Some WWait ->
  total rank (threads s') <= total rank (threads s) - 1.
Proof.
  intros Hs Ht Hst Hne Ht'. pose proof (reachable_inv n s Hs) as [Hr Hw H1 He]. destruct Hst as [l ts i c p Hi]. cbn [lock threads] in *.
  assert (Hone : i <> t -> claims p = 0).
  { intros Hit. assert (claims p + claims WWait <= total claims ts) by (apply (total_pair claims _ i t); [apply counts_nonneg|done..]).
    pose proof (counts_nonneg p). cbn in *. lia. }
  assert (Hw1 : write l = 1).
  { assert (1 <= total claims ts) by (apply (total_lookup claims _ t WWait); [apply counts_nonneg|done]). lia. }
  destruct (decide (i = t)) as [->|Hit].
  { rewrite list_lookup_insert_eq in Ht' by (by eapply lookup_lt_Some). rewrite Ht in Hi. injection Hi as <-. cbn in *.
    destruct (negb (read l =? 0)); [|done]. destruct Hne. by rewrite list_insert_id. }
  rewrite (total_insert _ _ _ _ _ Hi). specialize (Hone Hit). destruct l as [w r]. cbn in Hw1. subst w.
  destruct p; try (cbn in Hone; lia); cbn -[Z.sub Z.add] in *; try (destruct c); cbn -[Z.sub Z.add] in *; try lia.
  all: destruct Hne; by rewrite list_insert_id.
Qed.

Lemma waits_bound n t s k s' : reachable n s -> waits t s k s' -> Z.of_nat k <= total rank (threads s).
Proof.
  intros Hs Hk. induction Hk as [s Ht|s i s1 k s2 Ht Hst Hne Hk IH].
  - apply total_nonneg. intros []; cbn; lia.
  - assert (Hs1 : reachable n s1) by (by eapply Reach_step).
    assert (Ht1 : threads s1 !! t = Some WWait) by (by destruct Hk).
    pose proof (wait_step n s i s1 t Hs Ht Hst Hne Ht1). specialize (IH Hs1). lia.
Qed.

(** The state is another one when the counter or the place of a thread is. *)
Lemma step_moves s i p : threads s !! i = Some p -> (next CallRead p (lock s)).1 <> p ->
  exists s', step s i s' /\ s' <> s.
Proof.
  intros Hi Hne. destruct s as [l ts]. cbn in *. eexists. split; [by apply (Step l ts i CallRead p)|].
  intros [= _ E]. apply Hne. pose proof (list_lookup_insert_eq ts i (next CallRead p l).1 (lookup_lt_Some _ _ _ Hi)) as Hx.
  rewrite E, Hi in Hx. by injection Hx.
Qed.

(** C27: a writer that has set the flag gets the lock: no more than 5n steps that
    change anything can pass while it waits for n threads, and as long as it waits
    some thread can make such a step; when the readers have left that is the writer,
    and the step gives it the lock. *)
Theorem rwlock_writer_progress n s t : reachable n s -> threads s !! t = Some WWait ->
  (forall k s', waits t s k s' -> (k <= 5 * n)%nat) /\
  (exists i s', step s i s' /\ s' <> s) /\
  (read (lock s) = 0 -> exists s', step s t s' /\ threads s' !! t = Some Writing).
Proof.
  intros Hs Ht. pose proof (reachable_inv n s Hs) as [Hr Hw H1 He]. split; [|split].
  - intros k s' Hk. pose proof (waits_bound n t s k s' Hs Hk).
    assert (total rank (threads s) <= 5 * Z.of_nat (length (threads s))) by (apply total_bound; intros []; cbn; lia).
    rewrite (reachable_threads n s Hs) in *. lia.
  - destruct (Z.eq_dec (read (lock s)) 0) as [E|E].
    + exists t. apply (step_moves s t WWait); [done|]. cbn. by rewrite E.
    + rewrite Hr in E. destruct (total_zero counted (threads s)) as (i & p & Hi & Hp); [apply counts_nonneg|done|].
      exists i. apply (step_moves s i p); [done|]. destruct p; cbn in *; try lia; try done. by destruct (negb _).
  - intros E. destruct s as [l ts]. cbn in *. eexists. split; [by apply (Step l ts t CallRead WWait)|]. cbn.
    rewrite E. cbn. apply list_lookup_insert_eq. by eapply lookup_lt_Some.
Qed.

(** *** A concrete run: a reader is inside, a writer has set the flag. *)

Definition demo : state := State (Rwlock 1 1) [Reading; WWait].

Lemma demo_reachable : reachable 2 demo.
Proof.
  assert (H : forall s i c p, reachable 2 s -> threads s !! i = Some p ->
    reachable 2 (State (next c p (lock s)).2 (<[i := (next c p (lock s)).1]> (threads s)))).
  { intros [l ts] i c p Hs Hi. eapply Reach_step; [exact Hs|]. by apply (Step l ts i c p). }
  pose proof (H _ 0%nat CallRead Idle (Reach_init 2) eq_refl) as H1. cbn in H1.
  pose proof (H _ 0%nat CallRead RWait H1 eq_refl) as H2. cbn in H2.
  pose proof (H _ 0%nat CallRead RAdd H2 eq_refl) as H3. cbn in H3.
  pose proof (H _ 0%nat CallRead RCheck H3 eq_refl) as H4. cbn in H4.
  pose proof (H _ 1%nat CallWrite Idle H4 eq_refl) as H5. cbn in H5.
  exact (H _ 1%nat CallRead WSet H5 eq_refl).
Qed.

Lemma rwlock_exclusion_witness :
  (forall i j p, threads demo !! i = Some Writing -> threads demo !! j = Some p -> p = Reading \/ p = Writing -> i = j) /\
  0 <= read (lock demo) <= 2.
Proof. exact (rwlock_exclusion 2 demo demo_reachable). Defined.

Lemma rwlock_writer_progress_witness :
  (forall k s', waits 1 demo k s' -> (k <= 10)%nat) /\ (exists i s', step demo i s' /\ s' <> demo) /\
  (read (lock demo) = 0 -> exists s', step demo 1 s' /\ threads s' !! 1%nat = Some Writing).
Proof. exact (rwlock_writer_progress 2 demo 1 demo_reachable eq_refl). Defined.
End Rw.

(** ** The spin lock *)

Module Spin.
Definition spinlock_init : Z := 0.

(** Outside, in the loop of [spinlock_lock], or between lock and unlock. *)
Inductive spin_pc := SIdle | Spinning | Holding.

(** What an idle thread calls. *)
Inductive spin_call := CallLock | CallTry.

(** [__sync_lock_test_and_set(&lock->lock,1)]: the old value and the new one. *)
Definition test_and_set (lock : Z) : Z * Z := (lock, 1).

Definition spinlock_lock (lock : Z) : spin_pc * Z :=
  let '(old, lock) := test_and_set lock in (if negb (old =? 0) then Spinning else Holding, lock).

Definition spinlock_trylock (lock : Z) : bool * Z :=
  let '(old, lock) := test_and_set lock in (old =? 0, lock).

Definition spinlock_unlock (lock : Z) : Z := 0.

Definition spin_next (c : spin_call) (p : spin_pc) (lock : Z) : spin_pc * Z :=
  match p with
  | SIdle =>
      match c with
      | CallLock => (Spinning, lock)
      | CallTry => let '(ok, lock) := spinlock_trylock lock in (if ok then Holding else SIdle, lock)
      end
  | Spinning => spinlock_lock lock
  | Holding => (SIdle, spinlock_unlock lock)
  end.

Inductive spin_step : Z * list spin_pc -> Z * list spin_pc -> Prop :=
  | Spin_Step lock ts i c p : ts !! i = Some p -> spin_step (lock, ts) ((spin_next c p lock).2, <[i := (spin_next c p lock).1]> ts).

Inductive spin_reachable (n : nat) : Z * list spin_pc -> Prop :=
  | Spin_init : spin_reachable n (spinlock_init, replicate n SIdle)
  | Spin_more s s' : spin_reachable n s -> spin_step s s' -> spin_reachable n s'.

Definition holding (p : spin_pc) : Z := match p with Holding => 1 | _ => 0 end.

Lemma holding_nonneg p : 0 <= holding p.
Proof. destruct p; cbn; lia. Qed.

Lemma spin_inv n s : spin_reachable n s -> s.1 = total holding s.2 /\ total holding s.2 <= 1.
Proof.
  induction 1 as [|s s' _ IH Hs]; cbn.
  - assert (total holding (replicate n SIdle) = 0) as -> by (induction n; cbn; lia). done.
  - destruct Hs as [lock ts i c p Hi]. cbn [fst snd] in *. rewrite (total_insert _ _ _ _ _ Hi).
    pose proof (total_lookup holding ts i p holding_nonneg Hi). pose proof (total_nonneg holding ts holding_nonneg).
    destruct p; try (destruct c); cbn -[Z.sub Z.add total] in *; unfold spinlock_unlock; destruct (Z.eqb_spec lock 0); cbn -[Z.sub Z.add total] in *; lia.
Qed.

(** Two threads never hold a spin lock together, whether they have got it by
    spinlock_lock or by spinlock_trylock; the lock is 1 exactly when it is held, and
    the next attempt on a lock that is not held succeeds. *)
Theorem spinlock_exclusion n lock ts : spin_reachable n (lock, ts) ->
  (forall i j, ts !! i = Some Holding -> ts !! j = Some Holding -> i = j) /\
  (lock = 0 /\ (forall i, ts !! i <> Some Holding) \/ lock = 1 /\ exists i, ts !! i = Some Holding) /\
  (lock = 0 -> spinlock_lock lock = (Holding, 1) /\ spinlock_trylock lock = (true, 1)).
Proof.
  intros Hs. destruct (spin_inv n _ Hs) as [Hl H1]. cbn [fst snd] in *. split; [|split].
  - intros i j Hi Hj. destruct (decide (i = j)) as [|Hij]; [done|exfalso].
    pose proof (total_pair holding ts i j _ _ holding_nonneg Hij Hi Hj) as H. cbn in H. lia.
  - pose proof (total_nonneg holding ts holding_nonneg). destruct (Z.eq_dec lock 0) as [E|E]; [left|right].
    + split; [done|]. intros i Hi. pose proof (total_lookup holding ts i _ holding_nonneg Hi) as Hh. cbn in Hh. lia.
    + split; [lia|]. destruct (total_zero holding ts holding_nonneg) as (i & p & Hi & Hp); [lia|]. exists i. by destruct p; cbn in Hp; try lia.
  - by intros ->.
Qed.

Lemma demo_held : spin_reachable 2 (1, [Holding; SIdle]).
Proof.
  assert (H1 : spin_reachable 2 (0, [Spinning; SIdle])) by (eapply Spin_more; [apply Spin_init|]; by apply (Spin_Step 0 [SIdle; SIdle] 0 CallLock SIdle)).
  eapply Spin_more; [exact H1|]. by apply (Spin_Step 0 [Spinning; SIdle] 0 CallLock Spinning).
Qed.

Lemma spinlock_exclusion_witness : 1 = 0 /\ (forall i : nat, [Holding; SIdle] !! i <> Some Holding) \/ 1 = 1 /\ exists i : nat, [Holding; SIdle] !! i = Some Holding.
Proof. exact (proj1 (proj2 (spinlock_exclusion 2 1 [Holding; SIdle] demo_held))). Defined.
End Spin.
