(* ===== verification/Databuffer.v ===== *)
(** Buffers of received data, [service-src/databuffer.h]: messages linked in
    nodes that come from a pool, and the stream of bytes that they hold. *)
From S2P Require Import Prelude.

#[local] Arguments Z.mul : simpl never.

(** ** Data *)

Definition MESSAGEPOOL : nat := 1023.

(** A pointer to a message: a block of the pool, counted from the first one, and
    a place in its array. *)
Abbreviation ptr := (nat * nat)%type.

Record message := Message { m_buffer : option bytes; m_size : Z; m_next : option ptr }.

(** The fields [offset] and [size] of C are [db_offset] and [db_size]. *)
Record databuffer := DataBuffer { db_header : Z; db_offset : Z; db_size : Z; db_head : option ptr; db_tail : option ptr }.

(** The blocks of the pool, the oldest first, and the free nodes. *)
Record messagepool := MessagePool { mp_pool : list (list message); mp_freelist : option ptr }.

(** [memset(db, 0, sizeof( *db))] *)
Definition db_zero : databuffer := DataBuffer 0 0 0 None None.
Definition mp_zero : messagepool := MessagePool [] None.

(** [*m] *)
Definition get_message (mp : messagepool) (m : ptr) : outcome message := deref (mp_pool mp !! m.1 ≫= fun b => b !! m.2).

Definition set_message (mp : messagepool) (m : ptr) (x : message) : outcome messagepool :=
  _ ← get_message mp m;
  Ret (MessagePool (alter (fun b => <[m.2 := x]> b) m.1 (mp_pool mp)) (mp_freelist mp)).

Definition with_freelist (mp : messagepool) (f : option ptr) : messagepool := MessagePool (mp_pool mp) f.

(** ** Operations *)

Definition messagepool_free (pool : messagepool) : messagepool := MessagePool [] None.

Definition _return_message (db : databuffer) (mp : messagepool) : outcome (databuffer * messagepool) :=
  m ← deref (db_head db);
  x ← get_message mp m;
  db ← (match m_next x with
        | None =>
            _ ← assert_ (bool_decide (db_tail db = Some m));
            Ret (DataBuffer (db_header db) (db_offset db) (db_size db) None None)
        | Some next => Ret (DataBuffer (db_header db) (db_offset db) (db_size db) (Some next) (db_tail db))
        end);
  mp ← set_message mp m (Message None 0 (mp_freelist mp));
  Ret (db, with_freelist mp (Some m)).

(** [memcpy(buffer, current->buffer + off, n)] *)
Definition copy_out (b : option bytes) (off n : Z) : outcome bytes :=
  b ← deref b;
  if (off <? 0) || (n <? 0) || (Z.of_nat (length b) <? off + n) then Undefined
  else Ret (take (Z.to_nat n) (drop (Z.to_nat off) b)).

Definition with_offset (db : databuffer) (offset : Z) : databuffer :=
  DataBuffer (db_header db) offset (db_size db) (db_head db) (db_tail db).
Definition with_size (db : databuffer) (size : Z) : databuffer :=
  DataBuffer (db_header db) (db_offset db) size (db_head db) (db_tail db).
Definition with_header (db : databuffer) (header : Z) : databuffer :=
  DataBuffer header (db_offset db) (db_size db) (db_head db) (db_tail db).

(** [for (;;)]: every round but the last one returns a node. The bytes that are
    read come with the result. *)
Fixpoint read_loop (fuel : nat) (db : databuffer) (mp : messagepool) (sz : Z) : outcome (bytes * databuffer * messagepool) :=
  match fuel with
  | O => Undefined
  | S fuel =>
      current ← deref (db_head db);
      x ← get_message mp current;
      let bsz := m_size x - db_offset db in
      if sz <? bsz then
        s ← copy_out (m_buffer x) (db_offset db) sz;
        Ret (s, with_offset db (db_offset db + sz), mp)
      else if bsz =? sz then
        s ← copy_out (m_buffer x) (db_offset db) sz;
        '(db, mp) ← _return_message (with_offset db 0) mp;
        Ret (s, db, mp)
      else
        s ← copy_out (m_buffer x) (db_offset db) bsz;
        '(db, mp) ← _return_message db mp;
        '(rest, db, mp) ← read_loop fuel (with_offset db 0) mp (sz - bsz);
        Ret (s ++ rest, db, mp)
  end.

(** As many rounds as the pool has nodes. *)
Definition pool_nodes (mp : messagepool) : nat := length (concat (mp_pool mp)).

Definition databuffer_read (db : databuffer) (mp : messagepool) (sz : Z) : outcome (bytes * databuffer * messagepool) :=
  _ ← assert_ (sz <=? db_size db);
  read_loop (S (pool_nodes mp)) (with_size db (db_size db - sz)) mp sz.

(** The nodes of the new block [blk]; nothing is written in the first one ([junk]). *)
Definition new_block (junk : message) (blk : nat) : list message :=
  junk :: map (fun i => Message None 0 (if (i =? MESSAGEPOOL - 1)%nat then None else Some (blk, S i))) (seq 1 (MESSAGEPOOL - 1)).

Definition alloc_message (junk : message) (mp : messagepool) : outcome (ptr * messagepool) :=
  match mp_freelist mp with
  | Some m => x ← get_message mp m; Ret (m, with_freelist mp (m_next x))
  | None =>
      let blk := length (mp_pool mp) in
      Ret ((blk, O), MessagePool (mp_pool mp ++ [new_block junk blk]) (Some (blk, 1%nat)))
  end.

Definition databuffer_push (junk : message) (db : databuffer) (mp : messagepool) (data : bytes) (sz : Z)
    : outcome (databuffer * messagepool) :=
  '(m, mp) ← alloc_message junk mp;
  mp ← set_message mp m (Message (Some data) sz None);
  size ← int_ok (db_size db + sz);
  let db := with_size db size in
  match db_head db with
  | None =>
      _ ← assert_ (bool_decide (db_tail db = None));
      Ret (DataBuffer (db_header db) (db_offset db) (db_size db) (Some m) (Some m), mp)
  | Some _ =>
      tail ← deref (db_tail db);
      t ← get_message mp tail;
      mp ← set_message mp tail (Message (m_buffer t) (m_size t) (Some m));
      Ret (DataBuffer (db_header db) (db_offset db) (db_size db) (db_head db) (Some m), mp)
  end.

(** The bytes in big-endian order; the shift of the first of four may reach the
    sign bit of an [int]: it wraps. *)
Definition header_value (plen : bytes) (header_size : Z) : Z :=
  let b i := nth i plen 0 in
  if header_size =? 2 then Z.lor (Z.shiftl (b 0%nat) 8) (b 1%nat)
  else s32 (Z.lor (Z.lor (Z.lor (Z.shiftl (b 0%nat) 24) (Z.shiftl (b 1%nat) 16)) (Z.shiftl (b 2%nat) 8)) (b 3%nat)).

Definition databuffer_readheader (db : databuffer) (mp : messagepool) (header_size : Z) : outcome (Z * databuffer * messagepool) :=
  let result db mp : outcome (Z * databuffer * messagepool) := Ret (if db_size db <? db_header db then -1 else db_header db, db, mp) in
  if db_header db =? 0 then
    if db_size db <? header_size then Ret (-1, db, mp)
    else
      '(plen, db, mp) ← databuffer_read db mp header_size;
      result (with_header db (header_value plen header_size)) mp
  else result db mp.

Definition databuffer_reset (db : databuffer) : databuffer := with_header db 0.

(** [while (db->head)]: a node for every round. *)
Fixpoint clear_loop (fuel : nat) (db : databuffer) (mp : messagepool) : outcome messagepool :=
  match db_head db with
  | None => Ret mp
  | Some _ =>
      match fuel with
      | O => Undefined
      | S fuel => '(db, mp) ← _return_message db mp; clear_loop fuel db mp
      end
  end.

Definition databuffer_clear (db : databuffer) (mp : messagepool) : outcome (databuffer * messagepool) :=
  mp ← clear_loop (pool_nodes mp) db mp;
  Ret (db_zero, mp).
