(* ===== verification/DatabufferStream.v ===== *)
(** The buffers of received data as streams: reading gives the bytes in the order
    in which they were pushed, and the nodes of the pool are never shared. *)
From S2P Require Import Prelude Databuffer.

#[local] Arguments Z.mul : simpl never.

(** ** Nodes *)

Lemma get_set_eq mp mp' p x : set_message mp p x = Ret mp' -> get_message mp' p = Ret x.
Proof.
  unfold set_message. intros (y & Hy & [= <-])%outcome_bind_Ret. unfold get_message in *. cbn.
  destruct (mp_pool mp !! p.1) as [b|] eqn:Hb; cbn in Hy; [|done]. rewrite list_lookup_alter, decide_True, Hb by done. cbn.
  rewrite list_lookup_insert_eq; [done|]. destruct (b !! p.2) eqn:E; [|done]. by eapply lookup_lt_Some.
Qed.

Lemma get_set_ne mp mp' p q x : set_message mp p x = Ret mp' -> p <> q -> get_message mp' q = get_message mp q.
Proof.
  unfold set_message. intros (y & Hy & [= <-])%outcome_bind_Ret Hne. unfold get_message. cbn.
  rewrite list_lookup_alter. destruct (decide (p.1 = q.1)) as [E|E]; [|done]. rewrite <- E. destruct (mp_pool mp !! p.1) as [b|]; [|done].
  cbn. rewrite list_lookup_insert_ne; [done|]. intros E2. apply Hne. destruct p, q. cbn in *. congruence.
Qed.

Lemma set_Ret mp p x y : get_message mp p = Ret y -> exists mp', set_message mp p x = Ret mp' /\
  mp_freelist mp' = mp_freelist mp /\ map length (mp_pool mp') = map length (mp_pool mp).
Proof.
  intros Hy. unfold set_message. rewrite Hy, bind_Ret. eexists. split; [reflexivity|]. split; [done|]. cbn.
  apply list_eq. intros i. rewrite !list_lookup_fmap, list_lookup_alter. destruct (decide (p.1 = i)) as [->|]; [|done].
  destruct (mp_pool mp !! i); cbn; [|done]. by rewrite length_insert.
Qed.

Lemma get_with_freelist mp f p : get_message (with_freelist mp f) p = get_message mp p.
Proof. done. Qed.

(** Nodes that hold data, with the data, linked up from [p]. *)
Fixpoint linked (mp : messagepool) (p : option ptr) (nodes : list (ptr * bytes)) : Prop :=
  match nodes with
  | [] => p = None
  | (q, b) :: nodes => p = Some q /\
      exists next, get_message mp q = Ret (Message (Some b) (Z.of_nat (length b)) next) /\ linked mp next nodes
  end.

(** Free nodes. *)
Fixpoint free_list (mp : messagepool) (p : option ptr) (fl : list ptr) : Prop :=
  match fl with
  | [] => p = None
  | q :: fl => p = Some q /\ exists x, get_message mp q = Ret x /\ free_list mp (m_next x) fl
  end.

(** The nodes of [l] are the same. *)
Definition same (mp mp' : messagepool) (l : list ptr) : Prop := forall p, p ∈ l -> get_message mp' p = get_message mp p.

Lemma same_trans mp1 mp2 mp3 l : same mp1 mp2 l -> same mp2 mp3 l -> same mp1 mp3 l.
Proof. intros H1 H2 p Hp. by rewrite H2, H1. Qed.

Lemma same_sub mp mp' l k : (forall p, p ∈ k -> p ∈ l) -> same mp mp' l -> same mp mp' k.
Proof. intros H1 H2 p Hp. by apply H2, H1. Qed.

Lemma set_same mp mp' p x l : set_message mp p x = Ret mp' -> p ∉ l -> same mp mp' l.
Proof. intros Hs Hp q Hq. apply (get_set_ne _ _ _ _ _ Hs). by intros ->. Qed.

Lemma linked_same mp mp' p nodes : same mp mp' nodes.*1 -> linked mp p nodes -> linked mp' p nodes.
Proof.
  revert p. induction nodes as [|[q b] nodes IH]; cbn; intros p Hs; [done|]. intros (-> & next & Hq & Hl).
  split; [done|]. exists next. rewrite Hs by left. split; [done|]. apply IH; [|done]. eapply same_sub; [|exact Hs]. by right.
Qed.

Lemma free_same mp mp' p fl : same mp mp' fl -> free_list mp p fl -> free_list mp' p fl.
Proof.
  revert p. induction fl as [|q fl IH]; cbn; intros p Hs; [done|]. intros (-> & x & Hq & Hl).
  split; [done|]. exists x. rewrite Hs by left. split; [done|]. apply IH; [|done]. eapply same_sub; [|exact Hs]. by right.
Qed.

Definition valid (mp : messagepool) (p : ptr) : Prop := exists x, get_message mp p = Ret x.

Lemma valid_lengths mp mp' p : map length (mp_pool mp') = map length (mp_pool mp) -> valid mp p -> valid mp' p.
Proof.
  intros Hl [x Hx]. unfold valid, get_message in *. destruct (mp_pool mp !! p.1) as [b|] eqn:Hb; cbn in Hx; [|done].
  pose proof (f_equal (fun l => l !! p.1) Hl) as E. cbn in E. rewrite !list_lookup_fmap, Hb in E.
  destruct (mp_pool mp' !! p.1) as [b'|]; [|done]. cbn in *. injection E as E.
  destruct (b !! p.2) eqn:Hp; [|done]. apply lookup_lt_Some in Hp. rewrite <- E in Hp.
  apply lookup_lt_is_Some_2 in Hp as [y ->]. by exists y.
Qed.

(** The pool: its free nodes, and others in use. *)
Record pool_ok (mp : messagepool) (fl used : list ptr) : Prop := {
  po_free : free_list mp (mp_freelist mp) fl;
  po_nodup : NoDup (fl ++ used);
  po_valid : forall p, p ∈ fl ++ used -> valid mp p }.

(** Every pointer that there is. *)
Definition all_ptrs (mp : messagepool) : list ptr := concat (imap (fun i b => map (pair i) (seq 0 (length b))) (mp_pool mp)).

Lemma length_all_ptrs mp : length (all_ptrs mp) = pool_nodes mp.
Proof.
  unfold all_ptrs, pool_nodes. generalize (mp_pool mp) as bs. intros bs.
  assert (H : forall k, length (concat (imap (fun i (b : list message) => map (pair (k + i)%nat) (seq 0 (length b))) bs)) = length (concat bs)).
  { induction bs as [|b bs IH]; intros k; [done|]. rewrite imap_cons. cbn [concat]. rewrite !length_app, length_map, length_seq. f_equal.
    rewrite <- (IH (S k)). do 2 f_equal. apply imap_ext. intros i x _. cbn. by rewrite Nat.add_succ_r. }
  exact (H 0%nat).
Qed.

Lemma valid_all mp p : valid mp p -> p ∈ all_ptrs mp.
Proof.
  intros [x Hx]. unfold get_message in Hx. destruct (mp_pool mp !! p.1) as [b|] eqn:Hb; cbn in Hx; [|done].
  destruct (b !! p.2) eqn:Hp; [|done]. apply lookup_lt_Some in Hp. apply list_elem_of_In, in_concat.
  exists (map (pair p.1) (seq 0 (length b))). split.
  - apply list_elem_of_In, list_elem_of_lookup. exists p.1. by rewrite list_lookup_imap, Hb.
  - apply in_map_iff. exists p.2. split; [by destruct p|]. apply in_seq. lia.
Qed.

(** No more nodes are in use than there are. *)
Lemma used_bound mp fl used : pool_ok mp fl used -> (length used <= pool_nodes mp)%nat.
Proof.
  intros [_ Hn Hv]. rewrite <- length_all_ptrs. apply NoDup_app in Hn as (_ & _ & Hn).
  apply submseteq_length, NoDup_submseteq; [done|]. intros p Hp. apply valid_all, Hv, elem_of_app. by right.
Qed.

(** ** Returning and taking nodes *)

Lemma free_node mp fl q used : pool_ok mp fl (q :: used) ->
  exists mp', set_message mp q (Message None 0 (mp_freelist mp)) = Ret mp' /\
    pool_ok (with_freelist mp' (Some q)) (q :: fl) used /\ same mp mp' (fl ++ used).
Proof.
  intros [Hf Hn Hv]. destruct (Hv q) as [x Hx]; [apply elem_of_app; right; left|].
  destruct (set_Ret mp q (Message None 0 (mp_freelist mp)) x Hx) as (mp' & Hset & Hfl & Hlen). exists mp'. split; [done|].
  assert (Hq : q ∉ fl ++ used).
  { rewrite <- Permutation_middle in Hn. by apply NoDup_cons in Hn as [? _]. }
  pose proof (set_same _ _ _ _ _ Hset Hq) as Hs. split; [|done]. split.
  - cbn. split; [done|]. exists (Message None 0 (mp_freelist mp)). rewrite get_with_freelist, (get_set_eq _ _ _ _ Hset). split; [done|].
    cbn. apply (free_same mp); [|done]. eapply same_sub; [|exact Hs]. intros. apply elem_of_app. by left.
  - cbn. by rewrite Permutation_middle.
  - intros p Hp. apply (valid_lengths mp mp' p Hlen), Hv. rewrite <- Permutation_middle. exact Hp.
Qed.

(** A node from the pool, for a message with the data [b]. *)
Lemma alloc_node junk mp fl used b sz : pool_ok mp fl used ->
  exists q mp1 mp2 fl', alloc_message junk mp = Ret (q, mp1) /\
    set_message mp1 q (Message (Some b) sz None) = Ret mp2 /\ (q ∉ used) /\
    pool_ok mp2 fl' (q :: used) /\ same mp mp2 used /\ get_message mp2 q = Ret (Message (Some b) sz None).
Proof.
  intros [Hf Hn Hv]. unfold alloc_message.
  assert (Hgo : exists q mp1 x fl', match mp_freelist mp with
      | Some m => x ← get_message mp m; Ret (m, with_freelist mp (m_next x))
      | None => Ret ((length (mp_pool mp), O), MessagePool (mp_pool mp ++ [new_block junk (length (mp_pool mp))]) (Some (length (mp_pool mp), 1%nat)))
      end = Ret (q, mp1) /\ get_message mp1 q = Ret x /\ free_list mp1 (mp_freelist mp1) fl' /\ NoDup (q :: fl' ++ used) /\
      (forall p, p ∈ fl' ++ used -> valid mp1 p) /\ same mp mp1 used).
  { destruct fl as [|q fl].
    - cbn in Hf. rewrite Hf. set (blk := length (mp_pool mp)).
      set (mp1 := MessagePool (mp_pool mp ++ [new_block junk blk]) (Some (blk, 1%nat))).
      assert (Hlen : length (new_block junk blk) = MESSAGEPOOL) by (unfold new_block; cbn [length]; rewrite length_map, length_seq; done).
      assert (Hnew : forall i, get_message mp1 (blk, i) = deref (new_block junk blk !! i)).
      { intros i. unfold get_message. cbn [fst snd mp1 mp_pool]. unfold blk. by rewrite list_lookup_middle. }
      assert (Hold : forall p, valid mp p -> get_message mp1 p = get_message mp p /\ p.1 <> blk).
      { intros p [y Hy]. unfold get_message in *. cbn [mp1 mp_pool]. destruct (mp_pool mp !! p.1) as [bl|] eqn:E; [|done].
        split; [|apply lookup_lt_Some in E; unfold blk; lia]. by rewrite (lookup_app_l_Some _ _ _ _ E). }
      exists (blk, 0%nat), mp1, junk, (map (pair blk) (seq 1 (MESSAGEPOOL - 1))). split; [done|]. split; [by rewrite Hnew|].
      assert (Hvu : forall p, p ∈ used -> valid mp p) by (intros p Hp; apply Hv; done).
      assert (Hlook : forall i, (1 <= i < MESSAGEPOOL)%nat -> get_message mp1 (blk, i) =
          Ret (Message None 0 (if (i =? MESSAGEPOOL - 1)%nat then None else Some (blk, S i)))).
      { intros i Hi. rewrite Hnew. unfold new_block. destruct i as [|i]; [lia|]. change ((junk :: ?l) !! S i) with (l !! i).
        rewrite list_lookup_fmap, lookup_seq_lt by lia. cbn [fmap option_fmap option_map deref]. done. }
      split; [|split; [|split]].
      + cbn [mp1 mp_freelist]. assert (Hfr : forall n i, (1 <= i)%nat -> (i + S n = MESSAGEPOOL)%nat ->
            free_list mp1 (Some (blk, i)) (map (pair blk) (seq i (S n)))).
        { induction n as [|n IHn]; intros i Hi Hin.
          - cbn [seq map free_list]. split; [done|]. eexists. split; [apply Hlook; lia|]. cbn [m_next].
            rewrite (proj2 (Nat.eqb_eq i _)) by lia. done.
          - change (seq i (S (S n))) with (i :: seq (S i) (S n)). cbn [map free_list]. split; [done|]. eexists. split; [apply Hlook; lia|].
            cbn [m_next]. rewrite (proj2 (Nat.eqb_neq i _)) by lia. apply IHn; lia. }
        apply (Hfr (MESSAGEPOOL - 2)%nat 1%nat); unfold MESSAGEPOOL; lia.
      + assert (Hblk : forall p, p ∈ map (pair blk) (seq 1 (MESSAGEPOOL - 1)) -> p.1 = blk /\ (1 <= p.2 < MESSAGEPOOL)%nat).
        { intros p (i & -> & Hi)%list_elem_of_fmap. apply elem_of_seq in Hi. cbn [fst snd]. unfold MESSAGEPOOL in *. lia. }
        apply NoDup_cons. split.
        * intros [Hp|Hp]%elem_of_app; [apply Hblk in Hp as [_ Hp]; cbn in Hp; lia|]. by apply Hvu, Hold in Hp as [_ Hp].
        * apply NoDup_app. split; [apply NoDup_fmap; [intros ? ? [= ?]; done|apply NoDup_seq]|]. split; [|by apply NoDup_app in Hn as (_ & _ & ?)].
          intros p Hp Hu. apply Hblk in Hp as [Hp _]. by apply Hvu, Hold in Hu as [_ Hu].
      + intros p [Hp|Hp]%elem_of_app.
        * apply list_elem_of_fmap in Hp as (i & -> & Hi%elem_of_seq). unfold valid. rewrite Hlook by (unfold MESSAGEPOOL in *; lia). eauto.
        * apply Hvu in Hp as Hp'. destruct (Hold p Hp') as [E _]. unfold valid. by rewrite E.
      + intros p Hp. by apply Hold, Hvu.
    - cbn in Hf. destruct Hf as (-> & x & Hx & Hfl). exists q, (with_freelist mp (m_next x)), x, fl. rewrite Hx, bind_Ret.
      split; [done|]. split; [done|]. split; [by apply (free_same mp)|]. split; [exact Hn|]. split; [|done]. intros p Hp. apply Hv. by right. }
  destruct Hgo as (q & mp1 & x & fl' & Ha & Hx & Hfl & Hnd & Hval & Hsame).
  destruct (set_Ret mp1 q (Message (Some b) sz None) x Hx) as (mp2 & Hset & Hf2 & Hlen). exists q, mp1, mp2, fl'.
  apply NoDup_cons in Hnd as [Hq Hnd]. pose proof (set_same _ _ _ _ _ Hset Hq) as Hs.
  split; [done|]. split; [done|]. split; [intros Hu; apply Hq, elem_of_app; by right|]. split; [split|split].
  - rewrite Hf2. apply (free_same mp1); [|done]. eapply same_sub; [|exact Hs]. intros. apply elem_of_app. by left.
  - rewrite <- Permutation_middle. by apply NoDup_cons.
  - intros p Hp. apply (valid_lengths mp1 mp2 p Hlen). rewrite <- Permutation_middle in Hp.
    apply elem_of_cons in Hp as [->|Hp]; [by exists x|by apply Hval].
  - intros p Hp. rewrite (Hs p), (Hsame p Hp); [done|]. apply elem_of_app. by right.
  - by apply (get_set_eq _ _ _ _ Hset).
Qed.

(** ** Buffers *)

Definition first_length (nodes : list (ptr * bytes)) : Z := match nodes with [] => 0 | (_, b) :: _ => Z.of_nat (length b) end.

(** The nodes of a buffer, but for its size. *)
Record chain_ok (mp : messagepool) (db : databuffer) (nodes : list (ptr * bytes)) : Prop := {
  co_linked : linked mp (db_head db) nodes;
  co_tail : db_tail db = last nodes.*1;
  co_offset : 0 <= db_offset db <= first_length nodes }.

(** The bytes that are left. *)
Definition view (db : databuffer) (nodes : list (ptr * bytes)) : bytes := drop (Z.to_nat (db_offset db)) (concat nodes.*2).

Record db_ok (mp : messagepool) (db : databuffer) (nodes : list (ptr * bytes)) : Prop := {
  do_chain : chain_ok mp db nodes;
  do_size : db_size db = Z.of_nat (length (view db nodes)) }.

Lemma db_zero_ok mp : db_ok mp db_zero [].
Proof. split; [split|]; cbn; done || lia. Qed.

Lemma chain_same mp mp' db nodes : same mp mp' nodes.*1 -> chain_ok mp db nodes -> chain_ok mp' db nodes.
Proof. intros Hs [Hl Ht Ho]. split; [by apply (linked_same mp)|done..]. Qed.

Lemma db_same mp mp' db nodes : same mp mp' nodes.*1 -> db_ok mp db nodes -> db_ok mp' db nodes.
Proof. intros Hs [Hc Hz]. split; [by apply (chain_same mp)|done]. Qed.

Lemma linked_head mp p q b nodes : linked mp p ((q, b) :: nodes) -> p = Some q /\
  exists next, get_message mp q = Ret (Message (Some b) (Z.of_nat (length b)) next) /\ linked mp next nodes.
Proof. done. Qed.

(** The first node goes back to the pool. *)
Lemma return_spec mp fl db q b nodes others :
  linked mp (db_head db) ((q, b) :: nodes) -> db_tail db = last (q :: nodes.*1) -> pool_ok mp fl (q :: nodes.*1 ++ others) ->
  exists head mp' fl', _return_message db mp =
      Ret (DataBuffer (db_header db) (db_offset db) (db_size db) head (last nodes.*1), mp') /\
    linked mp' head nodes /\ pool_ok mp' fl' (nodes.*1 ++ others) /\ same mp mp' (nodes.*1 ++ others).
Proof.
  intros (Hh & next & Hq & Hl)%linked_head Ht Hp. unfold _return_message. rewrite Hh. cbn [deref]. rewrite bind_Ret, Hq, bind_Ret. cbn [m_next].
  destruct (free_node mp fl q (nodes.*1 ++ others) Hp) as (mp' & Hset & Hp' & Hs).
  assert (Hs1 : same mp (with_freelist mp' (Some q)) (nodes.*1 ++ others)).
  { eapply same_sub; [|exact Hs]. intros. apply elem_of_app. by right. }
  assert (Hl1 : linked (with_freelist mp' (Some q)) next nodes).
  { apply (linked_same mp); [|done]. eapply same_sub; [|exact Hs1]. intros. apply elem_of_app. by left. }
  exists next, (with_freelist mp' (Some q)), (q :: fl). split; [|done].
  destruct nodes as [|[q2 b2] nodes].
  - cbn in Hl. subst next. cbn in Ht. rewrite Ht, bool_decide_eq_true_2 by done. cbn [assert_]. rewrite bind_Ret.
    cbn [mbind outcome_bind]. rewrite Hset. done.
  - cbn in Hl. destruct Hl as [-> _]. rewrite bind_Ret, Hset, bind_Ret. do 3 f_equal. rewrite Ht. done.
Qed.

Lemma copy_out_Ret b off n : 0 <= off -> 0 <= n -> off + n <= Z.of_nat (length b) ->
  copy_out (Some b) off n = Ret (take (Z.to_nat n) (drop (Z.to_nat off) b)).
Proof.
  intros. unfold copy_out. cbn [deref]. rewrite bind_Ret, (proj2 (Z.ltb_ge off 0)), (proj2 (Z.ltb_ge n 0)), (proj2 (Z.ltb_ge _ (off + n))) by lia.
  done.
Qed.

(** What is left of a chain after reading [sz] bytes. *)
Definition rest_of (mp mp' : messagepool) (others : list ptr) (db db' : databuffer) (nodes : list (ptr * bytes)) (sz : Z) : Prop :=
  exists nodes' fl', chain_ok mp' db' nodes' /\ view db' nodes' = drop (Z.to_nat sz) (view db nodes) /\
    pool_ok mp' fl' (nodes'.*1 ++ others) /\ same mp mp' others /\ db_header db' = db_header db /\ db_size db' = db_size db.

Lemma read_loop_spec nodes : forall fuel db mp fl others sz,
  (length nodes <= fuel)%nat -> chain_ok mp db nodes -> pool_ok mp fl (nodes.*1 ++ others) ->
  0 < sz <= Z.of_nat (length (view db nodes)) ->
  exists db' mp', read_loop fuel db mp sz = Ret (take (Z.to_nat sz) (view db nodes), db', mp') /\ rest_of mp mp' others db db' nodes sz.
Proof.
  induction nodes as [|[q b] nodes IH]; intros fuel db mp fl others sz Hf [Hl Ht Ho] Hp Hsz.
  { unfold view in Hsz. cbn in Hsz. rewrite drop_nil in Hsz. cbn in Hsz. lia. }
  destruct fuel as [|fuel]; [cbn in Hf; lia|]. cbn [read_loop].
  pose proof Hl as (Hh & next & Hq & Hl')%linked_head. rewrite Hh. cbn [deref]. rewrite bind_Ret, Hq, bind_Ret. cbn [m_size m_buffer].
  cbn [first_length] in Ho. set (off := db_offset db) in *. set (b' := drop (Z.to_nat off) b).
  assert (Hview : view db ((q, b) :: nodes) = b' ++ concat nodes.*2) by (unfold view; cbn; by rewrite drop_app_le by lia).
  unfold rest_of. rewrite Hview in *. clear Hview. rewrite length_app in Hsz.
  assert (Hb' : Z.of_nat (length b') = Z.of_nat (length b) - off) by (unfold b'; rewrite length_drop; lia).
  destruct (Z.ltb_spec sz (Z.of_nat (length b) - off)) as [H1|H1]; [|destruct (Z.eqb_spec (Z.of_nat (length b) - off) sz) as [H2|H2]].
  - rewrite copy_out_Ret, bind_Ret by lia. eexists _, mp. split; [fold b'; by rewrite take_app_le by lia|].
    exists ((q, b) :: nodes), fl. split; [split; [exact Hl|exact Ht|cbn; lia]|]. split; [|done].
    unfold view. cbn [with_offset db_offset fmap list_fmap concat snd]. rewrite (drop_app_le b), (drop_app_le b') by lia.
    unfold b'. rewrite drop_drop. do 2 f_equal. lia.
  - rewrite copy_out_Ret, bind_Ret by lia. fold b'.
    destruct (return_spec mp fl (with_offset db 0) q b nodes others Hl Ht Hp) as (head & mp' & fl' & E & Hl2 & Hp2 & Hs2). rewrite E, bind_Ret.
    eexists _, mp'. split; [rewrite take_app_le by lia; reflexivity|]. exists nodes, fl'.
    split; [split; [exact Hl2|done|cbn; destruct nodes as [|[]]; cbn; lia]|]. split; [|split; [done|split; [|done]]].
    + unfold view. cbn [db_offset with_offset]. rewrite drop_0, drop_app_ge by lia.
      replace (Z.to_nat sz - length b')%nat with O by lia. by rewrite drop_0.
    + eapply same_sub; [|exact Hs2]. intros. apply elem_of_app. by right.
  - rewrite copy_out_Ret, bind_Ret by lia. fold b'. rewrite (take_ge b') by lia.
    destruct (return_spec mp fl db q b nodes others Hl Ht Hp) as (head & mp' & fl' & E & Hl2 & Hp2 & Hs2). rewrite E, bind_Ret.
    set (db1 := with_offset _ 0).
    destruct (IH fuel db1 mp' fl' others (sz - (Z.of_nat (length b) - off))) as (db' & mp'' & E2 & R).
    + cbn in Hf. lia.
    + split; [exact Hl2|done|cbn; destruct nodes as [|[]]; cbn; lia].
    + done.
    + unfold view. cbn [db1 with_offset db_offset]. rewrite drop_0. lia.
    + rewrite E2, bind_Ret. eexists _, mp''. split.
      * unfold view. cbn [db1 with_offset db_offset]. rewrite drop_0, (take_app_ge b') by lia.
        by replace (Z.to_nat sz - length b')%nat with (Z.to_nat (sz - (Z.of_nat (length b) - off))) by lia.
      * destruct R as (nodes' & fl2 & Hc & Hv & Hp3 & Hs3 & Hh3 & Hz3). exists nodes', fl2. split; [done|]. split; [|split; [done|split; [|done]]].
        -- rewrite Hv. unfold view. cbn [db1 with_offset db_offset]. rewrite drop_0, (drop_app_ge b') by lia. f_equal. lia.
        -- eapply same_trans; [|exact Hs3]. eapply same_sub; [|exact Hs2]. intros. apply elem_of_app. by right.
Qed.

(** Reading gives the next bytes of the stream. *)
Lemma databuffer_read_spec mp fl db nodes others sz :
  db_ok mp db nodes -> pool_ok mp fl (nodes.*1 ++ others) -> 0 < sz <= Z.of_nat (length (view db nodes)) ->
  exists db' mp' nodes' fl', databuffer_read db mp sz = Ret (take (Z.to_nat sz) (view db nodes), db', mp') /\
    db_ok mp' db' nodes' /\ view db' nodes' = drop (Z.to_nat sz) (view db nodes) /\
    pool_ok mp' fl' (nodes'.*1 ++ others) /\ same mp mp' others /\ db_header db' = db_header db.
Proof.
  intros [Hc Hz] Hp Hsz. unfold databuffer_read. rewrite (proj2 (Z.leb_le _ _)) by lia. cbn [assert_]. rewrite bind_Ret.
  pose proof (used_bound _ _ _ Hp) as Hb. rewrite length_app, length_fmap in Hb.
  destruct (read_loop_spec nodes (S (pool_nodes mp)) (with_size db (db_size db - sz)) mp fl others sz) as (db' & mp' & E & R);
    [lia|destruct Hc; by split|done|exact Hsz|].
  destruct R as (nodes' & fl' & Hc' & Hv & Hp' & Hs & Hh & Hsize). exists db', mp', nodes', fl'. split; [exact E|].
  split; [|done]. split; [done|]. rewrite Hsize, Hv. cbn [with_size db_size]. change (view (with_size db _) nodes) with (view db nodes).
  rewrite length_drop. lia.
Qed.

(** *** Pushing *)

Lemma linked_snoc mp mp' p nodes t b q d :
  linked mp p (nodes ++ [(t, b)]) -> set_message mp t (Message (Some b) (Z.of_nat (length b)) (Some q)) = Ret mp' ->
  NoDup (nodes.*1 ++ [t]) -> t <> q -> get_message mp q = Ret (Message (Some d) (Z.of_nat (length d)) None) ->
  linked mp' p ((nodes ++ [(t, b)]) ++ [(q, d)]).
Proof.
  intros Hl Hset Hn Htq Hq. revert p Hl. induction nodes as [|[q1 b1] nodes IH]; intros p; cbn.
  - intros (-> & next & _ & _). split; [done|]. exists (Some q). rewrite (get_set_eq _ _ _ _ Hset). split; [done|]. split; [done|].
    exists None. by rewrite (get_set_ne _ _ _ _ _ Hset).
  - intros (-> & next & Hq1 & Hl). split; [done|]. exists next. cbn in Hn. apply NoDup_cons in Hn as [Hnt Hn].
    rewrite (get_set_ne _ _ _ _ _ Hset); [split; [done|by apply IH]|]. intros ->. apply Hnt, elem_of_app. right. by left.
Qed.

Lemma linked_last mp p nodes t : linked mp p nodes -> last nodes.*1 = Some t -> exists nodes0 b next, nodes = nodes0 ++ [(t, b)] /\
  get_message mp t = Ret (Message (Some b) (Z.of_nat (length b)) next).
Proof.
  revert p. induction nodes as [|[q b] nodes IH]; intros p; cbn; [done|]. intros (-> & next & Hq & Hl) Ht.
  destruct nodes as [|[q2 b2] nodes].
  - injection Ht as ->. exists [], b, next. done.
  - destruct (IH next Hl Ht) as (n0 & b' & nx & -> & Hg). exists ((q, b) :: n0), b', nx. done.
Qed.

Lemma databuffer_push_spec junk mp fl db nodes others data :
  db_ok mp db nodes -> pool_ok mp fl (nodes.*1 ++ others) -> Z.of_nat (length (view db nodes)) + Z.of_nat (length data) <= INT_MAX ->
  exists db' mp' nodes' fl', databuffer_push junk db mp data (Z.of_nat (length data)) = Ret (db', mp') /\
    db_ok mp' db' nodes' /\ view db' nodes' = view db nodes ++ data /\
    pool_ok mp' fl' (nodes'.*1 ++ others) /\ same mp mp' others /\ db_header db' = db_header db.
Proof.
  intros [[Hl Ht Ho] Hz] Hp Hmax. unfold databuffer_push.
  destruct (alloc_node junk mp fl (nodes.*1 ++ others) data (Z.of_nat (length data)) Hp) as (q & mp1 & mp2 & fl' & -> & Hset & Hq & Hp2 & Hs2 & Hg2).
  rewrite bind_Ret, Hset, bind_Ret, Hz, int_ok_Ret, bind_Ret by (unfold INT_MIN in *; lia).
  assert (Hl2 : linked mp2 (db_head db) nodes).
  { apply (linked_same mp); [|done]. eapply same_sub; [|exact Hs2]. intros. apply elem_of_app. by left. }
  assert (Hso : same mp mp2 others) by (eapply same_sub; [|exact Hs2]; intros; apply elem_of_app; by right).
  change (db_head (with_size db ?n)) with (db_head db). change (db_tail (with_size db ?n)) with (db_tail db).
  change (db_header (with_size db ?n)) with (db_header db). change (db_offset (with_size db ?n)) with (db_offset db).
  change (db_size (with_size db ?n)) with n.
  assert (Hperm : forall ns : list ptr, pool_ok mp2 fl' (q :: ns ++ others) -> pool_ok mp2 fl' ((ns ++ [q]) ++ others)).
  { intros ns [Hf Hn Hv]. split; [done| |].
    - rewrite <- app_assoc. cbn. by rewrite <- Permutation_middle.
    - intros p Hin. apply Hv. rewrite <- app_assoc in Hin. cbn in Hin. by rewrite <- Permutation_middle in Hin. }
  destruct nodes as [|[q0 b0] nodes].
  - cbn in Hl2. rewrite Hl2. cbn in Ht. rewrite Ht, bool_decide_eq_true_2 by done. cbn [assert_]. rewrite bind_Ret. cbn in Ho.
    eexists _, mp2, [(q, data)], fl'. split; [reflexivity|]. assert (E : db_offset db = 0) by lia.
    unfold view. cbn [db_offset]. rewrite E. cbn [fmap list_fmap concat fst snd app]. rewrite !drop_0, app_nil_r. split; [|done]. split; [split|].
    + cbn. split; [done|]. by exists None.
    + done.
    + cbn. lia.
    + unfold view. cbn. rewrite ?drop_nil, ?app_nil_r. done.
  - pose proof Hl2 as (Hh & _)%linked_head. rewrite Hh.
    destruct (last ((q0, b0) :: nodes).*1) as [t|] eqn:Hlast; [|by apply last_None in Hlast].
    rewrite Ht. cbn [deref]. rewrite bind_Ret. destruct (linked_last mp2 _ _ _ Hl2 Hlast) as (n0 & bt & nx & Hn & Hgt).
    rewrite Hgt, bind_Ret. cbn [m_buffer m_size].
    destruct (set_Ret mp2 t (Message (Some bt) (Z.of_nat (length bt)) (Some q)) _ Hgt) as (mp3 & Hset3 & Hf3 & Hlen3).
    rewrite Hset3, bind_Ret. pose proof Hp2 as [Hfree Hnd Hval].
    assert (Hti : t ∈ ((q0, b0) :: nodes).*1) by (rewrite Hn, fmap_app; apply elem_of_app; right; by left).
    assert (Htq : t <> q) by (intros ->; apply Hq, elem_of_app; by left).
    assert (Hnd2 : NoDup (((q0, b0) :: nodes).*1 ++ others)).
    { apply NoDup_app in Hnd as (_ & _ & Hnd). by apply NoDup_cons in Hnd as [_ Hnd]. }
    assert (Hother : t ∉ fl' ++ others).
    { intros [Hin|Hin]%elem_of_app.
      - apply NoDup_app in Hnd as (_ & Hd & _). apply (Hd t Hin). right. apply elem_of_app. by left.
      - apply NoDup_app in Hnd2 as (_ & Hd & _). by apply (Hd t Hti). }
    pose proof (set_same _ _ _ _ _ Hset3 Hother) as Hs3.
    eexists _, mp3, (((q0, b0) :: nodes) ++ [(q, data)]), fl'. split; [reflexivity|].
    assert (Hview : forall db' nodes', db_offset db' = db_offset db -> nodes' = ((q0, b0) :: nodes) ++ [(q, data)] ->
      view db' nodes' = view db ((q0, b0) :: nodes) ++ data).
    { intros db' nodes' E ->. unfold view. rewrite E, fmap_app, concat_app. cbn [fmap list_fmap concat snd]. rewrite app_nil_r.
      cbn [first_length] in Ho. rewrite drop_app_le; [done|]. rewrite length_app. lia. }
    split; [split; [split|]|split; [by apply Hview|split; [|split; [|done]]]].
    + cbn [db_head]. rewrite Hn. apply (linked_snoc mp2); [by rewrite <- Hn, <- Hh|done| |done|done].
      rewrite Hn, fmap_app in Hnd2. cbn in Hnd2. by apply NoDup_app in Hnd2 as (? & _ & _).
    + cbn [db_tail]. rewrite fmap_app. cbn [fmap list_fmap fst]. by rewrite last_snoc.
    + cbn [db_offset first_length app] in *. lia.
    + cbn [db_size]. match goal with |- _ = Z.of_nat (length (view ?d ?n)) => rewrite (Hview d n) by done end. rewrite length_app. lia.
    + rewrite fmap_app. cbn [fmap list_fmap fst]. apply Hperm in Hp2 as [Hf4 Hn4 Hv4]. split; [|exact Hn4|].
      * rewrite Hf3. apply (free_same mp2); [|done]. eapply same_sub; [|exact Hs3]. intros. apply elem_of_app. by left.
      * intros p Hin. by apply (valid_lengths mp2 mp3 p Hlen3), Hv4.
    + eapply same_trans; [exact Hso|]. eapply same_sub; [|exact Hs3]. intros. apply elem_of_app. by right.
Qed.

(** *** Clearing *)

Lemma clear_loop_spec nodes : forall fuel db mp fl others, (length nodes <= fuel)%nat ->
  linked mp (db_head db) nodes -> db_tail db = last nodes.*1 -> pool_ok mp fl (nodes.*1 ++ others) ->
  exists mp' fl', clear_loop fuel db mp = Ret mp' /\ pool_ok mp' fl' others /\ same mp mp' others.
Proof.
  induction nodes as [|[q b] nodes IH]; intros fuel db mp fl others Hf Hl Ht Hp.
  - cbn in Hl. exists mp, fl. destruct fuel; cbn [clear_loop]; rewrite Hl; done.
  - destruct fuel as [|fuel]; [cbn in Hf; lia|]. pose proof Hl as (Hh & _)%linked_head. cbn [clear_loop]. rewrite Hh.
    destruct (return_spec mp fl db q b nodes others Hl Ht Hp) as (head & mp1 & fl1 & -> & Hl1 & Hp1 & Hs1). rewrite bind_Ret.
    destruct (IH fuel (DataBuffer (db_header db) (db_offset db) (db_size db) head (last nodes.*1)) mp1 fl1 others) as (mp' & fl' & E & Hp' & Hs');
      [cbn in Hf; lia|done|done|done|].
    exists mp', fl'. split; [done|]. split; [done|]. eapply same_trans; [|exact Hs']. eapply same_sub; [|exact Hs1]. intros. apply elem_of_app. by right.
Qed.

Lemma databuffer_clear_spec mp fl db nodes others : db_ok mp db nodes -> pool_ok mp fl (nodes.*1 ++ others) ->
  exists mp' fl', databuffer_clear db mp = Ret (db_zero, mp') /\ pool_ok mp' fl' others /\ same mp mp' others.
Proof.
  intros [[Hl Ht Ho] Hz] Hp. unfold databuffer_clear. pose proof (used_bound _ _ _ Hp) as Hb. rewrite length_app, length_fmap in Hb.
  destruct (clear_loop_spec nodes (pool_nodes mp) db mp fl others) as (mp' & fl' & -> & Hp' & Hs'); [lia|done..|].
  rewrite bind_Ret. by exists mp', fl'.
Qed.
