(* ===== verification/HashId.v ===== *)
(** The table of socket numbers, [service-src/hashid.h]: a place in an array for
    every number, found by hash chains through the places. *)
From S2P Require Import Prelude.

(** ** Data and operations *)

(** [next] is a pointer into the array [id]: an index. *)
Record hashid_node := HashNode { hn_id : Z; hn_next : option Z }.

Record hashid := HashId { hi_hashmod : Z; hi_cap : Z; hi_count : Z; hi_id : list hashid_node; hi_hash : list (option Z) }.

(** [while (hashcap < max) hashcap *= 2]: an [int] doubles at most 27 times. *)
Fixpoint hashcap_loop (fuel : nat) (hashcap max : Z) : outcome Z :=
  if hashcap <? max then
    match fuel with
    | O => Undefined
    | S fuel => hashcap ← int_ok (hashcap * 2); hashcap_loop fuel hashcap max
    end
  else Ret hashcap.

Definition hashid_init (max : Z) : outcome hashid :=
  hashcap ← hashcap_loop 28 16 max;
  Ret (HashId (hashcap - 1) max 0 (replicate (Z.to_nat max) (HashNode (-1) None)) (replicate (Z.to_nat hashcap) None)).

Definition hashid_clear (hi : hashid) : hashid := HashId 1 0 0 [] [].

(** [while(c)]: no more rounds than places. *)
Fixpoint lookup_loop (fuel : nat) (hi : hashid) (c : option Z) (id : Z) : outcome Z :=
  match c with
  | None => Ret (-1)
  | Some c =>
      match fuel with
      | O => Undefined
      | S fuel =>
          n ← arr_get (hi_id hi) c;
          if hn_id n =? id then Ret c else lookup_loop fuel hi (hn_next n) id
      end
  end.

Definition hashid_lookup (hi : hashid) (id : Z) : outcome Z :=
  let h := Z.land id (hi_hashmod hi) in
  c ← arr_get (hi_hash hi) h;
  lookup_loop (length (hi_id hi)) hi c id.

Definition with_ids (hi : hashid) (count : Z) (id : list hashid_node) (hash : list (option Z)) : hashid :=
  HashId (hi_hashmod hi) (hi_cap hi) count id hash.

(** From the label [_clear] on. *)
Definition clear_node (hi : hashid) (c : Z) : outcome (Z * hashid) :=
  ids ← arr_set (hi_id hi) c (HashNode (-1) None);
  Ret (c, with_ids hi (hi_count hi - 1) ids (hi_hash hi)).

(** [while(c->next)] *)
Fixpoint remove_loop (fuel : nat) (hi : hashid) (c id : Z) : outcome (Z * hashid) :=
  match fuel with
  | O => Undefined
  | S fuel =>
      n ← arr_get (hi_id hi) c;
      match hn_next n with
      | None => Ret (-1, hi)
      | Some temp =>
          t ← arr_get (hi_id hi) temp;
          if hn_id t =? id then
            ids ← arr_set (hi_id hi) c (HashNode (hn_id n) (hn_next t));
            clear_node (with_ids hi (hi_count hi) ids (hi_hash hi)) temp
          else remove_loop fuel hi temp id
      end
  end.

Definition hashid_remove (hi : hashid) (id : Z) : outcome (Z * hashid) :=
  let h := Z.land id (hi_hashmod hi) in
  c ← arr_get (hi_hash hi) h;
  match c with
  | None => Ret (-1, hi)
  | Some c =>
      n ← arr_get (hi_id hi) c;
      if hn_id n =? id then
        hash ← arr_set (hi_hash hi) h (hn_next n);
        clear_node (with_ids hi (hi_count hi) (hi_id hi) hash) c
      else remove_loop (length (hi_id hi)) hi c id
  end.

(** [for (i=0;i<hi->cap;i++)], [n] to go: the free place, or none. *)
Fixpoint insert_loop (n : nat) (i : Z) (hi : hashid) (id : Z) : outcome (option Z) :=
  match n with
  | O => Ret None
  | S n =>
      sum ← int_ok (i + id);
      let index := Z.rem sum (hi_cap hi) in
      x ← arr_get (hi_id hi) index;
      if hn_id x =? -1 then Ret (Some index) else insert_loop n (i + 1) hi id
  end.

Definition hashid_insert (hi : hashid) (id : Z) : outcome (Z * hashid) :=
  c ← insert_loop (Z.to_nat (hi_cap hi)) 0 hi id;
  match c with
  | None => AssertFail
  | Some c =>
      n ← arr_get (hi_id hi) c;
      _ ← assert_ (bool_decide (hn_next n = None));
      let h := Z.land id (hi_hashmod hi) in
      first ← arr_get (hi_hash hi) h;
      ids ← arr_set (hi_id hi) c (HashNode id first);
      hash ← arr_set (hi_hash hi) h (Some c);
      Ret (c, with_ids hi (hi_count hi + 1) ids hash)
  end.

Definition hashid_full (hi : hashid) : bool := hi_count hi =? hi_cap hi.
