(* ===== verification/HashIdPlaces.v ===== *)
(** The table of socket numbers as a list of places: looking up, inserting and
    removing numbers. *)
From S2P Require Import Prelude HashId.

(** ** The table as a list of places *)

Lemma arr_get_Ret {A} (l : list A) i x : arr_lookup l i = Some x -> arr_get l i = Ret x.
Proof. unfold arr_get. by intros ->. Qed.

(** Places linked up from [p]. *)
Fixpoint hlinked (ids : list hashid_node) (p : option Z) (l : list Z) : Prop :=
  match l with
  | [] => p = None
  | i :: l => p = Some i /\ exists x next, arr_lookup ids i = Some (HashNode x next) /\ hlinked ids next l
  end.

(** The number of the place [i]. *)
Abbreviation at_place slots i x := (arr_lookup slots i = Some (Some x)).

(** A table whose places hold the numbers [slots], linked up in [chains]. *)
Record hash_ok (hi : hashid) (slots : list (option Z)) (chains : Z -> list Z) : Prop := {
  ho_mod : exists k, 0 <= k /\ hi_hashmod hi = 2 ^ k - 1;
  ho_hash : Z.of_nat (length (hi_hash hi)) = hi_hashmod hi + 1;
  ho_cap : hi_cap hi = Z.of_nat (length slots);
  ho_ids : map hn_id (hi_id hi) = map (default (-1)) slots;
  ho_free i n : arr_lookup slots i = Some None -> arr_lookup (hi_id hi) i = Some n -> hn_next n = None;
  ho_nonneg i x : at_place slots i x -> 0 <= x;
  ho_distinct i j x : at_place slots i x -> at_place slots j x -> i = j;
  ho_linked h : 0 <= h <= hi_hashmod hi -> exists p, arr_lookup (hi_hash hi) h = Some p /\ hlinked (hi_id hi) p (chains h);
  ho_chain h : NoDup (chains h);
  ho_in h i : i ∈ chains h <-> exists x, at_place slots i x /\ Z.land x (hi_hashmod hi) = h;
  ho_count : hi_count hi = Z.of_nat (length (filter is_Some slots)) }.

Lemma hash_range m k x : m = 2 ^ k - 1 -> 0 <= k -> 0 <= Z.land x m <= m.
Proof. intros -> Hk. rewrite land_ones_pow2 by done. pose proof (Z.mod_pos_bound x (2 ^ k)). lia. Qed.

Section table.
Context (hi : hashid) (slots : list (option Z)) (chains : Z -> list Z).
Hypothesis Hok : hash_ok hi slots chains.

Lemma id_length : length (hi_id hi) = length slots.
Proof. pose proof (f_equal length (ho_ids _ _ _ Hok)) as H. by rewrite !length_map in H. Qed.

Lemma id_at i s : arr_lookup slots i = Some s -> exists next, arr_lookup (hi_id hi) i = Some (HashNode (default (-1) s) next).
Proof.
  intros Hi. pose proof (arr_lookup_lt _ _ _ Hi) as Hr. pose proof (ho_ids _ _ _ Hok) as H.
  rewrite arr_lookup_nonneg in Hi by lia. rewrite arr_lookup_nonneg by lia. apply (f_equal (fun l => l !! Z.to_nat i)) in H. rewrite !list_lookup_fmap, Hi in H.
  destruct (hi_id hi !! Z.to_nat i) as [[x next]|]; [|done]. cbn in H. injection H as <-. by exists next.
Qed.

Lemma at_id i x next : arr_lookup (hi_id hi) i = Some (HashNode x next) -> exists s, arr_lookup slots i = Some s /\ x = default (-1) s.
Proof.
  intros Hi. pose proof (arr_lookup_lt _ _ _ Hi) as Hr. rewrite id_length in Hr.
  destruct (arr_lookup_is_Some slots i Hr) as [s Hs]. exists s. split; [done|].
  destruct (id_at i s Hs) as [n' E]. rewrite E in Hi. by injection Hi.
Qed.

Lemma chain_bound h : (length (chains h) <= length (hi_id hi))%nat.
Proof.
  rewrite id_length. assert (H : (length (chains h) <= length (seqZ 0 (Z.of_nat (length slots))))%nat).
  { apply submseteq_length, NoDup_submseteq; [apply (ho_chain _ _ _ Hok)|]. intros i Hi.
    apply (ho_in _ _ _ Hok) in Hi as (x & Hx & _). apply elem_of_seqZ. apply arr_lookup_lt in Hx. lia. }
  by rewrite length_seqZ, Nat2Z.id in H.
Qed.

(** *** Lookup *)

Lemma lookup_loop_spec x l : forall fuel p, (length l <= fuel)%nat -> hlinked (hi_id hi) p l ->
  (forall i, i ∈ l -> exists y, at_place slots i y) ->
  exists r, lookup_loop fuel hi p x = Ret r /\ ((r = -1 /\ forall i, i ∈ l -> ~ at_place slots i x) \/ (r ∈ l /\ at_place slots r x)).
Proof.
  induction l as [|i l IH]; intros fuel p Hf Hl Hin.
  - cbn in Hl. subst p. exists (-1). split; [by destruct fuel|]. left. split; [done|]. intros i Hi. by apply elem_of_nil in Hi.
  - destruct Hl as (-> & y & next & Hi & Hl). destruct fuel as [|fuel]; [cbn in Hf; lia|]. cbn [lookup_loop]. unfold arr_get. rewrite Hi.
    cbn [deref]. rewrite bind_Ret. cbn [hn_id hn_next]. destruct (Hin i ltac:(by left)) as [y' Hy'].
    destruct (id_at i _ Hy') as [next' E]. rewrite E in Hi. injection Hi as Hy Hn. cbn in Hy. subst y' next'.
    destruct (Z.eqb_spec y x) as [->|Hne]; [exists i; split; [done|right; split; [by left|done]]|].
    destruct (IH fuel next) as (r & Er & Hr); [cbn in Hf; lia|done|intros; apply Hin; by right|]. exists r. split; [done|].
    destruct Hr as [[-> Hr]|[Hr Hr2]]; [left|right; split; [by right|done]]. split; [done|].
    intros j [->|Hj]%elem_of_cons; [|by apply Hr]. intros E2. rewrite Hy' in E2. by injection E2.
Qed.

(** The place of a number, or -1. *)
Lemma hashid_lookup_spec x : exists r, hashid_lookup hi x = Ret r /\
  ((r = -1 /\ forall i, ~ at_place slots i x) \/ at_place slots r x).
Proof.
  destruct (ho_mod _ _ _ Hok) as (k & Hk & Hm). pose proof (hash_range _ _ x Hm Hk) as Hh. unfold hashid_lookup. cbv zeta.
  destruct (ho_linked _ _ _ Hok _ Hh) as (p & Hp & Hl). rewrite (arr_get_Ret _ _ _ Hp), bind_Ret.
  destruct (lookup_loop_spec x _ (length (hi_id hi)) p (chain_bound _) Hl) as (r & -> & Hr).
  { intros i Hi. apply (ho_in _ _ _ Hok) in Hi as (y & Hy & _). by exists y. }
  exists r. split; [done|]. destruct Hr as [[-> Hr]|[_ Hr]]; [left|by right]. split; [done|]. intros i Hi. apply (Hr i); [|done].
  apply (ho_in _ _ _ Hok). by exists x.
Qed.

(** *** Changes of one place *)

Lemma slot_insert i s : 0 <= i < Z.of_nat (length slots) ->
  forall j, arr_lookup (<[Z.to_nat i := s]> slots) j = if decide (i = j) then Some s else arr_lookup slots j.
Proof. intros Hi j. by apply arr_lookup_insert. Qed.

Lemma count_insert i s s' : arr_lookup slots i = Some s -> 
  Z.of_nat (length (filter is_Some (<[Z.to_nat i := s']> slots))) =
    hi_count hi - (if decide (is_Some s) then 1 else 0) + (if decide (is_Some s') then 1 else 0).
Proof.
  intros Hi. rewrite (ho_count _ _ _ Hok). pose proof (arr_lookup_lt _ _ _ Hi) as Hr. rewrite arr_lookup_nonneg in Hi by lia.
  generalize dependent (Z.to_nat i). clear. induction slots as [|z l IH]; intros [|n] Hn; try done.
  - injection Hn as ->. change (<[0%nat := s']> (s :: l)) with (s' :: l). rewrite !filter_cons. repeat case_decide; cbn [length]; lia.
  - change (<[S n := s']> (z :: l)) with (z :: <[n := s']> l). rewrite !filter_cons. specialize (IH n Hn). repeat case_decide; cbn [length]; lia.
Qed.
End table.

Lemma hlinked_insert ids p l i n : i ∉ l -> 0 <= i < Z.of_nat (length ids) -> hlinked ids p l -> hlinked (<[Z.to_nat i := n]> ids) p l.
Proof.
  revert p. induction l as [|j l IH]; intros p Hi Hr; cbn; [done|]. intros (-> & x & next & Hj & Hl).
  apply not_elem_of_cons in Hi as [Hij Hi]. split; [done|]. exists x, next. rewrite arr_lookup_insert, decide_False by done. split; [done|]. by apply IH.
Qed.

(** *** Insertion *)

(** The first free place from [x] on, in the order in which they are tried. *)
Definition tries (cap x : Z) (n : nat) : list Z := map (fun i => Z.rem (Z.of_nat i + x) cap) (seq 0 n).

Section insert.
Context (hi : hashid) (slots : list (option Z)) (chains : Z -> list Z).
Hypothesis Hok : hash_ok hi slots chains.

Lemma insert_loop_spec x n : forall i, 0 <= i -> 0 <= x -> i + Z.of_nat n + x <= INT_MAX -> 0 < hi_cap hi ->
  exists r, insert_loop n i hi x = Ret r /\
    match r with
    | Some c => arr_lookup slots c = Some None
    | None => forall k, 0 <= k < Z.of_nat n -> exists y, at_place slots (Z.rem (i + k + x) (hi_cap hi)) y
    end.
Proof.
  induction n as [|n IH]; intros i Hi Hx Hmax Hcap; cbn [insert_loop].
  - exists None. split; [done|]. intros k Hk. lia.
  - rewrite int_ok_Ret, bind_Ret by (unfold INT_MIN; lia). cbv zeta. pose proof (Z.rem_bound_pos (i + x) (hi_cap hi) ltac:(lia) Hcap) as Hr.
    assert (Hb : 0 <= Z.rem (i + x) (hi_cap hi) < Z.of_nat (length slots)) by (rewrite <- (ho_cap _ _ _ Hok); exact Hr).
    destruct (arr_lookup_is_Some slots _ Hb) as [s Hs].
    destruct (id_at hi slots chains Hok _ _ Hs) as [next Hn]. unfold arr_get. rewrite Hn. cbn [deref]. rewrite bind_Ret. cbn [hn_id].
    destruct s as [y|]; cbn [default from_option id].
    + pose proof (ho_nonneg _ _ _ Hok _ _ Hs). cbn. rewrite (proj2 (Z.eqb_neq y (-1))) by lia.
      destruct (IH (i + 1)) as (r & -> & Hr'); [lia|done|lia|done|]. exists r. split; [done|]. destruct r; [done|].
      intros k Hk. destruct (Z.eq_dec k 0) as [->|Hne]; [exists y; by rewrite Z.add_0_r|].
      replace (i + k + x) with (i + 1 + (k - 1) + x) by lia. apply Hr'. lia.
    + exists (Some (Z.rem (i + x) (hi_cap hi))). by rewrite Z.eqb_refl.
Qed.

(** All places are tried. *)
Lemma tries_all x i : 0 <= x -> 0 <= i < hi_cap hi -> exists k, 0 <= k < hi_cap hi /\ Z.rem (0 + k + x) (hi_cap hi) = i.
Proof.
  intros Hx Hi. exists ((i - x) mod hi_cap hi). pose proof (Z.mod_pos_bound (i - x) (hi_cap hi) ltac:(lia)) as Hk. split; [done|].
  rewrite Z.rem_mod_nonneg by lia. rewrite Z.add_0_l, Zplus_mod_idemp_l. replace (i - x + x) with i by lia. by apply Z.mod_small.
Qed.

Definition chains_insert (h c : Z) : Z -> list Z := fun h' => if decide (h' = h) then c :: chains h else chains h'.

(** A number that is not there gets a free place. *)
Lemma hashid_insert_spec x : 0 <= x -> x + hi_cap hi <= INT_MAX -> (forall i, ~ at_place slots i x) -> hashid_full hi = false ->
  exists c hi' chains', hashid_insert hi x = Ret (c, hi') /\ arr_lookup slots c = Some None /\
    hash_ok hi' (<[Z.to_nat c := Some x]> slots) chains' /\ hi_cap hi' = hi_cap hi.
Proof.
  intros Hx Hmax Hnew Hfull. unfold hashid_insert.
  assert (Hcap : 0 < hi_cap hi).
  { unfold hashid_full in Hfull. apply Z.eqb_neq in Hfull. rewrite (ho_cap _ _ _ Hok) in *. rewrite (ho_count _ _ _ Hok) in Hfull.
    pose proof (length_filter is_Some slots). lia. }
  destruct (insert_loop_spec x (Z.to_nat (hi_cap hi)) 0) as (r & -> & Hr); [lia..|]. rewrite bind_Ret. destruct r as [c|].
  2: { exfalso. unfold hashid_full in Hfull. apply Z.eqb_neq in Hfull. apply Hfull. rewrite (ho_count _ _ _ Hok), (ho_cap _ _ _ Hok). f_equal.
    rewrite filter_all; [done|]. intros s (i & Hi)%list_elem_of_lookup.
    destruct (tries_all x (Z.of_nat i)) as (k & Hk & E); [done|rewrite (ho_cap _ _ _ Hok); apply lookup_lt_Some in Hi; lia|].
    destruct (Hr k) as [y Hy]; [lia|]. rewrite E, arr_lookup_nat, Hi in Hy. injection Hy as ->. by exists y. }
  destruct (id_at hi slots chains Hok _ _ Hr) as [next Hn]. pose proof (ho_free _ _ _ Hok _ _ Hr Hn) as Hnx. cbn in Hnx. subst next.
  rewrite (arr_get_Ret _ _ _ Hn), bind_Ret. cbn [hn_next]. rewrite bool_decide_eq_true_2 by done.
  cbn [assert_]. rewrite bind_Ret. cbv zeta. destruct (ho_mod _ _ _ Hok) as (k & Hk & Hm). pose proof (hash_range _ _ x Hm Hk) as Hh.
  set (h := Z.land x (hi_hashmod hi)) in *. destruct (ho_linked _ _ _ Hok h Hh) as (p & Hp & Hl). rewrite (arr_get_Ret _ _ _ Hp), bind_Ret.
  pose proof (arr_lookup_lt _ _ _ Hr) as Hcr. pose proof (id_length hi slots chains Hok) as Hlen.
  rewrite (arr_set_Ret (hi_id hi)), bind_Ret by lia. rewrite arr_set_Ret, bind_Ret by (rewrite (ho_hash _ _ _ Hok); lia).
  assert (Hc : forall h', c ∉ chains h').
  { intros h' Hin. apply (ho_in _ _ _ Hok) in Hin as (y & Hy & _). rewrite Hr in Hy. done. }
  exists c, (with_ids hi (hi_count hi + 1) (<[Z.to_nat c := HashNode x p]> (hi_id hi)) (<[Z.to_nat h := Some c]> (hi_hash hi))), (chains_insert h c).
  split; [done|]. split; [done|]. split; [|done]. pose proof (slot_insert slots c (Some x) Hcr) as Hs.
  split; cbn [with_ids hi_hashmod hi_cap hi_count hi_id hi_hash].
  - by exists k.
  - rewrite length_insert. apply (ho_hash _ _ _ Hok).
  - rewrite length_insert. apply (ho_cap _ _ _ Hok).
  - change map with (@fmap list list_fmap). rewrite !list_fmap_insert. cbn. f_equal. apply (ho_ids _ _ _ Hok).
  - intros i n Hi Hin. rewrite Hs in Hi. rewrite arr_lookup_insert in Hin by lia. case_decide; [done|]. by apply (ho_free _ _ _ Hok i).
  - intros i y Hi. rewrite Hs in Hi. case_decide; [by injection Hi as <-|by apply (ho_nonneg _ _ _ Hok i)].
  - intros i j y Hi Hj. rewrite Hs in Hi, Hj.
    destruct (decide (c = i)) as [<-|], (decide (c = j)) as [<-|]; [done| | |by apply (ho_distinct _ _ _ Hok i j y)]; exfalso.
    + injection Hi as <-. by apply (Hnew j).
    + injection Hj as <-. by apply (Hnew i).
  - intros h' Hh'. rewrite arr_lookup_insert by (rewrite (ho_hash _ _ _ Hok); lia). unfold chains_insert.
    destruct (decide (h = h')) as [<-|Hne].
    + rewrite decide_True by done. exists (Some c). split; [done|]. cbn. split; [done|]. exists x, p.
      rewrite arr_lookup_insert, decide_True by (done || lia). split; [done|]. apply hlinked_insert; [done|lia|done].
    + rewrite decide_False by done. destruct (ho_linked _ _ _ Hok h' Hh') as (p' & Hp' & Hl'). exists p'. split; [done|].
      apply hlinked_insert; [done|lia|done].
  - intros h'. unfold chains_insert. case_decide; [apply NoDup_cons; split; [done|]|]; apply (ho_chain _ _ _ Hok).
  - intros h' i. unfold chains_insert. setoid_rewrite Hs. destruct (decide (c = i)) as [<-|Hci].
    + split.
      * case_decide; [|by intros ?%Hc]. intros _. exists x. by split.
      * intros (y & [= <-] & E). rewrite decide_True by done. by left.
    + rewrite <- (ho_in _ _ _ Hok). case_decide as E; [|done]. subst h'. rewrite elem_of_cons. split; [|by right]. intros [->|?]; done.
  - rewrite (count_insert hi slots chains Hok c None) by done. rewrite decide_False by (by intros [? ?]). rewrite decide_True by eauto. lia.
Qed.

End insert.

(** *** Removal *)

Lemma arr_lookup_length {A B} (f : A -> B) l m i x : map f m = <[Z.to_nat i := x]> (map f l) -> length m = length l.
Proof. intros E. apply (f_equal length) in E. by rewrite length_insert, !length_map in E. Qed.

Lemma hlinked_ext ids ids' p l : (forall j, j ∈ l -> arr_lookup ids' j = arr_lookup ids j) -> hlinked ids p l -> hlinked ids' p l.
Proof.
  revert p. induction l as [|j l IH]; intros p Hj; cbn; [done|]. intros (-> & x & next & Hx & Hl). split; [done|]. exists x, next.
  rewrite Hj by left. split; [done|]. apply IH; [|done]. intros k Hk. apply Hj. by right.
Qed.

(** The list of nodes without the number of the place [i]. *)
Record unlinked (ids ids' : list hashid_node) (l : list Z) (i : Z) : Prop := {
  un_ids : map hn_id ids' = <[Z.to_nat i := -1]> (map hn_id ids);
  un_node : arr_lookup ids' i = Some (HashNode (-1) None);
  un_other j : j ∉ l -> arr_lookup ids' j = arr_lookup ids j }.

Abbreviation others i l := (filter (fun j : Z => j <> i) l).

Lemma remove_loop_spec hi x l : forall fuel c, (length l < fuel)%nat -> NoDup (c :: l) -> hlinked (hi_id hi) (Some c) (c :: l) ->
  (forall y n, arr_lookup (hi_id hi) c = Some (HashNode y n) -> y <> x) ->
  (forall i j n m, i ∈ l -> j ∈ l -> arr_lookup (hi_id hi) i = Some (HashNode x n) -> arr_lookup (hi_id hi) j = Some (HashNode x m) -> i = j) ->
  (remove_loop fuel hi c x = Ret (-1, hi) /\ forall i n, i ∈ l -> arr_lookup (hi_id hi) i <> Some (HashNode x n)) \/
  exists i n ids', i ∈ l /\ arr_lookup (hi_id hi) i = Some (HashNode x n) /\
    remove_loop fuel hi c x = Ret (i, with_ids hi (hi_count hi - 1) ids' (hi_hash hi)) /\
    unlinked (hi_id hi) ids' (c :: l) i /\ hlinked ids' (Some c) (c :: others i l).
Proof.
  induction l as [|t l IH]; intros fuel c Hf Hnd Hl Hc Hu; (destruct fuel as [|fuel]; [cbn in Hf; lia|]); cbn [remove_loop].
  - destruct Hl as (_ & y & next & Hy & Hn). cbn in Hn. subst next. rewrite (arr_get_Ret _ _ _ Hy), bind_Ret. left. split; [done|].
    by intros i n ?%elem_of_nil.
  - destruct Hl as (_ & y & next & Hy & Hl). pose proof Hl as (-> & yt & nt & Ht & Hl'). rewrite (arr_get_Ret _ _ _ Hy), bind_Ret. cbn [hn_next].
    rewrite (arr_get_Ret _ _ _ Ht), bind_Ret. cbn [hn_id hn_next]. apply NoDup_cons in Hnd as [Hct Hnd]. pose proof Hnd as [Htl Hnd']%NoDup_cons.
    pose proof (arr_lookup_lt _ _ _ Hy) as Hcr. pose proof (arr_lookup_lt _ _ _ Ht) as Htr.
    assert (Hne : c <> t) by (intros ->; apply Hct; by left).
    destruct (Z.eqb_spec yt x) as [->|Hx].
    + right. rewrite arr_set_Ret, bind_Ret by lia. unfold clear_node. cbn [with_ids hi_id hi_count hi_hash].
      rewrite arr_set_Ret, bind_Ret by (rewrite length_insert; lia). eexists t, nt, _. split; [by left|]. split; [done|]. split; [reflexivity|].
      assert (Hg : forall j, arr_lookup (<[Z.to_nat t:=HashNode (-1) None]> (<[Z.to_nat c:=HashNode y nt]> (hi_id hi))) j =
          if decide (t = j) then Some (HashNode (-1) None) else if decide (c = j) then Some (HashNode y nt) else arr_lookup (hi_id hi) j).
      { intros j. rewrite !arr_lookup_insert by (rewrite ?length_insert; lia). done. }
      split; [split|].
      * change map with (@fmap list list_fmap). rewrite !list_fmap_insert. cbn. f_equal. apply list_insert_id.
        rewrite arr_lookup_nonneg in Hy by lia. by rewrite list_lookup_fmap, Hy.
      * rewrite Hg. by rewrite decide_True.
      * intros j [Hjc [Hjt Hj]%not_elem_of_cons]%not_elem_of_cons. rewrite Hg, !decide_False by congruence. done.
      * assert (Hfl : others t (t :: l) = l).
        { rewrite filter_cons, decide_False by (intros H; by apply H). apply filter_all. intros j Hj ->. done. }
        rewrite Hfl. cbn. split; [done|]. exists y, nt. rewrite Hg, decide_False, decide_True by congruence. split; [done|].
        apply (hlinked_ext (hi_id hi)); [|done]. intros j Hj. rewrite Hg, !decide_False; [done| |]; intros ->; [apply Hct; by right|done].
    + destruct (IH fuel t) as [[E Hno]|(i & n & ids' & Hi & Hin & E & [U1 U2 U3] & L)].
      * cbn in Hf. lia.
      * done.
      * split; [done|]. exists yt, nt. done.
      * intros y' n E. rewrite Ht in E. by injection E as <- _.
      * intros i j n m Hi Hj. apply Hu; by right.
      * left. split; [exact E|]. intros i n [->|Hi]%elem_of_cons; [|by apply Hno]. rewrite Ht. by intros [= ->].
      * right. exists i, n, ids'. split; [by right|]. split; [done|]. split; [done|]. split; [split; [done|done|]|].
        -- intros j [Hjc Hj]%not_elem_of_cons. by apply U3.
        -- rewrite filter_cons, decide_True by (intros ->; done). split; [done|]. exists y, (Some t). by rewrite U3.
Qed.

Section remove.
Context (hi : hashid) (slots : list (option Z)) (chains : Z -> list Z).
Hypothesis Hok : hash_ok hi slots chains.

(** What is left when the number [x] of the place [i] has been taken out of its
    chain, which starts at [p] then. *)
Lemma hash_ok_remove x i ids' p (h := Z.land x (hi_hashmod hi)) : at_place slots i x -> unlinked (hi_id hi) ids' (chains h) i ->
  hlinked ids' p (others i (chains h)) ->
  hash_ok (with_ids hi (hi_count hi - 1) ids' (<[Z.to_nat h := p]> (hi_hash hi))) (<[Z.to_nat i := None]> slots) (fun h => others i (chains h)).
Proof.
  intros Hi [U1 U2 U3] Hl. destruct (ho_mod _ _ _ Hok) as (k & Hk & Hm). pose proof (hash_range _ _ x Hm Hk) as Hh. fold h in Hh.
  pose proof (arr_lookup_lt _ _ _ Hi) as Hir. pose proof (slot_insert slots i None Hir) as Hs.
  pose proof (arr_lookup_length _ _ _ _ _ U1) as Hlen.
  assert (Hother : forall h', h' <> h -> forall j, j ∈ chains h' -> j ∉ chains h).
  { intros h' Hne j Hj Hj2. apply (ho_in _ _ _ Hok) in Hj as (y & Hy & E), Hj2 as (y2 & Hy2 & E2). rewrite Hy in Hy2. injection Hy2 as <-.
    congruence. }
  split; cbn [with_ids hi_hashmod hi_cap hi_count hi_id hi_hash].
  - by exists k.
  - rewrite length_insert. apply (ho_hash _ _ _ Hok).
  - rewrite length_insert. apply (ho_cap _ _ _ Hok).
  - rewrite U1, (ho_ids _ _ _ Hok). change map with (@fmap list list_fmap). by rewrite list_fmap_insert.
  - intros j n Hj Hn. rewrite Hs in Hj. case_decide as E; [subst j; rewrite U2 in Hn; by injection Hn as <-|].
    apply (ho_free _ _ _ Hok j n Hj). rewrite <- U3; [done|]. intros Hin. apply (ho_in _ _ _ Hok) in Hin as (y & Hy & _). by rewrite Hj in Hy.
  - intros j y Hj. rewrite Hs in Hj. case_decide; [done|by apply (ho_nonneg _ _ _ Hok j)].
  - intros j j' y Hj Hj'. rewrite Hs in Hj, Hj'. repeat case_decide; try done. by apply (ho_distinct _ _ _ Hok j j' y).
  - intros h' Hh'. rewrite arr_lookup_insert by (rewrite (ho_hash _ _ _ Hok); lia). destruct (decide (h = h')) as [<-|Hne]; [by exists p|].
    destruct (ho_linked _ _ _ Hok h' Hh') as (p' & Hp' & Hl'). exists p'. split; [done|].
    rewrite filter_all.
    + apply (hlinked_ext (hi_id hi)); [|done]. intros j Hj. apply U3. by apply (Hother h').
    + intros j Hj ->. apply (Hother h' ltac:(congruence) i Hj). apply (ho_in _ _ _ Hok). by exists x.
  - intros h'. apply NoDup_filter, (ho_chain _ _ _ Hok).
  - intros h' j. rewrite list_elem_of_filter, (ho_in _ _ _ Hok). setoid_rewrite Hs. split.
    + intros (Hne & y & Hy & E). exists y. by rewrite decide_False.
    + intros (y & Hy & E). case_decide; [done|]. split; [congruence|]. by exists y.
  - rewrite (count_insert hi slots chains Hok i (Some x)) by done. rewrite decide_True by eauto. rewrite decide_False by (by intros [? ?]). lia.
Qed.

(** A number that is there is taken out; others stay at their places. *)
Lemma hashid_remove_spec x :
  (hashid_remove hi x = Ret (-1, hi) /\ forall i, ~ at_place slots i x) \/
  exists i hi' chains', at_place slots i x /\ hashid_remove hi x = Ret (i, hi') /\
    hash_ok hi' (<[Z.to_nat i := None]> slots) chains' /\ hi_cap hi' = hi_cap hi.
Proof.
  destruct (ho_mod _ _ _ Hok) as (k & Hk & Hm). pose proof (hash_range _ _ x Hm Hk) as Hh. unfold hashid_remove. cbv zeta.
  set (h := Z.land x (hi_hashmod hi)) in *. destruct (ho_linked _ _ _ Hok h Hh) as (p & Hp & Hl). rewrite (arr_get_Ret _ _ _ Hp), bind_Ret.
  assert (Hin : forall i, at_place slots i x -> i ∈ chains h) by (intros i Hi; apply (ho_in _ _ _ Hok); by exists x).
  assert (Hat : forall i n, i ∈ chains h -> arr_lookup (hi_id hi) i = Some (HashNode x n) -> at_place slots i x).
  { intros i n Hi Hn. apply (ho_in _ _ _ Hok) in Hi as (y & Hy & _). destruct (id_at hi slots chains Hok _ _ Hy) as [n' E].
    rewrite E in Hn. injection Hn as Hyx _. cbn in Hyx. by subst y. }
  destruct (chains h) as [|c l] eqn:Hch.
  { cbn in Hl. subst p. left. split; [done|]. intros i Hi. by apply Hin, elem_of_nil in Hi. }
  destruct Hl as (-> & y & next & Hy & Hl). rewrite (arr_get_Ret _ _ _ Hy), bind_Ret. cbn [hn_id hn_next].
  pose proof (ho_chain _ _ _ Hok h) as Hnd. rewrite Hch in Hnd. pose proof (arr_lookup_lt _ _ _ Hy) as Hcr.
  assert (Hhr : 0 <= h < Z.of_nat (length (hi_hash hi))) by (rewrite (ho_hash _ _ _ Hok); lia).
  destruct (Z.eqb_spec y x) as [->|Hne].
  - right. rewrite arr_set_Ret, bind_Ret by done. unfold clear_node. cbn [with_ids hi_id hi_count hi_hash]. rewrite arr_set_Ret, bind_Ret by done.
    pose proof (Hat c next ltac:(by left) Hy) as Hc. eexists c, _, _. split; [done|]. split; [reflexivity|]. split; [|done].
    apply (hash_ok_remove x c _ next Hc); fold h; rewrite Hch; apply NoDup_cons in Hnd as [Hcl Hnd].
    + split.
      * change map with (@fmap list list_fmap). by rewrite list_fmap_insert.
      * rewrite arr_lookup_insert by done. by rewrite decide_True.
      * intros j [Hj _]%not_elem_of_cons. rewrite arr_lookup_insert, decide_False by (done || congruence). done.
    + rewrite filter_cons, decide_False by (intros H; by apply H). rewrite filter_all by (intros j Hj ->; done).
      by apply hlinked_insert.
  - assert (Hlr : (length l < length (hi_id hi))%nat).
    { pose proof (chain_bound hi slots chains Hok h) as Hb. rewrite Hch in Hb. cbn in Hb. lia. }
    destruct (remove_loop_spec hi x l (length (hi_id hi)) c Hlr Hnd) as [[E Hno]|(i & n & ids' & Hi & Hn & E & U & L)].
    + split; [done|]. by exists y, next.
    + intros y' n E. rewrite Hy in E. by injection E as <- _.
    + intros i j n m Hi Hj Hx Hx'. apply (ho_distinct _ _ _ Hok i j x); [apply (Hat i n)|apply (Hat j m)]; (by right) || done.
    + left. split; [exact E|]. intros i Hi. destruct (id_at hi slots chains Hok _ _ Hi) as [n Hn]. cbn in Hn.
      apply Hin, elem_of_cons in Hi as [->|Hi]; [rewrite Hy in Hn; by injection Hn|by apply (Hno i n)].
    + right. pose proof (Hat i n ltac:(by right) Hn) as Hx. eexists i, _, _. split; [done|]. split; [exact E|]. split; [|done].
      assert (Hhash : <[Z.to_nat h := Some c]> (hi_hash hi) = hi_hash hi).
      { apply list_insert_id. rewrite arr_lookup_nonneg in Hp by lia. exact Hp. }
      rewrite <- Hhash. apply (hash_ok_remove x i ids' (Some c) Hx); fold h; rewrite Hch; [done|].
      rewrite filter_cons, decide_True; [exact L|]. intros ->. rewrite Hy in Hn. by injection Hn.
Qed.
End remove.

(** *** The empty table *)

Lemma hashcap_loop_spec fuel : forall k max, 4 <= k <= 30 -> max <= 2 ^ 30 -> (Z.to_nat (30 - k) <= fuel)%nat ->
  exists j, 4 <= j <= 30 /\ hashcap_loop fuel (2 ^ k) max = Ret (2 ^ j).
Proof.
  induction fuel as [|fuel IH]; intros k max Hk Hmax Hf; cbn [hashcap_loop]; (destruct (Z.ltb_spec (2 ^ k) max) as [Hlt|]; [|by exists k]).
  - assert (k = 30) by lia. subst k. lia.
  - assert (k <> 30) by (intros ->; lia). assert (2 ^ (k + 1) <= 2 ^ 30) by (apply Z.pow_le_mono_r; lia).
    assert (E : 2 ^ k * 2 = 2 ^ (k + 1)) by (rewrite Z.pow_add_r by lia; lia).
    rewrite E, int_ok_Ret, bind_Ret by (unfold INT_MIN, INT_MAX; pose proof (Z.pow_pos_nonneg 2 (k + 1)); lia). apply IH; lia.
Qed.

Lemma hashid_init_ok max : 0 <= max <= 2 ^ 30 ->
  exists hi, hashid_init max = Ret hi /\ hash_ok hi (replicate (Z.to_nat max) None) (fun _ => []) /\ hi_cap hi = max.
Proof.
  intros Hmax. unfold hashid_init. destruct (hashcap_loop_spec 28 4 max) as (j & Hj & E); [lia|lia|lia|]. change 16 with (2 ^ 4).
  rewrite E, bind_Ret. eexists. split; [reflexivity|]. split; [|done]. pose proof (Z.pow_pos_nonneg 2 j ltac:(lia) ltac:(lia)).
  assert (Hrep : forall {A} (x y : A) n i, arr_lookup (replicate n x) i = Some y -> y = x).
  { intros A x y n i Hi. pose proof (arr_lookup_lt _ _ _ Hi). rewrite arr_lookup_nonneg in Hi by lia. by apply lookup_replicate in Hi as [-> _]. }
  split; cbn [hi_hashmod hi_cap hi_count hi_id hi_hash].
  - exists j. lia.
  - rewrite length_replicate. lia.
  - rewrite length_replicate. lia.
  - change map with (@fmap list list_fmap). by rewrite !fmap_replicate.
  - intros i n _ Hn. by apply Hrep in Hn as ->.
  - intros i x Hi. by apply Hrep in Hi.
  - intros i i' x Hi. by apply Hrep in Hi.
  - intros h Hh. exists None. split; [|done]. rewrite arr_lookup_nonneg by lia. apply lookup_replicate. split; [done|lia].
  - intros h. constructor.
  - intros h i. rewrite elem_of_nil. split; [done|]. intros (x & Hx & _). by apply Hrep in Hx.
  - induction (Z.to_nat max) as [|n IHn]; [done|]. cbn [replicate]. rewrite filter_cons, decide_False by (by intros [? ?]). exact IHn.
Qed.
