(* ===== verification/Gate.v ===== *)
(** The gate service, [service-src/service_gate.c]: connections, the framing of
    their data, and the forwarding of messages to a broker, to agents or to the
    watchdog. *)
From S2P Require Import Prelude Cstr Netpack Node Databuffer HashId.

(** ** Data *)

Definition BACKLOG : Z := 32.
Definition PTYPE_SOCKET : Z := 6.

(** [remote_name] is the string in the array. *)
Record connection := Connection { cn_id : Z; cn_agent : Z; cn_client : Z; cn_remote_name : bytes; cn_buffer : databuffer }.

Record gate := Gate {
  g_listen_id : Z; g_watchdog : Z; g_broker : Z; g_client_tag : Z; g_header_size : Z; g_max_connection : Z;
  g_hash : hashid; g_conn : list connection; g_mp : messagepool }.

(** What the service asks of the node, in order: messages sent, with the type as
    it is passed and the data of its size, operations on sockets, and texts for
    the log. *)
Inductive action :=
  | ASend (source dest type session : Z) (data : bytes)
  | AClose (id : Z) | AStart (id : Z) | ASocketSend (id : Z) (data : bytes) | AListen (host : bytes) (port : Z)
  | AError (text : bytes).

(** [memset(c, 0, sizeof( *c))] *)
Definition conn_zero : connection := Connection 0 0 0 [] db_zero.

Definition hash_zero : hashid := HashId 0 0 0 [] [].

Definition gate_create : gate := Gate (-1) 0 0 0 0 0 hash_zero [] mp_zero.

Definition with_conn (g : gate) (conn : list connection) (mp : messagepool) : gate :=
  Gate (g_listen_id g) (g_watchdog g) (g_broker g) (g_client_tag g) (g_header_size g) (g_max_connection g) (g_hash g) conn mp.
Definition with_hash (g : gate) (hash : hashid) : gate :=
  Gate (g_listen_id g) (g_watchdog g) (g_broker g) (g_client_tag g) (g_header_size g) (g_max_connection g) hash (g_conn g) (g_mp g).
Definition with_listen (g : gate) (id : Z) : gate :=
  Gate id (g_watchdog g) (g_broker g) (g_client_tag g) (g_header_size g) (g_max_connection g) (g_hash g) (g_conn g) (g_mp g).
Definition with_broker (g : gate) (broker : Z) : gate :=
  Gate (g_listen_id g) (g_watchdog g) broker (g_client_tag g) (g_header_size g) (g_max_connection g) (g_hash g) (g_conn g) (g_mp g).

Definition with_buffer (c : connection) (db : databuffer) : connection :=
  Connection (cn_id c) (cn_agent c) (cn_client c) (cn_remote_name c) db.

(** [*c = x] for [c = &g->conn[id]] *)
Definition set_conn (g : gate) (id : Z) (x : connection) : outcome gate :=
  conn ← arr_set (g_conn g) id x;
  Ret (with_conn g conn (g_mp g)).

(** Closing the sockets; the memory is released. *)
Definition gate_release (g : gate) : outcome (list action) :=
  ids ← mapM (fun i => c ← arr_get (g_conn g) i; Ret (if 0 <=? cn_id c then [AClose (cn_id c)] else [])) (seqZ 0 (g_max_connection g));
  Ret (concat ids ++ (if 0 <=? g_listen_id g then [AClose (g_listen_id g)] else [])).

(** ** Commands *)

(** The string at [p] of a buffer; it must end in the buffer. *)
Definition cstring (buf : bytes) (p : Z) : outcome bytes :=
  let s := until_zero (drop (Z.to_nat p) buf) in
  if (p <? 0) || (Z.of_nat (length buf) <=? p + Z.of_nat (length s)) then Undefined else Ret s.

(** [while (command_sz < sz)]: past the blanks. *)
Fixpoint skip_blanks (n : nat) (msg : bytes) (command_sz : Z) : outcome Z :=
  match n with
  | O => Ret command_sz
  | S n => c ← arr_get msg command_sz; if negb (c =? 32) then Ret command_sz else skip_blanks n msg (command_sz + 1)
  end.

(** [for (i=command_sz;i<sz;i++) msg[i-command_sz] = msg[i];] *)
Fixpoint shift_left (n : nat) (msg : bytes) (i command_sz : Z) : outcome bytes :=
  match n with
  | O => Ret msg
  | S n => c ← arr_get msg i; msg ← arr_set msg (i - command_sz) c; shift_left n msg (i + 1) command_sz
  end.

Definition _parm (msg : bytes) (sz command_sz : Z) : outcome bytes :=
  command_sz ← skip_blanks (Z.to_nat (sz - command_sz)) msg command_sz;
  msg ← shift_left (Z.to_nat (sz - command_sz)) msg command_sz command_sz;
  arr_set msg (sz - command_sz) 0.

(** [memcmp(a, b, n) == 0], which stops at a difference. *)
Fixpoint memcmp_eq (a b : bytes) (n : nat) : outcome bool :=
  match n with
  | O => Ret true
  | S n => match a, b with x :: a, y :: b => if x =? y then memcmp_eq a b n else Ret false | _, _ => Undefined end
  end.

(** [strsep(&p, " ")] on the string at [p]: the buffer and the next string. *)
Definition strsep_at (buf : bytes) (p : Z) : outcome (bytes * option Z) :=
  s ← cstring buf p;
  match strsep [32] s with
  | (tok, Some _) =>
      let k := p + Z.of_nat (length tok) in
      buf ← arr_set buf k 0;
      Ret (buf, Some (k + 1))
  | (_, None) => Ret (buf, None)
  end.

Section gate.
(** The contents of new memory, and the answers of the node. *)
Context (junk : message) (queryname : bytes -> Z) (socket_listen : bytes -> Z -> Z).

Definition _forward_agent (g : gate) (fd agentaddr clientaddr : Z) : outcome gate :=
  id ← hashid_lookup (g_hash g) fd;
  if 0 <=? id then
    c ← arr_get (g_conn g) id;
    set_conn g id (Connection (cn_id c) agentaddr clientaddr (cn_remote_name c) (cn_buffer c))
  else Ret g.

(** [for (i=0;i<sz;i++)]: the place of the first blank, or the end. *)
Fixpoint command_end (command : bytes) : Z :=
  match command with [] => 0 | c :: command => if c =? 32 then 0 else 1 + command_end command end.

Definition _ctrl (g : gate) (msg : bytes) : outcome (gate * list action) :=
  let sz := Z.of_nat (length msg) in
  let tmp := msg ++ [0] in
  if sz =? 0 then Ret (g, [])
  else
    let i := command_end msg in
    let same (name : string) := memcmp_eq tmp (str name ++ [0]) (Z.to_nat i) in
    kick ← same "kick"%string;
    if kick : bool then
      tmp ← _parm tmp sz i;
      command ← cstring tmp 0;
      let uid := s32 (fst (strtol command 10)) in
      id ← hashid_lookup (g_hash g) uid;
      Ret (g, if 0 <=? id then [AClose uid] else [])
    else
    forward ← same "forward"%string;
    if forward : bool then
      tmp ← _parm tmp sz i;
      '(tmp, client) ← strsep_at tmp 0;
      match client with
      | None => Ret (g, [])
      | Some agent =>
          idstr ← cstring tmp 0;
          let id := s32 (fst (strtol idstr 10)) in
          '(tmp, client) ← strsep_at tmp agent;
          match client with
          | None => Ret (g, [])
          | Some client =>
              agentstr ← cstring tmp (agent + 1);
              clientstr ← cstring tmp (client + 1);
              g ← _forward_agent g id (u32 (fst (strtoul agentstr 16))) (u32 (fst (strtoul clientstr 16)));
              Ret (g, [])
          end
      end
    else
    broker ← same "broker"%string;
    if broker : bool then
      tmp ← _parm tmp sz i;
      command ← cstring tmp 0;
      Ret (with_broker g (queryname command), [])
    else
    start ← same "start"%string;
    if start : bool then
      tmp ← _parm tmp sz i;
      command ← cstring tmp 0;
      let uid := s32 (fst (strtol command 10)) in
      id ← hashid_lookup (g_hash g) uid;
      Ret (g, if 0 <=? id then [AStart uid] else [])
    else
    close ← same "close"%string;
    if close : bool then
      if 0 <=? g_listen_id g then Ret (with_listen g (-1), [AClose (g_listen_id g)]) else Ret (g, [])
    else
      command ← cstring tmp 0;
      Ret (g, [AError (str "[gate] Unkown command : " ++ command)]).

(** ** Messages of connections *)

(** [text] is the formatted text. *)
Definition _report (g : gate) (text : bytes) : list action :=
  if g_watchdog g =? 0 then [] else [ASend 0 (g_watchdog g) PTYPE_TEXT 0 text].

(** Connection [i] of the array. *)
Definition _forward (g : gate) (i size : Z) : outcome (gate * list action) :=
  c ← arr_get (g_conn g) i;
  let read (send : bytes -> action) :=
    '(temp, db, mp) ← databuffer_read (cn_buffer c) (g_mp g) size;
    conn ← arr_set (g_conn g) i (with_buffer c db);
    Ret (with_conn g conn mp, [send temp]) in
  if negb (g_broker g =? 0) then read (ASend 0 (g_broker g) (Z.lor (g_client_tag g) PTYPE_TAG_DONTCOPY) 1)
  else if negb (cn_agent c =? 0) then read (ASend (cn_client c) (cn_agent c) (Z.lor (g_client_tag g) PTYPE_TAG_DONTCOPY) 1)
  else if negb (g_watchdog g =? 0) then
    read (fun temp => ASend 0 (g_watchdog g) (Z.lor PTYPE_TEXT PTYPE_TAG_DONTCOPY) 1 (fmt_d (cn_id c) ++ str " data " ++ temp))
  else Ret (g, []).

(** [for (;;)] of dispatch_message. A round reads a header or the rest of a
    message, or the next round reads a header. *)
Fixpoint dispatch_loop (fuel : nat) (g : gate) (i id : Z) : outcome (gate * list action) :=
  match fuel with
  | O => Undefined
  | S fuel =>
      c ← arr_get (g_conn g) i;
      '(size, db, mp) ← databuffer_readheader (cn_buffer c) (g_mp g) (g_header_size g);
      conn ← arr_set (g_conn g) i (with_buffer c db);
      let g := with_conn g conn mp in
      if size <? 0 then Ret (g, [])
      else if 0 <? size then
        if 0x1000000 <=? size then
          '(db, mp) ← databuffer_clear db mp;
          conn ← arr_set (g_conn g) i (with_buffer c db);
          Ret (with_conn g conn mp, [AClose id; AError (str "Recv socket message > 16M")])
        else
          '(g, sent) ← _forward g i size;
          c ← arr_get (g_conn g) i;
          g ← set_conn g i (with_buffer c (databuffer_reset (cn_buffer c)));
          '(g, rest) ← dispatch_loop fuel g i id;
          Ret (g, sent ++ rest)
      else dispatch_loop fuel g i id
  end.

Definition dispatch_message (g : gate) (i id : Z) (data : bytes) (sz : Z) : outcome (gate * list action) :=
  c ← arr_get (g_conn g) i;
  '(db, mp) ← databuffer_push junk (cn_buffer c) (g_mp g) data sz;
  conn ← arr_set (g_conn g) i (with_buffer c db);
  dispatch_loop (2 * Z.to_nat (db_size db) + 2) (with_conn g conn mp) i id.

(** [sz] is the size of what follows the structure. *)
Definition dispatch_socket_message (g : gate) (message : skynet_socket_message) (sz : Z) : outcome (gate * list action) :=
  let type := sm_type message in
  if type =? SKYNET_SOCKET_TYPE_DATA then
    id ← hashid_lookup (g_hash g) (sm_id message);
    if 0 <=? id then
      data ← deref (sm_buffer message);
      dispatch_message g id (sm_id message) data (sm_ud message)
    else Ret (g, [AError (str "Drop unknown connection " ++ fmt_d (sm_id message) ++ str " message"); AClose (sm_id message)])
  else if type =? SKYNET_SOCKET_TYPE_CONNECT then
    if sm_id message =? g_listen_id g then Ret (g, [])
    else
      id ← hashid_lookup (g_hash g) (sm_id message);
      Ret (g, if id <? 0 then [AError (str "Close unknown connection " ++ fmt_d (sm_id message)); AClose (sm_id message)] else [])
  else if (type =? SKYNET_SOCKET_TYPE_CLOSE) || (type =? SKYNET_SOCKET_TYPE_ERROR) then
    '(id, hash) ← hashid_remove (g_hash g) (sm_id message);
    let g := with_hash g hash in
    if 0 <=? id then
      c ← arr_get (g_conn g) id;
      '(_, mp) ← databuffer_clear (cn_buffer c) (g_mp g);
      conn ← arr_set (g_conn g) id (Connection (-1) 0 0 [] db_zero);
      let g := with_conn g conn mp in
      Ret (g, _report g (fmt_d (sm_id message) ++ str " close"))
    else Ret (g, [])
  else if type =? SKYNET_SOCKET_TYPE_ACCEPT then
    _ ← assert_ (g_listen_id g =? sm_id message);
    if hashid_full (g_hash g) then Ret (g, [AClose (sm_ud message)])
    else
      '(i, hash) ← hashid_insert (g_hash g) (sm_ud message);
      let g := with_hash g hash in
      c ← arr_get (g_conn g) i;
      let sz := if 32 <=? sz then 32 - 1 else sz in
      if (sz <? 0) || (Z.of_nat (length (sm_padding message)) <? sz) then Undefined
      else
        let name := until_zero (take (Z.to_nat sz) (sm_padding message)) in
        let c := Connection (sm_ud message) (cn_agent c) (cn_client c) name (cn_buffer c) in
        g ← set_conn g i c;
        Ret (g, _report g (fmt_d (cn_id c) ++ str " open " ++ fmt_d (cn_id c) ++ str " " ++ name ++ str ":0") ++
                [AError (str "socket open: " ++ fmt_x (u32 (cn_id c)))])
  else if type =? SKYNET_SOCKET_TYPE_WARNING then
    Ret (g, [AError (str "fd (" ++ fmt_d (sm_id message) ++ str ") send buffer (" ++ fmt_d (sm_ud message) ++ str ")K")])
  else Ret (g, []).

(** Messages of the callback, by their type. *)
Inductive gate_message := MText (msg : bytes) | MClient (source : Z) (msg : bytes) | MSocket (message : skynet_socket_message) | MOther (type : Z).

(** The callback: whether the node must keep the message comes with the result. *)
Definition _cb (g : gate) (m : gate_message) : outcome (Z * gate * list action) :=
  match m with
  | MText msg => '(g, a) ← _ctrl g msg; Ret (0, g, a)
  | MClient source msg =>
      let sz := Z.of_nat (length msg) in
      if sz <=? 4 then Ret (0, g, [AError (str "Invalid client message from " ++ fmt_x source)])
      else
        let idbuf := drop (Z.to_nat (sz - 4)) msg in
        let b i := nth i idbuf 0 in
        let uid := u32 (Z.lor (Z.lor (Z.lor (b 0%nat) (Z.shiftl (b 1%nat) 8)) (Z.shiftl (b 2%nat) 16)) (Z.shiftl (b 3%nat) 24)) in
        id ← hashid_lookup (g_hash g) (s32 uid);
        if 0 <=? id then Ret (1, g, [ASocketSend (s32 uid) (take (Z.to_nat (sz - 4)) msg)])
        else Ret (0, g, [AError (str "Invalid client id " ++ fmt_d (s32 uid) ++ str " from " ++ fmt_x source)])
  | MSocket message => '(g, a) ← dispatch_socket_message g message (Z.of_nat (length (sm_padding message))); Ret (0, g, a)
  | MOther _ => Ret (0, g, [])
  end.

(** ** Starting *)

Definition start_listen (g : gate) (listen_addr : bytes) : outcome (Z * gate * list action) :=
  let '(host, portstr) := match strchr listen_addr 58 with
                          | None => ([], listen_addr)
                          | Some p => (take (length listen_addr - length p) listen_addr, drop 1 p)
                          end in
  let port := s32 (fst (strtol portstr 10)) in
  if port <=? 0 then Ret (1, g, [AError (str "Invalid gate address " ++ listen_addr)])
  else
    let id := socket_listen host port in
    let g := with_listen g id in
    if id <? 0 then Ret (1, g, [AListen host port]) else Ret (0, g, [AListen host port; AStart id]).

(** One [%d] of sscanf. *)
Definition scan_d (s : bytes) : option (Z * bytes) :=
  let '(neg, v, rest) := parse_number 10 s in
  if bool_decide (rest = s) then None else Some (s32 (if neg : bool then - v else v), rest).

(** [sscanf(parm, "%c %s %s %d %d", ...)]: how many were read, and their values. *)
Definition scan_parm (parm : bytes) : Z * (Z * bytes * bytes * Z * Z) :=
  match parm with
  | [] => (-1, (0, [], [], 0, 0))
  | header :: s =>
      match scan_s s with
      | None => (1, (header, [], [], 0, 0))
      | Some (watchdog, s) =>
          match scan_s s with
          | None => (2, (header, watchdog, [], 0, 0))
          | Some (binding, s) =>
              match scan_d s with
              | None => (3, (header, watchdog, binding, 0, 0))
              | Some (tag, s) =>
                  match scan_d s with
                  | None => (4, (header, watchdog, binding, tag, 0))
                  | Some (max, _) => (5, (header, watchdog, binding, tag, max))
                  end
              end
          end
      end
  end.

Definition gate_init (g : gate) (parm : option bytes) : outcome (Z * gate * list action) :=
  match parm with
  | None => Ret (1, g, [])
  | Some parm =>
      let '(n, (header, watchdog, binding, client_tag, max)) := scan_parm parm in
      if n <? 4 then Ret (1, g, [AError (str "Invalid gate parm " ++ parm)])
      else if max <=? 0 then Ret (1, g, [AError (str "Need max connection")])
      else if negb (header =? 83) && negb (header =? 76) then Ret (1, g, [AError (str "Invalid data header style")])
      else
        let client_tag := if client_tag =? 0 then PTYPE_CLIENT else client_tag in
        let name := char_at watchdog 0 =? 33 in
        let handle := if name then 0 else queryname watchdog in
        if negb name && (handle =? 0) then Ret (1, g, [AError (str "Invalid watchdog " ++ watchdog)])
        else
          hash ← hashid_init max;
          let conn := replicate (Z.to_nat max) (Connection (-1) 0 0 [] db_zero) in
          start_listen (Gate (g_listen_id g) handle (g_broker g) client_tag (if header =? 83 then 2 else 4) max hash conn (g_mp g)) binding
  end.
End gate.
