(* ===== verification/GateServe.v ===== *)
(** The gate as a table of streams: connections are accepted, receive data in
    pieces, are given agents and closed, and every message that their streams
    hold is forwarded, in order. *)
From S2P Require Import Prelude Cstr Netpack Node Databuffer DatabufferStream HashId HashIdPlaces Gate.

#[local] Arguments Z.mul : simpl never.
#[local] Opaque Z.to_nat.

(** ** The buffers of all connections *)

(** Buffers that share a pool, and the bytes that they hold. *)
Definition buffers (mp : messagepool) (dbs : list databuffer) (views : list bytes) : Prop :=
  exists (nodes : list (list (ptr * bytes))) fl, length nodes = length dbs /\ length views = length dbs /\
    (forall i db n, dbs !! i = Some db -> nodes !! i = Some n -> db_ok mp db n /\ views !! i = Some (view db n)) /\
    pool_ok mp fl (concat (map (fmap fst) nodes)).

Lemma concat_focus {A} (l : list (list A)) i x : l !! i = Some x ->
  exists others, concat l ≡ₚ x ++ others /\ forall y, concat (<[i := y]> l) ≡ₚ y ++ others.
Proof.
  revert i. induction l as [|z l IH]; intros [|i] Hi; try done.
  - injection Hi as ->. exists (concat l). done.
  - destruct (IH i Hi) as (others & H1 & H2). exists (z ++ others). change (<[S i := ?y]> (z :: l)) with (z :: <[i := y]> l). cbn [concat].
    split; [|intros y]; rewrite ?H1, ?H2; rewrite !app_assoc; by rewrite (Permutation_app_comm z).
Qed.

Lemma pool_ok_perm mp fl used used' : used ≡ₚ used' -> pool_ok mp fl used -> pool_ok mp fl used'.
Proof. intros H [H1 H2 H3]. split; [done| |]; [by rewrite <- H|]. intros p. rewrite <- H. apply H3. Qed.

(** One of the buffers, and what an operation on it must keep. *)
Lemma buffers_focus mp dbs views i db v : buffers mp dbs views -> dbs !! i = Some db -> views !! i = Some v ->
  exists n others fl, db_ok mp db n /\ v = view db n /\ pool_ok mp fl (n.*1 ++ others) /\
    forall mp' db' n' fl', db_ok mp' db' n' -> pool_ok mp' fl' (n'.*1 ++ others) -> same mp mp' others ->
      buffers mp' (<[i := db']> dbs) (<[i := view db' n']> views).
Proof.
  intros (nodes & fl & Hl1 & Hl2 & Hok & Hp) Hdb Hvi.
  assert (Hi : (i < length dbs)%nat) by (by eapply lookup_lt_Some).
  destruct (lookup_lt_is_Some_2 nodes i) as [n Hn]; [lia|]. destruct (Hok i db n Hdb Hn) as [Hdn Hv]. rewrite Hvi in Hv. injection Hv as ->.
  assert (Hni : map (fmap fst) nodes !! i = Some n.*1) by (rewrite list_lookup_fmap, Hn; done).
  destruct (concat_focus _ i _ Hni) as (others & H1 & H2). exists n, others, fl. split; [done|]. split; [done|].
  split; [by apply (pool_ok_perm _ _ _ _ H1)|]. intros mp' db' n' fl' Hdb' Hp' Hs. exists (<[i := n']> nodes), fl'.
  rewrite !length_insert. split; [done|]. split; [done|]. split.
  - intros j dbj nj Hj Hnj. destruct (decide (i = j)) as [<-|Hne].
    + rewrite list_lookup_insert_eq in Hj by lia. rewrite list_lookup_insert_eq in Hnj by lia. injection Hj as <-. injection Hnj as <-. split; [done|]. apply list_lookup_insert_eq. lia.
    + rewrite list_lookup_insert_ne in Hj by done. rewrite list_lookup_insert_ne in Hnj by done. rewrite list_lookup_insert_ne by done. destruct (Hok j dbj nj Hj Hnj) as [Hd Hvj].
      split; [|done]. apply (db_same mp); [|done]. eapply same_sub; [|exact Hs]. intros p Hpj. specialize (H2 []). cbn in H2.
      rewrite <- H2. apply list_elem_of_In, in_concat. exists nj.*1. split; [|by apply list_elem_of_In].
      apply list_elem_of_In, list_elem_of_lookup. exists j. rewrite list_lookup_insert_ne by done. by rewrite list_lookup_fmap, Hnj.
  - change map with (@fmap list list_fmap). rewrite list_fmap_insert. apply (pool_ok_perm _ _ (n'.*1 ++ others)); [|done]. symmetry. apply H2.
Qed.

Lemma buffers_header mp dbs views i db v h : buffers mp dbs views -> dbs !! i = Some db -> views !! i = Some v ->
  buffers mp (<[i := with_header db h]> dbs) views.
Proof.
  intros H Hdb Hv. destruct (buffers_focus mp dbs views i db v H Hdb Hv) as (n & others & fl & [[Hl Ht Ho] Hz] & Ev & Hp & Hgo).
  pose proof (Hgo mp (with_header db h) n fl) as Hg. change (view (with_header db h) n) with (view db n) in Hg.
  rewrite <- Ev, (list_insert_id views) in Hg by done. apply Hg; [|done|done]. split; [by split|exact Hz].
Qed.

Lemma buffers_size mp dbs views i db v : buffers mp dbs views -> dbs !! i = Some db -> views !! i = Some v -> db_size db = Z.of_nat (length v).
Proof. intros H Hdb Hv. by destruct (buffers_focus mp dbs views i db v H Hdb Hv) as (n & others & fl & [_ Hz] & -> & _). Qed.

Lemma buffers_read mp dbs views i db v sz : buffers mp dbs views -> dbs !! i = Some db -> views !! i = Some v ->
  0 < sz <= Z.of_nat (length v) ->
  exists db' mp', databuffer_read db mp sz = Ret (take (Z.to_nat sz) v, db', mp') /\ db_header db' = db_header db /\
    buffers mp' (<[i := db']> dbs) (<[i := drop (Z.to_nat sz) v]> views).
Proof.
  intros H Hdb Hv Hsz. destruct (buffers_focus mp dbs views i db v H Hdb Hv) as (n & others & fl & Hok & -> & Hp & Hgo).
  destruct (databuffer_read_spec mp fl db n others sz Hok Hp Hsz) as (db' & mp' & n' & fl' & E & Hok' & Hview & Hp' & Hs & Hh).
  exists db', mp'. split; [done|]. split; [done|]. rewrite <- Hview. by apply (Hgo mp' db' n' fl').
Qed.

Lemma buffers_push junk mp dbs views i db v data : buffers mp dbs views -> dbs !! i = Some db -> views !! i = Some v ->
  Z.of_nat (length v) + Z.of_nat (length data) <= INT_MAX ->
  exists db' mp', databuffer_push junk db mp data (Z.of_nat (length data)) = Ret (db', mp') /\ db_header db' = db_header db /\
    buffers mp' (<[i := db']> dbs) (<[i := v ++ data]> views).
Proof.
  intros H Hdb Hv Hsz. destruct (buffers_focus mp dbs views i db v H Hdb Hv) as (n & others & fl & Hok & -> & Hp & Hgo).
  destruct (databuffer_push_spec junk mp fl db n others data Hok Hp Hsz) as (db' & mp' & n' & fl' & E & Hok' & Hview & Hp' & Hs & Hh).
  exists db', mp'. split; [done|]. split; [done|]. rewrite <- Hview. by apply (Hgo mp' db' n' fl').
Qed.

Lemma buffers_clear mp dbs views i db v : buffers mp dbs views -> dbs !! i = Some db -> views !! i = Some v ->
  exists mp', databuffer_clear db mp = Ret (db_zero, mp') /\ buffers mp' (<[i := db_zero]> dbs) (<[i := []]> views).
Proof.
  intros H Hdb Hv. destruct (buffers_focus mp dbs views i db v H Hdb Hv) as (n & others & fl & Hok & -> & Hp & Hgo).
  destruct (databuffer_clear_spec mp fl db n others Hok Hp) as (mp' & fl' & E & Hp' & Hs). exists mp'. split; [done|].
  apply (Hgo mp' db_zero [] fl'); [apply db_zero_ok|done|done].
Qed.

Lemma buffers_zero n : buffers mp_zero (replicate n db_zero) (replicate n []).
Proof.
  exists (replicate n []), []. rewrite !length_replicate. split; [done|]. split; [done|]. split.
  - intros i db nd [-> Hi]%lookup_replicate [-> _]%lookup_replicate. split; [apply db_zero_ok|]. by apply lookup_replicate.
  - assert (concat (map (fmap fst) (replicate n ([] : list (ptr * bytes)))) = []) as -> by (induction n; cbn; done).
    split; [done|apply NoDup_nil_2|]. by intros p ?%elem_of_nil.
Qed.

(** ** Frames *)

(** The messages at the start of a stream, and what is left of it; [None] if a
    message of 16M or more is complete. A header with the sign bit is never
    complete. *)
Fixpoint frames_loop (fuel : nat) (hs : Z) (s : bytes) : list bytes * option bytes :=
  match fuel with
  | O => ([], Some s)
  | S fuel =>
      if Z.of_nat (length s) <? hs then ([], Some s)
      else
        let n := header_value (take (Z.to_nat hs) s) hs in
        let rest := drop (Z.to_nat hs) s in
        if (n <? 0) || (Z.of_nat (length rest) <? n) then ([], Some s)
        else if 0x1000000 <=? n then ([], None)
        else
          let '(ms, r) := frames_loop fuel hs (drop (Z.to_nat n) rest) in
          ((if n =? 0 then [] else [take (Z.to_nat n) rest]) ++ ms, r)
  end.

Definition frames (hs : Z) (s : bytes) : list bytes * option bytes := frames_loop (S (length s)) hs s.

Lemma frames_fuel hs s : 0 < hs -> forall fuel fuel', (length s < fuel)%nat -> (length s < fuel')%nat ->
  frames_loop fuel hs s = frames_loop fuel' hs s.
Proof.
  intros Hhs fuel. revert s. induction fuel as [|fuel IH]; intros s [|fuel'] Hf Hf'; try lia. cbn [frames_loop].
  destruct (Z.ltb_spec (Z.of_nat (length s)) hs); [done|]. cbv zeta. destruct (_ || _); [done|]. destruct (0x1000000 <=? _); [done|].
  rewrite (IH _ fuel'); [done|rewrite !length_drop; lia..].
Qed.

Lemma frames_eq hs s : 0 < hs -> frames hs s =
  if Z.of_nat (length s) <? hs then ([], Some s)
  else
    let n := header_value (take (Z.to_nat hs) s) hs in
    let rest := drop (Z.to_nat hs) s in
    if (n <? 0) || (Z.of_nat (length rest) <? n) then ([], Some s)
    else if 0x1000000 <=? n then ([], None)
    else let '(ms, r) := frames hs (drop (Z.to_nat n) rest) in ((if n =? 0 then [] else [take (Z.to_nat n) rest]) ++ ms, r).
Proof.
  intros Hhs. unfold frames at 1. cbn [frames_loop]. destruct (Z.ltb_spec (Z.of_nat (length s)) hs); [done|]. cbv zeta.
  destruct (_ || _); [done|]. destruct (0x1000000 <=? _); [done|]. unfold frames.
  set (d := drop _ (drop _ s)). by rewrite (frames_fuel hs d Hhs (length s) (S (length d))) by (unfold d; rewrite ?length_drop; lia).
Qed.

(** The stream that is left, when its header may have been read already. *)
Definition pending (hs h : Z) (v p : bytes) : Prop :=
  (h = 0 /\ p = v) \/ (h <> 0 /\ exists hd, Z.of_nat (length hd) = hs /\ header_value hd hs = h /\ p = hd ++ v).

Lemma pending_zero hs v : pending hs 0 v v.
Proof. by left. Qed.

Lemma readheader_spec mp dbs views i db v p hs : buffers mp dbs views -> dbs !! i = Some db -> views !! i = Some v ->
  hs = 2 \/ hs = 4 -> pending hs (db_header db) v p ->
  exists r db' mp' v', databuffer_readheader db mp hs = Ret (r, db', mp') /\ buffers mp' (<[i := db']> dbs) (<[i := v']> views) /\
    (length v' <= length v)%nat /\
    (if Z.of_nat (length p) <? hs then r = -1 /\ pending hs (db_header db') v' p
     else
       let n := header_value (take (Z.to_nat hs) p) hs in
       let rest := drop (Z.to_nat hs) p in
       v' = rest /\ db_header db' = n /\ r = (if Z.of_nat (length rest) <? n then -1 else n) /\
       (n = 0 -> (length v' < length v)%nat) /\ (n <> 0 -> pending hs n v' p)).
Proof.
  intros H Hdb Hv Hhs Hp. pose proof (buffers_size _ _ _ _ _ _ H Hdb Hv) as Hsz. unfold databuffer_readheader. cbv zeta.
  destruct Hp as [[Hh ->]|(Hh & hd & Hl & Hval & ->)].
  - rewrite Hh. change (0 =? 0) with true. cbv iota. rewrite Hsz. destruct (Z.ltb_spec (Z.of_nat (length v)) hs) as [Hlt|Hge].
    + exists (-1), db, mp, v. rewrite !list_insert_id by done. split; [done|]. split; [done|]. split; [lia|]. split; [done|]. left. done.
    + destruct (buffers_read mp dbs views i db v hs H Hdb Hv) as (db' & mp' & E & Hh' & Hb'); [lia|]. rewrite E, bind_Ret.
      set (n := header_value _ hs). assert (Hi : (i < length dbs)%nat) by (by eapply lookup_lt_Some).
      assert (Hiv : (i < length views)%nat) by (by eapply lookup_lt_Some).
      pose proof (buffers_header mp' _ _ i db' (drop (Z.to_nat hs) v) n Hb') as Hbh.
      rewrite list_insert_insert_eq in Hbh. specialize (Hbh ltac:(by apply list_lookup_insert_eq) ltac:(by apply list_lookup_insert_eq)).
      pose proof (buffers_size mp' _ _ i (with_header db' n) (drop (Z.to_nat hs) v) Hbh ltac:(by apply list_lookup_insert_eq) ltac:(by apply list_lookup_insert_eq)) as Hsz'.
      eexists _, (with_header db' n), mp', (drop (Z.to_nat hs) v). split; [reflexivity|]. split; [done|].
      rewrite length_drop. split; [lia|]. split; [done|]. split; [done|]. change (db_size (with_header db' n)) with (db_size db') in *.
      cbn [with_header db_header db_size]. rewrite Hsz', length_drop. split; [done|]. split; [lia|].
      intros Hn. right. split; [done|]. exists (take (Z.to_nat hs) v). rewrite length_take, take_drop. split; [lia|done].
  - rewrite (proj2 (Z.eqb_neq _ 0)) by done. eexists _, db, mp, v. split; [reflexivity|]. rewrite !list_insert_id by done.
    split; [done|]. split; [lia|]. rewrite length_app, (proj2 (Z.ltb_ge _ _)) by lia. rewrite take_app_length', drop_app_length' by lia.
    split; [done|]. split; [done|]. rewrite Hsz, Hval. split; [done|]. split; [done|]. intros _. right. split; [done|]. by exists hd.
Qed.

(** ** One connection *)

(** Where a message of the connection [c] goes. *)
Definition send_action (g : gate) (c : connection) (m : bytes) : action :=
  if negb (g_broker g =? 0) then ASend 0 (g_broker g) (Z.lor (g_client_tag g) PTYPE_TAG_DONTCOPY) 1 m
  else if negb (cn_agent c =? 0) then ASend (cn_client c) (cn_agent c) (Z.lor (g_client_tag g) PTYPE_TAG_DONTCOPY) 1 m
  else ASend 0 (g_watchdog g) (Z.lor PTYPE_TEXT PTYPE_TAG_DONTCOPY) 1 (fmt_d (cn_id c) ++ str " data " ++ m).

(** There is somebody to send to. *)
Definition receives (g : gate) : Prop := g_broker g <> 0 \/ g_watchdog g <> 0.

Abbreviation conn_buffers g := (cn_buffer <$> g_conn g).

Lemma buffers_insert (conn : list connection) (i : nat) c db : cn_buffer <$> <[i := with_buffer c db]> conn = <[i := db]> (cn_buffer <$> conn).
Proof. by rewrite list_fmap_insert. Qed.

Section dispatch.
Context (g : gate) (i : nat) (c : connection) (views : list bytes) (v : bytes).
Hypothesis Hc : g_conn g !! i = Some c.
Hypothesis Hb : buffers (g_mp g) (conn_buffers g) views.
Hypothesis Hv : views !! i = Some v.

Lemma conn_get : arr_get (g_conn g) (Z.of_nat i) = Ret c.
Proof. apply arr_get_Ret. by rewrite arr_lookup_nat. Qed.

Lemma buffer_at : conn_buffers g !! i = Some (cn_buffer c).
Proof. by rewrite list_lookup_fmap, Hc. Qed.

Lemma conn_set x : arr_set (g_conn g) (Z.of_nat i) x = Ret (<[i := x]> (g_conn g)).
Proof. apply lookup_lt_Some in Hc. rewrite arr_set_Ret, Nat2Z.id by lia. done. Qed.

Lemma forward_spec size : receives g -> 0 < size <= Z.of_nat (length v) ->
  exists db mp, _forward g (Z.of_nat i) size =
      Ret (with_conn g (<[i := with_buffer c db]> (g_conn g)) mp, [send_action g c (take (Z.to_nat size) v)]) /\
    db_header db = db_header (cn_buffer c) /\
    buffers mp (<[i := db]> (conn_buffers g)) (<[i := drop (Z.to_nat size) v]> views).
Proof.
  intros Hr Hsz. destruct (buffers_read _ _ _ i _ v size Hb buffer_at Hv Hsz) as (db & mp & E & Hh & Hb').
  exists db, mp. split; [|done]. unfold _forward. rewrite conn_get, bind_Ret. cbv zeta. unfold send_action.
  assert (Hread : forall send : bytes -> action,
    ('(temp, db, mp) ← databuffer_read (cn_buffer c) (g_mp g) size; conn ← arr_set (g_conn g) (Z.of_nat i) (with_buffer c db);
     Ret (with_conn g conn mp, [send temp])) = Ret (with_conn g (<[i := with_buffer c db]> (g_conn g)) mp, [send (take (Z.to_nat size) v)])).
  { intros send. rewrite E, bind_Ret, conn_set, bind_Ret. done. }
  destruct (Z.eqb_spec (g_broker g) 0) as [E1|]; cbn [negb]; [|apply Hread].
  destruct (Z.eqb_spec (cn_agent c) 0) as [E2|]; cbn [negb]; [|apply Hread].
  destruct (Z.eqb_spec (g_watchdog g) 0) as [E3|]; cbn [negb]; [by destruct Hr|].
  by rewrite (Hread (fun temp => ASend 0 (g_watchdog g) (Z.lor PTYPE_TEXT PTYPE_TAG_DONTCOPY) 1 (fmt_d (cn_id c) ++ str " data " ++ temp))).
Qed.
End dispatch.

Lemma with_conn_twice g conn mp conn' mp' : with_conn (with_conn g conn mp) conn' mp' = with_conn g conn' mp'.
Proof. done. Qed.

(** What happens to a connection whose stream is [p]. *)
Definition stream_actions (g : gate) (c : connection) (id : Z) (fr : list bytes * option bytes) : list action :=
  map (send_action g c) (fst fr) ++ match snd fr with Some _ => [] | None => [AClose id; AError (str "Recv socket message > 16M")] end.

(** Writing a place twice. *)
Ltac squash_in H := rewrite ?buffers_insert in H; repeat rewrite list_insert_insert_eq in H.
Ltac squash_goal := rewrite ?buffers_insert; repeat rewrite list_insert_insert_eq.

(** The loop forwards the messages of the stream. *)
Lemma dispatch_loop_spec fd fuel : forall g i c views v p,
  g_conn g !! i = Some c -> buffers (g_mp g) (conn_buffers g) views -> views !! i = Some v ->
  g_header_size g = 2 \/ g_header_size g = 4 -> receives g ->
  pending (g_header_size g) (db_header (cn_buffer c)) v p -> (length v < fuel)%nat ->
  exists db mp v', dispatch_loop fuel g (Z.of_nat i) fd =
      Ret (with_conn g (<[i := with_buffer c db]> (g_conn g)) mp, stream_actions g c fd (frames (g_header_size g) p)) /\
    buffers mp (<[i := db]> (conn_buffers g)) (<[i := v']> views) /\
    pending (g_header_size g) (db_header db) v' (default [] (snd (frames (g_header_size g) p))).
Proof.
  induction fuel as [|fuel IH]; intros g i c views v p Hc Hb Hv Hhs Hr Hp Hf; [lia|]. set (hs := g_header_size g) in *.
  assert (Hi : (i < length (g_conn g))%nat) by (by eapply lookup_lt_Some).
  assert (Hiv : (i < length views)%nat) by (by eapply lookup_lt_Some).
  assert (Hib : (i < length (conn_buffers g))%nat) by (by rewrite length_fmap).
  destruct (readheader_spec _ _ _ i _ v p hs Hb (buffer_at _ _ _ Hc) Hv Hhs Hp) as (r & db & mp & v1 & E & Hb1 & Hl1 & Hcase).
  cbn [dispatch_loop]. rewrite (conn_get g i c Hc), bind_Ret. fold hs. rewrite E, bind_Ret, (conn_set g i c Hc), bind_Ret. cbv zeta.
  rewrite frames_eq by lia. destruct (Z.ltb_spec (Z.of_nat (length p)) hs) as [Hlt|Hge].
  { destruct Hcase as [-> Hp']. exists db, mp, v1. done. }
  cbv zeta in Hcase |- *. set (n := header_value (take (Z.to_nat hs) p) hs) in *. set (rest := drop (Z.to_nat hs) p) in *.
  destruct Hcase as (-> & Hh & -> & Hlt & Hpn).
  destruct (Z.ltb_spec n 0) as [Hneg|Hnn]; cbn [orb].
  { rewrite (proj2 (Z.ltb_ge _ n)), (proj2 (Z.ltb_lt n 0)) by lia. exists db, mp, rest. split; [done|]. split; [done|].
    cbn [snd default from_option id]. rewrite Hh. apply Hpn. lia. }
  destruct (Z.ltb_spec (Z.of_nat (length rest)) n) as [Hless|Henough].
  { exists db, mp, rest. split; [done|]. split; [done|]. cbn [snd default from_option id]. rewrite Hh. apply Hpn. lia. }
  rewrite (proj2 (Z.ltb_ge n 0)) by lia.
  set (g1 := with_conn g (<[i := with_buffer c db]> (g_conn g)) mp).
  assert (Hc1 : g_conn g1 !! i = Some (with_buffer c db)) by (cbn; by apply list_lookup_insert_eq).
  assert (Hb1' : buffers (g_mp g1) (conn_buffers g1) (<[i := rest]> views)) by (cbn; by rewrite buffers_insert).
  assert (Hv1 : <[i := rest]> views !! i = Some rest) by (by apply list_lookup_insert_eq).
  destruct (Z.eqb_spec n 0) as [Hz|Hz].
  - rewrite (proj2 (Z.leb_gt _ n)), (proj2 (Z.ltb_ge 0 n)) by lia. rewrite Hz. change (Z.to_nat 0) with O. rewrite drop_0.
    destruct (IH g1 i (with_buffer c db) (<[i := rest]> views) rest rest) as (db2 & mp2 & v2 & E2 & Hb2 & Hp2); [done|done|done|done|done| |lia|].
    { cbn [with_buffer cn_buffer]. rewrite Hh, Hz. by left. }
    exists db2, mp2, v2. rewrite E2. cbn [g1 with_conn g_conn g_mp] in Hb2. squash_in Hb2. split; [|split; [done|]].
    + unfold g1. rewrite with_conn_twice. cbn [g_conn with_conn]. squash_goal. fold hs. change (g_header_size g1) with hs.
      do 2 f_equal. change (g_header_size (with_conn _ _ _)) with hs. by destruct (frames hs rest).
    + change (g_header_size g1) with hs in Hp2. by destruct (frames hs rest).
  - rewrite (proj2 (Z.ltb_lt 0 n)) by lia. destruct (Z.leb_spec 0x1000000 n) as [Hbig|Hsmall].
    + pose proof (buffer_at g1 i (with_buffer c db) Hc1) as Hba. cbn [with_buffer cn_buffer] in Hba.
      destruct (buffers_clear (g_mp g1) _ _ i db rest Hb1' Hba Hv1) as (mp2 & E2 & Hb2). cbn [g1 with_conn g_mp] in E2. rewrite E2, bind_Ret.
      change (g_conn g1) with (<[i := with_buffer c db]> (g_conn g)). rewrite arr_set_Ret, bind_Ret, Nat2Z.id by (rewrite length_insert; lia).
      exists db_zero, mp2, []. squash_goal. split; [done|].
      cbn [g1 with_conn g_conn] in Hb2. squash_in Hb2. split; [done|]. by left.
    + destruct (forward_spec g1 i (with_buffer c db) _ rest Hc1 Hb1' Hv1 n) as (db2 & mp2 & E2 & Hh2 & Hb2); [done|lia|]. rewrite E2, bind_Ret.
      set (g2 := with_conn g1 _ mp2). cbn [g1 with_conn g_conn] in Hb2. squash_in Hb2.
      assert (Hc2 : g_conn g2 !! i = Some (with_buffer c db2)).
      { cbn. apply list_lookup_insert_eq. by rewrite length_insert. }
      rewrite (conn_get g2 i _ Hc2), bind_Ret. unfold set_conn. rewrite (conn_set g2 i _ Hc2), !bind_Ret.
      change (cn_buffer (with_buffer c db2)) with db2. change (with_buffer (with_buffer c db2) ?d) with (with_buffer c d).
      set (g3 := with_conn g2 _ (g_mp g2)).
      assert (Hc3 : g_conn g3 !! i = Some (with_buffer c (databuffer_reset db2))).
      { cbn. apply list_lookup_insert_eq. by rewrite !length_insert. }
      assert (Hb3 : buffers (g_mp g3) (conn_buffers g3) (<[i := drop (Z.to_nat n) rest]> views)).
      { cbn [g3 g2 g1 with_conn g_conn g_mp]. squash_goal. pose proof (buffers_header mp2 _ _ i db2 (drop (Z.to_nat n) rest) 0 Hb2) as H.
        squash_in H. apply H; by apply list_lookup_insert_eq. }
      destruct (IH g3 i _ _ (drop (Z.to_nat n) rest) (drop (Z.to_nat n) rest) Hc3 Hb3) as (db4 & mp4 & v4 & E4 & Hb4 & Hp4);
        [by apply list_lookup_insert_eq|done|done|by left|rewrite length_drop; lia|].
      rewrite E4, bind_Ret. exists db4, mp4, v4. change (g_header_size g3) with hs in *. split; [|split].
      * unfold g3, g2, g1. rewrite !with_conn_twice. cbn [g_conn with_conn]. squash_goal. do 2 f_equal.
        change (g_header_size (with_conn _ _ _)) with hs. by destruct (frames hs (drop (Z.to_nat n) rest)) as [ms [r|]].
      * cbn [g3 g2 g1 with_conn g_conn g_mp] in Hb4. by squash_in Hb4.
      * by destruct (frames hs (drop (Z.to_nat n) rest)).
Qed.

(** ** The specification: a map of streams *)

Record sconn := SConn { sc_agent : Z; sc_client : Z; sc_pending : bytes }.

(** What happens to a gate: a message of a socket, or an agent for a connection. *)
Inductive gate_op := OpSocket (m : skynet_socket_message) | OpForward (fd agent client : Z).

Definition gate_do (junk : message) (g : gate) (op : gate_op) : outcome (gate * list action) :=
  match op with
  | OpSocket m => dispatch_socket_message junk g m (Z.of_nat (length (sm_padding m)))
  | OpForward fd agent client => g ← _forward_agent g fd agent client; Ret (g, [])
  end.

Fixpoint gate_run (junk : message) (g : gate) (ops : list gate_op) : outcome (gate * list action) :=
  match ops with
  | [] => Ret (g, [])
  | op :: ops => '(g, a) ← gate_do junk g op; '(g, rest) ← gate_run junk g ops; Ret (g, a ++ rest)
  end.

(** The connection that the actions on [fd] depend on. *)
Definition conn_of (fd : Z) (sc : sconn) : connection := Connection fd (sc_agent sc) (sc_client sc) [] db_zero.

Definition remote_name (m : skynet_socket_message) : bytes := until_zero (take 31 (sm_padding m)).

(** The connections after an operation and what the gate must do, by the gate's
    configuration [g]; [None] where the socket server would break its contract: data
    of another size than it says, more data than an [int] counts, a listening socket
    of somebody else, or a new socket with a number that is in use or too large. *)
Definition spec_do (g : gate) (S : gmap Z sconn) (op : gate_op) : option (gmap Z sconn * list action) :=
  match op with
  | OpForward fd agent client =>
      Some (match S !! fd with Some sc => <[fd := SConn agent client (sc_pending sc)]> S | None => S end, [])
  | OpSocket m =>
      let type := sm_type m in
      let fd := sm_id m in
      if type =? SKYNET_SOCKET_TYPE_DATA then
        match S !! fd, sm_buffer m with
        | Some sc, Some data =>
            if bool_decide (sm_ud m = Z.of_nat (length data) /\ Z.of_nat (length (sc_pending sc ++ data)) <= INT_MAX) then
              let fr := frames (g_header_size g) (sc_pending sc ++ data) in
              Some (<[fd := SConn (sc_agent sc) (sc_client sc) (default [] (snd fr))]> S, stream_actions g (conn_of fd sc) fd fr)
            else None
        | Some _, None => None
        | None, _ => Some (S, [AError (str "Drop unknown connection " ++ fmt_d fd ++ str " message"); AClose fd])
        end
      else if type =? SKYNET_SOCKET_TYPE_CONNECT then
        Some (S, if (fd =? g_listen_id g) || bool_decide (is_Some (S !! fd)) then []
                 else [AError (str "Close unknown connection " ++ fmt_d fd); AClose fd])
      else if (type =? SKYNET_SOCKET_TYPE_CLOSE) || (type =? SKYNET_SOCKET_TYPE_ERROR) then
        Some (delete fd S, if bool_decide (is_Some (S !! fd)) then _report g (fmt_d fd ++ str " close") else [])
      else if type =? SKYNET_SOCKET_TYPE_ACCEPT then
        let new := sm_ud m in
        if negb (g_listen_id g =? fd) then None
        else if Z.of_nat (size S) =? g_max_connection g then Some (S, [AClose new])
        else if bool_decide (S !! new = None /\ 0 <= new /\ new + g_max_connection g <= INT_MAX) then
          Some (<[new := SConn 0 0 []]> S,
                _report g (fmt_d new ++ str " open " ++ fmt_d new ++ str " " ++ remote_name m ++ str ":0") ++
                [AError (str "socket open: " ++ fmt_x (u32 new))])
        else None
      else if type =? SKYNET_SOCKET_TYPE_WARNING then
        Some (S, [AError (str "fd (" ++ fmt_d fd ++ str ") send buffer (" ++ fmt_d (sm_ud m) ++ str ")K")])
      else Some (S, [])
  end.

Fixpoint spec_run (g : gate) (S : gmap Z sconn) (ops : list gate_op) : option (gmap Z sconn * list action) :=
  match ops with
  | [] => Some (S, [])
  | op :: ops => '(S, a) ← spec_do g S op; '(S, rest) ← spec_run g S ops; Some (S, a ++ rest)
  end.

(** ** The gate holds the streams *)

Definition config (g : gate) : Z * Z * Z * Z * Z * Z :=
  (g_listen_id g, g_watchdog g, g_broker g, g_client_tag g, g_header_size g, g_max_connection g).

Lemma stream_actions_config g g' c c' fd fr : config g = config g' -> cn_id c = cn_id c' -> cn_agent c = cn_agent c' -> cn_client c = cn_client c' ->
  stream_actions g c fd fr = stream_actions g' c' fd fr.
Proof.
  unfold config. intros [= E1 E2 E3 E4 E5 E6] H1 H2 H3. unfold stream_actions. f_equal. apply map_ext. intros m. unfold send_action.
  by rewrite E2, E3, E4, H1, H2, H3.
Qed.

Lemma report_config g g' text : config g = config g' -> _report g text = _report g' text.
Proof. unfold config. intros [= E1 E2 E3 E4 E5 E6]. unfold _report. by rewrite E2. Qed.

(** A place of the array of connections: in use, or free. *)
Definition place_ok (hs : Z) (S : gmap Z sconn) (slot : option Z) (c : connection) (v : bytes) : Prop :=
  match slot with
  | Some fd => cn_id c = fd /\ exists sc, S !! fd = Some sc /\ cn_agent c = sc_agent sc /\ cn_client c = sc_client sc /\
      pending hs (db_header (cn_buffer c)) v (sc_pending sc)
  | None => cn_agent c = 0 /\ cn_client c = 0 /\ db_header (cn_buffer c) = 0 /\ v = []
  end.

Record gate_ok (cfg g : gate) (S : gmap Z sconn) (slots : list (option Z)) (chains : Z -> list Z) (views : list bytes) : Prop := {
  gk_config : config g = config cfg;
  gk_hs : g_header_size cfg = 2 \/ g_header_size cfg = 4;
  gk_hash : hash_ok (g_hash g) slots chains;
  gk_cap : hi_cap (g_hash g) = g_max_connection cfg;
  gk_conn : length (g_conn g) = length slots;
  gk_buffers : buffers (g_mp g) (conn_buffers g) views;
  gk_place i s c v : slots !! i = Some s -> g_conn g !! i = Some c -> views !! i = Some v -> place_ok (g_header_size cfg) S s c v;
  gk_dom fd : is_Some (S !! fd) -> exists i, slots !! i = Some (Some fd);
  gk_size : Z.of_nat (size S) = hi_count (g_hash g) }.

Section step.
Context (cfg g : gate) (S : gmap Z sconn) (slots : list (option Z)) (chains : Z -> list Z) (views : list bytes).
Hypothesis Hg : gate_ok cfg g S slots chains views.

Lemma views_length : length views = length slots.
Proof.
  destruct (gk_buffers _ _ _ _ _ _ Hg) as (nodes & fl & _ & Hl & _). rewrite Hl, length_fmap. apply (gk_conn _ _ _ _ _ _ Hg).
Qed.

Lemma at_nat (i : nat) x : at_place slots (Z.of_nat i) x <-> slots !! i = Some (Some x).
Proof. by rewrite arr_lookup_nat. Qed.

(** What belongs to a place in use. *)
Lemma place_of fd i : slots !! i = Some (Some fd) -> exists c v sc, g_conn g !! i = Some c /\ views !! i = Some v /\ S !! fd = Some sc /\
  cn_id c = fd /\ cn_agent c = sc_agent sc /\ cn_client c = sc_client sc /\ pending (g_header_size cfg) (db_header (cn_buffer c)) v (sc_pending sc).
Proof.
  intros Hi. apply lookup_lt_Some in Hi as Hlt.
  destruct (lookup_lt_is_Some_2 (g_conn g) i) as [c Hc]; [by rewrite (gk_conn _ _ _ _ _ _ Hg)|].
  destruct (lookup_lt_is_Some_2 views i) as [v Hv]; [by rewrite views_length|].
  destruct (gk_place _ _ _ _ _ _ Hg i _ c v Hi Hc Hv) as (Hid & sc & Hsc & Ha & Hcl & Hp). exists c, v, sc. done.
Qed.

(** The place of a socket number, or none. *)
Lemma lookup_fd fd : (S !! fd = None /\ hashid_lookup (g_hash g) fd = Ret (-1)) \/
  exists i : nat, slots !! i = Some (Some fd) /\ hashid_lookup (g_hash g) fd = Ret (Z.of_nat i).
Proof.
  destruct (hashid_lookup_spec _ _ _ (gk_hash _ _ _ _ _ _ Hg) fd) as (r & E & [[-> Hno]|Hr]).
  - left. split; [|done]. destruct (S !! fd) eqn:Hfd; [|done]. destruct (gk_dom _ _ _ _ _ _ Hg fd) as [i Hi]; [by rewrite Hfd|].
    apply at_nat in Hi. by apply Hno in Hi.
  - right. pose proof (arr_lookup_lt _ _ _ Hr) as Hlt. exists (Z.to_nat r). rewrite Z2Nat.id by lia. split; [|done].
    rewrite <- (Z2Nat.id r) in Hr by lia. by apply at_nat in Hr.
Qed.

Lemma distinct_places i j fd : slots !! i = Some (Some fd) -> slots !! j = Some (Some fd) -> i = j.
Proof.
  intros Hi%at_nat Hj%at_nat. pose proof (ho_distinct _ _ _ (gk_hash _ _ _ _ _ _ Hg) _ _ _ Hi Hj). lia.
Qed.

(** A change of the connection [fd] at its place. *)
Lemma update_place fd i c mp v sc' : slots !! i = Some (Some fd) -> cn_id c = fd -> cn_agent c = sc_agent sc' -> cn_client c = sc_client sc' ->
  pending (g_header_size cfg) (db_header (cn_buffer c)) v (sc_pending sc') ->
  buffers mp (<[i := cn_buffer c]> (conn_buffers g)) (<[i := v]> views) ->
  gate_ok cfg (with_conn g (<[i := c]> (g_conn g)) mp) (<[fd := sc']> S) slots chains (<[i := v]> views).
Proof.
  intros Hi Hid Ha Hcl Hp Hb. destruct (place_of fd i Hi) as (c0 & v0 & sc & Hc0 & Hv0 & Hsc & _). destruct Hg.
  split; cbn [with_conn g_listen_id g_watchdog g_broker g_client_tag g_header_size g_max_connection g_hash g_conn g_mp]; try done.
  - by rewrite length_insert.
  - by rewrite list_fmap_insert.
  - intros j s cj vj Hs Hcj Hvj. destruct (decide (i = j)) as [<-|Hne].
    + rewrite list_lookup_insert_eq in Hcj by (by eapply lookup_lt_Some). rewrite list_lookup_insert_eq in Hvj by (by eapply lookup_lt_Some).
      rewrite Hi in Hs. injection Hs as <-. injection Hcj as <-. injection Hvj as <-. split; [done|]. exists sc'. by rewrite lookup_insert_eq.
    + rewrite list_lookup_insert_ne in Hcj by done. rewrite list_lookup_insert_ne in Hvj by done.
      specialize (gk_place0 j s cj vj Hs Hcj Hvj). destruct s as [fd2|]; [|done]. destruct gk_place0 as (Hid2 & sc2 & Hsc2 & Hrest).
      split; [done|]. exists sc2. rewrite lookup_insert_ne; [done|]. intros ->. by apply Hne, (distinct_places i j fd2).
  - intros fd2. rewrite lookup_insert_is_Some. intros [->|[_ H]]; [by exists i|by apply gk_dom0].
  - rewrite map_size_insert_Some by done. done.
Qed.

(** *** Data *)

Lemma data_step junk fd i data sc : slots !! i = Some (Some fd) -> S !! fd = Some sc -> receives cfg ->
  Z.of_nat (length (sc_pending sc ++ data)) <= INT_MAX ->
  exists g' chains' views', dispatch_message junk g (Z.of_nat i) fd data (Z.of_nat (length data)) =
      Ret (g', stream_actions cfg (conn_of fd sc) fd (frames (g_header_size cfg) (sc_pending sc ++ data))) /\
    gate_ok cfg g' (<[fd := SConn (sc_agent sc) (sc_client sc) (default [] (snd (frames (g_header_size cfg) (sc_pending sc ++ data))))]> S)
      slots chains' views'.
Proof.
  intros Hi Hsc Hr Hmax. destruct (place_of fd i Hi) as (c & v & sc2 & Hc & Hv & Hsc2 & Hid & Ha & Hcl & Hp).
  assert (sc2 = sc) as -> by congruence. unfold dispatch_message. rewrite (conn_get g i c Hc), bind_Ret.
  assert (Hlen : (length v <= length (sc_pending sc))%nat).
  { destruct Hp as [[_ ->]|(_ & hd & _ & _ & ->)]; [done|]. rewrite length_app. lia. }
  rewrite length_app in Hmax. pose proof (gk_buffers _ _ _ _ _ _ Hg) as Hb.
  destruct (buffers_push junk _ _ _ i _ v data Hb (buffer_at _ _ _ Hc) Hv) as (db & mp & E & Hh & Hb1); [lia|].
  rewrite E, bind_Ret, (conn_set g i c Hc), bind_Ret. set (g1 := with_conn g _ mp).
  assert (Hcfg : config g1 = config cfg) by (rewrite <- (gk_config _ _ _ _ _ _ Hg); done).
  assert (Ehs : g_header_size g1 = g_header_size cfg) by (unfold config in Hcfg; congruence).
  assert (Hib : (i < length (conn_buffers g))%nat) by (rewrite length_fmap; by eapply lookup_lt_Some).
  assert (Hc1 : g_conn g1 !! i = Some (with_buffer c db)) by (cbn; apply list_lookup_insert_eq; by eapply lookup_lt_Some).
  assert (Hb1' : buffers (g_mp g1) (conn_buffers g1) (<[i := v ++ data]> views)) by (cbn; by rewrite buffers_insert).
  assert (Hv1 : <[i := v ++ data]> views !! i = Some (v ++ data)) by (apply list_lookup_insert_eq; by eapply lookup_lt_Some).
  pose proof (buffers_size _ _ _ _ _ _ Hb1' (buffer_at _ _ _ Hc1) Hv1) as Hsz. cbn [with_buffer cn_buffer] in Hsz.
  destruct (dispatch_loop_spec fd (2 * Z.to_nat (db_size db) + 2) g1 i _ _ (v ++ data) (sc_pending sc ++ data) Hc1 Hb1' Hv1)
    as (db2 & mp2 & v2 & E2 & Hb2 & Hp2).
  - rewrite Ehs. apply (gk_hs _ _ _ _ _ _ Hg).
  - unfold config in Hcfg. injection Hcfg as _ E2 E3 _ _ _. unfold receives. cbn [g1 with_conn g_broker g_watchdog] in *. by rewrite E2, E3.
  - rewrite Ehs. cbn [with_buffer cn_buffer]. rewrite Hh. destruct Hp as [[-> ->]|(Hne & hd & Hl & Hval & ->)]; [by left|].
    right. split; [done|]. exists hd. by rewrite app_assoc.
  - rewrite Hsz. lia.
  - rewrite Ehs in *. rewrite E2. cbn [g1 with_conn g_conn g_mp] in Hb2. squash_in Hb2.
    eexists _, chains, (<[i := v2]> views). split.
    + rewrite (stream_actions_config g1 cfg (with_buffer c db) (conn_of fd sc)) by done. reflexivity.
    + unfold g1. rewrite with_conn_twice. cbn [with_conn g_conn]. squash_goal. apply update_place; [done..|exact Hp2|exact Hb2].
Qed.
End step.

Section steps.
Context (cfg g : gate) (S : gmap Z sconn) (slots : list (option Z)) (chains : Z -> list Z) (views : list bytes).
Hypothesis Hg : gate_ok cfg g S slots chains views.

(** The number of places in use after a change of one place. *)
Lemma count_after hi' (i : nat) s s' chains' : slots !! i = Some s -> hash_ok hi' (<[i := s']> slots) chains' ->
  hi_count hi' = hi_count (g_hash g) - (if decide (is_Some s) then 1 else 0) + (if decide (is_Some s') then 1 else 0).
Proof.
  intros Hi Hok. rewrite (ho_count _ _ _ Hok). rewrite <- (count_insert _ _ _ (gk_hash _ _ _ _ _ _ Hg) (Z.of_nat i) s s'); [by rewrite Nat2Z.id|].
  by rewrite arr_lookup_nat.
Qed.

(** *** Closing *)

Lemma close_step fd : exists g' slots' chains' views',
  ('(id, hash) ← hashid_remove (g_hash g) fd;
   let g := with_hash g hash in
   if 0 <=? id then
     c ← arr_get (g_conn g) id;
     '(_, mp) ← databuffer_clear (cn_buffer c) (g_mp g);
     conn ← arr_set (g_conn g) id (Connection (-1) 0 0 [] db_zero);
     let g := with_conn g conn mp in
     Ret (g, _report g (fmt_d fd ++ str " close"))
   else Ret (g, [])) = Ret (g', if bool_decide (is_Some (S !! fd)) then _report cfg (fmt_d fd ++ str " close") else []) /\
  gate_ok cfg g' (delete fd S) slots' chains' views'.
Proof.
  destruct (hashid_remove_spec _ _ _ (gk_hash _ _ _ _ _ _ Hg) fd) as [[-> Hno]|(zi & hi' & chains' & Hat & -> & Hok & Hcap)]; rewrite bind_Ret; cbv zeta.
  - assert (HS : S !! fd = None).
    { destruct (S !! fd) eqn:E; [|done]. destruct (gk_dom _ _ _ _ _ _ Hg fd) as [i Hi]; [by rewrite E|]. apply at_nat in Hi. by apply Hno in Hi. }
    change (0 <=? -1) with false. cbv iota. rewrite HS, bool_decide_eq_false_2 by (by intros [? ?]). rewrite delete_id by done.
    exists (with_hash g (g_hash g)), slots, chains, views. split; [done|]. destruct Hg. by split.
  - pose proof (arr_lookup_lt _ _ _ Hat) as Hlt. set (i := Z.to_nat zi) in *. assert (Ezi : zi = Z.of_nat i) by lia. rewrite Ezi in *.
    apply at_nat in Hat as Hi. destruct (place_of _ _ _ _ _ _ Hg fd i Hi) as (c & v & sc & Hc & Hv & Hsc & _).
    rewrite (proj2 (Z.leb_le 0 _)) by lia. cbn [with_hash g_conn g_mp]. rewrite (conn_get g i c Hc), bind_Ret.
    destruct (buffers_clear _ _ _ i _ v (gk_buffers _ _ _ _ _ _ Hg) (buffer_at _ _ _ Hc) Hv) as (mp & -> & Hb). rewrite bind_Ret.
    rewrite (conn_set g i c Hc), bind_Ret, Hsc, bool_decide_eq_true_2 by eauto.
    eexists _, (<[i := None]> slots), chains', (<[i := []]> views). split.
    + rewrite (report_config _ cfg); [reflexivity|]. rewrite <- (gk_config _ _ _ _ _ _ Hg). done.
    + pose proof (count_after hi' i (Some fd) None chains' Hi Hok) as Hcount. rewrite decide_True in Hcount by eauto.
      rewrite decide_False in Hcount by (by intros [? ?]). pose proof (views_length _ _ _ _ _ _ Hg) as Hvl. pose proof (distinct_places _ _ _ _ _ _ Hg) as Hd.
      destruct Hg. split; cbn [with_conn with_hash g_listen_id g_watchdog g_broker g_client_tag g_header_size g_max_connection g_hash g_conn g_mp]; try done.
      * by rewrite Hcap.
      * by rewrite !length_insert.
      * rewrite list_fmap_insert. exact Hb.
      * intros j s cj vj Hs Hcj Hvj. destruct (decide (i = j)) as [<-|Hne].
        -- rewrite list_lookup_insert_eq in Hs by lia. rewrite list_lookup_insert_eq in Hcj by lia. rewrite list_lookup_insert_eq in Hvj by lia.
           injection Hs as <-. injection Hcj as <-. injection Hvj as <-. done.
        -- rewrite list_lookup_insert_ne in Hs by done. rewrite list_lookup_insert_ne in Hcj by done. rewrite list_lookup_insert_ne in Hvj by done.
           specialize (gk_place0 j s cj vj Hs Hcj Hvj). destruct s as [fd2|]; [|done]. destruct gk_place0 as (Hid2 & sc2 & Hsc2 & Hrest).
           split; [done|]. exists sc2. rewrite lookup_delete_ne; [done|]. intros ->. by apply Hne, (Hd i j fd2).
      * intros fd2 H. rewrite lookup_delete_is_Some in H. destruct H as [Hne H]. destruct (gk_dom0 fd2 H) as [j Hj]. exists j.
        rewrite list_lookup_insert_ne; [done|]. intros ->. rewrite Hi in Hj. congruence.
      * rewrite map_size_delete_Some by eauto. assert (size S <> 0)%nat by (intros E%map_size_empty_inv; by rewrite E in Hsc). lia.
Qed.

(** *** Accepting *)

Lemma full_hash : hashid_full (g_hash g) = (Z.of_nat (size S) =? g_max_connection cfg).
Proof. unfold hashid_full. by rewrite <- (gk_size _ _ _ _ _ _ Hg), (gk_cap _ _ _ _ _ _ Hg). Qed.

Lemma accept_step fd name : S !! fd = None -> 0 <= fd -> fd + g_max_connection cfg <= INT_MAX ->
  Z.of_nat (size S) <> g_max_connection cfg ->
  exists i hash c g' slots' chains' views', hashid_insert (g_hash g) fd = Ret (Z.of_nat i, hash) /\
    arr_get (g_conn g) (Z.of_nat i) = Ret c /\
    set_conn (with_hash g hash) (Z.of_nat i) (Connection fd (cn_agent c) (cn_client c) name (cn_buffer c)) = Ret g' /\ config g' = config cfg /\
    gate_ok cfg g' (<[fd := SConn 0 0 []]> S) slots' chains' views'.
Proof.
  intros HS Hfd Hmax Hsize.
  assert (Hnew : forall j, ~ at_place slots j fd).
  { intros j Hj. pose proof (arr_lookup_lt _ _ _ Hj). rewrite <- (Z2Nat.id j), at_nat in Hj by lia.
    destruct (place_of _ _ _ _ _ _ Hg fd _ Hj) as (_ & _ & sc & _ & _ & E & _). congruence. }
  destruct (hashid_insert_spec _ _ _ (gk_hash _ _ _ _ _ _ Hg) fd Hfd) as (zi & hi' & chains' & E & Hfree & Hok & Hcap); [|done| |].
  { by rewrite (gk_cap _ _ _ _ _ _ Hg). }
  { rewrite full_hash. by apply Z.eqb_neq. }
  pose proof (arr_lookup_lt _ _ _ Hfree) as Hlt. set (i := Z.to_nat zi) in *. assert (Ezi : zi = Z.of_nat i) by lia. rewrite Ezi in *.
  rewrite arr_lookup_nat in Hfree. pose proof (views_length _ _ _ _ _ _ Hg) as Hvl.
  destruct (lookup_lt_is_Some_2 (g_conn g) i) as [c Hc]; [rewrite (gk_conn _ _ _ _ _ _ Hg); lia|].
  destruct (lookup_lt_is_Some_2 views i) as [v Hv]; [lia|].
  pose proof (gk_place _ _ _ _ _ _ Hg i None c v Hfree Hc Hv) as (Ha & Hcl & Hh & ->).
  set (c' := Connection fd (cn_agent c) (cn_client c) name (cn_buffer c)).
  exists i, hi', c, (with_conn (with_hash g hi') (<[i := c']> (g_conn g)) (g_mp g)), (<[i := Some fd]> slots), chains', views.
  split; [done|]. split; [by apply conn_get|]. split.
  { unfold set_conn. cbn [with_hash g_conn g_mp]. by rewrite (conn_set g i c Hc), bind_Ret. }
  split; [by rewrite <- (gk_config _ _ _ _ _ _ Hg)|].
  pose proof (count_after hi' i None (Some fd) chains' Hfree Hok) as Hcount. rewrite decide_False in Hcount by (by intros [? ?]).
  rewrite decide_True in Hcount by eauto. destruct Hg.
  split; cbn [with_conn with_hash g_listen_id g_watchdog g_broker g_client_tag g_header_size g_max_connection g_hash g_conn g_mp]; try done.
  - by rewrite Hcap.
  - by rewrite !length_insert.
  - rewrite list_fmap_insert. cbn [c' cn_buffer]. rewrite list_insert_id; [done|]. by rewrite list_lookup_fmap, Hc.
  - intros j s cj vj Hs Hcj Hvj. destruct (decide (i = j)) as [<-|Hne].
    + rewrite list_lookup_insert_eq in Hs by lia. rewrite list_lookup_insert_eq in Hcj by lia.
      injection Hs as <-. injection Hcj as <-. rewrite Hv in Hvj. injection Hvj as <-. split; [done|]. exists (SConn 0 0 []).
      rewrite lookup_insert_eq. split; [done|]. split; [exact Ha|]. split; [exact Hcl|]. left. done.
    + rewrite list_lookup_insert_ne in Hs by done. rewrite list_lookup_insert_ne in Hcj by done.
      specialize (gk_place0 j s cj vj Hs Hcj Hvj). destruct s as [fd2|]; [|done]. destruct gk_place0 as (Hid2 & sc2 & Hsc2 & Hrest).
      split; [done|]. exists sc2. rewrite lookup_insert_ne; [done|]. congruence.
  - intros fd2. rewrite lookup_insert_is_Some. intros [->|[Hne H]].
    + exists i. apply list_lookup_insert_eq. lia.
    + destruct (gk_dom0 fd2 H) as [j Hj]. exists j. rewrite list_lookup_insert_ne; [done|]. intros ->. congruence.
  - rewrite map_size_insert_None by done. lia.
Qed.

(** *** Any operation *)

Lemma forward_step fd agent client : exists g', _forward_agent g fd agent client = Ret g' /\
  exists views', gate_ok cfg g' (match S !! fd with Some sc => <[fd := SConn agent client (sc_pending sc)]> S | None => S end) slots chains views'.
Proof.
  unfold _forward_agent. destruct (lookup_fd _ _ _ _ _ _ Hg fd) as [[HS ->]|(i & Hi & ->)]; rewrite bind_Ret.
  - change (0 <=? -1) with false. cbv iota. exists g. split; [done|]. rewrite HS. by exists views.
  - rewrite (proj2 (Z.leb_le 0 _)) by lia. destruct (place_of _ _ _ _ _ _ Hg fd i Hi) as (c & v & sc & Hc & Hv & Hsc & Hid & Ha & Hcl & Hp).
    rewrite (conn_get g i c Hc), bind_Ret. unfold set_conn. rewrite (conn_set g i c Hc), bind_Ret. eexists. split; [reflexivity|]. rewrite Hsc.
    exists (<[i := v]> views). apply (update_place _ _ _ _ _ _ Hg fd); try done.
    rewrite !list_insert_id; [apply (gk_buffers _ _ _ _ _ _ Hg)|done|]. by rewrite list_lookup_fmap, Hc.
Qed.
End steps.

Lemma gate_do_spec junk cfg g S slots chains views op S' acts : gate_ok cfg g S slots chains views -> receives cfg ->
  spec_do cfg S op = Some (S', acts) ->
  exists g' slots' chains' views', gate_do junk g op = Ret (g', acts) /\ gate_ok cfg g' S' slots' chains' views'.
Proof.
  intros Hg Hr Hop. pose proof (gk_config _ _ _ _ _ _ Hg) as Hcfg. assert (El : g_listen_id g = g_listen_id cfg) by (unfold config in Hcfg; congruence).
  destruct op as [m|fd agent client]; cbn [spec_do gate_do] in *.
  2: { injection Hop as <- <-. destruct (forward_step _ _ _ _ _ _ Hg fd agent client) as (g' & -> & views' & Hg'). rewrite bind_Ret.
    by exists g', slots, chains, views'. }
  unfold dispatch_socket_message. cbv zeta in Hop |- *. destruct (sm_type m =? SKYNET_SOCKET_TYPE_DATA).
  { destruct (lookup_fd _ _ _ _ _ _ Hg (sm_id m)) as [[HS E]|(i & Hi & E)]; rewrite E, bind_Ret.
    - rewrite HS in Hop. change (0 <=? -1) with false. cbv iota. injection Hop as <- <-. by exists g, slots, chains, views.
    - rewrite (proj2 (Z.leb_le 0 _)) by lia. destruct (place_of _ _ _ _ _ _ Hg _ i Hi) as (_ & _ & sc & _ & _ & Hsc & _). rewrite Hsc in Hop.
      destruct (sm_buffer m) as [data|]; [|done]. destruct (bool_decide_reflect (sm_ud m = Z.of_nat (length data) /\
        Z.of_nat (length (sc_pending sc ++ data)) <= INT_MAX)) as [[Hud Hmax]|]; [|done]. injection Hop as <- <-. cbn [deref]. rewrite bind_Ret, Hud.
      destruct (data_step _ _ _ _ _ _ Hg junk _ i data sc Hi Hsc Hr Hmax) as (g' & chains' & views' & E2 & Hg'). by exists g', slots, chains', views'. }
  destruct (sm_type m =? SKYNET_SOCKET_TYPE_CONNECT).
  { injection Hop as <- <-. rewrite El. destruct (sm_id m =? g_listen_id cfg); cbn [orb]; [by exists g, slots, chains, views|].
    destruct (lookup_fd _ _ _ _ _ _ Hg (sm_id m)) as [[HS E]|(i & Hi & E)]; rewrite E, bind_Ret; exists g, slots, chains, views; (split; [|done]).
    - by rewrite HS, bool_decide_eq_false_2 by (by intros [? ?]).
    - destruct (place_of _ _ _ _ _ _ Hg _ i Hi) as (_ & _ & sc & _ & _ & Hsc & _).
      by rewrite (proj2 (Z.ltb_ge _ 0)), Hsc, bool_decide_eq_true_2 by (eauto || lia). }
  destruct ((sm_type m =? SKYNET_SOCKET_TYPE_CLOSE) || (sm_type m =? SKYNET_SOCKET_TYPE_ERROR)).
  { injection Hop as <- <-. destruct (close_step _ _ _ _ _ _ Hg (sm_id m)) as (g' & slots' & chains' & views' & E & Hg'). by exists g', slots', chains', views'. }
  destruct (sm_type m =? SKYNET_SOCKET_TYPE_ACCEPT).
  { rewrite El. destruct (g_listen_id cfg =? sm_id m); cbn [negb assert_] in *; [|done]. rewrite bind_Ret, (full_hash _ _ _ _ _ _ Hg).
    destruct (Z.eqb_spec (Z.of_nat (size S)) (g_max_connection cfg)) as [|Hsize]; [injection Hop as <- <-; by exists g, slots, chains, views|].
    destruct (bool_decide_reflect (S !! sm_ud m = None /\ 0 <= sm_ud m /\ sm_ud m + g_max_connection cfg <= INT_MAX)) as [(HS & H0 & Hmax)|]; [|done].
    injection Hop as <- <-. destruct (accept_step _ _ _ _ _ _ Hg (sm_ud m) (remote_name m) HS H0 Hmax Hsize)
      as (i & hash & c & g' & slots' & chains' & views' & -> & E2 & E3 & Hcfg' & Hg'). rewrite bind_Ret. cbn [with_hash g_conn]. rewrite E2, bind_Ret.
    set (sz := if 32 <=? _ then _ else _). assert (Hsz : 0 <= sz <= Z.of_nat (length (sm_padding m)) /\ take (Z.to_nat sz) (sm_padding m) = take 31 (sm_padding m)).
    { unfold sz. destruct (Z.leb_spec 32 (Z.of_nat (length (sm_padding m)))); [split; [lia|done]|]. split; [lia|].
      rewrite Nat2Z.id, firstn_all, take_ge by lia. done. }
    destruct Hsz as [Hsz ->]. rewrite (proj2 (Z.ltb_ge sz 0)), (proj2 (Z.ltb_ge _ sz)) by lia. cbn [orb]. fold (remote_name m). rewrite E3, bind_Ret.
    exists g', slots', chains', views'. split; [|done]. cbn [cn_id]. by rewrite (report_config g' cfg). }
  destruct (sm_type m =? SKYNET_SOCKET_TYPE_WARNING); injection Hop as <- <-; by exists g, slots, chains, views.
Qed.

Lemma gate_run_spec junk cfg ops : forall g S slots chains views S' acts, gate_ok cfg g S slots chains views -> receives cfg ->
  spec_run cfg S ops = Some (S', acts) -> exists g', gate_run junk g ops = Ret (g', acts).
Proof.
  induction ops as [|op ops IH]; intros g S slots chains views S' acts Hg Hr Hops.
  - injection Hops as <- <-. by exists g.
  - cbn [spec_run gate_run] in *. destruct (spec_do cfg S op) as [[S1 a]|] eqn:Eop; [|done]. cbn in Hops.
    destruct (spec_run cfg S1 ops) as [[S2 rest]|] eqn:Eops; [|done]. cbn in Hops. injection Hops as <- <-.
    destruct (gate_do_spec junk cfg g S slots chains views op S1 a Hg Hr Eop) as (g1 & slots1 & chains1 & views1 & -> & Hg1). rewrite bind_Ret.
    destruct (IH g1 S1 slots1 chains1 views1 S2 rest Hg1 Hr Eops) as (g2 & ->). rewrite bind_Ret. by exists g2.
Qed.

(** A gate that has started has no connections. *)
Lemma gate_init_ok queryname socket_listen parm g acts : gate_init queryname socket_listen gate_create parm = Ret (0, g, acts) ->
  g_max_connection g <= 2 ^ 30 -> exists slots chains views, gate_ok g g ∅ slots chains views.
Proof.
  intros Hi Hmax. destruct parm as [parm|]; [|done]. unfold gate_init in Hi.
  destruct (scan_parm parm) as [n [[[[header watchdog] binding] client_tag] max]]. destruct (n <? 4); [done|]. destruct (Z.leb_spec max 0) as [|Hpos]; [done|].
  destruct (negb (header =? 83) && negb (header =? 76)); [done|]. cbv zeta in Hi. destruct (negb _ && _); [done|].
  destruct (hashid_init max) as [hash| | |] eqn:Eh; try done. rewrite bind_Ret in Hi. unfold start_listen in Hi.
  destruct (match strchr binding 58 with None => _ | Some p => _ end) as [host portstr]. cbv zeta in Hi. destruct (_ <=? 0); [done|].
  destruct (_ <? 0); [done|]. injection Hi as <- _. cbn [with_listen g_max_connection] in Hmax.
  destruct (hashid_init_ok max) as (hi & E & Hok & Hcap); [lia|]. rewrite Eh in E. injection E as ->.
  exists (replicate (Z.to_nat max) None), (fun _ => []), (replicate (Z.to_nat max) []).
  split; cbn [with_listen gate_create g_listen_id g_watchdog g_broker g_client_tag g_header_size g_max_connection g_hash g_conn g_mp]; try done.
  - destruct (header =? 83); tauto.
  - by rewrite !length_replicate.
  - rewrite fmap_replicate. cbn [cn_buffer]. apply buffers_zero.
  - intros i s c v [-> _]%lookup_replicate [-> _]%lookup_replicate [-> _]%lookup_replicate. done.
  - intros fd [sc Hsc]. done.
  - rewrite map_size_empty. unfold hashid_init in Eh. destruct (hashcap_loop _ _ _); try done. rewrite bind_Ret in Eh. by injection Eh as <-.
Qed.

(** C10: a gate that has started and has a broker or a watchdog forwards what its
    connections receive: through any sequence of operations for which [spec_run] is defined
    (the socket server keeps its contract, and no connection has more than [INT_MAX] bytes
    waiting), it does not fail and sends every message that the streams hold, whole, in order
    and to the right service, refuses connections only when it is full, closes a connection when
    a message of 16M or more, below [2 ^ 31], has arrived whole, and never mixes up connections.
    A 4-byte header of [2 ^ 31] or more is negative, for the gate and for the specification: its
    connection stays open and all that follows is kept ([negative_header_kept]). *)
Theorem gate_refinement junk queryname socket_listen parm g acts ops S out :
  gate_init queryname socket_listen gate_create parm = Ret (0, g, acts) -> g_max_connection g <= 2 ^ 30 ->
  g_broker g <> 0 \/ g_watchdog g <> 0 -> spec_run g ∅ ops = Some (S, out) ->
  exists g', gate_run junk g ops = Ret (g', out).
Proof.
  intros Hi Hmax Hr Hops. destruct (gate_init_ok _ _ _ _ _ Hi Hmax) as (slots & chains & views & Hg).
  by apply (gate_run_spec junk g ops g ∅ slots chains views S out).
Qed.

(** ** Frames of packets *)

(** A message with its length in front. *)
Definition packet (hs : Z) (m : bytes) : bytes :=
  let n := Z.of_nat (length m) in
  (if hs =? 2 then [u8 (Z.shiftr n 8); u8 n] else [u8 (Z.shiftr n 24); u8 (Z.shiftr n 16); u8 (Z.shiftr n 8); u8 n]) ++ m.

Lemma packet_header hs m : hs = 2 \/ hs = 4 -> Z.of_nat (length m) < (if hs =? 2 then 2 ^ 16 else 2 ^ 24) ->
  exists hd, packet hs m = hd ++ m /\ Z.of_nat (length hd) = hs /\ header_value hd hs = Z.of_nat (length m).
Proof.
  intros Hhs Hm. unfold packet. set (n := Z.of_nat (length m)) in *. assert (0 <= n) by lia. destruct Hhs as [->| ->]; (eexists; split; [reflexivity|]); (split; [done|]).
  - unfold header_value. cbn [nth]. change (2 =? 2) with true in *. cbv iota in *. rewrite Z.lor_comm, lor_shiftl_add by (try apply u8_range; lia).
    unfold u8. rewrite Z.shiftr_div_pow2 by lia. change (2 ^ 8) with 256. rewrite (Z.mod_small (n / 256)) by (Z.div_mod_to_equations; lia).
    cbn [nth]. pose proof (Z.div_mod n 256). lia.
  - unfold header_value. cbn [nth]. change (4 =? 2) with false in *. cbv iota in *.
    rewrite <- !Z.lor_assoc, (Z.lor_comm (Z.shiftl _ 24)), (Z.lor_comm (Z.shiftl _ 16)), (Z.lor_comm (Z.shiftl _ 8)).
    rewrite lor_word4 by (apply u8_word). cbn [nth]. rewrite word4_u8 by (split; lia). apply s32_small. lia.
Qed.

(** A stream of packets is cut into its messages, with what follows left. *)
Lemma frames_packets hs ms rest : hs = 2 \/ hs = 4 ->
  Forall (fun m => 0 < Z.of_nat (length m) < (if hs =? 2 then 2 ^ 16 else 2 ^ 24)) ms ->
  frames hs (concat (map (packet hs) ms) ++ rest) = (ms ++ fst (frames hs rest), snd (frames hs rest)).
Proof.
  intros Hhs. induction 1 as [|m ms Hm Hms IH]; [cbn [map concat app]; by destruct (frames hs rest)|].
  destruct (packet_header hs m Hhs) as (hd & E & Hl & Hval); [lia|]. cbn [map concat]. rewrite E, <- !app_assoc, frames_eq by lia.
  rewrite !length_app, (proj2 (Z.ltb_ge _ hs)) by lia. cbv zeta. rewrite take_app_length', drop_app_length' by lia. rewrite Hval.
  rewrite !length_app, (proj2 (Z.ltb_ge _ 0)), (proj2 (Z.ltb_ge _ (Z.of_nat (length m)))) by lia. cbn [orb].
  rewrite (proj2 (Z.leb_gt _ _)) by (destruct Hhs as [->| ->]; cbn in Hm; lia). rewrite Nat2Z.id, drop_app_length, take_app_length, IH.
  by rewrite (proj2 (Z.eqb_neq _ 0)) by lia.
Qed.

(** ** A concrete run *)

Definition demo_ask (name : bytes) : Z := 77.
Definition demo_listen (host : bytes) (port : Z) : Z := 9.
Definition demo_start : outcome (Z * gate * list action) := gate_init demo_ask demo_listen gate_create (Some (str "S watchdog 127.0.0.1:8888 0 2")).
Definition demo_gate : gate := match demo_start with Ret (_, g, _) => g | _ => gate_create end.

Definition demo_socket (type fd ud : Z) (data : option bytes) (text : bytes) : gate_op := OpSocket (SocketMessage type fd ud data text).

(** Two connections; their packets arrive in pieces; a third one is refused. *)
Definition demo_ops : list gate_op :=
  [demo_socket SKYNET_SOCKET_TYPE_ACCEPT 9 5 None (str "10.0.0.1"); demo_socket SKYNET_SOCKET_TYPE_ACCEPT 9 6 None (str "10.0.0.2");
   demo_socket SKYNET_SOCKET_TYPE_ACCEPT 9 7 None (str "10.0.0.3"); OpForward 5 26 43;
   demo_socket SKYNET_SOCKET_TYPE_DATA 5 3 (Some [0; 2; 65]) []; demo_socket SKYNET_SOCKET_TYPE_DATA 6 1 (Some [0]) [];
   demo_socket SKYNET_SOCKET_TYPE_DATA 5 4 (Some [66; 0; 1; 67]) []; demo_socket SKYNET_SOCKET_TYPE_DATA 6 3 (Some [1; 68; 0]) [];
   demo_socket SKYNET_SOCKET_TYPE_CLOSE 5 0 None []].

Lemma gate_refinement_witness : exists g', gate_run (Message None 0 None) demo_gate demo_ops =
  Ret (g', [ASend 0 77 0 0 (str "5 open 5 10.0.0.1:0"); AError (str "socket open: 5");
            ASend 0 77 0 0 (str "6 open 6 10.0.0.2:0"); AError (str "socket open: 6"); AClose 7;
            ASend 43 26 65539 1 [65; 66]; ASend 43 26 65539 1 [67]; ASend 0 77 65536 1 (str "6 data " ++ [68]); ASend 0 77 0 0 (str "5 close")]).
Proof.
  eapply (gate_refinement (Message None 0 None) demo_ask demo_listen (Some (str "S watchdog 127.0.0.1:8888 0 2")) demo_gate).
  - vm_compute. reflexivity.
  - vm_compute. discriminate.
  - right. vm_compute. discriminate.
  - vm_compute. reflexivity.
Defined.

(** Without a broker, an agent or a watchdog a message stays in the buffer, and its
    bytes are taken for headers: the packet that follows it is not forwarded when an
    agent has come. *)
Lemma no_receiver_loses_frames :
  match gate_init demo_ask demo_listen gate_create (Some (str "S ! 127.0.0.1:8888 0 2")) with
  | Ret (_, g, _) =>
      match gate_run (Message None 0 None) g
        [demo_socket SKYNET_SOCKET_TYPE_ACCEPT 9 5 None []; demo_socket SKYNET_SOCKET_TYPE_DATA 5 5 (Some [0; 3; 0; 1; 66]) [];
         OpForward 5 26 43; demo_socket SKYNET_SOCKET_TYPE_DATA 5 3 (Some [0; 1; 67]) []] with
      | Ret (_, out) => out = [AError (str "socket open: 5")]
      | _ => False
      end
  | _ => False
  end.
Proof. vm_compute. reflexivity. Qed.

(** A header of four bytes with the sign bit leaves the connection open, and all that
    follows is kept. *)
Lemma negative_header_kept data : frames 4 ([128; 0; 0; 0] ++ data) = ([], Some ([128; 0; 0; 0] ++ data)).
Proof.
  rewrite frames_eq by lia. rewrite length_app, (proj2 (Z.ltb_ge _ 4)) by (cbn [length]; lia). cbv zeta.
  rewrite take_app_length' by done. change (header_value [128; 0; 0; 0] 4) with (-2147483648). done.
Qed.
