(* ===== verification/SocketServer.v ===== *)
(** The socket server of [skynet-src/socket_server.c]: its sockets with their lists of
    buffers to write, the pipe of requests, and the poll loop.

    A function is a program that reads and changes the state of the server and calls the
    operating system, whose answers are a script: any behaviour of the system is a script
    of answers. A program whose next call has no answer, or that spins for a lock another
    thread holds, waits. *)
From S2P Require Import Prelude Cstr.

#[local] Set Warnings "-register-all".

(** ** Constants *)

Definition MAX_SOCKET_P : Z := 16.
Definition MAX_SOCKET : Z := Z.shiftl 1 MAX_SOCKET_P.
Definition MAX_EVENT : Z := 64.
Definition MIN_READ_BUFFER : Z := 64.
Definition MAX_UDP_PACKAGE : Z := 65535.
Definition UDP_ADDRESS_SIZE : Z := 19.
Definition WARNING_SIZE : Z := 1024 * 1024.

Definition SOCKET_TYPE_INVALID : Z := 0.
Definition SOCKET_TYPE_RESERVE : Z := 1.
Definition SOCKET_TYPE_PLISTEN : Z := 2.
Definition SOCKET_TYPE_LISTEN : Z := 3.
Definition SOCKET_TYPE_CONNECTING : Z := 4.
Definition SOCKET_TYPE_CONNECTED : Z := 5.
Definition SOCKET_TYPE_HALFCLOSE : Z := 6.
Definition SOCKET_TYPE_PACCEPT : Z := 7.
Definition SOCKET_TYPE_BIND : Z := 8.

Definition PRIORITY_HIGH : Z := 0.
Definition PRIORITY_LOW : Z := 1.

Definition PROTOCOL_TCP : Z := 0.
Definition PROTOCOL_UDP : Z := 1.
Definition PROTOCOL_UDPv6 : Z := 2.
Definition PROTOCOL_UNKNOWN : Z := 255.

Definition SOCKET_DATA : Z := 0.
Definition SOCKET_CLOSE : Z := 1.
Definition SOCKET_OPEN : Z := 2.
Definition SOCKET_ACCEPT : Z := 3.
Definition SOCKET_ERR : Z := 4.
Definition SOCKET_EXIT : Z := 5.
Definition SOCKET_UDP : Z := 6.
Definition SOCKET_WARNING : Z := 7.

Definition HASH_ID (id : Z) : Z := u32 id mod MAX_SOCKET.
Definition ID_TAG16 (id : Z) : Z := Z.land (Z.shiftr id MAX_SOCKET_P) 0xffff.

(** [errno]; [EWOULDBLOCK] is [EAGAIN]. *)
Inductive errno_t := EINTR | EAGAIN | EINPROGRESS | EMFILE | ENFILE | EOTHER (n : Z).
#[export] Instance errno_eq_dec : EqDecision errno_t.
Proof. solve_decision. Defined.

(** ** Data *)

(** [buffer] is the message that was handed over, [ptr] and [sz] what is left of it. Only
    nodes for UDP have room for an address. *)
Record write_buffer := WB {
  wb_buffer : Z; wb_ptr : Z; wb_sz : Z; wb_userobject : bool; wb_udp_address : option bytes }.

(** [union { int size; uint8_t udp_address[] }] *)
Inductive sock_p := PSize (n : Z) | PAddress (a : bytes).

(** A list of nodes is what its head leads to; [tail] is the last of them. *)
Record socket := Socket {
  s_opaque : Z; s_high : list write_buffer; s_low : list write_buffer; s_wb_size : Z; s_sending : Z;
  s_fd : Z; s_id : Z; s_protocol : Z; s_type : Z; s_udpconnecting : Z; s_warn_size : Z; s_p : sock_p;
  s_dw_lock : bool; s_dw_offset : Z; s_dw_buffer : Z; s_dw_size : Z }.

(** [e->s] is the place of the socket, none for the pipe. *)
Record event := Event { e_s : option Z; e_read : bool; e_write : bool; e_error : bool }.

Inductive request :=
  | RStart (id opaque : Z)
  | RBind (id fd opaque : Z)
  | RListen (id fd opaque : Z)
  | RClose (id shutdown opaque : Z)
  | ROpen (id port opaque : Z) (host : bytes)
  | RExit
  | RSend (id sz buffer : Z)
  | RSendLow (id sz buffer : Z)
  | RSendUdp (id sz buffer : Z) (address : bytes)
  | RSetUdp (id : Z) (address : bytes)
  | RSetOpt (id what value : Z)
  | RUdp (id fd family opaque : Z).

(** What [result->data] points to. *)
Inductive mdata := DNull | DText (s : string) | DErrno (e : errno_t) | DGai (n : Z) | DPeer (b : bytes) | DBuffer (b : bytes).

Record socket_message := Message { m_id : Z; m_opaque : Z; m_ud : Z; m_data : mdata }.
Definition no_message : socket_message := Message 0 0 0 DNull.

(** *** The operating system *)

Inductive call :=
  | CWrite (id fd : Z) (data : bytes) | CSendto (fd : Z) (data : bytes) (address : option bytes) | CRead (fd sz : Z) | CRecvfrom (fd sz : Z)
  | CClose (fd : Z) | CSocket (family : Z) | CConnect (fd : Z) | CAccept (fd : Z) | CGetaddrinfo (host : bytes) (port : Z)
  | CBind (fd : Z) | CListen (fd backlog : Z) | CReuse (fd : Z) | CSoError (fd : Z) | CSetOpt (fd what value : Z) | CPeerName (fd : Z)
  | CSpAdd (slot fd : Z) | CSpDel (slot fd : Z) | CSpWrite (fd : Z) (enable : bool) | CSpWait | CSpCreate | CPipe
  | CFree (buffer : Z) (userobject : bool).

(** The value that a call returns, [errno], the bytes that were read or the families of the
    addresses that were found, and the events. *)
Record answer := Answer { a_ret : Z; a_errno : errno_t; a_bytes : bytes; a_events : list event }.

(** The messages of services may be objects: [socket_object_interface] gives the address and
    the size of what is in them. *)
Record socket_object_interface := Soi { soi_buffer : Z -> Z; soi_size : Z -> Z }.

(** [count] is that of the [socket_lock] of the call that is running, [polled] the places
    of the sockets that the event pool watches, [calls] the calls so far, the last one
    first. *)
Record socket_server := Server {
  ss_checkctrl : bool; ss_alloc_id : Z; ss_events : list event; ss_event_index : Z; ss_soi : option socket_object_interface;
  ss_slot : gmap Z socket; ss_pipe : list request;
  ss_count : Z; ss_polled : list Z; ss_script : list answer; ss_calls : list call }.

(** ** Programs *)

Definition IO (A : Type) : Type := socket_server -> outcome (option (A * socket_server)).

#[export] Instance io_ret : MRet IO := fun A a ss => Ret (Some (a, ss)).
#[export] Instance io_bind : MBind IO := fun A B f m ss =>
  match m ss with
  | Ret (Some (a, ss)) => f a ss
  | Ret None => Ret None
  | AssertFail => AssertFail
  | LuaError e => LuaError e
  | Undefined => Undefined
  end.

Definition waits {A} : IO A := fun _ => Ret None.
Definition bad {A} : IO A := fun _ => Undefined.
Definition check (b : bool) : IO unit := fun ss => if b then Ret (Some (tt, ss)) else AssertFail.
(** The value of a signed [int] expression: an overflow is undefined. *)
Definition int (n : Z) : IO Z := fun ss => match int_ok n with Ret n => Ret (Some (n, ss)) | _ => Undefined end.
Definition gets {A} (f : socket_server -> A) : IO A := fun ss => Ret (Some (f ss, ss)).
Definition modify (f : socket_server -> socket_server) : IO unit := fun ss => Ret (Some (tt, f ss)).

(** The next answer of the script. *)
Definition next : IO answer := fun ss =>
  match ss_script ss with
  | [] => Ret None
  | a :: script => Ret (Some (a, Server (ss_checkctrl ss) (ss_alloc_id ss) (ss_events ss) (ss_event_index ss) (ss_soi ss)
                      (ss_slot ss) (ss_pipe ss) (ss_count ss) (ss_polled ss) script (ss_calls ss)))
  end.

(** A call whose answer is of no interest. *)
Definition log (c : call) : IO unit := modify (fun ss => Server (ss_checkctrl ss) (ss_alloc_id ss) (ss_events ss) (ss_event_index ss) (ss_soi ss)
  (ss_slot ss) (ss_pipe ss) (ss_count ss) (ss_polled ss) (ss_script ss) (c :: ss_calls ss)).

Definition sys (c : call) : IO answer := a ← next; log c;; mret a.

Definition set_slots (f : gmap Z socket -> gmap Z socket) : IO unit := modify (fun ss =>
  Server (ss_checkctrl ss) (ss_alloc_id ss) (ss_events ss) (ss_event_index ss) (ss_soi ss) (f (ss_slot ss)) (ss_pipe ss) (ss_count ss)
    (ss_polled ss) (ss_script ss) (ss_calls ss)).
Definition set_pipe (f : list request -> list request) : IO unit := modify (fun ss =>
  Server (ss_checkctrl ss) (ss_alloc_id ss) (ss_events ss) (ss_event_index ss) (ss_soi ss) (ss_slot ss) (f (ss_pipe ss)) (ss_count ss)
    (ss_polled ss) (ss_script ss) (ss_calls ss)).
Definition set_count (n : Z) : IO unit := modify (fun ss =>
  Server (ss_checkctrl ss) (ss_alloc_id ss) (ss_events ss) (ss_event_index ss) (ss_soi ss) (ss_slot ss) (ss_pipe ss) n
    (ss_polled ss) (ss_script ss) (ss_calls ss)).
Definition set_polled (f : list Z -> list Z) : IO unit := modify (fun ss =>
  Server (ss_checkctrl ss) (ss_alloc_id ss) (ss_events ss) (ss_event_index ss) (ss_soi ss) (ss_slot ss) (ss_pipe ss) (ss_count ss)
    (f (ss_polled ss)) (ss_script ss) (ss_calls ss)).
Definition set_alloc (n : Z) : IO unit := modify (fun ss =>
  Server (ss_checkctrl ss) n (ss_events ss) (ss_event_index ss) (ss_soi ss) (ss_slot ss) (ss_pipe ss) (ss_count ss)
    (ss_polled ss) (ss_script ss) (ss_calls ss)).
Definition set_events (checkctrl : bool) (evs : list event) (index : Z) : IO unit := modify (fun ss =>
  Server checkctrl (ss_alloc_id ss) evs index (ss_soi ss) (ss_slot ss) (ss_pipe ss) (ss_count ss)
    (ss_polled ss) (ss_script ss) (ss_calls ss)).

(** A slot that was never used: only its type and its lists are set. *)
Definition socket_init : socket := Socket 0 [] [] 0 0 0 0 0 SOCKET_TYPE_INVALID 0 0 (PSize 0) false 0 0 0.
Definition slot_sock (m : gmap Z socket) (i : Z) : socket := default socket_init (m !! i).

Definition get (i : Z) : IO socket := gets (fun ss => slot_sock (ss_slot ss) i).
Definition put (i : Z) (s : socket) : IO unit := set_slots (fun m => <[i := s]> m).

(** [s->field = v] *)
Definition with_type (v : Z) (s : socket) : socket := Socket (s_opaque s) (s_high s) (s_low s) (s_wb_size s) (s_sending s) (s_fd s) (s_id s)
  (s_protocol s) v (s_udpconnecting s) (s_warn_size s) (s_p s) (s_dw_lock s) (s_dw_offset s) (s_dw_buffer s) (s_dw_size s).
Definition with_opaque (v : Z) (s : socket) : socket := Socket v (s_high s) (s_low s) (s_wb_size s) (s_sending s) (s_fd s) (s_id s)
  (s_protocol s) (s_type s) (s_udpconnecting s) (s_warn_size s) (s_p s) (s_dw_lock s) (s_dw_offset s) (s_dw_buffer s) (s_dw_size s).
Definition with_high (v : list write_buffer) (s : socket) : socket := Socket (s_opaque s) v (s_low s) (s_wb_size s) (s_sending s) (s_fd s) (s_id s)
  (s_protocol s) (s_type s) (s_udpconnecting s) (s_warn_size s) (s_p s) (s_dw_lock s) (s_dw_offset s) (s_dw_buffer s) (s_dw_size s).
Definition with_low (v : list write_buffer) (s : socket) : socket := Socket (s_opaque s) (s_high s) v (s_wb_size s) (s_sending s) (s_fd s) (s_id s)
  (s_protocol s) (s_type s) (s_udpconnecting s) (s_warn_size s) (s_p s) (s_dw_lock s) (s_dw_offset s) (s_dw_buffer s) (s_dw_size s).
Definition with_wb_size (v : Z) (s : socket) : socket := Socket (s_opaque s) (s_high s) (s_low s) v (s_sending s) (s_fd s) (s_id s)
  (s_protocol s) (s_type s) (s_udpconnecting s) (s_warn_size s) (s_p s) (s_dw_lock s) (s_dw_offset s) (s_dw_buffer s) (s_dw_size s).
Definition with_sending (v : Z) (s : socket) : socket := Socket (s_opaque s) (s_high s) (s_low s) (s_wb_size s) v (s_fd s) (s_id s)
  (s_protocol s) (s_type s) (s_udpconnecting s) (s_warn_size s) (s_p s) (s_dw_lock s) (s_dw_offset s) (s_dw_buffer s) (s_dw_size s).
Definition with_warn (v : Z) (s : socket) : socket := Socket (s_opaque s) (s_high s) (s_low s) (s_wb_size s) (s_sending s) (s_fd s) (s_id s)
  (s_protocol s) (s_type s) (s_udpconnecting s) v (s_p s) (s_dw_lock s) (s_dw_offset s) (s_dw_buffer s) (s_dw_size s).
Definition with_p (v : sock_p) (s : socket) : socket := Socket (s_opaque s) (s_high s) (s_low s) (s_wb_size s) (s_sending s) (s_fd s) (s_id s)
  (s_protocol s) (s_type s) (s_udpconnecting s) (s_warn_size s) v (s_dw_lock s) (s_dw_offset s) (s_dw_buffer s) (s_dw_size s).
Definition with_lock (v : bool) (s : socket) : socket := Socket (s_opaque s) (s_high s) (s_low s) (s_wb_size s) (s_sending s) (s_fd s) (s_id s)
  (s_protocol s) (s_type s) (s_udpconnecting s) (s_warn_size s) (s_p s) v (s_dw_offset s) (s_dw_buffer s) (s_dw_size s).
Definition with_dw (buffer size offset : Z) (s : socket) : socket := Socket (s_opaque s) (s_high s) (s_low s) (s_wb_size s) (s_sending s) (s_fd s) (s_id s)
  (s_protocol s) (s_type s) (s_udpconnecting s) (s_warn_size s) (s_p s) (s_dw_lock s) offset buffer size.
Definition with_udpconnecting (v : Z) (s : socket) : socket := Socket (s_opaque s) (s_high s) (s_low s) (s_wb_size s) (s_sending s) (s_fd s) (s_id s)
  (s_protocol s) (s_type s) v (s_warn_size s) (s_p s) (s_dw_lock s) (s_dw_offset s) (s_dw_buffer s) (s_dw_size s).
Definition with_reserved (id : Z) (s : socket) : socket := Socket (s_opaque s) (s_high s) (s_low s) (s_wb_size s) (s_sending s) (-1) id
  PROTOCOL_UNKNOWN SOCKET_TYPE_RESERVE 0 (s_warn_size s) (s_p s) (s_dw_lock s) (s_dw_offset s) (s_dw_buffer s) (s_dw_size s).

Definition update (i : Z) (f : socket -> socket) : IO unit := s ← get i; put i (f s).

(** ** The server

    [mem] is the memory that messages are in. *)
Section server.
Context (mem : Z -> Z).

(** The [n] bytes at an address. *)
Definition load (p n : Z) : bytes := map mem (seqZ p n).

(** *** Messages *)

(** [send_object]: where the bytes are, how many, and whether it is an object. A function of
    an interface that was never set is a null pointer. *)
Definition send_object_init (object sz : Z) : IO (Z * Z * bool) :=
  if sz <? 0 then
    soi ← gets ss_soi;
    match soi with
    | None => bad
    | Some soi => mret (soi_buffer soi object, soi_size soi object, true)
    end
  else mret (object, sz, false).

Definition write_buffer_free (wb : write_buffer) : IO unit := log (CFree (wb_buffer wb) (wb_userobject wb)).

Definition free_buffer (buffer sz : Z) : IO unit :=
  '(_, _, user) ← send_object_init buffer sz;
  log (CFree buffer user).

(** *** The lock of a socket *)

Definition spinlock_lock (i : Z) : IO unit := s ← get i; if s_dw_lock s then waits else put i (with_lock true s).

Definition socket_lock_init : IO unit := set_count 0.

Definition socket_lock (i : Z) : IO unit :=
  n ← gets ss_count;
  (if n =? 0 then spinlock_lock i else mret ());;
  set_count (n + 1).

Definition socket_trylock (i : Z) : IO bool :=
  n ← gets ss_count;
  if n =? 0 then
    s ← get i;
    if s_dw_lock s then mret false else put i (with_lock true s);; set_count (n + 1);; mret true
  else set_count (n + 1);; mret true.

Definition socket_unlock (i : Z) : IO unit :=
  n ← gets ss_count;
  set_count (n - 1);;
  if n - 1 <=? 0 then check (n - 1 =? 0);; update i (with_lock false) else mret ().

(** *** Identifiers

    The compare-and-swap succeeds: no thread is in between. *)
Fixpoint reserve_loop (n : nat) : IO Z :=
  match n with
  | O => mret (-1)
  | S n =>
      alloc ← gets ss_alloc_id;
      let id := s32 (alloc + 1) in
      let id := if id <? 0 then Z.land id 0x7fffffff else id in
      set_alloc id;;
      s ← get (HASH_ID id);
      if s_type s =? SOCKET_TYPE_INVALID then put (HASH_ID id) (with_reserved id s);; mret id
      else reserve_loop n
  end.

Definition reserve_id : IO Z := reserve_loop (Z.to_nat MAX_SOCKET).

(** *** Closing *)

Fixpoint free_list (l : list write_buffer) : IO unit :=
  match l with
  | [] => mret ()
  | wb :: l => write_buffer_free wb;; free_list l
  end.

Definition force_close (i : Z) : IO socket_message :=
  s ← get i;
  let result := Message (s_id s) (s_opaque s) 0 DNull in
  if s_type s =? SOCKET_TYPE_INVALID then mret result
  else
    check (negb (s_type s =? SOCKET_TYPE_RESERVE));;
    free_list (s_high s);;
    update i (with_high []);;
    free_list (s_low s);;
    update i (with_low []);;
    (if negb (s_type s =? SOCKET_TYPE_PACCEPT) && negb (s_type s =? SOCKET_TYPE_PLISTEN) then
       set_polled (filter (fun j => j <> i));; log (CSpDel i (s_fd s))
     else mret ());;
    socket_lock i;;
    (if negb (s_type s =? SOCKET_TYPE_BIND) then log (CClose (s_fd s)) else mret ());;
    update i (with_type SOCKET_TYPE_INVALID);;
    s ← get i;
    (if negb (s_dw_buffer s =? 0) then
       free_buffer (s_dw_buffer s) (s_dw_size s);;
       update i (with_dw 0 (s_dw_size s) (s_dw_offset s))
     else mret ());;
    socket_unlock i;;
    mret result.

(** [for (i=0;i<MAX_SOCKET;i++)]: [n] is what is left. *)
Fixpoint release_loop (n : nat) : IO unit :=
  match n with
  | O => mret ()
  | S n =>
      let i := MAX_SOCKET - 1 - Z.of_nat n in
      socket_lock_init;;
      s ← get i;
      (if negb (s_type s =? SOCKET_TYPE_RESERVE) then _ ← force_close i; mret () else mret ());;
      release_loop n
  end.

Definition socket_server_release : IO unit := release_loop (Z.to_nat MAX_SOCKET).

(** *** Opening *)

Definition sp_add (i fd : Z) : IO bool :=
  a ← sys (CSpAdd i fd);
  if a_ret a =? -1 then mret true else set_polled (cons i);; mret false.

Definition new_fd (id fd protocol opaque : Z) (add : bool) : IO (option Z) :=
  let i := HASH_ID id in
  s ← get i;
  check (s_type s =? SOCKET_TYPE_RESERVE);;
  failed ← (if add then sp_add i fd else mret false);
  if failed : bool then update i (with_type SOCKET_TYPE_INVALID);; mret None
  else
    s ← get i;
    check (bool_decide (s_high s = []));;
    check (bool_decide (s_low s = []));;
    put i (Socket opaque (s_high s) (s_low s) 0 (Z.shiftl (ID_TAG16 id) 16) fd id protocol (s_type s) (s_udpconnecting s) 0
             (PSize MIN_READ_BUFFER) false (s_dw_offset s) 0 0);;
    mret (Some i).

(** [for (ai_ptr = ai_list; ai_ptr != NULL; ...)]: the socket, the status of [connect] and
    [errno] of what failed last. *)
Fixpoint connect_loop (families : bytes) (e : errno_t) : IO (Z * Z * errno_t) :=
  match families with
  | [] => mret (-1, 0, e)
  | family :: families =>
      a ← sys (CSocket family);
      if a_ret a <? 0 then connect_loop families (a_errno a)
      else
        let sock := a_ret a in
        a ← sys (CConnect sock);
        if negb (a_ret a =? 0) && negb (bool_decide (a_errno a = EINPROGRESS)) then
          log (CClose sock);; connect_loop families (a_errno a)
        else mret (sock, a_ret a, e)
  end.

(** -1 when connecting. *)
Definition open_socket (id port opaque : Z) (host : bytes) : IO (Z * socket_message) :=
  let failed data := update (HASH_ID id) (with_type SOCKET_TYPE_INVALID);; mret (SOCKET_ERR, Message id opaque 0 data) in
  a ← sys (CGetaddrinfo host port);
  if negb (a_ret a =? 0) then failed (DGai (a_ret a))
  else
    '(sock, status, e) ← connect_loop (a_bytes a) (a_errno a);
    if sock <? 0 then failed (DErrno e)
    else
      ns ← new_fd id sock PROTOCOL_TCP opaque true;
      match ns with
      | None => log (CClose sock);; failed (DText "reach skynet socket number limit")
      | Some i =>
          if status =? 0 then
            update i (with_type SOCKET_TYPE_CONNECTED);;
            a ← sys (CPeerName sock);
            mret (SOCKET_OPEN, Message id opaque 0 (if a_ret a =? 0 then DPeer (a_bytes a) else DNull))
          else
            update i (with_type SOCKET_TYPE_CONNECTING);;
            log (CSpWrite sock true);;
            mret (-1, no_message)
      end.

(** *** Writing *)

(** [write]: an error, or how many bytes were taken, never more than were given. The call
    is kept with the bytes that were taken. *)
Definition sys_write (id fd p sz : Z) : IO (errno_t + Z) :=
  if sz <? 0 then bad
  else
    a ← next;
    if a_ret a <? 0 then log (CWrite id fd []);; mret (inl (a_errno a))
    else let n := Z.min (a_ret a) sz in log (CWrite id fd (load p n));; mret (inr n).

(** What became of a buffer at the head of a list: [break], [return -1], or an error. *)
Inductive write_result := WDone | WPart (wb : write_buffer) | WAgain | WError.

(** [for (;;)]: a call that was interrupted is repeated. *)
Fixpoint write_loop (fuel : nat) (i : Z) (wb : write_buffer) : IO write_result :=
  match fuel with
  | O => bad
  | S fuel =>
      s ← get i;
      r ← sys_write (s_id s) (s_fd s) (wb_ptr wb) (wb_sz wb);
      match r with
      | inl EINTR => write_loop fuel i wb
      | inl EAGAIN => mret WAgain
      | inl _ => mret WError
      | inr sz =>
          update i (with_wb_size (s_wb_size s - sz));;
          mret (if sz =? wb_sz wb then WDone else WPart (WB (wb_buffer wb) (wb_ptr wb + sz) (wb_sz wb - sz) (wb_userobject wb) (wb_udp_address wb)))
      end
  end.

(** The calls of a program are not more than the answers there are. *)
Definition answers : IO nat := gets (fun ss => S (length (ss_script ss))).

(** A list of a socket. *)
Definition list_of (priority : Z) (s : socket) : list write_buffer := if priority =? PRIORITY_HIGH then s_high s else s_low s.
Definition with_list (priority : Z) (l : list write_buffer) : socket -> socket := if priority =? PRIORITY_HIGH then with_high l else with_low l.

(** [while (list->head)]: [fuel] is the length of the list and one. *)
Fixpoint send_list_tcp (fuel : nat) (i priority : Z) : IO (Z * socket_message) :=
  match fuel with
  | O => bad
  | S fuel =>
      s ← get i;
      match list_of priority s with
      | [] => mret (-1, no_message)
      | tmp :: next =>
          n ← answers;
          r ← write_loop n i tmp;
          match r with
          | WAgain => mret (-1, no_message)
          | WError => result ← force_close i; mret (SOCKET_CLOSE, result)
          | WPart tmp => update i (with_list priority (tmp :: next));; mret (-1, no_message)
          | WDone => update i (with_list priority next);; write_buffer_free tmp;; send_list_tcp fuel i priority
          end
      end
  end.

(** The address, none (of size 0) if its type is not that of the socket. *)
Definition udp_socket_address (s : socket) (udp_address : option bytes) : IO (option bytes) :=
  match udp_address with
  | None => bad
  | Some a =>
      match a with
      | [] => bad
      | type :: a =>
          mret (if negb (type =? s_protocol s) then None
                else if s_protocol s =? PROTOCOL_UDP then Some (take 6 a)
                else if s_protocol s =? PROTOCOL_UDPv6 then Some (take 18 a)
                else None)
      end
  end.

(** The number of bytes, or -1. *)
Definition sys_sendto (fd p sz : Z) (address : option bytes) : IO Z :=
  if sz <? 0 then bad
  else
    a ← sys (CSendto fd (load p sz) address);
    mret (if a_ret a <? 0 then -1 else Z.min (a_ret a) sz).

Fixpoint send_list_udp (fuel : nat) (i priority : Z) : IO (Z * socket_message) :=
  match fuel with
  | O => bad
  | S fuel =>
      s ← get i;
      match list_of priority s with
      | [] => mret (-1, no_message)
      | tmp :: next =>
          sa ← udp_socket_address s (wb_udp_address tmp);
          err ← sys_sendto (s_fd s) (wb_ptr tmp) (wb_sz tmp) sa;
          if err <? 0 then mret (-1, no_message)
          else
            update i (with_wb_size (s_wb_size s - wb_sz tmp));;
            update i (with_list priority next);;
            write_buffer_free tmp;;
            send_list_udp fuel i priority
      end
  end.

Definition send_list (i priority : Z) : IO (Z * socket_message) :=
  s ← get i;
  let fuel := S (length (list_of priority s)) in
  if s_protocol s =? PROTOCOL_TCP then send_list_tcp fuel i priority else send_list_udp fuel i priority.

Definition list_uncomplete (l : list write_buffer) : bool :=
  match l with [] => false | wb :: _ => negb (wb_ptr wb =? wb_buffer wb) end.

Definition raise_uncomplete (i : Z) : IO unit :=
  s ← get i;
  match s_low s with
  | [] => bad
  | tmp :: next =>
      put i (with_low next s);;
      check (bool_decide (s_high s = []));;
      update i (with_high [tmp])
  end.

Definition send_buffer_empty (s : socket) : bool := bool_decide (s_high s = []) && bool_decide (s_low s = []).

(** Steps 2 to 4 of [send_buffer_], when the high list is empty. *)
Definition send_low (i : Z) : IO (Z * socket_message) :=
  s ← get i;
  r ← (match s_low s with
       | [] => mret None
       | _ =>
           '(type, result) ← send_list i PRIORITY_LOW;
           if type =? SOCKET_CLOSE then mret (Some (type, result))
           else
             s ← get i;
             if list_uncomplete (s_low s) then raise_uncomplete i;; mret (Some (-1, no_message))
             else match s_low s with [] => mret None | _ => mret (Some (-1, no_message)) end
       end);
  match r with
  | Some r => mret r
  | None =>
      s ← get i;
      check (send_buffer_empty s && (s_wb_size s =? 0));;
      log (CSpWrite (s_fd s) false);;
      if s_type s =? SOCKET_TYPE_HALFCLOSE then result ← force_close i; mret (SOCKET_CLOSE, result)
      else if 0 <? s_warn_size s then
        put i (with_warn 0 s);;
        mret (SOCKET_WARNING, Message (s_id s) (s_opaque s) 0 DNull)
      else mret (-1, no_message)
  end.

Definition send_buffer_ (i : Z) : IO (Z * socket_message) :=
  s ← get i;
  check (negb (list_uncomplete (s_low s)));;
  '(type, result) ← send_list i PRIORITY_HIGH;
  if type =? SOCKET_CLOSE then mret (type, result)
  else
    s ← get i;
    match s_high s with
    | [] => send_low i
    | _ => mret (-1, no_message)
    end.

(** [dw_buffer] becomes a node in front of the high list, one without an address. *)
Definition queue_direct (i : Z) : IO unit :=
  s ← get i;
  if negb (s_dw_buffer s =? 0) then
    '(p, n, user) ← send_object_init (s_dw_buffer s) (s_dw_size s);
    let buf := WB (s_dw_buffer s) (p + s_dw_offset s) (n - s_dw_offset s) user None in
    put i (with_dw 0 (s_dw_size s) (s_dw_offset s) (with_high (buf :: s_high s) (with_wb_size (s_wb_size s + wb_sz buf) s)))
  else mret ().

Definition send_buffer (i : Z) : IO (Z * socket_message) :=
  locked ← socket_trylock i;
  if negb locked then mret (-1, no_message)
  else
    queue_direct i;;
    r ← send_buffer_ i;
    socket_unlock i;;
    mret r.

Definition append_sendbuffer_ (i priority : Z) (buffer sz : Z) (udp_address : option bytes) : IO unit :=
  '(p, n, user) ← send_object_init buffer sz;
  s ← get i;
  put i (with_list priority (list_of priority s ++ [WB buffer p n user udp_address]) (with_wb_size (s_wb_size s + n) s)).

(** The address of a node is copied, [UDP_ADDRESS_SIZE] bytes. *)
Definition append_sendbuffer_udp (i priority buffer sz : Z) (udp_address : bytes) : IO unit :=
  append_sendbuffer_ i priority buffer sz (Some (take (Z.to_nat UDP_ADDRESS_SIZE) udp_address)).

Definition append_sendbuffer (i buffer sz : Z) : IO unit := append_sendbuffer_ i PRIORITY_HIGH buffer sz None.
Definition append_sendbuffer_low (i buffer sz : Z) : IO unit := append_sendbuffer_ i PRIORITY_LOW buffer sz None.

(** [s->p.udp_address] *)
Definition p_address (s : socket) : IO bytes := match s_p s with PAddress a => mret a | PSize _ => bad end.

Definition send_socket (id sz buffer priority : Z) (udp_address : option bytes) : IO (Z * socket_message) :=
  let i := HASH_ID id in
  s ← get i;
  '(p, n, user) ← send_object_init buffer sz;
  let refuse := log (CFree buffer user);; mret (-1, no_message) in
  if (s_type s =? SOCKET_TYPE_INVALID) || negb (s_id s =? id) || (s_type s =? SOCKET_TYPE_HALFCLOSE) || (s_type s =? SOCKET_TYPE_PACCEPT) then refuse
  else if (s_type s =? SOCKET_TYPE_PLISTEN) || (s_type s =? SOCKET_TYPE_LISTEN) then refuse
  else
    let address := match udp_address with Some a => mret a | None => p_address s end in
    sent ← (if send_buffer_empty s && (s_type s =? SOCKET_TYPE_CONNECTED) then
              sent ← (if s_protocol s =? PROTOCOL_TCP then append_sendbuffer i buffer sz;; mret false
                      else
                        a ← address;
                        sa ← udp_socket_address s (Some a);
                        k ← sys_sendto (s_fd s) p n sa;
                        if negb (k =? n) then append_sendbuffer_udp i priority buffer sz a;; mret false
                        else log (CFree buffer user);; mret true);
              (if sent : bool then mret () else log (CSpWrite (s_fd s) true));;
              mret sent
            else
              (if s_protocol s =? PROTOCOL_TCP then
                 if priority =? PRIORITY_LOW then append_sendbuffer_low i buffer sz else append_sendbuffer i buffer sz
               else a ← address; append_sendbuffer_udp i priority buffer sz a);;
              mret false);
    if sent : bool then mret (-1, no_message)
    else
      s ← get i;
      if (WARNING_SIZE <=? s_wb_size s) && (s_warn_size s <=? s_wb_size s) then
        put i (with_warn (if s_warn_size s =? 0 then WARNING_SIZE * 2 else s_warn_size s * 2) s);;
        mret (SOCKET_WARNING, Message (s_id s) (s_opaque s) (if s_wb_size s mod 1024 =? 0 then s_wb_size s / 1024 else s_wb_size s / 1024 + 1) DNull)
      else mret (-1, no_message).

(** *** Requests *)

Definition listen_socket (id fd opaque : Z) : IO (Z * socket_message) :=
  s ← new_fd id fd PROTOCOL_TCP opaque false;
  match s with
  | Some i => update i (with_type SOCKET_TYPE_PLISTEN);; mret (-1, no_message)
  | None =>
      log (CClose fd);;
      update (HASH_ID id) (with_type SOCKET_TYPE_INVALID);;
      mret (SOCKET_ERR, Message id opaque 0 (DText "reach skynet socket number limit"))
  end.

Definition nomore_sending_data (s : socket) : bool :=
  send_buffer_empty s && (s_dw_buffer s =? 0) && (Z.land (s_sending s) 0xffff =? 0).

Definition close_socket (id shutdown opaque : Z) : IO (Z * socket_message) :=
  let i := HASH_ID id in
  s ← get i;
  if (s_type s =? SOCKET_TYPE_INVALID) || negb (s_id s =? id) then mret (SOCKET_CLOSE, Message id opaque 0 DNull)
  else
    socket_lock_init;;
    '(type, result) ← (if negb (nomore_sending_data s) then send_buffer i else mret (-1, no_message));
    if negb (type =? -1) && negb (type =? SOCKET_WARNING) then mret (type, result)
    else
      s ← get i;
      if negb (shutdown =? 0) || nomore_sending_data s then
        result ← force_close i;
        mret (SOCKET_CLOSE, Message id opaque (m_ud result) (m_data result))
      else update i (with_type SOCKET_TYPE_HALFCLOSE);; mret (-1, no_message).

Definition bind_socket (id fd opaque : Z) : IO (Z * socket_message) :=
  s ← new_fd id fd PROTOCOL_TCP opaque true;
  match s with
  | None => mret (SOCKET_ERR, Message id opaque 0 (DText "reach skynet socket number limit"))
  | Some i => update i (with_type SOCKET_TYPE_BIND);; mret (SOCKET_OPEN, Message id opaque 0 (DText "binding"))
  end.

Definition start_socket (id opaque : Z) : IO (Z * socket_message) :=
  let i := HASH_ID id in
  s ← get i;
  if (s_type s =? SOCKET_TYPE_INVALID) || negb (s_id s =? id) then mret (SOCKET_ERR, Message id opaque 0 (DText "invalid socket"))
  else
    socket_lock_init;;
    if (s_type s =? SOCKET_TYPE_PACCEPT) || (s_type s =? SOCKET_TYPE_PLISTEN) then
      failed ← sp_add i (s_fd s);
      if failed : bool then
        result ← force_close i;
        mret (SOCKET_ERR, Message (m_id result) (m_opaque result) (m_ud result) (DText "epoll_ctl"))
      else
        update i (fun s => with_opaque opaque (with_type (if s_type s =? SOCKET_TYPE_PACCEPT then SOCKET_TYPE_CONNECTED else SOCKET_TYPE_LISTEN) s));;
        mret (SOCKET_OPEN, Message id opaque 0 (DText "start"))
    else if s_type s =? SOCKET_TYPE_CONNECTED then
      update i (with_opaque opaque);;
      mret (SOCKET_OPEN, Message id opaque 0 (DText "transfer"))
    else mret (-1, no_message).

Definition setopt_socket (id what value : Z) : IO unit :=
  s ← get (HASH_ID id);
  if (s_type s =? SOCKET_TYPE_INVALID) || negb (s_id s =? id) then mret ()
  else log (CSetOpt (s_fd s) what value).

(** [AF_INET6] *)
Context (af_inet6 af_inet : Z).

Definition add_udp_socket (id fd family opaque : Z) : IO unit :=
  let protocol := if family =? af_inet6 then PROTOCOL_UDPv6 else PROTOCOL_UDP in
  ns ← new_fd id fd protocol opaque true;
  match ns with
  | None => log (CClose fd);; update (HASH_ID id) (with_type SOCKET_TYPE_INVALID)
  | Some i => update i (with_type SOCKET_TYPE_CONNECTED);; update i (with_p (PAddress (replicate (Z.to_nat UDP_ADDRESS_SIZE) 0)))
  end.

(** [memcpy(s->p.udp_address, address, n)] *)
Definition copy_address (n : Z) (address : bytes) (i : Z) : IO unit :=
  s ← get i;
  a ← p_address s;
  put i (with_p (PAddress (take (Z.to_nat n) address ++ drop (Z.to_nat n) a)) s).

Definition set_udp_address (id : Z) (address : bytes) : IO (Z * socket_message) :=
  let i := HASH_ID id in
  s ← get i;
  if (s_type s =? SOCKET_TYPE_INVALID) || negb (s_id s =? id) then mret (-1, no_message)
  else
    let type := default 0 (head address) in
    if negb (type =? s_protocol s) then mret (SOCKET_ERR, Message (s_id s) (s_opaque s) 0 (DText "protocol mismatch"))
    else
      copy_address (if type =? PROTOCOL_UDP then 1 + 2 + 4 else 1 + 2 + 16) address i;;
      update i (fun s => with_udpconnecting ((s_udpconnecting s - 1) mod 2 ^ 16) s);;
      mret (-1, no_message).

(** Waits while the count is at its limit. *)
Definition inc_sending_ref (id : Z) : IO unit :=
  let i := HASH_ID id in
  s ← get i;
  if negb (s_protocol s =? PROTOCOL_TCP) then mret ()
  else if Z.shiftr (s_sending s) 16 =? ID_TAG16 id then
    if Z.land (s_sending s) 0xffff =? 0xffff then waits else put i (with_sending (s_sending s + 1) s)
  else mret ().

Definition dec_sending_ref (id : Z) : IO unit :=
  let i := HASH_ID id in
  s ← get i;
  if (s_id s =? id) && (s_protocol s =? PROTOCOL_TCP) then
    check (negb (Z.land (s_sending s) 0xffff =? 0));;
    put i (with_sending (u32 (s_sending s - 1)) s)
  else mret ().

(** The request at the front of the pipe; without one, the read waits. *)
Definition ctrl_cmd : IO (Z * socket_message) :=
  pipe ← gets ss_pipe;
  match pipe with
  | [] => waits
  | r :: rest =>
      set_pipe (fun _ => rest);;
      match r with
      | RStart id opaque => start_socket id opaque
      | RBind id fd opaque => bind_socket id fd opaque
      | RListen id fd opaque => listen_socket id fd opaque
      | RClose id shutdown opaque => close_socket id shutdown opaque
      | ROpen id port opaque host => open_socket id port opaque host
      | RExit => mret (SOCKET_EXIT, no_message)
      | RSend id sz buffer => ret ← send_socket id sz buffer PRIORITY_HIGH None; dec_sending_ref id;; mret ret
      | RSendLow id sz buffer => ret ← send_socket id sz buffer PRIORITY_LOW None; dec_sending_ref id;; mret ret
      | RSendUdp id sz buffer address => send_socket id sz buffer PRIORITY_HIGH (Some address)
      | RSetUdp id address => set_udp_address id address
      | RSetOpt id what value => setopt_socket id what value;; mret (-1, no_message)
      | RUdp id fd family opaque => add_udp_socket id fd family opaque;; mret (-1, no_message)
      end
  end.

(** *** Events *)

Definition with_data (d : mdata) (m : socket_message) : socket_message := Message (m_id m) (m_opaque m) (m_ud m) d.

(** [s->p.size] *)
Definition p_size (s : socket) : IO Z := match s_p s with PSize n => mret n | PAddress _ => bad end.

Definition forward_message_tcp (i : Z) : IO (Z * socket_message) :=
  s ← get i;
  sz ← p_size s;
  a ← sys (CRead (s_fd s) sz);
  if a_ret a <? 0 then
    if bool_decide (a_errno a = EINTR) || bool_decide (a_errno a = EAGAIN) then mret (-1, no_message)
    else result ← force_close i; mret (SOCKET_ERR, with_data (DErrno (a_errno a)) result)
  else
    let buffer := take (Z.to_nat sz) (a_bytes a) in
    let n := Z.of_nat (length buffer) in
    if n =? 0 then result ← force_close i; mret (SOCKET_CLOSE, result)
    else if s_type s =? SOCKET_TYPE_HALFCLOSE then mret (-1, no_message)
    else
      (if n =? sz then size ← int (sz * 2); put i (with_p (PSize size) s)
       else if MIN_READ_BUFFER <? sz then
         twice ← int (n * 2);
         if twice <? sz then put i (with_p (PSize (sz / 2)) s) else mret ()
       else mret ());;
      mret (SOCKET_DATA, Message (s_id s) (s_opaque s) n (DBuffer buffer)).

(** Type, port and address. *)
Definition gen_udp_address (protocol : Z) (sa : bytes) : bytes :=
  protocol :: (if protocol =? PROTOCOL_UDP then take 6 sa else take 18 sa).

(** [a_ret] is -1 or the length of the address, 16 for [sockaddr_in]; the bytes are the
    port and the address, 18 bytes at most, and the data. *)
Definition forward_message_udp (i : Z) : IO (Z * socket_message) :=
  s ← get i;
  a ← sys (CRecvfrom (s_fd s) MAX_UDP_PACKAGE);
  if a_ret a <? 0 then
    if bool_decide (a_errno a = EINTR) || bool_decide (a_errno a = EAGAIN) then mret (-1, no_message)
    else result ← force_close i; mret (SOCKET_ERR, with_data (DErrno (a_errno a)) result)
  else
    let sa := take 18 (a_bytes a) in
    let udpbuffer := take (Z.to_nat MAX_UDP_PACKAGE) (drop 18 (a_bytes a)) in
    let protocol := if a_ret a =? 16 then PROTOCOL_UDP else PROTOCOL_UDPv6 in
    if negb (s_protocol s =? protocol) then mret (-1, no_message)
    else mret (SOCKET_UDP, Message (s_id s) (s_opaque s) (Z.of_nat (length udpbuffer)) (DBuffer (udpbuffer ++ gen_udp_address protocol sa))).

(** [getsockopt(SO_ERROR)]: the error of the socket, or of the call. *)
Definition so_error (fd : Z) : IO (option errno_t) :=
  a ← sys (CSoError fd);
  mret (if a_ret a =? 0 then None else Some (a_errno a)).

Definition report_connect (i : Z) : IO (Z * socket_message) :=
  s ← get i;
  error ← so_error (s_fd s);
  match error with
  | Some e => result ← force_close i; mret (SOCKET_ERR, with_data (DErrno e) result)
  | None =>
      put i (with_type SOCKET_TYPE_CONNECTED s);;
      (if nomore_sending_data s then log (CSpWrite (s_fd s) false) else mret ());;
      a ← sys (CPeerName (s_fd s));
      mret (SOCKET_OPEN, Message (s_id s) (s_opaque s) 0 (if a_ret a =? 0 then DPeer (a_bytes a) else DNull))
  end.

(** 1, 0 when failed, or -1 when there are too many files. *)
Definition report_accept (i : Z) : IO (Z * socket_message) :=
  s ← get i;
  a ← sys (CAccept (s_fd s));
  if a_ret a <? 0 then
    if bool_decide (a_errno a = EMFILE) || bool_decide (a_errno a = ENFILE) then mret (-1, Message (s_id s) (s_opaque s) 0 (DErrno (a_errno a)))
    else mret (0, no_message)
  else
    let client_fd := a_ret a in
    id ← reserve_id;
    if id <? 0 then log (CClose client_fd);; mret (0, no_message)
    else
      ns ← new_fd id client_fd PROTOCOL_TCP (s_opaque s) false;
      match ns with
      | None => log (CClose client_fd);; mret (0, no_message)
      | Some j =>
          update j (with_type SOCKET_TYPE_PACCEPT);;
          mret (1, Message (s_id s) (s_opaque s) id (DPeer (a_bytes a)))
      end.

(** Events from [event_index] on; the first one of the closed socket is dropped. *)
Fixpoint clear_events (m : gmap Z socket) (id : Z) (evs : list event) : list event :=
  match evs with
  | [] => []
  | e :: evs =>
      match e_s e with
      | Some i =>
          let s := slot_sock m i in
          if (s_type s =? SOCKET_TYPE_INVALID) && (s_id s =? id) then Event None (e_read e) (e_write e) (e_error e) :: evs
          else e :: clear_events m id evs
      | None => e :: clear_events m id evs
      end
  end.

Definition clear_closed_event (result : socket_message) (type : Z) : IO unit :=
  if (type =? SOCKET_CLOSE) || (type =? SOCKET_ERR) then
    ss ← gets (fun ss => ss);
    let n := Z.to_nat (ss_event_index ss) in
    set_events (ss_checkctrl ss) (take n (ss_events ss) ++ clear_events (ss_slot ss) (m_id result) (drop n (ss_events ss))) (ss_event_index ss)
  else mret ().

(** The first event of each socket. *)
Fixpoint fresh_events (seen : list (option Z)) (evs : list event) : list event :=
  match evs with
  | [] => []
  | e :: evs => if bool_decide (e_s e ∈ seen) then fresh_events seen evs else e :: fresh_events (e_s e :: seen) evs
  end.

(** [sp_wait]: the events of sockets that are watched, each socket once, and of the pipe. *)
Definition sp_wait : IO (list event * errno_t) :=
  a ← sys CSpWait;
  polled ← gets ss_polled;
  let known e := match e_s e with Some i => bool_decide (i ∈ polled) | None => true end in
  mret (if a_ret a <=? 0 then [] else take (Z.to_nat MAX_EVENT) (fresh_events [] (List.filter known (a_events a))), a_errno a).

(** *** The poll loop *)

(** The event of a socket; the result to return, or none to go on. *)
Definition dispatch_event (e : event) (i : Z) : IO (option (Z * socket_message)) :=
  socket_lock_init;;
  s ← get i;
  let again e := ss ← gets (fun ss => ss);
    set_events (ss_checkctrl ss) (<[Z.to_nat (ss_event_index ss - 1) := e]> (ss_events ss)) (ss_event_index ss - 1) in
  if s_type s =? SOCKET_TYPE_CONNECTING then r ← report_connect i; mret (Some r)
  else if s_type s =? SOCKET_TYPE_LISTEN then
    '(ok, result) ← report_accept i;
    mret (if 0 <? ok then Some (SOCKET_ACCEPT, result) else if ok <? 0 then Some (SOCKET_ERR, result) else None)
  else if s_type s =? SOCKET_TYPE_INVALID then mret None
  else if e_read e then
    '(type, result) ← (if s_protocol s =? PROTOCOL_TCP then forward_message_tcp i else forward_message_udp i);
    if negb (s_protocol s =? PROTOCOL_TCP) && (type =? SOCKET_UDP) then again e;; mret (Some (SOCKET_UDP, result))
    else
      (if e_write e && negb (type =? SOCKET_CLOSE) && negb (type =? SOCKET_ERR) then again (Event (e_s e) false (e_write e) (e_error e)) else mret ());;
      mret (if type =? -1 then None else Some (type, result))
  else if e_write e then
    '(type, result) ← send_buffer i;
    mret (if type =? -1 then None else Some (type, result))
  else if e_error e then
    error ← so_error (s_fd s);
    result ← force_close i;
    mret (Some (SOCKET_ERR, with_data (match error with Some e => DErrno e | None => DText "Unknown error" end) result))
  else mret None.

(** One round of [for (;;)]: the result to return, or none for [continue]. *)
Definition poll_step : IO (option (Z * socket_message)) :=
  ss ← gets (fun ss => ss);
  if ss_checkctrl ss && negb (bool_decide (ss_pipe ss = [])) then
    '(type, result) ← ctrl_cmd;
    if negb (type =? -1) then clear_closed_event result type;; mret (Some (type, result))
    else mret None
  else
    set_events false (ss_events ss) (ss_event_index ss);;
    stop ← (if ss_event_index ss =? Z.of_nat (length (ss_events ss)) then
              '(evs, errno) ← sp_wait;
              set_events true evs 0;;
              mret (match evs with [] => Some (bool_decide (errno = EINTR)) | _ => None end)
            else mret None);
    match stop with
    | Some true => mret None
    | Some false => mret (Some (-1, no_message))
    | None =>
        ss ← gets (fun ss => ss);
        match arr_lookup (ss_events ss) (ss_event_index ss) with
        | None => bad
        | Some e =>
            set_events (ss_checkctrl ss) (ss_events ss) (ss_event_index ss + 1);;
            match e_s e with
            | None => mret None
            | Some i => dispatch_event e i
            end
        end
    end.

Fixpoint poll_loop (fuel : nat) : IO (Z * socket_message) :=
  match fuel with
  | O => bad
  | S fuel => r ← poll_step; match r with Some r => mret r | None => poll_loop fuel end
  end.

(** Every round takes a request, an event or an answer. *)
Definition socket_server_poll : IO (Z * socket_message) :=
  ss ← gets (fun ss => ss);
  poll_loop (length (ss_pipe ss) + (2 * (length (ss_events ss) + 64 * length (ss_script ss)) + length (ss_script ss)) + 1).

(** *** The interface

    The write to the pipe is atomic, and it is repeated until it succeeds. *)

Definition send_request (r : request) : IO unit := set_pipe (fun pipe => pipe ++ [r]).

(** [sizeof(struct request_open)] *)
Definition SIZEOF_REQUEST_OPEN : Z := 24.

Definition socket_server_connect (opaque : Z) (addr : bytes) (port : Z) : IO Z :=
  let len := Z.of_nat (length addr) in
  if 256 <=? len + SIZEOF_REQUEST_OPEN then mret (-1)
  else
    id ← reserve_id;
    if id <? 0 then mret (-1)
    else send_request (ROpen id port opaque addr);; mret id.

Definition can_direct_write (s : socket) (id : Z) : bool :=
  (s_id s =? id) && nomore_sending_data s && (s_type s =? SOCKET_TYPE_CONNECTED) && (s_udpconnecting s =? 0).

(** [can_direct_write(s,id) && socket_trylock(&l)] *)
Definition try_direct (id : Z) : IO bool :=
  socket_lock_init;;
  s ← get (HASH_ID id);
  if can_direct_write s id then socket_trylock (HASH_ID id) else mret false.

(** The branch that holds the lock: whether the buffer was taken. *)
Definition send_locked (id buffer sz : Z) : IO bool :=
  let i := HASH_ID id in
  s ← get i;
  if can_direct_write s id then
    '(p, size, user) ← send_object_init buffer sz;
    n ← (if s_protocol s =? PROTOCOL_TCP then
           r ← sys_write (s_id s) (s_fd s) p size;
           mret (match r with inl _ => 0 | inr n => n end)
         else
           a ← p_address s;
           sa ← udp_socket_address s (Some a);
           n ← sys_sendto (s_fd s) p size sa;
           mret (if n <? 0 then 0 else n));
    (if n =? size then socket_unlock i;; log (CFree buffer user)
     else
       update i (with_dw buffer sz n);;
       log (CSpWrite (s_fd s) true);;
       socket_unlock i);;
    mret true
  else socket_unlock i;; mret false.

Definition send_queued (r : request) (id : Z) : IO Z := inc_sending_ref id;; send_request r;; mret 0.

(** The socket is not there: the buffer is freed. *)
Definition refused (id buffer sz : Z) : IO bool :=
  s ← get (HASH_ID id);
  if negb (s_id s =? id) || (s_type s =? SOCKET_TYPE_INVALID) then free_buffer buffer sz;; mret true else mret false.

Definition socket_server_send (id buffer sz : Z) : IO Z :=
  no ← refused id buffer sz;
  if no : bool then mret (-1)
  else
    locked ← try_direct id;
    sent ← (if locked : bool then send_locked id buffer sz else mret false);
    if sent : bool then mret 0 else send_queued (RSend id sz buffer) id.

Definition socket_server_send_lowpriority (id buffer sz : Z) : IO Z :=
  no ← refused id buffer sz;
  if no : bool then mret (-1) else send_queued (RSendLow id sz buffer) id.

Definition socket_server_exit : IO unit := send_request RExit.
Definition socket_server_close (opaque id : Z) : IO unit := send_request (RClose id 0 opaque).
Definition socket_server_shutdown (opaque id : Z) : IO unit := send_request (RClose id 1 opaque).
Definition socket_server_start (opaque id : Z) : IO unit := send_request (RStart id opaque).

(** [TCP_NODELAY] *)
Context (tcp_nodelay : Z).
Definition socket_server_nodelay (id : Z) : IO unit := send_request (RSetOpt id tcp_nodelay 1).

(** The descriptor, or -1, and the family of the first address. *)
Definition do_bind (host : bytes) (port : Z) : IO (Z * Z) :=
  let host := match host with [] => str "0.0.0.0" | _ => host end in
  a ← sys (CGetaddrinfo host port);
  if negb (a_ret a =? 0) then mret (-1, 0)
  else
    match a_bytes a with
    | [] => bad
    | family :: _ =>
        a ← sys (CSocket family);
        let fd := a_ret a in
        if fd <? 0 then mret (-1, family)
        else
          a ← sys (CReuse fd);
          if a_ret a =? -1 then log (CClose fd);; mret (-1, family)
          else
            a ← sys (CBind fd);
            if negb (a_ret a =? 0) then log (CClose fd);; mret (-1, family) else mret (fd, family)
    end.

Definition do_listen (host : bytes) (port backlog : Z) : IO Z :=
  '(listen_fd, _) ← do_bind host port;
  if listen_fd <? 0 then mret (-1)
  else
    a ← sys (CListen listen_fd backlog);
    if a_ret a =? -1 then log (CClose listen_fd);; mret (-1) else mret listen_fd.

Definition socket_server_listen (opaque : Z) (addr : bytes) (port backlog : Z) : IO Z :=
  fd ← do_listen addr port backlog;
  if fd <? 0 then mret (-1)
  else
    id ← reserve_id;
    if id <? 0 then log (CClose fd);; mret id
    else send_request (RListen id fd opaque);; mret id.

Definition socket_server_bind (opaque fd : Z) : IO Z :=
  id ← reserve_id;
  if id <? 0 then mret (-1) else send_request (RBind id fd opaque);; mret id.

Definition socket_server_userobject (soi : socket_object_interface) : IO unit := modify (fun ss =>
  Server (ss_checkctrl ss) (ss_alloc_id ss) (ss_events ss) (ss_event_index ss) (Some soi) (ss_slot ss) (ss_pipe ss) (ss_count ss)
    (ss_polled ss) (ss_script ss) (ss_calls ss)).

(** [addr] is none for a null pointer. *)
Definition socket_server_udp (opaque : Z) (addr : option bytes) (port : Z) : IO Z :=
  r ← (if negb (port =? 0) || bool_decide (is_Some addr) then do_bind (default [] addr) port
       else a ← sys (CSocket af_inet); mret (a_ret a, af_inet));
  let '(fd, family) := r in
  if fd <? 0 then mret (-1)
  else
    id ← reserve_id;
    if id <? 0 then log (CClose fd);; mret (-1)
    else send_request (RUdp id fd family opaque);; mret id.

(** How many bytes an address of its type has. *)
Definition address_size (type : Z) : option Z :=
  if type =? PROTOCOL_UDP then Some (1 + 2 + 4) else if type =? PROTOCOL_UDPv6 then Some (1 + 2 + 16) else None.

Definition socket_server_udp_send (id : Z) (udp_address : bytes) (buffer sz : Z) : IO Z :=
  no ← refused id buffer sz;
  if no : bool then mret (-1)
  else
    match address_size (default 0 (head udp_address)) with
    | None => free_buffer buffer sz;; mret (-1)
    | Some addrsz =>
        let i := HASH_ID id in
        locked ← try_direct id;
        sent ← (if locked : bool then
                  s ← get i;
                  if can_direct_write s id then
                    '(p, size, user) ← send_object_init buffer sz;
                    sa ← udp_socket_address s (Some udp_address);
                    n ← sys_sendto (s_fd s) p size sa;
                    if 0 <=? n then socket_unlock i;; log (CFree buffer user);; mret true else socket_unlock i;; mret false
                  else socket_unlock i;; mret false
                else mret false);
        if sent : bool then mret 0
        else send_request (RSendUdp id sz buffer (take (Z.to_nat addrsz) udp_address));; mret 0
    end.

(** The family of the first address is [a_ret], -1 if there is none; the bytes are the port and
    the address. *)
Definition socket_server_udp_connect (id : Z) (addr : bytes) (port : Z) : IO Z :=
  let i := HASH_ID id in
  s ← get i;
  if negb (s_id s =? id) || (s_type s =? SOCKET_TYPE_INVALID) then mret (-1)
  else
    socket_lock_init;;
    socket_lock i;;
    s ← get i;
    if negb (s_id s =? id) || (s_type s =? SOCKET_TYPE_INVALID) then socket_unlock i;; mret (-1)
    else
      put i (with_udpconnecting ((s_udpconnecting s + 1) mod 2 ^ 16) s);;
      socket_unlock i;;
      a ← sys (CGetaddrinfo addr port);
      if a_ret a <? 0 then mret (-1)
      else
        let protocol := if a_ret a =? af_inet then Some PROTOCOL_UDP else if a_ret a =? af_inet6 then Some PROTOCOL_UDPv6 else None in
        match protocol with
        | None => mret (-1)
        | Some protocol => send_request (RSetUdp id (gen_udp_address protocol (a_bytes a)));; mret 0
        end.
End server.

(** The server when it is made; the calls for the event pool and the pipe succeeded. *)
Definition socket_server_create (script : list answer) : socket_server := Server true 0 [] 0 None ∅ [] 0 [] script [].

(** The address behind the data of a message of type [SOCKET_UDP], with its size. *)
Definition socket_server_udp_address (data : bytes) (ud : Z) : option (bytes * Z) :=
  let address := drop (Z.to_nat ud) data in
  match address_size (default 0 (head address)) with Some n => Some (address, n) | None => None end.
