(* ===== verification/SocketWp.v ===== *)
(** Reasoning about programs of the socket server: what holds of the result and the state
    when a program ends, if it does not wait. *)
From S2P Require Import Prelude SocketServer.

#[local] Arguments Z.mul : simpl never.
#[local] Arguments Z.add : simpl never.
#[local] Opaque Z.to_nat.
#[local] Set Default Proof Using "Type".

(** ** Weakest preconditions *)

Definition wp {A} (m : IO A) (Q : A -> socket_server -> Prop) (ss : socket_server) : Prop :=
  match m ss with Ret None => True | Ret (Some (a, ss')) => Q a ss' | _ => False end.

Lemma wp_weaken {A} (m : IO A) (P Q : A -> socket_server -> Prop) ss : wp m P ss -> (forall a ss', P a ss' -> Q a ss') -> wp m Q ss.
Proof. unfold wp. destruct (m ss) as [[[a ss']|]| | |]; auto. Qed.

Lemma wp_ret {A} (a : A) (Q : A -> socket_server -> Prop) ss : Q a ss -> wp (mret a) Q ss.
Proof. done. Qed.

Lemma wp_bind {A B} (m : IO A) (f : A -> IO B) (Q : B -> socket_server -> Prop) ss : wp m (fun a => wp (f a) Q) ss -> wp (m ≫= f) Q ss.
Proof. unfold wp, mbind, io_bind. destruct (m ss) as [[[a ss']|]| | |]; auto. Qed.

Lemma wp_waits {A} (Q : A -> socket_server -> Prop) ss : wp waits Q ss.
Proof. done. Qed.

Lemma wp_gets {A} (f : socket_server -> A) (Q : A -> socket_server -> Prop) ss : Q (f ss) ss -> wp (gets f) Q ss.
Proof. done. Qed.

Lemma wp_check b (Q : unit -> socket_server -> Prop) ss : b = true -> Q tt ss -> wp (check b) Q ss.
Proof. by intros ->. Qed.

(** ** The state *)

Definition slot (ss : socket_server) (i : Z) : socket := slot_sock (ss_slot ss) i.

Definition put_slot (i : Z) (s : socket) (ss : socket_server) : socket_server :=
  Server (ss_checkctrl ss) (ss_alloc_id ss) (ss_events ss) (ss_event_index ss) (ss_soi ss) (<[i := s]> (ss_slot ss)) (ss_pipe ss) (ss_count ss)
    (ss_polled ss) (ss_script ss) (ss_calls ss).
Definition add_call (c : call) (ss : socket_server) : socket_server :=
  Server (ss_checkctrl ss) (ss_alloc_id ss) (ss_events ss) (ss_event_index ss) (ss_soi ss) (ss_slot ss) (ss_pipe ss) (ss_count ss)
    (ss_polled ss) (ss_script ss) (c :: ss_calls ss).
Definition put_count (n : Z) (ss : socket_server) : socket_server :=
  Server (ss_checkctrl ss) (ss_alloc_id ss) (ss_events ss) (ss_event_index ss) (ss_soi ss) (ss_slot ss) (ss_pipe ss) n
    (ss_polled ss) (ss_script ss) (ss_calls ss).
Definition put_script (l : list answer) (ss : socket_server) : socket_server :=
  Server (ss_checkctrl ss) (ss_alloc_id ss) (ss_events ss) (ss_event_index ss) (ss_soi ss) (ss_slot ss) (ss_pipe ss) (ss_count ss)
    (ss_polled ss) l (ss_calls ss).
Definition put_polled (l : list Z) (ss : socket_server) : socket_server :=
  Server (ss_checkctrl ss) (ss_alloc_id ss) (ss_events ss) (ss_event_index ss) (ss_soi ss) (ss_slot ss) (ss_pipe ss) (ss_count ss)
    l (ss_script ss) (ss_calls ss).

Lemma slot_put i s ss : slot (put_slot i s ss) i = s.
Proof. unfold slot, slot_sock. cbn. by rewrite lookup_insert_eq. Qed.

Lemma slot_put_ne i j s ss : j <> i -> slot (put_slot i s ss) j = slot ss j.
Proof. intros. unfold slot, slot_sock. cbn. by rewrite lookup_insert_ne. Qed.

Lemma put_put i s s' ss : put_slot i s' (put_slot i s ss) = put_slot i s' ss.
Proof. unfold put_slot. cbn. by rewrite insert_insert_eq. Qed.

Lemma wp_get i (Q : socket -> socket_server -> Prop) ss : Q (slot ss i) ss -> wp (get i) Q ss.
Proof. done. Qed.
Lemma wp_put i s (Q : unit -> socket_server -> Prop) ss : Q tt (put_slot i s ss) -> wp (put i s) Q ss.
Proof. done. Qed.
Lemma wp_update i f (Q : unit -> socket_server -> Prop) ss : Q tt (put_slot i (f (slot ss i)) ss) -> wp (update i f) Q ss.
Proof. done. Qed.
Lemma wp_log c (Q : unit -> socket_server -> Prop) ss : Q tt (add_call c ss) -> wp (log c) Q ss.
Proof. done. Qed.
Lemma wp_set_count n (Q : unit -> socket_server -> Prop) ss : Q tt (put_count n ss) -> wp (set_count n) Q ss.
Proof. done. Qed.
Lemma wp_set_polled f (Q : unit -> socket_server -> Prop) ss : Q tt (put_polled (f (ss_polled ss)) ss) -> wp (set_polled f) Q ss.
Proof. done. Qed.
Lemma wp_next (Q : answer -> socket_server -> Prop) ss : (forall a l, ss_script ss = a :: l -> Q a (put_script l ss)) -> wp next Q ss.
Proof. unfold wp, next. destruct (ss_script ss) as [|a l] eqn:E; [done|]. intros H. by apply H. Qed.
Lemma wp_sys c (Q : answer -> socket_server -> Prop) ss : (forall a l, ss_script ss = a :: l -> Q a (add_call c (put_script l ss))) -> wp (sys c) Q ss.
Proof. intros H. unfold sys. apply wp_bind, wp_next. intros a l E. apply wp_bind, wp_log. by apply H. Qed.

(** One step of a program. *)
Ltac wp1 :=
  lazymatch goal with
  | |- wp (_ ≫= _) _ _ => apply wp_bind
  | |- wp (mret _) _ _ => apply wp_ret
  | |- wp (gets _) _ _ => apply wp_gets
  | |- wp (get _) _ _ => apply wp_get
  | |- wp (put _ _) _ _ => apply wp_put
  | |- wp (update _ _) _ _ => apply wp_update
  | |- wp (log _) _ _ => apply wp_log
  | |- wp (set_count _) _ _ => apply wp_set_count
  | |- wp (set_polled _) _ _ => apply wp_set_polled
  | |- wp waits _ _ => exact I
  | |- wp (check _) _ _ => apply wp_check
  | |- wp next _ _ => apply wp_next; intros ? ? ?
  | |- wp (sys _) _ _ => apply wp_sys; intros ? ? ?
  end.
Ltac wps := repeat wp1.

(** ** What calls have done *)

Section model.
Context (mem : Z -> Z).
Abbreviation load := (load mem).

(** The bytes that were written for a socket, and the messages that were freed; the last
    call comes first. *)
Fixpoint written (id : Z) (calls : list call) : bytes :=
  match calls with
  | [] => []
  | CWrite id' _ data :: calls => written id calls ++ (if id' =? id then data else [])
  | _ :: calls => written id calls
  end.

Fixpoint freed (calls : list call) : list Z :=
  match calls with
  | [] => []
  | CFree b _ :: calls => b :: freed calls
  | _ :: calls => freed calls
  end.

Lemma written_app id a b : written id (a ++ b) = written id b ++ written id a.
Proof. induction a as [|c a IH]; cbn; [by rewrite app_nil_r|]. destruct c; try done. by rewrite IH, app_assoc. Qed.

Lemma freed_app a b : freed (a ++ b) = freed a ++ freed b.
Proof. induction a as [|c a IH]; cbn; [done|]. destruct c; try done. by rewrite IH. Qed.

(** ** Buffers *)

Definition complete (wb : write_buffer) : Prop := wb_ptr wb = wb_buffer wb.

(** A node of a TCP or of a UDP socket, with a message that is no object. *)
Definition wb_ok (tcp : bool) (wb : write_buffer) : Prop :=
  0 <= wb_sz wb /\ wb_userobject wb = false /\ if tcp then wb_udp_address wb = None else exists t a, wb_udp_address wb = Some (t :: a).

(** What is left of the nodes, and of the message that a direct write has not finished. *)
Definition left_of (l : list write_buffer) : bytes := concat (map (fun wb => load (wb_ptr wb) (wb_sz wb)) l).
Definition direct_of (s : socket) : bytes :=
  if s_dw_buffer s =? 0 then [] else load (s_dw_buffer s + s_dw_offset s) (s_dw_size s - s_dw_offset s).
Definition front (s : socket) : bytes := direct_of s ++ left_of (s_high s).

(** The messages a socket owns. *)
Definition own (s : socket) : list Z :=
  (if s_dw_buffer s =? 0 then [] else [s_dw_buffer s]) ++ map wb_buffer (s_high s) ++ map wb_buffer (s_low s).

Definition total (l : list write_buffer) : Z := foldr (fun wb n => wb_sz wb + n) 0 l.

Definition tcp (s : socket) : bool := s_protocol s =? PROTOCOL_TCP.

(** The socket has a descriptor. *)
Definition live (s : socket) : Prop := s_type s <> SOCKET_TYPE_INVALID /\ s_type s <> SOCKET_TYPE_RESERVE.

(** The event pool watches it. *)
Definition watched (s : socket) : Prop := live s /\ s_type s <> SOCKET_TYPE_PLISTEN /\ s_type s <> SOCKET_TYPE_PACCEPT.

Record shape (s : socket) : Prop := {
  sh_empty : ~ live s -> s_high s = [] /\ s_low s = [] /\ s_dw_buffer s = 0;
  sh_reserve : s_type s = SOCKET_TYPE_RESERVE -> s_protocol s = PROTOCOL_UNKNOWN;
  sh_protocol : live s -> s_protocol s = PROTOCOL_TCP \/ s_protocol s = PROTOCOL_UDP \/ s_protocol s = PROTOCOL_UDPv6;
  sh_nodes : Forall (wb_ok (tcp s)) (s_high s ++ s_low s);
  sh_low : Forall complete (s_low s);
  sh_size : live s -> s_wb_size s = total (s_high s) + total (s_low s);
  sh_p : live s -> if tcp s then exists n, s_p s = PSize n /\ 0 < n else exists t a, s_p s = PAddress (t :: a);
  sh_direct : s_dw_buffer s <> 0 -> tcp s = true /\ 0 <= s_dw_offset s <= s_dw_size s }.

(** Nothing but the buffers of the socket, its type and its lock have changed. *)
Record same_id (s s' : socket) : Prop := {
  si_id : s_id s' = s_id s; si_protocol : s_protocol s' = s_protocol s; si_sending : s_sending s' = s_sending s }.

(** The messages of a list whose nodes are complete. *)
Definition messages (l : list write_buffer) : list (Z * Z) := map (fun wb => (wb_buffer wb, wb_sz wb)) l.
Definition contents (ms : list (Z * Z)) : bytes := concat (map (fun m => load m.1 m.2) ms).

(** What was written is what the front had and, when all of it is gone, the first messages
    of the low list; a socket that has been closed gave up the rest. *)
Definition flow (s : socket) (w : bytes) (s' : socket) : Prop :=
  if tcp s then
    if s_type s' =? SOCKET_TYPE_INVALID then exists rest, w ++ rest = front s ++ contents (messages (s_low s))
    else exists moved, messages (s_low s) = moved ++ messages (s_low s') /\ front s ++ contents moved = w ++ front s'
  else w = [].
End model.

Section facts.
Context (mem : Z -> Z).
Abbreviation load := (load mem).

Lemma load_length p n : 0 <= n -> Z.of_nat (length (load p n)) = n.
Proof. intros. unfold SocketServer.load. rewrite length_map, length_seqZ. lia. Qed.

Lemma load_split p n k : 0 <= k <= n -> load p n = load p k ++ load (p + k) (n - k).
Proof. intros. unfold SocketServer.load. rewrite <- map_app. f_equal. replace n with (k + (n - k)) at 1 by lia. apply seqZ_app; lia. Qed.

Lemma load_0 p : load p 0 = [].
Proof. done. Qed.

Lemma left_of_app l l' : left_of mem (l ++ l') = left_of mem l ++ left_of mem l'.
Proof. unfold left_of. by rewrite map_app, concat_app. Qed.

Lemma left_complete l : Forall complete l -> left_of mem l = contents mem (messages l).
Proof.
  unfold left_of, contents, messages. rewrite map_map. induction 1 as [|wb l Hw _ IH]; cbn; [done|]. unfold complete in Hw. by rewrite IH, Hw.
Qed.

Lemma total_app l l' : total (l ++ l') = total l + total l'.
Proof. induction l as [|wb l IH]; cbn [app total foldr]; [done|]. fold (total (l ++ l')) (total l). lia. Qed.

Lemma same_id_refl s : same_id s s.
Proof. done. Qed.
Lemma same_id_trans a b c : same_id a b -> same_id b c -> same_id a c.
Proof. intros [] []. split; congruence. Qed.

Lemma contents_app a b : contents mem (a ++ b) = contents mem a ++ contents mem b.
Proof. unfold contents. by rewrite map_app, concat_app. Qed.

Lemma flow_refl s : s_type s <> SOCKET_TYPE_INVALID -> flow mem s [] s.
Proof.
  intros Hs. unfold flow. destruct (tcp s); [|done]. rewrite (proj2 (Z.eqb_neq _ _) Hs). exists []. by rewrite app_nil_r.
Qed.

Lemma flow_trans s1 w1 s2 w2 s3 : s_protocol s2 = s_protocol s1 -> s_type s2 <> SOCKET_TYPE_INVALID ->
  flow mem s1 w1 s2 -> flow mem s2 w2 s3 -> flow mem s1 (w1 ++ w2) s3.
Proof.
  unfold flow, tcp. intros -> Ht. destruct (s_protocol s1 =? PROTOCOL_TCP); [|by intros -> ->]. rewrite (proj2 (Z.eqb_neq _ _) Ht).
  intros (m1 & E1 & F1). destruct (s_type s3 =? SOCKET_TYPE_INVALID).
  - intros (rest & E2). exists rest. rewrite <- app_assoc, E2, E1, contents_app, !app_assoc, F1. done.
  - intros (m2 & E2 & F2). exists (m1 ++ m2). split; [by rewrite E1, E2, app_assoc|]. rewrite contents_app, app_assoc, F1, <- !app_assoc, F2. done.
Qed.

(** Calls of no interest: they neither write nor free. *)
Definition quiet (c : call) : Prop := match c with CWrite _ _ _ | CFree _ _ => False | _ => True end.
End facts.
