(* ===== verification/SocketSend.v ===== *)
(** Sending what a socket has to send, and closing it: what the programs of the socket
    server that work on one socket do to its buffers. *)
From S2P Require Import Prelude SocketServer SocketWp.

#[local] Arguments Z.mul : simpl never.
#[local] Arguments Z.add : simpl never.
#[local] Opaque Z.to_nat.
#[local] Set Default Proof Using "Type".

(** ** Programs that work on one socket *)

(** The state with the socket [s] at [i], more calls, and the rest of the script. *)
Definition at_ (i : Z) (s : socket) (d : list call) (l : list answer) (p : list Z) (n : Z) (ss : socket_server) : socket_server :=
  Server (ss_checkctrl ss) (ss_alloc_id ss) (ss_events ss) (ss_event_index ss) (ss_soi ss) (<[i := s]> (ss_slot ss)) (ss_pipe ss) n p l (d ++ ss_calls ss).

Lemma at_slot i s d l p n ss : slot (at_ i s d l p n ss) i = s.
Proof. unfold slot, slot_sock. cbn. by rewrite lookup_insert_eq. Qed.

Lemma at_slot_ne i j s d l p n ss : j <> i -> slot (at_ i s d l p n ss) j = slot ss j.
Proof. intros. unfold slot, slot_sock. cbn. by rewrite lookup_insert_ne. Qed.

Lemma at_at i s d l p n s' d' l' p' n' ss : at_ i s' d' l' p' n' (at_ i s d l p n ss) = at_ i s' (d' ++ d) l' p' n' ss.
Proof. unfold at_. cbn. by rewrite insert_insert_eq, app_assoc. Qed.

Section local.
Context (i : Z) (s : socket) (d : list call) (l : list answer) (p : list Z) (n : Z) (ss : socket_server).
Abbreviation st := (at_ i s d l p n ss).

Lemma at_get (Q : socket -> socket_server -> Prop) : Q s st -> wp (get i) Q st.
Proof. intros H. apply wp_get. by rewrite at_slot. Qed.
Lemma at_put s' (Q : unit -> socket_server -> Prop) : Q tt (at_ i s' d l p n ss) -> wp (put i s') Q st.
Proof. intros H. apply wp_put. unfold put_slot, at_ in *. cbn. by rewrite insert_insert_eq. Qed.
Lemma at_update f (Q : unit -> socket_server -> Prop) : Q tt (at_ i (f s) d l p n ss) -> wp (update i f) Q st.
Proof. intros H. unfold update. apply wp_bind, at_get, at_put, H. Qed.
Lemma at_log c (Q : unit -> socket_server -> Prop) : Q tt (at_ i s (c :: d) l p n ss) -> wp (log c) Q st.
Proof. done. Qed.
Lemma at_set_count n' (Q : unit -> socket_server -> Prop) : Q tt (at_ i s d l p n' ss) -> wp (set_count n') Q st.
Proof. done. Qed.
Lemma at_count (Q : Z -> socket_server -> Prop) : Q n st -> wp (gets ss_count) Q st.
Proof. done. Qed.
Lemma at_set_polled f (Q : unit -> socket_server -> Prop) : Q tt (at_ i s d l (f p) n ss) -> wp (set_polled f) Q st.
Proof. done. Qed.
Lemma at_next (Q : answer -> socket_server -> Prop) : (forall a l', l = a :: l' -> Q a (at_ i s d l' p n ss)) -> wp next Q st.
Proof. intros H. apply wp_next. intros a l' E. cbn in E. by apply (H a l' E). Qed.
Lemma at_sys c (Q : answer -> socket_server -> Prop) : (forall a l', l = a :: l' -> Q a (at_ i s (c :: d) l' p n ss)) -> wp (sys c) Q st.
Proof. intros H. apply wp_sys. intros a l' E. cbn in E. by apply (H a l' E). Qed.
Lemma at_answers (Q : nat -> socket_server -> Prop) : Q (S (length l)) st -> wp answers Q st.
Proof. done. Qed.
End local.

Ltac at1 :=
  lazymatch goal with
  | |- wp (_ ≫= _) _ _ => apply wp_bind
  | |- wp (mret _) _ _ => apply wp_ret
  | |- wp (get _) _ (at_ _ _ _ _ _ _ _) => apply at_get
  | |- wp (put _ _) _ (at_ _ _ _ _ _ _ _) => apply at_put
  | |- wp (update _ _) _ (at_ _ _ _ _ _ _ _) => apply at_update
  | |- wp (log _) _ (at_ _ _ _ _ _ _ _) => apply at_log
  | |- wp (set_count _) _ (at_ _ _ _ _ _ _ _) => apply at_set_count
  | |- wp (gets ss_count) _ (at_ _ _ _ _ _ _ _) => apply at_count
  | |- wp (set_polled _) _ (at_ _ _ _ _ _ _ _) => apply at_set_polled
  | |- wp waits _ _ => exact I
  | |- wp (check _) _ _ => apply wp_check
  | |- wp next _ (at_ _ _ _ _ _ _ _) => apply at_next; intros ? ? ?
  | |- wp (sys _) _ (at_ _ _ _ _ _ _ _) => apply at_sys; intros ? ? ?
  | |- wp answers _ (at_ _ _ _ _ _ _ _) => apply at_answers
  end.
Ltac ats := repeat at1.

(** ** Writing *)

Section writing.
Context (mem : Z -> Z).
Abbreviation load := (load mem).

(** Calls that write nothing but [w], for [id]. *)
Definition writes (id : Z) (w : bytes) (d : list call) : Prop := freed d = [] /\ written id d = w /\ forall id', id' <> id -> written id' d = [].

Lemma at_write i s d l p n ss id fd q sz (Q : errno_t + Z -> socket_server -> Prop) : 0 <= sz ->
  (forall a l' r, l = a :: l' -> match r with inl _ => True | inr k => 0 <= k <= sz end ->
    Q r (at_ i s (CWrite id fd (match r with inl _ => [] | inr k => load q k end) :: d) l' p n ss)) ->
  wp (sys_write mem id fd q sz) Q (at_ i s d l p n ss).
Proof.
  intros Hsz H. unfold sys_write. rewrite (proj2 (Z.ltb_ge _ _) Hsz). ats. destruct (Z.ltb_spec (a_ret a) 0); ats.
  - by apply (H a l' (inl (a_errno a))).
  - apply (H a l' (inr (Z.min (a_ret a) sz))); [done|lia].
Qed.

Lemma writes_one id fd w d w' : writes id w' d -> writes id (w' ++ w) (CWrite id fd w :: d).
Proof.
  intros (Hf & Hw & Ho). split; [done|]. cbn [written]. rewrite Hw, Z.eqb_refl. split; [done|]. intros id' H. rewrite Ho by done. by rewrite (proj2 (Z.eqb_neq id id')) by done.
Qed.

Lemma write_loop_spec i wb fuel (Q : write_result -> socket_server -> Prop) : 0 <= wb_sz wb -> forall s d l p n ss, (length l < fuel)%nat ->
  (forall d' l', writes (s_id s) (load (wb_ptr wb) (wb_sz wb)) d' -> Q WDone (at_ i (with_wb_size (s_wb_size s - wb_sz wb) s) (d' ++ d) l' p n ss)) ->
  (forall d' l' k, 0 <= k < wb_sz wb -> writes (s_id s) (load (wb_ptr wb) k) d' ->
    Q (WPart (WB (wb_buffer wb) (wb_ptr wb + k) (wb_sz wb - k) (wb_userobject wb) (wb_udp_address wb)))
      (at_ i (with_wb_size (s_wb_size s - k) s) (d' ++ d) l' p n ss)) ->
  (forall d' l' r, r = WAgain \/ r = WError -> writes (s_id s) [] d' -> Q r (at_ i s (d' ++ d) l' p n ss)) ->
  wp (write_loop mem fuel i wb) Q (at_ i s d l p n ss).
Proof.
  intros Hsz s d l p n ss Hf Hdone Hpart Hno.
  enough (H : forall d0, writes (s_id s) [] d0 -> wp (write_loop mem fuel i wb) Q (at_ i s (d0 ++ d) l p n ss)) by (apply (H []); done).
  revert l Hf.
  induction fuel as [|fuel IH]; intros l Hf d0 Hw0; [lia|]. cbn [write_loop]. ats. apply at_write; [done|]. intros a l' r El Hr.
  rewrite El in Hf. cbn in Hf. pose proof (writes_one _ (s_fd s) (match r with inl _ => [] | inr k => load (wb_ptr wb) k end) _ _ Hw0) as Hw1.
  rewrite app_comm_cons. destruct r as [e|k]; cbn [app] in Hw1.
  - destruct e; try (apply wp_ret; apply Hno; [by right|done]); [apply IH; [lia|done]|apply wp_ret; apply Hno; [by left|done]].
  - ats. destruct (Z.eqb_spec k (wb_sz wb)) as [->|Hne]; [by apply Hdone|apply Hpart; [lia|done]].
Qed.
End writing.

(** ** Closing *)

Section closing.

(** Freeing the nodes of a list. *)
Definition free_calls (l : list write_buffer) : list call := rev (map (fun wb => CFree (wb_buffer wb) (wb_userobject wb)) l).

Lemma at_free_list i s d l p n ss nodes (Q : unit -> socket_server -> Prop) : Q tt (at_ i s (free_calls nodes ++ d) l p n ss) ->
  wp (free_list nodes) Q (at_ i s d l p n ss).
Proof.
  revert d. induction nodes as [|wb nodes IH]; intros d H; cbn [free_list]; [done|]. unfold write_buffer_free. ats. apply IH.
  unfold free_calls in H. cbn [map rev] in H. by rewrite <- app_assoc in H.
Qed.

Lemma freed_free_calls l : freed (free_calls l) ≡ₚ map wb_buffer l.
Proof. unfold free_calls. induction l as [|wb l IH]; [done|]. cbn [map rev]. rewrite freed_app, IH. cbn. by rewrite Permutation_app_comm. Qed.

Lemma written_free_calls id l : written id (free_calls l) = [].
Proof. unfold free_calls. induction l as [|wb l IH]; [done|]. cbn [map rev]. by rewrite written_app, IH. Qed.

Lemma at_socket_lock i s d l p n ss (Q : unit -> socket_server -> Prop) : 0 <= n ->
  Q tt (at_ i (with_lock (if n =? 0 then true else s_dw_lock s) s) d l p (n + 1) ss) -> wp (socket_lock i) Q (at_ i s d l p n ss).
Proof.
  intros Hc H. unfold socket_lock, spinlock_lock. ats. destruct (Z.eqb_spec n 0) as [E|E]; ats.
  - destruct (s_dw_lock s); ats. exact H.
  - by destruct s.
Qed.

Lemma at_socket_unlock i s d l p n ss (Q : unit -> socket_server -> Prop) : 1 <= n ->
  Q tt (at_ i (with_lock (if n =? 1 then false else s_dw_lock s) s) d l p (n - 1) ss) -> wp (socket_unlock i) Q (at_ i s d l p n ss).
Proof.
  intros Hc H. unfold socket_unlock. ats. destruct (Z.leb_spec (n - 1) 0); ats.
  - apply Z.eqb_eq. lia.
  - rewrite (proj2 (Z.eqb_eq n 1)) in H by lia. exact H.
  - rewrite (proj2 (Z.eqb_neq n 1)) in H by lia. by destruct s.
Qed.

Lemma wp_send_object_init object sz (Q : Z * Z * bool -> socket_server -> Prop) ss : 0 <= sz -> Q (object, sz, false) ss -> wp (send_object_init object sz) Q ss.
Proof. intros Hsz H. unfold send_object_init. rewrite (proj2 (Z.ltb_ge _ _)) by done. by wps. Qed.

(** The socket when it is closed. *)
Definition closed (s : socket) : socket :=
  Socket (s_opaque s) [] [] (s_wb_size s) (s_sending s) (s_fd s) (s_id s) (s_protocol s) SOCKET_TYPE_INVALID (s_udpconnecting s) (s_warn_size s)
    (s_p s) (s_dw_lock s) (s_dw_offset s) 0 (s_dw_size s).

Lemma closed_shape b s : shape (with_lock b (closed s)).
Proof. split; cbn; try done; try (intros [? _]; done). Qed.

Lemma own_closed b s : own (with_lock b (closed s)) = [].
Proof. done. Qed.

(** The pool watches the socket only if its type says so. *)
Definition in_pool (i : Z) (s : socket) (p : list Z) : Prop := i ∈ p -> watched s.

Definition unwatch (i : Z) (s : socket) (p : list Z) : list Z :=
  if negb (s_type s =? SOCKET_TYPE_PACCEPT) && negb (s_type s =? SOCKET_TYPE_PLISTEN) then filter (fun j => j <> i) p else p.

Lemma unwatch_spec i s p : in_pool i s p -> forall j, j ∈ unwatch i s p <-> j ∈ p /\ j <> i.
Proof.
  intros Hp j. unfold unwatch. destruct (_ && _) eqn:E; [rewrite list_elem_of_filter; tauto|]. split; [|tauto]. intros Hj. split; [done|]. intros ->.
  destruct (Hp Hj) as (_ & H1 & H2). apply andb_false_iff in E as [E|E]; apply negb_false_iff, Z.eqb_eq in E; done.
Qed.

(** The calls of closing free what the socket owns. *)
Definition closes (s : socket) (d : list call) : Prop := freed d ≡ₚ own s /\ forall id, written id d = [].

(** Calls that neither write nor free. *)
Definition silent (d : list call) : Prop := freed d = [] /\ forall id, written id d = [].

Lemma silent_call c : quiet c -> silent [c].
Proof. by destruct c. Qed.

Lemma at_maybe_log (b : bool) c i s d l p n ss (Q : unit -> socket_server -> Prop) : quiet c ->
  (forall d', silent d' -> Q tt (at_ i s (d' ++ d) l p n ss)) -> wp (if b then log c else mret ()) Q (at_ i s d l p n ss).
Proof. intros Hc H. destruct b; ats; [by apply (H [c]), silent_call|by apply (H [])]. Qed.

Lemma at_unwatch i s0 s d l p n ss (Q : unit -> socket_server -> Prop) :
  (forall d', silent d' -> Q tt (at_ i s (d' ++ d) l (unwatch i s0 p) n ss)) ->
  wp (if negb (s_type s0 =? SOCKET_TYPE_PACCEPT) && negb (s_type s0 =? SOCKET_TYPE_PLISTEN)
      then set_polled (filter (fun j => j <> i));; log (CSpDel i (s_fd s0)) else mret ()) Q (at_ i s d l p n ss).
Proof. intros H. unfold unwatch in H. destruct (_ && _); ats; [by apply (H [CSpDel i (s_fd s0)]), silent_call|by apply (H [])]. Qed.

Lemma force_close_spec i s d l p n ss (Q : socket_message -> socket_server -> Prop) : live s -> shape s -> 0 <= n ->
  (forall d', closes s d' -> Q (Message (s_id s) (s_opaque s) 0 DNull)
     (at_ i (with_lock (if n =? 0 then false else s_dw_lock s) (closed s)) (d' ++ d) l (unwatch i s p) n ss)) ->
  wp (force_close i) Q (at_ i s d l p n ss).
Proof.
  intros [Hinv Hres] Hsh Hn H. unfold force_close. ats. rewrite (proj2 (Z.eqb_neq _ _) Hinv). ats; [by apply negb_true_iff, Z.eqb_neq|].
  apply at_free_list. ats. apply at_free_list. ats. apply at_unwatch. intros d1 [Hf1 Hw1]. apply wp_bind, at_socket_lock; [done|].
  ats. apply at_maybe_log; [done|]. intros d2 [Hf2 Hw2]. ats.
  (* what is left: the message of a direct write, and the lock *)
  set (s1 := with_type _ _). set (d0 := d2 ++ d1 ++ free_calls (s_low s) ++ free_calls (s_high s)).
  replace (d2 ++ d1 ++ free_calls (s_low s) ++ free_calls (s_high s) ++ d) with (d0 ++ d) by (unfold d0; by rewrite <- !app_assoc).
  assert (Hd0 : freed d0 ≡ₚ map wb_buffer (s_high s) ++ map wb_buffer (s_low s) /\ forall id, written id d0 = []).
  { unfold d0. split; [rewrite !freed_app, Hf1, Hf2, !freed_free_calls; cbn [app]; apply Permutation_app_comm|].
    intros id. by rewrite !written_app, !written_free_calls, Hw1, Hw2. }
  assert (Hend : forall s2 d2, closes s d2 -> with_lock (if n + 1 =? 1 then false else s_dw_lock s2) s2 = with_lock (if n =? 0 then false else s_dw_lock s) (closed s) ->
    wp (socket_unlock i) (fun _ => wp (mret (Message (s_id s) (s_opaque s) 0 DNull)) Q) (at_ i s2 (d2 ++ d) l (unwatch i s p) (n + 1) ss)).
  { intros s2 d3 Hc E. apply at_socket_unlock; [lia|]. ats. rewrite E. replace (n + 1 - 1) with n by lia. by apply H. }
  assert (Hlock : (n + 1 =? 1) = (n =? 0)) by (destruct (Z.eqb_spec n 0), (Z.eqb_spec (n + 1) 1); try done; lia).
  change (s_dw_buffer s1) with (s_dw_buffer s). destruct (Z.eqb_spec (s_dw_buffer s) 0) as [E0|E0]; cbn [negb]; ats.
  - apply Hend; [split; [|apply Hd0]; unfold own; rewrite (proj2 (Z.eqb_eq _ _) E0); apply Hd0|]. rewrite Hlock.
    unfold s1. destruct s; cbn in E0 |- *. subst. by destruct (n =? 0).
  - unfold free_buffer. destruct (sh_direct _ Hsh E0) as [_ Hsz]. apply wp_bind, wp_send_object_init; [unfold s1; cbn; lia|]. ats. 
    apply (Hend _ (CFree (s_dw_buffer s) false :: d0)); [split; [|apply Hd0]; unfold own; rewrite (proj2 (Z.eqb_neq _ _) E0); cbn; by rewrite (proj1 Hd0)|].
    rewrite Hlock. unfold s1. destruct s; cbn in *. by destruct (n =? 0).
Qed.
End closing.

(** ** Sending the lists *)

Section sending.
Context (mem : Z -> Z).
Abbreviation load := (load mem).

Definition prio_ok (prio : Z) : Prop := prio = PRIORITY_HIGH \/ prio = PRIORITY_LOW.

(** A node of the low list that has been sent in part is moved to the high list. *)
Definition raised (s : socket) : socket := match s_low s with [] => s | wb :: rest => with_high [wb] (with_low rest s) end.
Definition settle (prio : Z) (s : socket) : socket := if (prio =? PRIORITY_LOW) && list_uncomplete (s_low s) then raised s else s.

(** Sending from the list [prio] of [s], with the calls [d], gives [s']. *)
Record advanced (prio : Z) (s : socket) (d : list call) (s' : socket) : Prop := {
  ad_id : same_id s s';
  ad_same : s_type s' = s_type s /\ s_opaque s' = s_opaque s /\ s_dw_lock s' = s_dw_lock s /\ s_warn_size s' = s_warn_size s /\ s_fd s' = s_fd s /\
    s_p s' = s_p s /\ s_udpconnecting s' = s_udpconnecting s;
  ad_direct : s_dw_buffer s' = 0;
  ad_lists : if prio =? PRIORITY_HIGH then s_low s' = s_low s else s_high s' = [];
  ad_own : own s ≡ₚ freed d ++ own s';
  ad_ids : forall id, id <> s_id s -> written id d = [];
  ad_shape : shape (settle prio s');
  ad_flow : flow mem s (written (s_id s) d) (settle prio s') }.

(** What sending needs. *)
Record sendable (prio : Z) (s : socket) : Prop := {
  sd_live : live s; sd_shape : shape s; sd_direct : s_dw_buffer s = 0; sd_high : prio = PRIORITY_LOW -> s_high s = [] }.

Lemma settle_complete prio s : Forall complete (s_low s) -> settle prio s = s.
Proof.
  intros H. unfold settle, list_uncomplete. destruct (s_low s) as [|wb l]; [by rewrite andb_false_r|]. apply Forall_cons in H as [H _].
  unfold complete in H. rewrite (proj2 (Z.eqb_eq _ _) H). by rewrite andb_false_r.
Qed.

Lemma front_high s : s_dw_buffer s = 0 -> front mem s = left_of mem (s_high s).
Proof. intros E. unfold front, direct_of. by rewrite (proj2 (Z.eqb_eq _ _) E). Qed.

Lemma advance_refl prio s : sendable prio s -> prio_ok prio -> advanced prio s [] s.
Proof.
  intros [Hl Hs Hd Hh] Hp. split; try done; [destruct Hp as [-> | ->]; [done|by apply Hh]|rewrite settle_complete by apply Hs; done..|].
  rewrite settle_complete by apply Hs. apply flow_refl, Hl.
Qed.

(** The first node of the list. *)
Lemma list_of_nodes prio s : shape s -> Forall (wb_ok (tcp s)) (list_of prio s).
Proof. intros H. pose proof (sh_nodes _ H) as Hn. apply Forall_app in Hn as [? ?]. unfold list_of. by destruct (prio =? PRIORITY_HIGH). Qed.

(** The whole of the first node has been sent. *)
Definition popped (prio : Z) (s : socket) (wb : write_buffer) (rest : list write_buffer) : socket :=
  with_list prio rest (with_wb_size (s_wb_size s - wb_sz wb) s).

Lemma popped_sendable prio s wb rest : prio_ok prio -> sendable prio s -> list_of prio s = wb :: rest -> sendable prio (popped prio s wb rest).
Proof.
  intros Hp [Hl Hs Hd Hh] E. pose proof (list_of_nodes prio s Hs) as Hn. rewrite E in Hn. apply Forall_cons in Hn as [_ Hn].
  pose proof (sh_nodes _ Hs) as Hnodes. apply Forall_app in Hnodes as [Hn1 Hn2]. pose proof (sh_low _ Hs) as Hlow. pose proof (sh_size _ Hs Hl) as Hsz.
  unfold popped, with_list, list_of in *. destruct Hp as [-> | ->]; cbn in E; rewrite E in *.
  - split; [done| |done|done]. split; cbn [s_high s_low s_wb_size s_type s_p s_dw_buffer s_protocol with_high with_wb_size PRIORITY_HIGH Z.eqb]; try apply Hs; [tauto| |].
    + apply Forall_app. split; [exact Hn|exact Hn2].
    + intros _. cbn [total foldr] in Hsz. fold (total rest) in Hsz. cbn. lia.
  - split; [done| |done|by apply Hh]. split; cbn [s_high s_low s_wb_size s_type s_p s_dw_buffer s_protocol with_low with_wb_size PRIORITY_LOW PRIORITY_HIGH Z.eqb]; try apply Hs; [tauto| | |].
    + apply Forall_app. split; [exact Hn1|exact Hn].
    + by apply Forall_cons in Hlow as [_ ?].
    + intros _. cbn [total foldr] in Hsz. fold (total rest) in Hsz. cbn. lia.
Qed.

Lemma popped_advance prio s wb rest d : prio_ok prio -> sendable prio s -> list_of prio s = wb :: rest ->
  freed d = [wb_buffer wb] -> (forall id, id <> s_id s -> written id d = []) -> written (s_id s) d = (if tcp s then load (wb_ptr wb) (wb_sz wb) else []) ->
  advanced prio s d (popped prio s wb rest).
Proof.
  intros Hp Hsd E Hf Hids Hw. pose proof (popped_sendable _ _ _ _ Hp Hsd E) as [Hl' Hs' Hd' Hh']. destruct Hsd as [Hl Hs Hd Hh].
  pose proof (sh_low _ Hs) as Hlow. assert (Htcp : tcp (popped prio s wb rest) = tcp s) by (unfold popped, with_list; by destruct Hp as [-> | ->]).
  rewrite <- (settle_complete prio (popped prio s wb rest)) in Hs' by apply Hs'. split; try done.
  - by destruct Hp as [-> | ->].
  - by destruct Hp as [-> | ->].
  - destruct Hp as [-> | ->]; [done|by apply Hh].
  - rewrite Hf. unfold own, popped, with_list, list_of in *. rewrite (proj2 (Z.eqb_eq _ _) Hd).
    destruct Hp as [-> | ->]; cbn in E |- *; rewrite (proj2 (Z.eqb_eq _ _) Hd), E; cbn; [done|]. by rewrite Permutation_middle.
  - rewrite Hw. rewrite settle_complete by (destruct Hp as [-> | ->]; [exact Hlow|cbn in E; rewrite E in Hlow; by apply Forall_cons in Hlow as [_ ?]]).
    unfold flow. destruct (tcp s); [|done]. replace (s_type (popped prio s wb rest)) with (s_type s) by (by destruct Hp as [-> | ->]).
    rewrite (proj2 (Z.eqb_neq _ _) (proj1 Hl)). unfold list_of in E. destruct Hp as [-> | ->]; cbn in E.
    + exists []. cbn. rewrite app_nil_r. split; [done|]. rewrite !front_high by done. cbn. by rewrite E.
    + exists [(wb_buffer wb, wb_sz wb)]. cbn. split; [by rewrite E|]. rewrite !front_high by done. cbn. rewrite (Hh eq_refl). cbn. rewrite E in Hlow.
      apply Forall_cons in Hlow as [Hc _]. unfold complete in Hc. by rewrite Hc, !app_nil_r.
Qed.

(** A part of it has been sent. *)
Definition cut (prio : Z) (s : socket) (wb : write_buffer) (rest : list write_buffer) (k : Z) : socket :=
  with_list prio (WB (wb_buffer wb) (wb_ptr wb + k) (wb_sz wb - k) (wb_userobject wb) (wb_udp_address wb) :: rest) (with_wb_size (s_wb_size s - k) s).

Lemma cut_advance prio s wb rest k d : prio_ok prio -> sendable prio s -> tcp s = true -> list_of prio s = wb :: rest -> 0 <= k < wb_sz wb ->
  writes (s_id s) (load (wb_ptr wb) k) d -> advanced prio s d (cut prio s wb rest k).
Proof.
  intros Hp [Hl Hs Hd Hh] Ht E Hk (Hf & Hw & Ho). pose proof (sh_nodes _ Hs) as Hnodes. apply Forall_app in Hnodes as [Hn1 Hn2].
  pose proof (sh_low _ Hs) as Hlow. pose proof (sh_size _ Hs Hl) as Hsz. pose proof (list_of_nodes prio s Hs) as Hn. rewrite E in Hn. apply Forall_cons in Hn as [(Hn0 & Hu & Ha) Hn].
  set (wb' := WB (wb_buffer wb) (wb_ptr wb + k) (wb_sz wb - k) (wb_userobject wb) (wb_udp_address wb)).
  assert (Hok' : wb_ok (tcp s) wb') by (split_and!; [cbn; lia|done|done]).
  assert (Hload : load (wb_ptr wb) (wb_sz wb) = load (wb_ptr wb) k ++ load (wb_ptr wb') (wb_sz wb')) by (apply load_split; lia).
  unfold cut. fold wb'. destruct Hp as [-> | ->]; unfold list_of, with_list in *; cbn in E; rewrite E in *; cbn [total foldr] in Hsz; fold (total rest) in Hsz.
  - split; try done.
    + unfold own. cbn. rewrite Hd, Hf, E. done.
    + cbn. split; cbn; try apply Hs; [tauto|apply Forall_cons; split; [exact Hok'|by apply Forall_app]|].
      intros _. unfold total in *. lia.
    + cbn. unfold flow. rewrite Ht. cbn. rewrite (proj2 (Z.eqb_neq _ _) (proj1 Hl)). exists []. split; [done|]. rewrite app_nil_r, Hw, !front_high by done. cbn. rewrite E. cbn.
      by rewrite Hload, <- app_assoc.
  - specialize (Hh eq_refl). apply Forall_cons in Hlow as [Hc Hlow]. unfold complete in Hc.
    assert (Hset : forall s', s_low s' = wb' :: rest -> s_high s' = [] -> settle PRIORITY_LOW s' = with_high [wb'] (with_low rest s') \/ (k = 0 /\ settle PRIORITY_LOW s' = s')).
    { intros s' El Eh. unfold settle, raised, list_uncomplete. rewrite El. destruct (Z.eqb_spec (wb_ptr wb') (wb_buffer wb')) as [E0|]; [right; cbn in E0; split; [lia|done]|by left]. }
    specialize (Hset (with_low (wb' :: rest) (with_wb_size (s_wb_size s - k) s)) eq_refl Hh). cbn [Z.eqb PRIORITY_LOW PRIORITY_HIGH].
    split; try done.
    + unfold own. cbn. rewrite Hd, Hf, E. done.
    + destruct Hset as [-> |[-> ->]].
      * split; cbn; try apply Hs; [tauto|by apply Forall_cons; split|done|]. intros _. rewrite Hh in Hsz. cbn in Hsz. unfold total in *. cbn [wb_sz] in *. lia.
      * split; cbn; try apply Hs; [tauto|rewrite Hh; cbn; by apply Forall_cons; split|apply Forall_cons; split; [unfold complete; cbn; lia|done]|].
        intros _. rewrite Hh in *. cbn in *. unfold total in *. cbn [wb_sz] in *. lia.
    + unfold flow. rewrite Ht. destruct Hset as [-> |[-> ->]]; cbn; rewrite (proj2 (Z.eqb_neq _ _) (proj1 Hl)).
      * exists [(wb_buffer wb, wb_sz wb)]. split; [by rewrite E|]. rewrite Hw, !front_high by done. cbn. rewrite Hh. cbn.
        rewrite <- Hc, Hload, !app_nil_r. done.
      * exists []. rewrite E, Hw, !front_high by done. cbn. rewrite Hh. split; [|done]. unfold messages. cbn. rewrite Z.sub_0_r. done.
Qed.
End sending.

Section sending.
Context (mem : Z -> Z).
Abbreviation load := (load mem).

(** The socket [s] has been closed, with the calls [d]. *)
Record gone (s : socket) (d : list call) (s' : socket) : Prop := {
  gn_id : same_id s s'; gn_type : s_type s' = SOCKET_TYPE_INVALID; gn_lock : s_dw_lock s' = s_dw_lock s; gn_shape : shape s';
  gn_empty : own s' = []; gn_own : own s ≡ₚ freed d; gn_ids : forall id, id <> s_id s -> written id d = [];
  gn_flow : flow mem s (written (s_id s) d) s' }.

Lemma advance_trans prio s1 d1 s2 d2 s3 : advanced mem prio s1 d1 s2 -> sendable prio s2 -> advanced mem prio s2 d2 s3 -> advanced mem prio s1 (d2 ++ d1) s3.
Proof.
  intros [I1 (T1 & S1) D1 L1 O1 W1 H1 F1] Hsd [I2 (T2 & S2) D2 L2 O2 W2 H2 F2]. destruct Hsd as [Hl Hs Hd Hh].
  assert (Hid : s_id s2 = s_id s1) by apply I1. split; try done.
  - by eapply same_id_trans.
  - split; [congruence|]. destruct S1 as (?&?&?&?&?&?), S2 as (?&?&?&?&?&?). split_and!; congruence.
  - destruct (prio =? PRIORITY_HIGH); congruence.
  - rewrite freed_app, O1, O2. rewrite !app_assoc. apply Permutation_app_tail, Permutation_app_comm.
  - intros id Hne. rewrite written_app, W1 by done. rewrite W2 by congruence. done.
  - rewrite written_app. rewrite settle_complete in F1 by apply Hs. rewrite Hid in F2. eapply flow_trans; [|exact (proj1 Hl)|exact F1|exact F2]. apply I1.
Qed.

Lemma close_gone s d0 d1 s1 prio b : advanced mem prio s d0 s1 -> sendable prio s1 -> closes s1 d1 -> b = s_dw_lock s ->
  gone s (d1 ++ d0) (with_lock b (closed s1)).
Proof.
  intros [I1 (T1 & S1) D1 L1 O1 W1 H1 F1] [Hl Hs Hd Hh] [Ho Hw] ->. assert (Hid : s_id s1 = s_id s) by apply I1.
  rewrite settle_complete in F1 by apply Hs. split; try done.
  - by destruct I1.
  - apply closed_shape.
  - by rewrite freed_app, Ho, O1, Permutation_app_comm.
  - intros id Hne. rewrite written_app, W1, Hw by done. done.
  - rewrite written_app, Hw, app_nil_r. unfold flow in *. destruct (tcp s); [|done]. rewrite (proj2 (Z.eqb_neq _ _) (proj1 Hl)) in F1. cbn.
    destruct F1 as (moved & Em & Ef). exists (front mem s1 ++ contents mem (messages (s_low s1))).
    by rewrite Em, contents_app, !app_assoc, Ef.
Qed.

(** What a program that sends may end in. *)
Definition sent_post (prio : Z) (i : Z) (s : socket) (d : list call) (l : list answer) (p : list Z) (n : Z) (ss : socket_server)
    (Q : Z * socket_message -> socket_server -> Prop) : Prop :=
  (forall d' l' s' r, advanced mem prio s d' s' -> Q (-1, r) (at_ i s' (d' ++ d) l' p n ss)) /\
  (forall d' l' s' r, gone s d' s' -> m_id r = s_id s -> Q (SOCKET_CLOSE, r) (at_ i s' (d' ++ d) l' (unwatch i s p) n ss)).

Lemma unwatch_type i s s' p : s_type s' = s_type s -> unwatch i s' p = unwatch i s p.
Proof. intros E. unfold unwatch. by rewrite E. Qed.

Lemma sent_post_step prio i s d l p n ss Q d1 s1 l1 : advanced mem prio s d1 s1 -> sendable prio s1 ->
  sent_post prio i s d l p n ss Q -> sent_post prio i s1 (d1 ++ d) l1 p n ss Q.
Proof.
  intros Hadv Hsd [Hok Hclose]. split.
  - intros d2 l2 s2 r H2. rewrite app_assoc. apply Hok. by eapply advance_trans.
  - intros d2 l2 s2 r H2 Hr. rewrite app_assoc. destruct Hadv as [I1 (T1 & S1) D1 L1 O1 W1 H1 F1].
    assert (Hid : s_id s1 = s_id s) by apply I1. rewrite (unwatch_type i s _ p T1). apply Hclose; [|congruence]. destruct H2 as [J1 J2 J3 J4 J5 J6 J7 J8].
    rewrite settle_complete in F1 by apply Hsd. split; try done.
    + by eapply same_id_trans.
    + rewrite J3. apply S1.
    + by rewrite freed_app, O1, J6, Permutation_app_comm.
    + intros id Hne. rewrite written_app, W1, J7; [done|congruence|done].
    + rewrite written_app. rewrite Hid in J8. eapply flow_trans; [|exact (proj1 (sd_live _ _ Hsd))|exact F1|exact J8]. apply I1.
Qed.

(** The first node is gone, whoever took it. *)
Lemma list_of_popped prio s wb rest : prio_ok prio -> list_of prio (popped prio s wb rest) = rest.
Proof. intros Hp. unfold popped, with_list, list_of. by destruct Hp as [-> | ->]. Qed.
Lemma tcp_popped prio s wb rest : prio_ok prio -> tcp (popped prio s wb rest) = tcp s.
Proof. intros Hp. unfold popped, with_list, list_of. by destruct Hp as [-> | ->]. Qed.

Lemma send_list_tcp_spec prio i n ss Q : prio_ok prio -> 1 <= n -> forall fuel s d l p, sendable prio s -> tcp s = true -> (length (list_of prio s) < fuel)%nat ->
  sent_post prio i s d l p n ss Q -> wp (send_list_tcp mem fuel i prio) Q (at_ i s d l p n ss).
Proof.
  intros Hp Hn. induction fuel as [|fuel IH]; intros s d l p Hsd Ht Hf Hpost; [lia|]. pose proof Hpost as [Hok Hclose]. cbn [send_list_tcp]. ats.
  destruct (list_of prio s) as [|tmp rest] eqn:E; ats.
  { apply (Hok []). by apply advance_refl. }
  pose proof (list_of_nodes prio s (sd_shape _ _ Hsd)) as Hnodes. rewrite E in Hnodes. apply Forall_cons in Hnodes as [Hnode _].
  apply (write_loop_spec mem); [apply Hnode|lia|..].
  - intros d' l' Hw. ats. unfold write_buffer_free. ats. fold (popped prio s tmp rest).
    change (with_list prio rest (with_wb_size (s_wb_size s - wb_sz tmp) s)) with (popped prio s tmp rest).
    pose proof (popped_sendable _ _ _ _ Hp Hsd E) as Hsd'. set (d1 := CFree (wb_buffer tmp) (wb_userobject tmp) :: d').
    assert (Hadv : advanced mem prio s d1 (popped prio s tmp rest)).
    { destruct Hw as (Hfr & Hw & Ho). apply popped_advance; try done; [unfold d1; cbn; by rewrite Hfr|]. rewrite Ht. exact Hw. }
    apply (IH (popped prio s tmp rest) (d1 ++ d)); [done|by rewrite tcp_popped|rewrite list_of_popped by done; cbn in Hf; lia|].
    by eapply sent_post_step.
  - intros d' l' k Hk Hw. ats. apply Hok. by apply (cut_advance mem prio s tmp rest k d').
  - intros d' l' r Hr (Hfr & Hw & Ho). assert (Hadv : advanced mem prio s d' s).
    { pose proof (advance_refl mem prio s Hsd Hp) as [I1 T1 D1 L1 O1 W1 H1 F1]. split; try done; [by rewrite Hfr|by rewrite Hw]. }
    destruct Hr as [-> | ->]; ats; [by apply Hok|]. apply force_close_spec; [apply Hsd|apply Hsd|lia|]. intros d1 Hc. ats. rewrite app_assoc.
    rewrite (proj2 (Z.eqb_neq n 0)) by lia. apply Hclose; [|done]. by eapply close_gone.
Qed.

Lemma at_sendto i s d l p n ss fd q sz a (Q : Z -> socket_server -> Prop) : 0 <= sz ->
  (forall d' l' k, silent d' -> k = -1 \/ 0 <= k <= sz -> Q k (at_ i s (d' ++ d) l' p n ss)) -> wp (sys_sendto mem fd q sz a) Q (at_ i s d l p n ss).
Proof.
  intros Hsz H. unfold sys_sendto. rewrite (proj2 (Z.ltb_ge _ _) Hsz). ats. destruct (Z.ltb_spec (a_ret a0) 0);
    apply (H [_]); try (by apply silent_call); [by left|right; lia].
Qed.

Lemma wp_udp_socket_address s a (Q : option bytes -> socket_server -> Prop) ss : (exists t b, a = Some (t :: b)) -> (forall r, Q r ss) -> wp (udp_socket_address s a) Q ss.
Proof. intros (t & b & ->) H. unfold udp_socket_address. wps. apply H. Qed.

Lemma send_list_udp_spec prio i n ss Q : prio_ok prio -> 1 <= n -> forall fuel s d l p, sendable prio s -> tcp s = false -> (length (list_of prio s) < fuel)%nat ->
  sent_post prio i s d l p n ss Q -> wp (send_list_udp mem fuel i prio) Q (at_ i s d l p n ss).
Proof.
  intros Hp Hn. induction fuel as [|fuel IH]; intros s d l p Hsd Ht Hf Hpost; [lia|]. pose proof Hpost as [Hok Hclose]. cbn [send_list_udp]. ats.
  pose proof (advance_refl mem prio s Hsd Hp) as Hrefl.
  destruct (list_of prio s) as [|tmp rest] eqn:E; ats; [by apply (Hok [])|].
  pose proof (list_of_nodes prio s (sd_shape _ _ Hsd)) as Hnodes. rewrite E, Ht in Hnodes. apply Forall_cons in Hnodes as [(Hsz & _ & Ha) _].
  apply wp_udp_socket_address; [exact Ha|]. intros sa. ats. apply at_sendto; [done|]. intros d' l' k [Hfr Hw] Hk.
  destruct (Z.ltb_spec k 0); ats.
  { apply Hok. destruct Hrefl as [I1 T1 D1 L1 O1 W1 H1 F1]. split; try done; [by rewrite Hfr|by rewrite Hw]. }
  unfold write_buffer_free. ats. change (with_list prio rest (with_wb_size (s_wb_size s - wb_sz tmp) s)) with (popped prio s tmp rest).
  pose proof (popped_sendable _ _ _ _ Hp Hsd E) as Hsd'. set (d1 := CFree (wb_buffer tmp) (wb_userobject tmp) :: d').
  assert (Hadv : advanced mem prio s d1 (popped prio s tmp rest)).
  { apply popped_advance; [done|done|done|unfold d1; cbn; by rewrite Hfr|intros id _; apply Hw|rewrite Ht; apply Hw]. }
  apply (IH (popped prio s tmp rest) (d1 ++ d)); [done|by rewrite tcp_popped|rewrite list_of_popped by done; cbn in Hf; lia|].
  by eapply sent_post_step.
Qed.

Lemma send_list_spec prio i n ss Q s d l p : prio_ok prio -> 1 <= n -> sendable prio s -> sent_post prio i s d l p n ss Q ->
  wp (send_list mem i prio) Q (at_ i s d l p n ss).
Proof.
  intros Hp Hn Hsd Hpost. unfold send_list. ats. change (s_protocol s =? PROTOCOL_TCP) with (tcp s).
  destruct (tcp s) eqn:Ht; [apply send_list_tcp_spec|apply send_list_udp_spec]; try done; lia.
Qed.
End sending.

(** ** Sending both lists *)

Section buffers.
Context (mem : Z -> Z).
Abbreviation load := (load mem).

(** The socket [s] is open still; the calls were [d]. *)
Record kept (s : socket) (d : list call) (s' : socket) : Prop := {
  kp_id : same_id s s';
  kp_same : s_type s' = s_type s /\ s_opaque s' = s_opaque s /\ s_dw_lock s' = s_dw_lock s /\ s_p s' = s_p s /\ s_udpconnecting s' = s_udpconnecting s;
  kp_direct : s_dw_buffer s' = 0;
  kp_shape : shape s';
  kp_own : own s ≡ₚ freed d ++ own s';
  kp_ids : forall id, id <> s_id s -> written id d = [];
  kp_flow : flow mem s (written (s_id s) d) s' }.

Lemma kept_live s d s' : kept s d s' -> live s -> live s'.
Proof. intros [_ (T & _) _ _ _ _ _]. unfold live. by rewrite T. Qed.

Lemma kept_step s d s' d1 s1 : kept s d s' -> live s -> kept s' d1 s1 -> kept s (d1 ++ d) s1.
Proof.
  intros [I1 (T1 & S1) D1 H1 O1 W1 F1] Hl [I2 (T2 & S2) D2 H2 O2 W2 F2]. assert (Hid : s_id s' = s_id s) by apply I1. split; try done.
  - by eapply same_id_trans.
  - split; [congruence|]. destruct S1 as (?&?&?&?), S2 as (?&?&?&?). split_and!; congruence.
  - rewrite freed_app, O1, O2. rewrite !app_assoc. apply Permutation_app_tail, Permutation_app_comm.
  - intros id Hne. rewrite written_app, W1, W2; [done|congruence|done].
  - rewrite written_app. rewrite Hid in F2. eapply flow_trans; [apply I1| |exact F1|exact F2]. rewrite T1. apply Hl.
Qed.

Lemma gone_step s d s' d1 s1 : kept s d s' -> live s -> gone mem s' d1 s1 -> gone mem s (d1 ++ d) s1.
Proof.
  intros [I1 (T1 & S1) D1 H1 O1 W1 F1] Hl [J1 J2 J3 J4 J5 J6 J7 J8]. assert (Hid : s_id s' = s_id s) by apply I1. split; try done.
  - by eapply same_id_trans.
  - rewrite J3. apply S1.
  - by rewrite freed_app, O1, J6, Permutation_app_comm.
  - intros id Hne. rewrite written_app, W1, J7; [done|congruence|done].
  - rewrite written_app. rewrite Hid in J8. eapply flow_trans; [apply I1| |exact F1|exact J8]. rewrite T1. apply Hl.
Qed.

(** What the programs below may end in. *)
Definition buffer_post (i : Z) (s : socket) (d : list call) (l : list answer) (p : list Z) (n : Z) (ss : socket_server)
    (Q : Z * socket_message -> socket_server -> Prop) : Prop :=
  (forall d' l' s' t r, (t = -1 \/ t = SOCKET_WARNING) -> kept s d' s' -> Q (t, r) (at_ i s' (d' ++ d) l' p n ss)) /\
  (forall d' l' s' r, gone mem s d' s' -> m_id r = s_id s -> Q (SOCKET_CLOSE, r) (at_ i s' (d' ++ d) l' (unwatch i s p) n ss)).

Lemma buffer_post_step i s d l p n ss Q d1 s1 l1 : kept s d1 s1 -> live s -> buffer_post i s d l p n ss Q -> buffer_post i s1 (d1 ++ d) l1 p n ss Q.
Proof.
  intros Hk Hl [Hok Hclose]. split.
  - intros d2 l2 s2 t r Ht H2. rewrite app_assoc. apply Hok; [done|]. by eapply kept_step.
  - intros d2 l2 s2 r H2 Hr. rewrite app_assoc. rewrite (unwatch_type i s _ p) by apply Hk. apply Hclose; [by eapply gone_step|]. rewrite Hr. apply Hk.
Qed.

Lemma advance_kept prio s d s' : advanced mem prio s d s' -> settle prio s' = s' -> kept s d s'.
Proof. intros [I1 (T1 & A1 & A2 & A3 & A4 & A5 & A6) D1 L1 O1 W1 H1 F1] E. rewrite E in H1, F1. by split. Qed.

Lemma kept_refl s d : live s -> shape s -> s_dw_buffer s = 0 -> silent d -> kept s d s.
Proof. intros Hl Hs Hd [Hf Hw]. split; try done; [by rewrite Hf|]. rewrite Hw. apply flow_refl, Hl. Qed.

(** Both lists are empty. *)
Lemma send_low_end i n ss Q s d l p : 1 <= n -> live s -> shape s -> s_dw_buffer s = 0 -> s_high s = [] -> s_low s = [] -> buffer_post i s d l p n ss Q ->
  wp (s ← get i;
      check (send_buffer_empty s && (s_wb_size s =? 0));;
      log (CSpWrite (s_fd s) false);;
      if s_type s =? SOCKET_TYPE_HALFCLOSE then result ← force_close i; mret (SOCKET_CLOSE, result)
      else if 0 <? s_warn_size s then put i (with_warn 0 s);; mret (SOCKET_WARNING, Message (s_id s) (s_opaque s) 0 DNull)
      else mret (-1, no_message)) Q (at_ i s d l p n ss).
Proof.
  intros Hn Hl Hs Hd Eh El [Hok Hclose]. ats.
  { unfold send_buffer_empty. rewrite Eh, El. pose proof (sh_size _ Hs Hl) as Hsz. rewrite Eh, El in Hsz. cbn in Hsz. by rewrite Hsz. }
  assert (Hsil : silent [CSpWrite (s_fd s) false]) by (by apply silent_call). destruct (s_type s =? SOCKET_TYPE_HALFCLOSE); ats.
  - apply force_close_spec; [done|done|lia|]. intros d' Hc. ats. rewrite (proj2 (Z.eqb_neq n 0)) by lia. change (CSpWrite (s_fd s) false :: d) with ([CSpWrite (s_fd s) false] ++ d).
    rewrite app_assoc. apply Hclose; [|done]. assert (Hsd : sendable PRIORITY_HIGH s) by done.
    eapply (close_gone mem s _ d' s PRIORITY_HIGH); try done. pose proof (advance_refl mem PRIORITY_HIGH s Hsd ltac:(by left)) as [I1 T1 D1 L1 O1 W1 H1 F1]. by split.
  - destruct (0 <? s_warn_size s); ats; apply (Hok [CSpWrite (s_fd s) false]); try (by left); try (by right); try (by apply kept_refl).
    split; try done; [split; apply Hs|]. exact (flow_refl mem s (proj1 Hl)).
Qed.

Lemma send_low_spec i n ss Q s d l p : 1 <= n -> live s -> shape s -> s_dw_buffer s = 0 -> s_high s = [] -> buffer_post i s d l p n ss Q ->
  wp (send_low mem i) Q (at_ i s d l p n ss).
Proof.
  intros Hn Hl Hs Hd Eh Hpost. unfold send_low. apply wp_bind, at_get. apply wp_bind. destruct (s_low s) as [|wb rest] eqn:El.
  { apply wp_ret. by apply (send_low_end i n ss Q s d l p). }
  assert (Hsd : sendable PRIORITY_LOW s) by done. apply wp_bind, send_list_spec; [by right|done|done|]. pose proof Hpost as [Hok Hclose]. split.
  - intros d' l' s' r Hadv. change (-1 =? SOCKET_CLOSE) with false. cbv iota. apply wp_bind, at_get.
    pose proof Hadv as [I1 (T1 & A1 & A2 & A3 & A4 & A5 & A6) D1 L1 O1 W1 H1 F1]. cbn in L1. destruct (list_uncomplete (s_low s')) eqn:Eu.
    + assert (Eset : settle PRIORITY_LOW s' = raised s') by (unfold settle; by rewrite Eu). rewrite Eset in *.
      unfold raised in *. destruct (s_low s') as [|wb' rest'] eqn:El'; [done|]. unfold raise_uncomplete. ats. rewrite El'. ats.
      { cbn. by rewrite L1. }
      apply Hok; [by left|]. split; try done; [by destruct I1|]. rewrite O1. unfold own. cbn. by rewrite L1, El'.
    + assert (Eset : settle PRIORITY_LOW s' = s') by (unfold settle; by rewrite Eu). pose proof (advance_kept _ _ _ _ Hadv Eset) as Hk.
      destruct (s_low s') as [|wb' rest'] eqn:El'; apply wp_ret.
      * apply (send_low_end i n ss Q s' (d' ++ d) l' p); try done; [by eapply kept_live|apply Hk|]. by eapply buffer_post_step.
      * apply wp_ret. apply Hok; [by left|done].
  - intros d' l' s' r Hg Hr. change (SOCKET_CLOSE =? SOCKET_CLOSE) with true. cbv iota. apply wp_ret, wp_ret. by apply Hclose.
Qed.

Lemma send_buffer__spec i n ss Q s d l p : 1 <= n -> live s -> shape s -> s_dw_buffer s = 0 -> buffer_post i s d l p n ss Q ->
  wp (send_buffer_ mem i) Q (at_ i s d l p n ss).
Proof.
  intros Hn Hl Hs Hd Hpost. unfold send_buffer_. apply wp_bind, at_get. apply wp_bind, wp_check.
  { unfold list_uncomplete. pose proof (sh_low _ Hs) as Hlow. destruct (s_low s); [done|]. apply Forall_cons in Hlow as [Hc _]. unfold complete in Hc.
    by rewrite (proj2 (Z.eqb_eq _ _) Hc). }
  assert (Hsd : sendable PRIORITY_HIGH s) by (split; try done; intros [=]). apply wp_bind, send_list_spec; [by left|done|done|]. pose proof Hpost as [Hok Hclose]. split.
  - intros d' l' s' r Hadv. change (-1 =? SOCKET_CLOSE) with false. cbv iota. apply wp_bind, at_get.
    assert (Hk : kept s d' s') by (eapply advance_kept; [exact Hadv|done]). destruct (s_high s') eqn:Eh'.
    + apply (send_low_spec i n ss Q s' (d' ++ d) l' p); try done; [by eapply kept_live|apply Hk|apply Hk|]. by eapply buffer_post_step.
    + apply wp_ret. apply Hok; [by left|done].
  - intros d' l' s' r Hg Hr. change (SOCKET_CLOSE =? SOCKET_CLOSE) with true. cbv iota. apply wp_ret. by apply Hclose.
Qed.
End buffers.

Section direct.
Context (mem : Z -> Z).
Abbreviation load := (load mem).

Lemma shape_lock b s : shape s -> shape (with_lock b s).
Proof. intros []. by split. Qed.

Lemma kept_lock s d s' : s_dw_lock s = false -> kept mem (with_lock true s) d s' -> kept mem s d (with_lock false s').
Proof.
  intros Hl [[] (T1 & A1 & A2 & A3 & A4) D1 H1 O1 W1 F1]. split; try done. by apply shape_lock.
Qed.

Lemma gone_lock s d s' : s_dw_lock s = false -> gone mem (with_lock true s) d s' -> gone mem s d (with_lock false s').
Proof. intros Hl [[] J2 J3 J4 J5 J6 J7 J8]. split; try done. by apply shape_lock. Qed.

(** The message of a direct write becomes the first node. *)
Definition queued (s : socket) : socket :=
  with_dw 0 (s_dw_size s) (s_dw_offset s) (with_high (WB (s_dw_buffer s) (s_dw_buffer s + s_dw_offset s) (s_dw_size s - s_dw_offset s) false None :: s_high s)
    (with_wb_size (s_wb_size s + (s_dw_size s - s_dw_offset s)) s)).

Lemma queued_kept s : live s -> shape s -> s_dw_buffer s <> 0 -> kept mem s [] (queued s).
Proof.
  intros Hl Hs Hd. destruct (sh_direct _ Hs Hd) as [Ht Hoff]. split; try done.
  - split; cbn; try apply Hs; [tauto| | |done].
    + change (tcp (queued s)) with (tcp s). rewrite Ht. apply Forall_cons. split; [split_and!; [cbn; lia|done|done]|]. pose proof (sh_nodes _ Hs) as Hn. by rewrite Ht in Hn.
    + intros _. pose proof (sh_size _ Hs Hl). unfold total in *. lia.
  - unfold own. cbn. by rewrite (proj2 (Z.eqb_neq _ _) Hd).
  - unfold flow. rewrite Ht. cbn. rewrite (proj2 (Z.eqb_neq _ _) (proj1 Hl)). exists []. split; [done|]. unfold front, direct_of. cbn.
    by rewrite (proj2 (Z.eqb_neq _ _) Hd), app_nil_r.
Qed.

Lemma at_queue_direct i s d l p n ss (Q : unit -> socket_server -> Prop) : shape s ->
  Q tt (at_ i (if s_dw_buffer s =? 0 then s else queued s) d l p n ss) -> wp (queue_direct i) Q (at_ i s d l p n ss).
Proof.
  intros Hs H. unfold queue_direct. apply wp_bind, at_get. destruct (Z.eqb_spec (s_dw_buffer s) 0) as [E|E]; cbn [negb]; [by ats|].
  destruct (sh_direct _ Hs E) as [_ Hoff]. apply wp_bind, wp_send_object_init; [lia|]. ats. exact H.
Qed.

(** [send_buffer] when no thread holds the lock. *)
Lemma send_buffer_spec i ss (Q : Z * socket_message -> socket_server -> Prop) s d l p : live s -> shape s ->
  (s_dw_lock s = true -> Q (-1, no_message) (at_ i s d l p 0 ss)) ->
  (s_dw_lock s = false -> buffer_post mem i s d l p 0 ss Q) -> wp (send_buffer mem i) Q (at_ i s d l p 0 ss).
Proof.
  intros Hl Hs Hbusy Hfree. unfold send_buffer, socket_trylock. ats. cbn [Z.eqb]. ats. destruct (s_dw_lock s) eqn:El; ats; [by apply Hbusy|].
  cbn [negb]. ats. destruct (Hfree eq_refl) as [Hok Hclose]. apply at_queue_direct; [by apply shape_lock|]. ats. change (0 + 1) with 1.
  set (s0 := with_lock true s). set (s1 := if s_dw_buffer s0 =? 0 then s0 else queued s0).
  assert (Hk : live s1 /\ shape s1 /\ s_dw_buffer s1 = 0 /\ s_dw_lock s1 = true /\ s_type s1 = s_type s /\ s_id s1 = s_id s /\
    (forall d' s', kept mem s1 d' s' -> kept mem s0 d' s') /\ (forall d' s', gone mem s1 d' s' -> gone mem s0 d' s')).
  { assert (H0 : shape s0) by (by apply shape_lock). unfold s1. destruct (Z.eqb_spec (s_dw_buffer s0) 0) as [E|E]; [done|].
    pose proof (queued_kept s0 Hl H0 E) as Hq. split_and!; try done; [apply Hq|intros d' s' H; rewrite <- (app_nil_r d'); by eapply kept_step|intros d' s' H; rewrite <- (app_nil_r d'); by eapply gone_step]. }
  destruct Hk as (Hl1 & Hs1 & Hd1 & Hlk & Hty & Hid & Hkept & Hgone).
  apply send_buffer__spec; [lia|done|done|done|]. split.
  - intros d' l' s' t r Ht H. apply wp_bind, at_socket_unlock; [lia|]. ats. cbn [Z.eqb Pos.eqb]. change (1 - 1) with 0. apply Hok; [done|]. apply kept_lock; [done|]. by apply Hkept.
  - intros d' l' s' r H Hr. apply wp_bind, at_socket_unlock; [lia|]. ats. cbn [Z.eqb Pos.eqb]. change (1 - 1) with 0.
    rewrite (unwatch_type i s _ p Hty). apply Hclose; [|by rewrite Hr, Hid]. apply gone_lock; [done|]. by apply Hgone.
Qed.
End direct.
