(* ===== verification/SocketInv.v ===== *)
(** What always holds of the socket server: the sockets, the requests in the pipe, the bytes
    that were written, the messages that were freed. *)
From S2P Require Import Prelude SocketServer SocketWp SocketSend.

#[local] Arguments Z.mul : simpl never.
#[local] Arguments Z.add : simpl never.
#[local] Opaque Z.to_nat.
#[local] Set Default Proof Using "Type".

(** ** Messages and requests *)

(** A message that was accepted, and whether its priority is low. *)
Definition tagged : Type := bool * (Z * Z).

Definition of_id (id : Z) (l : list (Z * tagged)) : list tagged := omap (fun m => if m.1 =? id then Some m.2 else None) l.
Definition lane (low : bool) (l : list tagged) : list (Z * Z) := omap (fun m => if Bool.eqb m.1 low then Some m.2 else None) l.

(** The messages of each priority are in the same order. *)
Definition shuffle (a b : list tagged) : Prop := forall low, lane low a = lane low b.

(** The messages that wait in the pipe. *)
Definition send_of (r : request) : option (Z * tagged) :=
  match r with
  | RSend id sz buffer => Some (id, (false, (buffer, sz)))
  | RSendLow id sz buffer => Some (id, (true, (buffer, sz)))
  | _ => None
  end.
Definition sends : list request -> list (Z * tagged) := omap send_of.

Definition buffer_of (r : request) : option Z :=
  match r with RSend _ _ b | RSendLow _ _ b | RSendUdp _ _ b _ => Some b | _ => None end.
Definition buffers : list request -> list Z := omap buffer_of.

(** The requests that open a socket that was reserved. *)
Definition opener (r : request) : option Z :=
  match r with ROpen id _ _ _ | RListen id _ _ | RBind id _ _ | RUdp id _ _ _ => Some id | _ => None end.
Definition udp_opener (r : request) : option Z := match r with RUdp id _ _ _ => Some id | _ => None end.

(** The socket may be given messages. *)
Definition open_type (s : socket) : Prop :=
  s_type s = SOCKET_TYPE_CONNECTING \/ s_type s = SOCKET_TYPE_CONNECTED \/ s_type s = SOCKET_TYPE_HALFCLOSE \/ s_type s = SOCKET_TYPE_BIND.

(** The socket [s] at the place of the request is the one that it is for. *)
Definition used_by (id : Z) (s : socket) : Prop := s_id s = id /\ s_type s <> SOCKET_TYPE_INVALID.

Definition target (r : request) : option Z :=
  match r with
  | RClose id _ _ | RSend id _ _ | RSendLow id _ _ | RSendUdp id _ _ _ => Some id
  | ROpen id _ _ _ | RListen id _ _ | RBind id _ _ | RUdp id _ _ _ => Some id
  | _ => None
  end.

(** What holds of a request with those in [a] before it, for the socket [s] at its place. *)
Definition request_ok (alloc : Z) (a : list request) (r : request) (s : socket) : Prop :=
  match r with
  | RStart _ _ | RExit | RSetOpt _ _ _ => True
  | RClose id _ _ => id <= alloc /\ (used_by id s -> s_type s = SOCKET_TYPE_RESERVE -> id ∈ omap opener a)
  | RSend id sz buffer | RSendLow id sz buffer =>
      1 <= id <= alloc /\ 0 <= sz /\ buffer <> 0 /\ (used_by id s -> tcp s = true /\ open_type s)
  | RSendUdp id sz buffer address =>
      1 <= id <= alloc /\ 0 <= sz /\ (exists t x, address = t :: x) /\
      (used_by id s -> tcp s = false /\ (s_type s = SOCKET_TYPE_RESERVE -> id ∈ omap udp_opener a))
  | RSetUdp _ address => exists t x, address = t :: x /\ (t = PROTOCOL_UDP \/ t = PROTOCOL_UDPv6)
  | ROpen id _ _ _ | RListen id _ _ | RBind id _ _ | RUdp id _ _ _ => s_id s = id /\ s_type s = SOCKET_TYPE_RESERVE
  end.

Definition request_id (r : request) : Z :=
  match r with
  | RStart id _ | RClose id _ _ | RSend id _ _ | RSendLow id _ _ | RSendUdp id _ _ _ | RSetUdp id _ | RSetOpt id _ _ => id
  | ROpen id _ _ _ | RListen id _ _ | RBind id _ _ | RUdp id _ _ _ => id
  | RExit => 0
  end.

(** The number of messages for a socket in the pipe. *)
Definition pending (id : Z) (pipe : list request) : Z := Z.of_nat (length (of_id id (sends pipe))).

Record slot_ok (sent : list (Z * tagged)) (pipe : list request) (alloc : Z) (polled : list Z) (i : Z) (s : socket) : Prop := {
  so_shape : shape s;
  so_range : 0 <= s_id s <= alloc;
  so_hash : s_id s <> 0 -> HASH_ID (s_id s) = i;
  so_used : s_type s <> SOCKET_TYPE_INVALID -> s_id s <> 0;
  so_watched : i ∈ polled -> watched s;
  so_reserved : s_type s = SOCKET_TYPE_RESERVE -> of_id (s_id s) sent = [] /\ s_id s ∈ omap opener pipe;
  so_count : s_type s <> SOCKET_TYPE_RESERVE -> tcp s = true ->
    s_sending s = Z.shiftl (ID_TAG16 (s_id s)) 16 + pending (s_id s) pipe /\ pending (s_id s) pipe <= 0xffff }.

Section model.
Context (mem : Z -> Z).

(** The bytes of messages. *)
Definition bytes_of (l : list tagged) : bytes := contents mem (l.*2).

Definition lows (s : socket) : list tagged := pair true <$> messages (s_low s).

(** The socket of an identifier, when it is there and for TCP. *)
Definition flowing (id : Z) (s : socket) : Prop := s_id s = id /\ live s /\ tcp s = true.

(** What was written, with the front of the socket, are whole messages; those that were
    accepted are these, the low list, and what is to come from the pipe. A socket that closes
    drops what comes. *)
Definition flowing_ok (q : list tagged) (p : list tagged) (s : socket) (w : bytes) : Prop :=
  exists A rest, w ++ front mem s = bytes_of A /\ shuffle (A ++ lows s ++ rest) q /\ (s_type s <> SOCKET_TYPE_HALFCLOSE -> rest = p).

Definition stream (q : list tagged) (p : list tagged) (id : Z) (s : socket) (w : bytes) : Prop :=
  (flowing id s -> flowing_ok q p s w) /\ (~ flowing id s -> exists order, shuffle order q /\ w `prefix_of` bytes_of order).

Definition owned (m : gmap Z socket) : list Z := concat ((fun p => own p.2) <$> map_to_list m).

Record core (sent : list (Z * tagged)) (given : list Z) (pipe : list request) (ss : socket_server) : Prop := {
  co_slots : forall i, slot_ok sent pipe (ss_alloc_id ss) (ss_polled ss) i (slot ss i);
  co_requests : forall a r b, pipe = a ++ r :: b -> request_ok (ss_alloc_id ss) a r (slot ss (HASH_ID (request_id r)));
  co_openers : NoDup (omap opener pipe);
  co_stream : forall id, stream (of_id id sent) (of_id id (sends pipe)) id (slot ss (HASH_ID id)) (written id (ss_calls ss));
  co_new : forall id, ss_alloc_id ss < id -> of_id id sent = [] /\ written id (ss_calls ss) = [];
  co_owned : given ≡ₚ freed (ss_calls ss) ++ owned (ss_slot ss) ++ buffers pipe }.
End model.

(** ** Lists *)

Lemma of_id_app id a b : of_id id (a ++ b) = of_id id a ++ of_id id b.
Proof. apply omap_app. Qed.
Lemma lane_app low a b : lane low (a ++ b) = lane low a ++ lane low b.
Proof. apply omap_app. Qed.
Lemma sends_app a b : sends (a ++ b) = sends a ++ sends b.
Proof. apply omap_app. Qed.
Lemma buffers_app a b : buffers (a ++ b) = buffers a ++ buffers b.
Proof. apply omap_app. Qed.

#[export] Instance shuffle_equiv : Equivalence shuffle.
Proof. split; [done|intros a b H low; by rewrite H|intros a b c H1 H2 low; by rewrite H1]. Qed.

#[export] Instance shuffle_app : Proper (shuffle ==> shuffle ==> shuffle) (app (A:=tagged)).
Proof. intros a a' Ha b b' Hb low. by rewrite !lane_app, Ha, Hb. Qed.

Lemma lane_pair b low ms : lane low (pair b <$> ms) = if Bool.eqb b low then ms else [].
Proof. unfold lane. induction ms as [|m ms IH]; cbn; [by destruct (Bool.eqb b low)|]. rewrite IH. by destruct (Bool.eqb b low). Qed.

(** A message of high priority may pass those of low priority. *)
Lemma shuffle_pass hs ls : shuffle ((pair true <$> ls) ++ (pair false <$> hs)) ((pair false <$> hs) ++ (pair true <$> ls)).
Proof. intros low. rewrite !lane_app, !lane_pair. destruct low; cbn; by rewrite ?app_nil_r. Qed.

Lemma pending_app id a b : pending id (a ++ b) = pending id a + pending id b.
Proof. unfold pending. rewrite sends_app, of_id_app, length_app. lia. Qed.

Lemma bytes_of_app mem a b : bytes_of mem (a ++ b) = bytes_of mem a ++ bytes_of mem b.
Proof. unfold bytes_of. by rewrite fmap_app, contents_app. Qed.

Lemma bytes_of_pair mem b ms : bytes_of mem (pair b <$> ms) = contents mem ms.
Proof. unfold bytes_of. f_equal. induction ms; cbn; by f_equal. Qed.

(** ** The messages that sockets own *)

Lemma owned_insert m i s : own (slot_sock m i) ++ owned (<[i := s]> m) ≡ₚ own s ++ owned m.
Proof.
  unfold slot_sock, owned. destruct (m !! i) as [s0|] eqn:E; cbn.
  - rewrite <- insert_delete_eq. rewrite map_to_list_insert by apply lookup_delete_eq.
    assert (Hm : map_to_list m ≡ₚ (i, s0) :: map_to_list (delete i m)).
    { rewrite <- map_to_list_insert by apply lookup_delete_eq. by rewrite insert_delete_eq, insert_id. }
    cbn. rewrite Hm. cbn. rewrite !app_assoc. apply Permutation_app_tail, Permutation_app_comm.
  - rewrite map_to_list_insert by done. done.
Qed.

(** ** Changing one socket *)

Section changes.
Context (mem : Z -> Z).

Lemma opener_target r id : opener r = Some id -> target r = Some id.
Proof. by destruct r. Qed.
Lemma send_target r id m : send_of r = Some (id, m) -> target r = Some id.
Proof. destruct r; cbn; congruence. Qed.
Lemma udp_opener_opener r id : udp_opener r = Some id -> opener r = Some id.
Proof. by destruct r. Qed.
Lemma opener_request r id : opener r = Some id -> request_id r = id.
Proof. destruct r; cbn; congruence. Qed.

Lemma elem_of_openers id (f : request -> option Z) (pipe : list request) : id ∈ omap f pipe <-> exists r : request, r ∈ pipe /\ f r = Some id.
Proof. by rewrite list_elem_of_omap. Qed.

Lemma of_id_none id r : (forall m, send_of r <> Some (id, m)) -> of_id id (sends [r]) = [].
Proof.
  intros H. unfold of_id, sends. cbn. destruct (send_of r) as [[id' m]|] eqn:E; cbn; [|done]. destruct (Z.eqb_spec id' id) as [->|]; [|done]. by destruct (H m).
Qed.

Lemma hand_none hand k id : (forall r, r ∈ hand -> target r = Some k) -> id <> k -> of_id id (sends hand) = [].
Proof.
  intros H Hne. induction hand as [|r hand IH]; [done|]. change (r :: hand) with ([r] ++ hand). rewrite sends_app, of_id_app, IH by (intros; apply H; by right).
  rewrite app_nil_r. apply of_id_none. intros m Hm%send_target. rewrite (H r) in Hm by (by left). congruence.
Qed.

Lemma hand_opener hand k id (f : request -> option Z) (a : list request) : (forall r, r ∈ hand -> target r = Some k) -> (forall r, f r = Some id -> opener r = Some id) -> id <> k ->
  id ∈ omap f (hand ++ a) -> id ∈ omap f a.
Proof.
  intros H Hf Hne. rewrite !elem_of_openers. intros (r & [Hr|Hr]%elem_of_app & E); [|by exists r]. apply Hf, opener_target in E. rewrite (H r Hr) in E. congruence.
Qed.

(** Requests of other sockets do not depend on those in hand. *)
Lemma request_ok_drop alloc hand k a r s : (forall r, r ∈ hand -> target r = Some k) -> s_id s <> k -> request_ok alloc (hand ++ a) r s -> request_ok alloc a r s.
Proof.
  intros H Hne. destruct r; cbn; try done.
  - intros [Hid Ho]. split; [done|]. intros Hu Ht. pose proof Hu as [Eu _]. eapply hand_opener; [exact H|done|congruence|by apply Ho].
  - intros (Hid & Hsz & Ha & Ho). split_and!; try done; try lia. intros Hu. pose proof Hu as [Eu _]. destruct (Ho Hu) as [? Hr]. split; [done|].
    intros Ht. eapply hand_opener; [exact H|intros; by apply udp_opener_opener|congruence|by apply Hr].
Qed.

Lemma slot_ok_other sent sent' hand k rest alloc polled polled' j s : (forall r, r ∈ hand -> target r = Some k) -> s_id s <> k ->
  (forall id, id <> k -> of_id id sent' = of_id id sent) -> (j ∈ polled' -> j ∈ polled) ->
  slot_ok sent (hand ++ rest) alloc polled j s -> slot_ok sent' rest alloc polled' j s.
Proof.
  intros H Hne Hsent Hpol [A B C D E F G]. split; try done; [auto| |].
  - intros Ht. rewrite Hsent by done. destruct (F Ht) as [F1 F2]. split; [done|]. eapply hand_opener; [exact H|done|done|done].
  - intros Ht Htcp. specialize (G Ht Htcp). rewrite pending_app in G. unfold pending at 1 3 in G. rewrite (hand_none hand k) in G by done. exact G.
Qed.

Lemma stream_written q p id s w : stream mem q p id s w -> stream mem q p id s (w ++ []).
Proof. by rewrite app_nil_r. Qed.

Lemma core_local sent sent' given new hand rest ss i s' d l p n :
  core mem sent given (hand ++ rest) ss ->
  s_id (slot ss i) <> 0 -> s_id s' = s_id (slot ss i) ->
  slot_ok sent' rest (ss_alloc_id ss) p i s' ->
  (forall j, j <> i -> j ∈ p -> j ∈ ss_polled ss) ->
  (forall r, r ∈ hand -> target r = Some (s_id s')) ->
  (forall id, id <> s_id s' -> written id d = [] /\ of_id id sent' = of_id id sent) ->
  (forall w, stream mem (of_id (s_id s') sent) (of_id (s_id s') (sends (hand ++ rest))) (s_id s') (slot ss i) w ->
     stream mem (of_id (s_id s') sent') (of_id (s_id s') (sends rest)) (s_id s') s' (w ++ written (s_id s') d)) ->
  (forall a r b, rest = a ++ r :: b -> request_ok (ss_alloc_id ss) (hand ++ a) r (slot ss i) -> request_ok (ss_alloc_id ss) a r s') ->
  own (slot ss i) ++ buffers hand ++ new ≡ₚ freed d ++ own s' ->
  core mem sent' (given ++ new) rest (at_ i s' d l p n ss).
Proof.
  intros [A B C D E F] Hid0 Hid Hslot Hp Hhand Hother Hstream Hreq Hown.
  assert (Hi : HASH_ID (s_id s') = i) by (rewrite Hid; by eapply so_hash).
  assert (Hj : forall j, j <> i -> s_id (slot ss j) <> s_id s').
  { intros j Hj Ej. apply Hj. rewrite <- Hi, <- Ej. symmetry. eapply so_hash; [apply A|]. congruence. }
  split; cbn [ss_alloc_id ss_polled ss_calls ss_slot at_].
  - intros j. destruct (decide (j = i)) as [->|Hne]; [by rewrite at_slot|]. rewrite at_slot_ne by done.
    eapply slot_ok_other; [exact Hhand|by apply Hj|intros id; apply Hother|by apply Hp|apply A].
  - intros a r b Er. specialize (B (hand ++ a) r b). rewrite Er, <- app_assoc in B. specialize (B eq_refl).
    destruct (decide (HASH_ID (request_id r) = i)) as [Ei|Ei].
    + rewrite Ei in *. rewrite at_slot. by eapply Hreq.
    + rewrite at_slot_ne by done. by eapply request_ok_drop; [exact Hhand|apply Hj|].
  - rewrite omap_app in C. by apply NoDup_app in C as (_ & _ & C).
  - intros id. specialize (D id). rewrite written_app. destruct (decide (id = s_id s')) as [->|Hne].
    + rewrite Hi in *. rewrite at_slot. by apply Hstream.
    + destruct (Hother id Hne) as [-> ->]. rewrite sends_app, of_id_app, (hand_none hand (s_id s')) in D by done. cbn [app] in D. rewrite app_nil_r.
      destruct (decide (HASH_ID id = i)) as [Ei|Ei].
      * rewrite Ei in *. rewrite at_slot. split; [intros [? _]; congruence|]. intros _. apply D. intros [? _]. congruence.
      * by rewrite at_slot_ne.
  - intros id Hgt. assert (Hne : id <> s_id s') by (pose proof (so_range _ _ _ _ _ _ Hslot); lia). destruct (Hother id Hne) as [Hw Hs].
    rewrite Hs, written_app, Hw, app_nil_r. by apply E.
  - rewrite F, freed_app, buffers_app. pose proof (owned_insert (ss_slot ss) i s') as Ho. change (slot_sock (ss_slot ss) i) with (slot ss i) in Ho.
    apply (Permutation_app_inv_l (own (slot ss i))).
    transitivity (freed (ss_calls ss) ++ owned (ss_slot ss) ++ (own (slot ss i) ++ buffers hand ++ new) ++ buffers rest); [solve_Permutation|].
    rewrite Hown. transitivity (freed (ss_calls ss) ++ freed d ++ (own s' ++ owned (ss_slot ss)) ++ buffers rest); [solve_Permutation|]. rewrite <- Ho. solve_Permutation.
Qed.

(** *** A socket that stays what it is, or is closed *)

Record follows (s : socket) (d : list call) (s' : socket) : Prop := {
  fo_id : same_id s s';
  fo_type : s_type s' = SOCKET_TYPE_INVALID \/
    live s' /\ (open_type s -> open_type s') /\ (s_type s = SOCKET_TYPE_HALFCLOSE -> s_type s' = SOCKET_TYPE_HALFCLOSE);
  fo_shape : shape s';
  fo_own : own s ≡ₚ freed d ++ own s';
  fo_ids : forall id, id <> s_id s -> written id d = [];
  fo_flow : flow mem s (written (s_id s) d) s' }.

Lemma kept_follows s d s' : live s -> kept mem s d s' -> follows s d s'.
Proof.
  intros Hl [I (T & _) D H O W F]. split; try done. right. unfold live, open_type in *. rewrite T. tauto.
Qed.

Lemma gone_follows s d s' : gone mem s d s' -> follows s d s'.
Proof. intros [I T L H E O W F]. split; try done; [by left|by rewrite E, app_nil_r]. Qed.

Lemma flowing_dec id s : flowing id s \/ ~ flowing id s.
Proof.
  clear mem. unfold flowing, live. destruct (decide (s_id s = id)), (decide (s_type s = SOCKET_TYPE_INVALID)), (decide (s_type s = SOCKET_TYPE_RESERVE)), (tcp s);
    (left; by intuition congruence) || (right; intuition congruence).
Qed.

Lemma flowing_prefix q p s w : flowing_ok mem q p s w -> exists order, shuffle order q /\ w `prefix_of` bytes_of mem order.
Proof.
  intros (A & rest & E & S & _). exists (A ++ lows s ++ rest). split; [done|]. rewrite bytes_of_app, <- E, <- app_assoc. by eexists.
Qed.

Lemma stream_follows q p id s d s' w : live s -> follows s d s' -> s_id s = id -> stream mem q p id s w -> stream mem q p id s' (w ++ written id d).
Proof.
  intros Hl [[Ei Ep Es] T Sh O W F] <- [H1 H2]. unfold flow in F. destruct (tcp s) eqn:Et.
  - assert (Hf : flowing (s_id s) s) by done. destruct (H1 Hf) as (A & rest & E & S & R). destruct (Z.eqb_spec (s_type s') SOCKET_TYPE_INVALID) as [Ti|Ti].
    + destruct F as (r & Er). split; [intros (_ & [? _] & _); done|]. intros _. exists (A ++ lows s ++ rest). split; [done|].
      unfold lows. rewrite !bytes_of_app, bytes_of_pair, <- E. rewrite <- !app_assoc. apply prefix_app. rewrite (app_assoc (front mem s)), <- Er, <- app_assoc. by eexists.
    + destruct T as [T|(Tl & To & Th)]; [done|]. destruct F as (moved & Em & Ef). split; [|intros []; unfold flowing, tcp; split; [congruence|]; split; [done|]; by rewrite Ep].
      intros _. exists (A ++ (pair true <$> moved)), rest. split_and!.
      * rewrite <- app_assoc, <- Ef, app_assoc, E, bytes_of_app, bytes_of_pair. done.
      * rewrite <- S. unfold lows. rewrite Em, fmap_app, !app_assoc. done.
      * intros Hh. apply R. intros Hc. by apply Hh, Th.
  - rewrite F, app_nil_r. assert (Hn : ~ flowing (s_id s) s') by (unfold flowing, tcp; rewrite Ep; intros (_ & _ & ?); unfold tcp in Et; congruence).
    split; [done|]. intros _. apply H2. intros (_ & _ & ?). congruence.
Qed.

Lemma slot_ok_follows sent rest alloc polled p i s d s' : slot_ok sent rest alloc polled i s -> live s -> follows s d s' -> (i ∈ p -> watched s') -> slot_ok sent rest alloc p i s'.
Proof.
  intros [A B C D E F G] Hl [[Ei Ep Es] T Sh O W Fl] Hp. split; try done; rewrite ?Ei; try done.
  - intros Hne. by apply D, Hl.
  - intros Hr. destruct T as [T|(T & _)]; [by rewrite T in Hr|by destruct T].
  - intros Hr. unfold tcp. rewrite Ep, Es. intros Ht. apply G; [apply Hl|done].
Qed.

(** What a change of a socket keeps of the requests for it. *)
Lemma request_ok_live alloc a r s s' : live s -> s_id s' = s_id s -> s_protocol s' = s_protocol s ->
  s_type s' = SOCKET_TYPE_INVALID \/ live s' /\ (open_type s -> open_type s') -> request_ok alloc a r s -> request_ok alloc a r s'.
Proof.
  intros Hl Ei Ep T. assert (Hu : forall id, used_by id s' -> used_by id s /\ live s' /\ (open_type s -> open_type s')).
  { intros id [E1 E2]. destruct T as [T|[T1 T2]]; [congruence|]. split; [split; [congruence|apply Hl]|done]. }
  destruct r; cbn; try done.
  - intros [_ Hr]. destruct Hl. done.
  - intros [_ Hr]. destruct Hl. done.
  - intros [Hid Ho]. split; [done|]. intros U Hr. destruct (Hu _ U) as (_ & [_ L] & _). done.
  - intros [_ Hr]. destruct Hl. done.
  - intros (A & B & C & D). split_and!; try done; try lia; intros U; destruct (Hu _ U) as (U1 & U2 & U3); destruct (D U1); unfold tcp; rewrite ?Ep; auto.
  - intros (A & B & C & D). split_and!; try done; try lia; intros U; destruct (Hu _ U) as (U1 & U2 & U3); destruct (D U1); unfold tcp; rewrite ?Ep; auto.
  - intros (A & B & C & D). split_and!; try done; try lia. intros U. destruct (Hu _ U) as (U1 & U2 & U3). destruct (D U1). unfold tcp. rewrite Ep. split; [done|].
    intros Hr. destruct U2. done.
  - intros [_ Hr]. destruct Hl. done.
Qed.

Lemma core_follows sent given pipe ss i s' d l p n : core mem sent given pipe ss -> live (slot ss i) -> follows (slot ss i) d s' ->
  (forall j, j <> i -> j ∈ p -> j ∈ ss_polled ss) -> (i ∈ p -> watched s') -> core mem sent given pipe (at_ i s' d l p n ss).
Proof.
  intros Hc Hl Hf Hp Hi. pose proof Hf as [[Ei Ep Es] T Sh O W F]. rewrite <- (app_nil_r given).
  apply (core_local sent sent given [] []); try done.
  - eapply so_used; [apply Hc|apply Hl].
  - eapply slot_ok_follows; [apply Hc|done|done|done].
  - intros r Hr. by apply not_elem_of_nil in Hr.
  - intros id Hid. split; [|done]. apply W. congruence.
  - intros w Hw. apply stream_follows with (slot ss i); try done.
  - intros a r b _ Hr. eapply request_ok_live; try done. destruct T as [T|(T1 & T2 & _)]; [by left|by right].
  - by rewrite app_nil_r.
Qed.

Lemma core_kept sent given pipe ss i s' d l n : core mem sent given pipe ss -> live (slot ss i) -> kept mem (slot ss i) d s' ->
  core mem sent given pipe (at_ i s' d l (ss_polled ss) n ss).
Proof.
  intros Hc Hl Hk. apply core_follows; try done; [by apply kept_follows|]. intros Hi. pose proof (so_watched _ _ _ _ _ _ (co_slots _ _ _ _ _ Hc i) Hi) as Hw.
  destruct Hk as [_ (T & _) _ _ _ _ _]. unfold watched, live in *. by rewrite T.
Qed.

Lemma core_gone sent given pipe ss i s' d l n : core mem sent given pipe ss -> live (slot ss i) -> gone mem (slot ss i) d s' ->
  core mem sent given pipe (at_ i s' d l (unwatch i (slot ss i) (ss_polled ss)) n ss).
Proof.
  intros Hc Hl Hg. assert (Hp : in_pool i (slot ss i) (ss_polled ss)) by (intros Hi; eapply so_watched; [apply Hc|done]).
  apply core_follows; try done; [by apply gone_follows| |]; intros; rewrite unwatch_spec in * by done; tauto.
Qed.

(** *** Calls and requests of no interest *)

(** The state of the sockets is the same. *)
Record alike (ss ss' : socket_server) : Prop := {
  al_alloc : ss_alloc_id ss' = ss_alloc_id ss; al_slot : ss_slot ss' = ss_slot ss; al_polled : ss_polled ss' = ss_polled ss }.

(** A request is taken: its message is freed. *)
Lemma core_drop sent given r rest d ss ss' : core mem sent given (r :: rest) ss -> alike ss ss' -> ss_calls ss' = d ++ ss_calls ss ->
  opener r = None -> (send_of r <> None -> s_id (slot ss (HASH_ID (request_id r))) <> request_id r) ->
  (forall id, written id d = []) -> freed d = buffers [r] -> core mem sent given rest ss'.
Proof.
  intros [A B C D E F] [Ea Es Ep] Ec Ho Hs Hw Hf. unfold slot in *.
  assert (Hsend : forall j, slot_sock (ss_slot ss) j = slot_sock (ss_slot ss) j -> s_id (slot_sock (ss_slot ss) j) <> 0 -> of_id (s_id (slot_sock (ss_slot ss) j)) (sends [r]) = []).
  { intros j _ H0. apply of_id_none. intros m Em. pose proof (send_target _ _ _ Em) as Ht. assert (Er : request_id r = s_id (slot_sock (ss_slot ss) j)) by (destruct r; cbn in *; congruence).
    apply Hs; [congruence|]. rewrite Er. rewrite (so_hash _ _ _ _ _ _ (A j)) by done. done. }
  assert (H0 : forall id, id <= 0 -> of_id id (sends [r]) = []).
  { intros id Hid. apply of_id_none. intros m Em. specialize (B [] r rest eq_refl). pose proof (send_target _ _ _ Em) as Ht. destruct r; cbn in *; try done; lia || (injection Ht as ->; lia). }
  split; rewrite ?Ea, ?Es, ?Ep; unfold slot; rewrite ?Es.
  - intros j. specialize (A j). destruct A as [A1 A2 A3 A4 A5 A6 A7]. split; try done.
    + intros Ht. destruct (A6 Ht) as [X Y]. split; [done|]. cbn in Y. by rewrite Ho in Y.
    + intros Ht Htcp. specialize (A7 Ht Htcp). change (r :: rest) with ([r] ++ rest) in A7. rewrite pending_app in A7. unfold pending at 1 3 in A7.
      destruct (decide (s_id (slot_sock (ss_slot ss) j) = 0)) as [Ez|Ez]; [rewrite H0 in A7 by lia; exact A7|rewrite Hsend in A7 by done; exact A7].
  - intros a r' b E'. specialize (B (r :: a) r' b). rewrite E' in B. specialize (B eq_refl). destruct r'; cbn in B |- *; rewrite ?Ho in B; try done.
    destruct B as (B1 & B2 & B3 & B4). split_and!; try done; try lia. destruct (udp_opener r) eqn:Eo; [by apply udp_opener_opener in Eo; congruence|]. done.
  - cbn in C. by rewrite Ho in C.
  - intros id. specialize (D id). rewrite Ec, written_app, Hw, app_nil_r. change (r :: rest) with ([r] ++ rest) in D. rewrite sends_app, of_id_app in D.
    destruct (flowing_dec id (slot_sock (ss_slot ss) (HASH_ID id))) as [Hfl|Hfl]; [|by split; [|apply D]].
    destruct Hfl as (Ei & Hl & Ht). assert (Hne : s_id (slot_sock (ss_slot ss) (HASH_ID id)) <> 0) by (eapply so_used; [apply A|apply Hl]).
    pose proof (Hsend (HASH_ID id) eq_refl Hne) as Hno. rewrite Ei in Hno. by rewrite Hno in D.
  - intros id Hid. rewrite Ec, written_app, Hw, app_nil_r. by apply E.
  - rewrite F, Ec, freed_app, Hf. change (r :: rest) with ([r] ++ rest). rewrite buffers_app. solve_Permutation.
Qed.

Lemma core_alike sent given pipe d ss ss' : core mem sent given pipe ss -> alike ss ss' -> ss_calls ss' = d ++ ss_calls ss -> silent d -> core mem sent given pipe ss'.
Proof.
  intros [A B C D E F] [Ea Es Ep] Ec [Hf Hw]. unfold slot in *. split; rewrite ?Ea, ?Es, ?Ep, ?Ec; unfold slot; rewrite ?Es; try done.
  - intros id. rewrite written_app, Hw, app_nil_r. apply D.
  - intros id Hid. rewrite written_app, Hw, app_nil_r. by apply E.
  - by rewrite freed_app, Hf.
Qed.

(** A request for a socket is taken: the socket gets its message. *)
Lemma core_taken sent given r rest ss i s' d l n id : core mem sent given (r :: rest) ss ->
  target r = Some id -> opener r = None -> id <> 0 -> s_id (slot ss i) = id -> s_id s' = id ->
  s_protocol s' = s_protocol (slot ss i) -> s_type s' = s_type (slot ss i) -> shape s' ->
  s_sending s' = s_sending (slot ss i) - (if tcp (slot ss i) then pending id [r] else 0) ->
  own (slot ss i) ++ buffers [r] ≡ₚ freed d ++ own s' -> (forall id, written id d = []) ->
  (forall q w, stream mem q (of_id id (sends [r]) ++ of_id id (sends rest)) id (slot ss i) w -> stream mem q (of_id id (sends rest)) id s' w) ->
  core mem sent given rest (at_ i s' d l (ss_polled ss) n ss).
Proof.
  intros Hc Ht Ho H0 Ei Ei' Ep Et Sh Es Hown Hw Hstr. rewrite <- (app_nil_r given).
  pose proof (co_slots _ _ _ _ _ Hc i) as [A1 A2 A3 A4 A5 A6 A7].
  apply (core_local sent sent given [] [r]); try done; try congruence.
  - split; try done; rewrite ?Ei', <- ?Ei, ?Et; try done.
    + intros Hi. specialize (A5 Hi). unfold watched, live in *. by rewrite Et.
    + intros Hr. destruct (A6 Hr) as [X Y]. split; [done|]. cbn in Y. by rewrite Ho in Y.
    + intros Hr. unfold tcp in *. rewrite Ep, Es. intros Htcp. rewrite Htcp. destruct (A7 Hr Htcp) as [B1 B2].
      change (r :: rest) with ([r] ++ rest) in B1, B2. rewrite pending_app in B1, B2. rewrite Ei in *. unfold pending in *. lia.
  - intros r' ->%list_elem_of_singleton. by rewrite Ei'.
  - intros w Hst. rewrite Ei' in *. rewrite Hw, app_nil_r. apply Hstr. change (r :: rest) with ([r] ++ rest) in Hst. by rewrite sends_app, of_id_app in Hst.
  - intros a r' b _ Hr. assert (Hu : forall k, used_by k s' -> used_by k (slot ss i)) by (intros k []; split; congruence).
    destruct r'; cbn in Hr |- *; rewrite ?Ho in Hr; unfold tcp, open_type in *; rewrite ?Ep, ?Et; try done.
    + destruct Hr. split; congruence.
    + destruct Hr. split; congruence.
    + destruct Hr as [? Hr]. split; auto.
    + destruct Hr. split; congruence.
    + destruct Hr as (?&?&?&?). split_and!; auto; lia.
    + destruct Hr as (?&?&?&?). split_and!; auto; lia.
    + destruct Hr as (?&?&?&Hr). split_and!; auto; try lia. destruct (udp_opener r) eqn:Eu; [by apply udp_opener_opener in Eu; congruence|]. auto.
    + destruct Hr. split; congruence.
  - rewrite app_nil_r. done.
Qed.

Lemma at_start_used i ss : s_id (slot ss i) <> 0 -> ss = at_ i (slot ss i) [] (ss_script ss) (ss_polled ss) (ss_count ss) ss.
Proof.
  intros Ht. destruct ss as [a b c d e m p n q l k]. unfold slot, slot_sock, at_ in *. cbn in *. destruct (m !! i) as [s|] eqn:E; [|done]. cbn in *. by rewrite insert_id.
Qed.

(** The count of messages in the pipe, below the tag of the socket. *)
Lemma count_land t k : 0 <= k <= 0xffff -> Z.land (Z.shiftl t 16 + k) 0xffff = k.
Proof.
  intros Hk. change 0xffff with (Z.ones 16). rewrite Z.land_ones, Z.shiftl_mul_pow2 by lia. rewrite Z.add_comm, Z.mod_add by lia. apply Z.mod_small. lia.
Qed.
Lemma count_shiftr t k : 0 <= k <= 0xffff -> Z.shiftr (Z.shiftl t 16 + k) 16 = t.
Proof. intros Hk. rewrite Z.shiftr_div_pow2, Z.shiftl_mul_pow2 by lia. rewrite Z.add_comm, Z.div_add by lia. rewrite Z.div_small; lia. Qed.
Lemma tag_range id : 0 <= ID_TAG16 id <= 0xffff.
Proof. unfold ID_TAG16. change 0xffff with (Z.ones 16) at 1 2. rewrite Z.land_ones by lia. pose proof (Z.mod_pos_bound (Z.shiftr id MAX_SOCKET_P) (2 ^ 16)). cbn in *. lia. Qed.

(** *** Sending to a socket *)

Definition appended (prio b sz : Z) (address : option bytes) (s : socket) : socket :=
  with_list prio (list_of prio s ++ [WB b b sz false address]) (with_wb_size (s_wb_size s + sz) s).

Lemma appended_shape prio b sz address s : prio_ok prio -> live s -> shape s -> 0 <= sz ->
  (if tcp s then address = None else exists t a, address = Some (t :: a)) -> shape (appended prio b sz address s).
Proof.
  clear mem. intros Hp Hl Hs Hsz Ha. pose proof (sh_nodes _ Hs) as Hn. pose proof (sh_size _ Hs Hl) as Hz. apply Forall_app in Hn as [Hn1 Hn2].
  assert (Hok : wb_ok (tcp s) (WB b b sz false address)) by (by split_and!).
  destruct Hp as [-> | ->]; unfold appended, with_list, list_of; cbn [PRIORITY_HIGH PRIORITY_LOW Z.eqb]; split; cbn; try apply Hs; try tauto.
  - apply Forall_app. split; [|done]. apply Forall_app. by split; [|apply Forall_singleton].
  - intros _. rewrite total_app. unfold total in *. cbn. lia.
  - apply Forall_app. split; [done|]. apply Forall_app. by split; [|apply Forall_singleton].
  - apply Forall_app. by split; [apply Hs|apply Forall_singleton].
  - intros _. rewrite total_app. unfold total in *. cbn. lia.
Qed.

Lemma appended_own prio b sz address s : prio_ok prio -> own s ++ [b] ≡ₚ own (appended prio b sz address s).
Proof.
  intros [-> | ->]; unfold own, appended; cbn; rewrite map_app; cbn; [|by rewrite !app_assoc].
  rewrite <- !app_assoc. do 2 apply Permutation_app_head. apply Permutation_app_comm.
Qed.

Lemma appended_front b sz address s : front mem (appended PRIORITY_HIGH b sz address s) = front mem s ++ SocketServer.load mem b sz.
Proof.
  unfold front. change (s_high (appended PRIORITY_HIGH b sz address s)) with (s_high s ++ [WB b b sz false address]). rewrite left_of_app, app_assoc. f_equal.
  unfold left_of. cbn. apply app_nil_r.
Qed.

Lemma appended_stream prio low b sz s p q w : prio_ok prio -> s_type s <> SOCKET_TYPE_HALFCLOSE -> (if prio =? PRIORITY_LOW then low = true else low = true -> s_low s = []) ->
  stream mem q ((low, (b, sz)) :: p) (s_id s) s w -> stream mem q p (s_id s) (appended prio b sz None s) w.
Proof.
  intros Hp Hh Hlow [H1 H2]. assert (Hf : flowing (s_id s) (appended prio b sz None s) <-> flowing (s_id s) s) by (by destruct Hp as [-> | ->]).
  split; [|by rewrite Hf]. rewrite Hf. intros Hfl. destruct (H1 Hfl) as (A & rest & E & S & R). rewrite (R Hh) in S. clear R.
  destruct Hp as [-> | ->]; cbn in Hlow.
  - exists (A ++ [(low, (b, sz))]), p. split_and!; [|rewrite <- S|done].
    + rewrite appended_front, app_assoc, E, bytes_of_app. unfold bytes_of, contents. cbn. by rewrite app_nil_r.
    + rewrite <- app_assoc. apply shuffle_app; [done|]. change (lows (appended PRIORITY_HIGH b sz None s)) with (lows s).
      change ((low, (b, sz)) :: p) with ([(low, (b, sz))] ++ p). rewrite !app_assoc. apply shuffle_app; [|done].
      destruct low; [unfold lows; by rewrite (Hlow eq_refl)|]. symmetry. apply (shuffle_pass [(b, sz)]).
  - subst low. exists A, p. split_and!; [exact E|rewrite <- S|done]. unfold lows. cbn. unfold messages. rewrite map_app, fmap_app. cbn. by rewrite <- app_assoc.
Qed.

Lemma stream_same q p id s s' w : s_id s' = s_id s -> s_protocol s' = s_protocol s -> (live s' <-> live s) -> (s_type s = SOCKET_TYPE_HALFCLOSE -> s_type s' = SOCKET_TYPE_HALFCLOSE) ->
  front mem s' = front mem s -> s_low s' = s_low s -> stream mem q p id s w -> stream mem q p id s' w.
Proof.
  intros Ei Ep Hl Hh Ef El [H1 H2]. assert (Hf : flowing id s' <-> flowing id s) by (unfold flowing, tcp; by rewrite Ei, Ep, Hl).
  split; rewrite Hf; [|done]. intros H. destruct (H1 H) as (A & rest & E & S & R). exists A, rest. rewrite Ef. unfold lows. rewrite El. split_and!; auto.
Qed.

(** A closing socket, or none, ignores what comes from the pipe. *)
Lemma stream_refused q m p id s w : s_type s = SOCKET_TYPE_HALFCLOSE \/ ~ live s -> stream mem q (m ++ p) id s w -> stream mem q p id s w.
Proof.
  intros Ht [H1 H2]. split; [|done]. intros Hf. destruct Ht as [Ht|Ht]; [|by destruct Hf as (_ & ? & _)]. destruct (H1 Hf) as (A & rest & E & S & _). by exists A, rest.
Qed.

Lemma with_warn_shape n s : shape s -> shape (with_warn n s).
Proof. intros []. by split. Qed.
Lemma with_sending_shape n s : shape s -> shape (with_sending n s).
Proof. intros []. by split. Qed.

(** What [send_socket] does to the socket that it is for. *)
Lemma send_socket_spec id sz b prio address i s d l p n ss (Q : Z * socket_message -> socket_server -> Prop) :
  HASH_ID id = i -> prio_ok prio -> s_id s = id -> shape s -> 0 <= sz ->
  s_type s <> SOCKET_TYPE_RESERVE ->
  (live s -> if tcp s then address = None else exists t x, address = Some (t :: x)) ->
  (forall r d', r.1 = -1 -> s_type s = SOCKET_TYPE_INVALID \/ s_type s = SOCKET_TYPE_HALFCLOSE \/ tcp s = false \/ ~ open_type s ->
     freed d' = [b] -> (forall id, written id d' = []) -> forall l', Q r (at_ i s (d' ++ d) l' p n ss)) ->
  (forall r d' l' prio' w, live s -> s_type s <> SOCKET_TYPE_HALFCLOSE -> prio_ok prio' ->
     (if prio' =? PRIORITY_LOW then prio = PRIORITY_LOW else prio = PRIORITY_LOW -> s_low s = []) -> silent d' ->
     r.1 = -1 \/ r.1 = SOCKET_WARNING ->
     Q r (at_ i (with_warn w (appended prio' b sz (option_map (take (Z.to_nat UDP_ADDRESS_SIZE)) address) s)) (d' ++ d) l' p n ss)) ->
  wp (send_socket mem id sz b prio address) Q (at_ i s d l p n ss).
Proof.
  intros Hi Hp Hid Hs Hsz Hres Haddr Hno Hyes. unfold send_socket. rewrite Hi. apply wp_bind, at_get. apply wp_bind, wp_send_object_init; [done|]. cbv beta iota zeta.
  assert (Hrefuse : s_type s = SOCKET_TYPE_INVALID \/ s_type s = SOCKET_TYPE_HALFCLOSE \/ tcp s = false \/ ~ open_type s ->
    wp (log (CFree b false);; mret (-1, no_message)) Q (at_ i s d l p n ss)).
  { intros Ht. ats. by apply (Hno (-1, no_message) [CFree b false]). }
  rewrite Hid, Z.eqb_refl, orb_false_r.
  destruct (Z.eqb_spec (s_type s) SOCKET_TYPE_INVALID) as [T1|T1]; [apply Hrefuse; by left|].
  destruct (Z.eqb_spec (s_type s) SOCKET_TYPE_HALFCLOSE) as [T2|T2]; [apply Hrefuse; by right; left|].
  destruct (Z.eqb_spec (s_type s) SOCKET_TYPE_PACCEPT) as [T3|T3]; [apply Hrefuse; right; right; right; unfold open_type; rewrite T3; by intros [|[|[|]]]|].
  destruct (Z.eqb_spec (s_type s) SOCKET_TYPE_PLISTEN) as [T4|T4]; [apply Hrefuse; right; right; right; unfold open_type; rewrite T4; by intros [|[|[|]]]|].
  destruct (Z.eqb_spec (s_type s) SOCKET_TYPE_LISTEN) as [T5|T5]; [apply Hrefuse; right; right; right; unfold open_type; rewrite T5; by intros [|[|[|]]]|].
  cbn [orb]. clear Hrefuse. assert (Hl : live s) by done. specialize (Haddr Hl).
  (* the end: a warning, if there is much to send *)
  lazymatch goal with |- wp (_ ≫= fun sent => if sent then _ else ?t) _ _ => set (tail := t) end.
  assert (Hend : forall prio' d' l', prio_ok prio' -> (if prio' =? PRIORITY_LOW then prio = PRIORITY_LOW else prio = PRIORITY_LOW -> s_low s = []) -> silent d' ->
    wp tail Q (at_ i (appended prio' b sz (option_map (take (Z.to_nat UDP_ADDRESS_SIZE)) address) s) (d' ++ d) l' p n ss)).
  { intros prio' d' l' Hp' Hlow Hd'. unfold tail. ats. destruct (_ && _); ats.
    - apply Hyes; try done. by right.
    - specialize (Hyes (-1, no_message) d' l' prio' (s_warn_size s) Hl T2 Hp' Hlow Hd' (or_introl eq_refl)). by destruct Hp' as [-> | ->]; destruct s. }
  change (s_protocol s =? PROTOCOL_TCP) with (tcp s).
  destruct (send_buffer_empty s && (s_type s =? SOCKET_TYPE_CONNECTED)) eqn:Ee; apply wp_bind.
  - apply andb_prop in Ee as [Ee _]. unfold send_buffer_empty in Ee. apply andb_prop in Ee as [_ El]. apply bool_decide_eq_true in El. apply wp_bind.
    destruct (tcp s) eqn:Et.
    + subst address. unfold append_sendbuffer, append_sendbuffer_. apply wp_bind, wp_bind, wp_send_object_init; [done|]. ats.
      apply (Hend PRIORITY_HIGH [_]); [by left|by cbn; intros _|by apply silent_call].
    + destruct Haddr as (t & x & ->). apply wp_bind, wp_ret. apply wp_bind, wp_udp_socket_address; [by eexists _, _|]. intros sa. apply wp_bind, at_sendto; [done|].
      intros d' l' k [Hf Hw] Hk. destruct (negb (k =? sz)); ats.
      * unfold append_sendbuffer_udp, append_sendbuffer_. apply wp_bind, wp_send_object_init; [done|]. ats.
        apply (Hend prio (_ :: d')); [done|by destruct Hp as [-> | ->]|done].
      * apply (Hno (-1, no_message) (CFree b false :: d')); [done|by right; right; left|cbn; by rewrite Hf|done].
  - destruct (tcp s) eqn:Et.
    + subst address. unfold append_sendbuffer, append_sendbuffer_low, append_sendbuffer_. apply wp_bind.
      destruct (Z.eqb_spec prio PRIORITY_LOW) as [->|Hn]; (apply wp_bind, wp_send_object_init; [done|]); ats.
      * apply (Hend PRIORITY_LOW []); [by right|done|done].
      * apply (Hend PRIORITY_HIGH []); [by left|by cbn; intros ?|done].
    + destruct Haddr as (t & x & ->). apply wp_bind, wp_bind, wp_ret. unfold append_sendbuffer_udp, append_sendbuffer_. apply wp_bind, wp_send_object_init; [done|]. ats.
      apply (Hend prio []); [done|by destruct Hp as [-> | ->]|done].
Qed.
End changes.
