(* ===== verification/SocketRequest.v ===== *)
(** The requests of the pipe: what [ctrl_cmd] does keeps the state of the sockets right. *)
From S2P Require Import Prelude SocketServer SocketWp SocketSend SocketInv.

#[local] Arguments Z.mul : simpl never.
#[local] Arguments Z.add : simpl never.
#[local] Opaque Z.to_nat.
#[local] Set Default Proof Using "Type".

Section requests.
Context (mem : Z -> Z).

(** The sockets that the event pool watches stay, but for one that was closed and that the
    result names. *)
Definition still_watched (r : Z * socket_message) (ss ss' : socket_server) : Prop := forall j, j ∈ ss_polled ss -> j ∈ ss_polled ss' \/
  (r.1 = SOCKET_CLOSE \/ r.1 = SOCKET_ERR) /\ s_type (slot ss' j) = SOCKET_TYPE_INVALID /\ s_id (slot ss' j) = m_id r.2 /\ m_id r.2 <> 0.

(** The result of a request that was taken from the pipe. *)
Definition served (sent : list (Z * tagged)) (given : list Z) (rest : list request) (ss : socket_server) (r : Z * socket_message) (ss' : socket_server) : Prop :=
  core mem sent given rest ss' /\ still_watched r ss ss'.

Lemma still_watched_same r ss ss' : ss_polled ss' = ss_polled ss -> still_watched r ss ss'.
Proof. intros E j Hj. left. by rewrite E. Qed.

(** *** Messages *)

Lemma wp_send_refused id sz b prio address (Q : Z * socket_message -> socket_server -> Prop) ss : 0 <= sz -> s_id (slot ss (HASH_ID id)) <> id ->
  (forall r, Q r (add_call (CFree b false) ss)) -> wp (send_socket mem id sz b prio address) Q ss.
Proof.
  intros Hsz Hid H. unfold send_socket. apply wp_bind, wp_get. apply wp_bind, wp_send_object_init; [done|]. cbv beta iota zeta.
  rewrite (proj2 (Z.eqb_neq _ _) Hid). cbn [negb orb]. rewrite orb_true_r. cbn [orb]. wps. apply H.
Qed.

Lemma at_dec_sending id i s d l p n ss (Q : unit -> socket_server -> Prop) : HASH_ID id = i -> s_id s = id -> tcp s = true -> 1 <= Z.land (s_sending s) 0xffff <= s_sending s -> s_sending s < 2 ^ 32 ->
  Q tt (at_ i (with_sending (s_sending s - 1) s) d l p n ss) -> wp (dec_sending_ref id) Q (at_ i s d l p n ss).
Proof.
  intros Hi Hid Ht Hc Hr H. unfold dec_sending_ref. rewrite Hi. ats. rewrite Hid, Z.eqb_refl. unfold tcp in Ht. rewrite Ht. cbn [andb]. ats.
  - apply negb_true_iff, Z.eqb_neq. lia.
  - rewrite u32_small by lia. exact H.
Qed.

Lemma pending_cons id m r rest : send_of r = Some (id, m) -> pending id (r :: rest) = pending id rest + 1.
Proof.
  intros E. unfold pending. assert (of_id id (sends (r :: rest)) = m :: of_id id (sends rest)) as -> by (unfold of_id, sends; cbn; rewrite E; cbn; by rewrite Z.eqb_refl).
  cbn [length]. lia.
Qed.

(** The socket is left for the next request. *)
Lemma sending_served sent given id low sz b prio r rest ss i : send_of r = Some (id, (low, (b, sz))) -> target r = Some id -> opener r = None -> request_id r = id ->
  buffers [r] = [b] -> prio = (if low then PRIORITY_LOW else PRIORITY_HIGH) -> HASH_ID id = i ->
  core mem sent given (r :: rest) ss ->
  wp (ret ← send_socket mem id sz b prio None; dec_sending_ref id;; mret ret) (served sent given rest ss) ss.
Proof.
  intros Er Ht Ho Hrid Hb -> Hi Hc. assert (Hok : 1 <= id <= ss_alloc_id ss /\ 0 <= sz /\ b <> 0 /\ (used_by id (slot ss i) -> tcp (slot ss i) = true /\ open_type (slot ss i))).
  { pose proof (co_requests _ _ _ _ _ Hc [] r rest eq_refl) as Hr. rewrite Hrid, Hi in Hr. destruct r; cbn in *; try done; by injection Er as -> <- -> ->. }
  destruct Hok as (Hid & Hsz & Hb0 & Hu). destruct (decide (s_id (slot ss i) = id)) as [Es|Es].
  2:{ apply wp_bind, wp_send_refused; [done|by rewrite Hi|]. intros res. apply wp_bind. unfold dec_sending_ref. apply wp_bind, wp_get.
    rewrite Hi. change (slot (add_call (CFree b false) ss) i) with (slot ss i). rewrite (proj2 (Z.eqb_neq _ _) Es). cbn [andb]. apply wp_ret, wp_ret. split.
    - eapply (core_drop mem sent given r rest [CFree b false]); try done. intros _. by rewrite Hrid, Hi.
    - by apply still_watched_same. }
  pose proof (co_slots _ _ _ _ _ Hc i) as Hslot. pose proof (so_shape _ _ _ _ _ _ Hslot) as Hsh. rewrite (at_start_used i ss) by lia.
  assert (Hres : s_type (slot ss i) <> SOCKET_TYPE_RESERVE).
  { intros E. assert (U : used_by id (slot ss i)) by (split; [done|by rewrite E]). destruct (Hu U) as [_ HT]. unfold open_type in HT. rewrite E in HT. by destruct HT as [|[|[|]]]. }
  (* the count of the socket has this message *)
  assert (Hdec : forall s' d l n res, s_id s' = id -> tcp s' = tcp (slot ss i) -> s_sending s' = s_sending (slot ss i) ->
     core mem sent given rest (at_ i (with_sending (s_sending s' - (if tcp s' then 1 else 0)) s') d l (ss_polled ss) n ss) ->
     wp (dec_sending_ref id;; mret res) (served sent given rest ss) (at_ i s' d l (ss_polled ss) n ss)).
  { intros s' d l n res E1 E2 E3 H. apply wp_bind. rewrite E2 in H. destruct (tcp (slot ss i)) eqn:Htcp.
    - destruct (so_count _ _ _ _ _ _ Hslot Hres Htcp) as [C1 C2]. rewrite Es in C1, C2. rewrite (pending_cons _ _ _ _ Er) in C1, C2.
      assert (Hp : 0 <= pending id rest) by (unfold pending; lia). pose proof (tag_range id) as Htag. rewrite <- E3 in C1.
      assert (Hsh16 : Z.shiftl (ID_TAG16 id) 16 = ID_TAG16 id * 65536) by (rewrite Z.shiftl_mul_pow2; lia).
      apply (at_dec_sending id); [done|done|done| | |apply wp_ret; split; [done|by apply still_watched_same]].
      + rewrite C1, count_land by lia. lia.
      + rewrite C1. change (2 ^ 32) with 4294967296. lia.
    - unfold dec_sending_ref. rewrite Hi. ats. unfold tcp in E2. rewrite E2, andb_false_r. ats. split; [|by apply still_watched_same].
      rewrite Z.sub_0_r in H. by destruct s'. }
  assert (Hpend : pending id [r] = 1) by (by rewrite (pending_cons _ _ _ _ Er)).
  assert (Hq : of_id id (sends [r]) = [(low, (b, sz))]) by (unfold sends, of_id; cbn; rewrite Er; cbn; by rewrite Z.eqb_refl).
  apply wp_bind, (send_socket_spec mem); try done.
  - by destruct low; [right|left].
  - intros Hl. destruct Hu as [Htcp _]; [split; [done|apply Hl]|]. by rewrite Htcp.
  - intros res d' _ Hty Hf Hw l'. apply Hdec; try done. rewrite app_nil_r.
    apply (core_taken mem sent given r rest ss i _ d' l' _ id); try done; try lia.
    + by apply with_sending_shape.
    + cbn. by rewrite Hpend.
    + rewrite Hb, Hf. solve_Permutation.
    + intros q w. rewrite Hq. intros Hst. eapply stream_same; try done. eapply stream_refused; [|exact Hst].
      destruct (decide (live (slot ss i))) as [Hl|Hl]; [|by right]. left. destruct Hu as [Htcp Hopen]; [split; [done|apply Hl]|].
      destruct Hty as [Hty|[Hty|[Hty|Hty]]]; [by destruct Hl|done|congruence|done].
  - intros res d' l' prio' w Hl Hh Hp' Hlow [Hf Hw] _. destruct Hu as [Htcp Hopen]; [split; [done|apply Hl]|].
    assert (Hlow' : if prio' =? PRIORITY_LOW then low = true else low = true -> s_low (slot ss i) = []).
    { destruct Hp' as [-> | ->]; cbn in Hlow |- *; [intros ->; by apply Hlow|]. by destruct low. }
    cbn [option_map]. set (s1 := appended prio' b sz None (slot ss i)). assert (Htcp' : tcp s1 = tcp (slot ss i)) by (by unfold s1; destruct Hp' as [-> | ->]).
    apply Hdec; [by unfold s1; destruct Hp' as [-> | ->]|exact Htcp'|by unfold s1; destruct Hp' as [-> | ->]|].
    change (tcp (with_warn w s1)) with (tcp s1). rewrite Htcp', Htcp.
    assert (Hown : own (slot ss i) ++ [b] ≡ₚ own s1) by (by apply appended_own).
    apply (core_taken mem sent given r rest ss i _ _ l' _ id); try done; try lia; try (by unfold s1; destruct Hp' as [-> | ->]).
    + apply with_sending_shape, with_warn_shape. unfold s1. apply appended_shape; try done. by rewrite Htcp.
    + cbn. rewrite Htcp, Hpend. by unfold s1; destruct Hp' as [-> | ->].
    + rewrite Hb, app_nil_r, Hf. change (own (with_sending _ _)) with (own s1). by rewrite Hown.
    + intros id'. by rewrite app_nil_r.
    + intros q w'. rewrite Hq. intros Hst. rewrite <- Es in Hst |- *. apply (appended_stream mem prio' low b sz) in Hst; try done.
Qed.
End requests.

(** ** One socket, step by step *)

Section steps.
Context (mem : Z -> Z).

Lemma follows_refl s : live s -> shape s -> follows mem s [] s.
Proof. intros Hl Hs. split; try done; [by right|apply flow_refl, Hl]. Qed.

Lemma follows_trans s1 d1 s2 d2 s3 : live s1 -> live s2 -> follows mem s1 d1 s2 -> follows mem s2 d2 s3 -> follows mem s1 (d2 ++ d1) s3.
Proof.
  intros Hl1 Hl2 [I1 T1 H1 O1 W1 F1] [I2 T2 H2 O2 W2 F2]. assert (Hid : s_id s2 = s_id s1) by apply I1. split; try done.
  - by eapply same_id_trans.
  - destruct T1 as [T1|(T1 & U1 & V1)]; [by destruct Hl2|]. destruct T2 as [T2|(T2 & U2 & V2)]; [by left|]. right. auto.
  - rewrite freed_app, O1, O2. solve_Permutation.
  - intros id Hne. rewrite written_app, W1, W2; [done|congruence|done].
  - rewrite written_app. rewrite Hid in F2. eapply flow_trans; [apply I1|apply Hl2|exact F1|exact F2].
Qed.

(** The socket is changed in place. *)
Lemma follows_put s d s' : live s -> silent d -> same_id s s' -> shape s' -> live s' -> (open_type s -> open_type s') ->
  (s_type s = SOCKET_TYPE_HALFCLOSE -> s_type s' = SOCKET_TYPE_HALFCLOSE) -> own s' = own s -> front mem s' = front mem s -> s_low s' = s_low s -> follows mem s d s'.
Proof.
  intros Hl [Hf Hw] Hi Hs Hl' Ho Hh Eo Ef El. split; try done; [by right|by rewrite Hf, Eo|]. rewrite Hw. unfold flow. destruct (tcp s); [|done].
  rewrite (proj2 (Z.eqb_neq _ _) (proj1 Hl')). exists []. by rewrite El, Ef, app_nil_r.
Qed.

Lemma follows_call s c s' d : quiet c -> follows mem s d s' -> follows mem s (c :: d) s'.
Proof. intros Hq [I T H O W F]. split; try done; by destruct c. Qed.

Lemma close_follows s d b : live s -> shape s -> closes s d -> follows mem s d (with_lock b (closed s)).
Proof.
  intros Hl Hs [Ho Hw]. split; try done; [by left|apply closed_shape|by rewrite own_closed, app_nil_r|]. rewrite Hw. unfold flow. destruct (tcp s); [|done]. cbn. by eexists.
Qed.

Lemma with_type_shape t s : live s -> shape s -> t <> SOCKET_TYPE_INVALID -> t <> SOCKET_TYPE_RESERVE -> shape (with_type t s).
Proof.
  intros Hl Hs Ht1 Ht2. split; cbn; try done; change (tcp (with_type t s)) with (tcp s).
  { intros H. exfalso. by apply H. }
  all: intros; apply Hs; try done; by destruct Hl.
Qed.

Lemma with_opaque_shape o s : shape s -> shape (with_opaque o s).
Proof. intros []. by split. Qed.

(** From the normal form to what holds of all sockets. *)
Definition watch_kept (s s' : socket) : Prop := watched s -> watched s'.

Lemma served_at sent given pipe ss i s' d l n r : core mem sent given pipe ss -> live (slot ss i) -> follows mem (slot ss i) d s' -> watch_kept (slot ss i) s' ->
  served mem sent given pipe ss r (at_ i s' d l (ss_polled ss) n ss).
Proof.
  intros Hc Hl Hf Hk. split; [|by apply still_watched_same]. apply core_follows; try done. intros Hi. apply Hk. eapply so_watched; [apply Hc|done].
Qed.

Lemma in_pool_core sent given pipe ss i : core mem sent given pipe ss -> in_pool i (slot ss i) (ss_polled ss).
Proof. intros Hc Hi. eapply so_watched; [apply Hc|done]. Qed.

Lemma served_closed sent given pipe ss i s' d l n r : core mem sent given pipe ss -> live (slot ss i) -> follows mem (slot ss i) d s' ->
  s_type s' = SOCKET_TYPE_INVALID -> r.1 = SOCKET_CLOSE \/ r.1 = SOCKET_ERR -> m_id r.2 = s_id (slot ss i) ->
  served mem sent given pipe ss r (at_ i s' d l (unwatch i (slot ss i) (ss_polled ss)) n ss).
Proof.
  intros Hc Hl Hf Ht Hr Hid. pose proof (in_pool_core _ _ _ _ i Hc) as Hp. split.
  - apply core_follows; try done; intros; rewrite unwatch_spec in * by done; tauto.
  - intros j Hj. destruct (decide (j = i)) as [->|Hne]; [right|left; cbn; by apply unwatch_spec].
    rewrite at_slot, Hid. split_and!; [done|done|apply Hf|]. eapply so_used; [apply Hc|apply Hl].
Qed.

Lemma at_force_close i s d l p n ss (Q : socket_message -> socket_server -> Prop) : live s -> shape s -> 0 <= n ->
  (forall d' s', follows mem s d' s' -> s_type s' = SOCKET_TYPE_INVALID -> Q (Message (s_id s) (s_opaque s) 0 DNull) (at_ i s' (d' ++ d) l (unwatch i s p) n ss)) ->
  wp (force_close i) Q (at_ i s d l p n ss).
Proof. intros Hl Hs Hn H. apply force_close_spec; [done..|]. intros d' Hc. apply H; [by apply close_follows|done]. Qed.

Lemma wp_live {A} sent given pipe ss i (m : IO A) (Q : A -> socket_server -> Prop) : core mem sent given pipe ss -> live (slot ss i) ->
  wp m Q (at_ i (slot ss i) [] (ss_script ss) (ss_polled ss) (ss_count ss) ss) -> wp m Q ss.
Proof. intros Hc Hl. rewrite <- at_start_used; [done|]. eapply so_used; [apply Hc|apply Hl]. Qed.

(** [close_socket]: what there is to send is sent first. *)
Lemma close_socket_spec sent given pipe ss id shutdown opaque : core mem sent given pipe ss ->
  (used_by id (slot ss (HASH_ID id)) -> s_type (slot ss (HASH_ID id)) <> SOCKET_TYPE_RESERVE) ->
  wp (close_socket mem id shutdown opaque) (served mem sent given pipe ss) ss.
Proof.
  intros Hc Hres. unfold close_socket. set (i := HASH_ID id) in *. apply wp_bind, wp_get.
  destruct (Z.eqb_spec (s_type (slot ss i)) SOCKET_TYPE_INVALID) as [T|T]; cbn [orb]; [wps; split; [done|by apply still_watched_same]|].
  destruct (Z.eqb_spec (s_id (slot ss i)) id) as [E|E]; cbn [negb]; [|wps; split; [done|by apply still_watched_same]].
  assert (Hl : live (slot ss i)) by (split; [done|by apply Hres; split]). pose proof (so_shape _ _ _ _ _ _ (co_slots _ _ _ _ _ Hc i)) as Hs.
  apply (wp_live _ _ _ _ i _ _ Hc Hl). unfold socket_lock_init. ats.
  (* after what is sent *)
  assert (Hend : forall d s1 l res, follows mem (slot ss i) d s1 -> s_type s1 = s_type (slot ss i) ->
    wp (if negb (-1 =? -1) && negb (-1 =? SOCKET_WARNING) then mret (-1, res)
        else s ← get i; if negb (shutdown =? 0) || nomore_sending_data s then result ← force_close i; mret (SOCKET_CLOSE, Message id opaque (m_ud result) (m_data result))
             else update i (with_type SOCKET_TYPE_HALFCLOSE);; mret (-1, no_message)) (served mem sent given pipe ss) (at_ i s1 d l (ss_polled ss) 0 ss)).
  { intros d s1 l res Hf Ht. change (negb (-1 =? -1) && negb (-1 =? SOCKET_WARNING)) with false. cbv iota. ats. assert (Hl1 : live s1) by (unfold live in *; by rewrite Ht).
    assert (Hs1 : shape s1) by apply Hf. destruct (_ || _); ats.
    - apply at_force_close; [done|done|lia|]. intros d' s' Hf' Ht'. ats. rewrite (unwatch_type i (slot ss i) s1) by done.
      apply (served_closed sent given pipe ss i s' (d' ++ d)); try done; [by eapply follows_trans|by left].
    - assert (Hf1 : follows mem s1 [] (with_type SOCKET_TYPE_HALFCLOSE s1)).
      { apply follows_put; try done; [by apply with_type_shape|unfold open_type; cbn; tauto]. }
      apply served_at; try done. rewrite <- (app_nil_l d). by eapply follows_trans. }
  destruct (nomore_sending_data (slot ss i)); cbn [negb].
  - ats. apply (Hend []); [by apply follows_refl|done].
  - apply send_buffer_spec; [done|done|intros _; apply (Hend []); [by apply follows_refl|done]|]. intros _. split.
    + intros d' l' s' t r Ht Hk. rewrite app_nil_r. pose proof (kept_follows mem _ _ _ Hl Hk) as Hf. destruct Hk as [_ (T' & _) _ _ _ _ _].
      destruct Ht as [-> | ->]; exact (Hend d' s' l' r Hf T').
    + intros d' l' s' r Hg Hr. change (SOCKET_CLOSE =? -1) with false. change (SOCKET_CLOSE =? SOCKET_WARNING) with false. cbn [negb andb]. apply wp_ret. rewrite app_nil_r.
      apply served_closed; try done; [by apply gone_follows|apply Hg|by left].
Qed.

Lemma start_socket_spec sent given pipe ss id opaque : core mem sent given pipe ss ->
  wp (start_socket id opaque) (served mem sent given pipe ss) ss.
Proof.
  intros Hc. unfold start_socket. set (i := HASH_ID id) in *. apply wp_bind, wp_get.
  destruct (Z.eqb_spec (s_type (slot ss i)) SOCKET_TYPE_INVALID) as [T|T]; cbn [orb]; [wps; split; [done|by apply still_watched_same]|].
  destruct (Z.eqb_spec (s_id (slot ss i)) id) as [E|E]; cbn [negb]; [|wps; split; [done|by apply still_watched_same]].
  pose proof (so_shape _ _ _ _ _ _ (co_slots _ _ _ _ _ Hc i)) as Hs. unfold socket_lock_init.
  destruct (_ || _) eqn:Et.
  - assert (Ht : s_type (slot ss i) = SOCKET_TYPE_PACCEPT \/ s_type (slot ss i) = SOCKET_TYPE_PLISTEN) by (apply orb_prop in Et as [?%Z.eqb_eq|?%Z.eqb_eq]; auto).
    assert (Hl : live (slot ss i)) by (split; [done|by destruct Ht as [-> | ->]]).
    apply (wp_live _ _ _ _ i _ _ Hc Hl). unfold sp_add. ats. destruct (a_ret a =? -1); ats.
    + apply at_force_close; [done|done|lia|]. intros d' s' Hf' Ht'. ats. apply served_closed; try done; [|by right]. 
      change [CSpAdd i (s_fd (slot ss i))] with ([CSpAdd i (s_fd (slot ss i))] ++ []). eapply follows_trans; [done|done| |done].
      apply follows_call; [done|by apply follows_refl].
    + set (t := if _ =? _ then _ else _). assert (Htt : (t = SOCKET_TYPE_CONNECTED \/ t = SOCKET_TYPE_LISTEN)) by (unfold t; destruct (_ =? _); auto).
      split; [|intros j Hj; left; by right]. assert (Hlt : live (with_type t (slot ss i))) by (by destruct Htt as [-> | ->]).
      apply core_follows; try done.
      * apply follows_put; try done; [|unfold open_type; destruct Ht as [-> | ->]; by intros [|[|[|]]]|cbn; destruct Ht as [-> | ->]; done].
        apply with_opaque_shape, with_type_shape; try done; by destruct Hlt.
      * intros j Hj [->|Hp]%elem_of_cons; done.
      * intros _. split; [done|]. by destruct Htt as [-> | ->].
  - destruct (Z.eqb_spec (s_type (slot ss i)) SOCKET_TYPE_CONNECTED) as [Tc|Tc]; [|wps; split; [|by apply still_watched_same]; by eapply (core_alike mem _ _ _ [])].
    assert (Hl : live (slot ss i)) by (split; rewrite Tc; done). apply (wp_live _ _ _ _ i _ _ Hc Hl). ats.
    apply served_at; try done; [|by intros H]. apply follows_put; try done. by apply with_opaque_shape.
Qed.

Lemma setopt_socket_spec sent given pipe ss id what value : core mem sent given pipe ss ->
  wp (setopt_socket id what value;; mret (-1, no_message)) (served mem sent given pipe ss) ss.
Proof.
  intros Hc. unfold setopt_socket. wps. destruct (_ || _); wps; (split; [|by apply still_watched_same]); [done|].
  eapply (core_alike mem _ _ _ [_]); [done|done|done|]. by apply silent_call.
Qed.

Lemma set_udp_address_spec sent given pipe ss id address : core mem sent given pipe ss ->
  (exists t x, address = t :: x /\ (t = PROTOCOL_UDP \/ t = PROTOCOL_UDPv6)) ->
  wp (set_udp_address id address) (served mem sent given pipe ss) ss.
Proof.
  intros Hc (t & x & -> & Ht). unfold set_udp_address. set (i := HASH_ID id) in *. apply wp_bind, wp_get.
  destruct (Z.eqb_spec (s_type (slot ss i)) SOCKET_TYPE_INVALID) as [T|T]; cbn [orb]; [wps; split; [done|by apply still_watched_same]|].
  destruct (Z.eqb_spec (s_id (slot ss i)) id) as [E|E]; cbn [negb]; [|wps; split; [done|by apply still_watched_same]].
  cbv zeta. change (default 0 (head (t :: x))) with t. destruct (Z.eqb_spec t (s_protocol (slot ss i))) as [Ep|Ep]; cbn [negb]; [|wps; split; [done|by apply still_watched_same]].
  pose proof (so_shape _ _ _ _ _ _ (co_slots _ _ _ _ _ Hc i)) as Hs.
  assert (Hl : live (slot ss i)) by (split; [done|intros Er%(sh_reserve _ Hs); rewrite <- Ep in Er; by destruct Ht as [-> | ->]]).
  assert (Htcp : tcp (slot ss i) = false) by (unfold tcp; rewrite <- Ep; by destruct Ht as [-> | ->]).
  pose proof (sh_p _ Hs Hl) as Hp. rewrite Htcp in Hp. destruct Hp as (t0 & a0 & Ep0). apply (wp_live _ _ _ _ i _ _ Hc Hl). apply wp_bind. unfold copy_address.
  apply wp_bind, at_get. unfold p_address. rewrite Ep0. ats. apply served_at; try done; [|by intros H].
  apply follows_put; try done. destruct Hs. split; try done. intros _. change (tcp (with_udpconnecting _ _)) with (tcp (slot ss i)). rewrite Htcp. cbn.
  destruct (Z.to_nat _) eqn:En; cbn; [by eexists _, _|by eexists _, _].
Qed.
End steps.

(** ** Opening *)

Section opening.
Context (mem : Z -> Z).

(** The socket that was reserved is open, or given up. *)
Record opens (r : request) (d : list call) (s s' : socket) : Prop := {
  op_id : s_id s' = s_id s;
  op_type : s_type s' = SOCKET_TYPE_INVALID \/ live s';
  op_shape : shape s';
  op_empty : own s' = [] /\ front mem s' = [] /\ s_low s' = [];
  op_count : tcp s' = true -> s_sending s' = Z.shiftl (ID_TAG16 (s_id s)) 16;
  op_udp : udp_opener r <> None -> tcp s' = false;
  op_silent : silent d }.

Lemma shape_reserved s : shape s -> s_type s = SOCKET_TYPE_RESERVE -> own s = [] /\ front mem s = [] /\ s_low s = [].
Proof.
  intros Hs Ht. destruct (sh_empty _ Hs) as (Eh & El & Ed); [intros [_ ?]; done|]. unfold own, front, direct_of. rewrite Eh, El, (proj2 (Z.eqb_eq _ _) Ed). done.
Qed.

Lemma reserved_not_open s : s_type s = SOCKET_TYPE_RESERVE -> ~ open_type s.
Proof. unfold open_type. intros ->. by intros [|[|[|]]]. Qed.

(** No message waits for a socket that was reserved only. *)
Lemma reserved_pending alloc id (pipe : list request) s : s_type s = SOCKET_TYPE_RESERVE -> s_id s = id ->
  (forall a r b, pipe = a ++ r :: b -> request_id r = id -> request_ok alloc a r s) -> of_id id (sends pipe) = [].
Proof.
  intros Ht Hid H. induction pipe as [|r pipe IH] using rev_ind; [done|]. rewrite sends_app, of_id_app, IH.
  2:{ intros a r' b -> . apply (H a r' (b ++ [r])). by rewrite <- app_assoc. }
  apply of_id_none. intros m Em. pose proof (send_target _ _ _ Em) as Htg. assert (Hr : request_id r = id) by (destruct r; cbn in *; congruence).
  specialize (H pipe r [] eq_refl Hr). assert (U : used_by id s) by (split; [done|by rewrite Ht]).
  destruct r; cbn in *; try done; injection Em as -> _; destruct H as (_ & _ & _ & HT); destruct (HT U) as [_ HO]; by destruct (reserved_not_open _ Ht HO).
Qed.

Lemma core_opens sent given r rest ss id i s' d l p n : core mem sent given (r :: rest) ss -> opener r = Some id -> HASH_ID id = i -> opens r d (slot ss i) s' ->
  (forall j, j <> i -> j ∈ p -> j ∈ ss_polled ss) -> (i ∈ p -> watched s') -> core mem sent given rest (at_ i s' d l p n ss).
Proof.
  intros Hc Ho Hi [Eid Ht Hsh (E1 & E2 & E3) Hcnt Hudp [Hf Hw]] Hp Hip.
  pose proof (co_requests _ _ _ _ _ Hc [] r rest eq_refl) as Hr. rewrite (opener_request r id Ho), Hi in Hr.
  assert (Hres : s_id (slot ss i) = id /\ s_type (slot ss i) = SOCKET_TYPE_RESERVE) by (by destruct r; cbn in *; try done; injection Ho as ->).
  destruct Hres as [Hid Hres]. pose proof (co_slots _ _ _ _ _ Hc i) as [A1 A2 A3 A4 A5 A6 A7].
  assert (H0 : s_id (slot ss i) <> 0) by (apply A4; by rewrite Hres). destruct (shape_reserved _ A1 Hres) as (F1 & F2 & F3).
  destruct (A6 Hres) as [Hsent _]. rewrite Hid in Hsent.
  assert (Hnew : id ∉ omap opener rest) by (pose proof (co_openers _ _ _ _ _ Hc) as Hnd; cbn in Hnd; rewrite Ho in Hnd; by apply NoDup_cons in Hnd as [? _]).
  assert (Hpend : of_id id (sends (r :: rest)) = []).
  { apply (reserved_pending (ss_alloc_id ss) id _ (slot ss i)); try done. intros a r' b E Er. pose proof (co_requests _ _ _ _ _ Hc a r' b E) as H. by rewrite Er, Hi in H. }
  assert (Hpend' : of_id id (sends rest) = []).
  { change (r :: rest) with ([r] ++ rest) in Hpend. rewrite sends_app, of_id_app in Hpend. by apply app_eq_nil in Hpend as [_ ?]. }
  assert (Hb : buffers [r] = []) by (by destruct r).
  rewrite <- (app_nil_r given). apply (core_local mem sent sent given [] [r]); try done.
  - split; try done; rewrite ?Eid, ?Hid; try (by rewrite <- Hid).
    + intros Hr'. destruct Ht as [Ht|[_ Ht]]; [by rewrite Ht in Hr'|done].
    + intros _ Htcp. rewrite (Hcnt Htcp), Hid. unfold pending. rewrite Hpend'. cbn. lia.
  - intros r' ->%list_elem_of_singleton. rewrite (opener_target _ _ Ho). congruence.
  - intros w Hst. change ([r] ++ rest) with (r :: rest) in Hst. rewrite Eid, Hid in Hst |- *. rewrite Hw, app_nil_r, Hpend', Hsent. rewrite Hpend, Hsent in Hst.
    assert (Ew : w = []).
    { destruct Hst as [_ H2]. destruct H2 as (order & S & Hpre); [intros (_ & [_ ?] & _); done|].
      assert (order = []) as ->.
      { pose proof (S true) as S1. pose proof (S false) as S2. destruct order as [|[[|] m] order]; [done|cbn in S1; done|cbn in S2; done]. }
      by apply prefix_nil_inv in Hpre. }
    subst w. split; [|intros _; by exists []]. intros _. exists [], []. unfold lows. rewrite E2, E3. done.
  - intros a r' b Er Hok. assert (Hold : forall k, used_by k s' -> k = id) by (intros k [? _]; congruence).
    assert (U : used_by id (slot ss i)) by (split; [done|by rewrite Hres]).
    assert (Hne : opener r' = Some id -> False) by (intros E; apply Hnew, elem_of_openers; exists r'; split; [rewrite Er; set_solver|done]).
    assert (Hnr : s_type s' <> SOCKET_TYPE_RESERVE) by (intros E; destruct Ht as [Ht|[_ Ht]]; [by rewrite Ht in E|done]).
    destruct r'; cbn in Hok, Hne |- *; try done; try (exfalso; apply Hne; f_equal; destruct Hok; congruence).
    + by destruct Hok as [? _].
    + destruct Hok as (?&?&?&Hok). split_and!; try done; try lia; intros U'; pose proof (Hold _ U') as ->; destruct (Hok U) as [_ HT]; by destruct (reserved_not_open _ Hres HT).
    + destruct Hok as (?&?&?&Hok). split_and!; try done; try lia; intros U'; pose proof (Hold _ U') as ->; destruct (Hok U) as [_ HT]; by destruct (reserved_not_open _ Hres HT).
    + destruct Hok as (?&?&?&Hok). split_and!; try done; try lia. intros U'. pose proof (Hold _ U') as ->. destruct (Hok U) as [_ HT]. split; [|done].
      specialize (HT Hres). destruct (udp_opener r) eqn:Eu; [by apply Hudp|].
      apply elem_of_openers in HT as (r'' & Hin & E''). exfalso. apply Hnew, elem_of_openers. exists r''. split; [rewrite Er; set_solver|by apply udp_opener_opener].
  - by rewrite F1, Hb, Hf, E1.
Qed.

(** *** The programs that open *)

(** The socket that [new_fd] makes. *)
Definition fresh (opaque id fd protocol : Z) (s : socket) : socket :=
  Socket opaque (s_high s) (s_low s) 0 (Z.shiftl (ID_TAG16 id) 16) fd id protocol (s_type s) (s_udpconnecting s) 0 (PSize MIN_READ_BUFFER) false (s_dw_offset s) 0 0.

Lemma at_sp_add i fd s d l p n ss (Q : bool -> socket_server -> Prop) :
  (forall d' l', silent d' -> Q true (at_ i s (d' ++ d) l' p n ss)) -> (forall d' l', silent d' -> Q false (at_ i s (d' ++ d) l' (i :: p) n ss)) ->
  wp (sp_add i fd) Q (at_ i s d l p n ss).
Proof. intros H1 H2. unfold sp_add. ats. destruct (_ =? _); ats; [by apply (H1 [CSpAdd i fd]), silent_call|by apply (H2 [CSpAdd i fd]), silent_call]. Qed.

Lemma at_new_fd i id fd protocol opaque (add : bool) s d l p n ss (Q : option Z -> socket_server -> Prop) : HASH_ID id = i -> s_type s = SOCKET_TYPE_RESERVE -> shape s ->
  (add = true -> forall d' l', silent d' -> Q None (at_ i (with_type SOCKET_TYPE_INVALID s) (d' ++ d) l' p n ss)) ->
  (forall d' l', silent d' -> Q (Some i) (at_ i (fresh opaque id fd protocol s) (d' ++ d) l' (if add then i :: p else p) n ss)) ->
  wp (new_fd id fd protocol opaque add) Q (at_ i s d l p n ss).
Proof.
  intros Hi Ht Hs Hno Hyes. unfold new_fd. rewrite Hi. apply wp_bind, at_get. apply wp_bind, wp_check; [by rewrite Ht|].
  destruct (sh_empty _ Hs) as (Eh & El & Ed); [intros [_ ?]; done|]. apply wp_bind. destruct add.
  - apply at_sp_add.
    + intros d' l' Hd. apply wp_bind, at_update, wp_ret. by apply (Hno eq_refl).
    + intros d' l' Hd. ats; [by apply bool_decide_eq_true|by apply bool_decide_eq_true|]. by apply Hyes.
  - ats; [by apply bool_decide_eq_true|by apply bool_decide_eq_true|]. by apply (Hyes []).
Qed.

(** The types and the addresses that an open socket may have. *)
Lemma opened_shape opaque id fd protocol s t pp : shape s -> s_type s = SOCKET_TYPE_RESERVE -> t <> SOCKET_TYPE_INVALID -> t <> SOCKET_TYPE_RESERVE ->
  protocol = PROTOCOL_TCP \/ protocol = PROTOCOL_UDP \/ protocol = PROTOCOL_UDPv6 ->
  (if protocol =? PROTOCOL_TCP then exists n, pp = PSize n /\ 0 < n else exists b a, pp = PAddress (b :: a)) ->
  shape (with_p pp (with_type t (fresh opaque id fd protocol s))).
Proof.
  intros Hs Ht H1 H2 Hpr Hp. destruct (sh_empty _ Hs) as (Eh & El & Ed); [intros [_ ?]; done|]. split; cbn; try done; rewrite ?Eh, ?El; done.
Qed.

Lemma invalid_shape s : shape s -> s_type s = SOCKET_TYPE_RESERVE -> shape (with_type SOCKET_TYPE_INVALID s).
Proof.
  intros Hs Ht. destruct (sh_empty _ Hs) as (Eh & El & Ed); [intros [_ ?]; done|]. split; cbn; try done; rewrite ?Eh, ?El; try done; by intros [].
Qed.

Lemma opens_failed r d s : shape s -> s_type s = SOCKET_TYPE_RESERVE -> silent d -> opens r d s (with_type SOCKET_TYPE_INVALID s).
Proof.
  intros Hs Ht Hd. pose proof (sh_reserve _ Hs Ht) as Hp. assert (Htcp : tcp (with_type SOCKET_TYPE_INVALID s) = false) by (unfold tcp; cbn; by rewrite Hp).
  split; try done; [by left|by apply invalid_shape|exact (shape_reserved _ Hs Ht)|by rewrite Htcp].
Qed.

Lemma opens_opened r d s opaque id fd protocol t pp : shape s -> s_type s = SOCKET_TYPE_RESERVE -> s_id s = id -> silent d -> t <> SOCKET_TYPE_INVALID -> t <> SOCKET_TYPE_RESERVE ->
  protocol = PROTOCOL_TCP \/ protocol = PROTOCOL_UDP \/ protocol = PROTOCOL_UDPv6 -> (udp_opener r <> None -> protocol <> PROTOCOL_TCP) ->
  (if protocol =? PROTOCOL_TCP then exists n, pp = PSize n /\ 0 < n else exists b a, pp = PAddress (b :: a)) ->
  opens r d s (with_p pp (with_type t (fresh opaque id fd protocol s))).
Proof.
  intros Hs Ht <- Hd H1 H2 Hpr Hu Hp. split; try done.
  - by right.
  - by apply opened_shape.
  - destruct (sh_empty _ Hs) as (Eh & El & Ed); [intros [_ ?]; done|]. unfold own, front, direct_of. cbn. by rewrite Eh, El.
  - intros Hr. by apply Z.eqb_neq, Hu.
Qed.

(** A request that opens is served when its socket is open or given up. *)
Lemma served_opens sent given r rest ss id i s' d l p n res : core mem sent given (r :: rest) ss -> opener r = Some id -> HASH_ID id = i -> opens r d (slot ss i) s' ->
  (p = ss_polled ss \/ p = i :: ss_polled ss /\ watched s') -> served mem sent given rest ss res (at_ i s' d l p n ss).
Proof.
  intros Hc Ho Hi Hop Hp. assert (Hno : i ∉ ss_polled ss).
  { intros Hin. pose proof (so_watched _ _ _ _ _ _ (co_slots _ _ _ _ _ Hc i) Hin) as [[_ W] _].
    pose proof (co_requests _ _ _ _ _ Hc [] r rest eq_refl) as Hr. rewrite (opener_request r id Ho), Hi in Hr. by destruct r; cbn in *; try done; destruct Hr. }
  split.
  - eapply core_opens; try done; destruct Hp as [-> |[-> Hw]]; try done. intros j Hj [->|?]%elem_of_cons; done.
  - intros j Hj. left. destruct Hp as [-> |[-> _]]; [done|by right].
Qed.

Lemma wp_reserved {A} sent given r rest ss id (m : IO A) (Q : A -> socket_server -> Prop) : core mem sent given (r :: rest) ss -> opener r = Some id ->
  (let i := HASH_ID id in shape (slot ss i) -> s_type (slot ss i) = SOCKET_TYPE_RESERVE -> s_id (slot ss i) = id ->
   wp m Q (at_ i (slot ss i) [] (ss_script ss) (ss_polled ss) (ss_count ss) ss)) -> wp m Q ss.
Proof.
  intros Hc Ho H. set (i := HASH_ID id) in *. pose proof (co_requests _ _ _ _ _ Hc [] r rest eq_refl) as Hr. rewrite (opener_request r id Ho) in Hr. fold i in Hr.
  assert (Hres : s_id (slot ss i) = id /\ s_type (slot ss i) = SOCKET_TYPE_RESERVE) by (by destruct r; cbn in *; try done; injection Ho as ->).
  destruct Hres as [Hid Ht]. pose proof (co_slots _ _ _ _ _ Hc i) as Hslot. assert (H0 : s_id (slot ss i) <> 0) by (apply Hslot; by rewrite Ht).
  rewrite (at_start_used i ss H0). apply H; [apply Hslot|done|done].
Qed.

Lemma silent_app a b : silent a -> silent b -> silent (a ++ b).
Proof. intros [H1 H2] [H3 H4]. split; [by rewrite freed_app, H1, H3|]. intros k. by rewrite written_app, H2, H4. Qed.

Lemma silent_cons c d : quiet c -> silent d -> silent (c :: d).
Proof. intros Hc. by apply (silent_app [c]), silent_call. Qed.

Lemma at_connect_loop i s n p ss families : forall e d l (Q : Z * Z * errno_t -> socket_server -> Prop),
  (forall r d' l', silent d' -> Q r (at_ i s (d' ++ d) l' p n ss)) -> wp (connect_loop families e) Q (at_ i s d l p n ss).
Proof.
  induction families as [|f families IH]; intros e d l Q H; cbn [connect_loop]; [ats; by apply (H _ [])|]. ats.
  assert (Hnext : forall d1 l1 e1, silent d1 -> wp (connect_loop families e1) Q (at_ i s (d1 ++ d) l1 p n ss)).
  { intros d1 l1 e1 H1. apply IH. intros r d2 l2 H2. rewrite app_assoc. apply H. by apply silent_app. }
  destruct (a_ret a <? 0); [by apply (Hnext [CSocket f]), silent_call|]. ats. destruct (_ && _); ats.
  - by apply (Hnext [CClose (a_ret a); CConnect (a_ret a); CSocket f]).
  - by apply (H _ [CConnect (a_ret a); CSocket f]).
Qed.

Lemma open_socket_spec sent given rest ss id port opaque host : core mem sent given (ROpen id port opaque host :: rest) ss ->
  wp (open_socket id port opaque host) (served mem sent given rest ss) ss.
Proof.
  intros Hc. apply (wp_reserved _ _ _ _ _ id _ _ Hc eq_refl). intros i Hs Ht Hid. unfold open_socket. fold i.
  assert (Hfail : forall d l data, silent d -> wp (update i (with_type SOCKET_TYPE_INVALID);; mret (SOCKET_ERR, Message id opaque 0 data))
    (served mem sent given rest ss) (at_ i (slot ss i) d l (ss_polled ss) (ss_count ss) ss)).
  { intros d l data Hd. ats. eapply served_opens; [done|done|done| |by left]. by apply opens_failed. }
  ats. destruct (negb _); [apply Hfail; by apply silent_call|]. ats. apply at_connect_loop. intros [[sock status] e] d1 l1 Hd1. cbn [negb].
  destruct (sock <? 0); [apply Hfail, silent_app; [done|by apply silent_call]|]. ats. apply at_new_fd; try done.
  - intros _ d2 l2 Hd2. ats. eapply served_opens; [done|done|done| |by left]. apply (opens_failed _ _ (slot ss i)); [done|done|].
    destruct (silent_app d2 (d1 ++ [CGetaddrinfo host port])) as [Hf Hw]; [done|by apply silent_app; [|apply silent_call]|done].
  - intros d2 l2 Hd2. assert (Hd : silent (d2 ++ d1 ++ [CGetaddrinfo host port])).
    { apply silent_app; [done|]. by apply silent_app; [|apply silent_call]. }
    destruct Hd as [Hf Hw]. destruct (status =? 0); ats; (eapply served_opens; [done|done|done| |right; split; [done|by split]]).
    + apply (opens_opened _ _ (slot ss i) opaque id sock PROTOCOL_TCP SOCKET_TYPE_CONNECTED (PSize MIN_READ_BUFFER)); try done; [by left|by eexists].
    + apply (opens_opened _ _ (slot ss i) opaque id sock PROTOCOL_TCP SOCKET_TYPE_CONNECTING (PSize MIN_READ_BUFFER)); try done; [by left|by eexists].
Qed.

Lemma listen_socket_spec sent given rest ss id fd opaque : core mem sent given (RListen id fd opaque :: rest) ss ->
  wp (listen_socket id fd opaque) (served mem sent given rest ss) ss.
Proof.
  intros Hc. apply (wp_reserved _ _ _ _ _ id _ _ Hc eq_refl). intros i Hs Ht Hid. unfold listen_socket. apply wp_bind, at_new_fd; try done.
  intros d l [Hf Hw]. ats. eapply served_opens; [done|done|done| |by left].
    apply (opens_opened _ _ (slot ss i) opaque id fd PROTOCOL_TCP SOCKET_TYPE_PLISTEN (PSize MIN_READ_BUFFER)); try done; [by rewrite app_nil_r|by left|by eexists].
Qed.

Lemma bind_socket_spec sent given rest ss id fd opaque : core mem sent given (RBind id fd opaque :: rest) ss ->
  wp (bind_socket id fd opaque) (served mem sent given rest ss) ss.
Proof.
  intros Hc. apply (wp_reserved _ _ _ _ _ id _ _ Hc eq_refl). intros i Hs Ht Hid. unfold bind_socket. apply wp_bind, at_new_fd; try done.
  - intros _ d l Hd. ats. eapply served_opens; [done|done|done| |by left]. apply opens_failed; [done|done|by rewrite app_nil_r].
  - intros d l Hd. ats. eapply served_opens; [done|done|done| |right; split; [done|by split]].
    apply (opens_opened _ _ (slot ss i) opaque id fd PROTOCOL_TCP SOCKET_TYPE_BIND (PSize MIN_READ_BUFFER)); try done; [by rewrite app_nil_r|by left|by eexists].
Qed.

Lemma add_udp_socket_spec af_inet6 sent given rest ss id fd family opaque : core mem sent given (RUdp id fd family opaque :: rest) ss ->
  wp (add_udp_socket af_inet6 id fd family opaque;; mret (-1, no_message)) (served mem sent given rest ss) ss.
Proof.
  intros Hc. apply (wp_reserved _ _ _ _ _ id _ _ Hc eq_refl). intros i Hs Ht Hid. unfold add_udp_socket. apply wp_bind, wp_bind.
  set (protocol := if family =? af_inet6 then PROTOCOL_UDPv6 else PROTOCOL_UDP). assert (Hpr : protocol = PROTOCOL_UDPv6 \/ protocol = PROTOCOL_UDP) by (unfold protocol; destruct (_ =? _); auto). apply at_new_fd; try done.
  - intros _ d l Hd. fold i. ats. eapply served_opens; [done|done|done| |by left]. apply (opens_failed _ _ (slot ss i)); [done|done|]. apply silent_cons; [done|]. by rewrite app_nil_r.
  - intros d l [Hf Hw]. ats. eapply served_opens; [done|done|done| |right; split; [done|by split]].
    apply (opens_opened _ _ (slot ss i) opaque id fd protocol SOCKET_TYPE_CONNECTED (PAddress (replicate (Z.to_nat UDP_ADDRESS_SIZE) 0))); try done.
    + by rewrite app_nil_r.
    + tauto.
    + intros _. by destruct Hpr as [-> | ->].
    + destruct Hpr as [-> | ->]; cbn; (destruct (Z.to_nat UDP_ADDRESS_SIZE) eqn:En; [unfold UDP_ADDRESS_SIZE in En; lia|by eexists _, _]).
Qed.
End opening.

(** ** [ctrl_cmd] *)

Section ctrl.
Context (mem : Z -> Z) (af_inet6 : Z).

Lemma stream_not_tcp q p p' id s s' w : s_id s' = s_id s -> s_protocol s' = s_protocol s -> tcp s = false -> stream mem q p id s w -> stream mem q p' id s' w.
Proof.
  unfold tcp. intros Ei Ep Ht [_ H]. split; [intros (_ & _ & Ht'); unfold tcp in Ht'; congruence|]. intros _. apply H. intros (_ & _ & Ht'). unfold tcp in Ht'. congruence.
Qed.

Lemma udp_served sent given rest ss id sz b address : core mem sent given (RSendUdp id sz b address :: rest) ss ->
  wp (send_socket mem id sz b PRIORITY_HIGH (Some address)) (served mem sent given rest ss) ss.
Proof.
  intros Hc. destruct (co_requests _ _ _ _ _ Hc [] _ rest eq_refl) as (Hid & Hsz & (t & x & ->) & Hu). cbn [request_id] in Hu. set (i := HASH_ID id) in *.
  destruct (decide (s_id (slot ss i) = id)) as [Es|Es].
  2:{ apply wp_send_refused; [done|done|]. intros r. split; [|by apply still_watched_same]. by eapply (core_drop mem sent given _ rest [CFree b false]). }
  pose proof (co_slots _ _ _ _ _ Hc i) as Hslot. pose proof (so_shape _ _ _ _ _ _ Hslot) as Hs. rewrite (at_start_used i ss) by lia.
  assert (Hres : s_type (slot ss i) <> SOCKET_TYPE_RESERVE).
  { intros E. destruct Hu as [_ HT]; [split; [done|by rewrite E]|]. by apply HT, elem_of_nil in E. }
  apply (send_socket_spec mem); try done.
  - by left.
  - intros Hl. destruct Hu as [-> _]; [split; [done|apply Hl]|]. by eexists _, _.
  - intros r d' _ _ Hf Hw l'. rewrite app_nil_r. split; [|by apply still_watched_same].
    eapply (core_taken mem sent given _ rest ss i _ d' l' _ id); try done; try lia; [by destruct (tcp _); cbn; rewrite Z.sub_0_r|by rewrite Hf; solve_Permutation].
  - intros r d' l' prio' w Hl Hh Hp' _ [Hf Hw] _. destruct Hu as [Htcp _]; [split; [done|apply Hl]|]. rewrite app_nil_r. split; [|by apply still_watched_same].
    set (a := option_map _ _). set (s1 := appended prio' b sz a (slot ss i)).
    assert (Hown : own (slot ss i) ++ [b] ≡ₚ own s1) by (by apply appended_own).
    eapply (core_taken mem sent given _ rest ss i _ d' l' _ id); try done; try lia; try (by unfold s1; destruct Hp' as [-> | ->]).
    + apply with_warn_shape, appended_shape; try done. rewrite Htcp. unfold a. cbn [option_map].
      destruct (Z.to_nat UDP_ADDRESS_SIZE) eqn:En; [unfold UDP_ADDRESS_SIZE in En; lia|by eexists _, _].
    + rewrite Htcp, Z.sub_0_r. by unfold s1; destruct Hp' as [-> | ->].
    + rewrite Hf. change (own (with_warn _ _)) with (own s1). by rewrite <- Hown.
    + intros q w'. apply stream_not_tcp; try done; by unfold s1; destruct Hp' as [-> | ->].
Qed.

Definition put_pipe (pipe : list request) (ss : socket_server) : socket_server :=
  Server (ss_checkctrl ss) (ss_alloc_id ss) (ss_events ss) (ss_event_index ss) (ss_soi ss) (ss_slot ss) pipe (ss_count ss)
    (ss_polled ss) (ss_script ss) (ss_calls ss).

(** The state when a request has been taken. *)
Lemma core_put_pipe sent given pipe rest ss : core mem sent given pipe ss -> core mem sent given pipe (put_pipe rest ss).
Proof. by intros []. Qed.

Lemma ctrl_cmd_spec sent given ss : core mem sent given (ss_pipe ss) ss -> ss_pipe ss <> [] ->
  wp (ctrl_cmd mem af_inet6) (served mem sent given (tail (ss_pipe ss)) ss) ss.
Proof.
  intros Hc Hne. unfold ctrl_cmd. apply wp_bind, wp_gets. destruct (ss_pipe ss) as [|r rest] eqn:Ep; [done|]. cbn [tail]. apply wp_bind.
  change (wp (set_pipe (fun _ => rest)) ?Q ss) with (wp (mret tt) Q (put_pipe rest ss)). apply wp_ret.
  pose proof (core_put_pipe _ _ _ rest _ Hc) as Hc'. pose proof (co_requests _ _ _ _ _ Hc' [] r rest eq_refl) as Hr.
  assert (Hdrop : opener r = None -> send_of r = None -> buffers [r] = [] -> core mem sent given rest (put_pipe rest ss)).
  { intros Ho Hs Hb. by eapply (core_drop mem sent given r rest []). }
  destruct r; cbn [request_id request_ok] in Hr.
  - apply (start_socket_spec mem sent given rest (put_pipe rest ss)). by apply Hdrop.
  - by apply (bind_socket_spec mem sent given rest (put_pipe rest ss)).
  - by apply (listen_socket_spec mem sent given rest (put_pipe rest ss)).
  - apply (close_socket_spec mem sent given rest (put_pipe rest ss)); [by apply Hdrop|]. intros U T. destruct Hr as [_ Hr]. by apply Hr, elem_of_nil in T.
  - by apply (open_socket_spec mem sent given rest (put_pipe rest ss)).
  - apply wp_ret. split; [by apply Hdrop|by apply still_watched_same].
  - by apply (sending_served mem sent given id false sz buffer _ (RSend id sz buffer) rest (put_pipe rest ss) (HASH_ID id)).
  - by apply (sending_served mem sent given id true sz buffer _ (RSendLow id sz buffer) rest (put_pipe rest ss) (HASH_ID id)).
  - by apply (udp_served sent given rest (put_pipe rest ss)).
  - apply (set_udp_address_spec mem sent given rest (put_pipe rest ss)); [by apply Hdrop|done].
  - apply (setopt_socket_spec mem sent given rest (put_pipe rest ss)). by apply Hdrop.
  - by apply (add_udp_socket_spec mem af_inet6 sent given rest (put_pipe rest ss)).
Qed.
End ctrl.
