(* ===== verification/SocketPoll.v ===== *)
(** The poll loop: every event and every request is handled, and the loop ends. *)
From S2P Require Import Prelude SocketServer SocketWp SocketSend SocketInv SocketRequest.

#[local] Arguments Z.mul : simpl never.
#[local] Arguments Z.add : simpl never.
#[local] Opaque Z.to_nat.
#[local] Set Default Proof Using "Type".

(** No read gives [2 ^ 30] bytes or more, so that the size of the next one is an [int]. *)
Definition short_reads (l : list answer) : Prop := Forall (fun a => Z.of_nat (length (a_bytes a)) < 2 ^ 30) l.

Lemma short_suffix l l' : short_reads l -> l' `suffix_of` l -> short_reads l'.
Proof. unfold short_reads. intros H [k ->]. by apply Forall_app in H as [_ ?]. Qed.

(** ** What programs leave alone *)

(** The pipe and the events are the same, no answer has come back, and at most [k]
    identifiers were tried. *)
Record frame (k : Z) (ss ss' : socket_server) : Prop := {
  fr_pipe : ss_pipe ss' = ss_pipe ss; fr_checkctrl : ss_checkctrl ss' = ss_checkctrl ss;
  fr_events : ss_events ss' = ss_events ss; fr_index : ss_event_index ss' = ss_event_index ss;
  fr_script : ss_script ss' `suffix_of` ss_script ss; fr_alloc : ss_alloc_id ss <= ss_alloc_id ss' <= ss_alloc_id ss + k }.

Definition framed {A} (k : Z) (m : IO A) : Prop := forall ss a ss', m ss = Ret (Some (a, ss')) -> frame k ss ss'.

Lemma wp_framed {A} k (m : IO A) (Q : A -> socket_server -> Prop) ss : framed k m -> wp m (fun a ss' => frame k ss ss' -> Q a ss') ss -> wp m Q ss.
Proof. intros Hf. unfold wp. specialize (Hf ss). destruct (m ss) as [[[a ss']|]| | |]; try done. intros H. apply H. by apply (Hf a). Qed.

Lemma framed_bind {A B} k1 k2 (m : IO A) (f : A -> IO B) : framed k1 m -> (forall a, framed k2 (f a)) -> framed (k1 + k2) (m ≫= f).
Proof.
  intros Hm Hf ss b ss'. unfold mbind, io_bind. specialize (Hm ss). destruct (m ss) as [[[a ss1]|]| | |]; try done. intros E.
  destruct (Hm _ _ eq_refl) as [A1 B1 C1 D1 E1 F1], (Hf _ _ _ _ E) as [A2 B2 C2 D2 E2 F2]. split; try congruence; [by etrans|lia].
Qed.

Lemma framed_weaken {A} k k' (m : IO A) : k <= k' -> framed k m -> framed k' m.
Proof. intros Hk H ss a ss' E. destruct (H _ _ _ E). split; try done. lia. Qed.

Lemma framed_seq {A B} (m : IO A) (f : A -> IO B) : framed 0 m -> (forall a, framed 0 (f a)) -> framed 0 (m ≫= f).
Proof. apply (framed_bind 0 0). Qed.

Lemma framed_ret {A} (a : A) : framed 0 (mret a).
Proof. intros ss b ss' [= _ <-]. split; try done; lia. Qed.
Lemma framed_gets {A} (f : socket_server -> A) : framed 0 (gets f).
Proof. intros ss b ss' [= _ <-]. split; try done; lia. Qed.
Lemma framed_waits {A} : framed 0 (@waits A).
Proof. done. Qed.
Lemma framed_bad {A} : framed 0 (@bad A).
Proof. done. Qed.
Lemma framed_check b : framed 0 (check b).
Proof. intros ss u ss'. unfold check. destruct b; [|done]. intros [= _ <-]. split; try done; lia. Qed.
Lemma framed_slots f : framed 0 (set_slots f).
Proof. intros ss u ss' [= _ <-]. split; try done; cbn; lia. Qed.
Lemma framed_put i s : framed 0 (put i s).
Proof. apply framed_slots. Qed.
Lemma framed_count n : framed 0 (set_count n).
Proof. intros ss u ss' [= _ <-]. split; try done; cbn; lia. Qed.
Lemma framed_polled f : framed 0 (set_polled f).
Proof. intros ss u ss' [= _ <-]. split; try done; cbn; lia. Qed.
Lemma framed_log c : framed 0 (log c).
Proof. intros ss u ss' [= _ <-]. split; try done; cbn; lia. Qed.
Lemma framed_next : framed 0 next.
Proof. intros ss u ss'. unfold next. destruct (ss_script ss) as [|a l] eqn:E; [done|]. intros [= _ <-]. split; try done; cbn; [rewrite E; by apply suffix_cons_r|lia]. Qed.
Lemma framed_int n : framed 0 (int n).
Proof. intros ss k ss'. unfold int. destruct (int_ok n); [|done..]. intros [= _ <-]. split; try done; cbn; lia. Qed.
Lemma framed_if {A} k (b : bool) (m m' : IO A) : framed k m -> framed k m' -> framed k (if b then m else m').
Proof. by destruct b. Qed.

Create HintDb framed.
#[export] Hint Resolve framed_ret framed_gets framed_waits framed_bad framed_check framed_put framed_count framed_polled framed_log framed_next framed_int : framed.

Ltac frames := repeat first
  [ progress intros
  | solve [eauto 2 with framed]
  | apply framed_seq
  | apply framed_if
  | lazymatch goal with |- framed _ (match ?x with _ => _ end) => destruct x end ].

Section framed.
Context (mem : Z -> Z) (af_inet6 : Z).

Lemma framed_get i : framed 0 (get i).
Proof. apply framed_gets. Qed.
Lemma framed_update i f : framed 0 (update i f).
Proof. unfold update, get. frames. Qed.
Lemma framed_sys c : framed 0 (sys c).
Proof. unfold sys. frames. Qed.
Hint Resolve framed_get framed_update framed_sys : framed.

Lemma framed_send_object_init o sz : framed 0 (send_object_init o sz).
Proof. unfold send_object_init. frames. Qed.
Hint Resolve framed_send_object_init : framed.

Lemma framed_free_list l : framed 0 (free_list l).
Proof. induction l; cbn; unfold write_buffer_free; frames. Qed.
Lemma framed_socket_lock i : framed 0 (socket_lock i).
Proof. unfold socket_lock, spinlock_lock. frames. Qed.
Lemma framed_socket_unlock i : framed 0 (socket_unlock i).
Proof. unfold socket_unlock. frames. Qed.
Lemma framed_socket_trylock i : framed 0 (socket_trylock i).
Proof. unfold socket_trylock. frames. Qed.
Hint Resolve framed_free_list framed_socket_lock framed_socket_unlock framed_socket_trylock : framed.

Lemma framed_force_close i : framed 0 (force_close i).
Proof. unfold force_close, free_buffer. frames. Qed.
Lemma framed_sp_add i fd : framed 0 (sp_add i fd).
Proof. unfold sp_add. frames. Qed.
Hint Resolve framed_force_close framed_sp_add : framed.
Lemma framed_new_fd id fd protocol opaque add : framed 0 (new_fd id fd protocol opaque add).
Proof. unfold new_fd. frames. Qed.
Lemma framed_connect_loop families e : framed 0 (connect_loop families e).
Proof. revert e. induction families; intros; cbn; frames. Qed.
Hint Resolve framed_new_fd framed_connect_loop : framed.
Lemma framed_open_socket id port opaque host : framed 0 (open_socket id port opaque host).
Proof. unfold open_socket. frames. Qed.

Lemma framed_sys_write id fd p sz : framed 0 (sys_write mem id fd p sz).
Proof. unfold sys_write. frames. Qed.
Hint Resolve framed_sys_write : framed.
Lemma framed_write_loop fuel i wb : framed 0 (write_loop mem fuel i wb).
Proof. induction fuel; cbn; frames. Qed.
Hint Resolve framed_write_loop : framed.
Lemma framed_send_list_tcp fuel i priority : framed 0 (send_list_tcp mem fuel i priority).
Proof. induction fuel; cbn; unfold answers, write_buffer_free; frames. Qed.
Lemma framed_sys_sendto fd p sz a : framed 0 (sys_sendto mem fd p sz a).
Proof. unfold sys_sendto. frames. Qed.
Lemma framed_udp_socket_address s a : framed 0 (udp_socket_address s a).
Proof. unfold udp_socket_address. frames. Qed.
Hint Resolve framed_send_list_tcp framed_sys_sendto framed_udp_socket_address : framed.
Lemma framed_send_list_udp fuel i priority : framed 0 (send_list_udp mem fuel i priority).
Proof. induction fuel; cbn; unfold write_buffer_free; frames. Qed.
Hint Resolve framed_send_list_udp : framed.
Lemma framed_send_list i priority : framed 0 (send_list mem i priority).
Proof. unfold send_list. frames. Qed.
Lemma framed_raise_uncomplete i : framed 0 (raise_uncomplete i).
Proof. unfold raise_uncomplete. frames. Qed.
Hint Resolve framed_send_list framed_raise_uncomplete : framed.
Lemma framed_send_low i : framed 0 (send_low mem i).
Proof. unfold send_low. frames. Qed.
Hint Resolve framed_send_low : framed.
Lemma framed_send_buffer i : framed 0 (send_buffer mem i).
Proof. unfold send_buffer, queue_direct, send_buffer_. frames. Qed.
Hint Resolve framed_send_buffer : framed.

Lemma framed_append i priority b sz a : framed 0 (append_sendbuffer_ i priority b sz a).
Proof. unfold append_sendbuffer_. frames. Qed.
Lemma framed_p_address s : framed 0 (p_address s).
Proof. unfold p_address. frames. Qed.
Lemma framed_p_size s : framed 0 (p_size s).
Proof. unfold p_size. frames. Qed.
Hint Resolve framed_append framed_p_address framed_p_size : framed.
Lemma framed_send_socket id sz b priority a : framed 0 (send_socket mem id sz b priority a).
Proof. unfold send_socket, append_sendbuffer, append_sendbuffer_low, append_sendbuffer_udp. frames. Qed.
Hint Resolve framed_send_socket framed_open_socket : framed.

Lemma framed_listen_socket id fd opaque : framed 0 (listen_socket id fd opaque).
Proof. unfold listen_socket. frames. Qed.
Lemma framed_close_socket id shutdown opaque : framed 0 (close_socket mem id shutdown opaque).
Proof. unfold close_socket, socket_lock_init. frames. Qed.
Lemma framed_bind_socket id fd opaque : framed 0 (bind_socket id fd opaque).
Proof. unfold bind_socket. frames. Qed.
Lemma framed_start_socket id opaque : framed 0 (start_socket id opaque).
Proof. unfold start_socket, socket_lock_init. frames. Qed.
Lemma framed_setopt_socket id what value : framed 0 (setopt_socket id what value).
Proof. unfold setopt_socket. frames. Qed.
Lemma framed_add_udp_socket id fd family opaque : framed 0 (add_udp_socket af_inet6 id fd family opaque).
Proof. unfold add_udp_socket. frames. Qed.
Lemma framed_set_udp_address id a : framed 0 (set_udp_address id a).
Proof. unfold set_udp_address, copy_address. frames. Qed.
Lemma framed_dec_sending_ref id : framed 0 (dec_sending_ref id).
Proof. unfold dec_sending_ref. frames. Qed.
Hint Resolve framed_listen_socket framed_close_socket framed_bind_socket framed_start_socket framed_setopt_socket framed_add_udp_socket
  framed_set_udp_address framed_dec_sending_ref : framed.

Lemma framed_forward_message_tcp i : framed 0 (forward_message_tcp i).
Proof. unfold forward_message_tcp. frames. Qed.
Lemma framed_forward_message_udp i : framed 0 (forward_message_udp i).
Proof. unfold forward_message_udp. frames. Qed.
Lemma framed_so_error fd : framed 0 (so_error fd).
Proof. unfold so_error. frames. Qed.
Hint Resolve framed_so_error : framed.
Lemma framed_report_connect i : framed 0 (report_connect i).
Proof. unfold report_connect. frames. Qed.

End framed.
#[export] Hint Resolve framed_forward_message_tcp framed_forward_message_udp framed_report_connect framed_send_buffer framed_so_error framed_force_close
  framed_start_socket framed_bind_socket framed_listen_socket framed_close_socket framed_open_socket framed_send_socket
  framed_dec_sending_ref framed_set_udp_address framed_setopt_socket framed_add_udp_socket framed_get framed_update framed_sys framed_send_object_init
  framed_socket_lock framed_socket_unlock framed_socket_trylock framed_sys_write framed_sys_sendto framed_udp_socket_address framed_p_address : framed.

(** ** New sockets *)

Section fresh.
Context (mem : Z -> Z).

Definition put_alloc (n : Z) (ss : socket_server) : socket_server :=
  Server (ss_checkctrl ss) n (ss_events ss) (ss_event_index ss) (ss_soi ss) (ss_slot ss) (ss_pipe ss) (ss_count ss)
    (ss_polled ss) (ss_script ss) (ss_calls ss).

(** A socket for a new identifier: it is reserved, and the request that opens it is on its
    way, or it is open at once. *)
Record begins (id : Z) (new : list request) (s' : socket) : Prop := {
  be_id : s_id s' = id;
  be_shape : shape s';
  be_empty : own s' = [] /\ front mem s' = [] /\ s_low s' = [];
  be_type : s_type s' = SOCKET_TYPE_RESERVE /\ (exists r, new = [r] /\ opener r = Some id) \/ live s' /\ new = [];
  be_count : tcp s' = true -> s_sending s' = Z.shiftl (ID_TAG16 id) 16 }.

Lemma request_ok_later alloc id a r s s' : alloc < id -> s_type s = SOCKET_TYPE_INVALID -> s_id s' = id -> request_ok alloc a r s -> request_ok id a r s'.
Proof.
  intros Hid Ht Hs'. assert (Hu : forall k, k <= alloc -> ~ used_by k s') by (intros k Hk [? _]; lia).
  destruct r; cbn; rewrite ?Ht; try done; try (by intros [_ ?]).
  - intros [H _]. split; [lia|]. intros U. by destruct (Hu _ H).
  - intros (H & H2 & H3 & _). split_and!; try done; try lia. intros U. by destruct (Hu id0) as []; [lia|].
  - intros (H & H2 & H3 & _). split_and!; try done; try lia. intros U. by destruct (Hu id0) as []; [lia|].
  - intros (H & H2 & H3 & _). split_and!; try done; try lia. intros U. by destruct (Hu id0) as []; [lia|].
Qed.

Lemma request_ok_alloc alloc id a r s : alloc <= id -> request_ok alloc a r s -> request_ok id a r s.
Proof. clear mem. intros Hid. destruct r; cbn; try done; intros H; intuition lia. Qed.

Lemma split_new {A} (a b pipe new : list A) r : pipe ++ new = a ++ r :: b -> (length new <= 1)%nat ->
  (exists b', pipe = a ++ r :: b') \/ new = [r] /\ a = pipe /\ b = [].
Proof.
  intros E Hl. destruct new as [|r' [|]]; cbn in Hl; try lia; [left; rewrite app_nil_r in E; by eexists|].
  destruct b as [|x b _] using rev_ind.
  - apply app_inj_tail in E as [-> ->]. by right.
  - rewrite app_comm_cons, app_assoc in E. apply app_inj_tail in E as [-> _]. left. by eexists.
Qed.

(** No request is for an identifier that has not been given out. *)
Lemma no_sends sent given pipe ss id : core mem sent given pipe ss -> ss_alloc_id ss < id -> of_id id (sends pipe) = [].
Proof.
  intros Hc Hid. pose proof (co_requests _ _ _ _ _ Hc) as H. clear Hc. induction pipe as [|r pipe IH] using rev_ind; [done|]. rewrite sends_app, of_id_app, IH.
  2:{ intros a r' b ->. apply (H a r' (b ++ [r])). by rewrite <- app_assoc. }
  apply of_id_none. intros m Em. specialize (H pipe r [] eq_refl). destruct r; cbn in *; try done; injection Em as -> _; destruct H; lia.
Qed.

Lemma core_fresh sent given pipe new ss id j s' d l n : core mem sent given pipe ss -> 0 <= ss_alloc_id ss < id -> HASH_ID id = j ->
  s_type (slot ss j) = SOCKET_TYPE_INVALID -> begins id new s' -> silent d ->
  core mem sent given (pipe ++ new) (at_ j s' d l (ss_polled ss) n (put_alloc id ss)).
Proof.
  intros Hc Hid Hj Ht [Eid Hsh (E1 & E2 & E3) Hty Hcnt] [Hf Hw]. pose proof (no_sends _ _ _ _ id Hc) as Hns. specialize (Hns ltac:(lia)).
  assert (Hnew : (length new <= 1)%nat /\ sends new = [] /\ buffers new = []) by (destruct Hty as [(_ & r & -> & Ho)|[_ ->]]; [by destruct r|cbn; split_and!; auto; lia]).
  destruct Hnew as (Hlen & Hsn & Hbn). pose proof Hc as [A B C D E F].
  assert (Hpend : forall k, pending k (pipe ++ new) = pending k pipe) by (intros k; rewrite pending_app; unfold pending at 2; rewrite Hsn; cbn; lia).
  destruct (E id) as [Es Ew]; [lia|].
  assert (Hnp : j ∉ ss_polled ss) by (intros Hin; destruct (so_watched _ _ _ _ _ _ (A j) Hin) as [[? _] _]; done).
  assert (Hno : id ∉ omap opener pipe).
  { intros (r & Hin & Ho)%elem_of_openers. apply list_elem_of_split in Hin as (a & b & ->). specialize (B a r b eq_refl). rewrite (opener_request r id Ho), Hj in B.
    destruct r; cbn in *; try done; destruct B as [_ B]; by rewrite Ht in B. }
  split; cbn [ss_alloc_id ss_polled ss_calls ss_slot at_ put_alloc].
  - intros i. destruct (decide (i = j)) as [->|Hne].
    + rewrite at_slot. split; try done; rewrite ?Eid; try done; try lia.
      * intros Hr. split; [done|]. destruct Hty as [(_ & r & -> & Ho)|[[_ ?] _]]; [|done]. rewrite omap_app. apply elem_of_app. right. cbn. rewrite Ho. by left.
      * intros _ Htcp. rewrite (Hcnt Htcp), Hpend. unfold pending. rewrite Hns. cbn. lia.
    + rewrite at_slot_ne by done. change (slot (put_alloc id ss) i) with (slot ss i). destruct (A i) as [A1 A2 A3 A4 A5 A6 A7]. split; try done; try lia.
      * intros Hr. destruct (A6 Hr) as [X Y]. split; [done|]. rewrite omap_app. apply elem_of_app. by left.
      * rewrite Hpend. done.
  - intros a r b Er. destruct (split_new _ _ _ _ _ Er Hlen) as [(b' & ->)|(-> & -> & ->)].
    + specialize (B a r b' eq_refl). destruct (decide (HASH_ID (request_id r) = j)) as [Ei|Ei].
      * rewrite Ei in *. rewrite at_slot. eapply request_ok_later; [|exact Ht|done|exact B]. lia.
      * rewrite at_slot_ne by done. eapply request_ok_alloc; [|exact B]. lia.
    + destruct Hty as [(Hr & r' & [= <-] & Ho)|[_ ?]]; [|done]. rewrite (opener_request r id Ho), Hj, at_slot. destruct r; cbn in *; try done; injection Ho as ->; done.
  - rewrite omap_app. apply NoDup_app. split_and!; [done| |].
    + intros k Hk Hk'. destruct Hty as [(_ & r & -> & Ho)|[_ ->]]; [|by apply elem_of_nil in Hk']. cbn in Hk'. rewrite Ho in Hk'. apply list_elem_of_singleton in Hk' as ->. done.
    + destruct Hty as [(_ & r & -> & Ho)|[_ ->]]; [|by constructor]. cbn. rewrite Ho. apply NoDup_singleton.
  - intros k. rewrite written_app, Hw, app_nil_r, sends_app, Hsn, app_nil_r. specialize (D k). destruct (decide (HASH_ID k = j)) as [Ek|Ek].
    + rewrite Ek in *. rewrite at_slot. destruct (decide (k = id)) as [->|Hne].
      * rewrite Es, Ew, Hns. split; [|intros _; by exists []]. intros _. exists [], []. unfold lows. rewrite E2, E3. done.
      * split; [intros [? _]; congruence|]. intros _. apply D. intros (_ & [? _] & _). done.
    + rewrite at_slot_ne by done. exact D.
  - intros k Hk. rewrite written_app, Hw, app_nil_r. apply E. lia.
  - rewrite F, freed_app, Hf, buffers_app, Hbn, app_nil_r. pose proof (owned_insert (ss_slot ss) j s') as Ho. change (slot_sock (ss_slot ss) j) with (slot ss j) in Ho.
    rewrite E1 in Ho. assert (Hold : own (slot ss j) = []).
    { destruct (sh_empty _ (so_shape _ _ _ _ _ _ (A j))) as (X & Y & Z); [intros [? _]; done|]. unfold own. by rewrite X, Y, (proj2 (Z.eqb_eq _ _) Z). }
    rewrite Hold in Ho. cbn [app] in Ho. by rewrite Ho.
Qed.

(** *** Reserving *)

Lemma reserve_loop_spec n : forall ss (Q : Z -> socket_server -> Prop), 0 <= ss_alloc_id ss -> ss_alloc_id ss + Z.of_nat n < 2 ^ 31 ->
  Q (-1) (put_alloc (ss_alloc_id ss + Z.of_nat n) ss) ->
  (forall id, ss_alloc_id ss < id <= ss_alloc_id ss + Z.of_nat n -> s_type (slot ss (HASH_ID id)) = SOCKET_TYPE_INVALID ->
     Q id (put_slot (HASH_ID id) (with_reserved id (slot ss (HASH_ID id))) (put_alloc id ss))) ->
  wp (reserve_loop n) Q ss.
Proof.
  induction n as [|n IH]; intros ss Q H0 H1 Hno Hyes; cbn [reserve_loop].
  - apply wp_ret. cbn in Hno. rewrite Z.add_0_r in Hno. by destruct ss.
  - apply wp_bind, wp_gets. rewrite s32_small by lia. rewrite (proj2 (Z.ltb_ge _ _)) by lia. set (id := ss_alloc_id ss + 1). apply wp_bind.
    change (wp (set_alloc id) ?R ss) with (wp (mret tt) R (put_alloc id ss)). apply wp_ret, wp_bind, wp_get. change (slot (put_alloc id ss) (HASH_ID id)) with (slot ss (HASH_ID id)).
    destruct (Z.eqb_spec (s_type (slot ss (HASH_ID id))) SOCKET_TYPE_INVALID) as [E|E].
    + wps. apply Hyes; [lia|done].
    + apply IH; cbn [ss_alloc_id put_alloc]; try lia.
      * change (put_alloc _ (put_alloc id ss)) with (put_alloc (id + Z.of_nat n) ss). replace (id + Z.of_nat n) with (ss_alloc_id ss + Z.of_nat (S n)) by lia. exact Hno.
      * intros k Hk. change (slot (put_alloc id ss) (HASH_ID k)) with (slot ss (HASH_ID k)). intros Ek. apply (Hyes k); [lia|done].
Qed.

Lemma max_socket_nat : Z.of_nat (Z.to_nat MAX_SOCKET) = MAX_SOCKET.
Proof. by apply Z2Nat.id. Qed.

Lemma reserve_id_spec ss (Q : Z -> socket_server -> Prop) : 0 <= ss_alloc_id ss -> ss_alloc_id ss + MAX_SOCKET < 2 ^ 31 ->
  Q (-1) (put_alloc (ss_alloc_id ss + MAX_SOCKET) ss) ->
  (forall id, ss_alloc_id ss < id <= ss_alloc_id ss + MAX_SOCKET -> s_type (slot ss (HASH_ID id)) = SOCKET_TYPE_INVALID ->
     Q id (put_slot (HASH_ID id) (with_reserved id (slot ss (HASH_ID id))) (put_alloc id ss))) ->
  wp reserve_id Q ss.
Proof. unfold reserve_id. rewrite <- max_socket_nat. rewrite Nat2Z.id. generalize (Z.to_nat MAX_SOCKET) as n. intros n. apply reserve_loop_spec. Qed.

Lemma reserved_shape id s : s_type s = SOCKET_TYPE_INVALID -> shape s -> shape (with_reserved id s).
Proof.
  intros Ht Hs. destruct (sh_empty _ Hs) as (Eh & El & Ed); [intros [? _]; done|].
  split; cbn; try done; rewrite ?Eh, ?El; try done; try (by intros [_ ?]); by rewrite Ed.
Qed.
End fresh.

(** ** Events *)

Section events.
Context (mem : Z -> Z).

(** The handler of an event of the socket at [i]: only that socket may have been closed. *)
Definition dispatched (sent : list (Z * tagged)) (given : list Z) (pipe : list request) (i : Z) (ss : socket_server) (r : Z * socket_message) (ss' : socket_server) : Prop :=
  core mem sent given pipe ss' /\ forall j, j ∈ ss_polled ss -> j ∈ ss_polled ss' \/ j = i /\ (r.1 = SOCKET_CLOSE \/ r.1 = SOCKET_ERR).

Lemma dispatched_at sent given pipe ss i s' d l n r : core mem sent given pipe ss -> live (slot ss i) -> follows mem (slot ss i) d s' -> watch_kept (slot ss i) s' ->
  dispatched sent given pipe i ss r (at_ i s' d l (ss_polled ss) n ss).
Proof. intros Hc Hl Hf Hk. split; [|by left]. by apply (served_at mem sent given pipe ss i s' d l n r). Qed.

Lemma dispatched_closed sent given pipe ss i s' d l n r : core mem sent given pipe ss -> live (slot ss i) -> follows mem (slot ss i) d s' ->
  s_type s' = SOCKET_TYPE_INVALID -> r.1 = SOCKET_CLOSE \/ r.1 = SOCKET_ERR ->
  dispatched sent given pipe i ss r (at_ i s' d l (unwatch i (slot ss i) (ss_polled ss)) n ss).
Proof.
  intros Hc Hl Hf Ht Hr. pose proof (in_pool_core _ _ _ _ _ i Hc) as Hp. split.
  - apply core_follows; try done; intros; rewrite unwatch_spec in * by done; tauto.
  - intros j Hj. destruct (decide (j = i)) as [->|Hne]; [by right|left; cbn; by apply unwatch_spec].
Qed.

Lemma follows_silent s d : live s -> shape s -> silent d -> follows mem s d s.
Proof. intros Hl Hs Hd. by apply follows_put. Qed.

(** Closing, whatever the result is made of. *)
Lemma wp_close_event sent given pipe ss i d l (f : socket_message -> Z * socket_message) : core mem sent given pipe ss -> live (slot ss i) -> silent d ->
  (forall m, (f m).1 = SOCKET_CLOSE \/ (f m).1 = SOCKET_ERR) ->
  wp (force_close i) (fun m => wp (mret (f m)) (dispatched sent given pipe i ss)) (at_ i (slot ss i) d l (ss_polled ss) 0 ss).
Proof.
  intros Hc Hl Hd Hf. pose proof (so_shape _ _ _ _ _ _ (co_slots _ _ _ _ _ Hc i)) as Hs. apply (at_force_close mem); [done|done|lia|]. intros d' s' Hf' Ht. ats.
  apply dispatched_closed; try done. eapply follows_trans; [done|done| |done]. by apply follows_silent.
Qed.

Lemma with_p_shape p s : shape s -> tcp s = true -> (exists n, p = PSize n /\ 0 < n) -> shape (with_p p s).
Proof. intros [] Ht Hp. split; try done. intros _. change (tcp (with_p p s)) with (tcp s). by rewrite Ht. Qed.

Lemma wp_int n (Q : Z -> socket_server -> Prop) ss : INT_MIN <= n <= INT_MAX -> Q n ss -> wp (int n) Q ss.
Proof. intros [H1%Z.leb_le H2%Z.leb_le] H. unfold wp, int, int_ok. by rewrite H1, H2. Qed.

Lemma forward_message_tcp_spec sent given pipe ss i : core mem sent given pipe ss -> live (slot ss i) -> tcp (slot ss i) = true ->
  short_reads (ss_script ss) ->
  wp (forward_message_tcp i) (dispatched sent given pipe i ss) (at_ i (slot ss i) [] (ss_script ss) (ss_polled ss) 0 ss).
Proof.
  intros Hc Hl Ht Hreads. pose proof (so_shape _ _ _ _ _ _ (co_slots _ _ _ _ _ Hc i)) as Hs. pose proof (sh_p _ Hs Hl) as Hp. rewrite Ht in Hp. destruct Hp as (sz & Ep & Hsz).
  unfold forward_message_tcp, p_size. apply wp_bind, at_get. rewrite Ep. ats. assert (Hd : forall fd, silent [CRead fd sz]) by (intros; by apply silent_call).
  destruct (a_ret a <? 0).
  - destruct (_ || _); ats; [apply dispatched_at; try done; [by apply follows_silent|by intros ?]|]. apply (wp_close_event sent given pipe ss i); try done. by right.
  - destruct (_ =? 0); [ats; apply (wp_close_event sent given pipe ss i); try done; by left|]. destruct (s_type (slot ss i) =? SOCKET_TYPE_HALFCLOSE); ats; [apply dispatched_at; try done; [by apply follows_silent|by intros ?]|].
    assert (Hput : forall k r, 0 < k -> dispatched sent given pipe i ss r (at_ i (with_p (PSize k) (slot ss i)) ([CRead (s_fd (slot ss i)) sz] ++ []) l' (ss_polled ss) 0 ss)).
    { intros k r Hk. apply dispatched_at; try done; [|by intros ?]. apply follows_put; try done. apply with_p_shape; try done. by eexists. }
    assert (Hlen : Z.of_nat (length (a_bytes a)) < 2 ^ 30) by (lazymatch goal with E : ss_script ss = _ |- _ => rewrite E in Hreads end; by apply Forall_cons in Hreads as [? _]).
    pose proof (length_take (a_bytes a) (Z.to_nat sz)) as Htake. set (n := length (take _ _)) in *. ats.
    destruct (Z.eqb_spec (Z.of_nat n) sz) as [En|]; ats; [apply wp_int; [unfold INT_MIN, INT_MAX; lia|]; ats; apply Hput; lia|].
    destruct (Z.ltb_spec MIN_READ_BUFFER sz) as [Eb|]; ats; [|apply dispatched_at; try done; [by apply follows_silent|by intros ?]].
    apply wp_int; [unfold INT_MIN, INT_MAX; lia|]. destruct (_ <? sz); ats; [|apply dispatched_at; try done; [by apply follows_silent|by intros ?]].
    apply Hput. unfold MIN_READ_BUFFER in Eb. apply Z.div_str_pos. lia.
Qed.

Lemma forward_message_udp_spec sent given pipe ss i : core mem sent given pipe ss -> live (slot ss i) ->
  wp (forward_message_udp i) (dispatched sent given pipe i ss) (at_ i (slot ss i) [] (ss_script ss) (ss_polled ss) 0 ss).
Proof.
  intros Hc Hl. pose proof (so_shape _ _ _ _ _ _ (co_slots _ _ _ _ _ Hc i)) as Hs. unfold forward_message_udp. ats.
  assert (Hd : silent [CRecvfrom (s_fd (slot ss i)) MAX_UDP_PACKAGE]) by (by apply silent_call).
  assert (Hsame : forall r, dispatched sent given pipe i ss r (at_ i (slot ss i) ([CRecvfrom (s_fd (slot ss i)) MAX_UDP_PACKAGE] ++ []) l' (ss_polled ss) 0 ss)).
  { intros r. apply dispatched_at; try done; [by apply follows_silent|by intros ?]. }
  destruct (a_ret a <? 0).
  - destruct (_ || _); ats; [apply Hsame|]. apply (wp_close_event sent given pipe ss i); try done. by right.
  - destruct (negb _); ats; apply Hsame.
Qed.

Lemma report_connect_spec sent given pipe ss i : core mem sent given pipe ss -> s_type (slot ss i) = SOCKET_TYPE_CONNECTING ->
  wp (report_connect i) (dispatched sent given pipe i ss) (at_ i (slot ss i) [] (ss_script ss) (ss_polled ss) 0 ss).
Proof.
  intros Hc Ht. assert (Hl : live (slot ss i)) by (split; by rewrite Ht). pose proof (so_shape _ _ _ _ _ _ (co_slots _ _ _ _ _ Hc i)) as Hs.
  unfold report_connect, so_error. ats. destruct (a_ret a =? 0); [|ats; apply (wp_close_event sent given pipe ss i); try done; by right]. ats.
  assert (Hf : forall d, silent d -> follows mem (slot ss i) d (with_type SOCKET_TYPE_CONNECTED (slot ss i))).
  { intros d Hd. apply follows_put; try done; [by apply with_type_shape|unfold open_type; cbn; tauto|by rewrite Ht]. }
  assert (Hk : watch_kept (slot ss i) (with_type SOCKET_TYPE_CONNECTED (slot ss i))) by (by intros ?).
  destruct (nomore_sending_data _); ats; (apply dispatched_at; try done); apply Hf; repeat (apply silent_cons; [done|]); done.
Qed.

Lemma core_alloc sent given pipe n ss : core mem sent given pipe ss -> ss_alloc_id ss <= n -> core mem sent given pipe (put_alloc n ss).
Proof.
  intros [A B C D E F] Hn. split; try done.
  - intros i. destruct (A i) as [A1 A2 A3 A4 A5 A6 A7]. change (slot (put_alloc n ss) i) with (slot ss i). split; try done. cbn. lia.
  - intros a r b Er. eapply request_ok_alloc; [exact Hn|by eapply B].
  - intros id Hid. apply E. cbn in Hid. lia.
Qed.

(** A connection that was accepted gets a socket that waits for [start]. *)
Lemma report_accept_spec sent given pipe ss i : core mem sent given pipe ss -> 0 <= ss_alloc_id ss -> ss_alloc_id ss + MAX_SOCKET < 2 ^ 31 ->
  wp (report_accept i) (fun r ss' => core mem sent given pipe ss' /\ ss_polled ss' = ss_polled ss /\ frame MAX_SOCKET ss ss') ss.
Proof.
  intros Hc H0 Hroom. unfold report_accept.
  assert (Hpos : 0 < MAX_SOCKET) by done. apply wp_bind, wp_get. apply wp_bind, wp_sys. intros a l E. set (ss1 := add_call _ _).
  assert (Hc1 : core mem sent given pipe ss1) by (apply (core_alike mem sent given pipe [CAccept (s_fd (slot ss i))] ss ss1 Hc); done).
  assert (Hscript : l `suffix_of` ss_script ss) by (rewrite E; by apply suffix_cons_r).
  destruct (a_ret a <? 0).
  { destruct (_ || _); wps; split_and!; try done; split; try done; cbn; lia. }
  apply wp_bind, reserve_id_spec; cbn [ss_alloc_id ss1 add_call put_script]; try done.
  - change (-1 <? 0) with true. cbv iota. apply wp_bind, wp_log, wp_ret. split_and!; [|done|split; try done; cbn; lia].
    apply (core_alike mem sent given pipe [CClose (a_ret a)] (put_alloc (ss_alloc_id ss + MAX_SOCKET) ss1)); try done. apply core_alloc; [done|cbn; lia].
  - intros id Hid Ht. rewrite (proj2 (Z.ltb_ge _ _)) by lia. set (j := HASH_ID id) in *. set (s := slot ss1 j) in *. set (ss2 := put_alloc id ss1).
    assert (Hs : shape s) by (eapply so_shape; apply Hc1). pose proof (reserved_shape id s Ht Hs) as Hr.
    change (put_slot j (with_reserved id s) ss2) with (at_ j (with_reserved id s) [] l (ss_polled ss) (ss_count ss) ss2).
    apply wp_bind, (wp_framed 0); [apply framed_new_fd|]. apply at_new_fd; [done|done|done|done|]. intros d l' Hd Hfr. destruct Hfr as [F1 F2 F3 F4 F5 F6]. cbn in F5.
    ats. split_and!; [|done|split; try done; cbn; [by etrans|lia]]. rewrite (app_nil_r d), <- (app_nil_r pipe).
    apply (core_fresh mem sent given pipe [] ss1 id j); try done; [cbn; lia|].
    assert (Hsh : shape (with_p (PSize MIN_READ_BUFFER) (with_type SOCKET_TYPE_PACCEPT (fresh (s_opaque (slot ss i)) id (a_ret a) PROTOCOL_TCP (with_reserved id s))))).
    { apply opened_shape; try done; [by left|by eexists]. }
    split; try done; [|by right]. destruct (sh_empty _ Hs) as (Eh & El & _); [intros [? _]; done|]. unfold own, front, direct_of. cbn. by rewrite Eh, El.
Qed.
End events.

(** ** The state between events *)

Section events2.
Context (mem : Z -> Z) (af_inet6 : Z).

Definition put_events (checkctrl : bool) (evs : list event) (index : Z) (ss : socket_server) : socket_server :=
  Server checkctrl (ss_alloc_id ss) evs index (ss_soi ss) (ss_slot ss) (ss_pipe ss) (ss_count ss) (ss_polled ss) (ss_script ss) (ss_calls ss).

Lemma wp_set_events checkctrl evs index (Q : unit -> socket_server -> Prop) ss : Q tt (put_events checkctrl evs index ss) -> wp (set_events checkctrl evs index) Q ss.
Proof. done. Qed.

Lemma wp_facts {A} (R : A -> socket_server -> Prop) (m : IO A) (Q : A -> socket_server -> Prop) ss :
  (forall a ss', m ss = Ret (Some (a, ss')) -> R a ss') -> wp m (fun a ss' => R a ss' -> Q a ss') ss -> wp m Q ss.
Proof. unfold wp. destruct (m ss) as [[[a ss']|]| | |]; auto. Qed.

(** The events that were not handled yet. *)
Definition waiting (ss : socket_server) : list event := drop (Z.to_nat (ss_event_index ss)) (ss_events ss).

(** Each event is for another socket, which the event pool watches. *)
Record ev_ok (ss : socket_server) : Prop := {
  ev_index : 0 <= ss_event_index ss <= Z.of_nat (length (ss_events ss));
  ev_nodup : NoDup (omap e_s (waiting ss));
  ev_polled : forall i, i ∈ omap e_s (waiting ss) -> i ∈ ss_polled ss }.

(** Rounds that an event may take, and all that there is to do. *)
Definition weight (e : event) : nat := if e_read e then 2 else 1.
Definition work (ss : socket_server) : nat := length (ss_pipe ss) + sum_list_with weight (waiting ss) + 129 * length (ss_script ss).

(** The handler of an event: the result, and the state after it, in which the event may wait
    once more. *)
Definition handled (sent : list (Z * tagged)) (given : list Z) (e : event) (i : Z) (ss : socket_server) (r : option (Z * socket_message)) (ss' : socket_server) : Prop :=
  exists ss1, core mem sent given (ss_pipe ss) ss1 /\ frame MAX_SOCKET ss ss1 /\ (forall j, j ∈ ss_polled ss -> j ∈ ss_polled ss1 \/ j = i /\ ss' = ss1) /\
    (ss' = ss1 \/ exists e', e_s e' = Some i /\ (r = None -> (weight e' < weight e)%nat) /\
       ss' = put_events (ss_checkctrl ss) (<[Z.to_nat (ss_event_index ss - 1) := e']> (ss_events ss)) (ss_event_index ss - 1) ss1).

Lemma frame_more k k' ss ss' : k <= k' -> frame k ss ss' -> frame k' ss ss'.
Proof. intros Hk []. split; try done. lia. Qed.

Lemma frame_count n k ss ss' : frame k (put_count n ss) ss' -> frame k ss ss'.
Proof. by intros []. Qed.

(** The handlers that end with what the program did. *)
Lemma handled_plain sent given e i ss r r' ss1 : dispatched mem sent given (ss_pipe ss) i ss r ss1 -> frame MAX_SOCKET ss ss1 -> handled sent given e i ss r' ss1.
Proof. intros [Hc Hp] Hf. exists ss1. split_and!; [done|done| |by left]. intros j Hj. destruct (Hp j Hj) as [?|[-> _]]; auto. Qed.

Lemma handled_again sent given e e' i ss r r' ss1 : dispatched mem sent given (ss_pipe ss) i ss r ss1 -> frame MAX_SOCKET ss ss1 ->
  r.1 <> SOCKET_CLOSE -> r.1 <> SOCKET_ERR -> e_s e' = Some i -> (r' = None -> (weight e' < weight e)%nat) ->
  handled sent given e i ss r' (put_events (ss_checkctrl ss1) (<[Z.to_nat (ss_event_index ss1 - 1) := e']> (ss_events ss1)) (ss_event_index ss1 - 1) ss1).
Proof.
  intros [Hc Hp] Hf H1 H2 He Hw. exists ss1. split_and!; [done|done| |].
  - intros j Hj. destruct (Hp j Hj) as [?|[_ [?|?]]]; [by left|done..].
  - right. exists e'. destruct Hf as [_ -> -> -> _ _]. by split_and!.
Qed.

Lemma dispatch_event_spec sent given e i ss : core mem sent given (ss_pipe ss) ss -> i ∈ ss_polled ss -> e_s e = Some i ->
  0 <= ss_alloc_id ss -> ss_alloc_id ss + MAX_SOCKET < 2 ^ 31 -> short_reads (ss_script ss) ->
  wp (dispatch_event mem e i) (handled sent given e i ss) ss.
Proof.
  intros Hc Hi He H0 Hroom Hreads. unfold dispatch_event. cbv zeta.
  pose proof (co_slots _ _ _ _ _ Hc i) as Hslot. pose proof (so_watched _ _ _ _ _ _ Hslot Hi) as (Hl & W1 & W2). pose proof (so_shape _ _ _ _ _ _ Hslot) as Hs.
  assert (Hid : s_id (slot ss i) <> 0) by (apply Hslot, Hl). assert (Hpos : 0 <= MAX_SOCKET) by done.
  unfold socket_lock_init. apply wp_bind, wp_set_count, wp_bind, wp_get. change (slot (put_count 0 ss) i) with (slot ss i). set (s := slot ss i) in *.
  set (ss0 := put_count 0 ss). assert (Eat : ss0 = at_ i s [] (ss_script ss) (ss_polled ss) 0 ss).
  { unfold ss0. rewrite (at_start_used i ss Hid) at 1. done. }
  (* a handler that works on the socket alone *)
  assert (Hrun : forall (m : IO (Z * socket_message)) (f : Z * socket_message -> IO (option (Z * socket_message))),
    wp m (dispatched mem sent given (ss_pipe ss) i ss) (at_ i s [] (ss_script ss) (ss_polled ss) 0 ss) -> framed 0 m ->
    (forall r ss1, dispatched mem sent given (ss_pipe ss) i ss r ss1 -> frame MAX_SOCKET ss ss1 -> wp (f r) (handled sent given e i ss) ss1) ->
    wp (m ≫= f) (handled sent given e i ss) ss0).
  { intros m f Hm Hfr Hf. apply wp_bind, (wp_framed 0); [done|]. rewrite Eat. eapply wp_weaken; [exact Hm|]. intros r ss1 Hd Hfr1. apply Hf; [done|].
    eapply frame_more; [exact Hpos|]. by destruct Hfr1. }
  destruct (Z.eqb_spec (s_type s) SOCKET_TYPE_CONNECTING) as [T1|T1].
  { apply Hrun; [by apply report_connect_spec|auto with framed|]. intros r ss1 Hd Hf. apply wp_ret. by eapply handled_plain. }
  destruct (Z.eqb_spec (s_type s) SOCKET_TYPE_LISTEN) as [T2|T2].
  { apply wp_bind. eapply wp_weaken; [apply (report_accept_spec mem sent given (ss_pipe ss) ss0 i); [by eapply (core_alike mem sent given _ [] ss)|done|done]|].
    intros [ok result] ss1 (Hc1 & Hp1 & Hf1). apply wp_ret. exists ss1. split_and!; [done|by destruct Hf1| |by left]. intros j Hj. left. by rewrite Hp1. }
  rewrite (proj2 (Z.eqb_neq _ _) (proj1 Hl)). destruct (e_read e) eqn:Er.
  - apply Hrun.
    + change (s_protocol s =? PROTOCOL_TCP) with (tcp s). destruct (tcp s) eqn:Et; [by apply forward_message_tcp_spec|by apply forward_message_udp_spec].
    + apply framed_if; auto with framed.
    + intros [type result] ss1 Hd Hf. destruct (negb (s_protocol s =? PROTOCOL_TCP) && (type =? SOCKET_UDP)) eqn:Eu.
      * apply andb_prop in Eu as [_ ->%Z.eqb_eq]. apply wp_bind, wp_bind, wp_gets, wp_set_events, wp_ret. by eapply handled_again.
      * destruct (e_write e && negb (type =? SOCKET_CLOSE) && negb (type =? SOCKET_ERR)) eqn:Ew.
        -- apply andb_prop in Ew as [[_ Ew1%negb_true_iff%Z.eqb_neq]%andb_prop Ew2%negb_true_iff%Z.eqb_neq].
           apply wp_bind, wp_bind, wp_gets, wp_set_events, wp_ret. eapply handled_again; try done. intros _. unfold weight. cbn. rewrite Er. lia.
        -- apply wp_bind, wp_ret, wp_ret. by eapply handled_plain.
  - destruct (e_write e).
    + apply Hrun; [|auto with framed|intros [type result] ss1 Hd Hf; apply wp_ret; by eapply handled_plain].
      apply send_buffer_spec; [done|done|intros _; apply dispatched_at; try done; by apply follows_refl|]. intros _. split.
      * intros d' l' s' t r Ht Hk. rewrite app_nil_r. apply dispatched_at; try done; [by apply kept_follows|]. intros Hw. destruct Hk as [_ (Ety & _) _ _ _ _ _].
        unfold watched, live in *. by rewrite Ety.
      * intros d' l' s' r Hg Hr. rewrite app_nil_r. apply dispatched_closed; try done; [by apply gone_follows|apply Hg|by left].
    + destruct (e_error e); [|apply wp_ret; exists ss0; split_and!; [by eapply (core_alike mem sent given _ [] ss)|split; try done; cbn; lia|by left|by left]].
      (* an error *)
      assert (Hm : wp (error ← so_error (s_fd s); result ← force_close i; mret (SOCKET_ERR, with_data (match error with Some e => DErrno e | None => DText "Unknown error" end) result))
        (dispatched mem sent given (ss_pipe ss) i ss) (at_ i s [] (ss_script ss) (ss_polled ss) 0 ss)).
      { unfold so_error. ats. apply (wp_close_event mem sent given (ss_pipe ss) ss i); try done. by right. }
      assert (Hr2 : forall error, framed 0 (result ← force_close i; mret (SOCKET_ERR, with_data (match error with Some e => DErrno e | None => DText "Unknown error" end) result))).
      { intros error. apply framed_seq; auto with framed. }
      assert (Hend : wp ((error ← so_error (s_fd s); result ← force_close i; mret (SOCKET_ERR, with_data (match error with Some e => DErrno e | None => DText "Unknown error" end) result)) ≫= fun r => mret (Some r))
        (handled sent given e i ss) ss0).
      { apply Hrun; [done|by apply framed_seq; auto with framed|]. intros r ss1 Hd Hf. apply wp_ret. by eapply handled_plain. }
      unfold wp, mbind, io_bind in Hend |- *. destruct (so_error (s_fd s) ss0) as [[[error ss1]|]| | |]; try done. destruct (force_close i ss1) as [[[result ss2]|]| | |]; done.
Qed.
End events2.

(** ** The loop *)

Section loop.
Context (mem : Z -> Z) (af_inet6 : Z).

Record inv (sent : list (Z * tagged)) (given : list Z) (ss : socket_server) : Prop := {
  inv_core : core mem sent given (ss_pipe ss) ss;
  inv_alloc : 0 <= ss_alloc_id ss;
  inv_events : ev_ok ss }.

Lemma framed_ctrl ss r ss' : ctrl_cmd mem af_inet6 ss = Ret (Some (r, ss')) -> frame 0 (put_pipe (tail (ss_pipe ss)) ss) ss'.
Proof.
  unfold ctrl_cmd. unfold mbind at 1, io_bind at 1. cbn [gets]. destruct (ss_pipe ss) as [|q rest] eqn:Ep; [done|]. unfold mbind at 1, io_bind at 1. cbn [set_pipe modify tail].
  change (Server _ _ _ _ _ _ _ _ _ _ _) with (put_pipe rest ss). generalize (put_pipe rest ss). intros ss0. revert r ss'.
  lazymatch goal with |- forall r ss', ?m ss0 = _ -> _ => enough (Hm : framed 0 m) by (intros r ss'; apply Hm) end. clear ss Ep ss0.
  destruct q; frames.
Qed.

Lemma core_put_events sent given pipe checkctrl evs index ss : core mem sent given pipe ss -> core mem sent given pipe (put_events checkctrl evs index ss).
Proof. by intros []. Qed.

(** *** The events of a socket that was closed *)

Definition slots_of (evs : list event) : list Z := omap e_s evs.

Lemma clear_events_spec m id evs : NoDup (slots_of evs) ->
  sublist (slots_of (clear_events m id evs)) (slots_of evs) /\ (sum_list_with weight (clear_events m id evs) <= sum_list_with weight evs)%nat /\
  length (clear_events m id evs) = length evs.
Proof.
  induction evs as [|e evs IH]; [done|]. cbn [slots_of omap list_omap clear_events]. fold (slots_of evs). destruct (e_s e) as [i|] eqn:E.
  - intros [_ Hn]%NoDup_cons. destruct (IH Hn) as (A & B & C). destruct (_ && _).
    + cbn. split_and!; [by apply sublist_cons|unfold weight; cbn; lia|done].
    + cbn. rewrite E. fold (slots_of (clear_events m id evs)). split_and!; [by apply sublist_skip|lia|lia].
  - intros Hn. destruct (IH Hn) as (A & B & C). cbn. rewrite E. split_and!; [done|lia|lia].
Qed.

(** Its event is dropped. *)
Lemma clear_events_gone m id i evs : NoDup (slots_of evs) -> s_type (slot_sock m i) = SOCKET_TYPE_INVALID -> s_id (slot_sock m i) = id ->
  (forall j, j ∈ slots_of evs -> j <> i -> s_type (slot_sock m j) <> SOCKET_TYPE_INVALID) -> i ∉ slots_of (clear_events m id evs).
Proof.
  intros Hn Ht Hid Ho. induction evs as [|e evs IH]; [by intros ?%elem_of_nil|]. unfold slots_of in Hn. cbn [omap list_omap] in Hn. fold (slots_of evs) in Hn.
  cbn [clear_events]. destruct (e_s e) as [j|] eqn:E.
  - apply NoDup_cons in Hn as [Hj Hn]. destruct (decide (j = i)) as [->|Hne].
    + rewrite Ht, Hid, !Z.eqb_refl. exact Hj.
    + assert (Hlive : s_type (slot_sock m j) <> SOCKET_TYPE_INVALID) by (apply Ho; [unfold slots_of; cbn; rewrite E; by left|done]).
      rewrite (proj2 (Z.eqb_neq _ _) Hlive). cbn [andb]. unfold slots_of. cbn. rewrite E. intros [?|Hin]%elem_of_cons; [congruence|]. apply IH; [done| |done].
      intros k Hk. apply Ho. unfold slots_of. cbn. rewrite E. by right.
  - unfold slots_of. cbn. rewrite E. apply IH; [done|]. intros k Hk. apply Ho. unfold slots_of. cbn. by rewrite E.
Qed.

Lemma drop_take_app {A} n (a b : list A) : (n <= length a)%nat -> drop n (take n a ++ b) = b.
Proof. intros H. rewrite drop_app_le by (rewrite length_take; lia). rewrite drop_ge; [done|rewrite length_take; lia]. Qed.

(** What is left of a result that names the socket that was closed. *)
Lemma clear_closed_spec sent given r ss ss1 : ev_ok ss -> core mem sent given (ss_pipe ss1) ss1 -> still_watched r ss ss1 ->
  ss_events ss1 = ss_events ss -> ss_event_index ss1 = ss_event_index ss -> 0 <= ss_alloc_id ss1 ->
  wp (clear_closed_event r.2 r.1) (fun _ ss2 => inv sent given ss2 /\ frame 0 (put_events (ss_checkctrl ss2) (ss_events ss2) (ss_event_index ss2) ss1) ss2) ss1.
Proof.
  intros [Hix Hnd Hpol] Hc Hw Ee Ei Ha. assert (Hwait : waiting ss1 = waiting ss) by (unfold waiting; by rewrite Ee, Ei).
  unfold clear_closed_event. destruct (_ || _) eqn:Et.
  - apply wp_bind, wp_gets, wp_set_events. fold (waiting ss1). rewrite Hwait. set (n := Z.to_nat (ss_event_index ss1)).
    destruct (clear_events_spec (ss_slot ss1) (m_id r.2) (waiting ss) Hnd) as (Hsub & Hsum & Hlen).
    assert (Hn : (n <= length (ss_events ss1))%nat) by (unfold n; rewrite Ei, Ee; lia).
    split; [split; [by apply core_put_events|done|]|split; try done; cbn; lia].
    assert (Hw2 : waiting (put_events (ss_checkctrl ss1) (take n (ss_events ss1) ++ clear_events (ss_slot ss1) (m_id r.2) (waiting ss)) (ss_event_index ss1) ss1) =
      clear_events (ss_slot ss1) (m_id r.2) (waiting ss)) by (unfold waiting at 1; cbn; fold n; by apply drop_take_app).
    split; rewrite ?Hw2.
    + cbn. rewrite length_app, length_take, Hlen. unfold waiting. rewrite length_drop, <- Ee, <- Ei. fold n. unfold n in *. lia.
    + by eapply sublist_NoDup.
    + intros i Hi. assert (Hi' : i ∈ omap e_s (waiting ss)) by (by eapply elem_of_sublist). cbn [ss_polled put_events].
      destruct (Hw i (Hpol i Hi')) as [?|(_ & Hinv & Hid & Hid0)]; [done|]. exfalso. revert Hi. apply clear_events_gone; try done.
      intros j Hj Hne. destruct (Hw j (Hpol j Hj)) as [Hp|(_ & Hinvj & Hidj & _)]; [apply (so_watched _ _ _ _ _ _ (co_slots _ _ _ _ _ Hc j) Hp)|].
      exfalso. apply Hne. change (slot_sock (ss_slot ss1)) with (slot ss1) in *.
      rewrite <- (so_hash _ _ _ _ _ _ (co_slots _ _ _ _ _ Hc j)), <- (so_hash _ _ _ _ _ _ (co_slots _ _ _ _ _ Hc i)); congruence.
  - apply wp_ret. split; [split; [done|done|]|split; try done; cbn; lia]. apply orb_false_iff in Et as [E1%Z.eqb_neq E2%Z.eqb_neq].
    split; rewrite ?Hwait, ?Ee, ?Ei; [done|done|]. intros i Hi. destruct (Hw i (Hpol i Hi)) as [?|([?|?] & _)]; done.
Qed.
End loop.

Section poll.
Context (mem : Z -> Z) (af_inet6 : Z).

Lemma fresh_events_spec seen evs : NoDup (slots_of (fresh_events seen evs)) /\ (forall i, i ∈ slots_of (fresh_events seen evs) -> Some i ∉ seen) /\
  (forall e, e ∈ fresh_events seen evs -> e ∈ evs).
Proof.
  revert seen. induction evs as [|e evs IH]; intros seen; cbn [fresh_events]; [split_and!; [constructor|by intros i ?%elem_of_nil|done]|].
  destruct (bool_decide (e_s e ∈ seen)) eqn:Es.
  - destruct (IH seen) as (A & B & C). split_and!; [done|done|intros; right; auto].
  - apply bool_decide_eq_false in Es. destruct (IH (e_s e :: seen)) as (A & B & C). unfold slots_of. cbn [omap list_omap]. fold (slots_of (fresh_events (e_s e :: seen) evs)).
    split_and!; [| |intros x [->|Hx]%elem_of_cons; [by left|right; auto]].
    + destruct (e_s e) as [i|]; [|done]. apply NoDup_cons. split; [|done]. intros Hi. apply (B i Hi). by left.
    + destruct (e_s e) as [i|] eqn:E; [intros k [->|Hk]%elem_of_cons; [done|]|intros k Hk]; specialize (B k Hk); intros Hs; apply B; by right.
Qed.

Lemma sublist_slots evs evs' : sublist evs evs' -> sublist (slots_of evs) (slots_of evs').
Proof. unfold slots_of. induction 1 as [|x l l' _ IH|x l l' _ IH]; cbn; [done|by destruct (e_s x); [apply sublist_skip|]|by destruct (e_s x); [apply sublist_cons|]]. Qed.

Lemma sum_weight evs : (sum_list_with weight evs <= 2 * length evs)%nat.
Proof. induction evs as [|e evs IH]; cbn; [lia|]. unfold weight at 1. destruct (e_read e); lia. Qed.

(** What the event pool tells: events of sockets that it watches. *)
Lemma sp_wait_spec (Q : list event * errno_t -> socket_server -> Prop) ss :
  (forall evs e a l, ss_script ss = a :: l -> NoDup (slots_of evs) -> (forall i, i ∈ slots_of evs -> i ∈ ss_polled ss) -> (length evs <= 64)%nat ->
     Q (evs, e) (add_call CSpWait (put_script l ss))) -> wp sp_wait Q ss.
Proof.
  intros H. unfold sp_wait. apply wp_bind, wp_sys. intros a l E. apply wp_bind, wp_gets. cbv zeta. apply wp_ret. lazymatch goal with |- Q (?x, _) _ => set (evs := x) end.
  assert (Hevs : NoDup (slots_of evs) /\ (forall i, i ∈ slots_of evs -> i ∈ ss_polled ss) /\ (length evs <= 64)%nat).
  { unfold evs. destruct (_ <=? _); [split_and!; [constructor|by intros i ?%elem_of_nil|cbn; lia]|]. set (known := List.filter _ _).
    destruct (fresh_events_spec [] known) as (A & _ & C). assert (Hsub : sublist (take (Z.to_nat MAX_EVENT) (fresh_events [] known)) (fresh_events [] known)) by apply sublist_take.
    split_and!.
    - eapply sublist_NoDup; [exact A|]. by apply sublist_slots.
    - intros i (e & He & Ei)%list_elem_of_omap. eapply elem_of_sublist in He; [|exact Hsub]. apply C, list_elem_of_In, filter_In in He as [_ He]. rewrite Ei in He. by apply bool_decide_eq_true in He.
    - rewrite length_take. unfold MAX_EVENT. lia. }
  destruct Hevs as (A & B & C). by eapply H.
Qed.

(** *** One round *)

(** What a round leaves: either it returns, or there is less to do. *)
Definition round (sent : list (Z * tagged)) (given : list Z) (ss : socket_server) (r : option (Z * socket_message)) (ss' : socket_server) : Prop :=
  inv mem sent given ss' /\ ss_script ss' `suffix_of` ss_script ss /\ (r = None -> (work ss' < work ss)%nat).

Lemma waiting_cons ss e : 0 <= ss_event_index ss -> arr_lookup (ss_events ss) (ss_event_index ss) = Some e ->
  waiting ss = e :: drop (Z.to_nat (ss_event_index ss + 1)) (ss_events ss).
Proof.
  intros H0 E. rewrite arr_lookup_nonneg in E by done. unfold waiting. rewrite (drop_S _ e) by done. do 2 f_equal. lia.
Qed.

(** The event at the index. *)
Lemma event_round sent given ss e (ss0 := put_events (ss_checkctrl ss) (ss_events ss) (ss_event_index ss + 1) ss) : inv mem sent given ss -> ss_alloc_id ss + MAX_SOCKET < 2 ^ 31 ->
  short_reads (ss_script ss) ->
  arr_lookup (ss_events ss) (ss_event_index ss) = Some e ->
  wp (match e_s e with None => mret None | Some i => dispatch_event mem e i end) (round sent given ss) ss0.
Proof.
  intros [Hc H0 [Hix Hnd Hpol]] Hroom Hreads E. pose proof (waiting_cons ss e ltac:(lia) E) as Hw. pose proof (arr_lookup_lt _ _ _ E) as Hlt. rewrite Hw in Hnd, Hpol.
  set (rest := drop _ _) in *. assert (Hrest : waiting ss0 = rest) by done. cbn [omap list_omap] in Hnd, Hpol.
  assert (Hwork : work ss = (work ss0 + weight e)%nat) by (unfold work; rewrite Hw, Hrest; cbn; lia). assert (Hpos : (0 < weight e)%nat) by (unfold weight; destruct (e_read e); lia).
  destruct (e_s e) as [i|] eqn:Es.
  2:{ apply wp_ret. split_and!; [|done|intros _; lia]. split; [by apply core_put_events|done|]. split; [cbn; lia|done|done]. }
  apply NoDup_cons in Hnd as [Hni Hnd].
  eapply wp_weaken; [apply (dispatch_event_spec mem sent given e i ss0); [by apply core_put_events|apply Hpol; by left|done|done|done|done]|].
  intros r ss' (ss1 & Hc1 & Hf & Hp1 & Hend). destruct Hf as [F1 F2 F3 F4 F5 F6]. cbn in F1, F2, F3, F4, F5, F6.
  assert (Hpolled : forall j, j ∈ omap e_s rest -> j ∈ ss_polled ss1).
  { intros j Hj. destruct (Hp1 j) as [?|[-> _]]; [apply Hpol; by right|done|done]. }
  assert (Hw1 : waiting ss1 = rest) by (unfold waiting; by rewrite F3, F4). pose proof (suffix_length _ _ F5) as Hl5. cbn in Hl5. assert (Hwork1 : (work ss1 <= work ss0)%nat) by (unfold work; rewrite F1, Hw1, Hrest; cbn; lia).
  destruct Hend as [-> |(e' & Ee' & We' & ->)].
  - split_and!; [|done|intros _; lia]. split; [by rewrite F1|lia|]. split; rewrite ?Hw1; [rewrite F3, F4; lia|done|done].
  - set (ss2 := put_events _ _ _ _). assert (Hw2 : waiting ss2 = e' :: rest).
    { unfold ss2, waiting. cbn [ss_events ss_event_index put_events ss0]. replace (ss_event_index ss + 1 - 1) with (ss_event_index ss) by lia.
      rewrite (drop_S _ e') by (apply list_lookup_insert_eq; lia). rewrite drop_insert_lt by lia. unfold rest. do 2 f_equal. lia. }
    assert (Hi1 : i ∈ ss_polled ss1).
    { destruct (Hp1 i) as [?|[_ Eq]]; [apply Hpol; by left|done|]. exfalso. assert (Hlen : ss_event_index ss2 = ss_event_index ss1) by (unfold ss2 in *; by rewrite Eq).
      rewrite F4 in Hlen. cbn in Hlen. lia. }
    split_and!; [|done|].
    + split; [apply core_put_events; change (ss_pipe ss2) with (ss_pipe ss1); by rewrite F1|cbn; lia|]. split; rewrite ?Hw2; cbn [omap list_omap]; rewrite ?Ee'.
      * cbn. rewrite length_insert. lia.
      * by apply NoDup_cons.
      * intros j [->|Hj]%elem_of_cons; [done|by apply Hpolled].
    + intros Hr. specialize (We' Hr). unfold work. rewrite Hw2. cbn [sum_list_with]. unfold work in Hwork1, Hwork. rewrite Hw1 in Hwork1. rewrite Hrest in Hwork, Hwork1. cbn in *. lia.
Qed.

Lemma poll_step_spec sent given ss : inv mem sent given ss -> ss_alloc_id ss + MAX_SOCKET < 2 ^ 31 -> short_reads (ss_script ss) ->
  wp (poll_step mem af_inet6) (round sent given ss) ss.
Proof.
  intros Hinv Hroom Hreads. assert (Hpos : 0 <= MAX_SOCKET) by done. unfold poll_step. apply wp_bind, wp_gets.
  destruct (ss_checkctrl ss && negb (bool_decide (ss_pipe ss = []))) eqn:Ectrl.
  - apply andb_prop in Ectrl as [_ Hne%negb_true_iff%bool_decide_eq_false]. destruct Hinv as [Hc H0 Hev].
    apply wp_bind, (wp_facts (fun r ss' => frame 0 (put_pipe (tail (ss_pipe ss)) ss) ss')); [apply framed_ctrl|].
    eapply wp_weaken; [by apply (ctrl_cmd_spec mem af_inet6 sent given)|]. intros [type result] ss1 [Hc1 Hw] [F1 F2 F3 F4 F5 F6]. cbn in F1, F2, F3, F4, F5, F6.
    rewrite <- F1 in Hc1. destruct (Z.eqb_spec type (-1)) as [->|Ht]; cbn [negb].
    + apply wp_ret. assert (Hwait : waiting ss1 = waiting ss) by (unfold waiting; by rewrite F3, F4). destruct Hev as [Hix Hnd Hpol]. split_and!; [|done|].
      * split; [done|lia|]. split; rewrite ?Hwait, ?F3, ?F4; [done|done|]. intros i Hi. destruct (Hw i (Hpol i Hi)) as [?|([?|?] & _)]; done.
      * intros _. apply suffix_length in F5. unfold work. rewrite Hwait, F1. destruct (ss_pipe ss); [done|]. cbn [tail length]. lia.
    + apply wp_bind. eapply wp_weaken; [apply (clear_closed_spec mem sent given (type, result) ss ss1); try done; lia|].
      intros _ ss2 [Hi2 [G1 G2 G3 G4 G5 G6]]. apply wp_ret. cbn in G5. split_and!; [done|by etrans|done].
  - apply wp_bind, wp_set_events. set (ss1 := put_events false _ _ _).
    assert (Hinv1 : inv mem sent given ss1) by (destruct Hinv as [Hc H0 []]; split; [by apply core_put_events|done|done]).
    apply wp_bind.
    assert (Hgo : forall ss2, inv mem sent given ss2 -> ss_alloc_id ss2 = ss_alloc_id ss -> ss_script ss2 `suffix_of` ss_script ss -> (work ss2 <= work ss)%nat -> ss_event_index ss2 < Z.of_nat (length (ss_events ss2)) ->
      wp (ss ← gets (fun ss => ss);
          match arr_lookup (ss_events ss) (ss_event_index ss) with
          | None => bad
          | Some e => set_events (ss_checkctrl ss) (ss_events ss) (ss_event_index ss + 1);; match e_s e with None => mret None | Some i => dispatch_event mem e i end
          end) (round sent given ss) ss2).
    { intros ss2 Hi2 Ha2 Hs2 Hw2 Hlt. apply wp_bind, wp_gets. destruct (arr_lookup_is_Some (ss_events ss2) (ss_event_index ss2)) as [e E]; [destruct Hi2 as [_ _ []]; lia|].
      rewrite E. apply wp_bind, wp_set_events. eapply wp_weaken; [apply (event_round sent given ss2 e Hi2); [lia|by eapply short_suffix|done]|].
      intros r ss3 (A & B & C). split_and!; [done|by etrans|]. intros Hr. specialize (C Hr). lia. }
    destruct (Z.eqb_spec (ss_event_index ss) (Z.of_nat (length (ss_events ss)))) as [E|E].
    + apply wp_bind, sp_wait_spec. intros evs errno a l Escr Hnd Hpol Hlen. apply wp_bind, wp_set_events, wp_ret. set (ss2 := put_events true evs 0 _).
      assert (Hinv2 : inv mem sent given ss2).
      { destruct Hinv1 as [Hc1 H1 _]. split; [|done|].
        - apply core_put_events. by eapply (core_alike mem _ _ _ [CSpWait] ss1).
        - split; [cbn; lia|exact Hnd|exact Hpol]. }
      assert (Hold : waiting ss = []) by (unfold waiting; apply drop_ge; lia). pose proof (sum_weight evs) as Hsum.
      assert (Hwork : (work ss2 < work ss)%nat).
      { change (ss_script ss1) with (ss_script ss) in Escr. assert (Hw2 : waiting ss2 = evs) by done. unfold work. rewrite Hold, Hw2, Escr. change (ss_pipe ss2) with (ss_pipe ss).
        change (ss_script ss2) with l. cbn [length sum_list_with]. lia. }
      assert (Hsuf : ss_script ss2 `suffix_of` ss_script ss) by (change (ss_script ss) with (ss_script ss1); rewrite Escr; by apply suffix_cons_r).
      destruct evs as [|e evs].
      * destruct (bool_decide (errno = EINTR)); apply wp_ret; (split_and!; [done|done|done]).
      * apply Hgo; [done|done|done|lia|cbn; lia].
    + apply wp_ret. apply Hgo; [done|done|done|done|]. destruct Hinv as [_ _ []]. cbn. lia.
Qed.
End poll.

(** *** All rounds *)

Section rounds.
Context (mem : Z -> Z) (af_inet6 : Z).

(** The states in which the rounds of the loop begin. *)
Inductive polling (ss : socket_server) : socket_server -> Prop :=
  | polling_first : polling ss ss
  | polling_next ss' ss'' : polling ss ss' -> poll_step mem af_inet6 ss' = Ret (Some (None, ss'')) -> polling ss ss''.

Lemma polling_step ss ss1 ss' : poll_step mem af_inet6 ss = Ret (Some (None, ss1)) -> polling ss1 ss' -> polling ss ss'.
Proof. intros H. induction 1 as [|ss2 ss3 _ IH E]; [by eapply polling_next; [apply polling_first|]|by eapply polling_next]. Qed.

Lemma polling_inv ss ss' : polling ss ss' -> ss' = ss \/ exists ss1, poll_step mem af_inet6 ss = Ret (Some (None, ss1)) /\ polling ss1 ss'.
Proof.
  induction 1 as [|ss2 ss3 _ IH E]; [by left|right]. destruct IH as [->|(ss1 & E1 & H1)]; [exists ss3; split; [done|apply polling_first]|].
  exists ss1. split; [done|by eapply polling_next].
Qed.

(** When a round begins, an identifier for every slot is left before the counter wraps. *)
Definition id_room (ss : socket_server) : Prop := ss_alloc_id ss + MAX_SOCKET < 2 ^ 31.

Lemma poll_loop_spec sent given fuel : forall ss, inv mem sent given ss -> (work ss < fuel)%nat -> (forall ss', polling ss ss' -> id_room ss') ->
  short_reads (ss_script ss) ->
  wp (poll_loop mem af_inet6 fuel) (fun _ ss' => inv mem sent given ss' /\ ss_script ss' `suffix_of` ss_script ss) ss.
Proof.
  induction fuel as [|fuel IH]; intros ss Hinv Hwork Hroom Hreads; [lia|]. cbn [poll_loop]. apply wp_bind.
  apply (wp_facts (fun r ss' => poll_step mem af_inet6 ss = Ret (Some (r, ss')))); [done|].
  eapply wp_weaken; [apply (poll_step_spec mem af_inet6 sent given ss Hinv); [apply Hroom, polling_first|done]|].
  intros r ss' (Hi & Hs & Hw) E. destruct r as [r|]; [by apply wp_ret|]. specialize (Hw eq_refl).
  eapply wp_weaken; [apply (IH ss'); [done|lia| |by eapply short_suffix]|].
  - intros ss2 H2. apply Hroom. by eapply polling_step.
  - intros _ ss2 [Hi2 Hs2]. split; [done|by etrans].
Qed.

(** The rounds that [socket_server_poll] may take. *)
Definition poll_fuel (ss : socket_server) : nat :=
  length (ss_pipe ss) + (2 * (length (ss_events ss) + 64 * length (ss_script ss)) + length (ss_script ss)) + 1.

Lemma work_fuel ss : (work ss < poll_fuel ss)%nat.
Proof.
  unfold work, poll_fuel. pose proof (sum_weight (waiting ss)) as H. assert (Hl : (length (waiting ss) <= length (ss_events ss))%nat) by (unfold waiting; rewrite length_drop; lia). lia.
Qed.

Lemma poll_spec sent given ss : inv mem sent given ss -> (forall ss', polling ss ss' -> id_room ss') -> short_reads (ss_script ss) ->
  wp (socket_server_poll mem af_inet6) (fun _ ss' => inv mem sent given ss' /\ ss_script ss' `suffix_of` ss_script ss) ss.
Proof. intros Hinv Hroom Hreads. unfold socket_server_poll. apply wp_bind, wp_gets. fold (poll_fuel ss). apply poll_loop_spec; [done|apply work_fuel|done|done]. Qed.
End rounds.
