(* ===== verification/SocketApi.v ===== *)
(** The interface of the socket server: what the functions that any thread may call do to
    the sockets and the pipe. *)
From S2P Require Import Prelude SocketServer SocketWp SocketSend SocketInv SocketRequest SocketPoll.

#[local] Arguments Z.mul : simpl never.
#[local] Arguments Z.add : simpl never.
#[local] Opaque Z.to_nat.
#[local] Set Default Proof Using "Type".

(** ** Requests join the pipe *)

Section joining.
Context (mem : Z -> Z).

Lemma split_pipe (a b pipe : list request) r r' : pipe ++ [r'] = a ++ r :: b -> (exists b', pipe = a ++ r :: b') \/ r = r' /\ a = pipe.
Proof. intros E. destruct (split_new a b pipe [r'] r E) as [?|(Er & -> & _)]; [cbn; lia|by left|right]. by injection Er. Qed.

(** A request without a message for a stream. *)
Lemma core_append sent given r pipe ss : core mem sent given pipe ss -> opener r = None -> send_of r = None ->
  request_ok (ss_alloc_id ss) pipe r (slot ss (HASH_ID (request_id r))) -> core mem sent (given ++ buffers [r]) (pipe ++ [r]) ss.
Proof.
  intros [A B C D E F] Ho Hs Hr. assert (Hsends : sends (pipe ++ [r]) = sends pipe) by (rewrite sends_app; unfold sends at 2; cbn; by rewrite Hs, app_nil_r).
  assert (Hop : omap opener (pipe ++ [r]) = omap opener pipe) by (rewrite omap_app; cbn; by rewrite Ho, app_nil_r).
  split; rewrite ?Hop, ?Hsends; try done.
  - intros i. destruct (A i) as [A1 A2 A3 A4 A5 A6 A7]. split; try done; [by rewrite Hop|]. unfold pending. by rewrite Hsends.
  - intros a r' b Er. destruct (split_pipe _ _ _ _ _ Er) as [(b' & E')|[-> ->]]; [by eapply B|done].
  - rewrite F, buffers_app. solve_Permutation.
Qed.

(** A message for a stream: the count of its socket grows. *)
Lemma core_push sent given r pipe ss id m : core mem sent given pipe ss -> send_of r = Some (id, m) -> opener r = None -> request_id r = id ->
  let i := HASH_ID id in let s := slot ss i in
  used_by id s -> request_ok (ss_alloc_id ss) pipe r s -> tcp s = true -> open_type s -> pending id pipe < 0xffff ->
  core mem (sent ++ [(id, m)]) (given ++ buffers [r]) (pipe ++ [r]) (at_ i (with_sending (s_sending s + 1) s) [] (ss_script ss) (ss_polled ss) (ss_count ss) ss).
Proof.
  intros [A B C D E F] Es Ho Hrid i s [Hid Ht] Hr Htcp Hopen Hcnt.
  assert (Hop : omap opener (pipe ++ [r]) = omap opener pipe) by (rewrite omap_app; cbn; by rewrite Ho, app_nil_r).
  assert (Hsame : of_id id (sends (pipe ++ [r])) = of_id id (sends pipe) ++ [m]).
  { rewrite sends_app, of_id_app. f_equal. unfold sends, of_id. cbn. rewrite Es. cbn. by rewrite Z.eqb_refl. }
  assert (Hother : forall k, k <> id -> of_id k (sends (pipe ++ [r])) = of_id k (sends pipe) /\ of_id k (sent ++ [(id, m)]) = of_id k sent).
  { intros k Hk. rewrite sends_app, !of_id_app, (of_id_none k r) by (rewrite Es; intros m' [= ? _]; done). split; [apply app_nil_r|]. unfold of_id at 2. cbn.
    rewrite (proj2 (Z.eqb_neq id k)) by done. apply app_nil_r. }
  assert (Hj : forall j, j <> i -> s_id (slot ss j) <> id).
  { intros j Hj Ej. apply Hj. unfold i. rewrite <- Ej. symmetry. eapply so_hash; [apply A|]. pose proof (so_used _ _ _ _ _ _ (A i) Ht) as H0. fold s in H0. congruence. }
  split; cbn [ss_alloc_id ss_polled ss_calls ss_slot at_ app].
  - intros j. destruct (decide (j = i)) as [->|Hne].
    + rewrite at_slot. destruct (A i) as [A1 A2 A3 A4 A5 A6 A7]. fold s in A1, A2, A3, A4, A5, A6, A7. split; try done.
      * by apply with_sending_shape.
      * intros Hres. by destruct (reserved_not_open s Hres).
      * intros Hres _. destruct (A7 Hres Htcp) as [B1 B2]. change (s_id (with_sending _ s)) with (s_id s). rewrite Hid in *. unfold pending in *. rewrite Hsame, length_app. cbn [length s_sending with_sending]. lia.
    + rewrite at_slot_ne by done. destruct (A j) as [A1 A2 A3 A4 A5 A6 A7]. destruct (Hother (s_id (slot ss j)) (Hj j Hne)) as [H1 H2]. split; try done; rewrite ?Hop, ?H2; try done.
      unfold pending. by rewrite H1.
  - intros a r' b Er. destruct (split_pipe _ _ _ _ _ Er) as [(b' & E')|[-> ->]].
    + specialize (B a r' b' E'). destruct (decide (HASH_ID (request_id r') = i)) as [Ei|Ei]; [|by rewrite at_slot_ne]. rewrite Ei in *. rewrite at_slot. by destruct r'.
    + rewrite Hrid. fold i. rewrite at_slot. by destruct r.
  - by rewrite Hop.
  - intros k. specialize (D k). destruct (decide (k = id)) as [->|Hne].
    + fold i s in D. fold i. rewrite at_slot, Hsame, of_id_app. assert (Hm : of_id id [(id, m)] = [m]) by (unfold of_id; cbn; by rewrite Z.eqb_refl). rewrite Hm.
      assert (Hfl : flowing id s) by (split; [done|]; split; [|done]; split; [done|]; intros Hres; by destruct (reserved_not_open s Hres)).
      split; [|by intros []]. intros _. destruct D as [D _]. destruct (D Hfl) as (A0 & rest & E0 & S0 & R0). exists A0, (rest ++ [m]). split_and!; [done| |by intros H; rewrite (R0 H)].
      rewrite <- S0. change (lows (with_sending _ s)) with (lows s). by rewrite !app_assoc.
    + destruct (Hother k Hne) as [-> ->]. destruct (decide (HASH_ID k = i)) as [Ei|Ei]; [|by rewrite at_slot_ne]. rewrite Ei in *. rewrite at_slot. exact D.
  - intros k Hk. destruct (Hother k) as [_ ->]; [|by apply E]. pose proof (so_range _ _ _ _ _ _ (A i)) as Hra. fold s in Hra. lia.
  - rewrite F, buffers_app. pose proof (owned_insert (ss_slot ss) i (with_sending (s_sending s + 1) s)) as How. change (slot_sock (ss_slot ss) i) with s in How.
    change (own (with_sending _ s)) with (own s) in How. apply Permutation_app_inv_l in How. rewrite How. solve_Permutation.
Qed.

(** A message that nobody takes is freed. *)
Lemma core_refused sent given pipe b ss : core mem sent given pipe ss -> core mem sent (given ++ [b]) pipe (add_call (CFree b false) ss).
Proof. intros [A B C D E F]. split; try done. cbn. rewrite F. solve_Permutation. Qed.

(** The lock, or the count of [connect] calls for UDP, of a socket. *)
Lemma core_inplace sent given pipe ss i s' d l n : core mem sent given pipe ss -> s_id (slot ss i) <> 0 ->
  (exists u b, s' = with_udpconnecting u (with_lock b (slot ss i))) -> silent d -> core mem sent given pipe (at_ i s' d l (ss_polled ss) n ss).
Proof.
  intros Hc H0 (u & b & ->) [Hf Hw]. pose proof (co_slots _ _ _ _ _ Hc i) as [A1 A2 A3 A4 A5 A6 A7]. rewrite <- (app_nil_r given).
  apply (core_local mem sent sent given [] []); try done.
  - split; try done. by destruct A1; split.
  - by intros r ?%elem_of_nil.
  - intros w Hst. by rewrite Hw, app_nil_r.
  - by rewrite app_nil_r, Hf.
Qed.
End joining.

(** ** The functions *)

Section functions.
Context (mem : Z -> Z) (af_inet6 af_inet tcp_nodelay : Z) (sent : list (Z * tagged)) (given : list Z).
Abbreviation inv := (inv mem sent given).

(** More calls, and fewer answers. *)
Definition later (d : list call) (l : list answer) (n : Z) (ss : socket_server) : socket_server :=
  Server (ss_checkctrl ss) (ss_alloc_id ss) (ss_events ss) (ss_event_index ss) (ss_soi ss) (ss_slot ss) (ss_pipe ss) n (ss_polled ss) l (d ++ ss_calls ss).

Lemma inv_later d l n ss : inv ss -> silent d -> inv (later d l n ss).
Proof. intros [Hc H0 Hev] Hd. split; [by apply (core_alike mem sent given (ss_pipe ss) d ss)|done|by destruct Hev]. Qed.

Lemma inv_put_pipe r ss : opener r = None -> send_of r = None -> buffers [r] = [] -> inv ss ->
  request_ok (ss_alloc_id ss) (ss_pipe ss) r (slot ss (HASH_ID (request_id r))) -> inv (put_pipe (ss_pipe ss ++ [r]) ss).
Proof.
  intros Ho Hs Hb [Hc H0 Hev] Hr. split; [|done|by destruct Hev]. cbn [ss_pipe put_pipe]. apply core_put_pipe. rewrite <- (app_nil_r given), <- Hb. by apply core_append.
Qed.

Lemma wp_send_request r (Q : unit -> socket_server -> Prop) ss : Q tt (put_pipe (ss_pipe ss ++ [r]) ss) -> wp (send_request r) Q ss.
Proof. done. Qed.

(** [socket_server_exit], [_close], [_shutdown], [_start] and [_nodelay] write a request. *)
Lemma request_spec r ss : inv ss -> match r with RStart _ _ | RExit | RSetOpt _ _ _ => True | RClose id _ _ => id <= ss_alloc_id ss | _ => False end ->
  wp (send_request r) (fun _ => inv) ss.
Proof.
  intros Hinv Hr. apply wp_send_request. apply inv_put_pipe; try done; destruct r; try done. split; [done|]. intros [U1 U2] Hres.
  pose proof (so_reserved _ _ _ _ _ _ (co_slots _ _ _ _ _ (inv_core _ _ _ _ Hinv) (HASH_ID id)) Hres) as [_ Hin]. cbn [request_id] in *. by rewrite U1 in Hin.
Qed.

(** *** New sockets *)

Lemma put_slot_at i s ss : put_slot i s ss = at_ i s [] (ss_script ss) (ss_polled ss) (ss_count ss) ss.
Proof. done. Qed.

Lemma inv_alloc_more n ss : inv ss -> ss_alloc_id ss <= n -> inv (put_alloc n ss).
Proof. intros [Hc H0 Hev] Hn. split; [by apply core_alloc|cbn; lia|by destruct Hev]. Qed.

(** The slot that was reserved, with the request that opens it on its way. *)
Lemma inv_reserved id i r ss : inv ss -> HASH_ID id = i -> ss_alloc_id ss < id -> s_type (slot ss i) = SOCKET_TYPE_INVALID -> opener r = Some id ->
  inv (put_pipe (ss_pipe ss ++ [r]) (put_slot i (with_reserved id (slot ss i)) (put_alloc id ss))).
Proof.
  intros [Hc H0 Hev] Hi Hid Ht Ho. set (s := slot ss i) in *.
  assert (Hs : shape s) by (eapply so_shape; apply Hc). pose proof (reserved_shape id s Ht Hs) as Hr. split; [|cbn; lia|by destruct Hev].
  rewrite put_slot_at. cbn [ss_pipe put_pipe at_ put_alloc]. apply core_put_pipe.
  apply (core_fresh mem sent given (ss_pipe ss) [r] ss id i (with_reserved id s) [] (ss_script ss) (ss_count ss)); try done.
  split; try done; [by apply (shape_reserved mem _ Hr)|left; split; [done|by exists r]].
Qed.

Lemma wp_reserve (Q : Z -> socket_server -> Prop) ss : inv ss -> ss_alloc_id ss + MAX_SOCKET < 2 ^ 31 ->
  (forall ss', inv ss' -> Q (-1) ss') ->
  (forall id ss', 0 < id -> (forall r, opener r = Some id -> inv (put_pipe (ss_pipe ss' ++ [r]) ss')) -> Q id ss') -> wp reserve_id Q ss.
Proof.
  intros Hinv Hroom Hno Hyes. assert (Hpos : 0 < MAX_SOCKET) by done. apply reserve_id_spec; [apply Hinv|done| |].
  - apply Hno, inv_alloc_more; [done|lia].
  - intros id Hid Ht. pose proof (inv_alloc _ _ _ _ Hinv). apply Hyes; [lia|]. intros r Ho. apply (inv_reserved id (HASH_ID id) r ss); [done|done|lia|done|done].
Qed.

(** A socket that was reserved is opened by a request. *)
Lemma reserve_request (f : Z -> request) (fail : Z -> IO Z) ss : inv ss -> ss_alloc_id ss + MAX_SOCKET < 2 ^ 31 -> (forall id, opener (f id) = Some id) ->
  (forall ss', inv ss' -> wp (fail (-1)) (fun _ => inv) ss') ->
  wp (id ← reserve_id; if id <? 0 then fail id else send_request (f id);; mret id) (fun _ => inv) ss.
Proof.
  intros Hinv Hroom Hf Hfail. apply wp_bind, wp_reserve; [done|done| |].
  - intros ss' Hi. by apply Hfail.
  - intros id ss' Hid H. rewrite (proj2 (Z.ltb_ge _ _)) by lia. apply wp_bind, wp_send_request, wp_ret. by apply H.
Qed.

Lemma inv_log c ss : quiet c -> inv ss -> inv (add_call c ss).
Proof. intros Hq Hi. apply (inv_later [c] (ss_script ss) (ss_count ss) ss Hi). by apply silent_call. Qed.

Lemma connect_spec opaque addr port ss : inv ss -> ss_alloc_id ss + MAX_SOCKET < 2 ^ 31 -> wp (socket_server_connect opaque addr port) (fun _ => inv) ss.
Proof.
  intros Hinv Hroom. unfold socket_server_connect. destruct (_ <=? _); [by apply wp_ret|].
  by apply (reserve_request (fun id => ROpen id port opaque addr) (fun _ => mret (-1))).
Qed.

Lemma bind_spec opaque fd ss : inv ss -> ss_alloc_id ss + MAX_SOCKET < 2 ^ 31 -> wp (socket_server_bind opaque fd) (fun _ => inv) ss.
Proof. intros Hinv Hroom. by apply (reserve_request (fun id => RBind id fd opaque) (fun _ => mret (-1))). Qed.

(** The resolver finds an address if it says so. *)
Definition resolves (ss : socket_server) : Prop := forall a l, ss_script ss = a :: l -> a_ret a = 0 -> a_bytes a <> [].

Lemma later_start ss : ss = later [] (ss_script ss) (ss_count ss) ss.
Proof. by destruct ss. Qed.

Lemma later_sys c d l n ss (Q : answer -> socket_server -> Prop) : (forall a l', l = a :: l' -> Q a (later (c :: d) l' n ss)) -> wp (sys c) Q (later d l n ss).
Proof. intros H. apply wp_sys. intros a l' E. cbn in E. by apply (H a l' E). Qed.

Lemma later_log c d l n ss (Q : unit -> socket_server -> Prop) : Q tt (later (c :: d) l n ss) -> wp (log c) Q (later d l n ss).
Proof. done. Qed.

Lemma wp_do_bind host port (Q : Z * Z -> socket_server -> Prop) ss : resolves ss -> (forall r d l, silent d -> Q r (later d l (ss_count ss) ss)) -> wp (do_bind host port) Q ss.
Proof.
  intros Hres H. unfold do_bind. rewrite (later_start ss). apply wp_bind, later_sys. intros a l E.
  destruct (Z.eqb_spec (a_ret a) 0) as [Er|Er]; cbn [negb]; [|apply wp_ret, H; by apply silent_call].
  specialize (Hres a l E Er). destruct (a_bytes a) as [|family bs]; [done|]. apply wp_bind, later_sys. intros a1 l1 _.
  destruct (_ <? 0); [apply wp_ret, H; by apply silent_cons, silent_call|]. apply wp_bind, later_sys. intros a2 l2 _.
  destruct (_ =? -1); [apply wp_bind, later_log, wp_ret, H; by repeat (apply silent_cons; [done|])|]. apply wp_bind, later_sys. intros a3 l3 _.
  destruct (negb _); [apply wp_bind, later_log|]; apply wp_ret, H; by repeat (apply silent_cons; [done|]).
Qed.

Lemma listen_spec opaque addr port backlog ss : inv ss -> ss_alloc_id ss + MAX_SOCKET < 2 ^ 31 -> resolves ss ->
  wp (socket_server_listen opaque addr port backlog) (fun _ => inv) ss.
Proof.
  intros Hinv Hroom Hres. unfold socket_server_listen, do_listen. apply wp_bind, wp_bind, wp_do_bind; [done|]. intros [fd family] d l Hd.
  assert (Hrest : forall d' l' fd, silent d' -> wp (if fd <? 0 then mret (-1) else id ← reserve_id; if id <? 0 then log (CClose fd);; mret id else send_request (RListen id fd opaque);; mret id)
    (fun _ => inv) (later d' l' (ss_count ss) ss)).
  { intros d' l' fd' Hd'. destruct (fd' <? 0); [apply wp_ret; by apply inv_later|].
    apply (reserve_request (fun id => RListen id fd' opaque) (fun id => log (CClose fd');; mret id)); [by apply inv_later|done|done|].
    intros ss' Hi. apply wp_bind, wp_log, wp_ret. by apply inv_log. }
  destruct (fd <? 0) eqn:Ef; [apply wp_ret; by apply Hrest|]. apply wp_bind, later_sys. intros a l' E. destruct (_ =? -1).
  - apply wp_bind, later_log, wp_ret. apply (Hrest (CClose fd :: CListen fd backlog :: d) l' (-1)). by repeat (apply silent_cons; [done|]).
  - apply wp_ret. apply (Hrest (CListen fd backlog :: d) l'). by apply silent_cons.
Qed.

Lemma udp_spec opaque addr port ss : inv ss -> ss_alloc_id ss + MAX_SOCKET < 2 ^ 31 -> resolves ss -> wp (socket_server_udp af_inet opaque addr port) (fun _ => inv) ss.
Proof.
  intros Hinv Hroom Hres. unfold socket_server_udp.
  assert (Hrest : forall d' l' (r : Z * Z), silent d' -> wp (let '(fd, family) := r in
      if fd <? 0 then mret (-1) else id ← reserve_id; if id <? 0 then log (CClose fd);; mret (-1) else send_request (RUdp id fd family opaque);; mret id)
    (fun _ => inv) (later d' l' (ss_count ss) ss)).
  { intros d' l' [fd family] Hd'. destruct (fd <? 0); [apply wp_ret; by apply inv_later|].
    apply (reserve_request (fun id => RUdp id fd family opaque) (fun _ => log (CClose fd);; mret (-1))); [by apply inv_later|done|done|].
    intros ss' Hi. apply wp_bind, wp_log, wp_ret. by apply inv_log. }
  apply wp_bind. destruct (_ || _); [apply wp_do_bind; [done|]; intros r d l Hd; by apply Hrest|].
  rewrite (later_start ss). apply wp_bind, later_sys. intros a l E. apply wp_ret. apply (Hrest [CSocket af_inet] l (a_ret a, af_inet)). by apply silent_call.
Qed.

(** *** The lock *)

Lemma inv_at i s' d l n ss : inv ss -> core mem sent given (ss_pipe ss) (at_ i s' d l (ss_polled ss) n ss) -> inv (at_ i s' d l (ss_polled ss) n ss).
Proof. intros [_ H0 Hev] Hc. split; [done|done|by destruct Hev]. Qed.

Lemma wp_used {A} i (m : IO A) (Q : A -> socket_server -> Prop) ss : s_id (slot ss i) <> 0 ->
  wp m Q (at_ i (slot ss i) [] (ss_script ss) (ss_polled ss) (ss_count ss) ss) -> wp m Q ss.
Proof. intros H0. by rewrite <- at_start_used. Qed.

(** Taking the lock for a direct write, and giving it back. *)
Lemma try_direct_spec id ss : inv ss -> 1 <= id ->
  wp (try_direct id) (fun _ => inv) ss.
Proof.
  intros Hinv Hid. unfold try_direct, socket_lock_init. apply wp_bind, wp_set_count, wp_bind, wp_get. change (slot (put_count 0 ss) (HASH_ID id)) with (slot ss (HASH_ID id)).
  assert (Hi0 : inv (put_count 0 ss)) by (by apply (inv_later [] (ss_script ss) 0 ss Hinv)).
  destruct (can_direct_write _ _) eqn:Ec; [|by apply wp_ret]. unfold can_direct_write in Ec. apply andb_prop in Ec as [[[Ei%Z.eqb_eq _]%andb_prop _]%andb_prop _].
  set (i := HASH_ID id) in *. assert (H0 : s_id (slot ss i) <> 0) by lia. apply (wp_used i); [done|]. change (ss_count (put_count 0 ss)) with 0. unfold socket_trylock. ats. cbn [Z.eqb]. ats.
  destruct (s_dw_lock _); ats.
  - change (at_ i _ [] _ _ _ (put_count 0 ss)) with (at_ i (slot ss i) [] (ss_script ss) (ss_polled ss) 0 ss). apply inv_at; [done|].
    apply core_inplace; try done; [apply Hinv|]. exists (s_udpconnecting (slot ss i)), (s_dw_lock (slot ss i)). by destruct (slot ss i).
  - change (at_ i _ [] _ _ _ (put_count 0 ss)) with (at_ i (with_lock true (slot ss i)) [] (ss_script ss) (ss_polled ss) (0 + 1) ss). apply inv_at; [done|].
    apply core_inplace; try done; [apply Hinv|]. exists (s_udpconnecting (slot ss i)), true. by destruct (slot ss i).
Qed.

(** [socket_unlock] by the thread that holds the lock. *)
Definition unlock (id : Z) : IO unit := set_count 1;; socket_unlock (HASH_ID id).

Lemma unlock_spec id ss : inv ss -> 1 <= id -> s_id (slot ss (HASH_ID id)) = id -> wp (unlock id) (fun _ => inv) ss.
Proof.
  intros Hinv Hid Hl. unfold unlock. set (i := HASH_ID id) in *. assert (H0 : s_id (slot ss i) <> 0) by lia.
  apply wp_bind, wp_set_count. apply (wp_used i); [done|]. change (ss_count (put_count 1 ss)) with 1. apply at_socket_unlock; [lia|]. cbn [Z.eqb Pos.eqb].
  change (at_ i _ [] _ _ _ (put_count 1 ss)) with (at_ i (with_lock false (slot ss i)) [] (ss_script ss) (ss_polled ss) (1 - 1) ss). apply inv_at; [done|].
  apply core_inplace; try done; [apply Hinv|]. exists (s_udpconnecting (slot ss i)), false. by destruct (slot ss i).
Qed.

(** *** UDP *)

Lemma udp_connect_spec id addr port ss : inv ss -> wp (socket_server_udp_connect af_inet6 af_inet id addr port) (fun _ => inv) ss.
Proof.
  intros Hinv. unfold socket_server_udp_connect. set (i := HASH_ID id). apply wp_bind, wp_get. destruct (_ || _) eqn:Eu; [by apply wp_ret|].
  apply orb_false_iff in Eu as [Ei%negb_false_iff%Z.eqb_eq Et%Z.eqb_neq]. pose proof Hinv as [Hc _ _]. pose proof (co_slots _ _ _ _ _ Hc i) as Hslot.
  assert (H0 : s_id (slot ss i) <> 0) by (by apply Hslot). unfold socket_lock_init. apply (wp_used i); [done|]. ats.
  apply at_socket_lock; [lia|]. cbn [Z.eqb]. ats. cbn [s_id s_type with_lock]. rewrite Ei, Z.eqb_refl. rewrite (proj2 (Z.eqb_neq _ _) Et). cbn [negb orb]. ats.
  change (0 + 1) with 1. apply at_socket_unlock; [lia|]. cbn [Z.eqb Pos.eqb]. change (1 - 1) with 0. ats.
  set (s' := with_lock false _). set (ss1 := at_ _ _ _ _ _ _ _).
  assert (Hi1 : inv ss1).
  { apply inv_at; [done|]. apply core_inplace; try done. exists ((s_udpconnecting (slot ss i) + 1) mod 2 ^ 16), false. by destruct (slot ss i). }
  assert (Hend : forall protocol bs, protocol = PROTOCOL_UDP \/ protocol = PROTOCOL_UDPv6 ->
    wp (send_request (RSetUdp id (gen_udp_address protocol bs));; mret 0) (fun _ => inv) ss1).
  { intros protocol bs Hp. apply wp_bind, wp_send_request, wp_ret. apply inv_put_pipe; try done. by eexists _, _. }
  destruct (a_ret a <? 0); [by apply wp_ret|]. destruct (a_ret a =? af_inet); [apply Hend; by left|]. destruct (a_ret a =? af_inet6); [apply Hend; by right|by apply wp_ret].
Qed.
End functions.

(** ** Sending *)

Section sending.
Context (mem : Z -> Z) (sent : list (Z * tagged)) (given : list Z).

(** What the functions that send leave: the message was accepted, or freed. *)
Definition taken (id : Z) (m : tagged) (b r : Z) (ss : socket_server) : Prop :=
  if r =? 0 then inv mem (sent ++ [(id, m)]) (given ++ [b]) ss else inv mem sent (given ++ [b]) ss.

Lemma inv_count n ss : inv mem sent given ss -> inv mem sent given (put_count n ss).
Proof. intros [Hc H0 Hev]. split; [by apply (core_alike mem sent given (ss_pipe ss) [] ss)|done|by destruct Hev]. Qed.

(** The message joins the pipe. *)
Lemma send_queued_spec r id m ss : inv mem sent given ss -> send_of r = Some (id, m) -> opener r = None -> request_id r = id ->
  used_by id (slot ss (HASH_ID id)) -> request_ok (ss_alloc_id ss) (ss_pipe ss) r (slot ss (HASH_ID id)) ->
  tcp (slot ss (HASH_ID id)) = true -> open_type (slot ss (HASH_ID id)) ->
  wp (send_queued r id) (fun k ss' => k = 0 /\ inv mem (sent ++ [(id, m)]) (given ++ buffers [r]) ss') ss.
Proof.
  intros [Hc H0 Hev] Er Ho Hrid Hu Hr Htcp Hopen. unfold send_queued, inc_sending_ref. set (i := HASH_ID id) in *. pose proof Hu as [Hid Ht].
  pose proof (co_slots _ _ _ _ _ Hc i) as Hslot. assert (Hn0 : s_id (slot ss i) <> 0) by (by apply Hslot).
  assert (Hres : s_type (slot ss i) <> SOCKET_TYPE_RESERVE) by (intros E; by destruct (reserved_not_open _ E)).
  destruct (so_count _ _ _ _ _ _ Hslot Hres Htcp) as [C1 C2]. rewrite Hid in C1, C2. assert (Hp : 0 <= pending id (ss_pipe ss)) by (unfold pending; lia).
  apply (wp_used i); [done|]. ats. unfold tcp in Htcp. rewrite Htcp. cbn [negb]. rewrite C1, count_shiftr, Z.eqb_refl, count_land by lia.
  destruct (Z.eqb_spec (pending id (ss_pipe ss)) 0xffff) as [|Hlt]; [exact I|]. ats. apply wp_send_request, wp_ret. split; [done|].
  split; [|done|by destruct Hev]. cbn [ss_pipe put_pipe at_]. apply core_put_pipe. rewrite <- C1. apply (core_push mem sent given r (ss_pipe ss) ss id m); try done; lia.
Qed.

Lemma wp_refused id b sz (Q : bool -> socket_server -> Prop) ss : 0 <= sz ->
  (~ used_by id (slot ss (HASH_ID id)) -> Q true (add_call (CFree b false) ss)) -> (used_by id (slot ss (HASH_ID id)) -> Q false ss) -> wp (refused id b sz) Q ss.
Proof.
  clear mem. intros Hsz Hno Hyes. unfold refused, free_buffer. apply wp_bind, wp_get. unfold used_by in *.
  destruct (Z.eqb_spec (s_id (slot ss (HASH_ID id))) id) as [Ei|Ei]; cbn [negb orb].
  - destruct (Z.eqb_spec (s_type (slot ss (HASH_ID id))) SOCKET_TYPE_INVALID) as [Et|Et]; [|apply wp_ret; auto].
    apply wp_bind, wp_bind, wp_send_object_init; [done|]. wps. apply Hno. tauto.
  - apply wp_bind, wp_bind, wp_send_object_init; [done|]. wps. apply Hno. tauto.
Qed.

Lemma inv_refused b ss : inv mem sent given ss -> inv mem sent (given ++ [b]) (add_call (CFree b false) ss).
Proof. intros [Hc H0 Hev]. split; [by apply core_refused|done|by destruct Hev]. Qed.

(** A direct write has taken [n] bytes of a message. *)
Definition direct_kept (b sz n : Z) (s : socket) : socket := if n =? sz then s else with_dw b sz n s.

Lemma core_direct pipe ss i id b sz n d l k : core mem sent given pipe ss -> s_id (slot ss i) = id -> HASH_ID id = i -> s_type (slot ss i) = SOCKET_TYPE_CONNECTED ->
  tcp (slot ss i) = true -> nomore_sending_data (slot ss i) = true -> b <> 0 -> 0 <= n <= sz ->
  written id d = SocketServer.load mem b n -> (forall id', id' <> id -> written id' d = []) -> freed d = (if n =? sz then [b] else []) ->
  core mem (sent ++ [(id, (false, (b, sz)))]) (given ++ [b]) pipe (at_ i (direct_kept b sz n (slot ss i)) d l (ss_polled ss) k ss).
Proof.
  intros Hc Hid Hi Ht Htcp Hno Hb Hn Hw Hwo Hf. set (s := slot ss i) in *. pose proof (co_slots _ _ _ _ _ Hc i) as Hslot. fold s in Hslot.
  assert (Hl : live s) by (split; by rewrite Ht). pose proof (so_shape _ _ _ _ _ _ Hslot) as Hs. assert (Hn0 : s_id s <> 0) by (apply Hslot, Hl).
  unfold nomore_sending_data, send_buffer_empty in Hno. apply andb_prop in Hno as [[[Eh%bool_decide_eq_true El%bool_decide_eq_true]%andb_prop Ed%Z.eqb_eq]%andb_prop Es%Z.eqb_eq].
  destruct (so_count _ _ _ _ _ _ Hslot (proj2 Hl) Htcp) as [C1 C2]. rewrite Hid in C1, C2. assert (Hp : 0 <= pending id pipe) by (unfold pending; lia). rewrite C1, count_land in Es by lia.
  assert (Hpipe : of_id id (sends pipe) = []) by (apply length_zero_iff_nil; unfold pending in Es; lia).
  set (s' := direct_kept b sz n s). assert (Hsame : s_id s' = s_id s /\ s_type s' = s_type s /\ s_protocol s' = s_protocol s /\ s_sending s' = s_sending s /\ s_high s' = [] /\ s_low s' = []).
  { unfold s', direct_kept. destruct (n =? sz); by split_and!. }
  destruct Hsame as (S1 & S2 & S3 & S4 & S5 & S6).
  assert (Hfront : SocketServer.load mem b n ++ front mem s' = SocketServer.load mem b sz /\ own s ++ [b] ≡ₚ freed d ++ own s').
  { rewrite Hf. unfold front, direct_of, own, s', direct_kept. destruct (Z.eqb_spec n sz) as [->|Hne]; cbn; rewrite ?Eh, ?El, ?Ed; cbn; rewrite ?app_nil_r; [done|].
    rewrite (proj2 (Z.eqb_neq b 0)) by done. by rewrite (load_split mem b sz n) by lia. }
  destruct Hfront as [Hfront Hown].
  assert (Hq : of_id id [(id, (false, (b, sz)))] = [(false, (b, sz))]) by (unfold of_id; cbn; by rewrite Z.eqb_refl).
  apply (core_local mem sent (sent ++ [(id, (false, (b, sz)))]) given [b] [] pipe ss i s'); fold s; try done.
  - destruct Hslot as [A1 A2 A3 A4 A5 A6 A7]. split; rewrite ?S1, ?S2, ?S4; try done.
    + unfold s', direct_kept. destruct (n =? sz); [done|]. destruct A1 as [B1 B2 B3 B4 B5 B6 B7 B8]. by split.
    + intros Hin. specialize (A5 Hin). unfold watched, live in *. by rewrite S2.
    + by rewrite Ht.
    + unfold tcp. rewrite S3. exact A7.
  - by intros r ?%elem_of_nil.
  - intros id' Hid'. rewrite S1, Hid in Hid'. split; [by apply Hwo|]. rewrite of_id_app. unfold of_id at 2. cbn. rewrite (proj2 (Z.eqb_neq id id')) by done. apply app_nil_r.
  - intros w [H1 _]. rewrite S1, Hid in *. cbn [app] in H1. rewrite Hw, of_id_app, Hq, Hpipe in *. destruct H1 as (A & rest & E & S & R); [by split|]. split; [|intros []; unfold flowing, tcp, live; by rewrite S1, S2, S3].
    intros _. exists (A ++ [(false, (b, sz))]), []. rewrite R in S by (by rewrite Ht). unfold lows in *. rewrite El in S. rewrite S6. cbn in S |- *. rewrite !app_nil_r in *. split_and!; [|by rewrite S|done].
    rewrite <- app_assoc, Hfront, bytes_of_app, <- E. unfold front, direct_of. rewrite Eh, Ed. cbn. unfold bytes_of, contents. cbn. by rewrite !app_nil_r.
  - intros a r b' _ Hr. unfold request_ok, used_by, tcp, open_type in *. destruct r; rewrite ?S1, ?S2, ?S3; exact Hr.
Qed.

(** [socket_server_send]. *)
Lemma send_spec id b sz ss : inv mem sent given ss -> 0 <= sz -> b <> 0 ->
  (used_by id (slot ss (HASH_ID id)) -> tcp (slot ss (HASH_ID id)) = true /\ open_type (slot ss (HASH_ID id))) ->
  wp (socket_server_send mem id b sz) (taken id (false, (b, sz)) b) ss.
Proof.
  intros Hinv Hsz Hb Hu. unfold socket_server_send. apply wp_bind, wp_refused; [done|intros _; apply wp_ret; by apply inv_refused|]. intros U. destruct (Hu U) as [Htcp Hopen].
  set (i := HASH_ID id) in *. pose proof Hinv as [Hc H0 Hev]. pose proof (co_slots _ _ _ _ _ Hc i) as Hslot. pose proof U as [Hid Ht].
  assert (Hn0 : s_id (slot ss i) <> 0) by (by apply Hslot). pose proof (so_range _ _ _ _ _ _ Hslot) as Hra.
  assert (Hqueue : forall l n, wp (send_queued (RSend id sz b) id) (taken id (false, (b, sz)) b) (at_ i (slot ss i) [] l (ss_polled ss) n ss)).
  { intros l n. set (ss1 := at_ _ _ _ _ _ _ _). assert (Hi1 : inv mem sent given ss1).
    { apply inv_at; [done|]. apply core_inplace; try done. exists (s_udpconnecting (slot ss i)), (s_dw_lock (slot ss i)). by destruct (slot ss i). }
    assert (Es : slot ss1 (HASH_ID id) = slot ss i) by apply at_slot. eapply wp_weaken; [apply (send_queued_spec _ id (false, (b, sz)) ss1 Hi1); rewrite ?Es; try done|].
    - cbn. split_and!; try done; lia.
    - intros k ss' [-> H]. exact H. }
  unfold try_direct, socket_lock_init. apply wp_bind, wp_bind, wp_set_count. apply (wp_used i); [done|]. change (ss_count (put_count 0 ss)) with 0.
  change (at_ i ?s ?d ?l ?p ?n (put_count 0 ss)) with (at_ i s d l p n ss). fold i. change (slot (put_count 0 ss) i) with (slot ss i). ats.
  destruct (can_direct_write (slot ss i) id) eqn:Ec; [|ats; apply Hqueue].
  unfold socket_trylock. ats. cbn [Z.eqb]. ats. destruct (s_dw_lock (slot ss i)); ats; [apply Hqueue|]. change (0 + 1) with 1.
  unfold send_locked. fold i. apply wp_bind, at_get. change (can_direct_write (with_lock true (slot ss i)) id) with (can_direct_write (slot ss i) id). rewrite Ec.
  apply wp_bind, wp_send_object_init; [done|]. cbv beta iota zeta. change (s_protocol (with_lock true (slot ss i)) =? PROTOCOL_TCP) with (tcp (slot ss i)). rewrite Htcp.
  apply wp_bind, wp_bind, at_write; [done|]. intros a l' r El Hr. ats. set (n := match r with inl _ => 0 | inr n => n end).
  assert (Hn : 0 <= n <= sz) by (unfold n; destruct r; lia). assert (Hdata : match r with inl _ => [] | inr k => SocketServer.load mem b k end = SocketServer.load mem b n) by (by destruct r).
  rewrite Hdata. unfold can_direct_write in Ec. apply andb_prop in Ec as [[[_ Hno]%andb_prop Etype%Z.eqb_eq]%andb_prop _].
  (* unlocked, with the calls that were made *)
  assert (Hend : forall d k, written id d = SocketServer.load mem b n -> (forall id', id' <> id -> written id' d = []) -> freed d = (if n =? sz then [b] else []) ->
    inv mem (sent ++ [(id, (false, (b, sz)))]) (given ++ [b]) (at_ i (with_lock false (direct_kept b sz n (slot ss i))) d l' (ss_polled ss) k ss)).
  { intros d k Hw Hwo Hf. pose proof (core_direct (ss_pipe ss) ss i id b sz n d l' k Hc Hid eq_refl Etype Htcp Hno Hb Hn Hw Hwo Hf) as Hd. split; [|done|by destruct Hev].
    set (s1 := direct_kept b sz n (slot ss i)) in *. set (ss1 := at_ i s1 d l' (ss_polled ss) k ss) in *.
    assert (Es1 : slot ss1 i = s1) by apply at_slot. change (at_ i (with_lock false s1) d l' (ss_polled ss) k ss) with (at_ i (with_lock false s1) d l' (ss_polled ss1) k ss).
    assert (Eq : at_ i (with_lock false s1) d l' (ss_polled ss1) k ss = at_ i (with_lock false s1) [] l' (ss_polled ss1) k ss1) by (unfold ss1; by rewrite at_at). rewrite Eq.
    apply core_inplace; try done; rewrite Es1; [unfold s1, direct_kept; by destruct (n =? sz)|]. exists (s_udpconnecting s1), false. by destruct s1. }
  assert (Ew : written id [CWrite (s_id (with_lock true (slot ss i))) (s_fd (with_lock true (slot ss i))) (SocketServer.load mem b n)] = SocketServer.load mem b n).
  { cbn. by rewrite Hid, Z.eqb_refl. }
  assert (Ewo : forall id', id' <> id -> written id' [CWrite (s_id (with_lock true (slot ss i))) (s_fd (with_lock true (slot ss i))) (SocketServer.load mem b n)] = []).
  { intros id' Hne. cbn. by rewrite Hid, (proj2 (Z.eqb_neq id id')). }
  unfold direct_kept in Hend. destruct (Z.eqb_spec n sz) as [En|En]; ats; (apply at_socket_unlock; [lia|]); cbn [Z.eqb Pos.eqb]; ats; apply Hend; done.
Qed.

Lemma send_lowpriority_spec id b sz ss : inv mem sent given ss -> 0 <= sz -> b <> 0 ->
  (used_by id (slot ss (HASH_ID id)) -> tcp (slot ss (HASH_ID id)) = true /\ open_type (slot ss (HASH_ID id))) ->
  wp (socket_server_send_lowpriority id b sz) (taken id (true, (b, sz)) b) ss.
Proof.
  intros Hinv Hsz Hb Hu. unfold socket_server_send_lowpriority. apply wp_bind, wp_refused; [done|intros _; apply wp_ret; by apply inv_refused|]. intros U. destruct (Hu U) as [Htcp Hopen].
  pose proof Hinv as [Hc H0 Hev]. pose proof (co_slots _ _ _ _ _ Hc (HASH_ID id)) as Hslot. pose proof (so_range _ _ _ _ _ _ Hslot) as Hra. pose proof U as [Hid Ht].
  assert (Hn0 : s_id (slot ss (HASH_ID id)) <> 0) by (by apply Hslot).
  eapply wp_weaken; [apply (send_queued_spec (RSendLow id sz b) id (true, (b, sz)) ss Hinv); try done; cbn; split_and!; try done; lia|]. intros k ss' [-> H]. exact H.
Qed.
End sending.

Section datagrams.
Context (mem : Z -> Z) (sent : list (Z * tagged)) (given : list Z).

(** A call that sends for UDP, after which the message is freed, or none. *)
Lemma inv_freed b d i s l n ss : inv mem sent given ss -> s_id (slot ss i) <> 0 -> freed d = [b] -> (forall id, written id d = []) ->
  s = slot ss i -> inv mem sent (given ++ [b]) (at_ i s d l (ss_polled ss) n ss).
Proof.
  intros [Hc H0 Hev] Hn0 Hf Hw ->. split; [|done|by destruct Hev]. destruct (core_inplace mem sent given (ss_pipe ss) ss i (slot ss i) [] l n Hc Hn0) as [A B C D E F]; [|done|].
  - exists (s_udpconnecting (slot ss i)), (s_dw_lock (slot ss i)). by destruct (slot ss i).
  - split; cbn [ss_calls at_ ss_alloc_id ss_polled ss_pipe] in *; try done.
    + intros id. rewrite written_app, Hw, app_nil_r. apply D.
    + intros id Hid. rewrite written_app, Hw, app_nil_r. by apply E.
    + cbn [app] in F. rewrite F, freed_app, Hf. cbn [app ss_slot at_]. solve_Permutation.
Qed.

Lemma address_size_spec address n : address_size (default 0 (head address)) = Some n ->
  0 < n /\ exists t x, address = t :: x.
Proof.
  unfold address_size. destruct address as [|t x]; [done|]. cbn. destruct (t =? PROTOCOL_UDP); [intros [= <-]|destruct (t =? PROTOCOL_UDPv6); intros [= <-]]; (split; [done|by eexists _, _]).
Qed.

Lemma udp_send_spec id address b sz ss : inv mem sent given ss -> 0 <= sz ->
  (used_by id (slot ss (HASH_ID id)) -> tcp (slot ss (HASH_ID id)) = false /\ (s_type (slot ss (HASH_ID id)) = SOCKET_TYPE_RESERVE -> id ∈ omap udp_opener (ss_pipe ss))) ->
  wp (socket_server_udp_send mem id address b sz) (fun _ => inv mem sent (given ++ [b])) ss.
Proof.
  intros Hinv Hsz Hu. unfold socket_server_udp_send. apply wp_bind, wp_refused; [done|intros _; apply wp_ret; by apply inv_refused|]. intros U. specialize (Hu U).
  destruct (address_size _) as [addrsz|] eqn:Ea; [|unfold free_buffer; apply wp_bind, wp_bind, wp_send_object_init; [done|]; wps; by apply inv_refused].
  destruct (address_size_spec _ _ Ea) as (Hpos & t & x & ->). set (i := HASH_ID id) in *. pose proof Hinv as [Hc H0 Hev]. pose proof (co_slots _ _ _ _ _ Hc i) as Hslot. pose proof U as [Hid Ht].
  assert (Hn0 : s_id (slot ss i) <> 0) by (by apply Hslot). pose proof (so_range _ _ _ _ _ _ Hslot) as Hra.
  assert (Hqueue : forall s d l n, (exists u b, s = with_udpconnecting u (with_lock b (slot ss i))) -> silent d ->
    wp (send_request (RSendUdp id sz b (take (Z.to_nat addrsz) (t :: x)));; mret 0) (fun _ => inv mem sent (given ++ [b])) (at_ i s d l (ss_polled ss) n ss)).
  { intros s d l n Hs Hd. apply wp_bind, wp_send_request, wp_ret. split; [|done|by destruct Hev]. cbn [ss_pipe put_pipe at_]. apply core_put_pipe.
    change [b] with (buffers [RSendUdp id sz b (take (Z.to_nat addrsz) (t :: x))]). apply core_append; try done; [by apply core_inplace|]. cbn [request_id]. fold i. rewrite at_slot. cbn [request_ok ss_alloc_id at_]. split; [lia|]. split; [done|]. split.
    - destruct (Z.to_nat addrsz) eqn:En; [lia|by eexists _, _].
    - destruct Hs as (u & b' & ->). intros _. exact Hu. }
  assert (Hsame : exists u b, slot ss i = with_udpconnecting u (with_lock b (slot ss i))) by (exists (s_udpconnecting (slot ss i)), (s_dw_lock (slot ss i)); by destruct (slot ss i)).
  unfold try_direct, socket_lock_init. apply wp_bind, wp_bind, wp_set_count. apply (wp_used i); [done|]. change (ss_count (put_count 0 ss)) with 0.
  change (at_ i ?s ?d ?l ?p ?n (put_count 0 ss)) with (at_ i s d l p n ss). fold i. change (slot (put_count 0 ss) i) with (slot ss i). ats.
  destruct (can_direct_write (slot ss i) id) eqn:Ec; [|ats; by apply Hqueue].
  unfold socket_trylock. ats. cbn [Z.eqb]. ats. destruct (s_dw_lock (slot ss i)) eqn:El; ats; [by apply Hqueue|]. change (0 + 1) with 1.
  change (can_direct_write (with_lock true (slot ss i)) id) with (can_direct_write (slot ss i) id). rewrite Ec.
  apply wp_bind, wp_send_object_init; [done|]. cbv beta iota zeta. apply wp_bind, wp_udp_socket_address; [by eexists _, _|]. intros sa. apply wp_bind, at_sendto; [done|].
  intros d' l' k [Hf Hw] Hk. assert (Eunlock : with_lock false (with_lock true (slot ss i)) = slot ss i) by (destruct (slot ss i); cbn in El |- *; by rewrite El).
  destruct (0 <=? k); ats; (apply at_socket_unlock; [lia|]); cbn [Z.eqb Pos.eqb]; rewrite Eunlock; change (1 - 1) with 0; ats.
  - apply (inv_freed b _ i _ _ _ ss); [done|done|cbn; by rewrite app_nil_r, Hf|intros id'; cbn; by rewrite app_nil_r, Hw|done].
  - apply Hqueue; [done|]. by rewrite app_nil_r.
Qed.
End datagrams.
