(* ===== verification/SocketSystem.v ===== *)
(** The socket server as a whole: any calls of its interface, by any threads, with any
    answers of the operating system. *)
From S2P Require Import Prelude SocketServer SocketWp SocketSend SocketInv SocketRequest SocketPoll SocketApi.

#[local] Arguments Z.mul : simpl never.
#[local] Arguments Z.add : simpl never.
#[local] Set Default Proof Using "Type".

(** ** Calls of the interface *)

Inductive op :=
  | OConnect (opaque : Z) (addr : bytes) (port : Z)
  | OListen (opaque : Z) (addr : bytes) (port backlog : Z)
  | OBind (opaque fd : Z)
  | OUdp (opaque : Z) (addr : option bytes) (port : Z)
  | OSend (id buffer sz : Z)
  | OSendLow (id buffer sz : Z)
  | OUdpSend (id : Z) (address : bytes) (buffer sz : Z)
  | OUdpConnect (id : Z) (addr : bytes) (port : Z)
  | OLock (id : Z)
  | OUnlock (id : Z)
  | OStart (opaque id : Z)
  | OClose (opaque id : Z)
  | OShutdown (opaque id : Z)
  | ONodelay (id : Z)
  | OExit
  | OPoll.

(** A call and what it returned. [OLock] and [OUnlock] are the lock of a direct write, which
    another thread holds for a while. *)
Definition history : Type := list (op * Z).

Definition accepted_of (e : op * Z) : option (Z * tagged) :=
  match e with
  | (OSend id b sz, r) => if r =? 0 then Some (id, (false, (b, sz))) else None
  | (OSendLow id b sz, r) => if r =? 0 then Some (id, (true, (b, sz))) else None
  | _ => None
  end.
Definition accepted (h : history) : list (Z * tagged) := omap accepted_of h.

Definition handed_of (e : op * Z) : option Z :=
  match e.1 with OSend _ b _ | OSendLow _ b _ | OUdpSend _ _ b _ => Some b | _ => None end.
Definition handed (h : history) : list Z := omap handed_of h.

(** ** Answers are only taken *)

Definition shrinks {A} (m : IO A) : Prop := forall ss a ss', m ss = Ret (Some (a, ss')) -> ss_script ss' `suffix_of` ss_script ss.

Lemma framed_shrinks {A} k (m : IO A) : framed k m -> shrinks m.
Proof. intros H ss a ss' E. apply (H ss a ss' E). Qed.

Lemma shrinks_bind {A B} (m : IO A) (f : A -> IO B) : shrinks m -> (forall a, shrinks (f a)) -> shrinks (m ≫= f).
Proof.
  intros Hm Hf ss b ss'. unfold mbind, io_bind. specialize (Hm ss). destruct (m ss) as [[[a ss1]|]| | |]; try done. intros E.
  etrans; [by apply (Hf a ss1 b)|by apply (Hm a)].
Qed.

Lemma shrinks_modify f : (forall ss, ss_script (f ss) = ss_script ss) -> shrinks (modify f).
Proof. intros H ss u ss' [= _ <-]. by rewrite H. Qed.

Create HintDb shrinks.
#[export] Hint Extern 1 (shrinks _) => solve [eapply framed_shrinks; eauto 2 with framed] : shrinks.
#[export] Hint Extern 2 (shrinks (modify _)) => by apply shrinks_modify : shrinks.

Ltac shr := repeat first
  [ progress intros
  | solve [eauto 2 with shrinks]
  | apply shrinks_bind
  | lazymatch goal with |- shrinks (match ?x with _ => _ end) => destruct x end ].

Section calls.
Context (mem : Z -> Z) (af_inet6 af_inet : Z).

Lemma shrinks_send_request r : shrinks (send_request r).
Proof. by apply shrinks_modify. Qed.
Lemma shrinks_reserve_id : shrinks reserve_id.
Proof. unfold reserve_id. generalize (Z.to_nat MAX_SOCKET) as n. induction n; cbn [reserve_loop]; unfold set_alloc; shr. Qed.
Lemma shrinks_refused id b sz : shrinks (refused id b sz).
Proof. unfold refused, free_buffer. shr. Qed.
Lemma shrinks_try_direct id : shrinks (try_direct id).
Proof. unfold try_direct, socket_lock_init. shr. Qed.
Lemma shrinks_unlock id : shrinks (unlock id).
Proof. unfold unlock. shr. Qed.
Hint Resolve shrinks_send_request shrinks_reserve_id shrinks_refused shrinks_try_direct shrinks_unlock : shrinks.

Lemma shrinks_send_queued r id : shrinks (send_queued r id).
Proof. unfold send_queued, inc_sending_ref. shr. Qed.
Lemma shrinks_send_locked id b sz : shrinks (send_locked mem id b sz).
Proof. unfold send_locked. shr. Qed.
Lemma shrinks_do_bind host port : shrinks (do_bind host port).
Proof. unfold do_bind. shr. Qed.
Hint Resolve shrinks_send_queued shrinks_send_locked shrinks_do_bind : shrinks.

Lemma shrinks_send id b sz : shrinks (socket_server_send mem id b sz).
Proof. unfold socket_server_send. shr. Qed.
Lemma shrinks_udp_send id a b sz : shrinks (socket_server_udp_send mem id a b sz).
Proof. unfold socket_server_udp_send, free_buffer. shr. Qed.
Lemma shrinks_udp_connect id a port : shrinks (socket_server_udp_connect af_inet6 af_inet id a port).
Proof. unfold socket_server_udp_connect, socket_lock_init. shr. Qed.
Lemma shrinks_listen opaque a port backlog : shrinks (socket_server_listen opaque a port backlog).
Proof. unfold socket_server_listen, do_listen. shr. Qed.
Lemma shrinks_udp opaque a port : shrinks (socket_server_udp af_inet opaque a port).
Proof. unfold socket_server_udp. shr. Qed.
End calls.
#[export] Hint Resolve shrinks_send_request shrinks_reserve_id shrinks_refused shrinks_try_direct shrinks_unlock shrinks_send_queued
  shrinks_send shrinks_udp_send shrinks_udp_connect shrinks_listen shrinks_udp : shrinks.

Section system.
Context (mem : Z -> Z) (af_inet6 af_inet tcp_nodelay : Z).

Definition run (o : op) : IO Z :=
  match o with
  | OConnect opaque addr port => socket_server_connect opaque addr port
  | OListen opaque addr port backlog => socket_server_listen opaque addr port backlog
  | OBind opaque fd => socket_server_bind opaque fd
  | OUdp opaque addr port => socket_server_udp af_inet opaque addr port
  | OSend id b sz => socket_server_send mem id b sz
  | OSendLow id b sz => socket_server_send_lowpriority id b sz
  | OUdpSend id address b sz => socket_server_udp_send mem id address b sz
  | OUdpConnect id addr port => socket_server_udp_connect af_inet6 af_inet id addr port
  | OLock id => locked ← try_direct id; mret (if locked : bool then 1 else 0)
  | OUnlock id => unlock id;; mret 0
  | OStart opaque id => socket_server_start opaque id;; mret 0
  | OClose opaque id => socket_server_close opaque id;; mret 0
  | OShutdown opaque id => socket_server_shutdown opaque id;; mret 0
  | ONodelay id => socket_server_nodelay tcp_nodelay id;; mret 0
  | OExit => socket_server_exit;; mret 0
  | OPoll => r ← socket_server_poll mem af_inet6; mret r.1
  end.

(** The counter of identifiers does not wrap around: when a call begins, or a round of the loop
    of a poll, it is at least [MAX_SOCKET] below [2 ^ 31], so that there is an identifier left
    for every slot. *)
Definition ids_left (o : op) (ss : socket_server) : Prop :=
  match o with OPoll => forall ss', polling mem af_inet6 ss ss' -> id_room ss' | _ => id_room ss end.

(** What the callers keep to. A service sends to a socket when it is open, and with the call
    for its protocol; the size of a message is not negative, there is one; an identifier was
    given out before it is used; the lock is given back by the thread that took it; a host name
    that resolves has an address. *)
Definition contract (o : op) (ss : socket_server) : Prop :=
  match o with
  | OListen _ _ _ _ | OUdp _ _ _ => resolves ss
  | OSend id b sz | OSendLow id b sz => 0 <= sz /\ b <> 0 /\
      let s := slot ss (HASH_ID id) in used_by id s -> tcp s = true /\ open_type s
  | OUdpSend id _ _ sz => 0 <= sz /\
      let s := slot ss (HASH_ID id) in used_by id s -> tcp s = false /\ (s_type s = SOCKET_TYPE_RESERVE -> id ∈ omap udp_opener (ss_pipe ss))
  | OClose _ id | OShutdown _ id => id <= ss_alloc_id ss
  | OLock id => 1 <= id
  | OUnlock id => 1 <= id /\ s_id (slot ss (HASH_ID id)) = id /\ s_dw_lock (slot ss (HASH_ID id)) = true
  | _ => True
  end.

Definition allowed (o : op) (ss : socket_server) : Prop := ids_left o ss /\ contract o ss.

(** The states after calls that have returned. The script is what the operating system answers,
    as many answers as there are; no read gives [2 ^ 30] bytes. *)
Inductive reaches (script : list answer) : history -> socket_server -> Prop :=
  | reaches_create : short_reads script -> reaches script [] (socket_server_create script)
  | reaches_step h ss o r ss' : reaches script h ss -> allowed o ss -> run o ss = Ret (Some (r, ss')) -> reaches script (h ++ [(o, r)]) ss'.

Lemma allowed_room o ss : allowed o ss -> id_room ss.
Proof. intros [H _]. destruct o; try exact H. apply H, polling_first. Qed.

(** A call keeps the invariant. *)
Lemma run_inv h o ss : inv mem (accepted h) (handed h) ss -> short_reads (ss_script ss) -> allowed o ss ->
  wp (run o) (fun r ss' => inv mem (accepted (h ++ [(o, r)])) (handed (h ++ [(o, r)])) ss') ss.
Proof.
  intros Hinv Hreads Ha. pose proof (allowed_room o ss Ha) as Hroom. unfold id_room in Hroom. destruct Ha as [Hids Ha].
  enough (H : wp (run o) (fun r ss' => inv mem (accepted h ++ omap accepted_of [(o, r)]) (handed h ++ omap handed_of [(o, r)]) ss') ss).
  { eapply wp_weaken; [exact H|]. intros r ss' H'. unfold accepted, handed. rewrite !omap_app. exact H'. }
  assert (Hplain : forall m, (forall r, accepted_of (o, r) = None) -> (forall r, handed_of (o, r) = None) -> wp m (fun _ => inv mem (accepted h) (handed h)) ss ->
    wp m (fun r ss' => inv mem (accepted h ++ omap accepted_of [(o, r)]) (handed h ++ omap handed_of [(o, r)]) ss') ss).
  { intros m H1 H2 Hm. eapply wp_weaken; [exact Hm|]. intros r ss' H. cbn [omap list_omap]. by rewrite H1, H2, !app_nil_r. }
  assert (Hthen : forall A (m : IO A) (f : A -> Z), wp m (fun _ => inv mem (accepted h) (handed h)) ss -> wp (x ← m; mret (f x)) (fun _ => inv mem (accepted h) (handed h)) ss).
  { intros A m f Hm. apply wp_bind. eapply wp_weaken; [exact Hm|]. intros x ss' H. by apply wp_ret. }
  destruct o; cbn [run] in *; try (apply Hplain; [done|done|]).
  - by apply connect_spec.
  - by apply listen_spec.
  - by apply bind_spec.
  - by apply udp_spec.
  - destruct Ha as (Hsz & Hb & Hu). eapply wp_weaken; [by apply send_spec|]. intros r ss' H. unfold taken in H. cbn in *. destruct (r =? 0); cbn; [done|by rewrite app_nil_r].
  - destruct Ha as (Hsz & Hb & Hu). eapply wp_weaken; [by apply (send_lowpriority_spec mem (accepted h) (handed h))|]. intros r ss' H. unfold taken in H. cbn in *. destruct (r =? 0); cbn; [done|by rewrite app_nil_r].
  - destruct Ha as (Hsz & Hu). eapply wp_weaken; [by apply udp_send_spec|]. intros r ss' H. cbn in *. by rewrite app_nil_r.
  - by apply udp_connect_spec.
  - apply Hthen. by apply try_direct_spec.
  - apply (Hthen _ (unlock id) (fun _ => 0)). destruct Ha as (H1 & H2 & _). by apply unlock_spec.
  - apply (Hthen _ _ (fun _ => 0)). by apply request_spec.
  - apply (Hthen _ _ (fun _ => 0)). by apply request_spec.
  - apply (Hthen _ _ (fun _ => 0)). by apply request_spec.
  - apply (Hthen _ _ (fun _ => 0)). by apply request_spec.
  - apply (Hthen _ _ (fun _ => 0)). by apply request_spec.
  - apply (Hthen _ _ fst). eapply wp_weaken; [by apply (poll_spec mem af_inet6 (accepted h) (handed h))|]. by intros r ss' [? _].
Qed.

Lemma run_shrinks o : o <> OPoll -> shrinks (run o).
Proof.
  intros Ho. destruct o; [..|done]; cbn [run]; unfold socket_server_connect, socket_server_bind, socket_server_send_lowpriority, socket_server_start, socket_server_close,
    socket_server_shutdown, socket_server_nodelay, socket_server_exit; shr.
Qed.

Lemma run_reads h o ss r ss' : inv mem (accepted h) (handed h) ss -> short_reads (ss_script ss) -> allowed o ss ->
  run o ss = Ret (Some (r, ss')) -> short_reads (ss_script ss').
Proof.
  intros Hinv Hreads [Hids _] E. eapply short_suffix; [exact Hreads|]. assert (o = OPoll \/ o <> OPoll) as [->|Ho] by (destruct o; (by left) || by right); [|by eapply run_shrinks].
  pose proof (poll_spec mem af_inet6 _ _ ss Hinv Hids Hreads) as H. cbn [run] in E. unfold wp in H. unfold mbind, io_bind in E.
  destruct (socket_server_poll mem af_inet6 ss) as [[[x ss1]|]| | |]; try done. injection E as _ <-. apply H.
Qed.

Lemma create_inv script : inv mem [] [] (socket_server_create script).
Proof.
  split; [|done|split; [cbn; lia|constructor|by intros i ?%elem_of_nil]]. split; cbn; try done.
  - intros i. change (slot _ i) with socket_init. split; try done; [split; try done; by intros []|by intros ?%elem_of_nil].
  - intros a r b E. by destruct a.
  - constructor.
  - intros id. change (slot _ _) with socket_init. split; [|intros _; by exists []]. by intros (_ & [? _] & _).
Qed.

Lemma reaches_inv script h ss : reaches script h ss -> inv mem (accepted h) (handed h) ss /\ short_reads (ss_script ss).
Proof.
  induction 1 as [Hs|h ss o r ss' _ [IH Hs] Ha Hr]; [by split; [apply create_inv|]|]. split; [|by eapply run_reads].
  pose proof (run_inv h o ss IH Hs Ha) as H. unfold wp in H. by rewrite Hr in H.
Qed.

(** ** Theorems *)

(** C4: a call of the interface of [socket_server.c] that is [allowed], in any state that allowed
    calls have led to and whatever the operating system answers, fails no [assert] and does not
    run into undefined behaviour, and the loop of [socket_server_poll] ends: a call returns, or
    waits (for a lock that another thread holds, or for the next answer of the system). Allowed
    are: sends of a message of a size that is not negative, to a socket that is open, with the
    call for its protocol; identifiers that were given out; unlocking by who has locked. That
    these are needed show [early_send_fails] and [udp_direct_fails]. The counter of identifiers
    is at least 65536 below [2 ^ 31] when a call or a round of the loop begins, and no read
    gives [2 ^ 30] bytes. There is no bound on the length of the run or on the answers. *)
Theorem socket_server_safe script h ss o : reaches script h ss -> allowed o ss -> exists r, run o ss = Ret r.
Proof.
  intros Hr Ha. destruct (reaches_inv _ _ _ Hr) as [Hi Hs]. pose proof (run_inv h o ss Hi Hs Ha) as H. unfold wp in H. destruct (run o ss); [by eexists|done..].
Qed.

(** C2: after any allowed calls, the bytes that were written for a TCP socket, by the poll thread
    and by the threads that wrote directly, are the beginning of the messages that were accepted
    for it, each whole and one after the other: those of each priority in the order of the
    calls. When the socket has no more to send, they are all of them. The runs are those of
    [reaches]: of any length, with any answers of reads below [2 ^ 30] bytes, while the counter
    of identifiers has not come within 65536 of [2 ^ 31]. *)
Theorem socket_server_streams script h ss id : reaches script h ss ->
  exists order, shuffle order (of_id id (accepted h)) /\ written id (ss_calls ss) `prefix_of` bytes_of mem order /\
    let s := slot ss (HASH_ID id) in
    (s_id s = id -> s_type s = SOCKET_TYPE_CONNECTED -> tcp s = true -> nomore_sending_data s = true -> written id (ss_calls ss) = bytes_of mem order).
Proof.
  intros Hr. destruct (reaches_inv _ _ _ Hr) as [[Hc _ _] _]. destruct (co_stream _ _ _ _ _ Hc id) as [H1 H2]. pose proof (co_slots _ _ _ _ _ Hc (HASH_ID id)) as Hslot.
  set (s := slot ss (HASH_ID id)) in *. destruct (flowing_dec id s) as [Hf|Hf].
  - destruct (H1 Hf) as (A & rest & E & S & R). exists (A ++ lows s ++ rest). split; [done|]. split; [rewrite bytes_of_app, <- E, <- app_assoc; by eexists|].
    cbv zeta. intros Hid Ht Htcp Hno. unfold nomore_sending_data, send_buffer_empty in Hno.
    apply andb_prop in Hno as [[[Eh%bool_decide_eq_true El%bool_decide_eq_true]%andb_prop Ed%Z.eqb_eq]%andb_prop Es%Z.eqb_eq].
    destruct (so_count _ _ _ _ _ _ Hslot) as [C1 C2]; [by rewrite Ht|done|]. rewrite Hid in C1, C2. assert (Hp : 0 <= pending id (ss_pipe ss)) by (unfold pending; lia).
    rewrite C1, count_land in Es by lia. assert (Hpipe : of_id id (sends (ss_pipe ss)) = []) by (apply length_zero_iff_nil; unfold pending in Es; lia).
    rewrite (R ltac:(by rewrite Ht)), Hpipe, app_nil_r. unfold lows. rewrite El. cbn. rewrite app_nil_r, <- E. unfold front, direct_of. rewrite Eh, Ed. cbn. by rewrite app_nil_r.
  - destruct (H2 Hf) as (order & S & P). exists order. split_and!; [done|done|]. cbv zeta. intros Hid Ht Htcp _. destruct Hf. split_and!; [done|by split; rewrite Ht|done].
Qed.

(** C11: after any allowed calls (the runs of [reaches]), every message that was handed over to the
    socket server has been freed, or is owned by a socket or a request in the pipe; none is
    freed twice and none is lost. *)
Theorem socket_server_ownership script h ss : reaches script h ss ->
  handed h ≡ₚ freed (ss_calls ss) ++ owned (ss_slot ss) ++ buffers (ss_pipe ss).
Proof. intros Hr. apply (reaches_inv _ _ _ Hr). Qed.
End system.

(** ** A run *)

Module Demo.
(** A connection; a direct write that takes three of five bytes; a message of low priority and
    one of high priority, which wait in the pipe; events until all is written. *)
Definition mem (a : Z) : Z := a mod 256.
Definition ok (n : Z) : answer := Answer n EAGAIN [] [].
Definition writable : answer := Answer 1 EAGAIN [] [Event (Some 1) false true false].
Definition script : list answer :=
  [Answer 0 EAGAIN [2] []; ok 7; ok 0; ok 0; Answer 0 EAGAIN [1; 2; 3] []; ok 3; writable; ok 2; ok 1; ok 0; writable; ok 3; ok 2; ok 0].
Definition ops : list op := [OConnect 9 [104] 80; OPoll; OSend 1 100 5; OSendLow 1 200 4; OSend 1 300 2; OPoll; OPoll].

Fixpoint runs (os : list op) (h : history) (ss : socket_server) : option (history * socket_server) :=
  match os with
  | [] => Some (h, ss)
  | o :: os => match run mem 10 2 1 o ss with Ret (Some (r, ss)) => runs os (h ++ [(o, r)]) ss | _ => None end
  end.

(** The rounds of a poll are followed. *)
Fixpoint rooms (fuel : nat) (ss : socket_server) : bool :=
  (ss_alloc_id ss + MAX_SOCKET <? 2 ^ 31) &&
  match poll_step mem 10 ss, fuel with Ret (Some (None, ss')), S fuel => rooms fuel ss' | Ret (Some (None, _)), O => false | _, _ => true end.

Lemma rooms_polling fuel : forall ss ss', rooms fuel ss = true -> polling mem 10 ss ss' -> id_room ss'.
Proof.
  induction fuel as [|fuel IH]; intros ss ss' H Hp; cbn [rooms] in H; apply andb_prop in H as [H1%Z.ltb_lt H2];
    destruct (polling_inv _ _ _ _ Hp) as [->|(ss1 & E & Hp1)]; try exact H1; rewrite E in H2; [done|by eapply IH].
Qed.

Definition checked (o : op) (ss : socket_server) : Prop :=
  match o with OPoll => rooms 100 ss = true | _ => id_room ss end /\ contract o ss.

Lemma checked_allowed o ss : checked o ss -> allowed mem 10 o ss.
Proof. intros [H1 H2]. split; [|exact H2]. destruct o; try exact H1. intros ss'. by apply rooms_polling with 100%nat. Qed.

Fixpoint all_allowed (os : list op) (ss : socket_server) : Prop :=
  match os with
  | [] => True
  | o :: os => checked o ss /\ match run mem 10 2 1 o ss with Ret (Some (_, ss)) => all_allowed os ss | _ => True end
  end.

Lemma reaches_runs s os : forall h ss h' ss', reaches mem 10 2 1 s h ss -> all_allowed os ss -> runs os h ss = Some (h', ss') -> reaches mem 10 2 1 s h' ss'.
Proof.
  induction os as [|o os IH]; intros h ss h' ss' Hr; cbn; [by intros _ [= <- <-]|]. intros [Ha Hn]. destruct (run mem 10 2 1 o ss) as [[[r ss1]|]| | |] eqn:E; try done.
  apply IH; [|done]. eapply reaches_step; [exact Hr|by apply checked_allowed|exact E].
Qed.

(** What has happened, and the state, after the calls [os]. *)
Definition after (os : list op) : history * socket_server := default ([], socket_server_create script) (runs os [] (socket_server_create script)).

Lemma script_short : short_reads script.
Proof. repeat (apply Forall_cons; split; [done|]). by apply Forall_nil. Qed.

Lemma all_ok : all_allowed ops (socket_server_create script).
Proof. vm_compute. repeat split; try discriminate; auto. Qed.
End Demo.

Lemma demo_reaches : reaches Demo.mem 10 2 1 Demo.script (Demo.after Demo.ops).1 (Demo.after Demo.ops).2.
Proof.
  apply (Demo.reaches_runs Demo.script Demo.ops [] (socket_server_create Demo.script)); [exact (reaches_create _ _ _ _ _ Demo.script_short)|exact Demo.all_ok|]. by vm_compute.
Qed.

(** All is written: the message of low priority before the one of high priority, which came
    when the first bytes of the former were gone already. *)
Lemma socket_server_streams_witness : exists order, shuffle order [(false, (100, 5)); (true, (200, 4)); (false, (300, 2))] /\
  bytes_of Demo.mem order = [100; 101; 102; 103; 104; 200; 201; 202; 203; 44; 45].
Proof.
  destruct (socket_server_streams Demo.mem 10 2 1 Demo.script (Demo.after Demo.ops).1 (Demo.after Demo.ops).2 1 demo_reaches) as (order & S & _ & D).
  exists order. split; [exact S|]. rewrite <- D; by vm_compute.
Defined.

Lemma socket_server_safe_witness : exists r, run Demo.mem 10 2 1 (OClose 9 1) (Demo.after Demo.ops).2 = Ret r.
Proof. apply (socket_server_safe Demo.mem 10 2 1 Demo.script (Demo.after Demo.ops).1 (Demo.after Demo.ops).2 (OClose 9 1) demo_reaches). by vm_compute. Defined.

Lemma socket_server_ownership_witness : handed (Demo.after Demo.ops).1 = [100; 200; 300] /\ [100; 200; 300] ≡ₚ [300; 200; 100] ++ [].
Proof.
  split; [by vm_compute|]. pose proof (socket_server_ownership Demo.mem 10 2 1 Demo.script (Demo.after Demo.ops).1 (Demo.after Demo.ops).2 demo_reaches) as H.
  vm_compute in H. exact H.
Defined.

(** *** Calls that are not allowed *)

Module Misuse.
Fixpoint outcome_of (os : list op) (ss : socket_server) : outcome unit :=
  match os with
  | [] => Ret tt
  | o :: os =>
      match run Demo.mem 10 2 1 o ss with
      | Ret (Some (_, ss)) => outcome_of os ss | Ret None => Ret tt | AssertFail => AssertFail | LuaError e => LuaError e | Undefined => Undefined
      end
  end.

(** A message that is sent before the socket is open is not counted, and the poll thread that
    takes it from the pipe finds the count at 0: [assert((sending & 0xffff) != 0)] fails. *)
Lemma early_send_fails : outcome_of [OConnect 9 [104] 80; OSend 1 100 5; OPoll; OPoll]
  (socket_server_create [Answer 0 EAGAIN [2] []; Demo.ok 7; Demo.ok 0; Demo.ok 0; Answer 0 EAGAIN [1; 2; 3] []]) = AssertFail.
Proof. by vm_compute. Qed.

(** A message for a UDP socket that cannot be written directly becomes a node without room for
    an address, which [send_list_udp] reads. *)
Lemma udp_direct_fails : outcome_of [OUdp 9 None 0; OPoll; OSend 1 100 5; OPoll]
  (socket_server_create [Demo.ok 7; Demo.ok 0; Demo.ok 0; Demo.ok (-1); Demo.writable]) = Undefined.
Proof. by vm_compute. Qed.
End Misuse.
