(* ===== verification/Harbor.v ===== *)
(** The harbor service, [service-src/service_harbor.c]: the messages of this node for
    services of other nodes, kept until the other node is connected and until a global name
    is known, and the messages that other nodes send. *)
From S2P Require Import Prelude Handle Cstr Ring Node Netpack Gate.

(** ** Data *)

Definition HASH_SIZE : Z := 4096.
Definition DEFAULT_QUEUE_SIZE : Z := 1024.
Definition HEADER_COOKIE_LENGTH : Z := 12.
Definition REMOTE_MAX : Z := 256.
Definition UINT32_MAX : Z := 2 ^ 32 - 1.

Record remote_message_header := Header { rh_source : Z; rh_destination : Z; rh_session : Z }.

(** [hm_buffer] is a pointer. *)
Record harbor_msg := HarborMsg { hm_header : remote_message_header; hm_buffer : Z; hm_size : Z }.

(** A slot that was never written is [None]. *)
Record harbor_msg_queue := MsgQueue { hq_size : Z; hq_head : Z; hq_tail : Z; hq_data : list (option harbor_msg) }.

Record keyvalue := KeyValue { kv_key : bytes; kv_hash : Z; kv_value : Z; kv_queue : option harbor_msg_queue }.

(** The nodes, in the order of their creation, and the chains: a pointer to a node is its
    place, and a chain is a list of pointers. *)
Record hashmap := HashMap { hm_chains : list (list nat); hm_nodes : list keyvalue }.

Definition STATUS_WAIT : Z := 0.
Definition STATUS_HANDSHAKE : Z := 1.
Definition STATUS_HEADER : Z := 2.
Definition STATUS_CONTENT : Z := 3.
Definition STATUS_DOWN : Z := 4.

(** Bytes of [recv_buffer] that were not written are [None]. *)
Record slave := Slave {
  sl_fd : Z; sl_queue : option harbor_msg_queue; sl_status : Z; sl_length : Z; sl_read : Z;
  sl_size : bytes; sl_recv_buffer : option (list (option Z)) }.

Record harbor := Harbor { h_id : Z; h_slave : Z; h_map : hashmap; h_s : list slave }.

Definition with_fd (fd : Z) (s : slave) : slave :=
  Slave fd (sl_queue s) (sl_status s) (sl_length s) (sl_read s) (sl_size s) (sl_recv_buffer s).
Definition with_squeue (q : option harbor_msg_queue) (s : slave) : slave :=
  Slave (sl_fd s) q (sl_status s) (sl_length s) (sl_read s) (sl_size s) (sl_recv_buffer s).
Definition with_status (st : Z) (s : slave) : slave :=
  Slave (sl_fd s) (sl_queue s) st (sl_length s) (sl_read s) (sl_size s) (sl_recv_buffer s).
Definition with_sizes (read : Z) (size : bytes) (s : slave) : slave :=
  Slave (sl_fd s) (sl_queue s) (sl_status s) (sl_length s) read size (sl_recv_buffer s).
Definition with_content (length read : Z) (b : option (list (option Z))) (s : slave) : slave :=
  Slave (sl_fd s) (sl_queue s) (sl_status s) length read (sl_size s) b.
Definition with_kvalue (v : Z) (n : keyvalue) : keyvalue := KeyValue (kv_key n) (kv_hash n) v (kv_queue n).
Definition with_kqueue (q : option harbor_msg_queue) (n : keyvalue) : keyvalue := KeyValue (kv_key n) (kv_hash n) (kv_value n) q.

(** A message is passed on by its pointer, or is a block or a string made here. *)
Inductive payload := PPtr (p sz : Z) | PBytes (b : bytes).

(** What the service asks of the node. The size of what is sent to a socket is an [int]. *)
Inductive act :=
  | HSend (source destination type session : Z) (msg : payload)
  | HSocketSend (fd : Z) (data : bytes) (sz : Z)
  | HSocketClose (fd : Z) | HSocketStart (fd : Z)
  | HError (text : bytes)
  | HFree (p : Z) | HFreeData (data : option bytes)
  | HCallback | HHarborStart.

(** ** Queues of messages *)

Definition new_queue : harbor_msg_queue :=
  MsgQueue DEFAULT_QUEUE_SIZE 0 0 (replicate (Z.to_nat DEFAULT_QUEUE_SIZE) None).

(** The slots after the last one that is copied are not written. *)
Definition expand_msgs (queue : harbor_msg_queue) : outcome harbor_msg_queue :=
  size ← int_ok (hq_size queue * 2);
  ms ← mapM (fun i => arr_get (hq_data queue) ((i + hq_head queue) mod hq_size queue)) (zrange 0 (hq_size queue - 1));
  Ret (MsgQueue size 0 (hq_size queue - 1) (ms ++ replicate (Z.to_nat (hq_size queue + 1)) None)).

Definition push_queue_msg (queue : harbor_msg_queue) (m : harbor_msg) : outcome harbor_msg_queue :=
  queue ← (if (hq_tail queue + 1) mod hq_size queue =? hq_head queue then expand_msgs queue else Ret queue);
  data ← arr_set (hq_data queue) (hq_tail queue) (Some m);
  Ret (MsgQueue (hq_size queue) (hq_head queue) ((hq_tail queue + 1) mod hq_size queue) data).

Definition push_queue (queue : harbor_msg_queue) (buffer sz : Z) (header : remote_message_header) : outcome harbor_msg_queue :=
  push_queue_msg queue (HarborMsg header buffer sz).

(** The message that the pointer into the queue points to. *)
Definition pop_queue (queue : harbor_msg_queue) : outcome (option harbor_msg * harbor_msg_queue) :=
  if hq_head queue =? hq_tail queue then Ret (None, queue)
  else
    slot ← arr_get (hq_data queue) (hq_head queue);
    m ← deref slot;
    Ret (Some m, MsgQueue (hq_size queue) ((hq_head queue + 1) mod hq_size queue) (hq_tail queue) (hq_data queue)).

(** Enough for the messages of a queue. *)
Definition queue_fuel (queue : harbor_msg_queue) : nat := S (Z.to_nat (hq_size queue)).

(** ** Names

    A name is an array of 16 characters. *)

Definition name_word (name : bytes) (i : Z) : outcome Z :=
  b0 ← arr_get name i; b1 ← arr_get name (i + 1); b2 ← arr_get name (i + 2); b3 ← arr_get name (i + 3);
  Ret (word4 b0 b1 b2 b3).

Definition name_hash (name : bytes) : outcome Z :=
  w0 ← name_word name 0; w1 ← name_word name 4; w2 ← name_word name 8; w3 ← name_word name 12;
  Ret (Z.lxor (Z.lxor (Z.lxor w0 w1) w2) w3).

(** [strncmp(a, b, GLOBALNAME_LENGTH) == 0] *)
Definition same_name (a b : bytes) : bool :=
  bool_decide (until_zero (take (Z.to_nat GLOBALNAME_LENGTH) a) = until_zero (take (Z.to_nat GLOBALNAME_LENGTH) b)).

Definition get_node (map : hashmap) (i : nat) : outcome keyvalue := deref (hm_nodes map !! i).

Fixpoint search_chain (map : hashmap) (chain : list nat) (h : Z) (name : bytes) : outcome (option nat) :=
  match chain with
  | [] => Ret None
  | i :: chain =>
      node ← get_node map i;
      if (kv_hash node =? h) && same_name (kv_key node) name then Ret (Some i) else search_chain map chain h name
  end.

Definition hash_search (hash : hashmap) (name : bytes) : outcome (option nat) :=
  h ← name_hash name;
  chain ← arr_get (hm_chains hash) (h mod HASH_SIZE);
  search_chain hash chain h name.

Definition hash_insert (hash : hashmap) (name : bytes) : outcome (nat * hashmap) :=
  h ← name_hash name;
  chain ← arr_get (hm_chains hash) (h mod HASH_SIZE);
  let node := length (hm_nodes hash) in
  chains ← arr_set (hm_chains hash) (h mod HASH_SIZE) (node :: chain);
  Ret (node, HashMap chains (hm_nodes hash ++ [KeyValue name h 0 None])).

Definition hash_new : hashmap := HashMap (replicate (Z.to_nat HASH_SIZE) []) [].

(** ** The bytes of numbers

    A byte that is shifted into the sign of an [int] wraps around. *)

Definition to_bigendian (n : Z) : bytes :=
  [Z.land (Z.shiftr n 24) 0xff; Z.land (Z.shiftr n 16) 0xff; Z.land (Z.shiftr n 8) 0xff; Z.land n 0xff].

Definition header_to_message (header : remote_message_header) : bytes :=
  to_bigendian (rh_source header) ++ to_bigendian (rh_destination header) ++ to_bigendian (rh_session header).

(** The word at [off]. *)
Definition from_bigendian (message : bytes) (off : Z) : outcome Z :=
  b0 ← arr_get message off; b1 ← arr_get message (off + 1); b2 ← arr_get message (off + 2); b3 ← arr_get message (off + 3);
  Ret (u32 (Z.lor (Z.lor (Z.lor (Z.shiftl b0 24) (Z.shiftl b1 16)) (Z.shiftl b2 8)) b3)).

Definition message_to_header (message : bytes) : outcome remote_message_header :=
  source ← from_bigendian message 0;
  destination ← from_bigendian message 4;
  session ← from_bigendian message 8;
  Ret (Header source destination session).

(** ** Programs

    A program changes a state, asks the node for actions, the last one first, and ends as
    C code does. *)

Definition IO (S A : Type) : Type := S -> list act -> outcome (A * S * list act).

#[export] Instance hio_ret S : MRet (IO S) := fun A a h l => Ret (a, h, l).
#[export] Instance hio_bind S : MBind (IO S) := fun A B f m h l =>
  match m h l with
  | Ret (a, h, l) => f a h l
  | AssertFail => AssertFail
  | LuaError e => LuaError e
  | Undefined => Undefined
  end.

Definition lift {S A} (o : outcome A) : IO S A := fun h l =>
  match o with Ret a => Ret (a, h, l) | AssertFail => AssertFail | LuaError e => LuaError e | Undefined => Undefined end.
Definition gets {S A} (f : S -> A) : IO S A := fun h l => Ret (f h, h, l).
Definition modify {S} (f : S -> S) : IO S unit := fun h l => Ret (tt, f h, l).
Definition asks {S} (a : act) : IO S unit := fun h l => Ret (tt, h, a :: l).

Section harbor.
(** What the pointers of messages point to, and whether the node refuses the last message
    that was sent. *)
Context (mem : Z -> bytes) (refused : list act -> bool).

(** [sz] bytes at [p]. *)
Definition load (p sz : Z) : outcome bytes :=
  if Z.of_nat (length (mem p)) <? sz then Undefined else Ret (take (Z.to_nat sz) (mem p)).

Definition skynet_error {S} (text : bytes) : IO S unit := asks (HError text).

(** The result of a message that is not refused is its session. *)
Definition skynet_send {S} (source destination type session : Z) (msg : payload) : IO S Z := fun h l =>
  let l := HSend source destination type session msg :: l in
  Ret (if refused l then -1 else session, h, l).

Definition send_remote {S} (fd buffer sz : Z) (cookie : remote_message_header) : IO S unit :=
  let sz_header := u64 (sz + HEADER_COOKIE_LENGTH) in
  if UINT32_MAX <? sz_header then
    skynet_error (str "remote message from :" ++ fmt_0x 8 (rh_source cookie) ++ str " to :" ++
                  fmt_0x 8 (rh_destination cookie) ++ str " is too large.")
  else
    data ← lift (load buffer sz);
    asks (HSocketSend fd (to_bigendian (u32 sz_header) ++ data ++ header_to_message cookie) (s32 (sz_header + 4))).

(** [while ((m=pop_queue(queue)) != NULL)] *)
Fixpoint drain {S} (fuel : nat) (f : harbor_msg -> IO S unit) (queue : harbor_msg_queue) : IO S harbor_msg_queue :=
  match fuel with
  | O => lift Undefined
  | Datatypes.S fuel =>
      '(m, queue) ← lift (pop_queue queue);
      match m with
      | None => mret queue
      | Some m => _ ← f m; drain fuel f queue
      end
  end.

Definition release_queue {S} (queue : option harbor_msg_queue) : IO S unit :=
  match queue with
  | None => mret tt
  | Some queue => _ ← drain (queue_fuel queue) (fun m => asks (HFree (hm_buffer m))) queue; mret tt
  end.

Definition get_slave (id : Z) : IO harbor slave := s ← gets h_s; lift (arr_get s id).
Definition set_slave (id : Z) (s : slave) : IO harbor unit :=
  l ← gets h_s;
  l ← lift (arr_set l id s);
  modify (fun h => Harbor (h_id h) (h_slave h) (h_map h) l).
Definition set_map (map : hashmap) : IO harbor unit := modify (fun h => Harbor (h_id h) (h_slave h) map (h_s h)).
Definition read_node (i : nat) : IO harbor keyvalue := map ← gets h_map; lift (get_node map i).
Definition write_node (i : nat) (n : keyvalue) : IO harbor unit :=
  map ← gets h_map; set_map (HashMap (hm_chains map) (<[i := n]> (hm_nodes map))).

(** ** Slaves *)

Definition close_harbor (id : Z) : IO harbor unit :=
  s ← get_slave id;
  _ ← set_slave id (with_status STATUS_DOWN s);
  _ ← (if negb (sl_fd s =? 0) then asks (HSocketClose (sl_fd s)) else mret tt);
  match sl_queue s with
  | Some q => _ ← release_queue (Some q); s ← get_slave id; set_slave id (with_squeue None s)
  | None => mret tt
  end.

Definition report_harbor_down (id : Z) : IO harbor unit :=
  slave ← gets h_slave;
  _ ← skynet_send 0 slave PTYPE_TEXT 0 (PBytes (str "D " ++ fmt_d id));
  mret tt.

Definition slave_zero : slave := Slave 0 None STATUS_WAIT 0 0 [0; 0; 0; 0] None.

Definition harbor_create : harbor := Harbor 0 0 hash_new (replicate (Z.to_nat REMOTE_MAX) slave_zero).

Fixpoint hash_delete (nodes : list keyvalue) : IO harbor unit :=
  match nodes with [] => mret tt | n :: nodes => _ ← release_queue (kv_queue n); hash_delete nodes end.

(** The chains one after the other. *)
Definition chain_nodes (hash : hashmap) : outcome (list keyvalue) := mapM (get_node hash) (concat (hm_chains hash)).

Fixpoint release_slaves (ids : list Z) : IO harbor unit :=
  match ids with
  | [] => mret tt
  | i :: ids =>
      s ← get_slave i;
      _ ← (if negb (sl_fd s =? 0) && negb (sl_status s =? STATUS_DOWN) then close_harbor i else mret tt);
      release_slaves ids
  end.

Definition harbor_release : IO harbor unit :=
  _ ← release_slaves (zrange 1 REMOTE_MAX);
  map ← gets h_map;
  nodes ← lift (chain_nodes map);
  hash_delete nodes.

(** The message of the bytes [msg], for the node [id]. *)
Definition forward_bytes {S} (id : Z) (msg : bytes) (sz : Z) : IO S unit :=
  let n := Z.to_nat (sz - HEADER_COOKIE_LENGTH) in
  header ← lift (message_to_header (drop n msg));
  let type := Z.shiftr (rh_destination header) HANDLE_REMOTE_SHIFT in
  let destination := Z.lor (Z.land (rh_destination header) HANDLE_MASK) (u32 (Z.shiftl (u32 id) HANDLE_REMOTE_SHIFT)) in
  r ← skynet_send (rh_source header) destination (Z.lor type PTYPE_TAG_DONTCOPY) (s32 (rh_session header)) (PBytes (take n msg));
  if r <? 0 then
    _ ← (if negb (type =? PTYPE_ERROR) then
           _ ← skynet_send destination (rh_source header) PTYPE_ERROR (s32 (rh_session header)) (PBytes []); mret tt
         else mret tt);
    skynet_error (str "Unknown destination :" ++ fmt_x destination ++ str " from :" ++ fmt_x (rh_source header) ++
                  str " type(" ++ fmt_d type ++ str ")")
  else mret tt.

Definition forward_local_messsage (msg : list (option Z)) (sz : Z) : IO harbor unit :=
  if sz <? HEADER_COOKIE_LENGTH then lift Undefined
  else id ← gets h_id; msg ← lift (mapM deref msg); forward_bytes id msg sz.

(** [while ((m = pop_queue(queue))!=NULL) push_queue_msg(to, m);] *)
Fixpoint move_queue (fuel : nat) (queue to : harbor_msg_queue) : outcome (harbor_msg_queue * harbor_msg_queue) :=
  match fuel with
  | O => Undefined
  | S fuel =>
      '(m, queue) ← pop_queue queue;
      match m with
      | None => Ret (queue, to)
      | Some m => to ← push_queue_msg to m; move_queue fuel queue to
      end
  end.

Definition sent_on {S} (fd : Z) (m : harbor_msg) : IO S unit :=
  _ ← send_remote fd (hm_buffer m) (hm_size m) (hm_header m);
  asks (HFree (hm_buffer m)).

(** The bodies of the loops of [dispatch_name_queue]. *)
Definition send_local {S} (handle : Z) (m : harbor_msg) : IO S unit :=
  let type := Z.shiftr (rh_destination (hm_header m)) HANDLE_REMOTE_SHIFT in
  _ ← skynet_send (rh_source (hm_header m)) handle (Z.lor type PTYPE_TAG_DONTCOPY) (s32 (rh_session (hm_header m)))
        (PPtr (hm_buffer m) (hm_size m));
  mret tt.

Definition send_named {S} (fd handle : Z) (m : harbor_msg) : IO S unit :=
  let h := hm_header m in
  sent_on fd (HarborMsg (Header (rh_source h) (Z.lor (rh_destination h) (Z.land handle HANDLE_MASK)) (rh_session h))
                (hm_buffer m) (hm_size m)).

Definition dispatch_name_queue (node : nat) : IO harbor unit :=
  n ← read_node node;
  queue ← lift (deref (kv_queue n));
  let handle := kv_value n in
  let harbor_id := Z.shiftr handle HANDLE_REMOTE_SHIFT in
  s ← get_slave harbor_id;
  let fd := sl_fd s in
  if fd =? 0 then
    if sl_status s =? STATUS_DOWN then
      skynet_error (str "Drop message to " ++ until_zero (take (Z.to_nat GLOBALNAME_LENGTH) (kv_key n)) ++
                    str " (in harbor " ++ fmt_d harbor_id ++ str ")")
    else
      _ ← match sl_queue s with
          | None =>
              _ ← set_slave harbor_id (with_squeue (Some queue) s);
              write_node node (with_kqueue None n)
          | Some to =>
              '(queue, to) ← lift (move_queue (queue_fuel queue) queue to);
              _ ← set_slave harbor_id (with_squeue (Some to) s);
              write_node node (with_kqueue (Some queue) n)
          end;
      slave ← gets h_slave;
      if harbor_id =? Z.shiftr slave HANDLE_REMOTE_SHIFT then
        s ← get_slave harbor_id;
        queue ← lift (deref (sl_queue s));
        queue ← drain (queue_fuel queue) (send_local handle) queue;
        _ ← release_queue (Some queue);
        set_slave harbor_id (with_squeue None s)
      else mret tt
  else
    queue ← drain (queue_fuel queue) (send_named fd handle) queue;
    write_node node (with_kqueue (Some queue) n).

Definition dispatch_queue (id : Z) : IO harbor unit :=
  s ← get_slave id;
  let fd := sl_fd s in
  _ ← lift (assert_ (negb (fd =? 0)));
  match sl_queue s with
  | None => mret tt
  | Some queue =>
      queue ← drain (queue_fuel queue) (sent_on fd) queue;
      _ ← release_queue (Some queue);
      set_slave id (with_squeue None s)
  end.

(** [for (i=1;i<REMOTE_MAX;i++)]: the first slave with the socket. *)
Fixpoint find_fd (fd : Z) (s : list slave) (i : Z) : Z :=
  match s with
  | [] => 0
  | x :: s => if sl_fd x =? fd then i else find_fd fd s (i + 1)
  end.

Definition harbor_id (fd : Z) : IO harbor Z := s ← gets h_s; mret (find_fd fd (drop 1 s) 1).

(** [memcpy(dst + off, src, n)] into memory that may be new. *)
Definition copy_in (dst : list (option Z)) (off : Z) (src : bytes) (n : Z) : outcome (list (option Z)) :=
  if (n <? 0) || (off <? 0) || (Z.of_nat (length dst) <? off + n) || (Z.of_nat (length src) <? n) then Undefined
  else Ret (take (Z.to_nat off) dst ++ (Some <$> take (Z.to_nat n) src) ++ drop (Z.to_nat (off + n)) dst).

(** The steps of the switch fall through; a step gives the data that is left when the loop
    goes on. *)
Definition read_content (id : Z) (buffer : bytes) (size : Z) : IO harbor (option (bytes * Z)) :=
  s ← get_slave id;
  let need := sl_length s - sl_read s in
  recv ← lift (deref (sl_recv_buffer s));
  if size <? need then
    recv ← lift (copy_in recv (sl_read s) buffer size);
    _ ← set_slave id (with_content (sl_length s) (sl_read s + size) (Some recv) s);
    mret None
  else
    recv ← lift (copy_in recv (sl_read s) buffer need);
    _ ← forward_local_messsage recv (sl_length s);
    s ← get_slave id;
    _ ← set_slave id (with_status STATUS_HEADER (with_content 0 0 None s));
    if size - need =? 0 then mret None
    else mret (Some (drop (Z.to_nat need) buffer, size - need)).

Definition read_header (id : Z) (buffer : bytes) (size : Z) : IO harbor (option (bytes * Z)) :=
  s ← get_slave id;
  let need := 4 - sl_read s in
  if size <? need then
    sz ← lift (memcpy (sl_size s) (sl_read s) buffer size);
    _ ← set_slave id (with_sizes (sl_read s + size) sz s);
    mret None
  else
    sz ← lift (memcpy (sl_size s) (sl_read s) buffer need);
    _ ← set_slave id (with_sizes (sl_read s) sz s);
    b0 ← lift (arr_get sz 0); b1 ← lift (arr_get sz 1); b2 ← lift (arr_get sz 2); b3 ← lift (arr_get sz 3);
    if negb (b0 =? 0) then
      _ ← skynet_error (str "Message is too long from harbor " ++ fmt_d id);
      _ ← close_harbor id;
      mret None
    else
      let length := Z.lor (Z.lor (Z.shiftl b1 16) (Z.shiftl b2 8)) b3 in
      _ ← set_slave id (with_status STATUS_CONTENT
            (with_content length 0 (Some (replicate (Z.to_nat length) None)) (with_sizes 0 sz s)));
      if size - need =? 0 then mret None
      else read_content id (drop (Z.to_nat need) buffer) (size - need).

Definition read_handshake (id fd : Z) (buffer : bytes) (size : Z) : IO harbor (option (bytes * Z)) :=
  remote_id ← lift (arr_get buffer 0);
  if negb (remote_id =? id) then
    _ ← skynet_error (str "Invalid shakehand id (" ++ fmt_d id ++ str ") from fd = " ++ fmt_d fd ++
                      str " , harbor = " ++ fmt_d remote_id);
    _ ← close_harbor id;
    mret None
  else
    s ← get_slave id;
    _ ← set_slave id (with_status STATUS_HEADER s);
    _ ← dispatch_queue id;
    if size - 1 =? 0 then mret (Some (drop 1 buffer, 0))
    else read_header id (drop 1 buffer) (size - 1).

(** [for (;;)] of push_socket_data. *)
Fixpoint read_loop (fuel : nat) (id fd : Z) (buffer : bytes) (size : Z) : IO harbor unit :=
  match fuel with
  | O => lift Undefined
  | S fuel =>
      s ← get_slave id;
      r ← (if sl_status s =? STATUS_HANDSHAKE then read_handshake id fd buffer size
           else if sl_status s =? STATUS_HEADER then read_header id buffer size
           else if sl_status s =? STATUS_CONTENT then read_content id buffer size
           else mret None);
      match r with
      | None => mret tt
      | Some (buffer, size) => read_loop fuel id fd buffer size
      end
  end.

Definition push_socket_data (message : skynet_socket_message) : IO harbor unit :=
  _ ← lift (assert_ (sm_type message =? SKYNET_SOCKET_TYPE_DATA));
  let fd := sm_id message in
  id ← harbor_id fd;
  if id =? 0 then skynet_error (str "Invalid socket fd (" ++ fmt_d fd ++ str ") data")
  else
    buffer ← lift (deref (sm_buffer message));
    read_loop (S (S (length buffer))) id fd buffer (sm_ud message).

(** ** Messages of this node *)

(** [hash_search], and [hash_insert] when it finds nothing. *)
Definition find_name (name : bytes) : IO harbor nat :=
  map ← gets h_map;
  node ← lift (hash_search map name);
  match node with
  | Some node => mret node
  | None => '(node, map) ← lift (hash_insert map name); _ ← set_map map; mret node
  end.

Definition update_name (name : bytes) (handle : Z) : IO harbor unit :=
  node ← find_name name;
  n ← read_node node;
  _ ← write_node node (with_kvalue handle n);
  match kv_queue n with
  | None => mret tt
  | Some _ =>
      _ ← dispatch_name_queue node;
      n ← read_node node;
      _ ← release_queue (kv_queue n);
      write_node node (with_kqueue None n)
  end.

(** The result says whether the message was taken. *)
Definition remote_send_handle (source destination type session msg sz : Z) : IO harbor bool :=
  let harbor_id := Z.shiftr destination HANDLE_REMOTE_SHIFT in
  id ← gets h_id;
  if harbor_id =? id then
    _ ← skynet_send source destination (Z.lor type PTYPE_TAG_DONTCOPY) session (PPtr msg sz);
    mret true
  else
    s ← get_slave harbor_id;
    let word := Z.lor (u32 (Z.shiftl type HANDLE_REMOTE_SHIFT)) (Z.land destination HANDLE_MASK) in
    if (sl_fd s =? 0) || (sl_status s =? STATUS_HANDSHAKE) then
      if sl_status s =? STATUS_DOWN then
        _ ← skynet_send destination source PTYPE_ERROR 0 (PBytes []);
        _ ← skynet_error (str "Drop message to harbor " ++ fmt_d harbor_id ++ str " from " ++ fmt_x source ++ str " to " ++
              fmt_x destination ++ str " (session = " ++ fmt_d session ++ str ", msgsz = " ++ fmt_d (s32 sz) ++ str ")");
        mret false
      else
        queue ← lift (push_queue (default new_queue (sl_queue s)) msg sz (Header source word (u32 session)));
        _ ← set_slave harbor_id (with_squeue (Some queue) s);
        mret true
    else
      _ ← send_remote (sl_fd s) msg sz (Header source word (u32 session));
      mret false.

Definition remote_send_name (source : Z) (name : bytes) (type session msg sz : Z) : IO harbor bool :=
  node ← find_name name;
  n ← read_node node;
  if kv_value n =? 0 then
    queue ← lift (push_queue (default new_queue (kv_queue n)) msg sz
                    (Header source (u32 (Z.shiftl type HANDLE_REMOTE_SHIFT)) (u32 session)));
    _ ← write_node node (with_kqueue (Some queue) n);
    slave ← gets h_slave;
    _ ← skynet_send 0 slave PTYPE_TEXT 0 (PBytes (str "Q " ++ until_zero (take (Z.to_nat GLOBALNAME_LENGTH) name)));
    mret true
  else remote_send_handle source (kv_value n) type session msg sz.

Definition handshake (id : Z) : IO harbor unit :=
  s ← get_slave id;
  self ← gets h_id;
  asks (HSocketSend (sl_fd s) [u8 self] 1).

(** [%d] of [sscanf]: [None] when there is no number; a number must be an [int]. *)
Definition scan_d (s : bytes) : outcome (option (Z * bytes)) :=
  let '(neg, v, rest) := parse_number 10 s in
  if bool_decide (rest = s) then Ret None
  else v ← int_ok (if neg : bool then - v else v); Ret (Some (v, rest)).

(** [sscanf(s, "%d %d", &fd, &id)], from zeros. *)
Definition sscanf_dd (s : bytes) : outcome (Z * Z) :=
  a ← scan_d s;
  match a with
  | None => Ret (0, 0)
  | Some (fd, rest) => b ← scan_d rest; Ret (fd, match b with None => 0 | Some (id, _) => id end)
  end.

(** [sscanf(s, "%d %u", &harbor_id, &slave)], from zeros. *)
Definition sscanf_du (s : bytes) : outcome (Z * Z) :=
  a ← scan_d s;
  match a with
  | None => Ret (0, 0)
  | Some (id, rest) =>
      let '(neg, v, rest') := parse_number 10 rest in
      if bool_decide (rest' = rest) then Ret (id, 0)
      else if UINT32_MAX <? v then Undefined
      else Ret (id, if neg : bool then u32 (- v) else v)
  end.

(** [msg] is a block of memory and [sz] the size of the message in it. *)
Definition harbor_command (msg : bytes) (sz session source : Z) : IO harbor unit :=
  let s := s32 sz - 2 in
  c ← lift (arr_get msg 0);
  if c =? 78 then
    if (s <=? 0) || (GLOBALNAME_LENGTH <=? s) then
      name ← lift (cstring msg 2);
      skynet_error (str "Invalid global name " ++ name)
    else
      rn ← lift (memcpy (replicate (Z.to_nat GLOBALNAME_LENGTH) 0) 0 (drop 2 msg) s);
      update_name rn source
  else if (c =? 83) || (c =? 65) then
    if s + 1 <=? 0 then lift Undefined
    else
      buffer ← lift (memcpy (replicate (Z.to_nat (s + 1)) 0) 0 (drop 2 msg) s);
      let buffer := until_zero buffer in
      '(fd, id) ← lift (sscanf_dd buffer);
      if (fd =? 0) || (id <=? 0) || (REMOTE_MAX <=? id) then
        skynet_error (str "Invalid command " ++ [c] ++ str " " ++ buffer)
      else
        slave ← get_slave id;
        if negb (sl_fd slave =? 0) then skynet_error (str "Harbor " ++ fmt_d id ++ str " alreay exist")
        else
          _ ← set_slave id (with_fd fd slave);
          _ ← asks (HSocketStart fd);
          _ ← handshake id;
          slave ← get_slave id;
          if c =? 83 then set_slave id (with_status STATUS_HANDSHAKE slave)
          else _ ← set_slave id (with_status STATUS_HEADER slave); dispatch_queue id
  else
    text ← lift (cstring msg 0);
    skynet_error (str "Unknown command " ++ text).

(** What [msg] points to, by the type of the message. *)
Inductive harbor_input :=
  | ISocket (message : skynet_socket_message)
  | ICommand (msg : bytes) (sz : Z)
  | IRemote (r : remote_message)
  | IOther (type : Z).

Definition mainloop (msg : harbor_input) (session source : Z) : IO harbor unit :=
  match msg with
  | ISocket message =>
      let type := sm_type message in
      if type =? SKYNET_SOCKET_TYPE_DATA then
        _ ← push_socket_data message;
        asks (HFreeData (sm_buffer message))
      else if (type =? SKYNET_SOCKET_TYPE_ERROR) || (type =? SKYNET_SOCKET_TYPE_CLOSE) then
        id ← harbor_id (sm_id message);
        if negb (id =? 0) then report_harbor_down id
        else skynet_error (str "Unkown fd (" ++ fmt_d (sm_id message) ++ str ") closed")
      else if type =? SKYNET_SOCKET_TYPE_CONNECT then mret tt
      else if type =? SKYNET_SOCKET_TYPE_WARNING then
        id ← harbor_id (sm_id message);
        if negb (id =? 0) then
          skynet_error (str "message havn't send to Harbor (" ++ fmt_d id ++ str ") reach " ++ fmt_d (sm_ud message) ++ str " K")
        else mret tt
      else skynet_error (str "recv invalid socket message type " ++ fmt_d PTYPE_SOCKET)
  | ICommand msg sz => harbor_command msg sz session source
  | IRemote r =>
      taken ← (if rmt_handle r =? 0 then remote_send_name source (rmt_name r) (rmt_type r) session (rmt_data r) (rmt_sz r)
               else remote_send_handle source (rmt_handle r) (rmt_type r) session (rmt_data r) (rmt_sz r));
      if taken : bool then mret tt else asks (HFree (rmt_data r))
  | IOther type =>
      _ ← skynet_error (str "recv invalid message from " ++ fmt_x source ++ str ",  type = " ++ fmt_d type);
      if negb (session =? 0) && negb (type =? PTYPE_ERROR) then
        _ ← skynet_send 0 source PTYPE_ERROR session (PBytes []); mret tt
      else mret tt
  end.

(** The result is 1 when there is no slave. *)
Definition harbor_init (args : bytes) : IO harbor Z :=
  '(id, slave) ← lift (sscanf_du args);
  if slave =? 0 then mret 1
  else
    _ ← modify (fun h => Harbor id slave (h_map h) (h_s h));
    _ ← asks HCallback;
    _ ← asks HHarborStart;
    mret 0.
End harbor.
