(* ===== verification/HarborSpec.v ===== *)
(** The harbor service as a hub: for every other node the messages that wait for it and how
    far its connection is, and for every global name its handle and the messages that wait
    for it; and what the queues, the names and the slaves of the code stand for. *)
From S2P Require Import Prelude Handle Cstr Ring Node Netpack Gate Harbor.

(** ** The specification *)

(** The connection to another node: none yet; waiting for the first byte; open, with the
    start of a packet that is not complete; closed because of what the other node sent. *)
Inductive phase := Away | Shaking (fd : Z) | Online (fd : Z) (rest : bytes) | Broken (fd : Z).

Definition phase_fd (ph : phase) : Z := match ph with Away => 0 | Shaking fd | Online fd _ | Broken fd => fd end.

Record peer := Peer { pr_waiting : list harbor_msg; pr_phase : phase }.

(** The messages that wait for a name have no destination but their type. *)
Record hub := Hub { hub_id : Z; hub_slave : Z; hub_names : gmap bytes (Z * list harbor_msg); hub_peers : list peer }.

(** The packets of a stream, and what is left; [None] when the first byte of a packet is
    not zero. *)
Fixpoint cut_loop (fuel : nat) (s : bytes) : list bytes * option bytes :=
  match fuel, s with
  | S fuel, b0 :: b1 :: b2 :: b3 :: r =>
      if negb (b0 =? 0) then ([], None)
      else
        let n := Z.to_nat (b1 * 2 ^ 16 + b2 * 2 ^ 8 + b3) in
        if (length r <? n)%nat then ([], Some s)
        else let '(ps, e) := cut_loop fuel (drop n r) in (take n r :: ps, e)
  | _, _ => ([], Some s)
  end.
Definition cut (s : bytes) : list bytes * option bytes := cut_loop (length s) s.

Definition get {S} : IO S S := gets (fun s => s).
Definition put {S} (s : S) : IO S unit := modify (fun _ => s).

Fixpoint each {S A} (f : A -> IO S unit) (l : list A) : IO S unit :=
  match l with [] => mret tt | x :: l => _ ← f x; each f l end.

Definition free_all {S} (ms : list harbor_msg) : IO S unit := each (fun m => asks (HFree (hm_buffer m))) ms.

Definition be32 (b : bytes) : Z := foldl (fun a x => a * 256 + x) 0 b.

(** The number of messages that wait is an [int]. *)
Definition room (n : nat) : bool := Z.of_nat n <? 2 ^ 30.

Section spec.
Context (mem : Z -> bytes) (refused : list act -> bool).

Definition p_push (m : harbor_msg) : IO peer unit :=
  p ← get;
  if room (S (length (pr_waiting p))) then put (Peer (pr_waiting p ++ [m]) (pr_phase p)) else lift Undefined.

Definition p_close : IO peer unit :=
  p ← get;
  _ ← asks (HSocketClose (phase_fd (pr_phase p)));
  _ ← free_all (pr_waiting p);
  put (Peer [] (Broken (phase_fd (pr_phase p)))).

Definition p_flush (fd : Z) : IO peer unit :=
  p ← get;
  _ ← each (sent_on mem fd) (pr_waiting p);
  put (Peer [] (pr_phase p)).

(** A packet is the content and 12 bytes: the source, the type and the handle in the node,
    and the session. *)
Definition arrive {S} (self : Z) (p : bytes) : IO S unit :=
  if (length p <? 12)%nat then lift Undefined
  else
    let n := (length p - 12)%nat in
    let source := be32 (take 4 (drop n p)) in
    let word := be32 (take 4 (drop (n + 4) p)) in
    let session := s32 (be32 (drop (n + 8) p)) in
    let type := word / 2 ^ 24 in
    let destination := word mod 2 ^ 24 + self mod 2 ^ 8 * 2 ^ 24 in
    r ← skynet_send refused source destination (Z.lor type PTYPE_TAG_DONTCOPY) session (PBytes (take n p));
    if r <? 0 then
      _ ← (if negb (type =? PTYPE_ERROR) then
             _ ← skynet_send refused destination source PTYPE_ERROR session (PBytes []); mret tt
           else mret tt);
      skynet_error (str "Unknown destination :" ++ fmt_x destination ++ str " from :" ++ fmt_x source ++
                    str " type(" ++ fmt_d type ++ str ")")
    else mret tt.

Definition p_stream (self id : Z) (chunk : bytes) : IO peer unit :=
  p ← get;
  match pr_phase p with
  | Online fd rest =>
      _ ← each (arrive self) (cut (rest ++ chunk)).1;
      match (cut (rest ++ chunk)).2 with
      | Some rest => put (Peer (pr_waiting p) (Online fd rest))
      | None => _ ← skynet_error (str "Message is too long from harbor " ++ fmt_d id); p_close
      end
  | _ => mret tt
  end.

Definition p_data (self id : Z) (chunk : bytes) : IO peer unit :=
  p ← get;
  match pr_phase p, chunk with
  | Shaking fd, [] => lift Undefined
  | Shaking fd, b :: chunk =>
      if negb (b =? id) then
        _ ← skynet_error (str "Invalid shakehand id (" ++ fmt_d id ++ str ") from fd = " ++ fmt_d fd ++
                          str " , harbor = " ++ fmt_d b);
        p_close
      else
        _ ← put (Peer (pr_waiting p) (Online fd []));
        _ ← p_flush fd;
        p_stream self id chunk
  | Online _ _, _ => p_stream self id chunk
  | _, _ => mret tt
  end.

(** ** The hub *)

Definition at_peer {A} (id : Z) (m : IO peer A) : IO hub A := fun a l =>
  p ← arr_get (hub_peers a) id;
  '(x, p, l) ← m p l;
  peers ← arr_set (hub_peers a) id p;
  Ret (x, Hub (hub_id a) (hub_slave a) (hub_names a) peers, l).

Definition name_entry (name : bytes) : IO hub (Z * list harbor_msg) :=
  names ← gets hub_names; mret (default (0, []) (names !! name)).
Definition set_name (name : bytes) (e : Z * list harbor_msg) : IO hub unit :=
  modify (fun a => Hub (hub_id a) (hub_slave a) (<[name := e]> (hub_names a)) (hub_peers a)).

Definition hub_send_handle (source destination type session msg sz : Z) : IO hub bool :=
  self ← gets hub_id;
  if destination / 2 ^ 24 =? self then
    _ ← skynet_send refused source destination (Z.lor type PTYPE_TAG_DONTCOPY) session (PPtr msg sz);
    mret true
  else
    at_peer (destination / 2 ^ 24) (
      let header := Header source (type mod 2 ^ 8 * 2 ^ 24 + destination mod 2 ^ 24) (u32 session) in
      p ← get;
      match pr_phase p with
      | Away | Shaking _ => _ ← p_push (HarborMsg header msg sz); mret true
      | Online fd _ | Broken fd => _ ← send_remote mem fd msg sz header; mret false
      end).

(** A name is padded with zeros. *)
Definition name_ok (name : bytes) : bool :=
  bool_decide (length name = 16%nat /\ is_bytes name /\ name = until_zero name ++ replicate (16 - length (until_zero name)) 0).

Definition hub_send_name (source : Z) (name : bytes) (type session msg sz : Z) : IO hub bool :=
  if negb (name_ok name) then lift Undefined
  else
    '(handle, ms) ← name_entry name;
    if handle =? 0 then
      if room (S (length ms)) then
        _ ← set_name name (0, ms ++ [HarborMsg (Header source (type mod 2 ^ 8 * 2 ^ 24) (u32 session)) msg sz]);
        slave ← gets hub_slave;
        _ ← skynet_send refused 0 slave PTYPE_TEXT 0 (PBytes (str "Q " ++ until_zero name));
        mret true
      else lift Undefined
    else
      _ ← set_name name (handle, ms);
      hub_send_handle source handle type session msg sz.

(** A message that waited for a name. *)
Definition with_handle (handle : Z) (m : harbor_msg) : harbor_msg :=
  HarborMsg (Header (rh_source (hm_header m)) (Z.lor (rh_destination (hm_header m)) (handle mod 2 ^ 24)) (rh_session (hm_header m)))
    (hm_buffer m) (hm_size m).

Definition send_here {S} (handle : Z) (m : harbor_msg) : IO S unit :=
  _ ← skynet_send refused (rh_source (hm_header m)) handle (Z.lor (rh_destination (hm_header m) / 2 ^ 24) PTYPE_TAG_DONTCOPY)
        (s32 (rh_session (hm_header m))) (PPtr (hm_buffer m) (hm_size m));
  mret tt.

(** What becomes of the messages that waited for a name: when its node is not connected, they
    wait for the node, as they are. *)
Definition p_resolved (slave handle : Z) (ms : list harbor_msg) : IO peer unit :=
  p ← get;
  match pr_phase p with
  | Away =>
      let ms := pr_waiting p ++ ms in
      if negb (room (length ms)) then lift Undefined
      else if handle / 2 ^ 24 =? slave / 2 ^ 24 then _ ← each (send_here handle) ms; put (Peer [] Away)
      else put (Peer ms Away)
  | ph => each (fun m => sent_on mem (phase_fd ph) (with_handle handle m)) ms
  end.

Definition hub_update_name (name : bytes) (handle : Z) : IO hub unit :=
  '(_, ms) ← name_entry name;
  _ ← set_name name (handle, []);
  if bool_decide (ms = []) then mret tt
  else slave ← gets hub_slave; at_peer (handle / 2 ^ 24) (p_resolved slave handle ms).

Definition p_connect (self : Z) (shake : bool) (id fd : Z) : IO peer unit :=
  p ← get;
  if negb (phase_fd (pr_phase p) =? 0) then skynet_error (str "Harbor " ++ fmt_d id ++ str " alreay exist")
  else
    _ ← asks (HSocketStart fd);
    _ ← asks (HSocketSend fd [u8 self] 1);
    if shake then put (Peer (pr_waiting p) (Shaking fd))
    else _ ← put (Peer (pr_waiting p) (Online fd [])); p_flush fd.

(** The text of a command is followed by a zero, and has no zeros. *)
Definition command_ok (msg : bytes) (sz : Z) : bool :=
  (2 <=? sz) && (sz <? 2 ^ 31) && (Z.of_nat (length msg) =? sz + 1) && (default 1 (last msg) =? 0) &&
  bool_decide (0 ∉ take (Z.to_nat sz) msg) && bool_decide (is_bytes msg).

Definition hub_command (msg : bytes) (sz source : Z) : IO hub unit :=
  if negb (command_ok msg sz) then lift Undefined
  else
    let text := take (Z.to_nat sz) msg in
    let args := drop 2 text in
    let c := default 0 (head text) in
    if c =? 78 then
      if (Z.of_nat (length args) <=? 0) || (16 <=? Z.of_nat (length args)) then
        skynet_error (str "Invalid global name " ++ args)
      else hub_update_name (args ++ replicate (16 - length args) 0) source
    else if (c =? 83) || (c =? 65) then
      '(fd, id) ← lift (sscanf_dd args);
      if (fd =? 0) || (id <=? 0) || (256 <=? id) then skynet_error (str "Invalid command " ++ [c] ++ str " " ++ args)
      else self ← gets hub_id; at_peer id (p_connect self (c =? 83) id fd)
    else skynet_error (str "Unknown command " ++ text).

(** The first node with the socket [fd]. *)
Fixpoint peer_of (fd : Z) (ps : list peer) (i : Z) : Z :=
  match ps with [] => 0 | p :: ps => if phase_fd (pr_phase p) =? fd then i else peer_of fd ps (i + 1) end.

Definition hub_id_of (fd : Z) : IO hub Z := ps ← gets hub_peers; mret (peer_of fd (drop 1 ps) 1).

Definition hub_socket (message : skynet_socket_message) : IO hub unit :=
  id ← hub_id_of (sm_id message);
  if sm_type message =? SKYNET_SOCKET_TYPE_DATA then
    match sm_buffer message with
    | None => lift Undefined
    | Some chunk =>
        if negb ((sm_ud message =? Z.of_nat (length chunk)) && bool_decide (is_bytes chunk)) then lift Undefined
        else
          _ ← (if id =? 0 then skynet_error (str "Invalid socket fd (" ++ fmt_d (sm_id message) ++ str ") data")
               else self ← gets hub_id; at_peer id (p_data self id chunk));
          asks (HFreeData (sm_buffer message))
    end
  else if (sm_type message =? SKYNET_SOCKET_TYPE_ERROR) || (sm_type message =? SKYNET_SOCKET_TYPE_CLOSE) then
    if id =? 0 then skynet_error (str "Unkown fd (" ++ fmt_d (sm_id message) ++ str ") closed")
    else slave ← gets hub_slave; _ ← skynet_send refused 0 slave PTYPE_TEXT 0 (PBytes (str "D " ++ fmt_d id)); mret tt
  else if sm_type message =? SKYNET_SOCKET_TYPE_CONNECT then mret tt
  else if sm_type message =? SKYNET_SOCKET_TYPE_WARNING then
    if id =? 0 then mret tt
    else skynet_error (str "message havn't send to Harbor (" ++ fmt_d id ++ str ") reach " ++ fmt_d (sm_ud message) ++ str " K")
  else skynet_error (str "recv invalid socket message type " ++ fmt_d PTYPE_SOCKET).

Definition hub_step (msg : harbor_input) (session source : Z) : IO hub unit :=
  match msg with
  | ISocket message => hub_socket message
  | ICommand msg sz => hub_command msg sz source
  | IRemote r =>
      taken ← (if rmt_handle r =? 0 then hub_send_name source (rmt_name r) (rmt_type r) session (rmt_data r) (rmt_sz r)
               else hub_send_handle source (rmt_handle r) (rmt_type r) session (rmt_data r) (rmt_sz r));
      if taken : bool then mret tt else asks (HFree (rmt_data r))
  | IOther type =>
      _ ← skynet_error (str "recv invalid message from " ++ fmt_x source ++ str ",  type = " ++ fmt_d type);
      if negb (session =? 0) && negb (type =? PTYPE_ERROR) then
        _ ← skynet_send refused 0 source PTYPE_ERROR session (PBytes []); mret tt
      else mret tt
  end.
End spec.

(** ** Programs that only act *)

(** [f] does what [g] does, and neither changes its state. *)
Definition echo {S S' A} (f : IO S A) (g : IO S' A) : Prop := forall a l x a' l', g a l = Ret (x, a', l') ->
  a' = a /\ forall h, f h l = Ret (x, h, l').

Lemma hio_inv {S A B} (m : IO S A) (f : A -> IO S B) a l r : (m ≫= f) a l = Ret r ->
  exists x a' l', m a l = Ret (x, a', l') /\ f x a' l' = Ret r.
Proof. unfold mbind, hio_bind. destruct (m a l) as [[[x a'] l']| | |]; [|done..]. intros H. by exists x, a', l'. Qed.

Lemma hio_step {S A B} (m : IO S A) (f : A -> IO S B) a l x a' l' : m a l = Ret (x, a', l') -> (m ≫= f) a l = f x a' l'.
Proof. unfold mbind, hio_bind. by intros ->. Qed.

Create HintDb echo.

Section echo.
Context {S S' : Type}.

Lemma echo_ret {A} (x : A) : echo (S := S) (S' := S') (mret x) (mret x).
Proof. intros a l y a' l' [=<- <- <-]. done. Qed.

Lemma echo_asks a : echo (S := S) (S' := S') (asks a) (asks a).
Proof. intros b l y a' l' [=<- <- <-]. done. Qed.

Lemma echo_lift {A} (o : outcome A) : echo (S := S) (S' := S') (lift o) (lift o).
Proof. intros b l y a' l'. unfold lift. destruct o; [|done..]. intros [=<- <- <-]. done. Qed.

Lemma echo_bind {A B} (m : IO S A) (m' : IO S' A) (f : A -> IO S B) (f' : A -> IO S' B) :
  echo m m' -> (forall x, echo (f x) (f' x)) -> echo (m ≫= f) (m' ≫= f').
Proof.
  intros Hm Hf a l x a' l' (y & a1 & l1 & H1 & H2)%hio_inv. destruct (Hm _ _ _ _ _ H1) as [-> E1].
  destruct (Hf _ _ _ _ _ _ H2) as [-> E2]. split; [done|]. intros h. by rewrite (hio_step _ _ _ _ _ _ _ (E1 h)).
Qed.

Lemma echo_if {A} (b : bool) (m n : IO S A) (m' n' : IO S' A) : echo m m' -> echo n n' -> echo (if b then m else n) (if b then m' else n').
Proof. by destruct b. Qed.

Lemma echo_each {A} (f : A -> IO S unit) (g : A -> IO S' unit) ms : (forall m, echo (f m) (g m)) -> echo (each f ms) (each g ms).
Proof. intros H. induction ms as [|m ms IH]; [apply echo_ret|]. by apply echo_bind. Qed.
End echo.

#[export] Hint Resolve echo_ret echo_asks echo_lift echo_each : echo.
#[export] Hint Resolve echo_bind | 5 : echo.
#[export] Hint Resolve echo_if | 6 : echo.

Section actions.
Context (mem : Z -> bytes) (refused : list act -> bool) {S S' : Type}.

Lemma echo_send source dest type session msg :
  echo (S := S) (S' := S') (skynet_send refused source dest type session msg) (skynet_send refused source dest type session msg).
Proof. intros b l y a' l' [=<- <- <-]. done. Qed.
Hint Resolve echo_send : echo.

Lemma echo_error text : echo (S := S) (S' := S') (skynet_error text) (skynet_error text).
Proof. apply echo_asks. Qed.
Hint Resolve echo_error : echo.

Lemma echo_send_remote fd p sz c : echo (S := S) (S' := S') (send_remote mem fd p sz c) (send_remote mem fd p sz c).
Proof. unfold send_remote. cbv zeta. auto with echo. Qed.
Hint Resolve echo_send_remote : echo.

Lemma echo_sent_on fd m : echo (S := S) (S' := S') (sent_on mem fd m) (sent_on mem fd m).
Proof. unfold sent_on. auto with echo. Qed.

Lemma echo_free_all ms : echo (S := S) (S' := S') (free_all ms) (free_all ms).
Proof. unfold free_all. auto with echo. Qed.

Lemma echo_arrive self p : echo (S := S) (S' := S') (arrive refused self p) (arrive refused self p).
Proof. unfold arrive. cbv zeta. apply echo_if; [apply echo_lift|]. apply echo_bind; [apply echo_send|]. intros r. apply echo_if; auto with echo. Qed.

Lemma echo_send_local handle m : echo (S := S) (S' := S') (send_local refused handle m) (send_here refused handle m).
Proof. unfold send_local, send_here. rewrite Z.shiftr_div_pow2 by done. auto with echo. Qed.

Lemma echo_send_named fd handle m : echo (S := S) (S' := S') (send_named mem fd handle m) (sent_on mem fd (with_handle handle m)).
Proof.
  unfold send_named, with_handle. assert (Z.land handle HANDLE_MASK = handle mod 2 ^ 24) as ->; [|apply echo_sent_on].
  unfold HANDLE_MASK. change 0xffffff with (2 ^ 24 - 1). apply land_ones_pow2. lia.
Qed.

Lemma echo_send_here handle m : echo (S := S) (S' := S') (send_here refused handle m) (send_here refused handle m).
Proof. unfold send_here. auto with echo. Qed.
End actions.

#[export] Hint Resolve echo_send echo_error echo_send_remote echo_sent_on echo_free_all echo_arrive echo_send_here : echo.

(** ** The queues *)

(** [q] holds the messages [ms]. *)
Record qrepr (q : harbor_msg_queue) (ms : list harbor_msg) : Prop := {
  qr_ring : ring (hq_data q) (hq_size q) (hq_head q) ms;
  qr_tail : hq_tail q = (hq_head q + Z.of_nat (length ms)) mod hq_size q;
  qr_len : Z.of_nat (length ms) < hq_size q }.

Lemma new_queue_repr : qrepr new_queue [].
Proof. split; [apply ring_nil; [done|by compute]|done|done]. Qed.

Lemma zrange_copy buf cap head (ms : list harbor_msg) n : ring buf cap head ms -> (n = length ms)%nat ->
  mapM (fun i => arr_get buf ((i + head) mod cap)) (zrange 0 (Z.of_nat n)) = Ret (Some <$> ms).
Proof.
  intros Hr ->. unfold zrange. rewrite Z.sub_0_r.
  apply (mapM_ext_seqZ (fun i => arr_get buf ((head + i) mod cap))); [intros i _; by rewrite (Z.add_comm i)|].
  rewrite (ring_copy _ _ _ _ _ Hr) by done. by rewrite take_ge.
Qed.

Lemma full_iff q ms : qrepr q ms -> ((hq_tail q + 1) mod hq_size q =? hq_head q) = (Z.of_nat (length ms) =? hq_size q - 1).
Proof.
  intros [Hr Ht Hl]. destruct Hr as [_ Hh _ _]. rewrite Ht, Zplus_mod_idemp_l, <- Z.add_assoc. rewrite ring_index by lia.
  destruct (decide _); zcases; lia.
Qed.

Lemma expand_msgs_repr q ms : qrepr q ms -> Z.of_nat (length ms) = hq_size q - 1 -> hq_size q < 2 ^ 30 ->
  exists q', expand_msgs q = Ret q' /\ qrepr q' ms /\ Z.of_nat (length ms) + 1 < hq_size q'.
Proof.
  intros [Hr Ht Hl] Hf Hs. pose proof Hr as [Hlen Hh _ _]. unfold expand_msgs. rewrite int_ok_Ret by (unfold INT_MIN, INT_MAX; lia).
  rewrite bind_Ret. rewrite <- Hf, (zrange_copy _ _ _ ms) by done. rewrite bind_Ret. eexists. split; [reflexivity|].
  split; [|cbn; lia]. split; cbn [hq_data hq_size hq_head hq_tail]; [|rewrite Z.mod_small; lia|lia].
  split; [|lia|lia|].
  - rewrite length_app, length_fmap, length_replicate. lia.
  - intros i m Hi. pose proof (lookup_lt_Some _ _ _ Hi). rewrite Z.mod_small, Z.add_0_l, arr_lookup_nat by lia.
    rewrite lookup_app_l by (rewrite length_fmap; lia). by rewrite list_lookup_fmap, Hi.
Qed.

Lemma push_repr q ms m : qrepr q ms -> room (S (length ms)) = true -> exists q', push_queue_msg q m = Ret q' /\ qrepr q' (ms ++ [m]).
Proof.
  intros Hq Hroom. unfold room in Hroom. apply Z.ltb_lt in Hroom.
  assert (exists q', (if (hq_tail q + 1) mod hq_size q =? hq_head q then expand_msgs q else Ret q) = Ret q' /\
    qrepr q' ms /\ Z.of_nat (length ms) + 1 < hq_size q') as (q' & E & [Hr Ht Hl] & Hlt).
  { rewrite (full_iff q ms Hq). destruct (Z.eqb_spec (Z.of_nat (length ms)) (hq_size q - 1)).
    - apply expand_msgs_repr; [done|done|lia].
    - exists q. split; [done|]. split; [done|]. destruct Hq. lia. }
  unfold push_queue_msg. rewrite E, bind_Ret. pose proof Hr as [_ Hh _ _].
  destruct (ring_push _ _ _ _ m Hr) as [E2 Hr2]; [lia|]. rewrite Ht, E2, bind_Ret. eexists. split; [reflexivity|].
  split; cbn [hq_data hq_size hq_head hq_tail]; [done| |rewrite length_app; cbn; lia].
  rewrite Zplus_mod_idemp_l, length_app. cbn. f_equal. lia.
Qed.

Lemma pop_nil q : qrepr q [] -> pop_queue q = Ret (None, q).
Proof.
  intros [Hr Ht Hl]. pose proof Hr as [_ Hh _ _]. unfold pop_queue. rewrite Ht. cbn [length]. rewrite Z.add_0_r, Z.mod_small by lia.
  by rewrite Z.eqb_refl.
Qed.

Lemma pop_cons q m ms : qrepr q (m :: ms) -> exists q', pop_queue q = Ret (Some m, q') /\ qrepr q' ms.
Proof.
  intros [Hr Ht Hl]. pose proof Hr as [_ Hh _ _]. unfold pop_queue. cbn [length] in *.
  assert ((hq_head q =? hq_tail q) = false) as ->.
  { rewrite Ht, ring_index by lia. destruct (decide _); zcases; lia. }
  destruct (ring_pop _ _ _ _ _ Hr) as [E Hr']. unfold arr_get. rewrite E. cbn [deref]. rewrite !bind_Ret.
  eexists. split; [reflexivity|]. split; cbn [hq_data hq_size hq_head hq_tail]; [done| |lia].
  rewrite Ht, Zplus_mod_idemp_l. f_equal. lia.
Qed.

Lemma queue_fuel_enough q ms : qrepr q ms -> (length ms < queue_fuel q)%nat.
Proof. intros [_ _ Hl]. unfold queue_fuel. lia. Qed.

Lemma drain_each {S S'} (f : harbor_msg -> IO S unit) (g : harbor_msg -> IO S' unit) fuel : (forall m, echo (f m) (g m)) ->
  forall ms q a l x a' l', qrepr q ms -> (length ms < fuel)%nat -> each g ms a l = Ret (x, a', l') ->
  a' = a /\ exists q', qrepr q' [] /\ forall h, drain fuel f q h l = Ret (q', h, l').
Proof.
  intros Hfg. induction fuel as [|fuel IH]; intros ms q a l x a' l' Hq Hf H; [lia|]. destruct ms as [|m ms].
  - cbn in H. injection H as _ <- <-. split; [done|]. exists q. split; [done|]. intros h. cbn [drain].
    rewrite (hio_step _ _ h l (None, q) h l) by (unfold lift; by rewrite (pop_nil q Hq)). done.
  - cbn [each] in H. apply hio_inv in H as (y & a1 & l1 & H1 & H2). destruct (Hfg _ _ _ _ _ _ H1) as [-> E1].
    destruct (pop_cons q m ms Hq) as (q1 & E & Hq1). cbn [length] in Hf.
    destruct (IH ms q1 _ _ _ _ _ Hq1 ltac:(lia) H2) as (-> & q2 & Hq2 & E2). split; [done|]. exists q2. split; [done|].
    intros h. cbn [drain]. rewrite (hio_step _ _ h l (Some m, q1) h l) by (unfold lift; by rewrite E).
    rewrite (hio_step _ _ _ _ _ _ _ (E1 h)). apply E2.
Qed.

Lemma release_each {S S'} q ms (a : S') l x a' l' : qrepr q ms -> free_all ms a l = Ret (x, a', l') ->
  a' = a /\ forall h : S, release_queue (Some q) h l = Ret (tt, h, l').
Proof.
  intros Hq H. destruct (drain_each (S := S) (fun m => asks (HFree (hm_buffer m))) (fun m => asks (HFree (hm_buffer m)))
    (queue_fuel q) (fun m => echo_asks _) ms q a l x a' l' Hq (queue_fuel_enough q ms Hq) H) as (-> & q' & _ & E).
  split; [done|]. intros h. unfold release_queue. by rewrite (hio_step _ _ _ _ _ _ _ (E h)).
Qed.

Lemma release_empty {S} q (h : S) l : qrepr q [] -> release_queue (Some q) h l = Ret (tt, h, l).
Proof. intros Hq. by destruct (release_each (S := S) (S' := unit) q [] tt l tt tt l Hq eq_refl) as [_ E]. Qed.

Lemma move_repr fuel : forall ms q to ts, qrepr q ms -> qrepr to ts -> (length ms < fuel)%nat -> room (length (ts ++ ms)) = true ->
  exists q' to', move_queue fuel q to = Ret (q', to') /\ qrepr q' [] /\ qrepr to' (ts ++ ms).
Proof.
  induction fuel as [|fuel IH]; intros ms q to ts Hq Ht Hf Hroom; [lia|]. cbn [move_queue]. destruct ms as [|m ms].
  - rewrite (pop_nil q Hq), bind_Ret. exists q, to. by rewrite app_nil_r.
  - destruct (pop_cons q m ms Hq) as (q1 & E & Hq1). rewrite E, bind_Ret. unfold room in Hroom. apply Z.ltb_lt in Hroom.
    rewrite length_app in Hroom. cbn [length] in *.
    destruct (push_repr to ts m Ht) as (to1 & E1 & Ht1); [apply Z.ltb_lt; lia|]. rewrite E1, bind_Ret.
    destruct (IH ms q1 to1 (ts ++ [m]) Hq1 Ht1) as (q2 & to2 & E2 & Hq2 & Ht2); [lia|apply Z.ltb_lt; rewrite !length_app; cbn; lia|].
    exists q2, to2. by rewrite <- app_assoc in Ht2.
Qed.

(** ** The names *)

Lemma arr_lookup_Some {A} (l : list A) i x : arr_lookup l i = Some x -> 0 <= i < Z.of_nat (length l) /\ l !! Z.to_nat i = Some x.
Proof. intros H. pose proof (arr_lookup_lt _ _ _ H). split; [done|]. by rewrite arr_lookup_nonneg in H by lia. Qed.

Definition kqueue_repr (oq : option harbor_msg_queue) (ms : list harbor_msg) : Prop :=
  match oq with None => ms = [] | Some q => ms <> [] /\ qrepr q ms end.

(** The map stands for [names]; every node is in the chain of its hash, once. *)
Record names_repr (map : hashmap) (names : gmap bytes (Z * list harbor_msg)) : Prop := {
  nr_chains : length (hm_chains map) = 4096%nat;
  nr_node : forall i n, hm_nodes map !! i = Some n ->
    name_ok (kv_key n) = true /\ name_hash (kv_key n) = Ret (kv_hash n) /\
    (exists c, arr_lookup (hm_chains map) (kv_hash n mod HASH_SIZE) = Some c /\ i ∈ c) /\
    (exists ms, kqueue_repr (kv_queue n) ms /\ names !! kv_key n = Some (kv_value n, ms));
  nr_perm : concat (hm_chains map) ≡ₚ seq 0 (length (hm_nodes map));
  nr_dom : forall name e, names !! name = Some e -> exists i n, hm_nodes map !! i = Some n /\ kv_key n = name;
  nr_nodup : NoDup (kv_key <$> hm_nodes map) }.

Lemma name_ok_spec name : name_ok name = true <->
  length name = 16%nat /\ is_bytes name /\ name = until_zero name ++ replicate (16 - length (until_zero name)) 0.
Proof. unfold name_ok. apply bool_decide_eq_true. Qed.

Lemma same_name_ok a b : name_ok a = true -> name_ok b = true -> same_name a b = bool_decide (a = b).
Proof.
  intros (Ha & _ & Ea)%name_ok_spec (Hb & _ & Eb)%name_ok_spec. unfold same_name.
  change (Z.to_nat GLOBALNAME_LENGTH) with 16%nat. rewrite !take_ge by lia. apply bool_decide_ext. split; [|by intros ->].
  intros E. rewrite Ea, Eb. by rewrite E.
Qed.

Lemma name_word_ok name i : length name = 16%nat -> 0 <= i -> i + 3 < 16 -> exists w, name_word name i = Ret w.
Proof.
  intros Hl H0 Hi. unfold name_word, arr_get.
  assert (Hk : forall j, 0 <= j < 16 -> exists b, arr_lookup name j = Some b).
  { intros j Hj. apply arr_lookup_is_Some. lia. }
  destruct (Hk i) as [b0 ->]; [lia|]. destruct (Hk (i + 1)) as [b1 ->]; [lia|]. destruct (Hk (i + 2)) as [b2 ->]; [lia|].
  destruct (Hk (i + 3)) as [b3 ->]; [lia|]. cbn. by eexists.
Qed.

Lemma name_hash_ok name : length name = 16%nat -> exists h, name_hash name = Ret h.
Proof.
  intros Hl. unfold name_hash. destruct (name_word_ok name 0 Hl) as [w0 ->]; [lia..|]. destruct (name_word_ok name 4 Hl) as [w1 ->]; [lia..|].
  destruct (name_word_ok name 8 Hl) as [w2 ->]; [lia..|]. destruct (name_word_ok name 12 Hl) as [w3 ->]; [lia..|]. by eexists.
Qed.

Section names.
Context (map : hashmap) (names : gmap bytes (Z * list harbor_msg)) (Hr : names_repr map names).
Context (name : bytes) (Hname : name_ok name = true).

Lemma chain_member b c i : hm_chains map !! b = Some c -> i ∈ c -> exists n, hm_nodes map !! i = Some n.
Proof.
  intros Hb Hi. assert (i ∈ concat (hm_chains map)) as H.
  { apply list_elem_of_In, in_concat. exists c. split; apply list_elem_of_In; [|done]. by eapply list_elem_of_lookup_2. }
  rewrite (nr_perm _ _ Hr), elem_of_seq in H. apply lookup_lt_is_Some. lia.
Qed.

Lemma search_chain_spec h c : name_hash name = Ret h -> (forall i, i ∈ c -> exists n, hm_nodes map !! i = Some n) ->
  (exists i n, search_chain map c h name = Ret (Some i) /\ hm_nodes map !! i = Some n /\ kv_key n = name) \/
  (search_chain map c h name = Ret None /\ forall i n, i ∈ c -> hm_nodes map !! i = Some n -> kv_key n <> name).
Proof.
  intros Hh. induction c as [|i c IH]; intros Hc; cbn [search_chain].
  { right. split; [done|]. intros i n Hi. by apply elem_of_nil in Hi. }
  destruct (Hc i ltac:(constructor)) as [n Hn]. unfold get_node. rewrite Hn. cbn [deref]. rewrite bind_Ret.
  destruct (nr_node _ _ Hr i n Hn) as (Hok & Hkh & _). rewrite (same_name_ok _ _ Hok Hname).
  destruct (bool_decide_reflect (kv_key n = name)) as [E|NE].
  - rewrite E, Hh in Hkh. injection Hkh as Eh. rewrite <- Eh, Z.eqb_refl. cbn [andb]. left. by exists i, n.
  - rewrite andb_false_r. destruct IH as [IH|[E1 E2]]; [intros j Hj; apply Hc; by constructor|by left|].
    right. split; [done|]. intros j m [->|Hj]%elem_of_cons Hm; [by simplify_eq|by eapply E2].
Qed.

Lemma bucket_ok h : name_hash name = Ret h -> exists c, arr_lookup (hm_chains map) (h mod HASH_SIZE) = Some c.
Proof. intros _. apply arr_lookup_is_Some. rewrite (nr_chains _ _ Hr). apply Z.mod_pos_bound. done. Qed.

Lemma hash_search_spec :
  (exists i n, hash_search map name = Ret (Some i) /\ hm_nodes map !! i = Some n /\ kv_key n = name) \/
  (hash_search map name = Ret None /\ names !! name = None).
Proof.
  destruct (proj1 (name_ok_spec name) Hname) as (Hl & _). destruct (name_hash_ok name Hl) as [h Hh]. unfold hash_search.
  destruct (bucket_ok h Hh) as [c Hc]. rewrite Hh, bind_Ret. unfold arr_get. rewrite Hc. cbn [deref]. rewrite bind_Ret.
  destruct (arr_lookup_Some _ _ _ Hc) as [_ Hc'].
  destruct (search_chain_spec h c Hh) as [H|[E Hno]]; [intros i; by apply (chain_member _ c i Hc')|by left|].
  right. split; [done|]. destruct (names !! name) as [e|] eqn:He; [|done]. exfalso.
  destruct (nr_dom _ _ Hr name e He) as (i & n & Hn & Hk). destruct (nr_node _ _ Hr i n Hn) as (_ & Hkh & (c' & Hc2 & Hi) & _).
  rewrite Hk, Hh in Hkh. injection Hkh as Eh. rewrite <- Eh, Hc in Hc2. injection Hc2 as <-. by eapply Hno.
Qed.

(** A node of [map] is changed. *)
Lemma node_update i n n' ms : hm_nodes map !! i = Some n -> kv_key n' = kv_key n -> kv_hash n' = kv_hash n ->
  kqueue_repr (kv_queue n') ms ->
  names_repr (HashMap (hm_chains map) (<[i := n']> (hm_nodes map))) (<[kv_key n := (kv_value n', ms)]> names).
Proof.
  intros Hi Hk Hh Hq. pose proof (lookup_lt_Some _ _ _ Hi) as Hlt. split; cbn [hm_chains hm_nodes].
  - apply (nr_chains _ _ Hr).
  - intros j m Hj. destruct (decide (j = i)) as [->|Hne].
    + rewrite list_lookup_insert_eq in Hj by done. injection Hj as <-. rewrite Hk, Hh.
      destruct (nr_node _ _ Hr i n Hi) as (H1 & H2 & H3 & _). repeat split; [done|done|done|]. exists ms. by rewrite lookup_insert_eq.
    + rewrite list_lookup_insert_ne in Hj by done. destruct (nr_node _ _ Hr j m Hj) as (H1 & H2 & H3 & ms' & H4 & H5).
      repeat split; [done|done|done|]. exists ms'. split; [done|]. rewrite lookup_insert_ne; [done|]. intros E. apply Hne.
      eapply (NoDup_lookup _ _ _ _ (nr_nodup _ _ Hr)); rewrite list_lookup_fmap; [by rewrite Hj|by rewrite Hi; cbn; rewrite E].
  - rewrite length_insert. apply (nr_perm _ _ Hr).
  - intros k e. destruct (decide (k = kv_key n)) as [->|Hne].
    + intros _. exists i, n'. by rewrite list_lookup_insert_eq.
    + rewrite lookup_insert_ne by done. intros (j & m & Hj & Hkm)%(nr_dom _ _ Hr). exists j, m. split; [|done].
      rewrite list_lookup_insert_ne; [done|]. intros ->. rewrite Hi in Hj. injection Hj as <-. done.
  - rewrite list_fmap_insert, list_insert_id; [apply (nr_nodup _ _ Hr)|]. rewrite list_lookup_fmap, Hi. cbn. by rewrite Hk.
Qed.

Lemma concat_insert_perm (l : list (list nat)) b c x : l !! b = Some c -> concat (<[b := x :: c]> l) ≡ₚ x :: concat l.
Proof.
  intros Hb. rewrite (insert_take_drop l b (x :: c)) by (by eapply lookup_lt_Some).
  rewrite <- (take_drop_middle l b c Hb) at 3. rewrite !concat_app. cbn. by rewrite <- Permutation_middle.
Qed.

(** A node for a new name. *)
Lemma hash_insert_spec : names !! name = None ->
  exists map' n, hash_insert map name = Ret (length (hm_nodes map), map') /\ hm_nodes map' !! length (hm_nodes map) = Some n /\
    kv_key n = name /\ names_repr map' (<[name := (0, [])]> names).
Proof.
  intros Hnone. destruct (proj1 (name_ok_spec name) Hname) as (Hl & _). destruct (name_hash_ok name Hl) as [h Hh].
  destruct (bucket_ok h Hh) as [c Hc]. destruct (arr_lookup_Some _ _ _ Hc) as [Hb0 Hc'].
  unfold hash_insert. rewrite Hh, bind_Ret. unfold arr_get. rewrite Hc. cbn [deref]. rewrite bind_Ret.
  pose proof (lookup_lt_Some _ _ _ Hc') as Hlt. rewrite arr_set_Ret by lia. rewrite bind_Ret. eexists _, _. split; [reflexivity|].
  cbn [hm_nodes hm_chains]. split; [by rewrite lookup_app_r, Nat.sub_diag by lia|]. split; [done|]. split; cbn [hm_nodes hm_chains].
  - rewrite length_insert. apply (nr_chains _ _ Hr).
  - intros i n Hi. rewrite lookup_app in Hi. destruct (hm_nodes map !! i) as [m|] eqn:Hm.
    + injection Hi as <-. destruct (nr_node _ _ Hr i m Hm) as (H1 & H2 & (c2 & Hc2 & Hi2) & ms & H3 & H4). repeat split; [done|done| |].
      * rewrite arr_lookup_insert by lia. destruct (decide _) as [E|NE]; [|by exists c2].
        rewrite <- E, Hc in Hc2. injection Hc2 as <-. exists (length (hm_nodes map) :: c). split; [done|by right].
      * exists ms. split; [done|]. rewrite lookup_insert_ne; [done|]. intros ->. by rewrite Hnone in H4.
    + apply lookup_ge_None in Hm. destruct (i - length (hm_nodes map))%nat as [|k] eqn:Ek; [|done]. injection Hi as <-. cbn.
      repeat split; [done|done| |].
      * rewrite arr_lookup_insert by lia. rewrite decide_True by done. eexists. split; [done|].
        assert (i = length (hm_nodes map)) as -> by lia. by left.
      * exists []. split; [done|]. by rewrite lookup_insert_eq.
  - rewrite concat_insert_perm by done. rewrite (nr_perm _ _ Hr), length_app. cbn [length]. rewrite Nat.add_1_r, seq_S. cbn.
    by rewrite Permutation_cons_append.
  - intros k e. destruct (decide (k = name)) as [->|Hne].
    + intros _. exists (length (hm_nodes map)). eexists. by rewrite lookup_app_r, Nat.sub_diag by lia.
    + rewrite lookup_insert_ne by done. intros (j & m & Hj & Hkm)%(nr_dom _ _ Hr). exists j, m. split; [|done].
      rewrite lookup_app_l; [done|by eapply lookup_lt_Some].
  - rewrite fmap_app. apply NoDup_app. split; [apply (nr_nodup _ _ Hr)|]. split; [|cbn; constructor; [apply not_elem_of_nil|constructor]].
    intros k (m & -> & Hm)%list_elem_of_fmap. cbn. rewrite list_elem_of_singleton. intros E.
    apply list_elem_of_lookup_1 in Hm as [i Hm]. destruct (nr_node _ _ Hr i m Hm) as (_ & _ & _ & ms & _ & H4).
    by rewrite E, Hnone in H4.
Qed.
End names.

Lemma hash_new_repr : names_repr hash_new ∅.
Proof.
  split; [done|done| |done|constructor]. cbn [hm_chains hash_new]. change (length (hm_nodes hash_new)) with 0%nat. cbn [seq].
  generalize (Z.to_nat HASH_SIZE). intros n. induction n as [|n IH]; [done|]. by cbn.
Qed.

(** ** Numbers *)

Lemma land_mask n : Z.land n HANDLE_MASK = n mod 2 ^ 24.
Proof. unfold HANDLE_MASK. change 0xffffff with (2 ^ 24 - 1). apply land_ones_pow2. lia. Qed.

Lemma shr24 n : Z.shiftr n HANDLE_REMOTE_SHIFT = n / 2 ^ 24.
Proof. by rewrite Z.shiftr_div_pow2. Qed.

Lemma shl24 n : u32 (Z.shiftl n HANDLE_REMOTE_SHIFT) = n mod 2 ^ 8 * 2 ^ 24.
Proof.
  unfold u32. rewrite Z.shiftl_mul_pow2 by done. change (2 ^ 32) with (2 ^ 8 * 2 ^ HANDLE_REMOTE_SHIFT).
  by rewrite Z.mul_mod_distr_r.
Qed.

Lemma shl24_u32 n : u32 (Z.shiftl (u32 n) HANDLE_REMOTE_SHIFT) = n mod 2 ^ 8 * 2 ^ 24.
Proof. rewrite shl24. unfold u32. rewrite Z.mod_mod_divide; [done|]. by exists (2 ^ 24). Qed.

Lemma lor_high a b : 0 <= b -> Z.lor (a mod 2 ^ 24) (b * 2 ^ 24) = a mod 2 ^ 24 + b * 2 ^ 24.
Proof.
  intros Hb. rewrite <- (Z.shiftl_mul_pow2 b 24) at 1 by lia. apply lor_shiftl_add; [lia| |done]. by apply Z.mod_pos_bound.
Qed.

Lemma remote_word a b : Z.lor (u32 (Z.shiftl b HANDLE_REMOTE_SHIFT)) (Z.land a HANDLE_MASK) = b mod 2 ^ 8 * 2 ^ 24 + a mod 2 ^ 24.
Proof.
  rewrite shl24, land_mask, Z.lor_comm, lor_high, Z.add_comm; [done|]. apply Z.mod_pos_bound. done.
Qed.

Lemma be32_4 b0 b1 b2 b3 : be32 [b0; b1; b2; b3] = b0 * 2 ^ 24 + b1 * 2 ^ 16 + b2 * 2 ^ 8 + b3.
Proof. unfold be32. cbn [foldl]. lia. Qed.

Lemma lor_be32 b0 b1 b2 b3 : word 8 b0 -> word 8 b1 -> word 8 b2 -> word 8 b3 ->
  u32 (Z.lor (Z.lor (Z.lor (Z.shiftl b0 24) (Z.shiftl b1 16)) (Z.shiftl b2 8)) b3) = be32 [b0; b1; b2; b3].
Proof.
  intros H0 H1 H2 H3. rewrite be32_4.
  replace (Z.lor (Z.lor (Z.lor (Z.shiftl b0 24) (Z.shiftl b1 16)) (Z.shiftl b2 8)) b3) with (word4 b3 b2 b1 b0).
  - unfold word4. rewrite u32_small; unfold word in *; lia.
  - rewrite <- lor_word4 by done. apply Z.bits_inj'. intros i _. rewrite !Z.lor_spec. by repeat destruct (Z.testbit _ i).
Qed.

Lemma from_bigendian_ok s off b0 b1 b2 b3 : arr_lookup s off = Some b0 -> arr_lookup s (off + 1) = Some b1 ->
  arr_lookup s (off + 2) = Some b2 -> arr_lookup s (off + 3) = Some b3 -> word 8 b0 -> word 8 b1 -> word 8 b2 -> word 8 b3 ->
  from_bigendian s off = Ret (be32 [b0; b1; b2; b3]).
Proof.
  intros E0 E1 E2 E3 ? ? ? ?. unfold from_bigendian, arr_get. rewrite E0, E1, E2, E3. cbn [deref]. rewrite !bind_Ret. by rewrite lor_be32.
Qed.

Lemma list_12 (s : bytes) : length s = 12%nat ->
  exists a b c d e f g h i j k l, s = [a; b; c; d; e; f; g; h; i; j; k; l].
Proof. intros H. do 12 (destruct s as [|? s]; [done|]). destruct s; [|done]. by do 12 eexists. Qed.

Lemma message_to_header_ok s : length s = 12%nat -> is_bytes s ->
  message_to_header s = Ret (Header (be32 (take 4 s)) (be32 (take 4 (drop 4 s))) (be32 (drop 8 s))).
Proof.
  intros (a & b & c & d & e & f & g & h & i & j & k & l & ->)%list_12 Hb. unfold is_bytes in Hb. rewrite !Forall_cons in Hb.
  destruct Hb as (? & ? & ? & ? & ? & ? & ? & ? & ? & ? & ? & ? & _).
  unfold message_to_header. rewrite (from_bigendian_ok _ 0 a b c d), (from_bigendian_ok _ 4 e f g h), (from_bigendian_ok _ 8 i j k l) by done.
  done.
Qed.

Lemma is_bytes_drop n s : is_bytes s -> is_bytes (drop n s).
Proof. apply Forall_drop. Qed.

Lemma lift_Ret_bind {S A B} (x : A) (f : A -> IO S B) : (lift (Ret x) ≫= f) = f x.
Proof. reflexivity. Qed.

Lemma forward_arrive (refused : list act -> bool) {S S'} self p : is_bytes p ->
  echo (S := S) (S' := S') (if Z.of_nat (length p) <? HEADER_COOKIE_LENGTH then lift Undefined else forward_bytes refused self p (Z.of_nat (length p)))
    (arrive refused self p).
Proof.
  intros Hp. unfold arrive. unfold HEADER_COOKIE_LENGTH. destruct (Nat.ltb_spec (length p) 12) as [Hlt|Hge].
  - rewrite (proj2 (Z.ltb_lt _ _)) by lia. apply echo_lift.
  - rewrite (proj2 (Z.ltb_ge _ _)) by lia. unfold forward_bytes, HEADER_COOKIE_LENGTH.
    replace (Z.to_nat (Z.of_nat (length p) - 12)) with (length p - 12)%nat by lia. cbv zeta.
    rewrite message_to_header_ok; [|rewrite length_drop; lia|by apply is_bytes_drop]. rewrite lift_Ret_bind, !drop_drop.
    cbn [rh_source rh_destination rh_session]. rewrite shr24, land_mask, shl24_u32, lor_high by (apply Z.mod_pos_bound; done).
    auto 10 with echo.
Qed.

(** ** Packets *)

Lemma cut_fuel f : forall g s, (length s <= f)%nat -> (length s <= g)%nat -> cut_loop f s = cut_loop g s.
Proof.
  induction f as [|f IH]; intros [|g] s Hf Hg; [done| | |]; try (destruct s; [done|cbn in *; lia]).
  destruct s as [|b0 [|b1 [|b2 [|b3 r]]]]; try done. cbn [cut_loop]. destruct (negb _); [done|]. cbv zeta. cbn [length] in *.
  destruct (_ <? _)%nat; [done|]. rewrite (IH g); [done|rewrite length_drop; lia..].
Qed.

Definition packet_size (b1 b2 b3 : Z) : nat := Z.to_nat (b1 * 2 ^ 16 + b2 * 2 ^ 8 + b3).

Lemma cut_cons b0 b1 b2 b3 r : cut (b0 :: b1 :: b2 :: b3 :: r) =
  if negb (b0 =? 0) then ([], None)
  else if (length r <? packet_size b1 b2 b3)%nat then ([], Some (b0 :: b1 :: b2 :: b3 :: r))
  else let '(ps, e) := cut (drop (packet_size b1 b2 b3) r) in (take (packet_size b1 b2 b3) r :: ps, e).
Proof.
  unfold cut at 1. cbn [length]. remember (S (S (S (length r)))) as f. cbn [cut_loop]. destruct (negb _); [done|]. cbv zeta. fold (packet_size b1 b2 b3).
  destruct (_ <? _)%nat; [done|]. unfold cut. by rewrite (cut_fuel f (length (drop (packet_size b1 b2 b3) r))) by (rewrite ?length_drop; lia).
Qed.

Lemma cut_short s : (length s < 4)%nat -> cut s = ([], Some s).
Proof. destruct s as [|b0 [|b1 [|b2 [|b3 r]]]]; try done. cbn. lia. Qed.

(** A packet that is complete. *)
Lemma cut_packet b1 b2 b3 p s : length p = packet_size b1 b2 b3 ->
  cut (0 :: b1 :: b2 :: b3 :: p ++ s) = (p :: (cut s).1, (cut s).2).
Proof.
  intros Hp. rewrite cut_cons, Z.eqb_refl. cbn [negb]. rewrite length_app, (proj2 (Nat.ltb_ge _ _)) by lia.
  rewrite take_app_length', drop_app_length' by done. by destruct (cut s).
Qed.

(** A packet that is not. *)
Lemma cut_partial b1 b2 b3 p : (length p < packet_size b1 b2 b3)%nat -> cut (0 :: b1 :: b2 :: b3 :: p) = ([], Some (0 :: b1 :: b2 :: b3 :: p)).
Proof. intros Hp. rewrite cut_cons, Z.eqb_refl. cbn [negb]. by rewrite (proj2 (Nat.ltb_lt _ _)) by lia. Qed.

(** ** The slaves *)

Definition squeue_repr (oq : option harbor_msg_queue) (ms : list harbor_msg) : Prop :=
  match oq with None => ms = [] | Some q => qrepr q ms end.

(** The bytes of a packet that is not complete are in [size], and then in [recv_buffer]. *)
Inductive phase_repr (s : slave) : phase -> Prop :=
  | repr_away : sl_fd s = 0 -> sl_status s = STATUS_WAIT -> sl_read s = 0 -> phase_repr s Away
  | repr_shaking fd : fd <> 0 -> sl_fd s = fd -> sl_status s = STATUS_HANDSHAKE -> sl_read s = 0 -> phase_repr s (Shaking fd)
  | repr_header fd rest : fd <> 0 -> sl_fd s = fd -> sl_status s = STATUS_HEADER -> (length rest < 4)%nat ->
      sl_read s = Z.of_nat (length rest) -> take (length rest) (sl_size s) = rest -> is_bytes rest -> phase_repr s (Online fd rest)
  | repr_content fd b1 b2 b3 got : fd <> 0 -> sl_fd s = fd -> sl_status s = STATUS_CONTENT -> (length got < packet_size b1 b2 b3)%nat ->
      sl_read s = Z.of_nat (length got) -> sl_length s = Z.of_nat (packet_size b1 b2 b3) ->
      sl_recv_buffer s = Some ((Some <$> got) ++ replicate (packet_size b1 b2 b3 - length got) None) ->
      is_bytes got -> phase_repr s (Online fd (0 :: b1 :: b2 :: b3 :: got))
  | repr_broken fd : fd <> 0 -> sl_fd s = fd -> sl_status s = STATUS_DOWN -> phase_repr s (Broken fd).

Record peer_repr (s : slave) (p : peer) : Prop := {
  pr_queue : squeue_repr (sl_queue s) (pr_waiting p);
  pr_state : phase_repr s (pr_phase p);
  pr_bytes : length (sl_size s) = 4%nat }.

Lemma phase_repr_fd s ph : phase_repr s ph -> sl_fd s = phase_fd ph.
Proof. by destruct 1. Qed.

Lemma slave_zero_repr : peer_repr slave_zero (Peer [] Away).
Proof. split; [done|by constructor|done]. Qed.

Record repr (h : harbor) (a : hub) : Prop := {
  rp_id : h_id h = hub_id a;
  rp_slave : h_slave h = hub_slave a;
  rp_names : names_repr (h_map h) (hub_names a);
  rp_peers : Forall2 peer_repr (h_s h) (hub_peers a);
  rp_count : length (hub_peers a) = 256%nat }.

(** The hub of a node that has just started. *)
Definition hub_start (id slave : Z) : hub := Hub id slave ∅ (replicate 256 (Peer [] Away)).

Lemma start_repr id slave : repr (Harbor id slave hash_new (replicate (Z.to_nat REMOTE_MAX) slave_zero)) (hub_start id slave).
Proof.
  split; [done|done|apply hash_new_repr| |done]. apply Forall2_replicate, slave_zero_repr.
Qed.
