(* ===== verification/HarborServe.v ===== *)
(** The harbor service serves as the hub does: every message of the node, whatever it is,
    has the actions and the state that the hub gives it. *)
From S2P Require Import Prelude Handle Cstr Ring Node Netpack Gate Harbor HarborSpec.

(** ** One slave *)

Definition upd (id : Z) (s : slave) (h : harbor) : harbor :=
  Harbor (h_id h) (h_slave h) (h_map h) (<[Z.to_nat id := s]> (h_s h)).

(** Slave [id] of [h] is [s]. *)
Definition slot (h : harbor) (id : Z) (s : slave) : Prop := arr_lookup (h_s h) id = Some s.

Lemma slot_upd h id s s' : slot h id s -> slot (upd id s' h) id s'.
Proof. intros H%arr_lookup_Some. unfold slot. cbn. rewrite arr_lookup_insert by lia. by rewrite decide_True. Qed.

Lemma upd_upd id s s' h : upd id s (upd id s' h) = upd id s h.
Proof. unfold upd. cbn. by rewrite list_insert_insert_eq. Qed.

Lemma upd_id h id s : slot h id s -> upd id s h = h.
Proof. intros [_ H]%arr_lookup_Some. unfold upd. rewrite list_insert_id by done. by destruct h. Qed.

Lemma get_slot h id s l : slot h id s -> get_slave id h l = Ret (s, h, l).
Proof. unfold slot, get_slave, arr_get. intros E. unfold mbind, hio_bind, gets, lift. by rewrite E. Qed.

Lemma set_slot h id s s' l : slot h id s -> set_slave id s' h l = Ret (tt, upd id s' h, l).
Proof. intros H%arr_lookup_Some. unfold set_slave, mbind, hio_bind, gets, lift, modify. by rewrite arr_set_Ret by lia. Qed.

Lemma get_bind {A} h id s l (f : slave -> IO harbor A) : slot h id s -> (get_slave id ≫= f) h l = f s h l.
Proof. intros H. by rewrite (hio_step _ _ _ _ _ _ _ (get_slot h id s l H)). Qed.

Lemma set_bind {A} h id s s' l (f : unit -> IO harbor A) : slot h id s -> (set_slave id s' ≫= f) h l = f tt (upd id s' h) l.
Proof. intros H. by rewrite (hio_step _ _ _ _ _ _ _ (set_slot h id s s' l H)). Qed.

Lemma lift_bind {S A B} (o : outcome A) x (f : A -> IO S B) : o = Ret x -> (lift o ≫= f) = f x.
Proof. by intros ->. Qed.

(** The program of a slave [m] does what the program of a peer [m'] does. *)
Definition implements {A} (self id : Z) (m : IO harbor A) (m' : IO peer A) : Prop := forall h s p l x p' l',
  slot h id s -> h_id h = self -> peer_repr s p -> m' p l = Ret (x, p', l') ->
  exists s', m h l = Ret (x, upd id s' h, l') /\ peer_repr s' p'.

Lemma implements_echo {A} self id (m : IO harbor A) (m' : IO peer A) : echo m m' -> implements self id m m'.
Proof.
  intros He h s p l x p' l' Hs _ Hr H. destruct (He _ _ _ _ _ H) as [-> E]. exists s. by rewrite upd_id.
Qed.

Lemma implements_bind {A B} self id (m : IO harbor A) (m' : IO peer A) (f : A -> IO harbor B) (f' : A -> IO peer B) :
  implements self id m m' -> (forall x, implements self id (f x) (f' x)) -> implements self id (m ≫= f) (m' ≫= f').
Proof.
  intros Hm Hf h s p l x p' l' Hs Hi Hr (y & p1 & l1 & H1 & H2)%hio_inv.
  destruct (Hm _ _ _ _ _ _ _ Hs Hi Hr H1) as (s1 & E1 & Hr1).
  destruct (Hf y _ _ _ _ _ _ _ (slot_upd _ _ _ s1 Hs) Hi Hr1 H2) as (s2 & E2 & Hr2). exists s2. split; [|done].
  rewrite (hio_step _ _ _ _ _ _ _ E1), E2. by rewrite upd_upd.
Qed.

Lemma implements_ret {A} self id (x : A) : implements self id (mret x) (mret x).
Proof. apply implements_echo, echo_ret. Qed.

Lemma with_no_queue s : sl_queue s = None -> with_squeue None s = s.
Proof. destruct s. unfold with_squeue. cbn. by intros ->. Qed.

Section slaves.
Context (mem : Z -> bytes) (refused : list act -> bool) (self id : Z).

(** Messages that wait are freed, or sent. *)
Lemma release_opt {S S'} oq ms (a : S') l x a' l' : squeue_repr oq ms -> free_all ms a l = Ret (x, a', l') ->
  a' = a /\ forall h : S, release_queue oq h l = Ret (tt, h, l').
Proof.
  destruct oq as [q|]; cbn [squeue_repr].
  - intros Hq H. exact (release_each q ms a l x a' l' Hq H).
  - intros -> [=_ <- <-]. done.
Qed.

Lemma close_implements h s p l x p' l' : slot h id s -> squeue_repr (sl_queue s) (pr_waiting p) -> sl_fd s = phase_fd (pr_phase p) ->
  length (sl_size s) = 4%nat -> phase_fd (pr_phase p) <> 0 -> p_close p l = Ret (x, p', l') ->
  exists s', close_harbor id h l = Ret (x, upd id s' h, l') /\ peer_repr s' p'.
Proof.
  intros Hs Hq Efd Hb Hfd H. unfold p_close in H.
  apply hio_inv in H as (? & ? & ? & [=<- <- <-] & H). apply hio_inv in H as (? & ? & ? & [=<- <- <-] & H).
  apply hio_inv in H as (? & ? & l1 & H1 & [=<- <- <-]).
  exists (with_squeue None (with_status STATUS_DOWN s)). unfold close_harbor. rewrite (get_bind _ _ _ _ _ Hs), (set_bind _ _ _ _ _ _ Hs).
  rewrite Efd, (proj2 (Z.eqb_neq _ _) Hfd). cbn [negb]. rewrite (hio_step (asks _) _ _ _ tt _ _ eq_refl).
  destruct (release_opt (S := harbor) _ _ _ _ _ _ _ Hq H1) as [-> E]. split.
  - destruct (sl_queue s) as [q|] eqn:Eq.
    + rewrite (hio_step _ _ _ _ _ _ _ (E _)). rewrite (get_bind _ _ _ _ _ (slot_upd _ _ _ _ Hs)).
      rewrite (set_slot _ _ _ _ _ (slot_upd _ _ _ _ Hs)), upd_upd. done.
    + specialize (E h). cbn in E. injection E as ->. by rewrite with_no_queue.
  - split; [done| |done]. by constructor.
Qed.

Lemma flush_implements fd h s p l x p' l' : slot h id s -> peer_repr s p -> phase_fd (pr_phase p) = fd -> fd <> 0 ->
  p_flush mem fd p l = Ret (x, p', l') -> exists s', dispatch_queue mem id h l = Ret (x, upd id s' h, l') /\ peer_repr s' p' /\ sl_queue s' = None.
Proof.
  intros Hs [Hq Hp Hb] Hfd Hne H. pose proof (phase_repr_fd _ _ Hp) as Efd. unfold p_flush in H.
  apply hio_inv in H as (? & ? & ? & [=<- <- <-] & H). apply hio_inv in H as (? & ? & l1 & H1 & [=<- <- <-]).
  exists (with_squeue None s). unfold dispatch_queue. rewrite (get_bind _ _ _ _ _ Hs). cbv zeta. rewrite Efd, Hfd.
  rewrite (lift_bind _ tt) by (rewrite (proj2 (Z.eqb_neq _ _) Hne); done). split.
  - destruct (sl_queue s) as [q|] eqn:Eq; cbn in Hq.
    + destruct (drain_each (S := harbor) _ _ _ (echo_sent_on mem fd) _ _ _ _ _ _ _ Hq (queue_fuel_enough _ _ Hq) H1) as (-> & q' & Hq' & E).
      rewrite (hio_step _ _ _ _ _ _ _ (E h)), (hio_step _ _ _ _ _ _ _ (release_empty q' h l1 Hq')). by rewrite (set_slot _ _ _ _ _ Hs).
    + rewrite Hq in H1. injection H1 as _ _ <-. by rewrite with_no_queue, upd_id.
  - split; [|done]. split; [done| |done]. destruct Hp; by econstructor.
Qed.

(** *** Streams *)

Lemma stream_eq p chunk l fd rest : pr_phase p = Online fd rest -> p_stream refused self id chunk p l =
  (_ ← each (arrive refused self) (cut (rest ++ chunk)).1;
   match (cut (rest ++ chunk)).2 with
   | Some rest => put (Peer (pr_waiting p) (Online fd rest))
   | None => _ ← skynet_error (str "Message is too long from harbor " ++ fmt_d id); p_close
   end) p l.
Proof. intros E. unfold p_stream. rewrite (hio_step get _ _ _ p p l eq_refl). by rewrite E. Qed.

Lemma stream_partial p chunk l fd rest s x p' l' : pr_phase p = Online fd rest -> cut (rest ++ chunk) = ([], Some s) ->
  p_stream refused self id chunk p l = Ret (x, p', l') -> x = tt /\ p' = Peer (pr_waiting p) (Online fd s) /\ l' = l.
Proof. intros E Ec. rewrite (stream_eq _ _ _ _ _ E), Ec. cbn. intros [=<- <- <-]. done. Qed.

Lemma stream_bad p chunk l fd rest x p' l' : pr_phase p = Online fd rest -> cut (rest ++ chunk) = ([], None) ->
  p_stream refused self id chunk p l = Ret (x, p', l') ->
  p_close p (HError (str "Message is too long from harbor " ++ fmt_d id) :: l) = Ret (x, p', l').
Proof. intros E Ec. rewrite (stream_eq _ _ _ _ _ E), Ec. done. Qed.

Lemma close_same p q l text r : pr_waiting q = pr_waiting p -> phase_fd (pr_phase q) = phase_fd (pr_phase p) ->
  (_ ← skynet_error text; p_close) p l = Ret r -> (_ ← skynet_error text; p_close) q l = Ret r.
Proof.
  intros Ew Ep. rewrite !(hio_step (skynet_error text) _ _ _ tt _ _ eq_refl). unfold p_close.
  rewrite !(hio_step get _ _ _ _ _ _ eq_refl), !(hio_step (asks _) _ _ _ tt _ _ eq_refl), Ew, Ep.
  intros ([] & p1 & l1 & H1 & H2)%hio_inv. destruct (echo_free_all (S := peer) (S' := peer) _ _ _ _ _ _ H1) as [-> E].
  by rewrite (hio_step _ _ _ _ _ _ _ (E q)).
Qed.

Lemma stream_packet p chunk l fd rest pkt more r : pr_phase p = Online fd rest -> cut (rest ++ chunk) = (pkt :: (cut more).1, (cut more).2) ->
  p_stream refused self id chunk p l = Ret r ->
  exists l1, arrive refused self pkt p l = Ret (tt, p, l1) /\
    p_stream refused self id more (Peer (pr_waiting p) (Online fd [])) l1 = Ret r.
Proof.
  intros E Ec. rewrite (stream_eq _ _ _ _ _ E), Ec. cbn [fst snd each]. intros ([] & p1 & l1 & H1 & H2)%hio_inv.
  apply hio_inv in H1 as ([] & p2 & l2 & Ha & Hb). destruct (echo_arrive refused (S := peer) self pkt _ _ _ _ _ Ha) as [-> Ea].
  destruct (echo_each (S := peer) (arrive refused self) (arrive refused self) (cut more).1 (echo_arrive refused self) _ _ _ _ _ Hb) as [-> Eb].
  exists l2. split; [done|]. rewrite (stream_eq (Peer (pr_waiting p) (Online fd [])) more l2 fd [] eq_refl). cbn [app pr_waiting]. rewrite (hio_step _ _ _ _ _ _ _ (Eb _)).
  destruct (cut more).2; [done|]. revert H2. apply close_same; [done|]. by rewrite E.
Qed.

Lemma arrive_12 pkt (a : peer) l r : arrive refused self pkt a l = Ret r -> (12 <= length pkt)%nat.
Proof. unfold arrive. destruct (Nat.ltb_spec (length pkt) 12); [done|lia]. Qed.

Lemma copy_in_ok (dst : list (option Z)) (got : bytes) k src n : Z.of_nat n <= Z.of_nat (length src) -> (length got + n <= k)%nat ->
  dst = (Some <$> got) ++ replicate (k - length got) None ->
  copy_in dst (Z.of_nat (length got)) src (Z.of_nat n) = Ret ((Some <$> (got ++ take n src)) ++ replicate (k - (length got + n)) None).
Proof.
  intros Hn Hk ->. unfold copy_in. rewrite length_app, length_fmap, length_replicate.
  rewrite (proj2 (Z.ltb_ge (Z.of_nat n) 0)), (proj2 (Z.ltb_ge (Z.of_nat (length got)) 0)), (proj2 (Z.ltb_ge _ (_ + _))), (proj2 (Z.ltb_ge _ (Z.of_nat n))) by lia.
  cbn [orb]. f_equal. rewrite !Nat2Z.id. replace (Z.to_nat (Z.of_nat (length got) + Z.of_nat n)) with (length got + n)%nat by lia.
  rewrite take_app_length' by (by rewrite length_fmap). rewrite fmap_app, <- app_assoc. f_equal. f_equal.
  rewrite drop_app_ge by (rewrite length_fmap; lia). rewrite length_fmap, drop_replicate. f_equal. lia.
Qed.

Lemma mapM_Some (b : bytes) : mapM deref (Some <$> b) = Ret b.
Proof. apply mapM_Ret. apply Forall2_fmap_l. apply Forall_Forall2_diag. by apply Forall_true. Qed.

(** What [forward_local_messsage] does with a complete packet. *)
Lemma forward_local h pkt l l1 (p : peer) : h_id h = self -> is_bytes pkt -> arrive refused self pkt p l = Ret (tt, p, l1) ->
  forward_local_messsage refused (Some <$> pkt) (Z.of_nat (length pkt)) h l = Ret (tt, h, l1).
Proof.
  intros Hi Hb H. destruct (forward_arrive refused (S := harbor) (S' := peer) self pkt Hb _ _ _ _ _ H) as [_ E].
  unfold forward_local_messsage. destruct (_ <? _); [apply E|].
  rewrite (hio_step (gets h_id) _ _ _ self h l) by (unfold gets; by rewrite Hi). rewrite (lift_bind _ pkt) by apply mapM_Some. apply E.
Qed.

Lemma content_inv s fd b1 b2 b3 got : phase_repr s (Online fd (0 :: b1 :: b2 :: b3 :: got)) -> sl_status s = STATUS_CONTENT ->
  fd <> 0 /\ sl_fd s = fd /\ (length got < packet_size b1 b2 b3)%nat /\ sl_read s = Z.of_nat (length got) /\
  sl_length s = Z.of_nat (packet_size b1 b2 b3) /\
  sl_recv_buffer s = Some ((Some <$> got) ++ replicate (packet_size b1 b2 b3 - length got) None) /\ is_bytes got.
Proof. intros Hp Est. inversion Hp as [| |? ? ? ? Est'| |]; subst; [by rewrite Est in Est'|]. done. Qed.

(** Nothing left is like going on with no data. *)
Lemma stream_nil w l fd x p' l' : p_stream refused self id [] (Peer w (Online fd [])) l = Ret (x, p', l') ->
  x = tt /\ p' = Peer w (Online fd []) /\ l' = l.
Proof. intros H. exact (stream_partial (Peer w (Online fd [])) [] l fd [] [] x p' l' eq_refl eq_refl H). Qed.

(** Content that is complete, or not. *)
Lemma content_step h s p chunk l x p' l' fd b1 b2 b3 got : slot h id s -> h_id h = self -> peer_repr s p ->
  pr_phase p = Online fd (0 :: b1 :: b2 :: b3 :: got) -> sl_status s = STATUS_CONTENT -> is_bytes chunk ->
  p_stream refused self id chunk p l = Ret (x, p', l') ->
  exists s' r l1, read_content refused id chunk (Z.of_nat (length chunk)) h l = Ret (r, upd id s' h, l1) /\
    match r with
    | None => x = tt /\ l' = l1 /\ peer_repr s' p'
    | Some (more, size) => size = Z.of_nat (length more) /\ (length more < length chunk)%nat /\ is_bytes more /\
        peer_repr s' (Peer (pr_waiting p) (Online fd [])) /\
        p_stream refused self id more (Peer (pr_waiting p) (Online fd [])) l1 = Ret (x, p', l')
    end.
Proof.
  intros Hs Hi [Hq Hp Hb] Eph Est Hc H. rewrite Eph in Hp.
  destruct (content_inv _ _ _ _ _ _ Hp Est) as (Hfd & Efd & Hlt & Er & El & Ec & Hg). set (n := packet_size b1 b2 b3) in *.
  unfold read_content. rewrite (get_bind _ _ _ _ _ Hs). cbv zeta. rewrite (lift_bind _ ((Some <$> got) ++ replicate (n - length got) None)) by (by rewrite Ec).
  rewrite El, Er. destruct (Z.ltb_spec (Z.of_nat (length chunk)) (Z.of_nat n - Z.of_nat (length got))) as [Hlt2|Hge].
  - rewrite (lift_bind _ _ _ (copy_in_ok _ got n chunk (length chunk) ltac:(lia) ltac:(lia) eq_refl)), take_ge by lia.
    rewrite (set_bind _ _ _ _ _ _ Hs). eexists _, None, l. split; [reflexivity|].
    destruct (stream_partial p chunk l fd (0 :: b1 :: b2 :: b3 :: got) (0 :: b1 :: b2 :: b3 :: got ++ chunk) x p' l' Eph) as (-> & -> & ->); [|done|].
    { cbn [app]. apply cut_partial. rewrite length_app. lia. }
    split; [done|]. split; [done|]. split; [done| |done]. apply repr_content; cbn [with_content sl_fd sl_status sl_read sl_length sl_recv_buffer].
    + done. + done. + done. + rewrite length_app. lia. + rewrite length_app. lia. + lia. + by rewrite length_app. + by apply Forall_app.
  - set (need := (n - length got)%nat) in *. replace (Z.of_nat n - Z.of_nat (length got)) with (Z.of_nat need) by lia.
    set (pkt := got ++ take need chunk). assert (Hpkt : length pkt = n) by (unfold pkt; rewrite length_app, length_take; lia).
    rewrite (lift_bind _ _ _ (copy_in_ok _ got n chunk need ltac:(lia) ltac:(lia) eq_refl)). fold pkt.
    replace (n - (length got + need))%nat with 0%nat by lia. cbn [replicate]. rewrite app_nil_r.
    destruct (stream_packet p chunk l fd (0 :: b1 :: b2 :: b3 :: got) pkt (drop need chunk) (x, p', l') Eph) as (l1 & Ha & Hmore); [|done|].
    { rewrite <- (take_drop need chunk) at 1. cbn [app]. rewrite app_assoc. by apply cut_packet. }
    assert (is_bytes pkt) as Hbp by (apply Forall_app; split; [done|by apply Forall_take]).
    rewrite (hio_step _ _ _ _ tt h l1) by (rewrite <- Hpkt; by apply (forward_local h pkt l l1 p)).
    rewrite (get_bind _ _ _ _ _ Hs), (set_bind _ _ _ _ _ _ Hs). set (s1 := with_status _ _).
    assert (peer_repr s1 (Peer (pr_waiting p) (Online fd []))) as Hr1.
    { split; [done| |done]. apply repr_header; cbn [with_status with_content s1 sl_fd sl_status sl_read]; try done; [cbn; lia|constructor]. }
    destruct (Z.eqb_spec (Z.of_nat (length chunk) - Z.of_nat need) 0) as [E0|NE].
    + exists s1, None, l1. split; [done|]. rewrite drop_ge in Hmore by lia.
      destruct (stream_nil _ _ _ _ _ _ Hmore) as (-> & -> & ->). done.
    + exists s1, (Some (drop need chunk, Z.of_nat (length chunk) - Z.of_nat need)), l1. rewrite Nat2Z.id. split; [done|].
      rewrite length_drop. split; [lia|]. split; [lia|]. split; [by apply Forall_drop|]. done.
Qed.

Lemma header_inv s fd rest : phase_repr s (Online fd rest) -> sl_status s = STATUS_HEADER ->
  fd <> 0 /\ sl_fd s = fd /\ (length rest < 4)%nat /\ sl_read s = Z.of_nat (length rest) /\ take (length rest) (sl_size s) = rest /\ is_bytes rest.
Proof. intros Hp Est. inversion Hp as [| | |? ? ? ? ? ? ? Est'|]; subst; [done|]. by rewrite Est in Est'. Qed.

Lemma list_4 (s : bytes) : length s = 4%nat -> exists b0 b1 b2 b3, s = [b0; b1; b2; b3].
Proof. intros H. do 4 (destruct s as [|? s]; [done|]). destruct s; [|done]. by do 4 eexists. Qed.

Lemma lor_size b1 b2 b3 : word 8 b1 -> word 8 b2 -> word 8 b3 ->
  Z.lor (Z.lor (Z.shiftl b1 16) (Z.shiftl b2 8)) b3 = Z.of_nat (packet_size b1 b2 b3).
Proof.
  intros H1 H2 H3. unfold packet_size. replace (Z.lor (Z.lor (Z.shiftl b1 16) (Z.shiftl b2 8)) b3) with (word4 b3 b2 b1 0).
  - unfold word4, word in *. lia.
  - rewrite <- lor_word4 by (done || unfold word; lia). apply Z.bits_inj'. intros i _. rewrite !Z.lor_spec, Z.shiftl_0_l, Z.bits_0.
    by repeat destruct (Z.testbit _ i).
Qed.

(** The bytes that were read may be counted to what the peer has. *)
Lemma stream_keeps p q chunk more l r : pr_waiting q = pr_waiting p ->
  (exists fd rest rest', pr_phase p = Online fd rest /\ pr_phase q = Online fd rest' /\ rest ++ chunk = rest' ++ more) ->
  p_stream refused self id chunk p l = Ret r -> p_stream refused self id more q l = Ret r.
Proof.
  intros Ew (fd & rest & rest' & Ep & Eq & E). rewrite (stream_eq _ _ _ _ _ Ep), (stream_eq _ _ _ _ _ Eq), E, Ew.
  intros ([] & p1 & l1 & H1 & H2)%hio_inv.
  destruct (echo_each (S := peer) (arrive refused self) (arrive refused self) _ (echo_arrive refused self) _ _ _ _ _ H1) as [-> Ee].
  rewrite (hio_step _ _ _ _ _ _ _ (Ee q)). destruct (cut (rest' ++ more)).2; [done|]. revert H2.
  apply close_same; [done|]. by rewrite Ep, Eq.
Qed.

(** The rest of a step: it returns, or the loop goes on with less data. *)
Definition step_ok (s' : slave) (r : option (bytes * Z)) (l1 : list act) (p' : peer) (l' : list act) (w : list harbor_msg) (fd : Z) (n : nat) : Prop :=
  match r with
  | None => l' = l1 /\ peer_repr s' p'
  | Some (more, size) => size = Z.of_nat (length more) /\ (length more < n)%nat /\ is_bytes more /\
      peer_repr s' (Peer w (Online fd [])) /\
      p_stream refused self id more (Peer w (Online fd [])) l1 = Ret (tt, p', l')
  end.

Lemma header_step h s p chunk l p' l' fd rest : slot h id s -> h_id h = self -> peer_repr s p ->
  pr_phase p = Online fd rest -> sl_status s = STATUS_HEADER -> is_bytes chunk ->
  p_stream refused self id chunk p l = Ret (tt, p', l') ->
  exists s' r l1, read_header refused id chunk (Z.of_nat (length chunk)) h l = Ret (r, upd id s' h, l1) /\
    step_ok s' r l1 p' l' (pr_waiting p) fd (length chunk).
Proof.
  intros Hs Hi [Hq Hp Hb] Eph Est Hc H. pose proof Hp as Hp0. rewrite Eph in Hp0.
  destruct (header_inv _ _ _ Hp0 Est) as (Hfd & Efd & Hlt & Er & Et & Hrb).
  unfold read_header. rewrite (get_bind _ _ _ _ _ Hs). cbv zeta. rewrite Er.
  destruct (Z.ltb_spec (Z.of_nat (length chunk)) (4 - Z.of_nat (length rest))) as [Hlt2|Hge].
  - rewrite memcpy_ok by lia. rewrite lift_Ret_bind, Nat2Z.id, Et.
    rewrite (set_bind _ _ _ _ _ _ Hs). eexists _, None, l. split; [reflexivity|].
    destruct (stream_partial p chunk l fd rest (rest ++ chunk) tt p' l' Eph) as (_ & -> & ->); [|done|].
    { apply cut_short. rewrite length_app. lia. }
    split; [done|]. rewrite Nat2Z.id, take_ge by lia. split; [done| |cbn [with_sizes sl_size]; rewrite !length_app, length_drop; lia].
    apply repr_header; cbn [with_sizes sl_fd sl_status sl_read sl_size pr_phase]; try done.
    + rewrite length_app. lia. + rewrite length_app. lia.
    + rewrite app_assoc, take_app_length' by done. done.
    + by apply Forall_app.
  - set (need := (4 - length rest)%nat) in *. replace (4 - Z.of_nat (length rest)) with (Z.of_nat need) by lia.
    rewrite memcpy_ok by lia. rewrite lift_Ret_bind, !Nat2Z.id, Et.
    rewrite (drop_ge (sl_size s)) by lia. rewrite app_nil_r. rewrite (set_bind _ _ _ _ _ _ Hs).
    destruct (list_4 (rest ++ take need chunk)) as (b0 & b1 & b2 & b3 & Ehd); [rewrite length_app, length_take; lia|]. rewrite Ehd.
    assert (is_bytes [b0; b1; b2; b3]) as Hb4 by (rewrite <- Ehd; apply Forall_app; split; [done|by apply Forall_take]).
    unfold is_bytes in Hb4. rewrite !Forall_cons in Hb4. destruct Hb4 as (Hb0 & Hb1 & Hb2 & Hb3 & _).
    rewrite !lift_bind with (x := b0) by done. rewrite lift_bind with (x := b1) by done.
    rewrite lift_bind with (x := b2) by done. rewrite lift_bind with (x := b3) by done.
    set (s1 := with_sizes (Z.of_nat (length rest)) [b0; b1; b2; b3] s). pose proof (slot_upd _ _ _ s1 Hs) as Hs1.
    assert (rest ++ chunk = b0 :: b1 :: b2 :: b3 :: drop need chunk) as Eall.
    { rewrite <- (take_drop need chunk) at 1. by rewrite app_assoc, Ehd. }
    assert (length (drop need chunk) = (length chunk - need)%nat) as Ed by apply length_drop.
    destruct (Z.eqb_spec b0 0) as [->|Hne]; cbn [negb].
    + rewrite lor_size by done. rewrite (set_bind _ _ _ _ _ _ Hs1). set (n := packet_size b1 b2 b3) in *. rewrite Nat2Z.id.
      set (s2 := with_status _ _). pose proof (slot_upd _ _ _ s2 Hs1) as Hs2.
      assert ((0 < n)%nat) as Hn.
      { destruct (decide (n = 0%nat)) as [E0|]; [|lia]. exfalso.
        destruct (stream_packet p chunk l fd rest [] (drop need chunk) (tt, p', l') Eph) as (? & Ha%arrive_12 & _); [|exact H|cbn in Ha; lia].
        rewrite Eall. by apply (cut_packet b1 b2 b3 [] (drop need chunk)). }
      assert (peer_repr s2 (Peer (pr_waiting p) (Online fd [0; b1; b2; b3]))) as Hr2.
      { split; [done| |done]. apply repr_content; cbn [s2 with_status with_content with_sizes sl_fd sl_status sl_read sl_length sl_recv_buffer]; try done.
        - fold n. rewrite Nat.sub_0_r. done.
        - constructor. }
      assert (p_stream refused self id (drop need chunk) (Peer (pr_waiting p) (Online fd [0; b1; b2; b3])) l = Ret (tt, p', l')) as H2.
      { revert H. apply stream_keeps; [done|]. exists fd, rest, [0; b1; b2; b3]. by rewrite Eall. }
      destruct (Z.eqb_spec (Z.of_nat (length chunk) - Z.of_nat need) 0) as [E0|NE].
      * exists s2, None, l. rewrite upd_upd. split; [done|]. rewrite drop_ge in H2 by lia.
        destruct (stream_partial (Peer (pr_waiting p) (Online fd [0; b1; b2; b3])) [] l fd [0; b1; b2; b3] [0; b1; b2; b3] tt p' l' eq_refl (cut_partial b1 b2 b3 [] Hn) H2) as (_ & -> & ->).
        done.
      * replace (Z.of_nat (length chunk) - Z.of_nat need) with (Z.of_nat (length (drop need chunk))) by lia.
        destruct (content_step (upd id s2 (upd id s1 h)) s2 _ (drop need chunk) l tt p' l' fd b1 b2 b3 [] Hs2 Hi Hr2 eq_refl eq_refl)
          as (s3 & r & l1 & E & Hok); [by apply Forall_drop|done|]. exists s3, r, l1. split; [rewrite E; by rewrite !upd_upd|].
        destruct r as [[more size]|]; [|by destruct Hok as (_ & ? & ?)]. destruct Hok as (? & ? & ? & ? & ?). split; [done|]. split; [lia|]. done.
    + rewrite (hio_step (skynet_error _) _ _ _ tt _ _ eq_refl).
      destruct (close_implements (upd id s1 h) s1 p (HError (str "Message is too long from harbor " ++ fmt_d id) :: l) tt p' l' Hs1)
        as (s3 & E & Hr3); [done|cbn; by rewrite Efd, Eph|cbn; done|by rewrite Eph| |].
      { apply (stream_bad p chunk l fd rest); [done| |done]. rewrite Eall, cut_cons. by rewrite (proj2 (Z.eqb_neq _ _) Hne). }
      rewrite (hio_step _ _ _ _ _ _ _ E). exists s3, None, l'. rewrite upd_upd. done.
Qed.

Lemma online_status s p fd rest : peer_repr s p -> pr_phase p = Online fd rest -> sl_status s = STATUS_HEADER \/ sl_status s = STATUS_CONTENT.
Proof. intros [_ Hp _] E. rewrite E in Hp. inversion Hp; auto. Qed.

Lemma online_step h s p chunk l p' l' fd fd0 rest : slot h id s -> h_id h = self -> peer_repr s p ->
  pr_phase p = Online fd rest -> is_bytes chunk -> p_stream refused self id chunk p l = Ret (tt, p', l') ->
  exists s' r l1, (if sl_status s =? STATUS_HANDSHAKE then read_handshake mem refused id fd0 chunk (Z.of_nat (length chunk))
     else if sl_status s =? STATUS_HEADER then read_header refused id chunk (Z.of_nat (length chunk))
     else if sl_status s =? STATUS_CONTENT then read_content refused id chunk (Z.of_nat (length chunk)) else mret None) h l
     = Ret (r, upd id s' h, l1) /\ step_ok s' r l1 p' l' (pr_waiting p) fd (length chunk).
Proof.
  intros Hs Hi Hr Eph Hc H. destruct (online_status s p fd rest Hr Eph) as [Est|Est]; rewrite Est.
  - by apply (header_step h s p chunk l p' l' fd rest).
  - pose proof Hr as [_ Hp _]. rewrite Eph in Hp. inversion Hp as [| |? ? ? ? Est'|? b1 b2 b3 got|]; subst; [by rewrite Est in Est'|].
    destruct (content_step h s p chunk l tt p' l' (sl_fd s) b1 b2 b3 got Hs Hi Hr Eph Est Hc H) as (s' & r & l1 & E & Hok).
    exists s', r, l1. split; [exact E|]. destruct r as [[more size]|]; [exact Hok|]. by destruct Hok as (_ & ? & ?).
Qed.

Lemma loop_serves fd0 fuel : forall h s p chunk l x p' l' fd rest,
  slot h id s -> h_id h = self -> peer_repr s p -> pr_phase p = Online fd rest -> is_bytes chunk -> (length chunk < fuel)%nat ->
  p_stream refused self id chunk p l = Ret (x, p', l') ->
  exists s', read_loop mem refused fuel id fd0 chunk (Z.of_nat (length chunk)) h l = Ret (x, upd id s' h, l') /\ peer_repr s' p'.
Proof.
  induction fuel as [|fuel IH]; intros h s p chunk l [] p' l' fd rest Hs Hi Hr Eph Hc Hf H; [lia|]. cbn [read_loop].
  rewrite (get_bind _ _ _ _ _ Hs). destruct (online_step h s p chunk l p' l' fd fd0 rest Hs Hi Hr Eph Hc H) as (s1 & r & l1 & E & Hok).
  rewrite (hio_step _ _ _ _ _ _ _ E). destruct r as [[more size]|].
  - destruct Hok as (-> & Hlt & Hm & Hr1 & H1). pose proof (slot_upd _ _ _ s1 Hs) as Hs1.
    destruct (IH (upd id s1 h) s1 (Peer (pr_waiting p) (Online fd [])) more l1 tt p' l' fd [] Hs1 Hi Hr1 eq_refl Hm ltac:(lia) H1)
      as (s2 & E2 & Hr2).
    exists s2. by rewrite E2, upd_upd.
  - destruct Hok as [-> Hr1]. by exists s1.
Qed.

Lemma flush_result fd p l x p' l' : p_flush mem fd p l = Ret (x, p', l') -> x = tt /\ p' = Peer [] (pr_phase p).
Proof.
  unfold p_flush. intros (? & ? & ? & [=<- <- <-] & H)%hio_inv. by apply hio_inv in H as (? & ? & ? & _ & [=<- <- <-]).
Qed.

(** The first byte of a connection, and the rest. *)
Lemma shaking_serves h s p b chunk l x p' l' fd : slot h id s -> h_id h = self -> peer_repr s p -> pr_phase p = Shaking fd ->
  is_bytes (b :: chunk) -> p_data mem refused self id (b :: chunk) p l = Ret (x, p', l') ->
  exists s', read_loop mem refused (S (S (S (length chunk)))) id fd (b :: chunk) (Z.of_nat (length (b :: chunk))) h l = Ret (x, upd id s' h, l') /\
    peer_repr s' p'.
Proof.
  intros Hs Hi Hr Eph Hc H. pose proof Hr as [Hq Hp Hb]. rewrite Eph in Hp. inversion Hp as [|? Hfd Efd Est Erd| | |]; subst fd0.
  unfold p_data in H. rewrite (hio_step get _ _ _ _ _ _ eq_refl), Eph in H. cbn [read_loop]. rewrite (get_bind _ _ _ _ _ Hs), Est.
  change (STATUS_HANDSHAKE =? STATUS_HANDSHAKE) with true. cbv iota.
  assert (forall R : option (bytes * Z) -> IO harbor unit, forall s1 l1 r, read_handshake mem refused id fd (b :: chunk) (Z.of_nat (length (b :: chunk))) h l =
    Ret (r, upd id s1 h, l1) -> (read_handshake mem refused id fd (b :: chunk) (Z.of_nat (length (b :: chunk))) ≫= R) h l = R r (upd id s1 h) l1) as Hgo.
  { intros R s1 l1 r E. by rewrite (hio_step _ _ _ _ _ _ _ E). }
  destruct (Z.eqb_spec b id) as [->|Hne]; cbn [negb] in H.
  - apply hio_inv in H as (? & ? & ? & [=<- <- <-] & H). apply hio_inv in H as ([] & p1 & l1 & H1 & H2).
    set (s1 := with_status STATUS_HEADER s).
    assert (peer_repr s1 (Peer (pr_waiting p) (Online fd []))) as Hr1.
    { split; [done| |done]. apply repr_header; try done; [cbn; lia|constructor]. }
    pose proof (slot_upd _ _ _ s1 Hs) as Hs1.
    destruct (flush_implements fd (upd id s1 h) s1 _ l tt p1 l1 Hs1 Hr1 eq_refl Hfd H1) as (s2 & E2 & Hr2 & _).
    apply flush_result in H1 as [_ ->].
    cbn [pr_waiting pr_phase] in *. pose proof (slot_upd _ _ _ s2 Hs1) as Hs2. rewrite !upd_upd in *.
    assert (sl_status s2 = STATUS_HEADER) as Est2 by (destruct Hr2 as [_ Hp2 _]; by inversion Hp2).
    assert (forall r s3 l3, (if Z.of_nat (length (id :: chunk)) - 1 =? 0 then mret (Some (drop 1 (id :: chunk), 0))
        else read_header refused id (drop 1 (id :: chunk)) (Z.of_nat (length (id :: chunk)) - 1)) (upd id s2 h) l1 = Ret (r, upd id s3 h, l3) ->
      read_handshake mem refused id fd (id :: chunk) (Z.of_nat (length (id :: chunk))) h l = Ret (r, upd id s3 h, l3)) as Hpre.
    { intros r s3 l3 E. unfold read_handshake. rewrite lift_bind with (x := id) by done. rewrite Z.eqb_refl. cbn [negb].
      by rewrite (get_bind _ _ _ _ _ Hs), (set_bind _ _ _ _ _ _ Hs), (hio_step _ _ _ _ _ _ _ E2). }
    replace (Z.of_nat (length (id :: chunk)) - 1) with (Z.of_nat (length chunk)) in Hpre by (cbn; lia). cbn [drop] in Hpre.
    apply Forall_cons in Hc as [_ Hc]. destruct x. destruct (decide (chunk = [])) as [->|Hne].
    + destruct (stream_nil _ _ _ _ _ _ H2) as (_ & -> & ->). rewrite (Hgo _ _ _ _ (Hpre (Some ([], 0)) s2 l1 eq_refl)).
      destruct (loop_serves fd 2 (upd id s2 h) s2 (Peer [] (Online fd [])) [] l1 tt _ l1 fd [] Hs2 Hi Hr2 eq_refl ltac:(constructor) ltac:(cbn; lia) H2)
        as (s3 & E3 & Hr3). exists s3. by rewrite upd_upd in E3.
    + destruct (header_step (upd id s2 h) s2 (Peer [] (Online fd [])) chunk l1 p' l' fd [] Hs2 Hi Hr2 eq_refl Est2 Hc H2) as (s3 & r & l3 & E3 & Hok).
      rewrite upd_upd in E3. rewrite (Hgo _ s3 l3 r) by (apply Hpre; rewrite (proj2 (Z.eqb_neq _ _)); [done|destruct chunk; [done|cbn; lia]]).
      pose proof (slot_upd _ _ _ s3 Hs) as Hs3. destruct r as [[more size]|].
      * destruct Hok as (-> & Hlt & Hm & Hr3 & H3).
        destruct (loop_serves fd (S (S (length chunk))) (upd id s3 h) s3 (Peer [] (Online fd [])) more l3 tt p' l' fd [] Hs3 Hi Hr3 eq_refl Hm
          ltac:(lia) H3) as (s4 & E4 & Hr4). exists s4. by rewrite upd_upd in E4.
      * destruct Hok as [-> Hr3]. by exists s3.
  - rewrite (hio_step (skynet_error _) _ _ _ tt _ _ eq_refl) in H.
    assert (sl_fd s = phase_fd (pr_phase p)) as Ef by (by rewrite Eph). assert (phase_fd (pr_phase p) <> 0) as Hf by (by rewrite Eph).
    destruct (close_implements _ _ _ _ _ _ _ Hs Hq Ef Hb Hf H) as (s1 & E & Hr1).
    rewrite (Hgo _ s1 l' None); [by destruct x; exists s1|]. unfold read_handshake. rewrite lift_bind with (x := b) by done.
    rewrite (proj2 (Z.eqb_neq _ _) Hne). cbn [negb]. rewrite (hio_step (skynet_error _) _ _ _ tt _ _ eq_refl). by rewrite (hio_step _ _ _ _ _ _ _ E).
Qed.

(** The data that a socket receives. *)
Lemma data_serves h s p chunk l x p' l' : slot h id s -> h_id h = self -> peer_repr s p -> is_bytes chunk ->
  p_data mem refused self id chunk p l = Ret (x, p', l') ->
  exists s', read_loop mem refused (S (S (length chunk))) id (phase_fd (pr_phase p)) chunk (Z.of_nat (length chunk)) h l = Ret (x, upd id s' h, l') /\
    peer_repr s' p'.
Proof.
  intros Hs Hi Hr Hc H. destruct (pr_phase p) as [|fd|fd rest|fd] eqn:Eph.
  - unfold p_data in H. rewrite (hio_step get _ _ _ _ _ _ eq_refl), Eph in H. injection H as <- <- <-. exists s. split; [|done].
    cbn [read_loop]. rewrite (get_bind _ _ _ _ _ Hs), upd_id by done. destruct Hr as [_ Hp _]. rewrite Eph in Hp. inversion Hp as [? E ?| | | |]. by rewrite E.
  - destruct chunk as [|b chunk]; [unfold p_data in H; by rewrite (hio_step get _ _ _ _ _ _ eq_refl), Eph in H|].
    by apply (shaking_serves h s p b chunk l x p' l' fd).
  - unfold p_data in H. rewrite (hio_step get _ _ _ _ _ _ eq_refl), Eph in H.
    apply (loop_serves fd (S (S (length chunk))) h s p chunk l x p' l' fd rest); try done. lia.
  - unfold p_data in H. rewrite (hio_step get _ _ _ _ _ _ eq_refl), Eph in H. injection H as <- <- <-. exists s. split; [|done].
    cbn [read_loop]. rewrite (get_bind _ _ _ _ _ Hs), upd_id by done. destruct Hr as [_ Hp _]. rewrite Eph in Hp. inversion Hp as [| | | |? ? ? E]. by rewrite E.
Qed.
End slaves.

(** ** The hub *)

(** The program [m] of the service does what the program [m'] of the hub does. *)
Definition hub_serves {A} (m : IO harbor A) (m' : IO hub A) : Prop := forall h a l x a' l', repr h a -> m' a l = Ret (x, a', l') ->
  exists h', m h l = Ret (x, h', l') /\ repr h' a'.

Lemma serves_echo {A} (m : IO harbor A) (m' : IO hub A) : echo m m' -> hub_serves m m'.
Proof. intros He h a l x a' l' Hr H. destruct (He _ _ _ _ _ H) as [-> E]. by exists h. Qed.

Lemma serves_bind {A B} (m : IO harbor A) (m' : IO hub A) (f : A -> IO harbor B) (f' : A -> IO hub B) :
  hub_serves m m' -> (forall x, hub_serves (f x) (f' x)) -> hub_serves (m ≫= f) (m' ≫= f').
Proof.
  intros Hm Hf h a l x a' l' Hr (y & a1 & l1 & H1 & H2)%hio_inv. destruct (Hm _ _ _ _ _ _ Hr H1) as (h1 & E1 & Hr1).
  rewrite (hio_step _ _ _ _ _ _ _ E1). by eapply Hf.
Qed.

Lemma serves_if {A} (b : bool) (m n : IO harbor A) (m' n' : IO hub A) : hub_serves m m' -> hub_serves n n' ->
  hub_serves (if b then m else n) (if b then m' else n').
Proof. by destruct b. Qed.

Lemma serves_gets {A} (f : harbor -> A) (f' : hub -> A) : (forall h a, repr h a -> f h = f' a) -> hub_serves (gets f) (gets f').
Proof. intros Hf h a l x a' l' Hr [=<- <- <-]. exists h. unfold gets. by rewrite (Hf h a Hr). Qed.

Lemma serves_undefined {A} (m : IO harbor A) : hub_serves m (lift Undefined).
Proof. by intros h a l x a' l' _ H. Qed.

Lemma repr_slot h a id p : repr h a -> arr_lookup (hub_peers a) id = Some p -> exists s, slot h id s /\ peer_repr s p.
Proof.
  intros Hr [Hi Hp]%arr_lookup_Some. destruct (Forall2_lookup_r _ _ _ _ _ (rp_peers _ _ Hr) Hp) as (s & Hs & Hsp).
  exists s. split; [|done]. unfold slot. by rewrite arr_lookup_nonneg by lia.
Qed.

(** What one slave does is what one peer does. *)
Lemma serves_at {A} id (m : IO harbor A) (m' : IO peer A) h a l x a' l' : repr h a ->
  (forall s p p', slot h id s -> peer_repr s p -> m' p l = Ret (x, p', l') ->
     exists s', m h l = Ret (x, upd id s' h, l') /\ peer_repr s' p') ->
  at_peer id m' a l = Ret (x, a', l') -> exists h', m h l = Ret (x, h', l') /\ repr h' a'.
Proof.
  intros Hr Hm H. unfold at_peer, arr_get in H. destruct (arr_lookup (hub_peers a) id) as [p|] eqn:Ep; [|done]. cbn [deref] in H.
  rewrite bind_Ret in H. destruct (m' p l) as [[[y p1] l1]| | |] eqn:E; [|done..]. rewrite bind_Ret in H.
  destruct (arr_lookup_Some _ _ _ Ep) as [Hid Hp]. rewrite arr_set_Ret, bind_Ret in H by lia. injection H as <- <- <-.
  destruct (repr_slot h a id p Hr Ep) as (s & Hs & Hsp). destruct (Hm s p p1 Hs Hsp E) as (s' & E' & Hsp').
  exists (upd id s' h). split; [done|]. destruct Hr as [H1 H2 H3 H4 H5].
  split; cbn; [done|done|done| |by rewrite length_insert]. by apply Forall2_insert.
Qed.

Section service.
Context (mem : Z -> bytes) (refused : list act -> bool).

(** *** Messages for handles *)

Lemma push_serves id m h s p l p' l' (b : bool) : slot h id s -> peer_repr s p ->
  (_ ← p_push m; mret b) p l = Ret (b, p', l') ->
  exists s', (queue ← lift (push_queue_msg (default new_queue (sl_queue s)) m); _ ← set_slave id (with_squeue (Some queue) s); mret b) h l
    = Ret (b, upd id s' h, l') /\ peer_repr s' p'.
Proof.
  intros Hs [Hq Hp Hb] (? & ? & ? & H & [=<- <-])%hio_inv. unfold p_push in H. rewrite (hio_step get _ _ _ _ _ _ eq_refl) in H.
  destruct (room (S (length (pr_waiting p)))) eqn:Hroom; [|done]. injection H as <- <- <-.
  assert (qrepr (default new_queue (sl_queue s)) (pr_waiting p)) as Hq'.
  { destruct (sl_queue s); [done|]. cbn in Hq. rewrite Hq. apply new_queue_repr. }
  destruct (push_repr _ _ m Hq' Hroom) as (q' & E & Hq2). exists (with_squeue (Some q') s).
  rewrite E, lift_Ret_bind, (set_bind _ _ _ _ _ _ Hs). split; [done|]. split; [done| |done]. destruct Hp; by econstructor.
Qed.

Lemma send_handle_serves source destination type session msg sz :
  hub_serves (remote_send_handle mem refused source destination type session msg sz)
    (hub_send_handle mem refused source destination type session msg sz).
Proof.
  unfold remote_send_handle, hub_send_handle. cbv zeta. rewrite shr24. apply serves_bind; [apply serves_gets, rp_id|]. intros self.
  apply serves_if; [apply serves_echo; auto with echo|]. rewrite remote_word. intros h a l x a' l' Hr H.
  revert H. apply serves_at; [done|]. intros s p p' Hs Hsp H. rewrite (get_bind _ _ _ _ _ Hs).
  rewrite (hio_step get _ _ _ _ _ _ eq_refl) in H. pose proof Hsp as [_ Hp _]. unfold push_queue. remember (pr_phase p) as ph eqn:Eph.
  assert (forall (b : bool) fd, (_ ← send_remote mem fd msg sz (Header source (type mod 2 ^ 8 * 2 ^ 24 + destination mod 2 ^ 24) (u32 session)); mret b)
      p l = Ret (x, p', l') ->
    exists s', (_ ← send_remote mem fd msg sz (Header source (type mod 2 ^ 8 * 2 ^ 24 + destination mod 2 ^ 24) (u32 session)); mret b) h l
      = Ret (x, upd (destination / 2 ^ 24) s' h, l') /\ peer_repr s' p') as Hsend.
  { intros b fd Hb. apply (implements_echo (h_id h) _ _ _ (echo_bind _ _ _ _ (echo_send_remote mem fd msg sz _) (fun _ => echo_ret b)) h s p); done. }
  assert (forall b, x = b -> (_ ← p_push (HarborMsg (Header source (type mod 2 ^ 8 * 2 ^ 24 + destination mod 2 ^ 24) (u32 session)) msg sz); mret b)
      p l = Ret (x, p', l') -> exists s', (queue ← lift (push_queue_msg (default new_queue (sl_queue s))
          (HarborMsg (Header source (type mod 2 ^ 8 * 2 ^ 24 + destination mod 2 ^ 24) (u32 session)) msg sz));
        _ ← set_slave (destination / 2 ^ 24) (with_squeue (Some queue) s); mret b) h l = Ret (x, upd (destination / 2 ^ 24) s' h, l') /\
      peer_repr s' p') as Hpush by (intros b -> Hb; by eapply push_serves).
  destruct Hp as [Efd Est _|fd Hfd Efd Est _|fd rest Hfd Efd Est _ _ _ _|fd b1 b2 b3 got Hfd Efd Est _ _ _ _ _|fd Hfd Efd Est];
    rewrite Efd, Est; rewrite ?(proj2 (Z.eqb_neq _ _) Hfd); cbn [orb Z.eqb STATUS_WAIT STATUS_DOWN STATUS_HANDSHAKE].
  - apply Hpush; [|done]. by apply hio_inv in H as (? & ? & ? & _ & [=<- _ _]).
  - apply Hpush; [|done]. by apply hio_inv in H as (? & ? & ? & _ & [=<- _ _]).
  - by apply Hsend.
  - by apply Hsend.
  - by apply Hsend.
Qed.


(** *** Names *)

Definition with_map (h : harbor) (map : hashmap) : harbor := Harbor (h_id h) (h_slave h) map (h_s h).

Lemma find_name_ok h a name l : repr h a -> name_ok name = true -> exists i map n,
  find_name name h l = Ret (i, with_map h map, l) /\ hm_nodes map !! i = Some n /\ kv_key n = name /\
  names_repr map (<[name := default (0, []) (hub_names a !! name)]> (hub_names a)).
Proof.
  intros Hr Hok. pose proof (rp_names _ _ Hr) as Hn. unfold find_name. rewrite (hio_step (gets h_map) _ _ _ _ _ _ eq_refl).
  destruct (hash_search_spec _ _ Hn name Hok) as [(i & n & E & Hi & Hk)|[E Hnone]].
  - rewrite E, lift_Ret_bind. exists i, (h_map h), n. split; [by destruct h|]. split; [done|]. split; [done|].
    destruct (nr_node _ _ Hn i n Hi) as (_ & _ & _ & ms & _ & Hl). rewrite Hk in Hl. rewrite Hl. cbn [default from_option]. by rewrite insert_id.
  - rewrite E, lift_Ret_bind. destruct (hash_insert_spec _ _ Hn name Hok Hnone) as (map' & n & E2 & Hi & Hk & Hn').
    rewrite E2, lift_Ret_bind. exists (length (hm_nodes (h_map h))), map', n. rewrite Hnone. done.
Qed.

Lemma node_entry map names name i n : names_repr map names -> hm_nodes map !! i = Some n -> kv_key n = name ->
  exists ms, names !! name = Some (kv_value n, ms) /\ kqueue_repr (kv_queue n) ms.
Proof. intros Hn Hi <-. destruct (nr_node _ _ Hn i n Hi) as (_ & _ & _ & ms & Hq & Hl). by exists ms. Qed.

Lemma read_node_ok h i n l : hm_nodes (h_map h) !! i = Some n -> read_node i h l = Ret (n, h, l).
Proof. intros E. unfold read_node, get_node, mbind, hio_bind, gets, lift. by rewrite E. Qed.

Definition node_map (map : hashmap) (i : nat) (n : keyvalue) : hashmap := HashMap (hm_chains map) (<[i := n]> (hm_nodes map)).

Lemma write_node_ok h i n l : write_node i n h l = Ret (tt, with_map h (node_map (h_map h) i n), l).
Proof. done. Qed.

Lemma repr_map h a map names : repr h a -> names_repr map names -> repr (with_map h map) (Hub (hub_id a) (hub_slave a) names (hub_peers a)).
Proof. intros [H1 H2 H3 H4 H5] Hn. by split. Qed.

Lemma send_name_serves source name type session msg sz :
  hub_serves (remote_send_name mem refused source name type session msg sz) (hub_send_name mem refused source name type session msg sz).
Proof.
  unfold hub_send_name. destruct (name_ok name) eqn:Hok; [|apply serves_undefined]. cbn [negb]. intros h a l x a' l' Hr H.
  destruct (find_name_ok h a name l Hr Hok) as (i & map & n & E & Hi & Hk & Hn).
  unfold remote_send_name. rewrite (hio_step _ _ _ _ _ _ _ E). rewrite (hio_step _ _ _ _ _ _ _ (read_node_ok (with_map h map) i n l Hi)).
  destruct (node_entry _ _ _ _ _ Hn Hi Hk) as (ms & He & Hq). rewrite lookup_insert_eq in He. injection He as He.
  unfold name_entry in H. rewrite (hio_step (gets hub_names ≫= _) _ a l (kv_value n, ms) a l) in H by (unfold mbind, hio_bind, gets, mret, hio_ret; by rewrite He).
  cbv beta iota in H. destruct (kv_value n =? 0) eqn:Ev.
  - destruct (room (S (length ms))) eqn:Hroom; [|done].
    assert (qrepr (default new_queue (kv_queue n)) ms) as Hq'.
    { destruct (kv_queue n); [apply Hq|]. cbn in Hq. rewrite Hq. apply new_queue_repr. }
    unfold push_queue. rewrite shl24. destruct (push_repr _ _ (HarborMsg (Header source (type mod 2 ^ 8 * 2 ^ 24) (u32 session)) msg sz) Hq' Hroom) as (q & Eq & Hq2).
    rewrite Eq, lift_Ret_bind, (hio_step _ _ _ _ _ _ _ (write_node_ok (with_map h map) i (with_kqueue (Some q) n) l)).
    apply hio_inv in H as (? & ? & ? & [=<- <- <-] & H). revert H.
    apply (serves_bind (gets h_slave) (gets hub_slave)); [apply serves_gets, rp_slave| |].
    { intros slave. apply serves_echo. assert (until_zero (take (Z.to_nat GLOBALNAME_LENGTH) name) = until_zero name) as ->; [|auto with echo].
      apply name_ok_spec in Hok as (Hl & _). by rewrite take_ge by (change (Z.to_nat GLOBALNAME_LENGTH) with 16%nat; lia). }
    apply Z.eqb_eq in Ev. rewrite <- Hk. apply (repr_map h a _ _ Hr). cbn [h_map with_map].
    pose proof (node_update map _ Hn i n (with_kqueue (Some q) n) (ms ++ [HarborMsg (Header source (type mod 2 ^ 8 * 2 ^ 24) (u32 session)) msg sz]) Hi eq_refl eq_refl) as Hup.
    rewrite <- Hk, insert_insert_eq in Hup. cbn [kv_value with_kqueue] in Hup. rewrite Ev in Hup. apply Hup. split; [|done].
    by destruct ms.
  - apply hio_inv in H as (? & ? & ? & [=<- <- <-] & H). revert H. apply send_handle_serves.
    rewrite He in Hn. by apply (repr_map h a).
Qed.

(** The state after the queue of a name was dispatched. *)
Definition after (h : harbor) (i : nat) (n : keyvalue) (id : Z) (s : slave) : harbor :=
  upd id s (with_map h (node_map (h_map h) i n)).

Lemma dispatch_name_serves h i n q ms s p l x p' l' : hm_nodes (h_map h) !! i = Some n -> kv_queue n = Some q -> qrepr q ms ->
  slot h (kv_value n / 2 ^ 24) s -> peer_repr s p -> p_resolved mem refused (h_slave h) (kv_value n) ms p l = Ret (x, p', l') ->
  exists oq s', dispatch_name_queue mem refused i h l = Ret (x, after h i (with_kqueue oq n) (kv_value n / 2 ^ 24) s', l') /\
    squeue_repr oq [] /\ peer_repr s' p'.
Proof.
  intros Hi Hkq Hq Hs Hsp H. pose proof Hsp as [Hw Hp Hb]. unfold dispatch_name_queue. rewrite (hio_step _ _ _ _ _ _ _ (read_node_ok h i n l Hi)).
  rewrite lift_bind with (x := q) by (by rewrite Hkq). cbv zeta. rewrite shr24. set (id := kv_value n / 2 ^ 24) in *.
  rewrite (get_bind _ _ _ _ _ Hs). unfold p_resolved in H. rewrite (hio_step get _ _ _ _ _ _ eq_refl) in H.
  assert (forall fd, fd <> 0 -> sl_fd s = fd -> each (fun m => sent_on mem fd (with_handle (kv_value n) m)) ms p l = Ret (x, p', l') ->
    exists oq s', (queue ← drain (queue_fuel q) (send_named mem fd (kv_value n)) q; write_node i (with_kqueue (Some queue) n)) h l
      = Ret (x, after h i (with_kqueue oq n) id s', l') /\ squeue_repr oq [] /\ peer_repr s' p') as Hsend.
  { intros fd Hne Hfd He. destruct (drain_each (S := harbor) _ _ _ (echo_send_named mem fd (kv_value n)) _ _ _ _ _ _ _ Hq (queue_fuel_enough _ _ Hq) He)
      as (-> & q' & Hq' & E). exists (Some q'), s. rewrite (hio_step _ _ _ _ _ _ _ (E h)), write_node_ok. destruct x. split; [|done].
    unfold after. by rewrite upd_id. }
  remember (pr_phase p) as ph eqn:Eph.
  destruct Hp as [Efd Est Erd|fd Hfd Efd Est _|fd rest Hfd Efd Est _ _ _ _|fd b1 b2 b3 got Hfd Efd Est _ _ _ _ _|fd Hfd Efd Est];
    rewrite Efd; rewrite ?(proj2 (Z.eqb_neq _ _) Hfd); cbv iota; [|by apply Hsend..].
  rewrite Z.eqb_refl, Est. change (STATUS_WAIT =? STATUS_DOWN) with false. cbv iota zeta in H |- *.
  destruct (room (length (pr_waiting p ++ ms))) eqn:Hroom; cbn [negb] in H; [|done].
  assert (exists oq to, (match sl_queue s with
          | None => _ ← set_slave id (with_squeue (Some q) s); write_node i (with_kqueue None n)
          | Some to =>
              '(queue, to) ← lift (move_queue (queue_fuel q) q to);
              _ ← set_slave id (with_squeue (Some to) s);
              write_node i (with_kqueue (Some queue) n)
          end) h l = Ret (tt, after h i (with_kqueue oq n) id (with_squeue (Some to) s), l) /\ squeue_repr oq [] /\ qrepr to (pr_waiting p ++ ms))
    as (oq & to & E & Hoq & Hto).
  { destruct (sl_queue s) as [to|] eqn:Eq; cbn in Hw.
    - destruct (move_repr (queue_fuel q) ms q to (pr_waiting p) Hq Hw (queue_fuel_enough _ _ Hq) Hroom) as (q' & to' & E & Hq' & Hto').
      rewrite E, lift_Ret_bind. exists (Some q'), to'. by rewrite (set_bind _ _ _ _ _ _ Hs).
    - exists None, q. rewrite (set_bind _ _ _ _ _ _ Hs), Hw. done. }
  rewrite (hio_step _ _ _ _ _ _ _ E). set (h1 := after h i _ id _).
  assert (slot h1 id (with_squeue (Some to) s)) as Hs1 by (by apply (slot_upd (with_map h _) id s)).
  rewrite (hio_step (gets h_slave) _ h1 l (h_slave h) h1 l eq_refl), shr24.
  exists oq. fold id in H. destruct (id =? h_slave h / 2 ^ 24).
  - rewrite (get_bind _ _ _ _ _ Hs1). cbn [sl_queue with_squeue]. rewrite lift_bind with (x := to) by done.
    apply hio_inv in H as (? & ? & l1 & H1 & [=<- <- <-]). destruct (drain_each (S := harbor) _ _ _ (echo_send_local refused (kv_value n)) _ _ _ _ _ _ _ Hto (queue_fuel_enough _ _ Hto) H1)
      as (-> & q' & Hq' & E2). rewrite (hio_step _ _ _ _ _ _ _ (E2 h1)), (hio_step _ _ _ _ _ _ _ (release_empty q' h1 l1 Hq')), (set_slot _ _ _ _ _ Hs1).
    exists (with_squeue None (with_squeue (Some to) s)). unfold h1, after. rewrite upd_upd. split; [done|]. split; [done|].
    split; [done| |done]. by constructor.
  - injection H as <- <- <-. exists (with_squeue (Some to) s). split; [done|]. split; [done|]. split; [done| |done]. by constructor.
Qed.

Lemma update_name_serves name handle : name_ok name = true ->
  hub_serves (update_name mem refused name handle) (hub_update_name mem refused name handle).
Proof.
  intros Hok h a l x a' l' Hr H. destruct (find_name_ok h a name l Hr Hok) as (i & map & n & E & Hi & Hk & Hn).
  unfold update_name. rewrite (hio_step _ _ _ _ _ _ _ E), (hio_step _ _ _ _ _ _ _ (read_node_ok (with_map h map) i n l Hi)), (hio_step _ _ _ _ _ _ _ (write_node_ok _ _ _ _)).
  cbn [h_map with_map]. destruct (node_entry _ _ _ _ _ Hn Hi Hk) as (ms & He & Hq). rewrite lookup_insert_eq in He. injection He as He.
  unfold hub_update_name, name_entry in H. rewrite (hio_step (gets hub_names ≫= _) _ a l (kv_value n, ms) a l) in H by (unfold mbind, hio_bind, gets, mret, hio_ret; by rewrite He).
  cbv beta iota in H. apply hio_inv in H as (? & ? & ? & [=<- <- <-] & H).
  assert (forall n', kv_key n' = kv_key n -> kv_hash n' = kv_hash n -> kv_value n' = handle -> kv_queue n' = None ->
    names_repr (node_map map i n') (<[name := (handle, [])]> (hub_names a))) as Hup.
  { intros n' Hk' Hh' Hv' Hq'. pose proof (node_update map _ Hn i n n' [] Hi Hk' Hh') as Hu. rewrite Hk, insert_insert_eq, Hv' in Hu.
    apply Hu. by rewrite Hq'. }
  destruct (kv_queue n) as [q|] eqn:Eq.
  - destruct Hq as [Hne Hq]. rewrite bool_decide_eq_false_2 in H by done.
    rewrite (hio_step (gets hub_slave) _ _ _ _ _ _ eq_refl) in H. cbn [hub_slave] in H.
    set (n1 := with_kvalue handle n) in *. set (h1 := with_map h (node_map map i n1)).
    pose proof (lookup_lt_Some _ _ _ Hi) as Hlt.
    assert (hm_nodes (h_map h1) !! i = Some n1) as Hi1 by (by apply list_lookup_insert_eq).
    assert (repr (with_map h (node_map map i (with_kqueue None n1))) (Hub (hub_id a) (hub_slave a) (<[name := (handle, [])]> (hub_names a)) (hub_peers a))) as Hr1.
    { apply (repr_map h a); [done|]. by apply Hup. }
    change (with_map (with_map h map) (node_map map i n1)) with h1.
    unfold at_peer, arr_get in H. cbn [hub_peers hub_id hub_slave hub_names] in H.
    destruct (arr_lookup (hub_peers a) (handle / 2 ^ 24)) as [p|] eqn:Ep; [|done]. cbn [deref] in H. rewrite bind_Ret in H.
    destruct (p_resolved mem refused (hub_slave a) handle ms p l) as [[[y p1] l1]| | |] eqn:Ers; [|done..]. rewrite bind_Ret in H.
    destruct (arr_lookup_Some _ _ _ Ep) as [Hid Hpi]. rewrite arr_set_Ret, bind_Ret in H by lia. injection H as <- <- <-.
    destruct (repr_slot h a _ p Hr Ep) as (s & Hs & Hsp). rewrite <- (rp_slave _ _ Hr) in Ers.
    destruct (dispatch_name_serves h1 i n1 q ms s p l y p1 l1 Hi1 Eq Hq Hs Hsp Ers) as (oq & s' & Ed & Hoq & Hsp').
    cbv iota. rewrite (hio_step _ _ _ _ _ _ _ Ed). set (h2 := after h1 i _ _ s').
    assert (hm_nodes (h_map h2) !! i = Some (with_kqueue oq n1)) as Hi2 by (apply list_lookup_insert_eq; cbn; by rewrite length_insert).
    rewrite (hio_step _ _ _ _ _ _ _ (read_node_ok h2 i _ l1 Hi2)). cbn [kv_queue with_kqueue].
    assert (release_queue oq h2 l1 = Ret (tt, h2, l1)) as Erel by (destruct oq; [by apply release_empty|done]).
    rewrite (hio_step _ _ _ _ _ _ _ Erel), write_node_ok. destruct y. eexists. split; [reflexivity|].
    destruct Hr1 as [R1 R2 R3 R4 R5]. split; cbn; [done|done| |by apply Forall2_insert|by rewrite length_insert].
    unfold node_map. cbn. rewrite !list_insert_insert_eq. apply R3.
  - cbn in Hq. rewrite bool_decide_eq_true_2 in H by done. injection H as <- <- <-. eexists. split; [reflexivity|].
    apply (repr_map h a); [done|]. by apply Hup.
Qed.

(** *** Commands *)

Lemma connect_serves self (c : Z) id fd h s p l x p' l' : c = 83 \/ c = 65 -> fd <> 0 -> slot h id s -> h_id h = self -> peer_repr s p ->
  p_connect mem self (c =? 83) id fd p l = Ret (x, p', l') ->
  exists s', (slave ← get_slave id;
        if negb (sl_fd slave =? 0) then skynet_error (str "Harbor " ++ fmt_d id ++ str " alreay exist")
        else
          _ ← set_slave id (with_fd fd slave);
          _ ← asks (HSocketStart fd);
          _ ← handshake id;
          slave ← get_slave id;
          if c =? 83 then set_slave id (with_status STATUS_HANDSHAKE slave)
          else _ ← set_slave id (with_status STATUS_HEADER slave); dispatch_queue mem id) h l = Ret (x, upd id s' h, l') /\ peer_repr s' p'.
Proof.
  intros Hc Hfd Hs Hi Hsp H. pose proof Hsp as [Hq Hp Hb]. pose proof (phase_repr_fd _ _ Hp) as Efd.
  unfold p_connect in H. rewrite (hio_step get _ _ _ _ _ _ eq_refl), <- Efd in H. rewrite (get_bind _ _ _ _ _ Hs).
  destruct (Z.eqb_spec (sl_fd s) 0) as [E0|NE]; cbn [negb] in *.
  2: { destruct (implements_echo self id _ _ (echo_error (S := harbor) (S' := peer) _) h s p l x p' l' Hs Hi Hsp H) as (s' & E & Hr). by exists s'. }
  rewrite !(hio_step (asks _) _ _ _ tt _ _ eq_refl) in H.
  rewrite (set_bind _ _ _ _ _ _ Hs), (hio_step (asks _) _ _ _ tt _ _ eq_refl). set (s1 := with_fd fd s).
  pose proof (slot_upd _ _ _ s1 Hs) as Hs1.
  assert (handshake id (upd id s1 h) (HSocketStart fd :: l) = Ret (tt, upd id s1 h, HSocketSend fd [u8 self] 1 :: HSocketStart fd :: l)) as Eh.
  { unfold handshake. rewrite (get_bind _ _ _ _ _ Hs1), (hio_step (gets h_id) _ _ _ _ _ _ eq_refl). cbn. by rewrite Hi. }
  rewrite (hio_step _ _ _ _ _ _ _ Eh), (get_bind _ _ _ _ _ Hs1). remember (pr_phase p) as ph eqn:Eph.
  destruct Hp as [_ Est Erd|? Hfd' Efd' Est Erd|? ? Hfd' Efd'|? ? ? ? ? Hfd' Efd'|? Hfd' Efd']; try (cbn in Efd; congruence).
  destruct Hc as [-> | ->]; cbn [Z.eqb Pos.eqb] in *.
  - injection H as <- <- <-. exists (with_status STATUS_HANDSHAKE s1). rewrite (set_slot _ _ _ _ _ Hs1), upd_upd. split; [done|].
    split; [done| |done]. by constructor.
  - apply hio_inv in H as (? & ? & ? & [=<- <- <-] & H). set (s2 := with_status STATUS_HEADER s1). rewrite (set_bind _ _ _ _ _ _ Hs1), upd_upd.
    assert (peer_repr s2 (Peer (pr_waiting p) (Online fd []))) as Hr2.
    { split; [done| |done]. apply repr_header; try done; [cbn; lia|constructor]. }
    destruct (flush_implements mem id fd (upd id s2 h) s2 _ _ x p' l' (slot_upd _ _ _ s2 Hs) Hr2 eq_refl Hfd H) as (s3 & E & Hr3 & _).
    exists s3. by rewrite upd_upd in E.
Qed.

Lemma until_zero_end s t : 0 ∉ s -> until_zero (s ++ 0 :: t) = s.
Proof.
  induction s as [|c s IH]; [done|]. intros [Hc Hs]%not_elem_of_cons. cbn. destruct (Z.eqb_spec c 0); [done|]. by rewrite IH.
Qed.

Lemma until_zero_plain s : 0 ∉ s -> until_zero s = s.
Proof. induction s as [|c s IH]; [done|]. intros [Hc Hs]%not_elem_of_cons. cbn. destruct (Z.eqb_spec c 0); [done|]. by rewrite IH. Qed.

(** The name that the text gives. *)
Lemma padded_name args : 0 ∉ args -> is_bytes args -> (length args < 16)%nat -> name_ok (args ++ replicate (16 - length args) 0) = true.
Proof.
  intros Hz Hb Hl. apply name_ok_spec. rewrite length_app, length_replicate. split; [lia|]. split.
  - apply Forall_app. split; [done|]. apply Forall_replicate. unfold word. lia.
  - destruct (16 - length args)%nat as [|n] eqn:En; [lia|]. cbn [replicate]. rewrite until_zero_end by done. by rewrite En.
Qed.

Section text.
Context (msg text : bytes) (Hmsg : msg = text ++ [0]) (Hz : 0 ∉ text).

Lemma cstring_at (k : nat) : (k <= length text)%nat -> cstring msg (Z.of_nat k) = Ret (drop k text).
Proof.
  intros Hk. unfold cstring. rewrite Nat2Z.id, Hmsg, drop_app_le by done.
  assert (0 ∉ drop k text) as Hd.
  { pose proof Hz as Hz'. rewrite <- (take_drop k text) in Hz'. by apply not_elem_of_app in Hz' as [_ ?]. } rewrite until_zero_end by done.
  rewrite (proj2 (Z.ltb_ge _ 0)), (proj2 (Z.leb_gt _ _)) by (rewrite ?length_app, ?length_drop; cbn; lia). done.
Qed.
End text.

Lemma command_serves msg sz session source : hub_serves (harbor_command mem refused msg sz session source) (hub_command mem refused msg sz source).
Proof.
  unfold hub_command. destruct (command_ok msg sz) eqn:Hok; [|apply serves_undefined]. cbn [negb]. unfold command_ok in Hok.
  rewrite !andb_true_iff, !bool_decide_eq_true, Z.leb_le, Z.ltb_lt, !Z.eqb_eq in Hok. destruct Hok as (((((Hsz & Hmax) & Hlen) & Hlast) & Hz) & Hb).
  set (text := take (Z.to_nat sz) msg) in *. cbv zeta.
  assert (msg = text ++ [0]) as Hmsg.
  { rewrite <- (take_drop (Z.to_nat sz) msg) at 1. f_equal. destruct (last msg) as [c|] eqn:El; [|done]. cbn in Hlast. subst c.
    apply last_Some in El as [m ->]. rewrite length_app in Hlen. cbn in Hlen. by rewrite drop_app_length' by lia. }
  assert (Z.of_nat (length text) = sz) as Htl by (unfold text; rewrite length_take; lia).
  destruct text as [|c [|c1 args]] eqn:Etext; [cbn in Htl; lia|cbn in Htl; lia|].
  change (default 0 (head (c :: c1 :: args))) with c. change (drop 2 (c :: c1 :: args)) with args.
  pose proof Hz as Hz0. apply not_elem_of_cons in Hz as [_ [_ Hza]%not_elem_of_cons]. unfold harbor_command. rewrite s32_small by lia.
  assert (is_bytes args) as Hba.
  { rewrite Hmsg in Hb. unfold is_bytes in Hb. rewrite <- !app_comm_cons, !Forall_cons in Hb. destruct Hb as (_ & _ & Hb).
    by apply Forall_app in Hb as [Hb _]. }
  cbn [length] in Htl. assert (sz - 2 = Z.of_nat (length args)) as Hs by lia. rewrite Hs. rewrite lift_bind with (x := c) by (by rewrite Hmsg).
  assert (drop 2 msg = args ++ [0]) as Hdrop by (by rewrite Hmsg).
  destruct (Z.eqb_spec c 78) as [->|Hn78].
  - change (GLOBALNAME_LENGTH <=? Z.of_nat (length args)) with (16 <=? Z.of_nat (length args)).
    destruct ((Z.of_nat (length args) <=? 0) || (16 <=? Z.of_nat (length args))) eqn:Ebad.
    + rewrite lift_bind with (x := args); [by apply serves_echo, echo_error|].
      apply (cstring_at msg (78 :: c1 :: args) Hmsg Hz0 2). cbn. lia.
    + apply orb_false_iff in Ebad as [E1%Z.leb_gt E2%Z.leb_gt]. change (Z.to_nat GLOBALNAME_LENGTH) with 16%nat.
      rewrite memcpy_ok by (rewrite ?length_replicate, ?Hdrop, ?length_app; cbn; lia). rewrite lift_Ret_bind, Hdrop, Nat2Z.id.
      rewrite take_app_length' by done. rewrite Z.add_0_l, Nat2Z.id, drop_replicate. cbn [Z.to_nat take app].
      apply update_name_serves, padded_name; [done|done|lia].
  - destruct ((c =? 83) || (c =? 65)) eqn:Ec.
    + rewrite (proj2 (Z.leb_gt _ _)) by lia.
      rewrite memcpy_ok by (rewrite ?length_replicate, ?Hdrop, ?length_app; cbn; lia). rewrite lift_Ret_bind, Hdrop, Nat2Z.id.
      rewrite take_app_length' by done. rewrite Z.add_0_l, Nat2Z.id, drop_replicate. cbn [Z.to_nat take app].
      replace (Z.to_nat (Z.of_nat (length args) + 1) - length args)%nat with 1%nat by lia. cbn [replicate]. change (Z.to_nat 0) with 0%nat. rewrite take_0, app_nil_l, until_zero_end by done.
      apply serves_bind; [apply serves_echo, echo_lift|]. intros [fd id]. change (REMOTE_MAX <=? id) with (256 <=? id).
      destruct ((fd =? 0) || (id <=? 0) || (256 <=? id)) eqn:Ebad; [apply serves_echo, echo_error|].
      rewrite !orb_false_iff, Z.eqb_neq in Ebad. destruct Ebad as [[Hfd _] _].
      apply orb_true_iff in Ec. rewrite !Z.eqb_eq in Ec. intros h a l x a' l' Hr H.
      rewrite (hio_step (gets hub_id) _ _ _ _ _ _ eq_refl) in H. revert H. apply serves_at; [done|]. intros s p p' Hs' Hsp H.
      rewrite <- (rp_id _ _ Hr) in H. by apply (connect_serves (h_id h) c id fd h s p l x p' l').
    + rewrite lift_bind with (x := c :: c1 :: args); [by apply serves_echo, echo_error|].
      apply (cstring_at msg (c :: c1 :: args) Hmsg Hz0 0). cbn. lia.
Qed.

(** *** Sockets *)

Lemma find_fd_peer fd ss ps : Forall2 peer_repr ss ps -> forall i, find_fd fd ss i = peer_of fd ps i.
Proof.
  induction 1 as [|s p ss ps [_ Hp _] _ IH]; intros i; [done|]. cbn [find_fd peer_of]. rewrite (phase_repr_fd _ _ Hp). by rewrite IH.
Qed.

Lemma harbor_id_serves fd : hub_serves (harbor_id fd) (hub_id_of fd).
Proof.
  intros h a l x a' l' Hr. unfold hub_id_of, harbor_id. rewrite !(hio_step (gets _) _ _ _ _ _ _ eq_refl). intros [=<- <- <-]. exists h.
  rewrite (find_fd_peer fd _ (drop 1 (hub_peers a))); [done|]. apply Forall2_drop, Hr.
Qed.

Lemma peer_of_found fd ps : forall i id, 0 < i -> peer_of fd ps i = id -> id <> 0 ->
  i <= id /\ exists p, ps !! Z.to_nat (id - i) = Some p /\ phase_fd (pr_phase p) = fd.
Proof.
  induction ps as [|p ps IH]; intros i id Hi H Hne; cbn in H; [done|]. destruct (Z.eqb_spec (phase_fd (pr_phase p)) fd) as [E|NE].
  - subst id. rewrite Z.sub_diag. split; [lia|]. by exists p.
  - destruct (IH (i + 1) id ltac:(lia) H Hne) as (Hle & q & Hq & E). split; [lia|]. exists q. split; [|done].
    by replace (Z.to_nat (id - i)) with (S (Z.to_nat (id - (i + 1)))) by lia.
Qed.

(** The peer that has the socket. *)
Lemma hub_peer_of fd a id : peer_of fd (drop 1 (hub_peers a)) 1 = id -> id <> 0 ->
  exists p, arr_lookup (hub_peers a) id = Some p /\ phase_fd (pr_phase p) = fd.
Proof.
  intros H Hne. destruct (peer_of_found _ _ 1 _ ltac:(lia) H Hne) as (Hle & p & Hp & E). exists p. split; [|done].
  rewrite arr_lookup_nonneg by lia. rewrite lookup_drop in Hp. by replace (1 + Z.to_nat (id - 1))%nat with (Z.to_nat id) in Hp by lia.
Qed.

Lemma data_hub_serves fd chunk : is_bytes chunk ->
  hub_serves (id ← harbor_id fd;
      if id =? 0 then skynet_error (str "Invalid socket fd (" ++ fmt_d fd ++ str ") data")
      else buffer ← lift (Ret chunk); read_loop mem refused (S (S (length buffer))) id fd buffer (Z.of_nat (length chunk)))
    (id ← hub_id_of fd;
     if id =? 0 then skynet_error (str "Invalid socket fd (" ++ fmt_d fd ++ str ") data")
     else self ← gets hub_id; at_peer id (p_data mem refused self id chunk)).
Proof.
  intros Hc h a l x a' l' Hr H. apply hio_inv in H as (id & a1 & l1 & H1 & H2). destruct (harbor_id_serves fd _ _ _ _ _ _ Hr H1) as (h1 & E1 & Hr1).
  unfold hub_id_of in H1. rewrite (hio_step (gets _) _ _ _ _ _ _ eq_refl) in H1. injection H1 as Eid <- <-.
  rewrite (hio_step _ _ _ _ _ _ _ E1). destruct (Z.eqb_spec id 0) as [E0|NE].
  - revert H2. by apply serves_echo; [apply echo_error|].
  - rewrite lift_Ret_bind. rewrite (hio_step (gets hub_id) _ _ _ _ _ _ eq_refl) in H2. revert H2. 
    destruct (hub_peer_of fd a id Eid NE) as (p0 & Hp0 & Efd). intros H2. unfold at_peer, arr_get in H2.
    revert H2. change (at_peer id (p_data mem refused (hub_id a) id chunk) a l = Ret (x, a', l') ->
      exists h', read_loop mem refused (S (S (length chunk))) id fd chunk (Z.of_nat (length chunk)) h1 l = Ret (x, h', l') /\ repr h' a').
    apply serves_at; [done|]. intros s p p' Hs Hsp H. rewrite <- (rp_id _ _ Hr1) in H.
    destruct (repr_slot _ _ _ _ Hr1 Hp0) as (s0 & Hs0 & [_ Hp0r _]). unfold slot in Hs, Hs0. rewrite Hs in Hs0. injection Hs0 as <-.
    pose proof Hsp as [_ Hpr _]. assert (phase_fd (pr_phase p) = fd) as Ep by (by rewrite <- (phase_repr_fd _ _ Hpr), (phase_repr_fd _ _ Hp0r)).
    rewrite <- Ep. by apply (data_serves mem refused (h_id h1) id h1 s p chunk l x p' l').
Qed.

Lemma hio_assoc {S A B C} (m : IO S A) (f : A -> IO S B) (g : B -> IO S C) a l : ((m ≫= f) ≫= g) a l = (m ≫= fun x => f x ≫= g) a l.
Proof. unfold mbind, hio_bind. by destruct (m a l) as [[[x a'] l']| | |]. Qed.

Lemma socket_serves message session source :
  hub_serves (mainloop mem refused (ISocket message) session source) (hub_socket mem refused message).
Proof.
  unfold mainloop, hub_socket. cbv zeta. set (type := sm_type message). destruct (Z.eqb_spec type SKYNET_SOCKET_TYPE_DATA) as [Et|Nt].
  - destruct (sm_buffer message) as [chunk|] eqn:Eb.
    2: { intros h a l x a' l' _ H. apply hio_inv in H as (? & ? & ? & _ & H). done. }
    destruct ((sm_ud message =? Z.of_nat (length chunk)) && bool_decide (is_bytes chunk)) eqn:Eok; cbn [negb].
    2: { intros h a l x a' l' _ H. apply hio_inv in H as (? & ? & ? & _ & H). done. }
    apply andb_true_iff in Eok as [Eud%Z.eqb_eq Hc%bool_decide_eq_true]. intros h a l x a' l' Hr H.
    rewrite <- (hio_assoc (hub_id_of (sm_id message)) (fun id => if id =? 0 then _ else _)) in H. revert H.
    apply serves_bind; [|intros _; apply serves_echo, echo_asks|done]. intros h1 a1 l1 x1 a1' l1' Hr1 H1.
    destruct (data_hub_serves (sm_id message) chunk Hc h1 a1 l1 x1 a1' l1' Hr1 H1) as (h2 & E2 & Hr2). exists h2. split; [|done].
    unfold push_socket_data. fold type. rewrite Et. rewrite Eb, Eud. exact E2.
  - destruct ((type =? SKYNET_SOCKET_TYPE_ERROR) || (type =? SKYNET_SOCKET_TYPE_CLOSE)) eqn:Eec.
    { apply serves_bind; [apply harbor_id_serves|]. intros id. destruct (id =? 0); cbn [negb]; [apply serves_echo, echo_error|].
      unfold report_harbor_down. apply serves_bind; [apply serves_gets, rp_slave|]. intros slave. apply serves_echo. auto with echo. }
    intros h a l x a' l' Hr H. apply hio_inv in H as (id & a1 & l1 & H1 & H2).
    destruct (harbor_id_serves (sm_id message) _ _ _ _ _ _ Hr H1) as (h1 & E1 & Hr1).
    unfold hub_id_of in H1. rewrite (hio_step (gets _) _ _ _ _ _ _ eq_refl) in H1. injection H1 as Eid <- <-.
    assert (h1 = h) as -> by (unfold harbor_id in E1; rewrite (hio_step (gets _) _ _ _ _ _ _ eq_refl) in E1; by injection E1 as _ <-).
    destruct (type =? SKYNET_SOCKET_TYPE_CONNECT); [injection H2 as <- <- <-; by exists h|].
    destruct (type =? SKYNET_SOCKET_TYPE_WARNING).
    + rewrite (hio_step _ _ _ _ _ _ _ E1). revert H2. destruct (id =? 0); cbn [negb].
      * apply (serves_echo _ _ (echo_ret tt)). done.
      * by apply (serves_echo _ _ (echo_error _)).
    + revert H2. by apply (serves_echo _ _ (echo_error _)).
Qed.

(** *** The service *)

Theorem step_serves msg session source : hub_serves (mainloop mem refused msg session source) (hub_step mem refused msg session source).
Proof.
  destruct msg as [message|msg sz|r|type].
  - apply socket_serves.
  - apply command_serves.
  - cbn [mainloop hub_step]. apply serves_bind.
    + apply serves_if; [apply send_name_serves|apply send_handle_serves].
    + intros taken. apply serves_if; apply serves_echo; auto with echo.
  - apply serves_echo. cbn [mainloop hub_step]. apply echo_bind; [apply echo_error|]. intros _. apply echo_if; auto with echo.
Qed.

Lemma run_serves ins : hub_serves (each (fun i => mainloop mem refused i.1.1 i.1.2 i.2) ins) (each (fun i => hub_step mem refused i.1.1 i.1.2 i.2) ins).
Proof.
  induction ins as [|i ins IH]; [apply serves_echo, echo_ret|]. cbn [each]. apply serves_bind; [apply step_serves|by intros _].
Qed.
End service.
