(* ===== verification/HarborSystem.v ===== *)
(** The harbor service as a whole: it does what the hub does for all messages that it is
    meant for, and every message that it was given is freed, passed on, or waits. *)
From S2P Require Import Prelude Handle Cstr Ring Node Netpack Gate Harbor HarborSpec HarborServe.

(** ** Messages are not lost *)

Definition bufs (ms : list harbor_msg) : list Z := hm_buffer <$> ms.

(** The messages that were freed or passed on. *)
Definition disposed (l : list act) : list Z :=
  omap (fun a => match a with HFree p | HSend _ _ _ _ (PPtr p _) => Some p | _ => None end) l.

(** [g] changes nothing but the log, and disposes of [n]. *)
Definition gives {S A} (g : IO S A) (n : list Z) : Prop := forall a l x a' l', g a l = Ret (x, a', l') ->
  a' = a /\ disposed l' ≡ₚ n ++ disposed l.

Section gives.
Context {S : Type}.

Lemma gives_ret {A} (x : A) : gives (S := S) (mret x) [].
Proof. by intros a l y a' l' [=<- <- <-]. Qed.

Lemma gives_lift {A} (o : outcome A) : gives (S := S) (lift o) [].
Proof. intros a l y a' l'. unfold lift. destruct o; [|done..]. by intros [=<- <- <-]. Qed.

Lemma gives_bind {A B} (m : IO S A) (f : A -> IO S B) n k : gives m n -> (forall x, gives (f x) k) -> gives (m ≫= f) (k ++ n).
Proof.
  intros Hm Hf a l x a' l' (y & a1 & l1 & H1 & H2)%hio_inv. destruct (Hm _ _ _ _ _ H1) as [-> E1].
  destruct (Hf _ _ _ _ _ _ H2) as [-> E2]. split; [done|]. by rewrite E2, E1, app_assoc.
Qed.

Lemma gives_nothing {A B} (m : IO S A) (f : A -> IO S B) : gives m [] -> (forall x, gives (f x) []) -> gives (m ≫= f) [].
Proof. apply (gives_bind m f [] []). Qed.

Lemma gives_if {A} (b : bool) (m n : IO S A) k : gives m k -> gives n k -> gives (if b then m else n) k.
Proof. by destruct b. Qed.

Lemma gives_asks a : gives (S := S) (asks a) (disposed [a]).
Proof. intros b l x b' l' [=<- <- <-]. split; [done|]. by destruct a as [? ? ? ? []| | | | | | | |]. Qed.

Lemma gives_each {A} (f : A -> IO S unit) (b : A -> Z) ms : (forall m, gives (f m) [b m]) -> gives (each f ms) (b <$> ms).
Proof.
  intros Hf. induction ms as [|m ms IH]; [apply gives_ret|]. cbn [each fmap list_fmap]. intros a l x a' l' H.
  destruct (gives_bind _ _ _ _ (Hf m) (fun _ => IH) _ _ _ _ _ H) as [-> E]. split; [done|]. rewrite E.
  by rewrite <- Permutation_cons_append.
Qed.

Context (mem : Z -> bytes) (refused : list act -> bool).

Lemma gives_send source dest type session msg : gives (S := S) (skynet_send refused source dest type session msg)
  (match msg with PPtr p _ => [p] | _ => [] end).
Proof. intros a l x a' l' [=<- <- <-]. split; [done|]. by destruct msg. Qed.

Lemma gives_error text : gives (S := S) (skynet_error text) [].
Proof. apply gives_asks. Qed.

Lemma gives_send_remote fd p sz c : gives (S := S) (send_remote mem fd p sz c) [].
Proof. unfold send_remote. cbv zeta. apply gives_if; [apply gives_error|]. apply gives_nothing; [apply gives_lift|]. intros d. apply gives_asks. Qed.

Lemma gives_sent_on fd m : gives (S := S) (sent_on mem fd m) [hm_buffer m].
Proof. apply (gives_bind _ _ [] [hm_buffer m]); [apply gives_send_remote|]. intros _. apply gives_asks. Qed.

Lemma gives_send_here handle m : gives (S := S) (send_here refused handle m) [hm_buffer m].
Proof. apply (gives_bind _ _ [hm_buffer m] []); [apply gives_send|]. intros _. apply gives_ret. Qed.

Lemma gives_reply source dest type session b : gives (S := S) (_ ← skynet_send refused source dest type session (PBytes b); mret tt) [].
Proof. apply gives_nothing; [apply gives_send|]. intros _. apply gives_ret. Qed.

Lemma gives_arrive self p : gives (S := S) (arrive refused self p) [].
Proof.
  unfold arrive. cbv zeta. apply gives_if; [apply gives_lift|]. apply gives_nothing; [apply gives_send|]. intros r.
  apply gives_if; [|apply gives_ret]. apply gives_nothing; [|intros _; apply gives_error]. apply gives_if; [apply gives_reply|apply gives_ret].
Qed.

Lemma gives_all {A} (f : A -> IO S unit) ms : (forall m, gives (f m) []) -> gives (each f ms) [].
Proof. intros Hf. induction ms as [|m ms IH]; [apply gives_ret|]. cbn [each]. apply gives_nothing; [apply Hf|by intros _]. Qed.
End gives.

(** Of the messages [ms] and those that are new, [gone] were disposed of and the others
    wait. *)
Definition kept (ms new ms' : list harbor_msg) (l l' : list act) : Prop :=
  exists gone, ms ++ new ≡ₚ gone ++ ms' /\ disposed l' ≡ₚ bufs gone ++ disposed l.

Lemma kept_same ms l l' : disposed l' ≡ₚ disposed l -> kept ms [] ms l l'.
Proof. exists []. by rewrite app_nil_r. Qed.

Lemma kept_trans ms new ms1 new1 ms2 l l1 l2 : kept ms new ms1 l l1 -> kept ms1 new1 ms2 l1 l2 -> kept ms (new ++ new1) ms2 l l2.
Proof.
  intros (g1 & E1 & D1) (g2 & E2 & D2). exists (g1 ++ g2). split.
  - by rewrite app_assoc, E1, <- app_assoc, E2, app_assoc.
  - rewrite D2, D1. unfold bufs. rewrite fmap_app, app_assoc. f_equiv. apply Permutation_app_comm.
Qed.

Section peers.
Context (mem : Z -> bytes) (refused : list act -> bool) (self id : Z).

Lemma kept_push m p l x p' l' : p_push m p l = Ret (x, p', l') -> kept (pr_waiting p) [m] (pr_waiting p') l l'.
Proof.
  unfold p_push. rewrite (hio_step get _ _ _ _ _ _ eq_refl). destruct (room _); [|done]. intros [=<- <- <-]. by exists [].
Qed.

Lemma kept_close p l x p' l' : p_close p l = Ret (x, p', l') -> kept (pr_waiting p) [] (pr_waiting p') l l'.
Proof.
  unfold p_close. rewrite (hio_step get _ _ _ _ _ _ eq_refl), (hio_step (asks _) _ _ _ tt _ _ eq_refl). intros (? & ? & l1 & H1 & [=<- <- <-])%hio_inv.
  exists (pr_waiting p). split; [by rewrite !app_nil_r|].
  by destruct (gives_each (S := peer) _ hm_buffer (pr_waiting p) (fun m => gives_asks (HFree (hm_buffer m))) _ _ _ _ _ H1) as [_ E].
Qed.

Lemma kept_flush fd p l x p' l' : p_flush mem fd p l = Ret (x, p', l') -> kept (pr_waiting p) [] (pr_waiting p') l l'.
Proof.
  unfold p_flush. rewrite (hio_step get _ _ _ _ _ _ eq_refl). intros (? & ? & l1 & H1 & [=<- <- <-])%hio_inv.
  exists (pr_waiting p). split; [by rewrite !app_nil_r|].
  by destruct (gives_each (S := peer) _ hm_buffer (pr_waiting p) (gives_sent_on mem fd) _ _ _ _ _ H1) as [_ E].
Qed.

Lemma kept_stream chunk p l x p' l' : p_stream refused self id chunk p l = Ret (x, p', l') -> kept (pr_waiting p) [] (pr_waiting p') l l'.
Proof.
  unfold p_stream. rewrite (hio_step get _ _ _ _ _ _ eq_refl). destruct (pr_phase p) as [| |fd rest|]; try (intros [=<- <- <-]; by apply kept_same).
  intros (? & p1 & l1 & H1 & H2)%hio_inv. destruct (gives_all (S := peer) _ _ (gives_arrive refused self) _ _ _ _ _ H1) as [-> E].
  destruct (cut (rest ++ chunk)).2.
  - injection H2 as <- <- <-. by apply kept_same.
  - rewrite (hio_step (skynet_error _) _ _ _ tt _ _ eq_refl) in H2. apply kept_close in H2. 
    apply (kept_trans _ [] (pr_waiting p) [] _ _ _ _ (kept_same _ l l1 E)). exact H2.
Qed.

Lemma kept_data chunk p l x p' l' : p_data mem refused self id chunk p l = Ret (x, p', l') -> kept (pr_waiting p) [] (pr_waiting p') l l'.
Proof.
  unfold p_data. rewrite (hio_step get _ _ _ _ _ _ eq_refl). destruct (pr_phase p) as [|fd|fd rest|]; try (intros [=<- <- <-]; by apply kept_same).
  - destruct chunk as [|b chunk]; [done|]. destruct (negb (b =? id)).
    + rewrite (hio_step (skynet_error _) _ _ _ tt _ _ eq_refl). intros H%kept_close. exact H.
    + intros (? & p1 & l1 & [=<- <- <-] & H)%hio_inv. apply hio_inv in H as (? & p2 & l2 & H1%kept_flush & H2%kept_stream).
      by apply (kept_trans _ [] _ [] _ _ _ _ H1).
  - apply kept_stream.
Qed.

Lemma kept_resolved slave handle ms p l x p' l' : p_resolved mem refused slave handle ms p l = Ret (x, p', l') ->
  kept (pr_waiting p) ms (pr_waiting p') l l'.
Proof.
  unfold p_resolved. rewrite (hio_step get _ _ _ _ _ _ eq_refl). intros H.
  assert (forall fd, each (fun m => sent_on mem fd (with_handle handle m)) ms p l = Ret (x, p', l') -> kept (pr_waiting p) ms (pr_waiting p') l l') as Hsend.
  { intros fd Hs. destruct (gives_each (S := peer) _ hm_buffer ms (fun m => gives_sent_on mem fd (with_handle handle m)) _ _ _ _ _ Hs) as [-> E].
    exists ms. split; [apply Permutation_app_comm|done]. }
  destruct (pr_phase p); try by apply (Hsend _ H). destruct (negb (room _)); [done|]. destruct (_ =? _).
  - apply hio_inv in H as (? & p1 & l1 & H1 & [=<- <- <-]).
    destruct (gives_each (S := peer) _ hm_buffer _ (gives_send_here refused handle) _ _ _ _ _ H1) as [-> E].
    exists (pr_waiting p ++ ms). split; [by rewrite app_nil_r|done].
  - injection H as <- <- <-. by exists [].
Qed.

Lemma kept_connect shake fd p l x p' l' : p_connect mem self shake id fd p l = Ret (x, p', l') -> kept (pr_waiting p) [] (pr_waiting p') l l'.
Proof.
  unfold p_connect. rewrite (hio_step get _ _ _ _ _ _ eq_refl). destruct (negb _); [intros [=<- <- <-]; by apply kept_same|].
  rewrite !(hio_step (asks _) _ _ _ tt _ _ eq_refl). destruct shake; [intros [=<- <- <-]; by apply kept_same|].
  intros (? & p1 & l1 & [=<- <- <-] & H)%hio_inv. apply kept_flush in H. exact H.
Qed.
End peers.

(** ** The hub *)

Definition name_waiting (names : gmap bytes (Z * list harbor_msg)) : list harbor_msg := concat ((fun e => e.2.2) <$> map_to_list names).

(** All messages that wait. *)
Definition all_waiting (a : hub) : list harbor_msg := concat (pr_waiting <$> hub_peers a) ++ name_waiting (hub_names a).

Lemma peer_waiting_insert ps (i : nat) p p' : ps !! i = Some p -> exists rest,
  concat (pr_waiting <$> ps) ≡ₚ pr_waiting p ++ rest /\ concat (pr_waiting <$> <[i := p']> ps) ≡ₚ pr_waiting p' ++ rest.
Proof.
  intros Hi. exists (concat (pr_waiting <$> take i ps) ++ concat (pr_waiting <$> drop (S i) ps)).
  assert (forall q, concat (pr_waiting <$> (take i ps ++ q :: drop (S i) ps)) ≡ₚ pr_waiting q ++ concat (pr_waiting <$> take i ps) ++ concat (pr_waiting <$> drop (S i) ps)) as H.
  { intros q. rewrite fmap_app, concat_app. cbn [fmap list_fmap concat]. apply Permutation_app_swap_app. }
  split.
  - rewrite <- H. by rewrite take_drop_middle.
  - rewrite insert_take_drop by (by eapply lookup_lt_Some). apply H.
Qed.

Lemma name_waiting_insert (names : gmap bytes (Z * list harbor_msg)) name : exists rest,
  name_waiting names ≡ₚ (default (0, []) (names !! name)).2 ++ rest /\
  forall e, name_waiting (<[name := e]> names) ≡ₚ e.2 ++ rest.
Proof.
  exists (name_waiting (delete name names)). split.
  - destruct (names !! name) as [e|] eqn:E; cbn [default from_option id snd].
    + unfold name_waiting. rewrite <- (map_to_list_delete names name e E). done.
    + by rewrite delete_id.
  - intros e. rewrite <- insert_delete_eq. unfold name_waiting. rewrite map_to_list_insert by apply lookup_delete_eq. done.
Qed.

(** A part of what waits has changed. *)
Lemma kept_frame W W' ms ms' rest new l l' : W ≡ₚ ms ++ rest -> W' ≡ₚ ms' ++ rest -> kept ms new ms' l l' -> kept W new W' l l'.
Proof.
  intros E E' (gone & Ek & D). exists gone. split; [|done].
  rewrite E, E', app_assoc, <- Ek, <- !app_assoc. f_equiv. apply Permutation_app_comm.
Qed.

Lemma at_peer_kept {A} id (m : IO peer A) a l x a' l' new : at_peer id m a l = Ret (x, a', l') ->
  (forall p p', m p l = Ret (x, p', l') -> kept (pr_waiting p) new (pr_waiting p') l l') -> kept (all_waiting a) new (all_waiting a') l l'.
Proof.
  intros H Hm. unfold at_peer, arr_get in H. destruct (arr_lookup (hub_peers a) id) as [p|] eqn:Ep; [|done]. cbn [deref] in H. rewrite bind_Ret in H.
  destruct (m p l) as [[[y p'] l1]| | |] eqn:E; [|done..]. rewrite bind_Ret in H. destruct (arr_lookup_Some _ _ _ Ep) as [Hid Hp].
  rewrite arr_set_Ret, bind_Ret in H by lia. injection H as <- <- <-. specialize (Hm _ _ E).
  destruct (peer_waiting_insert _ _ _ p' Hp) as (rest & E1 & E2). unfold all_waiting. cbn [hub_peers hub_names].
  eapply kept_frame; [| |exact Hm]; [rewrite E1|rewrite E2]; by rewrite <- app_assoc.
Qed.

(** A name gets other messages. *)
Lemma set_name_kept name e a new l l' : kept (default (0, []) (hub_names a !! name)).2 new e.2 l l' ->
  kept (all_waiting a) new (all_waiting (Hub (hub_id a) (hub_slave a) (<[name := e]> (hub_names a)) (hub_peers a))) l l'.
Proof.
  intros Hk. destruct (name_waiting_insert (hub_names a) name) as (rest & E1 & E2). unfold all_waiting. cbn [hub_peers hub_names].
  eapply kept_frame; [| |exact Hk].
  - rewrite E1. rewrite Permutation_app_comm, <- app_assoc. done.
  - rewrite E2. rewrite Permutation_app_comm, <- app_assoc. done.
Qed.

Section hub.
Context (mem : Z -> bytes) (refused : list act -> bool).

Definition parts (m : harbor_msg) : Z * Z := (hm_buffer m, hm_size m).

(** The message, if it was taken. *)
Definition took (x : bool) (msg sz : Z) (new : list harbor_msg) : Prop := parts <$> new = if x then [(msg, sz)] else [].

Lemma send_handle_kept source destination type session msg sz a l x a' l' :
  hub_send_handle mem refused source destination type session msg sz a l = Ret (x, a', l') ->
  exists new, kept (all_waiting a) new (all_waiting a') l l' /\ took x msg sz new.
Proof.
  unfold hub_send_handle. rewrite (hio_step (gets hub_id) _ _ _ _ _ _ eq_refl). destruct (_ =? _).
  - rewrite (hio_step (skynet_send _ _ _ _ _ _) _ _ _ _ _ _ eq_refl). intros [=<- <- <-].
    exists [HarborMsg (Header 0 0 0) msg sz]. split; [|done]. exists [HarborMsg (Header 0 0 0) msg sz]. split; [apply Permutation_app_comm|done].
  - cbv zeta. set (header := Header _ _ _). intros H. destruct x.
    + exists [HarborMsg header msg sz]. split; [|done]. eapply at_peer_kept; [exact H|]. intros p p' Hp. rewrite (hio_step get _ _ _ _ _ _ eq_refl) in Hp.
      destruct (pr_phase p).
      * apply hio_inv in Hp as (? & ? & ? & Hp%kept_push & [=<- <-]). done.
      * apply hio_inv in Hp as (? & ? & ? & Hp%kept_push & [=<- <-]). done.
      * by apply hio_inv in Hp as (? & ? & ? & _ & [=]).
      * by apply hio_inv in Hp as (? & ? & ? & _ & [=]).
    + exists []. split; [|done]. eapply at_peer_kept; [exact H|]. intros p p' Hp. rewrite (hio_step get _ _ _ _ _ _ eq_refl) in Hp.
      assert (forall fd, (_ ← send_remote mem fd msg sz header; mret false) p l = Ret (false, p', l') -> kept (pr_waiting p) [] (pr_waiting p') l l') as Hs.
      { intros fd (? & ? & ? & H1 & [=<- <-])%hio_inv. destruct (gives_send_remote mem fd msg sz header _ _ _ _ _ H1) as [-> E]. by apply kept_same. }
      destruct (pr_phase p).
      * by apply hio_inv in Hp as (? & ? & ? & _ & [=]).
      * by apply hio_inv in Hp as (? & ? & ? & _ & [=]).
      * by apply Hs in Hp.
      * by apply Hs in Hp.
Qed.

Lemma send_name_kept source name type session msg sz a l x a' l' :
  hub_send_name mem refused source name type session msg sz a l = Ret (x, a', l') ->
  exists new, kept (all_waiting a) new (all_waiting a') l l' /\ took x msg sz new.
Proof.
  unfold hub_send_name. destruct (negb (name_ok name)); [done|]. unfold name_entry.
  destruct (default (0, []) (hub_names a !! name)) as [handle ms] eqn:Ee.
  rewrite (hio_step (gets hub_names ≫= _) _ a l (handle, ms) a l) by (unfold mbind, hio_bind, gets, mret, hio_ret; by rewrite Ee).
  destruct (handle =? 0).
  - destruct (room _); [|done]. set (m := HarborMsg _ _ _). rewrite (hio_step (set_name _ _) _ _ _ _ _ _ eq_refl), (hio_step (gets hub_slave) _ _ _ _ _ _ eq_refl),
      (hio_step (skynet_send _ _ _ _ _ _) _ _ _ _ _ _ eq_refl). intros [=<- <- <-]. exists [m]. split; [|done].
    apply set_name_kept. rewrite Ee. by exists [].
  - intros (? & a1 & l1 & [=<- <- <-] & H)%hio_inv. apply send_handle_kept in H as (new & Hk & Ht). exists new. split; [|done].
    eapply (kept_trans _ [] _ new); [|exact Hk]. apply set_name_kept. rewrite Ee. by apply kept_same.
Qed.

Lemma update_name_kept name handle a l x a' l' : hub_update_name mem refused name handle a l = Ret (x, a', l') ->
  kept (all_waiting a) [] (all_waiting a') l l'.
Proof.
  unfold hub_update_name, name_entry. destruct (default (0, []) (hub_names a !! name)) as [h0 ms] eqn:Ee.
  rewrite (hio_step (gets hub_names ≫= _) _ a l (h0, ms) a l) by (unfold mbind, hio_bind, gets, mret, hio_ret; by rewrite Ee).
  intros (? & a1 & l1 & [=<- <- <-] & H)%hio_inv. destruct (name_waiting_insert (hub_names a) name) as (rest & E1 & E2).
  rewrite Ee in E1. cbn [snd] in E1. destruct (bool_decide_reflect (ms = [])) as [->|Hne].
  - injection H as <- <- <-. apply set_name_kept. rewrite Ee. by apply kept_same.
  - rewrite (hio_step (gets hub_slave) _ _ _ _ _ _ eq_refl) in H. eapply (at_peer_kept _ _ _ _ _ _ _ ms) in H.
    2: { intros p p'. apply kept_resolved. }
    destruct H as (gone & E & D). exists gone. split; [|done]. rewrite <- E. unfold all_waiting. cbn [hub_peers hub_names].
    rewrite E1, E2, app_nil_r. cbn [snd app]. rewrite <- app_assoc. f_equiv. apply Permutation_app_comm.
Qed.

Lemma command_kept msg sz source a l x a' l' : hub_command mem refused msg sz source a l = Ret (x, a', l') ->
  kept (all_waiting a) [] (all_waiting a') l l'.
Proof.
  unfold hub_command. destruct (negb _); [done|]. cbv zeta. destruct (default 0 _ =? 78).
  - destruct (_ || _); [intros [=<- <- <-]; by apply kept_same|]. apply update_name_kept.
  - destruct (_ || _); [|intros [=<- <- <-]; by apply kept_same].
    intros ([fd id] & a1 & l1 & H1 & H2)%hio_inv. destruct (gives_lift _ _ _ _ _ _ H1) as [-> E].
    eapply (kept_trans _ [] _ []); [by apply kept_same|]. destruct (_ || _); [injection H2 as <- <- <-; by apply kept_same|].
    rewrite (hio_step (gets hub_id) _ _ _ _ _ _ eq_refl) in H2. eapply at_peer_kept; [exact H2|]. intros p p'. apply kept_connect.
Qed.

Lemma socket_kept message a l x a' l' : hub_socket mem refused message a l = Ret (x, a', l') -> kept (all_waiting a) [] (all_waiting a') l l'.
Proof.
  unfold hub_socket, hub_id_of. intros (id & a1 & l1 & [=<- <- <-] & H)%hio_inv.
  assert (forall g : IO hub unit, gives g [] -> g a l = Ret (x, a', l') -> kept (all_waiting a) [] (all_waiting a') l l') as Hg.
  { intros g Hg Hr. destruct (Hg _ _ _ _ _ Hr) as [-> E]. by apply kept_same. }
  destruct (_ =? SKYNET_SOCKET_TYPE_DATA).
  - destruct (sm_buffer message) as [chunk|]; [|done]. destruct (negb _); [done|]. apply hio_inv in H as ([] & a1 & l1 & H1 & [=<- <- <-]).
    apply (kept_trans _ [] (all_waiting a1) [] _ l l1 _); [|by apply kept_same]. destruct (_ =? 0); [injection H1 as <- <-; by apply kept_same|].
    rewrite (hio_step (gets hub_id) _ _ _ _ _ _ eq_refl) in H1. eapply at_peer_kept; [exact H1|]. intros p p'. apply kept_data.
  - revert H. apply Hg. repeat apply gives_if; try apply gives_error; try apply gives_ret.
    apply gives_nothing; [by intros ? ? ? ? ? [=<- <- <-]|]. intros slave. apply gives_reply.
Qed.

(** The messages that the service is given. *)
Definition given (m : harbor_input) : list (Z * Z) := match m with IRemote r => [(rmt_data r, rmt_sz r)] | _ => [] end.

Lemma step_kept m session source a l x a' l' : hub_step mem refused m session source a l = Ret (x, a', l') ->
  exists new, kept (all_waiting a) new (all_waiting a') l l' /\ parts <$> new = given m.
Proof.
  destruct m as [message|msg sz|r|type]; cbn [hub_step].
  - intros H%socket_kept. by exists [].
  - intros H%command_kept. by exists [].
  - intros (taken & a1 & l1 & H1 & H2)%hio_inv.
    assert (exists new, kept (all_waiting a) new (all_waiting a1) l l1 /\ took taken (rmt_data r) (rmt_sz r) new) as (new & Hk & Ht)
      by (destruct (_ =? 0); [by eapply send_name_kept|by eapply send_handle_kept]).
    destruct taken; [injection H2 as <- <- <-; by exists new|]. injection H2 as <- <- <-. apply fmap_nil_inv in Ht as ->.
    exists [HarborMsg (Header 0 0 0) (rmt_data r) (rmt_sz r)]. split; [|done].
    apply (kept_trans _ [] _ [HarborMsg (Header 0 0 0) (rmt_data r) (rmt_sz r)] _ _ _ _ Hk).
    exists [HarborMsg (Header 0 0 0) (rmt_data r) (rmt_sz r)]. split; [apply Permutation_app_comm|done].
  - rewrite (hio_step (skynet_error _) _ _ _ tt _ _ eq_refl). intros H. exists []. split; [|done].
    assert (gives (S := hub) (if negb (session =? 0) && negb (type =? PTYPE_ERROR) then
             _ ← skynet_send refused 0 source PTYPE_ERROR session (PBytes []); mret tt else mret tt) []) as Hg
      by (apply gives_if; [apply gives_reply|apply gives_ret]).
    destruct (Hg _ _ _ _ _ H) as [-> E]. by apply kept_same.
Qed.

(** What waits and what is gone is what was given. *)
Lemma run_kept ins : forall a l x a' l', each (fun i => hub_step mem refused i.1.1 i.1.2 i.2) ins a l = Ret (x, a', l') ->
  exists new, kept (all_waiting a) new (all_waiting a') l l' /\ parts <$> new = concat ((fun i => given i.1.1) <$> ins).
Proof.
  induction ins as [|i ins IH]; intros a l x a' l' H.
  - injection H as <- <- <-. exists []. split; [by apply kept_same|done].
  - cbn [each] in H. apply hio_inv in H as (? & a1 & l1 & H1 & H2). destruct (step_kept _ _ _ _ _ _ _ _ H1) as (n1 & K1 & P1).
    destruct (IH _ _ _ _ _ H2) as (n2 & K2 & P2). exists (n1 ++ n2). split; [by eapply kept_trans|].
    cbn [fmap list_fmap concat]. by rewrite fmap_app, P1, P2.
Qed.
End hub.

(** ** No message is refused *)

(** [g] always ends. *)
Definition total {S A} (g : IO S A) : Prop := forall a l, exists x l', g a l = Ret (x, a, l').

Section total.
Context {S : Type}.

Lemma total_ret {A} (x : A) : total (S := S) (mret x).
Proof. intros a l. by exists x, l. Qed.

Lemma total_asks b : total (S := S) (asks b).
Proof. intros a l. by exists tt, (b :: l). Qed.

Lemma total_bind {A B} (m : IO S A) (f : A -> IO S B) : total m -> (forall x, total (f x)) -> total (m ≫= f).
Proof.
  intros Hm Hf a l. destruct (Hm a l) as (x & l1 & E). destruct (Hf x a l1) as (y & l2 & E2). exists y, l2.
  by rewrite (hio_step _ _ _ _ _ _ _ E).
Qed.

Lemma total_if {A} (b : bool) (m n : IO S A) : total m -> total n -> total (if b then m else n).
Proof. by destruct b. Qed.

Lemma total_each {A} (f : A -> IO S unit) ms : Forall (fun m => total (f m)) ms -> total (each f ms).
Proof. induction 1 as [|m ms Hm _ IH]; [apply total_ret|]. cbn [each]. by apply total_bind. Qed.

Context (mem : Z -> bytes) (refused : list act -> bool).

Lemma total_send source dest type session msg : total (S := S) (skynet_send refused source dest type session msg).
Proof. intros a l. by eexists _, _. Qed.

(** The block of a message is as long as its size. *)
Definition valid (m : harbor_msg) : Prop := 0 <= hm_size m <= Z.of_nat (length (mem (hm_buffer m))).

Lemma total_send_remote fd p sz c : sz <= Z.of_nat (length (mem p)) -> total (S := S) (send_remote mem fd p sz c).
Proof.
  intros Hs. unfold send_remote. cbv zeta. apply total_if; [apply total_asks|]. unfold load. rewrite (proj2 (Z.ltb_ge _ _)) by lia.
  rewrite lift_Ret_bind. apply total_asks.
Qed.

Lemma total_sent_on fd m : valid m -> total (S := S) (sent_on mem fd m).
Proof. intros [_ Hv]. apply total_bind; [by apply total_send_remote|]. intros _. apply total_asks. Qed.

Lemma total_send_here handle m : total (S := S) (send_here refused handle m).
Proof. apply total_bind; [apply total_send|]. intros _. apply total_ret. Qed.

Lemma total_arrive self p : (12 <= length p)%nat -> total (S := S) (arrive refused self p).
Proof.
  intros Hp. unfold arrive. rewrite (proj2 (Nat.ltb_ge _ _)) by done. cbv zeta. apply total_bind; [apply total_send|]. intros r.
  apply total_if; [|apply total_ret]. apply total_bind; [|intros _; apply total_asks]. apply total_if; [|apply total_ret].
  apply total_bind; [apply total_send|]. intros _. apply total_ret.
Qed.
End total.

(** The packets that are complete with the data [chunk]. *)
Definition packets (p : peer) (chunk : bytes) : list bytes :=
  match pr_phase p with Online _ rest => (cut (rest ++ chunk)).1 | Shaking _ => (cut (drop 1 chunk)).1 | _ => [] end.

Section ends.
Context (mem : Z -> bytes) (refused : list act -> bool).

(** What the service is meant for: data that was received, without packets shorter than
    their header; commands of the slave; messages of this node. *)
Definition input_ok (a : hub) (i : harbor_input * Z * Z) : Prop :=
  match i.1.1 with
  | ISocket message => sm_type message = SKYNET_SOCKET_TYPE_DATA -> exists chunk, sm_buffer message = Some chunk /\
      sm_ud message = Z.of_nat (length chunk) /\ is_bytes chunk /\ chunk <> [] /\
      forall p, arr_lookup (hub_peers a) (peer_of (sm_id message) (drop 1 (hub_peers a)) 1) = Some p ->
        Forall (fun q => (12 <= length q)%nat) (packets p chunk)
  | ICommand msg sz => command_ok msg sz = true /\ 0 <= i.2 < 2 ^ 32 /\
      (default 0 (head msg) ∈ [83; 65] -> exists x, sscanf_dd (drop 2 (take (Z.to_nat sz) msg)) = Ret x)
  | IRemote r => 0 <= rmt_sz r <= Z.of_nat (length (mem (rmt_data r))) /\ 0 <= rmt_handle r < 2 ^ 32 /\
      (rmt_handle r = 0 -> name_ok (rmt_name r) = true)
  | IOther _ => True
  end.

Record hub_inv (a : hub) : Prop := {
  hi_count : length (hub_peers a) = 256%nat;
  hi_names : forall name e, hub_names a !! name = Some e -> 0 <= e.1 < 2 ^ 32;
  hi_valid : Forall (valid mem) (all_waiting a) }.

Lemma flush_ends fd p l : Forall (valid mem) (pr_waiting p) -> exists x p' l', p_flush mem fd p l = Ret (x, p', l').
Proof.
  intros Hv. unfold p_flush. rewrite (hio_step get _ _ _ _ _ _ eq_refl).
  destruct (total_each (S := peer) (sent_on mem fd) (pr_waiting p)) with (a := p) (l := l) as (x & l1 & E).
  - eapply Forall_impl; [exact Hv|]. intros m Hm. by apply total_sent_on.
  - rewrite (hio_step _ _ _ _ _ _ _ E). by eexists _, _, _.
Qed.

Lemma close_ends p l : exists x p' l', p_close p l = Ret (x, p', l').
Proof.
  unfold p_close. rewrite (hio_step get _ _ _ _ _ _ eq_refl), (hio_step (asks _) _ _ _ tt _ _ eq_refl).
  destruct (total_each (S := peer) (fun m => asks (HFree (hm_buffer m))) (pr_waiting p)) with (a := p) (l := HSocketClose (phase_fd (pr_phase p)) :: l) as (x & l1 & E).
  - by apply Forall_true; intros m; apply total_asks.
  - rewrite (hio_step _ _ _ _ _ _ _ E). by eexists _, _, _.
Qed.

Lemma stream_ends self id chunk p l fd rest : pr_phase p = Online fd rest -> Forall (fun q => (12 <= length q)%nat) (cut (rest ++ chunk)).1 ->
  exists x p' l', p_stream refused self id chunk p l = Ret (x, p', l').
Proof.
  intros Eph Hq. rewrite (stream_eq _ _ _ _ _ _ _ _ Eph).
  destruct (total_each (S := peer) (arrive refused self) (cut (rest ++ chunk)).1) with (a := p) (l := l) as (x & l1 & E).
  - eapply Forall_impl; [exact Hq|]. intros m Hm. by apply total_arrive.
  - rewrite (hio_step _ _ _ _ _ _ _ E). destruct (cut (rest ++ chunk)).2; [by eexists _, _, _|].
    rewrite (hio_step (skynet_error _) _ _ _ tt _ _ eq_refl). apply close_ends.
Qed.

Lemma data_ends self id chunk p l : Forall (valid mem) (pr_waiting p) -> chunk <> [] -> Forall (fun q => (12 <= length q)%nat) (packets p chunk) ->
  exists x p' l', p_data mem refused self id chunk p l = Ret (x, p', l').
Proof.
  intros Hv Hne Hq. unfold p_data, packets in *. rewrite (hio_step get _ _ _ _ _ _ eq_refl). destruct (pr_phase p) as [|fd|fd rest|] eqn:Eph.
  - by eexists _, _, _.
  - destruct chunk as [|b chunk]; [done|]. destruct (negb (b =? id)).
    + rewrite (hio_step (skynet_error _) _ _ _ tt _ _ eq_refl). apply close_ends.
    + rewrite (hio_step (put _) _ _ _ tt _ _ eq_refl). cbn [drop] in Hq.
      destruct (flush_ends fd (Peer (pr_waiting p) (Online fd [])) l Hv) as (x & p1 & l1 & E).
      destruct (flush_result mem _ _ _ _ _ _ E) as [_ ->]. rewrite (hio_step _ _ _ _ _ _ _ E). by apply (stream_ends self id chunk _ l1 fd []).
  - by apply (stream_ends self id chunk p l fd rest).
  - by eexists _, _, _.
Qed.

Lemma resolved_ends slave handle ms p l : Forall (valid mem) ms -> room (length (pr_waiting p ++ ms)) = true ->
  exists x p' l', p_resolved mem refused slave handle ms p l = Ret (x, p', l').
Proof.
  intros Hv Hr. unfold p_resolved. rewrite (hio_step get _ _ _ _ _ _ eq_refl).
  assert (forall fd, exists x p' l', each (fun m => sent_on mem fd (with_handle handle m)) ms p l = Ret (x, p', l')) as Hs.
  { intros fd. destruct (total_each (S := peer) (fun m => sent_on mem fd (with_handle handle m)) ms) with (a := p) (l := l) as (x & l1 & E).
    - eapply Forall_impl; [exact Hv|]. intros m Hm. apply total_sent_on. exact Hm.
    - by eexists _, _, _. }
  destruct (pr_phase p); try apply Hs. rewrite Hr. cbn [negb]. destruct (_ =? _); [|by eexists _, _, _].
  destruct (total_each (S := peer) (send_here refused handle) (pr_waiting p ++ ms)) with (a := p) (l := l) as (x & l1 & E).
  - apply Forall_true. intros m. apply total_send_here.
  - rewrite (hio_step _ _ _ _ _ _ _ E). by eexists _, _, _.
Qed.

Lemma connect_ends self shake id fd p l : Forall (valid mem) (pr_waiting p) -> exists x p' l', p_connect mem self shake id fd p l = Ret (x, p', l').
Proof.
  intros Hv. unfold p_connect. rewrite (hio_step get _ _ _ _ _ _ eq_refl). destruct (negb _); [by eexists _, _, _|].
  rewrite !(hio_step (asks _) _ _ _ tt _ _ eq_refl). destruct shake; [by eexists _, _, _|].
  rewrite (hio_step (put _) _ _ _ tt _ _ eq_refl). by apply flush_ends.
Qed.

Lemma at_peer_ends {A} id (m : IO peer A) a l : 0 <= id < 256 -> length (hub_peers a) = 256%nat ->
  (forall p, hub_peers a !! Z.to_nat id = Some p -> exists x p' l', m p l = Ret (x, p', l')) -> exists x a' l', at_peer id m a l = Ret (x, a', l').
Proof.
  intros Hid Hc Hm. destruct (lookup_lt_is_Some_2 (hub_peers a) (Z.to_nat id)) as [p Hp]; [lia|]. destruct (Hm p Hp) as (x & p' & l' & E).
  unfold at_peer, arr_get. rewrite arr_lookup_nonneg, Hp by lia. cbn [deref]. rewrite bind_Ret, E, bind_Ret, arr_set_Ret, bind_Ret by lia.
  by eexists _, _, _.
Qed.

Lemma waiting_part a i p : hub_peers a !! i = Some p -> exists rest, all_waiting a ≡ₚ pr_waiting p ++ rest.
Proof.
  intros Hp. destruct (peer_waiting_insert _ _ _ p Hp) as (rest & E & _). exists (rest ++ name_waiting (hub_names a)).
  unfold all_waiting. by rewrite E, app_assoc.
Qed.

Lemma peer_valid a i p : hub_inv a -> hub_peers a !! i = Some p -> Forall (valid mem) (pr_waiting p).
Proof.
  intros Hi Hp. destruct (waiting_part _ _ _ Hp) as (rest & E). pose proof (hi_valid _ Hi) as Hv. rewrite E in Hv. by apply Forall_app in Hv as [? _].
Qed.

Lemma push_ends m p l : room (S (length (pr_waiting p))) = true -> p_push m p l = Ret (tt, Peer (pr_waiting p ++ [m]) (pr_phase p), l).
Proof. intros Hr. unfold p_push. by rewrite (hio_step get _ _ _ _ _ _ eq_refl), Hr. Qed.

Lemma send_handle_ends source destination type session msg sz a l : hub_inv a -> Z.of_nat (length (all_waiting a)) + 1 < 2 ^ 30 ->
  0 <= destination < 2 ^ 32 -> 0 <= sz <= Z.of_nat (length (mem msg)) ->
  exists x a' l', hub_send_handle mem refused source destination type session msg sz a l = Ret (x, a', l').
Proof.
  intros Hi Hroom Hd Hsz. unfold hub_send_handle. rewrite (hio_step (gets hub_id) _ _ _ _ _ _ eq_refl). destruct (_ =? _); [by eexists _, _, _|].
  cbv zeta. apply at_peer_ends; [|apply Hi|].
  - split; [apply Z.div_pos; lia|]. apply Z.div_lt_upper_bound; lia.
  - intros p Hp. rewrite (hio_step get _ _ _ _ _ _ eq_refl). destruct (waiting_part _ _ _ Hp) as (rest & E).
    assert (room (S (length (pr_waiting p))) = true) as Hr by (apply Z.ltb_lt; rewrite E, length_app in Hroom; lia).
    destruct (pr_phase p).
    + rewrite (hio_step _ _ _ _ _ _ _ (push_ends _ p l Hr)). by eexists _, _, _.
    + rewrite (hio_step _ _ _ _ _ _ _ (push_ends _ p l Hr)). by eexists _, _, _.
    + destruct (total_send_remote (S := peer) mem fd msg sz (Header source (type mod 2 ^ 8 * 2 ^ 24 + destination mod 2 ^ 24) (u32 session))) with (a := p) (l := l)
        as (x & l1 & E1); [lia|]. rewrite (hio_step _ _ _ _ _ _ _ E1). by eexists _, _, _.
    + destruct (total_send_remote (S := peer) mem fd msg sz (Header source (type mod 2 ^ 8 * 2 ^ 24 + destination mod 2 ^ 24) (u32 session))) with (a := p) (l := l)
        as (x & l1 & E1); [lia|]. rewrite (hio_step _ _ _ _ _ _ _ E1). by eexists _, _, _.
Qed.

Lemma name_part a name e : hub_names a !! name = Some e -> exists rest, all_waiting a ≡ₚ e.2 ++ rest /\
  forall e', all_waiting (Hub (hub_id a) (hub_slave a) (<[name := e']> (hub_names a)) (hub_peers a)) ≡ₚ e'.2 ++ rest.
Proof.
  intros He. destruct (name_waiting_insert (hub_names a) name) as (rest & E1 & E2). rewrite He in E1. cbn [default from_option id snd] in E1.
  exists (concat (pr_waiting <$> hub_peers a) ++ rest). unfold all_waiting. cbn [hub_peers hub_names]. split.
  - rewrite E1. apply Permutation_app_swap_app.
  - intros e'. rewrite E2. apply Permutation_app_swap_app.
Qed.

(** The entry of a name, and what waits besides it. *)
Lemma entry_part a name : hub_inv a -> exists rest, all_waiting a ≡ₚ (default (0, []) (hub_names a !! name)).2 ++ rest /\
  0 <= (default (0, []) (hub_names a !! name)).1 < 2 ^ 32.
Proof.
  intros Hi. destruct (hub_names a !! name) as [e|] eqn:E.
  - destruct (name_part _ _ _ E) as (rest & H & _). exists rest. split; [done|]. cbn. by apply (hi_names _ Hi name).
  - exists (all_waiting a). done.
Qed.

Lemma set_name_inv a name e : hub_inv a -> 0 <= e.1 < 2 ^ 32 -> Forall (valid mem) e.2 ->
  hub_inv (Hub (hub_id a) (hub_slave a) (<[name := e]> (hub_names a)) (hub_peers a)).
Proof.
  intros [H1 H2 H3] Hr Hv. split; cbn; [done| |].
  - intros k e'. destruct (decide (k = name)) as [->|]; [rewrite lookup_insert_eq; by intros [=<-]|].
    rewrite lookup_insert_ne by done. apply H2.
  - destruct (name_waiting_insert (hub_names a) name) as (rest & E1 & E2). unfold all_waiting in *. cbn [hub_peers hub_names] in *.
    rewrite E2. rewrite E1 in H3. rewrite !Forall_app in *. tauto.
Qed.

Lemma send_name_ends source name type session msg sz a l : hub_inv a -> Z.of_nat (length (all_waiting a)) + 1 < 2 ^ 30 ->
  name_ok name = true -> 0 <= sz <= Z.of_nat (length (mem msg)) ->
  exists x a' l', hub_send_name mem refused source name type session msg sz a l = Ret (x, a', l').
Proof.
  intros Hi Hroom Hok Hsz. unfold hub_send_name. rewrite Hok. cbn [negb]. unfold name_entry.
  destruct (entry_part a name Hi) as (rest & Er & Hh). pose proof (hi_valid _ Hi) as Hv. rewrite Er, Forall_app in Hv.
  destruct (hub_names a !! name) as [[handle ms]|] eqn:Ee; cbn [default from_option id fst snd] in *.
  - rewrite (hio_step (gets hub_names ≫= _) _ a l (handle, ms) a l) by (unfold mbind, hio_bind, gets, mret, hio_ret; by rewrite Ee).
    destruct (handle =? 0).
    + assert (room (S (length ms)) = true) as -> by (apply Z.ltb_lt; rewrite Er, length_app in Hroom; lia). by eexists _, _, _.
    + rewrite (hio_step (set_name _ _) _ _ _ _ _ _ eq_refl). destruct (name_part a name (handle, ms) Ee) as (rest' & E1 & E2).
      apply send_handle_ends; [|rewrite E2, <- E1; lia|done|done]. apply set_name_inv; [done|done|apply Hv].
  - rewrite (hio_step (gets hub_names ≫= _) _ a l (0, []) a l) by (unfold mbind, hio_bind, gets, mret, hio_ret; by rewrite Ee). cbn. by eexists _, _, _.
Qed.

Lemma update_name_ends name handle a l : hub_inv a -> Z.of_nat (length (all_waiting a)) + 1 < 2 ^ 30 -> 0 <= handle < 2 ^ 32 ->
  exists x a' l', hub_update_name mem refused name handle a l = Ret (x, a', l').
Proof.
  intros Hi Hroom Hh. unfold hub_update_name, name_entry. pose proof (hi_valid _ Hi) as Hv.
  destruct (hub_names a !! name) as [[h0 ms]|] eqn:Ee.
  - rewrite (hio_step (gets hub_names ≫= _) _ a l (h0, ms) a l) by (unfold mbind, hio_bind, gets, mret, hio_ret; by rewrite Ee).
    destruct (name_part a name (h0, ms) Ee) as (rest & E1 & E2). cbn [snd] in *. rewrite E1, Forall_app in Hv.
    rewrite (hio_step (set_name _ _) _ _ _ _ _ _ eq_refl). destruct (bool_decide _); [by eexists _, _, _|].
    rewrite (hio_step (gets hub_slave) _ _ _ _ _ _ eq_refl). apply at_peer_ends; [|apply Hi|].
    + split; [apply Z.div_pos; lia|]. apply Z.div_lt_upper_bound; lia.
    + intros p Hp. apply resolved_ends; [tauto|]. apply Z.ltb_lt. destruct (peer_waiting_insert _ _ _ p Hp) as (r2 & E3 & _).
      cbn [hub_peers] in E3. assert (length (all_waiting a) = length (pr_waiting p ++ r2 ++ name_waiting (hub_names a))) as El
        by (unfold all_waiting; rewrite E3; by rewrite app_assoc).
      destruct (name_waiting_insert (hub_names a) name) as (r3 & E4 & _). rewrite Ee in E4. cbn [default from_option id snd] in E4.
      rewrite E4, !length_app in El. rewrite length_app. lia.
  - rewrite (hio_step (gets hub_names ≫= _) _ a l (0, []) a l) by (unfold mbind, hio_bind, gets, mret, hio_ret; by rewrite Ee).
    by eexists _, _, _.
Qed.

Lemma command_ends msg sz session source a l : hub_inv a -> Z.of_nat (length (all_waiting a)) + 1 < 2 ^ 30 ->
  input_ok a (ICommand msg sz, session, source) -> exists x a' l', hub_command mem refused msg sz source a l = Ret (x, a', l').
Proof.
  intros Hi Hroom (Hok & Hsrc & Hscan). unfold hub_command. rewrite Hok. cbn [negb fst snd] in *. cbv zeta.
  assert (head (take (Z.to_nat sz) msg) = head msg) as Eh.
  { unfold command_ok in Hok. rewrite !andb_true_iff, Z.leb_le in Hok. destruct msg; [by destruct (Z.to_nat sz)|].
    destruct (Z.to_nat sz) eqn:Es; [lia|done]. }
  rewrite Eh. destruct (default 0 (head msg) =? 78).
  - destruct (_ || _); [by eexists _, _, _|]. by apply update_name_ends.
  - destruct ((_ =? 83) || (_ =? 65)) eqn:Ec; [|by eexists _, _, _].
    destruct Hscan as [[fd id] Es]; [rewrite orb_true_iff, !Z.eqb_eq in Ec; rewrite !elem_of_cons; tauto|]. rewrite Es, lift_Ret_bind.
    destruct ((fd =? 0) || (id <=? 0) || (256 <=? id)) eqn:Eb; [by eexists _, _, _|].
    rewrite !orb_false_iff, !Z.leb_gt in Eb. rewrite (hio_step (gets hub_id) _ _ _ _ _ _ eq_refl).
    apply at_peer_ends; [lia|apply Hi|]. intros p Hp. apply connect_ends. by eapply peer_valid.
Qed.

Lemma socket_ends message session source a l : hub_inv a -> input_ok a (ISocket message, session, source) ->
  exists x a' l', hub_socket mem refused message a l = Ret (x, a', l').
Proof.
  intros Hi Hin. cbn in Hin. unfold hub_socket, hub_id_of. rewrite (hio_step (gets hub_peers ≫= _) _ a l (peer_of (sm_id message) (drop 1 (hub_peers a)) 1) a l eq_refl).
  set (id := peer_of _ _ _) in *. destruct (Z.eqb_spec (sm_type message) SKYNET_SOCKET_TYPE_DATA) as [Et|_].
  - destruct (Hin Et) as (chunk & Eb & Eud & Hb & Hne & Hp). rewrite Eb, Eud, Z.eqb_refl, bool_decide_eq_true_2 by done. cbn [andb negb].
    destruct (Z.eqb_spec id 0) as [E0|NE]; [by eexists _, _, _|]. destruct (hub_peer_of (sm_id message) a id eq_refl NE) as (p & Ep & _).
    destruct (arr_lookup_Some _ _ _ Ep) as [Hid Hpi]. rewrite (hi_count _ Hi) in Hid.
    destruct (at_peer_ends id (p_data mem refused (hub_id a) id chunk) a l) as (x & a1 & l1 & E); [lia|apply Hi| |].
    + intros q Hq. rewrite Hpi in Hq. injection Hq as <-. apply data_ends; [by eapply peer_valid|done|by apply Hp].
    + rewrite (hio_step (gets hub_id ≫= _) _ a l x a1 l1) by (rewrite (hio_step (gets hub_id) _ _ _ _ _ _ eq_refl); exact E). by eexists _, _, _.
  - destruct (_ || _); [destruct (id =? 0); by eexists _, _, _|]. destruct (_ =? _); [by eexists _, _, _|].
    destruct (_ =? _); [destruct (id =? 0); by eexists _, _, _|]. by eexists _, _, _.
Qed.

(** The hub has an answer to every message that is as it should be. *)
Lemma step_ends i a l : hub_inv a -> Z.of_nat (length (all_waiting a)) + 1 < 2 ^ 30 -> input_ok a i ->
  exists a' l', hub_step mem refused i.1.1 i.1.2 i.2 a l = Ret (tt, a', l').
Proof.
  intros Hi Hroom Hin. assert (exists x a' l', hub_step mem refused i.1.1 i.1.2 i.2 a l = Ret (x, a', l')) as ([] & H); [|done].
  destruct i as [[m session] source]. cbn [fst snd]. destruct m as [message|msg sz|r|type]; cbn [hub_step].
  - by eapply socket_ends.
  - by eapply command_ends.
  - destruct Hin as (Hsz & Hh & Hn). cbn [fst snd] in *.
    assert (exists x a1 l1, (if rmt_handle r =? 0 then hub_send_name mem refused source (rmt_name r) (rmt_type r) session (rmt_data r) (rmt_sz r)
               else hub_send_handle mem refused source (rmt_handle r) (rmt_type r) session (rmt_data r) (rmt_sz r)) a l = Ret (x, a1, l1)) as (x & a1 & l1 & E).
    { destruct (Z.eqb_spec (rmt_handle r) 0); [apply send_name_ends; auto|by apply send_handle_ends]. }
    rewrite (hio_step _ _ _ _ _ _ _ E). destruct x; by eexists _, _, _.
  - rewrite (hio_step (skynet_error _) _ _ _ tt _ _ eq_refl). destruct (_ && _); by eexists _, _, _.
Qed.

(** *** The invariant *)

(** The entries of the names that a program leaves are those that were there, or are for
    handles in range. *)
Definition names_in_range (a : hub) : Prop := length (hub_peers a) = 256%nat /\ forall name e, hub_names a !! name = Some e -> 0 <= e.1 < 2 ^ 32.

Lemma at_peer_range {A} id (m : IO peer A) a l x a' l' : at_peer id m a l = Ret (x, a', l') -> names_in_range a -> names_in_range a'.
Proof.
  unfold at_peer. intros H [H1 H2]. destruct (arr_get _ _) as [p| | |]; [|done..]. rewrite bind_Ret in H.
  destruct (m p l) as [[[y p'] l1]| | |]; [|done..]. rewrite bind_Ret in H. destruct (arr_set _ _ _) as [ps| | |] eqn:E; [|done..].
  injection H as <- <- <-. apply arr_set_inv in E as [_ ->]. split; cbn; [by rewrite length_insert|done].
Qed.

Lemma insert_range a name e : names_in_range a -> 0 <= e.1 < 2 ^ 32 ->
  names_in_range (Hub (hub_id a) (hub_slave a) (<[name := e]> (hub_names a)) (hub_peers a)).
Proof.
  intros [H1 H2] He. split; cbn; [done|]. intros k e'. destruct (decide (k = name)) as [->|]; [rewrite lookup_insert_eq; by intros [=<-]|].
  rewrite lookup_insert_ne by done. apply H2.
Qed.

Lemma entry_range a name : names_in_range a -> 0 <= (default (0, []) (hub_names a !! name)).1 < 2 ^ 32.
Proof. intros [_ H]. destruct (hub_names a !! name) as [e|] eqn:E; [by apply (H name)|done]. Qed.

Lemma send_handle_range source destination type session msg sz a l x a' l' :
  hub_send_handle mem refused source destination type session msg sz a l = Ret (x, a', l') -> names_in_range a -> names_in_range a'.
Proof.
  unfold hub_send_handle. rewrite (hio_step (gets hub_id) _ _ _ _ _ _ eq_refl). destruct (_ =? _); [by intros [=<- <- <-]|]. apply at_peer_range.
Qed.

Lemma step_range i a l x a' l' : hub_step mem refused i.1.1 i.1.2 i.2 a l = Ret (x, a', l') -> input_ok a i -> names_in_range a -> names_in_range a'.
Proof.
  destruct i as [[m session] source]. cbn [fst snd]. intros H Hin Hr. destruct m as [message|msg sz|r|type]; cbn [hub_step] in H.
  - unfold hub_socket, hub_id_of in H. rewrite (hio_step (gets hub_peers ≫= _) _ a l (peer_of (sm_id message) (drop 1 (hub_peers a)) 1) a l eq_refl) in H.
    destruct (_ =? SKYNET_SOCKET_TYPE_DATA).
    + destruct (sm_buffer message); [|done]. destruct (negb _); [done|]. apply hio_inv in H as (? & a1 & l1 & H1 & [=<- <- <-]).
      destruct (_ =? 0); [by injection H1 as <- <- <-|]. rewrite (hio_step (gets hub_id) _ _ _ _ _ _ eq_refl) in H1. by apply at_peer_range in H1.
    + destruct (_ || _); [destruct (_ =? 0); by injection H as <- <- <-|]. destruct (_ =? _); [by injection H as <- <- <-|].
      destruct (_ =? SKYNET_SOCKET_TYPE_WARNING); [destruct (_ =? 0); by injection H as <- <- <-|by injection H as <- <- <-].
  - destruct Hin as (_ & Hs & _). unfold hub_command in H. destruct (negb _); [done|]. cbv zeta in H. destruct (default 0 _ =? 78).
    + destruct (_ || _); [by injection H as <- <- <-|]. unfold hub_update_name, name_entry in H.
      set (name := _ ++ _) in H. destruct (default (0, []) (hub_names a !! name)) as [h0 ms] eqn:Ee.
      rewrite (hio_step (gets hub_names ≫= _) _ a l (h0, ms) a l) in H by (unfold mbind, hio_bind, gets, mret, hio_ret; by rewrite Ee).
      rewrite (hio_step (set_name _ _) _ _ _ _ _ _ eq_refl) in H. pose proof (insert_range a name (source, []) Hr Hs) as Hr1.
      destruct (bool_decide _); [by injection H as <- <- <-|]. rewrite (hio_step (gets hub_slave) _ _ _ _ _ _ eq_refl) in H.
      by apply at_peer_range in H.
    + destruct (_ || _); [|by injection H as <- <- <-]. apply hio_inv in H as ([fd id] & a1 & l1 & H1 & H2).
      unfold lift in H1. destruct (sscanf_dd _); [|done..]. injection H1 as _ <- <-. destruct (_ || _); [by injection H2 as <- <- <-|].
      rewrite (hio_step (gets hub_id) _ _ _ _ _ _ eq_refl) in H2. by apply at_peer_range in H2.
  - apply hio_inv in H as (taken & a1 & l1 & H1 & H2). assert (names_in_range a1) as Hr1; [|by destruct taken; injection H2 as <- <- <-].
    destruct (_ =? 0); [|by apply send_handle_range in H1]. unfold hub_send_name in H1. destruct (negb _); [done|]. unfold name_entry in H1.
    pose proof (entry_range a (rmt_name r) Hr) as He. destruct (default (0, []) (hub_names a !! rmt_name r)) as [handle ms] eqn:Ee.
    rewrite (hio_step (gets hub_names ≫= _) _ a l (handle, ms) a l) in H1 by (unfold mbind, hio_bind, gets, mret, hio_ret; by rewrite Ee).
    destruct (handle =? 0).
    + destruct (room _); [|done]. injection H1 as <- <- <-. by apply insert_range.
    + rewrite (hio_step (set_name _ _) _ _ _ _ _ _ eq_refl) in H1. apply send_handle_range in H1; [done|]. by apply insert_range.
  - rewrite (hio_step (skynet_error _) _ _ _ tt _ _ eq_refl) in H. destruct (_ && _); by injection H as <- <- <-.
Qed.

Lemma step_inv i a l a' l' : hub_inv a -> input_ok a i -> hub_step mem refused i.1.1 i.1.2 i.2 a l = Ret (tt, a', l') ->
  hub_inv a' /\ (length (all_waiting a') <= length (all_waiting a) + 1)%nat.
Proof.
  intros [H1 H2 H3] Hin H. destruct (step_range _ _ _ _ _ _ H Hin (conj H1 H2)) as [H1' H2'].
  destruct (step_kept _ _ _ _ _ _ _ _ _ _ H) as (new & (gone & E & _) & Hp).
  assert ((length new <= 1)%nat) as Hl by (rewrite <- (length_fmap parts), Hp; destruct i.1.1; cbn; lia).
  split; [|pose proof (Permutation_length E) as El; rewrite !length_app in El; lia]. split; [done|done|].
  assert (Forall (valid mem) (all_waiting a ++ new)) as Hv.
  { apply Forall_app. split; [done|]. destruct i as [[m session] source]. cbn [fst snd] in *. unfold valid.
    destruct m as [message|msg sz|r|type]; try by (apply fmap_nil_inv in Hp as ->). destruct new as [|x [|? ?]]; [done| |done].
    injection Hp as Hb Hs. constructor; [|done]. rewrite Hb, Hs. by destruct Hin. }
  rewrite E, Forall_app in Hv. tauto.
Qed.
End ends.

(** ** The service *)

Section system.
Context (mem : Z -> bytes) (refused : list act -> bool).

(** The service and the hub on a list of messages, each with its session and its source. *)
Definition harbor_run (ins : list (harbor_input * Z * Z)) : IO harbor unit := each (fun i => mainloop mem refused i.1.1 i.1.2 i.2) ins.
Definition hub_run (ins : list (harbor_input * Z * Z)) : IO hub unit := each (fun i => hub_step mem refused i.1.1 i.1.2 i.2) ins.

(** Every message is as it should be when it comes. *)
Fixpoint accepted (ins : list (harbor_input * Z * Z)) (a : hub) (l : list act) : Prop :=
  match ins with
  | [] => True
  | i :: ins => input_ok mem a i /\ forall a' l', hub_step mem refused i.1.1 i.1.2 i.2 a l = Ret (tt, a', l') -> accepted ins a' l'
  end.

(** What the service has asked for when it starts. *)
Definition started : list act := [HHarborStart; HCallback].

Lemma start_inv id slave : hub_inv mem (hub_start id slave).
Proof.
  split; [done|intros name e; cbn; by rewrite lookup_empty|]. apply Forall_forall. intros m Hm. exfalso. revert Hm.
  assert (all_waiting (hub_start id slave) = []) as ->; [done|apply not_elem_of_nil].
Qed.

Lemma run_ends ins : forall a l, hub_inv mem a -> Z.of_nat (length (all_waiting a)) + Z.of_nat (length ins) < 2 ^ 30 -> accepted ins a l ->
  exists a' l', hub_run ins a l = Ret (tt, a', l') /\ hub_inv mem a'.
Proof.
  induction ins as [|i ins IH]; intros a l Hi Hl Hacc; [by exists a, l|]. destruct Hacc as [Hin Hacc]. cbn [length] in Hl.
  destruct (step_ends mem refused i a l Hi ltac:(lia) Hin) as (a1 & l1 & E). destruct (step_inv mem refused i a l a1 l1 Hi Hin E) as [Hi1 Hl1].
  destruct (IH a1 l1 Hi1 ltac:(lia) (Hacc _ _ E)) as (a2 & l2 & E2 & Hi2). exists a2, l2. split; [|done].
  unfold hub_run. cbn [each]. by rewrite (hio_step _ _ _ _ _ _ _ E).
Qed.

Lemma init_ok args id slave : sscanf_du args = Ret (id, slave) -> slave <> 0 ->
  exists h, harbor_init args harbor_create [] = Ret (0, h, started) /\ repr h (hub_start id slave).
Proof.
  intros E Hs. exists (Harbor id slave hash_new (replicate (Z.to_nat REMOTE_MAX) slave_zero)). split; [|apply start_repr].
  unfold harbor_init. rewrite E, lift_Ret_bind. by rewrite (proj2 (Z.eqb_neq _ _) Hs).
Qed.

(** C8: The service does what the hub does, from its start and for any messages that are
    [accepted], whatever the node refuses: it never fails an assert, runs out of a buffer or
    loops, it asks the node for the same actions in the same order, and in the end its queues,
    its hash map of names and its slaves hold what the hub holds. Accepted are: received data in
    pieces of any sizes, unless a packet is shorter than its header of 12 bytes, which makes the
    service read in front of its block; commands of the slave that are well formed; and messages
    of this node with the size of their data and a name that ends with a zero. *)
Theorem harbor_refinement args id slave ins :
  sscanf_du args = Ret (id, slave) -> slave <> 0 -> Z.of_nat (length ins) < 2 ^ 30 -> accepted ins (hub_start id slave) started ->
  exists h0 h a l, harbor_init args harbor_create [] = Ret (0, h0, started) /\
    harbor_run ins h0 started = Ret (tt, h, l) /\ hub_run ins (hub_start id slave) started = Ret (tt, a, l) /\ repr h a.
Proof.
  intros E Hs Hl Hacc. destruct (init_ok args id slave E Hs) as (h0 & E0 & Hr0).
  destruct (run_ends ins _ _ (start_inv id slave) Hl Hacc) as (a & l & Ea & _).
  destruct (run_serves mem refused ins h0 (hub_start id slave) started tt a l Hr0 Ea) as (h & Eh & Hr). by exists h0, h, a, l.
Qed.

(** C14: No message is lost and none is freed twice: of the messages that the service was given,
    each has been freed once, or handed over to a service of the node, or waits in a queue of a
    slave or of a name. *)
Theorem harbor_ownership args id slave ins h0 h l :
  sscanf_du args = Ret (id, slave) -> slave <> 0 -> Z.of_nat (length ins) < 2 ^ 30 -> accepted ins (hub_start id slave) started ->
  harbor_init args harbor_create [] = Ret (0, h0, started) -> harbor_run ins h0 started = Ret (tt, h, l) ->
  exists a, repr h a /\ fst <$> concat ((fun i => given i.1.1) <$> ins) ≡ₚ disposed l ++ bufs (all_waiting a).
Proof.
  intros E Hs Hl Hacc E0 Eh. destruct (init_ok args id slave E Hs) as (h1 & E1 & Hr1). rewrite E0 in E1. injection E1 as <-.
  destruct (run_ends ins _ _ (start_inv id slave) Hl Hacc) as (a & l' & Ea & _).
  destruct (run_serves mem refused ins h0 _ started tt a l' Hr1 Ea) as (h' & Eh' & Hr). unfold harbor_run in Eh. rewrite Eh in Eh'.
  injection Eh' as <- <-. exists a. split; [done|]. destruct (run_kept mem refused ins _ _ _ _ _ Ea) as (new & (gone & Ek & D) & Hp).
  assert (all_waiting (hub_start id slave) = []) as Ew by done. rewrite Ew in Ek. cbn [app] in Ek. rewrite D, app_nil_r.
  rewrite <- Hp, <- list_fmap_compose. change (fst ∘ parts) with hm_buffer. unfold bufs. by rewrite Ek, fmap_app.
Qed.
End system.

(** ** An example

    Node 1 sends a message to a name that is not known and one to node 2; node 2 is connected,
    sends a message in two pieces, and the name turns out to be of a service of node 2. *)
Module Demo.
Definition mem (p : Z) : bytes := if p =? 100 then [1; 2; 3] else if p =? 200 then [4; 5] else [].
Definition refused (l : list act) : bool := false.
Definition name : bytes := str "db" ++ replicate 14 0.
Definition packet : bytes := [0; 0; 0; 13; 77] ++ [2; 0; 0; 5] ++ [10; 0; 0; 6] ++ [0; 0; 0; 9].
Definition data (chunk : bytes) : harbor_input := ISocket (SocketMessage 1 7 (Z.of_nat (length chunk)) (Some chunk) []).
Definition text (s : string) : harbor_input := ICommand (str s ++ [0]) (Z.of_nat (length (str s))).

Definition ins : list (harbor_input * Z * Z) := [
  (IRemote (RemoteMessage name 0 100 3 10), 1, 16777221);
  (IRemote (RemoteMessage name 33554437 200 2 10), 2, 16777221);
  (text "S 7 2", 0, 16777218);
  (data (2 :: take 6 packet), 0, 0);
  (data (drop 6 packet), 0, 0);
  (text "N db", 0, 33554441)].

(** One message after the other. *)
Ltac accept_step := split; [|let H := fresh in intros a' l' H; vm_compute in H; injection H as <- <-].

Lemma ins_accepted : accepted mem refused ins (hub_start 1 16777218) started.
Proof.
  accept_step; [by vm_compute|]. accept_step; [by vm_compute|].
  accept_step; [split; [by vm_compute|split; [by vm_compute|intros _; eexists; by vm_compute]]|].
  accept_step; [intros _; eexists; split; [reflexivity|split; [reflexivity|split; [by repeat constructor|split; [done|]]]]; intros p Hp; vm_compute in Hp; injection Hp as <-; by repeat constructor|].
  accept_step; [intros _; eexists; split; [reflexivity|split; [reflexivity|split; [by repeat constructor|split; [done|]]]]; intros p Hp; vm_compute in Hp; injection Hp as <-; vm_compute; repeat constructor|].
  accept_step; [split; [by vm_compute|split; [by vm_compute|intros H; by apply elem_of_cons in H as [?|?%list_elem_of_singleton]]]|].
  exact I.
Qed.
End Demo.

Lemma harbor_refinement_witness : exists h0 h a l, harbor_init (str "1 16777218") harbor_create [] = Ret (0, h0, started) /\
  harbor_run Demo.mem Demo.refused Demo.ins h0 started = Ret (tt, h, l) /\
  hub_run Demo.mem Demo.refused Demo.ins (hub_start 1 16777218) started = Ret (tt, a, l) /\ repr h a.
Proof.
  apply (harbor_refinement Demo.mem Demo.refused (str "1 16777218") 1 16777218 Demo.ins); [reflexivity|done|done|apply Demo.ins_accepted].
Defined.

(** What was asked for: the query for the name, the handshake, the message that waited, the
    message that came, the message for the name. *)
Lemma demo_log : exists a, hub_run Demo.mem Demo.refused Demo.ins (hub_start 1 16777218) started = Ret (tt, a,
  [HFree 100;
   HSocketSend 7 [0; 0; 0; 15; 1; 2; 3; 1; 0; 0; 5; 10; 0; 0; 9; 0; 0; 0; 1] 19;
   HFreeData (Some (drop 6 Demo.packet));
   HSend 33554437 16777222 65546 9 (PBytes [77]);
   HFreeData (Some (2 :: take 6 Demo.packet));
   HFree 200;
   HSocketSend 7 [0; 0; 0; 14; 4; 5; 1; 0; 0; 5; 10; 0; 0; 5; 0; 0; 0; 2] 18;
   HSocketSend 7 [1] 1; HSocketStart 7;
   HSend 0 16777218 0 0 (PBytes (str "Q db"))] ++ started).
Proof. eexists. vm_compute. reflexivity. Qed.

Lemma harbor_ownership_witness : exists h0 h l a, harbor_run Demo.mem Demo.refused Demo.ins h0 started = Ret (tt, h, l) /\ repr h a /\
  [100; 200] ≡ₚ disposed l ++ bufs (all_waiting a).
Proof.
  destruct (init_ok (str "1 16777218") 1 16777218) as (h0 & E0 & R0); [reflexivity|done|].
  destruct (run_ends Demo.mem Demo.refused Demo.ins (hub_start 1 16777218) started) as (a & l & Ea & _); [apply start_inv|by vm_compute|apply Demo.ins_accepted|].
  destruct (run_serves Demo.mem Demo.refused Demo.ins h0 _ started tt a l R0 Ea) as (h & Eh & _).
  destruct (harbor_ownership Demo.mem Demo.refused (str "1 16777218") 1 16777218 Demo.ins h0 h l) as (a' & Hr & Hp);
    [reflexivity|done|done|apply Demo.ins_accepted|done|done|]. by exists h0, h, l, a'.
Defined.
