(* ===== verification/HarborDeliver.v ===== *)
(** Messages between nodes: what the service of one node writes for another node, the service
    of that node reads, whatever pieces it comes in. *)
From S2P Require Import Prelude Handle Cstr Ring Node Netpack Gate Harbor HarborSpec HarborServe HarborSystem.

(** ** What is written for a socket *)

(** The bytes that were sent to [fd], in order. *)
Fixpoint sent (fd : Z) (l : list act) : bytes :=
  match l with
  | [] => []
  | HSocketSend fd' data _ :: l => sent fd l ++ (if fd' =? fd then data else [])
  | _ :: l => sent fd l
  end.

(** [g] sends [b] to [fd]. *)
Definition says {S A} (fd : Z) (g : IO S A) (b : bytes) : Prop := forall a l x a' l', g a l = Ret (x, a', l') -> sent fd l' = sent fd l ++ b.

Section says.
Context {S : Type} (fd : Z).

Lemma says_ret {A} (x : A) : says (S := S) fd (mret x) [].
Proof. intros a l y a' l' [=<- <- <-]. by rewrite app_nil_r. Qed.

Lemma says_lift {A} (o : outcome A) : says (S := S) fd (lift o) [].
Proof. intros a l y a' l'. unfold lift. destruct o; [|done..]. intros [=<- <- <-]. by rewrite app_nil_r. Qed.

Lemma says_bind {A B} (m : IO S A) (f : A -> IO S B) b c : says fd m b -> (forall x, says fd (f x) c) -> says fd (m ≫= f) (b ++ c).
Proof.
  intros Hm Hf a l x a' l' (y & a1 & l1 & H1 & H2)%hio_inv. by rewrite (Hf _ _ _ _ _ _ H2), (Hm _ _ _ _ _ H1), app_assoc.
Qed.

Lemma says_nothing {A B} (m : IO S A) (f : A -> IO S B) : says fd m [] -> (forall x, says fd (f x) []) -> says fd (m ≫= f) [].
Proof. apply (says_bind m f [] []). Qed.

Lemma says_if {A} (b : bool) (m n : IO S A) c : says fd m c -> says fd n c -> says fd (if b then m else n) c.
Proof. by destruct b. Qed.

Lemma says_asks a : says (S := S) fd (asks a) (sent fd [a]).
Proof. intros b l x b' l' [=<- <- <-]. destruct a; cbn; try (by rewrite app_nil_r). done. Qed.

Lemma says_each {A} (f : A -> IO S unit) (b : A -> bytes) ms : Forall (fun m => says fd (f m) (b m)) ms -> says fd (each f ms) (concat (b <$> ms)).
Proof. induction 1 as [|m ms Hm _ IH]; [apply says_ret|]. cbn [each fmap list_fmap concat]. by apply says_bind. Qed.

Lemma says_silent {A} (f : A -> IO S unit) ms : (forall m, says fd (f m) []) -> says fd (each f ms) [].
Proof. intros H. induction ms as [|m ms IH]; [apply says_ret|]. cbn [each]. apply says_nothing; [apply H|by intros _]. Qed.

Context (mem : Z -> bytes) (refused : list act -> bool).

Lemma says_send source dest type session msg : says (S := S) fd (skynet_send refused source dest type session msg) [].
Proof. intros a l x a' l' [=<- <- <-]. cbn. by rewrite app_nil_r. Qed.

Lemma says_error text : says (S := S) fd (skynet_error text) [].
Proof. apply says_asks. Qed.

Lemma says_other fd' p sz c : fd' <> fd -> says (S := S) fd (send_remote mem fd' p sz c) [].
Proof.
  intros Hne. unfold send_remote. cbv zeta. apply says_if; [apply says_error|]. apply says_nothing; [apply says_lift|]. intros d.
  pose proof (says_asks (HSocketSend fd' (to_bigendian (u32 (u64 (sz + HEADER_COOKIE_LENGTH))) ++ d ++ header_to_message c)
    (s32 (u64 (sz + HEADER_COOKIE_LENGTH) + 4)))) as H. cbn [sent] in H. by rewrite (proj2 (Z.eqb_neq _ _) Hne) in H.
Qed.

Lemma says_sent_other fd' m : fd' <> fd -> says (S := S) fd (sent_on mem fd' m) [].
Proof. intros Hne. apply says_nothing; [by apply says_other|]. intros _. apply says_asks. Qed.

Lemma says_send_here handle m : says (S := S) fd (send_here refused handle m) [].
Proof. apply says_nothing; [apply says_send|]. intros _. apply says_ret. Qed.

Lemma says_reply source dest type session b : says (S := S) fd (_ ← skynet_send refused source dest type session (PBytes b); mret tt) [].
Proof. apply says_nothing; [apply says_send|]. intros _. apply says_ret. Qed.

Lemma says_arrive self p : says (S := S) fd (arrive refused self p) [].
Proof.
  unfold arrive. cbv zeta. apply says_if; [apply says_lift|]. apply says_nothing; [apply says_send|]. intros r.
  apply says_if; [|apply says_ret]. apply says_nothing; [|intros _; apply says_error]. apply says_if; [apply says_reply|apply says_ret].
Qed.

(** A message that another node can receive. *)
Record sendable (m : harbor_msg) : Prop := {
  sd_size : 0 <= hm_size m /\ hm_size m + 12 < 2 ^ 24;
  sd_source : word 32 (rh_source (hm_header m));
  sd_destination : word 32 (rh_destination (hm_header m));
  sd_session : word 32 (rh_session (hm_header m)) }.

Definition content (m : harbor_msg) : bytes := take (Z.to_nat (hm_size m)) (mem (hm_buffer m)).
Definition packet (m : harbor_msg) : bytes := content m ++ header_to_message (hm_header m).
Definition encode (m : harbor_msg) : bytes := to_bigendian (hm_size m + 12) ++ packet m.

Lemma says_remote p sz c : 0 <= sz -> sz + 12 < 2 ^ 24 -> says (S := S) fd (send_remote mem fd p sz c) (encode (HarborMsg c p sz)).
Proof.
  intros H0 H1. unfold send_remote, HEADER_COOKIE_LENGTH. rewrite u64_small by lia. cbv zeta.
  rewrite (proj2 (Z.ltb_ge UINT32_MAX _)) by (unfold UINT32_MAX; lia). rewrite u32_small by lia. unfold load.
  destruct (_ <? _); [by intros a l x a' l' H|]. rewrite lift_Ret_bind. pose proof (says_asks (HSocketSend fd (encode (HarborMsg c p sz)) (s32 (sz + 12 + 4)))) as H.
  cbn [sent app] in H. by rewrite Z.eqb_refl in H.
Qed.

Lemma says_sent_on m : sendable m -> says (S := S) fd (sent_on mem fd m) (encode m).
Proof.
  intros [[H0 H1] _ _ _]. rewrite <- (app_nil_r (encode m)). apply says_bind; [|intros _; apply says_asks].
  destruct m as [c p sz]. by apply says_remote.
Qed.
End says.

(** ** What was written for a node *)

Section writer.
Context (mem : Z -> bytes) (refused : list act -> bool) (self : Z).

(** Of the messages [R] for a node that waited or were sent, all wait, or all were sent. *)
Definition progress (R : list harbor_msg) (p : peer) (l : list act) : Prop :=
  match pr_phase p with
  | Away => pr_waiting p = R
  | Shaking fd => pr_waiting p = R /\ sent fd l = [u8 self]
  | Online fd _ => pr_waiting p = [] /\ sent fd l = [u8 self] ++ concat (encode mem <$> R)
  | Broken _ => True
  end.

(** Only a node that is not connected has no socket. *)
Definition away_ok (p : peer) : Prop := phase_fd (pr_phase p) = 0 -> pr_phase p = Away.

(** What a program does to a peer, with the new messages [new]; [fresh] are sockets that no
    peer has. *)
Record moved (fresh : Z -> Prop) (p p' : peer) (l l' : list act) (new : list harbor_msg) : Prop := {
  mv_other : forall fd, fd <> 0 -> fd <> phase_fd (pr_phase p') -> sent fd l' = sent fd l;
  mv_phase : phase_fd (pr_phase p') = phase_fd (pr_phase p) \/ (phase_fd (pr_phase p) = 0 /\ fresh (phase_fd (pr_phase p')));
  mv_away : away_ok p -> away_ok p';
  mv_waiting : Forall sendable (pr_waiting p) -> Forall sendable new -> Forall sendable (pr_waiting p');
  mv_progress : forall R, Forall sendable (pr_waiting p) -> Forall sendable new -> progress R p l -> progress (R ++ new) p' l' }.

Lemma moved_quiet fresh p p' l l' : pr_waiting p' = pr_waiting p -> pr_phase p' = pr_phase p -> (forall fd, sent fd l' = sent fd l) ->
  moved fresh p p' l l' [].
Proof.
  intros Hw Hp Hs. split; [by intros|by left; rewrite Hp|unfold away_ok; by rewrite Hp|by rewrite Hw|]. intros R _ _. unfold progress. rewrite app_nil_r, Hp, Hw.
  destruct (pr_phase p); by rewrite ?Hs.
Qed.

Lemma sent_silent {S A} fd (g : IO S A) a l x a' l' : says fd g [] -> g a l = Ret (x, a', l') -> sent fd l' = sent fd l.
Proof. intros Hg H. by rewrite (Hg _ _ _ _ _ H), app_nil_r. Qed.

Lemma close_moved fresh p l x p' l' : phase_fd (pr_phase p) <> 0 -> p_close p l = Ret (x, p', l') -> moved fresh p p' l l' [].
Proof.
  intros Hne H. assert (forall fd, sent fd l' = sent fd l) as Hs.
  { intros fd. unfold p_close in H. rewrite (hio_step get _ _ _ _ _ _ eq_refl), (hio_step (asks _) _ _ _ tt _ _ eq_refl) in H.
    apply hio_inv in H as (? & ? & l1 & H1 & [=<- <- <-]). apply (sent_silent fd) in H1; [done|]. apply says_silent. intros m. apply says_asks. }
  unfold p_close in H. rewrite (hio_step get _ _ _ _ _ _ eq_refl), (hio_step (asks _) _ _ _ tt _ _ eq_refl) in H.
  apply hio_inv in H as (? & ? & l1 & _ & [=<- <- <-]). split; [by intros|by left|by intros _ E|by constructor|]. by intros R.
Qed.

Lemma moved_twice fresh p p1 p' l l1 l' new new1 : moved fresh p p1 l l1 new -> moved fresh p1 p' l1 l' new1 ->
  phase_fd (pr_phase p') = phase_fd (pr_phase p1) -> moved fresh p p' l l' (new ++ new1).
Proof.
  intros [A1 A2 A5 A3 A4] [B1 B2 B5 B3 B4] E. split.
  - intros fd Hne Hn. rewrite B1 by done. apply A1; [done|]. by rewrite <- E.
  - by rewrite E.
  - auto.
  - intros Hw [Hn Hn1]%Forall_app. by apply B3; [apply A3|].
  - intros R Hw [Hn Hn1]%Forall_app HR. rewrite app_assoc. apply B4; [by apply A3|done|by apply A4].
Qed.

(** The messages that waited are sent when the connection opens. *)
Lemma flush_moved fresh p l x p' l' fd w : pr_phase p = Shaking fd -> fd <> 0 -> w = pr_waiting p ->
  p_flush mem fd (Peer w (Online fd [])) l = Ret (x, p', l') -> moved fresh p p' l l' [].
Proof.
  intros Ep Hne -> H. destruct (flush_result _ _ _ _ _ _ _ H) as [_ ->]. unfold p_flush in H. rewrite (hio_step get _ _ _ _ _ _ eq_refl) in H.
  apply hio_inv in H as (? & ? & l1 & H1 & [=<- <-]). cbn [pr_waiting pr_phase] in *. split.
  - cbn. intros fd' H0 Hn. apply (sent_silent fd') in H1; [done|]. apply says_silent. intros m. apply says_sent_other. congruence.
  - left. by rewrite Ep.
  - unfold away_ok. cbn. congruence.
  - by constructor.
  - intros R Hw _. unfold progress. rewrite Ep, app_nil_r. cbn [pr_phase pr_waiting]. intros [HR Hs]. split; [done|].
    rewrite (says_each fd (sent_on mem fd) (encode mem) (pr_waiting p)) with (a := Peer (pr_waiting p) (Online fd [])) (l := l) (x := x0) (a' := x1); [by rewrite Hs, HR| |done].
    eapply Forall_impl; [exact Hw|]. intros m Hm. by apply says_sent_on.
Qed.

Lemma stream_moved fresh id chunk p l x p' l' fd rest : fd <> 0 -> pr_phase p = Online fd rest ->
  p_stream refused self id chunk p l = Ret (x, p', l') -> moved fresh p p' l l' [].
Proof.
  intros Hne Ep H. rewrite (stream_eq _ _ _ _ _ _ _ _ Ep) in H. apply hio_inv in H as (? & p1 & l1 & H1 & H2).
  assert (forall fd, sent fd l1 = sent fd l) as Hs by (intros fd'; apply (sent_silent fd') in H1; [done|]; apply says_silent; intros m; apply says_arrive).
  destruct (gives_all (S := peer) _ _ (gives_arrive refused self) _ _ _ _ _ H1) as [-> _].
  destruct (cut (rest ++ chunk)).2 as [r|].
  - injection H2 as <- <- <-. split; [by intros|by left; rewrite Ep|unfold away_ok; cbn; congruence|done|]. intros R _ _. unfold progress. rewrite Ep, app_nil_r. cbn. by rewrite Hs.
  - rewrite (hio_step (skynet_error _) _ _ _ tt _ _ eq_refl) in H2. apply (close_moved fresh) in H2 as [M1 M2 M5 M3 M4]; [|by rewrite Ep].
    split; [|done|done|done|].
    + intros fd' H0 Hn. rewrite (M1 _ H0 Hn). cbn. apply Hs.
    + intros R Hw Hn HR. apply M4; [done|done|]. revert HR. unfold progress. rewrite Ep. cbn. by rewrite Hs.
Qed.

Lemma stream_fd id chunk p l x p' l' fd rest : fd <> 0 -> pr_phase p = Online fd rest ->
  p_stream refused self id chunk p l = Ret (x, p', l') -> phase_fd (pr_phase p') = fd.
Proof.
  intros Hne Ep H. destruct (stream_moved (fun _ => False) id chunk p l x p' l' fd rest Hne Ep H) as [_ [E|[_ []]] _ _ _]. by rewrite E, Ep.
Qed.

Lemma data_moved fresh id chunk p l x p' l' : away_ok p ->
  p_data mem refused self id chunk p l = Ret (x, p', l') -> moved fresh p p' l l' [].
Proof.
  intros Hok H. unfold p_data in H. rewrite (hio_step get _ _ _ _ _ _ eq_refl) in H. unfold away_ok in Hok.
  destruct (pr_phase p) as [|fd|fd rest|] eqn:Ep; cbn in Hok.
  - injection H as <- <- <-. by apply moved_quiet.
  - destruct chunk as [|b chunk]; [done|]. destruct (negb (b =? id)).
    + rewrite (hio_step (skynet_error _) _ _ _ tt _ _ eq_refl) in H.
      apply (close_moved fresh) in H as [M1 M2 M5 M3 M4]; [split; done|]. rewrite Ep. cbn. intros E0. by apply Hok in E0.
    + assert (fd <> 0) as Hne by (intros E0; by apply Hok in E0).
      rewrite (hio_step (put _) _ _ _ tt _ _ eq_refl) in H. apply hio_inv in H as (? & p1 & l1 & H1 & H2).
      pose proof (flush_result _ _ _ _ _ _ _ H1) as [_ E1]. apply (flush_moved fresh p) in H1; [|done|done|done].
      apply (moved_twice fresh p p1 p' l l1 l' [] [] H1).
      * by apply (stream_moved fresh id chunk p1 l1 x p' l' fd []); [|rewrite E1|].
      * rewrite (stream_fd id chunk p1 l1 x p' l' fd []); [by rewrite E1|done|by rewrite E1|done].
  - apply (stream_moved fresh id chunk p l x p' l' fd rest); [|done|done]. intros E0. by apply Hok in E0.
  - injection H as <- <- <-. by apply moved_quiet.
Qed.

Lemma connect_moved (fresh : Z -> Prop) shake id fd p l x p' l' : away_ok p -> fd <> 0 -> fresh fd -> sent fd l = [] ->
  p_connect mem self shake id fd p l = Ret (x, p', l') -> moved fresh p p' l l' [].
Proof.
  intros Hok Hne Hf Hs H. unfold p_connect in H. rewrite (hio_step get _ _ _ _ _ _ eq_refl) in H.
  destruct (Z.eqb_spec (phase_fd (pr_phase p)) 0) as [E0|NE]; cbn [negb] in H.
  2: { injection H as <- <- <-. by apply moved_quiet. }
  apply Hok in E0. rewrite !(hio_step (asks _) _ _ _ tt _ _ eq_refl) in H.
  set (l1 := HSocketSend fd [u8 self] 1 :: HSocketStart fd :: l) in *.
  assert (moved fresh p (Peer (pr_waiting p) (Shaking fd)) l l1 []) as Hm.
  { split; cbn.
    - intros fd' _ Hn. rewrite (proj2 (Z.eqb_neq _ _)) by congruence. by rewrite app_nil_r.
    - right. by rewrite E0.
    - unfold away_ok. cbn. congruence.
    - done.
    - intros R _ _. unfold progress. rewrite E0. cbn [pr_phase pr_waiting sent l1]. rewrite Z.eqb_refl, Hs, app_nil_r. by intros ->. }
  destruct shake; [by injection H as <- <- <-|]. rewrite (hio_step (put _) _ _ _ tt _ _ eq_refl) in H.
  pose proof (flush_result _ _ _ _ _ _ _ H) as [_ E1]. apply (flush_moved fresh (Peer (pr_waiting p) (Shaking fd))) in H; [|done|done|done].
  apply (moved_twice fresh p _ p' l l1 l' [] [] Hm H). by rewrite E1.
Qed.

(** All that [moved] says but that the messages are in order. *)
Record touched (fresh : Z -> Prop) (p p' : peer) (l l' : list act) (new : list harbor_msg) : Prop := {
  tc_other : forall fd, fd <> 0 -> fd <> phase_fd (pr_phase p') -> sent fd l' = sent fd l;
  tc_phase : phase_fd (pr_phase p') = phase_fd (pr_phase p) \/ (phase_fd (pr_phase p) = 0 /\ fresh (phase_fd (pr_phase p')));
  tc_away : away_ok p -> away_ok p';
  tc_waiting : Forall sendable (pr_waiting p) -> Forall sendable new -> Forall sendable (pr_waiting p') }.

Lemma moved_touched fresh p p' l l' new : moved fresh p p' l l' new -> touched fresh p p' l l' new.
Proof. intros [M1 M2 M3 M4 _]. by split. Qed.

Lemma with_handle_sendable handle m : sendable m -> sendable (with_handle handle m).
Proof.
  intros [H1 H2 H3 H4]. split; [done|done| |done]. cbn. apply word_lor; [lia|done|]. unfold word.
  pose proof (Z.mod_pos_bound handle (2 ^ 24)). lia.
Qed.

(** Messages for a name whose handle has become known. *)
Lemma resolved_touched fresh slave handle ms p l x p' l' : away_ok p -> p_resolved mem refused slave handle ms p l = Ret (x, p', l') ->
  touched fresh p p' l l' ms.
Proof.
  intros Hok H. unfold p_resolved in H. rewrite (hio_step get _ _ _ _ _ _ eq_refl) in H.
  assert (forall fd, phase_fd (pr_phase p) = fd -> each (fun m => sent_on mem fd (with_handle handle m)) ms p l = Ret (x, p', l') -> touched fresh p p' l l' ms) as Hs.
  { intros fd Ef Hs. destruct (gives_each (S := peer) _ hm_buffer ms (fun m => gives_sent_on mem fd (with_handle handle m)) _ _ _ _ _ Hs) as [-> _].
    split; [|by left|done|done]. intros fd' H0 Hn. apply (sent_silent fd') in Hs; [done|]. apply says_silent. intros m. apply says_sent_other. congruence. }
  destruct (pr_phase p) as [|fd|fd rest|fd] eqn:Ep; try by apply (Hs fd). destruct (negb (room _)); [done|]. destruct (_ =? _).
  - apply hio_inv in H as (? & p1 & l1 & H1 & [=<- <- <-]). split; cbn; [|by left; rewrite Ep|done|by constructor].
    intros fd' _ _. apply (sent_silent fd') in H1; [done|]. apply says_silent. intros m. apply says_send_here.
  - injection H as <- <- <-. split; [done|by left; rewrite Ep|done|]. cbn. intros. by apply Forall_app.
Qed.

Lemma resolved_moved fresh slave handle ms p l x p' l' fd rest : pr_phase p = Online fd rest -> fd <> 0 ->
  p_resolved mem refused slave handle ms p l = Ret (x, p', l') -> Forall sendable ms ->
  moved fresh p p' l l' (with_handle handle <$> ms).
Proof.
  intros Ep Hne H Hms. unfold p_resolved in H. rewrite (hio_step get _ _ _ _ _ _ eq_refl), Ep in H. cbn [phase_fd] in H.
  destruct (gives_each (S := peer) _ hm_buffer ms (fun m => gives_sent_on mem fd (with_handle handle m)) _ _ _ _ _ H) as [-> _].
  split; [|by left|done|done|].
  - rewrite Ep. cbn. intros fd' H0 Hn. apply (sent_silent fd') in H; [done|]. apply says_silent. intros m. apply says_sent_other. congruence.
  - intros R _ _. unfold progress. rewrite Ep. intros [Hw Hs]. split; [done|].
    assert (says fd (each (S := peer) (fun m => sent_on mem fd (with_handle handle m)) ms) (concat ((fun m => encode mem (with_handle handle m)) <$> ms))) as Hsay.
    { apply says_each. eapply Forall_impl; [exact Hms|]. intros m Hm. by apply says_sent_on, with_handle_sendable. }
    rewrite (Hsay _ _ _ _ _ H), Hs, fmap_app, concat_app, <- app_assoc. f_equal. f_equal. by rewrite <- list_fmap_compose.
Qed.

(** A message for a handle of the node. *)
Definition p_message (source word session msg sz : Z) : IO peer bool :=
  p ← get;
  match pr_phase p with
  | Away | Shaking _ => _ ← p_push (HarborMsg (Header source word (u32 session)) msg sz); mret true
  | Online fd _ | Broken fd => _ ← send_remote mem fd msg sz (Header source word (u32 session)); mret false
  end.

Lemma message_moved fresh source word session msg sz p l x p' l' : away_ok p -> sendable (HarborMsg (Header source word (u32 session)) msg sz) ->
  p_message source word session msg sz p l = Ret (x, p', l') -> moved fresh p p' l l' [HarborMsg (Header source word (u32 session)) msg sz].
Proof.
  intros Hok Hm H. unfold p_message in H. rewrite (hio_step get _ _ _ _ _ _ eq_refl) in H. set (m := HarborMsg _ _ _) in *.
  assert ((_ ← p_push m; mret true) p l = Ret (x, p', l') -> match pr_phase p with Away | Shaking _ => True | _ => False end -> moved fresh p p' l l' [m]) as Hpush.
  { intros (? & ? & ? & H1 & [=<- <- <-])%hio_inv Hph. unfold p_push in H1. rewrite (hio_step get _ _ _ _ _ _ eq_refl) in H1.
    destruct (room _); [|done]. injection H1 as <- <- <-. split; [done|by left|done| |].
    - intros Hw Hn. by apply Forall_app.
    - intros R _ _. unfold progress. cbn. destruct (pr_phase p); [by intros ->|by intros [-> ->]|done|done]. }
  assert (forall fd, (_ ← send_remote mem fd msg sz (Header source word (u32 session)); mret false) p l = Ret (x, p', l') -> phase_fd (pr_phase p) = fd ->
    match pr_phase p with Online _ _ | Broken _ => True | _ => False end -> moved fresh p p' l l' [m]) as Hsend.
  { intros fd (? & p1 & l1 & H1 & [=<- <- <-])%hio_inv Ef Hph. destruct (gives_send_remote mem fd msg sz _ _ _ _ _ _ H1) as [-> _].
    split; [|by left|done|done|].
    - intros fd' H0 Hn. apply (sent_silent fd') in H1; [done|]. apply says_other. congruence.
    - intros R _ _. unfold progress. destruct (pr_phase p) as [| |fd' rest|]; try done. cbn in Ef. subst fd'. intros [Hw Hs]. split; [done|].
      destruct Hm as [[Hz1 Hz2] _ _ _]. rewrite (says_remote fd mem msg sz (Header source word (u32 session)) Hz1 Hz2 _ _ _ _ _ H1). fold m.
      rewrite Hs, fmap_app, concat_app, <- app_assoc. cbn [fmap list_fmap concat]. by rewrite (app_nil_r (encode mem m)). }
  destruct (pr_phase p) as [|fd|fd rest|fd] eqn:Ep; [by apply Hpush|by apply Hpush|by apply (Hsend fd)|by apply (Hsend fd)].
Qed.
End writer.

(** ** The hub writes the messages for a node *)

Section hub.
Context (mem : Z -> bytes) (refused : list act -> bool).

(** The name that a command sets. *)
Definition name_of (msg : bytes) (sz : Z) : option bytes :=
  let args := drop 2 (take (Z.to_nat sz) msg) in
  if (default 0 (head (take (Z.to_nat sz) msg)) =? 78) && negb ((Z.of_nat (length args) <=? 0) || (16 <=? Z.of_nat (length args)))
  then Some (args ++ replicate (16 - length args) 0) else None.

Definition entry (a : hub) (name : bytes) : Z * list harbor_msg := default (0, []) (hub_names a !! name).

(** The messages for node [b] that a message of this node brings: one for a service of [b], or
    one for a name of such a service; or, when a name becomes known, those that waited for it. *)
Definition routed_by (b : Z) (a : hub) (i : harbor_input * Z * Z) : list harbor_msg :=
  match i.1.1 with
  | IRemote r =>
      let handle := if rmt_handle r =? 0 then (entry a (rmt_name r)).1 else rmt_handle r in
      if negb (handle =? 0) && (handle / 2 ^ 24 =? b) && negb (b =? hub_id a) then
        [HarborMsg (Header i.2 (rmt_type r mod 2 ^ 8 * 2 ^ 24 + handle mod 2 ^ 24) (u32 i.1.2)) (rmt_data r) (rmt_sz r)]
      else []
  | ICommand msg sz =>
      match name_of msg sz with
      | Some name => if i.2 / 2 ^ 24 =? b then with_handle i.2 <$> (entry a name).2 else []
      | None => []
      end
  | _ => []
  end.

(** Messages are smaller than 16M; a socket is connected once; and a name that messages wait for
    becomes known when its node is connected. *)
Definition proper (b : Z) (a : hub) (i : harbor_input * Z * Z) : Prop :=
  match i.1.1 with
  | IRemote r => 0 <= rmt_sz r /\ rmt_sz r + 12 < 2 ^ 24 /\ 0 <= i.2 < 2 ^ 32
  | ICommand msg sz =>
      (forall fd id p, sscanf_dd (drop 2 (take (Z.to_nat sz) msg)) = Ret (fd, id) -> p ∈ hub_peers a -> phase_fd (pr_phase p) = fd -> fd = 0) /\
      (forall name, name_of msg sz = Some name -> i.2 / 2 ^ 24 = b -> (entry a name).2 <> [] ->
         exists p fd rest, hub_peers a !! Z.to_nat b = Some p /\ pr_phase p = Online fd rest)
  | _ => True
  end.

(** Node [b] was sent, or waits for, the messages [R]. *)
Record written (b : Z) (R : list harbor_msg) (a : hub) (l : list act) : Prop := {
  wr_fresh : forall fd, fd <> 0 -> (forall p, p ∈ hub_peers a -> phase_fd (pr_phase p) <> fd) -> sent fd l = [];
  wr_distinct : forall i j p q, hub_peers a !! i = Some p -> hub_peers a !! j = Some q ->
    phase_fd (pr_phase p) = phase_fd (pr_phase q) -> phase_fd (pr_phase p) <> 0 -> i = j;
  wr_away : forall i p, hub_peers a !! i = Some p -> away_ok p;
  wr_waiting : forall i p, hub_peers a !! i = Some p -> Forall sendable (pr_waiting p);
  wr_names : forall name e, hub_names a !! name = Some e -> Forall sendable e.2;
  wr_progress : forall p, hub_peers a !! Z.to_nat b = Some p -> progress mem (hub_id a) R p l }.

Lemma progress_same self R p l l' : away_ok p -> (forall fd, fd <> 0 -> fd = phase_fd (pr_phase p) -> sent fd l' = sent fd l) ->
  progress mem self R p l -> progress mem self R p l'.
Proof.
  intros Hok Hs. unfold progress, away_ok in *. destruct (pr_phase p) as [|fd|fd rest|]; cbn in *; [done| | |done];
    (destruct (decide (fd = 0)) as [E0|]; [by apply Hok in E0|]); by rewrite (Hs fd).
Qed.

Lemma at_peer_written {A} b R new ms i (m : IO peer A) a l x a' l' : 0 <= i -> 0 <= b -> at_peer i m a l = Ret (x, a', l') -> Forall sendable ms ->
  (forall p p', hub_peers a !! Z.to_nat i = Some p -> m p l = Ret (x, p', l') ->
     touched (fun fd => forall q, q ∈ hub_peers a -> phase_fd (pr_phase q) <> fd) p p' l l' ms /\
     (i = b -> Forall sendable new /\ moved mem (hub_id a) (fun fd => forall q, q ∈ hub_peers a -> phase_fd (pr_phase q) <> fd) p p' l l' new)) ->
  (i <> b -> new = []) -> written b R a l -> written b (R ++ new) a' l'.
Proof.
  intros Hi Hb H Hms Hm Hnew [W1 W2 W3 W4 W5 W6]. unfold at_peer, arr_get in H. destruct (arr_lookup (hub_peers a) i) as [p|] eqn:Ep; [|done].
  cbn [deref] in H. rewrite bind_Ret in H. destruct (m p l) as [[[y p'] l1]| | |] eqn:E; [|done..]. rewrite bind_Ret in H.
  destruct (arr_lookup_Some _ _ _ Ep) as [Hii Hp]. rewrite arr_set_Ret, bind_Ret in H by lia. injection H as <- <- <-.
  destruct (Hm p p' Hp E) as [[T1 T2 T3 T4] HM]. set (k := Z.to_nat i) in *. assert (k < length (hub_peers a))%nat as Hlt by lia.
  assert (forall j q, <[k:=p']> (hub_peers a) !! j = Some q -> (j = k /\ q = p') \/ (j <> k /\ hub_peers a !! j = Some q)) as Hcase.
  { intros j q Hj. destruct (decide (j = k)) as [->|Hne]; [rewrite list_lookup_insert_eq in Hj by done; left; by injection Hj as <-|].
    right. by rewrite list_lookup_insert_ne in Hj. }
  assert (forall j q, hub_peers a !! j = Some q -> j <> k -> phase_fd (pr_phase q) <> 0 -> phase_fd (pr_phase q) <> phase_fd (pr_phase p')) as Hdis.
  { intros j q Hj Hne H0 He. destruct T2 as [T2|[_ T2]].
    - apply Hne. apply (W2 j k q p Hj Hp); [congruence|done].
    - apply (T2 q); [by eapply list_elem_of_lookup_2|done]. }
  split; cbn [hub_peers hub_names hub_id].
  - intros fd H0 Hall. rewrite T1; [|done|].
    + apply W1; [done|]. intros q [j Hj]%list_elem_of_lookup_1. destruct (decide (j = k)) as [->|Hne].
      * rewrite Hp in Hj. injection Hj as <-. destruct T2 as [<-|[-> _]]; [|done]. apply Hall. apply (list_elem_of_lookup_2 _ k). by apply list_lookup_insert_eq.
      * apply Hall. apply (list_elem_of_lookup_2 _ j). by rewrite list_lookup_insert_ne.
    + intros E'. eapply Hall; [|symmetry; exact E']. apply (list_elem_of_lookup_2 _ k). by apply list_lookup_insert_eq.
  - intros j1 j2 q1 q2 [[-> ->]|[Hn1 H1]]%Hcase [[-> ->]|[Hn2 H2]]%Hcase He H0; [done| | |by eapply W2].
    + exfalso. by apply (Hdis j2 q2 H2 Hn2); [congruence|].
    + exfalso. by apply (Hdis j1 q1 H1 Hn1).
  - intros j q [[-> ->]|[Hn Hj]]%Hcase; [apply T3|]; by eapply W3.
  - intros j q [[-> ->]|[Hn Hj]]%Hcase; [apply T4; [by eapply W4|done]|by eapply W4].
  - done.
  - intros q [[Ek ->]|[Hn Hj]]%Hcase.
    + destruct (HM ltac:(lia)) as [Hs [_ _ _ _ M]]. apply M; [by eapply W4|done|]. apply W6. by rewrite Ek.
    + rewrite Hnew by (intros ->; done). rewrite app_nil_r. pose proof (W3 _ _ Hj) as Ha. apply (progress_same _ _ _ l); [done| |by apply W6].
      intros fd H0 ->. apply T1; [done|]. by apply (Hdis (Z.to_nat b)).
Qed.

Lemma set_name_written b R a l name e : written b R a l -> Forall sendable e.2 ->
  written b R (Hub (hub_id a) (hub_slave a) (<[name := e]> (hub_names a)) (hub_peers a)) l.
Proof.
  intros [W1 W2 W3 W4 W5 W6] He. split; cbn; try done. intros k e'. destruct (decide (k = name)) as [->|]; [rewrite lookup_insert_eq; by intros [=<-]|].
  rewrite lookup_insert_ne by done. apply W5.
Qed.

Lemma log_written b R a l l' : (forall fd, sent fd l' = sent fd l) -> written b R a l -> written b R a l'.
Proof.
  intros Hs [W1 W2 W3 W4 W5 W6]. split; try done; [intros fd H0 Hf; rewrite Hs; by apply W1|].
  intros p Hp. apply (progress_same _ _ _ l); [by eapply W3|intros; apply Hs|by apply W6].
Qed.

Lemma entry_sendable b R a l name : written b R a l -> Forall sendable (entry a name).2.
Proof. intros W. unfold entry. destruct (hub_names a !! name) as [e|] eqn:E; [by apply (wr_names _ _ _ _ W name)|constructor]. Qed.

Lemma message_sendable source type session handle msg sz : 0 <= source < 2 ^ 32 -> 0 <= sz -> sz + 12 < 2 ^ 24 ->
  sendable (HarborMsg (Header source (type mod 2 ^ 8 * 2 ^ 24 + handle mod 2 ^ 24) (u32 session)) msg sz).
Proof.
  intros Hs H0 H1. split; cbn; [done|done| |apply u32_word]. unfold word. pose proof (Z.mod_pos_bound type (2 ^ 8)).
  pose proof (Z.mod_pos_bound handle (2 ^ 24)). lia.
Qed.

Lemma send_handle_written b R source destination type session msg sz a l x a' l' : 0 <= b -> 0 <= destination ->
  0 <= source < 2 ^ 32 -> 0 <= sz -> sz + 12 < 2 ^ 24 ->
  hub_send_handle mem refused source destination type session msg sz a l = Ret (x, a', l') -> written b R a l ->
  written b (R ++ if (destination / 2 ^ 24 =? b) && negb (b =? hub_id a) then
    [HarborMsg (Header source (type mod 2 ^ 8 * 2 ^ 24 + destination mod 2 ^ 24) (u32 session)) msg sz] else []) a' l'.
Proof.
  intros Hb Hd Hs H0 H1 H W. unfold hub_send_handle in H. rewrite (hio_step (gets hub_id) _ _ _ _ _ _ eq_refl) in H.
  pose proof (message_sendable source type session destination msg sz Hs H0 H1) as Hm. set (m := HarborMsg _ _ _) in *.
  destruct (Z.eqb_spec (destination / 2 ^ 24) (hub_id a)) as [Ei|Ni].
  - injection H as <- <- <-. assert ((destination / 2 ^ 24 =? b) && negb (b =? hub_id a) = false) as -> by (rewrite Ei; destruct (Z.eqb_spec (hub_id a) b); [subst; by rewrite Z.eqb_refl|done]).
    rewrite app_nil_r. by apply (log_written _ _ _ l).
  - change (at_peer (destination / 2 ^ 24) (p_message mem source (type mod 2 ^ 8 * 2 ^ 24 + destination mod 2 ^ 24) session msg sz) a l = Ret (x, a', l')) in H.
    refine (at_peer_written b R _ [m] _ _ a l x a' l' (Z.div_pos _ _ Hd _) Hb H _ _ _ W); [done|by constructor| |].
    + intros p p' Hp Hr. pose proof (message_moved mem (hub_id a) (fun fd => forall q, q ∈ hub_peers a -> phase_fd (pr_phase q) <> fd) _ _ _ _ _ _ _ _ _ _ (wr_away _ _ _ _ W _ _ Hp) Hm Hr) as M.
      split; [by eapply moved_touched|]. intros E. rewrite E, Z.eqb_refl, (proj2 (Z.eqb_neq b (hub_id a))) by congruence. split; [by constructor|exact M].
    + intros Hne. by rewrite (proj2 (Z.eqb_neq _ b)).
Qed.

Lemma name_entry_step {A} name (f : Z * list harbor_msg -> IO hub A) a l : (name_entry name ≫= f) a l = f (entry a name) a l.
Proof. unfold name_entry, entry. by rewrite (hio_step (gets hub_names ≫= _) _ a l (default (0, []) (hub_names a !! name)) a l eq_refl). Qed.

Lemma send_name_written b R source name type session msg sz a l x a' l' : 0 <= b -> 0 <= (entry a name).1 ->
  0 <= source < 2 ^ 32 -> 0 <= sz -> sz + 12 < 2 ^ 24 ->
  hub_send_name mem refused source name type session msg sz a l = Ret (x, a', l') -> written b R a l ->
  written b (R ++ if negb ((entry a name).1 =? 0) && ((entry a name).1 / 2 ^ 24 =? b) && negb (b =? hub_id a) then
    [HarborMsg (Header source (type mod 2 ^ 8 * 2 ^ 24 + (entry a name).1 mod 2 ^ 24) (u32 session)) msg sz] else []) a' l'.
Proof.
  intros Hb Hh Hs H0 H1 H W. unfold hub_send_name in H. destruct (negb (name_ok name)); [done|]. rewrite name_entry_step in H.
  pose proof (entry_sendable b R a l name W) as He. destruct (entry a name) as [handle ms] eqn:Ee. cbn [fst snd] in *.
  destruct (handle =? 0) eqn:E0; cbn [negb andb].
  - destruct (room _); [|done]. injection H as <- <- <-. rewrite app_nil_r.
    apply (log_written _ _ _ l); [done|]. apply set_name_written; [done|]. cbn [snd]. apply Forall_app. split; [done|]. constructor; [|done].
    pose proof (message_sendable source type session 0 msg sz Hs H0 H1) as Hm. rewrite Z.mod_0_l, Z.add_0_r in Hm by done. exact Hm.
  - rewrite (hio_step (set_name _ _) _ _ _ _ _ _ eq_refl) in H.
    apply (send_handle_written b R _ _ _ _ _ _ _ _ _ _ _ Hb Hh Hs H0 H1 H). by apply set_name_written.
Qed.

Lemma update_name_written b R name handle a l x a' l' : 0 <= b -> 0 <= handle ->
  hub_update_name mem refused name handle a l = Ret (x, a', l') -> written b R a l ->
  (handle / 2 ^ 24 = b -> (entry a name).2 <> [] -> exists p fd rest, hub_peers a !! Z.to_nat b = Some p /\ pr_phase p = Online fd rest) ->
  written b (R ++ if handle / 2 ^ 24 =? b then with_handle handle <$> (entry a name).2 else []) a' l'.
Proof.
  intros Hb Hh H W Hon. unfold hub_update_name in H. rewrite name_entry_step in H. pose proof (entry_sendable b R a l name W) as He.
  destruct (entry a name) as [h0 ms] eqn:Ee. cbn [snd] in *. rewrite (hio_step (set_name _ _) _ _ _ _ _ _ eq_refl) in H.
  assert (written b R (Hub (hub_id a) (hub_slave a) (<[name := (handle, [])]> (hub_names a)) (hub_peers a)) l) as W1 by (by apply set_name_written).
  destruct (bool_decide_reflect (ms = [])) as [->|Hne].
  - injection H as <- <- <-. cbn. by destruct (_ =? _); rewrite app_nil_r.
  - rewrite (hio_step (gets hub_slave) _ _ _ _ _ _ eq_refl) in H.
    refine (at_peer_written b R _ ms _ _ _ l x a' l' (Z.div_pos _ _ Hh _) Hb H He _ _ W1); [done| |].
    + intros p p' Hp Hr. split; [by apply (resolved_touched mem refused _ _ _ _ _ _ _ _ _ (wr_away _ _ _ _ W1 _ _ Hp) Hr)|].
      intros E. rewrite E, Z.eqb_refl. split; [eapply Forall_fmap, Forall_impl; [exact He|]; intros m Hm; by apply with_handle_sendable|].
      destruct (Hon E Hne) as (q & fd & rest & Hq & Ep). cbn [hub_peers] in Hp. rewrite E, Hq in Hp. injection Hp as ->.
      eapply (resolved_moved mem refused _ _ _ _ _ _ _ _ _ _ fd rest Ep); [|exact Hr|done].
      intros ->. pose proof (wr_away _ _ _ _ W _ _ Hq) as Ha. unfold away_ok in Ha. rewrite Ep in Ha. by specialize (Ha eq_refl).
    + intros Hnb. by rewrite (proj2 (Z.eqb_neq _ b)).
Qed.

Lemma command_written b R msg sz source session a l x a' l' : 0 <= b -> 0 <= source -> proper b a (ICommand msg sz, session, source) ->
  hub_command mem refused msg sz source a l = Ret (x, a', l') -> written b R a l ->
  written b (R ++ routed_by b a (ICommand msg sz, session, source)) a' l'.
Proof.
  intros Hb Hs [Hfresh Hname] H W. cbn [routed_by fst snd] in *. unfold hub_command in H. destruct (negb _); [done|]. cbv zeta in H.
  unfold name_of in *. destruct (default 0 _ =? 78); cbn [andb] in *.
  - destruct (_ || _); cbn [negb] in *; [injection H as <- <- <-; rewrite app_nil_r; by apply (log_written _ _ _ l)|].
    apply (update_name_written b R _ source a l x a' l' Hb Hs H W). by apply Hname.
  - rewrite app_nil_r. destruct ((_ =? 83) || _); [|injection H as <- <- <-; by apply (log_written _ _ _ l)].
    apply hio_inv in H as ([fd id] & a1 & l1 & H1 & H2). unfold lift in H1. destruct (sscanf_dd _) as [[fd' id']| | |] eqn:Es; [|done..].
    injection H1 as -> -> <- <-. destruct ((fd =? 0) || (id <=? 0) || (256 <=? id)) eqn:Eb; [injection H2 as <- <- <-; by apply (log_written _ _ _ l)|].
    rewrite !orb_false_iff, Z.eqb_neq, !Z.leb_gt in Eb. rewrite (hio_step (gets hub_id) _ _ _ _ _ _ eq_refl) in H2.
    rewrite <- (app_nil_r R). refine (at_peer_written b R [] [] _ _ a l x a' l' _ Hb H2 _ _ _ W); [lia|constructor| |done].
    intros p p' Hp Hr. assert (forall q, q ∈ hub_peers a -> phase_fd (pr_phase q) <> fd) as Hf.
    { intros q Hq E. destruct Eb as [[Hfd _] _]. apply Hfd. by apply (Hfresh fd id q). }
    pose proof (connect_moved mem (hub_id a) (fun fd => forall q, q ∈ hub_peers a -> phase_fd (pr_phase q) <> fd)
      (default 0 (head (take (Z.to_nat sz) msg)) =? 83) id fd p l x p' l' (wr_away _ _ _ _ W _ _ Hp) (proj1 (proj1 Eb)) Hf) as M.
    assert (sent fd l = []) as Hsent by (apply (wr_fresh _ _ _ _ W); [lia|done]). specialize (M Hsent Hr).
    split; [by eapply moved_touched|]. intros _. split; [constructor|exact M].
Qed.

Lemma socket_written b R message a l x a' l' : 0 <= b -> hub_socket mem refused message a l = Ret (x, a', l') -> written b R a l -> written b R a' l'.
Proof.
  intros Hb H W. unfold hub_socket, hub_id_of in H. rewrite (hio_step (gets hub_peers ≫= _) _ a l (peer_of (sm_id message) (drop 1 (hub_peers a)) 1) a l eq_refl) in H.
  set (id := peer_of _ _ _) in *. destruct (_ =? SKYNET_SOCKET_TYPE_DATA).
  - destruct (sm_buffer message); [|done]. destruct (negb _); [done|]. apply hio_inv in H as (? & a1 & l1 & H1 & [=<- <- <-]).
    apply (log_written _ _ _ l1); [done|]. destruct (Z.eqb_spec id 0); [injection H1 as <- <- <-; by apply (log_written _ _ _ l)|].
    rewrite (hio_step (gets hub_id) _ _ _ _ _ _ eq_refl) in H1. rewrite <- (app_nil_r R). destruct (hub_peer_of (sm_id message) a id eq_refl n) as (p0 & Ep0 & _).
    destruct (arr_lookup_Some _ _ _ Ep0) as [Hid _].
    refine (at_peer_written b R [] [] _ _ a l _ a1 l1 _ Hb H1 _ _ _ W); [lia|constructor| |done].
    intros p p' Hp Hr. pose proof (data_moved mem refused (hub_id a) (fun fd => forall q, q ∈ hub_peers a -> phase_fd (pr_phase q) <> fd) _ _ _ _ _ _ _
      (wr_away _ _ _ _ W _ _ Hp) Hr) as M. split; [by eapply moved_touched|]. intros _. split; [constructor|exact M].
  - destruct (_ || _); [destruct (id =? 0); injection H as <- <- <-; by apply (log_written _ _ _ l)|].
    destruct (_ =? _); [injection H as <- <- <-; by apply (log_written _ _ _ l)|].
    destruct (_ =? _); [destruct (id =? 0); injection H as <- <- <-; by apply (log_written _ _ _ l)|].
    injection H as <- <- <-. by apply (log_written _ _ _ l).
Qed.

Lemma step_written b R i a l a' l' : 0 <= b -> hub_inv mem a -> input_ok mem a i -> proper b a i ->
  hub_step mem refused i.1.1 i.1.2 i.2 a l = Ret (tt, a', l') -> written b R a l -> written b (R ++ routed_by b a i) a' l'.
Proof.
  intros Hb Hi Hin Hpr H W. destruct i as [[m session] source]. cbn [fst snd] in *. destruct m as [message|msg sz|r|type]; cbn [hub_step] in H.
  - cbn. rewrite app_nil_r. by apply (socket_written b R message a l tt a' l').
  - destruct Hin as (_ & Hs & _). cbn [fst snd] in *. by apply (command_written b R msg sz source session a l tt a' l'); [|lia|..].
  - destruct Hpr as (H0 & H1 & Hs). destruct Hin as (_ & Hh & _). cbn [fst snd] in *. apply hio_inv in H as (taken & a1 & l1 & Hsend & Hfree).
    assert (written b (R ++ routed_by b a (IRemote r, session, source)) a1 l1) as W1.
    { unfold routed_by. cbn [fst snd]. destruct (Z.eqb_spec (rmt_handle r) 0) as [E0|NE].
      - apply (send_name_written b R _ _ _ _ _ _ a l taken a1 l1 Hb); try done.
        unfold entry. destruct (hub_names a !! rmt_name r) as [e|] eqn:E; [|done]. cbn. pose proof (hi_names _ _ Hi _ _ E). lia.
      - rewrite (proj2 (Z.eqb_neq (rmt_handle r) 0)) by done. cbn [negb andb].
        apply (send_handle_written b R _ _ _ _ _ _ a l taken a1 l1 Hb); try done. lia. }
    apply (log_written _ _ _ l1); [|destruct taken; injection Hfree as <- <-; done]. destruct taken; by injection Hfree as <- <-.
  - cbn. rewrite app_nil_r. rewrite (hio_step (skynet_error _) _ _ _ tt _ _ eq_refl) in H.
    destruct (_ && _); injection H as <- <-; by apply (log_written _ _ _ l).
Qed.

(** All that a run routes to node [b], in order. *)
Fixpoint routed (b : Z) (ins : list (harbor_input * Z * Z)) (a : hub) (l : list act) : list harbor_msg :=
  match ins with
  | [] => []
  | i :: ins =>
      routed_by b a i ++
      match hub_step mem refused i.1.1 i.1.2 i.2 a l with Ret (_, a, l) => routed b ins a l | _ => [] end
  end.

Fixpoint all_proper (b : Z) (ins : list (harbor_input * Z * Z)) (a : hub) (l : list act) : Prop :=
  match ins with
  | [] => True
  | i :: ins => proper b a i /\ forall a' l', hub_step mem refused i.1.1 i.1.2 i.2 a l = Ret (tt, a', l') -> all_proper b ins a' l'
  end.

Lemma run_written b ins : 0 <= b -> forall R a l a' l', hub_inv mem a -> accepted mem refused ins a l -> all_proper b ins a l ->
  hub_run mem refused ins a l = Ret (tt, a', l') -> written b R a l -> written b (R ++ routed b ins a l) a' l'.
Proof.
  intros Hb. induction ins as [|i ins IH]; intros R a l a' l' Hi Hacc Hpr H W.
  - injection H as <- <-. cbn. by rewrite app_nil_r.
  - destruct Hacc as [Hin Hacc]. destruct Hpr as [Hp Hpr]. unfold hub_run in H. cbn [each] in H. apply hio_inv in H as ([] & a1 & l1 & H1 & H2).
    cbn [routed]. rewrite H1, app_assoc. destruct (step_inv mem refused i a l a1 l1 Hi Hin H1) as [Hi1 _].
    apply (IH _ _ _ _ _ Hi1 (Hacc _ _ H1) (Hpr _ _ H1) H2). by apply (step_written b R i a l a1 l1).
Qed.

Lemma start_written b id slave : written b [] (hub_start id slave) started.
Proof.
  assert (forall i p, hub_peers (hub_start id slave) !! i = Some p -> p = Peer [] Away) as Hp by (intros i p H; by apply lookup_replicate in H as [-> _]).
  split.
  - done.
  - intros i j p q Hi Hj _ H. apply Hp in Hi as ->. done.
  - intros i p Hi. by apply Hp in Hi as ->.
  - intros i p Hi. apply Hp in Hi as ->. constructor.
  - intros name e. cbn. by rewrite lookup_empty.
  - intros p Hi. by apply Hp in Hi as ->.
Qed.
End hub.

(** ** What is read *)

(** The messages that were handed over to services with their data: source, destination, type
    with its flag, session and data. *)
Fixpoint delivered (l : list act) : list (Z * Z * Z * Z * bytes) :=
  match l with
  | [] => []
  | HSend s d t n (PBytes b) :: l => delivered l ++ (if Z.testbit t 16 then [(s, d, t, n, b)] else [])
  | _ :: l => delivered l
  end.

(** A packet, at the node [self]. *)
Definition opened (self : Z) (p : bytes) : Z * Z * Z * Z * bytes :=
  let n := (length p - 12)%nat in
  (be32 (take 4 (drop n p)), be32 (take 4 (drop (n + 4) p)) mod 2 ^ 24 + self mod 2 ^ 8 * 2 ^ 24,
   Z.lor (be32 (take 4 (drop (n + 4) p)) / 2 ^ 24) PTYPE_TAG_DONTCOPY, s32 (be32 (drop (n + 8) p)), take n p).

(** A message, as it arrives at the node [self]. *)
Definition arrived (mem : Z -> bytes) (self : Z) (m : harbor_msg) : Z * Z * Z * Z * bytes :=
  (rh_source (hm_header m), rh_destination (hm_header m) mod 2 ^ 24 + self mod 2 ^ 8 * 2 ^ 24,
   Z.lor (rh_destination (hm_header m) / 2 ^ 24) PTYPE_TAG_DONTCOPY, s32 (rh_session (hm_header m)), content mem m).

Lemma be32_big n : word 32 n -> be32 (to_bigendian n) = n.
Proof.
  intros Hn. unfold to_bigendian. change 0xff with (2 ^ 8 - 1). rewrite !land_ones_pow2 by lia. rewrite be32_4.
  pose proof (word4_u8 n Hn) as H. unfold word4, u8 in H. lia.
Qed.

Lemma packet_opened mem self m : sendable m -> length (content mem m) = Z.to_nat (hm_size m) -> opened self (packet mem m) = arrived mem self m.
Proof.
  intros [_ H1 H2 H3] Hl. unfold opened, packet. set (c := content mem m) in *. set (hd := header_to_message (hm_header m)).
  assert (length hd = 12%nat) as Hhd by done. rewrite length_app, Hhd. replace (length c + 12 - 12)%nat with (length c) by lia.
  rewrite drop_app_length, take_app_length, !drop_app_add.
  change (take 4 hd) with (to_bigendian (rh_source (hm_header m))). change (take 4 (drop 4 hd)) with (to_bigendian (rh_destination (hm_header m))).
  change (drop 8 hd) with (to_bigendian (rh_session (hm_header m))). by rewrite !be32_big.
Qed.

Section read.
Context (refused : list act -> bool).

(** [g] hands over [n]. *)
Definition hands {S A} (g : IO S A) (n : list (Z * Z * Z * Z * bytes)) : Prop := forall a l x a' l', g a l = Ret (x, a', l') ->
  delivered l' = delivered l ++ n.

Section hands.
Context {S : Type}.

Lemma hands_ret {A} (x : A) : hands (S := S) (mret x) [].
Proof. intros a l y a' l' [=<- <- <-]. by rewrite app_nil_r. Qed.

Lemma hands_bind {A B} (m : IO S A) (f : A -> IO S B) b c : hands m b -> (forall x, hands (f x) c) -> hands (m ≫= f) (b ++ c).
Proof.
  intros Hm Hf a l x a' l' (y & a1 & l1 & H1 & H2)%hio_inv. by rewrite (Hf _ _ _ _ _ _ H2), (Hm _ _ _ _ _ H1), app_assoc.
Qed.

Lemma hands_asks a : hands (S := S) (asks a) (delivered [a]).
Proof. intros b l x b' l' [=<- <- <-]. destruct a as [? ? ? ? []| | | | | | | |]; cbn; try (by rewrite app_nil_r). done. Qed.

Lemma hands_send source dest type session b : hands (S := S) (skynet_send refused source dest type session (PBytes b))
  (if Z.testbit type 16 then [(source, dest, type, session, b)] else []).
Proof. intros a l x a' l' [=<- <- <-]. done. Qed.

Lemma hands_if {A} (b : bool) (m n : IO S A) c : hands m c -> hands n c -> hands (if b then m else n) c.
Proof. by destruct b. Qed.

Lemma hands_each {A} (f : A -> IO S unit) (b : A -> Z * Z * Z * Z * bytes) ms : (forall m, hands (f m) [b m]) -> hands (each f ms) (b <$> ms).
Proof. intros Hf. induction ms as [|m ms IH]; [apply hands_ret|]. cbn [each fmap list_fmap]. apply (hands_bind _ _ [b m]); [apply Hf|by intros _]. Qed.

Lemma hands_nothing {A B} (m : IO S A) (f : A -> IO S B) : hands m [] -> (forall x, hands (f x) []) -> hands (m ≫= f) [].
Proof. apply (hands_bind m f [] []). Qed.

Lemma hands_all {A} (f : A -> IO S unit) ms : (forall m, hands (f m) []) -> hands (each f ms) [].
Proof. intros Hf. induction ms as [|m ms IH]; [apply hands_ret|]. cbn [each]. apply hands_nothing; [apply Hf|by intros _]. Qed.

Lemma hands_sent_on mem fd m : hands (S := S) (sent_on mem fd m) [].
Proof.
  apply hands_nothing; [|intros _; apply hands_asks]. unfold send_remote. cbv zeta. apply hands_if; [apply hands_asks|].
  apply hands_nothing; [|intros d; apply hands_asks]. intros a l x a' l'. unfold lift. destruct (load _ _ _); [|done..].
  intros [=<- <- <-]. by rewrite app_nil_r.
Qed.

(** Every packet is handed over, also when the node refuses it. *)
Lemma hands_arrive self p : hands (S := S) (arrive refused self p) [opened self p].
Proof.
  unfold arrive. destruct (_ <? _)%nat; [by intros a l x a' l' H|]. cbv zeta. apply (hands_bind _ _ [opened self p] []).
  - unfold opened. cbv zeta. set (t := be32 (take 4 (drop (length p - 12 + 4) p)) / 2 ^ 24).
    pose proof (hands_send (be32 (take 4 (drop (length p - 12) p))) (be32 (take 4 (drop (length p - 12 + 4) p)) mod 2 ^ 24 + self mod 2 ^ 8 * 2 ^ 24)
      (Z.lor t PTYPE_TAG_DONTCOPY) (s32 (be32 (drop (length p - 12 + 8) p))) (take (length p - 12) p)) as H.
    assert (Z.testbit (Z.lor t PTYPE_TAG_DONTCOPY) 16 = true) as E by (by rewrite Z.lor_spec, orb_true_r). rewrite E in H. exact H.
  - intros r. apply hands_if; [|apply hands_ret]. apply hands_nothing; [|intros _; apply hands_asks]. apply hands_if; [|apply hands_ret].
    apply hands_nothing; [|intros _; apply hands_ret]. apply hands_send.
Qed.
End hands.

(** *** Pieces *)

Lemma cut_app s : forall t ps r, cut s = (ps, Some r) -> cut (s ++ t) = (ps ++ (cut (r ++ t)).1, (cut (r ++ t)).2).
Proof.
  induction s as [s IH] using (induction_ltof1 _ (@length Z)). unfold ltof in IH. intros t ps r H.
  destruct s as [|b0 [|b1 [|b2 [|b3 s]]]]; try (injection H as <- <-; by destruct (cut _)).
  rewrite cut_cons in H. cbn [app]. rewrite cut_cons. destruct (Z.eqb_spec b0 0) as [->|]; cbn [negb] in *; [|done].
  destruct (Nat.ltb_spec (length s) (packet_size b1 b2 b3)) as [Hlt|Hge].
  - injection H as <- <-. cbn [app]. rewrite cut_cons, Z.eqb_refl. cbn [negb]. destruct (_ <? _)%nat; [done|]. by destruct (cut _).
  - destruct (cut (drop (packet_size b1 b2 b3) s)) as [ps1 e1] eqn:E. injection H as <- ->.
    rewrite length_app, (proj2 (Nat.ltb_ge _ _)) by lia. rewrite drop_app_le, take_app_le by done.
    by rewrite (IH (drop (packet_size b1 b2 b3) s) ltac:(cbn; rewrite length_drop; lia) t ps1 r E).
Qed.

Lemma cut_prefix s t ps r : cut (s ++ t) = (ps, Some r) -> exists ps1 r1, cut s = (ps1, Some r1).
Proof.
  revert t ps r. induction s as [s IH] using (induction_ltof1 _ (@length Z)). unfold ltof in IH. intros t ps r H.
  destruct s as [|b0 [|b1 [|b2 [|b3 s]]]]; try (by eexists _, _). cbn [app] in H. rewrite cut_cons in *.
  destruct (negb (b0 =? 0)); [done|]. destruct (Nat.ltb_spec (length s) (packet_size b1 b2 b3)) as [Hlt|Hge]; [by eexists _, _|].
  rewrite length_app, (proj2 (Nat.ltb_ge _ _)), drop_app_le in H by lia. destruct (cut (drop (packet_size b1 b2 b3) s ++ t)) as [ps1 e1] eqn:E.
  injection H as _ ->. destruct (IH (drop (packet_size b1 b2 b3) s) ltac:(cbn; rewrite length_drop; lia) t ps1 r E) as (ps2 & r2 & ->). by eexists _, _.
Qed.

Lemma to_bigendian_small n : 0 <= n < 2 ^ 24 -> exists b1 b2 b3, to_bigendian n = [0; b1; b2; b3] /\ packet_size b1 b2 b3 = Z.to_nat n.
Proof.
  intros Hn. unfold to_bigendian. change 0xff with (2 ^ 8 - 1). rewrite !land_ones_pow2 by lia.
  pose proof (word4_u8 n ltac:(unfold word; lia)) as H. unfold word4, u8 in H.
  assert (Z.shiftr n 24 = 0) as E by (rewrite Z.shiftr_div_pow2 by lia; apply Z.div_small; lia). rewrite E in *. eexists _, _, _. split; [reflexivity|].
  unfold packet_size. f_equal. rewrite Z.mod_0_l in H by lia. lia.
Qed.

(** What is written is read as the packets that were written. *)
Lemma cut_encode mem R : Forall sendable R -> Forall (fun m => length (content mem m) = Z.to_nat (hm_size m)) R ->
  cut (concat (encode mem <$> R)) = (packet mem <$> R, Some []).
Proof.
  intros Hs Hl. induction R as [|m R IH]; [done|]. apply Forall_cons in Hs as [Hm Hs]. apply Forall_cons in Hl as [Hlm Hl].
  cbn [fmap list_fmap concat]. destruct Hm as [[H0 H1] _ _ _]. destruct (to_bigendian_small (hm_size m + 12)) as (b1 & b2 & b3 & E & Ep); [lia|].
  unfold encode at 1. rewrite E. cbn [app]. rewrite cut_packet; [by rewrite IH|]. unfold packet. rewrite length_app, Hlm, Ep. cbn. lia.
Qed.

(** Data of the socket [fd]. *)
Definition data_in (fd : Z) (c : bytes) : harbor_input * Z * Z :=
  (ISocket (SocketMessage SKYNET_SOCKET_TYPE_DATA fd (Z.of_nat (length c)) (Some c) []), 0, 0).

Definition with_peer (a : hub) (i : Z) (p : peer) : hub := Hub (hub_id a) (hub_slave a) (hub_names a) (<[Z.to_nat i := p]> (hub_peers a)).

(** The socket [fd] is that of peer [i], which is [p]. *)
Definition peer_at (a : hub) (fd i : Z) (p : peer) : Prop :=
  peer_of fd (drop 1 (hub_peers a)) 1 = i /\ i <> 0 /\ arr_lookup (hub_peers a) i = Some p.

Lemma peer_of_ext fd ps qs : (fun p => phase_fd (pr_phase p)) <$> ps = (fun p => phase_fd (pr_phase p)) <$> qs -> forall i, peer_of fd ps i = peer_of fd qs i.
Proof.
  revert qs. induction ps as [|p ps IH]; intros [|q qs] E i; try done. injection E as E1 E2. cbn [peer_of]. rewrite E1. by rewrite (IH qs E2).
Qed.

Lemma peer_at_with a fd i p p' : peer_at a fd i p -> phase_fd (pr_phase p') = phase_fd (pr_phase p) -> peer_at (with_peer a i p') fd i p'.
Proof.
  intros (H1 & H2 & H3) E. destruct (arr_lookup_Some _ _ _ H3) as [Hi Hp]. split; [|split; [done|]].
  - etransitivity; [|exact H1]. cbn [with_peer hub_peers]. apply peer_of_ext. rewrite !fmap_drop, list_fmap_insert, E. f_equal.
    apply list_insert_id. by rewrite list_lookup_fmap, Hp.
  - cbn [with_peer hub_peers]. rewrite arr_lookup_insert by lia. by rewrite decide_True.
Qed.

Lemma with_peer_twice a i p q : with_peer (with_peer a i p) i q = with_peer a i q.
Proof. unfold with_peer. cbn. by rewrite list_insert_insert_eq. Qed.

Section feed.
Context (mem : Z -> bytes).

Lemma data_in_step a fd i p c l p' l' : peer_at a fd i p -> is_bytes c -> p_data mem refused (hub_id a) i c p l = Ret (tt, p', l') ->
  hub_step mem refused (data_in fd c).1.1 (data_in fd c).1.2 (data_in fd c).2 a l = Ret (tt, with_peer a i p', HFreeData (Some c) :: l').
Proof.
  intros (H1 & H2 & H3) Hc H. destruct (arr_lookup_Some _ _ _ H3) as [Hi Hp]. cbn [data_in fst snd hub_step]. unfold hub_socket, hub_id_of.
  cbn [sm_id sm_type sm_buffer sm_ud]. rewrite (hio_step (gets hub_peers ≫= _) _ a l i a l) by (by rewrite <- H1).
  rewrite Z.eqb_refl. change (SKYNET_SOCKET_TYPE_DATA =? SKYNET_SOCKET_TYPE_DATA) with true. cbv iota. rewrite Z.eqb_refl, bool_decide_eq_true_2 by done. cbn [andb negb].
  rewrite (proj2 (Z.eqb_neq _ _) H2). cbv iota. rewrite (hio_step (gets hub_id ≫= _) _ a l tt (with_peer a i p') l'); [done|].
  rewrite (hio_step (gets hub_id) _ _ _ _ _ _ eq_refl). unfold at_peer, arr_get. rewrite H3. cbn [deref]. rewrite bind_Ret, H, bind_Ret, arr_set_Ret by lia. done.
Qed.

Lemma stream_reads self i c p l fd rest ps r : pr_phase p = Online fd rest -> cut (rest ++ c) = (ps, Some r) -> Forall (fun q => (12 <= length q)%nat) ps ->
  exists l', p_stream refused self i c p l = Ret (tt, Peer (pr_waiting p) (Online fd r), l') /\ delivered l' = delivered l ++ (opened self <$> ps).
Proof.
  intros Ep Ec Hl. rewrite (stream_eq _ _ _ _ _ _ _ _ Ep), Ec. cbn [fst snd].
  destruct (total_each (S := peer) (arrive refused self) ps) with (a := p) (l := l) as ([] & l1 & E).
  { eapply Forall_impl; [exact Hl|]. intros q Hq. by apply total_arrive. }
  exists l1. rewrite (hio_step _ _ _ _ _ _ _ E). split; [done|]. by apply (hands_each (arrive refused self) (opened self) ps (hands_arrive self) _ _ _ _ _ E).
Qed.

Lemma cut_rest s ps r : cut s = (ps, Some r) -> cut r = ([], Some r).
Proof.
  intros H. pose proof (cut_app s [] ps r H) as E. rewrite !app_nil_r in E. rewrite H in E. injection E as E1 E2.
  destruct (cut r) as [ps' e]. cbn in *. rewrite <- E2. f_equal. apply (f_equal length) in E1. rewrite length_app in E1. by destruct ps'; [|cbn in E1; lia].
Qed.

(** An open connection reads what comes in pieces. *)
Lemma feed_online cs : forall a l fd i p rest ps r, peer_at a fd i p -> pr_phase p = Online fd rest -> Forall is_bytes cs ->
  cut rest = ([], Some rest) -> cut (rest ++ concat cs) = (ps, Some r) -> Forall (fun q => (12 <= length q)%nat) ps ->
  exists l', hub_run mem refused (data_in fd <$> cs) a l = Ret (tt, with_peer a i (Peer (pr_waiting p) (Online fd r)), l') /\
    delivered l' = delivered l ++ (opened (hub_id a) <$> ps).
Proof.
  induction cs as [|c cs IH]; intros a l fd i p rest ps r Ha Ep Hc Er Ec Hl.
  - cbn [concat] in Ec. rewrite app_nil_r, Er in Ec. injection Ec as <- <-. exists l. rewrite app_nil_r. split; [|done].
    destruct Ha as (_ & _ & H3). destruct (arr_lookup_Some _ _ _ H3) as [Hi Hp]. unfold with_peer. destruct p as [w ph]. cbn in *. subst ph.
    rewrite list_insert_id by done. by destruct a.
  - apply Forall_cons in Hc as [Hc Hcs]. cbn [concat] in Ec. rewrite app_assoc in Ec. destruct (cut_prefix _ _ _ _ Ec) as (ps1 & r1 & E1).
    rewrite (cut_app _ _ _ _ E1) in Ec. destruct (cut (r1 ++ concat cs)) as [ps2 e2] eqn:E2. injection Ec as <- ->.
    apply Forall_app in Hl as [Hl1 Hl2]. destruct (stream_reads (hub_id a) i c p l fd rest ps1 r1 Ep E1 Hl1) as (l1 & Es & D1).
    assert (p_data mem refused (hub_id a) i c p l = Ret (tt, Peer (pr_waiting p) (Online fd r1), l1)) as Ed.
    { unfold p_data. rewrite (hio_step get _ _ _ _ _ _ eq_refl), Ep. exact Es. }
    pose proof (data_in_step a fd i p c l _ l1 Ha Hc Ed) as Est. set (a1 := with_peer a i _) in *.
    destruct (IH a1 (HFreeData (Some c) :: l1) fd i (Peer (pr_waiting p) (Online fd r1)) r1 ps2 r) as (l2 & E3 & D2).
    + apply (peer_at_with a fd i p); [done|]. by rewrite Ep.
    + done. + done. + by eapply cut_rest. + done. + done.
    + exists l2. unfold hub_run in *. cbn [fmap list_fmap each]. rewrite (hio_step _ _ _ _ _ _ _ Est). rewrite E3. unfold a1. rewrite with_peer_twice.
      split; [done|]. rewrite D2. cbn [delivered]. by rewrite D1, <- app_assoc, fmap_app.
Qed.

(** A connection that waits for the first byte. *)
Lemma feed_shaking cs a l fd i p s ps r : hub_inv mem a -> peer_at a fd i p -> pr_phase p = Shaking fd -> Forall is_bytes cs -> Forall (fun c => c <> []) cs ->
  concat cs = i :: s -> cut s = (ps, Some r) -> Forall (fun q => (12 <= length q)%nat) ps ->
  exists l', hub_run mem refused (data_in fd <$> cs) a l = Ret (tt, with_peer a i (Peer [] (Online fd r)), l') /\
    delivered l' = delivered l ++ (opened (hub_id a) <$> ps).
Proof.
  intros Hi Ha Ep Hc Hne Econ Ec Hl. destruct cs as [|c cs]; [done|]. apply Forall_cons in Hc as [Hc Hcs]. apply Forall_cons in Hne as [Hnc _].
  destruct c as [|b c]; [done|]. cbn [concat] in Econ. injection Econ as -> Es. rewrite <- Es in Ec.
  destruct (cut_prefix _ _ _ _ Ec) as (ps1 & r1 & E1). rewrite (cut_app _ _ _ _ E1) in Ec. destruct (cut (r1 ++ concat cs)) as [ps2 e2] eqn:E2. injection Ec as <- ->.
  apply Forall_app in Hl as [Hl1 Hl2]. destruct Ha as (H1 & H2 & H3). destruct (arr_lookup_Some _ _ _ H3) as [Hii Hp].
  destruct (flush_ends mem fd (Peer (pr_waiting p) (Online fd [])) l (peer_valid mem a _ p Hi Hp)) as ([] & p1 & l0 & Ef).
  pose proof (flush_result _ _ _ _ _ _ _ Ef) as [_ ->]. cbn [pr_phase] in Ef.
  destruct (stream_reads (hub_id a) i c (Peer [] (Online fd [])) l0 fd [] ps1 r1 eq_refl E1 Hl1) as (l1 & Est & D1).
  assert (p_data mem refused (hub_id a) i (i :: c) p l = Ret (tt, Peer [] (Online fd r1), l1)) as Ed.
  { unfold p_data. rewrite (hio_step get _ _ _ _ _ _ eq_refl), Ep, Z.eqb_refl. cbn [negb]. rewrite (hio_step (put _) _ _ _ tt _ _ eq_refl).
    by rewrite (hio_step _ _ _ _ _ _ _ Ef). }
  pose proof (data_in_step a fd i p (i :: c) l _ l1 (conj H1 (conj H2 H3)) Hc Ed) as Eh. set (a1 := with_peer a i _) in *.
  destruct (feed_online cs a1 (HFreeData (Some (i :: c)) :: l1) fd i (Peer [] (Online fd r1)) r1 ps2 r) as (l2 & E3 & D2).
  - apply (peer_at_with a fd i p); [done|]. by rewrite Ep.
  - done. - done. - by eapply cut_rest. - done. - done.
  - exists l2. unfold hub_run in *. cbn [fmap list_fmap each]. rewrite (hio_step _ _ _ _ _ _ _ Eh), E3. unfold a1. rewrite with_peer_twice.
    split; [done|]. rewrite D2. cbn [delivered]. rewrite D1, fmap_app, <- app_assoc. assert (delivered l0 = delivered l) as ->; [|done].
    unfold p_flush in Ef. rewrite (hio_step get _ _ _ _ _ _ eq_refl) in Ef. apply hio_inv in Ef as (? & ? & lf & Hf & Ep0). assert (lf = l0) as <- by (unfold put, modify in Ep0; congruence).
    rewrite (hands_all (S := peer) (sent_on mem fd) _ (hands_sent_on mem fd) _ _ _ _ _ Hf). by rewrite app_nil_r.
Qed.
End feed.
End read.

(** ** A hub keeps its number *)

Definition keeps_id {A} (m : IO hub A) : Prop := forall a l x a' l', m a l = Ret (x, a', l') -> hub_id a' = hub_id a.

Lemma keeps_bind {A B} (m : IO hub A) (f : A -> IO hub B) : keeps_id m -> (forall x, keeps_id (f x)) -> keeps_id (m ≫= f).
Proof. intros Hm Hf a l x a' l' (y & a1 & l1 & H1 & H2)%hio_inv. by rewrite (Hf _ _ _ _ _ _ H2), (Hm _ _ _ _ _ H1). Qed.

Lemma keeps_if {A} (b : bool) (m n : IO hub A) : keeps_id m -> keeps_id n -> keeps_id (if b then m else n).
Proof. by destruct b. Qed.

Lemma keeps_echo {A} (m : IO hub A) : echo m m -> keeps_id m.
Proof. intros He a l x a' l' H. by destruct (He _ _ _ _ _ H) as [-> _]. Qed.

Lemma keeps_gets {A} (f : hub -> A) : keeps_id (gets f).
Proof. by intros a l x a' l' [=_ <- _]. Qed.

Lemma keeps_set_name name e : keeps_id (set_name name e).
Proof. by intros a l x a' l' [=_ <- _]. Qed.

Lemma keeps_at {A} id (m : IO peer A) : keeps_id (at_peer id m).
Proof.
  intros a l x a' l'. unfold at_peer. destruct (arr_get _ _) as [p| | |]; [|done..]. rewrite bind_Ret. destruct (m p l) as [[[y p'] l1]| | |]; [|done..].
  rewrite bind_Ret. destruct (arr_set _ _ _); [|done..]. by intros [=_ <- _].
Qed.

Section keeps.
Context (mem : Z -> bytes) (refused : list act -> bool).

Lemma keeps_step msg session source : keeps_id (hub_step mem refused msg session source).
Proof.
  assert (forall source destination type session msg sz, keeps_id (hub_send_handle mem refused source destination type session msg sz)) as Hh.
  { intros. apply keeps_bind; [apply keeps_gets|]. intros self. apply keeps_if; [apply keeps_echo; auto with echo|apply keeps_at]. }
  destruct msg as [message|msg sz|r|type]; cbn [hub_step].
  - apply keeps_bind; [apply keeps_bind; [apply keeps_gets|intros ps; apply keeps_echo, echo_ret]|]. intros id. apply keeps_if.
    + destruct (sm_buffer message); [|by intros ? ? ? ? ? H]. apply keeps_if; [by intros ? ? ? ? ? H|]. apply keeps_bind; [|intros _; apply keeps_echo, echo_asks].
      apply keeps_if; [apply keeps_echo, echo_error|]. apply keeps_bind; [apply keeps_gets|intros self; apply keeps_at].
    + apply keeps_if; [apply keeps_if; [apply keeps_echo, echo_error|]|].
      { apply keeps_bind; [apply keeps_gets|]. intros slave. apply keeps_echo, echo_bind; [apply echo_send|]. intros _. apply echo_ret. }
      apply keeps_if; [apply keeps_echo, echo_ret|]. apply keeps_if; [|apply keeps_echo, echo_error].
      apply keeps_if; apply keeps_echo; [apply echo_ret|apply echo_error].
  - unfold hub_command. apply keeps_if; [by intros ? ? ? ? ? H|]. cbv zeta. apply keeps_if.
    + apply keeps_if; [apply keeps_echo, echo_error|]. unfold hub_update_name, name_entry.
      apply keeps_bind; [apply keeps_bind; [apply keeps_gets|intros ps; apply keeps_echo, echo_ret]|]. intros [h ms]. apply keeps_bind; [apply keeps_set_name|]. intros _.
      apply keeps_if; [apply keeps_echo, echo_ret|]. apply keeps_bind; [apply keeps_gets|]. intros slave. apply keeps_at.
    + apply keeps_if; [|apply keeps_echo, echo_error]. apply keeps_bind; [apply keeps_echo, echo_lift|]. intros [fd id].
      apply keeps_if; [apply keeps_echo, echo_error|]. apply keeps_bind; [apply keeps_gets|]. intros self. apply keeps_at.
  - apply keeps_bind; [|intros taken; apply keeps_if; apply keeps_echo; auto with echo]. apply keeps_if; [|apply Hh].
    unfold hub_send_name. apply keeps_if; [by intros ? ? ? ? ? H|]. unfold name_entry.
    apply keeps_bind; [apply keeps_bind; [apply keeps_gets|intros ps; apply keeps_echo, echo_ret]|]. intros [handle ms]. apply keeps_if.
    + apply keeps_if; [|by intros ? ? ? ? ? H]. apply keeps_bind; [apply keeps_set_name|]. intros _. apply keeps_bind; [apply keeps_gets|].
      intros slave. apply keeps_echo. auto with echo.
    + apply keeps_bind; [apply keeps_set_name|]. intros _. apply Hh.
  - apply keeps_echo. apply echo_bind; [apply echo_error|]. intros _. apply echo_if; auto with echo.
Qed.

Lemma keeps_run ins : keeps_id (hub_run mem refused ins).
Proof. induction ins as [|i ins IH]; [apply keeps_echo, echo_ret|]. apply keeps_bind; [apply keeps_step|by intros _]. Qed.

(** A message that can be written, whose block is there. *)
Definition fit (m : harbor_msg) : Prop := sendable m /\ hm_size m <= Z.of_nat (length (mem (hm_buffer m))).

Lemma step_fit b R i a l : hub_inv mem a -> input_ok mem a i -> proper b a i -> written mem b R a l -> Forall fit (routed_by b a i).
Proof.
  intros Hi Hin Hp W. destruct i as [[m session] source]. unfold routed_by. cbn [fst snd] in *. destruct m as [message|msg sz|r|type]; try by constructor.
  - destruct (name_of msg sz) as [name|]; [|by constructor]. destruct (_ =? b); [|by constructor].
    pose proof (entry_sendable mem b R a l name W) as He. destruct (entry_part mem a name Hi) as (rest & E & _). fold (entry a name) in E.
    pose proof (hi_valid _ _ Hi) as Hv. rewrite E, Forall_app in Hv. destruct Hv as [Hv _]. apply Forall_fmap, Forall_forall. intros m Hm.
    rewrite Forall_forall in He, Hv. split; [by apply with_handle_sendable, He|]. cbn. by destruct (Hv m Hm).
  - destruct Hp as (H0 & H1 & Hs). destruct Hin as ((_ & Hl) & _). cbn [fst snd] in *. cbv zeta. destruct (negb _ && _ && _); [|by constructor].
    constructor; [|done]. split; [by apply message_sendable|done].
Qed.

Lemma run_fit b ins : 0 <= b -> forall R a l a' l', hub_inv mem a -> accepted mem refused ins a l -> all_proper mem refused b ins a l ->
  hub_run mem refused ins a l = Ret (tt, a', l') -> written mem b R a l -> Forall fit (routed mem refused b ins a l).
Proof.
  intros Hb. induction ins as [|i ins IH]; intros R a l a' l' Hi Hacc Hpr H W; [by constructor|].
  destruct Hacc as [Hin Hacc]. destruct Hpr as [Hp Hpr]. unfold hub_run in H. cbn [each] in H. apply hio_inv in H as ([] & a1 & l1 & H1 & H2).
  cbn [routed]. rewrite H1. destruct (step_inv mem refused i a l a1 l1 Hi Hin H1) as [Hi1 _]. apply Forall_app. split; [by eapply step_fit|].
  apply (IH (R ++ routed_by b a i) _ _ _ _ Hi1 (Hacc _ _ H1) (Hpr _ _ H1) H2). by apply (step_written mem refused b R i a l a1 l1).
Qed.
End keeps.

(** ** Bytes *)

Lemma bytes_concat (ls : list bytes) : is_bytes (concat ls) <-> Forall is_bytes ls.
Proof. unfold is_bytes. induction ls as [|b ls IH]; cbn; [by split; constructor|]. by rewrite Forall_app, Forall_cons, IH. Qed.

Lemma to_bigendian_bytes n : is_bytes (to_bigendian n).
Proof. repeat (apply Forall_cons; split; [apply word_land_r; [lia|by split]|]). constructor. Qed.

Lemma encode_bytes mem m : (forall p, is_bytes (mem p)) -> is_bytes (encode mem m).
Proof.
  intros Hm. unfold encode, packet, header_to_message, content, is_bytes. rewrite !Forall_app. repeat split; try apply to_bigendian_bytes.
  apply Forall_take, Hm.
Qed.

(** ** Two nodes *)

(** The service of node [self], started for the slave [slave], is in state [h] after the messages
    [ins], having asked for [l]. *)
Definition serving mem refused (self slave : Z) (ins : list (harbor_input * Z * Z)) (h : harbor) (l : list act) : Prop :=
  slave <> 0 /\ Z.of_nat (length ins) < 2 ^ 30 /\ accepted mem refused ins (hub_start self slave) started /\
  exists args h0, sscanf_du args = Ret (self, slave) /\ harbor_init args harbor_create [] = Ret (0, h0, started) /\
    harbor_run mem refused ins h0 started = Ret (tt, h, l).

(** The state of a service that serves. *)
Lemma serving_hub mem refused self slave ins h l : serving mem refused self slave ins h l ->
  exists a, hub_run mem refused ins (hub_start self slave) started = Ret (tt, a, l) /\ repr h a /\ hub_inv mem a /\ hub_id a = self.
Proof.
  intros (Hs & Hl & Hacc & args & h0 & Ea & E0 & Er). destruct (init_ok args self slave Ea Hs) as (h1 & E1 & R1). rewrite E0 in E1. injection E1 as <-.
  destruct (run_ends mem refused ins _ _ (start_inv mem self slave) Hl Hacc) as (a & l' & Eh & Hi).
  destruct (run_serves mem refused ins h0 _ started tt a l' R1 Eh) as (h' & E2 & R2). unfold harbor_run in Er. rewrite Er in E2. injection E2 as <- <-.
  exists a. split; [done|]. split; [done|]. split; [done|]. by apply (keeps_run mem refused ins _ _ _ _ _ Eh).
Qed.

(** Where a connection is, seen in the slave. *)
Lemma slot_phase h a id s : repr h a -> slot h id s -> exists p, arr_lookup (hub_peers a) id = Some p /\ peer_repr s p.
Proof.
  intros Hr [Hi Hs]%arr_lookup_Some. destruct (Forall2_lookup_l _ _ _ _ _ (rp_peers _ _ Hr) Hs) as (p & Hp & Hsp). exists p. split; [|done].
  by rewrite arr_lookup_nonneg by lia.
Qed.

(** C7: Messages between two nodes arrive: when node [a] is connected to node [b], the bytes that it
    has sent, in whatever pieces node [b] receives them on the connection on which it waits for
    the handshake of [a], make node [b] hand over to its services every message for them that [a]
    was given, once and in order, with its source, its type, its session and its data: messages
    by handle, or by a name that is known, before the connection or after, and messages by a name
    that becomes known while the connection is up. [all_proper] asks for that: messages are
    smaller than 16M, a socket is connected once, and a name of [b] for which messages wait
    becomes known while [b] is connected; those of a name that becomes known earlier are lost
    ([name_message_lost]). *)
Theorem harbor_delivery memA refA memB refB a b slaveA slaveB insA insB hA hB lA lB sA sB fdA fdB pieces :
  0 < a < 256 -> 0 < b < 256 -> (forall p, is_bytes (memA p)) ->
  serving memA refA a slaveA insA hA lA -> all_proper memA refA b insA (hub_start a slaveA) started ->
  slot hA b sA -> sl_fd sA = fdA -> sl_status sA = STATUS_HEADER \/ sl_status sA = STATUS_CONTENT ->
  serving memB refB b slaveB insB hB lB -> slot hB a sB -> find_fd fdB (drop 1 (h_s hB)) 1 = a -> sl_status sB = STATUS_HANDSHAKE ->
  Forall (fun c => c <> []) pieces -> concat pieces = sent fdA lA ->
  exists h l, harbor_run memB refB (data_in fdB <$> pieces) hB lB = Ret (tt, h, l) /\
    delivered l = delivered lB ++ (arrived memA b <$> routed memA refA b insA (hub_start a slaveA) started).
Proof.
  intros Ha Hb Hmem SA HP HsA HfA HstA SB HsB HfB HstB Hne Hcon.
  destruct (serving_hub _ _ _ _ _ _ _ SA) as (aA & EA & RA & IA & IdA). destruct (serving_hub _ _ _ _ _ _ _ SB) as (aB & EB & RB & IB & IdB).
  destruct SA as (_ & _ & HaccA & _). pose proof (start_inv memA a slaveA) as I0.
  pose proof (run_written memA refA b insA ltac:(lia) [] _ _ aA lA I0 HaccA HP EA (start_written memA b a slaveA)) as W. cbn [app] in W.
  pose proof (run_fit memA refA b insA ltac:(lia) [] _ _ aA lA I0 HaccA HP EA (start_written memA b a slaveA)) as HF.
  set (R := routed memA refA b insA _ _) in *.
  destruct (slot_phase hA aA b sA RA HsA) as (pA & HpA & [_ HphA _]). destruct (slot_phase hB aB a sB RB HsB) as (pB & HpB & [_ HphB _]).
  assert (exists rest, pr_phase pA = Online fdA rest) as [rest EpA].
  { destruct HphA as [? E|? ? ? E|fd rest ? E|fd b1 b2 b3 got ? E|? ? ? E]; try (destruct HstA as [E'|E']; rewrite E in E'; done); rewrite <- HfA, E; by eexists. }
  destruct (arr_lookup_Some _ _ _ HpA) as [_ HpA']. pose proof (wr_progress _ _ _ _ _ W pA HpA') as Hprog. unfold progress in Hprog. rewrite EpA in Hprog.
  destruct Hprog as [_ Hsent]. rewrite Hsent, IdA, u8_small in Hcon by lia.
  assert (pr_phase pB = Shaking (sl_fd sB)) as EpB.
  { destruct HphB as [? E|? ? E ?|? ? ? ? E|? ? ? ? ? ? ? E|? ? ? E]; try (rewrite E in HstB; done). by rewrite E. }
  assert (peer_at aB fdB a pB) as Hat.
  { split; [|split; [lia|done]]. rewrite <- HfB. symmetry. apply find_fd_peer. apply Forall2_drop, RB. }
  assert (phase_fd (pr_phase pB) = fdB) as EfB.
  { destruct Hat as (H1 & H2 & H3). destruct (hub_peer_of fdB aB a H1 H2) as (p & Hp & E). rewrite H3 in Hp. by injection Hp as <-. }
  rewrite EpB in EfB. cbn in EfB. rewrite EfB in EpB.
  assert (Forall is_bytes pieces) as Hbp.
  { apply bytes_concat. rewrite Hcon. constructor; [unfold word; lia|]. apply bytes_concat, Forall_fmap, Forall_forall. intros m _. by apply encode_bytes. }
  assert (Forall sendable R) as HF1 by (eapply Forall_impl; [exact HF|]; by intros m [? _]).
  assert (Forall (fun m => length (content memA m) = Z.to_nat (hm_size m)) R) as HF2.
  { eapply Forall_impl; [exact HF|]. intros m [[[H0 _] _ _ _] H1]. unfold content. rewrite length_take. lia. }
  destruct (feed_shaking refB memB pieces aB lB fdB a pB (concat (encode memA <$> R)) (packet memA <$> R) [] IB Hat EpB Hbp Hne Hcon (cut_encode memA R HF1 HF2))
    as (l & Er & D).
  { apply Forall_fmap, Forall_forall. intros m _. unfold packet. cbn. rewrite length_app. cbn. lia. }
  destruct (run_serves memB refB _ hB aB lB tt _ l RB Er) as (h & Eh & _). exists h, l. split; [exact Eh|]. rewrite D, IdB. f_equal.
  rewrite <- list_fmap_compose. apply list_fmap_ext. intros i m Hm. cbn. rewrite Forall_lookup in HF1, HF2. apply packet_opened; [by eapply HF1|by eapply HF2].
Qed.

(** ** A concrete run *)

(** Node 1, the [Demo] of the service, and node 2, to which it connects. *)
Module Pair.
Definition insB : list (harbor_input * Z * Z) := [(Demo.text "S 9 1", 0, 33554434)].
Definition pieces : list bytes :=
  [[1; 0; 0]; [0; 14; 4; 5; 1; 0; 0; 5; 10; 0]; [0; 5; 0; 0; 0; 2; 0; 0; 0; 15; 1; 2; 3; 1; 0; 0; 5; 10; 0; 0; 9; 0; 0; 0; 1]].

Lemma mem_bytes p : is_bytes (Demo.mem p).
Proof. unfold Demo.mem. repeat destruct (_ =? _); by repeat constructor. Qed.

Lemma no_socket fd ps p : forallb (fun p => negb (phase_fd (pr_phase p) =? fd)) ps = true -> p ∈ ps -> phase_fd (pr_phase p) = fd -> fd = 0.
Proof. rewrite forallb_forall. intros H Hp E. apply list_elem_of_In, H in Hp. by rewrite E, Z.eqb_refl in Hp. Qed.

Lemma proper_ins : all_proper Demo.mem Demo.refused 2 Demo.ins (hub_start 1 16777218) started.
Proof.
  Demo.accept_step; [by vm_compute|]. Demo.accept_step; [by vm_compute|].
  Demo.accept_step; [split; [|done]; intros fd id p E; vm_compute in E; injection E as <- <-; by apply (no_socket 7)|].
  Demo.accept_step; [done|]. Demo.accept_step; [done|].
  Demo.accept_step; [split; [intros fd id p E; vm_compute in E; by injection E as <- <-|]; intros name E _ _; eexists _, _, _; split; [vm_compute; reflexivity|reflexivity]|].
  exact I.
Qed.

(** Node 1 is connected to node 2, and has sent the pieces. *)
Lemma serving_1 : exists h l s, serving Demo.mem Demo.refused 1 16777218 Demo.ins h l /\ slot h 2 s /\ sl_fd s = 7 /\ sl_status s = STATUS_HEADER /\ sent 7 l = concat pieces.
Proof.
  eexists _, _, _. split; [split; [done|split; [done|split; [apply Demo.ins_accepted|exists (str "1 16777218"); eexists; split; [reflexivity|]]]]|].
  { split; [vm_compute; reflexivity|vm_compute; reflexivity]. }
  split; [vm_compute; reflexivity|]. split; [reflexivity|]. split; [reflexivity|]. vm_compute. reflexivity.
Qed.

Lemma accepted_B : accepted Demo.mem Demo.refused insB (hub_start 2 33554434) started.
Proof. Demo.accept_step; [split; [by vm_compute|split; [by vm_compute|intros _; eexists; by vm_compute]]|]. exact I. Qed.

Lemma serving_2 : exists h l s, serving Demo.mem Demo.refused 2 33554434 insB h l /\ slot h 1 s /\ find_fd 9 (drop 1 (h_s h)) 1 = 1 /\
  sl_status s = STATUS_HANDSHAKE /\ delivered l = [].
Proof.
  eexists _, _, _. split; [split; [done|split; [done|split; [apply accepted_B|exists (str "2 33554434"); eexists; split; [reflexivity|]]]]|].
  { split; [vm_compute; reflexivity|vm_compute; reflexivity]. }
  split; [vm_compute; reflexivity|]. split; [reflexivity|]. split; [reflexivity|]. reflexivity.
Qed.

(** What arrives: the message that waited for the connection, and the one for a name. *)
Definition log : list (Z * Z * Z * Z * bytes) :=
  arrived Demo.mem 2 <$> routed Demo.mem Demo.refused 2 Demo.ins (hub_start 1 16777218) started.
End Pair.

Lemma pair_log : Pair.log = [(16777221, 33554437, 65546, 2, [4; 5]); (16777221, 33554441, 65546, 1, [1; 2; 3])].
Proof. by vm_compute. Qed.

Lemma harbor_delivery_witness : exists hB lB h l, serving Demo.mem Demo.refused 2 33554434 Pair.insB hB lB /\
  harbor_run Demo.mem Demo.refused (data_in 9 <$> Pair.pieces) hB lB = Ret (tt, h, l) /\ delivered l = [] ++ Pair.log.
Proof.
  destruct Pair.serving_1 as (hA & lA & sA & SA & HA & FA & TA & EA). destruct Pair.serving_2 as (hB & lB & sB & SB & HB & FB & TB & DB).
  destruct (harbor_delivery Demo.mem Demo.refused Demo.mem Demo.refused 1 2 16777218 33554434 Demo.ins Pair.insB hA hB lA lB sA sB 7 9 Pair.pieces)
    as (h & l & E & D); [lia|lia|apply Pair.mem_bytes|done|apply Pair.proper_ins|done|done|by left|done|done|done|done|by repeat constructor|by rewrite EA|].
  exists hB, lB, h, l. by rewrite <- DB.
Defined.

(** A message waits for a name, the name becomes known, and then its node is connected: what is
    sent has the handle 0. *)
Definition lost_ins : list (harbor_input * Z * Z) := [
  (IRemote (RemoteMessage Demo.name 0 100 3 10), 1, 16777221);
  (Demo.text "N db", 0, 33554441);
  (Demo.text "A 7 2", 0, 16777218)].

Lemma name_message_lost : exists h0 h l, harbor_init (str "1 16777218") harbor_create [] = Ret (0, h0, started) /\
  harbor_run Demo.mem Demo.refused lost_ins h0 started = Ret (tt, h, l) /\
  sent 7 l = [1] ++ [0; 0; 0; 15; 1; 2; 3] ++ [1; 0; 0; 5] ++ [10; 0; 0; 0] ++ [0; 0; 0; 1].
Proof.
  eexists _, _, _. split; [vm_compute; reflexivity|]. split; [vm_compute; reflexivity|]. vm_compute. reflexivity.
Qed.
