(* ===== verification/LuaSocket.v ===== *)
(** The buffers of received data of the sockets in Lua, [lualib-src/lua-socket.c]: nodes that
    come from a pool which all buffers share, and that link the messages of a socket; and the
    conversions of its arguments. *)
From S2P Require Import Prelude Cstr.

(** ** Data *)

Definition LARGE_PAGE_NODE : Z := 12.

(** A node of the pool: a chunk of nodes, counted from the first one, and an index. *)
Abbreviation node_ptr := (nat * Z)%type.

(** [msg] points to a block of the heap. *)
Record buffer_node := BufferNode { bn_msg : option Z; bn_sz : Z; bn_next : option node_ptr }.

Record socket_buffer := SocketBuffer { sb_size : Z; sb_offset : Z; sb_head : option node_ptr; sb_tail : option node_ptr }.

(** The blocks of memory that are allocated, the nodes, the sizes of the chunks, and the first
    element of the table of the pool: the first free node. *)
Record world := World { w_heap : gmap Z bytes; w_nodes : gmap node_ptr buffer_node; w_chunks : list Z; w_free : option node_ptr }.

Definition with_nodes (n : gmap node_ptr buffer_node) (w : world) : world := World (w_heap w) n (w_chunks w) (w_free w).
Definition with_free (f : option node_ptr) (w : world) : world := World (w_heap w) (w_nodes w) (w_chunks w) f.
Definition with_heap (h : gmap Z bytes) (w : world) : world := World h (w_nodes w) (w_chunks w) (w_free w).
Definition with_offset (o : Z) (sb : socket_buffer) : socket_buffer := SocketBuffer (sb_size sb) o (sb_head sb) (sb_tail sb).
Definition with_size (n : Z) (sb : socket_buffer) : socket_buffer := SocketBuffer n (sb_offset sb) (sb_head sb) (sb_tail sb).

Definition get_node (w : world) (p : node_ptr) : outcome buffer_node := deref (w_nodes w !! p).

Definition set_node (p : node_ptr) (n : buffer_node) (w : world) : outcome world :=
  _ ← get_node w p; Ret (with_nodes (<[p := n]> (w_nodes w)) w).

(** [skynet_free] *)
Definition free_block (p : option Z) (w : world) : outcome world :=
  match p with
  | None => Ret w
  | Some p => _ ← deref (w_heap w !! p); Ret (with_heap (delete p (w_heap w)) w)
  end.

(** A new block with the bytes [b]. *)
Definition malloc_block (b : bytes) (w : world) : Z * world :=
  let p := fresh (dom (w_heap w)) in (p, with_heap (<[p := b]> (w_heap w)) w).

(** The [n] bytes at [msg + off]. *)
Definition block_read (w : world) (msg : option Z) (off n : Z) : outcome bytes :=
  p ← deref msg; b ← deref (w_heap w !! p);
  if (off <? 0) || (n <? 0) || (Z.of_nat (length b) <? off + n) then Undefined
  else Ret (take (Z.to_nat n) (drop (Z.to_nat off) b)).

(** ** The pool *)

Definition lnewbuffer : socket_buffer := SocketBuffer 0 0 None None.

(** A chunk of [sz] free nodes, each linked to the next; a pointer to the first. *)
Definition lnewpool (sz : Z) (w : world) : node_ptr * world :=
  let c := length (w_chunks w) in
  let node i := BufferNode None 0 (if i =? sz - 1 then None else Some (c, i + 1)) in
  ((c, 0), World (w_heap w) (foldr (fun i => <[(c, i) := node i]>) (w_nodes w) (seqZ 0 sz)) (w_chunks w ++ [sz]) (w_free w)).

(** The length of the table of a pool: its first element is nil until the first chunk. *)
Definition pool_rawlen (w : world) : Z := match w_chunks w with [] => 0 | _ => 1 + Z.of_nat (length (w_chunks w)) end.

(** The collector frees the chunk [c]. *)
Definition lfreepool (c : nat) (w : world) : outcome world :=
  sz ← deref (w_chunks w !! c);
  foldl (fun w i =>
    w ← w; x ← get_node w (c, i);
    match bn_msg x with
    | None => Ret w
    | Some _ => w ← free_block (bn_msg x) w; set_node (c, i) (BufferNode None (bn_sz x) (bn_next x)) w
    end) (Ret w) (seqZ 0 sz).

(** The first free node, of a new chunk when there is none. *)
Definition take_node (w : world) : node_ptr * world :=
  match w_free w with
  | Some p => (p, w)
  | None =>
      let tsz := pool_rawlen w in
      let tsz := if tsz =? 0 then tsz + 1 else tsz in
      let size := if tsz <=? LARGE_PAGE_NODE - 3 then Z.shiftl 8 tsz else Z.shiftl 8 (LARGE_PAGE_NODE - 3) in
      lnewpool size w
  end.

Definition lpushbuffer (sb : option socket_buffer) (msg : option Z) (sz : Z) (w : world) : outcome (Z * socket_buffer * world) :=
  match sb, msg with
  | None, _ => LuaError "need buffer object at param 1"
  | _, None => LuaError "need message block at param 3"
  | Some sb, Some _ =>
      let sz := s32 sz in
      let '(free_node, w) := take_node w in
      x ← get_node w free_node;
      w ← set_node free_node (BufferNode msg sz None) (with_free (bn_next x) w);
      '(sb, w) ← (match sb_head sb with
        | None =>
            _ ← assert_ (bool_decide (sb_tail sb = None));
            Ret (SocketBuffer (sb_size sb) (sb_offset sb) (Some free_node) (Some free_node), w)
        | Some _ =>
            tail ← deref (sb_tail sb); y ← get_node w tail;
            w ← set_node tail (BufferNode (bn_msg y) (bn_sz y) (Some free_node)) w;
            Ret (SocketBuffer (sb_size sb) (sb_offset sb) (sb_head sb) (Some free_node), w)
        end);
      size ← int_ok (sb_size sb + sz);
      Ret (size, with_size size sb, w)
  end.

Definition return_free_node (sb : socket_buffer) (w : world) : outcome (socket_buffer * world) :=
  free_node ← deref (sb_head sb);
  x ← get_node w free_node;
  let tail := match bn_next x with None => None | Some _ => sb_tail sb end in
  w ← free_block (bn_msg x) w;
  w ← set_node free_node (BufferNode None 0 (w_free w)) w;
  Ret (SocketBuffer (sb_size sb) 0 (bn_next x) tail, with_free (Some free_node) w).

(** ** Taking data *)

(** [for (;;)]: the bytes that are added to the Lua buffer. *)
Fixpoint pop_loop (fuel : nat) (sb : socket_buffer) (sz skip : Z) (w : world) : outcome (bytes * socket_buffer * world) :=
  match fuel with
  | O => Undefined
  | S fuel =>
      current ← deref (sb_head sb);
      x ← get_node w current;
      let avail := bn_sz x - sb_offset sb in
      if sz <=? avail then
        s ← (if skip <? sz then block_read w (bn_msg x) (sb_offset sb) (sz - skip) else Ret []);
        let sb := with_offset (sb_offset sb + sz) sb in
        '(sb, w) ← (if avail =? sz then return_free_node sb w else Ret (sb, w));
        Ret (s, sb, w)
      else
        let real_sz := sz - skip in
        s ← (if 0 <? real_sz then block_read w (bn_msg x) (sb_offset sb) (if real_sz <? avail then real_sz else avail) else Ret []);
        '(sb, w) ← return_free_node sb w;
        let sz := sz - avail in
        if sz =? 0 then Ret (s, sb, w)
        else
          _ ← assert_ (bool_decide (is_Some (sb_head sb)));
          '(t, sb, w) ← pop_loop fuel sb sz skip w;
          Ret (s ++ t, sb, w)
  end.

(** Every round but the last returns a node. *)
Definition pop_fuel (w : world) : nat := S (size (w_nodes w)).

Definition pop_lstring (sb : socket_buffer) (sz skip : Z) (w : world) : outcome (bytes * socket_buffer * world) :=
  current ← deref (sb_head sb);
  x ← get_node w current;
  if sz <? bn_sz x - sb_offset sb then
    s ← block_read w (bn_msg x) (sb_offset sb) (sz - skip);
    Ret (s, with_offset (sb_offset sb + sz) sb, w)
  else if sz =? bn_sz x - sb_offset sb then
    s ← block_read w (bn_msg x) (sb_offset sb) (sz - skip);
    '(sb, w) ← return_free_node sb w;
    Ret (s, sb, w)
  else pop_loop (pop_fuel w) sb sz skip w.

Definition lpopbuffer (sb : option socket_buffer) (sz : Z) (w : world) : outcome (option bytes * Z * socket_buffer * world) :=
  match sb with
  | None => LuaError "Need buffer object at param 1"
  | Some sb =>
      let sz := s32 sz in
      if (sb_size sb <? sz) || (sz =? 0) then Ret (None, sb_size sb, sb, w)
      else
        '(s, sb, w) ← pop_lstring sb sz 0 w;
        size ← int_ok (sb_size sb - sz);
        Ret (Some s, size, with_size size sb, w)
  end.

(** [while(sb->head)] *)
Fixpoint clear_nodes (fuel : nat) (sb : socket_buffer) (w : world) : outcome (socket_buffer * world) :=
  match sb_head sb, fuel with
  | None, _ => Ret (sb, w)
  | Some _, O => Undefined
  | Some _, S fuel => '(sb, w) ← return_free_node sb w; clear_nodes fuel sb w
  end.

Definition lclearbuffer (sb : option socket_buffer) (isnil : bool) (w : world) : outcome (option socket_buffer * world) :=
  match sb with
  | None => if isnil then Ret (None, w) else LuaError "Need buffer object at param 1"
  | Some sb => '(sb, w) ← clear_nodes (pop_fuel w) sb w; Ret (Some (with_size 0 sb), w)
  end.

Fixpoint readall_loop (fuel : nat) (sb : socket_buffer) (w : world) : outcome (bytes * socket_buffer * world) :=
  match sb_head sb, fuel with
  | None, _ => Ret ([], sb, w)
  | Some _, O => Undefined
  | Some current, S fuel =>
      x ← get_node w current;
      s ← block_read w (bn_msg x) (sb_offset sb) (bn_sz x - sb_offset sb);
      '(sb, w) ← return_free_node sb w;
      '(t, sb, w) ← readall_loop fuel sb w;
      Ret (s ++ t, sb, w)
  end.

Definition lreadall (sb : option socket_buffer) (w : world) : outcome (bytes * socket_buffer * world) :=
  match sb with
  | None => LuaError "Need buffer object at param 1"
  | Some sb => '(s, sb, w) ← readall_loop (pop_fuel w) sb w; Ret (s, with_size 0 sb, w)
  end.

(** [for (;;)]: whether [sep] is in the nodes from [node + from] on. *)
Fixpoint check_sep (fuel : nat) (w : world) (node : option node_ptr) (from : Z) (sep : bytes) : outcome bool :=
  match fuel with
  | O => Undefined
  | S fuel =>
      p ← deref node; x ← get_node w p;
      let sz := bn_sz x - from in
      if Z.of_nat (length sep) <=? sz then
        b ← block_read w (bn_msg x) from (Z.of_nat (length sep)); Ret (bool_decide (b = sep))
      else if sz <? 0 then Undefined
      else
        b ← (if 0 <? sz then block_read w (bn_msg x) from sz else Ret []);
        if negb (bool_decide (b = take (Z.to_nat sz) sep)) then Ret false
        else check_sep fuel w (bn_next x) 0 (drop (Z.to_nat sz) sep)
  end.

(** [for (i=0;i<=sb->size - (int)seplen;i++)]: [n] rounds are left; the place of [sep]. *)
Fixpoint find_sep (n : nat) (w : world) (current : node_ptr) (from left i : Z) (sep : bytes) : outcome (option Z) :=
  match n with
  | O => Ret None
  | S n =>
      found ← check_sep (pop_fuel w) w (Some current) from sep;
      if found : bool then Ret (Some i)
      else
        let from := from + 1 in
        let left := left - 1 in
        if left =? 0 then
          x ← get_node w current;
          match bn_next x with
          | None => Ret None
          | Some current => x ← get_node w current; find_sep n w current 0 (bn_sz x) (i + 1) sep
          end
        else find_sep n w current from left (i + 1) sep
  end.

Inductive line_result := LNothing | LFound | LLine (s : bytes).

(** [check]: the second argument is no table, and nothing is taken. *)
Definition lreadline (sb : option socket_buffer) (check : bool) (sep : bytes) (w : world) : outcome (line_result * socket_buffer * world) :=
  match sb with
  | None => LuaError "Need buffer object at param 1"
  | Some sb =>
      let seplen := s32 (Z.of_nat (length sep)) in
      match sb_head sb with
      | None => Ret (LNothing, sb, w)
      | Some current =>
          x ← get_node w current;
          let from := sb_offset sb in
          i ← find_sep (Z.to_nat (sb_size sb - seplen + 1)) w current from (bn_sz x - from) 0 sep;
          match i with
          | None => Ret (LNothing, sb, w)
          | Some i =>
              if check then Ret (LFound, sb, w)
              else
                n ← int_ok (i + seplen);
                '(s, sb, w) ← pop_lstring sb n seplen w;
                size ← int_ok (sb_size sb - n);
                Ret (LLine s, with_size size sb, w)
          end
      end
  end.

Definition ldrop (msg : option Z) (w : world) : outcome world := free_block msg w.

Definition lstr2p (str : bytes) (w : world) : Z * Z * world :=
  let '(p, w) := malloc_block str w in (p, s32 (Z.of_nat (length str)), w).

(** ** Arguments *)

Definition lheader (s : bytes) : outcome Z :=
  if (4 <? Z.of_nat (length s)) || (Z.of_nat (length s) <? 1) then LuaError "Invalid read"
  else Ret (s64 (foldl (fun sz b => Z.lor (u64 (Z.shiftl sz 8)) b) 0 s)).

(** The elements of a table, up to the first that is nil, as a traversal gives them; [None] is
    neither a string nor a number. A table with a metatable may answer differently each time. *)
Abbreviation elements := (list (option bytes)).

Fixpoint count_strings (l : elements) (tlen : Z) : outcome Z :=
  match l with
  | [] => Ret tlen
  | None :: _ => LuaError "bad argument"
  | Some s :: l => count_strings l (u64 (tlen + Z.of_nat (length s)))
  end.

Definition count_size (l : elements) : outcome Z := count_strings l 0.

(** The buffer, the place where the next string goes, and the room behind it. *)
Fixpoint concat_strings (l : elements) (buffer : bytes) (ptr tlen : Z) : outcome (bytes * Z) :=
  match l with
  | [] | None :: _ => Ret (buffer, tlen)
  | Some s :: l =>
      let len := Z.of_nat (length s) in
      if tlen <? len then Ret (buffer, tlen)
      else buffer ← memcpy buffer ptr s len; concat_strings l buffer (ptr + len) (tlen - len)
  end.

(** The block is freed when the error is raised. *)
Definition concat_table (l : elements) (buffer : bytes) (tlen : Z) : outcome bytes :=
  '(buffer, tlen) ← concat_strings l buffer 0 tlen;
  if negb (tlen =? 0) then LuaError "Invalid strings table" else Ret buffer.

(** What is to be sent: a block with its size, a table, whose elements are asked for twice, or
    a string. *)
Inductive send_arg := SUserdata (p sz : Z) | STable (counted copied : elements) | SString (s : bytes).

(** [junk] gives the contents of the new block of [n] bytes. *)
Definition get_buffer (junk : Z -> bytes) (a : send_arg) (w : world) : outcome (Z * Z * world) :=
  match a with
  | SUserdata p sz => Ret (p, s32 sz, w)
  | STable counted copied =>
      len ← count_size counted;
      b ← concat_table copied (junk len) len;
      let '(p, w) := malloc_block b w in
      Ret (p, s32 len, w)
  | SString s => let '(p, w) := malloc_block s w in Ret (p, s32 (Z.of_nat (length s)), w)
  end.

(** [a - b] for two pointers into a string, given by what follows them. *)
Definition ptr_diff (a b : bytes) : Z := Z.of_nat (length b) - Z.of_nat (length a).

(** [memcpy(tmp, host, n); tmp[n] = 0]: the string in [tmp]. *)
Definition copy_host (tmp host : bytes) (n : Z) : outcome bytes :=
  tmp ← memcpy tmp 0 host n; tmp ← arr_set tmp n 0; Ret (until_zero tmp).

(** [tmp] is an array of as many bytes as the string has; [addr] is this string, whose first
    zero ends it for C; [port] is the argument for the port, when there is one. *)
Definition address_port (tmp addr : bytes) (port : option Z) : outcome (bytes * Z) :=
  let addr := until_zero addr in
  match port with
  | Some port => Ret (addr, s32 port)
  | None =>
      match strchr addr 91 with
      | Some host =>
          let host := drop 1 host in
          match strchr addr 93 with
          | None => LuaError "Invalid address"
          | Some sep =>
              h ← copy_host tmp host (ptr_diff sep host);
              match strchr (drop 1 sep) 58 with
              | None => LuaError "Invalid address"
              | Some sep => Ret (h, s32 (strtoul (drop 1 sep) 10).1)
              end
          end
      | None =>
          match strchr addr 58 with
          | None => LuaError "Invalid address"
          | Some sep =>
              h ← copy_host tmp addr (ptr_diff sep addr);
              Ret (h, s32 (strtoul (drop 1 sep) 10).1)
          end
      end
  end.

(** ** The calls of a script *)

(** The buffers, by the addresses of the Lua objects. *)
Record sockets := Sockets { so_world : world; so_buffers : gmap Z socket_buffer }.

Inductive call :=
  | CNew (id : Z)
  | CPush (id msg sz : Z)
  | CPop (id sz : Z)
  | CReadline (id : Z) (check : bool) (sep : bytes)
  | CReadall (id : Z)
  | CClear (id : Z)
  | CDrop (msg : Z)
  (** A message with a block of its own, which the poll thread allocated. *)
  | CArrive (msg : Z) (data : bytes).

Inductive answer := ANone | ASize (n : Z) | APop (s : option bytes) (n : Z) | ALine (r : line_result) | AString (s : bytes).

Definition set_buffer (id : Z) (sb : socket_buffer) (w : world) (s : sockets) : sockets := Sockets w (<[id := sb]> (so_buffers s)).

Definition run_call (c : call) (s : sockets) : outcome (answer * sockets) :=
  let w := so_world s in
  match c with
  | CNew id => Ret (ANone, set_buffer id lnewbuffer w s)
  | CPush id msg sz => '(n, sb, w) ← lpushbuffer (so_buffers s !! id) (Some msg) sz w; Ret (ASize n, set_buffer id sb w s)
  | CPop id sz => '(r, n, sb, w) ← lpopbuffer (so_buffers s !! id) sz w; Ret (APop r n, set_buffer id sb w s)
  | CReadline id check sep => '(r, sb, w) ← lreadline (so_buffers s !! id) check sep w; Ret (ALine r, set_buffer id sb w s)
  | CReadall id => '(r, sb, w) ← lreadall (so_buffers s !! id) w; Ret (AString r, set_buffer id sb w s)
  | CClear id => '(sb, w) ← lclearbuffer (so_buffers s !! id) false w; Ret (ANone, match sb with Some sb => set_buffer id sb w s | None => s end)
  | CDrop msg => w ← ldrop (Some msg) w; Ret (ANone, Sockets w (so_buffers s))
  | CArrive msg data => Ret (ANone, Sockets (with_heap (<[msg := data]> (w_heap w)) w) (so_buffers s))
  end.

Fixpoint run_calls (cs : list call) (s : sockets) : outcome (list answer * sockets) :=
  match cs with
  | [] => Ret ([], s)
  | c :: cs => '(a, s) ← run_call c s; '(l, s) ← run_calls cs s; Ret (a :: l, s)
  end.

Definition sockets_zero : sockets := Sockets (World ∅ ∅ [] None) ∅.

Example calls_example : (r ← run_calls
  [CNew 1; CNew 2; CArrive 100 (str "GET / HT"); CPush 1 100 8; CArrive 200 (str "xyz"); CPush 2 200 3; CArrive 300 (str "TP") ; CPush 1 300 2;
   CArrive 400 [13; 10; 65; 66]; CPush 1 400 4; CReadline 1 true [13; 10]; CReadline 1 false (str "/ H"); CReadline 1 false [13; 10]; CPop 1 3; CPop 1 1; CReadall 2; CClear 1] sockets_zero; Ret r.1) =
  Ret [ANone; ANone; ANone; ASize 8; ANone; ASize 3; ANone; ASize 10; ANone; ASize 14; ALine LFound; ALine (LLine (str "GET ")); ALine (LLine (str "TTP"));
    APop None 2; APop (Some [65]) 1; AString (str "xyz"); ANone].
Proof. vm_compute. reflexivity. Qed.
