(* ===== verification/LuaSocketServe.v ===== *)
(** The buffers of sockets in Lua as streams of bytes: pops, lines and the rest come in the order
    in which the messages were pushed, and a block is freed when its last byte is taken. *)
From S2P Require Import Prelude Cstr LuaSocket.

#[local] Arguments Z.mul : simpl never.

(** ** Nodes *)

(** A node with the block of its message, and the bytes of this. *)
Record piece := Piece { pc_node : node_ptr; pc_block : Z; pc_data : bytes }.

(** The node [pc_node p] holds the message, and is followed by [next]. *)
Definition holds (w : world) (p : piece) (next : option node_ptr) : Prop :=
  w_nodes w !! pc_node p = Some (BufferNode (Some (pc_block p)) (Z.of_nat (length (pc_data p))) next) /\
  exists blk, w_heap w !! pc_block p = Some blk /\ take (length (pc_data p)) blk = pc_data p.

Fixpoint linked (w : world) (q : option node_ptr) (l : list piece) : Prop :=
  match l with
  | [] => q = None
  | p :: l => q = Some (pc_node p) /\ pc_data p <> [] /\ exists next, holds w p next /\ linked w next l
  end.

Fixpoint free_list (w : world) (q : option node_ptr) (fl : list node_ptr) : Prop :=
  match fl with
  | [] => q = None
  | p :: fl => q = Some p /\ exists x, w_nodes w !! p = Some x /\ free_list w (bn_next x) fl
  end.

(** Who owns what: the nodes are free or hold one of the pieces, and the blocks that are
    allocated are those of the pieces and the [loose] ones. *)
Record owns (w : world) (fl : list node_ptr) (ps : list piece) (loose : list Z) : Prop := {
  ow_free : free_list w (w_free w) fl;
  ow_nodes : NoDup (fl ++ (pc_node <$> ps));
  ow_held : forall p, p ∈ ps -> exists x, w_nodes w !! pc_node p = Some x /\ bn_msg x = Some (pc_block p);
  ow_blocks : NoDup ((pc_block <$> ps) ++ loose);
  ow_heap : forall a, is_Some (w_heap w !! a) <-> a ∈ (pc_block <$> ps) ++ loose;
  ow_msg : forall q x, w_nodes w !! q = Some x -> is_Some (bn_msg x) -> exists p, p ∈ ps /\ pc_node p = q /\ bn_msg x = Some (pc_block p);
  ow_chunks : forall c i, is_Some (w_nodes w !! (c, i)) <-> exists sz, w_chunks w !! c = Some sz /\ 0 <= i < sz }.

(** What the pieces [ps] are made of is the same in both worlds. *)
Definition same (w w' : world) (ps : list piece) : Prop := forall p, p ∈ ps ->
  w_nodes w' !! pc_node p = w_nodes w !! pc_node p /\ w_heap w' !! pc_block p = w_heap w !! pc_block p.

Lemma same_refl w ps : same w w ps.
Proof. by intros p _. Qed.

Lemma same_then w1 w2 w3 ps : same w1 w2 ps -> same w2 w3 ps -> same w1 w3 ps.
Proof. intros H1 H2 p Hp. destruct (H1 p Hp) as [<- <-]. by apply H2. Qed.

Lemma same_fewer w w' ps qs : (forall p, p ∈ qs -> p ∈ ps) -> same w w' ps -> same w w' qs.
Proof. intros H1 H2 p Hp. by apply H2, H1. Qed.

Lemma holds_same w w' p next : same w w' [p] -> holds w p next -> holds w' p next.
Proof. intros H [H1 H2]. destruct (H p) as [E1 E2]; [by left|]. split; [by rewrite E1|by rewrite E2]. Qed.

Lemma linked_kept w w' q l : same w w' l -> linked w q l -> linked w' q l.
Proof.
  revert q. induction l as [|p l IH]; intros q Hs; [done|]. intros (-> & Hd & next & Hh & Hl). split; [done|]. split; [done|]. exists next.
  split; [apply (holds_same w); [|done]|apply IH; [|done]]; (eapply same_fewer; [|exact Hs]); intros x Hx; [apply list_elem_of_singleton in Hx as ->; left|by right].
Qed.

Lemma linked_node w q l t : linked w q l -> t ∈ l -> exists next, holds w t next.
Proof.
  revert q. induction l as [|p l IH]; intros q; [by intros _ ?%elem_of_nil|]. intros (_ & _ & next & Hp & Hl) [->|Ht]%elem_of_cons; [by exists next|].
  by apply (IH next).
Qed.

Lemma free_list_same w w' q fl : (forall p, p ∈ fl -> w_nodes w' !! p = w_nodes w !! p) -> free_list w q fl -> free_list w' q fl.
Proof.
  revert q. induction fl as [|p fl IH]; intros q Hs; [done|]. intros (-> & x & Hx & Hl). split; [done|]. exists x.
  rewrite Hs by left. split; [done|]. apply IH; [|done]. intros r Hr. apply Hs. by right.
Qed.

#[export] Instance owns_perm w fl : Proper ((≡ₚ) ==> (≡ₚ) ==> iff) (owns w fl).
Proof.
  assert (forall ps ps' ls ls', ps ≡ₚ ps' -> ls ≡ₚ ls' -> owns w fl ps ls -> owns w fl ps' ls') as H.
  { intros ps ps' ls ls' E El [H1 H2 H3 H4 H5 H6 H7]. split; [done| | | | | |done].
    - by rewrite <- E.
    - intros p. rewrite <- E. apply H3.
    - by rewrite <- E, <- El.
    - intros a. by rewrite <- E, <- El.
    - intros q x Hq Hx. destruct (H6 q x Hq Hx) as (p & Hp & Ep). exists p. by rewrite <- E. }
  intros ps ps' E ls ls' El. split; apply H; [done|done|by symmetry|by symmetry].
Qed.

(** There are no more pieces than nodes. *)
Lemma owns_bound w fl ps loose : owns w fl ps loose -> (length ps <= size (w_nodes w))%nat.
Proof.
  intros H. rewrite <- (size_dom (w_nodes w)). rewrite <- (length_fmap pc_node ps).
  pose proof (ow_nodes _ _ _ _ H) as Hn. apply NoDup_app in Hn as (_ & _ & Hn).
  rewrite <- (size_list_to_set (C := gset node_ptr)) by done. apply subseteq_size. intros q. rewrite elem_of_list_to_set, list_elem_of_fmap.
  intros (p & -> & Hp). apply elem_of_dom. destruct (ow_held _ _ _ _ H p Hp) as (x & -> & _). by eexists.
Qed.

(** ** Returning a node *)

Record chain (w : world) (sb : socket_buffer) (l : list piece) : Prop := {
  ch_linked : linked w (sb_head sb) l;
  ch_tail : sb_tail sb = pc_node <$> last l;
  ch_offset : match l with [] => sb_offset sb = 0 | p :: _ => 0 <= sb_offset sb < Z.of_nat (length (pc_data p)) end }.

Lemma chain_kept w w' sb l : same w w' l -> chain w sb l -> chain w' sb l.
Proof. intros Hs [H1 H2 H3]. split; [by apply (linked_kept w)|done|done]. Qed.

Lemma return_node_spec w fl sb p l others loose : linked w (sb_head sb) (p :: l) -> sb_tail sb = pc_node <$> last (p :: l) ->
  owns w fl (p :: l ++ others) loose ->
  exists sb' w', return_free_node sb w = Ret (sb', w') /\ chain w' sb' l /\ owns w' (pc_node p :: fl) (l ++ others) loose /\
    sb_offset sb' = 0 /\ sb_size sb' = sb_size sb /\ same w w' (l ++ others) /\ w_heap w' ⊆ w_heap w.
Proof.
  intros (Hh & Hd & next & [Hn (blk & Hb & Ht)] & Hl) Htl [O1 O2 O3 O4 O5 O6 O7]. unfold return_free_node. rewrite Hh. cbn [deref]. rewrite bind_Ret.
  unfold get_node at 1. rewrite Hn. cbn [deref bn_msg bn_next]. rewrite bind_Ret. cbn [bn_msg bn_next free_block]. rewrite Hb. cbn [deref]. rewrite !bind_Ret.
  unfold set_node, get_node. cbn [w_nodes with_heap]. rewrite Hn. cbn [deref]. rewrite !bind_Ret. cbn [w_free with_heap].
  set (w' := with_free _ _). set (sb' := SocketBuffer _ _ _ _). cbn [app fmap list_fmap] in *.
  pose proof O2 as O2'. rewrite <- Permutation_middle in O2'. apply NoDup_cons in O2' as [Hq O2']. apply NoDup_cons in O4 as [Ha O4'].
  assert (same w w' (l ++ others)) as Hs.
  { intros r Hr. cbn. split.
    - rewrite lookup_insert_ne; [done|]. intros E. apply Hq. rewrite E, elem_of_app, list_elem_of_fmap. right. by exists r.
    - rewrite lookup_delete_ne; [done|]. intros E. apply Ha. rewrite E, elem_of_app, list_elem_of_fmap. left. by exists r. }
  exists sb', w'. split; [done|]. split; [|split; [|split; [done|split; [done|split; [done|apply delete_subseteq]]]]].
  - split; cbn [sb' sb_head sb_tail sb_offset].
    + apply (linked_kept w); [|done]. eapply same_fewer; [|exact Hs]. intros r. rewrite elem_of_app. by left.
    + rewrite last_cons in Htl. destruct next as [n|]; destruct l as [|p' l]; cbn in Hl; [done| |done|by destruct Hl as [? _]].
      rewrite Htl. destruct (last (p' :: l)) eqn:E; [done|]. by apply last_None in E.
    + destruct l as [|p' l]; [done|]. destruct Hl as (_ & Hd' & _). split; [done|]. destruct (pc_data p'); [done|]. cbn. lia.
  - split; cbn [w' w_free with_free w_nodes with_nodes with_heap w_heap w_chunks].
    + cbn. split; [done|]. eexists. rewrite lookup_insert_eq. split; [done|]. cbn. apply (free_list_same w); [|done].
      intros r Hr. cbn. apply lookup_insert_ne. intros E. apply Hq. rewrite E, elem_of_app. by left.
    + cbn. by rewrite Permutation_middle.
    + intros r Hr. destruct (O3 r ltac:(by right)) as (y & Hy & Ey). exists y. split; [|done]. rewrite <- Hy. apply (Hs r Hr).
    + done.
    + intros a. destruct (decide (a = pc_block p)) as [->|Hne].
      * rewrite lookup_delete_eq. split; [by intros [? ?]|done].
      * rewrite lookup_delete_ne by done. rewrite O5. split; [|by right]. by intros [->|?]%elem_of_cons.
    + intros q x Hq' Hx. destruct (decide (q = pc_node p)) as [->|Hne].
      * rewrite lookup_insert_eq in Hq'. injection Hq' as <-. by destruct Hx.
      * rewrite lookup_insert_ne in Hq' by done. destruct (O6 q x Hq' Hx) as (r & [->|Hr]%elem_of_cons & E & E2); [done|]. by exists r.
    + intros c i. destruct (decide ((c, i) = pc_node p)) as [E|Hne].
      * rewrite E, lookup_insert_eq. rewrite <- O7, E, Hn. split; intros _; by eexists.
      * by rewrite lookup_insert_ne.
Qed.

(** ** What is unread *)

(** The blocks with their unread bytes. *)
Definition part (p : piece) : Z * bytes := (pc_block p, pc_data p).

Definition view (o : Z) (l : list piece) : list (Z * bytes) :=
  match l with [] => [] | p :: l => (pc_block p, drop (Z.to_nat o) (pc_data p)) :: (part <$> l) end.

Definition stream (v : list (Z * bytes)) : bytes := concat v.*2.

(** [n] bytes are read; a block without unread bytes goes. *)
Fixpoint consume (n : nat) (v : list (Z * bytes)) : list (Z * bytes) :=
  match v with
  | [] => []
  | (a, d) :: v => if (n <? length d)%nat then (a, drop n d) :: v else consume (n - length d) v
  end.

Lemma stream_cons a d v : stream ((a, d) :: v) = d ++ stream v.
Proof. done. Qed.

Lemma view_chain w sb l : chain w sb l -> forall x, x ∈ view (sb_offset sb) l -> x.2 <> [].
Proof.
  intros [H1 _ H3] x. destruct l as [|p l]; [by intros ?%elem_of_nil|]. cbn [view]. intros [->|(q & -> & Hq)%list_elem_of_fmap]%elem_of_cons.
  - cbn. intros E%(f_equal length). rewrite length_drop in E. cbn in E. lia.
  - cbn. destruct H1 as (_ & _ & next & _ & Hl). clear H3. revert next Hl. induction l as [|r l IH]; intros next; [by apply elem_of_nil in Hq|].
    intros (_ & Hd & n & _ & Hl). apply elem_of_cons in Hq as [->|Hq]; [done|]. by apply (IH Hq n).
Qed.

Lemma consume_stream n v : (n <= length (stream v))%nat -> stream (consume n v) = drop n (stream v).
Proof.
  revert n. induction v as [|[a d] v IH]; intros n; [by destruct n|]. rewrite stream_cons, length_app. intros Hn. cbn [consume].
  destruct (Nat.ltb_spec n (length d)); [rewrite stream_cons, drop_app_le by lia; done|]. rewrite IH by lia. rewrite drop_app_ge by lia. done.
Qed.

Lemma consume_0 v : (forall x, x ∈ v -> x.2 <> []) -> consume 0 v = v.
Proof.
  intros H. destruct v as [|[a d] v]; [done|]. cbn [consume]. destruct (Nat.ltb_spec 0 (length d)); [done|].
  destruct d; [|cbn in *; lia]. by destruct (H (a, []) ltac:(left)).
Qed.

Lemma view_0 l : view 0 l = part <$> l.
Proof. by destruct l. Qed.

Lemma block_read_ok w p next o n : holds w p next -> 0 <= o -> 0 <= n -> o + n <= Z.of_nat (length (pc_data p)) ->
  block_read w (Some (pc_block p)) o n = Ret (take (Z.to_nat n) (drop (Z.to_nat o) (pc_data p))).
Proof.
  intros [_ (blk & Hb & Ht)] Ho Hn Hon. unfold block_read. cbn [deref]. rewrite bind_Ret, Hb. cbn [deref]. rewrite bind_Ret.
  assert (length (pc_data p) <= length blk)%nat as Hl by (rewrite <- Ht at 1; rewrite length_take; lia).
  rewrite (proj2 (Z.ltb_ge o 0)), (proj2 (Z.ltb_ge n 0)), (proj2 (Z.ltb_ge _ (o + n))) by lia. cbn [orb]. f_equal.
  rewrite <- Ht at 1. rewrite skipn_firstn_comm, take_take. f_equal. lia.
Qed.

(** The buffer of the pieces [l] has become one whose unread parts are [v]; [others] were not touched. *)
Definition become (w : world) (sb : socket_buffer) (others : list piece) (loose : list Z) (sb' : socket_buffer) (w' : world) (v : list (Z * bytes)) : Prop :=
  exists l' fl', chain w' sb' l' /\ owns w' fl' (l' ++ others) loose /\ view (sb_offset sb') l' = v /\
    sb_size sb' = sb_size sb /\ same w w' others /\ w_heap w' ⊆ w_heap w.

Lemma become_trans w sb others loose sb1 w1 v1 sb' w' v :
  become w sb others loose sb1 w1 v1 -> (forall l fl, chain w1 sb1 l -> owns w1 fl (l ++ others) loose -> view (sb_offset sb1) l = v1 ->
    become w1 sb1 others loose sb' w' v) -> become w sb others loose sb' w' v.
Proof.
  intros (l1 & fl1 & H1 & H2 & H3 & H4 & H5 & H6) H. destruct (H l1 fl1 H1 H2 H3) as (l & fl & K1 & K2 & K3 & K4 & K5 & K6).
  exists l, fl. split; [done|]. split; [done|]. split; [done|]. split; [congruence|]. split; [by eapply same_then|by etrans].
Qed.

(** The first node is returned. *)
Lemma return_become w fl sb p l others loose : linked w (sb_head sb) (p :: l) -> sb_tail sb = pc_node <$> last (p :: l) ->
  owns w fl (p :: l ++ others) loose ->
  exists sb' w', return_free_node sb w = Ret (sb', w') /\ become w sb others loose sb' w' (part <$> l) /\ sb_offset sb' = 0 /\ chain w' sb' l /\
    owns w' (pc_node p :: fl) (l ++ others) loose.
Proof.
  intros H1 H2 H3. destruct (return_node_spec w fl sb p l others loose H1 H2 H3) as (sb' & w' & E & Hc & Ho & E0 & Es & Hs & Hh).
  exists sb', w'. split; [done|]. split; [|done]. exists l, (pc_node p :: fl). split; [done|]. split; [done|]. rewrite E0. split; [apply view_0|].
  split; [done|]. split; [|done]. eapply same_fewer; [|exact Hs]. intros r. rewrite elem_of_app. by right.
Qed.

Lemma chain_first w sb p l : chain w sb (p :: l) -> sb_head sb = Some (pc_node p) /\
  exists next, holds w p next /\ w_nodes w !! pc_node p = Some (BufferNode (Some (pc_block p)) (Z.of_nat (length (pc_data p))) next) /\ linked w next l.
Proof. intros [(H1 & _ & next & H2 & H3) _ _]. split; [done|]. exists next. split; [done|]. split; [apply H2|done]. Qed.

(** The first node, with all that is unread or a part of it. *)
Lemma partial_become w fl sb p l others loose n : chain w sb (p :: l) -> owns w fl (p :: l ++ others) loose ->
  0 <= n < Z.of_nat (length (pc_data p)) - sb_offset sb ->
  become w sb others loose (with_offset (sb_offset sb + n) sb) w (consume (Z.to_nat n) (view (sb_offset sb) (p :: l))).
Proof.
  intros [H1 H2 H3] Ho Hn. exists (p :: l), fl. split; [|split; [done|]]; [split; cbn; [done|done|lia]|]. split; [|split; [done|split; [apply same_refl|done]]].
  cbn [view consume with_offset sb_offset]. rewrite length_drop. destruct (Nat.ltb_spec (Z.to_nat n) (length (pc_data p) - Z.to_nat (sb_offset sb))); [|lia].
  rewrite drop_drop. by rewrite Z2Nat.inj_add by lia.
Qed.

(** ** Taking bytes *)

Lemma take_short {A} (n : nat) (l k : list A) : (n <= length l)%nat -> take n (l ++ k) = take n l.
Proof. intros. by rewrite take_app_le. Qed.

Lemma consume_exact a d v n : n = length d -> (forall x, x ∈ v -> x.2 <> []) -> consume n ((a, d) :: v) = v.
Proof. intros -> Hv. cbn [consume]. rewrite (proj2 (Nat.ltb_ge _ _)) by lia. rewrite Nat.sub_diag. by apply consume_0. Qed.

(** What a read of [n] bytes gives, without the last [skip] of them. *)
Definition cut (n skip : Z) (v : list (Z * bytes)) : bytes := take (Z.to_nat (n - skip)) (stream v).

Lemma pop_loop_spec l : forall fuel w sb fl others loose sz skip, (length l <= fuel)%nat -> chain w sb l -> owns w fl (l ++ others) loose ->
  0 < sz <= Z.of_nat (length (stream (view (sb_offset sb) l))) -> 0 <= skip ->
  exists sb' w', pop_loop fuel sb sz skip w = Ret (cut sz skip (view (sb_offset sb) l), sb', w') /\
    become w sb others loose sb' w' (consume (Z.to_nat sz) (view (sb_offset sb) l)).
Proof.
  induction l as [|p l IH]; intros fuel w sb fl others loose sz skip Hf Hc Ho Hsz Hskip; [cbn in Hsz; lia|].
  destruct fuel as [|fuel]; [cbn in Hf; lia|]. destruct (chain_first w sb p l Hc) as (Hh & next & Hp & Hn & Hl). pose proof (ch_offset _ _ _ Hc) as Hoff. cbn in Hoff.
  cbn [pop_loop]. rewrite Hh. cbn [deref]. rewrite bind_Ret. unfold get_node. rewrite Hn. cbn [deref]. rewrite bind_Ret. cbn [bn_sz bn_msg]. cbv zeta.
  set (avail := Z.of_nat (length (pc_data p)) - sb_offset sb). cbn [view] in *. set (d := drop (Z.to_nat (sb_offset sb)) (pc_data p)) in *.
  assert (length d = Z.to_nat avail) as Ed by (unfold d; rewrite length_drop; lia). rewrite stream_cons, length_app in Hsz.
  assert (forall n, 0 <= n <= avail -> block_read w (Some (pc_block p)) (sb_offset sb) n = Ret (take (Z.to_nat n) d)) as Hread.
  { intros n Hn'. apply (block_read_ok w p next); [done|lia..]. }
  destruct (Z.leb_spec sz avail) as [Hle|Hgt].
  - assert ((if skip <? sz then block_read w (Some (pc_block p)) (sb_offset sb) (sz - skip) else Ret []) = Ret (cut sz skip ((pc_block p, d) :: (part <$> l)))) as ->.
    { unfold cut. rewrite stream_cons, take_short by (rewrite Ed; lia). destruct (Z.ltb_spec skip sz); [by apply Hread; lia|].
      by replace (Z.to_nat (sz - skip)) with 0%nat by lia. }
    rewrite bind_Ret. destruct (Z.eqb_spec avail sz) as [<-|Hne].
    + destruct (return_become w fl (with_offset (sb_offset sb + avail) sb) p l others loose) as (sb' & w' & -> & Hb & _); [exact (ch_linked _ _ _ Hc)|exact (ch_tail _ _ _ Hc)|done|].
      rewrite !bind_Ret. eexists _, _. split; [done|]. rewrite (consume_exact _ d); [exact Hb|by rewrite Ed|].
      rewrite <- view_0. destruct Hb as (l1 & fl1 & Hc1 & _ & Ev & _). rewrite <- Ev in *. rewrite view_0, <- Ev. by apply (view_chain w' sb').
    + rewrite !bind_Ret. eexists _, _. split; [done|]. apply (partial_become w fl sb p l); [done|done|lia].
  - assert ((if 0 <? sz - skip then block_read w (Some (pc_block p)) (sb_offset sb) (if sz - skip <? avail then sz - skip else avail) else Ret []) =
      Ret (take (Z.to_nat (sz - skip)) d)) as ->.
    { destruct (Z.ltb_spec 0 (sz - skip)); [|by replace (Z.to_nat (sz - skip)) with 0%nat by lia]. destruct (Z.ltb_spec (sz - skip) avail); rewrite Hread by lia; [done|].
      f_equal. rewrite !take_ge by lia. done. }
    rewrite bind_Ret. destruct (return_become w fl sb p l others loose) as (sb1 & w1 & -> & Hb & E0 & Hc1 & Ho1); [apply Hc|apply Hc|done|].
    rewrite bind_Ret. rewrite (proj2 (Z.eqb_neq _ 0)) by lia. assert (view (sb_offset sb1) l = part <$> l) as Ev by (rewrite E0; apply view_0).
    destruct l as [|p' l']; [cbn in Hsz; lia|]. rewrite (bool_decide_eq_true_2 (is_Some (sb_head sb1))) by (destruct (chain_first _ _ _ _ Hc1) as [-> _]; by eexists).
    cbn [assert_]. rewrite bind_Ret.
    destruct (IH fuel w1 sb1 (pc_node p :: fl) others loose (sz - avail) skip) as (sb' & w' & -> & Hb'); [cbn in *; lia|done|done|rewrite Ev; lia|done|].
    rewrite bind_Ret. eexists _, _. split.
    + rewrite Ev. unfold cut. rewrite stream_cons. do 3 f_equal. rewrite take_app, Ed. do 2 f_equal. lia.
    + eapply become_trans; [exact Hb|]. intros l2 fl2 Hc2 Ho2 Ev2. rewrite Ev in Hb'. cbn [consume]. rewrite Ed. destruct (Nat.ltb_spec (Z.to_nat sz) (Z.to_nat avail)); [lia|].
      replace (Z.to_nat sz - Z.to_nat avail)%nat with (Z.to_nat (sz - avail)) by lia. exact Hb'.
Qed.

Lemma pop_lstring_spec w fl sb l others loose sz skip : chain w sb l -> owns w fl (l ++ others) loose -> l <> [] ->
  0 <= sz <= Z.of_nat (length (stream (view (sb_offset sb) l))) -> 0 <= skip <= sz ->
  exists sb' w', pop_lstring sb sz skip w = Ret (cut sz skip (view (sb_offset sb) l), sb', w') /\
    become w sb others loose sb' w' (consume (Z.to_nat sz) (view (sb_offset sb) l)).
Proof.
  intros Hc Ho Hne Hsz Hskip. destruct l as [|p l]; [done|]. destruct (chain_first w sb p l Hc) as (Hh & next & Hp & Hn & Hl). pose proof (ch_offset _ _ _ Hc) as Hoff. cbn in Hoff.
  unfold pop_lstring. rewrite Hh. cbn [deref]. rewrite bind_Ret. unfold get_node. rewrite Hn. cbn [deref]. rewrite bind_Ret. cbn [bn_sz bn_msg].
  set (avail := Z.of_nat (length (pc_data p)) - sb_offset sb). pose proof (owns_bound _ _ _ _ Ho) as Hb. rewrite length_app in Hb.
  set (d := drop (Z.to_nat (sb_offset sb)) (pc_data p)). assert (length d = Z.to_nat avail) as Ed by (unfold d; rewrite length_drop; lia).
  assert (sz <= avail -> block_read w (Some (pc_block p)) (sb_offset sb) (sz - skip) = Ret (cut sz skip (view (sb_offset sb) (p :: l)))) as Hread.
  { intros Hle. rewrite (block_read_ok w p next) by (done || lia). unfold cut. cbn [view]. rewrite stream_cons, take_short by (fold d; rewrite Ed; lia). done. }
  destruct (Z.ltb_spec sz avail) as [Hlt|Hge].
  { rewrite Hread, bind_Ret by lia. eexists _, _. split; [done|]. apply (partial_become w fl); [done|done|lia]. }
  destruct (Z.eqb_spec sz avail) as [->|Hne'].
  - rewrite Hread, bind_Ret by lia. destruct (return_become w fl sb p l others loose) as (sb' & w' & -> & Hb' & _); [apply Hc|apply Hc|done|].
    rewrite bind_Ret. eexists _, _. split; [done|]. cbn [view]. rewrite (consume_exact _ _); [exact Hb'|by fold d; rewrite Ed|].
    destruct Hb' as (l1 & fl1 & Hc1 & _ & Ev & _). rewrite <- Ev. by apply (view_chain w' sb').
  - apply (pop_loop_spec (p :: l) _ w sb fl others loose); [unfold pop_fuel; cbn in *; lia|done|done|lia|lia].
Qed.

(** ** Adding a message *)

Section chunk.
Context (c : nat) (sz : Z) (nodes : gmap node_ptr buffer_node).
Let node i := BufferNode None 0 (if i =? sz - 1 then None else Some (c, i + 1)).

Lemma chunk_lookup l q : foldr (fun i => <[(c, i) := node i]>) nodes l !! q = if decide (q.1 = c /\ q.2 ∈ l) then Some (node q.2) else nodes !! q.
Proof.
  induction l as [|i l IH]; cbn [foldr]; [rewrite decide_False; [done|]; by intros [_ ?%elem_of_nil]|].
  destruct (decide (q = (c, i))) as [->|Hne]; [rewrite lookup_insert_eq, decide_True; [done|]; split; [done|by left]|].
  rewrite lookup_insert_ne by done. rewrite IH. destruct q as [c' i']. cbn. apply decide_ext. rewrite elem_of_cons.
  split; [intros [-> ?]; split; [done|by right]|]. intros [-> [->|?]]; [by destruct Hne|by split].
Qed.

Lemma chunk_free w : (forall i, 0 <= i < sz -> w_nodes w !! (c, i) = Some (node i)) -> forall n i, 0 <= i -> i + Z.of_nat n = sz -> (0 < n)%nat ->
  free_list w (Some (c, i)) (pair c <$> seqZ i (Z.of_nat n)).
Proof.
  intros Hw. induction n as [|n IH]; intros i Hi Hn Hpos; [lia|]. rewrite Nat2Z.inj_succ, seqZ_cons by lia. cbn [fmap list_fmap free_list].
  split; [done|]. exists (node i). split; [apply Hw; lia|]. cbn. rewrite Z.pred_succ. destruct (Z.eqb_spec i (sz - 1)).
  - by replace n with 0%nat by lia.
  - rewrite <- Z.add_1_r. apply IH; lia.
Qed.
End chunk.

Lemma take_node_spec w fl ps loose : owns w fl ps loose ->
  exists q w1 x fl1, take_node w = (q, w1) /\ w_nodes w1 !! q = Some x /\ owns (with_free (bn_next x) w1) fl1 ps loose /\ (q ∉ fl1 ++ (pc_node <$> ps)) /\
    same w w1 ps /\ w_heap w1 = w_heap w.
Proof.
  intros [O1 O2 O3 O4 O5 O6 O7]. unfold take_node. destruct (w_free w) as [q|] eqn:Ef.
  - destruct fl as [|q' fl]; [done|]. destruct O1 as ([=<-] & x & Hx & Hfl). cbn [app] in O2. apply NoDup_cons in O2 as [Hq O2].
    exists q, w, x, fl. split; [done|]. split; [done|]. split; [|split; [done|split; [apply same_refl|done]]].
    split; cbn [with_free w_free w_nodes w_heap w_chunks]; [|done..]. by apply (free_list_same w).
  - destruct fl; [|by destruct O1]. set (sz := if _ <=? _ then _ else _). unfold lnewpool.
    assert (2 <= sz) as Hsz.
    { unfold sz. set (t := if pool_rawlen w =? 0 then _ else _). assert (1 <= t) as Ht.
      { unfold t, pool_rawlen. destruct (w_chunks w); [done|]. rewrite (proj2 (Z.eqb_neq _ _)) by lia. lia. }
      destruct (_ <=? _); rewrite Z.shiftl_mul_pow2 by (unfold LARGE_PAGE_NODE; lia); [|done]. pose proof (Z.pow_le_mono_r 2 1 t). lia. }
    set (c := length (w_chunks w)). set (node i := BufferNode None 0 (if i =? sz - 1 then None else Some (c, i + 1))).
    set (nodes := foldr _ _ _). assert (forall q, nodes !! q = if decide (q.1 = c /\ q.2 ∈ seqZ 0 sz) then Some (node q.2) else w_nodes w !! q) as Hn by apply chunk_lookup.
    assert (forall i, w_nodes w !! (c, i) = None) as Hc.
    { intros i. apply eq_None_not_Some. intros (n & Hn' & _)%O7. apply lookup_lt_Some in Hn'. unfold c in *. lia. }
    assert (forall q, is_Some (w_nodes w !! q) -> nodes !! q = w_nodes w !! q) as Hold.
    { intros [c' i] Hs. rewrite Hn, decide_False; [done|]. cbn. intros [-> _]. rewrite Hc in Hs. by destruct Hs. }
    assert (forall i, 0 <= i < sz -> nodes !! (c, i) = Some (node i)) as Hnew.
    { intros i Hi. rewrite Hn, decide_True; [done|]. cbn. by rewrite elem_of_seqZ. }
    set (w1 := World _ nodes _ _). exists (c, 0), w1, (node 0), (pair c <$> seqZ 1 (sz - 1)). split; [done|]. split; [apply Hnew; lia|].
    assert (forall p, p ∈ ps -> nodes !! pc_node p = w_nodes w !! pc_node p) as Hps by (intros p Hp; by (apply Hold; destruct (O3 p Hp) as (x & -> & _); by eexists)).
    assert (forall i p, p ∈ ps -> pc_node p <> (c, i)) as Hpc.
    { intros i p Hp E. destruct (O3 p Hp) as (x & Hx & _). by rewrite E, Hc in Hx. }
    split; [|split; [|split; [intros p Hp; by split; [apply Hps|]|done]]].
    + split; cbn [w1 with_free w_free w_nodes w_heap w_chunks].
      * assert (bn_next (node 0) = Some (c, 1)) as -> by (unfold node; cbn [bn_next]; by rewrite (proj2 (Z.eqb_neq 0 _)) by lia). replace (sz - 1) with (Z.of_nat (Z.to_nat (sz - 1))) by lia.
        apply (chunk_free c sz); [done|lia..].
      * apply NoDup_app. split; [apply NoDup_fmap_2; [by intros i j [=]|apply NoDup_seqZ]|]. split; [|done].
        intros q (i & -> & _)%list_elem_of_fmap (p & E & Hp)%list_elem_of_fmap. by apply (Hpc i p Hp).
      * intros p Hp. rewrite Hps by done. by apply O3.
      * done.
      * done.
      * intros q x. rewrite Hn. destruct (decide _) as [[_ _]|]; [intros [=<-] [? [=]]|apply O6].
      * intros c' i. rewrite Hn. cbn [fst snd]. destruct (decide _) as [[-> Hi]|Hno].
        -- split; [|by eexists]. intros _. exists sz. rewrite elem_of_seqZ in Hi. split; [|lia]. by rewrite lookup_app_r, Nat.sub_diag by (unfold c; lia).
        -- rewrite O7. split; intros (n & E & Hi).
           ++ exists n. split; [|done]. by apply lookup_app_l_Some.
           ++ apply lookup_app_Some in E as [E|[Hle E]]; [by exists n|]. apply list_lookup_singleton_Some in E as [E0 ->].
              destruct Hno. split; [unfold c; lia|]. apply elem_of_seqZ. lia.
    + rewrite elem_of_app, !list_elem_of_fmap. intros [(i & [=Ei] & Hi)|(p & E & Hp)]; [apply elem_of_seqZ in Hi; lia|]. by apply (Hpc 0 p Hp).
Qed.

Lemma get_node_known w q x : w_nodes w !! q = Some x -> get_node w q = Ret x.
Proof. intros H. unfold get_node. by rewrite H. Qed.

Lemma set_node_known w q x n : w_nodes w !! q = Some x -> set_node q n w = Ret (with_nodes (<[q := n]> (w_nodes w)) w).
Proof. intros H. unfold set_node, get_node. rewrite H. cbn [deref]. by rewrite bind_Ret. Qed.

(** A free node takes a loose block. *)
Lemma hold_owns w fl ps loose p next x : owns w fl ps (pc_block p :: loose) -> w_nodes w !! pc_node p = Some x -> pc_node p ∉ fl ++ (pc_node <$> ps) ->
  owns (with_nodes (<[pc_node p := BufferNode (Some (pc_block p)) (Z.of_nat (length (pc_data p))) next]> (w_nodes w)) w) fl (p :: ps) loose.
Proof.
  intros [O1 O2 O3 O4 O5 O6 O7] Hx Hq. split; cbn [with_nodes w_nodes w_heap w_free w_chunks].
  - apply (free_list_same w); [|done]. intros r Hr. apply lookup_insert_ne. intros E. apply Hq. rewrite E, elem_of_app. by left.
  - cbn [fmap list_fmap]. rewrite <- Permutation_middle. by apply NoDup_cons.
  - intros r [->|Hr]%elem_of_cons; [rewrite lookup_insert_eq; by eexists|]. rewrite lookup_insert_ne; [by apply O3|].
    intros E. apply Hq. rewrite E, elem_of_app. right. by apply list_elem_of_fmap_2.
  - cbn [fmap list_fmap app]. by rewrite Permutation_middle.
  - intros a. rewrite O5. cbn [fmap list_fmap app]. by rewrite Permutation_middle.
  - intros q y Hy Hs. destruct (decide (q = pc_node p)) as [->|].
    + rewrite lookup_insert_eq in Hy. injection Hy as <-. exists p. split; [by left|done].
    + rewrite lookup_insert_ne in Hy by done. destruct (O6 q y Hy Hs) as (r & ? & ?). exists r. split; [by right|done].
  - intros c i. destruct (decide ((c, i) = pc_node p)) as [E|]; [|by rewrite lookup_insert_ne].
    rewrite E, lookup_insert_eq, <- O7, E, Hx. split; intros _; by eexists.
Qed.

(** The node of a piece is linked to another one. *)
Lemma relink_owns w fl ps loose p next : owns w fl ps loose -> p ∈ ps ->
  owns (with_nodes (<[pc_node p := BufferNode (Some (pc_block p)) (Z.of_nat (length (pc_data p))) next]> (w_nodes w)) w) fl ps loose.
Proof.
  intros [O1 O2 O3 O4 O5 O6 O7] Hp. pose proof O2 as O2'. apply NoDup_app in O2' as (_ & Hd & _). split; cbn [with_nodes w_nodes w_heap w_free w_chunks]; [| |intros r Hr|done|done|intros q y Hy Hs|intros c i].
  - apply (free_list_same w); [|done]. intros r Hr. apply lookup_insert_ne. intros E. apply (Hd r Hr). rewrite <- E. by apply list_elem_of_fmap_2.
  - done.
  - destruct (decide (pc_node r = pc_node p)) as [E|]; [|rewrite lookup_insert_ne by done; by apply O3]. rewrite E, lookup_insert_eq. eexists. split; [done|].
    destruct (O3 r Hr) as (y & Hy & Ey), (O3 p Hp) as (z & Hz & Ez). cbn. congruence.
  - destruct (decide (q = pc_node p)) as [->|].
    + rewrite lookup_insert_eq in Hy. injection Hy as <-. by exists p.
    + rewrite lookup_insert_ne in Hy by done. by apply (O6 q y).
  - destruct (decide ((c, i) = pc_node p)) as [E|]; [|by rewrite lookup_insert_ne].
    rewrite E, lookup_insert_eq, <- O7, E. split; intros _; [|by eexists]. destruct (O3 p Hp) as (y & -> & _). by eexists.
Qed.

(** [p] behind the last node [t]. *)
Lemma linked_append w q l t p : linked w q l -> NoDup (pc_node <$> l ++ [p]) -> last l = Some t -> holds w p None -> pc_data p <> [] ->
  linked (with_nodes (<[pc_node t := BufferNode (Some (pc_block t)) (Z.of_nat (length (pc_data t))) (Some (pc_node p))]> (w_nodes w)) w) q (l ++ [p]).
Proof.
  set (w' := with_nodes _ w). intros Hl Hn Ht Hp Hd. assert (forall r next, pc_node r <> pc_node t -> holds w r next -> holds w' r next) as Hother.
  { intros r next Hne. apply holds_same. intros x ->%list_elem_of_singleton. cbn. by rewrite lookup_insert_ne. }
  revert q Hl Hn Ht. induction l as [|r l IH]; intros q; [done|]. intros (-> & Hrd & next & Hr & Hl) Hn Ht. cbn [app linked]. split; [done|]. split; [done|].
  cbn [app fmap list_fmap] in Hn. apply NoDup_cons in Hn as [Hr' Hn]. destruct l as [|r2 l].
  - injection Ht as ->. exists (Some (pc_node p)). split.
    + destruct Hr as [_ Hb]. split; [cbn; by rewrite lookup_insert_eq|done].
    + cbn. split; [done|]. split; [done|]. exists None. split; [|done]. apply Hother; [|done]. intros E. apply Hr'. rewrite <- E. cbn. by left.
  - exists next. split; [|by apply IH]. apply Hother; [|done]. intros E. apply Hr'. rewrite E. apply list_elem_of_fmap_2, elem_of_app. left.
    by apply last_Some_elem_of.
Qed.

Lemma lpushbuffer_spec w fl sb l others loose a blk sz : chain w sb l -> owns w fl (l ++ others) (a :: loose) ->
  w_heap w !! a = Some blk -> 0 < sz <= Z.of_nat (length blk) -> INT_MIN <= sb_size sb + sz <= INT_MAX -> sz <= INT_MAX ->
  exists sb' w', lpushbuffer (Some sb) (Some a) sz w = Ret (sb_size sb + sz, sb', w') /\
    become w (with_size (sb_size sb + sz) sb) others loose sb' w' (view (sb_offset sb) l ++ [(a, take (Z.to_nat sz) blk)]).
Proof.
  intros Hc Ho Ha Hsz Hi Hi2. unfold lpushbuffer. rewrite s32_small by (unfold INT_MAX in *; lia). cbv zeta.
  destruct (take_node_spec w fl _ _ Ho) as (q & w1 & x & fl1 & -> & Hx & O1 & Hq & Hs1 & Hh1). cbv beta iota. rewrite (get_node_known _ _ _ Hx), bind_Ret.
  set (p := Piece q a (take (Z.to_nat sz) blk)). assert (Z.of_nat (length (pc_data p)) = sz) as Hlen by (cbn; rewrite length_take; lia).
  rewrite (set_node_known _ q x) by done. rewrite bind_Ret. pose proof (hold_owns _ fl1 _ _ p None x O1 Hx Hq) as O2. rewrite Hlen in O2. cbn [pc_node pc_block p] in O2.
  set (w2 := with_nodes _ (with_free _ w1)) in *. assert (same w w2 (l ++ others)) as Hs2.
  { eapply same_then; [exact Hs1|]. intros r Hr. cbn. split; [|done]. apply lookup_insert_ne. intros ->. apply Hq, elem_of_app. right. by apply list_elem_of_fmap_2. }
  assert (chain w2 sb l) as Hc2 by (apply (chain_kept w); [|done]; eapply same_fewer; [|exact Hs2]; intros r; rewrite elem_of_app; by left).
  assert (holds w2 p None) as Hp.
  { split; [rewrite Hlen; cbn [w2 with_nodes w_nodes p pc_node pc_block]; apply lookup_insert_eq|]. exists blk. cbn [w2 with_nodes with_free w_heap p pc_block pc_data].
    rewrite Hh1, length_take. split; [done|]. by rewrite Nat.min_l by lia. }
  assert (pc_data p <> []) as Hpd by (intros E; rewrite E in Hlen; cbn in Hlen; lia). destruct Hc as [L1 L2 L3].
  assert (forall o, 0 <= o -> l <> [] -> view o (l ++ [p]) = view o l ++ [(a, take (Z.to_nat sz) blk)]) as Hv.
  { intros o _ Hl. destruct l as [|r l]; [done|]. cbn. by rewrite fmap_app. }
  rewrite L2. destruct (last l) as [t|] eqn:Elast.
  - destruct l as [|r l1] eqn:El; [done|]. rewrite <- El in *. destruct Hc2 as [K1 K2 K3].
    assert (sb_head sb = Some (pc_node r)) as -> by (rewrite El in L1; apply L1). cbn [fmap option_fmap option_map deref]. rewrite bind_Ret.
    assert (t ∈ l) as Ht by (subst l; by apply last_Some_elem_of).
    destruct (linked_node w2 _ l t K1 Ht) as (next & Hnt & _).
    rewrite (get_node_known _ _ _ Hnt), bind_Ret. cbn [bn_msg bn_sz]. rewrite (set_node_known _ _ _ _ Hnt), !bind_Ret. cbn [sb_size].
    rewrite int_ok_Ret by done. rewrite bind_Ret. eexists _, _. split; [done|].
    pose proof (relink_owns w2 fl1 _ _ t (Some q) O2) as O3. specialize (O3 ltac:(right; apply elem_of_app; by left)). set (w3 := with_nodes _ w2) in *.
    exists (l ++ [p]), fl1. split; [split; cbn [with_size sb_head sb_tail sb_offset]|split; [|split; [|split; [done|split; [|cbn; by rewrite Hh1]]]]].
    + rewrite <- (proj1 (chain_first w sb r l1 ltac:(subst l; by split))). apply (linked_append w2 (sb_head sb) l t p); [done| |done|done|done].
      pose proof (ow_nodes _ _ _ _ O2) as Hn. apply NoDup_app in Hn as (_ & _ & Hn).
      rewrite app_comm_cons, fmap_app in Hn. apply NoDup_app in Hn as [Hn _]. by rewrite <- Permutation_cons_append.
    + by rewrite last_snoc.
    + subst l. exact L3.
    + rewrite <- app_assoc. cbn. by rewrite <- Permutation_middle.
    + cbn. apply Hv; [|by subst l]. subst l. cbn in L3. lia.
    + intros r' Hr'. destruct (Hs2 r' ltac:(apply elem_of_app; by right)) as [E1 E2]. split; [|exact E2]. cbn [w3 with_nodes w_nodes].
      rewrite lookup_insert_ne; [exact E1|]. intros E. pose proof (ow_nodes _ _ _ _ Ho) as Hn. apply NoDup_app in Hn as (_ & _ & Hn).
      rewrite fmap_app in Hn. apply NoDup_app in Hn as (_ & Hn & _). apply (Hn (pc_node t)); [by apply list_elem_of_fmap_2|]. rewrite E. by apply list_elem_of_fmap_2.
  - apply last_None in Elast. subst l. cbn [linked] in L1. rewrite L1. cbn [fmap option_fmap option_map assert_]. rewrite bool_decide_eq_true_2 by done. cbn [assert_]. rewrite !bind_Ret.
    cbn [sb_size]. rewrite int_ok_Ret by done. rewrite bind_Ret. eexists _, _. split; [done|].
    exists [p], fl1. split; [split; cbn [with_size sb_head sb_tail sb_offset]|split; [exact O2|split; [|split; [done|split; [|cbn; by rewrite Hh1]]]]].
    + cbn. split; [done|]. split; [done|]. exists None. by split.
    + done.
    + cbn in L3. rewrite L3. lia.
    + cbn in *. by rewrite L3.
    + eapply same_fewer; [|exact Hs2]. by intros r.
Qed.

(** ** Lines *)

(** The first place of [sep]. *)
Fixpoint first_at (sep s : bytes) : option nat :=
  if bool_decide (take (length sep) s = sep) then Some 0%nat else match s with [] => None | _ :: s => S <$> first_at sep s end.

Lemma first_at_short sep s : (length s < length sep)%nat -> first_at sep s = None.
Proof.
  induction s as [|b s IH]; intros Hl; cbn [first_at]; rewrite bool_decide_eq_false_2; try done.
  - rewrite take_nil. intros <-. cbn in Hl. lia.
  - cbn in Hl. rewrite IH by lia. done.
  - intros E%(f_equal length). rewrite length_take in E. lia.
Qed.

Lemma first_at_le sep s k : first_at sep s = Some k -> (k + length sep <= length s)%nat.
Proof.
  revert k. induction s as [|b s IH]; intros k; cbn [first_at]; case_bool_decide as E.
  - intros [=<-]. rewrite take_nil in E. by rewrite <- E.
  - done.
  - intros [=<-]. apply (f_equal length) in E. rewrite length_take in E. lia.
  - destruct (first_at sep s) as [j|] eqn:Ej; [|done]. intros [=<-]. specialize (IH j eq_refl). cbn. lia.
Qed.

Lemma stream_step from p l : 0 <= from < Z.of_nat (length (pc_data p)) ->
  exists b, stream (view from (p :: l)) = b :: stream (view (from + 1) (p :: l)).
Proof.
  intros Hf. cbn [view]. rewrite !stream_cons. destruct (drop (Z.to_nat from) (pc_data p)) as [|b r] eqn:E.
  - apply (f_equal length) in E. rewrite length_drop in E. cbn in E. lia.
  - exists b. rewrite Z2Nat.inj_add by lia. change (Z.to_nat 1) with 1%nat. rewrite <- drop_drop, E. done.
Qed.

Lemma check_sep_spec w l : forall fuel q from sep, linked w q l -> (length l <= fuel)%nat -> l <> [] ->
  match l with [] => True | p :: _ => 0 <= from <= Z.of_nat (length (pc_data p)) end ->
  (length sep <= length (stream (view from l)))%nat ->
  check_sep fuel w q from sep = Ret (bool_decide (take (length sep) (stream (view from l)) = sep)).
Proof.
  induction l as [|p l IH]; intros fuel q from sep; [done|]. intros (-> & Hd & next & Hp & Hl) Hf _ Hfrom Hs. destruct fuel as [|fuel]; [cbn in Hf; lia|].
  cbn [check_sep deref]. rewrite bind_Ret. rewrite (get_node_known _ _ _ (proj1 Hp)), bind_Ret. cbn [bn_sz bn_msg bn_next]. cbn [view] in *. rewrite stream_cons in *.
  set (d := drop (Z.to_nat from) (pc_data p)) in *. assert (Z.of_nat (length d) = Z.of_nat (length (pc_data p)) - from) as Ed by (unfold d; rewrite length_drop; lia).
  rewrite length_app in Hs. destruct (Z.leb_spec (Z.of_nat (length sep)) (Z.of_nat (length (pc_data p)) - from)) as [Hle|Hgt].
  - rewrite (block_read_ok w p next) by (done || lia). rewrite bind_Ret, Nat2Z.id, take_short by lia. done.
  - rewrite (proj2 (Z.ltb_ge _ 0)) by lia. assert ((if 0 <? Z.of_nat (length (pc_data p)) - from then block_read w (Some (pc_block p)) from (Z.of_nat (length (pc_data p)) - from) else Ret []) = Ret d) as ->.
    { destruct (Z.ltb_spec 0 (Z.of_nat (length (pc_data p)) - from)).
      - rewrite (block_read_ok w p next) by (done || lia). f_equal. fold d. apply take_ge. lia.
      - f_equal. symmetry. apply nil_length_inv. lia. }
    rewrite bind_Ret, <- Ed, Nat2Z.id. rewrite (take_app_ge d) by lia. case_bool_decide as E; cbn [negb].
    + destruct l as [|p' l]; [cbn in Hs; lia|]. rewrite <- view_0 in *. rewrite (IH fuel next 0 (drop (length d) sep)); [|done|cbn in *; lia|done|cbn; lia|rewrite length_drop; lia].
      f_equal. rewrite length_drop. assert (sep = d ++ drop (length d) sep) as Es by (by rewrite E at 1; rewrite take_drop).
      set (t := take (length sep - length d) _). apply bool_decide_ext. split; [by intros ->|]. intros E2. rewrite Es in E2 at 1. by apply app_inj_1 in E2 as [_ E2].
    + f_equal. symmetry. apply bool_decide_eq_false_2. intros E2. apply E. rewrite <- E2. by rewrite take_app_length.
Qed.

Lemma find_sep_spec w sep n : forall p l q from i, linked w (Some q) (p :: l) -> (S (length l) <= pop_fuel w)%nat ->
  0 <= from < Z.of_nat (length (pc_data p)) ->
  n = Z.to_nat (Z.of_nat (length (stream (view from (p :: l)))) - Z.of_nat (length sep) + 1) ->
  find_sep n w q from (Z.of_nat (length (pc_data p)) - from) i sep = Ret ((fun k => i + Z.of_nat k) <$> first_at sep (stream (view from (p :: l)))).
Proof.
  induction n as [|n IH]; intros p l q from i Hl Hf Hfrom Hn.
  - cbn [find_sep]. rewrite first_at_short by lia. done.
  - cbn [find_sep]. rewrite (check_sep_spec w (p :: l)); [|done|cbn; lia|done|lia|lia]. rewrite bind_Ret.
    destruct (stream_step from p l Hfrom) as [b Eb]. rewrite Eb in Hn |- *. cbn [first_at]. cbn [length] in Hn.
    case_bool_decide as E; cbn [fmap option_fmap option_map]; [by rewrite Z.add_0_r|].
    assert (forall o : option nat, (fun k => i + Z.of_nat k) <$> (S <$> o) = (fun k => i + 1 + Z.of_nat k) <$> o) as Hshift by (intros [k|]; cbn; [f_equal; lia|done]).
    change (option_map ?f ?o) with (f <$> o). rewrite Hshift. pose proof Hl as ([=->] & _ & next & Hp & Hl').
    destruct (Z.eqb_spec (Z.of_nat (length (pc_data p)) - from - 1) 0) as [E1|N1].
    + rewrite (get_node_known _ _ _ (proj1 Hp)), bind_Ret. cbn [bn_next].
      assert (stream (view (from + 1) (p :: l)) = stream (view 0 l)) as Es.
      { rewrite view_0. cbn [view]. rewrite stream_cons, drop_ge by lia. done. }
      rewrite Es in *. destruct l as [|p' l]; cbn [linked] in Hl'.
      * subst next. cbn [view stream concat fmap list_fmap first_at]. rewrite take_nil. case_bool_decide as E2; [|done].
        destruct E. by rewrite <- E2.
      * pose proof Hl' as (-> & _ & next' & Hp' & _). rewrite (get_node_known _ _ _ (proj1 Hp')), bind_Ret. cbn [bn_sz].
        rewrite <- (Z.sub_0_r (Z.of_nat (length (pc_data p')))). apply IH; [done|cbn in *; lia| |lia].
        split; [done|]. destruct Hl' as (_ & Hd & _). destruct (pc_data p'); [done|]. cbn. lia.
    + replace (Z.of_nat (length (pc_data p)) - from - 1) with (Z.of_nat (length (pc_data p)) - (from + 1)) by lia. apply IH; [done|done|lia|lia].
Qed.

(** The result of [lreadline]. *)
Definition line_of (check : bool) (sep : bytes) (v : list (Z * bytes)) : line_result :=
  match v with
  | [] => LNothing
  | _ => match first_at sep (stream v) with None => LNothing | Some k => if check then LFound else LLine (take k (stream v)) end
  end.

(** How many bytes it takes. *)
Definition line_size (check : bool) (sep : bytes) (v : list (Z * bytes)) : nat :=
  match v with
  | [] => 0
  | _ => match first_at sep (stream v) with None => 0 | Some k => if check then 0 else k + length sep end
  end.

Lemma view_nil o l : view o l = [] <-> l = [].
Proof. by destruct l. Qed.

Lemma become_same w sb fl l others loose : chain w sb l -> owns w fl (l ++ others) loose -> become w sb others loose sb w (view (sb_offset sb) l).
Proof. intros Hc Ho. exists l, fl. split; [done|]. split; [done|]. split; [done|]. split; [done|split; [apply same_refl|done]]. Qed.

Lemma become_size w sb others loose sb' w' v n : become w sb others loose sb' w' v -> become w (with_size n sb) others loose (with_size n sb') w' v.
Proof. intros (l & fl & [H1 H2 H3] & H4 & H5 & H6 & H7 & H8). exists l, fl. split; [by split|done]. Qed.

Lemma lreadline_spec w fl sb l others loose check sep : chain w sb l -> owns w fl (l ++ others) loose ->
  let v := view (sb_offset sb) l in
  sb_size sb = Z.of_nat (length (stream v)) -> sb_size sb <= INT_MAX -> Z.of_nat (length sep) < 2 ^ 31 ->
  exists sb' w', lreadline (Some sb) check sep w = Ret (line_of check sep v, sb', w') /\
    become w (with_size (sb_size sb - Z.of_nat (line_size check sep v)) sb) others loose sb' w' (consume (line_size check sep v) v).
Proof.
  intros Hc Ho v Hz Hmax Hsep. assert (forall x, x ∈ v -> x.2 <> []) as Hv by by apply (view_chain w sb l).
  assert (become w (with_size (sb_size sb - Z.of_nat 0) sb) others loose sb w (consume 0 v)) as Hnone.
  { rewrite consume_0 by done. rewrite Z.sub_0_r. pose proof (become_same w sb fl l others loose Hc Ho) as Hb. destruct sb. exact Hb. }
  unfold lreadline. rewrite s32_small by lia. cbv zeta. destruct l as [|p l].
  { destruct Hc as [Hh _ _]. cbn in Hh. rewrite Hh. exists sb, w. split; [done|exact Hnone]. }
  destruct (chain_first w sb p l Hc) as (Hh & next & Hp & Hn & Hl). pose proof (ch_offset _ _ _ Hc) as Hoff. cbn in Hoff.
  rewrite Hh, (get_node_known _ _ _ Hn), bind_Ret. cbn [bn_sz].
  rewrite (find_sep_spec w sep _ p l); [|rewrite <- Hh; apply Hc|pose proof (owns_bound _ _ _ _ Ho) as Hb; rewrite length_app in Hb; unfold pop_fuel; cbn in *; lia|done|by rewrite Hz].
  rewrite bind_Ret. fold v. unfold line_of, line_size in *. destruct v as [|x v'] eqn:Ev; [done|]. rewrite <- Ev in *.
  destruct (first_at sep (stream v)) as [k|] eqn:Ek; cbn [fmap option_fmap option_map]; [|exists sb, w; split; [done|exact Hnone]].
  destruct check; [exists sb, w; split; [done|exact Hnone]|]. pose proof (first_at_le _ _ _ Ek) as Hk.
  rewrite int_ok_Ret by (unfold INT_MIN, INT_MAX in *; lia). rewrite bind_Ret.
  destruct (pop_lstring_spec w fl sb (p :: l) others loose (0 + Z.of_nat k + Z.of_nat (length sep)) (Z.of_nat (length sep))) as (sb' & w' & -> & Hb); [done|done|done|fold v; lia|lia|].
  rewrite bind_Ret. destruct Hb as (l' & fl' & B1 & B2 & B3 & B4 & B5 & B6). rewrite B4, int_ok_Ret by (unfold INT_MIN, INT_MAX in *; lia). rewrite bind_Ret.
  eexists _, _. split.
  - do 3 f_equal. unfold cut. fold v. do 2 f_equal. lia.
  - replace (sb_size sb - (0 + Z.of_nat k + Z.of_nat (length sep))) with (sb_size sb - Z.of_nat (k + length sep)) by lia. apply become_size.
    exists l', fl'. split; [done|]. split; [done|]. split; [|done]. rewrite B3. fold v. f_equal. lia.
Qed.

Lemma lpopbuffer_spec w fl sb l others loose sz : chain w sb l -> owns w fl (l ++ others) loose ->
  let v := view (sb_offset sb) l in
  sb_size sb = Z.of_nat (length (stream v)) -> sb_size sb <= INT_MAX -> 0 <= sz <= INT_MAX ->
  let n := if (sb_size sb <? sz) || (sz =? 0) then 0 else sz in
  exists sb' w', lpopbuffer (Some sb) sz w = Ret (if n =? 0 then None else Some (take (Z.to_nat n) (stream v)), sb_size sb - n, sb', w') /\
    become w (with_size (sb_size sb - n) sb) others loose sb' w' (consume (Z.to_nat n) v).
Proof.
  intros Hc Ho v Hz Hmax Hsz n. unfold lpopbuffer. rewrite s32_small by (unfold INT_MAX in *; lia). cbv zeta.
  destruct ((sb_size sb <? sz) || (sz =? 0)) eqn:E; subst n.
  - exists sb, w. rewrite Z.sub_0_r. split; [done|]. change (Z.to_nat 0) with 0%nat. rewrite consume_0 by by apply (view_chain w sb l).
    pose proof (become_same w sb fl l others loose Hc Ho) as Hb. destruct sb. exact Hb.
  - apply orb_false_iff in E as [H1%Z.ltb_ge H2%Z.eqb_neq]. rewrite (proj2 (Z.eqb_neq _ _)) by done.
    destruct (pop_lstring_spec w fl sb l others loose sz 0) as (sb' & w' & -> & Hb); [done|done| |fold v; lia|lia|].
    { intros ->. unfold v, stream in Hz. cbn in Hz. lia. }
    rewrite bind_Ret. destruct Hb as (l' & fl' & B1 & B2 & B3 & B4 & B5 & B6). rewrite B4, int_ok_Ret by (unfold INT_MIN, INT_MAX in *; lia). rewrite bind_Ret.
    eexists _, _. split; [unfold cut; rewrite Z.sub_0_r; done|]. apply become_size. by exists l', fl'.
Qed.

Lemma readall_loop_spec l : forall fuel w sb fl others loose, (length l <= fuel)%nat -> chain w sb l -> owns w fl (l ++ others) loose ->
  exists sb' w', readall_loop fuel sb w = Ret (stream (view (sb_offset sb) l), sb', w') /\ become w sb others loose sb' w' [].
Proof.
  induction l as [|p l IH]; intros fuel w sb fl others loose Hf Hc Ho.
  - pose proof (become_same w sb fl [] others loose Hc Ho) as Hb. destruct Hc as [Hh _ _]. cbn in Hh. exists sb, w. split; [|exact Hb]. destruct fuel; cbn [readall_loop]; by rewrite Hh.
  - destruct fuel as [|fuel]; [cbn in Hf; lia|]. destruct (chain_first w sb p l Hc) as (Hh & next & Hp & Hn & Hl). pose proof (ch_offset _ _ _ Hc) as Hoff. cbn in Hoff.
    cbn [readall_loop]. rewrite Hh, (get_node_known _ _ _ Hn), bind_Ret. cbn [bn_msg bn_sz]. rewrite (block_read_ok w p next) by (done || lia). rewrite bind_Ret.
    destruct (return_become w fl sb p l others loose) as (sb1 & w1 & -> & Hb & E0 & Hc1 & Ho1); [apply Hc|apply Hc|done|]. rewrite bind_Ret.
    destruct (IH fuel w1 sb1 _ others loose ltac:(cbn in Hf; lia) Hc1 Ho1) as (sb' & w' & -> & Hb'). rewrite bind_Ret. eexists _, _. split.
    + rewrite E0, view_0. cbn [view]. rewrite stream_cons. do 4 f_equal. apply take_ge. rewrite length_drop. lia.
    + eapply become_trans; [exact Hb|]. by intros.
Qed.

Lemma clear_nodes_spec l : forall fuel w sb fl others loose, (length l <= fuel)%nat -> chain w sb l -> owns w fl (l ++ others) loose ->
  exists sb' w', clear_nodes fuel sb w = Ret (sb', w') /\ become w sb others loose sb' w' [].
Proof.
  induction l as [|p l IH]; intros fuel w sb fl others loose Hf Hc Ho.
  - pose proof (become_same w sb fl [] others loose Hc Ho) as Hb. destruct Hc as [Hh _ _]. cbn in Hh. exists sb, w. split; [|exact Hb]. destruct fuel; cbn [clear_nodes]; by rewrite Hh.
  - destruct fuel as [|fuel]; [cbn in Hf; lia|]. destruct (chain_first w sb p l Hc) as (Hh & next & Hp & Hn & Hl).
    cbn [clear_nodes]. rewrite Hh. destruct (return_become w fl sb p l others loose) as (sb1 & w1 & -> & Hb & E0 & Hc1 & Ho1); [apply Hc|apply Hc|done|]. rewrite bind_Ret.
    destruct (IH fuel w1 sb1 _ others loose ltac:(cbn in Hf; lia) Hc1 Ho1) as (sb' & w' & -> & Hb'). eexists _, _. split; [done|].
    eapply become_trans; [exact Hb|]. by intros.
Qed.

(** ** What a script sees *)

(** Each buffer as its unread blocks, and the blocks that are in no buffer. *)
Record store := Store { st_buffers : gmap Z (list (Z * bytes)); st_loose : gmap Z bytes }.

Definition store_zero : store := Store ∅ ∅.

Definition unread (st : store) : list Z := concat ((fun v => v.*1) <$> (map_to_list (st_buffers st)).*2).

(** The blocks that are not freed yet. *)
Definition live (st : store) (a : Z) : Prop := (exists id v, st_buffers st !! id = Some v /\ a ∈ v.*1) \/ is_Some (st_loose st !! a).

Definition put_buffer (id : Z) (v : list (Z * bytes)) (st : store) : store := Store (<[id := v]> (st_buffers st)) (st_loose st).

(** A call of a script that keeps to the rules: buffers exist, sizes fit, blocks are its own. *)
Definition spec_call (c : call) (st : store) : option (answer * store) :=
  match c with
  | CNew id => match st_buffers st !! id with Some _ => None | None => Some (ANone, put_buffer id [] st) end
  | CPush id msg sz =>
      v ← st_buffers st !! id; blk ← st_loose st !! msg;
      let n := Z.of_nat (length (stream v)) + sz in
      if (0 <? sz) && (sz <=? Z.of_nat (length blk)) && (n <=? INT_MAX) then
        Some (ASize n, Store (<[id := v ++ [(msg, take (Z.to_nat sz) blk)]]> (st_buffers st)) (delete msg (st_loose st)))
      else None
  | CPop id sz =>
      v ← st_buffers st !! id;
      let len := Z.of_nat (length (stream v)) in
      if (0 <=? sz) && (sz <=? INT_MAX) then
        if (len <? sz) || (sz =? 0) then Some (APop None len, st)
        else Some (APop (Some (take (Z.to_nat sz) (stream v))) (len - sz), put_buffer id (consume (Z.to_nat sz) v) st)
      else None
  | CReadline id check sep =>
      v ← st_buffers st !! id;
      if Z.of_nat (length sep) <? 2 ^ 31 then Some (ALine (line_of check sep v), put_buffer id (consume (line_size check sep v) v) st) else None
  | CReadall id => v ← st_buffers st !! id; Some (AString (stream v), put_buffer id [] st)
  | CClear id => v ← st_buffers st !! id; Some (ANone, put_buffer id [] st)
  | CDrop msg => _ ← st_loose st !! msg; Some (ANone, Store (st_buffers st) (delete msg (st_loose st)))
  | CArrive msg data => if bool_decide (msg ∈ unread st) then None else
      match st_loose st !! msg with Some _ => None | None => Some (ANone, Store (st_buffers st) (<[msg := data]> (st_loose st))) end
  end.

Fixpoint spec_calls (cs : list call) (st : store) : option (list answer * store) :=
  match cs with
  | [] => Some ([], st)
  | c :: cs => '(a, st) ← spec_call c st; '(l, st) ← spec_calls cs st; Some (a :: l, st)
  end.

(** ** The calls do what the script sees *)

Definition pieces_of (ls : gmap Z (list piece)) : list piece := concat (map_to_list ls).*2.

Lemma pieces_insert ls id l : pieces_of (<[id := l]> ls) ≡ₚ l ++ pieces_of (delete id ls).
Proof. unfold pieces_of. rewrite <- insert_delete_eq, map_to_list_insert by apply lookup_delete_eq. done. Qed.

Lemma pieces_focus ls id l : ls !! id = Some l -> pieces_of ls ≡ₚ l ++ pieces_of (delete id ls).
Proof. intros H. rewrite <- (insert_id ls id l H) at 1. apply pieces_insert. Qed.

Lemma pieces_elem ls p : p ∈ pieces_of ls <-> exists id l, ls !! id = Some l /\ p ∈ l.
Proof.
  unfold pieces_of. rewrite list_elem_of_In, in_concat. setoid_rewrite <- list_elem_of_In. split.
  - intros (l & ([id l'] & -> & Hid%elem_of_map_to_list)%list_elem_of_fmap & Hp). by exists id, l'.
  - intros (id & l & Hid & Hp). exists l. split; [|done]. apply list_elem_of_fmap. exists (id, l). by rewrite elem_of_map_to_list.
Qed.

Definition loose_of (st : store) : list Z := (map_to_list (st_loose st)).*1.

Record buffer_ok (w : world) (sb : socket_buffer) (l : list piece) (v : list (Z * bytes)) : Prop := {
  bo_chain : chain w sb l;
  bo_view : v = view (sb_offset sb) l;
  bo_size : sb_size sb = Z.of_nat (length (stream v));
  bo_max : sb_size sb <= INT_MAX }.

Record repr_with (s : sockets) (st : store) (ls : gmap Z (list piece)) (fl : list node_ptr) : Prop := {
  rs_some : forall id l, ls !! id = Some l -> exists sb v, so_buffers s !! id = Some sb /\ st_buffers st !! id = Some v /\ buffer_ok (so_world s) sb l v;
  rs_none : forall id, ls !! id = None -> so_buffers s !! id = None /\ st_buffers st !! id = None;
  rs_owns : owns (so_world s) fl (pieces_of ls) (loose_of st);
  rs_loose : forall a b, st_loose st !! a = Some b -> w_heap (so_world s) !! a = Some b }.

Definition repr (s : sockets) (st : store) : Prop := exists ls fl, repr_with s st ls fl.

Lemma focus s st ls fl id v : repr_with s st ls fl -> st_buffers st !! id = Some v ->
  exists sb l, so_buffers s !! id = Some sb /\ ls !! id = Some l /\ buffer_ok (so_world s) sb l v /\
    owns (so_world s) fl (l ++ pieces_of (delete id ls)) (loose_of st).
Proof.
  intros [R1 R2 R3 R4] Hv. destruct (ls !! id) as [l|] eqn:Hl.
  - destruct (R1 id l Hl) as (sb & v' & Hsb & Hv' & Hb). rewrite Hv in Hv'. injection Hv' as <-. exists sb, l. by rewrite <- pieces_focus.
  - destruct (R2 id Hl) as [_ E]. by rewrite Hv in E.
Qed.

Lemma unfocus s st ls fl id sb loose lm sb' w' v' : repr_with s st ls fl ->
  become (so_world s) sb (pieces_of (delete id ls)) loose sb' w' v' -> sb_size sb = Z.of_nat (length (stream v')) -> sb_size sb <= INT_MAX ->
  (map_to_list lm).*1 ≡ₚ loose -> lm ⊆ st_loose st ->
  repr (set_buffer id sb' w' s) (Store (<[id := v']> (st_buffers st)) lm).
Proof.
  intros [R1 R2 R3 R4] (l & fl' & B1 & B2 & B3 & B4 & B5 & B6) Hz Hmax Hlm Hsub. exists (<[id := l]> ls), fl'. split; cbn [set_buffer so_buffers so_world st_buffers st_loose].
  - intros id' l'. destruct (decide (id' = id)) as [->|Hne].
    + rewrite !lookup_insert_eq. intros [=<-]. exists sb', v'. split; [done|]. split; [done|]. split; [done|done|by rewrite B4|by rewrite B4].
    + rewrite !lookup_insert_ne by done. intros Hl. destruct (R1 id' l' Hl) as (sb1 & v1 & H1 & H2 & [H3 H4 H5 H6]). exists sb1, v1. split; [done|]. split; [done|].
      split; [|done|done|done]. apply (chain_kept (so_world s)); [|done]. eapply same_fewer; [|exact B5]. intros p Hp. apply pieces_elem. exists id', l'. by rewrite lookup_delete_ne.
  - intros id' Hid. destruct (decide (id' = id)) as [->|Hne]; [by rewrite lookup_insert_eq in Hid|]. rewrite lookup_insert_ne in Hid by done.
    rewrite !lookup_insert_ne by done. by apply R2.
  - unfold loose_of. cbn [st_loose]. by rewrite pieces_insert, Hlm.
  - intros a b Ha. assert (w_heap (so_world s) !! a = Some b) as Hb by (by apply R4, (lookup_weaken lm)).
    assert (is_Some (w_heap w' !! a)) as [b' Hb'].
    { apply (ow_heap _ _ _ _ B2), elem_of_app. right. rewrite <- Hlm. apply list_elem_of_fmap. exists (a, b). by rewrite elem_of_map_to_list. }
    rewrite Hb'. f_equal. pose proof (lookup_weaken _ _ _ _ Hb' B6) as E. rewrite Hb in E. by injection E.
Qed.

(** The heap changes only outside of the pieces. *)
Lemma heap_repr s st ls fl h lm : repr_with s st ls fl ->
  owns (with_heap h (so_world s)) fl (pieces_of ls) (map_to_list lm).*1 -> (forall p, p ∈ pieces_of ls -> h !! pc_block p = w_heap (so_world s) !! pc_block p) ->
  (forall a b, lm !! a = Some b -> h !! a = Some b) -> repr (Sockets (with_heap h (so_world s)) (so_buffers s)) (Store (st_buffers st) lm).
Proof.
  intros [R1 R2 R3 R4] Ho Hs Hlm. exists ls, fl. split; [|done|done|done]. cbn. intros id l Hl. destruct (R1 id l Hl) as (sb & v & H1 & H2 & [H3 H4 H5 H6]).
  exists sb, v. split; [done|]. split; [done|]. split; [|done..]. apply (chain_kept (so_world s)); [|done]. intros p Hp. split; [done|]. apply Hs, pieces_elem. by exists id, l.
Qed.

Lemma view_blocks o l : (view o l).*1 = pc_block <$> l.
Proof. destruct l as [|p l]; [done|]. cbn. f_equal. rewrite <- list_fmap_compose. done. Qed.

Lemma unread_elem st a : a ∈ unread st <-> exists id v, st_buffers st !! id = Some v /\ a ∈ v.*1.
Proof.
  unfold unread. rewrite list_elem_of_In, in_concat. setoid_rewrite <- list_elem_of_In. split.
  - intros (x & (v & -> & ([id v'] & -> & Hid%elem_of_map_to_list)%list_elem_of_fmap)%list_elem_of_fmap & Ha). by exists id, v'.
  - intros (id & v & Hid & Ha). exists (v.*1). split; [|done]. apply list_elem_of_fmap. exists v. split; [done|]. apply list_elem_of_fmap. exists (id, v). by rewrite elem_of_map_to_list.
Qed.

Lemma pieces_unread s st ls fl a : repr_with s st ls fl -> a ∈ pc_block <$> pieces_of ls <-> a ∈ unread st.
Proof.
  intros [R1 R2 R3 R4]. rewrite unread_elem, list_elem_of_fmap. split.
  - intros (p & -> & (id & l & Hl & Hp)%pieces_elem). destruct (R1 id l Hl) as (sb & v & _ & Hv & [_ -> _ _]). exists id, (view (sb_offset sb) l). split; [done|].
    rewrite view_blocks. by apply list_elem_of_fmap_2.
  - intros (id & v & Hv & Ha). destruct (ls !! id) as [l|] eqn:Hl; [|destruct (R2 id Hl) as [_ E]; by rewrite Hv in E].
    destruct (R1 id l Hl) as (sb & v' & _ & Hv' & [_ Ev _ _]). rewrite Hv in Hv'. injection Hv' as <-. rewrite Ev, view_blocks in Ha.
    apply list_elem_of_fmap in Ha as (p & -> & Hp). exists p. split; [done|]. apply pieces_elem. by exists id, l.
Qed.

(** The blocks that are allocated are the live ones. *)
Lemma repr_live s st a : repr s st -> is_Some (w_heap (so_world s) !! a) <-> live st a.
Proof.
  intros (ls & fl & R). rewrite (ow_heap _ _ _ _ (rs_owns _ _ _ _ R)), elem_of_app, (pieces_unread s st ls fl a R), unread_elem. unfold live, loose_of.
  rewrite list_elem_of_fmap. split; (intros [H|H]; [by left|right]).
  - destruct H as ([b d] & -> & H%elem_of_map_to_list). by exists d.
  - destruct H as [d H]. exists (a, d). by rewrite elem_of_map_to_list.
Qed.

Lemma arrive_owns w fl ps loose a d : owns w fl ps loose -> w_heap w !! a = None -> owns (with_heap (<[a := d]> (w_heap w)) w) fl ps (a :: loose).
Proof.
  intros [O1 O2 O3 O4 O5 O6 O7] Ha. assert (a ∉ (pc_block <$> ps) ++ loose) as Hn by (intros [? E]%O5; by rewrite Ha in E).
  split; cbn; [by apply (free_list_same w)|done|done| | |done|done].
  - rewrite <- Permutation_middle. by apply NoDup_cons.
  - intros b. rewrite <- Permutation_middle, elem_of_cons, <- O5. destruct (decide (b = a)) as [->|]; [rewrite lookup_insert_eq; split; [by left|by eexists]|].
    rewrite lookup_insert_ne by done. split; [by right|by intros [?|?]].
Qed.

Lemma drop_owns w fl ps loose a : owns w fl ps (a :: loose) -> owns (with_heap (delete a (w_heap w)) w) fl ps loose.
Proof.
  intros [O1 O2 O3 O4 O5 O6 O7]. rewrite <- Permutation_middle in O4. apply NoDup_cons in O4 as [Ha O4].
  split; cbn; [by apply (free_list_same w)|done|done|done| |done|done].
  intros b. destruct (decide (b = a)) as [->|]; [rewrite lookup_delete_eq; split; [by intros [? ?]|done]|].
  rewrite lookup_delete_ne, O5, <- Permutation_middle, elem_of_cons by done. split; [by intros [?|?]|by right].
Qed.

Lemma loose_delete (m : gmap Z bytes) a d : m !! a = Some d -> (map_to_list m).*1 ≡ₚ a :: (map_to_list (delete a m)).*1.
Proof. intros H. by rewrite <- (map_to_list_delete m a d H). Qed.

Lemma line_size_le check sep v : (line_size check sep v <= length (stream v))%nat.
Proof.
  unfold line_size. destruct v as [|x v]; [lia|]. destruct (first_at _ _) as [k|] eqn:E; [|lia]. destruct check; [lia|]. by apply first_at_le.
Qed.

Lemma consume_length n v : (n <= length (stream v))%nat -> Z.of_nat (length (stream (consume n v))) = Z.of_nat (length (stream v)) - Z.of_nat n.
Proof. intros. rewrite consume_stream, length_drop by done. lia. Qed.

(** A buffer with size [n]. *)
Lemma unfocus_size s st ls fl id sb n sb' w' v' : repr_with s st ls fl ->
  become (so_world s) (with_size n sb) (pieces_of (delete id ls)) (loose_of st) sb' w' v' -> n = Z.of_nat (length (stream v')) -> n <= INT_MAX ->
  repr (set_buffer id sb' w' s) (put_buffer id v' st).
Proof. intros R H Hn Hm. by apply (unfocus s st ls fl id (with_size n sb) (loose_of st) (st_loose st) sb' w' v'). Qed.

Lemma call_step s st c a st' : repr s st -> spec_call c st = Some (a, st') -> exists s', run_call c s = Ret (a, s') /\ repr s' st'.
Proof.
  intros (ls & fl & R) H. destruct c as [id|id msg sz|id sz|id check sep|id|id|msg|msg data]; cbn [spec_call run_call] in *.
  - destruct (st_buffers st !! id) eqn:E; [done|]. injection H as <- <-. eexists. split; [done|].
    apply (unfocus s st ls fl id lnewbuffer (loose_of st)); [done| |done|done|done|done]. exists [], fl. split; [by split|].
    assert (ls !! id = None) as Hid. { destruct (ls !! id) as [l|] eqn:Hl; [|done]. destruct (rs_some _ _ _ _ R id l Hl) as (? & ? & _ & E' & _). by rewrite E in E'. }
    rewrite delete_id by done. split; [apply R|]. split; [done|]. split; [done|]. split; [apply same_refl|done].
  - destruct (st_buffers st !! id) as [v|] eqn:Ev; [|done]. cbn [mbind option_bind] in H. destruct (st_loose st !! msg) as [blk|] eqn:Eb; [|done]. cbn [mbind option_bind] in H.
    destruct (_ && _) eqn:Ec in H; [|done]. injection H as <- <-. rewrite !andb_true_iff, Z.ltb_lt, !Z.leb_le in Ec. destruct Ec as [[Hs1 Hs2] Hs3].
    destruct (focus s st ls fl id v R Ev) as (sb & l & -> & Hl & [B1 B2 B3 B4] & Ho). unfold loose_of in Ho. rewrite (loose_delete _ _ _ Eb) in Ho.
    destruct (lpushbuffer_spec (so_world s) fl sb l _ _ msg blk sz B1 Ho) as (sb' & w' & -> & Hb); [by apply (rs_loose _ _ _ _ R)|lia|unfold INT_MIN; lia|lia|].
    rewrite bind_Ret, B3. eexists. split; [done|]. rewrite <- B2, B3 in Hb.
    apply (unfocus s st ls fl id _ _ (delete msg (st_loose st)) sb' w' _ R Hb); [cbn|cbn; lia|done|apply delete_subseteq].
    unfold stream. rewrite fmap_app, concat_app, length_app. cbn. rewrite app_nil_r, length_take. fold (stream v). lia.
  - destruct (st_buffers st !! id) as [v|] eqn:Ev; [|done]. cbn [mbind option_bind] in H. destruct ((0 <=? sz) && (sz <=? INT_MAX)) eqn:Ec in H; [|done].
    rewrite andb_true_iff, !Z.leb_le in Ec. destruct (focus s st ls fl id v R Ev) as (sb & l & -> & Hl & [B1 B2 B3 B4] & Ho).
    destruct (lpopbuffer_spec _ fl sb l _ _ sz B1 Ho) as (sb' & w' & -> & Hb); [by rewrite <- B2|done|lia|]. rewrite <- B2, B3 in *. rewrite bind_Ret.
    destruct ((Z.of_nat (length (stream v)) <? sz) || (sz =? 0)) eqn:En.
    + injection H as <- <-. rewrite Z.sub_0_r in *. eexists. split; [done|].
      assert (st = put_buffer id (consume 0 v) st) as ->.
      { unfold put_buffer. rewrite consume_0 by (rewrite B2; by apply (view_chain (so_world s) sb l)). rewrite insert_id by done. by destruct st. }
      apply (unfocus_size s st ls fl id sb _ sb' w' _ R Hb); [|lia]. rewrite consume_length by lia. lia.
    + apply orb_false_iff in En as [H1%Z.ltb_ge H2%Z.eqb_neq]. rewrite (proj2 (Z.eqb_neq _ _)) by done. injection H as <- <-. eexists. split; [done|].
      apply (unfocus_size s st ls fl id sb _ sb' w' _ R Hb); [|lia]. rewrite consume_length by lia. lia.
  - destruct (st_buffers st !! id) as [v|] eqn:Ev; [|done]. cbn [mbind option_bind] in H. destruct (Z.ltb_spec (Z.of_nat (length sep)) (2 ^ 31)); [|done]. injection H as <- <-.
    destruct (focus s st ls fl id v R Ev) as (sb & l & -> & Hl & [B1 B2 B3 B4] & Ho).
    destruct (lreadline_spec _ fl sb l _ _ check sep B1 Ho) as (sb' & w' & -> & Hb); [by rewrite <- B2|done|done|]. rewrite <- B2, B3 in *. rewrite bind_Ret. eexists. split; [done|].
    pose proof (line_size_le check sep v). apply (unfocus_size s st ls fl id sb _ sb' w' _ R Hb); [|lia]. by rewrite consume_length.
  - destruct (st_buffers st !! id) as [v|] eqn:Ev; [|done]. injection H as <- <-. destruct (focus s st ls fl id v R Ev) as (sb & l & -> & Hl & [B1 B2 B3 B4] & Ho).
    pose proof (owns_bound _ _ _ _ Ho) as Hn. rewrite length_app in Hn. unfold lreadall.
    destruct (readall_loop_spec l (pop_fuel (so_world s)) _ sb fl _ _ ltac:(unfold pop_fuel; lia) B1 Ho) as (sb' & w' & -> & Hb). rewrite !bind_Ret, <- B2. eexists. split; [done|].
    apply (unfocus_size s st ls fl id sb 0 _ w' _ R); [by apply become_size|done|done].
  - destruct (st_buffers st !! id) as [v|] eqn:Ev; [|done]. injection H as <- <-. destruct (focus s st ls fl id v R Ev) as (sb & l & -> & Hl & [B1 B2 B3 B4] & Ho).
    pose proof (owns_bound _ _ _ _ Ho) as Hn. rewrite length_app in Hn. unfold lclearbuffer.
    destruct (clear_nodes_spec l (pop_fuel (so_world s)) _ sb fl _ _ ltac:(unfold pop_fuel; lia) B1 Ho) as (sb' & w' & -> & Hb). rewrite !bind_Ret. eexists. split; [done|].
    apply (unfocus_size s st ls fl id sb 0 _ w' _ R); [by apply become_size|done|done].
  - destruct (st_loose st !! msg) as [d|] eqn:Ed; [|done]. injection H as <- <-. unfold ldrop. cbn [free_block]. rewrite (rs_loose _ _ _ _ R _ _ Ed). cbn [deref]. rewrite !bind_Ret.
    eexists. split; [done|]. pose proof (rs_owns _ _ _ _ R) as Ho. unfold loose_of in Ho. rewrite (loose_delete _ _ _ Ed) in Ho.
    apply (heap_repr s st ls fl); [done|by apply drop_owns| |].
    + intros p Hp. apply lookup_delete_ne. intros ->. pose proof (ow_blocks _ _ _ _ Ho) as Hn. apply NoDup_app in Hn as (_ & Hn & _).
      apply (Hn (pc_block p)); [by apply list_elem_of_fmap_2|by left].
    + intros a b Hab. apply lookup_delete_Some in Hab as [Hne Hab]. rewrite lookup_delete_ne by done. by apply (rs_loose _ _ _ _ R).
  - case_bool_decide as Hu; [done|]. destruct (st_loose st !! msg) as [d|] eqn:Ed; [done|]. injection H as <- <-. eexists. split; [done|].
    assert (w_heap (so_world s) !! msg = None) as Hm.
    { apply eq_None_not_Some. intros Hs. apply (ow_heap _ _ _ _ (rs_owns _ _ _ _ R)) in Hs. apply elem_of_app in Hs as [Hs|Hs]; [by rewrite (pieces_unread s st ls fl msg R) in Hs|].
      apply list_elem_of_fmap in Hs as ([a b] & -> & Hs%elem_of_map_to_list). cbn in *. by rewrite Ed in Hs. }
    apply (heap_repr s st ls fl); [done| | |].
    + rewrite map_to_list_insert by done. apply arrive_owns; [apply R|done].
    + intros p Hp. apply lookup_insert_ne. intros ->. assert (is_Some (w_heap (so_world s) !! pc_block p)) as [? E].
      { apply (ow_heap _ _ _ _ (rs_owns _ _ _ _ R)), elem_of_app. left. by apply list_elem_of_fmap_2. } by rewrite Hm in E.
    + intros a b. destruct (decide (a = msg)) as [->|]; [by rewrite !lookup_insert_eq|]. rewrite !lookup_insert_ne by done. apply (rs_loose _ _ _ _ R).
Qed.

Lemma calls_step cs : forall s st answers st', repr s st -> spec_calls cs st = Some (answers, st') -> exists s', run_calls cs s = Ret (answers, s') /\ repr s' st'.
Proof.
  induction cs as [|c cs IH]; intros s st answers st' R H; cbn [spec_calls run_calls] in *; [injection H as <- <-; by exists s|].
  destruct (spec_call c st) as [[a st1]|] eqn:E; [|done]. cbn [mbind option_bind] in H. destruct (spec_calls cs st1) as [[l st2]|] eqn:E2; [|done]. injection H as <- <-.
  destruct (call_step s st c a st1 R E) as (s1 & -> & R1). rewrite bind_Ret. destruct (IH s1 st1 l st2 R1 E2) as (s2 & -> & R2). rewrite bind_Ret. by exists s2.
Qed.

Lemma repr_zero : repr sockets_zero store_zero.
Proof.
  exists ∅, []. split; [by intros id l; rewrite lookup_empty| |split|by intros a b]; cbn; try done.
  - by constructor.
  - by intros p ?%elem_of_nil.
  - by constructor.
  - intros a. rewrite lookup_empty. split; [by intros []|by intros ?%elem_of_nil].
  - intros c i. rewrite lookup_empty. split; [by intros []|by intros (? & ? & _)].
Qed.

(** ** The end of the pool *)

(** One round of the loop of [lfreepool]. *)
Definition free_one (q : node_ptr) (w : world) : outcome world :=
  x ← get_node w q;
  match bn_msg x with
  | None => Ret w
  | Some _ => w ← free_block (bn_msg x) w; set_node q (BufferNode None (bn_sz x) (bn_next x)) w
  end.

Lemma free_one_spec w fl ps loose q : owns w fl ps loose -> is_Some (w_nodes w !! q) ->
  exists w' ps', free_one q w = Ret w' /\ owns w' fl ps' loose /\ (forall p, p ∈ ps' -> p ∈ ps /\ pc_node p <> q) /\ w_chunks w' = w_chunks w.
Proof.
  intros Ho [x Hx]. unfold free_one. rewrite (get_node_known _ _ _ Hx), bind_Ret. destruct Ho as [O1 O2 O3 O4 O5 O6 O7]. destruct (bn_msg x) as [b|] eqn:Em.
  - destruct (O6 q x Hx) as (p & Hp & Eq & Ep); [by rewrite Em|]. assert (b = pc_block p) as -> by congruence. clear Ep.
    apply list_elem_of_split in Hp as (l1 & l2 & Eps). assert (ps ≡ₚ p :: (l1 ++ l2)) as Hperm by (by rewrite Eps, Permutation_middle). clear Eps. set (ps' := l1 ++ l2) in *.
    cbn [free_block]. assert (is_Some (w_heap w !! pc_block p)) as [d Hd] by (apply O5; rewrite Hperm; by left). rewrite Hd. cbn [deref]. rewrite !bind_Ret.
    rewrite (set_node_known _ q x) by done. rewrite Hperm in O2, O4. cbn [fmap list_fmap app] in *. pose proof O2 as O2'. rewrite <- Permutation_middle in O2'.
    apply NoDup_cons in O2' as [Hq O2'], O4 as [Ha O4]. rewrite Eq in Hq. eexists _, ps'. split; [done|]. split; [|split; [|done]].
    + split; cbn [with_nodes with_heap w_nodes w_heap w_free w_chunks]; [|done| |done| | |].
      * apply (free_list_same w); [|done]. intros r Hr. apply lookup_insert_ne. intros ->. apply Hq, elem_of_app. by left.
      * intros r Hr. rewrite lookup_insert_ne; [apply O3; rewrite Hperm; by right|]. intros ->. apply Hq, elem_of_app. right. by apply list_elem_of_fmap_2.
      * intros a. destruct (decide (a = pc_block p)) as [->|]; [rewrite lookup_delete_eq; split; [by intros []|done]|].
        rewrite lookup_delete_ne, O5, Hperm by done. cbn. rewrite elem_of_cons. split; [by intros [?|?]|by right].
      * intros r y Hr Hy. destruct (decide (r = q)) as [->|]; [rewrite lookup_insert_eq in Hr; injection Hr as <-; by destruct Hy|].
        rewrite lookup_insert_ne in Hr by done. destruct (O6 r y Hr Hy) as (z & Hz & Ez & E2). exists z. split; [|done]. rewrite Hperm in Hz. apply elem_of_cons in Hz as [->|]; [congruence|done].
      * intros c i. destruct (decide ((c, i) = q)) as [E|]; [|by rewrite lookup_insert_ne]. rewrite E, lookup_insert_eq, <- O7, E, Hx. split; intros _; by eexists.
    + intros r Hr. rewrite Hperm. split; [by right|]. intros <-. apply Hq, elem_of_app. right. by apply list_elem_of_fmap_2.
  - exists w, ps. split; [done|]. split; [done|]. split; [|done]. intros p Hp. split; [done|]. intros <-. destruct (O3 p Hp) as (y & Hy & Ey). congruence.
Qed.

Lemma lfreepool_loop c l : forall w fl ps loose, owns w fl ps loose -> (forall i, i ∈ l -> is_Some (w_nodes w !! (c, i))) ->
  exists w' ps', foldl (fun o i => w ← o; free_one (c, i) w) (Ret w) l = Ret w' /\ owns w' fl ps' loose /\
    (forall p, p ∈ ps' -> p ∈ ps /\ forall i, i ∈ l -> pc_node p <> (c, i)) /\ w_chunks w' = w_chunks w.
Proof.
  induction l as [|i l IH]; intros w fl ps loose Ho Hl; cbn [foldl].
  - exists w, ps. split; [done|]. split; [done|]. split; [|done]. intros p Hp. split; [done|]. by intros i ?%elem_of_nil.
  - destruct (free_one_spec w fl ps loose (c, i) Ho ltac:(apply Hl; by left)) as (w1 & ps1 & E & Ho1 & Hps1 & Ec). rewrite bind_Ret, E.
    destruct (IH w1 fl ps1 loose Ho1) as (w' & ps' & -> & Ho' & Hps' & Ec').
    { intros j Hj. apply (ow_chunks _ _ _ _ Ho1). rewrite Ec. apply (ow_chunks _ _ _ _ Ho), Hl. by right. }
    exists w', ps'. split; [done|]. split; [done|]. split; [|congruence]. intros p Hp. destruct (Hps' p Hp) as [H1 H2], (Hps1 p) as [H3 H4]; [by apply Hps'|].
    split; [done|]. intros j [->|Hj]%elem_of_cons; [done|by apply H2].
Qed.

Lemma lfreepool_spec w fl ps loose c : owns w fl ps loose -> (c < length (w_chunks w))%nat ->
  exists w' ps', lfreepool c w = Ret w' /\ owns w' fl ps' loose /\ (forall p, p ∈ ps' -> p ∈ ps /\ (pc_node p).1 <> c) /\ w_chunks w' = w_chunks w.
Proof.
  intros Ho Hc. apply lookup_lt_is_Some_2 in Hc as [sz Hsz]. unfold lfreepool. rewrite Hsz. cbn [deref]. rewrite bind_Ret.
  destruct (lfreepool_loop c (seqZ 0 sz) w fl ps loose Ho) as (w' & ps' & E & Ho' & Hps & Ec).
  { intros i Hi%elem_of_seqZ. apply (ow_chunks _ _ _ _ Ho). exists sz. split; [done|lia]. }
  exists w', ps'. split; [exact E|]. split; [done|]. split; [|done]. intros p Hp. destruct (Hps p Hp) as [H1 H2]. split; [done|]. intros E2.
  destruct (ow_held _ _ _ _ Ho' p Hp) as (x & Hx & _). destruct (pc_node p) as [c' i] eqn:En. cbn in E2. subst c'.
  assert (is_Some (w_nodes w' !! (c, i))) as (n & En' & Hi)%(ow_chunks _ _ _ _ Ho') by by eexists. rewrite Ec, Hsz in En'. injection En' as <-.
  apply (H2 i); [|done]. apply elem_of_seqZ. lia.
Qed.

(** The collector takes all chunks of the pool. *)
Definition close_pool (w : world) : outcome world := foldl (fun o c => w ← o; lfreepool c w) (Ret w) (seq 0 (length (w_chunks w))).

Lemma close_loop l : forall w fl ps loose, owns w fl ps loose -> (forall c, c ∈ l -> (c < length (w_chunks w))%nat) ->
  exists w' ps', foldl (fun o c => w ← o; lfreepool c w) (Ret w) l = Ret w' /\ owns w' fl ps' loose /\
    (forall p, p ∈ ps' -> p ∈ ps /\ ((pc_node p).1 ∉ l)).
Proof.
  induction l as [|c l IH]; intros w fl ps loose Ho Hl; cbn [foldl].
  - exists w, ps. split; [done|]. split; [done|]. intros p Hp. split; [done|apply not_elem_of_nil].
  - destruct (lfreepool_spec w fl ps loose c Ho ltac:(apply Hl; by left)) as (w1 & ps1 & E & Ho1 & Hps1 & Ec). rewrite bind_Ret, E.
    destruct (IH w1 fl ps1 loose Ho1) as (w' & ps' & -> & Ho' & Hps'); [intros d Hd; rewrite Ec; apply Hl; by right|].
    exists w', ps'. split; [done|]. split; [done|]. intros p Hp. destruct (Hps' p Hp) as [H1 H2], (Hps1 p) as [H3 H4]; [by apply Hps'|].
    split; [done|]. rewrite not_elem_of_cons. done.
Qed.

Lemma close_pool_spec s st : repr s st -> exists w, close_pool (so_world s) = Ret w /\ forall a, is_Some (w_heap w !! a) <-> is_Some (st_loose st !! a).
Proof.
  intros (ls & fl & R). pose proof (rs_owns _ _ _ _ R) as Ho. unfold close_pool. destruct (close_loop (seq 0 (length (w_chunks (so_world s)))) _ fl _ _ Ho) as (w & ps & E & Ho' & Hps).
  { intros c Hc%elem_of_seq. lia. }
  exists w. split; [done|]. assert (ps = []) as ->.
  { destruct ps as [|p ps]; [done|]. destruct (Hps p) as [H1 H2]; [by left|]. destruct H2. destruct (ow_held _ _ _ _ Ho p H1) as (x & Hx & _).
    destruct (pc_node p) as [c i]. assert (is_Some (w_nodes (so_world s) !! (c, i))) as (n & En & _)%(ow_chunks _ _ _ _ Ho) by by eexists.
    apply lookup_lt_Some in En. apply elem_of_seq. cbn. lia. }
  intros a. rewrite (ow_heap _ _ _ _ Ho'). cbn. unfold loose_of. rewrite list_elem_of_fmap. split.
  - intros ([b d] & -> & H%elem_of_map_to_list). by exists d.
  - intros [d H]. exists (a, d). by rewrite elem_of_map_to_list.
Qed.

(** ** The theorem *)

(** C17: The socket buffers of all sockets of a script, which share a pool of nodes, are streams of
    bytes: in any sequence of calls that keeps to the rules, what is popped, read as a line up to the first
    separator, wherever the borders of messages are, or read as the rest is the data in the order in which it was
    pushed; the blocks of memory that are allocated are at any time those that have unread bytes or
    were not pushed; and when the collector takes the pool, it frees those in buffers, each once. *)
Theorem socket_buffer_refinement cs answers st : spec_calls cs store_zero = Some (answers, st) ->
  exists s, run_calls cs sockets_zero = Ret (answers, s) /\ (forall a, is_Some (w_heap (so_world s) !! a) <-> live st a) /\
    exists w, close_pool (so_world s) = Ret w /\ forall a, is_Some (w_heap w !! a) <-> is_Some (st_loose st !! a).
Proof.
  intros H. destruct (calls_step cs _ _ answers st repr_zero H) as (s & E & R). exists s. split; [done|]. split; [intros a; by apply repr_live|by apply close_pool_spec].
Qed.

Module Script.
Definition calls : list call :=
  [CNew 1; CNew 2; CArrive 100 (str "GET / HT"); CPush 1 100 8; CArrive 200 (str "xyz"); CPush 2 200 3; CArrive 300 (str "TP") ; CPush 1 300 2;
   CArrive 400 [13; 10; 65; 66]; CPush 1 400 4; CReadline 1 true [13; 10]; CReadline 1 false (str "/ H"); CReadline 1 false [13; 10]; CPop 1 3; CPop 1 1; CReadall 2].
End Script.

Lemma socket_buffer_refinement_witness : exists answers st s, spec_calls Script.calls store_zero = Some (answers, st) /\ run_calls Script.calls sockets_zero = Ret (answers, s) /\
  answers !! 12%nat = Some (ALine (LLine (str "TTP"))) /\ forall a, is_Some (w_heap (so_world s) !! a) <-> live st a.
Proof.
  eexists _, _. assert (spec_calls Script.calls store_zero = Some (_, _)) as H by (vm_compute; reflexivity).
  destruct (socket_buffer_refinement _ _ _ H) as (s & E & L & _). exists s. split; [exact H|]. split; [exact E|]. split; [reflexivity|exact L].
Defined.

