(* ===== verification/LuaSocketArgs.v ===== *)
(** The conversions of the arguments of [lualib-src/lua-socket.c]: data to send, and addresses. *)
From S2P Require Import Prelude Cstr LuaSocket.

(** ** Tables of strings *)

Lemma concat_fits l : forall buffer ptr tlen, 0 <= ptr -> 0 <= tlen -> ptr + tlen = Z.of_nat (length buffer) ->
  exists b k, concat_strings l buffer ptr tlen = Ret (b, k) /\ 0 <= k <= tlen /\ length b = length buffer.
Proof.
  induction l as [|[s|] l IH]; intros buffer ptr tlen Hp Ht Hl; cbn [concat_strings]; [by exists buffer, tlen| |by exists buffer, tlen].
  destruct (Z.ltb_spec tlen (Z.of_nat (length s))); [by exists buffer, tlen|]. rewrite memcpy_ok, bind_Ret by lia.
  set (b1 := _ ++ _ ++ _). assert (length b1 = length buffer) as E by (unfold b1; rewrite !length_app, !length_take, length_drop; lia).
  destruct (IH b1 (ptr + Z.of_nat (length s)) (tlen - Z.of_nat (length s))) as (b & k & -> & Hk & Eb); [lia|lia|lia|]. exists b, k. split; [done|]. split; [lia|congruence].
Qed.

Lemma concat_strings_all ls : forall done rest, length rest = length (concat ls) ->
  concat_strings (Some <$> ls) (done ++ rest) (Z.of_nat (length done)) (Z.of_nat (length rest)) = Ret (done ++ concat ls, 0).
Proof.
  induction ls as [|s ls IH]; intros dn rest Hr; cbn [fmap list_fmap concat_strings concat] in *; [by destruct rest|].
  rewrite length_app in Hr. rewrite (proj2 (Z.ltb_ge _ _)) by lia. rewrite memcpy_ok, bind_Ret by (rewrite ?length_app; lia).
  rewrite !Nat2Z.id, take_app_length, firstn_all. replace (Z.to_nat (Z.of_nat (length dn) + Z.of_nat (length s))) with (length dn + length s)%nat by lia.
  rewrite drop_app_add. rewrite app_assoc. replace (Z.of_nat (length dn) + Z.of_nat (length s)) with (Z.of_nat (length (dn ++ s))) by (rewrite length_app; lia).
  replace (Z.of_nat (length rest) - Z.of_nat (length s)) with (Z.of_nat (length (drop (length s) rest))) by (rewrite length_drop; lia).
  rewrite IH by (rewrite length_drop; lia). by rewrite <- app_assoc.
Qed.

Lemma count_loop_all ls : forall n, 0 <= n -> n + Z.of_nat (length (concat ls)) < 2 ^ 64 -> count_strings (Some <$> ls) n = Ret (n + Z.of_nat (length (concat ls))).
Proof.
  induction ls as [|s ls IH]; intros n Hn Hl; cbn [fmap list_fmap count_strings concat] in *; [f_equal; cbn; lia|].
  rewrite length_app in *. rewrite u64_small by lia. rewrite IH by lia. f_equal. lia.
Qed.

Lemma count_loop_range l : forall n k, 0 <= n < 2 ^ 64 -> count_strings l n = Ret k -> 0 <= k < 2 ^ 64.
Proof.
  induction l as [|[s|] l IH]; intros n k Hn; cbn [count_strings]; [by intros [=<-]| |done]. apply IH. apply Z.mod_pos_bound. lia.
Qed.

Section send.
Context (junk : Z -> bytes) (Hjunk : forall n, 0 <= n -> length (junk n) = Z.to_nat n).

(** Whatever a table answers when it is asked again, nothing is written behind the buffer. *)
Lemma get_buffer_safe a w : get_buffer junk a w <> Undefined.
Proof.
  destruct a as [p sz|counted copied|s]; cbn [get_buffer]; [done| |done]. unfold count_size.
  destruct (count_strings counted 0) as [n| | |] eqn:E; rewrite ?bind_Ret; [|done|done|].
  - apply count_loop_range in E; [|lia]. unfold concat_table. destruct (concat_fits copied (junk n) 0 n) as (b & k & -> & Hk & _); [lia|lia|rewrite Hjunk; lia|].
    rewrite bind_Ret. by destruct (negb _).
  - exfalso. revert E. generalize 0. induction counted as [|[s|] l IH]; intros m; cbn [count_strings]; [done|apply IH|done].
Qed.

(** A table of strings is sent as one block with their bytes. *)
Lemma get_buffer_table ls w : Z.of_nat (length (concat ls)) < 2 ^ 31 ->
  exists p w', get_buffer junk (STable (Some <$> ls) (Some <$> ls)) w = Ret (p, Z.of_nat (length (concat ls)), w') /\
    w_heap w !! p = None /\ w_heap w' !! p = Some (concat ls).
Proof.
  intros Hl. cbn [get_buffer]. unfold count_size. rewrite count_loop_all by lia. rewrite bind_Ret, Z.add_0_l. unfold concat_table.
  pose proof (concat_strings_all ls [] (junk (Z.of_nat (length (concat ls))))) as E. cbn [app length] in E. rewrite Hjunk, Nat2Z.id in E by lia. specialize (E eq_refl).
  change (Z.of_nat 0) with 0 in E. rewrite E. rewrite !bind_Ret. cbn [negb]. change (0 =? 0) with true. cbn [negb]. rewrite bind_Ret. unfold malloc_block. rewrite s32_small by lia.
  eexists _, _. split; [done|]. cbn. split; [|apply lookup_insert_eq]. apply not_elem_of_dom, is_fresh.
Qed.
End send.

(** ** Addresses *)

Lemma strchr_app s t c : c ∉ s -> strchr (s ++ c :: t) c = Some (c :: t).
Proof.
  induction s as [|x s IH]; intros Hs; cbn [app strchr]; [by rewrite Z.eqb_refl|]. apply not_elem_of_cons in Hs as [Hx Hs].
  rewrite (proj2 (Z.eqb_neq x c)) by congruence. by apply IH.
Qed.

Lemma strchr_none s c : c ∉ s -> strchr s c = None.
Proof. induction s as [|x s IH]; intros Hs; cbn; [done|]. apply not_elem_of_cons in Hs as [Hx Hs]. rewrite (proj2 (Z.eqb_neq x c)) by congruence. by apply IH. Qed.

Lemma until_zero_whole s : 0 ∉ s -> until_zero s = s.
Proof. induction s as [|x s IH]; intros Hs; cbn; [done|]. apply not_elem_of_cons in Hs as [Hx Hs]. rewrite (proj2 (Z.eqb_neq x 0)) by congruence. by rewrite IH. Qed.

Lemma until_zero_app s t : 0 ∉ s -> until_zero (s ++ 0 :: t) = s.
Proof. induction s as [|x s IH]; intros Hs; cbn; [done|]. apply not_elem_of_cons in Hs as [Hx Hs]. rewrite (proj2 (Z.eqb_neq x 0)) by congruence. by rewrite IH. Qed.

Lemma copy_host_spec tmp host rest : 0 ∉ host -> (length host < length tmp)%nat -> copy_host tmp (host ++ rest) (Z.of_nat (length host)) = Ret host.
Proof.
  intros H0 Hl. unfold copy_host. rewrite memcpy_ok, bind_Ret by (rewrite ?length_app; lia). cbn [take app]. change (take (Z.to_nat 0) tmp) with (@nil Z). cbn [app].
  rewrite Nat2Z.id, take_app_length, Z.add_0_l, Nat2Z.id. rewrite arr_set_Ret by (rewrite length_app, length_drop; lia). rewrite bind_Ret, Nat2Z.id.
  destruct (drop (length host) tmp) as [|x t] eqn:E; [apply (f_equal length) in E; rewrite length_drop in E; cbn in E; lia|].
  rewrite insert_app_r_alt, Nat.sub_diag by done. cbn. by rewrite until_zero_app.
Qed.

Lemma digit_in_10 : forall d, 0 <= d < 10 -> digit_in 10 (hex_digit d) = Some d /\ isspace (hex_digit d) = false /\ hex_digit d <> 45 /\ hex_digit d <> 43.
Proof.
  intros d Hd. assert (d ∈ seqZ 0 10) as H by (apply elem_of_seqZ; lia). revert d H Hd.
  apply (Forall_forall (fun d => 0 <= d < 10 -> digit_in 10 (hex_digit d) = Some d /\ isspace (hex_digit d) = false /\ hex_digit d <> 45 /\ hex_digit d <> 43)).
  repeat (apply Forall_cons; split; [by intros _; vm_compute|]). constructor.
Qed.

Lemma parse_decimal s : forall acc any, Forall (fun c => 0 <= c < 10) s ->
  parse_digits 10 (hex_digit <$> s) acc any = (foldl (fun a d => a * 10 + d) acc s, any || negb (bool_decide (s = [])), []).
Proof.
  induction s as [|d s IH]; intros acc any Hs; cbn [fmap list_fmap parse_digits foldl]; [by rewrite orb_false_r|].
  apply Forall_cons in Hs as [Hd Hs]. destruct (digit_in_10 d Hd) as [-> _]. rewrite IH by done. cbn. by rewrite orb_true_r.
Qed.

Lemma strtoul_fmt_u n : 0 <= n < 2 ^ 64 -> strtoul (fmt_u n) 10 = (n, []).
Proof.
  intros Hn. unfold fmt_u. destruct (to_digits_spec 64 10 n) as (Ha & Hne & He); [lia| |lia|].
  { split; [lia|]. eapply Z.lt_le_trans; [apply Hn|]. vm_compute. discriminate. }
  destruct (to_digits 64 10 n) as [|d s]; [done|]. pose proof Ha as Ha'. apply Forall_cons in Ha as [Hd Hs].
  destruct (digit_in_10 d Hd) as (H1 & H2 & H3 & H4). unfold strtoul, parse_number. cbn [fmap list_fmap skip_space].
  rewrite H2, (proj2 (Z.eqb_neq _ _) H3), (proj2 (Z.eqb_neq _ _) H4). fold (hex_digit <$> s).
  assert (parse_prefix 10 (hex_digit d :: (hex_digit <$> s)) = (10, hex_digit d :: (hex_digit <$> s))) as ->.
  { unfold parse_prefix. destruct (_ =? 48); [|done]. destruct (hex_digit <$> s) as [|x [|c t]]; [done|done|]. by rewrite andb_false_r. }
  change (hex_digit d :: (hex_digit <$> s)) with (hex_digit <$> d :: s). rewrite (parse_decimal (d :: s) 0 false Ha'), He. change (false || negb (bool_decide (d :: s = []))) with true. cbv beta iota. rewrite (proj2 (Z.ltb_ge _ _)) by lia. done.
Qed.

Lemma fmt_u_plain n c : 0 <= n < 2 ^ 64 -> c ∈ fmt_u n -> 48 <= c < 58.
Proof.
  intros Hn. unfold fmt_u. destruct (to_digits_spec 64 10 n) as (Ha & _ & _); [lia| |lia|].
  { split; [lia|]. eapply Z.lt_le_trans; [apply Hn|]. vm_compute. discriminate. }
  intros (d & -> & Hd)%list_elem_of_fmap. rewrite Forall_forall in Ha. specialize (Ha d Hd). unfold hex_digit. zcases.
Qed.

(** C40: A host and a port that are written as one address, in brackets when the host has colons, are
    the host and the port that are connected to. *)
Theorem address_port_roundtrip tmp host port : 0 <= port < 65536 -> 0 ∉ host -> 91 ∉ host ->
  (58 ∉ host -> length tmp = length (host ++ str ":" ++ fmt_u port) -> address_port tmp (host ++ str ":" ++ fmt_u port) None = Ret (host, port)) /\
  (93 ∉ host -> length tmp = length (str "[" ++ host ++ str "]:" ++ fmt_u port) -> address_port tmp (str "[" ++ host ++ str "]:" ++ fmt_u port) None = Ret (host, port)).
Proof.
  intros Hp H0 H91. assert (forall c, (c < 48 \/ 58 <= c) -> c ∉ fmt_u port) as Hu.
  { intros c Hc E%fmt_u_plain; lia. }
  assert (strtoul (fmt_u port) 10 = (port, [])) as Es by (apply strtoul_fmt_u; lia). split.
  - intros H58 Hl. unfold address_port. change (str ":") with [58] in *. rewrite until_zero_whole.
    2: { rewrite !not_elem_of_app. split; [done|]. split; [by rewrite list_elem_of_singleton|]. apply Hu. lia. }
    rewrite strchr_none. 2: { rewrite !not_elem_of_app. split; [done|]. split; [by rewrite list_elem_of_singleton|]. apply Hu. lia. }
    cbn [app]. rewrite (strchr_app host (fmt_u port) 58) by done. unfold ptr_diff.
    replace (Z.of_nat (length (host ++ 58 :: fmt_u port)) - Z.of_nat (length (58 :: fmt_u port))) with (Z.of_nat (length host)) by (rewrite length_app; lia).
    rewrite copy_host_spec, bind_Ret by (try done; rewrite Hl, length_app; cbn; lia). cbn [drop]. rewrite drop_0, Es. cbn. by rewrite s32_small by lia.
  - intros H93 Hl. unfold address_port. change (str "[") with [91] in *. change (str "]:") with [93; 58] in *. rewrite until_zero_whole.
    2: { rewrite !not_elem_of_app. split; [by rewrite list_elem_of_singleton|]. split; [done|]. split; [|apply Hu; lia]. rewrite !elem_of_cons. by intros [?|[?|?%elem_of_nil]]. }
    cbn [app]. cbn [strchr]. change (91 =? 91) with true. change (91 =? 93) with false. cbv beta iota. cbn [drop]. rewrite drop_0.
    rewrite (strchr_app host (58 :: fmt_u port) 93) by done. unfold ptr_diff.
    replace (Z.of_nat (length (host ++ 93 :: 58 :: fmt_u port)) - Z.of_nat (length (93 :: 58 :: fmt_u port))) with (Z.of_nat (length host)) by (rewrite length_app; lia).
    rewrite copy_host_spec, bind_Ret by (try done; rewrite Hl; cbn; rewrite length_app; cbn; lia). cbn [drop strchr]. change (58 =? 58) with true. cbv beta iota.
    cbn [drop]. rewrite ?drop_0, Es. cbn. by rewrite s32_small by lia.
Qed.

Lemma address_port_roundtrip_witness : address_port (replicate 14 0) (str "127.0.0.1:8888") None = Ret (str "127.0.0.1", 8888) /\
  address_port (replicate 10 0) (str "[::1]:8888") None = Ret (str "::1", 8888).
Proof.
  split.
  - apply (proj1 (address_port_roundtrip (replicate 14 0) (str "127.0.0.1") 8888 ltac:(lia) ltac:(vm_compute; set_solver) ltac:(vm_compute; set_solver))); [vm_compute; set_solver|done].
  - apply (proj2 (address_port_roundtrip (replicate 10 0) (str "::1") 8888 ltac:(lia) ltac:(vm_compute; set_solver) ltac:(vm_compute; set_solver))); [vm_compute; set_solver|done].
Defined.
