(* ===== verification/Stm.v ===== *)
(** Objects shared between services, [lualib-src/lua-stm.c]: a writer replaces the value, readers
    hold copies; who still needs what is counted. Threads interleave between the atomic operations. *)
From S2P Require Import Prelude Locks.

(** ** Data *)

Record stm_copy := StmCopy { c_reference : Z; c_msg : bytes }.

(** The lock is seen as [Locks.Rw] proves it: how many read, and whether one writes. *)
Record stm_object := StmObject { o_readers : Z; o_write : bool; o_reference : Z; o_copy : option Z }.

(** What is done after [stm_releasecopy]. *)
Inductive cont :=
  | KReader (last : option Z)    (* lread: the copy of the reader is [last] *)
  | KUse (last : Z)              (* lread: and it is new *)
  | KWriter                      (* stm_update *)
  | KNull                        (* stm_release *)
  | KEnd.                        (* ldeletereader *)

(** What a thread does next. *)
Inductive pc :=
  | WReady                       (* the writer is not in a call *)
  | WUpdate (c : Z)              (* stm_update: rwlock_wlock, with the new copy *)
  | WSwap (c : Z)                (* obj->copy = copy *)
  | WUnlock (old : option Z)     (* rwlock_wunlock *)
  | WGrabInc                     (* stm_grab: ATOM_FINC(&obj->reference) *)
  | WGrabUnlock (ref : Z)        (* rwlock_runlock, assert(ref > 0) *)
  | WRelease                     (* stm_release: rwlock_wlock *)
  | WReleaseCopy                 (* stm_releasecopy(obj->copy) *)
  | WNull                        (* obj->copy = NULL *)
  | WCount                       (* --obj->reference *)
  | WUnlockEnd                   (* rwlock_wunlock *)
  | WFree                        (* skynet_free(obj) *)
  | WEnd
  | RReady (last : option Z)     (* a reader with its lastcopy *)
  | RCopy (last : option Z)      (* stm_copy: ret = obj->copy *)
  | RInc (last : option Z) (c : Z)          (* ATOM_FINC(&ret->reference) *)
  | RUnlock (last ret : option Z)           (* rwlock_runlock *)
  | RUse (c : Z)                 (* the function that was given to lread gets the data *)
  | RDec (last : option Z)       (* stm_releasereader: ATOM_DEC(&obj->reference) *)
  | RUnlockEnd (last : option Z) (* rwlock_runlock *)
  | RFree (last : option Z)      (* assert(obj->copy == NULL); skynet_free(obj) *)
  | PDec (c : option Z) (k : cont)  (* stm_releasecopy: ATOM_DEC(&copy->reference) *)
  | PFree (c : Z) (k : cont)     (* skynet_free(copy) *)
  | PEnd.

(** A thread, with the data that its last read gave. *)
Record thread := Thread { t_pc : pc; t_read : option bytes }.

(** The memory of the object and its copies, and the threads. *)
Record state := State { st_obj : option stm_object; st_copies : gmap Z stm_copy; st_threads : list thread }.

(** Which call a thread makes that is not in one. *)
Inductive action := AUpdate (c : Z) (msg : bytes) | AGrab | ARelease | ARead | ADelete | ANext.

(** ** The steps *)

(** A step of a program: the thread goes on at a place, or waits for the lock. *)
Definition M (A : Type) : Type := state -> outcome (option (A * state)).

#[export] Instance m_ret : MRet M := fun A a s => Ret (Some (a, s)).
#[export] Instance m_bind : MBind M := fun A B f m s =>
  match m s with
  | Ret (Some (a, s)) => f a s
  | Ret None => Ret None
  | AssertFail => AssertFail
  | LuaError e => LuaError e
  | Undefined => Undefined
  end.

Definition waits {A} : M A := fun s => Ret None.
Definition asserts (b : bool) : M unit := fun s => if b then Ret (Some (tt, s)) else AssertFail.

(** [*obj], [*copy] *)
Definition get_obj : M stm_object := fun s => o ← deref (st_obj s); Ret (Some (o, s)).
Definition put_obj (o : option stm_object) : M unit := fun s => Ret (Some (tt, State o (st_copies s) (st_threads s))).
Definition get_copy (c : Z) : M stm_copy := fun s => x ← deref (st_copies s !! c); Ret (Some (x, s)).
Definition put_copies (f : gmap Z stm_copy -> gmap Z stm_copy) : M unit := fun s => Ret (Some (tt, State (st_obj s) (f (st_copies s)) (st_threads s))).

(** The pointer [c] that [skynet_malloc] gives is not in use. *)
Definition stm_newcopy (c : Z) (msg : bytes) : M unit := fun s =>
  match st_copies s !! c with
  | Some _ => Ret None
  | None => Ret (Some (tt, State (st_obj s) (<[c := StmCopy 1 msg]> (st_copies s)) (st_threads s)))
  end.

Definition rwlock_rlock : M unit :=
  o ← get_obj;
  if o_write o then waits else put_obj (Some (StmObject (o_readers o + 1) false (o_reference o) (o_copy o))).

Definition rwlock_runlock : M unit :=
  o ← get_obj; put_obj (Some (StmObject (o_readers o - 1) (o_write o) (o_reference o) (o_copy o))).

Definition rwlock_wlock : M unit :=
  o ← get_obj;
  if o_write o || negb (o_readers o =? 0) then waits else put_obj (Some (StmObject (o_readers o) true (o_reference o) (o_copy o))).

Definition rwlock_wunlock : M unit :=
  o ← get_obj; put_obj (Some (StmObject (o_readers o) false (o_reference o) (o_copy o))).

(** The reference count of the object becomes [r + n]; the result is the old count. *)
Definition add_reference (n : Z) : M Z :=
  o ← get_obj; _ ← put_obj (Some (StmObject (o_readers o) (o_write o) (o_reference o + n) (o_copy o))); mret (o_reference o).

Definition set_copy (c : option Z) : M unit :=
  o ← get_obj; put_obj (Some (StmObject (o_readers o) (o_write o) (o_reference o) c)).

Definition add_copy (c n : Z) : M Z :=
  x ← get_copy c; _ ← put_copies <[c := StmCopy (c_reference x + n) (c_msg x)]>; mret (c_reference x).

(** Where a thread goes on after [stm_releasecopy]. *)
Definition after (k : cont) : pc :=
  match k with KReader last => RReady last | KUse c => RUse c | KWriter => WReady | KNull => WNull | KEnd => PEnd end.

(** The step of [stm_releasecopy] at its beginning, and the one that frees the copy. *)
Definition stm_releasecopy (c : option Z) (k : cont) : M pc :=
  match c with
  | None => mret (after k)
  | Some c => r ← add_copy c (-1); mret (if r - 1 =? 0 then PFree c k else after k)
  end.

Definition free_copy (c : Z) (k : cont) : M pc :=
  _ ← get_copy c; _ ← put_copies (delete c); mret (after k).

(** [lread] compares the new copy with the last one. *)
Definition after_copy (last ret : option Z) : pc :=
  if bool_decide (ret = last) then PDec ret (KReader last)
  else PDec last (match ret with Some c => KUse c | None => KReader None end).

(** A step of a thread: where it goes on, and a thread that it starts with a new reader. *)
Definition thread_step (p : pc) (a : action) : M (pc * option pc * option bytes) :=
  let go p := mret (p, None, None) in
  match p, a with
  | WReady, AUpdate c msg => _ ← stm_newcopy c msg; go (WUpdate c)
  | WReady, AGrab => _ ← rwlock_rlock; go WGrabInc
  | WReady, ARelease => o ← get_obj; _ ← asserts (bool_decide (is_Some (o_copy o))); go WRelease
  | WUpdate c, ANext => _ ← rwlock_wlock; go (WSwap c)
  | WSwap c, ANext => o ← get_obj; _ ← set_copy (Some c); go (WUnlock (o_copy o))
  | WUnlock old, ANext => _ ← rwlock_wunlock; go (PDec old KWriter)
  | WGrabInc, ANext => ref ← add_reference 1; go (WGrabUnlock ref)
  | WGrabUnlock ref, ANext => _ ← rwlock_runlock; _ ← asserts (0 <? ref); mret (WReady, Some (RReady None), None)
  | WRelease, ANext => _ ← rwlock_wlock; go WReleaseCopy
  | WReleaseCopy, ANext => o ← get_obj; p ← stm_releasecopy (o_copy o) KNull; go p
  | WNull, ANext => _ ← set_copy None; go WCount
  | WCount, ANext => r ← add_reference (-1); go (if 0 <? r - 1 then WUnlockEnd else WFree)
  | WUnlockEnd, ANext => _ ← rwlock_wunlock; go WEnd
  | WFree, ANext => _ ← get_obj; _ ← put_obj None; go WEnd
  | RReady last, ARead => _ ← rwlock_rlock; go (RCopy last)
  | RReady last, ADelete => _ ← rwlock_rlock; go (RDec last)
  | RCopy last, ANext => o ← get_obj; go (match o_copy o with None => RUnlock last None | Some c => RInc last c end)
  | RInc last c, ANext => ref ← add_copy c 1; _ ← asserts (0 <? ref); go (RUnlock last (Some c))
  | RUnlock last ret, ANext => _ ← rwlock_runlock; go (after_copy last ret)
  | RUse c, ANext => x ← get_copy c; mret (RReady (Some c), None, Some (c_msg x))
  | RDec last, ANext => r ← add_reference (-1); go (if r - 1 =? 0 then RFree last else RUnlockEnd last)
  | RUnlockEnd last, ANext => _ ← rwlock_runlock; go (PDec last KEnd)
  | RFree last, ANext => o ← get_obj; _ ← asserts (bool_decide (o_copy o = None)); _ ← put_obj None; go (PDec last KEnd)
  | PDec c k, ANext => p ← stm_releasecopy c k; go p
  | PFree c k, ANext => p ← free_copy c k; go p
  | _, _ => waits
  end.

(** Thread [i] makes a step; [Ret None] is a thread that waits or does not exist. *)
Definition step (i : nat) (a : action) (s : state) : outcome (option state) :=
  match st_threads s !! i with
  | None => Ret None
  | Some t =>
      match thread_step (t_pc t) a s with
      | Ret (Some ((p, new, seen), s)) =>
          let t := Thread p (match seen with Some v => Some v | None => t_read t end) in
          let ts := <[i := t]> (st_threads s) ++ match new with Some q => [Thread q None] | None => [] end in
          Ret (Some (State (st_obj s) (st_copies s) ts))
      | Ret None => Ret None
      | AssertFail => AssertFail
      | LuaError e => LuaError e
      | Undefined => Undefined
      end
  end.

(** [stm_new]: the copy [c] of the message, and the thread of the writer. *)
Definition stm_new (c : Z) (msg : bytes) : state :=
  State (Some (StmObject 0 false 1 (Some c))) {[c := StmCopy 1 msg]} [Thread WReady None].

Inductive reachable (c : Z) (msg : bytes) : state -> Prop :=
  | Reach_new : reachable c msg (stm_new c msg)
  | Reach_step s i a s' : reachable c msg s -> step i a s = Ret (Some s') -> reachable c msg s'.

(** Steps in a given order. *)
Fixpoint schedule (l : list (nat * action)) (s : state) : outcome (option state) :=
  match l with
  | [] => Ret (Some s)
  | (i, a) :: l => r ← step i a s; match r with Some s => schedule l s | None => Ret None end
  end.
