(* ===== verification/StmSafe.v ===== *)
(** The shared objects of [Stm] are safe: counts of who refers to what, in every interleaving. *)
From S2P Require Import Prelude Locks Stm.

(** ** Who holds what *)

Definition cnt (f : pc -> Z) (s : state) : Z := total (fun t => f (t_pc t)) (st_threads s).

Definition one (b : bool) : Z := if b then 1 else 0.

(** Inside the lock, for reading or for writing. *)
Definition inread (p : pc) : Z :=
  match p with RCopy _ | RInc _ _ | RUnlock _ _ | WGrabInc | WGrabUnlock _ | RDec _ | RUnlockEnd _ | RFree _ => 1 | _ => 0 end.
Definition inwrite (p : pc) : Z :=
  match p with WSwap _ | WUnlock _ | WReleaseCopy | PDec _ KNull | PFree _ KNull | WNull | WCount | WUnlockEnd | WFree => 1 | _ => 0 end.

(** References to the object. *)
Definition hasref (p : pc) : Z :=
  match p with
  | WGrabUnlock _ => 2
  | WUnlockEnd | WFree | WEnd | RUnlockEnd _ | RFree _ | PDec _ KEnd | PFree _ KEnd | PEnd => 0
  | _ => 1
  end.

(** About to free the object; about to unlock it without a reference. *)
Definition freeing (p : pc) : Z := match p with WFree | RFree _ => 1 | _ => 0 end.
Definition pending (p : pc) : Z := match p with RUnlockEnd _ => 1 | _ => 0 end.

(** The writer; while it has released the copy of the object; and after it. *)
Definition writer (p : pc) : Z :=
  match p with
  | WReady | WUpdate _ | WSwap _ | WUnlock _ | WGrabInc | WGrabUnlock _ | WRelease | WReleaseCopy | WNull | WCount | WUnlockEnd | WFree | WEnd
  | PDec _ KWriter | PFree _ KWriter | PDec _ KNull | PFree _ KNull => 1
  | _ => 0
  end.
Definition nulling (p : pc) : Z := match p with WNull | PDec _ KNull | PFree _ KNull => 1 | _ => 0 end.
Definition past (p : pc) : Z := match p with WCount | WUnlockEnd | WFree | WEnd => 1 | _ => 0 end.

(** References to the copy [c]; about to free it; about to count a new reference. *)
Definition at_ (c : Z) (o : option Z) : Z := one (bool_decide (o = Some c)).
Definition kept (c : Z) (k : cont) : Z := match k with KReader last => at_ c last | KUse d => at_ c (Some d) | _ => 0 end.
Definition holds (c : Z) (p : pc) : Z :=
  match p with
  | WUpdate d | WSwap d | RUse d => at_ c (Some d)
  | WUnlock o | RReady o | RCopy o | RInc o _ | RDec o | RUnlockEnd o | RFree o => at_ c o
  | RUnlock o r => at_ c o + at_ c r
  | PDec o k => at_ c o + kept c k
  | PFree _ k => kept c k
  | _ => 0
  end.
Definition frees (c : Z) (p : pc) : Z := match p with PFree d _ => at_ c (Some d) | _ => 0 end.
Definition incs (c : Z) (p : pc) : Z := match p with RInc _ d => at_ c (Some d) | _ => 0 end.

(** A count that was not positive. *)
Definition badref (p : pc) : Z := match p with WGrabUnlock r => one (r <=? 0) | _ => 0 end.

Definition objref (s : state) (c : Z) : Z :=
  match st_obj s with Some o => if cnt nulling s =? 0 then at_ c (o_copy o) else 0 | None => 0 end.

(** The object and its lock. *)
Definition obj_inv (s : state) : Prop :=
  match st_obj s with
  | Some o =>
      o_readers o = cnt inread s /\ cnt inwrite s = one (o_write o) /\ (cnt inwrite s = 0 \/ cnt inread s = 0) /\
      o_reference o = cnt hasref s /\ (cnt hasref s = 0 <-> cnt freeing s = 1) /\ (cnt hasref s <> 0 -> cnt freeing s = 0) /\
      cnt past s = one (bool_decide (o_copy o = None))
  | None => cnt hasref s = 0 /\ cnt freeing s = 0 /\ cnt inread s = cnt pending s /\ cnt inwrite s = 0 /\ cnt past s = 1
  end.

(** The count of a copy is how many references to it there are; who makes it 0 frees it. *)
Definition copy_inv (s : state) (c : Z) : Prop :=
  match st_copies s !! c with
  | Some x => c_reference x = objref s c + cnt (holds c) s /\ cnt (frees c) s = one (c_reference x =? 0)
  | None => objref s c + cnt (holds c) s = 0 /\ cnt (frees c) s = 0
  end.

Record inv (s : state) : Prop := {
  iv_obj : obj_inv s;
  iv_writer : cnt writer s = 1;
  iv_ref : cnt badref s = 0;
  iv_copies : forall c, copy_inv s c;
  iv_incs : forall c, 0 < cnt (incs c) s -> exists o, st_obj s = Some o /\ o_copy o = Some c }.

Lemma at_range c o : 0 <= at_ c o <= 1.
Proof. unfold at_. case_bool_decide; cbn; lia. Qed.

Lemma kept_range c k : 0 <= kept c k.
Proof. destruct k; cbn; try lia; apply at_range. Qed.

(** What each place of a program counts. *)
Lemma pc_facts p : 0 <= inread p /\ 0 <= inwrite p <= writer p /\ 0 <= hasref p /\ 0 <= freeing p /\ 0 <= pending p <= inread p /\ 0 <= nulling p <= inwrite p /\
  0 <= past p <= writer p /\ writer p <= hasref p + past p /\ past p + nulling p <= writer p /\
  inread p <= hasref p + freeing p + pending p.
Proof. destruct p; cbn; try lia; destruct k; cbn; lia. Qed.

Lemma badref_nonneg p : 0 <= badref p.
Proof. destruct p; cbn; try lia. by destruct (_ <=? _). Qed.

Lemma pc_copy_facts c p : 0 <= holds c p /\ 0 <= frees c p /\ 0 <= incs c p <= inread p.
Proof. destruct p as [| | | | | | | | | | | | | | | |last ret| | | | |o k| |]; cbn; repeat match goal with |- context [at_ ?c ?o] => pose proof (at_range c o); generalize dependent (at_ c o); intros end;
  try (pose proof (kept_range c k)); lia. Qed.

(** ** Counting *)

Lemma total_add {A} (f g : A -> Z) l : total (fun x => f x + g x) l = total f l + total g l.
Proof. induction l as [|x l IH]; cbn; [done|lia]. Qed.

Lemma total_ext {A} (f g : A -> Z) l : (forall x, f x = g x) -> total f l = total g l.
Proof. intros H. induction l as [|x l IH]; cbn; [done|]. by rewrite H, IH. Qed.

Lemma total_both {A} (f : A -> Z) l k : total f (l ++ k) = total f l + total f k.
Proof. induction l as [|x l IH]; cbn; [done|lia]. Qed.

Lemma cnt_le f g s : (forall p, f p <= g p) -> cnt f s <= cnt g s.
Proof. intros H. apply total_le. intros t. apply H. Qed.

Lemma cnt_nonneg f s : (forall p, 0 <= f p) -> 0 <= cnt f s.
Proof. intros H. apply total_nonneg. intros t. apply H. Qed.

Lemma cnt_add f g s : cnt (fun p => f p + g p) s = cnt f s + cnt g s.
Proof. apply (total_add (fun t => f (t_pc t)) (fun t => g (t_pc t))). Qed.

Lemma cnt_has f s i t : (forall p, 0 <= f p) -> st_threads s !! i = Some t -> f (t_pc t) <= cnt f s.
Proof. intros H Hi. apply (total_lookup (fun t => f (t_pc t)) _ i t); [intros x; apply H|done]. Qed.

(** Thread [i] goes on at [p]. *)
Definition goes (i : nat) (p : pc) (l : option bytes) (q : list thread) (o : option stm_object) (cp : gmap Z stm_copy) (s : state) : state :=
  State o cp (<[i := Thread p l]> (st_threads s) ++ q).

Lemma cnt_goes f i t p l q o cp s : st_threads s !! i = Some t ->
  cnt f (goes i p l q o cp s) = cnt f s - f (t_pc t) + f p + total (fun t => f (t_pc t)) q.
Proof. intros Hi. unfold cnt, goes. cbn [st_threads]. rewrite total_both, (total_insert _ _ i t) by done. done. Qed.

Lemma cnt_facts s : 0 <= cnt inread s /\ 0 <= cnt inwrite s <= cnt writer s /\ 0 <= cnt hasref s /\ 0 <= cnt freeing s /\ 0 <= cnt pending s <= cnt inread s /\
  0 <= cnt nulling s <= cnt inwrite s /\ 0 <= cnt past s <= cnt writer s /\ cnt writer s <= cnt hasref s + cnt past s /\ cnt past s + cnt nulling s <= cnt writer s /\
  cnt inread s <= cnt hasref s + cnt freeing s + cnt pending s.
Proof.
  rewrite <- !cnt_add. repeat split; try (apply cnt_nonneg; intros p; pose proof (pc_facts p); lia); apply cnt_le; intros p; pose proof (pc_facts p); lia.
Qed.

Lemma cnt_copy_facts c s : 0 <= cnt (holds c) s /\ 0 <= cnt (frees c) s /\ 0 <= cnt (incs c) s <= cnt inread s.
Proof. repeat split; try (apply cnt_nonneg; intros p; pose proof (pc_copy_facts c p); lia). apply cnt_le. intros p. pose proof (pc_copy_facts c p). lia. Qed.

(** What is counted by [g] and not by [f]. *)
Lemma cnt_gap g f s i t : (forall p, 0 <= f p <= g p) -> st_threads s !! i = Some t -> g (t_pc t) + cnt f s <= cnt g s + f (t_pc t).
Proof.
  intros Hf Hi. assert (cnt g s = cnt (fun p => g p - f p) s + cnt f s) as -> by (rewrite <- cnt_add; apply total_ext; intros x; lia).
  pose proof (cnt_has (fun p => g p - f p) s i t ltac:(intros p; specialize (Hf p); lia) Hi). cbn in *. lia.
Qed.

(** What the thread at a place adds. *)
Lemma here s i t : st_threads s !! i = Some t ->
  inread (t_pc t) <= cnt inread s /\ inwrite (t_pc t) <= cnt inwrite s /\ hasref (t_pc t) <= cnt hasref s /\ freeing (t_pc t) <= cnt freeing s /\
  pending (t_pc t) <= cnt pending s /\ nulling (t_pc t) <= cnt nulling s /\ past (t_pc t) <= cnt past s /\ writer (t_pc t) <= cnt writer s /\
  writer (t_pc t) + cnt past s + cnt nulling s <= cnt writer s + past (t_pc t) + nulling (t_pc t) /\
  writer (t_pc t) + cnt inwrite s <= cnt writer s + inwrite (t_pc t) /\ inread (t_pc t) + cnt pending s <= cnt inread s + pending (t_pc t).
Proof.
  intros Hi. pose proof (fun g f H => cnt_gap g f s i t H Hi) as H.
  repeat split; try (apply (cnt_has _ s i); try done; intros p; pose proof (pc_facts p); lia).
  - pose proof (H writer (fun p => past p + nulling p)) as Hp. rewrite cnt_add in Hp. cbn in Hp. enough (writer (t_pc t) + (cnt past s + cnt nulling s) <= cnt writer s + (past (t_pc t) + nulling (t_pc t))) by lia.
    apply Hp. intros p. pose proof (pc_facts p). lia.
  - apply H. intros p. pose proof (pc_facts p). lia.
  - apply H. intros p. pose proof (pc_facts p). lia.
Qed.

Lemma here_copy s i t c : st_threads s !! i = Some t ->
  holds c (t_pc t) <= cnt (holds c) s /\ frees c (t_pc t) <= cnt (frees c) s /\ incs c (t_pc t) <= cnt (incs c) s.
Proof. intros Hi. repeat split; apply (cnt_has _ s i); try done; intros p; pose proof (pc_copy_facts c p); lia. Qed.

Lemma at_self c : at_ c (Some c) = 1.
Proof. unfold at_. by rewrite bool_decide_eq_true_2. Qed.
Lemma at_none c : at_ c None = 0.
Proof. done. Qed.
Lemma at_other c d : c <> d -> at_ c (Some d) = 0.
Proof. intros H. unfold at_. rewrite bool_decide_eq_false_2; [done|congruence]. Qed.

(** Threads that do not touch the copies. *)
Lemma inv_goes i t p l q o s : inv s -> st_threads s !! i = Some t ->
  (forall s', s' = goes i p l q o (st_copies s) s -> obj_inv s' /\ (cnt writer s' = 1 /\ cnt badref s' = 0) /\
    (forall c, objref s' c + cnt (holds c) s' = objref s c + cnt (holds c) s /\ cnt (frees c) s' = cnt (frees c) s /\
      (0 < cnt (incs c) s' -> exists o', o = Some o' /\ o_copy o' = Some c))) ->
  inv (goes i p l q o (st_copies s) s).
Proof.
  intros [I1 I2 I5 I3 I4] Hi H. destruct (H _ eq_refl) as (H1 & [H2 H4] & H3). split; [done|done|done| |].
  - intros c. specialize (I3 c). destruct (H3 c) as (E1 & E2 & _). unfold copy_inv in *. cbn [goes st_copies]. fold (goes i p l q o (st_copies s) s).
    rewrite E1, E2. exact I3.
  - intros c Hc. by apply H3.
Qed.

Lemma goes_obj i p l q o cp s : st_obj (goes i p l q o cp s) = o.
Proof. done. Qed.
Lemma goes_copies i p l q o cp s : st_copies (goes i p l q o cp s) = cp.
Proof. done. Qed.

(** A thread that refers to the object finds it. *)
Lemma obj_there s i t : inv s -> st_threads s !! i = Some t -> 0 < hasref (t_pc t) + freeing (t_pc t) + inwrite (t_pc t) + (inread (t_pc t) - pending (t_pc t)) ->
  exists o, st_obj s = Some o.
Proof.
  intros I Hi Hp. destruct (st_obj s) as [o|] eqn:E; [by exists o|exfalso]. pose proof (iv_obj s I) as H. unfold obj_inv in H. rewrite E in H.
  pose proof (here s i t Hi). pose proof (cnt_facts s). pose proof (pc_facts (t_pc t)). lia.
Qed.

(** The numbers of a state after a step of thread [i]. *)
Ltac counts Hi E :=
  repeat (rewrite goes_obj || rewrite (cnt_goes _ _ _ _ _ _ _ _ _ Hi));
  rewrite ?E in *;
  cbn [inread inwrite hasref freeing pending writer nulling past badref holds frees incs kept total t_pc app o_readers o_write o_reference o_copy one hasref after] in *; rewrite ?at_none in *.

(** A step is good when it keeps the invariant; only an unlock without a reference may fail. *)
Definition good (s : state) (i : nat) (t : thread) (r : outcome (option (pc * option pc * option bytes * state))) : Prop :=
  match r with
  | Ret None => True
  | Ret (Some (p, new, seen, s1)) => st_threads s1 = st_threads s /\
      forall l, inv (goes i p l (match new with Some q => [Thread q None] | None => [] end) (st_obj s1) (st_copies s1) s)
  | Undefined => st_obj s = None /\ exists last, t_pc t = RUnlockEnd last
  | _ => False
  end.

Ltac run := cbv [mbind m_bind mret m_ret get_obj put_obj get_copy put_copies rwlock_rlock rwlock_runlock rwlock_wlock rwlock_wunlock add_reference set_copy add_copy
  waits asserts deref outcome_bind outcome_ret stm_releasecopy free_copy]; cbn [st_obj st_copies st_threads].

Ltac eqbs := repeat match goal with |- context [?a =? ?b] => destruct (Z.eqb_spec a b) | H : context [?a =? ?b] |- _ => destruct (Z.eqb_spec a b) end.

(** What is known at thread [i], which is at the place that [E] says; [Eo] is the object. *)
Ltac known s I Hi E Eo :=
  pose proof (iv_obj s I) as Ho; unfold obj_inv in Ho; rewrite Eo in Ho;
  pose proof (here s _ _ Hi) as Hh; pose proof (cnt_facts s) as Hf; pose proof (conj (iv_writer s I) (iv_ref s I)) as Hw; pose proof (cnt_has badref s _ _ badref_nonneg Hi) as Hbr; rewrite E in Hh, Hbr;
  cbn [inread inwrite hasref freeing pending writer nulling past badref holds frees incs kept] in Hh.

(** The step keeps the copies and, but for the lock and the references, the object. *)
Ltac keeps s I Hi E Eo :=
  split; [reflexivity|]; intros l; apply (inv_goes _ _ _ _ _ _ _ I Hi); intros s' ->;
  unfold obj_inv, objref; rewrite Eo; known s I Hi E Eo; counts Hi E;
  split; [|split; [split; lia|let c := fresh "c" in intros c; pose proof (iv_incs s I c) as Hinc; pose proof (here_copy s _ _ c Hi) as Hhc; pose proof (cnt_copy_facts c s) as Hfc;
    counts Hi E; split; [eqbs; lia|split; [lia|]];
    let Hc := fresh in intros Hc; destruct Hinc as (o1 & Eo1 & Hoc); [lia|]; rewrite Eo in Eo1; injection Eo1 as <-; eexists; split; [reflexivity|exact Hoc]]].

Section cases.
Context (s : state) (i : nat) (t : thread) (I : inv s) (Hi : st_threads s !! i = Some t).

Ltac found E Eo := destruct (obj_there s i t I Hi) as [o Eo]; [rewrite E; cbn; lia|]; cbn [thread_step]; run; repeat (rewrite Eo; cbn).

Lemma case_rready last a : t_pc t = RReady last -> good s i t (thread_step (RReady last) a s).
Proof.
  intros E. destruct a; try exact Logic.I; found E Eo; destruct (o_write o) eqn:Ew; cbn; try done; keeps s I Hi E Eo; rewrite Ew in *; cbn [one] in *; repeat split; lia.
Qed.

Lemma case_rcopy last a : t_pc t = RCopy last -> good s i t (thread_step (RCopy last) a s).
Proof.
  intros E. destruct a; try exact Logic.I. found E Eo. destruct (o_copy o) as [c|] eqn:Ec; cbn.
  - split; [reflexivity|]; intros l; apply (inv_goes _ _ _ _ _ _ _ I Hi); intros s' ->. unfold obj_inv, objref; rewrite Eo; known s I Hi E Eo; counts Hi E.
    destruct Ho as (H1 & H2 & H3 & H4 & H5 & H6 & H7). rewrite Ec in *.
    split; [repeat split; lia|]. split; [split; lia|]. intros d. pose proof (iv_incs s I d) as Hinc. counts Hi E. split; [eqbs; lia|]. split; [lia|].
    intros Hc. destruct (decide (d = c)) as [->|Hne]; [by exists o|]. rewrite at_other in Hc by done. destruct Hinc as (o' & Eo' & Ec'); [lia|]. rewrite Eo in Eo'. injection Eo' as <-. by exists o.
  - keeps s I Hi E Eo. repeat split; lia.
Qed.

Lemma case_runlock last ret a : t_pc t = RUnlock last ret -> good s i t (thread_step (RUnlock last ret) a s).
Proof.
  intros E. destruct a; try exact Logic.I. found E Eo. unfold after_copy. case_bool_decide as Er; [subst ret; keeps s I Hi E Eo; repeat split; lia|].
  destruct ret; keeps s I Hi E Eo; repeat split; lia.
Qed.

Lemma case_grab a : t_pc t = WGrabInc -> good s i t (thread_step WGrabInc a s).
Proof.
  intros E. destruct a; try exact Logic.I. found E Eo. assert (one (o_reference o <=? 0) = 0) as Hr.
  { known s I Hi E Eo. destruct (Z.leb_spec (o_reference o) 0); cbn; lia. }
  keeps s I Hi E Eo; repeat split; lia.
Qed.

Lemma case_grabunlock ref a : t_pc t = WGrabUnlock ref -> good s i t (thread_step (WGrabUnlock ref) a s).
Proof.
  intros E. destruct a; try exact Logic.I. found E Eo. destruct (Z.ltb_spec 0 ref); cbn.
  - assert (one (ref <=? 0) = 0) as Hr by (destruct (Z.leb_spec ref 0); cbn; lia). keeps s I Hi E Eo; repeat split; lia.
  - known s I Hi E Eo. cbn in *. rewrite (proj2 (Z.leb_le ref 0)) in Hbr by lia. cbn in Hbr. lia.
Qed.

Lemma case_wupdate c a : t_pc t = WUpdate c -> good s i t (thread_step (WUpdate c) a s).
Proof.
  intros E. destruct a; try exact Logic.I. found E Eo. destruct (o_write o) eqn:Ew; cbn; [done|]. destruct (Z.eqb_spec (o_readers o) 0); cbn; [|done].
  keeps s I Hi E Eo; rewrite Ew in *; cbn [one] in *; repeat split; lia.
Qed.

Lemma case_wrelease a : t_pc t = WRelease -> good s i t (thread_step WRelease a s).
Proof.
  intros E. destruct a; try exact Logic.I. found E Eo. destruct (o_write o) eqn:Ew; cbn; [done|]. destruct (Z.eqb_spec (o_readers o) 0); cbn; [|done].
  keeps s I Hi E Eo; rewrite Ew in *; cbn [one] in *; repeat split; lia.
Qed.

Lemma case_wunlock old a : t_pc t = WUnlock old -> good s i t (thread_step (WUnlock old) a s).
Proof. intros E. destruct a; try exact Logic.I. found E Eo. keeps s I Hi E Eo; repeat split; lia. Qed.

Lemma case_wunlockend a : t_pc t = WUnlockEnd -> good s i t (thread_step WUnlockEnd a s).
Proof. intros E. destruct a; try exact Logic.I. found E Eo. keeps s I Hi E Eo; repeat split; lia. Qed.

Lemma case_wcount a : t_pc t = WCount -> good s i t (thread_step WCount a s).
Proof.
  intros E. destruct a; try exact Logic.I. found E Eo. destruct (Z.ltb_spec 0 (o_reference o - 1)); keeps s I Hi E Eo; repeat split; lia.
Qed.

Lemma case_rdec last a : t_pc t = RDec last -> good s i t (thread_step (RDec last) a s).
Proof.
  intros E. destruct a; try exact Logic.I. found E Eo. destruct (Z.eqb_spec (o_reference o - 1) 0); keeps s I Hi E Eo; repeat split; lia.
Qed.

Lemma case_runlockend last a : t_pc t = RUnlockEnd last -> good s i t (thread_step (RUnlockEnd last) a s).
Proof.
  intros E. destruct a; try exact Logic.I. cbn [thread_step]. run. destruct (st_obj s) as [o|] eqn:Eo; cbn; [|split; [done|by exists last]].
  keeps s I Hi E Eo; repeat split; lia.
Qed.

Lemma case_wswap c a : t_pc t = WSwap c -> good s i t (thread_step (WSwap c) a s).
Proof.
  intros E. destruct a; try exact Logic.I. found E Eo.
  split; [reflexivity|]; intros l; apply (inv_goes _ _ _ _ _ _ _ I Hi); intros s' ->. unfold obj_inv, objref; rewrite Eo; known s I Hi E Eo; counts Hi E.
  change (one (bool_decide (Some c = None))) with 0. assert (cnt past s = 0 /\ cnt nulling s = 0) as [Hp Hn] by lia.
  split; [repeat split; lia|split; [split; lia|]]. intros d. pose proof (cnt_copy_facts d s). counts Hi E. split; [eqbs; lia|]. split; [lia|]. lia.
Qed.

Lemma case_rfree last a : t_pc t = RFree last -> good s i t (thread_step (RFree last) a s).
Proof.
  intros E. destruct a; try exact Logic.I. found E Eo. known s I Hi E Eo.
  assert (cnt past s = 1 /\ cnt hasref s = 0 /\ cnt inwrite s = 0) as (Hp & Hr & Hn) by lia. destruct (bool_decide_reflect (o_copy o = None)) as [Ec|]; cbn [one] in *; [|lia]. cbn.
  split; [reflexivity|]; intros l; apply (inv_goes _ _ _ _ _ _ _ I Hi); intros s' ->. unfold obj_inv, objref; rewrite Eo; counts Hi E.
  split; [|split; [split; lia|]].
  - lia.
  - intros d. pose proof (cnt_copy_facts d s). pose proof (iv_incs s I d) as Hinc. counts Hi E. rewrite Ec, at_none. split; [eqbs; lia|]. split; [lia|].
    intros Hc. destruct Hinc as (o1 & Eo1 & Hoc); [lia|]. rewrite Eo in Eo1. injection Eo1 as <-. congruence.
Qed.

Lemma case_wfree a : t_pc t = WFree -> good s i t (thread_step WFree a s).
Proof.
  intros E. destruct a; try exact Logic.I. found E Eo. known s I Hi E Eo.
  assert (cnt past s = 1 /\ cnt hasref s = 0 /\ cnt inread s = 0) as (Hp & Hr & Hn) by lia. destruct (bool_decide_reflect (o_copy o = None)) as [Ec|]; cbn [one] in *; [|lia].
  split; [reflexivity|]; intros l; apply (inv_goes _ _ _ _ _ _ _ I Hi); intros s' ->. unfold obj_inv, objref; rewrite Eo; counts Hi E.
  split; [lia|split; [split; lia|]].
  intros d. pose proof (cnt_copy_facts d s). counts Hi E. rewrite Ec, at_none. split; [eqbs; lia|]. split; [lia|]. lia.
Qed.

(** The same with other copies. *)
Lemma inv_with p l q o cp :
  (forall s', s' = goes i p l q o cp s -> obj_inv s' /\ (cnt writer s' = 1 /\ cnt badref s' = 0) /\
    (forall c, copy_inv s' c /\ (0 < cnt (incs c) s' -> exists o', o = Some o' /\ o_copy o' = Some c))) ->
  inv (goes i p l q o cp s).
Proof. intros H. destruct (H _ eq_refl) as (H1 & [H2 H3] & H4). split; [done|done|done|intros c; apply H4|]. intros c Hc. by apply H4. Qed.

(** A copy that is referred to is there. *)
Lemma copy_there c : 0 < objref s c + holds c (t_pc t) + frees c (t_pc t) -> exists x, st_copies s !! c = Some x /\
  c_reference x = objref s c + cnt (holds c) s /\ cnt (frees c) s = one (c_reference x =? 0).
Proof.
  intros H. pose proof (iv_copies s I c) as Hc. unfold copy_inv in Hc. pose proof (here_copy s i t c Hi). pose proof (cnt_copy_facts c s).
  destruct (st_copies s !! c) as [x|]; [by exists x|exfalso].
  assert (0 <= objref s c). { unfold objref. destruct (st_obj s); [|lia]. destruct (_ =? _); [apply at_range|lia]. }
  pose proof (pc_copy_facts c (t_pc t)). lia.
Qed.

Lemma case_wnull a : t_pc t = WNull -> good s i t (thread_step WNull a s).
Proof.
  intros E. destruct a; try exact Logic.I. found E Eo.
  split; [reflexivity|]; intros l; apply (inv_goes _ _ _ _ _ _ _ I Hi); intros s' ->. unfold obj_inv, objref; rewrite Eo; known s I Hi E Eo; counts Hi E.
  change (one (bool_decide (None = None))) with 1. split; [lia|split; [split; lia|]].
  intros d. pose proof (cnt_copy_facts d s). counts Hi E. split; [eqbs; lia|]. split; [lia|]. lia.
Qed.

Lemma case_ruse c a : t_pc t = RUse c -> good s i t (thread_step (RUse c) a s).
Proof.
  intros E. destruct a; try exact Logic.I. destruct (copy_there c) as (x & Ex & _).
  { rewrite E. cbn. rewrite at_self. unfold objref. destruct (st_obj s); [|lia]. destruct (_ =? _); [|lia]. pose proof (at_range c (o_copy s0)). lia. }
  destruct (obj_there s i t I Hi) as [o Eo]; [rewrite E; cbn; lia|]. cbn [thread_step]. run. rewrite Ex. cbn. keeps s I Hi E Eo. repeat split; lia.
Qed.

Lemma case_wready a : t_pc t = WReady -> good s i t (thread_step WReady a s).
Proof.
  intros E. destruct a as [c msg| | | | |]; try exact Logic.I.
  - destruct (obj_there s i t I Hi) as [o Eo]; [rewrite E; cbn; lia|]. cbn [thread_step]. cbv [mbind m_bind stm_newcopy]. destruct (st_copies s !! c) eqn:Ec; [exact Logic.I|]. cbn.
    split; [reflexivity|]; intros l; apply inv_with; intros s' ->. unfold obj_inv; rewrite Eo; known s I Hi E Eo; counts Hi E. split; [lia|split; [split; lia|]].
    intros d. pose proof (cnt_copy_facts d s). pose proof (iv_incs s I d) as Hinc. split; [|counts Hi E; rewrite Z.sub_0_r, !Z.add_0_r; rewrite Eo in Hinc; exact Hinc].
    pose proof (iv_copies s I d) as Hd. unfold copy_inv, objref in *. rewrite Eo in *. counts Hi E. rewrite goes_copies. destruct (decide (d = c)) as [->|Hne].
    + rewrite lookup_insert_eq. cbn [c_reference]. rewrite Ec, at_self in *. cbn [Z.eqb one]. eqbs; lia.
    + rewrite lookup_insert_ne, at_other by done. destruct (st_copies s !! d); eqbs; lia.
  - found E Eo. destruct (o_write o) eqn:Ew; cbn; [done|]. keeps s I Hi E Eo; rewrite Ew in *; cbn [one] in *; repeat split; lia.
  - found E Eo. assert (o_copy o <> None) as Hc.
    { known s I Hi E Eo. intros Ec. rewrite Ec in Ho. change (one (bool_decide (None = None))) with 1 in Ho. lia. }
    rewrite bool_decide_eq_true_2 by by apply not_eq_None_Some. cbn. keeps s I Hi E Eo. repeat split; lia.
Qed.

Lemma case_wreleasecopy a : t_pc t = WReleaseCopy -> good s i t (thread_step WReleaseCopy a s).
Proof.
  intros E. destruct a; try exact Logic.I. destruct (obj_there s i t I Hi) as [o Eo]; [rewrite E; cbn; lia|]. known s I Hi E Eo.
  assert (cnt nulling s = 0) as Hn by lia. destruct (o_copy o) as [c|] eqn:Ec; [|change (one (bool_decide (None = None))) with 1 in Ho; lia].
  assert (objref s c = 1) as Hr by (unfold objref; rewrite Eo, Hn, Ec; apply at_self). destruct (copy_there c) as (x & Ex & Er & Ef); [rewrite E; cbn; lia|].
  cbn [thread_step]. run. rewrite Eo. cbn. rewrite Ec. cbn. rewrite Ex. cbn.
  pose proof (cnt_copy_facts c s) as Hc.
  destruct (Z.eqb_spec (c_reference x - 1) 0) as [E0|N0]; (split; [reflexivity|]; intros l; apply inv_with; intros s' ->; unfold obj_inv; rewrite Eo; counts Hi E;
    split; [rewrite Ec; repeat split; lia|split; [split; lia|]]; intros d; pose proof (iv_incs s I d) as Hinc; pose proof (cnt_copy_facts d s);
    split; [|counts Hi E; intros Hd; exfalso; lia];
    pose proof (iv_copies s I d) as Hd; unfold copy_inv, objref in *; rewrite Eo in *; counts Hi E; rewrite goes_copies; rewrite Ec, Hn in *;
    destruct (decide (d = c)) as [->|Hne]; [rewrite lookup_insert_eq; cbn [c_reference]; rewrite Ex, at_self in *; eqbs; cbn [one] in *; lia|
      rewrite lookup_insert_ne, !at_other in * by done; destruct (st_copies s !! d); eqbs; lia]).
Qed.

Lemma case_rinc last c a : t_pc t = RInc last c -> good s i t (thread_step (RInc last c) a s).
Proof.
  intros E. destruct a; try exact Logic.I. destruct (obj_there s i t I Hi) as [o Eo]; [rewrite E; cbn; lia|]. known s I Hi E Eo.
  destruct (here_copy s i t c Hi) as (_ & _ & Hin). rewrite E in Hin. cbn [incs] in Hin. rewrite at_self in Hin.
  destruct (iv_incs s I c) as (o1 & Eo1 & Ec); [lia|]. rewrite Eo in Eo1. injection Eo1 as <-. assert (cnt nulling s = 0) as Hn by lia.
  assert (objref s c = 1) as Hr by (unfold objref; rewrite Eo, Hn, Ec; apply at_self).
  destruct (copy_there c) as (x & Ex & Er & Ef); [rewrite E; cbn; pose proof (at_range c last); lia|]. pose proof (cnt_copy_facts c s) as Hc.
  cbn [thread_step]. run. rewrite Ex. cbn. destruct (Z.ltb_spec 0 (c_reference x)); cbn; [|lia].
  split; [reflexivity|]; intros l; apply inv_with; intros s' ->; unfold obj_inv; rewrite Eo; counts Hi E.
  split; [repeat split; lia|split; [split; lia|]]. intros d. pose proof (iv_incs s I d) as Hinc. pose proof (cnt_copy_facts d s) as Hcd. split.
  - pose proof (iv_copies s I d) as Hd. unfold copy_inv, objref in *. rewrite Eo in *. counts Hi E. rewrite goes_copies. rewrite Ec, Hn in *.
    destruct (decide (d = c)) as [->|Hne]; [rewrite lookup_insert_eq; cbn [c_reference]; rewrite Ex, at_self in *; eqbs; cbn [one] in *; lia|].
    rewrite lookup_insert_ne, !at_other in * by done. destruct (st_copies s !! d); eqbs; lia.
  - counts Hi E. intros Hd. pose proof (at_range d (Some c)). destruct Hinc as (o1 & Eo1 & Hoc); [lia|]. rewrite Eo in Eo1. injection Eo1 as <-. by exists o.
Qed.

(** After [stm_releasecopy] a thread counts as before. *)
Lemma after_counts k : inread (after k) = 0 /\ inwrite (after k) = inwrite (PDec None k) /\ hasref (after k) = hasref (PDec None k) /\ freeing (after k) = 0 /\
  pending (after k) = 0 /\ writer (after k) = writer (PDec None k) /\ nulling (after k) = nulling (PDec None k) /\ past (after k) = 0 /\ badref (after k) = 0.
Proof. by destruct k. Qed.

Lemma after_copies k c : holds c (after k) = kept c k /\ frees c (after k) = 0 /\ incs c (after k) = 0.
Proof. by destruct k. Qed.

(** A thread in [stm_releasecopy] goes on at [p], which counts as before; so many references less
    to [c], which is freed when there is none. *)
Lemma release_goes c k p o x cp l : st_obj s = o -> (t_pc t = PDec (Some c) k /\ c_reference x = 1 /\ p = PFree c k /\ cp = <[c := StmCopy 0 (c_msg x)]> (st_copies s) \/
    t_pc t = PDec (Some c) k /\ c_reference x <> 1 /\ p = after k /\ cp = <[c := StmCopy (c_reference x - 1) (c_msg x)]> (st_copies s) \/
    t_pc t = PFree c k /\ p = after k /\ cp = delete c (st_copies s)) ->
  st_copies s !! c = Some x -> inv (goes i p l [] o cp s).
Proof.
  intros Eo Hcase Ex. assert (forall f, In f [inread; inwrite; hasref; freeing; pending; writer; nulling; past; badref] -> cnt f (goes i p l [] o cp s) = cnt f s) as Hf.
  { intros f Hf. rewrite (cnt_goes f i t) by done. destruct (after_counts k) as (A1 & A2 & A3 & A4 & A5 & A6 & A7 & A8 & A9). cbn [total].
    enough (f p = f (t_pc t)) by lia. cbn [In] in Hf.
    destruct Hcase as [(E & _ & -> & _)|[(E & _ & -> & _)|(E & -> & _)]]; rewrite E; destruct Hf as [<-|[<-|[<-|[<-|[<-|[<-|[<-|[<-|[<-|[]]]]]]]]]]; try done; destruct k; done. }
  pose proof I as [I1 I2 I3 I4 I5]. apply inv_with. intros s' ->. split; [|split].
  - unfold obj_inv in *. rewrite goes_obj. rewrite Eo in I1. rewrite !Hf by (cbn; tauto). exact I1.
  - rewrite !Hf by (cbn; tauto). done.
  - intros d. destruct (after_copies k d) as (K1 & K2 & K3). split.
    + pose proof (I4 d) as Hd. pose proof (I4 c) as Hc. unfold copy_inv, objref in *. rewrite Ex in Hc. rewrite goes_copies, goes_obj, Hf by (cbn; tauto). rewrite Eo in *.
      rewrite !(cnt_goes _ _ _ _ _ _ _ _ _ Hi). cbn [total].
      pose proof (here_copy s i t c Hi) as Hh. pose proof (cnt_copy_facts c s). set (r := match o with Some o' => if cnt nulling s =? 0 then at_ d (o_copy o') else 0 | None => 0 end) in *.
      assert (0 <= match o with Some o0 => if cnt nulling s =? 0 then at_ c (o_copy o0) else 0 | None => 0 end) as Hrc.
      { destruct o as [o'|]; [|lia]. destruct (_ =? _); [apply at_range|lia]. }
      assert (0 <= r) as Hr. { unfold r. destruct o as [o'|]; [|lia]. destruct (_ =? _); [apply at_range|lia]. }
      destruct Hcase as [(E & E1 & -> & ->)|[(E & E1 & -> & ->)|(E & -> & ->)]]; rewrite E in *; cbn [holds frees kept] in *; rewrite ?K1, ?K2;
        (destruct (decide (d = c)) as [->|Hne]; [rewrite ?lookup_insert_eq, ?lookup_delete_eq; cbn [c_reference]; rewrite ?Ex, ?at_self in *; pose proof (kept_range c k); fold r in Hc; eqbs; cbn [one] in *; lia|
          rewrite ?lookup_insert_ne, ?lookup_delete_ne, ?at_other in * by done; destruct (st_copies s !! d); lia]).
    + rewrite (cnt_goes _ _ _ _ _ _ _ _ _ Hi). cbn [total]. pose proof (I5 d) as Hd. rewrite Eo in Hd.
      enough (incs d p = 0 /\ incs d (t_pc t) = 0) as [-> ->] by (rewrite !Z.add_0_r, Z.sub_0_r; exact Hd).
      destruct Hcase as [(E & E1 & -> & ->)|[(E & E1 & -> & ->)|(E & -> & ->)]]; rewrite E; by rewrite ?K3.
Qed.

Lemma inv_same p l : (forall f, In f [inread; inwrite; hasref; freeing; pending; writer; nulling; past; badref] -> f p = f (t_pc t)) ->
  (forall c, holds c p = holds c (t_pc t) /\ frees c p = frees c (t_pc t) /\ incs c p = incs c (t_pc t)) ->
  inv (goes i p l [] (st_obj s) (st_copies s) s).
Proof.
  intros Hp Hc. assert (forall f, f p = f (t_pc t) -> cnt f (goes i p l [] (st_obj s) (st_copies s) s) = cnt f s) as Hf.
  { intros f E. rewrite (cnt_goes f i t), E by done. cbn [total]. lia. }
  destruct I as [I1 I2 I3 I4 I5]. apply inv_with. intros s' ->. unfold obj_inv, copy_inv, objref in *. rewrite goes_obj, goes_copies. rewrite !Hf by (apply Hp; cbn; tauto).
  split; [exact I1|]. split; [done|]. intros c. destruct (Hc c) as (E1 & E2 & E3). rewrite !Hf by done. split; [apply I4|apply I5].
Qed.

Lemma case_pdec c k a : t_pc t = PDec c k -> good s i t (thread_step (PDec c k) a s).
Proof.
  intros E. destruct a; try exact Logic.I. cbn [thread_step]. destruct c as [c|].
  - assert (0 <= objref s c) as Hr. { unfold objref. destruct (st_obj s); [|lia]. destruct (_ =? _); [apply at_range|lia]. }
    destruct (copy_there c) as (x & Ex & Er & Ef). { rewrite E. cbn. rewrite at_self. pose proof (kept_range c k). lia. }
    run. rewrite Ex. cbn. destruct (Z.eqb_spec (c_reference x - 1) 0) as [E0|N0]; (split; [reflexivity|]; intros l).
    + apply (release_goes c k _ _ x); [done| |done]. left. replace (c_reference x + -1) with 0 by lia. repeat split; try done. lia.
    + apply (release_goes c k _ _ x); [done| |done]. right. left. split; [done|]. split; [lia|]. done.
  - run. split; [reflexivity|]. intros l. apply inv_same.
    + intros f Hf. rewrite E. destruct k; destruct Hf as [<-|[<-|[<-|[<-|[<-|[<-|[<-|[<-|[<-|[]]]]]]]]]]; done.
    + intros c. rewrite E. destruct (after_copies k c) as (-> & -> & ->). done.
Qed.

Lemma case_pfree c k a : t_pc t = PFree c k -> good s i t (thread_step (PFree c k) a s).
Proof.
  intros E. destruct a; try exact Logic.I. cbn [thread_step].
  assert (0 <= objref s c) as Hr. { unfold objref. destruct (st_obj s); [|lia]. destruct (_ =? _); [apply at_range|lia]. }
  destruct (copy_there c) as (x & Ex & _). { rewrite E. cbn. rewrite at_self. pose proof (kept_range c k). lia. }
  run. rewrite Ex. cbn. split; [reflexivity|]. intros l. apply (release_goes c k _ _ x); [done| |done]. by right; right.
Qed.

Lemma thread_good a : good s i t (thread_step (t_pc t) a s).
Proof.
  destruct (t_pc t) eqn:E; [by apply case_wready|by apply case_wupdate|by apply case_wswap|by apply case_wunlock|by apply case_grab|by apply case_grabunlock|by apply case_wrelease|
    by apply case_wreleasecopy|by apply case_wnull|by apply case_wcount|by apply case_wunlockend|by apply case_wfree|by destruct a|by apply case_rready|by apply case_rcopy|by apply case_rinc|
    by apply case_runlock|by apply case_ruse|by apply case_rdec|by apply case_runlockend|by apply case_rfree|by apply case_pdec|by apply case_pfree|by destruct a].
Qed.
End cases.

(** ** Every interleaving *)

Lemma step_good s i a : inv s ->
  match step i a s with
  | Ret None => True
  | Ret (Some s') => inv s'
  | Undefined => st_obj s = None /\ exists t last, st_threads s !! i = Some t /\ t_pc t = RUnlockEnd last
  | _ => False
  end.
Proof.
  intros I. unfold step. destruct (st_threads s !! i) as [t|] eqn:Hi; [|done]. pose proof (thread_good s i t I Hi a) as H.
  destruct (thread_step (t_pc t) a s) as [[[[[p new] seen] s1]|]| | |]; cbn in H; [|done..|].
  - destruct H as [E H]. rewrite E. apply H.
  - destruct H as [E (last & El)]. split; [done|]. by exists t, last.
Qed.

Lemma inv_new c msg : inv (stm_new c msg).
Proof.
  split; [|done|done| |].
  - cbn. repeat split; try done; cbn; lia.
  - intros d. unfold copy_inv. cbn. destruct (decide (d = c)) as [->|]; [rewrite lookup_singleton_eq; cbn; by rewrite at_self|].
    rewrite lookup_singleton_ne by done. cbn. by rewrite at_other.
  - intros d. cbn. lia.
Qed.

Lemma stm_reachable_inv c msg s : reachable c msg s -> inv s.
Proof.
  induction 1 as [|s i a s' _ IH Hs]; [apply inv_new|]. pose proof (step_good s i a IH) as H. by rewrite Hs in H.
Qed.

(** ** Readers that are deleted one at a time *)

(** Between the two ends of the lock in [stm_releasereader]. *)
Definition deleting (p : pc) : Z := match p with RDec _ | RUnlockEnd _ | RFree _ => 1 | _ => 0 end.

Inductive careful (c : Z) (msg : bytes) : state -> Prop :=
  | Careful_new : careful c msg (stm_new c msg)
  | Careful_step s i a s' : careful c msg s -> (a = ADelete -> cnt deleting s = 0) -> step i a s = Ret (Some s') -> careful c msg s'.

Lemma careful_reachable c msg s : careful c msg s -> reachable c msg s.
Proof. induction 1; [constructor|econstructor; eassumption]. Qed.

(** What a step does to these places and to the object. *)
Lemma step_places p a s p' new seen s1 : thread_step p a s = Ret (Some (p', new, seen, s1)) ->
  (deleting p' <= deleting p \/ (a = ADelete /\ deleting p' <= 1)) /\ (match new with Some q => deleting q = 0 /\ pending q = 0 | None => True end) /\
  (pending p' <= pending p \/ is_Some (st_obj s)) /\
  (st_obj s1 = None -> st_obj s = None \/ (freeing p = 1 /\ deleting p' = 0 /\ pending p' = 0)).
Proof.
  destruct p, a; cbn [thread_step]; try discriminate; run; unfold stm_newcopy, after_copy, after; intros H;
    repeat (case_match; try discriminate H; cbn in H); simplify_eq; cbn;
    (split; [first [left; lia | right; split; [done|lia]]|]; split; [done|]; split; [first [left; lia | right; by eexists]|]; first [left; congruence | intros; congruence|by right]).
Qed.

Lemma careful_inv c msg s : careful c msg s -> cnt deleting s <= 1 /\ (st_obj s = None -> cnt pending s = 0).
Proof.
  induction 1 as [|s i a s' Hc [IH1 IH2] Ha Hs]; [by split|]. pose proof (stm_reachable_inv c msg s (careful_reachable _ _ _ Hc)) as I.
  pose proof (step_good s i a I) as I'. rewrite Hs in I'. unfold step in Hs. destruct (st_threads s !! i) as [t|] eqn:Hi; [|done].
  destruct (thread_step (t_pc t) a s) as [[[[[p new] seen] s1]|]| | |] eqn:E; [|done..]. injection Hs as <-.
  pose proof (thread_good s i t I Hi a) as G. rewrite E in G. destruct G as [Et _]. destruct (step_places _ _ _ _ _ _ _ E) as (H1 & H2 & H3 & H4).
  rewrite Et in *. set (r := match seen with Some v => Some v | None => t_read t end) in *. set (q := match new with Some q => [Thread q None] | None => [] end) in *.
  change (State (st_obj s1) (st_copies s1) (<[i:=Thread p r]> (st_threads s) ++ q)) with (goes i p r q (st_obj s1) (st_copies s1) s) in *.
  assert (forall p, 0 <= deleting p) as Hdn by (intros []; cbn; lia). assert (forall p, pending p <= deleting p) as Hpd by (intros []; cbn; lia).
  pose proof (cnt_has deleting s i t Hdn Hi) as Hdt. assert (total (fun t => deleting (t_pc t)) q = 0 /\ total (fun t => pending (t_pc t)) q = 0) as [Hq1 Hq2].
  { unfold q. destruct new as [p1|]; [|done]. cbn. lia. }
  pose proof (cnt_le pending deleting s Hpd) as Hps. pose proof (here s i t Hi) as Hh. pose proof (cnt_facts s) as Hf. pose proof (Hdn p). pose proof (pc_facts p).
  rewrite goes_obj, !(cnt_goes _ _ _ _ _ _ _ _ _ Hi), Hq1, Hq2. split.
  - destruct H1 as [H1|[-> H1]]; [lia|]. specialize (Ha eq_refl). pose proof (Hdn (t_pc t)). lia.
  - intros En. pose proof (iv_obj s I) as Ho. unfold obj_inv in Ho. destruct (H4 En) as [E0|(F1 & F2 & F3)].
    + specialize (IH2 E0). destruct H3 as [H3|[o E1]]; [|congruence]. pose proof (pc_facts (t_pc t)). lia.
    + rewrite F3. destruct (t_pc t) eqn:Ep; cbn in F1; try discriminate F1; cbn in *; [|pose proof (cnt_gap deleting pending s i t) as Hg; rewrite Ep in Hg; cbn in Hg; enough (1 + cnt pending s <= cnt deleting s + 0) by lia; apply Hg; [intros []; cbn; lia|done]].
      destruct (obj_there s i t I Hi) as [o Eo]; [rewrite Ep; cbn; lia|]. rewrite Eo in Ho. lia.
Qed.

(** ** Claims *)

Definition ended (s : state) : Prop := forall i t, st_threads s !! i = Some t -> t_pc t = WEnd \/ t_pc t = PEnd.

Lemma total_none {A} (f : A -> Z) l : (forall i x, l !! i = Some x -> f x = 0) -> total f l = 0.
Proof. induction l as [|x l IH]; intros H; cbn; [done|]. rewrite (H 0%nat x eq_refl), IH; [done|]. intros i y Hy. by apply (H (S i)). Qed.

(** C23: However the steps of a writer and any number of readers interleave, no call of them uses a
    copy, or the object, that was freed, frees it twice or fails an assert, if readers are deleted one
    at a time; without this, the only thing that may go wrong is that a reader that was
    not the last unlocks the object that the last one has freed. When all are gone, all memory is free. *)
Theorem stm_safe c msg s : reachable c msg s ->
  (forall i a, match step i a s with
    | Ret _ => True
    | Undefined => st_obj s = None /\ exists t last, st_threads s !! i = Some t /\ t_pc t = RUnlockEnd last
    | _ => False
    end) /\
  (careful c msg s -> forall i a, exists r, step i a s = Ret r) /\
  (ended s -> st_obj s = None /\ st_copies s = ∅).
Proof.
  intros Hr. pose proof (stm_reachable_inv c msg s Hr) as I. assert (forall i a, match step i a s with
    | Ret _ => True
    | Undefined => st_obj s = None /\ exists t last, st_threads s !! i = Some t /\ t_pc t = RUnlockEnd last
    | _ => False
    end) as H by (intros i a; pose proof (step_good s i a I); by destruct (step i a s)). split; [done|]. split.
  - intros Hc i a. specialize (H i a). destruct (step i a s) as [r| | |]; [by exists r|done..|]. destruct H as (E & t & last & Hi & Et).
    destruct (careful_inv c msg s Hc) as [_ Hp]. specialize (Hp E). pose proof (here s i t Hi) as Hh. rewrite Et in Hh. cbn in Hh. lia.
  - intros He. assert (forall f, f WEnd = 0 -> f PEnd = 0 -> cnt f s = 0) as Hz.
    { intros f H1 H2. apply total_none. intros i t Hi. by destruct (He i t Hi) as [-> | ->]. }
    pose proof (iv_obj s I) as Ho. unfold obj_inv in Ho. destruct (st_obj s) as [o|] eqn:Eo.
    { pose proof (Hz hasref eq_refl eq_refl). pose proof (Hz freeing eq_refl eq_refl). lia. }
    split; [done|]. apply map_eq. intros d. rewrite lookup_empty. pose proof (iv_copies s I d) as Hd. unfold copy_inv, objref in Hd. rewrite Eo in Hd.
    destruct (st_copies s !! d) as [x|]; [exfalso|done]. rewrite !Hz in Hd by done. destruct Hd as [E1 E2]. rewrite E1 in E2. done.
Qed.

(** ** Runs *)

Module Runs.
Definition n (i : nat) : nat * action := (i, ANext).

(** A writer with two readers, one of which reads two versions; then all go. *)
Definition common : list (nat * action) :=
  [(0%nat, AGrab); n 0; n 0; (0%nat, AGrab); n 0; n 0; (1%nat, ARead); n 1; n 1; n 1; n 1; n 1;
   (0%nat, AUpdate 20 (str "new")); n 0; n 0; n 0; n 0; (1%nat, ARead); n 1; n 1; n 1; n 1; n 1; n 1; (0%nat, ARelease); n 0; n 0; n 0; n 0; n 0].

(** The two readers are deleted one after the other, or both inside the lock. *)
Definition in_turn : list (nat * action) := common ++ [(1%nat, ADelete); n 1; n 1; n 1; n 1; (2%nat, ADelete); n 2; n 2; n 2].
Definition together : list (nat * action) := common ++ [(1%nat, ADelete); (2%nat, ADelete); n 1; n 2; n 2].

Definition end_state (l : list (nat * action)) : state := match schedule l (stm_new 10 (str "old")) with Ret (Some s) => s | _ => stm_new 10 [] end.
End Runs.

(** A schedule is careful when this test says so at each step. *)
Fixpoint careful_schedule (l : list (nat * action)) (s : state) : bool :=
  match l with
  | [] => true
  | (i, a) :: l => (match a with ADelete => cnt deleting s =? 0 | _ => true end) &&
      match step i a s with Ret (Some s) => careful_schedule l s | _ => false end
  end.

Lemma schedule_careful c msg l : forall s s', careful c msg s -> careful_schedule l s = true -> schedule l s = Ret (Some s') -> careful c msg s'.
Proof.
  induction l as [|[i a] l IH]; intros s s' Hc Ht; cbn [schedule careful_schedule] in *; [by intros [=<-]|].
  apply andb_true_iff in Ht as [Ha Ht]. destruct (step i a s) as [[s1|]| | |] eqn:E; [|done..]. rewrite bind_Ret. apply IH; [|done].
  apply (Careful_step c msg s i a); [done| |done]. intros ->. by apply Z.eqb_eq.
Qed.

Lemma schedule_reachable c msg l : forall s s', reachable c msg s -> schedule l s = Ret (Some s') -> reachable c msg s'.
Proof.
  induction l as [|[i a] l IH]; intros s s' Hc; cbn [schedule]; [by intros [=<-]|].
  destruct (step i a s) as [[s1|]| | |] eqn:E; [|done..]. rewrite bind_Ret. apply IH. by apply (Reach_step c msg s i a).
Qed.

Lemma stm_safe_witness : st_obj (Runs.end_state Runs.in_turn) = None /\ st_copies (Runs.end_state Runs.in_turn) = ∅ /\
  (forall i a, exists r, step i a (Runs.end_state Runs.in_turn) = Ret r) /\ t_read <$> st_threads (Runs.end_state Runs.in_turn) !! 1%nat = Some (Some (str "new")).
Proof.
  assert (careful 10 (str "old") (Runs.end_state Runs.in_turn)) as Hc.
  { apply (schedule_careful 10 (str "old") Runs.in_turn (stm_new 10 (str "old"))); [constructor|vm_compute; reflexivity|vm_compute; reflexivity]. }
  destruct (stm_safe 10 (str "old") _ (careful_reachable _ _ _ Hc)) as (_ & H & E).
  assert (ended (Runs.end_state Runs.in_turn)) as He.
  { intros [|[|[|i]]] t Hi; vm_compute in Hi; [injection Hi as <-; by left|injection Hi as <-; by right|injection Hi as <-; by right|done]. }
  destruct (E He) as [E1 E2]. split; [exact E1|]. split; [exact E2|]. split; [exact (H Hc)|]. vm_compute. reflexivity.
Defined.

(** Two readers that are deleted at the same time: the one that was not the last unlocks the object
    after the other has freed it. *)
Lemma delete_race : reachable 10 (str "old") (Runs.end_state Runs.together) /\ step 1 ANext (Runs.end_state Runs.together) = Undefined.
Proof.
  split; [|vm_compute; reflexivity]. apply (schedule_reachable 10 (str "old") Runs.together (stm_new 10 (str "old"))); [constructor|vm_compute; reflexivity].
Qed.
