(* ===== verification/Multicast.v ===== *)
(** Messages for many services, [lualib-src/lua-multicast.c]: one block of data, which the last
    receiver frees. *)
From S2P Require Import Prelude Locks.

(** ** Data *)

Record mc_package := McPackage { mc_reference : Z; mc_size : Z; mc_data : Z }.

(** The heap: blocks of data, packages, and pointers to packages, by their addresses. *)
Record memory := Memory { m_data : gmap Z bytes; m_packs : gmap Z mc_package; m_refs : gmap Z Z }.

Definition with_data (f : gmap Z bytes -> gmap Z bytes) (m : memory) : memory := Memory (f (m_data m)) (m_packs m) (m_refs m).
Definition with_packs (f : gmap Z mc_package -> gmap Z mc_package) (m : memory) : memory := Memory (m_data m) (f (m_packs m)) (m_refs m).
Definition with_refs (f : gmap Z Z -> gmap Z Z) (m : memory) : memory := Memory (m_data m) (m_packs m) (f (m_refs m)).

Definition sizeof_pointer : Z := 8.

(** ** Operations *)

(** [pack]: the pointer to the package, and its size. *)
Definition pack (data size : Z) (m : memory) : Z * Z * memory :=
  let p := fresh (dom (m_packs m)) in
  let r := fresh (dom (m_refs m)) in
  (r, sizeof_pointer, with_refs <[r := p]> (with_packs <[p := McPackage 0 (u32 size) data]> m)).

Definition mc_packlocal (data size : Z) (m : memory) : outcome (Z * Z * memory) :=
  let size := u64 size in
  if negb (size =? u32 size) then LuaError "Size should be 32bit integer" else Ret (pack data size m).

Definition mc_packremote (data size : Z) (m : memory) : outcome (Z * Z * memory) :=
  let size := u64 size in
  if negb (size =? u32 size) then LuaError "Size should be 32bit integer"
  else
    b ← deref (m_data m !! data);
    if Z.of_nat (length b) <? size then Undefined
    else
      let msg := fresh (dom (m_data m)) in
      Ret (pack msg size (with_data <[msg := take (Z.to_nat size) b]> m)).

Definition mc_unpacklocal (r sz : Z) (m : memory) : outcome (Z * Z * Z) :=
  if negb (s32 sz =? sizeof_pointer) then LuaError "Invalid multicast package size"
  else p ← deref (m_refs m !! r); x ← deref (m_packs m !! p); Ret (p, mc_data x, mc_size x).

Definition mc_bindrefer (r ref : Z) (m : memory) : outcome (Z * memory) :=
  p ← deref (m_refs m !! r); x ← deref (m_packs m !! p);
  if negb (mc_reference x =? 0) then LuaError "Can't bind a multicast package more than once"
  else Ret (p, with_refs (delete r) (with_packs <[p := McPackage (s32 ref) (mc_size x) (mc_data x)]> m)).

(** [mc_closelocal] up to [ATOM_DEC]: the new count. *)
Definition close_dec (p : Z) (m : memory) : outcome (Z * memory) :=
  x ← deref (m_packs m !! p);
  let ref := s32 (mc_reference x - 1) in
  Ret (ref, with_packs <[p := McPackage ref (mc_size x) (mc_data x)]> m).

(** And what follows when the count is not positive. *)
Definition close_free (p ref : Z) (m : memory) : outcome memory :=
  x ← deref (m_packs m !! p); _ ← deref (m_data m !! mc_data x);
  if ref <? 0 then LuaError "Invalid multicast package reference"
  else Ret (with_packs (delete p) (with_data (delete (mc_data x)) m)).

Definition mc_remote (r : Z) (m : memory) : outcome (Z * Z * memory) :=
  p ← deref (m_refs m !! r); x ← deref (m_packs m !! p);
  Ret (mc_data x, mc_size x, with_packs (delete p) m).

Definition mc_nextid (id : Z) : Z := u32 (u32 id + 256).

(** ** Receivers *)

(** A receiver reads the data, and closes the package. *)
Inductive receiver := Got | Read (b : bytes) | Freeing (b : bytes) (ref : Z) | Closed (b : bytes).

Record run := Run { r_memory : memory; r_receivers : list receiver }.

(** Receiver [i] of the package [p] goes on. *)
Definition receive (p : Z) (i : nat) (s : run) : outcome (option run) :=
  let m := r_memory s in
  let goes x m := Ret (Some (Run m (<[i := x]> (r_receivers s)))) in
  match r_receivers s !! i with
  | None | Some (Closed _) => Ret None
  | Some Got => x ← deref (m_packs m !! p); b ← deref (m_data m !! mc_data x); goes (Read (take (Z.to_nat (mc_size x)) b)) m
  | Some (Read b) => '(ref, m) ← close_dec p m; goes (if ref <=? 0 then Freeing b ref else Closed b) m
  | Some (Freeing b ref) => m ← close_free p ref m; goes (Closed b) m
  end.

Inductive runs (p : Z) (s : run) : run -> Prop :=
  | Runs_start : runs p s s
  | Runs_step s1 i s2 : runs p s s1 -> receive p i s1 = Ret (Some s2) -> runs p s s2.

(** ** Every order of the receivers *)

Section receivers.
Context (p d size : Z) (b : bytes) (m0 : memory).

Definition live (r : receiver) : Z := match r with Got | Read _ => 1 | _ => 0 end.
Definition freeing (r : receiver) : Z := match r with Freeing _ _ => 1 | _ => 0 end.

(** What a receiver has read. *)
Definition right (r : receiver) : Prop :=
  match r with Got => True | Read c | Closed c => c = take (Z.to_nat size) b | Freeing c ref => c = take (Z.to_nat size) b /\ ref = 0 end.

(** The package is there as long as a receiver needs it, and then it is gone with its data. *)
Definition counted (s : run) : Prop :=
  m_refs (r_memory s) = m_refs m0 /\ Forall right (r_receivers s) /\
  match m_packs (r_memory s) !! p with
  | Some x => mc_size x = size /\ mc_data x = d /\ mc_reference x = total live (r_receivers s) /\ mc_reference x < 2 ^ 31 /\
      total freeing (r_receivers s) = (if mc_reference x =? 0 then 1 else 0) /\ m_data (r_memory s) = m_data m0 /\ m_packs (r_memory s) = <[p := x]> (m_packs m0)
  | None => total live (r_receivers s) = 0 /\ total freeing (r_receivers s) = 0 /\ m_data (r_memory s) = delete d (m_data m0) /\ m_packs (r_memory s) = delete p (m_packs m0)
  end.

Context (Hb : m_data m0 !! d = Some b).

Lemma live_nonneg r : 0 <= live r.
Proof. destruct r; cbn; lia. Qed.
Lemma freeing_nonneg r : 0 <= freeing r.
Proof. destruct r; cbn; lia. Qed.

Lemma receive_counted i s : counted s -> exists o, receive p i s = Ret o /\ match o with Some s' => counted s' | None => True end.
Proof.
  intros (Hr & Hf & H). unfold receive. destruct (r_receivers s !! i) as [x|] eqn:Hi; [|by exists None].
  pose proof (total_lookup live _ i x live_nonneg Hi) as Hl. pose proof (total_lookup freeing _ i x freeing_nonneg Hi) as Hfr.
  pose proof (Forall_lookup_1 _ _ _ _ Hf Hi) as Hx. assert (forall y, total live (<[i:=y]> (r_receivers s)) = total live (r_receivers s) - live x + live y) as Tl by (intros; by apply total_insert).
  assert (forall y, total freeing (<[i:=y]> (r_receivers s)) = total freeing (r_receivers s) - freeing x + freeing y) as Tf by (intros; by apply total_insert).
  destruct x as [|c|c ref|c]; cbn [live freeing right] in *; [| | |by exists None]; (destruct (m_packs (r_memory s) !! p) as [k|] eqn:Ek; [|lia]);
    destruct H as (E1 & E2 & E3 & Hk & E4 & E5 & E6).
  - cbn [deref]. rewrite bind_Ret, E5, E2, Hb. cbn [deref]. rewrite bind_Ret. eexists. split; [done|]. split; [done|]. cbn [r_memory r_receivers].
    split; [apply Forall_insert; [done|]; cbn; by rewrite E1|]. rewrite Ek. rewrite Tl, Tf. cbn [live freeing]. repeat split; try done; lia.
  - unfold close_dec. rewrite Ek. cbn [deref]. rewrite !bind_Ret, s32_small by (pose proof (total_nonneg live (r_receivers s) live_nonneg); lia). eexists. split; [done|]. split; [done|]. cbn [r_memory r_receivers with_packs m_data m_packs m_refs].
    rewrite lookup_insert_eq. cbn [mc_size mc_data mc_reference]. rewrite Tl, Tf. split.
    + apply Forall_insert; [done|]. pose proof (total_nonneg live (r_receivers s) live_nonneg). destruct (Z.leb_spec (mc_reference k - 1) 0); cbn; [|done]. split; [done|lia].
    + split; [done|]. split; [done|]. rewrite E6, insert_insert_eq. destruct (Z.leb_spec (mc_reference k - 1) 0); cbn [live freeing]; (split; [lia|]); (split; [lia|]); (split; [|done]);
        destruct (Z.eqb_spec (mc_reference k) 0), (Z.eqb_spec (mc_reference k - 1) 0); lia.
  - destruct Hx as [-> ->]. unfold close_free. rewrite Ek. cbn [deref]. rewrite bind_Ret, E5, E2, Hb. cbn [deref]. rewrite !bind_Ret.
    change (0 <? 0) with false. cbv iota. rewrite bind_Ret. eexists. split; [done|]. split; [done|]. cbn [r_memory r_receivers with_packs with_data m_data m_packs m_refs].
    split; [by apply Forall_insert|]. rewrite lookup_delete_eq, Tl, Tf. cbn [live freeing]. rewrite E5, E6. rewrite delete_insert_eq. split; [|split; [|done]].
    + destruct (Z.eqb_spec (mc_reference k) 0); lia.
    + destruct (Z.eqb_spec (mc_reference k) 0); lia.
Qed.
End receivers.

(** ** Claims *)

Lemma total_live n : total live (replicate n Got) = Z.of_nat n.
Proof. induction n as [|n IH]; [done|]. cbn [replicate total live]. lia. Qed.
Lemma total_freeing n : total freeing (replicate n Got) = 0.
Proof. induction n as [|n IH]; [done|]. cbn [replicate total freeing]. lia. Qed.

(** C25: A message that is packed, bound to the number of its receivers and sent to them is read by each
    of them as it was, however their steps interleave; no step fails, and when all have
    closed it the package and its data are freed, once, and nothing else has changed. *)
Theorem multicast_delivers d size b n m r sz m1 p m2 s :
  mc_packlocal d size m = Ret (r, sz, m1) -> m_data m !! d = Some b -> 0 <= size < 2 ^ 63 -> 0 < n < 2 ^ 31 ->
  mc_bindrefer r n m1 = Ret (p, m2) -> runs p (Run m2 (replicate (Z.to_nat n) Got)) s ->
  (forall i, exists o, receive p i s = Ret o) /\
  (forall i c, r_receivers s !! i = Some (Closed c) -> c = take (Z.to_nat size) b) /\
  ((forall i x, r_receivers s !! i = Some x -> exists c, x = Closed c) -> r_memory s = Memory (delete d (m_data m)) (m_packs m) (m_refs m)).
Proof.
  intros E1 Hb Hsz Hn E2 Hruns. unfold mc_packlocal in E1. destruct (Z.eqb_spec (u64 size) (u32 (u64 size))) as [Eu|]; [|done]. cbn [negb] in E1.
  injection E1 as <- <- <-. set (q := fresh (dom (m_packs m))) in *. set (r := fresh (dom (m_refs m))) in *.
  assert (m_packs m !! q = None) as Hq by apply not_elem_of_dom, is_fresh. assert (m_refs m !! r = None) as Hr by apply not_elem_of_dom, is_fresh.
  unfold mc_bindrefer in E2. cbn [with_refs with_packs m_refs m_packs m_data] in E2. rewrite lookup_insert_eq in E2. cbn [deref] in E2. rewrite bind_Ret, lookup_insert_eq in E2. cbn [deref] in E2.
  rewrite bind_Ret in E2. cbn [mc_reference mc_size mc_data] in E2. change (0 =? 0) with true in E2. cbn [negb] in E2. injection E2 as <- <-.
  rewrite <- Eu, u64_small, s32_small in Hruns by lia. set (m2 := Memory (m_data m) (<[q := McPackage n size d]> (m_packs m)) (m_refs m)).
  match type of Hruns with runs _ (Run ?M _) _ => assert (M = m2) as Em end.
  { unfold with_refs, with_packs, m2. cbn. f_equal; [apply insert_insert_eq|by apply delete_insert_id]. }
  rewrite Em in Hruns. clear Em.
  assert (counted q d size b m2 (Run m2 (replicate (Z.to_nat n) Got))) as C0.
  { split; [done|]. split; [by apply Forall_replicate|]. unfold m2 at 1 2 3. cbn [r_memory r_receivers m_packs]. rewrite lookup_insert_eq. cbn [mc_size mc_data mc_reference].
    rewrite total_live, total_freeing, Z2Nat.id by lia. assert (n < 2 ^ 31) by lia. rewrite (proj2 (Z.eqb_neq n 0)) by lia. cbn [m2 m_packs m_data r_memory]. by rewrite insert_insert_eq. }
  assert (counted q d size b m2 s) as C.
  { clear - Hruns C0 Hb. induction Hruns as [|s1 i s2 _ IH Hs]; [done|]. destruct (receive_counted q d size b m2 Hb i s1 IH) as (o & Eo & Ho). rewrite Hs in Eo. injection Eo as <-. exact Ho. }
  split; [intros i; destruct (receive_counted q d size b m2 Hb i s C) as (o & Eo & _); by exists o|]. destruct C as (Cr & Cf & C). split.
  - intros i c Hi. by apply (Forall_lookup_1 _ _ _ _ Cf Hi).
  - intros Hall. assert (total live (r_receivers s) = 0 /\ total freeing (r_receivers s) = 0) as [Hl Hf].
    { clear - Hall. induction (r_receivers s) as [|x l IH]; [done|]. cbn [total]. destruct (Hall 0%nat x eq_refl) as [c ->].
      destruct IH as [-> ->]; [intros i y Hy; by apply (Hall (S i))|done]. }
    destruct (m_packs (r_memory s) !! q) as [k|] eqn:Ek.
    + destruct C as (_ & _ & C3 & _ & C4 & _). rewrite Hl in C3. rewrite C3 in C4. cbn in C4. lia.
    + destruct C as (_ & _ & C3 & C4). destruct (r_memory s) as [D P R]. cbn in *. subst. by rewrite delete_insert_id.
Qed.

(** The receivers go on in a given order. *)
Fixpoint in_order (p : Z) (l : list nat) (s : run) : outcome (option run) :=
  match l with [] => Ret (Some s) | i :: l => r ← receive p i s; match r with Some s => in_order p l s | None => Ret None end end.

Lemma in_order_runs p l : forall s0 s s', runs p s0 s -> in_order p l s = Ret (Some s') -> runs p s0 s'.
Proof.
  induction l as [|i l IH]; intros s0 s s' H; cbn [in_order]; [by intros [=<-]|]. destruct (receive p i s) as [[s1|]| | |] eqn:E; [|done..]. rewrite bind_Ret.
  apply IH. by apply (Runs_step p s0 s i).
Qed.

Lemma multicast_delivers_witness : exists r sz m1 p m2 s,
  let m := Memory {[1 := str "news"]} ∅ ∅ in
  mc_packlocal 1 4 m = Ret (r, sz, m1) /\ mc_bindrefer r 2 m1 = Ret (p, m2) /\ runs p (Run m2 [Got; Got]) s /\
  r_receivers s = [Closed (str "news"); Closed (str "news")] /\ r_memory s = Memory (delete 1 {[1 := str "news"]}) ∅ ∅.
Proof.
  set (m := Memory {[1 := str "news"]} ∅ ∅). eexists _, _, _, _, _, _. cbv zeta.
  assert (mc_packlocal 1 4 m = Ret (_, _, _)) as E1 by (vm_compute; reflexivity). split; [exact E1|].
  match goal with |- (mc_bindrefer ?r ?n ?m = _) /\ _ => eassert (mc_bindrefer r n m = Ret (_, _)) as E2 by (vm_compute; reflexivity) end. split; [exact E2|].
  match goal with |- runs ?p ?s _ /\ _ => eassert (runs p s _) as R end.
  { (apply (in_order_runs _ [0%nat; 1%nat; 1%nat; 0%nat; 0%nat] _ _ _ (Runs_start _ _)); vm_compute; reflexivity). }
  split; [exact R|].
  split; [reflexivity|].
  destruct (multicast_delivers 1 4 (str "news") 2 m _ _ _ _ _ _ E1 eq_refl ltac:(lia) ltac:(lia) E2 R) as (_ & _ & H). apply H.
  intros [|[|i]] x Hx; vm_compute in Hx; [injection Hx as <-; by eexists|injection Hx as <-; by eexists|done].
Defined.

(** A package that was not bound is freed with an error; closing it again would free it twice. *)
Lemma close_unbound : exists m', close_dec 5 (Memory {[1 := [7]]} {[5 := McPackage 0 1 1]} ∅) = Ret (-1, m') /\ close_free 5 (-1) m' = LuaError "Invalid multicast package reference".
Proof. eexists. split; vm_compute; reflexivity. Qed.
