(* ===== verification/Sharedata.v ===== *)
(** Tables of configuration that services share, [lualib-src/lua-sharedata.c]: a table of Lua is
    copied to tables in C, which any thread may read, with strings that a Lua state of its own
    keeps. *)
From S2P Require Import Prelude Seri.

(** ** Data *)

Definition KEYTYPE_INTEGER : Z := 0.
Definition KEYTYPE_STRING : Z := 1.

(** [union value] with its type, [VALUETYPE_NIL] and so on; a string is an index of the stack of
    the Lua state. *)
Inductive value := VNil | VReal (n : Z) | VString (i : Z) | VBoolean (b : bool) | VTable (tbl : Z) | VInteger (d : Z).

Record node := Node { n_v : value; n_key : Z; n_next : Z; n_keyhash : Z; n_keytype : Z; n_nocolliding : bool }.

(** A slot [None] of [t_hash] has [VALUETYPE_NIL] and [nocolliding] 0; its other fields are not
    initialised. [t_array] is [arraytype] with [array]. *)
Record table := Table { t_sizearray : Z; t_sizehash : Z; t_array : list value; t_hash : list (option node); t_L : option Z }.

(** [memset(tbl, 0, sizeof(struct table))] *)
Definition zero_table : table := Table 0 0 [] [] None.

Record state := State { s_dirty : Z; s_ref : Z; s_root : Z }.

(** The stack of a Lua state after [convert_stringmap]: [state] at the index 1, then strings. *)
Record lua_state := LuaState { l_state : state; l_strings : gmap Z bytes }.

(** Memory: tables and Lua states, and the address that is allocated next. *)
Record world := World { w_tables : gmap Z table; w_states : gmap Z lua_state; w_next : Z }.

(** [ctx->tbl], [ctx->string_index], and the table of strings of [ctx->L]. *)
Record context := Context { c_tbl : Z; c_string_index : Z; c_strings : gmap bytes Z }.

(** An object that refers to a configuration, with its user value. *)
Record ctrl := Ctrl { c_root : option Z; c_update : option Z; c_uservalue : lua_value }.

(** ** Programs: they may raise an error *)

Definition M (A : Type) : Type := world -> context -> outcome ((string + A) * world * context).

#[export] Instance m_ret : MRet M := fun A a w c => Ret (inr a, w, c).
#[export] Instance m_bind : MBind M := fun A B f m w c =>
  match m w c with
  | Ret (inr a, w, c) => f a w c
  | Ret (inl e, w, c) => Ret (inl e, w, c)
  | AssertFail => AssertFail
  | LuaError e => LuaError e
  | Undefined => Undefined
  end.

Definition luaL_error {A} (e : string) : M A := fun w c => Ret (inl e, w, c).
Definition lift {A} (o : outcome A) : M A := fun w c => a ← o; Ret (inr a, w, c).

(** [ctx->tbl] *)
Definition get_tbl : M Z := fun w c => Ret (inr (c_tbl c), w, c).
Definition set_tbl (p : Z) : M unit := fun w c => Ret (inr tt, w, Context p (c_string_index c) (c_strings c)).

(** [*tbl] *)
Definition read_table (p : Z) : M table := fun w c => t ← deref (w_tables w !! p); Ret (inr t, w, c).
Definition write_table (p : Z) (t : table) : M unit := fun w c =>
  Ret (inr tt, World (<[p := t]> (w_tables w)) (w_states w) (w_next w), c).

Definition malloc_table : M Z := fun w c =>
  let p := w_next w in Ret (inr p, World (<[p := zero_table]> (w_tables w)) (w_states w) (p + 1), c).

(** [tbl->array[i]] and [tbl->hash[i]] *)
Definition set_array (p i : Z) (v : value) : M unit :=
  t ← read_table p; a ← lift (arr_set (t_array t) i v); write_table p (Table (t_sizearray t) (t_sizehash t) a (t_hash t) (t_L t)).
Definition set_slot (p i : Z) (n : node) : M unit :=
  t ← read_table p; h ← lift (arr_set (t_hash t) i (Some n)); write_table p (Table (t_sizearray t) (t_sizehash t) (t_array t) h (t_L t)).

(** ** Conversion *)

Fixpoint countsize (entries : list (lua_value * lua_value)) (sizearray : Z) (n : Z) : M Z :=
  match entries with
  | [] => mret n
  | (k, _) :: entries =>
      n ← lift (int_ok (n + 1));
      match k with
      | LInteger nkey => countsize entries sizearray (if (0 <? nkey) && (nkey <=? sizearray) then n - 1 else n)
      | LReal _ => luaL_error "Invalid key"
      | LString _ | LTable _ => countsize entries sizearray n
      | _ => luaL_error "Invalid key type"
      end
  end.

Definition calchash (s : bytes) : Z :=
  let l := Z.of_nat (length s) in
  let step := Z.shiftr l 5 + 1 in
  foldl (fun h i =>
    let l1 := l - i * step in
    Z.lxor h (u32 (u32 (Z.shiftl h 5) + Z.shiftr h 2 + nth (Z.to_nat (l1 - 1)) s 0))) (u32 l) (seqZ 0 (l / step)).

Definition stringindex (s : bytes) : M Z := fun w c =>
  match c_strings c !! s with
  | None => index ← int_ok (c_string_index c + 1); Ret (inr index, w, Context (c_tbl c) index (<[s := index]> (c_strings c)))
  | Some index => Ret (inr index, w, c)
  end.

(** [ctx->tbl] when [convtable] is called on the table. *)
Section convert.
Context (convtable : positive -> M unit).

Definition setvalue (v : lua_value) : M value :=
  match v with
  | LNil => mret VNil
  | LInteger d => mret (VInteger d)
  | LReal n => mret (VReal n)
  | LString s => i ← stringindex s; mret (VString i)
  | LBoolean b => mret (VBoolean b)
  | LTable l =>
      tbl ← get_tbl;
      child ← malloc_table;
      _ ← set_tbl child;
      _ ← convtable l;
      child ← get_tbl;
      _ ← set_tbl tbl;
      mret (VTable child)
  | LPointer _ | LOther _ => luaL_error "Unsupport value type"
  end.

Definition setarray (v : lua_value) (key : Z) : M unit :=
  n ← setvalue v;
  tbl ← get_tbl;
  set_array tbl (key - 1) n.

(** An index of the array, or the key, its hash and its type. A key that is not a string has no
    string: [lua_tolstring] gives a null pointer and the size 0. *)
Definition ishashkey (k : lua_value) : M (Z + Z * Z * Z) :=
  tbl ← get_tbl;
  t ← read_table tbl;
  match k with
  | LInteger n =>
      let key := s32 n in
      if (0 <? key) && (key <=? t_sizearray t) then mret (inl key)
      else mret (inr (key, u32 key, KEYTYPE_INTEGER))
  | _ =>
      let s := match k with LString s => s | _ => [] end in
      key ← stringindex s;
      mret (inr (key, calchash s, KEYTYPE_STRING))
  end.

(** The values of the table are not nil, so that a slot is not empty when its value is set. *)
Fixpoint fillnocolliding (entries : list (lua_value * lua_value)) : M unit :=
  match entries with
  | [] => mret tt
  | (k, v) :: entries =>
      r ← ishashkey k;
      _ ← (match r with
        | inl key => setarray v key
        | inr (key, keyhash, keytype) =>
            tbl ← get_tbl;
            t ← read_table tbl;
            let i := keyhash mod t_sizehash t in
            slot ← lift (arr_get (t_hash t) i);
            match slot with
            | None => x ← setvalue v; set_slot tbl i (Node x key (-1) keyhash keytype true)
            | Some _ => mret tt
            end
        end);
      fillnocolliding entries
  end.

(** The first empty slot. *)
Fixpoint empty_slot (l : list (option node)) (i : Z) : option Z :=
  match l with
  | [] => None
  | None :: _ => Some i
  | Some _ :: l => empty_slot l (i + 1)
  end.

Fixpoint fillcolliding (entries : list (lua_value * lua_value)) : M unit :=
  match entries with
  | [] => mret tt
  | (k, v) :: entries =>
      r ← ishashkey k;
      _ ← (match r with
        | inl _ => mret tt
        | inr (key, keyhash, keytype) =>
            tbl ← get_tbl;
            t ← read_table tbl;
            let i := keyhash mod t_sizehash t in
            slot ← lift (arr_get (t_hash t) i);
            mainpos ← lift (deref slot);
            if (n_keytype mainpos =? keytype) && (n_key mainpos =? key) then mret tt
            else
              j ← lift (match empty_slot (t_hash t) 0 with Some j => Ret j | None => AssertFail end);
              _ ← set_slot tbl i (Node (n_v mainpos) (n_key mainpos) j (n_keyhash mainpos) (n_keytype mainpos) false);
              x ← setvalue v;
              set_slot tbl j (Node x key (n_next mainpos) keyhash keytype false)
        end);
      fillcolliding entries
  end.

Fixpoint fill_array (t : lua_table) (js : list Z) : M unit :=
  match js with
  | [] => mret tt
  | i :: js => _ ← setarray (rawgeti t i) i; fill_array t js
  end.
End convert.

(** [st] are the tables of Lua; [ccalls] is how many calls of C functions Lua still nests. *)
Fixpoint convtable (st : store) (L : Z) (ccalls : nat) (l : positive) : M unit :=
  match ccalls with
  | O => luaL_error "C stack overflow"
  | S ccalls =>
      T ← lift (deref (st !! l));
      tbl ← get_tbl;
      let sizearray := s32 (lt_rawlen T) in
      if sizearray <? 0 then luaL_error "memory error"
      else
        _ ← write_table tbl (Table sizearray 0 (replicate (Z.to_nat sizearray) VNil) [] (Some L));
        sizehash ← countsize (lt_entries T) sizearray 0;
        if negb (sizehash =? 0) then
          _ ← write_table tbl (Table sizearray sizehash (replicate (Z.to_nat sizearray) VNil) (replicate (Z.to_nat sizehash) None) (Some L));
          _ ← fillnocolliding (convtable st L ccalls) (lt_entries T);
          fillcolliding (convtable st L ccalls) (lt_entries T)
        else fill_array (convtable st L ccalls) T (seqZ 1 sizearray)
  end.

(** ** Life of a configuration *)

Definition is_table (v : value) : list Z := match v with VTable p => [p] | _ => [] end.

Definition slot_tables (n : option node) : list Z := match n with Some n => is_table (n_v n) | None => [] end.

(** The tables that [delete_tbl] deletes. *)
Definition kids (t : table) : list Z := (t_array t ≫= is_table) ++ (t_hash t ≫= slot_tables).

Fixpoint delete_tbl (fuel : nat) (tbl : Z) (tables : gmap Z table) : outcome (gmap Z table) :=
  match fuel with
  | O => Undefined
  | S fuel =>
      t ← deref (tables !! tbl);
      tables ← foldl (fun tables p => tables ← tables; delete_tbl fuel p tables) (Ret tables) (kids t);
      _ ← deref (tables !! tbl);
      Ret (delete tbl tables)
  end.

(** A table has more tables above it than it can nest. *)
Definition delete_conf (tbl : Z) (w : world) : outcome world :=
  tables ← delete_tbl (S (size (w_tables w))) tbl (w_tables w);
  Ret (World tables (w_states w) (w_next w)).

Definition convert_stringmap (strings : gmap bytes Z) : gmap Z bytes :=
  map_fold (fun s idx stack => <[idx := s]> stack) ∅ strings.

(** [luaL_checkstack]: the stack has room for [n] more values. *)
Definition luaL_checkstack (room n : Z) : M unit := if room <? n then luaL_error "stack overflow" else mret tt.

Definition get_string_index : M Z := fun w c => Ret (inr (c_string_index c), w, c).

(** [pconv]: [room] is how many values the stack of the new state may get. *)
Definition pconv (st : store) (L : Z) (ccalls : nat) (room : Z) (l : positive) : M unit :=
  _ ← convtable st L ccalls l;
  n ← get_string_index;
  luaL_checkstack room (n + 3).

(** [luaL_newstate] and the first table get the next two addresses. *)
Definition lnewconf (st : store) (ccalls : nat) (room : Z) (l : positive) (w : world) : outcome ((string + Z) * world) :=
  let L := w_next w in
  let tbl := w_next w + 1 in
  let w := World (<[tbl := zero_table]> (w_tables w)) (w_states w) (w_next w + 2) in
  '(r, w, ctx) ← pconv st L ccalls room l w (Context tbl 1 ∅);
  match r with
  | inl e => w ← delete_conf tbl w; Ret (inl e, w)
  | inr _ =>
      let s := LuaState (State 0 0 tbl) (convert_stringmap (c_strings ctx)) in
      Ret (inr tbl, World (w_tables w) (<[L := s]> (w_states w)) (w_next w))
  end.

Definition get_table (tbl : option Z) : outcome Z :=
  match tbl with Some p => Ret p | None => LuaError "Need a conf object" end.

Definition ldeleteconf (tbl : option Z) (w : world) : outcome world :=
  p ← get_table tbl;
  t ← deref (w_tables w !! p);
  L ← deref (t_L t);
  _ ← deref (w_states w !! L);
  delete_conf p (World (w_tables w) (delete L (w_states w)) (w_next w)).

(** ** Reading *)

(** [lua_tolstring] on the stack of [L] *)
Definition tolstring (w : world) (L : option Z) (i : Z) : outcome bytes :=
  L ← deref L; s ← deref (w_states w !! L); deref (l_strings s !! i).

Definition pushvalue (w : world) (L : option Z) (v : value) : outcome lua_value :=
  match v with
  | VReal n => Ret (LReal n)
  | VInteger d => Ret (LInteger d)
  | VString i => s ← tolstring w L i; Ret (LString s)
  | VBoolean b => Ret (LBoolean b)
  | VTable p => Ret (LPointer p)
  | VNil => Ret LNil
  end.

(** Whether a node has the key. *)
Definition node_is (w : world) (t : table) (keyhash key keytype : Z) (s : bytes) (n : node) : outcome bool :=
  if keyhash =? n_keyhash n then
    if n_keytype n =? KEYTYPE_INTEGER then Ret ((keytype =? KEYTYPE_INTEGER) && (n_key n =? key))
    else if keytype =? KEYTYPE_STRING then s2 ← tolstring w (t_L t) (n_key n); Ret (bool_decide (s = s2))
    else Ret false
  else Ret false.

(** [for (;;)], from the slot [i]; the result is the index of the node. *)
Fixpoint lookup_loop (fuel : nat) (w : world) (t : table) (i keyhash key keytype : Z) (s : bytes) : outcome (option Z) :=
  match fuel with
  | O => Undefined
  | S fuel =>
      slot ← arr_get (t_hash t) i;
      n ← deref slot;
      found ← node_is w t keyhash key keytype s n;
      if found : bool then Ret (Some i)
      else if n_next n <? 0 then Ret None
      else lookup_loop fuel w t (n_next n) keyhash key keytype s
  end.

Definition lookup_key (w : world) (t : table) (keyhash key keytype : Z) (s : bytes) : outcome (option Z) :=
  if t_sizehash t =? 0 then Ret None
  else
    let i := keyhash mod t_sizehash t in
    slot ← arr_get (t_hash t) i;
    n ← deref slot;
    if negb (keyhash =? n_keyhash n) && n_nocolliding n then Ret None
    else lookup_loop (S (length (t_hash t))) w t i keyhash key keytype s.

Definition node_at (t : table) (i : Z) : outcome node := slot ← arr_get (t_hash t) i; deref slot.

(** The result is [None] when nothing is returned. *)
Definition lindexconf (w : world) (tbl : option Z) (k : lua_value) : outcome (option lua_value) :=
  p ← get_table tbl;
  t ← deref (w_tables w !! p);
  let look keyhash key keytype s :=
    r ← lookup_key w t keyhash key keytype s;
    match r with
    | Some i => n ← node_at t i; v ← pushvalue w (t_L t) (n_v n); Ret (Some v)
    | None => Ret None
    end in
  match k with
  | LReal _ => LuaError "Invalid key"
  | LInteger n =>
      let key := s32 n in
      if (0 <? key) && (key <=? t_sizearray t) then
        x ← arr_get (t_array t) (key - 1);
        v ← pushvalue w (t_L t) x; Ret (Some v)
      else look (u32 key) key KEYTYPE_INTEGER []
  | LString s => look (calchash s) 0 KEYTYPE_STRING s
  | _ => LuaError "string expected"
  end.

Definition pushkey (w : world) (L : option Z) (n : node) : outcome lua_value :=
  if n_keytype n =? KEYTYPE_INTEGER then Ret (LInteger (n_key n))
  else s ← tolstring w L (n_key n); Ret (LString s).

Definition pushfirsthash (w : world) (t : table) : outcome (option lua_value) :=
  if negb (t_sizehash t =? 0) then n ← node_at t 0; k ← pushkey w (t_L t) n; Ret (Some k) else Ret None.

(** The first index from [i] on whose value is not nil. *)
Fixpoint next_array (l : list value) (i : Z) : option Z :=
  match l with
  | [] => None
  | VNil :: l => next_array l (i + 1)
  | _ :: _ => Some i
  end.

Definition lnextkey (w : world) (tbl : option Z) (k : lua_value) : outcome (option lua_value) :=
  p ← get_table tbl;
  t ← deref (w_tables w !! p);
  let after i := match next_array (drop (Z.to_nat i) (t_array t)) i with
                 | Some i => Ret (Some (LInteger (i + 1)))
                 | None => pushfirsthash w t
                 end in
  let look keyhash key keytype s :=
    r ← lookup_key w t keyhash key keytype s;
    match r with
    | Some i => if i + 1 =? t_sizehash t then Ret None else n ← node_at t (i + 1); k ← pushkey w (t_L t) n; Ret (Some k)
    | None => Ret None
    end in
  match k with
  | LNil => after 0
  | LReal _ => Ret None
  | LInteger n =>
      let key := s32 n in
      if (0 <? key) && (key <=? t_sizearray t) then after key
      else look (u32 key) key KEYTYPE_INTEGER []
  | LString s => look (calchash s) 0 KEYTYPE_STRING s
  | _ => LuaError "string expected"
  end.

Definition llen (w : world) (tbl : option Z) : outcome Z :=
  p ← get_table tbl; t ← deref (w_tables w !! p); Ret (t_sizearray t).

Definition lhashlen (w : world) (tbl : option Z) : outcome Z :=
  p ← get_table tbl; t ← deref (w_tables w !! p); Ret (t_sizehash t).

(** ** The state of a configuration *)

(** [lua_touserdata(tbl->L, 1)], and a change of it. *)
Definition get_state (w : world) (p : Z) : outcome (Z * lua_state) :=
  t ← deref (w_tables w !! p); L ← deref (t_L t); s ← deref (w_states w !! L); Ret (L, s).

Definition set_state (w : world) (L : Z) (s : lua_state) (x : state) : world :=
  World (w_tables w) (<[L := LuaState x (l_strings s)]> (w_states w)) (w_next w).

(** [ATOM_INC(&s->ref)] and [ATOM_DEC]: the new count. *)
Definition add_ref (n : Z) (tbl : option Z) (w : world) : outcome (Z * world) :=
  p ← get_table tbl;
  '(L, s) ← get_state w p;
  let ref := s32 (s_ref (l_state s) + n) in
  Ret (ref, set_state w L s (State (s_dirty (l_state s)) ref (s_root (l_state s)))).

Definition lincref : option Z -> world -> outcome (Z * world) := add_ref 1.
Definition ldecref : option Z -> world -> outcome (Z * world) := add_ref (-1).

Definition lboxconf (tbl : option Z) (w : world) : outcome (ctrl * world) :=
  '(_, w) ← add_ref 1 tbl w; Ret (Ctrl tbl None LNil, w).

Definition releaseobj (c : ctrl) (w : world) : outcome (ctrl * world) :=
  p ← deref (c_root c);
  '(_, w) ← add_ref (-1) (Some p) w; Ret (Ctrl None None (c_uservalue c), w).

Definition lmarkdirty (tbl : option Z) (w : world) : outcome world :=
  p ← get_table tbl;
  '(L, s) ← get_state w p;
  Ret (set_state w L s (State 1 (s_ref (l_state s)) (s_root (l_state s)))).

Definition lisdirty (tbl : option Z) (w : world) : outcome bool :=
  p ← get_table tbl; '(_, s) ← get_state w p; Ret (negb (s_dirty (l_state s) =? 0)).

Definition lgetref (tbl : option Z) (w : world) : outcome Z :=
  p ← get_table tbl; '(_, s) ← get_state w p; Ret (s_ref (l_state s)).

Definition lneedupdate (c : ctrl) : option (Z * lua_value) :=
  match c_update c with Some p => Some (p, c_uservalue c) | None => None end.

Definition lupdate (c : ctrl) (n : Z) (t : lua_value) : outcome ctrl :=
  if bool_decide (c_root c = Some n) then LuaError "You should update a new object"
  else Ret (Ctrl (c_root c) (Some n) t).
