(* ===== verification/SharedataHash.v ===== *)
(** The hash part of a shared table: every node is on the chain of its main position, and chains
    end; what a lookup finds. *)
From S2P Require Import Prelude Seri Sharedata.

(** The node in the slot [i]. *)
Definition nd (H : list (option node)) (i : Z) : option node := mjoin (arr_lookup H i).

(** The slots from [i] on, along [next]. *)
Fixpoint links (H : list (option node)) (i : Z) (cs : list Z) : Prop :=
  match cs with
  | [] => i = -1
  | j :: cs => i = j /\ exists n, nd H i = Some n /\ links H (n_next n) cs
  end.

Abbreviation hlen H := (Z.of_nat (length H)).

Record hash_ok (H : list (option node)) : Prop := {
  hk_chain i n : nd H i = Some n -> exists cs, links H i cs /\ NoDup cs;
  hk_main i n : nd H i = Some n -> exists cs, links H (n_keyhash n mod hlen H) cs /\ i ∈ cs;
  hk_alone i n : nd H i = Some n -> n_nocolliding n = true -> n_next n = -1 }.

Section chains.
Implicit Types H : list (option node).

Lemma nd_lt H i n : nd H i = Some n -> 0 <= i < hlen H.
Proof. unfold nd. destruct (arr_lookup H i) eqn:E; [|done]. intros _. by apply arr_lookup_lt in E. Qed.

Lemma nd_insert H i j x : 0 <= i < hlen H -> nd (<[Z.to_nat i := x]> H) j = if decide (i = j) then x else nd H j.
Proof. intros. unfold nd. rewrite arr_lookup_insert by done. by destruct (decide (i = j)). Qed.

Lemma nd_none H i : 0 <= i < hlen H -> nd H i = None -> arr_lookup H i = Some None.
Proof. intros Hi. unfold nd. destruct (arr_lookup_is_Some H i Hi) as [[n|] ->]; done. Qed.

Lemma nd_empty n i : nd (replicate n None) i = None.
Proof.
  unfold nd, arr_lookup. destruct (i <? 0); [done|]. destruct (replicate n None !! Z.to_nat i) as [x|] eqn:E; [|done].
  by apply lookup_replicate_1 in E as [-> _].
Qed.

Lemma links_det H cs : forall i cs', links H i cs -> links H i cs' -> cs = cs'.
Proof.
  induction cs as [|j cs IH]; intros i [|j' cs']; cbn [links]; [done|..].
  - intros -> (<- & n & Hn%nd_lt & _). lia.
  - intros (<- & n & Hn%nd_lt & _) ->. lia.
  - intros (<- & n & Hn & Hl) (<- & n' & Hn' & Hl'). simplify_eq. f_equal. by apply (IH (n_next n)).
Qed.

Lemma links_filled H cs : forall i j, links H i cs -> j ∈ cs -> exists n, nd H j = Some n.
Proof.
  induction cs as [|k cs IH]; intros i j; cbn [links]; [by intros _ ?%elem_of_nil|].
  intros (<- & n & Hn & Hl) [->|Hj]%elem_of_cons; [by exists n|by apply (IH (n_next n))].
Qed.

(** Slots that are not on a chain may change. *)
Lemma links_frame H H' cs : forall i, (forall j, j ∈ cs -> nd H' j = nd H j) -> links H i cs -> links H' i cs.
Proof.
  induction cs as [|k cs IH]; intros i Hj; cbn [links]; [done|]. intros (<- & n & Hn & Hl). split; [done|].
  exists n. split; [rewrite Hj by (by left); done|]. apply IH; [|done]. intros j ?. apply Hj. by right.
Qed.

Lemma links_length H i cs : links H i cs -> NoDup cs -> (length cs <= length H)%nat.
Proof.
  intros Hl Hn. assert (forall j, j ∈ cs -> 0 <= j < hlen H) as Hj by (intros j [n ?%nd_lt]%(links_filled _ _ _ _ Hl); done).
  transitivity (length (seqZ 0 (hlen H))); [|rewrite length_seqZ; lia].
  apply submseteq_length, NoDup_submseteq; [done|]. intros j ?%Hj. apply elem_of_seqZ. lia.
Qed.

Lemma hash_ok_empty n : hash_ok (replicate n None).
Proof. split; intros i m; by rewrite nd_empty. Qed.

(** *** A key at its main position *)

Lemma hash_ok_fill H i n : nd H i = None -> 0 <= i < hlen H -> n_keyhash n mod hlen H = i -> n_next n = -1 ->
  hash_ok H -> hash_ok (<[Z.to_nat i := Some n]> H).
Proof.
  intros Hi Hr Hm Hx [Hc Hma Ha]. set (H' := <[Z.to_nat i := Some n]> H).
  assert (forall j, nd H' j = if decide (i = j) then Some n else nd H j) as E by (intros; by apply nd_insert).
  assert (forall j cs, links H j cs -> links H' j cs) as Hfr.
  { intros j cs Hl. apply (links_frame H); [|done]. intros k [m Hk]%(links_filled _ _ _ _ Hl). rewrite E. destruct (decide (i = k)); [congruence|done]. }
  assert (links H' i [i]) as Hli by (split; [done|exists n; rewrite E, decide_True by done; split; [done|by rewrite Hx]]).
  assert (hlen H' = hlen H) as El by (unfold H'; by rewrite length_insert). split; intros j m; rewrite E; destruct (decide (i = j)) as [<-|].
  - intros [= <-]. exists [i]. split; [done|apply NoDup_singleton].
  - intros (cs & Hl & Hn)%Hc. exists cs. auto.
  - intros [= <-]. exists [i]. rewrite El, Hm. split; [done|by left].
  - intros (cs & Hl & Hn)%Hma. exists cs. rewrite El. auto.
  - intros [= <-] _. done.
  - apply Ha.
Qed.

(** *** A key that collides with the one at [i] goes to the empty slot [j] *)

(** The chain with [j] behind [i]. *)
Definition splice (i j : Z) (cs : list Z) : list Z := concat ((fun k => if k =? i then [k; j] else [k]) <$> cs).

Lemma elem_of_splice i j k cs : k ∈ splice i j cs <-> k ∈ cs \/ (k = j /\ i ∈ cs).
Proof.
  unfold splice. induction cs as [|x cs IH]; cbn [fmap list_fmap concat].
  - rewrite !elem_of_nil. tauto.
  - rewrite elem_of_app, IH, !elem_of_cons. destruct (Z.eqb_spec x i) as [->|]; rewrite ?elem_of_cons, ?elem_of_nil; naive_solver.
Qed.

Lemma NoDup_splice i j cs : NoDup cs -> j ∉ cs -> NoDup (splice i j cs).
Proof.
  unfold splice. induction cs as [|x cs IH]; cbn [fmap list_fmap concat]; [done|].
  intros [Hx Hn]%NoDup_cons [Hj1 Hj2]%not_elem_of_cons. pose proof (elem_of_splice i j) as Hs. unfold splice in Hs.
  apply NoDup_app. split; [|split; [|by apply IH]]; destruct (Z.eqb_spec x i) as [->|].
  - apply NoDup_cons. split; [|apply NoDup_singleton]. intros ?%list_elem_of_singleton. done.
  - apply NoDup_singleton.
  - intros k [->|[->|[]%elem_of_nil]%elem_of_cons]%elem_of_cons; rewrite Hs; tauto.
  - intros k ->%list_elem_of_singleton. rewrite Hs. naive_solver.
Qed.

Lemma hash_ok_collide H i j mp n mp' : nd H i = Some mp -> nd H j = None -> 0 <= j < hlen H -> n_keyhash n mod hlen H = i -> n_next n = n_next mp ->
  n_nocolliding n = false -> n_next mp' = j -> n_keyhash mp' = n_keyhash mp -> n_nocolliding mp' = false ->
  hash_ok H -> hash_ok (<[Z.to_nat j := Some n]> (<[Z.to_nat i := Some mp']> H)).
Proof.
  intros Hi Hj Hr Hm Hx Hc0 Hx' Hk Hc0' [Hc Hma Ha]. set (H' := <[Z.to_nat j := Some n]> _). pose proof (nd_lt _ _ _ Hi) as Hr'.
  assert (forall k, nd H' k = if decide (j = k) then Some n else if decide (i = k) then Some mp' else nd H k) as E.
  { intros k. unfold H'. rewrite nd_insert by (rewrite length_insert; lia). destruct (decide (j = k)); [done|]. by apply nd_insert. }
  assert (i <> j) as Hij by congruence.
  assert (forall cs k, links H k cs -> links H' k (splice i j cs)) as Hfr.
  { induction cs as [|x cs IH]; intros k; cbn [links splice fmap list_fmap concat]; [done|]. intros (<- & m & Hkm & Hl%IH). destruct (Z.eqb_spec k i) as [->|].
    - split; [done|]. exists mp'. rewrite E, decide_False, decide_True by done. split; [done|]. rewrite Hx'. split; [done|]. exists n.
      rewrite E, decide_True by done. split; [done|]. assert (m = mp) as -> by congruence. by rewrite Hx.
    - split; [done|]. exists m. rewrite E, decide_False, decide_False by congruence. done. }
  assert (hlen H' = hlen H) as El by (unfold H'; by rewrite !length_insert).
  assert (forall k cs, links H k cs -> j ∉ cs) as Hnj by (intros k cs Hl [m Hm']%(links_filled _ _ _ _ Hl); congruence).
  destruct (Hc i mp Hi) as (ci & Hci & Hni).
  assert (exists ci', links H' i ci' /\ i ∈ ci' /\ j ∈ ci') as (ci' & Hci' & Hii & Hjj).
  { exists (splice i j ci). split; [by apply Hfr|]. assert (i ∈ ci) as Hin by (destruct ci as [|x ci]; cbn in Hci; [lia|destruct Hci as [<- _]; by left]).
    rewrite !elem_of_splice. auto. }
  split; intros k m; rewrite E; repeat case_decide; try subst k.
  - intros [= <-]. destruct ci as [|x ci]; cbn [links] in Hci; [lia|]. destruct Hci as (<- & m & Hm' & Hl). assert (m = mp) as -> by congruence.
    exists (j :: splice i j ci). pose proof (Hnj _ _ Hl). apply NoDup_cons in Hni as [Hni1 Hni2]. split.
    + split; [done|]. exists n. rewrite E, decide_True by done. split; [done|]. rewrite Hx. by apply Hfr.
    + apply NoDup_cons. split; [rewrite elem_of_splice; tauto|by apply NoDup_splice].
  - intros [= <-]. exists (splice i j ci). split; [by apply Hfr|]. apply NoDup_splice; [done|by apply (Hnj i)].
  - intros (cs & Hl & Hn)%Hc. exists (splice i j cs). split; [by apply Hfr|]. apply NoDup_splice; [done|by apply (Hnj k)].
  - intros [= <-]. rewrite El, Hm. by exists ci'.
  - intros [= <-]. rewrite El, Hk. destruct (Hma i mp Hi) as (cs & Hl & Hin). exists (splice i j cs). split; [by apply Hfr|]. rewrite elem_of_splice. auto.
  - intros (cs & Hl & Hin)%Hma. rewrite El. exists (splice i j cs). split; [by apply Hfr|]. rewrite elem_of_splice. auto.
  - intros [= <-]. congruence.
  - intros [= <-]. congruence.
  - apply Ha.
Qed.
End chains.

(** ** Lookups *)

Section lookup.
Context (w : world) (t : table) (keyhash key keytype : Z) (s : bytes) (P : node -> bool).
Let H := t_hash t.
Context (Hsize : t_sizehash t = hlen H) (Hok : hash_ok H).
Context (HP : forall i n, nd H i = Some n -> node_is w t keyhash key keytype s n = Ret (P n)).

Lemma node_is_hash n : node_is w t keyhash key keytype s n = Ret true -> n_keyhash n = keyhash.
Proof. unfold node_is. destruct (Z.eqb_spec keyhash (n_keyhash n)); [done|]. intros [=]. Qed.

Lemma nd_get i n : nd H i = Some n -> arr_get H i = Ret (Some n).
Proof. unfold nd, arr_get. destruct (arr_lookup H i) as [x|]; [|done]. cbn. by intros ->. Qed.

(** What a lookup gives: the node, or nothing when no node has the key. *)
Definition finds (r : option Z) : Prop :=
  match r with Some i => exists n, nd H i = Some n /\ P n = true | None => forall i n, nd H i = Some n -> P n = false end.

Lemma chain_lookup_spec fuel : forall i cs, (length cs < fuel)%nat -> cs <> [] -> links H i cs ->
  exists r, lookup_loop fuel w t i keyhash key keytype s = Ret r /\
    match r with Some j => exists n, nd H j = Some n /\ P n = true | None => forall j n, j ∈ cs -> nd H j = Some n -> P n = false end.
Proof.
  induction fuel as [|fuel IH]; intros i [|k cs] Hf Hne; cbn [links length] in *; [lia..|done|]. intros (<- & n & Hn & Hl).
  cbn [lookup_loop]. fold H. rewrite (nd_get _ _ Hn). cbn [mbind outcome_bind deref]. rewrite (HP _ _ Hn). destruct (P n) eqn:EP.
  - exists (Some i). split; [done|]. by exists n.
  - assert (forall j m, j = i -> nd H j = Some m -> P m = false) as Hi by (intros j m -> ?; congruence).
    destruct (Z.ltb_spec (n_next n) 0) as [Hlt|].
    + exists None. split; [done|]. destruct cs as [|k cs]; [|cbn in Hl; destruct Hl as (<- & m & Hm%nd_lt & _); lia].
      intros j m ->%list_elem_of_singleton. by apply Hi.
    + destruct (IH (n_next n) cs) as (r & -> & Hr); [lia|by destruct cs; cbn in Hl; [lia|]|done|]. exists r. split; [done|]. destruct r as [j|]; [done|].
      intros j m [->|Hj]%elem_of_cons; [by apply Hi|by apply Hr].
Qed.

Lemma lookup_key_spec : (0 < hlen H -> exists n, nd H (keyhash mod hlen H) = Some n) ->
  exists r, lookup_key w t keyhash key keytype s = Ret r /\ finds r.
Proof.
  intros Hfull. unfold lookup_key. rewrite Hsize. fold H. destruct (Z.eqb_spec (hlen H) 0) as [E0|Hne].
  { exists None. split; [done|]. intros i n Hn%nd_lt. lia. }
  destruct Hfull as [n0 Hn0]; [lia|]. set (i0 := keyhash mod hlen H) in *. rewrite (nd_get _ _ Hn0). cbn [mbind outcome_bind deref].
  assert (forall i n, nd H i = Some n -> P n = true -> exists cs, links H i0 cs /\ i ∈ cs) as Hmain.
  { intros i n Hn EP. pose proof (HP _ _ Hn) as E. rewrite EP in E. apply node_is_hash in E. destruct (hk_main H Hok i n Hn) as (cs & Hl & Hi). rewrite E in Hl. by exists cs. }
  destruct (negb (keyhash =? n_keyhash n0) && n_nocolliding n0) eqn:E.
  - exists None. split; [done|]. apply andb_prop in E as [E1 E2]. intros i n Hn. destruct (P n) eqn:EP; [|done]. exfalso. destruct (Hmain i n Hn EP) as (cs & Hl & Hi).
    assert (links H i0 [i0]) as Hl1 by (split; [done|]; exists n0; split; [done|]; by apply (hk_alone H Hok i0)).
    rewrite (links_det _ _ _ _ Hl Hl1), list_elem_of_singleton in Hi. subst i. assert (n = n0) as -> by congruence.
    pose proof (HP _ _ Hn) as E. rewrite EP in E. apply node_is_hash in E. rewrite E, Z.eqb_refl in E1. done.
  - destruct (hk_chain H Hok i0 n0 Hn0) as (cs & Hl & Hnd). destruct (chain_lookup_spec (S (length (t_hash t))) i0 cs) as (r & Er & Hr); [|by intros ->; cbn in Hl; pose proof (nd_lt _ _ _ Hn0); lia|done|].
    { pose proof (links_length _ _ _ Hl Hnd). fold H. lia. }
    exists r. split; [done|]. destruct r as [j|]; [done|]. intros i n Hn. destruct (P n) eqn:EP; [|done]. destruct (Hmain i n Hn EP) as (cs' & Hl' & Hi).
    rewrite (links_det _ _ _ _ Hl' Hl) in Hi. rewrite <- EP. by apply (Hr i).
Qed.
End lookup.
