(* ===== verification/SharedataConv.v ===== *)
(** Conversion of a table of Lua: what a shared table holds, and that every table that can be
    converted is. *)
From S2P Require Import Prelude Seri Sharedata SharedataHash.

(** ** What can be converted, and what it becomes *)

Definition int_key (k : lua_value) : Prop :=
  match k with LInteger n => INT_MIN <= n <= INT_MAX | LString _ => True | _ => False end.

Section spec.
Context (st : store) (L : Z).

(** Keys are integers of 32 bits or strings, each once, and values are numbers, strings,
    booleans and such tables; at most [n] are nested. *)
Fixpoint convertible (n : nat) (l : positive) : Prop :=
  match n with
  | O => False
  | S n => exists T, st !! l = Some T /\ 0 <= lt_rawlen T <= INT_MAX /\ Z.of_nat (length (lt_entries T)) <= INT_MAX /\ NoDup (lt_entries T).*1 /\
      Forall (fun e => int_key e.1 /\ match e.2 with LTable l => convertible n l | LNil | LPointer _ | LOther _ => False | _ => True end) (lt_entries T)
  end.

(** All strings of all tables. *)
Definition strings_of (x : lua_value) : list bytes := match x with LString s => [s] | _ => [] end.
Definition strings : gset bytes :=
  list_to_set (map_to_list st ≫= fun lT => lt_entries lT.2 ≫= fun e => strings_of e.1 ++ strings_of e.2).

Lemma strings_in l T e s : st !! l = Some T -> e ∈ lt_entries T -> s ∈ strings_of e.1 ++ strings_of e.2 -> s ∈ strings.
Proof.
  intros Hl He Hs. apply elem_of_list_to_set, list_elem_of_bind. exists (l, T). split; [|by apply elem_of_map_to_list].
  apply list_elem_of_bind. by exists e.
Qed.

Definition hashkey (n : Z) (k : lua_value) : bool := match k with LInteger z => negb ((0 <? z) && (z <=? n)) | _ => true end.
Definition hash_entries (T : lua_table) : list (lua_value * lua_value) := filter (fun e => hashkey (lt_rawlen T) e.1 = true) (lt_entries T).

Definition khash (k : lua_value) : Z := match k with LInteger n => u32 n | LString s => calchash s | _ => 0 end.

Section values.
Context (T : Z -> positive -> Prop) (m : gmap bytes Z).

(** The value [x] of Lua as [v], with the tables that [T] relates. *)
Definition value_rep (v : value) (x : lua_value) : Prop :=
  match x with
  | LNil => v = VNil
  | LBoolean b => v = VBoolean b
  | LInteger n => v = VInteger n
  | LReal n => v = VReal n
  | LString s => exists i, v = VString i /\ m !! s = Some i
  | LTable l => exists p, v = VTable p /\ T p l
  | LPointer _ | LOther _ => False
  end.

Definition key_rep (n : node) (k : lua_value) : Prop :=
  match k with
  | LInteger z => n_keytype n = KEYTYPE_INTEGER /\ n_key n = z /\ n_keyhash n = u32 z
  | LString s => n_keytype n = KEYTYPE_STRING /\ m !! s = Some (n_key n) /\ n_keyhash n = calchash s
  | _ => False
  end.

Definition node_rep (n : node) (e : lua_value * lua_value) : Prop := key_rep n e.1 /\ value_rep (n_v n) e.2.

(** A table that is being filled: the array has the values of [f], the slots the entries [own]. *)
Definition filling (f : nat -> lua_value) (own : list (option (lua_value * lua_value))) (t : table) : Prop :=
  t_L t = Some L /\ t_sizearray t = Z.of_nat (length (t_array t)) /\ t_sizehash t = hlen (t_hash t) /\
  (forall i v, t_array t !! i = Some v -> value_rep v (f i)) /\
  Forall2 (option_Forall2 node_rep) (t_hash t) own.

(** A table that is complete. *)
Definition table_rep (t : table) (lt : lua_table) : Prop :=
  t_sizearray t = lt_rawlen lt /\ hash_ok (t_hash t) /\
  exists own, own ≡ₚ hash_entries lt /\ filling (fun i => rawgeti lt (Z.of_nat i + 1)) (Some <$> own) t.
End values.

(** The table of Lua [l] is at [p], with all its tables from [a] to [b]. *)
Fixpoint tree (n : nat) (h : gmap Z table) (m : gmap bytes Z) (a b : Z) (p : Z) (l : positive) : Prop :=
  match n with
  | O => False
  | S n => a <= p < b /\ convertible (S n) l /\ exists t lt, h !! p = Some t /\ st !! l = Some lt /\ table_rep (tree n h m a b) m t lt
  end.

(** [F] are the addresses of the table at [p] and of all that it has. *)
Fixpoint owns (n : nat) (h : gmap Z table) (p : Z) (F : list Z) : Prop :=
  match n with
  | O => False
  | S n => exists t fs, h !! p = Some t /\ Forall2 (owns n h) (kids t) fs /\ F = p :: mjoin fs
  end.

(** *** They do not depend on other tables *)

Lemma value_rep_mono (T T' : Z -> positive -> Prop) m m' v x : (forall p l, T p l -> T' p l) -> m ⊆ m' -> value_rep T m v x -> value_rep T' m' v x.
Proof.
  intros HT Hm. destruct x; cbn; try done.
  - intros (i & -> & Hi). exists i. split; [done|]. by eapply lookup_weaken.
  - intros (p & -> & Hp). exists p. auto.
Qed.

Lemma key_rep_mono m m' n k : m ⊆ m' -> key_rep m n k -> key_rep m' n k.
Proof. intros Hm. destruct k; cbn; try done. intros (? & ? & ?). split; [done|]. split; [by eapply lookup_weaken|done]. Qed.

Lemma filling_mono (T T' : Z -> positive -> Prop) m m' f own t : (forall p l, T p l -> T' p l) -> m ⊆ m' -> filling T m f own t -> filling T' m' f own t.
Proof.
  intros HT Hm (H1 & H2 & H3 & H4 & H5). repeat split; try done.
  - intros i v Hi. eapply value_rep_mono; [done|done|]. by apply (H4 i).
  - eapply Forall2_impl; [exact H5|]. intros s o Hso. destruct Hso as [n e [Hk Hv]|]; constructor. split; [by eapply key_rep_mono|by eapply value_rep_mono].
Qed.

Lemma tree_mono n : forall h h' m m' a b a' b' p l, (forall q, a <= q < b -> h' !! q = h !! q) -> m ⊆ m' -> a' <= a -> b <= b' -> tree n h m a b p l -> tree n h' m' a' b' p l.
Proof.
  induction n as [|n IH]; intros h h' m m' a b a' b' p l Hh Hm Ha Hb; cbn [tree]; [done|].
  intros (Hp & Hc & t & lt & Ht & Hl & Hs & Hok & own & Ho & Hf). split; [lia|]. split; [exact Hc|]. exists t, lt. split; [by rewrite Hh|]. split; [done|]. split; [done|]. split; [done|]. exists own. split; [done|].
  eapply filling_mono; [|exact Hm|exact Hf]. intros q l' Hq. eapply IH; [| | | |exact Hq]; [exact Hh|exact Hm|lia|lia].
Qed.

Lemma owns_mono n : forall h h' p F, (forall q, q ∈ F -> h' !! q = h !! q) -> owns n h p F -> owns n h' p F.
Proof.
  induction n as [|n IH]; intros h h' p F Hh; cbn [owns]; [done|]. intros (t & fs & Ht & Hk & ->). exists t, fs. split; [rewrite Hh; [done|by left]|]. split; [|done].
  assert (forall q, q ∈ mjoin fs -> h' !! q = h !! q) as Hh' by (intros q Hq; apply Hh; by right).
  clear -Hk Hh' IH. induction Hk as [|q G ks fs HG _ IHk]; [constructor|]. constructor; [|apply IHk; intros r Hr; apply Hh'; cbn; apply elem_of_app; by right].
  apply (IH h); [|done]. intros r Hr. apply Hh'. cbn. apply elem_of_app. by left.
Qed.
(** ** States while a table is converted *)

Lemma bindM {A B} (m : M A) (f : A -> M B) w c a w' c' : m w c = Ret (inr a, w', c') -> (m ≫= f) w c = f a w' c'.
Proof. intros E. unfold mbind, m_bind. by rewrite E. Qed.

Ltac run := erewrite bindM; [|reflexivity].
Ltac run_with E := erewrite bindM; [|exact E].

Record smap_ok (m : gmap bytes Z) (idx : Z) : Prop := {
  sm_size : idx = 1 + Z.of_nat (size m);
  sm_inj s s' i : m !! s = Some i -> m !! s' = Some i -> s = s';
  sm_range s i : m !! s = Some i -> 2 <= i <= idx;
  sm_dom : dom m ⊆ strings }.

(** New tables, and strings, may be there; the tables that were there are as they were. *)
Record grows (w : world) (c : context) (w' : world) (c' : context) : Prop := {
  gr_states : w_states w' = w_states w;
  gr_next : w_next w <= w_next w';
  gr_tables q : q < w_next w -> w_tables w' !! q = w_tables w !! q;
  gr_tbl : c_tbl c' = c_tbl c;
  gr_strings : c_strings c ⊆ c_strings c' }.

Record fine (w : world) (c : context) : Prop := {
  fi_map : smap_ok (c_strings c) (c_string_index c);
  fi_free q : w_next w <= q -> w_tables w !! q = None;
  fi_tbl : c_tbl c < w_next w }.

Lemma grows_refl w c : grows w c w c.
Proof. by split. Qed.

Lemma grows_trans w1 c1 w2 c2 w3 c3 : grows w1 c1 w2 c2 -> grows w2 c2 w3 c3 -> grows w1 c1 w3 c3.
Proof.
  intros [A1 A2 A3 A4 A5] [B1 B2 B3 B4 B5]. split; [congruence|lia| |congruence|by etrans].
  intros q Hq. rewrite B3, A3; [done|lia..].
Qed.

Context (Hstr : Z.of_nat (size strings) < INT_MAX).

Lemma stringindex_spec s w c : s ∈ strings -> fine w c ->
  exists i c', stringindex s w c = Ret (inr i, w, c') /\ grows w c w c' /\ fine w c' /\ c_strings c' !! s = Some i.
Proof.
  intros Hs [[Z1 Z2 Z3 Z4] F2 F3]. unfold stringindex. destruct (c_strings c !! s) as [i|] eqn:Es.
  { exists i, c. split; [done|]. split; [apply grows_refl|]. by split. }
  assert (size (c_strings c) < size strings)%nat as Hlt.
  { assert (dom (c_strings c) ⊂ strings) as Hsub; [|apply subset_size in Hsub; by rewrite size_dom in Hsub].
    split; [done|]. intros Hx. apply Hx, elem_of_dom in Hs as [? ?]. congruence. }
  rewrite int_ok_Ret by (unfold INT_MIN, INT_MAX in *; lia). set (i := c_string_index c + 1). cbn [mbind outcome_bind].
  exists i, (Context (c_tbl c) i (<[s := i]> (c_strings c))). split; [done|]. split; [|split; [split; [split|done|done]|by apply lookup_insert_eq]].
  - split; try done. by apply insert_subseteq.
  - cbn. rewrite map_size_insert_None by done. lia.
  - cbn. intros s1 s2 j. rewrite !lookup_insert. repeat case_decide; subst; try done; [|..|apply Z2].
    + intros [= <-] ?%Z3. lia.
    + intros ?%Z3 [= <-]. lia.
  - cbn. intros s1 j. rewrite lookup_insert. case_decide; [intros [= <-]; lia|]. intros ?%Z3. lia.
  - cbn. rewrite dom_insert_L. set_solver.
Qed.

(** ** Values *)

Definition good_value (n : nat) (x : lua_value) : Prop :=
  match x with LTable l => convertible n l | LString s => s ∈ strings | LPointer _ | LOther _ => False | _ => True end.

(** What a conversion of the table [l] to the new table [p] does. *)
Definition converts (n : nat) (conv : positive -> M unit) : Prop := forall l w c,
  convertible n l -> fine w c -> c_tbl c = w_next w - 1 -> w_tables w !! c_tbl c = Some zero_table ->
  exists w' c', conv l w c = Ret (inr tt, w', c') /\ fine w' c' /\ w_states w' = w_states w /\ w_next w <= w_next w' /\
    (forall q, q < c_tbl c -> w_tables w' !! q = w_tables w !! q) /\ c_tbl c' = c_tbl c /\ c_strings c ⊆ c_strings c' /\
    tree n (w_tables w') (c_strings c') (c_tbl c) (w_next w') (c_tbl c) l /\
    exists F, owns n (w_tables w') (c_tbl c) F /\ F ≡ₚ seqZ (c_tbl c) (w_next w' - c_tbl c).

Section filling.
Context (n : nat) (conv : positive -> M unit) (Hconv : converts n conv).

Lemma setvalue_spec x w c : good_value n x -> fine w c ->
  exists v w' c', setvalue conv x w c = Ret (inr v, w', c') /\ grows w c w' c' /\ fine w' c' /\
    value_rep (tree n (w_tables w') (c_strings c') (w_next w) (w_next w')) (c_strings c') v x /\
    exists fs, Forall2 (owns n (w_tables w')) (is_table v) fs /\ mjoin fs ≡ₚ seqZ (w_next w) (w_next w' - w_next w).
Proof.
  intros Hx Hf. assert (mjoin [] ≡ₚ seqZ (w_next w) (w_next w - w_next w)) as H0 by (rewrite Z.sub_diag; done).
  destruct x; cbn [setvalue good_value] in *; try done; try (eexists _, w, c; split; [done|]; split; [apply grows_refl|]; split; [done|]; split; [done|]; exists []; done).
  - destruct (stringindex_spec s w c Hx Hf) as (i & c' & E & Hg & Hf' & Hi). rewrite (bindM _ _ _ _ _ _ _ E).
    exists (VString i), w, c'. split; [done|]. split; [done|]. split; [done|]. split; [by exists i|]. by exists [].
  - do 3 run. set (p := w_next w). set (w1 := World (<[p := zero_table]> (w_tables w)) (w_states w) (p + 1)). set (c1 := Context p (c_string_index c) (c_strings c)).
    assert (fine w1 c1) as Hf1.
    { split; [apply Hf| |cbn; lia]. intros q Hq. cbn in Hq |- *. rewrite lookup_insert_ne by lia. apply Hf. unfold p in Hq. lia. }
    destruct (Hconv l w1 c1 Hx Hf1) as (w2 & c2 & E & Hf2 & Es & En & Et & Ec & Em & Htree & F & HF & HpF); [cbn; lia|apply lookup_insert_eq|].
    run_with E. do 2 run. cbn [w1 c1 c_tbl w_next w_states w_tables c_strings] in *. rewrite Ec in *.
    eexists (VTable p), w2, _. split; [done|]. split; [split; cbn; [done|lia| |done|done]|]. { intros q Hq. rewrite Et by done. apply lookup_insert_ne. unfold p in *. lia. }
    split; [split; [apply Hf2|apply Hf2|cbn; pose proof (fi_tbl _ _ Hf); unfold p in *; lia]|]. split; [cbn; exists p; split; [done|exact Htree]|].
    exists [F]. split; [by repeat constructor|]. cbn [mjoin list_join]. by rewrite app_nil_r.
Qed.

(** *** A table that is being filled *)

(** The table [t] at [p]; [F] are the addresses of the tables that it has. *)
Definition fills (w : world) (m : gmap bytes Z) (p : Z) (f : nat -> lua_value) (own : list (option (lua_value * lua_value))) (len : Z) (F : list Z) (t : table) : Prop :=
  w_tables w !! p = Some t /\ filling (tree n (w_tables w) m (p + 1) (w_next w)) m f own t /\ t_sizearray t = len /\
  exists ks fs, ks ≡ₚ kids t /\ Forall2 (owns n (w_tables w)) ks fs /\ mjoin fs ≡ₚ F.

Lemma Forall2_owns_mono h h' ks fs : (forall q, q ∈ mjoin fs -> h' !! q = h !! q) -> Forall2 (owns n h) ks fs -> Forall2 (owns n h') ks fs.
Proof.
  intros Hh Hk. induction Hk as [|q G ks fs HG _ IH]; constructor.
  - eapply owns_mono; [|exact HG]. intros r Hr. apply Hh. cbn. apply elem_of_app. by left.
  - apply IH. intros r Hr. apply Hh. cbn. apply elem_of_app. by right.
Qed.

Lemma fills_grows w c w' c' p f own len F t : (forall q, q ∈ F -> q < w_next w) -> p < w_next w -> grows w c w' c' ->
  fills w (c_strings c) p f own len F t -> fills w' (c_strings c') p f own len F t.
Proof.
  intros HF Hp [_ Hn Ht _ Hm] (H1 & H2 & H3 & ks & fs & H4 & H5 & H6). split; [by rewrite Ht|]. split; [|split; [done|]].
  - eapply filling_mono; [|exact Hm|exact H2]. intros q l Hq. eapply tree_mono; [|exact Hm|reflexivity|exact Hn|exact Hq]. intros r Hr. apply Ht. lia.
  - exists ks, fs. split; [done|]. split; [|done]. eapply Forall2_owns_mono; [|exact H5]. intros q Hq. apply Ht, HF. by rewrite <- H6.
Qed.

Definition put (w : world) (p : Z) (t : table) : world := World (<[p := t]> (w_tables w)) (w_states w) (w_next w).

Lemma fills_write w m p f own len F t v fs' F' t' f' own' :
  fills w m p f own len F t -> Forall2 (owns n (w_tables w)) (is_table v) fs' -> mjoin fs' ≡ₚ F' -> (forall q, q ∈ F ++ F' -> p < q) ->
  kids t' ≡ₚ is_table v ++ kids t -> t_sizearray t' = len -> filling (tree n (w_tables w) m (p + 1) (w_next w)) m f' own' t' ->
  fills (put w p t') m p f' own' len (F ++ F') t'.
Proof.
  intros (H1 & H2 & H3 & ks & fs & H4 & H5 & H6) Hv HF' Hlt Hk Hlen Hf. split; [apply lookup_insert_eq|]. split; [|split; [done|]].
  - eapply filling_mono; [|reflexivity|exact Hf]. intros q l Hq. eapply tree_mono; [|reflexivity|reflexivity|reflexivity|exact Hq].
    intros r Hr. cbn. apply lookup_insert_ne. lia.
  - exists (is_table v ++ ks), (fs' ++ fs). split; [by rewrite Hk, H4|]. assert (mjoin (fs' ++ fs) ≡ₚ F ++ F') as E by (rewrite join_app, H6, HF'; apply Permutation_app_comm).
    split; [|done]. apply (Forall2_owns_mono (w_tables w)); [|by apply Forall2_app]. intros q Hq. rewrite E in Hq. apply Hlt in Hq. cbn. apply lookup_insert_ne. lia.
Qed.

(** What stays when a table is filled. *)
Record keeps (w : world) (c : context) (w' : world) (c' : context) : Prop := {
  kp_states : w_states w' = w_states w;
  kp_next : w_next w <= w_next w';
  kp_tables q : q < c_tbl c -> w_tables w' !! q = w_tables w !! q;
  kp_tbl : c_tbl c' = c_tbl c;
  kp_strings : c_strings c ⊆ c_strings c' }.

Lemma keeps_refl w c : keeps w c w c.
Proof. by split. Qed.

Lemma keeps_trans w1 c1 w2 c2 w3 c3 : keeps w1 c1 w2 c2 -> keeps w2 c2 w3 c3 -> keeps w1 c1 w3 c3.
Proof.
  intros [A1 A2 A3 A4 A5] [B1 B2 B3 B4 B5]. split; [congruence|lia| |congruence|by etrans].
  intros q Hq. rewrite B3, A3; [done..|lia].
Qed.

Lemma grows_keeps w c w' c' : fine w c -> grows w c w' c' -> keeps w c w' c'.
Proof. intros Hf [A1 A2 A3 A4 A5]. split; try done. intros q Hq. apply A3. pose proof (fi_tbl _ _ Hf). lia. Qed.

Definition below (w : world) (c : context) : list Z := seqZ (c_tbl c + 1) (w_next w - (c_tbl c + 1)).

(** The table [ctx->tbl] is being filled; [Q] holds of its slots. *)
Definition busy (Q : list (option node) -> Prop) (w : world) (c : context) (f : nat -> lua_value) (own : list (option (lua_value * lua_value))) (len : Z) : Prop :=
  fine w c /\ exists t, fills w (c_strings c) (c_tbl c) f own len (below w c) t /\ Q (t_hash t).

Lemma below_grows w c w' c' : fine w c -> grows w c w' c' -> below w c ++ seqZ (w_next w) (w_next w' - w_next w) = below w' c'.
Proof.
  intros Hf [_ Hn _ Ec _]. unfold below. rewrite Ec. pose proof (fi_tbl _ _ Hf).
  replace (w_next w' - (c_tbl c + 1)) with ((w_next w - (c_tbl c + 1)) + (w_next w' - w_next w)) by lia.
  rewrite seqZ_app by lia. do 2 f_equal. lia.
Qed.

Lemma fine_put w c t : fine w c -> fine (put w (c_tbl c) t) c.
Proof. intros [F1 F2 F3]. split; [done| |done]. intros q Hq. cbn in *. rewrite lookup_insert_ne by lia. by apply F2. Qed.

Lemma keeps_put w c w' c' t : keeps w c w' c' -> keeps w c (put w' (c_tbl c) t) c'.
Proof. intros [A1 A2 A3 A4 A5]. split; try done. intros q Hq. cbn. rewrite lookup_insert_ne by lia. by apply A3. Qed.

(** A value is converted, and then put into the table: [own'] and [f'] hold it. *)
Lemma busy_value Q w c f own len x : busy Q w c f own len -> good_value n x ->
  exists v w' c' t, setvalue conv x w c = Ret (inr v, w', c') /\ keeps w c w' c' /\ fine w' c' /\ w_tables w' !! c_tbl c = Some t /\ t_sizearray t = len /\
    (forall t0, w_tables w !! c_tbl c = Some t0 -> t = t0) /\
    let T := tree n (w_tables w') (c_strings c') (c_tbl c + 1) (w_next w') in
    Q (t_hash t) /\ filling T (c_strings c') f own t /\ value_rep T (c_strings c') v x /\
    forall (Q' : list (option node) -> Prop) t' f' own', kids t' ≡ₚ is_table v ++ kids t -> t_sizearray t' = len -> filling T (c_strings c') f' own' t' -> Q' (t_hash t') -> busy Q' (put w' (c_tbl c) t') c' f' own' len.
Proof.
  intros [Hf (t & Ht & HQ)] Hx. destruct (setvalue_spec x w c Hx Hf) as (v & w' & c' & E & Hg & Hf' & Hv & fs & Ho & Hfs).
  pose proof (fi_tbl _ _ Hf) as Hp. assert (fills w' (c_strings c') (c_tbl c) f own len (below w c) t) as Ht'.
  { eapply fills_grows; [|exact Hp|exact Hg|exact Ht]. intros q [??]%elem_of_seqZ. lia. }
  exists v, w', c', t. split; [done|]. split; [by apply grows_keeps|]. split; [done|]. split; [apply Ht'|]. split; [apply Ht'|].
  split; [intros t0; destruct Ht as [-> _]; congruence|]. cbn zeta. split; [done|]. split; [apply Ht'|]. split.
  { eapply value_rep_mono; [|reflexivity|exact Hv]. intros q l Hq. eapply tree_mono; [| | | |exact Hq]; [done|reflexivity|lia|reflexivity]. }
  intros Q' t' f' own' Hk Hlen Hfill HQ'. pose proof (gr_tbl _ _ _ _ Hg) as Ec. split; [rewrite <- Ec; by apply fine_put|].
  exists t'. split; [|done]. rewrite Ec. replace (below (put w' (c_tbl c) t') c') with (below w c ++ seqZ (w_next w) (w_next w' - w_next w)) by (by rewrite (below_grows w c w' c')).
  eapply fills_write; [exact Ht'|exact Ho|exact Hfs| |exact Hk|exact Hlen|exact Hfill].
  intros q Hq. pose proof (gr_next _ _ _ _ Hg). apply elem_of_app in Hq as [[??]%elem_of_seqZ|[??]%elem_of_seqZ]; lia.
Qed.

(** *** Values of the array *)

Definition upd (f : nat -> lua_value) (i : nat) (x : lua_value) (j : nat) : lua_value := if decide (j = i) then x else f j.

Lemma bind_insert_new {A B} (g : A -> list B) l i x y : l !! i = Some x -> g x = [] -> (<[i := y]> l ≫= g) ≡ₚ g y ++ (l ≫= g).
Proof.
  intros Hi Hx. rewrite insert_take_drop by by eapply lookup_lt_Some. rewrite <- (take_drop_middle l i x Hi) at 3.
  rewrite !bind_app. cbn. rewrite Hx. cbn. by rewrite Permutation_app_swap_app.
Qed.

Lemma bind_insert_same {A B} (g : A -> list B) l i x y : l !! i = Some x -> g x = g y -> (<[i := y]> l ≫= g) = l ≫= g.
Proof.
  intros Hi Hx. rewrite insert_take_drop by by eapply lookup_lt_Some. rewrite <- (take_drop_middle l i x Hi) at 3.
  rewrite !bind_app. cbn. by rewrite Hx.
Qed.

Lemma filling_array T m f own t i v x : filling T m f own t -> value_rep T m v x -> (i < length (t_array t))%nat ->
  filling T m (upd f i x) own (Table (t_sizearray t) (t_sizehash t) (<[i := v]> (t_array t)) (t_hash t) (t_L t)).
Proof.
  intros (H1 & H2 & H3 & H4 & H5) Hv Hi. split; [done|]. cbn. rewrite length_insert. split; [done|]. split; [done|]. split; [|done].
  intros j u. unfold upd. destruct (decide (j = i)) as [->|].
  - rewrite list_lookup_insert_eq by done. by intros [= <-].
  - rewrite list_lookup_insert_ne by done. apply H4.
Qed.

Lemma setarray_spec Q w c f own len x key : busy Q w c f own len -> good_value n x -> 0 < key <= len -> f (Z.to_nat (key - 1)) = LNil ->
  exists w' c', setarray conv x key w c = Ret (inr tt, w', c') /\ keeps w c w' c' /\ busy Q w' c' (upd f (Z.to_nat (key - 1)) x) own len.
Proof.
  intros Hb Hx Hk Hnil. destruct (busy_value _ _ _ _ _ _ _ Hb Hx) as (v & w' & c' & t & E & Hkp & Hf & Ht & Hlen & _ & HQ & Hfill & Hv & Hput).
  set (i := Z.to_nat (key - 1)) in *. assert (i < length (t_array t))%nat as Hi by (destruct Hfill as (_ & ? & _); lia).
  assert (t_array t !! i = Some VNil) as Hold.
  { destruct (lookup_lt_is_Some_2 _ _ Hi) as [u Hu]. destruct Hfill as (_ & _ & _ & Ha & _). specialize (Ha i u Hu). rewrite Hnil in Ha. cbn in Ha. by rewrite Hu, Ha. }
  set (t' := Table (t_sizearray t) (t_sizehash t) (<[i := v]> (t_array t)) (t_hash t) (t_L t)).
  exists (put w' (c_tbl c) t'), c'. split; [|split; [by apply keeps_put|]].
  - unfold setarray. run_with E. run. unfold set_array. erewrite bindM; [|unfold read_table; rewrite (kp_tbl _ _ _ _ Hkp), Ht; reflexivity].
    erewrite bindM; [|unfold lift; rewrite arr_set_Ret by lia; reflexivity]. rewrite (kp_tbl _ _ _ _ Hkp). done.
  - apply Hput; [|done|by apply filling_array|done]. unfold kids, t'. cbn [t_array t_hash]. rewrite (bind_insert_new _ _ _ _ v Hold) by done. by rewrite app_assoc.
Qed.

(** *** Keys *)

Lemma calchash_range s : 0 <= calchash s < 2 ^ 32.
Proof.
  unfold calchash. cbv zeta. generalize (u32_range (Z.of_nat (length s))). generalize (u32 (Z.of_nat (length s))).
  generalize (seqZ 0 (Z.of_nat (length s) / (Z.shiftr (Z.of_nat (length s)) 5 + 1))). intros l. induction l as [|i l IH]; intros h Hh; [done|]. cbn [foldl]. apply IH.
  match goal with |- context [Z.lxor h (u32 ?x)] => pose proof (u32_range x) as Hu; generalize dependent (u32 x) end. intros u Hu. split; [by apply Z.lxor_nonneg; lia|].
  destruct (Z.eq_dec (Z.lxor h u) 0) as [->|Hne]; [lia|]. apply Z.log2_lt_pow2; [assert (0 <= Z.lxor h u) by (apply Z.lxor_nonneg; lia); lia|].
  eapply Z.le_lt_trans; [apply Z.log2_lxor; lia|]. apply Z.max_lub_lt; [destruct (Z.eq_dec h 0) as [->|]|destruct (Z.eq_dec u 0) as [->|]]; cbn; try lia; apply Z.log2_lt_pow2; lia.
Qed.

Lemma ishashkey_spec Q w c f own len k : busy Q w c f own len -> int_key k -> (forall s, k = LString s -> s ∈ strings) ->
  exists r c', ishashkey k w c = Ret (inr r, w, c') /\ keeps w c w c' /\ busy Q w c' f own len /\ fine w c' /\
    match r with
    | inl key => hashkey len k = false /\ k = LInteger key /\ 0 < key <= len
    | inr (key, keyhash, keytype) => hashkey len k = true /\ keyhash = khash k /\ forall x nx b, key_rep (c_strings c') (Node x key nx keyhash keytype b) k
    end.
Proof.
  intros [Hf (t & Ht & HQ)] Hk Hs. pose proof Ht as (Et & _ & Hlen & _). unfold ishashkey. run. erewrite bindM; [|unfold read_table; rewrite Et; reflexivity].
  destruct k; cbn in Hk; try done.
  - rewrite s32_small by (unfold INT_MIN, INT_MAX in *; lia). rewrite Hlen.
    destruct ((0 <? n0) && (n0 <=? len)) eqn:E; eexists _, c; (split; [reflexivity|]); (split; [apply keeps_refl|]); (split; [by split; [|exists t]|]); (split; [done|]); cbn; rewrite E; cbn.
    + apply andb_prop in E as [E1%Z.ltb_lt E2%Z.leb_le]. done.
    + done.
  - destruct (stringindex_spec s w c (Hs s eq_refl) Hf) as (i & c' & E & Hg & Hf' & Hi). run_with E. eexists _, c'. split; [reflexivity|].
    split; [by apply grows_keeps|]. split; [|done]. split; [done|]. exists t. split; [|done]. rewrite (gr_tbl _ _ _ _ Hg).
    replace (below w c') with (below w c) by (unfold below; by rewrite (gr_tbl _ _ _ _ Hg)). eapply fills_grows; [|apply Hf|exact Hg|exact Ht].
    intros q [??]%elem_of_seqZ. pose proof (fi_tbl _ _ Hf). lia.
Qed.

(** *** Slots *)

(** The entry in the slot [i]. *)
Definition own_at (own : list (option (lua_value * lua_value))) (i : Z) : option (lua_value * lua_value) := mjoin (arr_lookup own i).

Lemma own_at_insert own i j x : 0 <= i < hlen own -> own_at (<[Z.to_nat i := x]> own) j = if decide (i = j) then x else own_at own j.
Proof. intros. unfold own_at. rewrite arr_lookup_insert by done. by destruct (decide (i = j)). Qed.

Lemma own_at_lt own i e : own_at own i = Some e -> 0 <= i < hlen own.
Proof. unfold own_at. destruct (arr_lookup own i) eqn:E; [|done]. intros _. by apply arr_lookup_lt in E. Qed.

Lemma filling_slot T m f own t i : filling T m f own t -> option_Forall2 (node_rep T m) (nd (t_hash t) i) (own_at own i).
Proof.
  intros (_ & _ & _ & _ & H). unfold nd, own_at, arr_lookup. destruct (i <? 0); [constructor|]. apply (Forall2_lookup _ (t_hash t) own) with (i := Z.to_nat i) in H.
  destruct H as [x y H|]; [exact H|constructor].
Qed.

Lemma filling_length T m f own t : filling T m f own t -> hlen own = hlen (t_hash t).
Proof. intros (_ & _ & _ & _ & H). by rewrite (Forall2_length _ _ _ H). Qed.

Lemma nd_lookup H i : 0 <= i < hlen H -> H !! Z.to_nat i = Some (nd H i).
Proof.
  intros Hi. unfold nd. destruct (arr_lookup_is_Some H i Hi) as [x E]. rewrite E. cbn. rewrite arr_lookup_nonneg in E by lia. exact E.
Qed.

Lemma filling_insert T m f own t i x e : filling T m f own t -> 0 <= i < hlen own -> option_Forall2 (node_rep T m) x e ->
  filling T m f (<[Z.to_nat i := e]> own) (Table (t_sizearray t) (t_sizehash t) (t_array t) (<[Z.to_nat i := x]> (t_hash t)) (t_L t)).
Proof.
  intros (H1 & H2 & H3 & H4 & H5) Hi Hx. split; [done|]. split; [done|]. cbn [t_sizehash t_hash t_array t_L]. split; [by rewrite length_insert|]. split; [done|]. by apply Forall2_insert.
Qed.

Lemma set_slot_run w c t p i nn : w_tables w !! p = Some t -> 0 <= i < hlen (t_hash t) ->
  set_slot p i nn w c = Ret (inr tt, put w p (Table (t_sizearray t) (t_sizehash t) (t_array t) (<[Z.to_nat i := Some nn]> (t_hash t)) (t_L t)), c).
Proof.
  intros Ht Hi. unfold set_slot. erewrite bindM; [|unfold read_table; rewrite Ht; reflexivity].
  erewrite bindM; [|unfold lift; rewrite arr_set_Ret by lia; reflexivity]. done.
Qed.

(** The value of a key goes to the empty slot [i] of the table. *)
Lemma fill_slot_spec (Q Q' : list (option node) -> Prop) w c f own len k x key kh kt nx b i : busy Q w c f own len -> good_value n x -> own_at own i = None -> 0 <= i < hlen own ->
  (forall v, key_rep (c_strings c) (Node v key nx kh kt b) k) -> (forall H v, Q H -> hlen H = hlen own -> nd H i = None -> Q' (<[Z.to_nat i := Some (Node v key nx kh kt b)]> H)) ->
  exists w' c', (y ← setvalue conv x; set_slot (c_tbl c) i (Node y key nx kh kt b)) w c = Ret (inr tt, w', c') /\ keeps w c w' c' /\ busy Q' w' c' f (<[Z.to_nat i := Some (k, x)]> own) len.
Proof.
  intros Hb Hx Hi Hr Hkr HQ'. destruct (busy_value _ _ _ _ _ _ _ Hb Hx) as (v & w' & c' & t & E & Hkp & Hf & Ht & Hlen & _ & HQ & Hfill & Hv & Hput).
  pose proof (filling_length _ _ _ _ _ Hfill) as Hlen'. pose proof (filling_slot _ _ _ _ _ i Hfill) as Hs. rewrite Hi in Hs. inversion Hs as [|Hn]. symmetry in Hn.
  set (nn := Node v key nx kh kt b). set (t' := Table (t_sizearray t) (t_sizehash t) (t_array t) (<[Z.to_nat i := Some nn]> (t_hash t)) (t_L t)).
  exists (put w' (c_tbl c) t'), c'. split; [|split; [by apply keeps_put|]].
  - run_with E. by rewrite (set_slot_run _ _ t) by (done || lia).
  - apply (Hput Q'); [|done| |by apply HQ'].
    + unfold kids, t'. cbn [t_array t_hash]. pose proof (nd_lookup (t_hash t) i ltac:(lia)) as Hl. rewrite Hn in Hl.
      rewrite (bind_insert_new slot_tables _ _ _ (Some nn) Hl) by done. cbn. by rewrite Permutation_app_swap_app.
    + apply filling_insert; [done|lia|]. constructor. split; [|done]. eapply key_rep_mono; [apply Hkp|apply Hkr].
Qed.

Lemma busy_ext Q w c f f' own len : (forall i, Z.of_nat i < len -> f i = f' i) -> busy Q w c f own len -> busy Q w c f' own len.
Proof.
  intros Hff [Hf (t & (H1 & (A1 & A2 & A3 & A4 & A5) & H3) & HQ)]. split; [done|]. exists t. split; [|done]. split; [done|]. split; [|done]. repeat split; try done.
  intros i v Hi. rewrite <- Hff; [by apply A4|]. apply lookup_lt_Some in Hi. lia.
Qed.

Lemma busy_read Q w c f own len : busy Q w c f own len -> exists t, w_tables w !! c_tbl c = Some t /\ t_sizearray t = len /\ t_sizehash t = hlen own /\ Q (t_hash t) /\ fine w c /\
  hlen (t_hash t) = hlen own /\ exists T, filling T (c_strings c) f own t.
Proof.
  intros [Hf (t & (H1 & H2 & H3 & _) & HQ)]. pose proof (filling_length _ _ _ _ _ H2) as E. exists t. split; [done|]. split; [done|].
  split; [destruct H2 as (_ & _ & -> & _); congruence|]. split; [done|]. split; [done|]. split; [done|]. by eexists.
Qed.

(** *** The entries, in the order of [lua_next] *)

Context (len : Z) (entries : list (lua_value * lua_value)) (Hnd : NoDup entries.*1).
Context (Hgood : forall e, e ∈ entries -> int_key e.1 /\ good_value n e.2 /\ forall s, e.1 = LString s -> s ∈ strings).

Definition arr_of (es : list (lua_value * lua_value)) (i : nat) : lua_value := default LNil (assoc es (LInteger (Z.of_nat i + 1))).

Lemma assoc_snoc es k x k' : k ∉ es.*1 -> assoc (es ++ [(k, x)]) k' = if decide (k = k') then Some x else assoc es k'.
Proof.
  induction es as [|[k1 x1] es IH]; cbn [app assoc fmap list_fmap]; [done|]. cbn. intros [Hk1 Hk]%not_elem_of_cons. rewrite IH by done. repeat case_decide; congruence.
Qed.

Lemma assoc_notin es k : k ∉ es.*1 -> assoc es k = None.
Proof. induction es as [|[k1 x1] es IH]; [done|]. cbn. intros [Hk1 Hk]%not_elem_of_cons. case_decide; [congruence|auto]. Qed.

Record phase1 (pre : list (lua_value * lua_value)) (own : list (option (lua_value * lua_value))) : Prop := {
  p1_in i k x : own_at own i = Some (k, x) -> (k, x) ∈ pre /\ hashkey len k = true /\ khash k mod hlen own = i;
  p1_has k x : (k, x) ∈ pre -> hashkey len k = true -> exists e, own_at own (khash k mod hlen own) = Some e }.

Lemma pre_fresh pre k x es : entries = pre ++ (k, x) :: es -> k ∉ pre.*1.
Proof.
  intros E Hk. rewrite E, fmap_app, fmap_cons in Hnd. apply NoDup_app in Hnd as (_ & Hd & _). apply (Hd _ Hk). by left.
Qed.

Lemma pre_good pre k x es : entries = pre ++ (k, x) :: es -> int_key k /\ good_value n x /\ forall s, k = LString s -> s ∈ strings.
Proof. intros E. apply (Hgood (k, x)). rewrite E. apply elem_of_app. right. by left. Qed.

Lemma khash_range k : int_key k -> 0 <= khash k < 2 ^ 32.
Proof. destruct k; cbn; try done; intros _; [apply u32_range|apply calchash_range]. Qed.

Lemma arr_of_int pre key x i : LInteger key ∉ pre.*1 -> 0 < key -> arr_of (pre ++ [(LInteger key, x)]) i = upd (arr_of pre) (Z.to_nat (key - 1)) x i.
Proof.
  intros Hk Hkey. unfold arr_of, upd. rewrite assoc_snoc by done. destruct (decide (i = Z.to_nat (key - 1))) as [->|Hne].
  - rewrite decide_True by (f_equal; lia). done.
  - rewrite decide_False; [done|]. intros [=]. lia.
Qed.

Lemma arr_of_other pre k x i : k ∉ pre.*1 -> hashkey len k = true -> Z.of_nat i < len -> arr_of (pre ++ [(k, x)]) i = arr_of pre i.
Proof.
  intros Hk Hh Hi. unfold arr_of. rewrite assoc_snoc by done. rewrite decide_False; [done|]. intros ->. cbn in Hh.
  apply negb_true_iff, andb_false_iff in Hh as [?%Z.ltb_ge|?%Z.leb_gt]; lia.
Qed.

Lemma arr_get_slot H i : 0 <= i < hlen H -> arr_get H i = Ret (nd H i).
Proof. intros Hi. unfold nd, arr_get. destruct (arr_lookup_is_Some H i Hi) as [x ->]. done. Qed.

Lemma phase1_array pre own k x : k ∉ pre.*1 -> hashkey len k = false -> phase1 pre own -> phase1 (pre ++ [(k, x)]) own.
Proof.
  intros Hk Hh [A B]. split.
  - intros i k1 x1 Hi. destruct (A i k1 x1 Hi) as (? & ? & ?). split; [|done]. apply elem_of_app. by left.
  - intros k1 x1 [Hin|[= -> ->]%list_elem_of_singleton]%elem_of_app Hh1; [by eapply B|congruence].
Qed.

Lemma phase1_taken pre own k x e : own_at own (khash k mod hlen own) = Some e -> phase1 pre own -> phase1 (pre ++ [(k, x)]) own.
Proof.
  intros He [A B]. split.
  - intros i k1 x1 Hi. destruct (A i k1 x1 Hi) as (? & ? & ?). split; [|done]. apply elem_of_app. by left.
  - intros k1 x1 [Hin|[= -> ->]%list_elem_of_singleton]%elem_of_app Hh1; [by eapply B|]. by exists e.
Qed.

Lemma phase1_new pre own k x i : hashkey len k = true -> khash k mod hlen own = i -> own_at own i = None -> 0 <= i < hlen own -> phase1 pre own ->
  phase1 (pre ++ [(k, x)]) (<[Z.to_nat i := Some (k, x)]> own).
Proof.
  intros Hh Hm Hi Hr [A B]. split; rewrite length_insert.
  - intros j k1 x1. rewrite own_at_insert by done. destruct (decide (i = j)) as [<-|].
    + intros [= <- <-]. split; [|done]. apply elem_of_app. right. by left.
    + intros Hj. destruct (A j k1 x1 Hj) as (? & ? & ?). split; [|done]. apply elem_of_app. by left.
  - intros k1 x1 Hin Hh1. rewrite own_at_insert by done. destruct (decide (i = khash k1 mod hlen own)) as [E|]; [by eexists|].
    apply elem_of_app in Hin as [Hin|[= -> ->]%list_elem_of_singleton]; [by eapply B|congruence].
Qed.

Lemma fillnocolliding_spec es : forall pre w c own, entries = pre ++ es -> 0 < hlen own -> busy hash_ok w c (arr_of pre) own len -> phase1 pre own ->
  exists w' c' own', fillnocolliding conv es w c = Ret (inr tt, w', c') /\ keeps w c w' c' /\ busy hash_ok w' c' (arr_of entries) own' len /\
    length own' = length own /\ phase1 entries own'.
Proof.
  induction es as [|[k x] es IH]; intros pre w c own Ee Hpos Hb Hph.
  { rewrite app_nil_r in Ee. subst pre. exists w, c, own. split; [done|]. split; [apply keeps_refl|]. done. }
  destruct (pre_good _ _ _ _ Ee) as (Hik & Hgx & Hsk). pose proof (pre_fresh _ _ _ _ Ee) as Hfr. cbn [fillnocolliding].
  assert (forall w1 c1 own1, keeps w c w1 c1 -> busy hash_ok w1 c1 (arr_of (pre ++ [(k, x)])) own1 len -> length own1 = length own -> phase1 (pre ++ [(k, x)]) own1 ->
    exists w' c' own', fillnocolliding conv es w1 c1 = Ret (inr tt, w', c') /\ keeps w c w' c' /\ busy hash_ok w' c' (arr_of entries) own' len /\ length own' = length own /\ phase1 entries own') as Hnext.
  { intros w1 c1 own1 Hk1 Hb1 Hl1 Hp1. destruct (IH (pre ++ [(k, x)]) w1 c1 own1) as (w' & c' & own' & E & Hk' & Hb' & Hl' & Hp'); [by rewrite <- app_assoc|lia|done|done|].
    exists w', c', own'. split; [done|]. split; [by eapply keeps_trans|]. split; [done|]. split; [congruence|done]. }
  destruct (ishashkey_spec _ _ _ _ _ _ k Hb Hik Hsk) as (r & c1 & E & Hk1 & Hb1 & Hf1 & Hr). run_with E. destruct r as [key|[[key kh] kt]].
  - destruct Hr as (Hh & -> & Hkey). destruct (setarray_spec _ _ _ _ _ _ x key Hb1 Hgx Hkey) as (w2 & c2 & E2 & Hk2 & Hb2).
    { unfold arr_of. rewrite assoc_notin; [done|]. by replace (Z.of_nat (Z.to_nat (key - 1)) + 1) with key by lia. }
    run_with E2. apply (Hnext w2 c2 own); [by eapply keeps_trans| |done|by apply phase1_array]. eapply busy_ext; [|exact Hb2]. intros i _. cbn. rewrite arr_of_int by (done || lia). done.
  - destruct Hr as (Hh & -> & Hkr). destruct (busy_read _ _ _ _ _ _ Hb1) as (t & Ht & Hlt & Hst & Hok & _ & Hlh & T & Hfill).
    set (i := khash k mod hlen own). assert (0 <= i < hlen own) as Hi by (apply Z.mod_pos_bound; lia).
    pose proof (filling_slot _ _ _ _ _ i Hfill) as Hs. assert (forall g, busy hash_ok w c1 g own len -> (forall j, Z.of_nat j < len -> g j = arr_of pre j) -> busy hash_ok w c1 (arr_of (pre ++ [(k, x)])) own len) as Hg.
    { intros g Hg Hgj. eapply busy_ext; [|exact Hg]. intros j Hj. rewrite Hgj by done. symmetry. by apply arr_of_other. }
    assert (forall (m : M unit) w1 c1' own1, m w c1 = Ret (inr tt, w1, c1') -> keeps w c1 w1 c1' -> busy hash_ok w1 c1' (arr_of pre) own1 len -> length own1 = length own -> phase1 (pre ++ [(k, x)]) own1 ->
      exists w' c' own', (m ≫= fun _ => fillnocolliding conv es) w c1 = Ret (inr tt, w', c') /\ keeps w c w' c' /\ busy hash_ok w' c' (arr_of entries) own' len /\ length own' = length own /\ phase1 entries own') as Hgo.
    { intros m w1 c1' own1 Em Hkm Hbm Hlm Hpm. run_with Em. apply (Hnext w1 c1' own1); [by eapply keeps_trans| |done|done].
      eapply busy_ext; [|exact Hbm]. intros j Hj. symmetry. by apply arr_of_other. }
    destruct (own_at own i) as [e|] eqn:Eo; inversion Hs as [nn e' Hne En|En].
    + eapply Hgo; [|apply keeps_refl|exact Hb1|done|by eapply phase1_taken].
      run. erewrite bindM; [|unfold read_table; rewrite Ht; reflexivity]. erewrite bindM; [|unfold lift; rewrite Hst, arr_get_slot by (fold i; lia); reflexivity].
      fold i. rewrite <- En. done.
    + destruct (fill_slot_spec hash_ok hash_ok w c1 (arr_of pre) own len k x key (khash k) kt (-1) true i Hb1 Hgx Eo Hi) as (w2 & c2 & E2 & Hk2 & Hb2); [intros v; apply Hkr| |].
      { intros H v HH HlH Hn. apply hash_ok_fill; cbn; rewrite ?HlH; done. }
      eapply (Hgo _ w2 c2); [|exact Hk2|exact Hb2|by rewrite length_insert|by apply phase1_new].
      run. erewrite bindM; [|unfold read_table; rewrite Ht; reflexivity]. erewrite bindM; [|unfold lift; rewrite Hst, arr_get_slot by (fold i; lia); reflexivity].
      fold i. rewrite <- En, Hst. exact E2.
Qed.

(** *** Keys whose main position is taken *)

Definition filled (own : list (option (lua_value * lua_value))) : list (lua_value * lua_value) := omap id own.

Lemma elem_of_filled own e : e ∈ filled own <-> exists i, own_at own i = Some e.
Proof.
  unfold filled. rewrite list_elem_of_omap. split.
  - intros (o & Ho & He). cbn in He. subst o. apply list_elem_of_lookup in Ho as [i Hi]. exists (Z.of_nat i). unfold own_at. by rewrite arr_lookup_nat, Hi.
  - intros [i Hi]. unfold own_at in Hi. destruct (arr_lookup own i) as [o|] eqn:E; [|done]. cbn in Hi. subst o. exists (Some e). split; [|done].
    unfold arr_lookup in E. destruct (i <? 0); [done|]. by eapply list_elem_of_lookup_2.
Qed.

Lemma filled_cons o own : filled (o :: own) = match o with Some e => e :: filled own | None => filled own end.
Proof. by destruct o. Qed.

Lemma filled_length own : (length (filled own) <= length own)%nat.
Proof. induction own as [|[e|] own IH]; rewrite ?filled_cons; cbn [length]; [done|lia..]. Qed.

Lemma filled_all own : length (filled own) = length own -> own = Some <$> filled own.
Proof.
  induction own as [|[e|] own IH]; rewrite ?filled_cons; cbn [length fmap list_fmap]; [done|..]; intros Hl.
  - f_equal. apply IH. lia.
  - pose proof (filled_length own). lia.
Qed.

Lemma filled_room own : (length (filled own) < length own)%nat -> exists i, 0 <= i < hlen own /\ own_at own i = None.
Proof.
  induction own as [|[e|] own IH]; rewrite ?filled_cons; cbn [length]; [lia|..]; intros Hl.
  - destruct IH as (i & Hi & Ho); [lia|]. exists (i + 1). split; [lia|]. unfold own_at in *. rewrite arr_lookup_nonneg in Ho |- * by lia.
    by replace (Z.to_nat (i + 1)) with (S (Z.to_nat i)) by lia.
  - exists 0. split; [lia|done].
Qed.

Lemma NoDup_filled own : (forall i j e, own_at own i = Some e -> own_at own j = Some e -> i = j) -> NoDup (filled own).
Proof.
  induction own as [|o own IH]; intros Hi; [constructor|]. assert (forall i, 0 <= i -> own_at (o :: own) (i + 1) = own_at own i) as Hs.
  { intros i ?. unfold own_at. rewrite !arr_lookup_nonneg by lia. by replace (Z.to_nat (i + 1)) with (S (Z.to_nat i)) by lia. }
  assert (NoDup (filled own)) as Hn.
  { apply IH. intros i j e H1 H2. pose proof (own_at_lt _ _ _ H1). pose proof (own_at_lt _ _ _ H2). rewrite <- Hs in H1, H2 by lia. specialize (Hi _ _ _ H1 H2). lia. }
  rewrite filled_cons. destruct o as [e|]; [|done]. apply NoDup_cons. split; [|done]. intros [i He]%elem_of_filled. pose proof (own_at_lt _ _ _ He).
  rewrite <- Hs in He by lia. assert (own_at (Some e :: own) 0 = Some e) as H0 by done. specialize (Hi _ _ _ He H0). lia.
Qed.

Lemma empty_slot_spec H : (exists i, 0 <= i < hlen H /\ nd H i = None) -> exists j, empty_slot H 0 = Some j /\ 0 <= j < hlen H /\ nd H j = None.
Proof.
  intros (i & Hi & Hn). assert (forall l a, match empty_slot l a with Some j => exists m, j = a + Z.of_nat m /\ l !! m = Some None | None => forall m : nat, l !! m <> Some None end) as He.
  { induction l as [|[x|] l IH]; intros a; cbn [empty_slot]; [done|..].
    - specialize (IH (a + 1)). destruct (empty_slot l (a + 1)) as [j|]; [|intros [|m]; [done|apply IH]]. destruct IH as (m & -> & Hm). exists (S m). split; [lia|done].
    - exists 0%nat. split; [lia|done]. }
  specialize (He H 0). pose proof (nd_lookup H i Hi) as Hl. rewrite Hn in Hl. destruct (empty_slot H 0) as [j|]; [|by apply He in Hl]. destruct He as (m & -> & Hm). exists (0 + Z.of_nat m).
  split; [done|]. apply lookup_lt_Some in Hm as Hlt. split; [lia|]. unfold nd. rewrite Z.add_0_l, arr_lookup_nat, Hm. done.
Qed.

(** Another [next] for a node of the table. *)
Lemma busy_touch (Q Q' : list (option node) -> Prop) w c f own len1 t i mp mp' : busy Q w c f own len1 -> w_tables w !! c_tbl c = Some t -> nd (t_hash t) i = Some mp ->
  n_v mp' = n_v mp -> n_key mp' = n_key mp -> n_keyhash mp' = n_keyhash mp -> n_keytype mp' = n_keytype mp -> Q' (<[Z.to_nat i := Some mp']> (t_hash t)) ->
  busy Q' (put w (c_tbl c) (Table (t_sizearray t) (t_sizehash t) (t_array t) (<[Z.to_nat i := Some mp']> (t_hash t)) (t_L t))) c f own len1.
Proof.
  intros [Hf (t0 & Ht & HQ)] Et Hi E1 E2 E3 E4 HQ'. assert (t0 = t) as -> by (destruct Ht as [? _]; congruence). split; [by apply fine_put|]. eexists (Table _ _ _ (<[Z.to_nat i := Some mp']> (t_hash t)) _). split; [|exact HQ'].
  pose proof (nd_lt _ _ _ Hi) as Hr. pose proof (nd_lookup _ _ Hr) as Hl. rewrite Hi in Hl.
  assert (Forall2 (owns n (w_tables w)) (is_table VNil) []) as Hnil by constructor.
  rewrite <- (app_nil_r (below _ c)). eapply fills_write; [exact Ht|exact Hnil|reflexivity| | |by apply Ht|].
  - rewrite app_nil_r. intros q [??]%elem_of_seqZ. lia.
  - unfold kids. cbn [t_array t_hash is_table app]. rewrite (bind_insert_same slot_tables _ _ _ (Some mp') Hl); [done|]. cbn. by rewrite E1.
  - destruct Ht as (_ & Hfill & _). pose proof (filling_slot _ _ _ _ _ i Hfill) as Hs. rewrite Hi in Hs. inversion Hs as [mp1 e [Hk Hv] Emp Eo|]. subst mp1. symmetry in Eo.
    pose proof (filling_length _ _ _ _ _ Hfill). assert (<[Z.to_nat i := Some e]> own = own) as Eow.
    { apply list_insert_id. unfold own_at in Eo. rewrite arr_lookup_nonneg in Eo by lia. destruct (own !! Z.to_nat i); [|done]. cbn in Eo. by rewrite Eo. }
    rewrite <- Eow. apply filling_insert; [done|lia|]. constructor. split; [|by rewrite E1]. destruct e as [k x]. cbn in *. destruct k; cbn in *; rewrite ?E2, ?E3, ?E4; done.
Qed.

Lemma key_same m idx nn v k k0 key kh kt nx b : smap_ok m idx -> key_rep m nn k0 -> key_rep m (Node v key nx kh kt b) k ->
  (n_keytype nn =? kt) && (n_key nn =? key) = bool_decide (k0 = k).
Proof.
  intros Hm H1 H2. destruct k0, k; cbn in H1, H2; try done; destruct H1 as (-> & H1 & _), H2 as (-> & H2 & _); cbn.
  - destruct (Z.eqb_spec (n_key nn) key); symmetry; [apply bool_decide_eq_true|apply bool_decide_eq_false]; congruence.
  - symmetry. apply bool_decide_eq_false. congruence.
  - symmetry. apply bool_decide_eq_false. congruence.
  - destruct (Z.eqb_spec (n_key nn) key) as [E|]; symmetry; [apply bool_decide_eq_true|apply bool_decide_eq_false].
    + f_equal. apply (sm_inj _ _ Hm _ _ key); congruence.
    + intros [=]. congruence.
Qed.

Record phase2 (own1 : list (option (lua_value * lua_value))) (pre : list (lua_value * lua_value)) (own : list (option (lua_value * lua_value))) : Prop := {
  p2_in i e : own_at own i = Some e -> e ∈ entries /\ hashkey len e.1 = true;
  p2_old i e : own_at own1 i = Some e -> own_at own i = Some e;
  p2_src i e : own_at own i = Some e -> (exists j, own_at own1 j = Some e) \/ e ∈ pre;
  p2_has k x : (k, x) ∈ pre -> hashkey len k = true -> exists i, own_at own i = Some (k, x);
  p2_inj i j e : own_at own i = Some e -> own_at own j = Some e -> i = j }.

Lemma key_once k x y : (k, x) ∈ entries -> (k, y) ∈ entries -> x = y.
Proof.
  clear -Hnd. induction entries as [|[k1 x1] es IH]; [by intros ?%elem_of_nil|]. cbn in Hnd. apply NoDup_cons in Hnd as [Hk1 Hnd'].
  assert (forall y, (k1, y) ∉ es) as Hno by (intros y0 Hy; apply Hk1, list_elem_of_fmap; by exists (k1, y0)).
  intros [Hx|Hx]%elem_of_cons [Hy|Hy]%elem_of_cons; simplify_eq; [done|by destruct (Hno _ Hy)|by destruct (Hno _ Hx)|by apply IH].
Qed.

Lemma phase1_phase2 own1 : phase1 entries own1 -> phase2 own1 [] own1.
Proof.
  intros [A B]. split.
  - intros i [k x] Hi. destruct (A i k x Hi) as (? & ? & _). done.
  - done.
  - intros i e Hi. left. by exists i.
  - intros k x []%elem_of_nil.
  - intros i j [k x] Hi Hj. destruct (A i k x Hi) as (_ & _ & <-), (A j k x Hj) as (_ & _ & <-). done.
Qed.

Lemma phase2_here own1 pre own k x : hashkey len k = false \/ (exists i, own_at own i = Some (k, x)) -> phase2 own1 pre own -> phase2 own1 (pre ++ [(k, x)]) own.
Proof.
  intros Hk [A B C D F]. split; [done|done| | |done].
  - intros i e Hi. destruct (C i e Hi) as [?|?]; [by left|right]. apply elem_of_app. by left.
  - intros k1 x1 [Hin|[= -> ->]%list_elem_of_singleton]%elem_of_app Hh; [by eapply D|]. destruct Hk; [congruence|done].
Qed.

Lemma phase2_new own1 pre own k x j : (k, x) ∈ entries -> hashkey len k = true -> own_at own j = None -> 0 <= j < hlen own -> (forall i, own_at own i <> Some (k, x)) ->
  phase2 own1 pre own -> phase2 own1 (pre ++ [(k, x)]) (<[Z.to_nat j := Some (k, x)]> own).
Proof.
  intros He Hh Hj Hr Hno [A B C D F].
  assert (forall i, own_at (<[Z.to_nat j := Some (k, x)]> own) i = if decide (j = i) then Some (k, x) else own_at own i) as E by (intros; by apply own_at_insert).
  split; intros *; rewrite ?E.
  - destruct (decide (j = i)) as [<-|]; [by intros [= <-]|apply A].
  - intros Hi%B. rewrite decide_False by congruence. done.
  - destruct (decide (j = i)) as [<-|]; [intros [= <-]; right; apply elem_of_app; right; by left|]. intros Hi. destruct (C i e Hi) as [?|?]; [by left|right]. apply elem_of_app. by left.
  - intros [Hin|[= -> ->]%list_elem_of_singleton]%elem_of_app Hh1; [|exists j; by rewrite E, decide_True by done].
    destruct (D _ _ Hin Hh1) as [i Hi]. exists i. rewrite E, decide_False by congruence. done.
  - repeat case_decide; [congruence|intros [= <-] ?; by exfalso; eapply Hno|intros ? [= <-]; by exfalso; eapply Hno|apply F].
Qed.

Let he := filter (fun e => hashkey len e.1 = true) entries.

Lemma NoDup_entries : NoDup entries.
Proof. by eapply NoDup_fmap_1. Qed.

Lemma phase2_room own1 pre own e : phase2 own1 pre own -> e ∈ entries -> hashkey len e.1 = true -> (forall i, own_at own i <> Some e) -> (length own = length he)%nat ->
  exists i, 0 <= i < hlen own /\ own_at own i = None.
Proof.
  intros [A B C D F] He Hh Hno Hl. apply filled_room. rewrite Hl. assert (NoDup (e :: filled own)) as Hn.
  { apply NoDup_cons. split; [intros [i Hi]%elem_of_filled; by eapply Hno|by apply NoDup_filled]. }
  assert (length (e :: filled own) <= length he)%nat; [|cbn in *; lia]. apply submseteq_length, NoDup_submseteq; [done|].
  intros e' [->|[i Hi]%elem_of_filled]%elem_of_cons; apply list_elem_of_filter; [done|]. destruct (A _ _ Hi). done.
Qed.

Lemma phase2_full own1 own : phase2 own1 entries own -> (length own = length he)%nat -> exists own', own = Some <$> own' /\ own' ≡ₚ he.
Proof.
  intros [A B C D F] Hl. exists (filled own). assert (NoDup he) as Hn by (apply NoDup_filter, NoDup_entries).
  assert (he ⊆+ filled own) as Hsub.
  { apply NoDup_submseteq; [done|]. intros [k x] [Hh He]%list_elem_of_filter. apply elem_of_filled. by apply D. }
  assert (filled own ⊆+ he) as Hsub'.
  { apply NoDup_submseteq; [by apply NoDup_filled|]. intros e [i Hi]%elem_of_filled. apply list_elem_of_filter. destruct (A _ _ Hi). done. }
  split; [|by apply (anti_symm submseteq)]. apply filled_all. apply submseteq_length in Hsub, Hsub'. lia.
Qed.

Lemma fillcolliding_spec own1 : phase1 entries own1 -> length own1 = length he -> forall es pre w c own, entries = pre ++ es -> 0 < hlen own -> length own = length own1 ->
  busy hash_ok w c (arr_of entries) own len -> phase2 own1 pre own ->
  exists w' c' own', fillcolliding conv es w c = Ret (inr tt, w', c') /\ keeps w c w' c' /\ busy hash_ok w' c' (arr_of entries) own' len /\
    length own' = length own1 /\ phase2 own1 entries own'.
Proof.
  intros Hp1 Hsz. induction es as [|[k x] es IH]; intros pre w c own Ee Hpos Hlen Hb Hph.
  { rewrite app_nil_r in Ee. subst pre. exists w, c, own. split; [done|]. split; [apply keeps_refl|]. done. }
  destruct (pre_good _ _ _ _ Ee) as (Hik & Hgx & Hsk). pose proof (pre_fresh _ _ _ _ Ee) as Hfr. cbn [fillcolliding].
  assert ((k, x) ∈ entries) as Hin by (rewrite Ee; apply elem_of_app; right; by left).
  destruct (ishashkey_spec _ _ _ _ _ _ k Hb Hik Hsk) as (r & c1 & E & Hk1 & Hb1 & Hf1 & Hr). run_with E.
  assert (forall (m : M unit) w1 c1' own2, m w c1 = Ret (inr tt, w1, c1') -> keeps w c1 w1 c1' -> busy hash_ok w1 c1' (arr_of entries) own2 len -> length own2 = length own1 -> phase2 own1 (pre ++ [(k, x)]) own2 ->
    exists w' c' own', (m ≫= fun _ => fillcolliding conv es) w c1 = Ret (inr tt, w', c') /\ keeps w c w' c' /\ busy hash_ok w' c' (arr_of entries) own' len /\ length own' = length own1 /\ phase2 own1 entries own') as Hgo.
  { intros m w1 c1' own2 Em Hkm Hbm Hlm Hpm. run_with Em. destruct (IH (pre ++ [(k, x)]) w1 c1' own2) as (w' & c' & own' & E' & Hk' & Hb' & Hl' & Hp'); [by rewrite <- app_assoc|lia|done|done|done|].
    exists w', c', own'. split; [done|]. split; [|done]. by do 2 (eapply keeps_trans; [done|]). }
  destruct r as [key|[[key kh] kt]].
  { destruct Hr as (Hh & _). eapply (Hgo (mret tt)); [done|apply keeps_refl|exact Hb1|done|]. apply phase2_here; [by left|done]. }
  destruct Hr as (Hh & -> & Hkr). destruct (busy_read _ _ _ _ _ _ Hb1) as (t & Ht & Hlt & Hst & Hok & _ & Hlh & T & Hfill).
  set (i := khash k mod hlen own). assert (0 <= i < hlen own) as Hi by (apply Z.mod_pos_bound; lia).
  destruct (p1_has _ _ Hp1 k x Hin Hh) as [[k0 x0] Ho1]. rewrite <- Hlen in Ho1. fold i in Ho1. pose proof (p2_old _ _ _ Hph _ _ Ho1) as Ho.
  pose proof (filling_slot _ _ _ _ _ i Hfill) as Hs. rewrite Ho in Hs. inversion Hs as [mp e0 [Hk0 Hx0] Emp Ee0|]. subst e0. symmetry in Emp. cbn in Hk0, Hx0.
  assert (forall b, (n_keytype mp =? kt) && (n_key mp =? key) = b -> b = bool_decide (k0 = k)) as Htest.
  { intros b <-. eapply key_same; [apply Hf1|exact Hk0|apply (Hkr VNil 0 false)]. }
  destruct ((n_keytype mp =? kt) && (n_key mp =? key)) eqn:Et; specialize (Htest _ eq_refl); symmetry in Htest.
  - apply bool_decide_eq_true in Htest as ->. eapply Hgo; [|apply keeps_refl|exact Hb1|done|].
    + run. erewrite bindM; [|unfold read_table; rewrite Ht; reflexivity]. erewrite bindM; [|unfold lift; rewrite Hst, arr_get_slot by (fold i; lia); fold i; rewrite Emp; reflexivity].
      erewrite bindM; [|reflexivity]. rewrite Et. done.
    + apply phase2_here; [right; exists i|done]. rewrite Ho. do 2 f_equal. destruct (p2_in _ _ _ Hph _ _ Ho) as [Hin0 _]. by eapply key_once.
  - apply bool_decide_eq_false in Htest. assert (forall j, own_at own j <> Some (k, x)) as Hno.
    { intros j Hj. destruct (p2_src _ _ _ Hph _ _ Hj) as [[j' Hj']|Hpre].
      - destruct (p1_in _ _ Hp1 _ _ _ Hj') as (_ & _ & Ej). rewrite <- Hlen in Ej. fold i in Ej. subst j'. congruence.
      - apply Hfr, list_elem_of_fmap. by exists (k, x). }
    destruct (phase2_room own1 pre own (k, x) Hph Hin Hh Hno) as (j0 & Hj0 & Hoj0); [congruence|].
    destruct (empty_slot_spec (t_hash t)) as (j & Ej & Hj & Hnj).
    { exists j0. split; [lia|]. pose proof (filling_slot _ _ _ _ _ j0 Hfill) as Hs0. rewrite Hoj0 in Hs0. by inversion Hs0. }
    assert (own_at own j = None) as Hoj by (pose proof (filling_slot _ _ _ _ _ j Hfill) as Hs0; rewrite Hnj in Hs0; by inversion Hs0).
    set (mp' := Node (n_v mp) (n_key mp) j (n_keyhash mp) (n_keytype mp) false).
    set (w1 := put w (c_tbl c1) (Table (t_sizearray t) (t_sizehash t) (t_array t) (<[Z.to_nat i := Some mp']> (t_hash t)) (t_L t))).
    set (Q := fun H : list (option node) => H = <[Z.to_nat i := Some mp']> (t_hash t)).
    assert (busy Q w1 c1 (arr_of entries) own len) as Hb2 by (by eapply busy_touch).
    destruct (fill_slot_spec Q hash_ok w1 c1 (arr_of entries) own len k x key (khash k) kt (n_next mp) false j Hb2 Hgx Hoj) as (w2 & c2 & E2 & Hk2 & Hb3); [lia|intros v; apply Hkr| |].
    { intros H v -> _ _. eapply hash_ok_collide; try done. cbn. by rewrite Hlh. }
    eapply (Hgo _ w2 c2); [|eapply keeps_trans; [apply (keeps_put w c1 w c1), keeps_refl|exact Hk2]|exact Hb3|by rewrite length_insert|apply phase2_new; [done|done|done|lia|done|done]].
    run. erewrite bindM; [|unfold read_table; rewrite Ht; reflexivity]. erewrite bindM; [|unfold lift; rewrite Hst, arr_get_slot by (fold i; lia); fold i; rewrite Emp; reflexivity].
    erewrite bindM; [|reflexivity]. rewrite Et. erewrite bindM; [|rewrite Ej; reflexivity]. erewrite bindM; [|rewrite Hst; fold i mp'; apply (set_slot_run _ _ t); [done|lia]].
    exact E2.
Qed.

(** *** Tables without a hash part *)

Definition below_index (T : lua_table) (a : Z) (i : nat) : lua_value := if decide (Z.of_nat i + 1 < a) then rawgeti T (Z.of_nat i + 1) else LNil.

Lemma fill_array_spec Q T own (m : nat) : (forall i, good_value n (rawgeti T i)) -> forall a w c, a = len + 1 - Z.of_nat m -> 1 <= a -> busy Q w c (below_index T a) own len ->
  exists w' c', fill_array conv T (seqZ a (Z.of_nat m)) w c = Ret (inr tt, w', c') /\ keeps w c w' c' /\ busy Q w' c' (below_index T (len + 1)) own len.
Proof.
  intros Hg. induction m as [|m IH]; intros a w c Ha Ha1 Hb.
  { replace (len + 1) with a by lia. exists w, c. split; [done|]. split; [apply keeps_refl|done]. }
  rewrite seqZ_cons by lia. replace (Z.pred (Z.of_nat (S m))) with (Z.of_nat m) by lia. cbn [fill_array].
  destruct (setarray_spec _ _ _ _ _ _ _ a Hb (Hg a)) as (w1 & c1 & E1 & Hk1 & Hb1); [lia|unfold below_index; rewrite decide_False by lia; done|].
  run_with E1. destruct (IH (Z.succ a) w1 c1) as (w2 & c2 & E2 & Hk2 & Hb2); [lia|lia| |].
  - eapply busy_ext; [|exact Hb1]. intros i _. unfold upd, below_index. repeat case_decide; try lia; try done. do 2 f_equal. lia.
  - exists w2, c2. split; [done|]. split; [by eapply keeps_trans|done].
Qed.

Lemma countsize_spec es : forall m w c, (forall k, k ∈ es.*1 -> int_key k) -> 0 <= m -> m + Z.of_nat (length es) <= INT_MAX ->
  countsize es len m w c = Ret (inr (m + Z.of_nat (length (filter (fun e => hashkey len e.1 = true) es))), w, c).
Proof.
  induction es as [|[k x] es IH]; intros m w c Hk Hm Hl.
  { cbn. by rewrite Z.add_0_r. }
  cbn [countsize length] in *. rewrite filter_cons. erewrite bindM; [|unfold lift; rewrite int_ok_Ret by (unfold INT_MIN, INT_MAX in *; lia); reflexivity].
  assert (int_key k) as Hik by (apply Hk; by left). assert (forall k', k' ∈ es.*1 -> int_key k') as Hk' by (intros; apply Hk; by right).
  assert (forall a b, a = b -> Ret (@inr string Z a, w, c) = Ret (inr b, w, c)) as He by (intros a b ->; done).
  destruct k as [| |z| |s| | |]; cbn in Hik; try done; cbn [fst hashkey].
  - destruct ((0 <? z) && (z <=? len)); cbn [negb]; rewrite IH by (done || lia); case_decide; try done; apply He; cbn [length]; lia.
  - rewrite IH by (done || lia). case_decide; [|done]. apply He. cbn [length]. lia.
Qed.

(** *** The beginning and the end *)

Lemma busy_new w c (hs : nat) : fine w c -> c_tbl c = w_next w - 1 -> 0 <= len ->
  busy hash_ok (put w (c_tbl c) (Table len (Z.of_nat hs) (replicate (Z.to_nat len) VNil) (replicate hs None) (Some L))) c (fun _ => LNil) (replicate hs None) len.
Proof.
  intros Hf Hp Hl. split; [by apply fine_put|].
  exists (Table len (Z.of_nat hs) (replicate (Z.to_nat len) VNil) (replicate hs None) (Some L)). split; [|apply hash_ok_empty]. split; [apply lookup_insert_eq|]. split; [|split; [done|]].
  - split; [done|]. cbn [t_sizearray t_array t_sizehash t_hash]. rewrite !length_replicate. split; [lia|]. split; [done|]. split.
    + by intros i v [-> _]%lookup_replicate_1.
    + apply Forall2_replicate. constructor.
  - exists [], []. assert (kids (Table len (Z.of_nat hs) (replicate (Z.to_nat len) VNil) (replicate hs None) (Some L)) = []) as ->.
    { unfold kids. cbn [t_array t_hash]. assert (forall {A B} (g : A -> list B) (x : A) k, g x = [] -> replicate k x ≫= g = []) as Hr.
      { intros A B g x k Hx. induction k as [|k IH]; [done|]. cbn. by rewrite Hx. }
      by rewrite !Hr by done. }
    split; [done|]. split; [constructor|]. unfold below. cbn [put w_next]. rewrite Hp. by replace (w_next w - (w_next w - 1 + 1)) with 0 by lia.
Qed.

Lemma busy_done w c f own l T : convertible (S n) l -> busy hash_ok w c f (Some <$> own) len -> st !! l = Some T -> len = lt_rawlen T -> own ≡ₚ hash_entries T ->
  (forall i, Z.of_nat i < len -> f i = rawgeti T (Z.of_nat i + 1)) ->
  tree (S n) (w_tables w) (c_strings c) (c_tbl c) (w_next w) (c_tbl c) l /\ exists F, owns (S n) (w_tables w) (c_tbl c) F /\ F ≡ₚ seqZ (c_tbl c) (w_next w - c_tbl c).
Proof.
  intros Hc Hb Hl Hlen Ho Hff. eapply busy_ext in Hb; [|exact Hff]. destruct Hb as [Hf (t & (H1 & H2 & H3 & ks & fs & H4 & H5 & H6) & HQ)]. pose proof (fi_tbl _ _ Hf) as Hp. split.
  - split; [lia|]. split; [exact Hc|]. exists t, T. split; [done|]. split; [done|]. split; [congruence|]. split; [done|]. exists own. split; [done|].
    eapply filling_mono; [|reflexivity|exact H2]. intros q l' Hq. eapply tree_mono; [| | | |exact Hq]; [done|reflexivity|lia|lia].
  - destruct (Permutation_Forall2 H4 H5) as (fs' & Hfs & H5'). eexists. split; [exists t, fs'; split; [done|]; split; [exact H5'|reflexivity]|].
    rewrite <- Hfs, H6. unfold below. rewrite (seqZ_cons (c_tbl c) (w_next w - c_tbl c)) by lia. apply Permutation_skip. by replace (Z.pred (w_next w - c_tbl c)) with (w_next w - (c_tbl c + 1)) by lia.
Qed.
End filling.

(** ** Every table that can be converted is *)

Lemma assoc_in es k x : assoc es k = Some x -> (k, x) ∈ es.
Proof. induction es as [|[k1 x1] es IH]; [done|]. cbn. case_decide; [intros [= <-]; subst; by left|intros; right; auto]. Qed.

Lemma convertible_good n l T : st !! l = Some T -> convertible (S n) l ->
  forall e, e ∈ lt_entries T -> int_key e.1 /\ good_value n e.2 /\ forall s, e.1 = LString s -> s ∈ strings.
Proof.
  intros Hl (T' & Hl' & _ & _ & _ & Hall) e He. assert (T' = T) as -> by congruence. rewrite Forall_forall in Hall. destruct (Hall e He) as [Hk Hv].
  split; [done|]. split.
  - destruct e as [k x]. cbn in *. destruct x; cbn; try done. apply (strings_in l T (k, LString s)); [done..|]. cbn. apply elem_of_app. right. by left.
  - intros s Es. apply (strings_in l T e); [done..|]. rewrite Es. by left.
Qed.

Lemma convtable_converts n : converts n (convtable st L n).
Proof.
  induction n as [|n IH]; intros l w c; [done|]. intros Hc Hf Hp Hz. pose proof Hc as Hcc. destruct Hc as (T & Hl & Hraw & Hlen & Hnd & Hall).
  pose proof (convertible_good n l T Hl Hcc) as Hgood.
  cbn [convtable]. erewrite bindM; [|unfold lift; rewrite Hl; reflexivity]. run. rewrite s32_small by (unfold INT_MAX in *; lia).
  set (len := lt_rawlen T) in *. destruct (Z.ltb_spec len 0); [lia|]. run.
  assert (forall k, k ∈ (lt_entries T).*1 -> int_key k) as Hkeys by (intros k (e & -> & He)%list_elem_of_fmap; by apply Hgood).
  erewrite bindM; [|apply countsize_spec; [done|lia|lia]]. rewrite Z.add_0_l.
  set (hs := length (filter (fun e : lua_value * lua_value => hashkey len e.1 = true) (lt_entries T))).
  assert (forall w' c', keeps w c w' c' -> w_states w' = w_states w /\ w_next w <= w_next w' /\ (forall q, q < c_tbl c -> w_tables w' !! q = w_tables w !! q) /\ c_tbl c' = c_tbl c /\ c_strings c ⊆ c_strings c') as Hkp by (intros w' c' []; done).
  destruct (Z.eqb_spec (Z.of_nat hs) 0) as [E0|Hne]; cbn [negb].
  - assert (hs = 0%nat) as Ehs by lia. pose proof (busy_new n len w c 0 Hf Hp ltac:(lia)) as Hb.
    destruct (fill_array_spec n (convtable st L n) IH len hash_ok T (replicate 0 None) (Z.to_nat len)) with (a := 1) (w := put w (c_tbl c) (Table len 0 (replicate (Z.to_nat len) VNil) [] (Some L))) (c := c) as (w' & c' & E & Hk & Hb'); [|lia|lia| |].
    { intros i. unfold rawgeti. destruct (assoc (lt_entries T) (LInteger i)) as [x|] eqn:Ea; [|done]. apply assoc_in in Ea. by apply (Hgood _ Ea). }
    { eapply busy_ext; [|exact Hb]. intros i _. unfold below_index. by rewrite decide_False by lia. }
    rewrite Z2Nat.id in E by lia. exists w', c'. split; [exact E|]. assert (keeps w c w' c') as Hk' by (eapply keeps_trans; [apply (keeps_put w c w c), keeps_refl|exact Hk]).
    split; [apply Hb'|]. destruct (Hkp _ _ Hk') as (H1 & H2 & H3 & Etbl & H4). do 5 (split; [done|]). rewrite <- Etbl.
    eapply (busy_done n len w' c' _ [] l T); [exact Hcc|exact Hb'|done|done| |].
    + change hs with (length (hash_entries T)) in Ehs. destruct (hash_entries T); [done|cbn in Ehs; done].
    + intros i Hi. unfold below_index. by rewrite decide_True by lia.
  - set (w0 := put w (c_tbl c) (Table len (Z.of_nat hs) (replicate (Z.to_nat len) VNil) (replicate hs None) (Some L))).
    assert (busy n hash_ok w0 c (arr_of []) (replicate hs None) len) as Hb by (by apply busy_new; [done|done|lia]).
    assert (phase1 len [] (replicate hs None)) as Hp0.
    { split; [|by intros k x []%elem_of_nil]. intros i k x. unfold own_at, arr_lookup. destruct (i <? 0); [done|].
      destruct (replicate hs None !! Z.to_nat i) as [o|] eqn:Eo; [|done]. by apply lookup_replicate_1 in Eo as [-> _]. }
    destruct (fillnocolliding_spec n (convtable st L n) IH len (lt_entries T) Hnd Hgood (lt_entries T) [] w0 c (replicate hs None)) as (w1 & c1 & own1 & E1 & Hk1 & Hb1 & Hl1 & Hp1);
      [done|rewrite length_replicate; lia|done|done|]. rewrite length_replicate in Hl1.
    destruct (fillcolliding_spec n (convtable st L n) IH len (lt_entries T) Hnd Hgood own1 Hp1 Hl1 (lt_entries T) [] w1 c1 own1) as (w2 & c2 & own2 & E2 & Hk2 & Hb2 & Hl2 & Hp2);
      [done|lia|done|done|by apply phase1_phase2|].
    destruct (phase2_full len (lt_entries T) Hnd own1 own2 Hp2) as (own' & -> & Ho); [by rewrite Hl2|].
    assert (keeps w c w2 c2) as Hk by (eapply keeps_trans; [apply (keeps_put w c w c), keeps_refl|by eapply keeps_trans]).
    exists w2, c2. split.
    { run. cbn [w_tables w_states w_next]. rewrite insert_insert_eq, Nat2Z.id. erewrite bindM; [|exact E1]. exact E2. }
    split; [apply Hb2|]. destruct (Hkp _ _ Hk) as (H1 & H2 & H3 & Etbl & H4). do 5 (split; [done|]). rewrite <- Etbl.
    by eapply (busy_done n len w2 c2 (arr_of (lt_entries T)) own' l T).
Qed.
End spec.
