(* ===== verification/SharedataRead.v ===== *)
(** What services read from a shared table, and that deleting it frees it. *)
From S2P Require Import Prelude Seri Sharedata SharedataHash SharedataConv.

(** ** Lookups *)

(** What the table of Lua has for a key. *)
Definition lua_get (T : lua_table) (k : lua_value) : lua_value := default LNil (assoc (lt_entries T) k).

(** What is read for a value: a table is read as the address of a shared table. *)
Definition shows (R : Z -> positive -> Prop) (y x : lua_value) : Prop :=
  match x with LTable l => exists p, y = LPointer p /\ R p l | _ => y = x end.

(** The arguments of [lookup_key] for a key. *)
Definition query (k : lua_value) : Z * Z * Z * bytes :=
  match k with
  | LInteger z => (u32 z, z, KEYTYPE_INTEGER, [])
  | LString s => (calchash s, 0, KEYTYPE_STRING, s)
  | _ => (0, 0, 0, [])
  end.

Definition search (w : world) (t : table) (k : lua_value) : outcome (option Z) :=
  let '(keyhash, key, keytype, s) := query k in lookup_key w t keyhash key keytype s.

Section read.
Context (st : store) (L : Z) (w : world) (m : gmap bytes Z) (a b : Z).
Context (Hinj : forall s s' i, m !! s = Some i -> m !! s' = Some i -> s = s').
Context (Hstr : exists x, w_states w !! L = Some x /\ forall s i, m !! s = Some i -> l_strings x !! i = Some s).

Definition held (p : Z) (l : positive) : Prop := exists n, tree st L n (w_tables w) m a b p l.

Lemma tolstring_held s i : m !! s = Some i -> tolstring w (Some L) i = Ret s.
Proof. intros Hs. destruct Hstr as (x & Hx & Hi). unfold tolstring. cbn [deref mbind outcome_bind]. rewrite Hx. cbn [deref mbind outcome_bind]. by rewrite (Hi s i Hs). Qed.

Lemma pushvalue_held v x : value_rep held m v x -> exists y, pushvalue w (Some L) v = Ret y /\ shows held y x.
Proof.
  destruct x; cbn; try done; try (intros ->; by eexists).
  - intros (i & -> & Hi). exists (LString s). cbn [pushvalue]. by rewrite (tolstring_held s i Hi).
  - intros (p & -> & Hp). exists (LPointer p). split; [done|]. by exists p.
Qed.

Section table.
Context (t : table) (T : lua_table) (own : list (lua_value * lua_value)).
Context (Hlen : t_sizearray t = lt_rawlen T) (Hraw : 0 <= lt_rawlen T <= INT_MAX) (Hok : hash_ok (t_hash t)) (Hown : own ≡ₚ hash_entries T).
Context (Hfill : filling L held m (fun i => rawgeti T (Z.of_nat i + 1)) (Some <$> own) t).
Context (Hnd : NoDup (lt_entries T).*1) (Hent : forall e, e ∈ lt_entries T -> int_key e.1 /\ e.2 <> LNil).

(** Every slot has a node, for an entry of its own. *)
Lemma slot_held i : 0 <= i < hlen own -> exists n e, nd (t_hash t) i = Some n /\ own !! Z.to_nat i = Some e /\ node_rep held m n e.
Proof.
  intros Hi. pose proof (filling_slot _ _ _ _ _ _ i Hfill) as Hs. unfold own_at in Hs. rewrite arr_lookup_nonneg, list_lookup_fmap in Hs by lia.
  destruct (lookup_lt_is_Some_2 own (Z.to_nat i)) as [e He]; [lia|]. rewrite He in Hs. cbn in Hs. inversion Hs as [n e' Hn En|]. subst e'. by exists n, e.
Qed.

Lemma hlen_own : hlen own = hlen (t_hash t).
Proof. pose proof (filling_length _ _ _ _ _ _ Hfill) as H. by rewrite length_fmap in H. Qed.

Lemma sizehash_own : t_sizehash t = hlen own.
Proof. rewrite hlen_own. apply Hfill. Qed.

Lemma own_keys : NoDup own.*1.
Proof.
  rewrite Hown. apply NoDup_fmap_2_strong; [|by apply NoDup_filter; eapply NoDup_fmap_1].
  intros [k x] [k' y] [_ Hx]%list_elem_of_filter [_ Hy]%list_elem_of_filter. cbn. intros ->. f_equal. by eapply key_once.
Qed.

Lemma own_get i j k x y : own !! i = Some (k, x) -> own !! j = Some (k, y) -> i = j.
Proof. intros Hi Hj. eapply (NoDup_lookup _ _ _ k own_keys); by rewrite list_lookup_fmap, ?Hi, ?Hj. Qed.

(** Whether a node has the key [k]. *)
Definition has_key (k : lua_value) (n : node) : bool :=
  match k with
  | LInteger z => (n_keytype n =? KEYTYPE_INTEGER) && (n_key n =? z)
  | LString s => (n_keytype n =? KEYTYPE_STRING) && bool_decide (m !! s = Some (n_key n))
  | _ => false
  end.

Lemma has_key_spec n k0 k : int_key k -> key_rep m n k0 -> has_key k n = bool_decide (k0 = k) /\ let '(keyhash, key, keytype, s) := query k in node_is w t keyhash key keytype s n = Ret (has_key k n).
Proof.
  intros Hk H0. assert (t_L t = Some L) as HL by apply Hfill. unfold node_is. rewrite HL. destruct k as [| |z| |s| | |]; cbn in Hk; try done; cbn [query has_key];
    destruct k0 as [| |z0| |s0| | |]; cbn in H0; try done; destruct H0 as (Et & Ek & Eh); rewrite Et, Eh; cbn [Z.eqb andb KEYTYPE_INTEGER KEYTYPE_STRING Pos.eqb].
  - rewrite Ek. destruct (Z.eqb_spec z0 z) as [->|]; split.
    + symmetry. by apply bool_decide_eq_true.
    + by rewrite Z.eqb_refl.
    + symmetry. apply bool_decide_eq_false. congruence.
    + by destruct (_ =? _).
  - split; [symmetry; apply bool_decide_eq_false; congruence|]. by destruct (_ =? _).
  - split; [symmetry; apply bool_decide_eq_false; congruence|]. by destruct (_ =? _).
  - rewrite (tolstring_held s0 _ Ek). cbn [mbind outcome_bind]. destruct (decide (s0 = s)) as [->|Hne].
    + rewrite Z.eqb_refl, Ek. split; [by rewrite !bool_decide_true|]. by rewrite !bool_decide_true.
    + assert (m !! s <> Some (n_key n)) as Hs by (intros Hs; apply Hne; by eapply Hinj). split; [rewrite !bool_decide_false by congruence; done|].
      rewrite !bool_decide_false by congruence. by destruct (_ =? _).
Qed.

(** A lookup finds the slot of the key, when there is one. *)
Lemma search_spec k : int_key k -> exists r, search w t k = Ret r /\ match r with
  | Some i => 0 <= i < hlen own /\ exists x, own !! Z.to_nat i = Some (k, x)
  | None => k ∉ own.*1
  end.
Proof.
  intros Hk. unfold search. destruct (query k) as [[[kh key] kt] s] eqn:Eq. pose proof hlen_own as Hl.
  assert (forall i n, nd (t_hash t) i = Some n -> exists e, own !! Z.to_nat i = Some e /\ node_rep held m n e) as Hnode.
  { intros i n Hn. pose proof (nd_lt _ _ _ Hn). destruct (slot_held i) as (n' & e & Hn' & He & Hr); [lia|]. exists e. by replace n with n' by congruence. }
  destruct (lookup_key_spec w t kh key kt s (has_key k)) as (r & Er & Hr).
  - by rewrite sizehash_own.
  - done.
  - intros i n Hn. destruct (Hnode i n Hn) as (e & _ & Hk0 & _). destruct (has_key_spec n e.1 k Hk Hk0) as [_ Hi]. by rewrite Eq in Hi.
  - intros Hpos. destruct (slot_held (kh mod hlen (t_hash t))) as (n & e & Hn & _); [rewrite Hl; apply Z.mod_pos_bound; lia|by exists n].
  - exists r. split; [done|]. destruct r as [i|]; cbn in Hr.
    + destruct Hr as (n & Hn & HP). destruct (Hnode i n Hn) as ([k0 x] & He & Hk0 & _). pose proof (nd_lt _ _ _ Hn). split; [lia|]. exists x.
      destruct (has_key_spec n k0 k Hk Hk0) as [Ei _]. rewrite Ei in HP. apply bool_decide_eq_true in HP. by subst k0.
    + intros [[k0 x] [-> Hin]]%list_elem_of_fmap. apply list_elem_of_lookup in Hin as [i Hi]. apply lookup_lt_Some in Hi as Hlt.
      destruct (slot_held (Z.of_nat i)) as (n & e & Hn & He & Hk0 & _); [lia|]. rewrite Nat2Z.id, Hi in He. injection He as <-.
      destruct (has_key_spec n k0 k0 Hk Hk0) as [Ei _]. cbn [fst] in Hr, Ei. rewrite (Hr _ _ Hn), bool_decide_true in Ei by done. done.
Qed.

Lemma assoc_has es k x : NoDup es.*1 -> (k, x) ∈ es -> assoc es k = Some x.
Proof.
  induction es as [|[k1 x1] es IH]; [by intros _ ?%elem_of_nil|]. cbn. intros [Hk Hn]%NoDup_cons [E|Hin]%elem_of_cons.
  - injection E as -> ->. by rewrite decide_True.
  - rewrite decide_False; [auto|]. intros ->. apply Hk, list_elem_of_fmap. by exists (k, x).
Qed.

Lemma own_entry k x : (k, x) ∈ own <-> (k, x) ∈ lt_entries T /\ hashkey (lt_rawlen T) k = true.
Proof. rewrite Hown. unfold hash_entries. rewrite list_elem_of_filter. cbn. tauto. Qed.

Lemma search_hash k : int_key k -> hashkey (lt_rawlen T) k = true -> exists r, search w t k = Ret r /\
  exists y, match r with
            | Some i => n ← node_at t i; v ← pushvalue w (t_L t) (n_v n); Ret (Some v)
            | None => Ret None
            end = Ret y /\ shows held (default LNil y) (lua_get T k).
Proof.
  intros Hk Hh. destruct (search_spec k Hk) as (r & Er & Hr). exists r. split; [done|]. assert (t_L t = Some L) as HL by apply Hfill. unfold lua_get. destruct r as [i|].
  - destruct Hr as (Hi & x & Hx). destruct (slot_held i Hi) as (n & e & Hn & He & _ & Hv). assert (e = (k, x)) as -> by congruence.
    destruct (pushvalue_held _ _ Hv) as (y & Ey & Hy). exists (Some y). unfold node_at. rewrite (nd_get t _ _ Hn). cbn [mbind outcome_bind deref]. rewrite HL, Ey. cbn [mbind outcome_bind]. split; [done|].
    rewrite (assoc_has _ k x); [done|done|]. apply (own_entry k x). by eapply list_elem_of_lookup_2.
  - exists None. split; [done|]. destruct (assoc (lt_entries T) k) as [x|] eqn:Ea; [|done]. exfalso. apply Hr, list_elem_of_fmap. exists (k, x). split; [done|].
    apply own_entry. split; [by apply assoc_in|done].
Qed.

Lemma array_index_key z : hashkey (lt_rawlen T) (LInteger z) = negb ((0 <? z) && (z <=? t_sizearray t)).
Proof. by rewrite Hlen. Qed.

Lemma lindexconf_spec p k : w_tables w !! p = Some t -> int_key k -> exists r, lindexconf w (Some p) k = Ret r /\ shows held (default LNil r) (lua_get T k).
Proof.
  intros Ht Hk. unfold lindexconf. cbn [get_table mbind outcome_bind]. rewrite Ht. cbn [deref mbind outcome_bind].
  destruct k as [| |z| |s| | |]; cbn in Hk; try done.
  - rewrite s32_small by (unfold INT_MIN, INT_MAX in *; lia). pose proof (array_index_key z) as Ha. destruct ((0 <? z) && (z <=? t_sizearray t)) eqn:E; cbn in Ha.
    + apply andb_prop in E as [E1%Z.ltb_lt E2%Z.leb_le]. destruct Hfill as (HL & Hs & _ & Hv & _). destruct (arr_lookup_is_Some (t_array t) (z - 1)) as [v Ev]; [lia|].
      unfold arr_get. rewrite Ev. cbn [deref mbind outcome_bind]. rewrite arr_lookup_nonneg in Ev by lia. specialize (Hv _ _ Ev). replace (Z.of_nat (Z.to_nat (z - 1)) + 1) with z in Hv by lia.
      destruct (pushvalue_held _ _ Hv) as (y & Ey & Hy). rewrite HL, Ey. by exists (Some y).
    + destruct (search_hash (LInteger z) Hk Ha) as (r & Er & y & Ey & Hy). exists y. unfold search in Er. cbn [query] in Er. rewrite Er. cbn [mbind outcome_bind]. done.
  - destruct (search_hash (LString s) Hk eq_refl) as (r & Er & y & Ey & Hy). exists y. unfold search in Er. cbn [query] in Er. rewrite Er. cbn [mbind outcome_bind]. done.
Qed.

(** ** Iteration *)

(** The keys that [lnextkey] gives after [k], up to the end. *)
Inductive walk (p : Z) : lua_value -> list lua_value -> Prop :=
  | walk_end k : lnextkey w (Some p) k = Ret None -> walk p k []
  | walk_next k k' ks : lnextkey w (Some p) k = Ret (Some k') -> walk p k' ks -> walk p k (k' :: ks).

Lemma own_key i : 0 <= i < hlen own -> exists n k x, own !! Z.to_nat i = Some (k, x) /\ int_key k /\ hashkey (lt_rawlen T) k = true /\ node_at t i = Ret n /\ pushkey w (t_L t) n = Ret k.
Proof.
  intros Hi. destruct (slot_held i Hi) as (n & [k x] & Hn & He & Hk & _). exists n, k, x. split; [done|].
  assert ((k, x) ∈ own) as [Hin Hh]%own_entry by by eapply list_elem_of_lookup_2. destruct (Hent _ Hin) as [Hik _]. split; [done|]. split; [done|].
  split; [unfold node_at; by rewrite (nd_get t _ _ Hn)|]. assert (t_L t = Some L) as HL by apply Hfill. unfold pushkey. rewrite HL.
  destruct k as [| |z| |s| | |]; cbn in Hk; try done; destruct Hk as (-> & Hk & _); cbn [KEYTYPE_INTEGER KEYTYPE_STRING Z.eqb Pos.eqb].
  - by rewrite Hk.
  - by rewrite (tolstring_held s _ Hk).
Qed.

Context (p : Z) (Ht : w_tables w !! p = Some t).

Lemma next_hash i k x : own !! i = Some (k, x) -> lnextkey w (Some p) k = Ret (fst <$> own !! S i).
Proof.
  intros Ho. apply lookup_lt_Some in Ho as Hlt. destruct (own_key (Z.of_nat i)) as (n & k' & x' & Hk' & Hik & Hh & _); [lia|]. rewrite Nat2Z.id, Ho in Hk'. injection Hk' as <- <-.
  assert (forall q : outcome (option Z), search w t k = q -> (r ← q; match r with
      | Some i => if i + 1 =? t_sizehash t then Ret None else n ← node_at t (i + 1); k ← pushkey w (t_L t) n; Ret (Some k)
      | None => Ret None end) = Ret (fst <$> own !! S i)) as Hlook.
  { intros q <-. destruct (search_spec k Hik) as (r & -> & Hr). cbn [mbind outcome_bind]. destruct r as [j|]; [|exfalso; apply Hr, list_elem_of_fmap; exists (k, x); split; [done|by eapply list_elem_of_lookup_2]].
    destruct Hr as (Hj & y & Hy). assert (Z.to_nat j = i) as <- by by eapply own_get. rewrite sizehash_own. destruct (Z.eqb_spec (j + 1) (hlen own)) as [E|].
    - by rewrite lookup_ge_None_2 by lia.
    - destruct (own_key (j + 1)) as (n1 & k1 & x1 & Hk1 & _ & _ & -> & Hp1); [lia|]. cbn [mbind outcome_bind]. rewrite Hp1. cbn [mbind outcome_bind].
      replace (Z.to_nat (j + 1)) with (S (Z.to_nat j)) in Hk1 by lia. by rewrite Hk1. }
  unfold lnextkey. cbn [get_table mbind outcome_bind]. rewrite Ht. cbn [deref mbind outcome_bind]. destruct k as [| |z| |s| | |]; cbn in Hik; try done.
  - rewrite s32_small by (unfold INT_MIN, INT_MAX in *; lia). rewrite array_index_key in Hh. apply negb_true_iff in Hh. rewrite Hh. by apply (Hlook (search w t (LInteger z))).
  - by apply (Hlook (search w t (LString s))).
Qed.

Lemma walk_hash i : forall k x, own !! i = Some (k, x) -> walk p k (drop (S i) own).*1.
Proof.
  assert (exists d, d = (length own - i)%nat) as [d Hd] by by eexists. revert i Hd. induction d as [|d IH]; intros i Hd k x Ho; apply lookup_lt_Some in Ho as Hlt; [lia|].
  pose proof (next_hash i k x Ho) as Hn. destruct (own !! S i) as [[k' x']|] eqn:Ho'; cbn in Hn.
  - rewrite (drop_S _ _ _ Ho'). cbn. apply (walk_next _ _ k'); [done|]. apply (IH (S i)) with (x := x'); [lia|done].
  - rewrite drop_ge by by apply lookup_ge_None_1. by apply walk_end.
Qed.

Lemma pushfirsthash_spec : pushfirsthash w t = Ret (head own.*1).
Proof.
  unfold pushfirsthash. rewrite sizehash_own. destruct (Z.eqb_spec (hlen own) 0) as [E|Hne]; cbn [negb].
  { by destruct own. }
  destruct (own_key 0) as (n & k1 & x1 & Hk1 & _ & _ & -> & Hp1); [lia|]. cbn [mbind outcome_bind]. rewrite Hp1. cbn [mbind outcome_bind].
  clear -Hk1. destruct own; [done|]. by injection Hk1 as ->.
Qed.

Fixpoint array_keys (l : list value) (i : Z) : list lua_value :=
  match l with
  | [] => []
  | VNil :: l => array_keys l (i + 1)
  | _ :: l => LInteger (i + 1) :: array_keys l (i + 1)
  end.

Lemma next_array_keys l : forall i, match next_array l i with
  | None => array_keys l i = []
  | Some j => i <= j < i + hlen l /\ array_keys l i = LInteger (j + 1) :: array_keys (drop (Z.to_nat (j + 1 - i)) l) (j + 1)
  end.
Proof.
  induction l as [|v l IH]; intros i; [done|]. cbn [length].
  assert (forall y, i <= i < i + Z.of_nat (S (length l)) /\ LInteger (i + 1) :: array_keys l (i + 1) = LInteger (i + 1) :: array_keys (drop (Z.to_nat (i + 1 - i)) (y :: l)) (i + 1)) as H0.
  { intros y. split; [lia|]. by replace (Z.to_nat (i + 1 - i)) with 1%nat by lia. }
  destruct v; cbn [next_array array_keys]; try apply H0. specialize (IH (i + 1)). destruct (next_array l (i + 1)) as [j|]; [|done]. destruct IH as [Hj ->]. split; [lia|].
  replace (Z.to_nat (j + 1 - i)) with (S (Z.to_nat (j + 1 - (i + 1)))) by lia. done.
Qed.

Lemma walk_array (d : nat) : forall i k, d = (length (t_array t) - i)%nat -> (i <= length (t_array t))%nat ->
  lnextkey w (Some p) k = (match next_array (drop i (t_array t)) (Z.of_nat i) with Some j => Ret (Some (LInteger (j + 1))) | None => pushfirsthash w t end) ->
  walk p k (array_keys (drop i (t_array t)) (Z.of_nat i) ++ own.*1).
Proof.
  induction d as [d IH] using lt_wf_ind. intros i k Hd Hi Hk. pose proof (next_array_keys (drop i (t_array t)) (Z.of_nat i)) as Ha. destruct (next_array _ _) as [j|].
  - destruct Ha as [Hj ->]. rewrite length_drop in Hj. rewrite drop_drop. cbn [app]. apply (walk_next _ _ (LInteger (j + 1))); [done|].
    replace (i + Z.to_nat (j + 1 - Z.of_nat i))%nat with (Z.to_nat (j + 1)) by lia. replace (j + 1) with (Z.of_nat (Z.to_nat (j + 1))) at 3 by lia.
    eapply (IH (length (t_array t) - Z.to_nat (j + 1))%nat); [lia|done|lia|]. unfold lnextkey. cbn [get_table mbind outcome_bind]. rewrite Ht. cbn [deref mbind outcome_bind].
    destruct Hfill as (_ & Hs & _). rewrite s32_small by (unfold INT_MAX in *; lia).
    assert ((0 <? j + 1) && (j + 1 <=? t_sizearray t) = true) as ->; [|by rewrite Z2Nat.id by lia]. apply andb_true_intro. split; [apply Z.ltb_lt|apply Z.leb_le]; lia.
  - rewrite Ha. cbn [app]. rewrite pushfirsthash_spec in Hk. assert (head own.*1 = fst <$> own !! 0%nat) as Eh by (clear; by destruct own).
    rewrite Eh in Hk. destruct (own !! 0%nat) as [[k' x']|] eqn:Ho; cbn in Hk.
    + assert (own.*1 = k' :: (drop 1 own).*1) as -> by (clear -Ho; destruct own; [done|]; by injection Ho as ->). apply (walk_next _ _ k'); [done|]. by eapply walk_hash.
    + assert (own.*1 = []) as -> by (clear -Ho; by destruct own). by apply walk_end.
Qed.

Lemma elem_of_array_keys l : forall i k, k ∈ array_keys l i <-> exists j v, l !! j = Some v /\ v <> VNil /\ k = LInteger (i + Z.of_nat j + 1).
Proof.
  induction l as [|v l IH]; intros i k; cbn [array_keys].
  { split; [by intros ?%elem_of_nil|]. by intros (j & v & ? & _). }
  assert (k ∈ array_keys l (i + 1) <-> exists j u, (v :: l) !! S j = Some u /\ u <> VNil /\ k = LInteger (i + Z.of_nat (S j) + 1)) as E.
  { rewrite IH. cbn. split; intros (j & u & Hj & Hu & ->); exists j, u; (split; [done|]); (split; [done|]); f_equal; lia. }
  assert (v <> VNil -> k ∈ LInteger (i + 1) :: array_keys l (i + 1) <-> exists j u, (v :: l) !! j = Some u /\ u <> VNil /\ k = LInteger (i + Z.of_nat j + 1)) as E'.
  { intros Hv. rewrite elem_of_cons, E. split.
    - intros [->|(j & u & Hj)]; [exists 0%nat, v|by exists (S j), u]. split; [done|]. split; [done|]. f_equal. lia.
    - intros ([|j] & u & Hj & Hu & ->); [left; f_equal; lia|right]. by exists j, u. }
  destruct v; try (by apply E'). rewrite E. split.
  - intros (j & u & Hj). by exists (S j), u.
  - intros ([|j] & u & Hj & Hu & ->); [by injection Hj as <-|]. by exists j, u.
Qed.

Lemma NoDup_array_keys l : forall i, NoDup (array_keys l i).
Proof.
  induction l as [|v l IH]; intros i; cbn [array_keys]; [constructor|]. destruct v; [done|..]; apply NoDup_cons; (split; [|done]);
    intros (j & u & _ & _ & [=])%elem_of_array_keys; lia.
Qed.

Lemma array_key k : k ∈ array_keys (t_array t) 0 <-> k ∈ (lt_entries T).*1 /\ hashkey (lt_rawlen T) k = false.
Proof.
  destruct Hfill as (_ & Hs & _ & Hv & _). rewrite elem_of_array_keys. split.
  - intros (j & v & Hj & Hne & ->). specialize (Hv j v Hj). apply lookup_lt_Some in Hj. split; [|cbn; apply negb_false_iff, andb_true_intro; split; [apply Z.ltb_lt|apply Z.leb_le]; lia].
    unfold rawgeti in Hv. rewrite Z.add_0_l. destruct (assoc (lt_entries T) (LInteger (Z.of_nat j + 1))) as [x|] eqn:Ea; [|done].
    apply assoc_in in Ea. apply list_elem_of_fmap. by exists (LInteger (Z.of_nat j + 1), x).
  - intros [((k' & x) & -> & Hin)%list_elem_of_fmap Hh]. cbn in *. destruct k' as [| |z| |s| | |]; try done. cbn in Hh. apply negb_false_iff, andb_prop in Hh as [E1%Z.ltb_lt E2%Z.leb_le].
    destruct (lookup_lt_is_Some_2 (t_array t) (Z.to_nat (z - 1))) as [v Ev]; [lia|]. exists (Z.to_nat (z - 1)), v. split; [done|]. split; [|f_equal; lia].
    specialize (Hv _ _ Ev). unfold rawgeti in Hv. replace (Z.of_nat (Z.to_nat (z - 1)) + 1) with z in Hv by lia. rewrite (assoc_has _ _ x Hnd Hin) in Hv. cbn in Hv. intros ->.
    destruct (Hent _ Hin) as [_ Hx]. cbn in Hx. destruct x; cbn in Hv; try done; [by destruct Hv as (? & ? & _)|by destruct Hv as (? & ? & _)].
Qed.

Lemma walk_all : exists ks, walk p LNil ks /\ ks ≡ₚ (lt_entries T).*1.
Proof.
  exists (array_keys (t_array t) 0 ++ own.*1). split.
  - apply (walk_array (length (t_array t)) 0 LNil); [lia|lia|]. unfold lnextkey. cbn [get_table mbind outcome_bind]. rewrite Ht. done.
  - assert (forall k, k ∈ own.*1 <-> k ∈ (lt_entries T).*1 /\ hashkey (lt_rawlen T) k = true) as Hown1.
    { intros k. rewrite !list_elem_of_fmap. split.
      - intros ([k' x] & -> & [Hin Hh]%own_entry). split; [by exists (k', x)|done].
      - intros [([k' x] & -> & Hin) Hh]. exists (k', x). split; [done|]. by apply own_entry. }
    apply NoDup_Permutation; [|done|].
    + apply NoDup_app. split; [apply NoDup_array_keys|]. split; [|apply own_keys]. intros k [_ E1]%array_key [_ E2]%Hown1. congruence.
    + intros k. rewrite elem_of_app, array_key, Hown1. destruct (hashkey (lt_rawlen T) k); tauto.
Qed.
End table.

(** What a service reads from a table that holds the table [l] of Lua. *)
Lemma held_reads p l : held p l -> exists T, st !! l = Some T /\ llen w (Some p) = Ret (lt_rawlen T) /\
  (forall k, int_key k -> exists r, lindexconf w (Some p) k = Ret r /\ shows held (default LNil r) (lua_get T k)) /\
  exists ks, walk p LNil ks /\ ks ≡ₚ (lt_entries T).*1.
Proof.
  intros [[|n] Hn]; [done|]. destruct Hn as (_ & Hc & t & T & Ht & Hl & Hlen & Hok & own & Hown & Hfill). exists T. split; [done|].
  destruct Hc as (T' & Hl' & Hraw & _ & Hnd & Hall). assert (T' = T) as -> by congruence.
  assert (forall e, e ∈ lt_entries T -> int_key e.1 /\ e.2 <> LNil) as Hent.
  { intros e He. rewrite Forall_forall in Hall. destruct (Hall e He) as [Hk Hv]. split; [done|]. intros E. by rewrite E in Hv. }
  assert (filling L held m (fun i => rawgeti T (Z.of_nat i + 1)) (Some <$> own) t) as Hfill'.
  { eapply filling_mono; [|reflexivity|exact Hfill]. intros q l' Hq. by exists n. }
  split; [unfold llen; cbn [get_table mbind outcome_bind]; rewrite Ht; cbn; congruence|]. split.
  - intros k Hk. by apply (lindexconf_spec t T own).
  - by apply (walk_all t T own).
Qed.
End read.

(** ** A new configuration *)

Lemma convert_stringmap_spec m : (forall s s' i, m !! s = Some i -> m !! s' = Some i -> s = s') -> forall s i, m !! s = Some i -> convert_stringmap m !! i = Some s.
Proof.
  unfold convert_stringmap. apply (map_fold_weak_ind (fun r m => (forall s s' i, m !! s = Some i -> m !! s' = Some i -> s = s') -> forall s i, m !! s = Some i -> r !! i = Some s)).
  - intros _ s i. by rewrite lookup_empty.
  - intros s0 i0 m' r Hs0 IH Hinj s i Hi. destruct (decide (s0 = s)) as [<-|Hne].
    { rewrite lookup_insert_eq in Hi. injection Hi as ->. by rewrite lookup_insert_eq. }
    rewrite lookup_insert_ne.
    + apply IH; [|by rewrite lookup_insert_ne in Hi by done]. intros s1 s2 j H1 H2. apply (Hinj s1 s2 j); rewrite lookup_insert_ne by congruence; done.
    + intros ->. apply Hne. by apply (Hinj s0 s i); [rewrite lookup_insert_eq|].
Qed.

(** Nothing is at the addresses that are allocated next. *)
Definition world_ok (w : world) : Prop := forall q, w_next w <= q -> w_tables w !! q = None /\ w_states w !! q = None.

(** The stack of the new Lua state has room for the strings. *)
Definition fits (st : store) (room : Z) : Prop := Z.of_nat (size (strings st)) + 4 <= room /\ Z.of_nat (size (strings st)) < INT_MAX.

Lemma lnewconf_spec st n room l w : world_ok w -> convertible st n l -> fits st room ->
  exists w' m, let L := w_next w in let p := w_next w + 1 in
    lnewconf st n room l w = Ret (inr p, w') /\ p < w_next w' /\ (forall s s' i, m !! s = Some i -> m !! s' = Some i -> s = s') /\
    w_states w' = <[L := LuaState (State 0 0 p) (convert_stringmap m)]> (w_states w) /\
    (forall q, q < p -> w_tables w' !! q = w_tables w !! q) /\ (forall q, w_next w' <= q -> w_tables w' !! q = None) /\
    tree st L n (w_tables w') m p (w_next w') p l /\ exists F, owns n (w_tables w') p F /\ F ≡ₚ seqZ p (w_next w' - p).
Proof.
  intros Hw Hc [Hroom Hmax]. set (L := w_next w). set (p := w_next w + 1). set (w1 := World (<[p := zero_table]> (w_tables w)) (w_states w) (w_next w + 2)). set (c1 := Context p 1 ∅).
  assert (fine st w1 c1) as Hf.
  { split; [split|..]; cbn.
    - by rewrite map_size_empty.
    - intros s s' i. by rewrite lookup_empty.
    - intros s i. by rewrite lookup_empty.
    - set_solver.
    - intros q Hq. rewrite lookup_insert_ne by (unfold p; lia). apply Hw. lia.
    - unfold p. lia. }
  destruct (convtable_converts st L Hmax n l w1 c1 Hc Hf) as (w2 & c2 & E & [Hm Hfree _] & Es & En & Et & Ec & _ & Htree & Hown); [cbn; lia|apply lookup_insert_eq|]. cbn [w1 c1 c_tbl w_next w_states] in *.
  assert (Z.of_nat (size (c_strings c2)) <= Z.of_nat (size (strings st))) as Hsz by (pose proof (sm_dom _ _ _ Hm) as Hd; apply subseteq_size in Hd; rewrite size_dom in Hd; lia).
  assert (pconv st L n room l w1 c1 = Ret (inr tt, w2, c2)) as Ep.
  { unfold pconv. erewrite bindM; [|exact E]. erewrite bindM; [|reflexivity]. unfold luaL_checkstack. destruct (Z.ltb_spec room (c_string_index c2 + 3)); [|done].
    pose proof (sm_size _ _ _ Hm). lia. }
  exists (World (w_tables w2) (<[L := LuaState (State 0 0 p) (convert_stringmap (c_strings c2))]> (w_states w2)) (w_next w2)), (c_strings c2). cbn zeta. split; [|split; [|split; [exact (sm_inj _ _ _ Hm)|split; [|split; [|split; [|split; [exact Htree|exact Hown]]]]]]].
  - unfold lnewconf. match goal with |- context [pconv st ?x n room l ?y ?z] => change (pconv st x n room l y z) with (pconv st L n room l w1 c1) end. rewrite Ep. cbn [mbind outcome_bind]. reflexivity.
  - cbn. unfold p. lia.
  - cbn. by rewrite Es.
  - intros q Hq. cbn. rewrite Et by done. cbn. by rewrite lookup_insert_ne by lia.
  - exact Hfree.
Qed.

(** ** Deletion *)

Lemma foldl_Undefined {A B} (f : A -> B -> outcome A) (l : list B) : foldl (fun o x => a ← o; f a x) Undefined l = Undefined.
Proof. induction l as [|x l IH]; [done|]. exact IH. Qed.

(** The tables at the addresses [F] are gone. *)
Definition without (F : list Z) (h h' : gmap Z table) : Prop := forall q, h' !! q = if decide (q ∈ F) then None else h !! q.

Lemma delete_tbl_spec fuel : forall n p F h, (length F <= fuel)%nat -> NoDup F -> owns n h p F -> exists h', delete_tbl fuel p h = Ret h' /\ without F h h'.
Proof.
  induction fuel as [|fuel IH]; intros [|n] p F h Hl Hnd Ho; try done.
  { destruct Ho as (t & fs & _ & _ & ->). cbn in Hl. lia. }
  destruct Ho as (t & fs & Ht & Hk & ->). cbn [length] in Hl. apply NoDup_cons in Hnd as [Hp Hnd].
  assert (forall ks fs h, Forall2 (owns n h) ks fs -> NoDup (mjoin fs) -> (length (mjoin fs) <= fuel)%nat ->
    exists h', foldl (fun tables p => tables ← tables; delete_tbl fuel p tables) (Ret h) ks = Ret h' /\ without (mjoin fs) h h') as Hkids.
  { clear -IH. intros ks. induction ks as [|k ks IHk]; intros fs h Hk Hnd Hl.
    - inversion Hk. exists h. split; [done|]. intros q. rewrite decide_False; [done|]. apply not_elem_of_nil.
    - inversion Hk as [|? F ? gs Ho Hks]. subst. change (mjoin (F :: gs)) with (F ++ mjoin gs) in *. rewrite length_app in Hl. apply NoDup_app in Hnd as (Hn1 & Hd & Hn2).
      destruct (IH n k F h) as (h1 & E1 & H1); [lia|done|done|]. cbn [foldl mbind outcome_bind]. rewrite E1.
      assert (Forall2 (owns n h1) ks gs) as Hks1.
      { apply (Forall2_owns_mono n h); [|done]. intros q Hq. rewrite (H1 q), decide_False; [done|]. intros Hq'. by eapply Hd. }
      destruct (IHk gs h1 Hks1 Hn2) as (h2 & E2 & H2); [lia|]. exists h2. split; [exact E2|]. intros q. rewrite (H2 q), (H1 q). repeat case_decide; try done; rewrite elem_of_app in *; tauto. }
  destruct (Hkids (kids t) fs h Hk Hnd) as (h1 & E1 & H1); [lia|]. exists (delete p h1). cbn [delete_tbl]. rewrite Ht. cbn [deref mbind outcome_bind].
  cbn [mbind outcome_bind] in E1. rewrite E1. cbn [mbind outcome_bind]. rewrite (H1 p), decide_False, Ht by done. cbn [deref mbind outcome_bind]. split; [done|]. intros q. destruct (decide (p = q)) as [<-|Hne].
  - rewrite lookup_delete_eq, decide_True; [done|by left].
  - rewrite lookup_delete_ne, (H1 q) by done. repeat case_decide; try done; rewrite elem_of_cons in *; naive_solver.
Qed.

Lemma owns_in n : forall h p F, owns n h p F -> forall q, q ∈ F -> is_Some (h !! q).
Proof.
  induction n as [|n IH]; intros h p F; [done|]. intros (t & fs & Ht & Hk & ->) q [->|Hq]%elem_of_cons; [by exists t|].
  induction Hk as [|k G ks fs HG _ IHk]; [by apply elem_of_nil in Hq|]. cbn in Hq. apply elem_of_app in Hq as [Hq|Hq]; [by eapply IH|by apply IHk].
Qed.

Lemma delete_conf_spec n w p F : NoDup F -> owns n (w_tables w) p F -> exists w', delete_conf p w = Ret w' /\ without F (w_tables w) (w_tables w') /\ w_states w' = w_states w.
Proof.
  intros Hnd Ho. unfold delete_conf. assert (length F <= size (w_tables w))%nat as Hl.
  { rewrite <- size_dom. replace (length F) with (size (list_to_set F : gset Z)) by by apply size_list_to_set.
    apply subseteq_size. intros q Hq%elem_of_list_to_set. apply elem_of_dom. by eapply owns_in. }
  destruct (delete_tbl_spec (S (size (w_tables w))) n p F (w_tables w)) as (h & -> & Hh); [lia|done|done|]. by eexists.
Qed.

(** ** Claims *)

(** C15: A table of Lua whose keys are strings and integers of 32 bits, with values that are
    numbers, strings, booleans and such tables, is converted, and what services then read
    is what the table of Lua has: for every key, present or not, the value, where a table is
    read as a shared table of which the same holds; its length; and going from key to key
    gives every key once, and ends. *)
Theorem sharedata_reads st n room l w : world_ok w -> convertible st n l -> fits st room ->
  exists p w', lnewconf st n room l w = Ret (inr p, w') /\
  exists R, R p l /\ forall q l', R q l' -> exists T, st !! l' = Some T /\
    (forall k, int_key k -> exists r, lindexconf w' (Some q) k = Ret r /\ shows R (default LNil r) (lua_get T k)) /\
    llen w' (Some q) = Ret (lt_rawlen T) /\
    exists ks, walk w' q LNil ks /\ ks ≡ₚ (lt_entries T).*1.
Proof.
  intros Hw Hc Hfit. destruct (lnewconf_spec st n room l w Hw Hc Hfit) as (w' & m & E & _ & Hinj & Es & _ & _ & Htree & _).
  eexists _, w'. split; [exact E|]. exists (held st (w_next w) w' m (w_next w + 1) (w_next w')). split; [by exists n|]. intros q l' Hq.
  destruct (held_reads st (w_next w) w' m (w_next w + 1) (w_next w') Hinj) with (p := q) (l := l') as (T & H1 & H2 & H3 & H4); [|done|by exists T].
  rewrite Es, lookup_insert_eq. eexists. split; [done|]. by apply convert_stringmap_spec.
Qed.

(** C24: When the new configuration is deleted, all its tables, and the state that keeps its
    strings, are freed, each once, and nothing else has changed. *)
Theorem sharedata_freed st n room l w : world_ok w -> convertible st n l -> fits st room ->
  exists p w' w'', lnewconf st n room l w = Ret (inr p, w') /\ ldeleteconf (Some p) w' = Ret w'' /\ w_tables w'' = w_tables w /\ w_states w'' = w_states w.
Proof.
  intros Hw Hc Hfit. destruct (lnewconf_spec st n room l w Hw Hc Hfit) as (w' & m & E & Hp & _ & Es & Hlo & Hhi & Htree & F & Ho & HF). set (p := w_next w + 1) in *.
  assert (exists t, w_tables w' !! p = Some t /\ t_L t = Some (w_next w)) as (t & Ht & HL).
  { destruct n as [|n]; [done|]. destruct Htree as (_ & _ & t & T & Ht & _ & _ & _ & own & _ & HL & _). by exists t. }
  destruct (delete_conf_spec n (World (w_tables w') (delete (w_next w) (w_states w')) (w_next w')) p F) as (w'' & E' & Hd & Es'); [rewrite HF; apply NoDup_seqZ|exact Ho|].
  exists p, w', w''. split; [exact E|]. split; [|split].
  - unfold ldeleteconf. cbn [get_table mbind outcome_bind]. rewrite Ht. cbn [deref mbind outcome_bind]. rewrite HL. cbn [deref mbind outcome_bind]. rewrite Es, lookup_insert_eq. cbn [deref mbind outcome_bind].
    rewrite <- Es. exact E'.
  - apply map_eq. intros q. rewrite (Hd q). cbn [w_tables]. destruct (decide (q ∈ F)) as [Hq|Hq]; rewrite HF, elem_of_seqZ in Hq.
    + symmetry. apply Hw. unfold p in Hq. lia.
    + destruct (Z.ltb_spec q p); [by apply Hlo|]. rewrite Hhi by lia. symmetry. apply Hw. unfold p in *. lia.
  - rewrite Es'. cbn [w_states]. rewrite Es. rewrite delete_insert_eq. apply delete_id. apply Hw. lia.
Qed.

(** ** Runs *)

Module Runs.
Definition inner : lua_table := LuaTable 0 [(LString (str "b"), LInteger 5)] None.
Definition outer : lua_table := LuaTable 2
  [(LInteger 1, LInteger 11); (LInteger 2, LString (str "x")); (LString (str "a"), LTable 2); (LInteger (-3), LBoolean true); (LInteger 40, LReal 7); (LString (str "zz"), LString (str "x"))] None.
Definition st : store := {[1%positive := outer; 2%positive := inner]}.
Definition empty : world := World ∅ ∅ 100.

Lemma empty_ok : world_ok empty.
Proof. by intros q _. Qed.
Lemma st_convertible : convertible st 3 1.
Proof.
  exists outer. split; [done|]. split; [done|]. split; [done|]. split; [apply (bool_decide_unpack _); vm_compute; exact I|].
  repeat constructor; cbn; unfold INT_MIN, INT_MAX; try lia.
  exists inner. split; [done|]. split; [done|]. split; [done|]. split; [apply (bool_decide_unpack _); vm_compute; exact I|]. repeat constructor.
Qed.
Lemma st_fits : fits st 1000.
Proof. unfold fits. replace (size (strings st)) with 4%nat by (vm_compute; reflexivity). unfold INT_MAX. lia. Qed.
End Runs.

Lemma sharedata_reads_witness : exists p q w', lnewconf Runs.st 3 1000 1 Runs.empty = Ret (inr p, w') /\
  lindexconf w' (Some p) (LString (str "a")) = Ret (Some (LPointer q)) /\ lindexconf w' (Some q) (LString (str "b")) = Ret (Some (LInteger 5)) /\
  exists ks, walk w' p LNil ks /\ length ks = 6%nat.
Proof.
  destruct (sharedata_reads Runs.st 3 1000 1 Runs.empty Runs.empty_ok Runs.st_convertible Runs.st_fits) as (p & w' & E & R & HR & Hall).
  destruct (Hall p 1%positive HR) as (T & HT & Hidx & _ & ks & Hw & Hks). change (Runs.st !! 1%positive) with (Some Runs.outer) in HT. injection HT as <-.
  destruct (Hidx (LString (str "a")) I) as (r & Er & q & Eq & Hq). destruct r as [y|]; cbn in Eq; [|done]. subst y.
  destruct (Hall q 2%positive Hq) as (T' & HT' & Hidx' & _). change (Runs.st !! 2%positive) with (Some Runs.inner) in HT'. injection HT' as <-.
  destruct (Hidx' (LString (str "b")) I) as (r' & Er' & Hr'). change (lua_get Runs.inner (LString (str "b"))) with (LInteger 5) in Hr'. cbn in Hr'.
  destruct r' as [y|]; cbn in Hr'; [|done]. subst y. exists p, q, w'. split; [exact E|]. split; [exact Er|]. split; [exact Er'|]. exists ks. split; [exact Hw|].
  apply Permutation_length in Hks. exact Hks.
Defined.

Lemma sharedata_freed_witness : exists p w' w'', lnewconf Runs.st 3 1000 1 Runs.empty = Ret (inr p, w') /\ ldeleteconf (Some p) w' = Ret w'' /\ w_tables w'' = ∅ /\ w_states w'' = ∅.
Proof. exact (sharedata_freed Runs.st 3 1000 1 Runs.empty Runs.empty_ok Runs.st_convertible Runs.st_fits). Defined.

(** A value of a nested table that cannot be converted: the nested table is not freed. *)
Lemma nested_error_leaks : exists w', lnewconf {[1%positive := LuaTable 0 [(LString (str "a"), LTable 2)] None; 2%positive := LuaTable 0 [(LString (str "b"), LOther (str "function"))] None]} 3 1000 1 Runs.empty
    = Ret (inl "Unsupport value type"%string, w') /\ w_tables w' !! 102 <> None.
Proof. eexists. split; vm_compute; [reflexivity|done]. Qed.

(** A key of more than 32 bits is read as its low 32 bits. *)
Lemma wide_key : exists p w', lnewconf {[1%positive := LuaTable 1 [(LInteger 1, LInteger 11)] None]} 3 1000 1 Runs.empty = Ret (inr p, w') /\
  lindexconf w' (Some p) (LInteger (2 ^ 32 + 1)) = Ret (Some (LInteger 11)).
Proof. eexists _, _. split; [vm_compute; reflexivity|]. vm_compute. reflexivity. Qed.

(** Two keys with the same low 32 bits leave a slot that is not initialised, which lookups read. *)
Lemma wide_keys_uninitialised : exists p w', lnewconf {[1%positive := LuaTable 0 [(LInteger 5, LInteger 1); (LInteger (2 ^ 32 + 5), LInteger 2)] None]} 3 1000 1 Runs.empty = Ret (inr p, w') /\
  lindexconf w' (Some p) (LInteger 4) = Undefined.
Proof. eexists _, _. split; [vm_compute; reflexivity|]. vm_compute. reflexivity. Qed.
